(* ===== verification/_CoqProject ===== *)
-Q . S2P
Prelude.v
CoreTime.v
Authority.v
AuthorityInv.v
AuthoritySpec.v
AuthorityProps.v
InputSequence.v
Limits.v
Dos.v
DosQueue.v
DosBounds.v
InputModel.v
Submission.v
SubmissionBase.v
SubmissionProps.v
SubmissionClaims.v
SubmissionHeld.v
Bytes.v
ProcessCodec.v
ProcessProps.v
WireRecord.v
WireRecordProps.v
RecordStream.v
RecordStreamClaims.v
WireMedia.v
WireMediaProps.v
Utf8.v
WireInput.v
WireInputProps.v
WireResult.v
WireReceipts.v
WireControl.v
WireControlProps.v
WireView.v
WireGrant.v
WireViewProps.v
WireClaims.v
Delivery.v
Assembly.v
AssemblyClaims.v
RepairProps.v
Receiver.v
ReceiverInv.v
ReceiverSteps.v
ReceiverDecode.v
ReceiverSession.v
ReceiverClaims.v
Sender.v
SenderInv.v
SenderPackets.v
SenderMethods.v
SenderSession.v
SenderHistory.v
Network.v
SenderClaims.v
Idr.v
Requestor.v
RecoveryClaims.v
SharedPool.v
Freshness.v
FreshnessClaims.v
Presented.v
HostView.v
HostViewProps.v
ViewerView.v
SeenInput.v
Pacing.v
PacingClaims.v
Bitrate.v
BitrateClaims.v
Feedback.v
FeedbackClaims.v
Clipboard.v
WireClipboard.v
ClipboardProps.v
ClipboardClaims.v
Negotiation.v
NegotiationProps.v
Startup.v
StartupClaims.v
