(* ===== verification/Prelude.v ===== *)
(** * FrankenRemote: a verification development of its policy cores

    ** The program

    FrankenRemote lets a viewer watch and control a desktop over a tailnet.  The
    crates under [src/crates] separate pure policy from I/O: [fr-core] decides who
    may observe, who may control, for how long, which input reaches the operating
    system and how much any peer may consume; [fr-wire] is the record protocol the
    two ends speak; [fr-media] decides how compressed pictures travel and what is
    repaired, abandoned or decoded; [fr-transport], [fr-tailnet], [fr-native],
    [fr-client], [fr-files] and [frd] are the I/O and processes around them.  This
    development models the cores of the first three, and of [fr-client] and [frd] the
    startup of a session and the owners that join the cores:

    - [fr-core/src/authority.rs] owns one session's authorization: phases,
      observation and control deadlines, challenges, view readiness, suspension,
      one lease and its tickets.
    - [fr-core/src/input_sequence.rs] keeps the replay ledger of a lease.
    - [fr-core/src/input_submission.rs] with [held.rs], [control.rs] and [scroll.rs]
      is the serialized boundary that turns a request into native operations.  It
      asks the authority before every native call, under a lock other threads
      share, and the ledger before every reliable action.
    - [fr-core/src/input_submission/process.rs] is the codec to the out-of-process
      executor that makes the native calls.
    - [fr-core/src/limits.rs] is the numeric envelope; [dos.rs] the queues, buckets
      and accounts that enforce it.
    - [fr-core/src/clipboard.rs] with [receive.rs] and [authority.rs] owns one lane of
      the text clipboard: it takes an item apart from the peer, asks the input
      boundary's authority and hands the text to the platform.
    - [fr-client/src/startup.rs] and [frd/src/session_startup.rs] are the two ends of a
      session's startup: they negotiate an offer ([fr-wire/src/negotiation.rs]), the
      host asks its local user, opens the authority's observation and hands both over.
    - [fr-wire/src/record.rs] and [stream.rs] frame every message; the message
      modules validate, bind and route what is inside.
    - [fr-media/src/delivery] cuts pictures into records on the host ([send.rs]) and
      puts them together on the viewer ([receive.rs]), under byte budgets and
      deadlines that neither side extends; [freshness.rs] and [presented.rs] decide
      what the viewer may claim to see and what the host believes of it, which is what
      keeps the authority's view ready.

    ** The files

    - [Prelude]: results, methods on [&mut self] as state passing ([M]), record
      update, machine integers, slices, shared automation and lemmas.
    - [CoreTime]: [time.rs] and [ids.rs], instants and generations.
    - [Authority]: every method of [SessionAuthority], one definition each.
      [AuthorityInv]: the well-formedness invariant and its preservation.
      [AuthoritySpec]: the abstract transition system and the simulation of each
      method by it.  [AuthorityProps]: what follows for every history of calls.
    - [InputSequence], Module [Ledger]: the ledger, its unbounded specification
      and the refinement between them.
    - [Limits], Modules [Overrides] and [Limits]: override resolution,
      negotiation, validators.
    - [Dos], [DosQueue] (Module [FloodFair]), [DosBounds] (Modules [Bucket],
      [Registry], [Accountant], [Idle], [Probes], [Validators]): [dos.rs].
    - [InputModel]: [input.rs], [held_state.rs] (Module [Held]) and [scroll.rs]
      (Module [Scroll]).
    - [Submission]: the boundary.  The platform is any instance of the class
      [InputSink]; the clock is the list of samples it will return; the other
      threads are a schedule of [Interference], consumed before every load of the
      revocation flag and every acquisition of the lock.  The world also records
      the trace of native calls, each with the authorization it was made under.
      [SubmissionBase] and [SubmissionProps] carry the frame lemmas, the expansion
      of a request into operations and the description of each method as an
      advance of the trace.  [SubmissionClaims] states the theorems over whole
      histories of public methods, [SubmissionHeld] those about held input.
    - [Bytes], [ProcessCodec], [ProcessProps]: buffers, the executor codec and its
      exactness.
    - [WireRecord], [WireRecordProps]: [record.rs], the bounded reader and writer and
      the grammar of one record.  [Codec] is the interface between a reader and the
      bytes it accepts.
      [exact_codec], also in [WireRecordProps], is the contract between an encoder
      and a decoder of messages, with the lemmas that reduce it to their bodies.
    - [RecordStream] (Module [Stream]), [RecordStreamClaims] (Modules [StreamProps] and
      [StreamClaims]): [stream.rs], the reassembly of records from arbitrary reads.
    - [WireMedia], [WireMediaProps]: [media.rs].  [Utf8]: text.  [WireInput],
      [WireInputProps]: [input.rs], [held_state.rs], [input_ticket.rs].
      [WireResult], [WireReceipts] (with Module [ResultMsgProps]): [input_result.rs] and the
      projection of receipts in [frd/src/input_agent/result.rs].  [WireControl],
      [WireControlProps]: [authority.rs], [lease_revoked.rs], [closure.rs],
      [clock.rs].  [WireView]: [decoder.rs], [recovery_request.rs], [presented.rs],
      [receiver_metrics.rs], [quality_decision.rs].  [WireGrant]: [control.rs],
      [refusal.rs].  [WireViewProps]: the proofs of both.  [WireClaims]: what follows
      for all of them.
    - [Delivery], [Assembly], [AssemblyClaims], [RepairProps]: the shared budget, the
      reassembly of one picture and the ranges of a repair request.  [Receiver]: the
      receiving pipeline; [ReceiverInv], [ReceiverSteps], [ReceiverDecode],
      [ReceiverSession] (with Module [ReceiverChain]) its invariant over every method,
      [ReceiverClaims] the theorems over whole sessions.
    - [Sender]: the sending cache, [send.rs] with [observation.rs], [recovery.rs] and
      [repair.rs].  [SenderInv]: its invariant.  [SenderPackets] (Modules [SenderRepair]
      and [SenderPackets]): the merging of repair ranges and the packets written.
      [SenderMethods] (with Module [SenderSteps]): each method with its records.
      [SenderSession]: any sequence of calls.  [SenderHistory] (Modules [SenderDrain]
      and [SenderHistory]): the loop that sends everything, and allowances over time.  [SenderClaims]: the theorems.  [Network]: the cache and the
      pipeline joined by a network.
    - [Idr]: [idr.rs], the coalescer of intra pictures, with the admission of a
      capture in [frd/src/media/recovery_source.rs].  [Requestor]:
      [recovery.rs], the viewer's recovery requests.  [RecoveryClaims]: its lemmas, and
      the path of a request from a failed receiver to the encoder.
    - [SharedPool]: [shared.rs] and [access_unit.rs], the ledger of shared pictures.
    - [Freshness], [FreshnessClaims]: [fr-media/src/freshness.rs],
      the correlation of the two clocks and the tracker of the visible view.
      [Presented]: [fr-media/src/presented.rs], the host's verifier and the viewer's
      reporter.  [HostView], [ViewerView]: their owners, [HostViewProps] (with Module
      [PresentedProps]) their lemmas, of [frd/src/media/presented.rs].  [SeenInput]:
      the two ends together,
      from the viewer's screen to the authorization of input.
    - [Pacing], [PacingClaims]: [fr-media/src/pacing.rs], the controller of the capture
      interval, its invariant, the evidence behind its decisions and the pace of its
      reductions.  [Bitrate], [BitrateClaims]: [bitrate.rs], the controller of the
      encoder's rate.  [Feedback], [FeedbackClaims]: [receiver_feedback.rs], the
      solicited metrics of the viewer, both ends joined by the records between them.
    - [Clipboard]: the text clipboard of [fr-core], over the class [Authority] with the
      instance [Host] on the input boundary, the switches as atomics under a schedule
      of other threads, the platform as any [ClipboardSink].  [WireClipboard]:
      [fr-wire/src/clipboard.rs], [send.rs] and [receive.rs].  [ClipboardProps]: the
      codec, the sender and the invariant of the session; [ClipboardClaims]: the
      theorems.
    - [Negotiation], Modules [Negotiation] and [Inspection]: offers, selections, the
      startup messages and the terminal inspection.  [NegotiationProps]: the exactness
      of their codec and the algebra of intersections.  [Startup], Modules [Client] and
      [Host]: the two ends.  The host's readings of its clock, with the decisions the
      consent dialogue takes before each, its lease and its transport's state, are a
      list of [Moment]s.  [StartupClaims]: each end against any peer (Modules
      [ClientClaims], [HostClaims]) and the two together (Module [Session]).

    ** What the theorems show

    Authorization: every method of the authority is a finite sequence of guarded
    abstract transitions, and a submission is authorized exactly while the clock is
    before the earliest of the ticket, lease, observation and view deadlines.
    Expired leases, expired observation, stale tickets, closed sessions and
    unconfirmed suspensions stay dead under every later history; a renewal sets the
    deadline fixed at its challenge and nothing later.

    Input: every native call is authorized for a dispatched request or is a
    release; receipts are truthful; a sequence is executed at most once; revocation
    leaves releases only; the held state is exactly what the calls imply; cleanup
    with a working sink leaves nothing held; reconciliation releases exactly what
    the snapshot dropped.  The ledger with its bounded ring answers as the ledger
    that remembers everything.

    Executor: frames round-trip, decode in one way only, and the executor's
    deadline never lies after the owner's.

    Resources: queues stay within their bounds, are fair and first-in first-out per
    lane; buckets enforce their rate over every window; accounts stay within their
    limits however operations interleave; overrides resolve exactly when each lies
    in its range, and negotiation is the greatest common envelope.

    Protocol: a record is accepted exactly when it follows the grammar; a stream
    delivers the division of its bytes into records, whatever the reads, within
    its memory and its deadline, or fails for good; every message codec is exact:
    valid messages have one frame, and both ends refuse the rest.  Every receipt
    the submission boundary produces can be reported, field by field and under the
    refusal code of the protocol's table, and is read back unchanged.

    Pictures: fragments tile a picture and reassemble in any order; the receiver
    hands out the host's pictures only, byte for byte, in dependency order, before
    their deadlines, within its budget; a failed chain is silent until it is
    replaced; a repair request names the holes.  The sender sends every cached
    picture once and in order, resends what is asked for within its allowance, lets
    no packet of a replaced generation out and rations failed generations; and
    whatever a network between the two loses, repeats or reorders, what is decoded
    is what was pushed.

    Recovery: a failed receiver requests recovery once, before a deadline that the
    failure fixed; the bytes of the request open a demand at the sender it names,
    and the demand reaches the encoder's queue.  Intra pictures keep their distance
    whoever asks, and a shared demand is served when the allowance comes before its
    deadline.  The pool of shared pictures is charged for exactly what is alive.

    The view: ages and deadlines across the two clocks err on the safe side for every
    host clock within the drift; evidence stands for a picture that is on the screen
    and whose source was checked within the bound; a loss is reported before anything
    that follows it; and input is authorized only within a second of an observation,
    made by the host, of the picture the viewer really saw.

    Quality: capture goes faster only after two seconds of measured headroom or when
    something moved after verified stillness, slower only after measured pressure, a
    gap in the evidence or verified stillness; a sender that stays blocked drives it
    to the slowest rate in bounded time; the history is the last sixteen decisions.
    The encoder's rate stays in its range and changes at most twice in two seconds,
    for evidence in the log, or back when that evidence was withdrawn while the
    capture with the change was on its way.  A load the host acts on was measured by the viewer
    for a query of the last 150 milliseconds, and queries and samples are rationed.

    Clipboard: a published text is one complete item of the peer, accepted and
    undisturbed since by local copies and by switches, whichever thread moved them; it
    is published once, in order, under live control and before a deadline fixed at its
    start; it is the text the sender was made for; and a text whose records arrive in
    turn is published.  Setting a switch is atomic.

    Startup: an intersection of two offers is refused exactly when one side requires
    what the other lacks, and is otherwise what both share, whichever side computes it.
    An end opens a session only on terms it offered, whatever its peer sends and
    whenever; the host observes only after a consent its user gave for this session;
    and two honest ends, given time and consent, end with the same session.

    ** Conventions

    A [w]-bit integer is a [Z]; checked and saturating operations are written out,
    and the few plain additions of the sources wrap, as in the release profile.
    Loops over arrays are folds over lists; a loop with an index runs on fuel equal
    to a bound on its rounds (the probes for [on_session_closed], the fragments for
    [missing], the bytes for the extensions of a record), and its lemmas show that
    this is enough.  A method returns a result and the receiver it leaves behind,
    so the effects of an early return are kept.  Allocators, structure sizes and
    the platform sink are parameters.  Theorems about histories quantify over every
    list of calls.

    ** What is not modelled

    [Debug] and [Display] output; poisoned mutexes and destructors run by
    unwinding, since the release profile aborts on panic; the operating system
    behind [InputSink] and [ClipboardSink]; the crates named above as I/O.  Of
    [fr-core] also the audio policy, clipboard images and the private codecs to the
    clipboard executor and the sharing indicator; of [fr-wire] attachment and the
    audio, cursor, display and file messages; of the startup the asynchronous drive, the
    refresh of an admission and the reports of refusals and closures; of [fr-media] the
    quality recommendation and the codec glue.  They follow the patterns above on the
    same record layer and were left out for size. *)

From stdpp Require Export base decidable relations list option numbers gmap.
From Stdlib Require Export ZArith Lia Bool.

#[global] Open Scope Z_scope.
#[global] Set Default Proof Using "Type".

(** ** Fallible results

    [Result<A, E>] of the Rust sources, with the error type first so that
    [Result E] is a monad. *)

Inductive Result (E A : Type) : Type :=
| Ok (a : A)
| Err (e : E).
Arguments Ok {E A} a.
Arguments Err {E A} e.

#[export] Instance Result_eq_dec {E A : Type} `{EqDecision E, EqDecision A} :
  EqDecision (Result E A).
Proof. solve_decision. Defined.

#[export] Instance Result_ret {E : Type} : MRet (Result E) := fun A a => Ok a.
#[export] Instance Result_bind {E : Type} : MBind (Result E) :=
  fun A B k m => match m with Ok a => k a | Err e => Err e end.

Definition is_ok {E A : Type} (r : Result E A) : bool :=
  match r with Ok _ => true | Err _ => false end.

(** [Option::ok_or]. *)
Definition ok_or {E A : Type} (o : option A) (e : E) : Result E A :=
  match o with Some a => Ok a | None => Err e end.

(** [Result::map_err]. *)
Definition map_err {E F A : Type} (f : E -> F) (r : Result E A) : Result F A :=
  match r with Ok a => Ok a | Err e => Err (f e) end.

(** ** Methods on [&mut self]

    A method that mutates its receiver and may fail is a function from the
    receiver to a result AND the receiver it leaves behind: an early [return
    Err(..)] keeps every assignment made before it. *)

Definition M (S E A : Type) : Type := S -> Result E A * S.

#[export] Instance M_ret {S E : Type} : MRet (M S E) := fun A a s => (Ok a, s).
#[export] Instance M_bind {S E : Type} : MBind (M S E) :=
  fun A B k m s =>
    match m s with
    | (Ok a, s') => k a s'
    | (Err e, s') => (Err e, s')
    end.

Section methods.
Context {S E : Type}.

Definition fail {A : Type} (e : E) : M S E A := fun s => (Err e, s).
Definition gets {A : Type} (f : S -> A) : M S E A := fun s => (Ok (f s), s).
Definition modify (f : S -> S) : M S E unit := fun s => (Ok tt, f s).

(** [if cond { return Err(e); }], the condition read from the receiver. *)
Definition refuse_if (c : S -> bool) (e : S -> E) : M S E unit :=
  fun s => if c s then (Err (e s), s) else (Ok tt, s).

(** [r?] for a result that does not touch the receiver. *)
Definition lift {A : Type} (r : Result E A) : M S E A := fun s => (r, s).

(** [r?] for a result computed from the receiver ([&self] helper). *)
Definition readr {A : Type} (f : S -> Result E A) : M S E A := fun s => (f s, s).

(** The weakest precondition of a method: what it returns and what it leaves
    behind satisfy [Q]. *)
Definition wp {A : Type} (m : M S E A) (s : S) (Q : Result E A -> S -> Prop) : Prop :=
  Q (fst (m s)) (snd (m s)).

(** Every path of the method keeps [I], early returns included. *)
Definition preserves {A : Type} (I : S -> Prop) (m : M S E A) : Prop :=
  forall s, I s -> I (snd (m s)).

End methods.

(** ** Record update, [r <| field := v |>] *)

(** The eta-expansion of a record in terms of its projections; one instance per
    record gives every field setter. *)
Class Eta (R : Type) := eta : R -> R.
Class Setter {R T : Type} (proj : R -> T) := setter : (T -> T) -> R -> R.

Definition upd {R T : Type} (proj : R -> T) {H : Setter proj} (f : T -> T) (r : R) : R :=
  setter f r.
Arguments upd {R T} proj {H} f r /.
Arguments setter {R T} proj {Setter} f r /.

Ltac derive_setter :=
  match goal with
  | |- @Setter ?R ?T ?proj =>
      let e := constr:(_ : Eta R) in
      let e := eval hnf in e in
      let f := fresh "f" in let r := fresh "r" in
      intros f r;
      let b := eval cbv beta in (e r) in
      match eval pattern (proj r) in b with
      | ?g _ => let c := eval cbv beta in (g (f (proj r))) in exact c
      end
  end.
#[export] Hint Extern 1 (Setter _) => derive_setter : typeclass_instances.

Declare Scope record_scope.
#[global] Open Scope record_scope.
Notation "r <| p := v |>" := (upd p (fun _ => v) r)
  (at level 1, left associativity, p constr, format "r  <|  p  :=  v  |>") : record_scope.

(** ** Machine integers

    A [w]-bit unsigned integer is a [Z] in [0 .. max]; the sources use the
    checked and the saturating operations, which are written out here. *)

Definition u8_max : Z := 2 ^ 8 - 1.
Definition u16_max : Z := 2 ^ 16 - 1.
Definition u32_max : Z := 2 ^ 32 - 1.
Definition u64_max : Z := 2 ^ 64 - 1.
Definition u128_max : Z := 2 ^ 128 - 1.
Definition i32_max : Z := 2 ^ 31 - 1.
Definition i32_min : Z := - 2 ^ 31.
Definition i64_max : Z := 2 ^ 63 - 1.
Definition i64_min : Z := - 2 ^ 63.

(** A value in the range of an unsigned type of maximum [m]. *)
Definition fits (m z : Z) : Prop := 0 <= z <= m.
#[export] Instance fits_dec (m z : Z) : Decision (fits m z).
Proof. unfold fits; apply _. Defined.

Definition checked_add (m a b : Z) : option Z := if a + b <=? m then Some (a + b) else None.
Definition checked_sub (a b : Z) : option Z := if b <=? a then Some (a - b) else None.
Definition checked_mul (m a b : Z) : option Z := if a * b <=? m then Some (a * b) else None.
Definition saturating_add (m a b : Z) : Z := Z.min m (a + b).
Definition saturating_sub (a b : Z) : Z := Z.max 0 (a - b).
Definition saturating_mul (m a b : Z) : Z := Z.min m (a * b).
(** [a + b] in a release build: wraps at the width. *)
Definition wrapping_add (m a b : Z) : Z := (a + b) mod (m + 1).

(** ** Slices and options *)

(** [Option::is_some_and] and [Option::is_none_or]. *)
Definition is_some_and {A : Type} (f : A -> bool) (o : option A) : bool :=
  match o with Some a => f a | None => false end.
Definition is_none_or {A : Type} (f : A -> bool) (o : option A) : bool :=
  match o with Some a => f a | None => true end.
Definition is_some {A : Type} (o : option A) : bool :=
  match o with Some _ => true | None => false end.

(** [iter().flatten()] over a slice of options. *)
Definition flatten {A : Type} (l : list (option A)) : list A := omap id l.

(** [iter().find(p)] and [iter().position(p)]. *)
Fixpoint find_first {A : Type} (p : A -> bool) (l : list A) : option A :=
  match l with
  | [] => None
  | x :: l => if p x then Some x else find_first p l
  end.
Fixpoint position {A : Type} (p : A -> bool) (l : list A) : option nat :=
  match l with
  | [] => None
  | x :: l => if p x then Some 0%nat else S <$> position p l
  end.

(** [Vec::swap_remove(i)]: the last element takes the hole. *)
Definition swap_remove {A : Type} (i : nat) (l : list A) : list A :=
  match last l with
  | None => l
  | Some x => if decide (S i = length l) then removelast l else <[i := x]> (removelast l)
  end.

(** ** Automation *)

Create HintDb remote.
#[export] Hint Unfold fits : remote.

(** Split on every [if] and [match] of the goal and the hypotheses, keeping the
    equation of the scrutinee. *)
Ltac split_match :=
  match goal with
  | |- context [match ?x with _ => _ end] =>
      lazymatch x with context [match _ with _ => _ end] => fail | _ => destruct x eqn:? end
  | H : context [match ?x with _ => _ end] |- _ =>
      lazymatch x with context [match _ with _ => _ end] => fail | _ => destruct x eqn:? end
  end.
Ltac split_matches := repeat (split_match; simplify_eq/=).

(** Unfold the method combinators. *)
Ltac run_method :=
  unfold mbind, M_bind, mret, M_ret, fail, gets, modify, refuse_if, lift, readr in *.

(** Expose record updates. *)
Ltac expose := cbn [upd setter fst snd] in *.

(** ** Lemmas on methods *)

Section method_lemmas.
Context {S E : Type}.

Lemma wp_bind {A B : Type} (m : M S E A) (k : A -> M S E B) s Q :
  wp m s (fun r s' => match r with Ok a => wp (k a) s' Q | Err e => Q (Err e) s' end) ->
  wp (m ≫= k) s Q.
Proof.
  unfold wp, mbind, M_bind. destruct (m s) as [[a|e] s'] eqn:Hm; done.
Qed.

Lemma wp_mono {A : Type} (m : M S E A) s (P Q : Result E A -> S -> Prop) :
  wp m s P -> (forall r s', P r s' -> Q r s') -> wp m s Q.
Proof. unfold wp. auto. Qed.

Lemma wp_refuse_if (c : S -> bool) (e : S -> E) s Q :
  (c s = true -> Q (Err (e s)) s) -> (c s = false -> Q (Ok tt) s) ->
  wp (refuse_if c e) s Q.
Proof. unfold wp, refuse_if. destruct (c s); auto. Qed.

(** The method runs as [m'] in this state. *)
Lemma wp_eq {A : Type} (m m' : M S E A) s Q : m s = m' s -> wp m' s Q -> wp m s Q.
Proof. unfold wp. by intros ->. Qed.

(** One step of a method, for the steps that leave the state alone. *)
Lemma wp_readr {A B : Type} (f : S -> Result E A) (k : A -> M S E B) s Q :
  match f s with Ok a => wp (k a) s Q | Err e => Q (Err e) s end -> wp (readr f ≫= k) s Q.
Proof. unfold wp, mbind, M_bind, readr. by destruct (f s). Qed.

Lemma wp_lift {A B : Type} (r : Result E A) (k : A -> M S E B) s Q :
  match r with Ok a => wp (k a) s Q | Err e => Q (Err e) s end -> wp (lift r ≫= k) s Q.
Proof. unfold wp, mbind, M_bind, lift. by destruct r. Qed.

Lemma wp_gets {A B : Type} (f : S -> A) (k : A -> M S E B) s Q : wp (k (f s)) s Q -> wp (gets f ≫= k) s Q.
Proof. done. Qed.

Lemma wp_modify {B : Type} (f : S -> S) (k : unit -> M S E B) s Q :
  wp (k tt) (f s) Q -> wp (modify f ≫= k) s Q.
Proof. done. Qed.

Lemma wp_refuse {B : Type} (c : S -> bool) (e : S -> E) (k : unit -> M S E B) s Q :
  (if c s then Q (Err (e s)) s else wp (k tt) s Q) -> wp (refuse_if c e ≫= k) s Q.
Proof. unfold wp, mbind, M_bind, refuse_if. by destruct (c s). Qed.

Lemma preserves_ret {A : Type} (I : S -> Prop) (a : A) : preserves (E:=E) I (mret a).
Proof. intros s Hs. done. Qed.

Lemma preserves_fail {A : Type} (I : S -> Prop) (e : E) : preserves (A:=A) I (fail e).
Proof. intros s Hs. done. Qed.

Lemma preserves_gets {A : Type} (I : S -> Prop) (f : S -> A) : preserves (E:=E) I (gets f).
Proof. intros s Hs. done. Qed.

Lemma preserves_refuse_if (I : S -> Prop) c (e : S -> E) : preserves I (refuse_if c e).
Proof. intros s Hs. unfold refuse_if. by destruct (c s). Qed.

Lemma preserves_lift {A : Type} (I : S -> Prop) (r : Result E A) : preserves I (lift r).
Proof. intros s Hs. done. Qed.

Lemma preserves_readr {A : Type} (I : S -> Prop) (f : S -> Result E A) :
  preserves I (readr f).
Proof. intros s Hs. done. Qed.

Lemma preserves_modify (I : S -> Prop) (f : S -> S) :
  (forall s, I s -> I (f s)) -> preserves (E:=E) I (modify f).
Proof. intros Hf s Hs. by apply Hf. Qed.

Lemma preserves_bind {A B : Type} (I : S -> Prop) (m : M S E A) (k : A -> M S E B) :
  preserves I m -> (forall a, preserves I (k a)) -> preserves I (m ≫= k).
Proof.
  intros Hm Hk s Hs. unfold mbind, M_bind. specialize (Hm s Hs).
  destruct (m s) as [[a|e] s'] eqn:?; [by apply Hk | done].
Qed.

Lemma method_bind_Ok {A B : Type} (m : M S E A) (k : A -> M S E B) s b s' :
  (m ≫= k) s = (Ok b, s') <-> exists a s1, m s = (Ok a, s1) /\ k a s1 = (Ok b, s').
Proof.
  unfold mbind, M_bind. split.
  - destruct (m s) as [[a|e] s1] eqn:Hm; [|done]. intros Hk. by exists a, s1.
  - intros (a & s1 & -> & Hk). done.
Qed.

Lemma refuse_if_Ok (c : S -> bool) (e : S -> E) s u s' :
  refuse_if c e s = (Ok u, s') <-> c s = false /\ s' = s.
Proof.
  unfold refuse_if. destruct u, (c s); split; try done.
  - by intros [? ?].
  - by intros [= <-].
  - by intros [_ ->].
Qed.

End method_lemmas.

#[export] Hint Resolve preserves_ret preserves_fail preserves_gets preserves_refuse_if
  preserves_lift preserves_readr preserves_modify preserves_bind : remote.

Lemma Result_bind_Ok {E A B : Type} (m : Result E A) (k : A -> Result E B) b :
  (m ≫= k) = Ok b <-> exists a, m = Ok a /\ k a = Ok b.
Proof.
  destruct m as [a|e]; cbn; split; try done; [|by intros (x & [= <-] & ?) | by intros (? & ? & ?)].
  intros H. by exists a.
Qed.

(** ** Lemmas on integers *)

Lemma checked_add_Some m a b c : checked_add m a b = Some c <-> c = a + b /\ a + b <= m.
Proof. unfold checked_add. destruct (a + b <=? m) eqn:?; naive_solver lia. Qed.

Lemma checked_sub_Some a b c : checked_sub a b = Some c <-> c = a - b /\ b <= a.
Proof. unfold checked_sub. destruct (b <=? a) eqn:?; naive_solver lia. Qed.

Lemma checked_mul_Some m a b c : checked_mul m a b = Some c <-> c = a * b /\ a * b <= m.
Proof. unfold checked_mul. destruct (a * b <=? m) eqn:?; naive_solver lia. Qed.

Lemma saturating_sub_nonneg a b : 0 <= saturating_sub a b.
Proof. unfold saturating_sub. lia. Qed.
#[export] Hint Resolve saturating_sub_nonneg : remote.

(** ** Lemmas on lists *)

Section list_lemmas.
Context {A : Type}.

Lemma elem_of_flatten (l : list (option A)) (x : A) : x ∈ flatten l <-> Some x ∈ l.
Proof. unfold flatten. rewrite list_elem_of_omap. naive_solver. Qed.

Lemma find_first_Some (p : A -> bool) l x :
  find_first p l = Some x -> x ∈ l /\ p x = true.
Proof.
  induction l as [|y l IH]; simpl; [done|].
  destruct (p y) eqn:?; intros; simplify_eq.
  - split; [apply list_elem_of_here | done].
  - destruct IH as [? ?]; [done|]. split; [by apply list_elem_of_further | done].
Qed.

Lemma find_first_None (p : A -> bool) l :
  find_first p l = None <-> forall x, x ∈ l -> p x = false.
Proof.
  induction l as [|y l IH]; simpl.
  - split; [|done]. intros _ x Hx. by apply not_elem_of_nil in Hx.
  - destruct (p y) eqn:?.
    + split; [done|]. intros H. specialize (H y (list_elem_of_here _ _)). congruence.
    + rewrite IH. split.
      * intros H x [->|?]%elem_of_cons; auto.
      * intros H x ?. apply H. by apply list_elem_of_further.
Qed.

Lemma position_Some (p : A -> bool) l i :
  position p l = Some i ->
  exists x, l !! i = Some x /\ p x = true /\
    forall j y, (j < i)%nat -> l !! j = Some y -> p y = false.
Proof.
  revert i; induction l as [|y l IH]; intros i; simpl; [done|].
  destruct (p y) eqn:Hy.
  - intros; simplify_eq. exists y. split_and!; [done..|]. intros; lia.
  - destruct (position p l) as [k|] eqn:Hk; simpl; [|done]. intros; simplify_eq.
    destruct (IH k eq_refl) as (x & Hx & Hp & Hb). exists x. split_and!; [done..|].
    intros [|j] z Hj Hz; simpl in *; [congruence|]. eapply Hb; [|done]. lia.
Qed.

Lemma position_None (p : A -> bool) l :
  position p l = None <-> forall x, x ∈ l -> p x = false.
Proof.
  induction l as [|y l IH]; simpl.
  - split; [|done]. intros _ x Hx. by apply not_elem_of_nil in Hx.
  - destruct (p y) eqn:Hy.
    + split; [done|]. intros H. specialize (H y (list_elem_of_here _ _)). congruence.
    + destruct (position p l) as [k|] eqn:Hk; simpl.
      * split; [done|]. intros H.
        assert (Some k = None); [|done]. apply IH. intros x Hx.
        apply H. by apply list_elem_of_further.
      * split; [|done]. intros _ x [->|Hx]%elem_of_cons; [done|]. by apply IH.
Qed.

Lemma list_snoc_last (l : list A) x : last l = Some x -> l = removelast l ++ [x].
Proof.
  intros H. apply last_Some in H as [l' ->].
  by rewrite List.removelast_last.
Qed.

Lemma swap_remove_Permutation (l : list A) i x :
  l !! i = Some x -> x :: swap_remove i l ≡ₚ l.
Proof.
  intros Hi. unfold swap_remove. destruct (last l) as [y|] eqn:Hl.
  2:{ apply last_None in Hl as ->. done. }
  apply list_snoc_last in Hl. set (l0 := removelast l) in *. clearbody l0. subst l.
  rewrite length_app; simpl. case_decide as Hd.
  - rewrite lookup_app_r in Hi by lia.
    replace (i - length l0)%nat with 0%nat in Hi by lia. simplify_eq/=.
    by rewrite Permutation_app_comm.
  - assert (i < length l0)%nat.
    { apply lookup_lt_Some in Hi. rewrite length_app in Hi. simpl in Hi. lia. }
    rewrite lookup_app_l in Hi by done.
    rewrite insert_take_drop by done.
    rewrite <- (take_drop_middle l0 i x) at 3 by done.
    rewrite <- app_assoc, <- app_comm_cons.
    rewrite (Permutation_middle (take i l0)). apply Permutation_app_head.
    apply perm_skip. apply Permutation_cons_append.
Qed.

Lemma swap_remove_length (l : list A) i :
  (i < length l)%nat -> S (length (swap_remove i l)) = length l.
Proof.
  intros Hi. apply lookup_lt_is_Some in Hi as [x Hx].
  apply swap_remove_Permutation in Hx. apply Permutation_length in Hx. done.
Qed.

Lemma filter_none (P : A -> Prop) `{forall x, Decision (P x)} (l : list A) :
  (forall x, x ∈ l -> ~ P x) -> filter P l = [].
Proof.
  induction l as [|x l IH]; intros Hn; [done|].
  rewrite filter_cons_False by (apply Hn, list_elem_of_here).
  apply IH. intros y Hy. by apply Hn, list_elem_of_further.
Qed.

Lemma filter_all (P : A -> Prop) `{forall x, Decision (P x)} (l : list A) :
  (forall x, x ∈ l -> P x) -> filter P l = l.
Proof.
  induction l as [|x l IH]; intros Hn; [done|].
  rewrite filter_cons_True by (apply Hn, list_elem_of_here). f_equal.
  apply IH. intros y Hy. by apply Hn, list_elem_of_further.
Qed.

End list_lemmas.
