(* ===== verification/CoreTime.v ===== *)
(** * Host time, opaque identities and generations

    [fr-core/src/time.rs] and [fr-core/src/ids.rs].  Instants and durations are
    [u64] microseconds; identities are opaque [u128] values compared by value;
    generations are [u64] counters that only move forward. *)

From S2P Require Import Prelude.

Abbreviation HostInstant := Z (only parsing).
Abbreviation HostDuration := Z (only parsing).
Abbreviation RemoteSessionId := Z (only parsing).
Abbreviation InputLeaseId := Z (only parsing).
Abbreviation InputTicketId := Z (only parsing).

(** ** Instants *)

Module HostTime.

(** [HostInstant::checked_add]: deadlines never wrap. *)
Definition instant_add (t : HostInstant) (d : HostDuration) : option HostInstant :=
  checked_add u64_max t d.

(** [HostInstant::checked_duration_since]. *)
Definition duration_since (t earlier : HostInstant) : option HostDuration :=
  checked_sub t earlier.

(** [HostDuration::from_millis_checked]. *)
Definition from_millis_checked (millis : Z) : option HostDuration :=
  checked_mul u64_max millis 1000.

Definition ORIGIN : HostInstant := 0.
Definition ZERO : HostDuration := 0.

End HostTime.

(** ** Generations *)

Module Generation.

Definition INITIAL : Z := 0.

(** The successor generation, [None] when the counter is exhausted. *)
Definition next (g : Z) : option Z := checked_add u64_max g 1.

(** [self.supersedes(other)]. *)
Definition supersedes (g other : Z) : bool := other <? g.

(** Advance [n] times; [None] as soon as the counter is exhausted. *)
Fixpoint advance (n : nat) (g : Z) : option Z :=
  match n with
  | O => Some g
  | S n => match next g with Some g' => advance n g' | None => None end
  end.

(** A generation chain never repeats: every later value supersedes the start,
    and the value is the start plus the number of advances. *)
Lemma advance_Some n g g' :
  g <= u64_max -> advance n g = Some g' <-> g' = g + Z.of_nat n /\ g' <= u64_max.
Proof.
  revert g; induction n as [|n IH]; intros g Hg; simpl.
  - split; [intros [= <-]; lia | intros [-> _]; f_equal; lia].
  - unfold next. destruct (checked_add u64_max g 1) as [h|] eqn:Hh.
    + apply checked_add_Some in Hh as [-> ?]. rewrite IH by lia. lia.
    + unfold checked_add in Hh. destruct (g + 1 <=? u64_max) eqn:?; [done|].
      split; [done | lia].
Qed.

End Generation.

Lemma instant_add_Some t d u :
  HostTime.instant_add t d = Some u <-> u = t + d /\ t + d <= u64_max.
Proof. apply checked_add_Some. Qed.
