(* ===== verification/Authority.v ===== *)
(** * Session authority: the operations

    [fr-core/src/authority.rs].  One [SessionAuthority] decides, for one remote
    session, whether protected pixels may be delivered (observation), whether
    the presented view is trustworthy (readiness) and whether an input action
    may be submitted (lease and ticket).  Every method is a definition over the
    record of the source's fields; the invariant and the theorems are in
    [AuthorityInv] and [AuthorityProps]. *)

From S2P Require Import Prelude CoreTime.

(** ** Data *)

Inductive Phase :=
| Identified
| CapabilitiesChecked
| WaitingApproval
| ViewOpening
| Viewing
| Refused
| Closed.

Inductive AuthorityError :=
| InvalidState (phase : Phase)
| ObservationExpired
| NoLease
| StaleLease
| LeaseExpired
| ViewUnready
| ControllerBusy
| ControllerCleanupRequired
| TicketInvalid
| TicketExpired
| TicketCapacity
| ChallengeMismatch
| ChallengePending
| ChallengeExpired
| ClockRegression
| DeadlineOverflow
| ReleasePending
| StaleGeneration.

Inductive ViewReadiness := Unready | Ready | Stale.

#[export] Instance Phase_eq_dec : EqDecision Phase.
Proof. solve_decision. Defined.
#[export] Instance AuthorityError_eq_dec : EqDecision AuthorityError.
Proof. solve_decision. Defined.
#[export] Instance ViewReadiness_eq_dec : EqDecision ViewReadiness.
Proof. solve_decision. Defined.

Record AuthorityPolicy := mkPolicy {
  authorization_lifetime : HostDuration;
  ticket_lifetime : HostDuration;
}.

Definition plan_defaults : AuthorityPolicy := mkPolicy 3000000 1000000.

Definition MAX_VIEW_SUSPENSION : HostDuration := 10000000.
Definition MAX_LIVE_INPUT_TICKETS : nat := 8.

Inductive ControlStatus :=
| Live (until : HostInstant)
| Suspended (until : HostInstant) (released : bool).

Record Suspension := mkSuspension { since : HostInstant; released : bool }.
Record Challenge := mkChallenge { nonce : Z; deadline : HostInstant }.
Record Ticket := mkTicket { ticket_id : InputTicketId; expires_at : HostInstant }.
Record Lease := mkLease {
  lease_ident : InputLeaseId;
  authorized_until : HostInstant;
  tickets : list (option Ticket);
}.

Record SessionAuthority := mkAuthority {
  session : RemoteSessionId;
  policy : AuthorityPolicy;
  phase : Phase;
  observation_until : option HostInstant;
  readiness : ViewReadiness;
  view_until : option HostInstant;
  presented_sequence : option Z;
  bounded_view : bool;
  lease : option Lease;
  suspension : option Suspension;
  recovery : option Z;
  native_owner : option Z;
  observation_challenge : option Challenge;
  control_challenge : option Challenge;
  last_checked : option HostInstant;
  clock_faulted : bool;
}.

#[export] Instance eta_lease : Eta Lease := fun r =>
  mkLease (lease_ident r) (authorized_until r) (tickets r).
#[export] Instance eta_suspension : Eta Suspension := fun r =>
  mkSuspension (since r) (released r).
#[export] Instance eta_authority : Eta SessionAuthority := fun r =>
  mkAuthority (session r) (policy r) (phase r) (observation_until r) (readiness r)
    (view_until r) (presented_sequence r) (bounded_view r) (lease r) (suspension r)
    (recovery r) (native_owner r) (observation_challenge r) (control_challenge r)
    (last_checked r) (clock_faulted r).

Abbreviation AuthM := (M SessionAuthority AuthorityError).

(** [[None; MAX_LIVE_INPUT_TICKETS]], also what [tickets.fill(None)] leaves. *)
Definition no_tickets : list (option Ticket) := replicate MAX_LIVE_INPUT_TICKETS None.
#[global] Arguments no_tickets : simpl never.

Definition new (s : RemoteSessionId) (p : AuthorityPolicy) : SessionAuthority :=
  {| session := s; policy := p; phase := Identified; observation_until := None;
     readiness := Unready; view_until := None; presented_sequence := None;
     bounded_view := false; lease := None; suspension := None; recovery := None;
     native_owner := None; observation_challenge := None; control_challenge := None;
     last_checked := None; clock_faulted := false |}.

(** ** Private helpers *)

Definition clear_authority (a : SessionAuthority) : SessionAuthority :=
  a <| observation_until := None |> <| readiness := Unready |> <| view_until := None |>
    <| presented_sequence := None |> <| lease := None |> <| suspension := None |>
    <| native_owner := None |> <| observation_challenge := None |>
    <| control_challenge := None |>.

(** [matches!(phase, ViewOpening | Viewing)]. *)
Definition observing (p : Phase) : bool :=
  match p with ViewOpening | Viewing => true | _ => false end.

Definition drop_observation (a : SessionAuthority) : SessionAuthority :=
  let a := clear_authority a in
  if observing (phase a) then a <| phase := CapabilitiesChecked |> else a.

Definition close (a : SessionAuthority) : SessionAuthority :=
  (clear_authority a) <| phase := Closed |>.

Definition refuse (a : SessionAuthority) : SessionAuthority :=
  (clear_authority a) <| phase := Refused |>.

Definition invalidate_for_suspend : SessionAuthority -> SessionAuthority := drop_observation.

Definition is_ready (r : ViewReadiness) : bool :=
  match r with Ready => true | _ => false end.

Definition clear_tickets (a : SessionAuthority) : SessionAuthority :=
  match lease a with
  | Some l => a <| lease := Some (l <| tickets := no_tickets |>) |>
  | None => a
  end.

(** The view stopped being trustworthy at [at_]. *)
Definition lapse_view (at_ : HostInstant) (a : SessionAuthority) : SessionAuthority :=
  let a := a <| view_until := None |> <| presented_sequence := None |> in
  let a :=
    if is_ready (readiness a) then
      let a := a <| readiness := Stale |> in
      if bounded_view a && is_some (lease a) && negb (is_some (suspension a))
      then a <| suspension := Some (mkSuspension at_ false) |>
      else a
    else a in
  clear_tickets a.

(** [if let Some(until) = self.view_until.filter(|until| now >= *until)]. *)
Definition lapse_if_due (now : HostInstant) (a : SessionAuthority) : SessionAuthority :=
  match view_until a with
  | Some until => if until <=? now then lapse_view until a else a
  | None => a
  end.

#[global] Arguments clear_tickets : simpl never.
#[global] Arguments lapse_view : simpl never.
#[global] Arguments lapse_if_due : simpl never.
#[global] Arguments drop_observation : simpl never.

Definition check_time (now : HostInstant) : AuthM unit := fun a =>
  if clock_faulted a || is_some_and (fun previous => now <? previous) (last_checked a)
  then (Err ClockRegression, close (a <| clock_faulted := true |>))
  else (Ok tt, lapse_if_due now (a <| last_checked := Some now |>)).

Definition check_observation_live (a : SessionAuthority) (now : HostInstant)
  : Result AuthorityError unit :=
  if negb (observing (phase a)) then Err (InvalidState (phase a))
  else match observation_until a with
       | Some until => if now <? until then Ok tt else Err ObservationExpired
       | None => Err ObservationExpired
       end.

(** [now.checked_add(d).filter(|deadline| *deadline > now).ok_or(..)]. *)
Definition future_deadline (now : HostInstant) (d : HostDuration)
  : Result AuthorityError HostInstant :=
  match HostTime.instant_add now d with
  | Some deadline => if now <? deadline then Ok deadline else Err DeadlineOverflow
  | None => Err DeadlineOverflow
  end.

Definition deadline_from (a : SessionAuthority) (now : HostInstant)
  : Result AuthorityError HostInstant :=
  future_deadline now (authorization_lifetime (policy a)).

Definition check_challenge_slot (challenge : option Challenge) (now : HostInstant)
  : Result AuthorityError unit :=
  if is_some_and (fun pending => now <? deadline pending) challenge
  then Err ChallengePending else Ok tt.

(** Returns the result and the slot it leaves behind. *)
Definition consume_challenge (slot : option Challenge) (n : Z) (now : HostInstant)
  : Result AuthorityError Challenge * option Challenge :=
  match slot with
  | None => (Err ChallengeMismatch, slot)
  | Some c =>
      if negb (nonce c =? n) then (Err ChallengeMismatch, slot)
      else if deadline c <=? now then (Err ChallengeExpired, None)
      else (Ok c, None)
  end.

Definition lease_id (a : SessionAuthority) : option InputLeaseId := lease_ident <$> lease a.

Definition serialized_time (a : SessionAuthority) (sampled : HostInstant) : HostInstant :=
  match last_checked a with Some last => Z.max last sampled | None => sampled end.

(** [self.check_time(now)?; self.check_observation_live(now)?]. *)
Definition check_live (now : HostInstant) : AuthM unit :=
  _ ← check_time now;
  readr (fun a => check_observation_live a now).

(** ** Lifecycle *)

Definition mark_capabilities_checked : AuthM unit :=
  _ ← refuse_if (fun a => negb (bool_decide (phase a = Identified)))
                (fun a => InvalidState (phase a));
  modify (fun a => a <| phase := CapabilitiesChecked |>).

Definition require_approval : AuthM unit :=
  _ ← refuse_if (fun a => negb (bool_decide (phase a = CapabilitiesChecked)))
                (fun a => InvalidState (phase a));
  modify (fun a => a <| phase := WaitingApproval |>).

Definition authorize_observation (now : HostInstant) : AuthM unit :=
  _ ← check_time now;
  _ ← refuse_if (fun a => match phase a with
                          | CapabilitiesChecked | WaitingApproval => false
                          | _ => true
                          end)
                (fun a => InvalidState (phase a));
  until ← readr (fun a => deadline_from a now);
  modify (fun a => (clear_authority a) <| observation_until := Some until |>
                                       <| phase := ViewOpening |>).

Definition authorize_observation_delivery (now : HostInstant) : AuthM unit := check_live now.

Definition observation_deadline (now : HostInstant) : AuthM HostInstant :=
  _ ← authorize_observation_delivery now;
  readr (fun a => ok_or (observation_until a) ObservationExpired).

(** ** View readiness *)

Definition mark_view_ready (now : HostInstant) : AuthM unit :=
  _ ← modify (fun a => a <| presented_sequence := None |>);
  _ ← check_live now;
  _ ← refuse_if bounded_view (fun _ => ViewUnready);
  modify (fun a => a <| phase := Viewing |> <| readiness := Ready |>).

Definition mark_view_stale (a : SessionAuthority) : SessionAuthority :=
  lapse_view (default 0 (last_checked a)) a.

Definition require_view_evidence (now : HostInstant) : AuthM unit :=
  _ ← check_live now;
  _ ← refuse_if (fun a => is_some (lease a) && negb (bounded_view a))
                (fun _ => ControllerBusy);
  modify (fun a => mark_view_stale (a <| bounded_view := true |>)).

(** The [match self.suspension] of [mark_view_ready_until]. *)
Definition check_suspension (now : HostInstant) (a : SessionAuthority)
  : Result AuthorityError unit :=
  match suspension a with
  | Some s =>
      match HostTime.instant_add (since s) MAX_VIEW_SUSPENSION with
      | None => Err DeadlineOverflow
      | Some limit =>
          if limit <=? now then Err ViewUnready
          else if negb (released s) then Err ReleasePending
          else Ok tt
      end
  | None =>
      if bounded_view a && negb (is_ready (readiness a)) && is_some (lease a)
      then Err ViewUnready else Ok tt
  end.

Definition mark_view_ready_until (until now : HostInstant) : AuthM unit :=
  _ ← modify (fun a => a <| presented_sequence := None |>);
  _ ← check_live now;
  _ ← refuse_if (fun _ => until <=? now) (fun _ => ViewUnready);
  _ ← readr (check_suspension now);
  _ ← refuse_if (fun a => is_some_and (fun previous => until <? previous) (view_until a))
                (fun _ => ViewUnready);
  modify (fun a => a <| suspension := None |> <| bounded_view := true |>
                     <| view_until := Some until |> <| phase := Viewing |>
                     <| readiness := Ready |>).

Definition mark_presented_ready_until (sequence : Z) (until now : HostInstant) : AuthM unit :=
  _ ← mark_view_ready_until until now;
  modify (fun a => a <| presented_sequence := Some sequence |>).

Definition advance_recovery (generation : Z) : AuthM unit :=
  _ ← refuse_if (fun a => is_ready (readiness a)) (fun a => InvalidState (phase a));
  _ ← refuse_if (fun a => is_some_and
                   (fun current => negb (Generation.supersedes generation current))
                   (recovery a))
                (fun _ => StaleGeneration);
  modify (fun a => clear_tickets
                     (a <| recovery := Some generation |> <| presented_sequence := None |>)).

Definition confirm_suspension_release (id : InputLeaseId) : AuthM unit :=
  _ ← refuse_if (fun a => negb (bool_decide (lease_id a = Some id))) (fun _ => StaleLease);
  modify (fun a =>
    match suspension a with
    | Some s => a <| suspension := Some (s <| released := true |>) |>
    | None => a
    end).

(** ** Control *)

(** [lease.authorized_until.min(observation)] and the early returns before it. *)
Definition control_status (now : HostInstant) : AuthM ControlStatus :=
  _ ← refuse_if clock_faulted (fun _ => ClockRegression);
  at_ ← gets (fun a => serialized_time a now);
  _ ← modify (lapse_if_due at_);
  _ ← readr (fun a => check_observation_live a at_);
  l ← readr (fun a => ok_or (lease a) NoLease);
  observation ← readr (fun a => ok_or (observation_until a) ObservationExpired);
  let lease_until := Z.min (authorized_until l) observation in
  _ ← refuse_if (fun _ => lease_until <=? at_) (fun _ => LeaseExpired);
  a ← gets id;
  if bool_decide (phase a = Viewing) && is_ready (readiness a) then
    mret (Live (match view_until a with
                | Some view => Z.min lease_until view
                | None => lease_until
                end))
  else
    s ← lift (ok_or (suspension a) ViewUnready);
    limit ← lift (ok_or (HostTime.instant_add (since s) MAX_VIEW_SUSPENSION) DeadlineOverflow);
    _ ← refuse_if (fun _ => limit <=? at_) (fun _ => ViewUnready);
    mret (Suspended (Z.min lease_until limit) (released s)).

Definition issue_observation_challenge (n : Z) (now : HostInstant) : AuthM HostInstant :=
  _ ← check_live now;
  _ ← readr (fun a => check_challenge_slot (observation_challenge a) now);
  d ← readr (fun a => deadline_from a now);
  _ ← modify (fun a => a <| observation_challenge := Some (mkChallenge n d) |>);
  mret d.

Definition respond_observation_challenge (n : Z) (now : HostInstant) : AuthM HostInstant :=
  _ ← check_live now;
  a ← gets id;
  let '(r, slot) := consume_challenge (observation_challenge a) n now in
  _ ← modify (fun a => a <| observation_challenge := slot |>);
  c ← lift r;
  _ ← modify (fun a => a <| observation_until := Some (deadline c) |>);
  mret (deadline c).

Definition grant_lease (id : InputLeaseId) (now : HostInstant) : AuthM unit :=
  _ ← check_live now;
  _ ← refuse_if (fun a => negb (bool_decide (phase a = Viewing)))
                (fun a => InvalidState (phase a));
  _ ← refuse_if (fun a => negb (is_ready (readiness a))) (fun _ => ViewUnready);
  _ ← refuse_if (fun a => is_some (lease a))
                (fun a => if is_some_and (fun l => now <? authorized_until l) (lease a)
                          then ControllerBusy else ControllerCleanupRequired);
  until ← readr (fun a => deadline_from a now);
  modify (fun a => a <| lease := Some (mkLease id until no_tickets) |>
                     <| control_challenge := None |>).

Definition issue_control_challenge (n : Z) (now : HostInstant) : AuthM HostInstant :=
  _ ← check_live now;
  l ← readr (fun a => ok_or (lease a) NoLease);
  _ ← refuse_if (fun _ => authorized_until l <=? now) (fun _ => LeaseExpired);
  _ ← readr (fun a => check_challenge_slot (control_challenge a) now);
  d ← readr (fun a => deadline_from a now);
  _ ← modify (fun a => a <| control_challenge := Some (mkChallenge n d) |>);
  mret d.

Definition respond_control_challenge (id : InputLeaseId) (n : Z) (now : HostInstant)
  : AuthM HostInstant :=
  _ ← check_live now;
  l ← readr (fun a => ok_or (lease a) NoLease);
  _ ← refuse_if (fun _ => negb (lease_ident l =? id)) (fun _ => StaleLease);
  if authorized_until l <=? now then
    _ ← modify (fun a => a <| control_challenge := None |>);
    fail LeaseExpired
  else
    a ← gets (fun a => a);
    let '(r, slot) := consume_challenge (control_challenge a) n now in
    _ ← modify (fun a => a <| control_challenge := slot |>);
    c ← lift r;
    _ ← modify (fun a => a <| lease := Some (l <| authorized_until := deadline c |>) |>);
    mret (deadline c).

(** The ticket with this identity, [iter().flatten().find(..)]. *)
Definition find_ticket (l : Lease) (t : InputTicketId) : option Ticket :=
  find_first (fun ticket => ticket_id ticket =? t) (flatten (tickets l)).

(** The first slot that is empty or holds an expired ticket. *)
Definition free_slot (l : Lease) (now : HostInstant) : option nat :=
  position (is_none_or (fun ticket => expires_at ticket <=? now)) (tickets l).

Definition issue_ticket_checked (id : InputLeaseId) (t : InputTicketId) (now : HostInstant)
  (require_presented : bool) : AuthM HostInstant :=
  _ ← check_live now;
  _ ← refuse_if (fun a => negb (is_ready (readiness a))
                          || (require_presented && negb (is_some (presented_sequence a))))
                (fun _ => ViewUnready);
  l ← readr (fun a => ok_or (lease a) NoLease);
  _ ← refuse_if (fun _ => negb (lease_ident l =? id)) (fun _ => StaleLease);
  _ ← refuse_if (fun _ => authorized_until l <=? now) (fun _ => LeaseExpired);
  _ ← refuse_if (fun _ => (t =? 0) || is_some (find_ticket l t)) (fun _ => TicketInvalid);
  uncapped ← readr (fun a => future_deadline now (ticket_lifetime (policy a)));
  observation ← readr (fun a => ok_or (observation_until a) ObservationExpired);
  let expires := Z.min (Z.min uncapped (authorized_until l)) observation in
  slot ← lift (ok_or (free_slot l now) TicketCapacity);
  _ ← modify (fun a => a <| lease := Some
        (l <| tickets := <[slot := Some (mkTicket t expires)]> (tickets l) |>) |>);
  mret expires.

Definition issue_input_ticket (id : InputLeaseId) (t : InputTicketId) (now : HostInstant)
  : AuthM HostInstant := issue_ticket_checked id t now false.

Definition issue_presented_input_ticket (id : InputLeaseId) (t : InputTicketId)
  (now : HostInstant) : AuthM HostInstant := issue_ticket_checked id t now true.

Definition invalidate_input_tickets (id : InputLeaseId) : AuthM unit :=
  l ← readr (fun a => ok_or (lease a) NoLease);
  _ ← refuse_if (fun _ => negb (lease_ident l =? id)) (fun _ => StaleLease);
  modify clear_tickets.

Definition authorize_submission (id : InputLeaseId) (t : InputTicketId) (now : HostInstant)
  : AuthM unit :=
  _ ← check_time now;
  _ ← refuse_if (fun a => negb (bool_decide (phase a = Viewing)))
                (fun a => InvalidState (phase a));
  _ ← readr (fun a => check_observation_live a now);
  _ ← refuse_if (fun a => negb (is_ready (readiness a))) (fun _ => ViewUnready);
  l ← readr (fun a => ok_or (lease a) NoLease);
  _ ← refuse_if (fun _ => negb (lease_ident l =? id)) (fun _ => StaleLease);
  _ ← refuse_if (fun _ => authorized_until l <=? now) (fun _ => LeaseExpired);
  ticket ← lift (ok_or (find_ticket l t) TicketInvalid);
  refuse_if (fun _ => expires_at ticket <=? now) (fun _ => TicketExpired).

Definition submission_deadline (id : InputLeaseId) (t : InputTicketId) (now : HostInstant)
  : AuthM HostInstant :=
  _ ← authorize_submission id t now;
  l ← readr (fun a => ok_or (lease a) NoLease);
  ticket ← lift (ok_or (find_ticket l t) TicketInvalid);
  observation ← readr (fun a => ok_or (observation_until a) ObservationExpired);
  let until := Z.min (Z.min (expires_at ticket) (authorized_until l)) observation in
  gets (fun a => match view_until a with Some view => Z.min until view | None => until end).

Definition revoke_lease (a : SessionAuthority) : SessionAuthority :=
  a <| lease := None |> <| suspension := None |> <| native_owner := None |>
    <| control_challenge := None |> <| presented_sequence := None |>.

Definition has_live_control (now : HostInstant) (a : SessionAuthority)
  : bool * SessionAuthority :=
  let '(r, a) := check_time now a in
  (is_ok r && is_ok (check_observation_live a now)
   && bool_decide (phase a = Viewing) && is_ready (readiness a)
   && is_some_and (fun l => now <? authorized_until l) (lease a), a).

Definition lease_deadline (a : SessionAuthority) : Result AuthorityError HostInstant :=
  if negb (bool_decide (phase a = Viewing)) || negb (is_ready (readiness a))
  then Err ViewUnready
  else match observation_until a, lease a with
       | None, _ => Err ObservationExpired
       | _, None => Err NoLease
       | Some observation, Some l => Ok (Z.min (authorized_until l) observation)
       end.

Definition control_deadline (a : SessionAuthority) : Result AuthorityError HostInstant :=
  until ← lease_deadline a;
  Ok (match view_until a with Some view => Z.min until view | None => until end).

Definition drop_expired_ticket (now : HostInstant) (t : option Ticket) : option Ticket :=
  match t with
  | Some ticket => if expires_at ticket <=? now then None else t
  | None => None
  end.

Definition apply_resume_boundary (now : HostInstant) (a : SessionAuthority)
  : bool * SessionAuthority :=
  let '(r, a) := check_time now a in
  if negb (is_ok r) then (false, a) else
  let a := if is_some_and (fun until => until <=? now) (observation_until a)
           then drop_observation a else a in
  let a := if is_some_and (fun c => deadline c <=? now) (observation_challenge a)
           then a <| observation_challenge := None |> else a in
  let a := if is_some_and (fun c => deadline c <=? now) (control_challenge a)
           then a <| control_challenge := None |> else a in
  let a := if is_some_and (fun l => authorized_until l <=? now) (lease a)
           then revoke_lease a else a in
  let a := match lease a with
           | Some l => a <| lease := Some
                         (l <| tickets := drop_expired_ticket now <$> tickets l |>) |>
           | None => a
           end in
  has_live_control now a.

(** [Arc::new(())] returns a pointer; [fresh] is that pointer's address. *)
Definition claim_native_owner (id : InputLeaseId) (fresh : Z) : AuthM Z :=
  _ ← refuse_if (fun a => negb (bool_decide (lease_id a = Some id))) (fun _ => StaleLease);
  _ ← refuse_if (fun a => is_some (native_owner a)) (fun _ => ControllerBusy);
  _ ← modify (fun a => a <| native_owner := Some fresh |>);
  mret fresh.

(** [Arc::ptr_eq] with the retained owner. *)
Definition is_native_owner (a : SessionAuthority) (owner : Z) : bool :=
  is_some_and (fun current => current =? owner) (native_owner a).
