(* ===== verification/AuthorityInv.v ===== *)
(** * Session authority: the well-formedness invariant

    The invariant ties the fields of [SessionAuthority] together (which of them
    may be present in which phase, how the deadlines relate to the checked clock)
    and every operation of [Authority] preserves it. *)

From S2P Require Import Prelude CoreTime Authority.

(** The checked-clock high-water mark; 0 before the first sample. *)
Definition clock (a : SessionAuthority) : HostInstant := default 0 (last_checked a).

(** The latest deadline that any authorization may carry. *)
Definition horizon (a : SessionAuthority) : HostInstant :=
  clock a + authorization_lifetime (policy a).

Definition terminal (p : Phase) : bool :=
  match p with Refused | Closed => true | _ => false end.

Definition live_tickets (l : Lease) : list Ticket := flatten (tickets l).

(** What holds of a lease held in a view of the given readiness, with the given
    observation deadline. *)
Record lease_wf (r : ViewReadiness) (obs : option HostInstant) (limit : HostInstant)
  (l : Lease) : Prop := {
  lw_slots : length (tickets l) = MAX_LIVE_INPUT_TICKETS;
  lw_until : authorized_until l <= limit;
  lw_ready : live_tickets l <> [] -> r = Ready;
  lw_unique : NoDup (ticket_id <$> live_tickets l);
  lw_bounds : forall t, t ∈ live_tickets l ->
    ticket_id t <> 0 /\ expires_at t <= authorized_until l /\
    (forall u, obs = Some u -> expires_at t <= u);
}.

Record wf (a : SessionAuthority) : Prop := {
  wf_clock : 0 <= clock a;
  wf_life : 0 <= authorization_lifetime (policy a);
  wf_observation : is_some (observation_until a) = observing (phase a);
  wf_viewing : readiness a <> Unready <-> phase a = Viewing;
  wf_observation_until : forall u, observation_until a = Some u -> u <= horizon a;
  wf_view_until : view_until a <> None -> readiness a = Ready /\ bounded_view a = true;
  wf_presented : presented_sequence a <> None -> readiness a = Ready;
  wf_lease_phase : lease a <> None -> phase a = Viewing;
  wf_lease : forall l, lease a = Some l ->
    lease_wf (readiness a) (observation_until a) (horizon a) l;
  wf_suspension : suspension a <> None ->
    lease a <> None /\ readiness a = Stale /\ bounded_view a = true;
  wf_suspended : lease a <> None -> bounded_view a = true -> readiness a <> Ready ->
    suspension a <> None;
  wf_owner : native_owner a <> None -> lease a <> None;
  wf_observation_challenge : forall c, observation_challenge a = Some c ->
    observing (phase a) = true /\ deadline c <= horizon a /\
    (forall u, observation_until a = Some u -> u <= deadline c);
  wf_control_challenge : forall c, control_challenge a = Some c ->
    deadline c <= horizon a /\
    exists l, lease a = Some l /\ authorized_until l <= deadline c;
  wf_fault : clock_faulted a = true -> terminal (phase a) = true;
}.

(** What a passed [check_live now] establishes. *)
Record live_at (now : HostInstant) (a : SessionAuthority) : Prop := {
  live_clock : last_checked a = Some now;
  live_fault : clock_faulted a = false;
  live_phase : observing (phase a) = true;
  live_until : exists u, observation_until a = Some u /\ now < u;
}.

(** ** Automation for the invariant *)

(** Prove the fields of [wf] of an updated record from those of the original:
    untouched fields are hypotheses. *)
Ltac solve_wf := constructor; cbn; try assumption; try (intros; discriminate); try done.

(** ** Tickets *)

Lemma live_tickets_none l : tickets l = no_tickets -> live_tickets l = [].
Proof. unfold live_tickets. intros ->. reflexivity. Qed.

Lemma lease_wf_no_tickets r obs limit i u :
  u <= limit -> lease_wf r obs limit (mkLease i u no_tickets).
Proof.
  intros Hu. constructor; cbn; try done.
  - apply NoDup_nil_2.
  - intros t Ht. by apply not_elem_of_nil in Ht.
Qed.

Lemma lease_wf_weaken r obs obs' limit limit' l u :
  lease_wf r obs limit l -> authorized_until l <= u -> u <= limit' ->
  (forall v, obs' = Some v -> exists v', obs = Some v' /\ v' <= v) ->
  lease_wf r obs' limit' (l <| authorized_until := u |>).
Proof.
  intros [] Hl Hu Hobs. constructor; cbn; try done.
  intros t Ht. destruct (lw_bounds0 t Ht) as (? & ? & Hb). split_and!; [done|lia|].
  intros v Hv. destruct (Hobs v Hv) as (v' & Hv' & ?). specialize (Hb _ Hv'). lia.
Qed.

Lemma flatten_insert_perm {A} (l : list (option A)) i (o : option A) (x : A) :
  l !! i = Some o ->
  flatten (<[i := Some x]> l) ≡ₚ x :: flatten (<[i := None]> l).
Proof.
  intros Hi. assert (i < length l)%nat by (eapply lookup_lt_Some; done).
  unfold flatten. rewrite !insert_take_drop by done. rewrite !omap_app. simpl.
  by rewrite Permutation_middle.
Qed.

Lemma flatten_insert_None {A} (l : list (option A)) i :
  sublist (flatten (<[i := None]> l)) (flatten l).
Proof.
  destruct (decide (i < length l)%nat) as [Hi|Hi].
  - unfold flatten. rewrite insert_take_drop by done. rewrite <- (take_drop i l) at 3.
    rewrite !omap_app. apply sublist_app; [done|]. simpl.
    apply lookup_lt_is_Some in Hi as [o Ho]. rewrite (drop_S _ _ _ Ho). simpl.
    destruct o; simpl; [by apply sublist_cons | done].
  - rewrite list_insert_ge by lia. done.
Qed.

Lemma flatten_drop_expired now l :
  sublist (flatten (drop_expired_ticket now <$> l)) (flatten l).
Proof.
  induction l as [|[t|] l IH]; simpl; [done| |done].
  destruct (expires_at t <=? now); simpl; [by apply sublist_cons | by apply sublist_skip].
Qed.

Lemma lease_wf_sublist r obs limit l ts :
  lease_wf r obs limit l -> length ts = MAX_LIVE_INPUT_TICKETS ->
  sublist (flatten ts) (live_tickets l) ->
  lease_wf r obs limit (l <| tickets := ts |>).
Proof.
  intros [] Hlen Hsub. constructor; cbn; try done.
  - intros Hne. apply lw_ready0. intros Hnil. unfold live_tickets in *.
    rewrite Hnil in Hsub. by apply sublist_nil_r in Hsub.
  - eapply sublist_NoDup; [done|]. by apply fmap_sublist.
  - intros t Ht. apply lw_bounds0. by eapply elem_of_sublist.
Qed.

Lemma find_ticket_Some l t tk :
  find_ticket l t = Some tk -> tk ∈ live_tickets l /\ ticket_id tk = t.
Proof. intros [? ?]%find_first_Some. split; [done|lia]. Qed.

Lemma find_ticket_None l t :
  find_ticket l t = None <-> t ∉ (ticket_id <$> live_tickets l).
Proof.
  unfold find_ticket. rewrite find_first_None. rewrite list_elem_of_fmap. split.
  - intros H (tk & -> & Htk). specialize (H tk Htk). lia.
  - intros H tk Htk. apply Z.eqb_neq. intros <-. apply H. eauto.
Qed.

(** With unique identities, the ticket found is the ticket in the slots. *)
Lemma find_ticket_unique l tk :
  NoDup (ticket_id <$> live_tickets l) -> tk ∈ live_tickets l ->
  find_ticket l (ticket_id tk) = Some tk.
Proof.
  unfold find_ticket, live_tickets. generalize (flatten (tickets l)) as ts.
  induction ts as [|x ts IH]; intros Hnd Hin; [by apply not_elem_of_nil in Hin|].
  simpl. apply NoDup_cons in Hnd as [Hx Hnd]. apply elem_of_cons in Hin as [->|Hin].
  - by rewrite Z.eqb_refl.
  - destruct (ticket_id x =? ticket_id tk) eqn:He; [|by apply IH].
    exfalso. apply Hx. apply list_elem_of_fmap. exists tk. split; [lia|done].
Qed.

Lemma free_slot_Some l now i :
  free_slot l now = Some i ->
  exists o, tickets l !! i = Some o /\ forall t, o = Some t -> expires_at t <= now.
Proof.
  intros (o & Ho & Hp & _)%position_Some. exists o. split; [done|].
  intros t ->. simpl in Hp. lia.
Qed.

(** Placing a fresh ticket in a reusable slot keeps the lease well formed. *)
Lemma lease_wf_insert obs limit l i o t e :
  lease_wf Ready obs limit l -> tickets l !! i = Some o ->
  t <> 0 -> find_ticket l t = None -> e <= authorized_until l ->
  (forall u, obs = Some u -> e <= u) ->
  lease_wf Ready obs limit (l <| tickets := <[i := Some (mkTicket t e)]> (tickets l) |>).
Proof.
  intros [] Hi Ht Hfind He Hobs. pose proof (flatten_insert_None (tickets l) i) as Hsub.
  pose proof (flatten_insert_perm (tickets l) i o (mkTicket t e) Hi) as Hperm.
  constructor; cbn; try done.
  - by rewrite length_insert.
  - unfold live_tickets; cbn. rewrite Hperm. simpl. apply NoDup_cons. split.
    + apply find_ticket_None in Hfind. intros Hin. apply Hfind.
      eapply elem_of_sublist; [done|]. by apply fmap_sublist.
    + eapply sublist_NoDup; [done|]. by apply fmap_sublist.
  - intros tk Htk. unfold live_tickets in Htk; cbn in Htk. rewrite Hperm in Htk.
    apply elem_of_cons in Htk as [->|Htk]; [done|].
    apply lw_bounds0. by eapply elem_of_sublist.
Qed.

(** ** Preservation by the helpers *)

Lemma clear_tickets_wf a : wf a -> wf (clear_tickets a).
Proof.
  intros H. unfold clear_tickets. destruct (lease a) as [l|] eqn:Hl; [|done].
  assert (Hu := lw_until _ _ _ _ (wf_lease a H l Hl)). destruct H.
  solve_wf.
  - intros _. apply wf_lease_phase0. congruence.
  - intros; simplify_eq. by apply lease_wf_no_tickets.
  - intros Hs. destruct (wf_suspension0 Hs) as (? & ?). done.
  - intros _. apply wf_suspended0. congruence.
  - intros c Hc. destruct (wf_control_challenge0 c Hc) as (? & l' & ? & ?).
    split; [done|]. simplify_eq. eexists; split; [reflexivity|done].
Qed.

(** A record with no authority left in it, in a phase that admits none. *)
Lemma cleared_wf a b :
  wf a -> observation_until b = None -> readiness b = Unready -> view_until b = None ->
  presented_sequence b = None -> lease b = None -> suspension b = None ->
  native_owner b = None -> observation_challenge b = None -> control_challenge b = None ->
  observing (phase b) = false -> policy b = policy a -> last_checked b = last_checked a ->
  (clock_faulted b = true -> terminal (phase b) = true) -> wf b.
Proof.
  intros H. intros. destruct H.
  constructor; unfold clock in *; try congruence; try (intros; congruence); try done.
  - by rewrite H0, H9.
  - rewrite H1. split; [done|]. intros Hp. by rewrite Hp in H9.
Qed.

Lemma close_wf a : wf a -> wf (close a).
Proof. intros H. by apply (cleared_wf a). Qed.

Lemma close_fault_wf a : wf a -> wf (close (a <| clock_faulted := true |>)).
Proof. intros H. by apply (cleared_wf a). Qed.

Lemma refuse_wf a : wf a -> wf (refuse a).
Proof. intros H. by apply (cleared_wf a). Qed.

Lemma drop_observation_wf a : wf a -> wf (drop_observation a).
Proof.
  intros H. unfold drop_observation. destruct (observing (phase (clear_authority a))) eqn:Hp;
    cbn in Hp; (apply (cleared_wf a); try done); cbn.
  - intros Hf. apply (wf_fault a H) in Hf. by destruct (phase a).
  - apply (wf_fault a H).
Qed.

Lemma revoke_lease_wf a : wf a -> wf (revoke_lease a).
Proof. intros []. constructor; cbn; try done. Qed.

(** What [lapse_view] leaves: only these fields change. *)
Definition lapsed_suspension (t : HostInstant) (a : SessionAuthority) : option Suspension :=
  if is_ready (readiness a) && bounded_view a && is_some (lease a)
     && negb (is_some (suspension a))
  then Some (mkSuspension t false) else suspension a.

Definition lapsed_readiness (a : SessionAuthority) : ViewReadiness :=
  if is_ready (readiness a) then Stale else readiness a.

Lemma lapse_view_eq t a :
  lapse_view t a =
  a <| view_until := None |> <| presented_sequence := None |>
    <| readiness := lapsed_readiness a |> <| suspension := lapsed_suspension t a |>
    <| lease := (fun l => l <| tickets := no_tickets |>) <$> lease a |>.
Proof.
  unfold lapse_view, clear_tickets, lapsed_readiness, lapsed_suspension.
  destruct a as [? ? ? ? r ? ? b l s ? ? ? ? ? ?]; destruct r, b, l, s; reflexivity.
Qed.

Lemma lapse_view_wf t a : wf a -> wf (lapse_view t a).
Proof.
  intros H. rewrite lapse_view_eq.
  assert (Hl : forall l, lease a = Some l -> authorized_until l <= horizon a)
    by (intros l Hl; exact (lw_until _ _ _ _ (wf_lease a H l Hl))).
  destruct H. unfold lapsed_readiness, lapsed_suspension. solve_wf.
  - rewrite <- wf_viewing0. by destruct (readiness a).
  - intros Hn. apply wf_lease_phase0. by destruct (lease a).
  - intros l Hs. apply fmap_Some in Hs as (l0 & Hl0 & ->).
    apply lease_wf_no_tickets. by apply Hl.
  - revert wf_suspension0 wf_suspended0. clear.
    destruct (readiness a), (bounded_view a), (lease a), (suspension a); cbn; intuition congruence.
  - revert wf_suspension0 wf_suspended0. clear.
    destruct (readiness a), (bounded_view a), (lease a), (suspension a); cbn; intuition congruence.
  - intros Ho. by destruct (lease a), (native_owner a); try apply wf_owner0.
  - intros c Hc. destruct (wf_control_challenge0 c Hc) as (? & l & Hlc & ?).
    split; [done|]. rewrite Hlc. eexists; split; [reflexivity|done].
Qed.

Lemma lapse_if_due_wf now a : wf a -> wf (lapse_if_due now a).
Proof.
  intros H. unfold lapse_if_due. destruct (view_until a) as [u|]; [|done].
  destruct (u <=? now); [by apply lapse_view_wf | done].
Qed.

(** Fields that a lapse never touches. *)
Lemma lapse_if_due_frame now a :
  last_checked (lapse_if_due now a) = last_checked a /\
  clock_faulted (lapse_if_due now a) = clock_faulted a /\
  phase (lapse_if_due now a) = phase a /\
  policy (lapse_if_due now a) = policy a /\
  observation_until (lapse_if_due now a) = observation_until a /\
  observation_challenge (lapse_if_due now a) = observation_challenge a /\
  control_challenge (lapse_if_due now a) = control_challenge a /\
  bounded_view (lapse_if_due now a) = bounded_view a /\
  lease_id (lapse_if_due now a) = lease_id a.
Proof.
  unfold lapse_if_due, lease_id. destruct (view_until a) as [u|]; [|done].
  destruct (u <=? now); [|done]. rewrite lapse_view_eq. cbn.
  split_and!; try done. by destruct (lease a).
Qed.

(** After a lapse check no view deadline has passed. *)
Lemma lapse_if_due_view now a u :
  view_until (lapse_if_due now a) = Some u -> now < u.
Proof.
  unfold lapse_if_due. destruct (view_until a) as [v|] eqn:Hv; [|congruence].
  destruct (v <=? now) eqn:Hle; [rewrite lapse_view_eq; done|].
  intros; simplify_eq. lia.
Qed.

Lemma advance_clock_wf now a :
  wf a -> clock a <= now -> wf (a <| last_checked := Some now |>).
Proof.
  intros H Hnow. pose proof (wf_clock a H) as Hc.
  assert (Hh : horizon a <= horizon (a <| last_checked := Some now |>))
    by (unfold horizon, clock in *; cbn in *; lia).
  assert (Hl : forall l, lease a = Some l -> lease_wf (readiness a) (observation_until a)
            (horizon (a <| last_checked := Some now |>)) l).
  { intros l Hl. destruct (wf_lease a H l Hl). constructor; try done. lia. }
  destruct H. solve_wf.
  - unfold clock in *; cbn in *; lia.
  - intros u Hu. specialize (wf_observation_until0 u Hu). cbn in Hh. lia.
  - intros c Hc'. destruct (wf_observation_challenge0 c Hc') as (? & ? & ?).
    split_and!; [done| cbn in Hh; lia |done].
  - intros c Hc'. destruct (wf_control_challenge0 c Hc') as (? & ?).
    split; [cbn in Hh; lia|done].
Qed.

(** The outcome of a clock check on a well-formed owner. *)
Lemma check_time_spec now a :
  0 <= now -> wf a ->
  match check_time now a with
  | (Ok _, b) =>
      wf b /\ clock a <= now /\ clock_faulted a = false /\
      b = lapse_if_due now (a <| last_checked := Some now |>)
  | (Err e, b) =>
      wf b /\ e = ClockRegression /\ phase b = Closed /\ clock_faulted b = true
  end.
Proof.
  intros Hnow H. unfold check_time.
  destruct (clock_faulted a || is_some_and (fun previous => now <? previous) (last_checked a))
    eqn:Hc.
  - split_and!; try done. by apply close_fault_wf.
  - apply orb_false_iff in Hc as [Hf Hl].
    assert (clock a <= now).
    { unfold clock. destruct (last_checked a); cbn in *; lia. }
    split_and!; try done. apply lapse_if_due_wf. by apply advance_clock_wf.
Qed.

Lemma check_time_wf now : 0 <= now -> preserves wf (check_time now).
Proof.
  intros Hnow a H. pose proof (check_time_spec now a Hnow H) as Hs.
  destruct (check_time now a) as [[?|?] b]; apply Hs.
Qed.

(** The outcome of [check_time] followed by [check_observation_live]. *)
Lemma check_live_spec now a :
  0 <= now -> wf a ->
  match check_live now a with
  | (Ok _, b) => wf b /\ live_at now b /\ clock a <= now /\
                 b = lapse_if_due now (a <| last_checked := Some now |>)
  | (Err _, b) => wf b
  end.
Proof.
  intros Hnow H. unfold check_live. pose proof (check_time_spec now a Hnow H) as Hs.
  run_method. destruct (check_time now a) as [[u|e] b]; [|by destruct Hs].
  destruct Hs as (Hb & Hc & Hf & Heq). unfold check_observation_live.
  destruct (observing (phase b)) eqn:Hp; cbn; [|done].
  destruct (observation_until b) as [until|] eqn:Ho; [|done].
  destruct (now <? until) eqn:Hlt; [|done]. split_and!; try done.
  pose proof (lapse_if_due_frame now (a <| last_checked := Some now |>)) as (E1 & E2 & _).
  cbn in *. rewrite <- Heq in *. constructor; try congruence. exists until. split; [done|lia].
Qed.

(** Operations that begin with [check_live] may assume what it establishes. *)
Lemma preserves_live {A : Type} now (k : AuthM A) :
  0 <= now -> (forall a, wf a -> live_at now a -> wf (snd (k a))) ->
  preserves wf (_ ← check_live now; k).
Proof.
  intros Hnow Hk a H. pose proof (check_live_spec now a Hnow H) as Hs.
  unfold mbind, M_bind. destruct (check_live now a) as [[u|e] b]; [|done].
  destruct Hs as (? & ? & _). by apply Hk.
Qed.

Lemma check_live_wf now : 0 <= now -> preserves wf (check_live now).
Proof.
  intros Hnow a H. pose proof (check_live_spec now a Hnow H) as Hs.
  destruct (check_live now a) as [[u|e] b]; [by destruct Hs | done].
Qed.
#[export] Hint Resolve check_time_wf check_live_wf : remote.

(** ** Preservation by the operations *)

Lemma clear_presented_wf a : wf a -> wf (a <| presented_sequence := None |>).
Proof. intros []. solve_wf. Qed.

(** Becoming ready keeps the lease, which may hold tickets again. *)
Lemma lease_wf_ready r obs limit l : lease_wf r obs limit l -> lease_wf Ready obs limit l.
Proof. intros []. by constructor. Qed.

Lemma ready_wf now a v b :
  wf a -> live_at now a -> (v <> None -> b = true) ->
  wf (a <| suspension := None |> <| bounded_view := b |> <| view_until := v |>
        <| phase := Viewing |> <| readiness := Ready |>).
Proof.
  intros [] [? ? Hp ?] Hb. solve_wf.
  - by rewrite wf_observation0.
  - intros Hv. split; [done|]. by apply Hb.
  - intros l Hl. eapply lease_wf_ready. by apply wf_lease0.
  - intros c Hc. destruct (wf_observation_challenge0 c Hc) as (? & ? & Hd). done.
  - congruence.
Qed.

Lemma new_wf s p : 0 <= authorization_lifetime p -> wf (new s p).
Proof. intros Hp. solve_wf; cbn; try (split; done). Qed.

Lemma mark_capabilities_checked_wf : preserves wf mark_capabilities_checked.
Proof.
  intros a H. unfold mark_capabilities_checked. run_method.
  case_bool_decide as Hp; cbn; [|done].
  assert (readiness a = Unready).
  { destruct (readiness a) eqn:Hr; try done; exfalso;
      assert (phase a = Viewing) by (apply H; congruence); congruence. }
  destruct H. rewrite Hp in *. solve_wf.
  intros Hl. by apply wf_lease_phase0 in Hl.
Qed.

Lemma require_approval_wf : preserves wf require_approval.
Proof.
  intros a H. unfold require_approval. run_method.
  case_bool_decide as Hp; cbn; [|done].
  destruct H. rewrite Hp in *. solve_wf.
  - split; [intros Hr | done]. by apply wf_viewing0 in Hr.
  - intros Hl. by apply wf_lease_phase0 in Hl.
Qed.

Lemma future_deadline_Ok now d u :
  future_deadline now d = Ok u -> u = now + d /\ now < u /\ u <= u64_max.
Proof.
  unfold future_deadline. destruct (HostTime.instant_add now d) as [v|] eqn:Hv; [|done].
  apply instant_add_Some in Hv as [-> ?]. destruct (now <? now + d) eqn:?; [|done].
  intros; simplify_eq. lia.
Qed.

(** A deadline fixed at the checked instant is the horizon. *)
Lemma deadline_from_horizon now a u :
  last_checked a = Some now -> deadline_from a now = Ok u -> u = horizon a /\ now < u.
Proof.
  intros Hc (-> & ? & _)%future_deadline_Ok. split; [|done].
  unfold horizon, clock. by rewrite Hc.
Qed.

Lemma authorize_observation_wf now : 0 <= now -> preserves wf (authorize_observation now).
Proof.
  intros Hnow a H. unfold authorize_observation. run_method.
  pose proof (check_time_spec now a Hnow H) as Hs.
  destruct (check_time now a) as [[u|e] b]; [|by destruct Hs].
  destruct Hs as (Hb & ? & Hf & Heq). clear H. revert Hb. 
  pose proof (lapse_if_due_frame now (a <| last_checked := Some now |>)) as (E1 & E2 & E3 & E4 & _).
  cbn in *. rewrite <- Heq in *. clear Heq. intros Hb.
  assert (Hok : wf (snd (match deadline_from b now with
                         | Ok until => (Ok tt, (clear_authority b)
                             <| observation_until := Some until |> <| phase := ViewOpening |>)
                         | Err e => (Err (A:=unit) e, b)
                         end))).
  { destruct (deadline_from b now) as [until|] eqn:Hd; [|done].
    apply deadline_from_horizon in Hd as [-> ?]; [|done].
    destruct Hb. solve_wf; cbn; try done.
    - intros u' [= <-]. done.
    - intros; congruence. }
  destruct (phase b); try done; destruct (deadline_from b now); done.
Qed.

Lemma mark_view_ready_wf now : 0 <= now -> preserves wf (mark_view_ready now).
Proof.
  intros Hnow. unfold mark_view_ready.
  apply preserves_bind; [apply preserves_modify, clear_presented_wf|]. intros _.
  apply preserves_live; [done|]. intros a H Hl. run_method.
  destruct (bounded_view a) eqn:Hb; cbn; [done|].
  assert (Hs : suspension a = None).
  { destruct (suspension a) eqn:Hs; [|done].
    destruct (wf_suspension a H) as (_ & _ & ?); congruence. }
  assert (Hv : view_until a = None).
  { destruct (view_until a) eqn:Hv; [|done].
    destruct (wf_view_until a H) as (_ & ?); congruence. }
  pose proof (ready_wf now a None false H Hl ltac:(done)) as Hw.
  cbn in *. by rewrite Hs, Hv, Hb.
Qed.

Lemma mark_view_stale_wf a : wf a -> wf (mark_view_stale a).
Proof. apply lapse_view_wf. Qed.

Lemma require_view_evidence_wf now : 0 <= now -> preserves wf (require_view_evidence now).
Proof.
  intros Hnow. apply preserves_live; [done|]. intros a H Hl. run_method.
  destruct (is_some (lease a) && negb (bounded_view a)) eqn:Hb; cbn; [done|].
  apply mark_view_stale_wf. destruct H. solve_wf.
  - intros Hv. apply wf_view_until0 in Hv as [? ?]. done.
  - intros Hs. apply wf_suspension0 in Hs as (? & ? & ?). done.
  - intros Hl' _. apply wf_suspended0; [done|].
    destruct (lease a), (bounded_view a); done.
Qed.

Lemma mark_view_ready_until_wf until now :
  0 <= now -> preserves wf (mark_view_ready_until until now).
Proof.
  intros Hnow. unfold mark_view_ready_until.
  apply preserves_bind; [apply preserves_modify, clear_presented_wf|]. intros _.
  apply preserves_live; [done|]. intros a H Hl. run_method.
  destruct (until <=? now); [done|]. destruct (check_suspension now a); [|done].
  destruct (is_some_and _ _); [done|]. by eapply ready_wf.
Qed.

Lemma mark_view_ready_until_ready until now a b :
  mark_view_ready_until until now a = (Ok tt, b) -> readiness b = Ready.
Proof.
  unfold mark_view_ready_until. run_method. intros Hm.
  repeat (case_match; simplify_eq/=). done.
Qed.

Lemma mark_presented_ready_until_wf sequence until now :
  0 <= now -> preserves wf (mark_presented_ready_until sequence until now).
Proof.
  intros Hnow a H. unfold mark_presented_ready_until, mbind, M_bind.
  pose proof (mark_view_ready_until_wf until now Hnow a H) as Hw.
  pose proof (mark_view_ready_until_ready until now a) as Hr.
  destruct (mark_view_ready_until until now a) as [[[]|e] b]; cbn in *; [|done].
  specialize (Hr b eq_refl). destruct Hw. solve_wf.
Qed.

Lemma advance_recovery_wf generation : preserves wf (advance_recovery generation).
Proof.
  intros a H. unfold advance_recovery. run_method.
  destruct (is_ready (readiness a)); cbn; [done|].
  destruct (is_some_and _ _); cbn; [done|].
  apply clear_tickets_wf. destruct H. solve_wf.
Qed.

Lemma confirm_suspension_release_wf i : preserves wf (confirm_suspension_release i).
Proof.
  intros a H. unfold confirm_suspension_release. run_method.
  case_bool_decide; cbn; [|done]. destruct (suspension a) as [s|] eqn:Hs; [|done].
  destruct H. rewrite Hs in *. solve_wf. intros _. by apply wf_suspension0.
Qed.

Lemma control_status_wf now : preserves wf (control_status now).
Proof.
  intros a H. unfold control_status. run_method. destruct (clock_faulted a); [done|].
  cbn. assert (Hw := lapse_if_due_wf (serialized_time a now) a H).
  repeat case_match; simplify_eq/=; done.
Qed.

Lemma issue_observation_challenge_wf n now :
  0 <= now -> preserves wf (issue_observation_challenge n now).
Proof.
  intros Hnow. apply preserves_live; [done|]. intros a H Hl. run_method.
  destruct (check_challenge_slot _ _); [|done].
  destruct (deadline_from a now) as [d|] eqn:Hd; [|done].
  apply deadline_from_horizon in Hd as [-> ?]; [|apply Hl]. cbn.
  destruct H, Hl. solve_wf. intros c [= <-]. cbn. split_and!; try done.
Qed.

Lemma consume_challenge_cases slot n now r slot' :
  consume_challenge slot n now = (r, slot') ->
  (slot' = slot \/ slot' = None) /\
  forall c, r = Ok c -> slot = Some c /\ slot' = None /\ nonce c = n /\ now < deadline c.
Proof.
  unfold consume_challenge. destruct slot as [c|]; [|intros; simplify_eq; split; [by left|done]].
  destruct (nonce c =? n) eqn:?; cbn; [|intros; simplify_eq; split; [by left|done]].
  destruct (deadline c <=? now) eqn:?; intros; simplify_eq.
  - split; [by right|done].
  - split; [by right|]. intros; simplify_eq. split_and!; [done..|lia|lia].
Qed.

Lemma respond_observation_challenge_wf n now :
  0 <= now -> preserves wf (respond_observation_challenge n now).
Proof.
  intros Hnow. apply preserves_live; [done|]. intros a H Hl. run_method. cbn.
  destruct (consume_challenge (observation_challenge a) n now) as [r slot] eqn:Hc.
  apply consume_challenge_cases in Hc as [Hslot Hr]. cbn.
  destruct r as [c|e]; cbn.
  - destruct (Hr c eq_refl) as (Ho & -> & _ & ?).
    destruct (wf_observation_challenge a H c Ho) as (Hp & Hh & Hd).
    destruct H, Hl. solve_wf; cbn.
    + intros u [= <-]. done.
    + intros l Hla. destruct (wf_lease0 l Hla). constructor; try done.
      intros t Ht. destruct (lw_bounds0 t Ht) as (? & ? & Hb). split_and!; [done..|].
      intros u [= <-]. destruct live_until0 as (v & Hv & _).
      specialize (Hb v Hv). specialize (Hd v Hv). lia.
  - destruct H. destruct Hslot as [-> | ->]; solve_wf.
Qed.

Lemma grant_lease_wf i now : 0 <= now -> preserves wf (grant_lease i now).
Proof.
  intros Hnow. apply preserves_live; [done|]. intros a H Hl. run_method.
  case_bool_decide as Hp; cbn; [|done].
  destruct (readiness a) eqn:Hr; cbn; try done.
  destruct (lease a) as [l|] eqn:Hla; cbn; [done|].
  destruct (deadline_from a now) as [d|] eqn:Hd; cbn; [|done].
  apply deadline_from_horizon in Hd as [-> ?]; [|apply Hl].
  destruct H, Hl. solve_wf.
  - intros; simplify_eq. by apply lease_wf_no_tickets.
  - intros Hs. apply wf_suspension0 in Hs as (? & _). done.
Qed.

Lemma issue_control_challenge_wf n now :
  0 <= now -> preserves wf (issue_control_challenge n now).
Proof.
  intros Hnow. apply preserves_live; [done|]. intros a H Hl. run_method.
  destruct (lease a) as [l|] eqn:Hla; cbn; [|done].
  destruct (authorized_until l <=? now); cbn; [done|].
  destruct (check_challenge_slot _ _); cbn; [|done].
  destruct (deadline_from a now) as [d|] eqn:Hd; cbn; [|done].
  apply deadline_from_horizon in Hd as [-> ?]; [|apply Hl].
  pose proof (lw_until _ _ _ _ (wf_lease a H l Hla)) as Hu.
  destruct H, Hl. solve_wf.
  intros c [= <-]. cbn. split; [done|]. exists l. split; [congruence|done].
Qed.

Lemma respond_control_challenge_wf i n now :
  0 <= now -> preserves wf (respond_control_challenge i n now).
Proof.
  intros Hnow. apply preserves_live; [done|]. intros a H Hl. run_method.
  destruct (lease a) as [l|] eqn:Hla; cbn; [|done].
  destruct (negb (lease_ident l =? i)); cbn; [done|].
  assert (Hnone : wf (a <| control_challenge := None |>)) by (destruct H; solve_wf).
  destruct (authorized_until l <=? now); [done|].
  destruct (consume_challenge (control_challenge a) n now) as [r slot] eqn:Hc.
  apply consume_challenge_cases in Hc as [Hslot Hr]. cbn.
  destruct r as [c|e]; cbn.
  - destruct (Hr c eq_refl) as (Ho & -> & _ & ?).
    destruct (wf_control_challenge a H c Ho) as (Hh & l' & Hl' & Hle). simplify_eq.
    pose proof (wf_lease a H l Hla) as Hwl.
    destruct H, Hl. solve_wf.
    + intros _. apply wf_lease_phase0. congruence.
    + intros l' [= <-]. eapply lease_wf_weaken; [done|lia|done|eauto with lia].
    + intros Hs. apply wf_suspension0 in Hs as (? & ?). done.
    + intros _. apply wf_suspended0. congruence.
  - destruct Hslot as [-> | ->]; [|done]. destruct a; exact H.
Qed.

Lemma issue_ticket_checked_wf i t now presented :
  0 <= now -> preserves wf (issue_ticket_checked i t now presented).
Proof.
  intros Hnow. apply preserves_live; [done|]. intros a H Hl. run_method.
  destruct (readiness a) eqn:Hr; cbn; try done.
  destruct (presented && negb (is_some (presented_sequence a))); cbn; [done|].
  destruct (lease a) as [l|] eqn:Hla; cbn; [|done].
  destruct (negb (lease_ident l =? i)); cbn; [done|].
  destruct (authorized_until l <=? now); cbn; [done|].
  destruct (t =? 0) eqn:Ht; cbn; [done|].
  destruct (find_ticket l t) eqn:Hfind; cbn; [done|].
  destruct (future_deadline now (ticket_lifetime (policy a))) as [d|] eqn:Hd; cbn; [|done].
  destruct (observation_until a) as [u|] eqn:Hu; cbn; [|done].
  destruct (free_slot l now) as [slot|] eqn:Hs; cbn; [|done].
  apply free_slot_Some in Hs as (o & Ho & _).
  pose proof (wf_lease a H l Hla) as Hwl. rewrite Hr, Hu in Hwl.
  assert (Hwl' := lease_wf_insert (Some u) _ l slot o t
    (Z.min (Z.min d (authorized_until l)) u) Hwl Ho ltac:(lia) Hfind ltac:(lia)
    ltac:(intros ? [= <-]; lia)).
  rewrite <- Hr, <- Hu in Hwl'. rewrite <- Hu. destruct H, Hl. solve_wf.
  - intros _. apply wf_lease_phase0. congruence.
  - intros l' Hl'. injection Hl' as <-. exact Hwl'.
  - intros Hs. apply wf_suspension0 in Hs as (? & ?). done.
  - intros c Hc. destruct (wf_control_challenge0 c Hc) as (? & l' & ? & ?). simplify_eq.
    split; [done|]. eexists; split; [reflexivity|done].
Qed.

Lemma invalidate_input_tickets_wf i : preserves wf (invalidate_input_tickets i).
Proof.
  intros a H. unfold invalidate_input_tickets. run_method.
  destruct (lease a) as [l|] eqn:Hla; cbn; [|done].
  destruct (negb (lease_ident l =? i)); cbn; [done|]. by apply clear_tickets_wf.
Qed.

Lemma authorize_submission_wf i t now : 0 <= now -> preserves wf (authorize_submission i t now).
Proof. intros Hnow. unfold authorize_submission. eauto 20 with remote. Qed.

Lemma submission_deadline_wf i t now : 0 <= now -> preserves wf (submission_deadline i t now).
Proof.
  intros Hnow. unfold submission_deadline.
  apply preserves_bind; [by apply authorize_submission_wf | eauto 20 with remote].
Qed.

Lemma has_live_control_wf now a : 0 <= now -> wf a -> wf (snd (has_live_control now a)).
Proof.
  intros Hnow H. unfold has_live_control. pose proof (check_time_wf now Hnow a H).
  by destruct (check_time now a).
Qed.

Lemma drop_expired_wf now a l :
  wf a -> lease a = Some l ->
  wf (a <| lease := Some (l <| tickets := drop_expired_ticket now <$> tickets l |>) |>).
Proof.
  intros H Hla. pose proof (wf_lease a H l Hla) as Hwl.
  assert (Hwl' := lease_wf_sublist _ _ _ l (drop_expired_ticket now <$> tickets l) Hwl
    ltac:(rewrite length_fmap; apply Hwl) (flatten_drop_expired now (tickets l))).
  destruct H. solve_wf.
  - intros _. apply wf_lease_phase0. congruence.
  - intros l' Hl'. injection Hl' as <-. exact Hwl'.
  - intros Hs. apply wf_suspension0 in Hs as (? & ?). done.
  - intros _. apply wf_suspended0. congruence.
  - intros c Hc. destruct (wf_control_challenge0 c Hc) as (? & l' & ? & ?). simplify_eq.
    split; [done|]. eexists; split; [reflexivity|done].
Qed.

Lemma drop_observation_challenge_wf a : wf a -> wf (a <| observation_challenge := None |>).
Proof. intros []. solve_wf. Qed.
Lemma drop_control_challenge_wf a : wf a -> wf (a <| control_challenge := None |>).
Proof. intros []. solve_wf. Qed.

Lemma apply_resume_boundary_wf now a :
  0 <= now -> wf a -> wf (snd (apply_resume_boundary now a)).
Proof.
  intros Hnow H. unfold apply_resume_boundary. pose proof (check_time_wf now Hnow a H) as H0.
  destruct (check_time now a) as [[u|e] b]; cbn in H0 |- *; [|done]. clear H.
  set (b1 := if is_some_and _ (observation_until b) then _ else b).
  assert (H1 : wf b1) by (subst b1; case_match; [by apply drop_observation_wf|done]).
  clearbody b1.
  set (b2 := if is_some_and _ (observation_challenge b1) then _ else b1).
  assert (H2 : wf b2) by (subst b2; case_match; [by apply drop_observation_challenge_wf|done]).
  clearbody b2.
  set (b3 := if is_some_and _ (control_challenge b2) then _ else b2).
  assert (H3 : wf b3) by (subst b3; case_match; [by apply drop_control_challenge_wf|done]).
  clearbody b3.
  set (b4 := if is_some_and _ (lease b3) then _ else b3).
  assert (H4 : wf b4) by (subst b4; case_match; [by apply revoke_lease_wf|done]).
  clearbody b4.
  apply has_live_control_wf; [done|].
  destruct (lease b4) eqn:Hl; [by apply drop_expired_wf|done].
Qed.

Lemma claim_native_owner_wf i fresh : preserves wf (claim_native_owner i fresh).
Proof.
  intros a H. unfold claim_native_owner. run_method.
  case_bool_decide as Hi; cbn; [|done].
  destruct (is_some (native_owner a)); cbn; [done|].
  destruct H. solve_wf. intros _ Hn. unfold lease_id in Hi. by rewrite Hn in Hi.
Qed.
