(* ===== verification/AuthoritySpec.v ===== *)
(** * Session authority: the abstract transition system

    [Call] names every public method of [SessionAuthority] with its arguments
    and [exec] runs it.  [trans] is the abstract specification: the small set of
    guarded transitions a session authority may make, free of control flow and
    error codes.  [exec_refines] is the refinement: on a well-formed owner every
    call is a finite sequence of abstract transitions, and only the calls that
    are meant to can authorize, grant, issue or confirm.  The theorems about
    histories of calls in [AuthorityProps] are inductions over [trans]. *)

From S2P Require Import Prelude CoreTime Authority AuthorityInv.

(** ** Calls *)

Inductive Call :=
| MarkCapabilitiesChecked
| RequireApproval
| AuthorizeObservation (now : HostInstant)
| AuthorizeObservationDelivery (now : HostInstant)
| ObservationDeadline (now : HostInstant)
| MarkViewReady (now : HostInstant)
| RequireViewEvidence (now : HostInstant)
| MarkViewReadyUntil (until now : HostInstant)
| MarkPresentedReadyUntil (sequence : Z) (until now : HostInstant)
| MarkViewStale
| AdvanceRecovery (generation : Z)
| ConfirmSuspensionRelease (id : InputLeaseId)
| GetControlStatus (now : HostInstant)
| IssueObservationChallenge (n : Z) (now : HostInstant)
| RespondObservationChallenge (n : Z) (now : HostInstant)
| GrantLease (id : InputLeaseId) (now : HostInstant)
| IssueControlChallenge (n : Z) (now : HostInstant)
| RespondControlChallenge (id : InputLeaseId) (n : Z) (now : HostInstant)
| IssueInputTicket (id : InputLeaseId) (t : InputTicketId) (now : HostInstant)
| IssuePresentedInputTicket (id : InputLeaseId) (t : InputTicketId) (now : HostInstant)
| InvalidateInputTickets (id : InputLeaseId)
| AuthorizeSubmission (id : InputLeaseId) (t : InputTicketId) (now : HostInstant)
| SubmissionDeadline (id : InputLeaseId) (t : InputTicketId) (now : HostInstant)
| RevokeLease
| HasLiveControl (now : HostInstant)
| ApplyResumeBoundary (now : HostInstant)
| InvalidateForSuspend
| CloseSession
| RefuseSession
| ClaimNativeOwner (id : InputLeaseId) (fresh : Z).

(** The owner a call leaves behind. *)
Definition exec (c : Call) (a : SessionAuthority) : SessionAuthority :=
  match c with
  | MarkCapabilitiesChecked => snd (mark_capabilities_checked a)
  | RequireApproval => snd (require_approval a)
  | AuthorizeObservation now => snd (authorize_observation now a)
  | AuthorizeObservationDelivery now => snd (authorize_observation_delivery now a)
  | ObservationDeadline now => snd (observation_deadline now a)
  | MarkViewReady now => snd (mark_view_ready now a)
  | RequireViewEvidence now => snd (require_view_evidence now a)
  | MarkViewReadyUntil until now => snd (mark_view_ready_until until now a)
  | MarkPresentedReadyUntil s until now => snd (mark_presented_ready_until s until now a)
  | MarkViewStale => mark_view_stale a
  | AdvanceRecovery g => snd (advance_recovery g a)
  | ConfirmSuspensionRelease i => snd (confirm_suspension_release i a)
  | GetControlStatus now => snd (control_status now a)
  | IssueObservationChallenge n now => snd (issue_observation_challenge n now a)
  | RespondObservationChallenge n now => snd (respond_observation_challenge n now a)
  | GrantLease i now => snd (grant_lease i now a)
  | IssueControlChallenge n now => snd (issue_control_challenge n now a)
  | RespondControlChallenge i n now => snd (respond_control_challenge i n now a)
  | IssueInputTicket i t now => snd (issue_input_ticket i t now a)
  | IssuePresentedInputTicket i t now => snd (issue_presented_input_ticket i t now a)
  | InvalidateInputTickets i => snd (invalidate_input_tickets i a)
  | AuthorizeSubmission i t now => snd (authorize_submission i t now a)
  | SubmissionDeadline i t now => snd (submission_deadline i t now a)
  | RevokeLease => revoke_lease a
  | HasLiveControl now => snd (has_live_control now a)
  | ApplyResumeBoundary now => snd (apply_resume_boundary now a)
  | InvalidateForSuspend => invalidate_for_suspend a
  | CloseSession => close a
  | RefuseSession => refuse a
  | ClaimNativeOwner i fresh => snd (claim_native_owner i fresh a)
  end.

(** The clock sample a call carries, when it carries one. *)
Definition call_time (c : Call) : option HostInstant :=
  match c with
  | AuthorizeObservation now | AuthorizeObservationDelivery now | ObservationDeadline now
  | MarkViewReady now | RequireViewEvidence now | MarkViewReadyUntil _ now
  | MarkPresentedReadyUntil _ _ now | GetControlStatus now | IssueObservationChallenge _ now
  | RespondObservationChallenge _ now | GrantLease _ now | IssueControlChallenge _ now
  | RespondControlChallenge _ _ now | IssueInputTicket _ _ now
  | IssuePresentedInputTicket _ _ now | AuthorizeSubmission _ _ now
  | SubmissionDeadline _ _ now | HasLiveControl now | ApplyResumeBoundary now => Some now
  | _ => None
  end.

(** Clock samples are unsigned. *)
Definition call_ok (c : Call) : Prop := forall now, call_time c = Some now -> 0 <= now.
#[export] Instance call_ok_dec c : Decision (call_ok c).
Proof.
  unfold call_ok. destruct (call_time c) as [now|].
  - destruct (decide (0 <= now)); [left | right]; naive_solver.
  - left. naive_solver.
Defined.

(** A history of calls, oldest first. *)
Definition run (cs : list Call) (a : SessionAuthority) : SessionAuthority :=
  foldl (fun a c => exec c a) a cs.

(** ** Abstract transitions *)

Inductive Label :=
| LAuthorize
| LGrant (id : InputLeaseId)
| LIssue (id : InputLeaseId) (t : InputTicketId)
| LConfirm (id : InputLeaseId)
| LView (until : HostInstant)
| LRevoke
| LOther.

Inductive trans : Label -> SessionAuthority -> SessionAuthority -> Prop :=
| T_tick a now :
    clock_faulted a = false -> clock a <= now ->
    trans LOther a (a <| last_checked := Some now |>)
| T_lapse a t : trans LOther a (lapse_view t a)
| T_fault a : trans LOther a (close (a <| clock_faulted := true |>))
| T_close a : trans LOther a (close a)
| T_refuse a : trans LOther a (refuse a)
| T_drop a : trans LOther a (drop_observation a)
| T_capabilities a :
    phase a = Identified -> trans LOther a (a <| phase := CapabilitiesChecked |>)
| T_approval a :
    phase a = CapabilitiesChecked -> trans LOther a (a <| phase := WaitingApproval |>)
| T_authorize a now :
    last_checked a = Some now -> clock_faulted a = false ->
    (phase a = CapabilitiesChecked \/ phase a = WaitingApproval) -> now < horizon a ->
    trans LAuthorize a ((clear_authority a) <| observation_until := Some (horizon a) |>
                                            <| phase := ViewOpening |>)
| T_unpresent a : trans LOther a (a <| presented_sequence := None |>)
| T_present a s :
    readiness a = Ready -> trans LOther a (a <| presented_sequence := Some s |>)
| T_ready a now :
    live_at now a -> bounded_view a = false ->
    trans LOther a (a <| phase := Viewing |> <| readiness := Ready |>)
| T_ready_until a now until :
    live_at now a -> now < until -> check_suspension now a = Ok tt ->
    trans (LView until) a (a <| suspension := None |> <| bounded_view := true |>
                      <| view_until := Some until |> <| phase := Viewing |>
                      <| readiness := Ready |>)
| T_bound a now :
    live_at now a -> is_some (lease a) && negb (bounded_view a) = false ->
    trans LOther a (a <| bounded_view := true |>)
| T_recovery a g :
    readiness a <> Ready -> (forall g', recovery a = Some g' -> g' < g) ->
    trans LOther a (clear_tickets (a <| recovery := Some g |> <| presented_sequence := None |>))
| T_confirm a i s :
    lease_id a = Some i -> suspension a = Some s ->
    trans (LConfirm i) a (a <| suspension := Some (s <| released := true |>) |>)
| T_observation_challenge a now n :
    live_at now a ->
    trans LOther a (a <| observation_challenge := Some (mkChallenge n (horizon a)) |>)
| T_drop_observation_challenge a :
    trans LOther a (a <| observation_challenge := None |>)
| T_renew_observation a now c :
    live_at now a -> observation_challenge a = Some c -> now < deadline c ->
    trans LOther a (a <| observation_challenge := None |>
                      <| observation_until := Some (deadline c) |>)
| T_grant a now i :
    live_at now a -> phase a = Viewing -> readiness a = Ready -> lease a = None ->
    trans (LGrant i) a (a <| lease := Some (mkLease i (horizon a) no_tickets) |>
                          <| control_challenge := None |>)
| T_control_challenge a now n l :
    live_at now a -> lease a = Some l -> now < authorized_until l ->
    trans LOther a (a <| control_challenge := Some (mkChallenge n (horizon a)) |>)
| T_drop_control_challenge a : trans LOther a (a <| control_challenge := None |>)
| T_renew_control a now l c :
    live_at now a -> lease a = Some l -> now < authorized_until l ->
    control_challenge a = Some c -> now < deadline c ->
    trans LOther a (a <| control_challenge := None |>
                      <| lease := Some (l <| authorized_until := deadline c |>) |>)
| T_issue a now l t e slot :
    live_at now a -> readiness a = Ready -> lease a = Some l -> now < authorized_until l ->
    t <> 0 -> find_ticket l t = None -> free_slot l now = Some slot ->
    e <= authorized_until l -> e <= now + ticket_lifetime (policy a) ->
    trans (LIssue (lease_ident l) t) a
      (a <| lease := Some (l <| tickets := <[slot := Some (mkTicket t e)]> (tickets l) |>) |>)
| T_clear_tickets a : trans LOther a (clear_tickets a)
| T_expire_tickets a l now :
    lease a = Some l ->
    trans LOther a (a <| lease := Some
      (l <| tickets := drop_expired_ticket now <$> tickets l |>) |>)
| T_revoke a : trans LRevoke a (revoke_lease a)
| T_owner a fresh :
    lease a <> None -> native_owner a = None ->
    trans LOther a (a <| native_owner := Some fresh |>).
#[export] Hint Constructors trans : remote.

(** Zero or more abstract transitions, with labels in [P]. *)
Definition tsteps (P : Label -> Prop) : SessionAuthority -> SessionAuthority -> Prop :=
  rtc (fun a b => exists l, P l /\ trans l a b).

(** The labels a call may produce. *)
Definition may (c : Call) (l : Label) : Prop :=
  match l with
  | LAuthorize => exists now, c = AuthorizeObservation now
  | LGrant i => exists now, c = GrantLease i now
  | LIssue i t => (exists now, c = IssueInputTicket i t now) \/
                  (exists now, c = IssuePresentedInputTicket i t now)
  | LConfirm i => c = ConfirmSuspensionRelease i
  | LView until => (exists now, c = MarkViewReadyUntil until now) \/
                   (exists s now, c = MarkPresentedReadyUntil s until now)
  | LRevoke => c = RevokeLease \/ exists now, c = ApplyResumeBoundary now
  | LOther => True
  end.

(** ** Refinement *)

Section refinement.
Context (P : Label -> Prop) (Hother : P LOther).

Lemma tsteps_refl a : tsteps P a a.
Proof. apply rtc_refl. Qed.

Lemma tsteps_once l a b : P l -> trans l a b -> tsteps P a b.
Proof. intros. apply rtc_once. eauto. Qed.

Lemma tsteps_other a b : trans LOther a b -> tsteps P a b.
Proof using Hother. by apply tsteps_once. Qed.

Lemma tsteps_trans a b c : tsteps P a b -> tsteps P b c -> tsteps P a c.
Proof. unfold tsteps. intros. by etrans. Qed.

Lemma tsteps_snoc l a b c : tsteps P a b -> P l -> trans l b c -> tsteps P a c.
Proof. intros. eapply rtc_r; [done|]. eauto. Qed.

Lemma tsteps_lapse_if_due now a : tsteps P a (lapse_if_due now a).
Proof using Hother.
  unfold lapse_if_due. destruct (view_until a) as [u|]; [|apply tsteps_refl].
  destruct (u <=? now); [apply tsteps_other; constructor | apply tsteps_refl].
Qed.

Lemma tsteps_check_time now a : 0 <= now -> wf a -> tsteps P a (snd (check_time now a)).
Proof using Hother.
  intros Hnow H. unfold check_time.
  destruct (clock_faulted a) eqn:Hf; cbn; [apply tsteps_other; constructor|].
  destruct (is_some_and _ _) eqn:Hl; cbn; [apply tsteps_other; constructor|].
  eapply tsteps_trans; [apply tsteps_other, (T_tick a now) | apply tsteps_lapse_if_due]; [done|].
  unfold clock. destruct (last_checked a); cbn in *; lia.
Qed.

(** A call that begins with [check_live]: its steps follow those of the check. *)
Lemma tsteps_live {A : Type} now (k : AuthM A) a :
  0 <= now -> wf a ->
  (forall b, wf b -> live_at now b -> tsteps P b (snd (k b))) ->
  tsteps P a (snd ((_ ← check_live now; k) a)).
Proof using Hother.
  intros Hnow H Hk. pose proof (check_live_spec now a Hnow H) as Hs.
  pose proof (tsteps_check_time now a Hnow H) as Ht.
  assert (Hst : snd (check_live now a) = snd (check_time now a)).
  { unfold check_live. run_method. by destruct (check_time now a) as [[]]. }
  unfold mbind, M_bind. rewrite <- Hst in Ht.
  destruct (check_live now a) as [[u|e] b]; cbn in *; [|done].
  destruct Hs as (? & ? & _). eapply tsteps_trans; [done|]. by apply Hk.
Qed.

End refinement.

(** Every call keeps the invariant. *)
Lemma exec_wf c a : call_ok c -> wf a -> wf (exec c a).
Proof.
  intros Hc H. unfold call_ok in Hc.
  destruct c; cbn in Hc |- *; try specialize (Hc _ eq_refl).
  - by apply mark_capabilities_checked_wf.
  - by apply require_approval_wf.
  - by apply authorize_observation_wf.
  - by apply check_live_wf.
  - apply (preserves_bind wf); [by apply check_live_wf | intros; apply preserves_readr | done].
  - by apply mark_view_ready_wf.
  - by apply require_view_evidence_wf.
  - by apply mark_view_ready_until_wf.
  - by apply mark_presented_ready_until_wf.
  - by apply mark_view_stale_wf.
  - by apply advance_recovery_wf.
  - by apply confirm_suspension_release_wf.
  - by apply control_status_wf.
  - by apply issue_observation_challenge_wf.
  - by apply respond_observation_challenge_wf.
  - by apply grant_lease_wf.
  - by apply issue_control_challenge_wf.
  - by apply respond_control_challenge_wf.
  - by apply issue_ticket_checked_wf.
  - by apply issue_ticket_checked_wf.
  - by apply invalidate_input_tickets_wf.
  - by apply authorize_submission_wf.
  - by apply submission_deadline_wf.
  - by apply revoke_lease_wf.
  - by apply has_live_control_wf.
  - by apply apply_resume_boundary_wf.
  - by apply drop_observation_wf.
  - by apply close_wf.
  - by apply refuse_wf.
  - by apply claim_native_owner_wf.
Qed.

Lemma run_wf cs a : Forall call_ok cs -> wf a -> wf (run cs a).
Proof.
  revert a. induction cs as [|c cs IH]; intros a Hcs H; [done|].
  apply Forall_cons in Hcs as [Hc Hcs]. cbn. apply IH; [done|]. by apply exec_wf.
Qed.

(** Refinement of the calls that only check: nothing but the clock moves. *)
Lemma tsteps_checked {A : Type} (P : Label -> Prop) now (k : AuthM A) a :
  P LOther -> 0 <= now -> wf a -> (forall b, snd (k b) = b) ->
  tsteps P a (snd ((_ ← check_time now; k) a)).
Proof.
  intros HP Hnow H Hk. pose proof (tsteps_check_time P HP now a Hnow H) as Ht.
  unfold mbind, M_bind. destruct (check_time now a) as [[u|e] b]; cbn in *; [|done].
  by rewrite Hk.
Qed.

Lemma mark_view_ready_until_refines (P : Label -> Prop) until now a :
  P LOther -> P (LView until) -> 0 <= now -> wf a ->
  tsteps P a (snd (mark_view_ready_until until now a)).
Proof.
  intros HP HV Hnow H. unfold mark_view_ready_until.
  eapply (tsteps_trans P _ (a <| presented_sequence := None |>));
    [apply tsteps_other; [done|constructor]|].
  unfold mbind at 1, M_bind at 1, modify at 1.
  apply tsteps_live; [done..|by apply clear_presented_wf|]. intros b Hb Hl. run_method.
  destruct (until <=? now) eqn:Hu; cbn; [apply tsteps_refl|].
  destruct (check_suspension now b) as [[]|] eqn:Hs; cbn; [|apply tsteps_refl].
  destruct (is_some_and _ _); cbn; [apply tsteps_refl|].
  apply (tsteps_once _ _ _ _ HV), (T_ready_until b now until); [done|lia|done].
Qed.

Lemma respond_observation_refines P n now a :
  P LOther -> 0 <= now -> wf a ->
  tsteps P a (snd (respond_observation_challenge n now a)).
Proof.
  intros HP Hnow H. apply tsteps_live; [done..|]. intros b Hb Hl. run_method. cbn.
  destruct (consume_challenge (observation_challenge b) n now) as [r slot] eqn:Hc.
  apply consume_challenge_cases in Hc as [Hslot Hr]. cbn. destruct r as [c|e]; cbn.
  - destruct (Hr c eq_refl) as (Ho & -> & _ & ?).
    apply tsteps_other; [done|]. exact (T_renew_observation b now c Hl Ho H0).
  - destruct Hslot as [-> | ->]; [destruct b; apply tsteps_refl|].
    apply tsteps_other; [done|constructor].
Qed.

Lemma respond_control_refines P i n now a :
  P LOther -> 0 <= now -> wf a ->
  tsteps P a (snd (respond_control_challenge i n now a)).
Proof.
  intros HP Hnow H. apply tsteps_live; [done..|]. intros b Hb Hl. run_method. cbn.
  destruct (lease b) as [l|] eqn:Hla; cbn; [|apply tsteps_refl].
  destruct (negb (lease_ident l =? i)); cbn; [apply tsteps_refl|].
  destruct (authorized_until l <=? now) eqn:Hu; [apply tsteps_other; [done|constructor]|].
  destruct (consume_challenge (control_challenge b) n now) as [r slot] eqn:Hc.
  apply consume_challenge_cases in Hc as [Hslot Hr]. cbn. destruct r as [c|e]; cbn.
  - destruct (Hr c eq_refl) as (Ho & -> & _ & ?).
    apply tsteps_other; [done|]. exact (T_renew_control b now l c Hl Hla ltac:(lia) Ho H0).
  - destruct Hslot as [-> | ->]; [destruct b; apply tsteps_refl|].
    apply tsteps_other; [done|constructor].
Qed.

Lemma issue_ticket_refines (P : Label -> Prop) i t now presented a :
  P LOther -> P (LIssue i t) -> 0 <= now -> wf a ->
  tsteps P a (snd (issue_ticket_checked i t now presented a)).
Proof.
  intros HP Hi Hnow H. apply tsteps_live; [done..|]. intros b Hb Hl. run_method. cbn.
  destruct (readiness b) eqn:Hr; cbn; try apply tsteps_refl.
  destruct (presented && negb (is_some (presented_sequence b))); cbn; [apply tsteps_refl|].
  destruct (lease b) as [l|] eqn:Hla; cbn; [|apply tsteps_refl].
  destruct (lease_ident l =? i) eqn:Hid; cbn; [|apply tsteps_refl].
  destruct (authorized_until l <=? now) eqn:Hlt; cbn; [apply tsteps_refl|].
  destruct (t =? 0) eqn:Ht; cbn; [apply tsteps_refl|].
  destruct (find_ticket l t) eqn:Hfind; cbn; [apply tsteps_refl|].
  destruct (future_deadline now (ticket_lifetime (policy b))) as [d|] eqn:Hd; cbn;
    [|apply tsteps_refl].
  destruct (observation_until b) as [u|] eqn:Hu; cbn; [|apply tsteps_refl].
  destruct (free_slot l now) as [slot|] eqn:Hs; cbn; [|apply tsteps_refl].
  apply future_deadline_Ok in Hd as (-> & _).
  apply Z.eqb_eq in Hid as <-.
  rewrite <- Hu. eapply tsteps_once; [done|].
  eapply (T_issue b now l t _ slot); try done; lia.
Qed.

(** A guarded update, as the resume boundary makes them. *)
Lemma tsteps_guarded (P : Label -> Prop) (c : bool) l a b :
  P l -> trans l a b -> wf a -> wf b ->
  tsteps P a (if c then b else a) /\ wf (if c then b else a).
Proof.
  intros HP Ht Ha Hb. destruct c; [split; [by eapply tsteps_once|done]|].
  split; [apply tsteps_refl|done].
Qed.

Lemma apply_resume_boundary_refines (P : Label -> Prop) now a :
  P LOther -> P LRevoke -> 0 <= now -> wf a ->
  tsteps P a (snd (apply_resume_boundary now a)).
Proof.
  intros HP HR Hnow H. unfold apply_resume_boundary.
  pose proof (tsteps_check_time P HP now a Hnow H) as T0.
  pose proof (check_time_wf now Hnow a H) as H0.
  destruct (check_time now a) as [[u|e] b]; cbn in H0, T0; [|done].
  cbn [is_ok negb]. clear H.
  destruct (tsteps_guarded P (is_some_and (fun until => until <=? now) (observation_until b))
    _ b _ HP (T_drop b) H0 (drop_observation_wf b H0)) as [T1 H1].
  set (b1 := if is_some_and _ (observation_until b) then _ else b) in *. clearbody b1.
  destruct (tsteps_guarded P (is_some_and (fun c => deadline c <=? now) (observation_challenge b1))
    _ b1 _ HP (T_drop_observation_challenge b1) H1 (drop_observation_challenge_wf b1 H1))
    as [T2 H2].
  set (b2 := if is_some_and _ (observation_challenge b1) then _ else b1) in *. clearbody b2.
  destruct (tsteps_guarded P (is_some_and (fun c => deadline c <=? now) (control_challenge b2))
    _ b2 _ HP (T_drop_control_challenge b2) H2 (drop_control_challenge_wf b2 H2)) as [T3 H3].
  set (b3 := if is_some_and _ (control_challenge b2) then _ else b2) in *. clearbody b3.
  destruct (tsteps_guarded P (is_some_and (fun l => authorized_until l <=? now) (lease b3))
    _ b3 _ HR (T_revoke b3) H3 (revoke_lease_wf b3 H3)) as [T4 H4].
  set (b4 := if is_some_and _ (lease b3) then _ else b3) in *. clearbody b4.
  set (b5 := match lease b4 with Some l => _ | None => b4 end).
  assert (tsteps P b4 b5 /\ wf b5) as [T5 H5].
  { subst b5; destruct (lease b4) eqn:Hl; [|split; [apply tsteps_refl|done]].
    split; [by apply tsteps_other, T_expire_tickets|by apply drop_expired_wf]. }
  clearbody b5. unfold has_live_control.
  pose proof (tsteps_check_time P HP now b5 Hnow H5) as T6.
  destruct (check_time now b5) as [? b6]; cbn in *.
  repeat (eapply tsteps_trans; [done|]). apply tsteps_refl.
Qed.

Lemma authorize_observation_refines (P : Label -> Prop) now a :
  P LOther -> P LAuthorize -> 0 <= now -> wf a ->
  tsteps P a (snd (authorize_observation now a)).
Proof.
  intros HP HA Hnow H. unfold authorize_observation, mbind at 1, M_bind at 1.
  pose proof (tsteps_check_time _ HP now a Hnow H) as Ht.
  pose proof (check_time_spec now a Hnow H) as Hs.
  destruct (check_time now a) as [[u|e] b]; cbn in Ht |- *; [|done].
  destruct Hs as (Hb & _ & Hf & Heq). run_method.
  pose proof (lapse_if_due_frame now (a <| last_checked := Some now |>)) as (E1 & E2 & _).
  cbn in E1, E2, Heq. rewrite <- Heq in E1, E2. clear Heq.
  destruct (deadline_from b now) as [d|] eqn:Hd.
  2:{ destruct (phase b); cbn; rewrite ?Hd; done. }
  pose proof (deadline_from_horizon now b d E1 Hd) as [-> Hlt].
  destruct (phase b) eqn:Hp; cbn; rewrite ?Hd; try done; cbn.
  all: eapply tsteps_snoc; [exact Ht|exact HA|].
  all: apply (T_authorize b now); [done|congruence|auto|done].
Qed.

(** The refinement: a call on a well-formed owner is a finite sequence of
    abstract transitions, with labels the call is entitled to. *)
(** One lemma per remaining method, for any labels that allow the plain
    transitions. *)
Section methods_refine.
Context (P : Label -> Prop) (HP : P LOther).

Lemma mark_view_ready_refines now a :
  0 <= now -> wf a -> tsteps P a (snd (mark_view_ready now a)).
Proof using HP.
  intros Hc H. unfold mark_view_ready.
  eapply (tsteps_trans _ _ (a <| presented_sequence := None |>));
    [by apply tsteps_other, T_unpresent|].
  unfold mbind at 1, M_bind at 1, modify at 1.
  apply tsteps_live; [done..|by apply clear_presented_wf|]. intros b Hb Hl. run_method.
  destruct (bounded_view b) eqn:?; cbn; [apply tsteps_refl|].
  by apply tsteps_other, (T_ready b now).
Qed.

Lemma require_view_evidence_refines now a :
  0 <= now -> wf a -> tsteps P a (snd (require_view_evidence now a)).
Proof using HP.
  intros Hc H. apply tsteps_live; [done..|]. intros b Hb Hl. run_method.
  destruct (is_some (lease b) && negb (bounded_view b)) eqn:?; [apply tsteps_refl|].
  eapply tsteps_trans; [by apply tsteps_other, (T_bound b now)|].
  by apply tsteps_other, T_lapse.
Qed.

Lemma mark_presented_refines s until now a :
  P (LView until) -> 0 <= now -> wf a -> tsteps P a (snd (mark_presented_ready_until s until now a)).
Proof using HP.
  intros HV Hc H. unfold mark_presented_ready_until, mbind, M_bind.
  pose proof (mark_view_ready_until_refines _ until now a HP HV Hc H) as Ht.
  pose proof (mark_view_ready_until_ready until now a) as Hr.
  destruct (mark_view_ready_until until now a) as [[[]|e] b]; cbn in *; [|done].
  eapply tsteps_trans; [done|]. by apply tsteps_other, T_present, Hr.
Qed.

Lemma advance_recovery_refines g a : tsteps P a (snd (advance_recovery g a)).
Proof using HP.
  unfold advance_recovery. run_method.
  destruct (readiness a) eqn:Hr; cbn; [|apply tsteps_refl|].
  all: destruct (is_some_and _ _) eqn:Hg; cbn; [apply tsteps_refl|].
  all: apply tsteps_other, T_recovery; [done|congruence|].
  all: intros g' Hg'; rewrite Hg' in Hg; cbn in Hg; unfold Generation.supersedes in Hg; lia.
Qed.

Lemma confirm_release_refines i a :
  P (LConfirm i) -> tsteps P a (snd (confirm_suspension_release i a)).
Proof using HP.
  intros Hi. unfold confirm_suspension_release. run_method.
  case_bool_decide; cbn; [|apply tsteps_refl].
  destruct (suspension a) eqn:Hs; [|apply tsteps_refl].
  by apply (tsteps_once _ (LConfirm i)), T_confirm.
Qed.

Lemma control_status_refines now a : tsteps P a (snd (control_status now a)).
Proof using HP.
  unfold control_status. run_method. destruct (clock_faulted a); [apply tsteps_refl|]. cbn.
  pose proof (tsteps_lapse_if_due _ HP (serialized_time a now) a) as Ht.
  repeat case_match; simplify_eq/=; done.
Qed.

Lemma issue_observation_challenge_refines n now a :
  0 <= now -> wf a -> tsteps P a (snd (issue_observation_challenge n now a)).
Proof using HP.
  intros Hc H. apply tsteps_live; [done..|]. intros b Hb Hl. run_method.
  destruct (check_challenge_slot _ _); [|apply tsteps_refl].
  destruct (deadline_from b now) as [d|] eqn:Hd; [|apply tsteps_refl].
  apply deadline_from_horizon in Hd as [-> ?]; [|apply Hl].
  by apply tsteps_other, (T_observation_challenge b now).
Qed.

Lemma grant_lease_refines i now a :
  P (LGrant i) -> 0 <= now -> wf a -> tsteps P a (snd (grant_lease i now a)).
Proof using HP.
  intros Hi Hc H. apply tsteps_live; [done..|]. intros b Hb Hl. run_method.
  case_bool_decide; cbn; [|apply tsteps_refl].
  destruct (readiness b) eqn:Hr; cbn; try apply tsteps_refl.
  destruct (lease b) eqn:Hla; cbn; [apply tsteps_refl|].
  destruct (deadline_from b now) as [d|] eqn:Hd; cbn; [|apply tsteps_refl].
  apply deadline_from_horizon in Hd as [-> ?]; [|apply Hl].
  eapply (tsteps_once _ (LGrant i)); [done|]. by apply (T_grant b now).
Qed.

Lemma issue_control_challenge_refines n now a :
  0 <= now -> wf a -> tsteps P a (snd (issue_control_challenge n now a)).
Proof using HP.
  intros Hc H. apply tsteps_live; [done..|]. intros b Hb Hl. run_method.
  destruct (lease b) as [l|] eqn:Hla; cbn; [|apply tsteps_refl].
  destruct (authorized_until l <=? now) eqn:Hu; cbn; [apply tsteps_refl|].
  destruct (check_challenge_slot _ _); cbn; [|apply tsteps_refl].
  destruct (deadline_from b now) as [d|] eqn:Hd; cbn; [|apply tsteps_refl].
  apply deadline_from_horizon in Hd as [-> ?]; [|apply Hl].
  apply tsteps_other; [done|]. exact (T_control_challenge b now n l Hl Hla ltac:(lia)).
Qed.

Lemma invalidate_tickets_refines i a : tsteps P a (snd (invalidate_input_tickets i a)).
Proof using HP.
  unfold invalidate_input_tickets. run_method.
  destruct (lease a) as [l|] eqn:Hla; cbn; [|apply tsteps_refl].
  destruct (negb (lease_ident l =? i)); cbn; [apply tsteps_refl|].
  by apply tsteps_other, T_clear_tickets.
Qed.

Lemma authorize_submission_refines i t now a :
  0 <= now -> wf a -> tsteps P a (snd (authorize_submission i t now a)).
Proof using HP.
  intros Hc H. apply tsteps_checked; [done..|]. intros b. run_method.
  by repeat case_match; simplify_eq/=.
Qed.

Lemma submission_deadline_refines i t now a :
  0 <= now -> wf a -> tsteps P a (snd (submission_deadline i t now a)).
Proof using HP.
  intros Hc H. pose proof (authorize_submission_refines i t now a Hc H) as Hs.
  unfold submission_deadline. run_method.
  destruct (authorize_submission i t now a) as [[]]; cbn in *; [|done].
  by repeat case_match; simplify_eq/=.
Qed.

Lemma has_live_control_refines now a :
  0 <= now -> wf a -> tsteps P a (snd (has_live_control now a)).
Proof using HP.
  intros Hc H. unfold has_live_control. pose proof (tsteps_check_time _ HP now a Hc H) as Ht.
  by destruct (check_time now a).
Qed.

Lemma claim_native_owner_refines i fresh a : tsteps P a (snd (claim_native_owner i fresh a)).
Proof using HP.
  unfold claim_native_owner. run_method.
  case_bool_decide as Hi; cbn; [|apply tsteps_refl].
  destruct (native_owner a) eqn:Hn; cbn; [apply tsteps_refl|].
  apply tsteps_other, T_owner; [done| |done]. intros Hl. unfold lease_id in Hi. by rewrite Hl in Hi.
Qed.

End methods_refine.

Lemma exec_tsteps c a : call_ok c -> wf a -> tsteps (may c) a (exec c a).
Proof.
  intros Hc H. unfold call_ok in Hc. assert (HP : may c LOther) by done.
  destruct c; cbn in Hc; try specialize (Hc _ eq_refl); cbn [exec].
  - unfold mark_capabilities_checked. run_method.
    case_bool_decide; cbn; [|apply tsteps_refl]. by apply tsteps_other, T_capabilities.
  - unfold require_approval. run_method.
    case_bool_decide; cbn; [|apply tsteps_refl]. by apply tsteps_other, T_approval.
  - apply authorize_observation_refines; [done|by eexists|done..].
  - by apply tsteps_checked.
  - apply tsteps_live; [done..|]. intros. apply tsteps_refl.
  - by apply mark_view_ready_refines.
  - by apply require_view_evidence_refines.
  - apply mark_view_ready_until_refines; [done|left; by eexists|done..].
  - apply mark_presented_refines; [done|right; by do 2 eexists|done..].
  - by apply tsteps_other, T_lapse.
  - by apply advance_recovery_refines.
  - by apply confirm_release_refines.
  - by apply control_status_refines.
  - by apply issue_observation_challenge_refines.
  - by apply respond_observation_refines.
  - apply grant_lease_refines; [done|by eexists|done..].
  - by apply issue_control_challenge_refines.
  - by apply respond_control_refines.
  - apply issue_ticket_refines; [done|left; by eexists|done..].
  - apply issue_ticket_refines; [done|right; by eexists|done..].
  - by apply invalidate_tickets_refines.
  - by apply authorize_submission_refines.
  - by apply submission_deadline_refines.
  - by apply (tsteps_once _ LRevoke); [left|constructor].
  - by apply has_live_control_refines.
  - apply apply_resume_boundary_refines; [done|right; by eexists|done..].
  - by apply tsteps_other, T_drop.
  - by apply tsteps_other, T_close.
  - by apply tsteps_other, T_refuse.
  - by apply claim_native_owner_refines.
Qed.
