(* ===== verification/AuthorityProps.v ===== *)
(** * Session authority: what the decisions guarantee

    Theorems about [Authority]: the exact condition under which a submission is
    authorized and for how long, the permanence of every loss of authority over
    arbitrary later histories of calls, renewal, ticket capacity and the
    suspension of a lease by a stale view. *)

From S2P Require Import Prelude CoreTime Authority AuthorityInv AuthoritySpec.

(** ** Specifications *)

(** The condition under which the OS submission of an input action is authorized
    at [now]: the clock has not regressed, the session is viewing, observation is
    live, the presented view is trustworthy, and the named lease and ticket are
    current.  Every deadline is exclusive. *)
Record may_submit (i : InputLeaseId) (t : InputTicketId) (now : HostInstant)
  (a : SessionAuthority) : Prop := {
  ms_fault : clock_faulted a = false;
  ms_clock : forall c, last_checked a = Some c -> c <= now;
  ms_phase : phase a = Viewing;
  ms_observation : exists u, observation_until a = Some u /\ now < u;
  ms_ready : readiness a = Ready;
  ms_view : forall v, view_until a = Some v -> now < v;
  ms_lease : exists l tk, lease a = Some l /\ lease_ident l = i /\ now < authorized_until l /\
    find_ticket l t = Some tk /\ now < expires_at tk;
}.

(** The latest instant before which the authorization of [may_submit] holds. *)
Definition submission_limit (t : InputTicketId) (a : SessionAuthority) : option HostInstant :=
  l ← lease a;
  tk ← find_ticket l t;
  u ← observation_until a;
  let until := Z.min (Z.min (expires_at tk) (authorized_until l)) u in
  Some (match view_until a with Some v => Z.min until v | None => until end).

(** A well-formed owner whose later calls carry unsigned clock samples. *)
Definition history (cs : list Call) (a : SessionAuthority) : Prop :=
  wf a /\ Forall call_ok cs.

(** No call of the history satisfies [P]. *)
Definition never (P : Call -> Prop) (cs : list Call) : Prop := Forall (fun c => ~ P c) cs.

Definition authorizes (c : Call) : Prop := may c LAuthorize.
Definition grants (i : InputLeaseId) (c : Call) : Prop := may c (LGrant i).
Definition issues (t : InputTicketId) (c : Call) : Prop := exists i, may c (LIssue i t).
Definition confirms (i : InputLeaseId) (c : Call) : Prop := may c (LConfirm i).

(** ** Helper lemmas *)

Lemma check_time_Ok now a b :
  check_time now a = (Ok tt, b) <->
  clock_faulted a = false /\ (forall c, last_checked a = Some c -> c <= now) /\
  b = lapse_if_due now (a <| last_checked := Some now |>).
Proof.
  unfold check_time. destruct (clock_faulted a) eqn:Hf; cbn [orb]; [naive_solver|].
  destruct (last_checked a) as [c|] eqn:Hc; cbn [is_some_and].
  - destruct (now <? c) eqn:Hlt.
    + split; [done|]. intros (_ & Hle & _). specialize (Hle c eq_refl). lia.
    + split.
      * intros [= <-]. split_and!; [done| |done]. intros ? [= <-]. lia.
      * intros (_ & _ & ->). done.
  - split; [intros [= <-]; done | intros (_ & _ & ->); done].
Qed.

(** No lapse is due before the view deadline. *)
Lemma lapse_not_due now a :
  (forall v, view_until a = Some v -> now < v) -> lapse_if_due now a = a.
Proof.
  intros Hv. unfold lapse_if_due. destruct (view_until a) as [v|]; [|done].
  specialize (Hv v eq_refl). by replace (v <=? now) with false by lia.
Qed.

Lemma lapse_due_stale now a v :
  view_until a = Some v -> v <= now -> readiness (lapse_if_due now a) <> Ready.
Proof.
  intros Hv Hle. unfold lapse_if_due. rewrite Hv. replace (v <=? now) with true by lia.
  rewrite lapse_view_eq. cbn. unfold lapsed_readiness. by destruct (readiness a).
Qed.

Lemma authorize_submission_Ok i t now a b :
  authorize_submission i t now a = (Ok tt, b) <->
  may_submit i t now a /\ b = a <| last_checked := Some now |>.
Proof.
  set (a' := a <| last_checked := Some now |>). split.
  - unfold authorize_submission. run_method.
    destruct (check_time now a) as [[[]|e] c] eqn:Hc; [|done].
    apply check_time_Ok in Hc as (Hf & Hcl & ->). fold a'.
    case_bool_decide as Hp; cbn; [|done]. unfold check_observation_live. rewrite Hp. cbn.
    destruct (observation_until (lapse_if_due now a')) as [u|] eqn:Ho; [|done].
    destruct (now <? u) eqn:Hu; [|done].
    destruct (readiness (lapse_if_due now a')) eqn:Hr; cbn; [done| |done].
    assert (Hv : forall v, view_until a' = Some v -> now < v).
    { intros v Hv. destruct (Z.lt_ge_cases now v); [done|].
      exfalso. by apply (lapse_due_stale now a' v). }
    rewrite (lapse_not_due now a' Hv) in *. cbn in *.
    destruct (lease a) as [l|] eqn:Hl; cbn; [|done].
    destruct (lease_ident l =? i) eqn:Hi; cbn; [|done].
    destruct (authorized_until l <=? now) eqn:Hau; cbn; [done|].
    destruct (find_ticket l t) as [tk|] eqn:Ht; cbn; [|done].
    destruct (expires_at tk <=? now) eqn:He; cbn; [done|]. intros [= <-].
    split; [|done]. constructor; try done.
    + exists u. split; [done|lia].
    + exists l, tk. split_and!; [done|lia|lia|done|lia].
  - intros ([Hf Hcl Hp (u & Ho & Hu) Hr Hv (l & tk & Hl & Hi & Hau & Ht & He)] & ->).
    unfold authorize_submission. run_method.
    assert (Hc : check_time now a = (Ok tt, a')).
    { apply check_time_Ok. split_and!; try done. by rewrite lapse_not_due. }
    rewrite Hc. rewrite bool_decide_eq_true_2 by done. subst a'. cbn.
    unfold check_observation_live. cbn. rewrite Hp, Ho. cbn. replace (now <? u) with true by lia. rewrite Hr. cbn. rewrite Hl.
    cbn. rewrite Hi, Z.eqb_refl. cbn. replace (authorized_until l <=? now) with false by lia.
    cbn. rewrite Ht. cbn. by replace (expires_at tk <=? now) with false by lia.
Qed.

Lemma authorize_submission_is_Ok i t now a :
  is_ok (fst (authorize_submission i t now a)) = true <-> may_submit i t now a.
Proof.
  split.
  - destruct (authorize_submission i t now a) as [[[]|e] b] eqn:H; [|done]. intros _.
    by apply authorize_submission_Ok in H as [? _].
  - intros H. assert (Hok : authorize_submission i t now a = (Ok tt, a <| last_checked := Some now |>))
      by (by apply authorize_submission_Ok). by rewrite Hok.
Qed.

(** An invariant of the abstract transitions is an invariant of every history. *)
Lemma run_invariant (I : SessionAuthority -> Prop) (P : Call -> Prop) (Q : Label -> Prop) :
  (forall c l, P c -> may c l -> Q l) ->
  (forall l a b, Q l -> trans l a b -> I a -> I b) ->
  forall cs a, history cs a -> Forall P cs -> I a -> wf (run cs a) /\ I (run cs a).
Proof.
  intros HQ Hstep cs. induction cs as [|c cs IH]; intros a [Hw Hok] HP Ha; [done|].
  apply Forall_cons in Hok as [Hc Hok]. apply Forall_cons in HP as [Hpc HP]. cbn.
  apply IH; [split; [by apply exec_wf | done] | done |].
  assert (Hts : forall x y, tsteps (may c) x y -> I x -> I y).
  { intros x y Ht. unfold tsteps in Ht.
    induction Ht as [|x y z (l & Hl & Hxy) _ IHt]; [done|]. intros Hx. eauto. }
  eapply Hts; [by apply exec_tsteps | done].
Qed.

(** ** Losses of authority, as invariants of the abstract transitions *)

(** The lease [i] reached its deadline [T] at a checked instant. *)
Definition lease_dead (i : InputLeaseId) (T : HostInstant) (a : SessionAuthority) : Prop :=
  T <= clock a /\
  forall l, lease a = Some l -> lease_ident l = i -> authorized_until l <= T.

(** Observation reached its deadline [T] at a checked instant. *)
Definition observation_dead (T : HostInstant) (a : SessionAuthority) : Prop :=
  T <= clock a /\ forall u, observation_until a = Some u -> u <= T.

(** No slot of a held lease names the ticket [t]. *)
Definition ticket_absent (t : InputTicketId) (a : SessionAuthority) : Prop :=
  forall l, lease a = Some l -> find_ticket l t = None.

(** The lease [i] is suspended and its release unconfirmed, or it is gone. *)
Definition release_pending (i : InputLeaseId) (a : SessionAuthority) : Prop :=
  lease_id a <> Some i \/
  (bounded_view a = true /\ readiness a <> Ready /\
   exists s, suspension a = Some s /\ released s = false).

Ltac invert_trans H := inversion H; subst; clear H.

Lemma live_at_clock now a : live_at now a -> clock a = now.
Proof. intros [Hc _ _ _]. unfold clock. by rewrite Hc. Qed.

(** Expose what a live check established. *)
Ltac use_live :=
  match goal with
  | H : live_at ?now ?a |- _ =>
      pose proof (live_at_clock now a H); destruct H as [_ _ ? (? & ? & ?)]
  end.

(** Only the clock transition moves the clock, and only forward. *)
Lemma trans_clock l a b : trans l a b -> clock a <= clock b.
Proof.
  intros H. invert_trans H; cbn; try done.
  - rewrite lapse_view_eq. done.
  - unfold drop_observation. by destruct (observing _).
  - unfold clear_tickets. cbn. by destruct (lease a).
  - unfold clear_tickets. by destruct (lease a).
Qed.

Lemma lease_dead_trans i T l a b :
  l <> LGrant i -> trans l a b -> lease_dead i T a -> lease_dead i T b.
Proof.
  intros Hl Ht [Hc Hd]. pose proof (trans_clock _ _ _ Ht) as Hm. split; [lia|].
  invert_trans Ht; cbn in *; try done.
  - intros l. rewrite lapse_view_eq. cbn. destruct (lease a) as [l0|] eqn:Hla; [|done].
    intros [= <-] Hi. by apply (Hd l0).
  - unfold drop_observation. by destruct (observing _).
  - unfold clear_tickets. cbn. destruct (lease a) as [l0|] eqn:Hla; cbn; [|congruence].
    intros l1 [= <-] Hi. by apply (Hd l0).
  - intros l [= <-] Hi. cbn in Hi. congruence.
  - intros l1 [= <-] Hi. cbn in Hi. use_live.
    match goal with Hla : lease a = Some _ |- _ => specialize (Hd _ Hla Hi) end. lia.
  - intros l1 [= <-]. cbn. intros Hi. by eapply Hd.
  - unfold clear_tickets. destruct (lease a) as [l0|] eqn:Hla; cbn; [|congruence].
    intros l1 [= <-] Hi. by apply (Hd l0).
  - intros l1 [= <-]. cbn. intros Hi. by eapply Hd.
Qed.

Lemma observation_dead_trans T l a b :
  l <> LAuthorize -> trans l a b -> observation_dead T a -> observation_dead T b.
Proof.
  intros Hl Ht [Hc Hd]. pose proof (trans_clock _ _ _ Ht) as Hm. split; [lia|].
  invert_trans Ht; cbn in *; try done.
  - intros u. rewrite lapse_view_eq. apply Hd.
  - unfold drop_observation. by destruct (observing _).
  - unfold clear_tickets. cbn. by destruct (lease a).
  - intros u [= <-]. use_live.
    match goal with Ho : observation_until a = Some _ |- _ => specialize (Hd _ Ho) end. lia.
  - unfold clear_tickets. by destruct (lease a).
Qed.

Lemma find_ticket_no_tickets l t :
  tickets l = no_tickets -> find_ticket l t = None.
Proof. intros Hl. unfold find_ticket. by rewrite Hl. Qed.

Lemma find_ticket_expired now l t :
  find_ticket l t = None ->
  find_ticket (l <| tickets := drop_expired_ticket now <$> tickets l |>) t = None.
Proof.
  rewrite !find_ticket_None. intros Hn Hin. apply Hn. cbn in Hin.
  eapply elem_of_sublist; [exact Hin|]. apply fmap_sublist. apply flatten_drop_expired.
Qed.

Lemma find_ticket_insert l slot o t e t' :
  tickets l !! slot = Some o -> t <> t' -> find_ticket l t' = None ->
  find_ticket (l <| tickets := <[slot := Some (mkTicket t e)]> (tickets l) |>) t' = None.
Proof.
  rewrite !find_ticket_None. intros Ho Hne Hn Hin. apply Hn.
  change (live_tickets _) with (flatten (<[slot := Some (mkTicket t e)]> (tickets l))) in Hin.
  rewrite (flatten_insert_perm _ _ o) in Hin by done.
  apply elem_of_cons in Hin as [->|Hin]; [done|].
  eapply elem_of_sublist; [exact Hin|]. apply fmap_sublist, flatten_insert_None.
Qed.

Lemma ticket_absent_trans t l a b :
  (forall i, l <> LIssue i t) -> trans l a b -> ticket_absent t a -> ticket_absent t b.
Proof.
  intros Hl Ht Hd. invert_trans Ht; unfold ticket_absent; cbn; try done.
  - intros l. rewrite lapse_view_eq. cbn. destruct (lease a) as [l0|]; [|done].
    intros [= <-]. by apply find_ticket_no_tickets.
  - unfold drop_observation. by destruct (observing _).
  - unfold clear_tickets. cbn. destruct (lease a) as [l0|] eqn:Hla; cbn; [|congruence].
    intros l1 [= <-]. by apply find_ticket_no_tickets.
  - intros l [= <-]. by apply find_ticket_no_tickets.
  - intros l1 [= <-]. by apply (Hd _ H0).
  - intros l1 [= <-]. apply free_slot_Some in H5 as (o & Ho & _).
    eapply find_ticket_insert; [done| |by apply (Hd _ H1)]. intros ->. by eapply Hl.
  - unfold clear_tickets. destruct (lease a) as [l0|] eqn:Hla; cbn; [|congruence].
    intros l1 [= <-]. by apply find_ticket_no_tickets.
  - intros l1 [= <-]. apply find_ticket_expired. by apply (Hd _ H).
Qed.

Lemma check_suspension_released now a s :
  suspension a = Some s -> released s = false -> check_suspension now a <> Ok tt.
Proof.
  intros Hs Hr. unfold check_suspension. rewrite Hs, Hr. cbn.
  destruct (HostTime.instant_add _ _) as [limit|]; [|done].
  by destruct (limit <=? now).
Qed.

Lemma lease_id_clear_tickets a : lease_id (clear_tickets a) = lease_id a.
Proof. unfold clear_tickets, lease_id. destruct (lease a) eqn:H; [done|]. by rewrite H. Qed.

Lemma release_pending_trans i l a b :
  l <> LConfirm i -> l <> LGrant i -> trans l a b -> release_pending i a -> release_pending i b.
Proof.
  intros Hc Hg Ht [Hn|(Hb & Hr & s & Hs & Hrel)].
  - left. invert_trans Ht; cbn; try exact Hn; try done.
    + rewrite lapse_view_eq. unfold lease_id in *. cbn. by destruct (lease a).
    + unfold drop_observation. by destruct (observing _).
    + by rewrite lease_id_clear_tickets.
    + unfold lease_id. cbn. congruence.
    + unfold lease_id in *. cbn. by rewrite H0 in Hn.
    + unfold lease_id in *. cbn. by rewrite H1 in Hn.
    + by rewrite lease_id_clear_tickets.
    + unfold lease_id in *. cbn. by rewrite H in Hn.
  - invert_trans Ht; try (by left); try (right; cbn; eauto; fail); try congruence.
    + right. rewrite lapse_view_eq. cbn. unfold lapsed_readiness, lapsed_suspension.
      rewrite Hs. cbn. rewrite andb_false_r. split_and!; [done| |by eauto].
      by destruct (readiness a).
    + unfold drop_observation. destruct (observing _); by left.
    + exfalso. by eapply check_suspension_released.
    + right. unfold clear_tickets. cbn. destruct (lease a); cbn; eauto.
    + left. unfold lease_id in *. cbn. congruence.
    + right. unfold clear_tickets. cbn. destruct (lease a); cbn; eauto.
Qed.

Lemma terminal_trans l a b : trans l a b -> terminal (phase a) = true -> terminal (phase b) = true.
Proof.
  intros Ht Hp. invert_trans Ht; cbn; try exact Hp; try done.
  all: try match goal with H : live_at _ _ |- _ => destruct H end.
  all: try (destruct (phase a); intuition congruence).
  - by rewrite lapse_view_eq.
  - unfold drop_observation. change (phase (clear_authority a)) with (phase a).
    destruct (observing (phase a)) eqn:Ho; cbn; [by destruct (phase a)|done].
  - unfold clear_tickets. cbn. by destruct (lease a).
  - unfold clear_tickets. by destruct (lease a).
Qed.

(** ** Reachable owners *)

(** An owner that a history of calls produced from a fresh session. *)
Definition reachable (a : SessionAuthority) : Prop :=
  exists s p cs, 0 <= authorization_lifetime p /\ Forall call_ok cs /\ a = run cs (new s p).

Lemma reachable_wf a : reachable a -> wf a.
Proof. intros (s & p & cs & Hp & Hcs & ->). apply run_wf; [done|]. by apply new_wf. Qed.

Lemma reachable_exec c a : call_ok c -> reachable a -> reachable (exec c a).
Proof.
  intros Hc (s & p & cs & Hp & Hcs & ->). exists s, p, (cs ++ [c]). split_and!; [done| |].
  - apply Forall_app. split; [done|]. by apply Forall_singleton.
  - unfold run. by rewrite foldl_app.
Qed.

Lemma reachable_run cs a : reachable a -> Forall call_ok cs -> reachable (run cs a).
Proof.
  revert a. induction cs as [|c cs IH]; intros a Ha Hcs; [done|].
  apply Forall_cons in Hcs as [Hc Hcs]. cbn. apply IH; [|done]. by apply reachable_exec.
Qed.

(** A ticket can only be found in a session that is viewing a ready view. *)
Lemma wf_ticket_ready a l t tk :
  wf a -> lease a = Some l -> find_ticket l t = Some tk ->
  readiness a = Ready /\ phase a = Viewing /\ clock_faulted a = false /\
  expires_at tk <= authorized_until l.
Proof.
  intros H Hl Ht. apply find_ticket_Some in Ht as [Hin _].
  pose proof (wf_lease a H l Hl) as Hwl.
  assert (Hr : readiness a = Ready).
  { apply (lw_ready _ _ _ _ Hwl). intros Hn. rewrite Hn in Hin. by apply not_elem_of_nil in Hin. }
  assert (Hp : phase a = Viewing) by (apply (wf_viewing a H); congruence).
  destruct (lw_bounds _ _ _ _ Hwl tk Hin) as (_ & He & _). split_and!; [done|done| |done].
  destruct (clock_faulted a) eqn:Hf; [|done]. apply (wf_fault a H) in Hf. by rewrite Hp in Hf.
Qed.

Lemma may_submit_limit i t now a :
  wf a ->
  may_submit i t now a <->
  (forall c, last_checked a = Some c -> c <= now) /\ lease_id a = Some i /\
  exists d, submission_limit t a = Some d /\ now < d.
Proof.
  intros H. unfold submission_limit, lease_id. split.
  - intros [Hf Hcl Hp (u & Ho & Hu) Hr Hv (l & tk & Hl & Hi & Hau & Ht & He)].
    split_and!; [done|by rewrite Hl; cbn; f_equal|].
    rewrite Hl. cbn. rewrite Ht. cbn. rewrite Ho. cbn. eexists. split; [done|].
    destruct (view_until a) as [v|]; [specialize (Hv v eq_refl)|]; lia.
  - intros (Hcl & Hi & d & Hd & Hlt).
    destruct (lease a) as [l|] eqn:Hl; [|done]. cbn in Hi, Hd. simplify_eq.
    destruct (find_ticket l t) as [tk|] eqn:Ht; [|done]. cbn in Hd.
    destruct (observation_until a) as [u|] eqn:Ho; [|done]. cbn in Hd. simplify_eq.
    destruct (wf_ticket_ready a l t tk H Hl Ht) as (Hr & Hp & Hf & He).
    constructor; try done.
    + exists u. split; [done|]. destruct (view_until a); lia.
    + intros v Hv. rewrite Hv in Hlt. lia.
    + exists l, tk. split_and!; try done; destruct (view_until a); lia.
Qed.

Lemma submission_deadline_Ok i t now a d b :
  submission_deadline i t now a = (Ok d, b) ->
  may_submit i t now a /\ b = a <| last_checked := Some now |> /\
  submission_limit t a = Some d.
Proof.
  unfold submission_deadline. intros Hd. unfold mbind at 1, M_bind at 1 in Hd.
  destruct (authorize_submission i t now a) as [[[]|e] c] eqn:Ha; [|done].
  apply authorize_submission_Ok in Ha as [Hm ->]. run_method. cbn in Hd.
  pose proof Hm as [Hf Hcl Hp (u & Ho & Hu) Hr Hv (l & tk & Hl & Hi & Hau & Ht & He)].
  rewrite Hl in Hd. cbn in Hd. rewrite Ht in Hd. cbn in Hd. rewrite Ho in Hd. cbn in Hd.
  injection Hd as Hd Hb.
  split_and!; [done|cbn; rewrite Hl, Ho; by symmetry|]. unfold submission_limit.
  rewrite Hl. cbn. rewrite Ht. cbn. rewrite Ho. cbn. congruence.
Qed.

(** ** Claims *)

(** C6. Refinement: on every owner a history of calls can produce, every public
    method of [SessionAuthority] (on all its branches, early returns included)
    keeps the well-formedness invariant and is a finite sequence of the guarded
    abstract transitions [trans]; only [authorize_observation] can make the
    authorizing transition, only [grant_lease] a grant of that lease, only the
    two ticket-issuing methods an issue of that ticket, only
    [confirm_suspension_release] a confirmation, and only [revoke_lease] and
    [apply_resume_boundary] a revocation. *)
Theorem authority_refines_spec a c :
  reachable a -> call_ok c -> wf (exec c a) /\ tsteps (may c) a (exec c a).
Proof.
  intros Ha Hc. apply reachable_wf in Ha. split; [by apply exec_wf | by apply exec_tsteps].
Qed.

(** C14. The whole submission decision is one comparison: on a reachable owner,
    [authorize_submission] succeeds exactly when the clock sample does not
    regress, the lease is the current one and the sample is before the earliest
    of the ticket, lease, observation and bounded-view deadlines.  (The phase,
    readiness and clock-fault checks of the source are implied by the invariant
    whenever the ticket is found.) *)
Theorem submission_authorized_iff a i t now :
  reachable a ->
  is_ok (fst (authorize_submission i t now a)) = true <->
  (forall c, last_checked a = Some c -> c <= now) /\ lease_id a = Some i /\
  exists d, submission_limit t a = Some d /\ now < d.
Proof.
  intros Ha. rewrite authorize_submission_is_Ok. by apply may_submit_limit, reachable_wf.
Qed.

(** The deadline returned by [submission_deadline] is exact: it is in the
    future, and re-checking the same lease and ticket at any later sample succeeds
    before it and fails at or after it. *)
Theorem submission_deadline_exact a i t now d b :
  reachable a -> 0 <= now -> submission_deadline i t now a = (Ok d, b) ->
  now < d /\ forall now', now <= now' ->
    is_ok (fst (authorize_submission i t now' b)) = true <-> now' < d.
Proof.
  intros Ha Hnow Hd. pose proof (reachable_wf a Ha) as Hw.
  assert (Hb : wf b).
  { pose proof (submission_deadline_wf i t now Hnow a Hw) as Hs. by rewrite Hd in Hs. }
  apply submission_deadline_Ok in Hd as (Hm & -> & Hl).
  apply (may_submit_limit _ _ _ _ Hw) in Hm as (Hc & Hi & d' & Hd' & Hlt).
  assert (d' = d) as -> by congruence. split; [done|]. intros now' Hn. rewrite authorize_submission_is_Ok, may_submit_limit by done.
  split.
  - intros (_ & _ & e & He & ?). change (submission_limit t a = Some e) in He.
    assert (e = d) by congruence. lia.
  - intros Hlt'. split_and!; [cbn; intros ? [= <-]; done|done|]. exists d. split; [done|lia].
Qed.

(** No authorization outlives the horizon: a submission authorized at [now] on
    a reachable owner is strictly before the last checked instant plus the
    authorization lifetime, whatever challenges were answered. *)
Theorem submission_within_horizon a i t now :
  reachable a -> is_ok (fst (authorize_submission i t now a)) = true ->
  now < clock a + authorization_lifetime (policy a).
Proof.
  intros Ha Hok. apply reachable_wf in Ha. apply authorize_submission_is_Ok in Hok.
  destruct Hok as [_ _ _ _ _ _ (l & tk & Hl & _ & Hau & _)].
  pose proof (lw_until _ _ _ _ (wf_lease a Ha l Hl)) as Hu. unfold horizon in Hu. lia.
Qed.

(** *** Losses of authority are permanent *)

Lemma authorize_submission_LeaseExpired i t now a b :
  0 <= now -> wf a -> authorize_submission i t now a = (Err LeaseExpired, b) ->
  wf b /\ lease_dead i now b.
Proof.
  intros Hnow H Ha. pose proof (authorize_submission_wf i t now Hnow a H) as Hb.
  rewrite Ha in Hb. split; [done|]. unfold authorize_submission in Ha.
  pose proof (check_time_spec now a Hnow H) as Hs. run_method.
  destruct (check_time now a) as [[[]|e] c]; [|destruct Hs as (_ & -> & _); done].
  destruct Hs as (_ & _ & _ & Hc).
  pose proof (lapse_if_due_frame now (a <| last_checked := Some now |>)) as (E1 & _).
  rewrite <- Hc in E1. clear Hc. cbn in E1.
  case_bool_decide; cbn in Ha; [|done]. unfold check_observation_live in Ha.
  destruct (observing (phase c)); cbn in Ha; [|done].
  destruct (observation_until c) as [u|]; [|done]. destruct (now <? u); [|done].
  destruct (is_ready (readiness c)); cbn in Ha; [|done].
  destruct (lease c) as [l|] eqn:Hl; cbn in Ha; [|done].
  destruct (lease_ident l =? i); cbn in Ha; [|done].
  destruct (authorized_until l <=? now) eqn:Hu; cbn in Ha.
  - injection Ha as <-. unfold lease_dead, clock. rewrite E1. cbn. split; [done|].
    intros l' Hl' _. simplify_eq. lia.
  - destruct (find_ticket l t) as [tk|]; cbn in Ha; [|done].
    by destruct (expires_at tk <=? now).
Qed.

Lemma lease_dead_refuses i T a t now :
  0 <= now -> lease_dead i T a -> is_ok (fst (authorize_submission i t now a)) = false.
Proof.
  intros Hnow [Hc Hd]. apply not_true_is_false. rewrite authorize_submission_is_Ok.
  intros [_ Hcl _ _ _ _ (l & tk & Hl & Hi & Hau & _)]. specialize (Hd l Hl Hi).
  unfold clock in Hc. destruct (last_checked a) as [c|]; cbn in Hc; [specialize (Hcl c eq_refl)|]; lia.
Qed.

(** C15. An expired lease is final: once a submission under lease [i] was refused
    with [LeaseExpired], no later history of calls (renewal responses, new
    tickets, fresh presentation reports, anything but a new grant of [i])
    authorizes a submission under [i] again. *)
Theorem expired_lease_is_final a i t now b cs t' now' :
  reachable a -> 0 <= now -> 0 <= now' ->
  authorize_submission i t now a = (Err LeaseExpired, b) ->
  Forall call_ok cs -> never (grants i) cs ->
  is_ok (fst (authorize_submission i t' now' (run cs b))) = false.
Proof.
  intros Ha Hnow Hnow' He Hok Hn.
  apply authorize_submission_LeaseExpired in He as [Hb Hd]; [|done|by apply reachable_wf].
  apply (lease_dead_refuses i now); [done|].
  apply (run_invariant (lease_dead i now) (fun c => ~ grants i c) (fun l => l <> LGrant i));
    try done.
  - intros c l Hc Hl ->. by apply Hc.
  - intros l x y Hl Ht. by apply (lease_dead_trans _ _ l).
Qed.

Lemma delivery_expired now a b :
  0 <= now -> wf a -> authorize_observation_delivery now a = (Err ObservationExpired, b) ->
  wf b /\ observation_dead now b.
Proof.
  intros Hnow H Ha. pose proof (check_live_wf now Hnow a H) as Hb.
  unfold authorize_observation_delivery in Ha. rewrite Ha in Hb. split; [done|].
  unfold check_live in Ha. pose proof (check_time_spec now a Hnow H) as Hs. run_method.
  destruct (check_time now a) as [[[]|e] c]; [|destruct Hs as (_ & -> & _); done].
  destruct Hs as (_ & _ & _ & Hc).
  pose proof (lapse_if_due_frame now (a <| last_checked := Some now |>)) as (E1 & _).
  rewrite <- Hc in E1. clear Hc. cbn in E1. unfold check_observation_live in Ha.
  destruct (observing (phase c)); cbn in Ha; [|done].
  unfold observation_dead, clock. destruct (observation_until c) as [u|] eqn:Ho.
  - destruct (now <? u) eqn:Hu; [done|]. injection Ha as <-. rewrite E1. cbn. split; [done|].
    intros u' Hu'. simplify_eq. lia.
  - injection Ha as <-. rewrite E1. cbn. split; [done|]. congruence.
Qed.

Lemma observation_dead_refuses T a now :
  0 <= now -> observation_dead T a ->
  is_ok (fst (authorize_observation_delivery now a)) = false /\
  forall i t, is_ok (fst (authorize_submission i t now a)) = false.
Proof.
  intros Hnow [Hc Hd].
  assert (Hu : forall u, observation_until a = Some u ->
            (forall c, last_checked a = Some c -> c <= now) -> now < u -> False).
  { intros u Hu Hcl Hlt. specialize (Hd u Hu). unfold clock in Hc.
    destruct (last_checked a) as [c|]; cbn in Hc; [specialize (Hcl c eq_refl)|]; lia. }
  split.
  - unfold authorize_observation_delivery, check_live. run_method.
    destruct (check_time now a) as [[[]|e] b] eqn:Ht; [|done].
    apply check_time_Ok in Ht as (_ & Hcl & ->). unfold check_observation_live.
    pose proof (lapse_if_due_frame now (a <| last_checked := Some now |>))
      as (_ & _ & _ & _ & -> & _). cbn.
    destruct (observing _); cbn; [|done]. destruct (observation_until a) as [u|]; [|done].
    destruct (now <? u) eqn:Hlt; [|done]. exfalso. eapply Hu; [done|done|lia].
  - intros i t. apply not_true_is_false. rewrite authorize_submission_is_Ok.
    intros [_ Hcl _ (u & Ho & Hlt) _ _ _]. by eapply Hu.
Qed.

(** Expired observation is final: once delivery was refused with
    [ObservationExpired], no later history without a new [authorize_observation]
    (which only a trusted local owner may call) delivers protected data or
    authorizes a submission; in particular no buffered challenge response does. *)
Theorem expired_observation_is_final a now b cs now' :
  reachable a -> 0 <= now -> 0 <= now' ->
  authorize_observation_delivery now a = (Err ObservationExpired, b) ->
  Forall call_ok cs -> never authorizes cs ->
  is_ok (fst (authorize_observation_delivery now' (run cs b))) = false /\
  forall i t, is_ok (fst (authorize_submission i t now' (run cs b))) = false.
Proof.
  intros Ha Hnow Hnow' He Hok Hn.
  apply delivery_expired in He as [Hb Hd]; [|done|by apply reachable_wf].
  apply (observation_dead_refuses now); [done|].
  apply (run_invariant (observation_dead now) (fun c => ~ authorizes c) (fun l => l <> LAuthorize));
    try done.
  - intros c l Hc Hl ->. by apply Hc.
  - intros l x y Hl Ht. by apply (observation_dead_trans _ l).
Qed.

(** A stale view kills every outstanding ticket: after [mark_view_stale], no
    later history that does not issue the ticket [t] anew authorizes a submission
    with it, even when the view becomes ready again under the same lease. *)
Theorem stale_view_kills_tickets a cs t i now :
  reachable a -> Forall call_ok cs -> never (issues t) cs ->
  is_ok (fst (authorize_submission i t now (run cs (mark_view_stale a)))) = false.
Proof.
  intros Ha Hok Hn. apply reachable_wf in Ha.
  assert (Hd : ticket_absent t (run cs (mark_view_stale a))).
  { apply (run_invariant (ticket_absent t) (fun c => ~ issues t c)
             (fun l => forall i, l <> LIssue i t)); try done.
    - intros c l Hc Hl j ->. apply Hc. by exists j.
    - intros l x y Hl Ht. by apply (ticket_absent_trans _ l).
    - split; [by apply mark_view_stale_wf|done].
    - unfold ticket_absent, mark_view_stale. rewrite lapse_view_eq. cbn.
      intros l Hl. apply fmap_Some in Hl as (l0 & _ & ->). by apply find_ticket_no_tickets. }
  apply not_true_is_false. rewrite authorize_submission_is_Ok.
  intros [_ _ _ _ _ _ (l & tk & Hl & _ & _ & Ht & _)]. rewrite (Hd l Hl) in Ht. done.
Qed.

(** Closure, refusal and clock regression are terminal: after any of them no
    later history of calls whatsoever delivers protected data, authorizes a
    submission or reports live control. *)
Theorem terminal_session_is_final a cs now :
  reachable a -> terminal (phase a) = true -> Forall call_ok cs ->
  is_ok (fst (authorize_observation_delivery now (run cs a))) = false /\
  fst (has_live_control now (run cs a)) = false /\
  forall i t, is_ok (fst (authorize_submission i t now (run cs a))) = false.
Proof.
  intros Ha Ht Hok. apply reachable_wf in Ha.
  destruct (run_invariant (fun x => terminal (phase x) = true) (fun _ => True) (fun _ => True))
    with (cs := cs) (a := a) as [Hw Hp]; try done.
  { intros l x y _ Hxy. by apply (terminal_trans l). }
  { by apply Forall_true. }
  clear Ht. set (b := run cs a) in *. clearbody b.
  assert (Hobs : observing (phase b) = false) by (by destruct (phase b)).
  assert (Hdel : is_ok (fst (authorize_observation_delivery now b)) = false).
  { unfold authorize_observation_delivery, check_live. run_method.
    destruct (check_time now b) as [[[]|e] c] eqn:Hc; [|done].
    apply check_time_Ok in Hc as (_ & _ & ->). unfold check_observation_live.
    pose proof (lapse_if_due_frame now (b <| last_checked := Some now |>)) as (_ & _ & -> & _).
    cbn. by rewrite Hobs. }
  split_and!; [done| |].
  - unfold has_live_control. destruct (check_time now b) as [[[]|e] c] eqn:Hc; [|done].
    apply check_time_Ok in Hc as (_ & _ & ->). unfold check_observation_live.
    pose proof (lapse_if_due_frame now (b <| last_checked := Some now |>)) as (_ & _ & -> & _).
    cbn. by rewrite Hobs.
  - intros i t. apply not_true_is_false. rewrite authorize_submission_is_Ok.
    intros [_ _ Hv _ _ _ _]. by rewrite Hv in Hp.
Qed.

(** A lease suspended by a stale view revives only after its native owner
    confirmed that every held key and button was released: until then (or until a
    new grant) no history of presentation reports, renewals and ticket requests
    makes a submission under it possible. *)
Theorem no_revival_before_release a i s cs t now :
  reachable a -> lease_id a = Some i -> suspension a = Some s -> released s = false ->
  Forall call_ok cs -> never (confirms i) cs -> never (grants i) cs ->
  is_ok (fst (authorize_submission i t now (run cs a))) = false.
Proof.
  intros Ha Hi Hs Hr Hok Hc Hg. apply reachable_wf in Ha.
  assert (Hp : release_pending i (run cs a)).
  { apply (run_invariant (release_pending i) (fun c => ~ confirms i c /\ ~ grants i c)
             (fun l => l <> LConfirm i /\ l <> LGrant i)); try done.
    - intros c l [Hc' Hg'] Hl. split; intros ->; [by apply Hc' | by apply Hg'].
    - intros l x y [Hl Hl'] Ht. by apply (release_pending_trans _ l).
    - apply Forall_and. done.
    - right. destruct (wf_suspension a Ha) as (_ & Hst & Hb); [congruence|].
      split_and!; [done|congruence|by eauto]. }
  apply not_true_is_false. rewrite authorize_submission_is_Ok.
  intros [_ _ _ _ Hrd _ (l & tk & Hl & Hli & _)].
  destruct Hp as [Hp|(_ & Hp & _)]; [|done]. apply Hp. unfold lease_id. rewrite Hl. cbn. by f_equal.
Qed.

(** *** Renewal *)

Lemma lease_lapse_if_due now a l :
  lease (lapse_if_due now a) = Some l ->
  exists l0, lease a = Some l0 /\ lease_ident l0 = lease_ident l /\
    authorized_until l0 = authorized_until l.
Proof.
  unfold lapse_if_due. destruct (view_until a) as [v|]; [|eauto].
  destruct (v <=? now); [|eauto]. rewrite lapse_view_eq. cbn.
  destruct (lease a) as [l0|]; [|done]. intros [= <-]. eexists. done.
Qed.

Lemma respond_control_Ok i n now a d b :
  0 <= now -> wf a -> respond_control_challenge i n now a = (Ok d, b) ->
  exists l, lease a = Some l /\ lease_ident l = i /\ now < authorized_until l /\
    control_challenge a = Some (mkChallenge n d) /\
    control_challenge b = None /\ clock b = now /\
    (exists l', lease b = Some l' /\ lease_ident l' = i /\ authorized_until l' = d) /\
    observation_until b = observation_until a.
Proof.
  intros Hnow H Hr. unfold respond_control_challenge, mbind at 1, M_bind at 1 in Hr.
  pose proof (check_live_spec now a Hnow H) as Hs.
  destruct (check_live now a) as [[[]|e] c]; [|done].
  destruct Hs as (_ & Hlive & Hle & Hc).
  pose proof (lapse_if_due_frame now (a <| last_checked := Some now |>))
    as (E1 & _ & _ & _ & E2 & _ & E3 & _). rewrite <- Hc in E1, E2, E3. cbn in E1, E2, E3.
  run_method. destruct (lease c) as [l|] eqn:Hl; cbn in Hr; [|done].
  destruct (lease_ident l =? i) eqn:Hi; cbn in Hr; [|done].
  destruct (authorized_until l <=? now) eqn:Hu; [done|].
  destruct (consume_challenge (control_challenge c) n now) as [r slot] eqn:Hcc.
  apply consume_challenge_cases in Hcc as [_ Hcc]. cbn in Hr.
  destruct r as [ch|e]; [|done]. destruct (Hcc ch eq_refl) as (Hch & -> & Hn & ?).
  injection Hr as Hd <-.
  assert (Hll := Hl). rewrite Hc in Hll. apply lease_lapse_if_due in Hll as (l0 & Hl0 & Hid & Hau).
  exists l0. split_and!; try done; try lia.
  - rewrite <- E3, Hch. destruct ch; cbn in *. congruence.
  - unfold clock. cbn. by rewrite E1.
  - eexists. split; [done|]. cbn. split; lia.
Qed.

(** Renewal uses the deadline fixed when the challenge was issued, never a
    fresh lifetime counted from the response: a successful
    [respond_control_challenge] needs a lease that is still live, sets its deadline
    to exactly the outstanding challenge's, never shortens it, never passes the
    horizon, leaves observation alone, and consumes the challenge, so a replay of
    the same response is refused. *)
Theorem renewal_uses_issue_deadline a i n now d b :
  reachable a -> 0 <= now -> respond_control_challenge i n now a = (Ok d, b) ->
  (exists l, lease a = Some l /\ lease_ident l = i /\
     now < authorized_until l <= d /\ d <= horizon a) /\
  control_challenge a = Some (mkChallenge n d) /\
  (exists l', lease b = Some l' /\ lease_ident l' = i /\ authorized_until l' = d) /\
  observation_until b = observation_until a /\
  forall now', now <= now' -> is_ok (fst (respond_control_challenge i n now' b)) = false.
Proof.
  intros Ha Hnow Hr. apply reachable_wf in Ha. assert (Hb : wf b).
  { pose proof (respond_control_challenge_wf i n now Hnow a Ha) as Hb. by rewrite Hr in Hb. }
  apply respond_control_Ok in Hr as (l & Hl & Hi & Hu & Hc & Hcb & Hclk & Hlb & Ho); [|done..].
  destruct (wf_control_challenge a Ha _ Hc) as (Hh & l' & Hl' & Hle). simplify_eq. cbn in *.
  split_and!; [exists l; split_and!; done| done..|]. intros now' Hn.
  destruct (respond_control_challenge _ n now' b) as [[d'|e] b'] eqn:Hr'; [|done].
  apply respond_control_Ok in Hr' as (? & _ & _ & _ & Hc' & _); [|lia|done]. congruence.
Qed.

(** *** Tickets *)

Lemma issue_ticket_Ok i t now pr a e b :
  0 <= now -> wf a -> issue_ticket_checked i t now pr a = (Ok e, b) ->
  exists l slot u, lease a = Some l /\ lease_ident l = i /\ readiness a = Ready /\
    (forall v, view_until a = Some v -> now < v) /\
    now < authorized_until l /\ observation_until a = Some u /\ now < u /\
    find_ticket l t = None /\ free_slot l now = Some slot /\
    e = Z.min (Z.min (now + ticket_lifetime (policy a)) (authorized_until l)) u /\ now < e /\
    b = a <| last_checked := Some now |>
          <| lease := Some (l <| tickets := <[slot := Some (mkTicket t e)]> (tickets l) |>) |>.
Proof.
  intros Hnow H Hi. unfold issue_ticket_checked, mbind at 1, M_bind at 1 in Hi.
  pose proof (check_live_spec now a Hnow H) as Hs.
  destruct (check_live now a) as [[[]|?] c]; [|done].
  destruct Hs as (_ & Hlive & Hle & Hc). run_method.
  destruct (readiness c) eqn:Hr; cbn in Hi; [done| |done].
  assert (Hv : forall v, view_until a = Some v -> now < v).
  { intros v Hv. destruct (Z.lt_ge_cases now v); [done|]. exfalso.
    eapply (lapse_due_stale now (a <| last_checked := Some now |>) v); [done|done|congruence]. }
  rewrite lapse_not_due in Hc by done. subst c. cbn in *.
  destruct (pr && negb (is_some (presented_sequence a))); cbn in Hi; [done|].
  destruct (lease a) as [l|] eqn:Hl; cbn in Hi; [|done].
  destruct (lease_ident l =? i) eqn:Hid; cbn in Hi; [|done].
  destruct (authorized_until l <=? now) eqn:Hu; cbn in Hi; [done|].
  destruct (t =? 0) eqn:Ht; cbn in Hi; [done|].
  destruct (find_ticket l t) eqn:Hfind; cbn in Hi; [done|].
  destruct (future_deadline now (ticket_lifetime (policy a))) as [d|] eqn:Hd; cbn in Hi; [|done].
  destruct (observation_until a) as [u|] eqn:Ho; cbn in Hi; [|done].
  destruct (free_slot l now) as [slot|] eqn:Hsl; cbn in Hi; [|done].
  apply future_deadline_Ok in Hd as (-> & ? & _).
  destruct Hlive as [_ _ _ (u' & Hu' & ?)]. cbn in Hu'. injection Hu' as <-.
  injection Hi as <- <-. exists l, slot, u. split_and!; try done; try lia.
Qed.

Lemma live_tickets_insert l slot tk now :
  free_slot l now = Some slot ->
  forall x, now < expires_at x ->
    x ∈ live_tickets (l <| tickets := <[slot := Some tk]> (tickets l) |>) <->
    x = tk \/ x ∈ live_tickets l.
Proof.
  intros Hs x Hx. apply free_slot_Some in Hs as (o & Ho & Hexp).
  unfold live_tickets. cbn [tickets upd setter]. rewrite (flatten_insert_perm _ _ o) by done.
  rewrite elem_of_cons, !elem_of_flatten.
  assert (slot < length (tickets l))%nat by (by eapply lookup_lt_Some).
  rewrite !list_elem_of_lookup. split.
  - intros [->|(k & Hk)]; [by left|right]. exists k.
    destruct (decide (k = slot)) as [->|Hne]; [by rewrite list_lookup_insert_eq in Hk|].
    by rewrite list_lookup_insert_ne in Hk.
  - intros [->|(k & Hk)]; [by left|right]. exists k.
    destruct (decide (k = slot)) as [->|Hne]; [|by rewrite list_lookup_insert_ne].
    rewrite Hk in Ho. injection Ho as <-. specialize (Hexp x eq_refl). lia.
Qed.

(** Issuing never evicts a live ticket: after a successful issue the unexpired
    tickets of the lease are exactly the unexpired ones before it plus the new
    ticket, whose expiry is the ticket lifetime capped by the lease and the
    observation; at most eight tickets are ever held. *)
Theorem issue_never_evicts a i t now pr e b :
  reachable a -> 0 <= now -> issue_ticket_checked i t now pr a = (Ok e, b) ->
  exists l l' u, lease a = Some l /\ lease b = Some l' /\ observation_until a = Some u /\
    e = Z.min (Z.min (now + ticket_lifetime (policy a)) (authorized_until l)) u /\
    (forall x, now < expires_at x ->
       x ∈ live_tickets l' <-> x = mkTicket t e \/ x ∈ live_tickets l) /\
    (length (live_tickets l') <= MAX_LIVE_INPUT_TICKETS)%nat.
Proof.
  intros Ha Hnow Hi. apply reachable_wf in Ha.
  pose proof (issue_ticket_checked_wf i t now pr Hnow a Ha) as Hb. rewrite Hi in Hb. cbn in Hb.
  apply issue_ticket_Ok in Hi as (l & slot & u & Hl & _ & _ & _ & _ & Ho & _ & _ & Hs & He & _ & ->);
    [|done..].
  exists l, (l <| tickets := <[slot := Some (mkTicket t e)]> (tickets l) |>), u.
  split_and!; try done.
  - by apply live_tickets_insert.
  - destruct (wf_lease _ Hb _ eq_refl) as [Hlen _ _ _ _]. rewrite <- Hlen.
    unfold live_tickets, flatten. generalize (tickets (l <| tickets := <[slot := Some (mkTicket t e)]> (tickets l) |>)).
    intros ts. induction ts as [|[x|] ts IH]; cbn; lia.
Qed.

(** Issue then submit: a freshly issued ticket authorizes a submission at
    every instant from its issue up to its expiry, unless the bounded view lapses
    first. *)
Theorem issued_ticket_authorizes a i t now pr e b now' :
  reachable a -> 0 <= now -> issue_ticket_checked i t now pr a = (Ok e, b) ->
  now <= now' -> (forall v, view_until a = Some v -> now' < v) ->
  is_ok (fst (authorize_submission i t now' b)) = true <-> now' < e.
Proof.
  intros Ha Hnow Hi Hn Hv. apply reachable_wf in Ha.
  pose proof (issue_ticket_checked_wf i t now pr Hnow a Ha) as Hb. rewrite Hi in Hb. cbn in Hb.
  apply issue_ticket_Ok in Hi as (l & slot & u & Hl & Hid & _ & _ & _ & Ho & _ & _ & Hs & He & _ & ->);
    [|done..].
  set (l' := l <| tickets := <[slot := Some (mkTicket t e)]> (tickets l) |>) in *.
  assert (Hf : find_ticket l' t = Some (mkTicket t e)).
  { pose proof (wf_lease _ Hb l' eq_refl) as Hwl.
    apply (find_ticket_unique l' (mkTicket t e)); [apply Hwl|].
    apply free_slot_Some in Hs as (o & Hso & _). unfold live_tickets, l'. cbn [tickets upd setter].
    rewrite (flatten_insert_perm _ _ o) by done. apply list_elem_of_here. }
  set (b := a <| last_checked := Some now |> <| lease := Some l' |>) in *.
  assert (Hlim : submission_limit t b = Some (match view_until a with
            | Some v => Z.min (Z.min (Z.min e (authorized_until l)) u) v
            | None => Z.min (Z.min e (authorized_until l)) u end)).
  { unfold submission_limit. change (lease b) with (Some l'). cbn [mbind option_bind].
    rewrite Hf. cbn [mbind option_bind]. change (observation_until b) with (observation_until a).
    by rewrite Ho. }
  rewrite authorize_submission_is_Ok, may_submit_limit by done. rewrite Hlim. split.
  - intros (_ & _ & d & [= <-] & Hlt). destruct (view_until a); lia.
  - intros Hlt. split_and!; [cbn; intros ? [= <-]; done|cbn; by f_equal|]. eexists.
    split; [done|]. destruct (view_until a) as [v|]; [specialize (Hv v eq_refl)|]; lia.
Qed.

(** *** Monitors *)

Lemma has_live_control_Ok now a :
  fst (has_live_control now a) = true <->
  clock_faulted a = false /\ (forall c, last_checked a = Some c -> c <= now) /\
  phase a = Viewing /\ readiness a = Ready /\ (forall v, view_until a = Some v -> now < v) /\
  (exists u, observation_until a = Some u /\ now < u) /\
  exists l, lease a = Some l /\ now < authorized_until l.
Proof.
  set (a' := a <| last_checked := Some now |>). unfold has_live_control. split.
  - destruct (check_time now a) as [[[]|e] c] eqn:Hc; [|done].
    apply check_time_Ok in Hc as (Hf & Hcl & ->). fold a'. cbn [is_ok fst andb].
    rewrite !andb_true_iff. intros [[[Ho Hp] Hr] Hl].
    assert (Hv : forall v, view_until a' = Some v -> now < v).
    { intros v Hv. destruct (Z.lt_ge_cases now v); [done|]. exfalso.
      apply (lapse_due_stale now a' v); [done|done|]. by destruct (readiness _). }
    rewrite (lapse_not_due now a' Hv) in *. apply bool_decide_eq_true in Hp. cbn in *.
    split_and!; try done.
    + by destruct (readiness a).
    + unfold check_observation_live in Ho. cbn in Ho. rewrite Hp in Ho. cbn in Ho.
      destruct (observation_until a) as [u|]; [|done]. exists u. split; [done|].
      destruct (now <? u) eqn:?; [lia|done].
    + destruct (lease a) as [l|]; [|done]. exists l. split; [done|]. cbn in Hl. lia.
  - intros (Hf & Hcl & Hp & Hr & Hv & (u & Ho & Hu) & l & Hl & Hlu).
    assert (Hc : check_time now a = (Ok tt, a')).
    { apply check_time_Ok. split_and!; try done. by rewrite lapse_not_due. }
    rewrite Hc. cbn [fst is_ok andb]. rewrite bool_decide_eq_true_2 by done.
    unfold check_observation_live, a'. cbn. rewrite Hp, Ho, Hr, Hl. cbn.
    replace (now <? u) with true by lia. cbn. lia.
Qed.

Lemma control_status_Live now a u b :
  control_status now a = (Ok (Live u), b) ->
  clock_faulted b = false /\ phase b = Viewing /\ readiness b = Ready /\
  last_checked b = last_checked a /\
  exists l o, lease b = Some l /\ observation_until b = Some o /\ serialized_time a now < u /\
    u = match view_until b with
        | Some v => Z.min (Z.min (authorized_until l) o) v
        | None => Z.min (authorized_until l) o
        end.
Proof.
  intros Hs. unfold control_status in Hs. run_method.
  destruct (clock_faulted a) eqn:Hf; [done|]. cbn in Hs.
  pose proof (lapse_if_due_view (serialized_time a now) a) as Hv.
  pose proof (lapse_if_due_frame (serialized_time a now) a) as (E1 & E2 & _).
  set (c := lapse_if_due (serialized_time a now) a) in *. clearbody c.
  destruct (check_observation_live c (serialized_time a now)); [|done].
  destruct (lease c) as [l|] eqn:Hl; cbn in Hs; [|done].
  destruct (observation_until c) as [o|] eqn:Ho; cbn in Hs; [|done].
  destruct (Z.min (authorized_until l) o <=? serialized_time a now) eqn:Hlt; cbn in Hs; [done|].
  case_bool_decide as Hp; cbn in Hs.
  - destruct (readiness c) eqn:Hr; cbn in Hs; [|simplify_eq|].
    2:{ split_and!; try congruence. exists l, o. split_and!; try done.
        destruct (view_until b) as [v|] eqn:Hvb; [specialize (Hv v eq_refl)|]; lia. }
    all: repeat (case_match; simplify_eq/=).
  - repeat (case_match; simplify_eq/=).
Qed.

(** The monitor's reading agrees with the submission side: when
    [control_status] reports [Live until] at a sample, [has_live_control] on the
    owner it leaves holds at every later sample before [until] and at none from
    [until] on. *)
Theorem live_status_exact a now u b :
  control_status now a = (Ok (Live u), b) ->
  serialized_time a now < u /\
  forall now', serialized_time a now <= now' ->
    fst (has_live_control now' b) = true <-> now' < u.
Proof.
  intros Hs.
  apply control_status_Live in Hs as (Hf & Hp & Hr & Hc & l & o & Hl & Ho & Hlt & ->).
  split; [done|]. intros now' Hn. rewrite has_live_control_Ok. split.
  - intros (_ & _ & _ & _ & Hv & (o' & Ho' & ?) & l' & Hl' & ?). simplify_eq.
    destruct (view_until b) as [v|]; [specialize (Hv v eq_refl)|]; lia.
  - intros Hu. split_and!; try done.
    + intros c Hc'. unfold serialized_time in Hn. rewrite Hc in Hc'. rewrite Hc' in Hn. lia.
    + intros v Hv. rewrite Hv in Hu. lia.
    + exists o. split; [done|]. destruct (view_until b); lia.
    + exists l. split; [done|]. destruct (view_until b); lia.
Qed.

(** ** Witnesses

    Concrete histories, as in the unit tests of the source: a controlling session
    under the plan's three-second authorization and one-second tickets. *)

Definition demo_calls : list Call :=
  [MarkCapabilitiesChecked; AuthorizeObservation 0; MarkViewReady 0;
   GrantLease 2 0; IssueInputTicket 2 3 0].

Definition demo : SessionAuthority := run demo_calls (new 1 plan_defaults).

(** The same session with evidence-backed readiness up to [400_000] us. *)
Definition bounded_calls : list Call :=
  [MarkCapabilitiesChecked; AuthorizeObservation 0; MarkViewReadyUntil 400000 0;
   GrantLease 2 0; IssueInputTicket 2 3 0].

Definition bounded : SessionAuthority := run bounded_calls (new 1 plan_defaults).

Ltac solve_calls := repeat (constructor; [intros ? ?; simplify_eq/=; lia|]); constructor.

Lemma run_reachable cs : Forall call_ok cs -> reachable (run cs (new 1 plan_defaults)).
Proof. intros H. exists 1, plan_defaults, cs. done. Qed.

Lemma demo_reachable : reachable demo.
Proof. apply run_reachable. solve_calls. Qed.

Lemma bounded_reachable : reachable bounded.
Proof. apply run_reachable. solve_calls. Qed.

Lemma authority_refines_spec_witness :
  wf (exec (ApplyResumeBoundary 10000000) demo) /\
  tsteps (may (ApplyResumeBoundary 10000000)) demo (exec (ApplyResumeBoundary 10000000) demo).
Proof.
  apply (authority_refines_spec demo); [apply demo_reachable|].
  intros ? ?. simplify_eq/=. lia.
Defined.

Lemma submission_authorized_iff_witness :
  is_ok (fst (authorize_submission 2 3 500000 demo)) = true <->
  (forall c, last_checked demo = Some c -> c <= 500000) /\ lease_id demo = Some 2 /\
  exists d, submission_limit 3 demo = Some d /\ 500000 < d.
Proof. apply (submission_authorized_iff demo 2 3 500000 demo_reachable). Defined.

Lemma submission_deadline_exact_witness :
  10 < 400000 /\ forall now', 10 <= now' ->
    is_ok (fst (authorize_submission 2 3 now' (snd (submission_deadline 2 3 10 bounded)))) = true
    <-> now' < 400000.
Proof.
  apply (submission_deadline_exact bounded 2 3 10 400000); [apply bounded_reachable|lia|].
  vm_compute. reflexivity.
Defined.

Lemma submission_within_horizon_witness : 500000 < clock demo + 3000000.
Proof.
  apply (submission_within_horizon demo 2 3 500000); [apply demo_reachable|].
  vm_compute. reflexivity.
Defined.

(** An observation renewal keeps the session alive while the lease runs out. *)
Definition lapsed_lease : SessionAuthority :=
  run [IssueObservationChallenge 1 2000000; RespondObservationChallenge 1 2100000] demo.

Lemma lapsed_lease_reachable : reachable lapsed_lease.
Proof. apply reachable_run; [apply demo_reachable|solve_calls]. Qed.

Lemma expired_lease_is_final_witness :
  is_ok (fst (authorize_submission 2 9 3500000
    (run [IssueInputTicket 2 9 3300000; RespondControlChallenge 2 5 3400000]
       (snd (authorize_submission 2 3 3200000 lapsed_lease))))) = false.
Proof.
  apply (expired_lease_is_final lapsed_lease 2 3 3200000).
  - apply lapsed_lease_reachable.
  - lia.
  - lia.
  - vm_compute. reflexivity.
  - solve_calls.
  - repeat (constructor; [intros [now Hn]; discriminate|]); constructor.
Defined.

Lemma expired_observation_is_final_witness :
  is_ok (fst (authorize_observation_delivery 3500000
    (run [RespondObservationChallenge 1 3200000]
       (snd (authorize_observation_delivery 3100000 demo))))) = false /\
  forall i t, is_ok (fst (authorize_submission i t 3500000
    (run [RespondObservationChallenge 1 3200000]
       (snd (authorize_observation_delivery 3100000 demo))))) = false.
Proof.
  apply (expired_observation_is_final demo 3100000).
  - apply demo_reachable.
  - lia.
  - lia.
  - vm_compute. reflexivity.
  - solve_calls.
  - repeat (constructor; [intros [now Hn]; discriminate|]); constructor.
Defined.

Lemma stale_view_kills_tickets_witness :
  is_ok (fst (authorize_submission 2 3 200000
    (run [MarkViewReady 150000; IssueInputTicket 2 4 160000] (mark_view_stale demo)))) = false.
Proof.
  apply stale_view_kills_tickets; [apply demo_reachable|solve_calls|].
  repeat (constructor; [intros (i & [(now & Hn)|(now & Hn)]); congruence|]); constructor.
Defined.

Lemma terminal_session_is_final_witness :
  let b := run [AuthorizeObservation 999999; AuthorizeObservation 2000000]
             (exec (AuthorizeSubmission 2 3 999999) (exec (AuthorizeSubmission 2 3 1000000) demo)) in
  is_ok (fst (authorize_observation_delivery 1000001 b)) = false /\
  fst (has_live_control 1000001 b) = false /\
  forall i t, is_ok (fst (authorize_submission i t 1000001 b)) = false.
Proof.
  apply terminal_session_is_final.
  - apply reachable_exec; [intros ? ?; simplify_eq/=; lia|].
    apply reachable_exec; [intros ? ?; simplify_eq/=; lia|]. apply demo_reachable.
  - vm_compute. reflexivity.
  - solve_calls.
Defined.

Lemma no_revival_before_release_witness :
  is_ok (fst (authorize_submission 2 4 450000
    (run [MarkViewReadyUntil 900000 420000; IssueInputTicket 2 4 430000]
       (mark_view_stale bounded)))) = false.
Proof.
  apply (no_revival_before_release (mark_view_stale bounded) 2 (mkSuspension 0 false)).
  - apply (reachable_exec MarkViewStale); [done|apply bounded_reachable].
  - vm_compute. reflexivity.
  - vm_compute. reflexivity.
  - reflexivity.
  - solve_calls.
  - repeat (constructor; [done|]); constructor.
  - repeat (constructor; [intros [now Hn]; discriminate|]); constructor.
Defined.

Definition challenged : SessionAuthority := run [IssueControlChallenge 5 100000] demo.

Lemma renewal_uses_issue_deadline_witness :
  (exists l, lease challenged = Some l /\ lease_ident l = 2 /\
     2900000 < authorized_until l <= 3100000 /\ 3100000 <= horizon challenged) /\
  control_challenge challenged = Some (mkChallenge 5 3100000) /\
  (exists l', lease (snd (respond_control_challenge 2 5 2900000 challenged)) = Some l' /\
     lease_ident l' = 2 /\ authorized_until l' = 3100000) /\
  observation_until (snd (respond_control_challenge 2 5 2900000 challenged)) =
    observation_until challenged /\
  forall now', 2900000 <= now' -> is_ok (fst (respond_control_challenge 2 5 now'
    (snd (respond_control_challenge 2 5 2900000 challenged)))) = false.
Proof.
  apply (renewal_uses_issue_deadline challenged 2 5 2900000 3100000).
  - apply (reachable_exec (IssueControlChallenge 5 100000)); [intros ? ?; simplify_eq/=; lia|].
    apply demo_reachable.
  - lia.
  - vm_compute. reflexivity.
Defined.

Lemma issue_never_evicts_witness :
  exists l l' u, lease demo = Some l /\
    lease (snd (issue_ticket_checked 2 4 2800000 false demo)) = Some l' /\
    observation_until demo = Some u /\
    3000000 = Z.min (Z.min (2800000 + ticket_lifetime (policy demo)) (authorized_until l)) u /\
    (forall x, 2800000 < expires_at x ->
       x ∈ live_tickets l' <-> x = mkTicket 4 3000000 \/ x ∈ live_tickets l) /\
    (length (live_tickets l') <= MAX_LIVE_INPUT_TICKETS)%nat.
Proof.
  apply (issue_never_evicts demo 2 4 2800000 false); [apply demo_reachable|lia|].
  vm_compute. reflexivity.
Defined.

Lemma issued_ticket_authorizes_witness :
  is_ok (fst (authorize_submission 2 4 350000
    (snd (issue_ticket_checked 2 4 300000 false bounded)))) = true <-> 350000 < 1300000.
Proof.
  apply (issued_ticket_authorizes bounded 2 4 300000 false).
  - apply bounded_reachable.
  - lia.
  - vm_compute. reflexivity.
  - lia.
  - vm_compute. intros v [= <-]. reflexivity.
Defined.

Lemma live_status_exact_witness :
  serialized_time bounded 100 < 400000 /\
  forall now', serialized_time bounded 100 <= now' ->
    fst (has_live_control now' (snd (control_status 100 bounded))) = true <-> now' < 400000.
Proof. apply (live_status_exact bounded 100 400000). vm_compute. reflexivity. Defined.
