(* ===== verification/InputSequence.v ===== *)
(** * The input-sequence ledger

    [fr-core/src/input_sequence.rs]: lease-scoped accounting of irreversible
    input submissions.  The ledger consumes a sequence number before an OS effect
    can occur and keeps a bounded ring of receipts; the theorems say that a
    sequence is admitted at most once whatever is forgotten, and that the ring
    holds exactly the most recent outcomes. *)

From S2P Require Import Prelude CoreTime.

Definition MAX_RETAINED_INPUT_RECEIPTS : nat := 32.

Inductive InputOutcome :=
| SubmittedToOs
| AppliedLocally
| RejectedBeforeSubmission
| ExpiredBeforeSubmission
| CancelledBeforeSubmission
| PartiallySubmittedToOs
| EffectUnknown.

Inductive InputAdmission :=
| Admitted_
| InFlight
| Completed (outcome : InputOutcome)
| ConsumedWithoutReceipt.

Inductive InputSequenceError :=
| InvalidCapacity (requested : nat)
| SeqStaleLease
| Fenced
| PreviousActionPending (sequence : Z)
| SequenceGap (expected received : Z)
| NotPending.

#[export] Instance InputOutcome_eq_dec : EqDecision InputOutcome.
Proof. solve_decision. Defined.
#[export] Instance InputAdmission_eq_dec : EqDecision InputAdmission.
Proof. solve_decision. Defined.
#[export] Instance InputSequenceError_eq_dec : EqDecision InputSequenceError.
Proof. solve_decision. Defined.

(** [matches!(outcome, SubmittedToOs | AppliedLocally)]. *)
Definition outcome_continues (o : InputOutcome) : bool :=
  match o with SubmittedToOs | AppliedLocally => true | _ => false end.

Module Ledger.

Record Receipt := mkReceipt { sequence : Z; outcome : InputOutcome }.

Record InputSequenceLedger := mkLedger {
  lease : InputLeaseId;
  next_sequence : option Z;
  pending : option Z;
  receipts : list (option Receipt);
  receipt_capacity : nat;
  receipt_cursor : nat;
  fenced : bool;
}.

#[export] Instance eta_ledger : Eta InputSequenceLedger := fun r =>
  mkLedger (lease r) (next_sequence r) (pending r) (receipts r) (receipt_capacity r)
    (receipt_cursor r) (fenced r).

Abbreviation LedgerM := (M InputSequenceLedger InputSequenceError).

Definition new (l : InputLeaseId) (capacity : nat)
  : Result InputSequenceError InputSequenceLedger :=
  if (1 <=? capacity)%nat && (capacity <=? MAX_RETAINED_INPUT_RECEIPTS)%nat then
    Ok {| lease := l; next_sequence := Some 0; pending := None;
          receipts := replicate MAX_RETAINED_INPUT_RECEIPTS None;
          receipt_capacity := capacity; receipt_cursor := 0; fenced := false |}
  else Err (InvalidCapacity capacity).

Definition check_lease (l : InputLeaseId) (g : InputSequenceLedger)
  : Result InputSequenceError unit :=
  if l =? lease g then Ok tt else Err SeqStaleLease.

(** [self.receipts[..self.receipt_capacity].iter().flatten().find(..)]. *)
Definition find_receipt (g : InputSequenceLedger) (s : Z) : option Receipt :=
  find_first (fun r => sequence r =? s) (flatten (take (receipt_capacity g) (receipts g))).

Definition admit_action (l : InputLeaseId) (s : Z) : LedgerM InputAdmission := fun g =>
  match check_lease l g with
  | Err e => (Err e, g)
  | Ok _ =>
      if bool_decide (pending g = Some s) then (Ok InFlight, g)
      else match find_receipt g s with
      | Some r => (Ok (Completed (outcome r)), g)
      | None =>
          if is_none_or (fun next => s <? next) (next_sequence g)
          then (Ok ConsumedWithoutReceipt, g)
          else if fenced g then (Err Fenced, g)
          else match pending g with
          | Some p => (Err (PreviousActionPending p), g)
          | None =>
              match next_sequence g with
              | None => (Err Fenced, g)
              | Some expected =>
                  if negb (s =? expected)
                  then (Err (SequenceGap expected s), g <| fenced := true |>)
                  else (Ok Admitted_, g <| next_sequence := checked_add u64_max s 1 |>
                                        <| pending := Some s |>)
              end
          end
      end
  end.

Definition record_outcome (l : InputLeaseId) (s : Z) (o : InputOutcome) : LedgerM unit :=
  _ ← readr (check_lease l);
  _ ← refuse_if (fun g => negb (bool_decide (pending g = Some s))) (fun _ => NotPending);
  modify (fun g =>
    let g := g <| pending := None |>
               <| receipts := <[receipt_cursor g := Some (mkReceipt s o)]> (receipts g) |>
               <| receipt_cursor := ((receipt_cursor g + 1) mod receipt_capacity g)%nat |> in
    if outcome_continues o then g else g <| fenced := true |>).

Definition fence (g : InputSequenceLedger) : InputSequenceLedger := g <| fenced := true |>.

(** ** Histories *)

Inductive Event :=
| Admit (l : InputLeaseId) (s : Z)
| Record_ (l : InputLeaseId) (s : Z) (o : InputOutcome)
| Fence.

Definition step (e : Event) (g : InputSequenceLedger) : InputSequenceLedger :=
  match e with
  | Admit l s => snd (admit_action l s g)
  | Record_ l s o => snd (record_outcome l s o g)
  | Fence => fence g
  end.

Definition run (es : list Event) (g : InputSequenceLedger) : InputSequenceLedger :=
  foldl (fun g e => step e g) g es.

(** The sequence an event consumes, and the outcome it records. *)
Definition admits (e : Event) (g : InputSequenceLedger) : option Z :=
  match e with
  | Admit l s => match fst (admit_action l s g) with Ok Admitted_ => Some s | _ => None end
  | _ => None
  end.
Definition records (e : Event) (g : InputSequenceLedger) : option Receipt :=
  match e with
  | Record_ l s o => if is_ok (fst (record_outcome l s o g)) then Some (mkReceipt s o) else None
  | _ => None
  end.

(** The sequences a history admits and the outcomes it records, oldest first. *)
Fixpoint admitted (es : list Event) (g : InputSequenceLedger) : list Z :=
  match es with
  | [] => []
  | e :: es => option_list (admits e g) ++ admitted es (step e g)
  end.
Fixpoint recorded (es : list Event) (g : InputSequenceLedger) : list Receipt :=
  match es with
  | [] => []
  | e :: es => option_list (records e g) ++ recorded es (step e g)
  end.

(** ** The abstract ledger

    Everything ever recorded, in order and for ever; the concrete ring is a
    window on it. *)

Record State := mkState {
  st_history : list Receipt;
  st_pending : bool;
  st_fenced : bool;
}.

(** The sequence the next action must carry when nothing is pending, and the
    one that is pending otherwise. *)
Definition frontier (st : State) : Z := Z.of_nat (length (st_history st)).

(** Number of sequences consumed so far. *)
Definition consumed (st : State) : Z := frontier st + (if st_pending st then 1 else 0).

Definition spec_admit (own : InputLeaseId) (cap : nat) (l : InputLeaseId) (s : Z) (st : State)
  : Result InputSequenceError InputAdmission * State :=
  if negb (l =? own) then (Err SeqStaleLease, st)
  else if s <? frontier st then
    (Ok (if frontier st - Z.of_nat cap <=? s
         then match st_history st !! Z.to_nat s with
              | Some r => Completed (outcome r)
              | None => ConsumedWithoutReceipt
              end
         else ConsumedWithoutReceipt), st)
  else if st_pending st && (s =? frontier st) then (Ok InFlight, st)
  else if st_fenced st then (Err Fenced, st)
  else if st_pending st then (Err (PreviousActionPending (frontier st)), st)
  else if s =? frontier st then (Ok Admitted_, mkState (st_history st) true false)
  else (Err (SequenceGap (frontier st) s), mkState (st_history st) false true).

Definition spec_record (own l : InputLeaseId) (s : Z) (o : InputOutcome) (st : State)
  : Result InputSequenceError unit * State :=
  if negb (l =? own) then (Err SeqStaleLease, st)
  else if st_pending st && (s =? frontier st) then
    (Ok tt, mkState (st_history st ++ [mkReceipt s o]) false
              (st_fenced st || negb (outcome_continues o)))
  else (Err NotPending, st).

(** What a caller sees of an event. *)
Inductive Reply :=
| RAdmit (r : Result InputSequenceError InputAdmission)
| RRecord (r : Result InputSequenceError unit)
| RFence.

Definition reply (e : Event) (g : InputSequenceLedger) : Reply :=
  match e with
  | Admit l s => RAdmit (fst (admit_action l s g))
  | Record_ l s o => RRecord (fst (record_outcome l s o g))
  | Fence => RFence
  end.

Fixpoint replies (es : list Event) (g : InputSequenceLedger) : list Reply :=
  match es with
  | [] => []
  | e :: es => reply e g :: replies es (step e g)
  end.

Definition spec_step (own : InputLeaseId) (cap : nat) (e : Event) (st : State) : Reply * State :=
  match e with
  | Admit l s => let (r, st) := spec_admit own cap l s st in (RAdmit r, st)
  | Record_ l s o => let (r, st) := spec_record own l s o st in (RRecord r, st)
  | Fence => (RFence, mkState (st_history st) (st_pending st) true)
  end.

Fixpoint spec_replies (own : InputLeaseId) (cap : nat) (es : list Event) (st : State)
  : list Reply :=
  match es with
  | [] => []
  | e :: es => fst (spec_step own cap e st) :: spec_replies own cap es (snd (spec_step own cap e st))
  end.

(** The wire field is a [u64]. *)
Definition event_ok (e : Event) : Prop :=
  match e with
  | Admit _ s | Record_ _ s _ => fits u64_max s
  | Fence => True
  end.

(** The concrete ledger represents the abstract one: the ring of [cap] slots
    holds the last [cap] receipts, the [j]-th one in slot [j mod cap]. *)
Record represents (g : InputSequenceLedger) (st : State) : Prop := {
  rp_capacity : (1 <= receipt_capacity g <= MAX_RETAINED_INPUT_RECEIPTS)%nat;
  rp_slots : length (receipts g) = MAX_RETAINED_INPUT_RECEIPTS;
  rp_cursor : receipt_cursor g = (length (st_history st) mod receipt_capacity g)%nat;
  rp_numbered : forall k r, st_history st !! k = Some r -> sequence r = Z.of_nat k;
  rp_pending : pending g = if st_pending st then Some (frontier st) else None;
  rp_next : next_sequence g = if consumed st <=? u64_max then Some (consumed st) else None;
  rp_consumed : consumed st <= u64_max + 1;
  rp_fenced : fenced g = st_fenced st;
  rp_recent : forall j r, st_history st !! j = Some r ->
    (length (st_history st) <= j + receipt_capacity g)%nat ->
    receipts g !! (j mod receipt_capacity g)%nat = Some (Some r);
  rp_empty : forall k, (length (st_history st) <= k < receipt_capacity g)%nat ->
    receipts g !! k = Some None;
}.

(** ** The ring is a window on the history *)

(** Every occupied slot below the capacity holds one of the last receipts. *)
Lemma represents_slot g st k r :
  represents g st -> (k < receipt_capacity g)%nat -> receipts g !! k = Some (Some r) ->
  exists j, st_history st !! j = Some r /\
    (length (st_history st) <= j + receipt_capacity g)%nat.
Proof.
  intros R Hk Hr. set (n := length (st_history st)). set (c := receipt_capacity g) in *.
  destruct (decide (n <= k)%nat) as [Hn|Hn].
  { rewrite (rp_empty _ _ R) in Hr by (unfold n, c in *; lia). congruence. }
  (* the latest index congruent to [k] below [n] *)
  set (q := ((n - 1 - k) / c)%nat). set (j := (k + c * q)%nat).
  assert (Hq : (c * q <= n - 1 - k < c * q + c)%nat).
  { pose proof (Nat.div_mod (n - 1 - k) c ltac:(lia)).
    pose proof (Nat.mod_upper_bound (n - 1 - k) c ltac:(lia)). unfold q. lia. }
  assert (Hj : (j < n)%nat) by (unfold j; lia).
  assert (Hm : (j mod c = k)%nat).
  { unfold j. rewrite Nat.mul_comm, Nat.Div0.mod_add. by apply Nat.mod_small. }
  destruct (lookup_lt_is_Some_2 _ _ Hj) as [r' Hr'].
  assert (Hw : (n <= j + c)%nat) by (unfold j; lia).
  pose proof (rp_recent _ _ R j r' Hr' Hw) as Hs. fold c in Hs. rewrite Hm in Hs.
  exists j. split; [congruence | done].
Qed.

Lemma flatten_lookup {A : Type} (l : list (option A)) x :
  x ∈ flatten l <-> exists k, l !! k = Some (Some x).
Proof. rewrite elem_of_flatten. apply list_elem_of_lookup. Qed.

(** The receipt search answers exactly for the last [cap] sequences. *)
Lemma represents_find g st s :
  represents g st ->
  find_receipt g s =
    if (0 <=? s) && (s <? frontier st) && (frontier st - Z.of_nat (receipt_capacity g) <=? s)
    then st_history st !! Z.to_nat s else None.
Proof.
  intros R. unfold find_receipt, frontier.
  assert (Hin : forall r, r ∈ flatten (take (receipt_capacity g) (receipts g)) ->
    exists j, st_history st !! j = Some r /\
      (length (st_history st) <= j + receipt_capacity g)%nat).
  { intros r [k Hk]%flatten_lookup. apply lookup_take_Some in Hk as [Hk Hlt].
    by eapply represents_slot. }
  destruct (find_first _ _) as [r|] eqn:Hf.
  - apply find_first_Some in Hf as [Hr Hs]. apply Z.eqb_eq in Hs.
    destruct (Hin r Hr) as (j & Hj & Hw).
    pose proof (rp_numbered _ _ R _ _ Hj). pose proof (lookup_lt_Some _ _ _ Hj).
    assert (s = Z.of_nat j) as -> by lia.
    rewrite Nat2Z.id, Hj. repeat (rewrite (proj2 (Z.leb_le _ _)) by lia).
    by rewrite (proj2 (Z.ltb_lt _ _)) by lia.
  - destruct (_ && _) eqn:Hc; [|done].
    destruct (st_history st !! Z.to_nat s) as [r|] eqn:Hr; [|done]. exfalso.
    pose proof (proj1 (find_first_None _ _) Hf r) as Hno. simpl in Hno.
    rewrite (rp_numbered _ _ R _ _ Hr), Z2Nat.id, Z.eqb_refl in Hno by lia.
    assert (true = false); [|done]. apply Hno, flatten_lookup.
    exists (Z.to_nat s mod receipt_capacity g)%nat.
    apply lookup_take_Some. split; [apply (rp_recent _ _ R); [done|lia]|].
    apply Nat.mod_upper_bound. pose proof (rp_capacity _ _ R). lia.
Qed.

(** Two indices less than a window apart fall into different slots. *)
Lemma mod_window_ne (n j c : nat) :
  (j < n)%nat -> (n < j + c)%nat -> (n mod c)%nat <> (j mod c)%nat.
Proof.
  intros Hj Hn He.
  pose proof (Nat.div_mod n c ltac:(lia)). pose proof (Nat.div_mod j c ltac:(lia)).
  assert (n - j = c * (n / c - j / c))%nat as Hd by nia.
  destruct (n / c - j / c)%nat; nia.
Qed.

(** ** Each operation implements its specification *)

Lemma represents_new l c g :
  new l c = Ok g ->
  represents g (mkState [] false false) /\ lease g = l /\ receipt_capacity g = c.
Proof.
  unfold new. destruct (_ && _) eqn:Hc; [|done]. intros [= <-].
  split; [|done]. apply andb_true_iff in Hc as [?%Nat.leb_le ?%Nat.leb_le].
  split; cbn [receipt_capacity receipts receipt_cursor pending next_sequence fenced
    st_history st_pending st_fenced length].
  - lia.
  - done.
  - by rewrite Nat.Div0.mod_0_l.
  - done.
  - done.
  - done.
  - by vm_compute.
  - done.
  - done.
  - intros k Hk. apply (lookup_replicate_2 MAX_RETAINED_INPUT_RECEIPTS None). lia.
Qed.

(** Changing the fence, or moving the frontier into [pending], keeps the ring. *)
Lemma represents_fence g st :
  represents g st -> represents (g <| fenced := true |>) (mkState (st_history st) (st_pending st) true).
Proof. intros []. split; done. Qed.

Lemma represents_take g st :
  represents g st -> st_pending st = false -> frontier st <= u64_max ->
  represents (g <| next_sequence := checked_add u64_max (frontier st) 1 |>
                <| pending := Some (frontier st) |>)
             (mkState (st_history st) true (st_fenced st)).
Proof.
  intros [] Hp Hm. split; try done; unfold consumed, frontier in *;
    cbn [st_history st_pending st_fenced next_sequence pending upd setter] in *; try done.
  lia.
Qed.

Lemma admit_refines g st l s :
  represents g st -> fits u64_max s ->
  fst (admit_action l s g) = fst (spec_admit (lease g) (receipt_capacity g) l s st) /\
  represents (snd (admit_action l s g)) (snd (spec_admit (lease g) (receipt_capacity g) l s st)).
Proof.
  intros R Hs. unfold admit_action, spec_admit, check_lease.
  destruct (l =? lease g); cbn [negb]; [|by split].
  rewrite (represents_find _ _ _ R), (rp_pending _ _ R), (rp_next _ _ R), (rp_fenced _ _ R).
  pose proof (rp_consumed _ _ R) as Hmax. unfold consumed in *.
  assert (0 <= frontier st) by (unfold frontier; lia). unfold fits in Hs.
  rewrite (proj2 (Z.leb_le 0 s)) by lia. cbn [andb].
  destruct (s <? frontier st) eqn:Hlt.
  - (* already recorded *)
    rewrite bool_decide_false
      by (destruct (st_pending st); [intros [= ?]; lia | done]).
    cbn [andb]. destruct (_ <=? s).
    + assert (Z.to_nat s < length (st_history st))%nat as Hin by (unfold frontier in *; lia).
      apply lookup_lt_is_Some in Hin as [r ->]. by split.
    + destruct (_ <=? u64_max); cbn [is_none_or]; [|by split].
      rewrite (proj2 (Z.ltb_lt _ _)) by (destruct (st_pending st); lia). by split.
  - destruct (st_pending st) eqn:Hp; cbn [andb].
    + destruct (Z.eqb_spec s (frontier st)) as [->|Hne].
      { by rewrite bool_decide_true. }
      rewrite bool_decide_false by congruence.
      rewrite (proj2 (Z.leb_le _ _)) by lia. cbn [is_none_or].
      rewrite (proj2 (Z.ltb_ge _ _)) by lia. by destruct (st_fenced st).
    + rewrite bool_decide_false by done.
      rewrite Z.add_0_r, (proj2 (Z.leb_le _ _)) by lia. cbn [is_none_or].
      rewrite Hlt. destruct (st_fenced st) eqn:Hf; [by split|].
      destruct (Z.eqb_spec s (frontier st)) as [->|Hne]; cbn [negb]; split; try done.
      * rewrite <- Hf. apply represents_take; [done..|lia].
      * rewrite <- Hp. by apply represents_fence.
Qed.

(** Writing the cursor's slot slides the window by one receipt. *)
Lemma represents_push g st o f :
  represents g st -> st_pending st = true ->
  represents (g <| pending := None |>
                <| receipts := <[receipt_cursor g := Some (mkReceipt (frontier st) o)]> (receipts g) |>
                <| receipt_cursor := ((receipt_cursor g + 1) mod receipt_capacity g)%nat |>
                <| fenced := f |>)
             (mkState (st_history st ++ [mkReceipt (frontier st) o]) false f).
Proof.
  intros R Hp. pose proof (rp_capacity _ _ R) as Hc. unfold consumed, frontier in *.
  assert (Hlen : length (st_history st ++ [mkReceipt (Z.of_nat (length (st_history st))) o])
    = S (length (st_history st))) by (rewrite length_app; simpl; lia).
  split; cbn [receipt_capacity receipts receipt_cursor pending next_sequence fenced
    st_history st_pending st_fenced upd setter];
    unfold consumed, frontier; cbn [st_history st_pending]; rewrite ?Hlen; try done.
  - rewrite length_insert. apply R.
  - rewrite (rp_cursor _ _ R), Nat.Div0.add_mod_idemp_l. f_equal; lia.
  - intros k r [Hk|[? Hk]]%lookup_app_Some; [by apply (rp_numbered _ _ R)|].
    apply list_lookup_singleton_Some in Hk as [? <-]. cbn. lia.
  - rewrite (rp_next _ _ R). unfold consumed, frontier. rewrite Hp.
    replace (Z.of_nat (S _) + 0) with (Z.of_nat (length (st_history st)) + 1) by lia. done.
  - pose proof (rp_consumed _ _ R) as H. unfold consumed, frontier in H. rewrite Hp in H. lia.
  - intros j r Hj Hw. rewrite (rp_cursor _ _ R).
    apply lookup_app_Some in Hj as [Hj|[Hge Hj]].
    + pose proof (lookup_lt_Some _ _ _ Hj).
      rewrite list_lookup_insert_ne by (apply mod_window_ne; lia).
      apply (rp_recent _ _ R); [done|lia].
    + apply list_lookup_singleton_Some in Hj as [Hj <-].
      replace j with (length (st_history st)) by lia.
      apply list_lookup_insert_eq. rewrite (rp_slots _ _ R).
      pose proof (Nat.mod_upper_bound (length (st_history st)) (receipt_capacity g)). lia.
  - intros k Hk. rewrite (rp_cursor _ _ R), Nat.mod_small by lia.
    rewrite list_lookup_insert_ne by lia. apply (rp_empty _ _ R). lia.
Qed.

Lemma record_refines g st l s o :
  represents g st ->
  fst (record_outcome l s o g) = fst (spec_record (lease g) l s o st) /\
  represents (snd (record_outcome l s o g)) (snd (spec_record (lease g) l s o st)).
Proof.
  intros R. unfold record_outcome, spec_record, check_lease. run_method.
  destruct (l =? lease g); cbn [negb]; [|by split].
  rewrite (rp_pending _ _ R). destruct (st_pending st) eqn:Hp; cbn [andb].
  - destruct (Z.eqb_spec s (frontier st)) as [->|Hne].
    + rewrite bool_decide_true by done. cbn [negb]. split; [done|].
      rewrite <- (rp_fenced _ _ R).
      pose proof (represents_push g st o (fenced g || negb (outcome_continues o)) R Hp) as Hr.
      destruct (outcome_continues o); cbn [negb] in *; [rewrite orb_false_r in *|rewrite orb_true_r in *];
        exact Hr.
    + rewrite bool_decide_false by congruence. by split.
  - by rewrite bool_decide_false by done.
Qed.

(** ** Histories of events *)

Lemma step_lease e g : lease (step e g) = lease g.
Proof.
  destruct e; cbn [step]; [unfold admit_action|unfold record_outcome; run_method|done];
    repeat (case_match; simplify_eq/=; try done).
Qed.

Lemma step_capacity e g : receipt_capacity (step e g) = receipt_capacity g.
Proof.
  destruct e; cbn [step]; [unfold admit_action|unfold record_outcome; run_method|done];
    repeat (case_match; simplify_eq/=; try done).
Qed.

Lemma step_refines g st e :
  represents g st -> event_ok e ->
  reply e g = fst (spec_step (lease g) (receipt_capacity g) e st) /\
  represents (step e g) (snd (spec_step (lease g) (receipt_capacity g) e st)).
Proof.
  intros R He. destruct e as [l s|l s o|]; cbn [reply step spec_step].
  - destruct (admit_refines g st l s R He) as [Hr Hs].
    destruct (spec_admit _ _ _ _ _); cbn in *. by rewrite Hr.
  - destruct (record_refines g st l s o R) as [Hr Hs].
    destruct (spec_record _ _ _ _ _); cbn in *. by rewrite Hr.
  - split; [done|]. by apply represents_fence.
Qed.

Lemma replies_refine es : forall g st,
  represents g st -> Forall event_ok es ->
  replies es g = spec_replies (lease g) (receipt_capacity g) es st.
Proof.
  induction es as [|e es IH]; intros g st R Hes; [done|].
  apply Forall_cons in Hes as [He Hes]. cbn [replies spec_replies].
  destruct (step_refines g st e R He) as [Hr Hs]. rewrite Hr. f_equal.
  rewrite <- (step_lease e g), <- (step_capacity e g) at 1. rewrite step_lease, step_capacity.
  rewrite (IH _ _ Hs Hes), step_lease, step_capacity. done.
Qed.

(** The ledger admits exactly its next unconsumed sequence, and only an
    admission consumes one. *)
Lemma admits_consumed g st e :
  represents g st -> event_ok e ->
  match admits e g with
  | Some s => s = consumed st /\
      consumed (snd (spec_step (lease g) (receipt_capacity g) e st)) = consumed st + 1
  | None => consumed (snd (spec_step (lease g) (receipt_capacity g) e st)) = consumed st
  end.
Proof.
  intros R He. destruct e as [l s|l s o|]; cbn [admits spec_step]; [| |done].
  - destruct (admit_refines g st l s R He) as [-> _].
    destruct st as [h p f]. unfold spec_admit, consumed; cbn [st_history st_pending st_fenced].
    destruct (negb _); [done|]. destruct (s <? _).
    { cbn [fst snd]. destruct (_ <=? s); [destruct (h !! _)|]; done. }
    destruct p, f, (s =? _) eqn:He'; cbn; try done. unfold frontier in *; cbn in *. lia.
  - destruct st as [h p f]. unfold spec_record, consumed; cbn [st_history st_pending st_fenced].
    destruct (negb _); [done|]. destruct p; cbn [andb]; [|done].
    destruct (s =? _); cbn; [|done]. unfold frontier; cbn. rewrite length_app; cbn. lia.
Qed.

Lemma admitted_consecutive es : forall g st,
  represents g st -> Forall event_ok es ->
  exists n, admitted es g = (fun k => consumed st + Z.of_nat k) <$> seq 0 n /\
    consumed st + Z.of_nat n <= u64_max + 1.
Proof.
  induction es as [|e es IH]; intros g st R Hes.
  { exists 0%nat. split; [done|]. pose proof (rp_consumed _ _ R). lia. }
  apply Forall_cons in Hes as [He Hes].
  destruct (step_refines g st e R He) as [_ Hs].
  destruct (IH _ _ Hs Hes) as (n & Hn & Hmax). cbn [admitted]. rewrite Hn.
  pose proof (admits_consumed g st e R He) as Ha. destruct (admits e g) as [s|].
  - destruct Ha as [-> Hc]. rewrite Hc in *. exists (S n). split; [|lia].
    cbn [option_list app seq fmap list_fmap]. rewrite Z.add_0_r. f_equal.
    rewrite <- (fmap_S_seq 0 n), <- list_fmap_compose. apply list_fmap_ext. intros; cbn. lia.
  - rewrite Ha in *. by exists n.
Qed.

(** An admission opens the single pending slot, an outcome closes it. *)
Lemma step_accounts e g :
  option_list (pending g) ++ option_list (admits e g) =
  (sequence <$> option_list (records e g)) ++ option_list (pending (step e g)).
Proof.
  destruct e as [l s|l s o|]; cbn [admits records step]; [| |by rewrite app_nil_r].
  - unfold admit_action. destruct (check_lease l g); cbn; [|by rewrite app_nil_r].
    repeat (case_match; simplify_eq/=; rewrite ?app_nil_r; auto).
    match goal with H : pending g = _ |- _ => by rewrite H end.
  - unfold record_outcome. run_method. destruct (check_lease l g); cbn; [|by rewrite app_nil_r].
    case_bool_decide as Hp; cbn; [|by rewrite app_nil_r].
    rewrite Hp. by destruct (outcome_continues o).
Qed.

Lemma run_accounts es : forall g,
  option_list (pending g) ++ admitted es g =
  (sequence <$> recorded es g) ++ option_list (pending (run es g)).
Proof.
  induction es as [|e es IH]; intros g; cbn [admitted recorded run foldl].
  - by rewrite app_nil_r.
  - rewrite fmap_app, <- app_assoc, app_assoc, (step_accounts e g), <- app_assoc, IH. done.
Qed.

(** The fence never opens again, and admits nothing while it is closed. *)
Lemma fenced_step e g :
  fenced g = true -> fenced (step e g) = true /\ admits e g = None.
Proof.
  intros Hf. destruct e as [l s|l s o|]; cbn [admits step]; [| |by split].
  - unfold admit_action. rewrite Hf. repeat (case_match; simplify_eq/=; try by split).
  - unfold record_outcome. run_method. repeat (case_match; simplify_eq/=; try by split).
Qed.

Lemma fenced_run es : forall g,
  fenced g = true -> fenced (run es g) = true /\ admitted es g = [].
Proof.
  induction es as [|e es IH]; intros g Hf; cbn [run foldl admitted]; [done|].
  destruct (fenced_step e g Hf) as [Hs ->]. by apply IH.
Qed.

(** What stops a lease: an explicit fence, an outcome that is not a success, or
    a gap on the ordered stream. *)
Definition stops (e : Event) (g : InputSequenceLedger) : bool :=
  match e with
  | Fence => true
  | Record_ l s o => is_ok (fst (record_outcome l s o g)) && negb (outcome_continues o)
  | Admit l s => match fst (admit_action l s g) with Err (SequenceGap _ _) => true | _ => false end
  end.

Lemma stops_fences e g : stops e g = true -> fenced (step e g) = true.
Proof.
  destruct e as [l s|l s o|]; cbn [stops step]; [| |done].
  - unfold admit_action, check_lease. repeat (case_match; simplify_eq/=; try done).
  - unfold record_outcome, check_lease. run_method.
    repeat (case_match; simplify_eq/=; try done).
Qed.

(** ** Properties *)

Definition fresh_state : State := mkState [] false false.

(** C18. Whatever sequence of admissions, outcomes and fences a lease sees, the
    ledger with its ring of [c] slots answers exactly as the ledger that keeps
    every receipt for ever and declares those older than the last [c] evicted:
    the cursor arithmetic never loses a retained receipt, never returns another
    action's, and never forgets that a sequence was consumed. *)
Theorem ledger_refines_history l c g es :
  new l c = Ok g -> Forall event_ok es ->
  replies es g = spec_replies l c es fresh_state.
Proof.
  intros (R & <- & <-)%represents_new Hes. by apply replies_refine.
Qed.

(** Over any history of a lease the admitted sequences are exactly
    0, 1, 2, ... in order, without a repetition or a gap, and the counter never
    wraps past [u64::MAX]: no action is executed twice, even after its receipt
    was evicted. *)
Theorem ledger_admits_each_once l c g es :
  new l c = Ok g -> Forall event_ok es ->
  exists n, admitted es g = Z.of_nat <$> seq 0 n /\ Z.of_nat n <= u64_max + 1.
Proof.
  intros (R & _)%represents_new Hes.
  by destruct (admitted_consecutive es g _ R Hes) as (n & Hn & Hm); exists n.
Qed.

(** Outcomes account for admissions one to one and in order: the recorded
    sequences, followed by the single pending one when there is one, are the
    admitted sequences. *)
Theorem outcomes_account_for_admissions l c g es :
  new l c = Ok g ->
  admitted es g = (sequence <$> recorded es g) ++ option_list (pending (run es g)).
Proof.
  intros (R & _)%represents_new. pose proof (rp_pending _ _ R) as Hp. cbn in Hp.
  pose proof (run_accounts es g) as H. by rewrite Hp in H.
Qed.

(** A fence, an outcome other than a success, or a gap on the ordered
    stream is final for the lease: no later history admits anything. *)
Theorem stopped_ledger_admits_nothing es e es' g :
  stops e (run es g) = true -> admitted es' (run (es ++ [e]) g) = [].
Proof.
  intros Hs%stops_fences. unfold run. rewrite foldl_app. by apply fenced_run.
Qed.

(** ** Witnesses *)

Definition demo_events : list Event :=
  [Admit 7 0; Record_ 7 0 SubmittedToOs; Admit 7 1; Record_ 7 1 AppliedLocally;
   Admit 7 2; Record_ 7 2 SubmittedToOs; Admit 7 0; Admit 7 2; Admit 7 3; Admit 7 3].

Definition demo_ledger : InputSequenceLedger :=
  match new 7 2 with Ok g => g | Err _ => mkLedger 0 None None [] 0 0 true end.

Lemma demo_ledger_new : new 7 2 = Ok demo_ledger.
Proof. reflexivity. Qed.

Lemma demo_events_ok : Forall event_ok demo_events.
Proof. repeat constructor; vm_compute; discriminate. Qed.

Lemma ledger_refines_history_witness :
  replies demo_events demo_ledger = spec_replies 7 2 demo_events fresh_state /\
  drop 6 (replies demo_events demo_ledger) =
    [RAdmit (Ok ConsumedWithoutReceipt); RAdmit (Ok (Completed SubmittedToOs));
     RAdmit (Ok Admitted_); RAdmit (Ok InFlight)].
Proof.
  split; [|reflexivity].
  apply (ledger_refines_history 7 2 demo_ledger demo_events demo_ledger_new demo_events_ok).
Defined.

Lemma ledger_admits_each_once_witness :
  exists n, admitted demo_events demo_ledger = Z.of_nat <$> seq 0 n /\
    Z.of_nat n <= u64_max + 1.
Proof.
  apply (ledger_admits_each_once 7 2 demo_ledger demo_events demo_ledger_new demo_events_ok).
Defined.

Lemma outcomes_account_for_admissions_witness :
  admitted demo_events demo_ledger =
    (sequence <$> recorded demo_events demo_ledger)
      ++ option_list (pending (run demo_events demo_ledger)) /\
  admitted demo_events demo_ledger = [0; 1; 2; 3].
Proof.
  split; [|reflexivity].
  apply (outcomes_account_for_admissions 7 2 demo_ledger demo_events demo_ledger_new).
Defined.

Lemma stopped_ledger_admits_nothing_witness :
  admitted [Admit 7 3; Admit 7 4; Admit 7 5]
    (run (demo_events ++ [Record_ 7 3 EffectUnknown]) demo_ledger) = [].
Proof. apply stopped_ledger_admits_nothing. reflexivity. Defined.

End Ledger.
