(* ===== verification/Limits.v ===== *)
(** * Protocol and resource limits

    [fr-core/src/limits.rs]: the single structure of ceilings.  Overrides only
    move a limit downward from [ABSOLUTE] and never below its floor; the limits of
    a session are the field-wise minimum of the two endpoints'; sizes are computed
    with checked arithmetic before anything is allocated. *)

From S2P Require Import Prelude.

Inductive LimitField :=
| ControlMessageBytes
| ClipboardItemBytes
| EncodedAccessUnitBytes
| DimensionPixels
| CodedPixels
| ReassemblyWindowPictures
| PerViewerCompressedBytes
| ConcurrentHandshakes
| HandshakeDurationMs
| PreadmissionRatePerSec
| HalfAttachedChannels
| PendingApprovals
| IdleSessionTimeoutSecs
| ControlRequestsPerSec
| CodecProbesPerMin
| RecoveryRequestsPerSec
| CursorUploadsPerSec
| DiagnosticExportsPerMin
| DecoderReconfigurationsPerMin
| WorkerRestartsPerMin
| CursorDimensionPixels
| CursorShapeBytes
| NameBytes
| ParameterSetBytes
| FragmentsPerAccessUnit
| RetainedReceipts
| EncoderSessions
| GpuSurfaces
| BandwidthBps
| Viewers.

Inductive LimitsError :=
| AboveCeiling (field : LimitField) (value ceiling : Z)
| BelowFloor (field : LimitField) (value floor : Z)
| ZeroDimension
| ArithmeticOverflow
| InvalidRowAlignment (value : Z)
| InvalidBytesPerPixel (value : Z).

#[export] Instance LimitField_eq_dec : EqDecision LimitField.
Proof. solve_decision. Defined.
#[export] Instance LimitsError_eq_dec : EqDecision LimitsError.
Proof. solve_decision. Defined.

Module Overrides.

Record LimitOverrides := mkOverrides {
  max_control_message_bytes : option Z;
  max_clipboard_item_bytes : option Z;
  max_encoded_access_unit_bytes : option Z;
  max_dimension_pixels : option Z;
  max_coded_pixels : option Z;
  reassembly_window_pictures : option Z;
  per_viewer_compressed_bytes : option Z;
  max_concurrent_handshakes : option Z;
  max_handshake_duration_ms : option Z;
  max_preadmission_rate_per_sec : option Z;
  max_half_attached_channels : option Z;
  max_pending_approvals : option Z;
  idle_session_timeout_seconds : option Z;
  max_control_requests_per_sec : option Z;
  max_codec_probes_per_min : option Z;
  max_recovery_requests_per_sec : option Z;
  max_cursor_uploads_per_sec : option Z;
  max_diagnostic_exports_per_min : option Z;
  max_decoder_reconfigurations_per_min : option Z;
  max_worker_restarts_per_min : option Z;
  max_cursor_dimension_pixels : option Z;
  max_cursor_shape_bytes : option Z;
  max_name_bytes : option Z;
  max_parameter_set_bytes : option Z;
  max_fragments_per_access_unit : option Z;
  max_retained_receipts : option Z;
  max_encoder_sessions : option Z;
  max_gpu_surfaces : option Z;
  max_bandwidth_bps : option Z;
  max_viewers : option Z;
}.

(** [LimitOverrides::default()]. *)
Definition default : LimitOverrides :=
  mkOverrides None None None None None None None None None None None None None None None
    None None None None None None None None None None None None None None None.

End Overrides.

Module Limits.

Record ProtocolLimits := mkLimits {
  max_control_message_bytes : Z;
  max_clipboard_item_bytes : Z;
  max_encoded_access_unit_bytes : Z;
  max_dimension_pixels : Z;
  max_coded_pixels : Z;
  reassembly_window_pictures : Z;
  per_viewer_compressed_bytes : Z;
  max_concurrent_handshakes : Z;
  max_handshake_duration_ms : Z;
  max_preadmission_rate_per_sec : Z;
  max_half_attached_channels : Z;
  max_pending_approvals : Z;
  idle_session_timeout_seconds : Z;
  max_control_requests_per_sec : Z;
  max_codec_probes_per_min : Z;
  max_recovery_requests_per_sec : Z;
  max_cursor_uploads_per_sec : Z;
  max_diagnostic_exports_per_min : Z;
  max_decoder_reconfigurations_per_min : Z;
  max_worker_restarts_per_min : Z;
  max_cursor_dimension_pixels : Z;
  max_cursor_shape_bytes : Z;
  max_name_bytes : Z;
  max_parameter_set_bytes : Z;
  max_fragments_per_access_unit : Z;
  max_retained_receipts : Z;
  max_encoder_sessions : Z;
  max_gpu_surfaces : Z;
  max_bandwidth_bps : Z;
  max_viewers : Z;
}.

Definition REASSEMBLY_WINDOW_FLOOR : Z := 2.
Definition REASSEMBLY_WINDOW_CEILING : Z := 12.

Definition ABSOLUTE : ProtocolLimits := {|
  max_control_message_bytes := 64 * 1024;
  max_clipboard_item_bytes := 1024 * 1024;
  max_encoded_access_unit_bytes := 16 * 1024 * 1024;
  max_dimension_pixels := 8192;
  max_coded_pixels := 16777216;
  reassembly_window_pictures := REASSEMBLY_WINDOW_CEILING;
  per_viewer_compressed_bytes := 32 * 1024 * 1024;
  max_concurrent_handshakes := 64;
  max_handshake_duration_ms := 10000;
  max_preadmission_rate_per_sec := 100;
  max_half_attached_channels := 16;
  max_pending_approvals := 8;
  idle_session_timeout_seconds := 300;
  max_control_requests_per_sec := 200;
  max_codec_probes_per_min := 30;
  max_recovery_requests_per_sec := 120;
  max_cursor_uploads_per_sec := 60;
  max_diagnostic_exports_per_min := 10;
  max_decoder_reconfigurations_per_min := 30;
  max_worker_restarts_per_min := 10;
  max_cursor_dimension_pixels := 256;
  max_cursor_shape_bytes := 262144;
  max_name_bytes := 256;
  max_parameter_set_bytes := 64 * 1024;
  max_fragments_per_access_unit := 4096;
  max_retained_receipts := 1024;
  max_encoder_sessions := 4;
  max_gpu_surfaces := 32;
  max_bandwidth_bps := 1000000000;
  max_viewers := 3;
|}.

(** [take_bounded::<T, V>]: [tmax] is the largest value of [T].  The value is
    widened to [u64] first; an override outside [floor ..= ceiling] is refused,
    never clamped. *)
Definition take_bounded (tmax : Z) (field : LimitField) (ceiling floor : Z) (value : option Z)
  : Result LimitsError Z :=
  match value with
  | None => Ok ceiling
  | Some v =>
      if negb (v <=? u64_max) then Err ArithmeticOverflow
      else if ceiling <? v then Err (AboveCeiling field v ceiling)
      else if v <? floor then Err (BelowFloor field v floor)
      else if v <=? tmax then Ok v else Err ArithmeticOverflow
  end.

Record SessionOverrides := {
  s_max_control_message_bytes : Z;
  s_max_clipboard_item_bytes : Z;
  s_max_encoded_access_unit_bytes : Z;
  s_max_dimension_pixels : Z;
  s_max_coded_pixels : Z;
  s_reassembly_window_pictures : Z;
  s_per_viewer_compressed_bytes : Z;
}.

Record RateOverrides := {
  r_max_concurrent_handshakes : Z;
  r_max_handshake_duration_ms : Z;
  r_max_preadmission_rate_per_sec : Z;
  r_max_half_attached_channels : Z;
  r_max_pending_approvals : Z;
  r_idle_session_timeout_seconds : Z;
  r_max_control_requests_per_sec : Z;
  r_max_codec_probes_per_min : Z;
  r_max_recovery_requests_per_sec : Z;
  r_max_cursor_uploads_per_sec : Z;
  r_max_diagnostic_exports_per_min : Z;
  r_max_decoder_reconfigurations_per_min : Z;
  r_max_worker_restarts_per_min : Z;
}.

Record ResourceOverrides := {
  q_cursor_dimension_pixels : Z;
  q_cursor_shape_bytes : Z;
  q_name_bytes : Z;
  q_parameter_set_bytes : Z;
  q_fragments_per_access_unit : Z;
  q_retained_receipts : Z;
  q_encoder_sessions : Z;
  q_gpu_surfaces : Z;
  q_bandwidth_bps : Z;
  q_viewers : Z;
}.

(** The three matches written out in [resolve_session_overrides]. *)
Definition resolve_window (o : Overrides.LimitOverrides) (a : ProtocolLimits)
  : Result LimitsError Z :=
  match Overrides.reassembly_window_pictures o with
  | None => Ok (reassembly_window_pictures a)
  | Some v =>
      if REASSEMBLY_WINDOW_CEILING <? v
      then Err (AboveCeiling ReassemblyWindowPictures v REASSEMBLY_WINDOW_CEILING)
      else if v <? REASSEMBLY_WINDOW_FLOOR
      then Err (BelowFloor ReassemblyWindowPictures v REASSEMBLY_WINDOW_FLOOR)
      else Ok v
  end.

Definition resolve_per_viewer (o : Overrides.LimitOverrides) (a : ProtocolLimits)
  (max_encoded_access_unit_bytes : Z) : Result LimitsError Z :=
  match Overrides.per_viewer_compressed_bytes o with
  | None => Ok (per_viewer_compressed_bytes a)
  | Some v =>
      if per_viewer_compressed_bytes a <? v
      then Err (AboveCeiling PerViewerCompressedBytes v (per_viewer_compressed_bytes a))
      else if v <? max_encoded_access_unit_bytes
      then Err (BelowFloor PerViewerCompressedBytes v max_encoded_access_unit_bytes)
      else Ok v
  end.

Definition resolve_coded_pixels (o : Overrides.LimitOverrides) (a : ProtocolLimits)
  : Result LimitsError Z :=
  match Overrides.max_coded_pixels o with
  | None => Ok (max_coded_pixels a)
  | Some v =>
      if max_coded_pixels a <? v then Err (AboveCeiling CodedPixels v (max_coded_pixels a))
      else if v =? 0 then Err ZeroDimension
      else Ok v
  end.

Definition resolve_session_overrides (o : Overrides.LimitOverrides) (a : ProtocolLimits)
  : Result LimitsError SessionOverrides :=
  reassembly ← resolve_window o a;
  access_unit ← take_bounded u32_max EncodedAccessUnitBytes (max_encoded_access_unit_bytes a) 1
                  (Overrides.max_encoded_access_unit_bytes o);
  per_viewer ← resolve_per_viewer o a access_unit;
  coded_pixels ← resolve_coded_pixels o a;
  control ← take_bounded u32_max ControlMessageBytes (max_control_message_bytes a) 1 (Overrides.max_control_message_bytes o);
  clipboard ← take_bounded u32_max ClipboardItemBytes (max_clipboard_item_bytes a) 1 (Overrides.max_clipboard_item_bytes o);
  dimension ← take_bounded u32_max DimensionPixels (max_dimension_pixels a) 1 (Overrides.max_dimension_pixels o);
  mret {| s_max_control_message_bytes := control;
          s_max_clipboard_item_bytes := clipboard;
          s_max_encoded_access_unit_bytes := access_unit;
          s_max_dimension_pixels := dimension;
          s_max_coded_pixels := coded_pixels;
          s_reassembly_window_pictures := reassembly;
          s_per_viewer_compressed_bytes := per_viewer |}.

Definition resolve_rate_overrides (o : Overrides.LimitOverrides) (a : ProtocolLimits)
  : Result LimitsError RateOverrides :=
  x0 ← take_bounded u16_max ConcurrentHandshakes (max_concurrent_handshakes a) 1 (Overrides.max_concurrent_handshakes o);
  x1 ← take_bounded u16_max HandshakeDurationMs (max_handshake_duration_ms a) 1000 (Overrides.max_handshake_duration_ms o);
  x2 ← take_bounded u16_max PreadmissionRatePerSec (max_preadmission_rate_per_sec a) 1 (Overrides.max_preadmission_rate_per_sec o);
  x3 ← take_bounded u16_max HalfAttachedChannels (max_half_attached_channels a) 1 (Overrides.max_half_attached_channels o);
  x4 ← take_bounded u8_max PendingApprovals (max_pending_approvals a) 1 (Overrides.max_pending_approvals o);
  x5 ← take_bounded u16_max IdleSessionTimeoutSecs (idle_session_timeout_seconds a) 10 (Overrides.idle_session_timeout_seconds o);
  x6 ← take_bounded u16_max ControlRequestsPerSec (max_control_requests_per_sec a) 10 (Overrides.max_control_requests_per_sec o);
  x7 ← take_bounded u16_max CodecProbesPerMin (max_codec_probes_per_min a) 1 (Overrides.max_codec_probes_per_min o);
  x8 ← take_bounded u16_max RecoveryRequestsPerSec (max_recovery_requests_per_sec a) 10 (Overrides.max_recovery_requests_per_sec o);
  x9 ← take_bounded u16_max CursorUploadsPerSec (max_cursor_uploads_per_sec a) 1 (Overrides.max_cursor_uploads_per_sec o);
  x10 ← take_bounded u8_max DiagnosticExportsPerMin (max_diagnostic_exports_per_min a) 1 (Overrides.max_diagnostic_exports_per_min o);
  x11 ← take_bounded u16_max DecoderReconfigurationsPerMin (max_decoder_reconfigurations_per_min a) 1 (Overrides.max_decoder_reconfigurations_per_min o);
  x12 ← take_bounded u8_max WorkerRestartsPerMin (max_worker_restarts_per_min a) 1 (Overrides.max_worker_restarts_per_min o);
  mret {| r_max_concurrent_handshakes := x0;
          r_max_handshake_duration_ms := x1;
          r_max_preadmission_rate_per_sec := x2;
          r_max_half_attached_channels := x3;
          r_max_pending_approvals := x4;
          r_idle_session_timeout_seconds := x5;
          r_max_control_requests_per_sec := x6;
          r_max_codec_probes_per_min := x7;
          r_max_recovery_requests_per_sec := x8;
          r_max_cursor_uploads_per_sec := x9;
          r_max_diagnostic_exports_per_min := x10;
          r_max_decoder_reconfigurations_per_min := x11;
          r_max_worker_restarts_per_min := x12 |}.

Definition resolve_resource_overrides (o : Overrides.LimitOverrides) (a : ProtocolLimits)
  : Result LimitsError ResourceOverrides :=
  x0 ← take_bounded u16_max CursorDimensionPixels (max_cursor_dimension_pixels a) 16 (Overrides.max_cursor_dimension_pixels o);
  x1 ← take_bounded u32_max CursorShapeBytes (max_cursor_shape_bytes a) 1024 (Overrides.max_cursor_shape_bytes o);
  x2 ← take_bounded u16_max NameBytes (max_name_bytes a) 1 (Overrides.max_name_bytes o);
  x3 ← take_bounded u32_max ParameterSetBytes (max_parameter_set_bytes a) 32 (Overrides.max_parameter_set_bytes o);
  x4 ← take_bounded u16_max FragmentsPerAccessUnit (max_fragments_per_access_unit a) 1 (Overrides.max_fragments_per_access_unit o);
  x5 ← take_bounded u16_max RetainedReceipts (max_retained_receipts a) 16 (Overrides.max_retained_receipts o);
  x6 ← take_bounded u8_max EncoderSessions (max_encoder_sessions a) 1 (Overrides.max_encoder_sessions o);
  x7 ← take_bounded u8_max GpuSurfaces (max_gpu_surfaces a) 2 (Overrides.max_gpu_surfaces o);
  x8 ← take_bounded u64_max BandwidthBps (max_bandwidth_bps a) 1000000 (Overrides.max_bandwidth_bps o);
  x9 ← take_bounded u8_max Viewers (max_viewers a) 1 (Overrides.max_viewers o);
  mret {| q_cursor_dimension_pixels := x0;
          q_cursor_shape_bytes := x1;
          q_name_bytes := x2;
          q_parameter_set_bytes := x3;
          q_fragments_per_access_unit := x4;
          q_retained_receipts := x5;
          q_encoder_sessions := x6;
          q_gpu_surfaces := x7;
          q_bandwidth_bps := x8;
          q_viewers := x9 |}.

Definition with_overrides (o : Overrides.LimitOverrides) : Result LimitsError ProtocolLimits :=
  let a := ABSOLUTE in
  session ← resolve_session_overrides o a;
  rates ← resolve_rate_overrides o a;
  resources ← resolve_resource_overrides o a;
  mret {|
    max_control_message_bytes := s_max_control_message_bytes session;
    max_clipboard_item_bytes := s_max_clipboard_item_bytes session;
    max_encoded_access_unit_bytes := s_max_encoded_access_unit_bytes session;
    max_dimension_pixels := s_max_dimension_pixels session;
    max_coded_pixels := s_max_coded_pixels session;
    reassembly_window_pictures := s_reassembly_window_pictures session;
    per_viewer_compressed_bytes := s_per_viewer_compressed_bytes session;
    max_concurrent_handshakes := r_max_concurrent_handshakes rates;
    max_handshake_duration_ms := r_max_handshake_duration_ms rates;
    max_preadmission_rate_per_sec := r_max_preadmission_rate_per_sec rates;
    max_half_attached_channels := r_max_half_attached_channels rates;
    max_pending_approvals := r_max_pending_approvals rates;
    idle_session_timeout_seconds := r_idle_session_timeout_seconds rates;
    max_control_requests_per_sec := r_max_control_requests_per_sec rates;
    max_codec_probes_per_min := r_max_codec_probes_per_min rates;
    max_recovery_requests_per_sec := r_max_recovery_requests_per_sec rates;
    max_cursor_uploads_per_sec := r_max_cursor_uploads_per_sec rates;
    max_diagnostic_exports_per_min := r_max_diagnostic_exports_per_min rates;
    max_decoder_reconfigurations_per_min := r_max_decoder_reconfigurations_per_min rates;
    max_worker_restarts_per_min := r_max_worker_restarts_per_min rates;
    max_cursor_dimension_pixels := q_cursor_dimension_pixels resources;
    max_cursor_shape_bytes := q_cursor_shape_bytes resources;
    max_name_bytes := q_name_bytes resources;
    max_parameter_set_bytes := q_parameter_set_bytes resources;
    max_fragments_per_access_unit := q_fragments_per_access_unit resources;
    max_retained_receipts := q_retained_receipts resources;
    max_encoder_sessions := q_encoder_sessions resources;
    max_gpu_surfaces := q_gpu_surfaces resources;
    max_bandwidth_bps := q_bandwidth_bps resources;
    max_viewers := q_viewers resources |}.

Definition negotiated (self peer : ProtocolLimits) : ProtocolLimits := {|
  max_control_message_bytes := Z.min (max_control_message_bytes self) (max_control_message_bytes peer);
  max_clipboard_item_bytes := Z.min (max_clipboard_item_bytes self) (max_clipboard_item_bytes peer);
  max_encoded_access_unit_bytes := Z.min (max_encoded_access_unit_bytes self) (max_encoded_access_unit_bytes peer);
  max_dimension_pixels := Z.min (max_dimension_pixels self) (max_dimension_pixels peer);
  max_coded_pixels := Z.min (max_coded_pixels self) (max_coded_pixels peer);
  reassembly_window_pictures := Z.min (reassembly_window_pictures self) (reassembly_window_pictures peer);
  per_viewer_compressed_bytes := Z.min (per_viewer_compressed_bytes self) (per_viewer_compressed_bytes peer);
  max_concurrent_handshakes := Z.min (max_concurrent_handshakes self) (max_concurrent_handshakes peer);
  max_handshake_duration_ms := Z.min (max_handshake_duration_ms self) (max_handshake_duration_ms peer);
  max_preadmission_rate_per_sec := Z.min (max_preadmission_rate_per_sec self) (max_preadmission_rate_per_sec peer);
  max_half_attached_channels := Z.min (max_half_attached_channels self) (max_half_attached_channels peer);
  max_pending_approvals := Z.min (max_pending_approvals self) (max_pending_approvals peer);
  idle_session_timeout_seconds := Z.min (idle_session_timeout_seconds self) (idle_session_timeout_seconds peer);
  max_control_requests_per_sec := Z.min (max_control_requests_per_sec self) (max_control_requests_per_sec peer);
  max_codec_probes_per_min := Z.min (max_codec_probes_per_min self) (max_codec_probes_per_min peer);
  max_recovery_requests_per_sec := Z.min (max_recovery_requests_per_sec self) (max_recovery_requests_per_sec peer);
  max_cursor_uploads_per_sec := Z.min (max_cursor_uploads_per_sec self) (max_cursor_uploads_per_sec peer);
  max_diagnostic_exports_per_min := Z.min (max_diagnostic_exports_per_min self) (max_diagnostic_exports_per_min peer);
  max_decoder_reconfigurations_per_min := Z.min (max_decoder_reconfigurations_per_min self) (max_decoder_reconfigurations_per_min peer);
  max_worker_restarts_per_min := Z.min (max_worker_restarts_per_min self) (max_worker_restarts_per_min peer);
  max_cursor_dimension_pixels := Z.min (max_cursor_dimension_pixels self) (max_cursor_dimension_pixels peer);
  max_cursor_shape_bytes := Z.min (max_cursor_shape_bytes self) (max_cursor_shape_bytes peer);
  max_name_bytes := Z.min (max_name_bytes self) (max_name_bytes peer);
  max_parameter_set_bytes := Z.min (max_parameter_set_bytes self) (max_parameter_set_bytes peer);
  max_fragments_per_access_unit := Z.min (max_fragments_per_access_unit self) (max_fragments_per_access_unit peer);
  max_retained_receipts := Z.min (max_retained_receipts self) (max_retained_receipts peer);
  max_encoder_sessions := Z.min (max_encoder_sessions self) (max_encoder_sessions peer);
  max_gpu_surfaces := Z.min (max_gpu_surfaces self) (max_gpu_surfaces peer);
  max_bandwidth_bps := Z.min (max_bandwidth_bps self) (max_bandwidth_bps peer);
  max_viewers := Z.min (max_viewers self) (max_viewers peer) |}.

(** ** Validation *)

Definition validate_max (field : LimitField) (count max : Z) : Result LimitsError unit :=
  if max <? count then Err (AboveCeiling field count max) else Ok tt.
Definition validate_capacity (field : LimitField) (count cap : Z) : Result LimitsError unit :=
  if cap <=? count then Err (AboveCeiling field count cap) else Ok tt.
Definition validate_len (field : LimitField) (len ceiling : Z) : Result LimitsError unit :=
  if negb (len <=? u64_max) then Err ArithmeticOverflow
  else if ceiling <? len then Err (AboveCeiling field len ceiling) else Ok tt.

Definition validate_control_message_len (p : ProtocolLimits) (len : Z) :=
  validate_len ControlMessageBytes len (max_control_message_bytes p).
Definition validate_clipboard_item_len (p : ProtocolLimits) (len : Z) :=
  validate_len ClipboardItemBytes len (max_clipboard_item_bytes p).
Definition validate_access_unit_len (p : ProtocolLimits) (len : Z) :=
  validate_len EncodedAccessUnitBytes len (max_encoded_access_unit_bytes p).
Definition validate_cursor_shape_len (p : ProtocolLimits) (len : Z) :=
  validate_len CursorShapeBytes len (max_cursor_shape_bytes p).
Definition validate_name_len (p : ProtocolLimits) (len : Z) :=
  validate_len NameBytes len (max_name_bytes p).
Definition validate_parameter_set_len (p : ProtocolLimits) (len : Z) :=
  validate_len ParameterSetBytes len (max_parameter_set_bytes p).

(** [for axis in [width, height] { if axis > max { return Err(..) } }]. *)
Definition validate_axes (field : LimitField) (max : Z) (axes : list Z) : Result LimitsError unit :=
  match find_first (fun axis => max <? axis) axes with
  | Some axis => Err (AboveCeiling field axis max)
  | None => Ok tt
  end.

Definition validate_coded_dimensions (p : ProtocolLimits) (width height : Z)
  : Result LimitsError unit :=
  if (width =? 0) || (height =? 0) then Err ZeroDimension
  else
    _ ← validate_axes DimensionPixels (max_dimension_pixels p) [width; height];
    let pixels := width * height in
    if max_coded_pixels p <? pixels
    then Err (AboveCeiling CodedPixels pixels (max_coded_pixels p))
    else Ok tt.

Definition validate_cursor_dimensions (p : ProtocolLimits) (width height : Z)
  : Result LimitsError unit :=
  if (width =? 0) || (height =? 0) then Err ZeroDimension
  else validate_axes CursorDimensionPixels (max_cursor_dimension_pixels p) [width; height].

Definition validate_fragment_count (p : ProtocolLimits) (count : Z) :=
  validate_max FragmentsPerAccessUnit count (max_fragments_per_access_unit p).
Definition validate_handshake_concurrency (p : ProtocolLimits) (count : Z) :=
  validate_capacity ConcurrentHandshakes count (max_concurrent_handshakes p).
Definition validate_pending_approvals (p : ProtocolLimits) (count : Z) :=
  validate_capacity PendingApprovals count (max_pending_approvals p).
Definition validate_half_attached_channels (p : ProtocolLimits) (count : Z) :=
  validate_capacity HalfAttachedChannels count (max_half_attached_channels p).
Definition validate_retained_receipts (p : ProtocolLimits) (count : Z) :=
  validate_max RetainedReceipts (Z.min count u64_max) (max_retained_receipts p).
Definition validate_encoder_sessions (p : ProtocolLimits) (count : Z) :=
  validate_capacity EncoderSessions count (max_encoder_sessions p).
Definition validate_gpu_surfaces (p : ProtocolLimits) (count : Z) :=
  validate_capacity GpuSurfaces count (max_gpu_surfaces p).
Definition validate_viewers (p : ProtocolLimits) (count : Z) :=
  validate_capacity Viewers count (max_viewers p).

(** [u32::is_power_of_two]: exactly one bit set. *)
Definition is_power_of_two (n : Z) : bool := (0 <? n) && (Z.land n (n - 1) =? 0).

Definition checked_surface_bytes (p : ProtocolLimits) (width height bytes_per_pixel row_align : Z)
  : Result LimitsError Z :=
  _ ← validate_coded_dimensions p width height;
  if negb ((1 <=? bytes_per_pixel) && (bytes_per_pixel <=? 16))
  then Err (InvalidBytesPerPixel bytes_per_pixel)
  else if (row_align =? 0) || negb (is_power_of_two row_align)
  then Err (InvalidRowAlignment row_align)
  else
    row_bytes ← ok_or (checked_mul u64_max width bytes_per_pixel) ArithmeticOverflow;
    let align := row_align in
    padded ← ok_or (checked_add u64_max row_bytes (align - 1)) ArithmeticOverflow;
    let stride := padded / align * align in
    ok_or (checked_mul u64_max stride height) ArithmeticOverflow.

(** ** Limits by field *)

(** The accessor of a field. *)
Definition lim (p : ProtocolLimits) (f : LimitField) : Z :=
  match f with
  | ControlMessageBytes => max_control_message_bytes p
  | ClipboardItemBytes => max_clipboard_item_bytes p
  | EncodedAccessUnitBytes => max_encoded_access_unit_bytes p
  | DimensionPixels => max_dimension_pixels p
  | CodedPixels => max_coded_pixels p
  | ReassemblyWindowPictures => reassembly_window_pictures p
  | PerViewerCompressedBytes => per_viewer_compressed_bytes p
  | ConcurrentHandshakes => max_concurrent_handshakes p
  | HandshakeDurationMs => max_handshake_duration_ms p
  | PreadmissionRatePerSec => max_preadmission_rate_per_sec p
  | HalfAttachedChannels => max_half_attached_channels p
  | PendingApprovals => max_pending_approvals p
  | IdleSessionTimeoutSecs => idle_session_timeout_seconds p
  | ControlRequestsPerSec => max_control_requests_per_sec p
  | CodecProbesPerMin => max_codec_probes_per_min p
  | RecoveryRequestsPerSec => max_recovery_requests_per_sec p
  | CursorUploadsPerSec => max_cursor_uploads_per_sec p
  | DiagnosticExportsPerMin => max_diagnostic_exports_per_min p
  | DecoderReconfigurationsPerMin => max_decoder_reconfigurations_per_min p
  | WorkerRestartsPerMin => max_worker_restarts_per_min p
  | CursorDimensionPixels => max_cursor_dimension_pixels p
  | CursorShapeBytes => max_cursor_shape_bytes p
  | NameBytes => max_name_bytes p
  | ParameterSetBytes => max_parameter_set_bytes p
  | FragmentsPerAccessUnit => max_fragments_per_access_unit p
  | RetainedReceipts => max_retained_receipts p
  | EncoderSessions => max_encoder_sessions p
  | GpuSurfaces => max_gpu_surfaces p
  | BandwidthBps => max_bandwidth_bps p
  | Viewers => max_viewers p
  end.

Definition ov (o : Overrides.LimitOverrides) (f : LimitField) : option Z :=
  match f with
  | ControlMessageBytes => Overrides.max_control_message_bytes o
  | ClipboardItemBytes => Overrides.max_clipboard_item_bytes o
  | EncodedAccessUnitBytes => Overrides.max_encoded_access_unit_bytes o
  | DimensionPixels => Overrides.max_dimension_pixels o
  | CodedPixels => Overrides.max_coded_pixels o
  | ReassemblyWindowPictures => Overrides.reassembly_window_pictures o
  | PerViewerCompressedBytes => Overrides.per_viewer_compressed_bytes o
  | ConcurrentHandshakes => Overrides.max_concurrent_handshakes o
  | HandshakeDurationMs => Overrides.max_handshake_duration_ms o
  | PreadmissionRatePerSec => Overrides.max_preadmission_rate_per_sec o
  | HalfAttachedChannels => Overrides.max_half_attached_channels o
  | PendingApprovals => Overrides.max_pending_approvals o
  | IdleSessionTimeoutSecs => Overrides.idle_session_timeout_seconds o
  | ControlRequestsPerSec => Overrides.max_control_requests_per_sec o
  | CodecProbesPerMin => Overrides.max_codec_probes_per_min o
  | RecoveryRequestsPerSec => Overrides.max_recovery_requests_per_sec o
  | CursorUploadsPerSec => Overrides.max_cursor_uploads_per_sec o
  | DiagnosticExportsPerMin => Overrides.max_diagnostic_exports_per_min o
  | DecoderReconfigurationsPerMin => Overrides.max_decoder_reconfigurations_per_min o
  | WorkerRestartsPerMin => Overrides.max_worker_restarts_per_min o
  | CursorDimensionPixels => Overrides.max_cursor_dimension_pixels o
  | CursorShapeBytes => Overrides.max_cursor_shape_bytes o
  | NameBytes => Overrides.max_name_bytes o
  | ParameterSetBytes => Overrides.max_parameter_set_bytes o
  | FragmentsPerAccessUnit => Overrides.max_fragments_per_access_unit o
  | RetainedReceipts => Overrides.max_retained_receipts o
  | EncoderSessions => Overrides.max_encoder_sessions o
  | GpuSurfaces => Overrides.max_gpu_surfaces o
  | BandwidthBps => Overrides.max_bandwidth_bps o
  | Viewers => Overrides.max_viewers o
  end.

(** The documented floor of a field; the per-viewer budget always holds one
    access unit. *)
Definition floor_at (access_unit : Z) (f : LimitField) : Z :=
  match f with
  | ReassemblyWindowPictures | GpuSurfaces => 2
  | HandshakeDurationMs => 1000
  | IdleSessionTimeoutSecs | ControlRequestsPerSec | RecoveryRequestsPerSec => 10
  | CursorDimensionPixels | RetainedReceipts => 16
  | CursorShapeBytes => 1024
  | ParameterSetBytes => 32
  | BandwidthBps => 1000000
  | PerViewerCompressedBytes => access_unit
  | _ => 1
  end.
Definition floor_of (p : ProtocolLimits) (f : LimitField) : Z :=
  floor_at (max_encoded_access_unit_bytes p) f.

(** Within every floor and ceiling: what a constructed value promises. *)
Definition valid (p : ProtocolLimits) : Prop :=
  forall f, floor_of p f <= lim p f <= lim ABSOLUTE f.

(** An override is an unsigned integer of at most 64 bits. *)
Definition overrides_ok (o : Overrides.LimitOverrides) : Prop :=
  forall f v, ov o f = Some v -> fits u64_max v.

(** ** Resolving one field *)

Lemma bind_Err {A B : Type} (m : Result LimitsError A) (k : A -> Result LimitsError B) e :
  m ≫= k = Err e <-> m = Err e \/ exists a, m = Ok a /\ k a = Err e.
Proof.
  unfold mbind, Result_bind. destruct m; split.
  - by eauto.
  - by intros [?|(? & [= <-] & ?)].
  - intros [= ->]. by left.
  - by intros [[= ->]|(? & ? & ?)].
Qed.

Lemma take_bounded_Ok tmax f c fl v x :
  c <= tmax -> c <= u64_max -> fl <= c ->
  take_bounded tmax f c fl v = Ok x <-> x = default c v /\ fl <= x <= c.
Proof.
  intros Ht Hu Hc. unfold take_bounded. destruct v as [v|]; cbn.
  - destruct (Z.leb_spec v u64_max); cbn; [|split; [done|lia]].
    destruct (Z.ltb_spec c v); [split; [done|lia]|].
    destruct (Z.ltb_spec v fl); [split; [done|lia]|].
    rewrite (proj2 (Z.leb_le _ _)) by lia.
    split; [intros [= <-]; lia | by intros [-> _]].
  - split; [intros [= <-]; lia | by intros [-> _]].
Qed.

(** The access-unit limit an override set asks for. *)
Definition wanted_access_unit (o : Overrides.LimitOverrides) : Z :=
  default (lim ABSOLUTE EncodedAccessUnitBytes) (ov o EncodedAccessUnitBytes).

(** What a refusal says of the override it names. *)
Definition describes (o : Overrides.LimitOverrides) (e : LimitsError) : Prop :=
  match e with
  | AboveCeiling f v c => ov o f = Some v /\ c = lim ABSOLUTE f /\ c < v
  | BelowFloor f v fl => ov o f = Some v /\ fl = floor_at (wanted_access_unit o) f /\ v < fl
  | ZeroDimension => ov o CodedPixels = Some 0
  | _ => False
  end.

Lemma take_bounded_Err o tmax f e :
  overrides_ok o -> lim ABSOLUTE f <= tmax ->
  take_bounded tmax f (lim ABSOLUTE f) (floor_at (wanted_access_unit o) f) (ov o f) = Err e ->
  describes o e.
Proof.
  intros Ho Ht. unfold take_bounded. destruct (ov o f) as [v|] eqn:Hv; [|done].
  pose proof (Ho f v Hv) as [_ Hm]. rewrite (proj2 (Z.leb_le _ _)) by done. cbn [negb].
  destruct (Z.ltb_spec (lim ABSOLUTE f) v); [by intros [= <-]|].
  destruct (Z.ltb_spec v (floor_at (wanted_access_unit o) f)); [by intros [= <-]|].
  by rewrite (proj2 (Z.leb_le _ _)) by lia.
Qed.

(** The three written-out matches choose within bounds in the same way. *)
Lemma resolve_window_Ok o x :
  resolve_window o ABSOLUTE = Ok x <->
  x = default 12 (Overrides.reassembly_window_pictures o) /\ 2 <= x <= 12.
Proof.
  unfold resolve_window, REASSEMBLY_WINDOW_CEILING, REASSEMBLY_WINDOW_FLOOR.
  destruct (Overrides.reassembly_window_pictures o) as [v|]; cbn.
  - destruct (Z.ltb_spec 12 v); [split; [done|lia]|].
    destruct (Z.ltb_spec v 2); [split; [done|lia]|].
    split; [intros [= <-]; lia | by intros [-> _]].
  - split; [intros [= <-]; by vm_compute | by intros [-> _]].
Qed.

Lemma resolve_per_viewer_Ok o au x :
  au <= per_viewer_compressed_bytes ABSOLUTE ->
  resolve_per_viewer o ABSOLUTE au = Ok x <->
  x = default (per_viewer_compressed_bytes ABSOLUTE) (Overrides.per_viewer_compressed_bytes o) /\
  au <= x <= per_viewer_compressed_bytes ABSOLUTE.
Proof.
  intros Ha. unfold resolve_per_viewer.
  destruct (Overrides.per_viewer_compressed_bytes o) as [v|]; cbn [default from_option id].
  - destruct (Z.ltb_spec (per_viewer_compressed_bytes ABSOLUTE) v); [split; [done|lia]|].
    destruct (Z.ltb_spec v au); [split; [done|lia]|].
    split; [intros [= <-]; done | by intros [-> _]].
  - split; [intros [= <-]; done | by intros [-> _]].
Qed.

Lemma resolve_coded_pixels_Ok o x :
  overrides_ok o ->
  resolve_coded_pixels o ABSOLUTE = Ok x <->
  x = default (max_coded_pixels ABSOLUTE) (Overrides.max_coded_pixels o) /\
  1 <= x <= max_coded_pixels ABSOLUTE.
Proof.
  intros Ho. pose proof (Ho CodedPixels) as Hv. cbn in Hv. unfold resolve_coded_pixels.
  destruct (Overrides.max_coded_pixels o) as [v|]; cbn [default from_option id].
  - destruct (Hv v eq_refl) as [? _].
    destruct (Z.ltb_spec (max_coded_pixels ABSOLUTE) v); [split; [done|lia]|].
    destruct (Z.eqb_spec v 0); [split; [done|lia]|].
    split; [intros [= <-]; split; [done|lia] | by intros [-> _]].
  - split; [intros [= <-]; split; [done|cbn; lia] | by intros [-> _]].
Qed.

(** ** All fields *)

Ltac inv_binds :=
  repeat match goal with
  | H : (_ ≫= _) = Ok _ |- _ => apply Result_bind_Ok in H as (? & ? & H)
  end.

Ltac in_range := vm_compute; congruence.

(** Each bind of the resolution is a bounded choice of one field. *)
Ltac bounded :=
  repeat match goal with
  | H : take_bounded _ _ _ _ _ = Ok _ |- _ =>
      apply take_bounded_Ok in H as [? ?]; [|in_range|in_range|in_range]
  end.

Lemma with_overrides_sound o p :
  overrides_ok o -> with_overrides o = Ok p ->
  (forall f, lim p f = default (lim ABSOLUTE f) (ov o f)) /\ valid p.
Proof.
  intros Ho. unfold with_overrides, resolve_session_overrides, resolve_rate_overrides,
    resolve_resource_overrides. intros H. inv_binds. bounded.
  repeat match goal with H : mret _ = Ok _ |- _ => injection H as <- end.
  match goal with H : resolve_window _ _ = _ |- _ => apply resolve_window_Ok in H as [? ?] end.
  match goal with H : resolve_coded_pixels _ _ = _ |- _ =>
    apply resolve_coded_pixels_Ok in H as [? ?]; [|done] end.
  match goal with H : resolve_per_viewer _ _ _ = _ |- _ =>
    apply resolve_per_viewer_Ok in H as [? ?] end.
  - split; intros []; assumption.
  - match goal with H : _ <= ?x <= _ |- ?x <= _ => etrans; [apply H|in_range] end.
Qed.

(** A field of a valid value is what resolving its override yields. *)
Lemma take_field o p tmax f :
  lim p f = default (lim ABSOLUTE f) (ov o f) -> valid p ->
  lim ABSOLUTE f <= tmax -> lim ABSOLUTE f <= u64_max ->
  take_bounded tmax f (lim ABSOLUTE f) (floor_of p f) (ov o f) = Ok (lim p f).
Proof.
  intros Hd Hv Ht Hu. pose proof (Hv f). apply take_bounded_Ok; [done..|lia|done].
Qed.

Ltac take_fields o p Hd Hv :=
  repeat match goal with
  | |- (take_bounded ?t ?f _ _ _ ≫= _) = Ok _ =>
      apply Result_bind_Ok; exists (lim p f);
      split; [apply (take_field o p t f (Hd f) Hv); in_range | cbv beta]
  end.

Lemma with_overrides_complete o p :
  overrides_ok o -> (forall f, lim p f = default (lim ABSOLUTE f) (ov o f)) -> valid p ->
  with_overrides o = Ok p.
Proof.
  intros Ho Hd Hv. unfold with_overrides.
  apply Result_bind_Ok. eexists. split.
  { unfold resolve_session_overrides.
    apply Result_bind_Ok. exists (lim p ReassemblyWindowPictures). split.
    { apply resolve_window_Ok. split; [apply (Hd ReassemblyWindowPictures)|apply (Hv ReassemblyWindowPictures)]. }
    take_fields o p Hd Hv.
    apply Result_bind_Ok. exists (lim p PerViewerCompressedBytes). split.
    { apply resolve_per_viewer_Ok; [etrans; apply (Hv PerViewerCompressedBytes)|].
      split; [apply (Hd PerViewerCompressedBytes)|apply (Hv PerViewerCompressedBytes)]. }
    apply Result_bind_Ok. exists (lim p CodedPixels). split.
    { apply resolve_coded_pixels_Ok; [done|].
      split; [apply (Hd CodedPixels)|apply (Hv CodedPixels)]. }
    take_fields o p Hd Hv. reflexivity. }
  apply Result_bind_Ok. eexists. split.
  { unfold resolve_rate_overrides. take_fields o p Hd Hv. reflexivity. }
  apply Result_bind_Ok. eexists. split.
  { unfold resolve_resource_overrides. take_fields o p Hd Hv. reflexivity. }
  by destruct p.
Qed.

(** ** Refusals *)

Ltac refused Ho :=
  repeat match goal with
  | H : (_ ≫= _) = Err _ |- _ => apply bind_Err in H as [H|(? & ? & H)]
  | H : take_bounded ?t ?f _ _ _ = Err _ |- describes ?o _ =>
      apply (take_bounded_Err o t f _ Ho); [in_range|exact H]
  | H : mret _ = Err _ |- _ => discriminate H
  end.

Lemma resolve_session_Err o e :
  overrides_ok o -> resolve_session_overrides o ABSOLUTE = Err e -> describes o e.
Proof.
  intros Ho H. unfold resolve_session_overrides in H. refused Ho.
  - unfold resolve_window in H.
    destruct (Overrides.reassembly_window_pictures o) as [v|] eqn:Hv; [|done].
    destruct (Z.ltb_spec REASSEMBLY_WINDOW_CEILING v); [by injection H as <-|].
    destruct (Z.ltb_spec v REASSEMBLY_WINDOW_FLOOR); [by injection H as <-|done].
  - bounded. subst. unfold resolve_per_viewer in H.
    destruct (Overrides.per_viewer_compressed_bytes o) as [v|] eqn:Hv; [|done].
    destruct (Z.ltb_spec (per_viewer_compressed_bytes ABSOLUTE) v); [by injection H as <-|].
    match type of H with context [v <? ?au] => destruct (Z.ltb_spec v au) end;
      [by injection H as <-|done].
  - unfold resolve_coded_pixels in H.
    destruct (Overrides.max_coded_pixels o) as [v|] eqn:Hv; [|done].
    destruct (Z.ltb_spec (max_coded_pixels ABSOLUTE) v); [by injection H as <-|].
    destruct (Z.eqb_spec v 0) as [->|]; [by injection H as <-|done].
Qed.

Lemma resolve_rate_Err o e :
  overrides_ok o -> resolve_rate_overrides o ABSOLUTE = Err e -> describes o e.
Proof. intros Ho H. unfold resolve_rate_overrides in H. refused Ho. Qed.

Lemma resolve_resource_Err o e :
  overrides_ok o -> resolve_resource_overrides o ABSOLUTE = Err e -> describes o e.
Proof. intros Ho H. unfold resolve_resource_overrides in H. refused Ho. Qed.

(** ** Negotiation *)

Lemma lim_negotiated p q f : lim (negotiated p q) f = Z.min (lim p f) (lim q f).
Proof. by destruct f. Qed.

Lemma limits_ext p q : (forall f, lim p f = lim q f) -> p = q.
Proof.
  intros H. destruct p, q. f_equal;
    [ exact (H ControlMessageBytes) | exact (H ClipboardItemBytes)
    | exact (H EncodedAccessUnitBytes) | exact (H DimensionPixels) | exact (H CodedPixels)
    | exact (H ReassemblyWindowPictures) | exact (H PerViewerCompressedBytes)
    | exact (H ConcurrentHandshakes) | exact (H HandshakeDurationMs)
    | exact (H PreadmissionRatePerSec) | exact (H HalfAttachedChannels)
    | exact (H PendingApprovals) | exact (H IdleSessionTimeoutSecs)
    | exact (H ControlRequestsPerSec) | exact (H CodecProbesPerMin)
    | exact (H RecoveryRequestsPerSec) | exact (H CursorUploadsPerSec)
    | exact (H DiagnosticExportsPerMin) | exact (H DecoderReconfigurationsPerMin)
    | exact (H WorkerRestartsPerMin) | exact (H CursorDimensionPixels)
    | exact (H CursorShapeBytes) | exact (H NameBytes) | exact (H ParameterSetBytes)
    | exact (H FragmentsPerAccessUnit) | exact (H RetainedReceipts) | exact (H EncoderSessions)
    | exact (H GpuSurfaces) | exact (H BandwidthBps) | exact (H Viewers) ].
Qed.

(** Every limit of [p] is at most that of [q]. *)
Definition tighter (p q : ProtocolLimits) : Prop := forall f, lim p f <= lim q f.

#[export] Instance tighter_preorder : PreOrder tighter.
Proof.
  split; [intros p f; done|]. intros p q r Hpq Hqr f. etrans; [apply Hpq|apply Hqr].
Qed.

#[export] Instance tighter_antisymm : AntiSymm (=) tighter.
Proof.
  intros p q Hpq Hqp. apply limits_ext. intros f.
  specialize (Hpq f). specialize (Hqp f). lia.
Qed.

#[export] Instance negotiated_proper : Proper (tighter ==> tighter ==> tighter) negotiated.
Proof.
  intros p p' Hp q q' Hq f. rewrite !lim_negotiated.
  specialize (Hp f). specialize (Hq f). lia.
Qed.

Lemma floor_of_min p q f :
  floor_of (negotiated p q) f = Z.min (floor_of p f) (floor_of q f).
Proof. destruct f; cbn; lia. Qed.

Lemma negotiated_valid p q : valid p -> valid q -> valid (negotiated p q).
Proof.
  intros Hp Hq f. rewrite lim_negotiated, floor_of_min. specialize (Hp f). specialize (Hq f). lia.
Qed.

(** The override set that asks for exactly [p]. *)
Definition overrides_of (p : ProtocolLimits) : Overrides.LimitOverrides :=
  Overrides.mkOverrides
    (Some (lim p ControlMessageBytes)) (Some (lim p ClipboardItemBytes))
    (Some (lim p EncodedAccessUnitBytes)) (Some (lim p DimensionPixels))
    (Some (lim p CodedPixels)) (Some (lim p ReassemblyWindowPictures))
    (Some (lim p PerViewerCompressedBytes)) (Some (lim p ConcurrentHandshakes))
    (Some (lim p HandshakeDurationMs)) (Some (lim p PreadmissionRatePerSec))
    (Some (lim p HalfAttachedChannels)) (Some (lim p PendingApprovals))
    (Some (lim p IdleSessionTimeoutSecs)) (Some (lim p ControlRequestsPerSec))
    (Some (lim p CodecProbesPerMin)) (Some (lim p RecoveryRequestsPerSec))
    (Some (lim p CursorUploadsPerSec)) (Some (lim p DiagnosticExportsPerMin))
    (Some (lim p DecoderReconfigurationsPerMin)) (Some (lim p WorkerRestartsPerMin))
    (Some (lim p CursorDimensionPixels)) (Some (lim p CursorShapeBytes))
    (Some (lim p NameBytes)) (Some (lim p ParameterSetBytes))
    (Some (lim p FragmentsPerAccessUnit)) (Some (lim p RetainedReceipts))
    (Some (lim p EncoderSessions)) (Some (lim p GpuSurfaces))
    (Some (lim p BandwidthBps)) (Some (lim p Viewers)).

Lemma ov_overrides_of p f : ov (overrides_of p) f = Some (lim p f).
Proof. by destruct f. Qed.

Lemma valid_nonneg p f : valid p -> 1 <= lim p f <= u64_max.
Proof.
  intros Hv. pose proof (Hv f) as Hf. pose proof (Hv EncodedAccessUnitBytes) as Ha.
  assert (lim ABSOLUTE f <= u64_max) by (destruct f; in_range).
  assert (1 <= floor_of p f); [|lia].
  destruct f; cbn in *; lia.
Qed.

Lemma overrides_of_roundtrip p : valid p -> with_overrides (overrides_of p) = Ok p.
Proof.
  intros Hv. apply with_overrides_complete; [|by intros f; rewrite ov_overrides_of|done].
  intros f v. rewrite ov_overrides_of. intros [= <-].
  pose proof (valid_nonneg p f Hv). unfold fits. lia.
Qed.

(** ** Sizes *)

Lemma is_power_of_two_spec n : is_power_of_two n = true <-> exists k, 0 <= k /\ n = 2 ^ k.
Proof.
  unfold is_power_of_two. rewrite andb_true_iff, Z.ltb_lt, Z.eqb_eq. split.
  - intros [Hn Hl]. exists (Z.log2 n). split; [apply Z.log2_nonneg|].
    pose proof (Z.log2_spec n Hn) as [Hlo Hhi].
    destruct (decide (n = 2 ^ Z.log2 n)) as [|Hne]; [done|].
    assert (0 < 2 ^ Z.log2 n) by (apply Z.pow_pos_nonneg; [lia|apply Z.log2_nonneg]).
    assert (Hp : Z.log2 (n - 1) = Z.log2 n).
    { apply Z.log2_unique; [apply Z.log2_nonneg|]. lia. }
    pose proof (Z.bit_log2 n Hn) as Hb.
    pose proof (Z.bit_log2 (n - 1) ltac:(lia)) as Hb'. rewrite Hp in Hb'.
    assert (Hc : Z.testbit (Z.land n (n - 1)) (Z.log2 n) = true)
      by (by rewrite Z.land_spec, Hb, Hb').
    by rewrite Hl, Z.bits_0 in Hc.
  - intros (k & Hk & ->). split; [by apply Z.pow_pos_nonneg|].
    rewrite Z.sub_1_r, <- Z.ones_equiv, Z.land_ones by done.
    apply Z.mod_same. apply Z.pow_nonzero; lia.
Qed.

Definition dimensions_ok (p : ProtocolLimits) (w h : Z) : Prop :=
  1 <= w <= max_dimension_pixels p /\ 1 <= h <= max_dimension_pixels p /\
  w * h <= max_coded_pixels p.

Lemma validate_coded_dimensions_Ok p w h :
  0 <= w -> 0 <= h ->
  validate_coded_dimensions p w h = Ok tt <-> dimensions_ok p w h.
Proof.
  intros Hw Hh. unfold validate_coded_dimensions, dimensions_ok, validate_axes; cbn [find_first].
  destruct (Z.eqb_spec w 0); [split; [done|lia]|].
  destruct (Z.eqb_spec h 0); [split; [done|lia]|]. cbn [orb].
  destruct (Z.ltb_spec (max_dimension_pixels p) w); [split; [done|lia]|].
  destruct (Z.ltb_spec (max_dimension_pixels p) h); [split; [done|lia]|].
  unfold mbind, Result_bind.
  destruct (Z.ltb_spec (max_coded_pixels p) (w * h)); [split; [done|lia]|].
  split; [lia|done].
Qed.

(** Rounding up to a multiple. *)
Lemma align_up_spec n a s :
  0 < a -> s = (n + (a - 1)) / a * a <-> (a | s) /\ n <= s < n + a.
Proof.
  intros Ha. pose proof (Z.div_mod (n + (a - 1)) a ltac:(lia)).
  pose proof (Z.mod_pos_bound (n + (a - 1)) a Ha). split.
  - intros ->. split; [by exists ((n + (a - 1)) / a)|]. lia.
  - intros [[q ->] Hb]. f_equal. nia.
Qed.

Lemma checked_surface_bytes_eq p w h bpp al :
  valid p -> fits u32_max w -> fits u32_max h -> fits u32_max bpp -> fits u32_max al ->
  dimensions_ok p w h -> 1 <= bpp <= 16 -> is_power_of_two al = true ->
  checked_surface_bytes p w h bpp al = Ok ((w * bpp + (al - 1)) / al * al * h).
Proof.
  intros Hp Hw Hh Hb Ha Hd Hbpp Hal. unfold fits, u32_max in *.
  unfold checked_surface_bytes.
  rewrite (proj2 (validate_coded_dimensions_Ok p w h ltac:(lia) ltac:(lia)) Hd).
  unfold mbind, Result_bind. repeat (rewrite (proj2 (Z.leb_le _ _)) by lia). cbn [andb negb].
  rewrite Hal. apply is_power_of_two_spec in Hal as (k & Hk & Hal).
  assert (0 < 2 ^ k) by by apply Z.pow_pos_nonneg.
  rewrite (proj2 (Z.eqb_neq al 0)) by lia. cbn [orb negb].
  destruct Hd as (Hdw & Hdh & _). pose proof (Hp DimensionPixels) as [_ Hc]. cbn in Hc.
  unfold checked_mul, checked_add. unfold u64_max.
  rewrite (proj2 (Z.leb_le (w * bpp) _)) by nia. cbn [ok_or].
  rewrite (proj2 (Z.leb_le (w * bpp + _) _)) by nia. cbn [ok_or].
  destruct (align_up_spec (w * bpp) al ((w * bpp + (al - 1)) / al * al) ltac:(lia)) as [Hs _].
  destruct (Hs eq_refl) as [_ Hs']. by rewrite (proj2 (Z.leb_le (_ * h) _)) by nia.
Qed.

Lemma validate_coded_dimensions_no_overflow p w h :
  validate_coded_dimensions p w h <> Err ArithmeticOverflow.
Proof.
  unfold validate_coded_dimensions, validate_axes, mbind, Result_bind.
  repeat (case_match; simplify_eq; try done).
Qed.

(** The checks that precede the arithmetic. *)
Lemma checked_surface_bytes_guards p w h bpp al :
  fits u32_max w -> fits u32_max h ->
  (dimensions_ok p w h /\ 1 <= bpp <= 16 /\ is_power_of_two al = true) \/
  exists e, checked_surface_bytes p w h bpp al = Err e /\ e <> ArithmeticOverflow /\
    ~ (dimensions_ok p w h /\ 1 <= bpp <= 16 /\ is_power_of_two al = true).
Proof.
  intros [Hw _] [Hh _]. unfold checked_surface_bytes, mbind, Result_bind.
  destruct (validate_coded_dimensions p w h) as [[]|e] eqn:Hd.
  2:{ right. exists e. split_and!; [done|by intros ->; eapply validate_coded_dimensions_no_overflow|].
      intros (H & _). apply validate_coded_dimensions_Ok in H; [congruence|done..]. }
  apply validate_coded_dimensions_Ok in Hd; [|done..].
  destruct (Z.leb_spec 1 bpp), (Z.leb_spec bpp 16); cbn [andb negb];
    try (right; eexists; split_and!; [done|done|lia]).
  destruct (is_power_of_two al) eqn:Hal.
  - by left.
  - right. eexists. split_and!; [by rewrite orb_true_r|done|]. by intros (_ & _ & ?).
Qed.

(** ** Properties *)

(** Resolving a set of overrides succeeds exactly when every override lies
    between its field's floor and ceiling, the per-viewer budget holding at least
    one access unit, and then every limit is the override where there is one and
    the ceiling otherwise: nothing is clamped, nothing is widened, and no
    combination of overrides yields limits outside the bounds. *)
Theorem with_overrides_exact o p :
  overrides_ok o ->
  with_overrides o = Ok p <->
  (forall f, lim p f = default (lim ABSOLUTE f) (ov o f)) /\ valid p.
Proof.
  intros Ho. split; [by apply with_overrides_sound|].
  intros [? ?]. by apply with_overrides_complete.
Qed.

(** A refusal names an override that is really there and really out of its
    bounds, with the bound it breaks; resolving never fails with an arithmetic
    overflow. *)
Theorem override_refusal_is_accurate o e :
  overrides_ok o -> with_overrides o = Err e -> describes o e.
Proof.
  intros Ho. unfold with_overrides.
  intros [H|(? & _ & [H|(? & _ & [H|(? & _ & H)]%bind_Err)]%bind_Err)]%bind_Err.
  - by apply resolve_session_Err.
  - by apply resolve_rate_Err.
  - by apply resolve_resource_Err.
  - done.
Qed.

(** The limits of a session are the greatest limits below both endpoints':
    both endpoints' validated bounds hold, nothing tighter than necessary is
    imposed, the two sides compute the same value, and the minimum of two valid
    sets is valid, so that it could itself have been obtained from overrides. *)
Theorem negotiated_is_meet p q :
  valid p -> valid q ->
  (forall r, tighter r (negotiated p q) <-> tighter r p /\ tighter r q) /\
  negotiated p q = negotiated q p /\
  valid (negotiated p q) /\
  with_overrides (overrides_of (negotiated p q)) = Ok (negotiated p q).
Proof.
  intros Hp Hq. split_and!.
  - intros r. split.
    + intros H. split; intros f; specialize (H f); rewrite lim_negotiated in H; lia.
    + intros [Ha Hb] f. rewrite lim_negotiated. specialize (Ha f). specialize (Hb f). lia.
  - apply limits_ext. intros f. rewrite !lim_negotiated. apply Z.min_comm.
  - by apply negotiated_valid.
  - by apply overrides_of_roundtrip, negotiated_valid.
Qed.

(** Under valid limits the surface size is exact and cannot overflow: it is
    granted precisely for dimensions within the limits, 1 to 16 bytes per pixel
    and a power-of-two alignment, and is then the height times the least multiple
    of the alignment that holds a row. *)
Theorem surface_bytes_exact p w h bpp al b :
  valid p -> fits u32_max w -> fits u32_max h -> fits u32_max bpp -> fits u32_max al ->
  (checked_surface_bytes p w h bpp al = Ok b <->
   dimensions_ok p w h /\ 1 <= bpp <= 16 /\ (exists k, 0 <= k /\ al = 2 ^ k) /\
   exists stride, (al | stride) /\ w * bpp <= stride < w * bpp + al /\ b = stride * h) /\
  checked_surface_bytes p w h bpp al <> Err ArithmeticOverflow.
Proof.
  intros Hp Hw Hh Hb Ha. rewrite <- is_power_of_two_spec.
  destruct (checked_surface_bytes_guards p w h bpp al Hw Hh) as [(Hd & Hbpp & Hal)|(e & -> & He & Hn)].
  - rewrite checked_surface_bytes_eq by done. split; [|done].
    assert (0 < al) by (apply is_power_of_two_spec in Hal as (k & ? & ->); by apply Z.pow_pos_nonneg).
    split.
    + intros [= <-]. refine (conj Hd (conj Hbpp (conj Hal _))).
      eexists. rewrite (assoc and), <- align_up_spec by done. done.
    + intros (_ & _ & _ & s & Hs1 & Hs2 & ->). repeat f_equal.
      symmetry. by apply align_up_spec.
  - split; [|congruence]. split; [done|]. intros (? & ? & ? & _). by destruct Hn.
Qed.

(** ** Witnesses *)

Definition demo_overrides : Overrides.LimitOverrides :=
  Overrides.mkOverrides (Some 16384) None (Some 1048576) (Some 4096) None (Some 4)
    (Some 2097152) None (Some 2000) None None None (Some 60) None None None None None None None
    None None None None None None None None (Some 5000000) (Some 2).

Definition demo_limits : ProtocolLimits :=
  match with_overrides demo_overrides with Ok p => p | Err _ => ABSOLUTE end.

Lemma demo_overrides_ok : overrides_ok demo_overrides.
Proof. intros [] v; cbn; intros [= <-]; vm_compute; split; congruence. Qed.

Lemma absolute_valid : valid ABSOLUTE.
Proof. intros []; vm_compute; split; congruence. Qed.

Lemma demo_limits_valid : valid demo_limits.
Proof. intros []; vm_compute; split; congruence. Qed.

Lemma with_overrides_exact_witness :
  with_overrides demo_overrides = Ok demo_limits /\
  (forall f, lim demo_limits f = default (lim ABSOLUTE f) (ov demo_overrides f)) /\
  valid demo_limits.
Proof.
  split; [reflexivity|]. apply (with_overrides_exact demo_overrides demo_limits demo_overrides_ok).
  reflexivity.
Defined.

Definition greedy_overrides : Overrides.LimitOverrides :=
  Overrides.mkOverrides None None (Some 1048576) None None None (Some 1048575)
    None None None None None None None None None None None None None
    None None None None None None None None None None.

Lemma override_refusal_is_accurate_witness :
  describes greedy_overrides (BelowFloor PerViewerCompressedBytes 1048575 1048576).
Proof.
  apply override_refusal_is_accurate; [|reflexivity].
  intros [] v; cbn; intros [= <-]; vm_compute; split; congruence.
Defined.

Lemma negotiated_is_meet_witness :
  valid (negotiated demo_limits ABSOLUTE) /\ negotiated demo_limits ABSOLUTE = demo_limits.
Proof.
  split; [|reflexivity].
  apply (negotiated_is_meet demo_limits ABSOLUTE demo_limits_valid absolute_valid).
Defined.

Lemma surface_bytes_exact_witness :
  checked_surface_bytes ABSOLUTE 1921 1080 4 256 = Ok (7936 * 1080) /\
  checked_surface_bytes ABSOLUTE 1921 1080 4 256 <> Err ArithmeticOverflow.
Proof.
  split; [reflexivity|].
  apply (surface_bytes_exact ABSOLUTE 1921 1080 4 256 0 absolute_valid);
    vm_compute; split; congruence.
Defined.

End Limits.
