(* ===== verification/Dos.v ===== *)
(** * Refusals of the denial-of-service bounds

    The data types of [fr-core/src/dos.rs] that its components share: the queue
    lanes and the typed refusals. *)

From S2P Require Import Prelude CoreTime Limits.

Inductive QueueLane := High | Normal | Bulk.

#[export] Instance QueueLane_eq_dec : EqDecision QueueLane.
Proof. solve_decision. Defined.

Inductive DosRefusal :=
| RateLimitExceeded (field : LimitField) (retry_after : HostDuration)
| CapacityExceeded (field : LimitField) (current limit : Z)
| QueueFull (lane : QueueLane) (current_count max_count : Z)
| ByteLimitExceeded (lane : QueueLane) (current_bytes max_bytes : Z)
| StaleGeneration (expected actual : Z)
| DecoderAllocationExceeded (requested_bytes max_bytes : Z)
| ExcessiveMetadataFragments (count max : Z)
| SessionIdleExpired (idle_duration timeout : HostDuration)
| UnauthenticatedFloodDetected (attempts : Z)
| UnicodeNameTooLong (bytes max_bytes : Z)
| CursorTooLarge (width height max_dimension : Z)
| ParameterSetTooLarge (bytes max_bytes : Z).

#[export] Instance DosRefusal_eq_dec : EqDecision DosRefusal.
Proof. solve_decision. Defined.

(** [usize] on the supported 64-bit targets. *)
Definition usize_max : Z := u64_max.
