(* ===== verification/DosQueue.v ===== *)
(** * The flood-fair queue

    [FloodFairQueue] of [fr-core/src/dos.rs]: three lanes with count and byte
    bounds, the high lane served first and the other two by a deficit counter.
    The theorems say that the bounds hold after any history, that every lane is a
    FIFO that loses nothing it accepted, that the high lane is never delayed, and
    that neither of the other two lanes starves. *)

From S2P Require Import Prelude CoreTime Limits Dos.

Module FloodFair.

Record QueueStats := mkStats {
  admitted_high_count : Z;
  admitted_high_bytes : Z;
  admitted_normal_count : Z;
  admitted_normal_bytes : Z;
  admitted_bulk_count : Z;
  admitted_bulk_bytes : Z;
  dropped_bulk_count : Z;
  dropped_bulk_bytes : Z;
}.

#[export] Instance eta_stats : Eta QueueStats := fun r =>
  mkStats (admitted_high_count r) (admitted_high_bytes r) (admitted_normal_count r)
    (admitted_normal_bytes r) (admitted_bulk_count r) (admitted_bulk_bytes r)
    (dropped_bulk_count r) (dropped_bulk_bytes r).

Definition stats_default : QueueStats := mkStats 0 0 0 0 0 0 0 0.

Section queue.
Context {T : Type}.

(** A [VecDeque] is the list of its elements, front first. *)
Record FloodFairQueue := mkQueue {
  high : list (T * Z);
  normal : list (T * Z);
  bulk : list (T * Z);
  high_bytes : Z;
  normal_bytes : Z;
  bulk_bytes : Z;
  max_high_count : Z;
  max_high_bytes : Z;
  max_normal_count : Z;
  max_normal_bytes : Z;
  max_bulk_count : Z;
  max_bulk_bytes : Z;
  deficit_counter : Z;
  stats : QueueStats;
}.

#[export] Instance eta_queue : Eta FloodFairQueue := fun r =>
  mkQueue (high r) (normal r) (bulk r) (high_bytes r) (normal_bytes r) (bulk_bytes r)
    (max_high_count r) (max_high_bytes r) (max_normal_count r) (max_normal_bytes r)
    (max_bulk_count r) (max_bulk_bytes r) (deficit_counter r) (stats r).

Definition new (mhc mhb mnc mnb mbc mbb : Z) : FloodFairQueue := {|
  high := []; normal := []; bulk := [];
  high_bytes := 0; normal_bytes := 0; bulk_bytes := 0;
  max_high_count := mhc; max_high_bytes := mhb;
  max_normal_count := mnc; max_normal_bytes := mnb;
  max_bulk_count := mbc; max_bulk_bytes := mbb;
  deficit_counter := 0;
  stats := stats_default |}.

Definition from_limits (limits : Limits.ProtocolLimits) : FloodFairQueue :=
  new 64 (256 * 1024)
      128 (saturating_mul usize_max (Limits.max_control_message_bytes limits) 4)
      256 (Limits.per_viewer_compressed_bytes limits / 4).

Definition len (l : list (T * Z)) : Z := Z.of_nat (length l).

(** The statistics are plain [u64] additions, which wrap in a release build. *)
Definition bump (x n : Z) : Z := wrapping_add u64_max x n.

Definition push (lane : QueueLane) (item : T) (byte_len : Z)
  : M FloodFairQueue DosRefusal unit := fun q =>
  match lane with
  | High =>
      if max_high_count q <=? len (high q)
      then (Err (QueueFull lane (len (high q)) (max_high_count q)), q)
      else if max_high_bytes q <? saturating_add usize_max (high_bytes q) byte_len
      then (Err (ByteLimitExceeded lane (high_bytes q) (max_high_bytes q)), q)
      else (Ok tt,
        q <| high := high q ++ [(item, byte_len)] |>
          <| high_bytes := saturating_add usize_max (high_bytes q) byte_len |>
          <| stats := (stats q) <| admitted_high_count := bump (admitted_high_count (stats q)) 1 |>
                              <| admitted_high_bytes := bump (admitted_high_bytes (stats q)) byte_len |> |>)
  | Normal =>
      if max_normal_count q <=? len (normal q)
      then (Err (QueueFull lane (len (normal q)) (max_normal_count q)), q)
      else if max_normal_bytes q <? saturating_add usize_max (normal_bytes q) byte_len
      then (Err (ByteLimitExceeded lane (normal_bytes q) (max_normal_bytes q)), q)
      else (Ok tt,
        q <| normal := normal q ++ [(item, byte_len)] |>
          <| normal_bytes := saturating_add usize_max (normal_bytes q) byte_len |>
          <| stats := (stats q) <| admitted_normal_count := bump (admitted_normal_count (stats q)) 1 |>
                              <| admitted_normal_bytes := bump (admitted_normal_bytes (stats q)) byte_len |> |>)
  | Bulk =>
      let drop := q <| stats := (stats q) <| dropped_bulk_count := bump (dropped_bulk_count (stats q)) 1 |>
                                        <| dropped_bulk_bytes := bump (dropped_bulk_bytes (stats q)) byte_len |> |> in
      if max_bulk_count q <=? len (bulk q)
      then (Err (QueueFull lane (len (bulk q)) (max_bulk_count q)), drop)
      else if max_bulk_bytes q <? saturating_add usize_max (bulk_bytes q) byte_len
      then (Err (ByteLimitExceeded lane (bulk_bytes q) (max_bulk_bytes q)), drop)
      else (Ok tt,
        q <| bulk := bulk q ++ [(item, byte_len)] |>
          <| bulk_bytes := saturating_add usize_max (bulk_bytes q) byte_len |>
          <| stats := (stats q) <| admitted_bulk_count := bump (admitted_bulk_count (stats q)) 1 |>
                              <| admitted_bulk_bytes := bump (admitted_bulk_bytes (stats q)) byte_len |> |>)
  end.

Definition is_empty_lane (l : list (T * Z)) : bool := match l with [] => true | _ => false end.

Definition pop (q : FloodFairQueue) : option (QueueLane * T) * FloodFairQueue :=
  match high q with
  | (item, bytes) :: rest =>
      (Some (High, item), q <| high := rest |> <| high_bytes := saturating_sub (high_bytes q) bytes |>)
  | [] =>
      match (if negb (is_empty_lane (normal q))
                && ((deficit_counter q <? 3) || is_empty_lane (bulk q))
             then normal q else []) with
      | (item, bytes) :: rest =>
          (Some (Normal, item),
           q <| normal := rest |>
             <| normal_bytes := saturating_sub (normal_bytes q) bytes |>
             <| deficit_counter := saturating_add u32_max (deficit_counter q) 1 |>)
      | [] =>
          match bulk q with
          | (item, bytes) :: rest =>
              (Some (Bulk, item),
               q <| bulk := rest |>
                 <| bulk_bytes := saturating_sub (bulk_bytes q) bytes |>
                 <| deficit_counter := 0 |>)
          | [] =>
              match normal q with
              | (item, bytes) :: rest =>
                  (Some (Normal, item),
                   q <| normal := rest |>
                     <| normal_bytes := saturating_sub (normal_bytes q) bytes |>
                     <| deficit_counter := 0 |>)
              | [] => (None, q)
              end
          end
      end
  end.

Definition clear (q : FloodFairQueue) : FloodFairQueue :=
  q <| high := [] |> <| normal := [] |> <| bulk := [] |>
    <| high_bytes := 0 |> <| normal_bytes := 0 |> <| bulk_bytes := 0 |>
    <| deficit_counter := 0 |>.

(** ** Lanes *)

Definition lane_items (q : FloodFairQueue) (l : QueueLane) : list (T * Z) :=
  match l with High => high q | Normal => normal q | Bulk => bulk q end.
Definition lane_count (q : FloodFairQueue) (l : QueueLane) : Z := len (lane_items q l).
Definition lane_bytes (q : FloodFairQueue) (l : QueueLane) : Z :=
  match l with High => high_bytes q | Normal => normal_bytes q | Bulk => bulk_bytes q end.
Definition queue_len (q : FloodFairQueue) : Z := len (high q) + len (normal q) + len (bulk q).
Definition is_empty (q : FloodFairQueue) : bool := queue_len q =? 0.

Definition max_count (q : FloodFairQueue) (l : QueueLane) : Z :=
  match l with High => max_high_count q | Normal => max_normal_count q | Bulk => max_bulk_count q end.
Definition max_bytes (q : FloodFairQueue) (l : QueueLane) : Z :=
  match l with High => max_high_bytes q | Normal => max_normal_bytes q | Bulk => max_bulk_bytes q end.

(** Total declared bytes of a lane. *)
Definition total (l : list (T * Z)) : Z := foldr (fun x n => snd x + n) 0 l.

(** ** Histories *)

Inductive Op := Push (l : QueueLane) (item : T) (byte_len : Z) | Pop | Clear.

Definition step (o : Op) (q : FloodFairQueue) : FloodFairQueue :=
  match o with
  | Push l x n => snd (push l x n q)
  | Pop => snd (pop q)
  | Clear => clear q
  end.
Definition run (os : list Op) (q : FloodFairQueue) : FloodFairQueue :=
  foldl (fun q o => step o q) q os.

(** What an operation accepts into, and takes out of, a lane. *)
Definition accepts (o : Op) (q : FloodFairQueue) (l : QueueLane) : list T :=
  match o with
  | Push l' x n => if bool_decide (l = l') && is_ok (fst (push l' x n q)) then [x] else []
  | _ => []
  end.
Definition serves (o : Op) (q : FloodFairQueue) (l : QueueLane) : list T :=
  match o with
  | Pop => match fst (pop q) with
           | Some (l', x) => if bool_decide (l = l') then [x] else []
           | None => []
           end
  | _ => []
  end.

Fixpoint accepted (os : list Op) (q : FloodFairQueue) (l : QueueLane) : list T :=
  match os with [] => [] | o :: os => accepts o q l ++ accepted os (step o q) l end.
Fixpoint served (os : list Op) (q : FloodFairQueue) (l : QueueLane) : list T :=
  match os with [] => [] | o :: os => serves o q l ++ served os (step o q) l end.

Definition op_ok (o : Op) : Prop :=
  match o with Push _ _ n => fits usize_max n | _ => True end.

(** ** The bounds *)

Record wf (q : FloodFairQueue) : Prop := {
  wf_max : forall l, 0 <= max_count q l /\ 0 <= max_bytes q l < usize_max;
  wf_sizes : forall l x, x ∈ lane_items q l -> 0 <= snd x;
  wf_bytes : forall l, lane_bytes q l = total (lane_items q l);
  wf_count_bound : forall l, lane_count q l <= max_count q l;
  wf_byte_bound : forall l, lane_bytes q l <= max_bytes q l;
  wf_deficit : 0 <= deficit_counter q;
}.

Lemma total_cons x n a : total ((x, n) :: a) = n + total a.
Proof. done. Qed.

Lemma total_app a b : total (a ++ b) = total a + total b.
Proof. induction a as [|x a IH]; simpl; lia. Qed.

Lemma total_nonneg a : (forall x, x ∈ a -> 0 <= snd x) -> 0 <= total a.
Proof.
  induction a as [|x a IH]; intros H; simpl; [lia|].
  pose proof (H x (list_elem_of_here _ _)).
  assert (0 <= total a); [|lia]. apply IH. intros y Hy. by apply H, list_elem_of_further.
Qed.

Lemma len_app a b : len (a ++ b) = len a + len b.
Proof. unfold len. rewrite length_app. lia. Qed.

(** ** Pushing *)

(** What a push does to the lanes, whichever branch it takes. *)
Definition has_room (q : FloodFairQueue) (l : QueueLane) (n : Z) : Prop :=
  lane_count q l < max_count q l /\ lane_bytes q l + n <= max_bytes q l.

Lemma push_refused q l x n e :
  fst (push l x n q) = Err e ->
  forall l', lane_items (snd (push l x n q)) l' = lane_items q l' /\
    lane_bytes (snd (push l x n q)) l' = lane_bytes q l'.
Proof.
  destruct l; unfold push; repeat case_match; intros He l'; cbn in He; simplify_eq;
    by destruct l'.
Qed.

Lemma push_max q l x n l' :
  max_count (snd (push l x n q)) l' = max_count q l' /\
  max_bytes (snd (push l x n q)) l' = max_bytes q l' /\
  deficit_counter (snd (push l x n q)) = deficit_counter q.
Proof. destruct l, l'; unfold push; repeat case_match; split_and!; done. Qed.

Lemma push_Ok q l x n :
  fits usize_max n -> wf q ->
  is_ok (fst (push l x n q)) = true <-> has_room q l n.
Proof.
  intros Hn W. destruct (wf_max _ W l) as [_ [_ Hm]]. unfold has_room, lane_count.
  unfold fits in Hn. destruct l; unfold push; cbn [lane_items lane_bytes max_count max_bytes] in *;
    unfold saturating_add; repeat (case_match; cbn [fst is_ok]); split; try done; lia.
Qed.

(** An accepted push appends to its lane and to no other. *)
Lemma push_accepted q l x n l' :
  fst (push l x n q) = Ok tt ->
  lane_items (snd (push l x n q)) l' =
    lane_items q l' ++ (if bool_decide (l' = l) then [(x, n)] else []) /\
  lane_bytes (snd (push l x n q)) l' =
    if bool_decide (l' = l) then saturating_add usize_max (lane_bytes q l') n else lane_bytes q l'.
Proof.
  destruct l; unfold push; repeat case_match; intros ?; simplify_eq; destruct l';
    cbn; rewrite ?app_nil_r; done.
Qed.

(** ** Popping *)

(** The lane a pop serves. *)
Definition next_lane (q : FloodFairQueue) : option QueueLane :=
  if negb (is_empty_lane (high q)) then Some High
  else if negb (is_empty_lane (normal q))
          && ((deficit_counter q <? 3) || is_empty_lane (bulk q)) then Some Normal
  else if negb (is_empty_lane (bulk q)) then Some Bulk
  else None.

Definition next_deficit (l : QueueLane) (d : Z) : Z :=
  match l with High => d | Normal => saturating_add u32_max d 1 | Bulk => 0 end.

Lemma next_deficit_nonneg l d : 0 <= d -> 0 <= next_deficit l d.
Proof. destruct l; cbn; unfold saturating_add, u32_max; lia. Qed.

(** A pop takes the front of the lane it serves and leaves the others alone; the
    code's last fallback is never taken. *)
Lemma pop_spec q :
  match next_lane q with
  | Some l => exists x n rest,
      lane_items q l = (x, n) :: rest /\ fst (pop q) = Some (l, x) /\
      deficit_counter (snd (pop q)) = next_deficit l (deficit_counter q) /\
      (forall l', max_count (snd (pop q)) l' = max_count q l' /\
                  max_bytes (snd (pop q)) l' = max_bytes q l') /\
      forall l', lane_items (snd (pop q)) l' =
          (if bool_decide (l' = l) then rest else lane_items q l') /\
        lane_bytes (snd (pop q)) l' =
          (if bool_decide (l' = l) then saturating_sub (lane_bytes q l) n else lane_bytes q l')
  | None => pop q = (None, q) /\ forall l, lane_items q l = []
  end.
Proof.
  unfold next_lane, pop.
  destruct (high q) as [|[x n] rest] eqn:Hh; cbn [is_empty_lane negb].
  2:{ exists x, n, rest. split_and!; [done..|by intros []|by intros []]. }
  destruct (normal q) as [|[y m] nrest] eqn:Hn; cbn [is_empty_lane negb andb].
  - destruct (bulk q) as [|[z k] brest] eqn:Hb; cbn [is_empty_lane negb].
    + split; [done|]. by intros [].
    + exists z, k, brest. split_and!; [done..|by intros []|by intros []].
  - destruct (_ || _) eqn:Hd.
    + exists y, m, nrest. split_and!; [done..|by intros []|by intros []].
    + destruct (bulk q) as [|[z k] brest] eqn:Hb; cbn [is_empty_lane negb].
      { by rewrite orb_true_r in Hd. }
      exists z, k, brest. split_and!; [done..|by intros []|by intros []].
Qed.

(** ** The bounds are kept *)

Lemma wf_new mhc mhb mnc mnb mbc mbb :
  0 <= mhc -> 0 <= mhb < usize_max -> 0 <= mnc -> 0 <= mnb < usize_max ->
  0 <= mbc -> 0 <= mbb < usize_max -> wf (new mhc mhb mnc mnb mbc mbb).
Proof.
  intros. split.
  - by intros [].
  - intros [] x Hx; by apply not_elem_of_nil in Hx.
  - by intros [].
  - by intros [].
  - intros []; cbn; lia.
  - done.
Qed.

Lemma push_wf q l x n : fits usize_max n -> wf q -> wf (snd (push l x n q)).
Proof.
  intros Hn W. pose proof (push_Ok q l x n Hn W) as Hroom. pose proof (push_max q l x n) as Hmax.
  destruct (fst (push l x n q)) as [[]|e] eqn:Hr.
  - assert (has_room q l n) as [Hc Hb] by by apply Hroom.
    pose proof (push_accepted q l x n) as Ha.
    unfold lane_count in *. split; [..|by rewrite (proj2 (proj2 (Hmax l))); apply W];
      intros l'; destruct (Ha l' Hr) as [Hi Hby];
      destruct (Hmax l') as (Hmc & Hmb & _); unfold lane_count; rewrite ?Hi, ?Hby, ?Hmc, ?Hmb.
    + apply W.
    + intros y [Hy|Hy]%elem_of_app; [by eapply W|].
      case_bool_decide; [|by apply not_elem_of_nil in Hy].
      apply list_elem_of_singleton in Hy as ->. apply Hn.
    + rewrite total_app, <- (wf_bytes _ W l'). case_bool_decide as He; [subst l'|cbn; lia].
      pose proof (wf_max _ W l). unfold saturating_add. cbn. lia.
    + rewrite len_app. pose proof (wf_count_bound _ W l'). unfold lane_count in *.
      unfold len in *. case_bool_decide; [subst|]; cbn [length]; lia.
    + case_bool_decide; [|apply W]. subst. unfold saturating_add. lia.
  - pose proof (push_refused q l x n e Hr) as Hs.
    split; [..|by rewrite (proj2 (proj2 (Hmax l))); apply W];
      intros l'; destruct (Hs l') as [Hi Hby]; destruct (Hmax l') as (Hmc & Hmb & _);
      unfold lane_count; rewrite ?Hi, ?Hby, ?Hmc, ?Hmb; apply W.
Qed.

Lemma pop_wf q : wf q -> wf (snd (pop q)).
Proof.
  intros W. pose proof (pop_spec q) as Hp. destruct (next_lane q) as [l|].
  2:{ by destruct Hp as [-> _]. }
  destruct Hp as (x & n & rest & Hi & _ & Hd & Hmax & Hl).
  assert (Hrest : forall y, y ∈ rest -> 0 <= snd y).
  { intros y Hy. apply (wf_sizes _ W l). rewrite Hi. by apply list_elem_of_further. }
  pose proof (total_nonneg _ Hrest) as Ht.
  pose proof (wf_bytes _ W l) as Hb. rewrite Hi, total_cons in Hb.
  assert (0 <= n) as Hn0.
  { apply (wf_sizes _ W l (x, n)). rewrite Hi. apply list_elem_of_here. }
  split; [..|by rewrite Hd; apply next_deficit_nonneg, W];
    intros l'; destruct (Hmax l') as [Hmc Hmb]; destruct (Hl l') as [Hi' Hb'];
    unfold lane_count; rewrite ?Hmc, ?Hmb, ?Hi', ?Hb'.
  - apply W.
  - case_bool_decide; [done|apply W].
  - case_bool_decide; [unfold saturating_sub; lia|apply W].
  - case_bool_decide; [subst|apply W]. pose proof (wf_count_bound _ W l) as Hc.
    unfold lane_count, len in *. rewrite Hi in Hc. cbn in Hc. lia.
  - case_bool_decide; [subst|apply W]. pose proof (wf_byte_bound _ W l).
    unfold saturating_sub. lia.
Qed.

Lemma clear_wf q : wf q -> wf (clear q).
Proof.
  intros W. split.
  - intros []; apply (wf_max _ W High) || apply (wf_max _ W Normal) || apply (wf_max _ W Bulk).
  - intros [] x Hx; by apply not_elem_of_nil in Hx.
  - by intros [].
  - intros []; [apply (wf_max _ W High)|apply (wf_max _ W Normal)|apply (wf_max _ W Bulk)].
  - intros []; [apply (wf_max _ W High)|apply (wf_max _ W Normal)|apply (wf_max _ W Bulk)].
  - done.
Qed.

Lemma step_wf o q : op_ok o -> wf q -> wf (step o q).
Proof. destruct o; cbn; [apply push_wf|intros _; apply pop_wf|intros _; apply clear_wf]. Qed.

Lemma queue_run_wf os : forall q, Forall op_ok os -> wf q -> wf (run os q).
Proof.
  induction os as [|o os IH]; intros q Hos W; [done|].
  apply Forall_cons in Hos as [? ?]. apply IH; [done|]. by apply step_wf.
Qed.

(** ** First in, first out *)

Definition names (l : list (T * Z)) : list T := fst <$> l.

Lemma step_fifo o q l :
  o <> Clear ->
  names (lane_items q l) ++ accepts o q l = serves o q l ++ names (lane_items (step o q) l).
Proof.
  intros Hc. destruct o as [l' x n| |]; [| |done]; cbn [accepts serves step].
  - destruct (fst (push l' x n q)) as [[]|e] eqn:Hr; cbn [is_ok].
    + destruct (push_accepted q l' x n l Hr) as [-> _]. unfold names. rewrite fmap_app.
      by case_bool_decide; cbn.
    + destruct (push_refused q l' x n e Hr l) as [-> _].
      rewrite andb_false_r, app_nil_r. done.
  - rewrite app_nil_r. pose proof (pop_spec q) as Hp. destruct (next_lane q) as [l'|].
    + destruct Hp as (x & n & rest & Hi & -> & _ & _ & Hl). destruct (Hl l) as [-> _].
      case_bool_decide; [subst l'; by rewrite Hi|done].
    + by destruct Hp as [-> _].
Qed.

Lemma run_fifo os : forall q l,
  Clear ∉ os ->
  names (lane_items q l) ++ accepted os q l =
  served os q l ++ names (lane_items (run os q) l).
Proof.
  induction os as [|o os IH]; intros q l Hc; cbn [accepted served run foldl].
  - by rewrite app_nil_r.
  - apply not_elem_of_cons in Hc as [Ho Hos].
    rewrite (assoc_L (++)), (step_fifo o q l) by done.
    rewrite <- !(assoc_L (++)). f_equal. by apply IH.
Qed.

(** ** Service order *)

(** What the pops of a history return, in order. *)
Fixpoint outputs (os : list Op) (q : FloodFairQueue) : list (option (QueueLane * T)) :=
  match os with
  | [] => []
  | Pop :: os => fst (pop q) :: outputs os (step Pop q)
  | o :: os => outputs os (step o q)
  end.

Lemma high_served_first os : forall q h t,
  Clear ∉ os -> high q = h ++ t ->
  take (length h) (outputs os q) =
  take (length (outputs os q)) ((fun x => Some (High, x.1)) <$> h).
Proof.
  induction os as [|o os IH]; intros q h t Hc Hh; [by destruct h|].
  apply not_elem_of_cons in Hc as [Ho Hos]. destruct o as [l x n| |]; [| |done].
  - cbn [outputs]. destruct (fst (push l x n q)) as [[]|e] eqn:Hr.
    + apply IH with (t := t ++ if bool_decide (High = l) then [(x, n)] else []); [done|].
      destruct (push_accepted q l x n High Hr) as [Hi _]. cbn [lane_items] in Hi.
      cbn [step]. by rewrite Hi, Hh, (assoc_L (++)).
    + apply IH with (t := t); [done|].
      destruct (push_refused q l x n e Hr High) as [Hi _]. cbn [lane_items] in Hi.
      cbn [step]. by rewrite Hi.
  - destruct h as [|[x n] h]; [done|]. cbn [outputs].
    assert (next_lane q = Some High) as Hn by (unfold next_lane; by rewrite Hh).
    pose proof (pop_spec q) as Hp. rewrite Hn in Hp.
    destruct Hp as (x' & n' & rest & Hi & -> & _ & _ & Hl). cbn [lane_items] in Hi.
    rewrite Hh in Hi. cbn in Hi. simplify_eq. cbn [length take fmap list_fmap]. f_equal.
    apply IH with (t := t); [done|]. by destruct (Hl High) as [Hi _].
Qed.

(** A lane keeps what it holds until it is served. *)
Lemma lane_kept o q l :
  o <> Clear -> serves o q l = [] -> lane_items q l <> [] -> lane_items (step o q) l <> [].
Proof.
  intros Ho Hs Hne He. pose proof (step_fifo o q l Ho) as Hf. rewrite Hs, He in Hf.
  apply app_eq_nil in Hf as [Hf _]. unfold names in Hf. by apply fmap_nil_inv in Hf.
Qed.

Lemma is_empty_lane_false (l : list (T * Z)) : is_empty_lane l = false <-> l <> [].
Proof. by destruct l. Qed.

Lemma push_deficit l x n q : deficit_counter (step (Push l x n) q) = deficit_counter q.
Proof. apply (push_max q l x n High). Qed.

(** While bulk waits, each normal service uses up one of three turns. *)
Lemma bulk_waits os : forall q,
  0 <= deficit_counter q -> Clear ∉ os -> bulk q <> [] -> served os q Bulk = [] ->
  Z.of_nat (length (served os q Normal)) <= Z.max 0 (3 - deficit_counter q).
Proof.
  induction os as [|o os IH]; intros q Hd Hc Hb Hs; [cbn; lia|].
  apply not_elem_of_cons in Hc as [Ho Hos]. cbn [served] in *.
  apply app_eq_nil in Hs as [Hs1 Hs2].
  pose proof (lane_kept o q Bulk ltac:(congruence) Hs1 Hb) as Hb'. cbn [lane_items] in Hb'.
  rewrite length_app. destruct o as [l x n| |]; [| |done].
  - specialize (IH (step (Push l x n) q)). rewrite push_deficit in IH.
    specialize (IH Hd Hos Hb' Hs2). cbn [serves length Nat.add]. lia.
  - pose proof (pop_spec q) as Hp. destruct (next_lane q) as [l|] eqn:Hn.
    2:{ destruct Hp as [_ He]. by destruct (Hb (He Bulk)). }
    destruct Hp as (x & n & rest & Hi & Hout & Hdef & _). cbn [serves] in *. rewrite Hout in *.
    cbn [step] in *. specialize (IH (snd (pop q))). rewrite Hdef in IH.
    specialize (IH (next_deficit_nonneg _ _ Hd) Hos Hb' Hs2).
    destruct l; repeat (case_bool_decide; try done); cbn [next_deficit length Nat.add] in *.
    revert Hn. unfold next_lane. apply is_empty_lane_false in Hb. rewrite Hb, orb_false_r.
    destruct (negb (is_empty_lane (high q))); [done|]. destruct (Z.ltb_spec (deficit_counter q) 3).
    + intros _. unfold saturating_add, u32_max in IH. lia.
    + by rewrite andb_false_r.
Qed.

(** While normal waits, bulk is served at most once. *)
Lemma normal_waits os : forall q,
  Clear ∉ os -> normal q <> [] -> served os q Normal = [] ->
  (length (served os q Bulk) <= if (deficit_counter q <? 3)%Z then 0 else 1)%nat.
Proof.
  induction os as [|o os IH]; intros q Hc Hb Hs; [cbn; lia|].
  apply not_elem_of_cons in Hc as [Ho Hos]. cbn [served] in *.
  apply app_eq_nil in Hs as [Hs1 Hs2].
  pose proof (lane_kept o q Normal ltac:(congruence) Hs1 Hb) as Hb'. cbn [lane_items] in Hb'.
  rewrite length_app. destruct o as [l x n| |]; [| |done].
  - specialize (IH (step (Push l x n) q)). rewrite push_deficit in IH.
    specialize (IH Hos Hb' Hs2). cbn [serves length Nat.add]. lia.
  - pose proof (pop_spec q) as Hp. destruct (next_lane q) as [l|] eqn:Hn.
    2:{ destruct Hp as [_ He]. by destruct (Hb (He Normal)). }
    destruct Hp as (x & n & rest & Hi & Hout & Hdef & _). cbn [serves] in *. rewrite Hout in *.
    cbn [step] in *. specialize (IH (snd (pop q))). rewrite Hdef in IH.
    specialize (IH Hos Hb' Hs2).
    destruct l; repeat (case_bool_decide; try done); cbn [next_deficit length Nat.add] in *.
    revert Hn. unfold next_lane. apply is_empty_lane_false in Hb. rewrite Hb.
    destruct (negb (is_empty_lane (high q))); [done|]. cbn [negb andb].
    destruct (deficit_counter q <? 3); [done|]. intros _. change (0 <? 3) with true in IH. cbv iota in IH. lia.
Qed.

(** ** Properties *)

(** After any history of pushes, pops and clears, every lane of the queue
    holds at most its count and its byte bound, and the byte counter of a lane is
    the exact sum of what the lane holds: the accounting never drifts. *)
Theorem queue_bounds_hold mhc mhb mnc mnb mbc mbb os :
  0 <= mhc -> 0 <= mhb < usize_max -> 0 <= mnc -> 0 <= mnb < usize_max ->
  0 <= mbc -> 0 <= mbb < usize_max -> Forall op_ok os ->
  let q := run os (new mhc mhb mnc mnb mbc mbb) in
  forall l, lane_count q l <= max_count q l /\ lane_bytes q l <= max_bytes q l /\
    lane_bytes q l = total (lane_items q l).
Proof.
  intros. assert (W : wf q) by (apply queue_run_wf; [done|by apply wf_new]).
  split_and!; apply W.
Qed.

(** A push is accepted exactly when its lane has room for one more item and
    its bytes, and then appends to that lane alone; every lane is a FIFO: what a
    history accepted into it is what it served, in order, followed by what it
    still holds. *)
Theorem queue_lanes_are_fifo q os :
  wf q -> Forall op_ok os -> Clear ∉ os ->
  (forall l x n, fits usize_max n ->
     is_ok (fst (push l x n (run os q))) = true <-> has_room (run os q) l n) /\
  forall l, names (lane_items q l) ++ accepted os q l =
    served os q l ++ names (lane_items (run os q) l).
Proof.
  intros W Hos Hc. split; [|by intros l; apply run_fifo].
  intros l x n Hn. apply push_Ok; [done|]. by apply queue_run_wf.
Qed.

(** The high lane is never delayed: whatever is pushed meanwhile, the next
    pops return the items waiting in it, in order, before anything else. *)
Theorem high_lane_is_never_delayed q os :
  Clear ∉ os ->
  take (length (high q)) (outputs os q) =
  take (length (outputs os q)) ((fun x => Some (High, x.1)) <$> high q).
Proof. intros Hc. apply (high_served_first os q (high q) []); [done|by rewrite app_nil_r]. Qed.

(** Neither of the other lanes starves: a pop serves something unless the
    queue is empty; while a bulk item waits, at most three normal items are served
    before a bulk one, and while a normal item waits, at most one bulk item is
    served before a normal one. *)
Theorem queue_lanes_do_not_starve q os :
  wf q -> Clear ∉ os ->
  (fst (pop q) = None <-> is_empty q = true) /\
  (bulk q <> [] -> served os q Bulk = [] -> (length (served os q Normal) <= 3)%nat) /\
  (normal q <> [] -> served os q Normal = [] -> (length (served os q Bulk) <= 1)%nat).
Proof.
  intros W Hc. split_and!.
  - pose proof (pop_spec q) as Hp. unfold is_empty, queue_len. destruct (next_lane q) as [l|].
    + destruct Hp as (x & n & rest & Hi & -> & _). split; [done|].
      intros He%Z.eqb_eq. unfold len in He. destruct l; cbn in Hi; rewrite Hi in He; cbn in He; lia.
    + destruct Hp as [-> Hl]. rewrite (Hl High : high q = []), (Hl Normal : normal q = []),
        (Hl Bulk : bulk q = []). done.
  - intros Hb Hs. pose proof (bulk_waits os q (wf_deficit _ W) Hc Hb Hs).
    pose proof (wf_deficit _ W). lia.
  - intros Hn Hs. pose proof (normal_waits os q Hc Hn Hs).
    destruct (deficit_counter q <? 3); lia.
Qed.

End queue.
Arguments FloodFairQueue T : clear implicits.
Arguments Op T : clear implicits.

(** ** Witnesses *)

Definition demo_ops : list (Op nat) :=
  [Push Bulk 1%nat 10; Push Normal 2%nat 10; Push Normal 3%nat 10; Push Normal 4%nat 10;
   Push Normal 5%nat 10; Push High 6%nat 10; Push High 7%nat 1000; Pop; Pop].

Definition demo_queue : FloodFairQueue nat := run demo_ops (new 4 100 8 100 8 100).

Lemma demo_ops_ok : Forall op_ok demo_ops.
Proof. repeat constructor; vm_compute; congruence. Qed.

Lemma demo_queue_wf : wf demo_queue.
Proof. apply queue_run_wf; [apply demo_ops_ok|]. apply wf_new; vm_compute; try split; congruence. Qed.

Lemma no_clear (os : list (Op nat)) :
  forallb (fun o => match o with Clear => false | _ => true end) os = true -> Clear ∉ os.
Proof.
  intros H Hin. apply list_elem_of_In in Hin.
  by pose proof (proj1 (forallb_forall _ _) H Clear Hin).
Qed.

Lemma queue_bounds_hold_witness :
  lane_bytes demo_queue Normal = 30 /\ lane_bytes demo_queue Normal <= 100.
Proof.
  split; [reflexivity|].
  apply (queue_bounds_hold 4 100 8 100 8 100 demo_ops);
    [vm_compute; try split; congruence..|exact demo_ops_ok].
Defined.

Lemma queue_lanes_are_fifo_witness :
  names (lane_items demo_queue Normal) ++ accepted [Push Normal 8%nat 5; Pop; Pop] demo_queue Normal
  = served [Push Normal 8%nat 5; Pop; Pop] demo_queue Normal
      ++ names (lane_items (run [Push Normal 8%nat 5; Pop; Pop] demo_queue) Normal) /\
  served [Push Normal 8%nat 5; Pop; Pop] demo_queue Normal = [3; 4]%nat.
Proof.
  split; [|reflexivity].
  apply (queue_lanes_are_fifo demo_queue [Push Normal 8%nat 5; Pop; Pop] demo_queue_wf).
  - repeat constructor; vm_compute; congruence.
  - by apply no_clear.
Defined.

Lemma high_lane_is_never_delayed_witness :
  take 1 (outputs [Push Bulk 9%nat 1; Pop; Pop] (snd (push High 8%nat 1 demo_queue))) =
    [Some (High, 8%nat)].
Proof.
  apply (high_lane_is_never_delayed (snd (push High 8%nat 1 demo_queue))
           [Push Bulk 9%nat 1; Pop; Pop]).
  by apply no_clear.
Defined.

Lemma queue_lanes_do_not_starve_witness :
  (length (served [Pop; Pop] demo_queue Normal) <= 3)%nat /\
  served [Pop; Pop; Pop] demo_queue Bulk = [1]%nat.
Proof.
  split; [|reflexivity].
  apply (queue_lanes_do_not_starve demo_queue [Pop; Pop] demo_queue_wf);
    [by apply no_clear|vm_compute; congruence|reflexivity].
Defined.

End FloodFair.
