(* ===== verification/DosBounds.v ===== *)
(** * Rate limits, admission accounting and resource validators

    The remaining components of [fr-core/src/dos.rs]: the token buckets and their
    registry, the admission accountant, the idle-session watchdog, the codec-probe
    tracker and the two stateless validators. *)

From S2P Require Import Prelude CoreTime Limits Dos.

(** ** Token buckets *)

Module Bucket.

Record TokenBucket := mkBucket {
  rate_per_sec : Z;
  capacity : Z;
  scaled_tokens : Z;
  last_leak : HostInstant;
}.

#[export] Instance eta_bucket : Eta TokenBucket := fun r =>
  mkBucket (rate_per_sec r) (capacity r) (scaled_tokens r) (last_leak r).

Definition SCALE : Z := 1000000.

Definition new (rate cap : Z) (start : HostInstant) : TokenBucket :=
  {| rate_per_sec := rate; capacity := cap;
     scaled_tokens := saturating_mul u64_max cap SCALE; last_leak := start |}.

(** [u32::div_ceil]. *)
Definition div_ceil (a b : Z) : Z := if a mod b =? 0 then a / b else a / b + 1.

Definition new_per_min (rate_per_min cap : Z) (start : HostInstant) : TokenBucket :=
  new (Z.max (div_ceil rate_per_min 60) 1) cap start.

Definition replenish (now : HostInstant) (b : TokenBucket) : TokenBucket :=
  match HostTime.duration_since now (last_leak b) with
  | Some elapsed =>
      let added := saturating_mul u64_max elapsed (rate_per_sec b) in
      let cap := saturating_mul u64_max (capacity b) SCALE in
      b <| scaled_tokens := Z.min (saturating_add u64_max (scaled_tokens b) added) cap |>
        <| last_leak := now |>
  | None => b
  end.

Definition try_consume (now : HostInstant) (tokens : Z) (field : LimitField)
  : M TokenBucket DosRefusal unit := fun b =>
  let b := replenish now b in
  let needed := saturating_mul u64_max tokens SCALE in
  if needed <=? scaled_tokens b
  then (Ok tt, b <| scaled_tokens := scaled_tokens b - needed |>)
  else
    let missing := needed - scaled_tokens b in
    let retry_micros := if 0 <? rate_per_sec b then missing / rate_per_sec b else 1000000 in
    (Err (RateLimitExceeded field (Z.max retry_micros 1)), b).

(** A history of requests [(now, tokens)]; the tokens it grants. *)
Fixpoint granted (f : LimitField) (rs : list (HostInstant * Z)) (b : TokenBucket) : Z :=
  match rs with
  | [] => 0
  | (now, n) :: rs =>
      (if is_ok (fst (try_consume now n f b)) then n else 0)
      + granted f rs (snd (try_consume now n f b))
  end.

Record wf (b : TokenBucket) : Prop := {
  wf_rate : fits u32_max (rate_per_sec b);
  wf_capacity : fits u32_max (capacity b);
  wf_tokens : 0 <= scaled_tokens b <= capacity b * SCALE;
}.

Definition request_ok (r : HostInstant * Z) : Prop := fits u64_max (fst r) /\ fits u32_max (snd r).

Lemma bucket_new_wf rate cap start : fits u32_max rate -> fits u32_max cap -> wf (new rate cap start).
Proof.
  intros ? Hc. split; [done..|]. cbn. unfold fits, saturating_mul, u64_max, u32_max, SCALE in *. lia.
Qed.

Lemma replenish_wf now b : wf b -> wf (replenish now b).
Proof.
  intros [Hr Hc Ht]. unfold replenish. destruct (HostTime.duration_since _ _) as [e|] eqn:He; [|done].
  apply checked_sub_Some in He as [-> ?]. unfold fits in *. split; [done..|]. cbn.
  unfold saturating_add, saturating_mul, SCALE, u64_max, u32_max in *. nia.
Qed.

(** Tokens only come from elapsed time. *)
Lemma replenish_gain now b :
  wf b -> scaled_tokens (replenish now b) <=
    scaled_tokens b + rate_per_sec b * (last_leak (replenish now b) - last_leak b) /\
  last_leak b <= last_leak (replenish now b) <= Z.max (last_leak b) now /\
  rate_per_sec (replenish now b) = rate_per_sec b /\ capacity (replenish now b) = capacity b.
Proof.
  intros [Hr Hc Ht]. unfold replenish. destruct (HostTime.duration_since _ _) as [e|] eqn:He.
  - apply checked_sub_Some in He as [-> ?]. cbn. unfold saturating_add, saturating_mul.
    split_and!; [|lia..|done|done]. nia.
  - split_and!; [nia|lia..|done|done].
Qed.

Lemma try_consume_spec now n f b :
  wf b -> fits u32_max n ->
  wf (snd (try_consume now n f b)) /\
  rate_per_sec (snd (try_consume now n f b)) = rate_per_sec b /\
  capacity (snd (try_consume now n f b)) = capacity b /\
  last_leak b <= last_leak (snd (try_consume now n f b)) <= Z.max (last_leak b) now /\
  scaled_tokens (snd (try_consume now n f b))
    + (if is_ok (fst (try_consume now n f b)) then n else 0) * SCALE
    <= scaled_tokens b
       + rate_per_sec b * (last_leak (snd (try_consume now n f b)) - last_leak b).
Proof.
  intros W Hn. pose proof (replenish_wf now b W) as W'.
  destruct (replenish_gain now b W) as (Hg & Hl & Hr & Hc). unfold try_consume.
  set (b' := replenish now b) in *. clearbody b'.
  assert (saturating_mul u64_max n SCALE = n * SCALE) as ->.
  { unfold saturating_mul, SCALE, fits, u64_max, u32_max in *. lia. }
  destruct (Z.leb_spec (n * SCALE) (scaled_tokens b')); cbn [fst snd is_ok].
  - split_and!; [|done..|apply Hl|apply Hl|cbn; lia].
    destruct W' as [? ? Ht]. split; [done..|]. cbn. unfold fits, SCALE in *. lia.
  - split_and!; [done..|apply Hl|apply Hl|lia].
Qed.

Lemma granted_bound f rs : forall b T,
  wf b -> Forall request_ok rs -> (forall r, r ∈ rs -> fst r <= T) -> last_leak b <= T ->
  granted f rs b * SCALE <= scaled_tokens b + rate_per_sec b * (T - last_leak b).
Proof.
  induction rs as [|[now n] rs IH]; intros b T W Hrs HT Hb; cbn [granted].
  - destruct W. unfold fits in *. nia.
  - apply Forall_cons in Hrs as [[_ Hn] Hrs]. cbn in Hn.
    destruct (try_consume_spec now n f b W Hn) as (W' & Hr & _ & Hl & Hs).
    pose proof (HT (now, n) (list_elem_of_here _ _)) as Hnow. cbn in Hnow.
    specialize (IH (snd (try_consume now n f b)) T W' Hrs).
    rewrite Hr in IH. specialize (IH ltac:(intros; apply HT; by apply list_elem_of_further) ltac:(lia)).
    nia.
Qed.

Lemma granted_bound_new f rate cap start rs T :
  fits u32_max rate -> fits u32_max cap -> Forall request_ok rs ->
  (forall r, r ∈ rs -> fst r <= T) -> start <= T ->
  granted f rs (new rate cap start) * SCALE <= cap * SCALE + rate * (T - start).
Proof.
  intros Hr Hc Hrs HT Hs. pose proof (bucket_new_wf rate cap start Hr Hc) as W.
  pose proof (granted_bound f rs _ T W Hrs HT Hs) as H. cbn in H.
  unfold saturating_mul in H. lia.
Qed.

(** ** Properties *)

(** A token bucket enforces its rate over every window: after any earlier
    history, and however the clock readings of the requests jump back and forth,
    what is granted from then up to time [T] is at most the burst capacity plus the
    rate times the time elapsed since the bucket last leaked. *)
Theorem bucket_rate_bound f b rs T :
  wf b -> Forall request_ok rs -> (forall r, r ∈ rs -> fst r <= T) -> last_leak b <= T ->
  granted f rs b * SCALE <= capacity b * SCALE + rate_per_sec b * (T - last_leak b).
Proof.
  intros W Hrs HT Hs. pose proof (granted_bound f rs b T W Hrs HT Hs).
  destruct W as [_ _ ?]. lia.
Qed.

(** The hint of a refusal is honest up to the microsecond: a request that
    fits the bucket and was refused succeeds when it is repeated one microsecond
    after the announced delay. *)
Theorem retry_hint_suffices now n f f' b r later :
  wf b -> fits u32_max n -> n <= capacity b -> 0 < rate_per_sec b ->
  last_leak b <= now -> fits u64_max later ->
  fst (try_consume now n f b) = Err (RateLimitExceeded f' r) -> now + r + 1 <= later ->
  fst (try_consume later n f (snd (try_consume now n f b))) = Ok tt.
Proof.
  intros W Hn Hcap Hrate Hnow Hfit. pose proof (replenish_wf now b W) as W'.
  destruct (replenish_gain now b W) as (_ & _ & Hr & Hc). unfold try_consume at 1 3.
  assert (last_leak (replenish now b) = now) as Hll.
  { unfold replenish, HostTime.duration_since, checked_sub.
    by rewrite (proj2 (Z.leb_le _ _)) by done. }
  set (b' := replenish now b) in *. clearbody b'.
  assert (saturating_mul u64_max n SCALE = n * SCALE) as Hsat.
  { unfold saturating_mul, SCALE, fits, u64_max, u32_max in *. lia. }
  rewrite Hsat. destruct (Z.leb_spec (n * SCALE) (scaled_tokens b')); cbn [fst snd]; [done|].
  intros [= <- <-] Hlater. unfold try_consume. rewrite Hsat.
  rewrite (proj2 (Z.leb_le _ _)); [done|].
  unfold replenish, HostTime.duration_since, checked_sub. rewrite Hll.
  rewrite Hr, (proj2 (Z.ltb_lt 0 _)) in Hlater by done.
  set (m := n * SCALE - scaled_tokens b') in *.
  rewrite (proj2 (Z.leb_le now later)) by lia. cbn [scaled_tokens upd setter].
  pose proof (Z.div_mod m (rate_per_sec b) ltac:(lia)).
  pose proof (Z.mod_pos_bound m (rate_per_sec b) Hrate).
  assert (m <= (later - now) * rate_per_sec b') by (rewrite Hr; nia).
  destruct W' as [Hr' Hc' Ht']. unfold fits, saturating_add, saturating_mul, u64_max, u32_max, SCALE in *.
  rewrite Hc in *. lia.
Qed.

(** The announced delay itself may fall short by a fraction of a microsecond. *)
Example retry_hint_can_be_short :
  let b := mkBucket 3 2 0 0 in
  fst (try_consume 0 1 ControlRequestsPerSec b)
    = Err (RateLimitExceeded ControlRequestsPerSec 333333) /\
  is_ok (fst (try_consume 333333 1 ControlRequestsPerSec
                (snd (try_consume 0 1 ControlRequestsPerSec b)))) = false.
Proof. by vm_compute. Qed.

(** Five probes at once, then one a second for a minute. *)
Definition probe_minute : list (HostInstant * Z) :=
  replicate 5 (0, 1) ++ ((fun k => (Z.of_nat k * 1000000, 1)) <$> seq 1 60).

(** The per-minute buckets do not enforce their per-minute limit: with the
    default limit of 30 codec probes per minute and its burst of 5, 65 probes are
    granted within sixty seconds, because the rate is rounded up to one per
    second. *)
Theorem per_minute_limit_is_exceeded :
  granted CodecProbesPerMin probe_minute
    (new_per_min (Limits.max_codec_probes_per_min Limits.ABSOLUTE)
       (Z.min (Limits.max_codec_probes_per_min Limits.ABSOLUTE) 5) 0) = 65 /\
  (forall r, r ∈ probe_minute -> 0 <= fst r <= 60 * 1000000) /\
  Limits.max_codec_probes_per_min Limits.ABSOLUTE = 30.
Proof.
  split; [by vm_compute|]. split; [|done]. intros r Hr. unfold probe_minute in Hr.
  apply elem_of_app in Hr as [Hr|Hr].
  - apply elem_of_replicate in Hr as [-> _]. cbn. lia.
  - apply list_elem_of_fmap in Hr as (k & -> & Hk). apply elem_of_seq in Hk. cbn. lia.
Qed.

Lemma bucket_rate_bound_witness :
  granted ControlRequestsPerSec [(0, 1); (500000, 2); (100, 1)] (new 2 3 0) * SCALE
    <= 3 * SCALE + 2 * (500000 - 0).
Proof.
  apply (bucket_rate_bound _ (new 2 3 0)).
  - apply bucket_new_wf; split; vm_compute; congruence.
  - repeat constructor; vm_compute; congruence.
  - intros r Hr. repeat (apply elem_of_cons in Hr as [->|Hr]; [cbn; lia|]).
    by apply not_elem_of_nil in Hr.
  - cbn; lia.
Defined.

Lemma retry_hint_suffices_witness :
  fst (try_consume 333334 1 ControlRequestsPerSec
         (snd (try_consume 0 1 ControlRequestsPerSec (mkBucket 3 2 0 0)))) = Ok tt.
Proof.
  apply (retry_hint_suffices 0 1 ControlRequestsPerSec ControlRequestsPerSec _ 333333 333334).
  - repeat split; vm_compute; congruence.
  - split; vm_compute; congruence.
  - cbn; lia.
  - cbn; lia.
  - cbn; lia.
  - split; vm_compute; congruence.
  - reflexivity.
  - lia.
Defined.

End Bucket.

(** ** The registry *)

Module Registry.
Import Bucket.

Record RateLimiterRegistry := mkRegistry {
  preadmission : TokenBucket;
  codec_probes : TokenBucket;
  control_requests : TokenBucket;
  cursor_uploads : TokenBucket;
  recovery_requests : TokenBucket;
  diagnostic_exports : TokenBucket;
  decoder_reconfigs : TokenBucket;
  worker_restarts : TokenBucket;
}.

#[export] Instance eta_registry : Eta RateLimiterRegistry := fun r =>
  mkRegistry (preadmission r) (codec_probes r) (control_requests r) (cursor_uploads r)
    (recovery_requests r) (diagnostic_exports r) (decoder_reconfigs r) (worker_restarts r).

Definition from_limits (p : Limits.ProtocolLimits) (start : HostInstant) : RateLimiterRegistry := {|
  preadmission := Bucket.new (Limits.max_preadmission_rate_per_sec p)
                    (Limits.max_preadmission_rate_per_sec p) start;
  codec_probes := new_per_min (Limits.max_codec_probes_per_min p)
                    (Z.min (Limits.max_codec_probes_per_min p) 5) start;
  control_requests := Bucket.new (Limits.max_control_requests_per_sec p)
                        (Limits.max_control_requests_per_sec p) start;
  cursor_uploads := Bucket.new (Limits.max_cursor_uploads_per_sec p)
                      (Limits.max_cursor_uploads_per_sec p) start;
  recovery_requests := Bucket.new (Limits.max_recovery_requests_per_sec p)
                         (Limits.max_recovery_requests_per_sec p) start;
  diagnostic_exports := new_per_min (Limits.max_diagnostic_exports_per_min p)
                          (Z.min (Limits.max_diagnostic_exports_per_min p) 3) start;
  decoder_reconfigs := new_per_min (Limits.max_decoder_reconfigurations_per_min p)
                         (Z.min (Limits.max_decoder_reconfigurations_per_min p) 5) start;
  worker_restarts := new_per_min (Limits.max_worker_restarts_per_min p)
                       (Z.min (Limits.max_worker_restarts_per_min p) 3) start |}.

Abbreviation RegistryM := (M RateLimiterRegistry DosRefusal).

(** [self.bucket.try_consume(now, 1, field)]: only that bucket changes. *)
Definition on_bucket (proj : RateLimiterRegistry -> TokenBucket) {S : Setter proj}
  (now : HostInstant) (field : LimitField) : RegistryM unit := fun r =>
  let (res, b) := try_consume now 1 field (proj r) in (res, r <| proj := b |>).

Definition check_preadmission (now : HostInstant) : RegistryM unit :=
  on_bucket preadmission now PreadmissionRatePerSec.
Definition check_codec_probe (now : HostInstant) : RegistryM unit :=
  on_bucket codec_probes now CodecProbesPerMin.
Definition check_control_request (now : HostInstant) : RegistryM unit :=
  on_bucket control_requests now ControlRequestsPerSec.
Definition check_cursor_upload (now : HostInstant) : RegistryM unit :=
  on_bucket cursor_uploads now CursorUploadsPerSec.
Definition check_recovery_request (now : HostInstant) : RegistryM unit :=
  on_bucket recovery_requests now RecoveryRequestsPerSec.
Definition check_diagnostic_export (now : HostInstant) : RegistryM unit :=
  on_bucket diagnostic_exports now DiagnosticExportsPerMin.
Definition check_decoder_reconfig (now : HostInstant) : RegistryM unit :=
  on_bucket decoder_reconfigs now DecoderReconfigurationsPerMin.
Definition check_worker_restart (now : HostInstant) : RegistryM unit :=
  on_bucket worker_restarts now WorkerRestartsPerMin.

Inductive RateOp :=
| Preadmission | CodecProbe | ControlRequest | CursorUpload
| RecoveryRequest | DiagnosticExport | DecoderReconfig | WorkerRestart.

#[export] Instance RateOp_eq_dec : EqDecision RateOp.
Proof. solve_decision. Defined.

Definition check (op : RateOp) (now : HostInstant) : RegistryM unit :=
  match op with
  | Preadmission => check_preadmission now
  | CodecProbe => check_codec_probe now
  | ControlRequest => check_control_request now
  | CursorUpload => check_cursor_upload now
  | RecoveryRequest => check_recovery_request now
  | DiagnosticExport => check_diagnostic_export now
  | DecoderReconfig => check_decoder_reconfig now
  | WorkerRestart => check_worker_restart now
  end.

Definition bucket_of (op : RateOp) (r : RateLimiterRegistry) : TokenBucket :=
  match op with
  | Preadmission => preadmission r
  | CodecProbe => codec_probes r
  | ControlRequest => control_requests r
  | CursorUpload => cursor_uploads r
  | RecoveryRequest => recovery_requests r
  | DiagnosticExport => diagnostic_exports r
  | DecoderReconfig => decoder_reconfigs r
  | WorkerRestart => worker_restarts r
  end.

Definition field_of (op : RateOp) : LimitField :=
  match op with
  | Preadmission => PreadmissionRatePerSec
  | CodecProbe => CodecProbesPerMin
  | ControlRequest => ControlRequestsPerSec
  | CursorUpload => CursorUploadsPerSec
  | RecoveryRequest => RecoveryRequestsPerSec
  | DiagnosticExport => DiagnosticExportsPerMin
  | DecoderReconfig => DecoderReconfigurationsPerMin
  | WorkerRestart => WorkerRestartsPerMin
  end.

(** How often a history of checks grants [op]. *)
Fixpoint grants (op : RateOp) (rs : list (RateOp * HostInstant)) (r : RateLimiterRegistry) : Z :=
  match rs with
  | [] => 0
  | (o, now) :: rs =>
      (if bool_decide (o = op) && is_ok (fst (check o now r)) then 1 else 0)
      + grants op rs (snd (check o now r))
  end.

Lemma check_bucket op o now r :
  bucket_of op (snd (check o now r)) =
    (if bool_decide (o = op) then snd (try_consume now 1 (field_of op) (bucket_of op r))
     else bucket_of op r) /\
  fst (check o now r) = fst (try_consume now 1 (field_of o) (bucket_of o r)).
Proof.
  destruct o; cbn [check bucket_of field_of];
    unfold check_preadmission, check_codec_probe, check_control_request, check_cursor_upload,
      check_recovery_request, check_diagnostic_export, check_decoder_reconfig,
      check_worker_restart, on_bucket;
    destruct (try_consume _ _ _ _) eqn:He; (split; [|done]); destruct op; cbn; try done;
    cbn in He; by rewrite He.
Qed.

(** The operations do not share tokens: each sees its own requests only. *)
Lemma grants_own op rs : forall r,
  grants op rs r =
  granted (field_of op) ((fun x => (snd x, 1)) <$> filter (fun x => fst x = op) rs) (bucket_of op r).
Proof.
  induction rs as [|[o now] rs IH]; intros r; [done|].
  cbn [grants]. rewrite IH. destruct (check_bucket op o now r) as [-> ->].
  rewrite filter_cons. cbn [fst]. case_bool_decide as Ho.
  - subst o. rewrite decide_True by done. cbn [fmap list_fmap granted snd andb]. done.
  - rewrite decide_False by done. cbn [andb]. lia.
Qed.

(** Every per-minute limit up to sixty is rounded up to one per second. *)
Lemma per_minute_rate n : 1 <= n <= 60 -> Z.max (div_ceil n 60) 1 = 1.
Proof.
  intros Hn. unfold div_ceil. destruct (decide (n = 60)) as [->|]; [done|].
  rewrite Z.mod_small, Z.div_small by lia. by rewrite (proj2 (Z.eqb_neq n 0)) by lia.
Qed.

(** The bucket a limit set gives an operation. *)
Lemma from_limits_bucket p start op :
  Limits.valid p ->
  exists rate cap, bucket_of op (from_limits p start) = Bucket.new rate cap start /\
    cap <= Limits.lim p (field_of op) /\ fits u32_max rate /\ fits u32_max cap /\
    rate = match op with
           | Preadmission | ControlRequest | CursorUpload | RecoveryRequest =>
               Limits.lim p (field_of op)
           | _ => 1
           end.
Proof.
  intros Hp. pose proof (Limits.valid_nonneg p (field_of op) Hp) as Hn.
  pose proof (Hp (field_of op)) as [_ Hc].
  destruct op; cbn [bucket_of from_limits field_of] in *; unfold new_per_min;
    eexists _, _; (split; [reflexivity|]); cbn in *;
    try rewrite per_minute_rate by lia; unfold fits, u32_max; repeat split; lia.
Qed.

(** Each operation of the registry is limited on its own, whatever the other
    operations do: the per-second operations to their limit as burst and rate, the
    per-minute ones to their burst plus one per second. *)
Theorem registry_limits_each_operation p start rs T op :
  Limits.valid p -> Forall (fun x => fits u64_max (snd x) /\ snd x <= T) rs -> start <= T ->
  let b := bucket_of op (from_limits p start) in
  grants op rs (from_limits p start) * SCALE
    <= capacity b * SCALE + rate_per_sec b * (T - start) /\
  capacity b <= Limits.lim p (field_of op) /\
  rate_per_sec b =
    match op with
    | Preadmission | ControlRequest | CursorUpload | RecoveryRequest => Limits.lim p (field_of op)
    | _ => 1
    end.
Proof.
  intros Hp Hrs Hs b.
  destruct (from_limits_bucket p start op Hp) as (rate & cap & Hb & Hcap & Hr & Hc & Hrate).
  unfold b. rewrite grants_own, Hb. cbn [capacity rate_per_sec Bucket.new].
  split_and!; [|done|done].
  apply Bucket.granted_bound_new; [done..| | |done].
  - apply Forall_fmap, Forall_forall. intros x [_ Hx]%list_elem_of_filter.
    rewrite Forall_forall in Hrs. split; [by apply Hrs|]. by vm_compute.
  - intros r (x & -> & Hx)%list_elem_of_fmap. apply list_elem_of_filter in Hx as [_ Hx].
    rewrite Forall_forall in Hrs. by apply Hrs.
Qed.

Lemma registry_limits_each_operation_witness :
  grants CodecProbe ((fun k => (CodecProbe, k)) <$> [0; 1; 2; 3; 4; 5; 6])
    (from_limits Limits.ABSOLUTE 0) * SCALE <= 5 * SCALE + 1 * (6 - 0).
Proof.
  apply (registry_limits_each_operation Limits.ABSOLUTE 0
    ((fun k => (CodecProbe, k)) <$> [0; 1; 2; 3; 4; 5; 6]) 6 CodecProbe Limits.absolute_valid).
  - repeat constructor; vm_compute; congruence.
  - lia.
Defined.

End Registry.

(** ** Admission accounting *)

Module Accountant.

Record AdmissionAccountant := mkAccountant {
  active_encoder_sessions : Z;
  active_gpu_surfaces : Z;
  active_viewers : Z;
  active_half_attached : Z;
  active_pending_approvals : Z;
  allocated_bandwidth_bps : Z;
  viewer_memory : list (RemoteSessionId * Z);
}.

#[export] Instance eta_accountant : Eta AdmissionAccountant := fun r =>
  mkAccountant (active_encoder_sessions r) (active_gpu_surfaces r) (active_viewers r)
    (active_half_attached r) (active_pending_approvals r) (allocated_bandwidth_bps r)
    (viewer_memory r).

Definition new : AdmissionAccountant := mkAccountant 0 0 0 0 0 0 [].

Abbreviation AccountM := (M AdmissionAccountant DosRefusal).

Section accountant.
Context (limits : Limits.ProtocolLimits).

(** [+= 1] on a [u32] in a release build. *)
Definition succ32 (n : Z) : Z := wrapping_add u32_max n 1.

Definition acquire_encoder_session : AccountM unit := fun a =>
  if Limits.max_encoder_sessions limits <=? active_encoder_sessions a
  then (Err (CapacityExceeded EncoderSessions (active_encoder_sessions a)
               (Limits.max_encoder_sessions limits)), a)
  else (Ok tt, a <| active_encoder_sessions := succ32 (active_encoder_sessions a) |>).
Definition release_encoder_session (a : AdmissionAccountant) : AdmissionAccountant :=
  a <| active_encoder_sessions := saturating_sub (active_encoder_sessions a) 1 |>.

Definition acquire_gpu_surfaces (count : Z) : AccountM unit := fun a =>
  let proposed := saturating_add u32_max (active_gpu_surfaces a) count in
  if Limits.max_gpu_surfaces limits <? proposed
  then (Err (CapacityExceeded GpuSurfaces (active_gpu_surfaces a)
               (Limits.max_gpu_surfaces limits)), a)
  else (Ok tt, a <| active_gpu_surfaces := proposed |>).
Definition release_gpu_surfaces (count : Z) (a : AdmissionAccountant) : AdmissionAccountant :=
  a <| active_gpu_surfaces := saturating_sub (active_gpu_surfaces a) count |>.

Definition acquire_viewer (session_id : RemoteSessionId) : AccountM unit := fun a =>
  if Limits.max_viewers limits <=? active_viewers a
  then (Err (CapacityExceeded Viewers (active_viewers a) (Limits.max_viewers limits)), a)
  else (Ok tt, a <| active_viewers := succ32 (active_viewers a) |>
                 <| viewer_memory := viewer_memory a ++ [(session_id, 0)] |>).
Definition release_viewer (session_id : RemoteSessionId) (a : AdmissionAccountant)
  : AdmissionAccountant :=
  match position (fun x => fst x =? session_id) (viewer_memory a) with
  | Some pos => a <| viewer_memory := swap_remove pos (viewer_memory a) |>
                  <| active_viewers := saturating_sub (active_viewers a) 1 |>
  | None => a
  end.

Definition acquire_half_attached : AccountM unit := fun a =>
  if Limits.max_half_attached_channels limits <=? active_half_attached a
  then (Err (CapacityExceeded HalfAttachedChannels (active_half_attached a)
               (Limits.max_half_attached_channels limits)), a)
  else (Ok tt, a <| active_half_attached := succ32 (active_half_attached a) |>).
Definition release_half_attached (a : AdmissionAccountant) : AdmissionAccountant :=
  a <| active_half_attached := saturating_sub (active_half_attached a) 1 |>.

Definition acquire_pending_approval : AccountM unit := fun a =>
  if Limits.max_pending_approvals limits <=? active_pending_approvals a
  then (Err (CapacityExceeded PendingApprovals (active_pending_approvals a)
               (Limits.max_pending_approvals limits)), a)
  else (Ok tt, a <| active_pending_approvals := succ32 (active_pending_approvals a) |>).
Definition release_pending_approval (a : AdmissionAccountant) : AdmissionAccountant :=
  a <| active_pending_approvals := saturating_sub (active_pending_approvals a) 1 |>.

(** [iter_mut().find(..)] followed by an assignment through the reference. *)
Definition set_memory (pos : nat) (session_id bytes : Z) (a : AdmissionAccountant)
  : AdmissionAccountant :=
  a <| viewer_memory := <[pos := (session_id, bytes)]> (viewer_memory a) |>.

Definition allocate_viewer_memory (session_id bytes : Z) : AccountM unit := fun a =>
  match position (fun x => fst x =? session_id) (viewer_memory a) with
  | Some pos =>
      let current := from_option snd 0 (viewer_memory a !! pos) in
      let proposed := saturating_add u64_max current bytes in
      if Limits.per_viewer_compressed_bytes limits <? proposed
      then (Err (CapacityExceeded PerViewerCompressedBytes current
                   (Limits.per_viewer_compressed_bytes limits)), a)
      else (Ok tt, set_memory pos session_id proposed a)
  | None => (Err (CapacityExceeded Viewers 0 (Limits.max_viewers limits)), a)
  end.
Definition release_viewer_memory (session_id bytes : Z) (a : AdmissionAccountant)
  : AdmissionAccountant :=
  match position (fun x => fst x =? session_id) (viewer_memory a) with
  | Some pos =>
      set_memory pos session_id
        (saturating_sub (from_option snd 0 (viewer_memory a !! pos)) bytes) a
  | None => a
  end.

Definition allocate_bandwidth (bps : Z) : AccountM unit := fun a =>
  let proposed := saturating_add u64_max (allocated_bandwidth_bps a) bps in
  if Limits.max_bandwidth_bps limits <? proposed
  then (Err (CapacityExceeded BandwidthBps (allocated_bandwidth_bps a)
               (Limits.max_bandwidth_bps limits)), a)
  else (Ok tt, a <| allocated_bandwidth_bps := proposed |>).
Definition release_bandwidth (bps : Z) (a : AdmissionAccountant) : AdmissionAccountant :=
  a <| allocated_bandwidth_bps := saturating_sub (allocated_bandwidth_bps a) bps |>.

(** ** Histories *)

Inductive Op :=
| AcquireEncoder | ReleaseEncoder
| AcquireGpu (n : Z) | ReleaseGpu (n : Z)
| AcquireViewer (s : RemoteSessionId) | ReleaseViewer (s : RemoteSessionId)
| AcquireHalf | ReleaseHalf
| AcquireApproval | ReleaseApproval
| AllocMemory (s : RemoteSessionId) (n : Z) | ReleaseMemory (s : RemoteSessionId) (n : Z)
| AllocBandwidth (n : Z) | ReleaseBandwidth (n : Z).

Definition exec (o : Op) (a : AdmissionAccountant) : Result DosRefusal unit * AdmissionAccountant :=
  match o with
  | AcquireEncoder => acquire_encoder_session a
  | ReleaseEncoder => (Ok tt, release_encoder_session a)
  | AcquireGpu n => acquire_gpu_surfaces n a
  | ReleaseGpu n => (Ok tt, release_gpu_surfaces n a)
  | AcquireViewer s => acquire_viewer s a
  | ReleaseViewer s => (Ok tt, release_viewer s a)
  | AcquireHalf => acquire_half_attached a
  | ReleaseHalf => (Ok tt, release_half_attached a)
  | AcquireApproval => acquire_pending_approval a
  | ReleaseApproval => (Ok tt, release_pending_approval a)
  | AllocMemory s n => allocate_viewer_memory s n a
  | ReleaseMemory s n => (Ok tt, release_viewer_memory s n a)
  | AllocBandwidth n => allocate_bandwidth n a
  | ReleaseBandwidth n => (Ok tt, release_bandwidth n a)
  end.

Definition run (os : list Op) (a : AdmissionAccountant) : AdmissionAccountant :=
  foldl (fun a o => snd (exec o a)) a os.

Definition op_ok (o : Op) : Prop :=
  match o with
  | AcquireGpu n | ReleaseGpu n => fits u32_max n
  | AllocMemory _ n | ReleaseMemory _ n | AllocBandwidth n | ReleaseBandwidth n => fits u64_max n
  | _ => True
  end.

Record within (a : AdmissionAccountant) : Prop := {
  in_encoders : fits (Limits.max_encoder_sessions limits) (active_encoder_sessions a);
  in_gpu : fits (Limits.max_gpu_surfaces limits) (active_gpu_surfaces a);
  in_viewers : fits (Limits.max_viewers limits) (active_viewers a);
  in_half : fits (Limits.max_half_attached_channels limits) (active_half_attached a);
  in_approvals : fits (Limits.max_pending_approvals limits) (active_pending_approvals a);
  in_bandwidth : fits (Limits.max_bandwidth_bps limits) (allocated_bandwidth_bps a);
  in_seats : active_viewers a = Z.of_nat (length (viewer_memory a));
  in_memory : forall x, x ∈ viewer_memory a ->
    fits (Limits.per_viewer_compressed_bytes limits) (snd x);
}.

Context (Hvalid : Limits.valid limits).

(** Every ceiling is far below the width of its counter. *)
Lemma ceilings_small :
  Limits.max_encoder_sessions limits < u32_max /\ Limits.max_gpu_surfaces limits < u32_max /\
  Limits.max_viewers limits < u32_max /\ Limits.max_half_attached_channels limits < u32_max /\
  Limits.max_pending_approvals limits < u32_max /\
  Limits.max_bandwidth_bps limits < u64_max /\
  Limits.per_viewer_compressed_bytes limits < u64_max.
Proof using Hvalid.
  pose proof (Hvalid EncoderSessions). pose proof (Hvalid GpuSurfaces).
  pose proof (Hvalid Viewers). pose proof (Hvalid HalfAttachedChannels).
  pose proof (Hvalid PendingApprovals). pose proof (Hvalid BandwidthBps).
  pose proof (Hvalid PerViewerCompressedBytes). cbn in *. unfold u32_max, u64_max. lia.
Qed.

Lemma succ32_small n : 0 <= n < u32_max -> succ32 n = n + 1.
Proof. intros Hn. unfold succ32, wrapping_add. apply Z.mod_small. lia. Qed.

(** The scalar counters after an acquire or a release. *)
Lemma counter_acquired m n : m < u32_max -> fits m n -> (m <=? n) = false -> fits m (succ32 n).
Proof. intros Hm Hn Hlt. unfold fits in *. rewrite succ32_small; lia. Qed.
Lemma counter_grown m u n k :
  m < u -> fits m n -> 0 <= k -> (m <? saturating_add u n k) = false -> fits m (saturating_add u n k).
Proof. intros ? ? ? ?. unfold fits, saturating_add in *. lia. Qed.
Lemma counter_released m n k : fits m n -> 0 <= k -> fits m (saturating_sub n k).
Proof. intros ? ?. unfold fits, saturating_sub in *. lia. Qed.

(** Replacing one seat's figure, and taking one seat away. *)
Lemma set_memory_within pos s n a :
  within a -> (pos < length (viewer_memory a))%nat ->
  fits (Limits.per_viewer_compressed_bytes limits) n -> within (set_memory pos s n a).
Proof using Hvalid.
  intros [] Hp Hn. split; try done.
  - cbn. by rewrite length_insert.
  - intros x Hx. cbn in Hx. apply list_elem_of_lookup in Hx as [k Hk].
    apply list_lookup_insert_Some in Hk as [(_ & <- & _)|(_ & Hk)]; [done|].
    apply in_memory0. apply list_elem_of_lookup. by exists k.
Qed.

Lemma release_viewer_within s a : within a -> within (release_viewer s a).
Proof using Hvalid.
  intros [].  unfold release_viewer.
  destruct (position _ _) as [pos|] eqn:Hp; [|by split].
  apply position_Some in Hp as (x & Hx & _).
  pose proof (swap_remove_Permutation _ _ _ Hx) as Hperm.
  pose proof (Permutation_length Hperm) as Hl. cbn [length] in Hl.
  split; try done; cbn.
  - by apply counter_released.
  - rewrite in_seats0. unfold saturating_sub. rewrite <- Hl. lia.
  - intros y Hy. apply in_memory0. rewrite <- Hperm. by apply list_elem_of_further.
Qed.

Lemma position_lt {A : Type} (f : A -> bool) l i : position f l = Some i -> (i < length l)%nat.
Proof. intros (x & Hx & _)%position_Some. by eapply lookup_lt_Some. Qed.

Lemma memory_current a pos s :
  within a -> position (fun x => fst x =? s) (viewer_memory a) = Some pos ->
  fits (Limits.per_viewer_compressed_bytes limits) (from_option snd 0 (viewer_memory a !! pos)).
Proof using Hvalid.
  intros W (x & Hx & _)%position_Some. rewrite Hx. cbn. apply W.
  apply list_elem_of_lookup. by exists pos.
Qed.

Lemma exec_within o a : op_ok o -> within a -> within (snd (exec o a)).
Proof using Hvalid.
  intros Ho W. destruct ceilings_small as (? & ? & ? & ? & ? & ? & ?).
  destruct o; cbn [exec op_ok snd] in *.
  - unfold acquire_encoder_session. case_match; [done|]. destruct W.
    split; try done. by apply counter_acquired.
  - destruct W. split; try done. by apply counter_released.
  - unfold acquire_gpu_surfaces. case_match; [done|]. destruct W.
    split; try done. apply counter_grown; try done. apply Ho.
  - destruct W. split; try done. apply counter_released; [done|apply Ho].
  - unfold acquire_viewer. case_match; [done|]. destruct W.
    split; try done; cbn; [by apply counter_acquired| |].
    + rewrite succ32_small by (unfold fits in *; lia). rewrite length_app; cbn. lia.
    + intros x [Hx|Hx]%elem_of_app; [by apply in_memory0|].
      apply list_elem_of_singleton in Hx as ->. pose proof (Limits.valid_nonneg limits PerViewerCompressedBytes Hvalid) as Hv.
      cbn in *. unfold fits. lia.
  - by apply release_viewer_within.
  - unfold acquire_half_attached. case_match; [done|]. destruct W.
    split; try done. by apply counter_acquired.
  - destruct W. split; try done. by apply counter_released.
  - unfold acquire_pending_approval. case_match; [done|]. destruct W.
    split; try done. by apply counter_acquired.
  - destruct W. split; try done. by apply counter_released.
  - unfold allocate_viewer_memory. destruct (position _ _) as [pos|] eqn:Hp; [|done].
    case_match; [done|]. apply set_memory_within; [done|by eapply position_lt|].
    apply counter_grown; try done; [by eapply memory_current|apply Ho].
  - unfold release_viewer_memory. destruct (position _ _) as [pos|] eqn:Hp; [|done].
    apply set_memory_within; [done|by eapply position_lt|].
    apply counter_released; [by eapply memory_current|apply Ho].
  - unfold allocate_bandwidth. case_match; [done|]. destruct W.
    split; try done. apply counter_grown; try done. apply Ho.
  - destruct W. split; try done. apply counter_released; [done|apply Ho].
Qed.

Lemma new_within : within new.
Proof using Hvalid.
  assert (forall f, 0 <= Limits.lim limits f) as Hn.
  { intros f. pose proof (Limits.valid_nonneg limits f Hvalid). lia. }
  split; try (split; [done|]).
  - apply (Hn EncoderSessions).
  - apply (Hn GpuSurfaces).
  - apply (Hn Viewers).
  - apply (Hn HalfAttachedChannels).
  - apply (Hn PendingApprovals).
  - apply (Hn BandwidthBps).
  - done.
  - intros x Hx. by apply not_elem_of_nil in Hx.
Qed.

Lemma run_within os : forall a, Forall op_ok os -> within a -> within (run os a).
Proof using Hvalid.
  induction os as [|o os IH]; intros a Hos W; [done|].
  apply Forall_cons in Hos as [? ?]. apply IH; [done|]. by apply exec_within.
Qed.

End accountant.

(** Over any history of acquisitions and releases, in any order and however
    unbalanced, no resource exceeds its limit: encoder sessions, GPU surfaces,
    viewers, half-attached channels, approvals and bandwidth stay at or below the
    ceilings, every viewer's compressed media stays within the per-viewer budget,
    and the number of viewers is the number of seats that hold memory. *)
Theorem admission_stays_within_limits limits os :
  Limits.valid limits -> Forall op_ok os -> within limits (run limits os new).
Proof. intros Hv Hos. apply run_within; [done..|]. by apply new_within. Qed.

Lemma admission_stays_within_limits_witness :
  within Limits.ABSOLUTE (run Limits.ABSOLUTE
    [AcquireViewer 1; AcquireViewer 2; AcquireViewer 1; AcquireViewer 4; AllocMemory 1 33554432;
     AllocMemory 1 1; ReleaseViewer 1; ReleaseEncoder; AcquireGpu 33; AllocBandwidth 1000000000] new) /\
  active_viewers (run Limits.ABSOLUTE [AcquireViewer 1; AcquireViewer 2; AcquireViewer 1; AcquireViewer 4] new) = 3.
Proof.
  split; [|reflexivity]. apply (admission_stays_within_limits _ _ Limits.absolute_valid).
  repeat constructor; vm_compute; congruence.
Defined.

End Accountant.

(** ** The idle-session watchdog *)

Module Idle.

Record IdleSessionTracker := mkIdle {
  last_authenticated : HostInstant;
  last_unauthenticated : option HostInstant;
  consecutive_unauthenticated : Z;
  max_consecutive_unauthenticated : Z;
}.

#[export] Instance eta_idle : Eta IdleSessionTracker := fun r =>
  mkIdle (last_authenticated r) (last_unauthenticated r) (consecutive_unauthenticated r)
    (max_consecutive_unauthenticated r).

Definition new (start : HostInstant) : IdleSessionTracker := mkIdle start None 0 10.

Definition record_authenticated (now : HostInstant) (t : IdleSessionTracker) : IdleSessionTracker :=
  t <| last_authenticated := now |> <| consecutive_unauthenticated := 0 |>.

Definition record_unauthenticated_garbage (now : HostInstant)
  : M IdleSessionTracker DosRefusal unit := fun t =>
  let t := t <| last_unauthenticated := Some now |>
             <| consecutive_unauthenticated :=
                  saturating_add u32_max (consecutive_unauthenticated t) 1 |> in
  if max_consecutive_unauthenticated t <? consecutive_unauthenticated t
  then (Err (UnauthenticatedFloodDetected (consecutive_unauthenticated t)), t)
  else (Ok tt, t).

Definition check_idle_timeout (t : IdleSessionTracker) (now : HostInstant) (timeout_secs : Z)
  : Result DosRefusal unit :=
  let timeout :=
    default HostTime.ZERO (HostTime.from_millis_checked (saturating_mul u64_max timeout_secs 1000)) in
  let idle := default HostTime.ZERO (HostTime.duration_since now (last_authenticated t)) in
  if timeout <? idle then Err (SessionIdleExpired idle timeout) else Ok tt.

(** ** Traffic *)

Inductive Traffic := Authenticated (now : HostInstant) | Garbage (now : HostInstant).

Definition step (t : IdleSessionTracker) (e : Traffic) : IdleSessionTracker :=
  match e with
  | Authenticated now => record_authenticated now t
  | Garbage now => snd (record_unauthenticated_garbage now t)
  end.
Definition run (es : list Traffic) (t : IdleSessionTracker) : IdleSessionTracker := foldl step t es.

(** The last authenticated reading of a history, and the garbage since. *)
Definition authenticated_at (e : Traffic) : option HostInstant :=
  match e with Authenticated now => Some now | Garbage _ => None end.
Definition last_good (start : HostInstant) (es : list Traffic) : HostInstant :=
  default start (last (omap authenticated_at es)).
Fixpoint trailing_garbage (es : list Traffic) : nat :=
  match es with
  | [] => 0
  | Authenticated _ :: es => trailing_garbage es
  | Garbage _ :: es =>
      if forallb (fun e => negb (is_some (authenticated_at e))) es
      then S (trailing_garbage es) else trailing_garbage es
  end.

Lemma step_garbage t now :
  last_authenticated (step t (Garbage now)) = last_authenticated t /\
  consecutive_unauthenticated (step t (Garbage now)) =
    saturating_add u32_max (consecutive_unauthenticated t) 1 /\
  max_consecutive_unauthenticated (step t (Garbage now)) = max_consecutive_unauthenticated t.
Proof. cbn [step]. unfold record_unauthenticated_garbage. by case_match. Qed.

Lemma run_last es : forall t,
  last_authenticated (run es t) = last_good (last_authenticated t) es.
Proof.
  induction es as [|e es IH] using rev_ind; intros t; [done|].
  unfold run, last_good in *. rewrite foldl_snoc, omap_app. destruct e as [now|now].
  - cbn. by rewrite last_snoc.
  - rewrite (proj1 (step_garbage _ _)), IH. cbn. by rewrite app_nil_r.
Qed.

Lemma trailing_garbage_snoc es e :
  trailing_garbage (es ++ [e]) =
    match e with Authenticated _ => 0%nat | Garbage _ => S (trailing_garbage es) end.
Proof.
  induction es as [|x es IH]; cbn [app trailing_garbage]; [by destruct e|].
  rewrite IH, forallb_app. destruct x, e; cbn; rewrite ?andb_false_r, ?andb_true_r; try done.
  by case_match.
Qed.

Lemma run_garbage es start :
  consecutive_unauthenticated (run es (new start)) =
    Z.min u32_max (Z.of_nat (trailing_garbage es)) /\
  max_consecutive_unauthenticated (run es (new start)) = 10.
Proof.
  induction es as [|e es IH] using rev_ind; [done|]. unfold run in *.
  rewrite foldl_snoc, trailing_garbage_snoc. destruct e as [now|now]; [split; [done|apply IH]|].
  destruct (step_garbage (foldl step (new start) es) now) as (_ & -> & ->).
  destruct IH as [-> ->]. split; [|done]. unfold saturating_add, u32_max. lia.
Qed.

(** Garbage never extends a session and authenticated traffic always does:
    after any mix of traffic, the idle check expires exactly when more than the
    timeout has passed since the last authenticated message, whatever
    unauthenticated traffic came meanwhile, and a further piece of garbage is
    reported as a flood exactly when it is at least the eleventh in a row. *)
Theorem idle_expiry_ignores_garbage start es now timeout_secs :
  fits u32_max timeout_secs ->
  (is_ok (check_idle_timeout (run es (new start)) now timeout_secs) = true <->
   now - last_good start es <= timeout_secs * 1000000) /\
  (is_ok (fst (record_unauthenticated_garbage now (run es (new start)))) = true <->
   (trailing_garbage es < 10)%nat).
Proof.
  intros [Ht0 Ht]. split.
  - unfold check_idle_timeout. rewrite run_last. cbn [last_authenticated new].
    assert (HostTime.from_millis_checked (saturating_mul u64_max timeout_secs 1000)
      = Some (timeout_secs * 1000000)) as ->.
    { apply checked_mul_Some. unfold saturating_mul, u64_max, u32_max in *. lia. }
    cbn [default from_option id]. unfold HostTime.duration_since, checked_sub, HostTime.ZERO.
    destruct (Z.leb_spec (last_good start es) now); cbn [default from_option id];
      case_match; cbn; split; try done; lia.
  - destruct (run_garbage es start) as [Hc Hm]. unfold record_unauthenticated_garbage.
    cbn [max_consecutive_unauthenticated consecutive_unauthenticated upd setter].
    rewrite Hc, Hm. unfold saturating_add, u32_max.
    case_match; cbn; split; try done; lia.
Qed.

Lemma idle_expiry_ignores_garbage_witness :
  is_ok (check_idle_timeout
    (run [Authenticated 1000; Garbage 60000000; Garbage 119000000] (new 0)) 120002000 120) = false /\
  120002000 - last_good 0 [Authenticated 1000; Garbage 60000000; Garbage 119000000] = 120001000.
Proof.
  split; [|reflexivity]. apply not_true_is_false. intros H.
  apply (proj1 (idle_expiry_ignores_garbage 0 _ 120002000 120 ltac:(vm_compute; split; congruence))) in H.
  cbn in H. lia.
Defined.

End Idle.

(** ** The codec-probe tracker *)

Module Probes.

Record CodecProbeTracker := mkProbes { probes : list (RemoteSessionId * Z) }.

Definition new : CodecProbeTracker := mkProbes [].

Definition register_probe (session_id probe_id : Z) (limits : Limits.ProtocolLimits)
  : M CodecProbeTracker DosRefusal unit := fun t =>
  let n := Z.of_nat (length (probes t)) in
  if Limits.max_codec_probes_per_min limits <=? n
  then (Err (CapacityExceeded CodecProbesPerMin n (Limits.max_codec_probes_per_min limits)), t)
  else (Ok tt, mkProbes (probes t ++ [(session_id, probe_id)])).

(** The [while i < self.probes.len()] loop: each turn either advances [i] or
    shrinks the vector, so one unit of fuel per remaining element is enough. *)
Fixpoint close_loop (fuel : nat) (session_id : Z) (i : nat) (ps : list (RemoteSessionId * Z))
  (cancelled : list Z) : option (list Z * list (RemoteSessionId * Z)) :=
  match ps !! i with
  | None => Some (cancelled, ps)
  | Some (s, p) =>
      match fuel with
      | O => None
      | S fuel =>
          if s =? session_id
          then close_loop fuel session_id i (swap_remove i ps) (cancelled ++ [p])
          else close_loop fuel session_id (S i) ps cancelled
      end
  end.

Definition on_session_closed (session_id : Z) (t : CodecProbeTracker)
  : option (list Z * CodecProbeTracker) :=
  match close_loop (length (probes t)) session_id 0 (probes t) [] with
  | Some (cancelled, ps) => Some (cancelled, mkProbes ps)
  | None => None
  end.

Definition complete_probe (session_id probe_id : Z) (t : CodecProbeTracker)
  : bool * CodecProbeTracker :=
  match position (fun x => (fst x =? session_id) && (snd x =? probe_id)) (probes t) with
  | Some pos => (true, mkProbes (swap_remove pos (probes t)))
  | None => (false, t)
  end.

Definition owned (s : Z) (ps : list (RemoteSessionId * Z)) : list (RemoteSessionId * Z) :=
  filter (fun x => fst x = s) ps.
Definition others (s : Z) (ps : list (RemoteSessionId * Z)) : list (RemoteSessionId * Z) :=
  filter (fun x => fst x <> s) ps.

Lemma owned_take_none s i ps :
  (forall x, x ∈ take i ps -> fst x <> s) -> (length ps <= i)%nat ->
  owned s ps = [] /\ others s ps = ps.
Proof.
  intros Hn Hi. rewrite take_ge in Hn by done. unfold owned, others. split.
  - apply filter_none. intros x Hx. by apply Hn.
  - apply filter_all. intros x Hx. by apply Hn.
Qed.

(** Removing by swap keeps the part already scanned. *)
Lemma take_swap_remove {A : Type} i (l : list A) :
  (i < length l)%nat -> take i (swap_remove i l) = take i l.
Proof.
  intros Hi. unfold swap_remove. destruct (last l) as [y|] eqn:Hl.
  2:{ apply last_None in Hl as ->. done. }
  apply list_snoc_last in Hl. set (l0 := removelast l) in *. clearbody l0. subst l.
  rewrite length_app in *. cbn [length] in *. case_decide.
  - rewrite take_app_le by lia. done.
  - rewrite take_insert_ge by lia. rewrite take_app_le by lia. done.
Qed.

Lemma close_loop_spec s : forall fuel i ps cancelled,
  (length ps - i <= fuel)%nat -> (forall x, x ∈ take i ps -> fst x <> s) ->
  exists c rest, close_loop fuel s i ps cancelled = Some (cancelled ++ c, rest) /\
    c ≡ₚ snd <$> owned s ps /\ rest ≡ₚ others s ps.
Proof.
  induction fuel as [|fuel IH]; intros i ps cancelled Hf Hd.
  - assert (ps !! i = None) as Hn by (apply lookup_ge_None; lia). cbn. rewrite Hn.
    destruct (owned_take_none s i ps Hd ltac:(lia)) as [Ho Hr].
    exists [], ps. by rewrite app_nil_r, Ho, Hr.
  - cbn [close_loop]. destruct (ps !! i) as [[s' p]|] eqn:Hi.
    + pose proof (lookup_lt_Some _ _ _ Hi) as Hlt. destruct (Z.eqb_spec s' s) as [->|Hne].
      * pose proof (swap_remove_Permutation _ _ _ Hi) as Hp.
        pose proof (swap_remove_length ps i Hlt) as Hl.
        destruct (IH i (swap_remove i ps) (cancelled ++ [p])) as (c & rest & Hc & Hc1 & Hc2).
        { lia. }
        { by rewrite take_swap_remove. }
        exists (p :: c), rest. rewrite Hc, <- (assoc_L (++)). split; [done|].
        unfold owned, others in *. split.
        -- rewrite <- Hp, filter_cons_True by done. cbn. by rewrite Hc1.
        -- rewrite <- Hp, filter_cons_False; [done|]. cbn. by intros [].
      * apply IH; [lia|]. intros x Hx. rewrite (take_S_r _ _ _ Hi) in Hx.
        apply elem_of_app in Hx as [Hx|Hx]; [by apply Hd|].
        by apply list_elem_of_singleton in Hx as ->.
    + apply lookup_ge_None in Hi. destruct (owned_take_none s i ps Hd Hi) as [Ho Hr].
      exists [], ps. by rewrite app_nil_r, Ho, Hr.
Qed.

(** Closing a session terminates and cancels exactly that session's probes:
    every probe it owns is returned once, and the probes of all other sessions
    stay registered. *)
Theorem session_close_cancels_exactly_its_probes s t :
  exists cancelled t', on_session_closed s t = Some (cancelled, t') /\
    cancelled ≡ₚ snd <$> owned s (probes t) /\ probes t' ≡ₚ others s (probes t) /\
    owned s (probes t') = [].
Proof.
  destruct (close_loop_spec s (length (probes t)) 0 (probes t) []) as (c & rest & Hc & H1 & H2).
  { lia. }
  { intros x Hx. by apply not_elem_of_nil in Hx. }
  exists c, (mkProbes rest). unfold on_session_closed. rewrite Hc.
  split_and!; [done..|]. cbn. unfold owned. apply filter_none.
  intros x Hx. rewrite H2 in Hx. by apply list_elem_of_filter in Hx as [? _].
Qed.

End Probes.

(** ** Stateless validators *)

Module Validators.

(** [PreAllocValidator::validate_surface_allocation]. *)
Definition validate_surface_allocation (width height bit_depth reference_surfaces : Z)
  (limits : Limits.ProtocolLimits) : Result DosRefusal Z :=
  if negb (is_ok (Limits.validate_coded_dimensions limits width height))
  then Err (CursorTooLarge width height (Limits.max_dimension_pixels limits))
  else
    let bpp_numerator := if bit_depth =? 10 then 4 else 3 in
    let pixels := saturating_mul u64_max width height in
    let frame_bytes := saturating_mul u64_max pixels bpp_numerator / 2 in
    let total_buffers := saturating_add u64_max reference_surfaces 2 in
    let total_required := saturating_mul u64_max frame_bytes total_buffers in
    if Limits.per_viewer_compressed_bytes limits <? total_required
    then Err (DecoderAllocationExceeded total_required (Limits.per_viewer_compressed_bytes limits))
    else Ok total_required.

(** [MetadataFragmentValidator::validate]. *)
Definition validate_fragments (fragment_count total_payload_bytes : Z)
  (limits : Limits.ProtocolLimits) : Result DosRefusal unit :=
  if Limits.max_fragments_per_access_unit limits <? fragment_count
  then Err (ExcessiveMetadataFragments fragment_count (Limits.max_fragments_per_access_unit limits))
  else if (total_payload_bytes =? 0) && (1 <? fragment_count)
  then Err (ExcessiveMetadataFragments fragment_count 1)
  else Ok tt.

(** The decoder memory a picture needs, in unbounded arithmetic. *)
Definition decoder_bytes (width height bit_depth refs : Z) : Z :=
  width * height * (if bit_depth =? 10 then 4 else 3) / 2 * (refs + 2).

(** Decoder memory is granted exactly when the dimensions are within the
    limits and the true requirement fits the per-viewer budget, and the granted
    figure is the true requirement: saturating arithmetic never turns an oversized
    request into a small one. *)
Theorem surface_allocation_exact p w h depth refs n :
  Limits.valid p -> fits u32_max w -> fits u32_max h -> fits u32_max refs ->
  validate_surface_allocation w h depth refs p = Ok n <->
  Limits.dimensions_ok p w h /\ n = decoder_bytes w h depth refs /\
  n <= Limits.per_viewer_compressed_bytes p.
Proof.
  intros Hp [Hw _] [Hh _] [Hr Hr']. unfold validate_surface_allocation.
  pose proof (Limits.validate_coded_dimensions_Ok p w h Hw Hh) as Hd.
  destruct (Limits.validate_coded_dimensions p w h) as [[]|e]; cbn [is_ok negb].
  2:{ split; [done|]. intros (H & _). by apply Hd in H. }
  assert (Limits.dimensions_ok p w h) as Hok by by apply Hd.
  destruct Hok as (Hdw & Hdh & Hpix). pose proof (Hp DimensionPixels) as [_ Hc]. cbn in Hc.
  pose proof (Hp CodedPixels) as [_ Hc']. cbn in Hc'.
  pose proof (Hp PerViewerCompressedBytes) as [_ Hb]. cbn in Hb.
  unfold decoder_bytes. set (k := if depth =? 10 then 4 else 3).
  assert (3 <= k <= 4) by (unfold k; destruct (depth =? 10); lia).
  assert (saturating_mul u64_max w h = w * h) as -> by (unfold saturating_mul, u64_max; lia).
  assert (saturating_mul u64_max (w * h) k = w * h * k) as ->
    by (unfold saturating_mul, u64_max; nia).
  assert (saturating_add u64_max refs 2 = refs + 2) as ->
    by (unfold saturating_add, u64_max, u32_max in *; lia).
  set (f := w * h * k / 2).
  assert (saturating_mul u64_max f (refs + 2) = f * (refs + 2)) as ->.
  { assert (0 <= f <= w * h * k) by (unfold f; split; [apply Z.div_pos; nia|apply Z.div_le_upper_bound; nia]).
    unfold saturating_mul, u64_max, u32_max in *. nia. }
  case_match; split; try done; try lia.
  - intros [= <-]. split_and!; done || lia.
  - intros (_ & -> & _). done.
Qed.

(** A fragment count is accepted exactly when it is within the limit and,
    for an empty payload, at most one. *)
Lemma fragment_count_exact count payload p :
  validate_fragments count payload p = Ok tt <->
  count <= Limits.max_fragments_per_access_unit p /\ (payload = 0 -> count <= 1).
Proof.
  unfold validate_fragments. repeat case_match; split; try done; lia.
Qed.

Lemma surface_allocation_exact_witness :
  validate_surface_allocation 1920 1080 8 4 Limits.ABSOLUTE = Ok 18662400.
Proof.
  apply (surface_allocation_exact Limits.ABSOLUTE 1920 1080 8 4 18662400 Limits.absolute_valid).
  - split; vm_compute; congruence.
  - split; vm_compute; congruence.
  - split; vm_compute; congruence.
  - split_and!; reflexivity || (unfold Limits.dimensions_ok; cbn; lia).
Defined.

End Validators.
