(* ===== verification/InputModel.v ===== *)
(** * The input vocabulary

    [fr-core/src/input.rs], [fr-core/src/held_state.rs] and
    [fr-core/src/input_submission/scroll.rs]: the requests a controller sends, the
    desktop bounds they are checked against, the held-state bitmap and the bounded
    expansion of line scrolling into wheel steps. *)

From S2P Require Import Prelude CoreTime.

(** ** Requests *)

Record InputView := mkView {
  geometry : Z;
  viewport : Z;
  configuration : Z;
  recovery : Z;
}.

#[export] Instance eta_view : Eta InputView := fun r =>
  mkView (geometry r) (viewport r) (configuration r) (recovery r).
#[export] Instance InputView_eq_dec : EqDecision InputView.
Proof. solve_decision. Defined.

Module Credentials.
Record InputCredentials := mkCredentials {
  session : RemoteSessionId;
  lease : InputLeaseId;
  ticket : InputTicketId;
  view : InputView;
}.
End Credentials.
Abbreviation InputCredentials := Credentials.InputCredentials.

Record DesktopPoint := mkPoint { px : Z; py : Z }.

(** [PhysicalKey(u16)]: the usage; [physical_key] is its only constructor. *)
Abbreviation PhysicalKey := Z (only parsing).

Definition physical_key (usage : Z) : option PhysicalKey :=
  if ((4 <=? usage) && (usage <=? 164)) || ((224 <=? usage) && (usage <=? 231))
  then Some usage else None.

Inductive KeyTransition := Release | Press | Repeat.
Inductive PointerButton := Primary | Secondary | Middle | Back | Forward.
Inductive ScrollUnit := Pixels | Lines.
Inductive PointerMode := AbsoluteMode | RelativeMode.

#[export] Instance KeyTransition_eq_dec : EqDecision KeyTransition.
Proof. solve_decision. Defined.
#[export] Instance PointerButton_eq_dec : EqDecision PointerButton.
Proof. solve_decision. Defined.
#[export] Instance ScrollUnit_eq_dec : EqDecision ScrollUnit.
Proof. solve_decision. Defined.
#[export] Instance PointerMode_eq_dec : EqDecision PointerMode.
Proof. solve_decision. Defined.
#[export] Instance DesktopPoint_eq_dec : EqDecision DesktopPoint.
Proof. solve_decision. Defined.

(** [button as usize - 1]. *)
Definition button_index (b : PointerButton) : nat :=
  match b with Primary => 0 | Secondary => 1 | Middle => 2 | Back => 3 | Forward => 4 end.
Definition all_buttons : list PointerButton := [Primary; Secondary; Middle; Back; Forward].

(** A text event carries the Unicode scalars of the committed string. *)
Inductive InputEvent :=
| EvKey (key : PhysicalKey) (transition : KeyTransition)
| EvButton (button : PointerButton) (pressed : bool) (position : DesktopPoint) (barrier : Z)
| EvPointer (position : DesktopPoint)
| EvRelative (mode_epoch cumulative_x cumulative_y : Z)
| EvScroll (position : DesktopPoint) (barrier x y : Z) (unit_ : ScrollUnit)
| EvText (text : list Z)
| EvMode (mode : PointerMode) (epoch : Z).

Definition is_pointer (e : InputEvent) : bool :=
  match e with EvPointer _ => true | _ => false end.

Record InputRequest := mkRequest {
  credentials : InputCredentials;
  rq_sequence : Z;
  event : InputEvent;
}.

(** [str::len] of the scalars' UTF-8 encoding. *)
Definition utf8_len (c : Z) : Z :=
  if c <? 128 then 1 else if c <? 2048 then 2 else if c <? 65536 then 3 else 4.
Definition text_len (t : list Z) : Z := foldr (fun c n => utf8_len c + n) 0 t.
Definition MAX_COMMITTED_TEXT_BYTES : Z := 4096.

Lemma text_len_length t : Z.of_nat (length t) <= text_len t.
Proof.
  induction t as [|c t IH]; cbn [length text_len foldr] in *; [lia|].
  assert (1 <= utf8_len c) by (unfold utf8_len; repeat case_match; lia).
  unfold text_len in IH. lia.
Qed.

(** ** Desktop bounds *)

Module Bounds.

Record InputBounds := mkBounds { origin : DesktopPoint; width : Z; height : Z }.

Definition new (o : DesktopPoint) (w h : Z) : option InputBounds :=
  if (w =? 0) || (h =? 0) || (i32_max <? px o + w - 1) || (i32_max <? py o + h - 1)
  then None else Some (mkBounds o w h).

Definition contains (b : InputBounds) (p : DesktopPoint) : bool :=
  let x := px p - px (origin b) in
  let y := py p - py (origin b) in
  (0 <=? x) && (0 <=? y) && (x <? width b) && (y <? height b).

End Bounds.

(** ** Held state *)

Module Held.

Definition KEY_BITMAP_BYTES : nat := 32.

Record HeldState := mkHeld { keys : list Z; buttons : Z }.

Definition empty : HeldState := mkHeld (replicate KEY_BITMAP_BYTES 0) 0.

(** [usize::from(usage / 8)] and [1 << (usage % 8)]. *)
Definition key_byte (usage : Z) : nat := Z.to_nat (usage / 8).
Definition key_mask (usage : Z) : Z := Z.shiftl 1 (usage mod 8).

Definition byte_at (ks : list Z) (usage : Z) : Z := default 0 (ks !! key_byte usage).
Definition key_bit (ks : list Z) (usage : Z) : bool :=
  negb (Z.land (byte_at ks usage) (key_mask usage) =? 0).

(** [for usage in 0_u16..256]: a set bit of a reserved usage is refused. *)
Definition from_bits (ks : list Z) (bs : Z) : option HeldState :=
  if negb (Z.land bs (Z.lxor 31 255) =? 0) then None
  else if existsb (fun u => key_bit ks u && negb (is_some (physical_key u))) (seqZ 0 256)
  then None else Some (mkHeld ks bs).

Definition key (h : HeldState) (k : PhysicalKey) : bool := key_bit (keys h) k.

Definition set_key (k : PhysicalKey) (held : bool) (h : HeldState) : HeldState :=
  let old := byte_at (keys h) k in
  let mask := key_mask k in
  let new := if held then Z.lor old mask else Z.land old (Z.lxor mask 255) in
  mkHeld (<[key_byte k := new]> (keys h)) (buttons h).

Definition button_mask (b : PointerButton) : Z := Z.shiftl 1 (Z.of_nat (button_index b)).
Definition button (h : HeldState) (b : PointerButton) : bool :=
  negb (Z.land (buttons h) (button_mask b) =? 0).
Definition set_button (b : PointerButton) (held : bool) (h : HeldState) : HeldState :=
  mkHeld (keys h)
    (if held then Z.lor (buttons h) (button_mask b)
     else Z.land (buttons h) (Z.lxor (button_mask b) 255)).

Record HeldStateRequest := mkHeldRequest {
  hs_session : RemoteSessionId;
  hs_lease : InputLeaseId;
  hs_sequence : Z;
  next_action : Z;
  held : HeldState;
}.

End Held.

(** ** Discrete scrolling *)

Module Scroll.

Definition LINE : Z := 65536.
Definition MAX_STEPS : Z := 32.

Inductive WheelDirection := WLeft | WRight | WUp | WDown.

#[export] Instance WheelDirection_eq_dec : EqDecision WheelDirection.
Proof. solve_decision. Defined.

Record LineScroll := mkScroll {
  horizontal : Z;
  vertical : Z;
  dir_x : WheelDirection;
  dir_y : WheelDirection;
}.

(** [%] and [/] truncate toward zero. *)
Definition new (x y : Z) : option LineScroll :=
  if negb (Z.rem x LINE =? 0) || negb (Z.rem y LINE =? 0) then None
  else
    let h := Z.abs (Z.quot x LINE) in
    let v := Z.abs (Z.quot y LINE) in
    match checked_add u32_max h v with
    | None => None
    | Some n =>
        if MAX_STEPS <? n then None
        else Some (mkScroll h v (if x <? 0 then WLeft else WRight) (if y <? 0 then WUp else WDown))
    end.

Definition native_operations (s : LineScroll) : Z := 1 + 2 * (horizontal s + vertical s).

Definition steps (s : LineScroll) : list WheelDirection :=
  replicate (Z.to_nat (horizontal s)) (dir_x s) ++ replicate (Z.to_nat (vertical s)) (dir_y s).

(** The signed distance of a step, in the protocol's 16.16 lines. *)
Definition step_x (d : WheelDirection) : Z :=
  match d with WLeft => - LINE | WRight => LINE | _ => 0 end.
Definition step_y (d : WheelDirection) : Z :=
  match d with WUp => - LINE | WDown => LINE | _ => 0 end.
Definition sum (f : WheelDirection -> Z) (l : list WheelDirection) : Z :=
  foldr (fun d n => f d + n) 0 l.

End Scroll.
