(* ===== verification/Submission.v ===== *)
(** * The serialized input boundary

    [fr-core/src/input_submission.rs] with [held.rs] and [control.rs]: the owner
    of one granted input lease, which turns admitted requests into native
    operations.  The session authority sits behind a mutex and the revocation
    flag is an atomic, and other threads use both; the model makes their steps
    explicit.  Before every load of the flag and every acquisition of the lock a
    scheduled interference may run any calls on the authority and may set the
    flag; while the lock is held it may only set the flag.  Clock callbacks and
    the platform sink are parameters: the clock is the list of the samples it
    will return, the sink any instance of [InputSink]. *)

From S2P Require Import Prelude CoreTime Authority AuthoritySpec InputSequence InputModel.
Import InputModel.Scroll.

(** ** Native operations *)

Inductive Capability :=
| CapKeys | CapRepeat | CapAbsolute | CapButtons | CapRelative | CapPixelScroll | CapLineScroll
| CapText.

(** [capability as u8]. *)
Definition cap_index (c : Capability) : Z :=
  match c with
  | CapKeys => 0 | CapRepeat => 1 | CapAbsolute => 2 | CapButtons => 3 | CapRelative => 4
  | CapPixelScroll => 5 | CapLineScroll => 6 | CapText => 7
  end.

(** [Capabilities(u16)]. *)
Abbreviation Capabilities := Z (only parsing).
Definition cap_with (self : Capabilities) (c : Capability) : Capabilities :=
  Z.lor self (Z.shiftl 1 (cap_index c)).
Definition cap_contains (self : Capabilities) (c : Capability) : bool :=
  negb (Z.land self (Z.shiftl 1 (cap_index c)) =? 0).
Definition cap_contains_all (self required : Capabilities) : bool :=
  Z.land self required =? required.
Definition cap_meet (self other : Capabilities) : Capabilities := Z.land self other.

Inductive Operation :=
| OpKey (key : PhysicalKey) (transition : KeyTransition)
| OpAbsolute (p : DesktopPoint)
| OpButton (button : PointerButton) (pressed : bool)
| OpRelative (x y : Z)
| OpScroll (x y : Z) (unit_ : ScrollUnit)
| OpWheel (direction : WheelDirection) (pressed : bool)
| OpText (scalar : Z).

#[export] Instance Operation_eq_dec : EqDecision Operation.
Proof. solve_decision. Defined.

Definition is_release (op : Operation) : bool :=
  match op with
  | OpKey _ Release | OpButton _ false | OpWheel _ false => true
  | _ => false
  end.

Inductive PlatformError := PUnsupported | PPermission | PGeometryChanged | PUnavailable.

Inductive Submission :=
| Submitted
| NotSubmitted (e : PlatformError)
| Unknown
| Expired
| SubFenced.

Inductive Refusal :=
| RAuthority (e : AuthorityError)
| RSequence (e : InputSequenceError)
| RStaleSession
| RStaleLease
| RStaleView
| ROutOfBounds
| RUnsupported
| RInvalidTransition
| RRelativeOverflow
| RModeMismatch
| RRevoked
| RPlatform (e : PlatformError)
| RUnknownEffect
| RAuthorityUnavailable
| RExpiredAtBoundary.

#[export] Instance PlatformError_eq_dec : EqDecision PlatformError.
Proof. solve_decision. Defined.
#[export] Instance Submission_eq_dec : EqDecision Submission.
Proof. solve_decision. Defined.
#[export] Instance Refusal_eq_dec : EqDecision Refusal.
Proof. solve_decision. Defined.

(** ** The platform sink

    What the owner uses of the [InputSink] trait.  [sink_revalidate] is the part
    of [submit_authorized] that a platform may run before it invokes the final
    authorization callback; the trait's default does nothing there. *)
Class InputSink (Sk : Type) := {
  sink_prepare : Operation -> Sk -> Result PlatformError unit * Sk;
  sink_revalidate : Operation -> Sk -> Result Refusal unit * Sk;
  sink_submit : Operation -> Sk -> Submission * Sk;
  sink_submit_until : Operation -> HostInstant -> Sk -> Submission * Sk;
  sink_cancel_prepared : Sk -> Sk;
  repeat_requires_pair : Sk -> bool;
  line_scroll_requires_pairs : Sk -> bool;
}.

(** ** The owner *)

Record Receipt := mkSubReceipt {
  rc_sequence : Z;
  rc_outcome : InputOutcome;
  submitted_operations : Z;
  rc_refusal : option Refusal;
}.

Inductive Dispatch :=
| DCompleted (r : Receipt)
| DConsumedWithoutReceipt
| DObsoletePointer.

Record Cleanup := mkCleanup { submitted_releases : Z; remaining : Z }.

Record IssuedTicketProof := mkProof {
  issued_at : HostInstant;
  proof_expires_at : HostInstant;
  authority_until : HostInstant;
  proof_presented : option Z;
}.

Inductive ReconciliationOutcome :=
| Applied | Ignored | RecRefused | Interrupted | RecEffectUnknown.

#[export] Instance ReconciliationOutcome_eq_dec : EqDecision ReconciliationOutcome.
Proof. solve_decision. Defined.

Record Reconciliation := mkReconciliation {
  rec_sequence : Z;
  rec_outcome : ReconciliationOutcome;
  rec_submitted : Z;
  rec_remaining : Z;
  rec_refusal : option Refusal;
}.

#[export] Instance eta_reconciliation : Eta Reconciliation := fun r =>
  mkReconciliation (rec_sequence r) (rec_outcome r) (rec_submitted r) (rec_remaining r)
    (rec_refusal r).

(** [InputSession] without the two shared cells; [native_ident] is the address of
    the [Arc] that the monitor compares by identity. *)
Record InputSession := mkSession {
  is_session : RemoteSessionId;
  is_lease : InputLeaseId;
  native_ident : Z;
  is_view : InputView;
  bounds : Bounds.InputBounds;
  capabilities : Capabilities;
  ledger : Ledger.InputSequenceLedger;
  is_receipts : list (option Receipt);
  is_cursor : nat;
  is_keys : list bool;
  is_buttons : list bool;
  wheel : option WheelDirection;
  pointer_floor : option Z;
  mode : PointerMode;
  mode_epoch : Z;
  cumulative : Z * Z;
  reconciliation_floor : option Z;
  reconciliation : option Reconciliation;
  is_clock : HostInstant;
  control_taken : bool;
}.

#[export] Instance eta_session : Eta InputSession := fun r =>
  mkSession (is_session r) (is_lease r) (native_ident r) (is_view r) (bounds r) (capabilities r)
    (ledger r) (is_receipts r) (is_cursor r) (is_keys r) (is_buttons r) (wheel r)
    (pointer_floor r) (mode r) (mode_epoch r) (cumulative r) (reconciliation_floor r)
    (reconciliation r) (is_clock r) (control_taken r).

(** A step of the other threads: calls on the shared authority, and possibly a
    store to the revocation flag. *)
Record Interference := mkInterference { others_calls : list Call; others_revoke : bool }.

(** The final authorization a native operation was submitted under: the request,
    the deadline handed to the executor, the authority and the flag as the check
    left them, and the view the owner compared. *)
Record Grant := mkGrant {
  gr_request : InputRequest;
  gr_until : HostInstant;
  gr_authority : SessionAuthority;
  gr_revoked : bool;
  gr_view : InputView;
}.

(** A native call that was made, with its result; cleanup calls carry no grant. *)
Record NativeCall := mkCall {
  nc_op : Operation;
  nc_result : Submission;
  nc_grant : option Grant;
}.

Record World (Sk : Type) := mkWorld {
  own : InputSession;
  shared : SessionAuthority;
  revoked : bool;
  sink : Sk;
  ticks : list HostInstant;
  sched : list Interference;
  trace : list NativeCall;
  submitted : Z;
  uncertain : bool;
}.
Arguments mkWorld {Sk}.
Arguments own {Sk}.
Arguments shared {Sk}.
Arguments revoked {Sk}.
Arguments sink {Sk}.
Arguments ticks {Sk}.
Arguments sched {Sk}.
Arguments trace {Sk}.
Arguments submitted {Sk}.
Arguments uncertain {Sk}.

#[export] Instance eta_world {Sk} : Eta (World Sk) := fun r =>
  mkWorld (own r) (shared r) (revoked r) (sink r) (ticks r) (sched r) (trace r) (submitted r)
    (uncertain r).

Definition follow_recovery (a : SessionAuthority) (view : InputView) : InputView :=
  match Authority.recovery a with
  | Some generation =>
      if Generation.supersedes generation (InputModel.recovery view)
      then view <| InputModel.recovery := generation |> else view
  | None => view
  end.

Definition held_count (s : InputSession) : Z :=
  Z.of_nat (length (filter (fun h => h = true) (is_keys s ++ is_buttons s))
            + (if is_some (wheel s) then 1 else 0)).

Definition key_held (s : InputSession) (k : PhysicalKey) : bool :=
  default false (is_keys s !! Z.to_nat k).
Definition button_held (s : InputSession) (b : PointerButton) : bool :=
  default false (is_buttons s !! button_index b).
Definition set_key_held (k : PhysicalKey) (h : bool) (s : InputSession) : InputSession :=
  s <| is_keys := <[Z.to_nat k := h]> (is_keys s) |>.
Definition set_button_held (b : PointerButton) (h : bool) (s : InputSession) : InputSession :=
  s <| is_buttons := <[button_index b := h]> (is_buttons s) |>.

Definition retained_receipt (s : InputSession) (sequence : Z) : option Receipt :=
  find_first (fun r => rc_sequence r =? sequence) (flatten (is_receipts s)).

Definition barrier (b : Z) (s : InputSession) : InputSession :=
  s <| pointer_floor := Some (match pointer_floor s with Some old => Z.max old b | None => b end) |>.

(** [Attempt::track]. *)
Definition track (op : Operation) (before : bool) (s : InputSession) : InputSession :=
  match op with
  | OpWheel d true => s <| wheel := Some d |>
  | OpWheel _ false => if before then s else s <| wheel := None |>
  | OpKey k Press => set_key_held k true s
  | OpKey k Release => if before then s else set_key_held k false s
  | OpButton b true => set_button_held b true s
  | OpButton b false => if before then s else set_button_held b false s
  | _ => s
  end.

(** [previous] and [previous_wheel] of [Attempt::one], put back when no native
    call was made. *)
Definition restore (op : Operation) (old s : InputSession) : InputSession :=
  match op with
  | OpWheel _ true => s <| wheel := wheel old |>
  | OpKey k Press => set_key_held k (key_held old k) s
  | OpButton b true => set_button_held b (button_held old b) s
  | _ => s
  end.

Section boundary.
Context {Sk : Type} `{InputSink Sk}.

Abbreviation WM := (M (World Sk) Refusal).

Definition on_own (f : InputSession -> InputSession) : WM unit :=
  modify (fun w => w <| own := f (own w) |>).

(** A method given by what it returns and leaves behind. *)
Definition method {A : Type} (f : World Sk -> Result Refusal A * World Sk) : WM A := f.

(** ** Other threads *)

Definition interfere : WM unit := modify (fun w =>
  match sched w with
  | [] => w
  | i :: rest => w <| sched := rest |>
                   <| shared := run (others_calls i) (shared w) |>
                   <| revoked := revoked w || others_revoke i |>
  end).

(** While this thread holds the lock only the flag can change. *)
Definition interfere_locked : WM unit := modify (fun w =>
  match sched w with
  | [] => w
  | i :: rest => w <| sched := rest |> <| revoked := revoked w || others_revoke i |>
  end).

(** [RevokeHandle::is_revoked] and [RevokeHandle::revoke]. *)
Definition is_revoked : WM bool := _ ← interfere; gets revoked.
Definition set_revoked : WM unit := modify (fun w => w <| revoked := true |>).

(** [if self.is_revoked() { return Err(Refusal::Revoked) }]. *)
Definition guard_revoked : WM unit := r ← is_revoked; if (r : bool) then fail RRevoked else mret tt.

(** [InputMonitor::with]. *)
Definition monitor_with {A : Type}
  (f : SessionAuthority -> Result AuthorityError A * SessionAuthority) : WM A :=
  _ ← guard_revoked;
  _ ← interfere;
  _ ← interfere_locked;
  _ ← refuse_if revoked (fun _ => RRevoked);
  _ ← refuse_if (fun w => negb (bool_decide (lease_id (shared w) = Some (is_lease (own w))))
                          || negb (is_native_owner (shared w) (native_ident (own w))))
                (fun _ => RAuthority StaleLease);
  method (fun w => let (r, a) := f (shared w) in (map_err RAuthority r, w <| shared := a |>)).

(** [InputMonitor::with_time] on the session's own clock. *)
Definition with_time {A : Type} (sampled : HostInstant)
  (f : HostInstant -> SessionAuthority -> Result AuthorityError A * SessionAuthority) : WM A :=
  c ← gets (fun w => is_clock (own w));
  if (sampled <? c) then _ ← set_revoked; fail (RAuthority ClockRegression)
  else
    _ ← on_own (fun s => s <| is_clock := sampled |>);
    monitor_with (fun a => f (serialized_time a sampled) a).

(** [InputSession::revoke]. *)
Definition revoke : WM unit :=
  _ ← set_revoked;
  on_own (fun s => s <| ledger := Ledger.fence (ledger s) |>).

Definition invalidate_view : WM unit := revoke.
Definition suspend : WM unit := revoke.

(** [impl Drop for InputSession]. *)
Definition drop_session : WM unit := set_revoked.

Definition check_active : WM unit :=
  r ← is_revoked;
  if (r : bool) then fail RRevoked
  else refuse_if (fun w => Ledger.fenced (ledger (own w))) (fun _ => RRevoked).

(** The clock callback. *)
Definition clock : WM HostInstant := fun w =>
  match ticks w with
  | [] => (Ok (is_clock (own w)), w)
  | t :: rest => (Ok t, w <| ticks := rest |>)
  end.

Definition check (c : InputCredentials) (now : HostInstant) : WM HostInstant :=
  _ ← check_active;
  _ ← interfere;
  _ ← modify (fun w => w <| own := (own w) <| is_view := follow_recovery (shared w) (is_view (own w)) |> |>);
  _ ← refuse_if (fun w => negb (bool_decide (Credentials.view c = is_view (own w)))) (fun _ => RStaleView);
  l ← gets (fun w => is_lease (own w));
  with_time now (fun at_ a => submission_deadline l (Credentials.ticket c) at_ a).

Definition require (cap : Capability) : WM unit :=
  refuse_if (fun w => negb (cap_contains (capabilities (own w)) cap)) (fun _ => RUnsupported).

Definition position (p : DesktopPoint) : WM unit :=
  _ ← require CapAbsolute;
  _ ← refuse_if (fun w => negb (bool_decide (mode (own w) = AbsoluteMode))) (fun _ => RModeMismatch);
  refuse_if (fun w => negb (Bounds.contains (bounds (own w)) p)) (fun _ => ROutOfBounds).

(** ** The sink *)

Definition on_sink {E A : Type} (f : Sk -> Result E A * Sk) (g : E -> Refusal) : WM A := fun w =>
  let (r, s) := f (sink w) in (map_err g r, w <| sink := s |>).

Definition cancel_prepared : WM unit := modify (fun w => w <| sink := sink_cancel_prepared (sink w) |>).

(** Run [m], then [cancel_prepared] on every path: [PreparedSink]'s [drop]. *)
Definition with_prepared {A : Type} (m : WM A) : WM A := fun w =>
  let (r, w) := m w in (r, snd (cancel_prepared w)).

(** One native call, recorded. *)
Definition native (op : Operation) (grant : option Grant) (f : Sk -> Submission * Sk)
  : WM Submission := fun w =>
  let (r, s) := f (sink w) in
  (Ok r, w <| sink := s |> <| trace := trace w ++ [mkCall op r grant] |>).

(** [InputSink::submit_authorized]: revalidate, authorize once, submit. *)
Definition submit_authorized (op : Operation) (rq : InputRequest) (authorize : WM HostInstant)
  : WM Submission :=
  _ ← on_sink (sink_revalidate op) id;
  until ← authorize;
  grant ← gets (fun w => mkGrant rq until (shared w) (revoked w) (is_view (own w)));
  native op (Some grant) (sink_submit_until op until).

(** ** Attempts *)

(** The callback that [Attempt::one] passes to [submit_authorized]. *)
Definition final_authorization (rq : InputRequest) (op : Operation) : WM HostInstant :=
  now ← clock;
  until ← check (credentials rq) now;
  _ ← on_own (track op true);
  _ ← modify (fun w => w <| uncertain := true |>);
  mret until.

Definition one (rq : InputRequest) (op : Operation) : WM unit :=
  with_prepared (
    _ ← on_sink (sink_prepare op) RPlatform;
    previous ← gets own;
    method (fun w =>
      match submit_authorized op rq (final_authorization rq op) w with
      | (Ok Submitted, w) =>
          (Ok tt, w <| uncertain := false |>
                    <| submitted := wrapping_add u32_max (submitted w) 1 |>
                    <| own := track op false (own w) |>)
      | (Ok Unknown, w) => (Err RUnknownEffect, w)
      | (r, w) =>
          let refusal := match r with
                         | Ok (NotSubmitted e) => RPlatform e
                         | Ok Expired => RExpiredAtBoundary
                         | Ok _ => RRevoked
                         | Err e => e
                         end in
          (Err refusal, w <| uncertain := false |> <| own := restore op previous (own w) |>)
      end)).

Fixpoint for_each {A : Type} (f : A -> WM unit) (l : list A) : WM unit :=
  match l with
  | [] => mret tt
  | x :: l => _ ← f x; for_each f l
  end.

Definition key_transition (rq : InputRequest) (k : PhysicalKey) (t : KeyTransition) : WM unit :=
  _ ← require CapKeys;
  held ← gets (fun w => key_held (own w) k);
  _ ← match t with
      | Repeat =>
          _ ← require CapRepeat;
          if negb held then fail RInvalidTransition else mret tt
      | Press => if (held : bool) then fail RInvalidTransition else mret tt
      | Release => if negb held then fail RInvalidTransition else mret tt
      end;
  pair ← gets (fun w => repeat_requires_pair (sink w));
  if bool_decide (t = Repeat) && pair then
    _ ← one rq (OpKey k Release);
    one rq (OpKey k Press)
  else one rq (OpKey k t).

Definition wheel_steps (rq : InputRequest) (s : LineScroll) : WM unit :=
  for_each (fun d => for_each (fun pressed => one rq (OpWheel d pressed)) [true; false])
           (Scroll.steps s).

(** [new.checked_sub(old).and_then(|n| i32::try_from(n).ok())]. *)
Definition delta (new old : Z) : Result Refusal Z :=
  let n := new - old in
  if (i64_min <=? n) && (n <=? i64_max) && (i32_min <=? n) && (n <=? i32_max)
  then Ok n else Err RRelativeOverflow.

(** The [match] of [Attempt::execute]. *)
Definition realize (rq : InputRequest) : WM unit :=
  match event rq with
  | EvKey k t => key_transition rq k t
  | EvPointer p =>
      _ ← position p;
      one rq (OpAbsolute p)
  | EvButton b pressed p bar =>
      _ ← require CapButtons;
      _ ← position p;
      _ ← refuse_if (fun w => Bool.eqb (button_held (own w) b) pressed) (fun _ => RInvalidTransition);
      _ ← on_own (barrier bar);
      _ ← one rq (OpAbsolute p);
      one rq (OpButton b pressed)
  | EvScroll p bar x y u =>
      _ ← require (match u with Pixels => CapPixelScroll | Lines => CapLineScroll end);
      _ ← position p;
      pairs ← gets (fun w => line_scroll_requires_pairs (sink w));
      discrete ←
        (if bool_decide (u = Lines) && pairs
         then match Scroll.new x y with Some s => mret (Some s) | None => fail RUnsupported end
         else mret None : WM (option LineScroll));
      _ ← on_own (barrier bar);
      _ ← one rq (OpAbsolute p);
      match (discrete : option LineScroll) with
      | Some s => wheel_steps rq s
      | None => one rq (OpScroll x y u)
      end
  | EvText text =>
      _ ← require CapText;
      _ ← refuse_if (fun _ => (text_len text =? 0) || (MAX_COMMITTED_TEXT_BYTES <? text_len text))
                    (fun _ => RUnsupported);
      for_each (fun c => one rq (OpText c)) text
  | EvRelative epoch cx cy =>
      _ ← require CapRelative;
      _ ← refuse_if (fun w => negb (bool_decide (mode (own w) = RelativeMode))
                              || negb (epoch =? mode_epoch (own w)))
                    (fun _ => RModeMismatch);
      x ← readr (fun w => delta cx (fst (cumulative (own w))));
      y ← readr (fun w => delta cy (snd (cumulative (own w))));
      _ ← (if negb (x =? 0) || negb (y =? 0) then one rq (OpRelative x y) else mret tt);
      on_own (fun s => s <| cumulative := (cx, cy) |>)
  | EvMode m epoch =>
      _ ← require (match m with AbsoluteMode => CapAbsolute | RelativeMode => CapRelative end);
      _ ← refuse_if (fun w => (epoch <=? mode_epoch (own w)) || negb (held_count (own w) =? 0))
                    (fun _ => RInvalidTransition);
      _ ← on_own (fun s => s <| mode := m |> <| mode_epoch := epoch |> <| cumulative := (0, 0) |>);
      l ← gets (fun w => is_lease (own w));
      monitor_with (invalidate_input_tickets l)
  end.

Definition execute (rq : InputRequest) : WM unit :=
  now ← clock;
  _ ← check (credentials rq) now;
  realize rq.

(** [Attempt::receipt]. *)
Definition receipt_of (rq : InputRequest) (result : Result Refusal unit) (w : World Sk) : Receipt :=
  {| rc_sequence := rq_sequence rq;
     rc_outcome :=
       if uncertain w then EffectUnknown
       else match result with
       | Ok _ => if submitted w =? 0 then AppliedLocally else SubmittedToOs
       | Err e =>
           if 0 <? submitted w then PartiallySubmittedToOs
           else match e with
           | RAuthority (TicketExpired | LeaseExpired | ObservationExpired)
           | RExpiredAtBoundary => ExpiredBeforeSubmission
           | RRevoked => CancelledBeforeSubmission
           | _ => RejectedBeforeSubmission
           end
       end;
     submitted_operations := submitted w;
     rc_refusal := match result with Ok _ => None | Err e => Some e end |}.

(** [InputSession::record]. *)
Definition record (r : Receipt) (pointer : bool) : WM unit :=
  _ ← (if pointer then mret tt
       else
         l ← gets (fun w => is_lease (own w));
         recorded ← method (fun w =>
           let (res, g) := Ledger.record_outcome l (rc_sequence r) (rc_outcome r) (ledger (own w)) in
           (Ok (is_ok res), w <| own := (own w) <| ledger := g |> |>));
         _ ← (if (recorded : bool) then mret tt else revoke);
         on_own (fun s => s <| is_receipts := <[is_cursor s := Some r]> (is_receipts s) |>
                            <| is_cursor := ((is_cursor s + 1) mod length (is_receipts s))%nat |>));
  if outcome_continues (rc_outcome r) then mret tt else revoke.

(** [Attempt::execute] followed by [Attempt::finish]. *)
Definition attempt (rq : InputRequest) (pointer : bool) : WM Receipt := fun w =>
  let w := w <| submitted := 0 |> <| uncertain := false |> in
  let (result, w) := execute rq w in
  let r := receipt_of rq result w in
  (_ ← record r pointer; mret r) w.

Definition dispatch (rq : InputRequest) : WM Dispatch :=
  _ ← refuse_if (fun w => negb (Credentials.session (credentials rq) =? is_session (own w)))
                (fun _ => RStaleSession);
  _ ← refuse_if (fun w => negb (Credentials.lease (credentials rq) =? is_lease (own w)))
                (fun _ => RStaleLease);
  if is_pointer (event rq) then
    obsolete ← gets (fun w => is_some_and (fun fl => rq_sequence rq <=? fl) (pointer_floor (own w)));
    if (obsolete : bool) then mret DObsoletePointer
    else
      _ ← check_active;
      _ ← on_own (fun s => s <| pointer_floor := Some (rq_sequence rq) |>);
      r ← attempt rq true;
      mret (DCompleted r)
  else
    admission ← method (fun w =>
      let (res, g) := Ledger.admit_action (is_lease (own w)) (rq_sequence rq) (ledger (own w)) in
      (Ok res, w <| own := (own w) <| ledger := g |> |>));
    match admission with
    | Ok Admitted_ =>
        r ← attempt rq false;
        mret (DCompleted r)
    | Ok (Completed _) =>
        gets (fun w => match retained_receipt (own w) (rq_sequence rq) with
                       | Some r => DCompleted r
                       | None => DConsumedWithoutReceipt
                       end)
    | Ok (ConsumedWithoutReceipt | InFlight) => mret DConsumedWithoutReceipt
    | Err e =>
        fenced ← gets (fun w => Ledger.fenced (ledger (own w)));
        _ ← (if (fenced : bool) then revoke else mret tt);
        fail (RSequence e)
    end.

(** ** Release-only cleanup *)

(** [sink.prepare(op).is_ok() && sink.submit(op) == Submission::Submitted]. *)
Definition try_release (op : Operation) : WM bool := fun w =>
  match on_sink (sink_prepare op) RPlatform w with
  | (Ok _, w) =>
      match native op None (sink_submit op) w with
      | (Ok Submitted, w) => (Ok true, w)
      | (_, w) => (Ok false, w)
      end
  | (Err _, w) => (Ok false, w)
  end.

(** The counter [submitted] is passed along; it is a [u16]. *)
Definition release_wheel (n : Z) : WM Z :=
  d ← gets (fun w => wheel (own w));
  match d with
  | Some d =>
      ok ← with_prepared (try_release (OpWheel d false));
      if (ok : bool)
      then _ ← on_own (fun s => s <| wheel := None |>); mret (wrapping_add u16_max n 1)
      else mret n
  | None => mret n
  end.

Definition release_key (usage : Z) (n : Z) : WM Z :=
  held ← gets (fun w => key_held (own w) usage);
  match (if (held : bool) then physical_key usage else None) with
  | Some k =>
      ok ← try_release (OpKey k Release);
      if (ok : bool)
      then _ ← on_own (set_key_held usage false); mret (wrapping_add u16_max n 1)
      else mret n
  | None => mret n
  end.

Definition release_button (b : PointerButton) (n : Z) : WM Z :=
  held ← gets (fun w => button_held (own w) b);
  if (held : bool) then
    ok ← try_release (OpButton b false);
    if (ok : bool)
    then _ ← on_own (set_button_held b false); mret (wrapping_add u16_max n 1)
    else mret n
  else mret n.

Fixpoint fold_each {A B : Type} (f : A -> B -> WM B) (l : list A) (b : B) : WM B :=
  match l with
  | [] => mret b
  | x :: l => b ← f x b; fold_each f l b
  end.

Definition release_held : WM Cleanup :=
  n ← release_wheel 0;
  n ← fold_each release_key (seqZ 0 256) n;
  n ← fold_each release_button all_buttons n;
  gets (fun w => mkCleanup n (held_count (own w))).

Definition cleanup : WM Cleanup :=
  _ ← revoke;
  release_held.

Definition confirm_suspension_release_monitor : WM unit :=
  l ← gets (fun w => is_lease (own w));
  monitor_with (Authority.confirm_suspension_release l).

(** [let _ = m;]: the error is dropped, the effects stay. *)
Definition ignore_error {A : Type} (m : WM A) : WM unit := fun w => (Ok tt, snd (m w)).

(** What the [match] of [maintain] decides: [Some] is an early return. *)
Definition maintain_status (now : HostInstant) : WM (option Cleanup) := fun w =>
  match with_time now control_status w with
  | (Ok (Live _), w) => (Ok None, w)
  | (Ok (Suspended _ released), w) =>
      (c ← release_held;
       _ ← (if (remaining c =? 0) && negb released
            then ignore_error confirm_suspension_release_monitor else mret tt);
       mret (Some c)) w
  | (Err _, w) => (_ ← revoke; mret None) w
  end.

Definition maintain (now : HostInstant) : WM Cleanup :=
  r ← is_revoked;
  early ← (if negb r then maintain_status now else mret None);
  match early with
  | Some c => mret c
  | None =>
      r ← is_revoked;
      if (r : bool) then cleanup else gets (fun w => mkCleanup 0 (held_count (own w)))
  end.

(** ** Renewal and tickets *)

Definition owner_issue_observation_challenge (n : Z) (now : HostInstant) : WM HostInstant :=
  _ ← check_active; with_time now (Authority.issue_observation_challenge n).
Definition renew_observation (n : Z) (now : HostInstant) : WM HostInstant :=
  _ ← check_active; with_time now (respond_observation_challenge n).
Definition owner_issue_control_challenge (n : Z) (now : HostInstant) : WM HostInstant :=
  _ ← check_active; with_time now (Authority.issue_control_challenge n).
Definition renew_control (n : Z) (now : HostInstant) : WM HostInstant :=
  _ ← check_active;
  l ← gets (fun w => is_lease (own w));
  with_time now (respond_control_challenge l n).

(** The closure of [issue_ticket_snapshot]: the view moves first, in the same
    critical section, and stays moved when the ticket is refused. *)
Definition issue_ticket_snapshot (t : InputTicketId) (now : HostInstant) (require_presented : bool)
  : WM IssuedTicketProof :=
  _ ← check_active;
  l ← gets (fun w => is_lease (own w));
  view ← gets (fun w => is_view (own w));
  r ← with_time now (fun at_ a =>
        let view := follow_recovery a view in
        let m := (expires ← (if require_presented then issue_presented_input_ticket l t at_
                             else issue_input_ticket l t at_);
                  until ← readr lease_deadline;
                  gets (fun a => mkProof at_ expires until (presented_sequence a))) : AuthM _ in
        let (r, a) := m a in (Ok (r, view), a));
  let '(r, view) := r in
  _ ← on_own (fun s => s <| is_view := view |>);
  lift (map_err RAuthority r).

Definition issue_ticket_proof_timed (t : InputTicketId) (now : HostInstant) : WM IssuedTicketProof :=
  issue_ticket_snapshot t now false.
Definition issue_readiness_ticket_timed (t : InputTicketId) (now : HostInstant)
  : WM IssuedTicketProof :=
  issue_ticket_snapshot t now true.
Definition issue_ticket_authority_timed (t : InputTicketId) (now : HostInstant)
  : WM (HostInstant * HostInstant * HostInstant) :=
  proof ← issue_ticket_proof_timed t now;
  mret (issued_at proof, proof_expires_at proof, authority_until proof).
Definition issue_ticket_timed (t : InputTicketId) (now : HostInstant)
  : WM (HostInstant * HostInstant) :=
  p ← issue_ticket_authority_timed t now;
  let '(issued, until, _) := p in mret (issued, until).
Definition issue_ticket (t : InputTicketId) (now : HostInstant) : WM HostInstant :=
  p ← issue_ticket_timed t now; mret (snd p).

Definition ticket_credentials (t : InputTicketId) (s : InputSession) : InputCredentials :=
  Credentials.mkCredentials (is_session s) (is_lease s) t (is_view s).

(** ** Reconciliation *)

Definition missing_releases (s : InputSession) (h : Held.HeldState) : list Operation :=
  omap (fun u => match physical_key u with
                 | Some k => if key_held s u && negb (Held.key h k) then Some (OpKey k Release) else None
                 | None => None
                 end) (seqZ 0 256)
  ++ omap (fun b => if button_held s b && negb (Held.button h b) then Some (OpButton b false) else None)
       all_buttons.

Definition on_report (f : Reconciliation -> Reconciliation) : WM unit :=
  on_own (fun s => s <| reconciliation := f <$> reconciliation s |>).

Definition check_reconciliation (now : HostInstant) : WM unit :=
  _ ← check_active;
  with_time now (fun at_ a =>
    let (live, a) := has_live_control at_ a in
    (if live then Ok tt else Err NoLease, a)).

Definition reconcile_one (op : Operation) : WM unit :=
  with_prepared (
    _ ← on_sink (sink_prepare op) RPlatform;
    now ← clock;
    _ ← check_reconciliation now;
    _ ← on_report (fun r => r <| rec_outcome := RecEffectUnknown |>);
    s ← native op None (sink_submit op);
    match s with
    | Submitted =>
        _ ← on_own (track op false);
        on_report (fun r => r <| rec_submitted := wrapping_add u16_max (rec_submitted r) 1 |>
                              <| rec_remaining := (rec_remaining r - 1) mod (u16_max + 1) |>
                              <| rec_outcome := Interrupted |>)
    | NotSubmitted e => _ ← on_report (fun r => r <| rec_outcome := RecRefused |>); fail (RPlatform e)
    | Expired => _ ← on_report (fun r => r <| rec_outcome := RecRefused |>); fail RExpiredAtBoundary
    | SubFenced => _ ← on_report (fun r => r <| rec_outcome := RecRefused |>); fail RRevoked
    | Unknown => fail RUnknownEffect
    end).

(** [ReconcileGuard::run]. *)
Definition reconcile_run (ops : list Operation) : WM unit :=
  now ← clock;
  _ ← check_reconciliation now;
  for_each reconcile_one ops.

Definition ignored (sequence : Z) : Reconciliation := mkReconciliation sequence Ignored 0 0 None.

Definition finish_reconciliation (rq : Held.HeldStateRequest) (result : Result Refusal unit)
  : WM Reconciliation :=
  _ ← (if is_ok result then mret tt else revoke);
  _ ← on_report (fun r =>
        match result with
        | Ok _ => r <| rec_outcome := Applied |>
        | Err e => (if bool_decide (rec_outcome r = RecEffectUnknown) then r
                    else r <| rec_outcome := RecRefused |>) <| rec_refusal := Some e |>
        end);
  gets (fun w => default (ignored (Held.hs_sequence rq)) (reconciliation (own w))).

Definition reconcile_held (rq : Held.HeldStateRequest) : WM Reconciliation := fun w =>
  let ign := ignored (Held.hs_sequence rq) in
  if negb (Held.hs_session rq =? is_session (own w)) || negb (Held.hs_lease rq =? is_lease (own w))
  then (Ok ign, w)
  else
  let (active, w) := check_active w in
  if negb (is_ok active)
     || is_some_and (fun fl => Held.hs_sequence rq <=? fl) (reconciliation_floor (own w))
  then (Ok ign, w)
  else match Ledger.next_sequence (ledger (own w)) with
  | None => (Ok ign, w)
  | Some expected =>
      if Held.next_action rq <? expected then (Ok ign, w)
      else if (expected <? Held.next_action rq) || is_some (Ledger.pending (ledger (own w)))
      then (_ ← revoke; fail (RSequence (SequenceGap expected (Held.next_action rq)))) w
      else
        let ops := missing_releases (own w) (Held.held rq) in
        (_ ← on_own (fun s => s <| reconciliation_floor := Some (Held.hs_sequence rq) |>
               <| reconciliation := Some (mkReconciliation (Held.hs_sequence rq) Interrupted 0
                                            (Z.of_nat (length ops)) None) |>);
         method (fun w => let (result, w) := reconcile_run ops w in finish_reconciliation rq result w)) w
  end.

(** ** The monitor and the renewal capability

    Other threads hold these; they work on the shared cells with the owner's
    identity. *)

Definition monitor_status (now : HostInstant) : WM ControlStatus := fun w =>
  match monitor_with (control_status now) w with
  | (Ok s, w) => (Ok s, w)
  | (Err e, w) => (Err e, w <| revoked := true |>)
  end.

Definition monitor_deadline (now : HostInstant) : WM HostInstant :=
  s ← monitor_status now;
  match s with
  | Live until => mret until
  | Suspended _ _ => fail (RAuthority ViewUnready)
  end.

Definition authorization_deadline (now : HostInstant) : WM HostInstant :=
  s ← monitor_status now;
  match s with
  | Live _ => monitor_with (fun a => (lease_deadline a, a))
  | Suspended _ _ => fail (RAuthority ViewUnready)
  end.

Definition authorize_ticket (t : InputTicketId) (now : HostInstant) : WM unit :=
  l ← gets (fun w => is_lease (own w));
  monitor_with (fun a => authorize_submission l t (serialized_time a now) a).

(** [ControlLease] keeps its own clock sample beside the shared cells. *)
Abbreviation LeaseM := (M (HostInstant * World Sk) Refusal).

Definition take_control_lease : WM HostInstant :=
  _ ← refuse_if (fun w => control_taken (own w)) (fun _ => RRevoked);
  _ ← check_active;
  _ ← on_own (fun s => s <| control_taken := true |>);
  gets (fun w => is_clock (own w)).

Definition lease_with_time {A : Type} (sampled : HostInstant)
  (f : HostInstant -> SessionAuthority -> Result AuthorityError A * SessionAuthority)
  : LeaseM A := fun cw =>
  let (c, w) := cw in
  if sampled <? c then (Err (RAuthority ClockRegression), (c, w <| revoked := true |>))
  else let (r, w) := monitor_with (fun a => f (serialized_time a sampled) a) w in
       (r, (sampled, w)).

Definition control_deadline_renewal (now : HostInstant) : LeaseM HostInstant := fun cw =>
  match lease_with_time now (fun at_ =>
          (st ← control_status at_;
           match st with
           | Live _ => readr lease_deadline
           | Suspended until _ => mret until
           end) : AuthM HostInstant) cw with
  | (Ok d, cw) => (Ok d, cw)
  | (Err e, (c, w)) => (Err e, (c, w <| revoked := true |>))
  end.

Definition control_challenge_renewal (n : Z) (now : HostInstant) : LeaseM HostInstant :=
  _ ← control_deadline_renewal now;
  lease_with_time now (Authority.issue_control_challenge n).

Definition control_respond (n : Z) (now : HostInstant) : LeaseM HostInstant :=
  _ ← control_deadline_renewal now;
  l ← gets (fun cw => is_lease (own (snd cw)));
  lease_with_time now (respond_control_challenge l n).

End boundary.

(** ** Attaching to a granted lease *)

(** [InputSession::from_shared_authority]; [fresh] is the address of the new
    [Arc].  Returns the session and the authority it leaves behind. *)
Definition from_shared_authority (c : InputCredentials) (b : Bounds.InputBounds)
  (caps : Capabilities) (now : HostInstant) (fresh : Z) (a : SessionAuthority)
  : Result Refusal InputSession * SessionAuthority :=
  if negb (Authority.session a =? Credentials.session c) then (Err RStaleSession, a)
  else
    match authorize_submission (Credentials.lease c) (Credentials.ticket c) (serialized_time a now) a with
    | (Err e, a) => (Err (RAuthority e), a)
    | (Ok _, a) =>
        match claim_native_owner (Credentials.lease c) fresh a with
        | (Err e, a) => (Err (RAuthority e), a)
        | (Ok owner, a) =>
            (g ← map_err RSequence (Ledger.new (Credentials.lease c) MAX_RETAINED_INPUT_RECEIPTS);
             Ok {| is_session := Credentials.session c; is_lease := Credentials.lease c;
                   native_ident := owner; is_view := Credentials.view c; bounds := b;
                   capabilities := caps; ledger := g;
                   is_receipts := replicate MAX_RETAINED_INPUT_RECEIPTS None; is_cursor := 0;
                   is_keys := replicate 256 false; is_buttons := replicate 5 false; wheel := None;
                   pointer_floor := None; mode := AbsoluteMode; mode_epoch := 0;
                   cumulative := (0, 0); reconciliation_floor := None; reconciliation := None;
                   is_clock := now; control_taken := false |}, a)
        end
    end.
