(* ===== verification/SubmissionBase.v ===== *)
(** * The input boundary: how its methods change the world

    Two relations that every method of [Submission] satisfies ([frame]) or that
    everything except the native calls satisfies ([quiet]), and the specification
    of one native attempt on which the theorems of [SubmissionProps] rest. *)

From S2P Require Import Prelude CoreTime Authority AuthorityInv AuthoritySpec AuthorityProps.
From S2P Require Import InputSequence InputModel Submission.

(** ** Methods and relations *)

(** The lemmas that a method keeps a relation. *)
Create HintDb calm.

Section respects.
Context {S E : Type} (R : relation S) `{!PreOrder R}.

(** Every path of the method, early returns included, takes the state along [R]. *)
Definition respects {A : Type} (m : M S E A) : Prop := forall s, R s (snd (m s)).

Lemma respects_ret {A : Type} (a : A) : respects (mret a).
Proof using Type*. intros s. reflexivity. Qed.
Lemma respects_fail {A : Type} (e : E) : respects (fail e : M S E A).
Proof using Type*. intros s. reflexivity. Qed.
Lemma respects_gets {A : Type} (f : S -> A) : respects (gets f).
Proof using Type*. intros s. reflexivity. Qed.
Lemma respects_readr {A : Type} (f : S -> Result E A) : respects (readr f).
Proof using Type*. intros s. reflexivity. Qed.
Lemma respects_lift {A : Type} (r : Result E A) : respects (lift r).
Proof using Type*. intros s. reflexivity. Qed.
Lemma respects_refuse_if c (e : S -> E) : respects (refuse_if c e).
Proof using Type*. intros s. unfold refuse_if. destruct (c s); reflexivity. Qed.
Lemma respects_modify f : (forall s, R s (f s)) -> respects (modify f).
Proof using Type. intros H s. apply H. Qed.
Lemma respects_bind {A B : Type} (m : M S E A) (k : A -> M S E B) :
  respects m -> (forall a, respects (k a)) -> respects (m ≫= k).
Proof using Type*.
  intros Hm Hk s. unfold mbind, M_bind. specialize (Hm s).
  destruct (m s) as [[a|e] s']; cbn in *; [|done]. etrans; [exact Hm|apply Hk].
Qed.
Lemma respects_if {A : Type} (b : bool) (m n : M S E A) :
  respects m -> respects n -> respects (if b then m else n).
Proof using Type. by destruct b. Qed.

End respects.
(** Decompose a method into its parts. *)
Ltac respect :=
  repeat (intros; first
    [ solve [eauto 1 with calm]
    | apply respects_bind; [apply _| |]
    | apply respects_ret; apply _ | apply respects_fail; apply _
    | apply respects_gets; apply _ | apply respects_readr; apply _
    | apply respects_lift; apply _ | apply respects_refuse_if; apply _
    | apply respects_if ]); intros.

(** ** What every method keeps *)

Section frames.
Context {Sk : Type} `{InputSink Sk}.

Record frame (w w' : World Sk) : Prop := {
  fr_session : is_session (own w') = is_session (own w);
  fr_lease : is_lease (own w') = is_lease (own w);
  fr_native : native_ident (own w') = native_ident (own w);
  fr_bounds : bounds (own w') = bounds (own w);
  fr_caps : capabilities (own w') = capabilities (own w);
  fr_revoked : revoked w = true -> revoked w' = true;
}.

#[export] Instance frame_preorder : PreOrder frame.
Proof.
  split; [by split|]. intros x y z [] []. split; try congruence. auto.
Qed.

(** What native attempts keep besides: the bookkeeping outside the held state. *)
Record steady (w w' : World Sk) : Prop := {
  st_frame : frame w w';
  st_ledger : ledger (own w') = ledger (own w);
  st_receipts : is_receipts (own w') = is_receipts (own w);
  st_cursor : is_cursor (own w') = is_cursor (own w);
  st_cumulative : cumulative (own w') = cumulative (own w);
  st_floor : pointer_floor (own w') = pointer_floor (own w);
  st_rec_floor : reconciliation_floor (own w') = reconciliation_floor (own w);
  st_mode : mode (own w') = mode (own w);
  st_mode_epoch : mode_epoch (own w') = mode_epoch (own w);
}.

#[export] Instance steady_preorder : PreOrder steady.
Proof.
  split; [by split|]. intros x y z [] []. split; try congruence. by etrans.
Qed.

(** The synthetic held state. *)
Definition held_of (s : InputSession) : list bool * list bool * option Scroll.WheelDirection :=
  (is_keys s, is_buttons s, wheel s).

(** Methods that make no native call and leave the attempt alone. *)
Record quiet (w w' : World Sk) : Prop := {
  qu_steady : steady w w';
  qu_trace : trace w' = trace w;
  qu_submitted : submitted w' = submitted w;
  qu_uncertain : uncertain w' = uncertain w;
  qu_held : held_of (own w') = held_of (own w);
}.

#[export] Instance quiet_preorder : PreOrder quiet.
Proof.
  split; [by split|]. intros x y z [] []. split; try congruence. by etrans.
Qed.

Abbreviation calm m := (respects (E:=Refusal) quiet m).

Lemma quiet_world (w w' : World Sk) :
  own w' = own w -> trace w' = trace w -> submitted w' = submitted w ->
  uncertain w' = uncertain w -> (revoked w = true -> revoked w' = true) -> quiet w w'.
Proof.
  intros Ho Ht Hs Hu Hr. split; rewrite ?Ho; try done.
  split; rewrite ?Ho; try done. by split; rewrite ?Ho.
Qed.

Lemma interfere_quiet : calm interfere.
Proof.
  intros w. unfold interfere, modify. cbn. destruct (sched w); [reflexivity|].
  apply quiet_world; try done. cbn. intros ->. done.
Qed.
#[local] Hint Resolve interfere_quiet : calm.

Lemma interfere_locked_quiet : calm interfere_locked.
Proof.
  intros w. unfold interfere_locked, modify. cbn. destruct (sched w); [reflexivity|].
  apply quiet_world; try done. cbn. intros ->. done.
Qed.
#[local] Hint Resolve interfere_locked_quiet : calm.

Lemma is_revoked_quiet : calm is_revoked.
Proof. unfold is_revoked. respect. Qed.
#[local] Hint Resolve is_revoked_quiet : calm.

Lemma set_revoked_quiet : calm set_revoked.
Proof. apply respects_modify. intros w. by apply quiet_world. Qed.
#[local] Hint Resolve set_revoked_quiet : calm.

Lemma guard_revoked_quiet : calm guard_revoked.
Proof. unfold guard_revoked. respect. Qed.
#[local] Hint Resolve guard_revoked_quiet : calm.

Lemma monitor_with_quiet {A} (f : SessionAuthority -> Result AuthorityError A * SessionAuthority) :
  calm (monitor_with f).
Proof.
  unfold monitor_with. respect. intros w. unfold method. destruct (f (shared w)).
  by apply quiet_world.
Qed.
#[local] Hint Resolve monitor_with_quiet : calm.

Lemma with_time_quiet {A} t (f : HostInstant -> SessionAuthority -> Result AuthorityError A * SessionAuthority) :
  calm (with_time t f).
Proof.
  unfold with_time. respect.
  apply respects_modify. intros w. by repeat split.
Qed.
#[local] Hint Resolve with_time_quiet : calm.

Lemma check_active_quiet : calm check_active.
Proof. unfold check_active. respect. Qed.
#[local] Hint Resolve check_active_quiet : calm.

Lemma clock_quiet : calm clock.
Proof. intros w. unfold clock. destruct (ticks w); [reflexivity|]. by apply quiet_world. Qed.
#[local] Hint Resolve clock_quiet : calm.

Lemma check_quiet c now : calm (check c now).
Proof.
  unfold check. respect.
  apply respects_modify. intros w. by repeat split.
Qed.
#[local] Hint Resolve check_quiet : calm.

Lemma on_sink_quiet {E A} (f : Sk -> Result E A * Sk) (g : E -> Refusal) : calm (on_sink f g).
Proof. intros w. unfold on_sink. destruct (f (sink w)). by apply quiet_world. Qed.
#[local] Hint Resolve on_sink_quiet : calm.

Lemma cancel_prepared_quiet : calm cancel_prepared.
Proof. apply respects_modify. intros w. by apply quiet_world. Qed.
#[local] Hint Resolve cancel_prepared_quiet : calm.

Lemma require_quiet c : calm (require c).
Proof. unfold require. respect. Qed.
#[local] Hint Resolve require_quiet : calm.

Lemma position_quiet p : calm (position p).
Proof. unfold position. respect. Qed.
#[local] Hint Resolve position_quiet : calm.

(** ** The final check *)

Lemma is_revoked_Ok (w w' : World Sk) b : is_revoked w = (Ok b, w') -> b = revoked w'.
Proof. unfold is_revoked, interfere. run_method. destruct (sched w); by intros [= <- <-]. Qed.

Lemma guard_revoked_Ok (w w' : World Sk) u : guard_revoked w = (Ok u, w') -> revoked w' = false.
Proof.
  unfold guard_revoked. intros (b & w1 & Hb & Hk)%method_bind_Ok.
  apply is_revoked_Ok in Hb. destruct b; [done|]. by injection Hk as _ <-.
Qed.

(** A decision taken through the monitor is taken under the lock, on the owner's
    own lease, with the flag clear. *)
Lemma monitor_with_Ok {A} (f : SessionAuthority -> Result AuthorityError A * SessionAuthority)
  (w w' : World Sk) x :
  monitor_with f w = (Ok x, w') ->
  exists a, f a = (Ok x, shared w') /\ revoked w' = false /\ own w' = own w /\
    lease_id a = Some (is_lease (own w)) /\ native_owner a = Some (native_ident (own w)).
Proof.
  unfold monitor_with. intros (? & w1 & H1 & (? & w2 & H2 & (? & w3 & H3 &
    (? & w4 & H4 & (? & w5 & H5 & H6)%method_bind_Ok)%method_bind_Ok)%method_bind_Ok)%method_bind_Ok)%method_bind_Ok.
  apply refuse_if_Ok in H4 as [Hr ->]. apply refuse_if_Ok in H5 as [Hi ->].
  assert (Hown : own w3 = own w).
  { assert (own w1 = own w) as <-.
    { unfold guard_revoked, is_revoked, interfere in H1. run_method.
      destruct (sched w); destruct (revoked _) in H1; simplify_eq; done. }
    assert (own w2 = own w1) as <-.
    { unfold interfere, modify in H2. destruct (sched w1); by simplify_eq. }
    unfold interfere_locked, modify in H3. destruct (sched w2); by simplify_eq. }
  unfold method in H6. destruct (f (shared w3)) as [[y|e] a] eqn:Hf; cbn in H6; [|done].
  injection H6 as -> <-. exists (shared w3). cbn. rewrite Hown in *.
  apply orb_false_iff in Hi as [Hl Hn]. rewrite negb_false_iff in Hl, Hn.
  apply bool_decide_eq_true in Hl. unfold is_native_owner, is_some_and in Hn.
  destruct (native_owner (shared w3)) as [o|]; [|done]. apply Z.eqb_eq in Hn as ->. done.
Qed.

(** The authorization under which a native operation may be submitted. *)
Record authorized (l : InputLeaseId) (rq : InputRequest) (g : Grant) : Prop := {
  au_request : gr_request g = rq;
  au_revoked : gr_revoked g = false;
  au_view : gr_view g = Credentials.view (credentials rq);
  au_until : exists now, last_checked (gr_authority g) = Some now /\ now < gr_until g /\
    may_submit l (Credentials.ticket (credentials rq)) now (gr_authority g) /\
    submission_limit (Credentials.ticket (credentials rq)) (gr_authority g) = Some (gr_until g);
}.

Lemma may_submit_before i t now a d :
  may_submit i t now a -> submission_limit t a = Some d -> now < d.
Proof.
  intros [_ _ _ (u & Ho & Hu) _ Hv (l & tk & Hl & _ & Hau & Ht & He)].
  unfold submission_limit. rewrite Hl. cbn. rewrite Ht. cbn. rewrite Ho. cbn.
  intros [= <-]. destruct (view_until a) as [v|]; [specialize (Hv v eq_refl)|]; lia.
Qed.

Lemma check_Ok c now until (w w' : World Sk) :
  check c now w = (Ok until, w') ->
  revoked w' = false /\ Credentials.view c = is_view (own w') /\
  is_lease (own w') = is_lease (own w) /\
  exists at_, last_checked (shared w') = Some at_ /\ at_ < until /\
    may_submit (is_lease (own w)) (Credentials.ticket c) at_ (shared w') /\
    submission_limit (Credentials.ticket c) (shared w') = Some until.
Proof.
  unfold check. intros (? & w1 & H1 & (? & w2 & H2 & (? & w3 & H3 &
    (? & w4 & H4 & (l & w5 & H5 & H6)%method_bind_Ok)%method_bind_Ok)%method_bind_Ok)%method_bind_Ok)%method_bind_Ok.
  apply refuse_if_Ok in H4 as [Hv ->]. injection H5 as <- <-.
  rewrite negb_false_iff, bool_decide_eq_true in Hv.
  assert (Hl : is_lease (own w3) = is_lease (own w)).
  { assert (frame w w1) as F1 by (pose proof (check_active_quiet w) as Q; rewrite H1 in Q; apply Q).
    assert (frame w1 w2) as F2 by (pose proof (interfere_quiet w1) as Q; rewrite H2 in Q; apply Q).
    injection H3 as _ <-. cbn. by rewrite (fr_lease _ _ F2), (fr_lease _ _ F1). }
  unfold with_time in H6. apply method_bind_Ok in H6 as (ck & w4 & [= <- <-] & H6).
  destruct (now <? is_clock (own w3)); [done|].
  apply method_bind_Ok in H6 as (? & w5 & [= _ <-] & H6).
  apply monitor_with_Ok in H6 as (a & Hf & Hr & Hown & _).
  apply submission_deadline_Ok in Hf as (Hm & Hs & Hd).
  rewrite Hown. cbn. split_and!; [done..|]. rewrite Hs in *. rewrite Hl in *.
  exists (serialized_time a now). split; [done|].
  split; [by eapply may_submit_before|]. split; [|done].
  destruct Hm. split; try done. cbn. by intros ? [= <-].
Qed.

(** ** One native attempt *)

Lemma insert_default {A} (l : list A) k d : <[k := default d (l !! k)]> l = l.
Proof.
  destruct (l !! k) as [x|] eqn:Hk; cbn; [by apply list_insert_id|].
  apply list_insert_ge. by apply lookup_ge_None.
Qed.

Lemma held_restore op s s' : held_of s' = held_of s -> held_of (restore op s s') = held_of s.
Proof.
  unfold held_of. intros [= Hk Hb Hw].
  destruct op as [k []| |b []| | |d []|]; cbn; unfold key_held, button_held;
    rewrite ?Hk, ?Hb, ?Hw, ?insert_default; done.
Qed.

Lemma held_restore_track op s s' :
  held_of s' = held_of s -> held_of (restore op s (track op true s')) = held_of s.
Proof.
  unfold held_of. intros [= Hk Hb Hw].
  destruct op as [k []| |b []| | |d []|]; cbn; unfold key_held, button_held;
    rewrite ?Hk, ?Hb, ?Hw, ?list_insert_insert_eq, ?insert_default; done.
Qed.

Lemma track_twice op s : track op false (track op true s) = track op false s.
Proof.
  destruct op as [k []| |b []| | |d []|]; cbn; try done;
    unfold set_key_held, set_button_held; destruct s; cbn; by rewrite ?list_insert_insert_eq.
Qed.

Lemma held_track op before s s' :
  held_of s' = held_of s -> held_of (track op before s') = held_of (track op before s).
Proof.
  unfold held_of. intros [= Hk Hb Hw].
  destruct op as [k []| |b []| | |d []|]; cbn; try destruct before; cbn; congruence.
Qed.

(** What a native call that returned [r] does to the held state: a press may have
    happened unless its absence is confirmed, a release only if it is confirmed. *)
Definition held_step (op : Operation) (r : Submission) (s : InputSession) : InputSession :=
  match r with
  | Submitted => track op false s
  | Unknown => track op true s
  | _ => s
  end.

(** The states the bookkeeping of an attempt moves between. *)
Lemma steady_own (w w' : World Sk) f :
  own w' = f (own w) -> (revoked w = true -> revoked w' = true) ->
  (forall s, is_session (f s) = is_session s /\ is_lease (f s) = is_lease s /\
     native_ident (f s) = native_ident s /\ bounds (f s) = bounds s /\
     capabilities (f s) = capabilities s /\ ledger (f s) = ledger s /\
     is_receipts (f s) = is_receipts s /\ is_cursor (f s) = is_cursor s /\
     cumulative (f s) = cumulative s /\ pointer_floor (f s) = pointer_floor s /\
     reconciliation_floor (f s) = reconciliation_floor s /\ mode (f s) = mode s /\
     mode_epoch (f s) = mode_epoch s) -> steady w w'.
Proof.
  intros Ho Hr Hf. destruct (Hf (own w)) as (?&?&?&?&?&?&?&?&?&?&?&?&?).
  split; rewrite ?Ho; try done. by split; rewrite ?Ho.
Qed.

Lemma track_steady op before (w w' : World Sk) :
  own w' = track op before (own w) -> (revoked w = true -> revoked w' = true) -> steady w w'.
Proof.
  intros Ho Hr. apply (steady_own w w' (track op before) Ho Hr). intros s.
  destruct op as [k []| |b []| | |d []|], before; done.
Qed.

Lemma restore_steady op old (w w' : World Sk) :
  own w' = restore op old (own w) -> (revoked w = true -> revoked w' = true) -> steady w w'.
Proof.
  intros Ho Hr. apply (steady_own w w' (restore op old) Ho Hr). intros s.
  destruct op as [k []| |b []| | |d []|]; done.
Qed.

(** The outcomes of one attempt: refused before the native call, or one recorded
    native call under a final authorization. *)
Inductive one_outcome (rq : InputRequest) (op : Operation) (w : World Sk)
  : Result Refusal unit -> World Sk -> Prop :=
| OneRefused e w' :
    steady w w' -> trace w' = trace w -> submitted w' = submitted w -> uncertain w' = false ->
    held_of (own w') = held_of (own w) ->
    one_outcome rq op w (Err e) w'
| OneCalled g r res w' :
    steady w w' -> trace w' = trace w ++ [mkCall op r (Some g)] ->
    authorized (is_lease (own w)) rq g ->
    submitted w' = (if bool_decide (r = Submitted) then wrapping_add u32_max (submitted w) 1
                    else submitted w) ->
    uncertain w' = bool_decide (r = Unknown) ->
    held_of (own w') = held_of (held_step op r (own w)) ->
    is_ok res = bool_decide (r = Submitted) ->
    one_outcome rq op w res w'.

Lemma final_authorization_spec rq op (w w' : World Sk) r :
  final_authorization rq op w = (r, w') ->
  match r with
  | Err _ => quiet w w'
  | Ok until => exists w1, quiet w w1 /\
      w' = w1 <| own := track op true (own w1) |> <| uncertain := true |> /\
      authorized (is_lease (own w)) rq
        (mkGrant rq until (shared w') (revoked w') (is_view (own w')))
  end.
Proof.
  unfold final_authorization, mbind, M_bind.
  pose proof (clock_quiet w) as Qc. destruct (clock w) as [[now|e] w1] eqn:Hc; cbn in Qc;
    [|by intros [= <- <-]].
  pose proof (check_quiet (credentials rq) now w1) as Qk.
  destruct (check (credentials rq) now w1) as [[until|e] w2] eqn:Hk; cbn in Qk.
  2:{ intros [= <- <-]. by etrans. }
  cbn. intros [= <- <-]. exists w2. split; [by etrans|]. split; [done|].
  apply check_Ok in Hk as (Hr & Hv & Hl & Hu).
  rewrite (fr_lease _ _ (st_frame _ _ (qu_steady _ _ Qc))) in Hu.
  split; cbn; try done. by destruct op as [k []| |b []| | |d []|].
Qed.

Lemma submit_authorized_spec rq op (w w' : World Sk) r :
  submit_authorized op rq (final_authorization rq op) w = (r, w') ->
  match r with
  | Err _ => quiet w w'
  | Ok s => exists w1 g, quiet w w1 /\ authorized (is_lease (own w)) rq g /\
      own w' = track op true (own w1) /\ uncertain w' = true /\ submitted w' = submitted w1 /\
      revoked w' = revoked w1 /\ trace w' = trace w1 ++ [mkCall op s (Some g)]
  end.
Proof.
  unfold submit_authorized, mbind, M_bind.
  pose proof (on_sink_quiet (sink_revalidate op) id w) as Qv.
  destruct (on_sink (sink_revalidate op) id w) as [[u|e] w1]; cbn in Qv; [|by intros [= <- <-]].
  destruct (final_authorization rq op w1) as [[until|e] w2] eqn:Hf;
    apply final_authorization_spec in Hf.
  2:{ intros [= <- <-]. by etrans. }
  destruct Hf as (w3 & Q3 & -> & Ha). unfold gets, native. cbn.
  destruct (sink_submit_until op until (sink w3)) as [s sk]. intros [= <- <-].
  rewrite (fr_lease _ _ (st_frame _ _ (qu_steady _ _ Qv))) in Ha.
  exists w3. eexists. split; [by etrans|]. split; [exact Ha|]. done.
Qed.

(** Leaving an attempt drops the preparation, which changes the sink only. *)
Lemma one_outcome_cancel rq op (w w' : World Sk) r :
  one_outcome rq op w r w' -> one_outcome rq op w r (snd (cancel_prepared w')).
Proof.
  intros [e w0 ? ? ? ? ?|g s res w0 ? ? ? ? ? ? ?];
    pose proof (cancel_prepared_quiet w0) as [Q1 Q2 Q3 Q4 Q5].
  - apply OneRefused; [by etrans|congruence..].
  - eapply OneCalled; [by etrans|by rewrite Q2|done|congruence..|done].
Qed.

Lemma one_spec rq op (w : World Sk) :
  uncertain w = false -> one_outcome rq op w (fst (one rq op w)) (snd (one rq op w)).
Proof.
  intros Hun. unfold one, with_prepared.
  match goal with |- context [let (_, _) := ?m w in _] => set (inner := m) end.
  assert (Hi : forall r w', inner w = (r, w') -> one_outcome rq op w r w').
  2:{ destruct (inner w) as [r w']. by apply one_outcome_cancel, Hi. }
  subst inner. intros r w'. unfold mbind at 1, M_bind at 1.
  pose proof (on_sink_quiet (sink_prepare op) RPlatform w) as Qp.
  destruct (on_sink (sink_prepare op) RPlatform w) as [[u|e] w1]; cbn in Qp |- *.
  2:{ intros [= <- <-]. destruct Qp. apply OneRefused; done || congruence. }
  unfold mbind, M_bind, gets, method.
  destruct (submit_authorized op rq (final_authorization rq op) w1) as [s w2] eqn:Hs.
  apply submit_authorized_spec in Hs. destruct Qp as [Q1 Q2 Q3 Q4 Q5].
  rewrite (fr_lease _ _ (st_frame _ _ Q1)) in Hs.
  destruct s as [s|e].
  2:{ intros [= <- <-]. destruct Hs as [S1 S2 S3 S4 S5]. apply OneRefused; cbn; try congruence.
      - etrans; [exact Q1|]. etrans; [exact S1|]. by eapply restore_steady.
      - rewrite <- Q5. by apply held_restore. }
  destruct Hs as (w3 & g & [S1 S2 S3 S4 S5] & Ha & Ho & Hu & Hsub & Hrev & Htr).
  assert (Hst : steady w w2).
  { etrans; [exact Q1|]. etrans; [exact S1|]. eapply track_steady; [exact Ho|congruence]. }
  assert (Hh : held_of (own w3) = held_of (own w)) by congruence.
  destruct s as [|e| | |]; intros [= <- <-].
  - eapply OneCalled with (g := g) (r := Submitted); cbn; try solve [repeat case_bool_decide; congruence || done].
    + etrans; [exact Hst|]. by eapply track_steady.
    + rewrite Ho, track_twice. by apply held_track.
  - eapply OneCalled with (g := g) (r := NotSubmitted e); cbn; try solve [repeat case_bool_decide; congruence || done].
    + etrans; [exact Hst|]. by eapply restore_steady.
    + rewrite Ho, held_restore_track; congruence.
  - eapply OneCalled with (g := g) (r := Unknown); cbn; try solve [repeat case_bool_decide; congruence || done].
    rewrite Ho. by apply held_track.
  - eapply OneCalled with (g := g) (r := Expired); cbn; try solve [repeat case_bool_decide; congruence || done].
    + etrans; [exact Hst|]. by eapply restore_steady.
    + rewrite Ho, held_restore_track; congruence.
  - eapply OneCalled with (g := g) (r := SubFenced); cbn; try solve [repeat case_bool_decide; congruence || done].
    + etrans; [exact Hst|]. by eapply restore_steady.
    + rewrite Ho, held_restore_track; congruence.
Qed.

End frames.
#[export] Hint Resolve interfere_quiet interfere_locked_quiet is_revoked_quiet set_revoked_quiet
  guard_revoked_quiet monitor_with_quiet with_time_quiet check_active_quiet clock_quiet check_quiet
  on_sink_quiet cancel_prepared_quiet require_quiet position_quiet : calm.
