(* ===== verification/SubmissionProps.v ===== *)
(** * The input boundary: what it guarantees

    Theorems about [Submission]: every native operation is submitted under a
    final authorization, receipts tell the truth about the native calls made, no
    sequence is executed twice, revocation leaves releases only, the synthetic
    held state is exactly what the native calls imply, and reconciliation and
    cleanup only release. *)

From S2P Require Import Prelude CoreTime Authority AuthorityInv AuthoritySpec AuthorityProps.
From S2P Require Import InputSequence InputModel Submission SubmissionBase.

Section performance.
Context {Sk : Type} `{InputSink Sk}.

(** ** What the execution of a request keeps *)

Definition floor_le (f f' : option Z) : Prop :=
  match f, f' with
  | Some a, Some b => a <= b
  | Some _, None => False
  | None, _ => True
  end.

#[export] Instance floor_le_preorder : PreOrder floor_le.
Proof. split; [by intros [?|]; cbn|]. intros [?|] [?|] [?|]; cbn; done || lia. Qed.

Record kept (w w' : World Sk) : Prop := {
  kp_frame : frame w w';
  kp_ledger : ledger (own w') = ledger (own w);
  kp_receipts : is_receipts (own w') = is_receipts (own w);
  kp_cursor : is_cursor (own w') = is_cursor (own w);
  kp_floor : floor_le (pointer_floor (own w)) (pointer_floor (own w'));
  kp_rec_floor : reconciliation_floor (own w') = reconciliation_floor (own w);
}.

#[export] Instance kept_preorder : PreOrder kept.
Proof. split; [by split|]. intros x y z [] []. split; try congruence; by etrans. Qed.

(** No native call, no change to the attempt or to the held state. *)
Record silent (w w' : World Sk) : Prop := {
  si_kept : kept w w';
  si_trace : trace w' = trace w;
  si_submitted : submitted w' = submitted w;
  si_uncertain : uncertain w' = uncertain w;
  si_held : held_of (own w') = held_of (own w);
}.

#[export] Instance silent_preorder : PreOrder silent.
Proof. split; [by split|]. intros x y z [] []. split; try congruence. by etrans. Qed.

Lemma steady_kept (w w' : World Sk) : steady w w' -> kept w w'.
Proof. intros []. split; try done. by rewrite st_floor. Qed.

Lemma quiet_silent (w w' : World Sk) : quiet w w' -> silent w w'.
Proof. intros []. split; try done. by apply steady_kept. Qed.

Lemma calm_silent {A} (m : M (World Sk) Refusal A) : respects quiet m -> respects silent m.
Proof. intros Hm w. apply quiet_silent, Hm. Qed.

Lemma on_own_silent (f : InputSession -> InputSession) :
  (forall s, is_session (f s) = is_session s /\ is_lease (f s) = is_lease s /\
     native_ident (f s) = native_ident s /\ bounds (f s) = bounds s /\
     capabilities (f s) = capabilities s /\ ledger (f s) = ledger s /\
     is_receipts (f s) = is_receipts s /\ is_cursor (f s) = is_cursor s /\
     floor_le (pointer_floor s) (pointer_floor (f s)) /\
     reconciliation_floor (f s) = reconciliation_floor s /\ held_of (f s) = held_of s) ->
  respects (E:=Refusal) silent (on_own f : M (World Sk) Refusal unit).
Proof.
  intros Hf w. destruct (Hf (own w)) as (?&?&?&?&?&?&?&?&?&?&?).
  split; try done; split; try done; by split.
Qed.

Lemma barrier_silent b : respects (E:=Refusal) silent (on_own (barrier b) : M (World Sk) Refusal unit).
Proof.
  apply on_own_silent. intros s. split_and!; try done. unfold barrier; cbn.
  destruct (pointer_floor s); cbn; lia || done.
Qed.

(** ** Performing a list of operations *)

Definition is_sub (e : NativeCall) : Prop := nc_result e = Submitted.
#[export] Instance is_sub_dec e : Decision (is_sub e).
Proof. unfold is_sub. apply _. Defined.
Definition n_sub (l : list NativeCall) : nat := length (filter is_sub l).

Definition replay (l : list NativeCall) (s : InputSession) : InputSession :=
  foldl (fun s e => held_step (nc_op e) (nc_result e) s) s l.

Definition granted (lease : InputLeaseId) (rq : InputRequest) (e : NativeCall) : Prop :=
  exists g, nc_grant e = Some g /\ authorized lease rq g.

(** How the last native call of a failed attempt ended. *)
Definition stopped (ops : list Operation) (l : list NativeCall) (unc : bool) : Prop :=
  (Forall is_sub l /\ unc = false /\ (length l < length ops \/ l = [])%nat) \/
  (exists l0 e, l = l0 ++ [e] /\ Forall is_sub l0 /\ ~ is_sub e /\
     unc = bool_decide (nc_result e = Unknown)).

(** [l] are the native calls made on the way from [w] to [w'] while performing
    [ops] in order. *)
Record performs (rq : InputRequest) (ops : list Operation) (w : World Sk)
  (r : Result Refusal unit) (w' : World Sk) (l : list NativeCall) : Prop := {
  pf_kept : kept w w';
  pf_trace : trace w' = trace w ++ l;
  pf_grants : Forall (granted (is_lease (own w)) rq) l;
  pf_count : submitted w' = (submitted w + Z.of_nat (n_sub l)) mod (u32_max + 1);
  pf_held : held_of (own w') = held_of (replay l (own w));
  pf_result :
    match r with
    | Ok _ => nc_op <$> l = ops /\ Forall is_sub l /\ uncertain w' = false
    | Err _ => nc_op <$> l `prefix_of` ops /\ stopped ops l (uncertain w')
    end;
}.

(** The state between two native calls of an attempt. *)
Definition ready (w : World Sk) : Prop := uncertain w = false /\ fits u32_max (submitted w).

Lemma replay_held l : forall s s', held_of s = held_of s' -> held_of (replay l s) = held_of (replay l s').
Proof.
  induction l as [|e l IH]; intros s s' Hs; [done|]. apply IH.
  destruct (nc_result e); cbn; try done; by apply held_track.
Qed.

Lemma n_sub_app l1 l2 : n_sub (l1 ++ l2) = (n_sub l1 + n_sub l2)%nat.
Proof. unfold n_sub. by rewrite filter_app, length_app. Qed.

Lemma mod_small_u32 n : fits u32_max n -> n mod (u32_max + 1) = n.
Proof. intros [? ?]. apply Z.mod_small. lia. Qed.

Lemma performs_ready rq ops w u w' l : performs rq ops w (Ok u) w' l -> ready w'.
Proof.
  intros [_ _ _ Hc _ (_ & _ & Hu)]. split; [done|]. rewrite Hc.
  pose proof (Z.mod_pos_bound (submitted w + Z.of_nat (n_sub l)) (u32_max + 1) ltac:(by vm_compute)).
  unfold fits. lia.
Qed.

Lemma performs_one rq op w :
  ready w -> exists l, performs rq [op] w (fst (one rq op w)) (snd (one rq op w)) l.
Proof.
  intros [Hu Hf]. destruct (one_spec rq op w Hu) as [e w' Hst Ht Hs Hun Hh|g r res w' Hst Ht Ha Hs Hun Hh Hr].
  - exists []. split; try done.
    + by apply steady_kept.
    + by rewrite app_nil_r.
    + cbn. rewrite Z.add_0_r, mod_small_u32; done.
    + split; [by apply prefix_nil|]. left. rewrite Hun. split_and!; [done..|]. by right.
  - exists [mkCall op r (Some g)]. split; try done.
    + by apply steady_kept.
    + repeat constructor. by exists g.
    + rewrite Hs. unfold n_sub. rewrite filter_cons. cbn [filter].
      case_bool_decide as Hb; [rewrite decide_True by done|rewrite decide_False by done]; cbn.
      * done.
      * by rewrite Z.add_0_r, mod_small_u32.
    + destruct res as [[]|e].
      * cbn in Hr. symmetry in Hr. apply bool_decide_eq_true in Hr as ->. cbn.
        split_and!; [done| |done]. by repeat constructor.
      * cbn in Hr. symmetry in Hr. apply bool_decide_eq_false in Hr. split; [done|]. right.
        exists [], (mkCall op r (Some g)). by split_and!.
Qed.

Lemma performs_seq rq ops1 ops2 w u w1 r w' l1 l2 :
  (ops2 = [] -> is_ok r = true) -> performs rq ops1 w (Ok u) w1 l1 -> performs rq ops2 w1 r w' l2 ->
  performs rq (ops1 ++ ops2) w r w' (l1 ++ l2).
Proof.
  intros Hne [K1 T1 G1 C1 H1 (O1 & S1 & U1)] [K2 T2 G2 C2 H2 R2]. split.
  - by etrans.
  - by rewrite T2, T1, (assoc_L (++)).
  - rewrite (fr_lease _ _ (kp_frame _ _ K1)) in G2. by apply Forall_app.
  - rewrite C2, C1, n_sub_app, Nat2Z.inj_add, Zplus_mod_idemp_l. f_equal. lia.
  - rewrite H2. unfold replay. rewrite foldl_app. by apply replay_held.
  - rewrite fmap_app, O1. destruct r as [v|e].
    + destruct R2 as (-> & ? & ?). split_and!; [done| |done]. by apply Forall_app.
    + destruct R2 as [Hp Hs]. split; [by apply prefix_app|].
      destruct Hs as [(Hs & Hu & Hl)|(l0 & e0 & -> & Hs & Hn & Hu)].
      * left. split_and!; [by apply Forall_app|done|]. rewrite !length_app, <- O1, length_fmap.
        destruct Hl as [Hl | ->]; [left; lia|]. cbn.
        destruct ops2; [by specialize (Hne eq_refl)|]. left; cbn; lia.
      * right. exists (l1 ++ l0), e0. rewrite (assoc_L (++)). split_and!; try done. by apply Forall_app.
Qed.

(** A method that performs [ops], from any state between two native calls. *)
Definition does (rq : InputRequest) (ops : list Operation) (m : M (World Sk) Refusal unit) : Prop :=
  forall w, ready w -> exists l, performs rq ops w (fst (m w)) (snd (m w)) l.

Lemma performs_refused rq ops w e w' : ready w -> silent w w' -> performs rq ops w (Err e) w' [].
Proof.
  intros [Hu Hf] [K T S U Hh]. split; try done.
  - by rewrite app_nil_r.
  - rewrite S. cbn. by rewrite Z.add_0_r, mod_small_u32.
  - split; [by apply prefix_nil|]. left. split_and!; [done|congruence|by right].
Qed.

Lemma performs_nothing rq w w' u : ready w -> silent w w' -> performs rq [] w (Ok u) w' [].
Proof.
  intros [Hu Hf] [K T S U Hh]. split; try done.
  - by rewrite app_nil_r.
  - rewrite S. cbn. by rewrite Z.add_0_r, mod_small_u32.
  - split_and!; [done..|congruence].
Qed.

Lemma silent_ready w w' : ready w -> silent w w' -> ready w'.
Proof. intros [? ?] [_ _ Hs Hu _]. split; congruence. Qed.

Lemma performs_silent_first rq ops w w1 r w' l :
  silent w w1 -> performs rq ops w1 r w' l -> performs rq ops w r w' l.
Proof.
  intros [K T S U Hh] [K2 T2 G2 C2 H2 R2]. split; try done.
  - by etrans.
  - by rewrite T2, T.
  - by rewrite <- (fr_lease _ _ (kp_frame _ _ K)).
  - by rewrite C2, S.
  - rewrite H2. by apply replay_held.
Qed.

Lemma performs_silent_last rq ops w w1 w' u l :
  performs rq ops w (Ok u) w1 l -> silent w1 w' -> performs rq ops w (Ok tt) w' l.
Proof.
  intros [K2 T2 G2 C2 H2 (R2 & R3 & R4)] [K T S U Hh]. split; try congruence.
  - by etrans.
  - split_and!; [done..|congruence].
Qed.

Lemma performs_extend rq ops ops' w e w' l :
  performs rq ops w (Err e) w' l -> performs rq (ops ++ ops') w (Err e) w' l.
Proof.
  intros [K T G C Hh [P S]]. split; try done. split; [by apply prefix_app_r|].
  destruct S as [(? & ? & Hl)|?]; [left|by right]. rewrite length_app.
  split_and!; [done..|]. destruct Hl; [left; lia|by right].
Qed.

Lemma does_one rq op : does rq [op] (one rq op).
Proof. intros w Hw. by apply performs_one. Qed.

Lemma does_silent {A} rq ops (m : M (World Sk) Refusal A) k :
  respects silent m -> (forall a, does rq ops (k a)) -> does rq ops (m ≫= k).
Proof.
  intros Hm Hk w Hw. unfold mbind, M_bind. specialize (Hm w).
  destruct (m w) as [[a|e] w1]; cbn in *.
  - destruct (Hk a w1 (silent_ready _ _ Hw Hm)) as [l Hl]. exists l.
    by eapply performs_silent_first.
  - exists []. by apply performs_refused.
Qed.

Lemma does_fail rq ops e : does rq ops (fail e).
Proof. intros w Hw. exists []. by apply performs_refused. Qed.

Lemma does_seq rq ops1 ops2 (m k : M (World Sk) Refusal unit) :
  (ops2 = [] -> forall w, is_ok (fst (k w)) = true) ->
  does rq ops1 m -> does rq ops2 k -> does rq (ops1 ++ ops2) (m ≫= fun _ => k).
Proof.
  intros Hne Hm Hk w Hw. unfold mbind, M_bind. destruct (Hm w Hw) as [l1 H1].
  destruct (m w) as [[u|e] w1]; cbn in *.
  - destruct (Hk w1 (performs_ready _ _ _ _ _ _ H1)) as [l2 H2]. exists (l1 ++ l2).
    eapply performs_seq; [|done..]. intros He. by apply Hne.
  - exists l1. by apply performs_extend.
Qed.

Lemma does_then rq ops (m : M (World Sk) Refusal unit) f :
  does rq ops m -> respects (E:=Refusal) silent (on_own f : M (World Sk) Refusal unit) ->
  does rq ops (m ≫= fun _ => on_own f).
Proof.
  intros Hm Hf w Hw. unfold mbind, M_bind. destruct (Hm w Hw) as [l H1].
  destruct (m w) as [[u|e] w1]; cbn in *; [|by exists l].
  exists l. eapply performs_silent_last; [done|]. apply (Hf w1).
Qed.

Lemma does_for_each {A} rq (g : A -> list Operation) (f : A -> M (World Sk) Refusal unit) xs :
  (forall x, does rq (g x) (f x)) -> (forall x, g x <> []) ->
  does rq (concat (g <$> xs)) (for_each f xs).
Proof.
  intros Hf Hg. induction xs as [|x xs IH].
  - intros w Hw. exists []. by apply performs_nothing.
  - cbn [fmap list_fmap concat for_each]. apply does_seq; [|done..].
    intros He w. destruct xs as [|y xs]; [done|]. cbn in He.
    apply app_eq_nil in He as [He _]. by destruct (Hg y).
Qed.

(** ** The operations of a request *)

Definition wheel_ops (s : Scroll.LineScroll) : list Operation :=
  concat ((fun d => [OpWheel d true; OpWheel d false]) <$> Scroll.steps s).

(** The native operations that realize an event; [pair] and [lines] are the
    sink's two answers about repeats and line scrolling. *)
Definition expansion (pair lines : bool) (cum : Z * Z) (e : InputEvent) : list Operation :=
  match e with
  | EvKey k t =>
      if bool_decide (t = Repeat) && pair then [OpKey k Release; OpKey k Press] else [OpKey k t]
  | EvPointer p => [OpAbsolute p]
  | EvButton b pressed p _ => [OpAbsolute p; OpButton b pressed]
  | EvScroll p _ x y u =>
      OpAbsolute p ::
        (if bool_decide (u = Lines) && lines
         then match Scroll.new x y with Some s => wheel_ops s | None => [] end
         else [OpScroll x y u])
  | EvText t => OpText <$> t
  | EvRelative _ cx cy =>
      if (cx =? fst cum) && (cy =? snd cum) then [] else [OpRelative (cx - fst cum) (cy - snd cum)]
  | EvMode _ _ => []
  end.

Lemma does_wheel rq s : does rq (wheel_ops s) (wheel_steps rq s).
Proof.
  unfold wheel_steps, wheel_ops.
  apply (does_for_each rq (fun d => [OpWheel d true; OpWheel d false])); [|done].
  intros d. apply (does_for_each rq (fun b => [OpWheel d b]) _ [true; false]); [|done].
  intros b. apply does_one.
Qed.

Lemma wheel_steps_nil rq s w : wheel_ops s = [] -> is_ok (fst (wheel_steps (Sk:=Sk) rq s w)) = true.
Proof. unfold wheel_ops, wheel_steps. by destruct (Scroll.steps s). Qed.

(** A method that performs one of the lists in [P]. *)
Definition plans (rq : InputRequest) (P : list Operation -> Prop) (m : M (World Sk) Refusal unit)
  : Prop :=
  forall w, ready w -> exists ops l, P ops /\ performs rq ops w (fst (m w)) (snd (m w)) l.

Lemma plans_does rq (P : list Operation -> Prop) ops m : P ops -> does rq ops m -> plans rq P m.
Proof. intros HP Hm w Hw. destruct (Hm w Hw) as [l Hl]. by exists ops, l. Qed.

Lemma plans_silent {A} rq P ops0 (m : M (World Sk) Refusal A) k :
  P ops0 -> respects silent m -> (forall a, plans rq P (k a)) -> plans rq P (m ≫= k).
Proof.
  intros HP Hm Hk w Hw. unfold mbind, M_bind. specialize (Hm w).
  destruct (m w) as [[a|e] w1]; cbn in *.
  - destruct (Hk a w1 (silent_ready _ _ Hw Hm)) as (ops & l & Ho & Hl). exists ops, l.
    split; [done|]. by eapply performs_silent_first.
  - exists ops0, []. split; [done|]. by apply performs_refused.
Qed.

Lemma plans_ret {A} rq P (a : A) (k : A -> M (World Sk) Refusal unit) :
  plans rq P (k a) -> plans rq P (mret a ≫= k).
Proof. intros Hk. exact Hk. Qed.

Lemma performs_length rq ops w r w' l :
  performs rq ops w r w' l -> (length l <= length ops)%nat.
Proof.
  intros [_ _ _ _ _ Hr]. destruct r.
  - destruct Hr as (<- & _). by rewrite length_fmap.
  - destruct Hr as [Hp _]. apply prefix_length in Hp. by rewrite length_fmap in Hp.
Qed.

Lemma require_silent c : respects (E:=Refusal) silent (require c : M (World Sk) Refusal unit).
Proof. apply calm_silent, require_quiet. Qed.
Lemma position_silent p : respects (E:=Refusal) silent (position p : M (World Sk) Refusal unit).
Proof. apply calm_silent, position_quiet. Qed.
Lemma gets_silent {A} (f : World Sk -> A) :
  respects (E:=Refusal) silent (gets f : M (World Sk) Refusal A).
Proof. apply respects_gets, _. Qed.
Lemma refuse_if_silent c e :
  respects (E:=Refusal) silent (refuse_if c e : M (World Sk) Refusal unit).
Proof. apply respects_refuse_if, _. Qed.

Definition plan_of (rq : InputRequest) (cum : Z * Z) (ops : list Operation) : Prop :=
  exists pair lines, ops = expansion pair lines cum (event rq).

Lemma key_transition_plans rq k t cum :
  event rq = EvKey k t -> plans rq (plan_of rq cum) (key_transition rq k t).
Proof.
  intros He. assert (HP : forall pair, plan_of rq cum (expansion pair false cum (EvKey k t))).
  { intros pair. exists pair, false. by rewrite He. }
  unfold key_transition.
  eapply plans_silent; [apply (HP false)|apply require_silent|intros _].
  eapply plans_silent; [apply (HP false)|apply gets_silent|intros held].
  eapply plans_silent; [apply (HP false)| |intros _].
  { destruct t; repeat first [apply respects_if | apply respects_fail, _ | apply respects_ret, _
      | apply respects_bind; [apply _|apply require_silent|intros _]]. }
  eapply plans_silent; [apply (HP false)|apply gets_silent|intros pair].
  eapply plans_does; [apply (HP pair)|]. cbn. destruct (bool_decide (t = Repeat) && pair).
  - apply (does_seq rq [OpKey k Release] [OpKey k Press]); [done|apply does_one..].
  - apply does_one.
Qed.

Lemma scroll_plans rq p bar x y u cum :
  event rq = EvScroll p bar x y u -> plans rq (plan_of rq cum) (realize rq).
Proof.
  intros He. assert (HP : forall lines, plan_of rq cum (expansion false lines cum (EvScroll p bar x y u))).
  { intros lines. exists false, lines. by rewrite He. }
  unfold realize. rewrite He.
  eapply plans_silent; [apply (HP false)|apply require_silent|intros _].
  eapply plans_silent; [apply (HP false)|apply position_silent|intros _].
  eapply plans_silent; [apply (HP false)|apply gets_silent|intros lines].
  specialize (HP lines). cbn [expansion] in HP.
  destruct (bool_decide (u = Lines) && lines).
  - destruct (Scroll.new x y) as [sc|].
    + apply (plans_ret rq _ (Some sc)). eapply plans_does; [exact HP|].
      apply does_silent; [apply barrier_silent|intros _].
      apply (does_seq rq [OpAbsolute p]); [|apply does_one|apply does_wheel].
      intros He' w. by apply wheel_steps_nil.
    + intros w Hw. exists [OpAbsolute p], []. split; [done|].
      by apply (performs_refused rq _ w RUnsupported).
  - apply (plans_ret rq _ None). eapply plans_does; [exact HP|].
    apply does_silent; [apply barrier_silent|intros _].
    by apply (does_seq rq [OpAbsolute p] [OpScroll x y u]); [|apply does_one..].
Qed.

Lemma delta_Ok new old n : delta new old = Ok n -> n = new - old.
Proof. unfold delta. case_match; [by intros [= <-]|done]. Qed.

Lemma cumulative_silent c :
  respects (E:=Refusal) silent
    (on_own (fun s => s <| cumulative := c |>) : M (World Sk) Refusal unit).
Proof. apply on_own_silent. intros s. by split_and!. Qed.

Lemma relative_tail rq x y c :
  does rq (if (x =? 0) && (y =? 0) then [] else [OpRelative x y])
    (_ ← (if negb (x =? 0) || negb (y =? 0) then one rq (OpRelative x y) else mret tt);
     on_own (fun s => s <| cumulative := c |>)).
Proof.
  apply does_then; [|apply cumulative_silent].
  destruct (x =? 0), (y =? 0); cbn; try apply does_one.
  intros w Hw. exists []. by apply performs_nothing.
Qed.

Lemma relative_plans rq epoch cx cy w :
  event rq = EvRelative epoch cx cy -> ready w ->
  exists ops l, plan_of rq (cumulative (own w)) ops /\
    performs rq ops w (fst (realize rq w)) (snd (realize rq w)) l.
Proof.
  intros He Hw. exists (expansion false false (cumulative (own w)) (event rq)).
  unfold realize. rewrite He.
  assert (Hrefused : forall e, exists l, plan_of rq (cumulative (own w))
    (expansion false false (cumulative (own w)) (EvRelative epoch cx cy)) /\
    performs rq (expansion false false (cumulative (own w)) (EvRelative epoch cx cy)) w (Err e) w l).
  { intros e. exists []. split; [exists false, false; by rewrite He|]. by apply performs_refused. }
  unfold mbind, M_bind, require, refuse_if, readr.
  destruct (negb (cap_contains _ _)); [apply Hrefused|]. cbn.
  destruct (_ || _); [apply Hrefused|].
  destruct (delta cx _) as [x|e] eqn:Hx; [|apply Hrefused].
  destruct (delta cy _) as [y|e] eqn:Hy; [|apply Hrefused].
  apply delta_Ok in Hx as ->. apply delta_Ok in Hy as ->.
  destruct (relative_tail rq (cx - fst (cumulative (own w))) (cy - snd (cumulative (own w)))
    (cx, cy) w Hw) as [l Hl].
  exists l. split; [exists false, false; by rewrite He|].
  assert (Hz : forall a b, (a - b =? 0) = (a =? b)) by (intros; destruct (Z.eqb_spec a b); lia).
  rewrite (Hz cx), (Hz cy) in Hl at 1. exact Hl.
Qed.

(** Either nothing was called, or the whole expansion is within the bound. *)
Definition bounded (ops : list Operation) (l : list NativeCall) : Prop :=
  l = [] \/ Z.of_nat (length ops) <= MAX_COMMITTED_TEXT_BYTES.

Lemma performs_bounded rq ops w r w' l :
  performs rq ops w r w' l -> bounded ops l -> Z.of_nat (length l) <= MAX_COMMITTED_TEXT_BYTES.
Proof. intros Hl%performs_length [->|Hb]; [done|lia]. Qed.

Lemma text_plans rq text w :
  event rq = EvText text -> ready w ->
  exists l, performs rq (OpText <$> text) w (fst (realize rq w)) (snd (realize rq w)) l /\
    bounded (OpText <$> text) l.
Proof.
  intros He Hw. unfold realize. rewrite He. unfold mbind, M_bind, require, refuse_if.
  destruct (negb (cap_contains _ _)).
  { exists []. split; [by apply performs_refused|by left]. }
  cbn. destruct (_ || _) eqn:Hlen.
  { exists []. split; [by apply performs_refused|by left]. }
  assert (Hd : does rq (OpText <$> text) (for_each (fun c => one rq (OpText c)) text)).
  { replace (OpText <$> text) with (concat ((fun c => [OpText c]) <$> text)).
    - apply does_for_each; [intros c; apply does_one|done].
    - clear. induction text as [|c text IH]; cbn in *; [done|]. by rewrite IH. }
  destruct (Hd w Hw) as [l Hl]. exists l. split; [exact Hl|].
  right. rewrite length_fmap. pose proof (text_len_length text). lia.
Qed.

Lemma mode_silent m e :
  respects (E:=Refusal) silent
    (on_own (fun s => s <| mode := m |> <| mode_epoch := e |> <| cumulative := (0, 0) |>)
      : M (World Sk) Refusal unit).
Proof. apply on_own_silent. intros s. by split_and!. Qed.

Lemma mode_plans rq m e cum :
  event rq = EvMode m e -> plans rq (plan_of rq cum) (realize rq).
Proof.
  intros He w Hw. exists []. unfold realize. rewrite He.
  assert (Hs : respects (E:=Refusal) silent (realize (Sk:=Sk) rq)).
  { unfold realize. rewrite He.
    repeat first [ apply respects_bind; [apply _| |intros _] | apply require_silent
      | apply refuse_if_silent | apply mode_silent ].
    apply respects_bind; [apply _|apply gets_silent|intros l].
    apply calm_silent, monitor_with_quiet. }
  specialize (Hs w). unfold realize in Hs. rewrite He in Hs.
  exists []. split; [exists false, false; by rewrite He|].
  match goal with |- performs _ _ _ (fst ?x) _ _ => destruct x as [[u|er] w'] eqn:Hx end.
  - by apply performs_nothing.
  - by apply performs_refused.
Qed.

Lemma pointer_plans rq p cum : event rq = EvPointer p -> plans rq (plan_of rq cum) (realize rq).
Proof.
  intros He. unfold realize. rewrite He.
  eapply plans_does; [exists false, false; rewrite He; reflexivity|].
  apply does_silent; [apply position_silent|intros _]. apply does_one.
Qed.

Lemma button_plans rq b pressed p bar cum :
  event rq = EvButton b pressed p bar -> plans rq (plan_of rq cum) (realize rq).
Proof.
  intros He. unfold realize. rewrite He.
  eapply plans_does; [exists false, false; rewrite He; reflexivity|].
  apply does_silent; [apply require_silent|intros _].
  apply does_silent; [apply position_silent|intros _].
  apply does_silent; [apply refuse_if_silent|intros _].
  apply does_silent; [apply barrier_silent|intros _].
  by apply (does_seq rq [OpAbsolute p] [OpButton b pressed]); [|apply does_one..].
Qed.

Lemma concat_pairs_length (ds : list Scroll.WheelDirection) :
  length (concat ((fun d => [OpWheel d true; OpWheel d false]) <$> ds)) = (2 * length ds)%nat.
Proof. induction ds as [|d ds IH]; [done|]. cbn in *. rewrite IH. lia. Qed.

Lemma wheel_ops_length x y s : Scroll.new x y = Some s -> (length (wheel_ops s) <= 64)%nat.
Proof.
  intros Hn. unfold wheel_ops. rewrite concat_pairs_length.
  assert (length (Scroll.steps s) <= 32)%nat; [|lia].
  unfold Scroll.new in Hn. destruct (_ || _); [done|].
  destruct (checked_add _ _ _) as [n|] eqn:Hc; [|done]. apply checked_add_Some in Hc as [-> _].
  destruct (_ <? _) eqn:Hlt; [done|]. injection Hn as <-. unfold Scroll.steps; cbn.
  rewrite length_app, !length_replicate. unfold Scroll.MAX_STEPS in Hlt. lia.
Qed.

(** Apart from text, an event takes at most 65 native operations. *)
Lemma expansion_length pair lines cum e :
  (forall t, e <> EvText t) -> (length (expansion pair lines cum e) <= 65)%nat.
Proof.
  intros Ht. destruct e as [k t|b pr p bar|p|ep cx cy|p bar x y u|t|m ep]; cbn.
  - destruct (_ && _); cbn; lia.
  - lia.
  - lia.
  - destruct (_ && _); cbn; lia.
  - destruct (_ && _); [|cbn; lia]. destruct (Scroll.new x y) eqn:Hn; [|cbn; lia].
    apply wheel_ops_length in Hn. lia.
  - by destruct (Ht t).
  - lia.
Qed.

(** Every request is realized by a prefix of its expansion, at most 4096 calls. *)
Lemma realize_performs rq w :
  ready w -> exists ops l, plan_of rq (cumulative (own w)) ops /\
    performs rq ops w (fst (realize rq w)) (snd (realize rq w)) l /\
    bounded ops l.
Proof.
  intros Hw.
  assert (Hbound : forall ops l, (forall t, event rq <> EvText t) ->
    plan_of rq (cumulative (own w)) ops ->
    performs rq ops w (fst (realize rq w)) (snd (realize rq w)) l ->
    bounded ops l).
  { intros ops l Ht (pair & lines & ->) _. right.
    pose proof (expansion_length pair lines (cumulative (own w)) _ Ht).
    unfold MAX_COMMITTED_TEXT_BYTES. lia. }
  destruct (event rq) as [k t|b pr p bar|p|ep cx cy|p bar x y u|t|m ep] eqn:He.
  6:{ destruct (text_plans rq t w He Hw) as (l & Hl & Hb). exists (OpText <$> t), l.
      split; [exists false, false; by rewrite He|done]. }
  all: assert (Hp : exists ops l, plan_of rq (cumulative (own w)) ops /\
    performs rq ops w (fst (realize rq w)) (snd (realize rq w)) l).
  1: { pose proof (key_transition_plans rq k t (cumulative (own w)) He w Hw) as Hk.
       unfold realize. rewrite He. exact Hk. }
  2: by eapply button_plans.
  3: by eapply pointer_plans.
  4: by eapply relative_plans.
  5: by eapply scroll_plans.
  6: by eapply mode_plans.
  all: destruct Hp as (ops & l & Ho & Hl); exists ops, l; split_and!; [done..|];
    by apply (Hbound ops l).
Qed.

Lemma execute_performs rq w :
  ready w -> exists ops l, plan_of rq (cumulative (own w)) ops /\
    performs rq ops w (fst (execute rq w)) (snd (execute rq w)) l /\
    bounded ops l.
Proof.
  intros Hw. unfold execute, mbind, M_bind.
  assert (Href : forall e w', quiet w w' -> exists ops l, plan_of rq (cumulative (own w)) ops /\
    performs rq ops w (Err e) w' l /\ bounded ops l).
  { intros e w' Q. exists (expansion false false (cumulative (own w)) (event rq)), [].
    split_and!; [by exists false, false| |by left]. by apply performs_refused, quiet_silent. }
  pose proof (clock_quiet w) as Q1. destruct (clock w) as [[now|e] w1]; cbn in Q1; [|by apply Href].
  pose proof (check_quiet (credentials rq) now w1) as Q2.
  destruct (check (credentials rq) now w1) as [[until|e] w2]; cbn in Q2.
  2:{ apply Href. by etrans. }
  assert (Q : quiet w w2) by by etrans.
  destruct (realize_performs rq w2) as (ops & l & Ho & Hl & Hb).
  { eapply silent_ready; [exact Hw|by apply quiet_silent]. }
  exists ops, l. split_and!; [|by eapply performs_silent_first; [apply quiet_silent|]|done].
  by rewrite (st_cumulative _ _ (qu_steady _ _ Q)) in Ho.
Qed.

(** ** How the owner advances *)

(** Sequences below the ledger's next one stay consumed. *)
Definition next_le (g g' : Ledger.InputSequenceLedger) : Prop :=
  match Ledger.next_sequence g, Ledger.next_sequence g' with
  | Some a, Some b => a <= b
  | Some _, None => True
  | None, n => n = None
  end.

#[export] Instance next_le_preorder : PreOrder next_le.
Proof.
  unfold next_le. split.
  - intros g. by destruct (Ledger.next_sequence g).
  - intros g1 g2 g3. destruct (Ledger.next_sequence g1), (Ledger.next_sequence g2),
      (Ledger.next_sequence g3); intros; simplify_eq; try done; lia.
Qed.

Lemma admit_next l s g : next_le g (snd (Ledger.admit_action l s g)).
Proof.
  unfold Ledger.admit_action, next_le.
  repeat (case_match; cbn; simplify_eq/=; try done || lia);
    rewrite negb_false_iff, Z.eqb_eq in *; subst; unfold checked_add in *;
    repeat (case_match; simplify_eq; try done || lia).
Qed.

Lemma record_next l s o g : next_le g (snd (Ledger.record_outcome l s o g)).
Proof.
  assert (Hn : Ledger.next_sequence (snd (Ledger.record_outcome l s o g)) = Ledger.next_sequence g).
  { unfold Ledger.record_outcome. run_method. unfold Ledger.check_lease.
    repeat (case_match; simplify_eq/=; try done). }
  unfold next_le. rewrite Hn. by destruct (Ledger.next_sequence g).
Qed.

Lemma admit_Admitted l s g :
  fst (Ledger.admit_action l s g) = Ok Admitted_ ->
  Ledger.next_sequence g = Some s /\ Ledger.fenced g = false /\ Ledger.pending g = None.
Proof.
  unfold Ledger.admit_action. repeat (case_match; simplify_eq/=; try done).
  rewrite negb_false_iff, Z.eqb_eq in *. by subst.
Qed.

Lemma admit_Admitted_next l s g g' :
  Ledger.admit_action l s g = (Ok Admitted_, g') ->
  Ledger.next_sequence g' = checked_add u64_max s 1.
Proof. unfold Ledger.admit_action. intros Ha. by repeat (case_match; simplify_eq/=). Qed.

(** What any method of the owner may do: its identity stays, consumed sequences
    and superseded snapshots stay so, and the held state follows the native calls
    it adds to the trace, all of which satisfy [P]. *)
Record advances (P : NativeCall -> Prop) (w w' : World Sk) : Prop := {
  ad_frame : frame w w';
  ad_next : next_le (ledger (own w)) (ledger (own w'));
  ad_fenced : Ledger.fenced (ledger (own w)) = true -> Ledger.fenced (ledger (own w')) = true;
  ad_floor : floor_le (pointer_floor (own w)) (pointer_floor (own w'));
  ad_rec_floor : floor_le (reconciliation_floor (own w)) (reconciliation_floor (own w'));
  ad_log : exists l, trace w' = trace w ++ l /\ Forall P l /\
    held_of (own w') = held_of (replay l (own w));
}.

#[export] Instance advances_preorder P : PreOrder (advances P).
Proof.
  split.
  - intros w. split; try reflexivity; try done. exists []. by rewrite app_nil_r.
  - intros x y z [F1 N1 E1 L1 R1 (l1 & T1 & P1 & H1)] [F2 N2 E2 L2 R2 (l2 & T2 & P2 & H2)].
    split; try (by etrans); [by auto|]. exists (l1 ++ l2).
    split_and!; [by rewrite T2, T1, (assoc_L (++))|by apply Forall_app|].
    rewrite H2. unfold replay. rewrite foldl_app. by apply replay_held.
Qed.

Lemma advances_mono (P Q : NativeCall -> Prop) w w' :
  (forall e, P e -> Q e) -> advances P w w' -> advances Q w w'.
Proof.
  intros HPQ [? ? ? ? ? (l & ? & ? & ?)]. split; try done. exists l. split_and!; try done.
  by eapply Forall_impl.
Qed.

Lemma silent_advances P (w w' : World Sk) : silent w w' -> advances P w w'.
Proof.
  intros [[F Lg Rc Cu Fl Rf] T S U Hh]. split; try done; rewrite ?Lg, ?Rf; try done.
  exists []. by rewrite app_nil_r.
Qed.

Lemma quiet_advances P (w w' : World Sk) : quiet w w' -> advances P w w'.
Proof. intros Q. by apply silent_advances, quiet_silent. Qed.

Lemma calm_advances {A} P (m : M (World Sk) Refusal A) : respects quiet m -> respects (advances P) m.
Proof. intros Hm w. apply quiet_advances, Hm. Qed.

(** Changes to the owner that add no native call. *)
Lemma own_advances P (w w' : World Sk) f :
  own w' = f (own w) -> trace w' = trace w -> (revoked w = true -> revoked w' = true) ->
  (forall s, is_session (f s) = is_session s /\ is_lease (f s) = is_lease s /\
     native_ident (f s) = native_ident s /\ bounds (f s) = bounds s /\
     capabilities (f s) = capabilities s /\ held_of (f s) = held_of s /\
     next_le (ledger s) (ledger (f s)) /\
     (Ledger.fenced (ledger s) = true -> Ledger.fenced (ledger (f s)) = true) /\
     floor_le (pointer_floor s) (pointer_floor (f s)) /\
     floor_le (reconciliation_floor s) (reconciliation_floor (f s))) ->
  advances P w w'.
Proof.
  intros Ho Ht Hr Hf. destruct (Hf (own w)) as (?&?&?&?&?&Hh&?&?&?&?).
  split; rewrite ?Ho; try done.
  - by split; rewrite ?Ho.
  - exists []. by rewrite app_nil_r.
Qed.

Lemma revoke_advances P : respects (advances P) (revoke : M (World Sk) Refusal unit).
Proof.
  unfold revoke. apply respects_bind; [apply _|apply calm_advances, set_revoked_quiet|intros _].
  intros w. apply (own_advances P _ _ (fun s => s <| ledger := Ledger.fence (ledger s) |>)); try done.
  intros s. split_and!; try done || reflexivity. unfold next_le; cbn.
  by destruct (Ledger.next_sequence (ledger s)).
Qed.

Lemma record_advances P r pointer :
  respects (advances P) (record r pointer : M (World Sk) Refusal unit).
Proof.
  unfold record. apply respects_bind; [apply _| |intros _].
  2:{ apply respects_if; [apply respects_ret, _|apply revoke_advances]. }
  apply respects_if; [apply respects_ret, _|].
  apply respects_bind; [apply _|apply respects_gets, _|intros lease].
  apply respects_bind; [apply _| |intros ok].
  { intros w. unfold method.
    pose proof (record_next lease (rc_sequence r) (rc_outcome r) (ledger (own w))) as Hn.
    pose proof (Ledger.fenced_step (Ledger.Record_ lease (rc_sequence r) (rc_outcome r)) (ledger (own w))) as Hf.
    cbn [Ledger.step] in Hf. destruct (Ledger.record_outcome _ _ _ _) as [res g]; cbn in *.
    split; cbn; try done || reflexivity; [by intros [? _]%Hf|].
    exists []. by rewrite app_nil_r. }
  apply respects_bind; [apply _| |intros _].
  { apply respects_if; [apply respects_ret, _|apply revoke_advances]. }
  intros w. apply (own_advances P _ _ (fun s =>
    s <| is_receipts := <[is_cursor s := Some r]> (is_receipts s) |>
      <| is_cursor := ((is_cursor s + 1) mod length (is_receipts s))%nat |>)); try done.
Qed.

Lemma record_Ok r pointer (w : World Sk) : fst (record r pointer w) = Ok tt.
Proof.
  unfold record, revoke, on_own, set_revoked. run_method. unfold method.
  destruct pointer; cbn; [by destruct (outcome_continues _)|].
  destruct (Ledger.record_outcome _ _ _ _) as [res g]; cbn.
  destruct (is_ok res); cbn; by destruct (outcome_continues _).
Qed.

(** ** Attempts *)

(** What the receipt of an attempt says about the native calls [l] made for it,
    out of the operations [ops] the request expands to. *)
Definition truthful (o : InputOutcome) (ops : list Operation) (l : list NativeCall) : Prop :=
  match o with
  | SubmittedToOs => nc_op <$> l = ops /\ Forall is_sub l /\ l <> []
  | AppliedLocally => ops = [] /\ l = []
  | PartiallySubmittedToOs =>
      (exists e, e ∈ l /\ is_sub e) /\ (forall e, e ∈ l -> nc_result e <> Unknown) /\
      ~ (nc_op <$> l = ops /\ Forall is_sub l)
  | EffectUnknown => exists l0 e, l = l0 ++ [e] /\ Forall is_sub l0 /\ nc_result e = Unknown
  | RejectedBeforeSubmission | ExpiredBeforeSubmission | CancelledBeforeSubmission =>
      forall e, e ∈ l -> nc_result e <> Submitted /\ nc_result e <> Unknown
  end.

Lemma n_sub_zero l : n_sub l = 0%nat -> forall e, e ∈ l -> ~ is_sub e.
Proof.
  unfold n_sub. intros Hl%length_zero_iff_nil e He Hs.
  assert (e ∈ filter is_sub l) as Hin by by apply list_elem_of_filter.
  rewrite Hl in Hin. by apply not_elem_of_nil in Hin.
Qed.

Lemma n_sub_pos l : n_sub l <> 0%nat -> exists e, e ∈ l /\ is_sub e.
Proof.
  unfold n_sub. destruct (filter is_sub l) as [|e r] eqn:Hf; [done|]. intros _.
  assert (e ∈ filter is_sub l) as Hin by (rewrite Hf; apply list_elem_of_here).
  apply list_elem_of_filter in Hin as [? ?]. by exists e.
Qed.

Lemma n_sub_all l : Forall is_sub l -> n_sub l = length l.
Proof. intros Hl. unfold n_sub. by rewrite filter_all by by apply Forall_forall. Qed.

Lemma receipt_truthful rq ops (w : World Sk) r w' l :
  submitted w = 0 -> performs rq ops w r w' l -> bounded ops l ->
  submitted_operations (receipt_of rq r w') = Z.of_nat (n_sub l) /\
  truthful (rc_outcome (receipt_of rq r w')) ops l.
Proof.
  intros Hs0 Hp Hb%(performs_bounded _ _ _ _ _ _ Hp). destruct Hp as [_ _ _ Hc _ Hr].
  assert (Hn : submitted w' = Z.of_nat (n_sub l)).
  { rewrite Hc, Hs0. apply mod_small_u32. unfold n_sub.
    pose proof (length_filter is_sub l). unfold fits, u32_max, MAX_COMMITTED_TEXT_BYTES in *. lia. }
  split; [done|]. unfold receipt_of. cbn [rc_outcome]. rewrite Hn. destruct r as [u|e].
  - destruct Hr as (Ho & Hs & ->). destruct (Z.eqb_spec (Z.of_nat (n_sub l)) 0) as [Hz|Hz].
    + rewrite (n_sub_all l Hs) in Hz. destruct l; [|cbn in Hz; lia]. by cbn in Ho.
    + cbn. split_and!; [done..|]. intros ->. by cbn in Hz.
  - destruct Hr as [Hp [(Hs & -> & Hl)|(l0 & e0 & -> & Hs & Hne & ->)]].
    + destruct (Z.ltb_spec 0 (Z.of_nat (n_sub l))) as [Hz|Hz].
      * cbn. split_and!; [apply n_sub_pos; lia| |].
        -- intros x Hx. rewrite Forall_forall in Hs. rewrite (Hs x Hx). done.
        -- intros [Ho _]. destruct Hl as [Hl | ->]; [|by cbn in Hz].
           rewrite <- Ho, length_fmap in Hl. lia.
      * assert (l = []) as -> by (rewrite (n_sub_all l Hs) in Hz; destruct l; [done|cbn in Hz; lia]).
        assert (forall x : NativeCall, x ∈ [] -> nc_result x <> Submitted /\ nc_result x <> Unknown)
          by (intros x Hx; by apply not_elem_of_nil in Hx).
        repeat case_match; done.
    + case_bool_decide as Hu; [by exists l0, e0|].
      destruct (Z.ltb_spec 0 (Z.of_nat (n_sub (l0 ++ [e0])))) as [Hz|Hz].
      * cbn. split_and!; [apply n_sub_pos; lia| |].
        -- intros x [Hx|Hx]%elem_of_app.
           ++ rewrite Forall_forall in Hs. by rewrite (Hs x Hx).
           ++ by apply list_elem_of_singleton in Hx as ->.
        -- intros [_ Ha]. apply Forall_app in Ha as [_ Ha]. inversion_clear Ha. by apply Hne.
      * assert (Hall : forall x, x ∈ l0 ++ [e0] -> nc_result x <> Submitted /\ nc_result x <> Unknown).
        { intros x Hx. split; [exact (n_sub_zero (l0 ++ [e0]) ltac:(lia) x Hx)|].
          apply elem_of_app in Hx as [Hx|Hx]; [rewrite Forall_forall in Hs; by rewrite (Hs x Hx)|].
          by apply list_elem_of_singleton in Hx as ->. }
        repeat case_match; done.
Qed.

Lemma attempt_spec rq pointer (w : World Sk) :
  exists ops l r w1,
    plan_of rq (cumulative (own w)) ops /\
    performs rq ops (w <| submitted := 0 |> <| uncertain := false |>) r w1 l /\
    bounded ops l /\
    attempt rq pointer w = (Ok (receipt_of rq r w1), snd (record (receipt_of rq r w1) pointer w1)).
Proof.
  destruct (execute_performs rq (w <| submitted := 0 |> <| uncertain := false |>))
    as (ops & l & Ho & Hl & Hb); [by vm_compute|].
  unfold attempt.
  destruct (execute rq (w <| submitted := 0 |> <| uncertain := false |>)) as [r w1]; cbn in Hl.
  exists ops, l, r, w1. split_and!; [done..|]. unfold mbind, M_bind.
  pose proof (record_Ok (receipt_of rq r w1) pointer w1) as Hok.
  destruct (record _ _ _) as [r' w2]; cbn in *. by rewrite Hok.
Qed.

Lemma performs_advances rq ops (w : World Sk) r w' l :
  performs rq ops w r w' l -> advances (granted (is_lease (own w)) rq) w w'.
Proof.
  intros [[F Lg Rc Cu Fl Rf] T G C Hh R]. split; try done; rewrite ?Lg, ?Rf; try done || reflexivity.
  by exists l.
Qed.

Lemma attempt_advances rq pointer (w : World Sk) :
  advances (granted (is_lease (own w)) rq) w (snd (attempt rq pointer w)).
Proof.
  destruct (attempt_spec rq pointer w) as (ops & l & r & w1 & _ & Hp & _ & ->). cbn [snd].
  apply performs_advances in Hp. etrans; [|apply record_advances].
  etrans; [|exact Hp]. by apply (own_advances _ _ _ id).
Qed.

(** ** Dispatch *)

(** A dispatch either returns without an attempt, or hands the request to one:
    a pointer state above the floor, or the ledger's next sequence. *)
Inductive dispatched (rq : InputRequest) (w : World Sk) : Result Refusal Dispatch -> World Sk -> Prop :=
| DispatchIdle r w' : advances (fun _ => False) w w' -> dispatched rq w r w'
| DispatchAttempt w1 r w' :
    advances (fun _ => False) w w1 ->
    (if is_pointer (event rq)
     then (forall f, pointer_floor (own w) = Some f -> f < rq_sequence rq) /\ revoked w = false /\
          pointer_floor (own w1) = Some (rq_sequence rq)
     else Ledger.next_sequence (ledger (own w)) = Some (rq_sequence rq) /\
          Ledger.next_sequence (ledger (own w1)) = checked_add u64_max (rq_sequence rq) 1) ->
    cumulative (own w1) = cumulative (own w) ->
    attempt rq (is_pointer (event rq)) w1 = (Ok r, w') ->
    dispatched rq w (Ok (DCompleted r)) w'.

Lemma attempt_Ok rq pointer (w : World Sk) : exists r, fst (attempt rq pointer w) = Ok r.
Proof.
  destruct (attempt_spec rq pointer w) as (ops & l & r & w1 & _ & _ & _ & ->). by eexists.
Qed.

Lemma check_active_Ok (w w' : World Sk) u :
  check_active w = (Ok u, w') -> revoked w' = false /\ Ledger.fenced (ledger (own w')) = false.
Proof.
  unfold check_active. intros (r & w1 & Hr & Hk)%method_bind_Ok.
  apply is_revoked_Ok in Hr as ->. destruct (revoked w1) eqn:He; [done|].
  by apply refuse_if_Ok in Hk as [? ->].
Qed.

(** The two bookkeeping steps a dispatch takes before its attempt. *)
Lemma floor_advances rq (w : World Sk) :
  (forall f, pointer_floor (own w) = Some f -> f < rq_sequence rq) ->
  advances (fun _ => False) w
    (w <| own := (own w) <| pointer_floor := Some (rq_sequence rq) |> |>).
Proof.
  intros Hf. split; try done || reflexivity.
  - cbn. destruct (pointer_floor (own w)) as [f|]; [|done]. cbn. specialize (Hf f eq_refl). lia.
  - exists []. by rewrite app_nil_r.
Qed.

Lemma admit_advances l s res g (w : World Sk) :
  Ledger.admit_action l s (ledger (own w)) = (res, g) ->
  advances (fun _ => False) w (w <| own := (own w) <| ledger := g |> |>).
Proof.
  intros Ha. pose proof (admit_next l s (ledger (own w))) as Hn.
  pose proof (Ledger.fenced_step (Ledger.Admit l s) (ledger (own w))) as Hf.
  cbn [Ledger.step] in Hf. rewrite Ha in Hn, Hf. cbn in Hn, Hf.
  split; try done || reflexivity; [by intros [? _]%Hf|]. exists []. by rewrite app_nil_r.
Qed.

Lemma dispatch_spec rq (w : World Sk) : dispatched rq w (fst (dispatch rq w)) (snd (dispatch rq w)).
Proof.
  unfold dispatch, mbind, M_bind, refuse_if, gets.
  destruct (negb _); [by apply DispatchIdle|]. destruct (negb _); [by apply DispatchIdle|].
  destruct (is_pointer (event rq)) eqn:Hp.
  - destruct (is_some_and _ _) eqn:Hfl; [by apply DispatchIdle|].
    pose proof (check_active_quiet w) as Qa.
    destruct (check_active w) as [[u|e] w1] eqn:Ha; cbn in Qa.
    2:{ by apply DispatchIdle, quiet_advances. }
    apply check_active_Ok in Ha as [Hr _]. cbn.
    match goal with |- context [attempt rq true ?x] => set (w2 := x) end.
    destruct (attempt_Ok rq true w2) as [r Hat].
    destruct (attempt rq true w2) as [r' w3] eqn:He. cbn in Hat. subst r'. cbn.
    assert (Hfloor : forall f, pointer_floor (own w) = Some f -> f < rq_sequence rq).
    { intros f Hf. rewrite Hf in Hfl. cbn in Hfl. lia. }
    assert (Hfw : pointer_floor (own w1) = pointer_floor (own w)) by apply Qa.
    eapply (DispatchAttempt rq w w2); [| | |by rewrite Hp].
    + etrans; [by apply quiet_advances|]. apply floor_advances. by rewrite Hfw.
    + rewrite Hp. split_and!; [done| |done]. destruct (revoked w) eqn:Hrw; [|done].
      pose proof (fr_revoked _ _ (st_frame _ _ (qu_steady _ _ Qa)) Hrw). congruence.
    + apply Qa.
  - unfold method.
    pose proof (admit_Admitted (is_lease (own w)) (rq_sequence rq) (ledger (own w))) as Had.
    destruct (Ledger.admit_action _ _ _) as [res g] eqn:Hadm; cbn in Had.
    set (w1 := w <| own := (own w) <| ledger := g |> |>).
    pose proof (admit_advances _ _ _ _ w Hadm : advances _ w w1) as A1.
    destruct res as [[| |o|]|e]; cbn.
    + destruct (attempt_Ok rq false w1) as [r Hat].
      destruct (attempt rq false w1) as [r' w3] eqn:He. cbn in Hat. subst r'.
      eapply (DispatchAttempt rq w w1); [done| |done|by rewrite Hp].
      rewrite Hp. destruct (Had eq_refl) as (Hnx & _ & _). split; [done|].
      cbn. by eapply admit_Admitted_next.
    + by apply DispatchIdle.
    + by apply DispatchIdle.
    + by apply DispatchIdle.
    + apply DispatchIdle. etrans; [exact A1|].
      destruct (Ledger.fenced g); cbn; [|reflexivity].
      pose proof (revoke_advances (fun _ => False) w1) as R.
      by destruct (revoke w1) as [[]].
Qed.

(** ** Releases *)

(** [PhysicalKey] has no other values. *)
Definition physical_op (op : Operation) : Prop :=
  match op with OpKey k _ => physical_key k = Some k | _ => True end.

Definition release_op (op : Operation) : Prop := is_release op = true /\ physical_op op.

Definition released (e : NativeCall) : Prop := nc_grant e = None /\ release_op (nc_op e).

Lemma held_step_unreleased op r s :
  is_release op = true -> r <> Submitted -> held_step op r s = s.
Proof. destruct op as [k []| |b []| | |d []|], r; done. Qed.

(** A release attempt, before the owner updates its held state. *)
Lemma try_release_spec op (w : World Sk) :
  exists b w', try_release op w = (Ok b, w') /\ own w' = own w /\ revoked w' = revoked w /\
    if (b : bool) then trace w' = trace w ++ [mkCall op Submitted None]
    else exists l, trace w' = trace w ++ l /\
      Forall (fun e => nc_op e = op /\ nc_grant e = None /\ nc_result e <> Submitted) l.
Proof.
  unfold try_release, on_sink, native. destruct (sink_prepare op (sink w)) as [[u|e] sk]; cbn.
  - destruct (sink_submit op sk) as [r sk']. destruct r; cbn; eexists _, _; split_and!; try done.
    all: eexists; split; [done|]; by repeat constructor.
  - eexists _, _. split_and!; [done..|]. exists []. by rewrite app_nil_r.
Qed.

Lemma replay_unreleased op l s :
  is_release op = true ->
  Forall (fun e => nc_op e = op /\ nc_grant e = None /\ nc_result e <> Submitted) l ->
  replay l s = s.
Proof.
  intros Hop. induction 1 as [|e l (He & _ & Hr) _ IH]; [done|].
  unfold replay in *. cbn [foldl]. rewrite He, held_step_unreleased; done.
Qed.

(** Attempting a release and forgetting the input once it is confirmed. *)
Lemma release_outcome op (w w1 w' : World Sk) (b : bool) :
  release_op op -> own w1 = own w -> (revoked w = true -> revoked w1 = true) ->
  (if b then trace w1 = trace w ++ [mkCall op Submitted None]
   else exists l, trace w1 = trace w ++ l /\
     Forall (fun e => nc_op e = op /\ nc_grant e = None /\ nc_result e <> Submitted) l) ->
  trace w' = trace w1 -> revoked w' = revoked w1 ->
  own w' = (if b then track op false (own w1) else own w1) ->
  advances released w w'.
Proof.
  intros [Hop Hph] Ho Hr Ht Ht' Hr' Ho'.
  assert (Hst : steady w w').
  { destruct b; cbn in Ho'; rewrite Ho in Ho'.
    - apply (track_steady op false); [done|by rewrite Hr'].
    - apply (steady_own w w' id); [done|by rewrite Hr'|done]. }
  destruct Hst as [F Lg _ _ _ Fl Rf _ _]. split; rewrite ?Lg, ?Fl, ?Rf; try done.
  destruct b.
  - exists [mkCall op Submitted None]. split_and!; [congruence|by repeat constructor|].
    rewrite Ho', Ho. done.
  - destruct Ht as (l & Hl & Hall). exists l. split_and!; [congruence| |].
    + eapply Forall_impl; [exact Hall|]. intros e (He & Hg & _). split; [done|by rewrite He].
    + rewrite (replay_unreleased op l) by done. congruence.
Qed.

Lemma release_then op n1 n2 :
  release_op op ->
  respects (advances released)
    ((ok ← try_release op;
      if (ok : bool) then (_ ← on_own (track op false); mret n1) else mret n2)
      : M (World Sk) Refusal Z).
Proof.
  intros Hop w. unfold mbind at 1, M_bind at 1.
  destruct (try_release_spec op w) as (b & w1 & -> & Ho & Hr & Ht).
  destruct b; cbn.
  - apply (release_outcome op w w1 _ true); try done. congruence.
  - apply (release_outcome op w w1 w1 false); try done. congruence.
Qed.

Lemma release_then_prepared op n1 n2 :
  release_op op ->
  respects (advances released)
    ((ok ← with_prepared (try_release op);
      if (ok : bool) then (_ ← on_own (track op false); mret n1) else mret n2)
      : M (World Sk) Refusal Z).
Proof.
  intros Hop w. unfold mbind at 1, M_bind at 1, with_prepared.
  destruct (try_release_spec op w) as (b & w1 & -> & Ho & Hr & Ht).
  destruct b; cbn.
  - by apply (release_outcome op w (snd (cancel_prepared w1)) _ true); try done; cbn; congruence.
  - by apply (release_outcome op w (snd (cancel_prepared w1)) _ false); try done; cbn; congruence.
Qed.

Lemma release_wheel_advances n : respects (advances released) (release_wheel (Sk:=Sk) n).
Proof.
  unfold release_wheel. apply respects_bind; [apply _|apply respects_gets, _|intros [d|]].
  - by apply (release_then_prepared (OpWheel d false)).
  - apply respects_ret, _.
Qed.

Lemma physical_key_usage u k : physical_key u = Some k -> k = u.
Proof. unfold physical_key. case_match; [by intros [= ->]|done]. Qed.

Lemma release_key_advances u n : respects (advances released) (release_key (Sk:=Sk) u n).
Proof.
  unfold release_key. apply respects_bind; [apply _|apply respects_gets, _|intros held].
  destruct (if held then physical_key u else None) as [k|] eqn:Hk; [|apply respects_ret, _].
  destruct held; [|done]. assert (k = u) as -> by by apply physical_key_usage.
  by apply (release_then (OpKey u Release)).
Qed.

Lemma release_button_advances b n : respects (advances released) (release_button (Sk:=Sk) b n).
Proof.
  unfold release_button. apply respects_bind; [apply _|apply respects_gets, _|intros held].
  destruct held; [|apply respects_ret, _]. by apply (release_then (OpButton b false)).
Qed.

Lemma fold_each_respects {A B} R `{!PreOrder R} (f : A -> B -> M (World Sk) Refusal B) l : forall b,
  (forall x b, respects R (f x b)) -> respects R (fold_each f l b).
Proof.
  induction l as [|x l IH]; intros b Hf; cbn [fold_each]; [by apply respects_ret|].
  apply respects_bind; [done|apply Hf|]. intros b'. by apply IH.
Qed.

Lemma release_held_advances : respects (advances released) (release_held (Sk:=Sk)).
Proof.
  unfold release_held. apply respects_bind; [apply _|apply release_wheel_advances|intros n].
  apply respects_bind; [apply _|apply fold_each_respects; [apply _|apply release_key_advances]|intros n1].
  apply respects_bind; [apply _|apply fold_each_respects; [apply _|apply release_button_advances]|intros n2].
  apply respects_gets, _.
Qed.

Lemma cleanup_advances : respects (advances released) (cleanup (Sk:=Sk)).
Proof.
  unfold cleanup. apply respects_bind; [apply _|apply revoke_advances|intros _].
  apply release_held_advances.
Qed.

Lemma maintain_status_advances now : respects (advances released) (maintain_status (Sk:=Sk) now).
Proof.
  intros w. unfold maintain_status. pose proof (with_time_quiet now control_status w) as Q.
  destruct (with_time now control_status w) as [[[d|d rel]|e] w1]; cbn in Q;
    apply (quiet_advances released) in Q; [exact Q| |].
  - etrans; [exact Q|].
    match goal with |- advances released w1 (snd (?m w1)) => assert (Hm : respects (advances released) m) end.
    { apply respects_bind; [apply _|apply release_held_advances|intros c].
      apply respects_bind; [apply _| |intros _; apply respects_ret, _].
      apply respects_if; [|apply respects_ret, _]. intros w2. cbn.
      apply quiet_advances. unfold confirm_suspension_release_monitor.
      pose proof (monitor_with_quiet (confirm_suspension_release (is_lease (own w2))) w2) as Q2. exact Q2. }
    apply Hm.
  - etrans; [exact Q|]. pose proof (revoke_advances released w1) as R.
    unfold mbind, M_bind. by destruct (revoke w1) as [[]].
Qed.

Lemma maintain_advances now : respects (advances released) (maintain (Sk:=Sk) now).
Proof.
  unfold maintain. apply respects_bind; [apply _|apply calm_advances, is_revoked_quiet|intros r].
  apply respects_bind; [apply _| |intros early].
  { apply respects_if; [apply maintain_status_advances|apply respects_ret, _]. }
  destruct early; [apply respects_ret, _|].
  apply respects_bind; [apply _|apply calm_advances, is_revoked_quiet|intros r'].
  apply respects_if; [apply cleanup_advances|apply respects_gets, _].
Qed.

(** ** Reconciliation *)

Lemma on_report_quiet f : respects quiet (on_report f : M (World Sk) Refusal unit).
Proof. intros w. by repeat split. Qed.

Lemma check_reconciliation_quiet now : respects quiet (check_reconciliation (Sk:=Sk) now).
Proof.
  unfold check_reconciliation. apply respects_bind; [apply _|apply check_active_quiet|intros _].
  apply with_time_quiet.
Qed.

(** The native call of a reconciled release and what follows it. *)
Lemma reconcile_submit_advances op :
  release_op op ->
  respects (advances released)
    ((s ← native op None (sink_submit op);
      match s with
      | Submitted =>
          _ ← on_own (track op false);
          on_report (fun r => r <| rec_submitted := wrapping_add u16_max (rec_submitted r) 1 |>
                                <| rec_remaining := (rec_remaining r - 1) mod (u16_max + 1) |>
                                <| rec_outcome := Interrupted |>)
      | NotSubmitted e => _ ← on_report (fun r => r <| rec_outcome := RecRefused |>); fail (RPlatform e)
      | Expired => _ ← on_report (fun r => r <| rec_outcome := RecRefused |>); fail RExpiredAtBoundary
      | SubFenced => _ ← on_report (fun r => r <| rec_outcome := RecRefused |>); fail RRevoked
      | Unknown => fail RUnknownEffect
      end) : M (World Sk) Refusal unit).
Proof.
  intros Hop w. unfold mbind at 1, M_bind at 1, native.
  destruct (sink_submit op (sink w)) as [r sk].
  set (w1 := w <| sink := sk |> <| trace := trace w ++ [mkCall op r None] |>).
  assert (Hbad : r <> Submitted -> advances released w w1).
  { intros Hr. apply (release_outcome op w w1 w1 false); try done.
    exists [mkCall op r None]. split; [done|]. by repeat constructor. }
  destruct r; cbn;
    try (etrans; [by apply Hbad|]; by apply quiet_advances, on_report_quiet).
  - etrans; [|apply quiet_advances, on_report_quiet].
    by apply (release_outcome op w w1 _ true).
  - by apply Hbad.
Qed.

Lemma with_prepared_respects {A} P (m : M (World Sk) Refusal A) :
  respects (advances P) m -> respects (advances P) (with_prepared m).
Proof.
  intros Hm w. unfold with_prepared. specialize (Hm w). destruct (m w) as [r w1]; cbn in *.
  etrans; [exact Hm|]. apply quiet_advances, cancel_prepared_quiet.
Qed.

Lemma reconcile_one_advances op :
  release_op op -> respects (advances released) (reconcile_one (Sk:=Sk) op).
Proof.
  intros Hop. unfold reconcile_one. apply with_prepared_respects.
  apply respects_bind; [apply _|apply calm_advances, on_sink_quiet|intros _].
  apply respects_bind; [apply _|apply calm_advances, clock_quiet|intros now].
  apply respects_bind; [apply _|apply calm_advances, check_reconciliation_quiet|intros _].
  apply respects_bind; [apply _|apply calm_advances, on_report_quiet|intros _].
  by apply reconcile_submit_advances.
Qed.

Lemma for_each_respects {A} R `{!PreOrder R} (f : A -> M (World Sk) Refusal unit) l :
  (forall x, x ∈ l -> respects R (f x)) -> respects R (for_each f l).
Proof.
  induction l as [|x l IH]; intros Hf; cbn [for_each]; [by apply respects_ret|].
  apply respects_bind; [done|apply Hf, list_elem_of_here|]. intros _.
  apply IH. intros y Hy. by apply Hf, list_elem_of_further.
Qed.

(** The releases a snapshot asks for: exactly the input that is held here and not
    held in the snapshot. *)
Lemma missing_releases_spec s h op :
  op ∈ missing_releases s h <->
  (exists k, physical_key k = Some k /\ 0 <= k < 256 /\ key_held s k = true /\
     Held.key h k = false /\ op = OpKey k Release) \/
  (exists b, button_held s b = true /\ Held.button h b = false /\ op = OpButton b false).
Proof.
  unfold missing_releases. rewrite elem_of_app, !list_elem_of_omap. split.
  - intros [(u & Hu & Hop)|(b & _ & Hop)].
    + left. destruct (physical_key u) as [k|] eqn:Hk; [|done].
      assert (k = u) as -> by by apply physical_key_usage.
      destruct (key_held s u && negb (Held.key h u)) eqn:Hc; [|done]. injection Hop as <-.
      apply andb_true_iff in Hc as [? ?%negb_true_iff]. apply elem_of_seqZ in Hu.
      exists u. by split_and!; try lia.
    + right. destruct (button_held s b && negb (Held.button h b)) eqn:Hc; [|done].
      injection Hop as <-. apply andb_true_iff in Hc as [? ?%negb_true_iff]. by exists b.
  - intros [(k & Hk & Hr & Hh & Hn & ->)|(b & Hh & Hn & ->)].
    + left. exists k. split; [apply elem_of_seqZ; lia|]. by rewrite Hk, Hh, Hn.
    + right. exists b. split; [unfold all_buttons; destruct b; set_solver|]. by rewrite Hh, Hn.
Qed.

Lemma missing_releases_release s h op : op ∈ missing_releases s h -> release_op op.
Proof. by intros [(k & ? & _ & _ & _ & ->)|(b & _ & _ & ->)]%missing_releases_spec. Qed.

Lemma reconcile_run_advances s h :
  respects (advances released) (reconcile_run (Sk:=Sk) (missing_releases s h)).
Proof.
  unfold reconcile_run. apply respects_bind; [apply _|apply calm_advances, clock_quiet|intros now].
  apply respects_bind; [apply _|apply calm_advances, check_reconciliation_quiet|intros _].
  apply for_each_respects; [apply _|]. intros op Hop.
  by eapply reconcile_one_advances, missing_releases_release.
Qed.

Lemma finish_reconciliation_advances P rq r :
  respects (advances P) (finish_reconciliation (Sk:=Sk) rq r).
Proof.
  unfold finish_reconciliation. apply respects_bind; [apply _| |intros _].
  { apply respects_if; [apply respects_ret, _|apply revoke_advances]. }
  apply respects_bind; [apply _|apply calm_advances, on_report_quiet|intros _].
  apply respects_gets, _.
Qed.

Lemma reconcile_held_advances rq : respects (advances released) (reconcile_held (Sk:=Sk) rq).
Proof.
  intros w. unfold reconcile_held. destruct (_ || _); [reflexivity|].
  pose proof (check_active_quiet w) as Q.
  destruct (check_active w) as [active w1]; cbn in Q. apply (quiet_advances released) in Q.
  destruct (negb (is_ok active) || _) eqn:Hfl; [exact Q|].
  apply orb_false_iff in Hfl as [_ Hfl].
  destruct (Ledger.next_sequence (ledger (own w1))) as [expected|]; [|exact Q].
  destruct (_ <? _); [exact Q|]. destruct (_ || _).
  - etrans; [exact Q|]. pose proof (revoke_advances released w1) as R.
    unfold mbind, M_bind. by destruct (revoke w1) as [[]].
  - etrans; [exact Q|]. set (ops := missing_releases (own w1) (Held.held rq)).
    unfold mbind, M_bind, on_own, modify, method.
    match goal with |- context [reconcile_run ops ?x] => set (w2 := x) end.
    assert (A2 : advances released w1 w2).
    { split; try done || reflexivity.
      - cbn. destruct (reconciliation_floor (own w1)) as [f|]; [|done]. cbn in *. lia.
      - exists []. by rewrite app_nil_r. }
    etrans; [exact A2|]. pose proof (reconcile_run_advances (own w1) (Held.held rq) w2) as R.
    fold ops in R. destruct (reconcile_run ops w2) as [res w3]; cbn in R.
    etrans; [exact R|]. apply finish_reconciliation_advances.
Qed.

End performance.
