(* ===== verification/SubmissionClaims.v ===== *)
(** * The input boundary over whole histories

    The owner's public methods as actions, histories of them against any sink,
    clock and schedule of the other threads, and what holds of every history:
    native calls are authorized, receipts are truthful, sequences are executed at
    most once, revocation is final, the held state is exact, cleanup releases
    everything a working sink can release, and reconciliation releases exactly
    what the snapshot no longer holds. *)

From S2P Require Import Prelude CoreTime Authority AuthorityInv AuthoritySpec AuthorityProps.
From S2P Require Import InputSequence InputModel Submission SubmissionBase SubmissionProps.

(** ** Histories *)

Inductive Action :=
| ADispatch (rq : InputRequest)
| AMaintain (now : HostInstant)
| ACleanup
| AReleaseHeld
| ARevoke
| AReconcile (rq : Held.HeldStateRequest)
| AObservationChallenge (n : Z) (now : HostInstant)
| ARenewObservation (n : Z) (now : HostInstant)
| AControlChallenge (n : Z) (now : HostInstant)
| ARenewControl (n : Z) (now : HostInstant)
| AIssueTicket (t : InputTicketId) (now : HostInstant) (presented : bool)
| ATakeControlLease.

Section histories.
Context {Sk : Type} `{InputSink Sk}.

Definition act (a : Action) (w : World Sk) : World Sk :=
  match a with
  | ADispatch rq => snd (dispatch rq w)
  | AMaintain now => snd (maintain now w)
  | ACleanup => snd (cleanup w)
  | AReleaseHeld => snd (release_held w)
  | ARevoke => snd (revoke w)
  | AReconcile rq => snd (reconcile_held rq w)
  | AObservationChallenge n now => snd (owner_issue_observation_challenge n now w)
  | ARenewObservation n now => snd (renew_observation n now w)
  | AControlChallenge n now => snd (owner_issue_control_challenge n now w)
  | ARenewControl n now => snd (renew_control n now w)
  | AIssueTicket t now p => snd (issue_ticket_snapshot t now p w)
  | ATakeControlLease => snd (take_control_lease w)
  end.

Definition run_actions (acts : list Action) (w : World Sk) : World Sk :=
  foldl (fun w a => act a w) w acts.

(** ** Each action advances the owner *)

Lemma idle_trace (w w' : World Sk) : advances (fun _ => False) w w' -> trace w' = trace w.
Proof.
  intros [_ _ _ _ _ (l & Ht & Hl & _)]. destruct l; [by rewrite app_nil_r in Ht|]. by inversion Hl.
Qed.

Lemma record_silent_trace r pointer (w : World Sk) : trace (snd (record r pointer w)) = trace w.
Proof. apply idle_trace, record_advances. Qed.

Lemma issue_ticket_snapshot_quiet t now p : respects quiet (issue_ticket_snapshot (Sk:=Sk) t now p).
Proof.
  unfold issue_ticket_snapshot.
  apply respects_bind; [apply _|apply check_active_quiet|intros _].
  apply respects_bind; [apply _|apply respects_gets, _|intros l].
  apply respects_bind; [apply _|apply respects_gets, _|intros v].
  apply respects_bind; [apply _|apply with_time_quiet|intros [r v']].
  apply respects_bind; [apply _|intros w; by repeat split|intros _]. apply respects_lift, _.
Qed.

Lemma take_control_lease_quiet : respects quiet (take_control_lease (Sk:=Sk)).
Proof.
  unfold take_control_lease.
  apply respects_bind; [apply _|apply respects_refuse_if, _|intros _].
  apply respects_bind; [apply _|apply check_active_quiet|intros _].
  apply respects_bind; [apply _|intros w; by repeat split|intros _]. apply respects_gets, _.
Qed.

Lemma renewal_quiet {A} now (f : HostInstant -> SessionAuthority -> Result AuthorityError A * SessionAuthority) :
  respects quiet ((_ ← check_active; with_time now f) : M (World Sk) Refusal A).
Proof. apply respects_bind; [apply _|apply check_active_quiet|intros _]. apply with_time_quiet. Qed.

Lemma renew_control_quiet n now : respects quiet (renew_control (Sk:=Sk) n now).
Proof.
  unfold renew_control. apply respects_bind; [apply _|apply check_active_quiet|intros _].
  apply respects_bind; [apply _|apply respects_gets, _|intros l]. apply with_time_quiet.
Qed.

(** The native calls an action may make. *)
Definition allowed (lease : InputLeaseId) (a : Action) (e : NativeCall) : Prop :=
  match a with
  | ADispatch rq => granted lease rq e
  | _ => released e
  end.

Lemma dispatch_advances P rq (w : World Sk) :
  (forall ops l r (w0 w1 : World Sk), plan_of rq (cumulative (own w0)) ops -> is_lease (own w0) = is_lease (own w) ->
     performs rq ops w0 r w1 l -> Forall P l) ->
  advances P w (snd (dispatch rq w)).
Proof.
  intros HP. destruct (dispatch_spec rq w) as [r w' A|w1 r w' A _ _ Hat].
  - by apply (advances_mono (fun _ => False)).
  - etrans; [by apply (advances_mono (fun _ => False) P _ w1)|].
    destruct (attempt_spec rq (is_pointer (event rq)) w1) as (ops & l & r1 & w2 & Ho & Hp & _ & Ha).
    rewrite Ha in Hat. injection Hat as _ <-.
    etrans; [|apply record_advances].
    assert (Hl : Forall P l) by (refine (HP ops l r1 _ w2 _ _ Hp); [exact Ho|apply A]).
    etrans; [by apply (own_advances P w1 (w1 <| submitted := 0 |> <| uncertain := false |>) id)|].
    destruct Hp as [[F Lg Rc Cu Fl Rf] T G C Hh R].
    split; try done; rewrite ?Lg, ?Rf; try done || reflexivity. by exists l.
Qed.

Lemma act_advances a (w : World Sk) : advances (allowed (is_lease (own w)) a) w (act a w).
Proof.
  destruct a; cbn [act]; unfold allowed.
  - apply dispatch_advances. intros ops l r w0 w1 _ Hl [_ _ G _ _ _]. by rewrite Hl in G.
  - apply maintain_advances.
  - apply cleanup_advances.
  - apply release_held_advances.
  - apply revoke_advances.
  - apply reconcile_held_advances.
  - apply quiet_advances, renewal_quiet.
  - apply quiet_advances, renewal_quiet.
  - apply quiet_advances, renewal_quiet.
  - apply quiet_advances, renew_control_quiet.
  - apply quiet_advances, issue_ticket_snapshot_quiet.
  - apply quiet_advances, take_control_lease_quiet.
Qed.

(** Induction over a history, for any predicate on native calls its actions keep. *)
Lemma run_advances (P : NativeCall -> Prop) (I : World Sk -> Prop) acts : forall w,
  (forall a w, a ∈ acts -> I w -> advances P w (act a w) /\ I (act a w)) -> I w ->
  advances P w (run_actions acts w) /\ I (run_actions acts w).
Proof.
  induction acts as [|a acts IH]; intros w Hstep Hw; [by split|].
  destruct (Hstep a w) as [A HI]; [apply list_elem_of_here|done|].
  destruct (IH (act a w)) as [A' HI'].
  { intros a' w' Ha. apply Hstep. by apply list_elem_of_further. }
  { done. }
  split; [by etrans|done].
Qed.

Lemma history_advances acts (w : World Sk) :
  advances (fun e => exists a, a ∈ acts /\ allowed (is_lease (own w)) a e) w (run_actions acts w).
Proof.
  apply (run_advances _ (fun w' => is_lease (own w') = is_lease (own w))); [|done].
  intros a w' Ha Hl. pose proof (act_advances a w') as A. split.
  - eapply advances_mono; [|exact A]. intros e He. exists a. by rewrite <- Hl.
  - rewrite <- Hl. apply A.
Qed.

(** ** Authorization *)

(** C1. In every history of the owner, whatever the sink, the clock and the
    other threads do, each native call that is made was either granted for a
    request dispatched in that history - by a check that found the flag clear, the
    request's view current, the lease, ticket, observation and view all live, and
    that handed over the exact deadline - or is a release with no input of its
    own. *)
Theorem native_calls_are_authorized (acts : list Action) (w : World Sk) :
  exists l, trace (run_actions acts w) = trace w ++ l /\
    Forall (fun e => released e \/
      exists rq g, ADispatch rq ∈ acts /\ nc_grant e = Some g /\
        authorized (is_lease (own w)) rq g) l.
Proof.
  destruct (history_advances acts w) as [_ _ _ _ _ (l & Ht & Hl & _)].
  exists l. split; [done|]. eapply Forall_impl; [exact Hl|].
  intros e (a & Ha & He). destruct a; cbn in He; try (by left).
  right. destruct He as (g & Hg & Hau). by exists rq, g.
Qed.

(** ** Receipts *)

(** C2. Every attempt returns a receipt, and it is truthful: it carries the
    request's sequence and the exact number of confirmed native submissions; the
    calls made are a prefix of the request's expansion; and its outcome says
    complete, nothing to submit, partial, unknown or none at all exactly as the
    results of those calls warrant. *)
Theorem receipt_is_truthful (rq : InputRequest) (pointer : bool) (w : World Sk) :
  exists ops l r, plan_of rq (cumulative (own w)) ops /\
    fst (attempt rq pointer w) = Ok r /\
    trace (snd (attempt rq pointer w)) = trace w ++ l /\
    nc_op <$> l `prefix_of` ops /\
    rc_sequence r = rq_sequence rq /\
    submitted_operations r = Z.of_nat (n_sub l) /\
    truthful (rc_outcome r) ops l.
Proof.
  destruct (attempt_spec rq pointer w) as (ops & l & r & w1 & Ho & Hp & Hb & ->).
  exists ops, l, (receipt_of rq r w1).
  destruct (receipt_truthful rq ops (w <| submitted := 0 |> <| uncertain := false |>) r w1 l) as [Hs Ht]; [done..|].
  split_and!; try done.
  - cbn. pose proof (record_silent_trace (receipt_of rq r w1) pointer w1) as ->. apply Hp.
  - destruct Hp as [_ _ _ _ _ R]. destruct r; [|apply R]. by destruct R as (-> & _).
Qed.

(** ** At most once *)

Lemma no_attempt_trace rq (w : World Sk) :
  (if is_pointer (event rq)
   then exists f, pointer_floor (own w) = Some f /\ rq_sequence rq <= f
   else forall n, Ledger.next_sequence (ledger (own w)) = Some n -> rq_sequence rq < n) ->
  trace (snd (dispatch rq w)) = trace w.
Proof.
  intros Hlow. destruct (dispatch_spec rq w) as [r w' A|w1 r w' _ Hhigh _ _].
  - by apply idle_trace.
  - exfalso. destruct (is_pointer (event rq)).
    + destruct Hlow as (f & Hf & ?), Hhigh as (Hh & _). specialize (Hh f Hf). lia.
    + destruct Hhigh as [Hn _]. specialize (Hlow _ Hn). lia.
Qed.

(** C3. Exactly-once execution: once dispatching a request has made any native
    call, no later dispatch of that sequence or an earlier one of the same kind
    (pointer state or ordered action) makes another, whatever happened in
    between. *)
Theorem no_action_is_executed_twice (rq rq' : InputRequest) (acts : list Action) (w : World Sk) :
  trace (snd (dispatch rq w)) <> trace w ->
  is_pointer (event rq') = is_pointer (event rq) ->
  rq_sequence rq' <= rq_sequence rq ->
  let w' := run_actions acts (snd (dispatch rq w)) in
  trace (snd (dispatch rq' w')) = trace w'.
Proof.
  intros Hmade Hkind Hle w'. apply no_attempt_trace. rewrite Hkind.
  pose proof (history_advances acts (snd (dispatch rq w))) as Hacts. fold w' in Hacts.
  destruct (dispatch_spec rq w) as [r w1 A|w0 r w1 _ Hhigh _ Hat].
  { by apply idle_trace in A. }
  pose proof (attempt_advances rq (is_pointer (event rq)) w0) as A0. rewrite Hat in A0. cbn in A0.
  destruct (is_pointer (event rq)).
  - destruct Hhigh as (_ & _ & Hf). destruct A0 as [_ _ _ F0 _ _], Hacts as [_ _ _ F1 _ _].
    rewrite Hf in F0. destruct (pointer_floor (own w1)) as [f1|]; [|done]. cbn in F0, F1.
    destruct (pointer_floor (own w')) as [f2|]; [|done]. exists f2. split; [done|]. lia.
  - destruct Hhigh as [_ Hn]. destruct A0 as [_ N0 _ _ _ _], Hacts as [_ N1 _ _ _ _].
    intros n Hn'. assert (N : next_le (ledger (own w0)) (ledger (own w'))) by by etrans.
    unfold next_le in N. rewrite Hn, Hn' in N. unfold checked_add in N.
    destruct (_ <=? _); [lia|done].
Qed.

(** ** Revocation *)

Lemma revoked_execute rq (w : World Sk) :
  revoked w = true -> quiet w (snd (execute rq w)).
Proof.
  intros Hr. unfold execute, mbind, M_bind.
  pose proof (clock_quiet w) as Q1.
  destruct (clock w) as [[now|e] w1] eqn:Hc; cbn in Q1; [|done].
  pose proof (check_quiet (credentials rq) now w1) as Q2.
  destruct (check (credentials rq) now w1) as [[u|e] w2] eqn:Hk; cbn in Q2; [|by etrans].
  apply check_Ok in Hk as [Hf _]. assert (Q : quiet w w2) by by etrans.
  pose proof (fr_revoked _ _ (st_frame _ _ (qu_steady _ _ Q)) Hr). congruence.
Qed.

Lemma revoked_dispatch rq (w : World Sk) :
  revoked w = true -> advances (fun _ => False) w (snd (dispatch rq w)).
Proof.
  intros Hr. destruct (dispatch_spec rq w) as [r w' A|w1 r w' A _ _ Hat]; [done|].
  etrans; [exact A|]. pose proof (fr_revoked _ _ (ad_frame _ _ _ A) Hr) as Hr1.
  unfold attempt in Hat.
  set (w0 := w1 <| submitted := 0 |> <| uncertain := false |>) in Hat.
  pose proof (revoked_execute rq w0 Hr1) as Q. cbv zeta in Hat.
  destruct (execute rq w0) as [r1 w2]; cbn [snd] in Q. unfold mbind, M_bind in Hat.
  pose proof (record_advances (fun _ => False) (receipt_of rq r1 w2) (is_pointer (event rq)) w2) as A2.
  pose proof (record_Ok (receipt_of rq r1 w2) (is_pointer (event rq)) w2) as Hok.
  destruct (record _ _ _) as [r2 w3]; cbn in A2, Hok. subst r2. cbn in Hat. injection Hat as _ <-.
  etrans; [|exact A2].
  etrans; [|apply quiet_advances, Q]. by apply (own_advances _ _ _ id).
Qed.

(** C4. Revocation is final: from a state where the flag is set, no history
    clears it and every native call it makes is a release. *)
Theorem revocation_is_final (acts : list Action) (w : World Sk) :
  revoked w = true ->
  revoked (run_actions acts w) = true /\
  exists l, trace (run_actions acts w) = trace w ++ l /\ Forall released l.
Proof.
  intros Hr.
  destruct (run_advances released (fun w => revoked w = true) acts w) as [A Hr']; [|done|].
  - intros a w' _ Hw'. assert (A : advances released w' (act a w')).
    { pose proof (act_advances a w') as A. destruct a; try exact A.
      apply (advances_mono (fun _ => False)); [done|]. by apply revoked_dispatch. }
    split; [done|]. apply (fr_revoked _ _ (ad_frame _ _ _ A) Hw').
  - split; [done|]. destruct A as [_ _ _ _ _ (l & ? & ? & _)]. by exists l.
Qed.

End histories.

(** ** A concrete boundary

    A sink that accepts everything, the controlling session of [AuthorityProps]
    and its first requests. *)

#[export] Instance accepting_sink : InputSink unit := {
  sink_prepare _ s := (Ok tt, s);
  sink_revalidate _ s := (Ok tt, s);
  sink_submit _ s := (Submitted, s);
  sink_submit_until _ _ s := (Submitted, s);
  sink_cancel_prepared s := s;
  repeat_requires_pair _ := true;
  line_scroll_requires_pairs _ := true;
}.

Definition demo_credentials : InputCredentials := Credentials.mkCredentials 1 2 3 (mkView 1 1 1 1).
Definition demo_bounds : Bounds.InputBounds := Bounds.mkBounds (mkPoint 0 0) 1920 1080.

Definition demo_attached : Result Refusal InputSession * SessionAuthority :=
  from_shared_authority demo_credentials demo_bounds 255 100 7 demo.

Definition demo_session : option InputSession :=
  match fst demo_attached with Ok s => Some s | Err _ => None end.

(** The world around an attached session, the other threads idle. *)
Definition attached_world (s : InputSession) : World unit :=
  mkWorld s (snd demo_attached) false tt [] [] [] 0 false.

Definition press (n : Z) (k : PhysicalKey) : InputRequest :=
  mkRequest demo_credentials n (EvKey k Press).

Definition demo_world : option (World unit) := attached_world <$> demo_session.

(** The first key press reaches the sink once; a replay after maintenance does
    not. *)
Lemma no_action_is_executed_twice_witness :
  exists w, demo_world = Some w /\ trace (snd (dispatch (press 0 4) w)) <> trace w /\
    let w' := run_actions [AMaintain 200] (snd (dispatch (press 0 4) w)) in
    trace (snd (dispatch (press 0 4) w')) = trace w'.
Proof.
  eexists. split; [vm_compute; reflexivity|].
  match goal with |- ?A /\ _ => assert (Hm : A) by (vm_compute; discriminate) end.
  split; [exact Hm|].
  apply (no_action_is_executed_twice (press 0 4) (press 0 4) [AMaintain 200] _ Hm); [reflexivity|lia].
Defined.

(** A session revoked with a key held releases it, and a later press goes
    nowhere. *)
Lemma revocation_is_final_witness :
  exists w, demo_world = Some w /\
    let w1 := run_actions [ADispatch (press 0 4); ARevoke] w in
    let w2 := run_actions [AMaintain 200; ADispatch (press 1 5)] w1 in
    revoked w2 = true /\ exists l, trace w2 = trace w1 ++ l /\ Forall released l.
Proof.
  eexists. split; [vm_compute; reflexivity|]. cbv zeta.
  apply revocation_is_final. vm_compute. reflexivity.
Defined.
