(* ===== verification/SubmissionHeld.v ===== *)
(** * The synthetic held state

    What the owner believes is held against what the native calls it made imply,
    and the two operations that let go of it: cleanup and reconciliation with the
    controller's snapshot. *)

From S2P Require Import Prelude CoreTime Authority AuthorityInv AuthoritySpec AuthorityProps.
From S2P Require Import InputSequence InputModel Submission SubmissionBase SubmissionProps.
From S2P Require Import SubmissionClaims.

(** ** What a list of native calls implies

    A press counts as held unless its absence is confirmed; a release counts only
    when it is confirmed. *)

Definition pressed_by (press : bool) (r : Submission) (down : bool) : bool :=
  match press, r with
  | true, (Submitted | Unknown) => true
  | false, Submitted => false
  | _, _ => down
  end.

Definition key_down (k : PhysicalKey) (l : list NativeCall) (down : bool) : bool :=
  foldl (fun down e =>
    match nc_op e with
    | OpKey k' Press => if k' =? k then pressed_by true (nc_result e) down else down
    | OpKey k' Release => if k' =? k then pressed_by false (nc_result e) down else down
    | _ => down
    end) down l.

Definition button_down (b : PointerButton) (l : list NativeCall) (down : bool) : bool :=
  foldl (fun down e =>
    match nc_op e with
    | OpButton b' p => if bool_decide (b' = b) then pressed_by p (nc_result e) down else down
    | _ => down
    end) down l.

Definition wheel_down (l : list NativeCall) (d : option Scroll.WheelDirection)
  : option Scroll.WheelDirection :=
  foldl (fun d e =>
    match nc_op e, nc_result e with
    | OpWheel d' true, (Submitted | Unknown) => Some d'
    | OpWheel _ false, Submitted => None
    | _, _ => d
    end) d l.

(** Requests as the type [PhysicalKey] allows them. *)
Definition physical_event (e : InputEvent) : Prop :=
  match e with EvKey k _ => physical_key k = Some k | _ => True end.
Definition physical_action (a : Action) : Prop :=
  match a with ADispatch rq => physical_event (event rq) | _ => True end.

(** A session with all its cells in place, holding physical keys only. *)
Record held_wf (s : InputSession) : Prop := {
  hw_keys : length (is_keys s) = 256%nat;
  hw_buttons : length (is_buttons s) = 5%nat;
  hw_physical : forall i, is_keys s !! i = Some true -> physical_key (Z.of_nat i) = Some (Z.of_nat i);
}.

Lemma physical_range k : physical_key k = Some k -> 0 <= k < 256.
Proof. unfold physical_key. case_match; [|done]. intros _. lia. Qed.

Lemma held_wf_of s s' : held_of s' = held_of s -> held_wf s -> held_wf s'.
Proof. intros [= Hk Hb _] [? ? ?]. split; rewrite ?Hk, ?Hb; done. Qed.

Lemma set_key_wf k h s :
  physical_key k = Some k \/ h = false -> held_wf s -> held_wf (set_key_held k h s).
Proof.
  intros Hk [Hl Hb Hp]. split; cbn; [by rewrite length_insert|done|].
  intros i [(<- & -> & Hi)|[? ?]]%list_lookup_insert_Some; [|by apply Hp].
  destruct Hk as [Hk|?]; [|done]. pose proof (physical_range _ Hk). by rewrite Z2Nat.id by lia.
Qed.

Lemma track_wf op before s : physical_op op -> held_wf s -> held_wf (track op before s).
Proof.
  intros Hop Hs. destruct op as [k []| |b []| | |d []|], before; cbn; try done;
    try (by apply set_key_wf; auto);
    destruct Hs; by split; cbn; rewrite ?length_insert.
Qed.

Lemma held_step_wf op r s : physical_op op -> held_wf s -> held_wf (held_step op r s).
Proof. intros Hop Hs. destruct r; cbn; try done; by apply track_wf. Qed.

(** ** Reading the held state back *)

Lemma key_held_set k k' h s :
  physical_key k = Some k -> physical_key k' = Some k' -> held_wf s ->
  key_held (set_key_held k' h s) k = if k' =? k then h else key_held s k.
Proof.
  intros Hk%physical_range Hk'%physical_range [Hl _ _]. unfold key_held. cbn.
  destruct (Z.eqb_spec k' k) as [->|Hne].
  - by rewrite list_lookup_insert_eq by lia.
  - rewrite list_lookup_insert_ne; [done|]. lia.
Qed.

Lemma button_index_inj b b' : button_index b = button_index b' -> b = b'.
Proof. by destruct b, b'. Qed.

Lemma button_held_set b b' h s :
  held_wf s ->
  button_held (set_button_held b' h s) b = if bool_decide (b' = b) then h else button_held s b.
Proof.
  intros [_ Hl _]. unfold button_held. cbn. case_bool_decide as Hb.
  - subst. rewrite list_lookup_insert_eq; [done|]. rewrite Hl. destruct b; cbn; lia.
  - rewrite list_lookup_insert_ne; [done|]. by intros ?%button_index_inj.
Qed.

Lemma held_step_reads e s k b :
  physical_key k = Some k -> physical_op (nc_op e) -> held_wf s ->
  let s' := held_step (nc_op e) (nc_result e) s in
  key_held s' k = key_down k [e] (key_held s k) /\
  button_held s' b = button_down b [e] (button_held s b) /\
  wheel s' = wheel_down [e] (wheel s).
Proof.
  intros Hk Hop Hs. destruct e as [op r g]; cbn in *.
  destruct op as [k' []|p|b' []|x y|x y u|d []|c], r; cbn in *; split_and!; try done;
    rewrite ?key_held_set, ?button_held_set by done; try done;
    by case_match.
Qed.

Lemma replay_reads l k b : forall s,
  physical_key k = Some k -> Forall (fun e => physical_op (nc_op e)) l -> held_wf s ->
  key_held (replay l s) k = key_down k l (key_held s k) /\
  button_held (replay l s) b = button_down b l (button_held s b) /\
  wheel (replay l s) = wheel_down l (wheel s) /\ held_wf (replay l s).
Proof.
  induction l as [|e l IH]; intros s Hk Hl Hs; [done|].
  apply Forall_cons in Hl as [He Hl].
  destruct (held_step_reads e s k b Hk He Hs) as (H1 & H2 & H3).
  destruct (IH (held_step (nc_op e) (nc_result e) s) Hk Hl) as (I1 & I2 & I3 & I4).
  { by apply held_step_wf. }
  rewrite H1 in I1. rewrite H2 in I2. rewrite H3 in I3. by split_and!.
Qed.

(** ** Histories *)

Section held_histories.
Context {Sk : Type} `{InputSink Sk}.

Definition physical_call (e : NativeCall) : Prop := physical_op (nc_op e).

Lemma expansion_physical pair lines cum e :
  physical_event e -> Forall physical_op (expansion pair lines cum e).
Proof.
  intros He. destruct e as [k t|b pr p bar|p|ep cx cy|p bar x y u|t|m ep]; cbn in *.
  - destruct (_ && _); by repeat constructor.
  - by repeat constructor.
  - by repeat constructor.
  - destruct (_ && _); by repeat constructor.
  - constructor; [done|]. destruct (_ && _); [|by repeat constructor].
    destruct (Scroll.new x y) as [sc|]; [|constructor]. unfold wheel_ops.
    apply Forall_concat, Forall_fmap, Forall_true. intros d. by repeat constructor.
  - by apply Forall_fmap, Forall_true.
  - constructor.
Qed.

Lemma performs_prefix rq ops (w : World Sk) r w' l :
  performs rq ops w r w' l -> nc_op <$> l `prefix_of` ops.
Proof. intros [_ _ _ _ _ R]. destruct r; [by destruct R as (-> & _)|apply R]. Qed.

Lemma act_physical a (w : World Sk) : physical_action a -> advances physical_call w (act a w).
Proof.
  intros Ha. pose proof (act_advances a w) as A. destruct a as [rq| | | | | | | | | | |].
  1: { cbn in *. apply dispatch_advances. intros ops l r w0 w1 (pair & lines & ->) _ Hp.
       apply performs_prefix in Hp. apply (proj1 (Forall_fmap nc_op physical_op l)).
       destruct Hp as [rest Hrest].
       pose proof (expansion_physical pair lines (cumulative (own w0)) _ Ha) as Hall.
       rewrite Hrest in Hall. by apply Forall_app in Hall as [? _]. }
  all: eapply (advances_mono released); [by intros e (_ & _ & Hp)|exact A].
Qed.

Lemma history_physical acts (w : World Sk) :
  Forall physical_action acts -> advances physical_call w (run_actions acts w).
Proof.
  intros Hall. rewrite Forall_forall in Hall.
  apply (run_advances _ (fun _ => True)); [|done]. intros a w' Ha _.
  split; [|done]. by apply act_physical, Hall.
Qed.

(** What an advance says about the held state. *)
Lemma advances_held (w w' : World Sk) :
  advances physical_call w w' -> held_wf (own w) -> exists l, trace w' = trace w ++ l /\
  held_wf (own w') /\
  (forall k, physical_key k = Some k -> key_held (own w') k = key_down k l (key_held (own w) k)) /\
  (forall b, button_held (own w') b = button_down b l (button_held (own w) b)) /\
  wheel (own w') = wheel_down l (wheel (own w)).
Proof.
  intros [_ _ _ _ _ (l & Ht & Hl & Hh)] Hwf. exists l. split; [done|].
  destruct (replay_reads l 4 Primary (own w) eq_refl Hl Hwf) as (_ & _ & Hw & Hwf').
  pose proof Hh as [= Hk Hb Hwh].
  split_and!; [by eapply held_wf_of| | |congruence].
  - intros k Hp. destruct (replay_reads l k Primary (own w) Hp Hl Hwf) as (<- & _).
    unfold key_held. by rewrite Hk.
  - intros b. destruct (replay_reads l 4 b (own w) eq_refl Hl Hwf) as (_ & <- & _).
    unfold button_held. by rewrite Hb.
Qed.

(** C16. The synthetic held state is exact: after any history, a key, button or
    wheel direction is tracked as held if and only if the native calls made since
    imply it - its last press that may have taken effect was not followed by a
    confirmed release. *)
Theorem held_state_is_exact (acts : list Action) (w : World Sk) :
  held_wf (own w) -> Forall physical_action acts ->
  let w' := run_actions acts w in
  exists l, trace w' = trace w ++ l /\
  (forall k, physical_key k = Some k -> key_held (own w') k = key_down k l (key_held (own w) k)) /\
  (forall b, button_held (own w') b = button_down b l (button_held (own w) b)) /\
  wheel (own w') = wheel_down l (wheel (own w)).
Proof.
  intros Hwf Hacts w'.
  destruct (advances_held w w') as (l & Ht & _ & Hk & Hb & Hw); [by apply history_physical|done|].
  by exists l.
Qed.

(** ** Cleanup *)

(** A sink that accepts releases. *)
Definition cooperative : Prop :=
  forall op (sk : Sk), is_release op = true ->
    is_ok (fst (sink_prepare op sk)) = true /\
    (forall sk', fst (sink_submit op sk') = Submitted).

Lemma try_release_cooperative op (w : World Sk) :
  cooperative -> is_release op = true ->
  exists w', try_release op w = (Ok true, w') /\ own w' = own w /\ revoked w' = revoked w.
Proof.
  intros Hc Hop. unfold try_release, on_sink, native.
  destruct (Hc op (sink w) Hop) as [Hp Hs].
  destruct (sink_prepare op (sink w)) as [[u|e] sk]; [|done]. cbn. specialize (Hs sk).
  destruct (sink_submit op sk) as [r sk']. cbn in Hs. subst r. by eexists.
Qed.

Lemma release_wheel_cooperative n (w : World Sk) :
  cooperative -> exists n' w', release_wheel n w = (Ok n', w') /\ wheel (own w') = None /\
    is_keys (own w') = is_keys (own w) /\ is_buttons (own w') = is_buttons (own w).
Proof.
  intros Hc. unfold release_wheel, mbind, M_bind, gets, with_prepared.
  destruct (wheel (own w)) as [d|] eqn:Hw; [|by eexists _, _].
  destruct (try_release_cooperative (OpWheel d false) w Hc eq_refl) as (w' & -> & Ho & _). cbn.
  eexists _, _. split; [done|]. cbn. by rewrite Ho.
Qed.

Lemma release_key_cooperative u n (w : World Sk) :
  cooperative -> (forall i, is_keys (own w) !! i = Some true -> is_some (physical_key (Z.of_nat i)) = true) ->
  0 <= u ->
  exists n' w', release_key u n w = (Ok n', w') /\ wheel (own w') = wheel (own w) /\
    is_keys (own w') = <[Z.to_nat u := false]> (is_keys (own w)) /\
    is_buttons (own w') = is_buttons (own w).
Proof.
  intros Hc Hp Hu. unfold release_key, mbind, M_bind, gets.
  destruct (key_held (own w) u) eqn:Hk.
  - specialize (Hp (Z.to_nat u)). rewrite Z2Nat.id in Hp by done. unfold key_held in Hk.
    destruct (is_keys (own w) !! Z.to_nat u) as [b|] eqn:Hl; [|done]. cbn in Hk. subst b.
    specialize (Hp eq_refl). destruct (physical_key u) as [k|]; [|done].
    destruct (try_release_cooperative (OpKey k Release) w Hc eq_refl) as (w' & -> & Ho & _). cbn.
    eexists _, _. split; [done|]. cbn. by rewrite Ho.
  - eexists _, _. split; [done|]. split_and!; try done. symmetry. unfold key_held in Hk.
    destruct (is_keys (own w) !! Z.to_nat u) as [[]|] eqn:Hl; [done| |].
    + by apply list_insert_id.
    + apply list_insert_ge. by apply lookup_ge_None.
Qed.

Lemma release_button_cooperative b n (w : World Sk) :
  cooperative -> exists n' w', release_button b n w = (Ok n', w') /\ wheel (own w') = wheel (own w) /\
    is_buttons (own w') = <[button_index b := false]> (is_buttons (own w)) /\
    is_keys (own w') = is_keys (own w).
Proof.
  intros Hc. unfold release_button, mbind, M_bind, gets.
  destruct (button_held (own w) b) eqn:Hk.
  - destruct (try_release_cooperative (OpButton b false) w Hc eq_refl) as (w' & -> & Ho & _). cbn.
    eexists _, _. split; [done|]. cbn. by rewrite Ho.
  - eexists _, _. split; [done|]. split_and!; try done. symmetry. unfold button_held in Hk.
    destruct (is_buttons (own w) !! button_index b) as [[]|] eqn:Hl; [done| |].
    + by apply list_insert_id.
    + apply list_insert_ge. by apply lookup_ge_None.
Qed.

(** Clearing cells one by one. *)
Definition cleared (cells : list nat) (l : list bool) : list bool :=
  foldl (fun l i => <[i := false]> l) l cells.

Lemma cleared_lookup cells : forall l i,
  cleared cells l !! i = Some true -> l !! i = Some true /\ i ∉ cells.
Proof.
  induction cells as [|j cells IH]; intros l i Hl; [by split; [|apply not_elem_of_nil]|].
  destruct (IH _ _ Hl) as [Hi Hn].
  apply list_lookup_insert_Some in Hi as [(-> & ? & _)|[Hne Hi]]; [done|].
  split; [done|]. rewrite not_elem_of_cons. split; [done|exact Hn].
Qed.

Lemma release_keys_cooperative us : forall n (w : World Sk),
  cooperative -> (forall i, is_keys (own w) !! i = Some true -> is_some (physical_key (Z.of_nat i)) = true) ->
  Forall (Z.le 0) us ->
  exists n' w', fold_each release_key us n w = (Ok n', w') /\ wheel (own w') = wheel (own w) /\
    is_keys (own w') = cleared (Z.to_nat <$> us) (is_keys (own w)) /\
    is_buttons (own w') = is_buttons (own w).
Proof.
  induction us as [|u us IH]; intros n w Hc Hp Hu; [by eexists _, _|].
  apply Forall_cons in Hu as [Hu Hus]. cbn [fold_each]. unfold mbind, M_bind.
  destruct (release_key_cooperative u n w Hc Hp Hu) as (n1 & w1 & -> & Hw & Hk & Hb).
  destruct (IH n1 w1 Hc) as (n2 & w2 & -> & Hw2 & Hk2 & Hb2); [|done|].
  - intros i. rewrite Hk. intros [(_ & ? & _)|[_ ?]]%list_lookup_insert_Some; [done|by apply Hp].
  - eexists _, _. split; [done|]. rewrite Hw2, Hk2, Hb2, Hk. by split_and!.
Qed.

Lemma release_buttons_cooperative bs : forall n (w : World Sk),
  cooperative -> exists n' w', fold_each release_button bs n w = (Ok n', w') /\
    wheel (own w') = wheel (own w) /\
    is_buttons (own w') = cleared (button_index <$> bs) (is_buttons (own w)) /\
    is_keys (own w') = is_keys (own w).
Proof.
  induction bs as [|b bs IH]; intros n w Hc; [by eexists _, _|].
  cbn [fold_each]. unfold mbind, M_bind.
  destruct (release_button_cooperative b n w Hc) as (n1 & w1 & -> & Hw & Hk & Hb).
  destruct (IH n1 w1 Hc) as (n2 & w2 & -> & Hw2 & Hk2 & Hb2).
  eexists _, _. split; [done|]. rewrite Hw2, Hk2, Hb2, Hk. by split_and!.
Qed.

Lemma cleared_none m cells (l : list bool) :
  length l = m -> (forall i, (i < m)%nat -> i ∈ cells) -> filter (fun h => h = true) (cleared cells l) = [].
Proof.
  intros Hl Hall. apply filter_none. intros h Hin ->.
  apply list_elem_of_lookup in Hin as [i Hi]. apply cleared_lookup in Hi as [Hi Hn].
  apply Hn, Hall. apply lookup_lt_Some in Hi. lia.
Qed.

Lemma button_index_onto i : (i < 5)%nat -> i ∈ button_index <$> all_buttons.
Proof.
  intros Hi. apply list_elem_of_fmap. unfold all_buttons.
  destruct i as [|[|[|[|[|i]]]]]; [exists Primary|exists Secondary|exists Middle|exists Back
    |exists Forward|lia]; (split; [done|set_solver]).
Qed.

Lemma key_index_onto i : (i < 256)%nat -> i ∈ Z.to_nat <$> seqZ 0 256.
Proof.
  intros Hi. apply list_elem_of_fmap. exists (Z.of_nat i). split; [by rewrite Nat2Z.id|].
  apply elem_of_seqZ. lia.
Qed.

Lemma release_held_cooperative (w : World Sk) :
  cooperative -> held_wf (own w) ->
  exists n w', release_held w = (Ok (mkCleanup n 0), w') /\ held_count (own w') = 0.
Proof.
  intros Hc [Hlk Hlb Hph]. unfold release_held, mbind, M_bind.
  destruct (release_wheel_cooperative 0 w Hc) as (n1 & w1 & -> & Hw1 & Hk1 & Hb1).
  destruct (release_keys_cooperative (seqZ 0 256) n1 w1 Hc) as (n2 & w2 & -> & Hw2 & Hk2 & Hb2).
  { intros i. rewrite Hk1. intros Hi. by rewrite (Hph i Hi). }
  { apply Forall_seqZ. lia. }
  destruct (release_buttons_cooperative all_buttons n2 w2 Hc) as (n3 & w3 & -> & Hw3 & Hb3 & Hk3).
  assert (Hcount : held_count (own w3) = 0).
  { unfold held_count. rewrite Hw3, Hw2, Hw1, Hb3, Hb2, Hb1, Hk3, Hk2, Hk1, filter_app.
    rewrite (cleared_none 256 _ _ Hlk), (cleared_none 5 _ _ Hlb); [reflexivity| |].
    - apply button_index_onto.
    - apply key_index_onto. }
  exists n3, w3. unfold gets. by rewrite Hcount.
Qed.

(** C17. Cleanup lets go of everything: after any history, with a sink that
    accepts releases, [cleanup] returns, reports nothing remaining, leaves no key,
    button or wheel direction held, and leaves the owner revoked. *)
Theorem cleanup_releases_everything (acts : list Action) (w : World Sk) :
  cooperative -> held_wf (own w) -> Forall physical_action acts ->
  exists n w', cleanup (run_actions acts w) = (Ok (mkCleanup n 0), w') /\
    held_count (own w') = 0 /\ revoked w' = true.
Proof.
  intros Hc Hwf Hacts.
  destruct (advances_held w (run_actions acts w)) as (_ & _ & Hwf' & _); [by apply history_physical|done|].
  set (w1 := run_actions acts w) in *.
  destruct (release_held_cooperative (snd (revoke w1)) Hc) as (n & w2 & Hr & Hn).
  { by eapply held_wf_of; [|exact Hwf']. }
  exists n, w2. split_and!; [exact Hr|done|].
  pose proof (release_held_advances (snd (revoke w1))) as A. rewrite Hr in A.
  by apply (fr_revoked _ _ (ad_frame _ _ _ A)).
Qed.

(** ** Reconciliation *)

(** [l] are the native calls made between [w] and [w'], and the held state
    followed them. *)
Definition lets_go (l : list NativeCall) (w w' : World Sk) : Prop :=
  trace w' = trace w ++ l /\ held_of (own w') = held_of (replay l (own w)).

Lemma lets_go_app l1 l2 w1 w2 w3 :
  lets_go l1 w1 w2 -> lets_go l2 w2 w3 -> lets_go (l1 ++ l2) w1 w3.
Proof.
  intros [T1 H1] [T2 H2]. split; [by rewrite T2, T1, (assoc_L (++))|].
  rewrite H2. unfold replay. rewrite foldl_app. by apply replay_held.
Qed.

Lemma lets_go_idle (w w' : World Sk) : advances (fun _ => False) w w' -> lets_go [] w w'.
Proof.
  intros [_ _ _ _ _ (l & Ht & Hl & Hh)]. destruct l; [by split|]. by inversion Hl.
Qed.

Lemma lets_go_quiet (w w' : World Sk) : quiet w w' -> lets_go [] w w'.
Proof. intros Q. by apply lets_go_idle, quiet_advances. Qed.

(** What releasing [ops] in order may leave behind. *)
Definition lets_go_of (ops : list Operation) (w : World Sk) (r : Result Refusal unit) (w' : World Sk)
  : Prop :=
  exists l, lets_go l w w' /\ Forall (fun e => nc_op e ∈ ops /\ nc_grant e = None) l /\
    (is_ok r = true -> nc_op <$> l = ops /\ Forall is_sub l).

Lemma lets_go_of_refused ops w e w' : quiet w w' -> lets_go_of ops w (Err e) w'.
Proof. intros Q. exists []. split_and!; [by apply lets_go_quiet|constructor|done]. Qed.

Lemma lets_go_of_quiet ops (w w1 w2 w3 : World Sk) r :
  quiet w w1 -> lets_go_of ops w1 r w2 -> quiet w2 w3 -> lets_go_of ops w r w3.
Proof.
  intros Q1 (l & Hl & Hf & Hr) Q2. exists l. split; [|done].
  rewrite <- (app_nil_r l). eapply lets_go_app; [|by apply lets_go_quiet].
  by apply (lets_go_app [] l w w1); [apply lets_go_quiet|].
Qed.

(** One native release and its bookkeeping. *)
Lemma lets_go_of_native op r (w w1 w' : World Sk) res :
  release_op op -> own w1 = own w -> trace w1 = trace w ++ [mkCall op r None] ->
  trace w' = trace w1 -> is_ok res = bool_decide (r = Submitted) ->
  held_of (own w') = held_of (if bool_decide (r = Submitted) then track op false (own w1) else own w1) ->
  lets_go_of [op] w res w'.
Proof.
  intros [Hop _] Ho Ht Ht' Hres Hh. exists [mkCall op r None]. split_and!.
  - split; [congruence|]. rewrite Hh, Ho. unfold replay. cbn [foldl nc_op nc_result].
    case_bool_decide as Hr; [by rewrite Hr|]. by rewrite held_step_unreleased.
  - by repeat constructor.
  - rewrite Hres. intros ->%bool_decide_eq_true. split; [done|]. by repeat constructor.
Qed.

Lemma reconcile_one_spec op (w : World Sk) :
  release_op op -> lets_go_of [op] w (fst (reconcile_one op w)) (snd (reconcile_one op w)).
Proof.
  intros Hop. unfold reconcile_one, with_prepared.
  assert (Hcancel : forall (r : Result Refusal unit) w', lets_go_of [op] w r w' ->
    lets_go_of [op] w r (snd (cancel_prepared w'))).
  { intros r w' Hl. eapply lets_go_of_quiet; [reflexivity|exact Hl|apply cancel_prepared_quiet]. }
  match goal with |- context [let (_, _) := ?m w in _] =>
    enough (Hm : lets_go_of [op] w (fst (m w)) (snd (m w)))
      by (destruct (m w) as [r w']; by apply Hcancel) end.
  clear Hcancel. unfold mbind, M_bind.
  pose proof (on_sink_quiet (sink_prepare op) RPlatform w) as Q1.
  destruct (on_sink _ _ w) as [[u|e] w1]; cbn in Q1; [|by apply lets_go_of_refused].
  pose proof (clock_quiet w1) as Q2.
  destruct (clock w1) as [[now|e] w2]; cbn in Q2; [|apply lets_go_of_refused; by etrans].
  pose proof (check_reconciliation_quiet now w2) as Q3.
  destruct (check_reconciliation now w2) as [[v|e] w3]; cbn in Q3;
    [|apply lets_go_of_refused; etrans; [exact Q1|by etrans]].
  pose proof (on_report_quiet (fun r => r <| rec_outcome := RecEffectUnknown |>) w3) as Q4.
  destruct (on_report _ w3) as [[v'|e] w4] eqn:E4; cbn in Q4; [|done].
  eapply (lets_go_of_quiet _ w w4); [etrans; [exact Q1|etrans; [exact Q2|by etrans]]| |reflexivity].
  clear Q1 Q2 Q3 Q4 E4. unfold native.
  destruct (sink_submit op (sink w4)) as [r sk].
  set (w5 := w4 <| sink := sk |> <| trace := trace w4 ++ [mkCall op r None] |>).
  destruct r as [|e| | |]; cbn.
  all: by eapply (lets_go_of_native op _ w4 w5).
Qed.

Lemma reconcile_each_spec ops : forall w : World Sk,
  Forall release_op ops ->
  lets_go_of ops w (fst (for_each reconcile_one ops w)) (snd (for_each reconcile_one ops w)).
Proof.
  induction ops as [|op ops IH]; intros w Hops.
  { exists []. split_and!; [by apply lets_go_quiet|constructor|done]. }
  apply Forall_cons in Hops as [Hop Hops]. cbn [for_each]. unfold mbind, M_bind.
  destruct (reconcile_one_spec op w Hop) as (l & Hl & Hf & Hr).
  assert (Hin : forall l, Forall (fun e => nc_op e ∈ [op] /\ nc_grant e = None) l ->
    Forall (fun e => nc_op e ∈ op :: ops /\ nc_grant e = None) l).
  { intros l' Hl'. eapply Forall_impl; [exact Hl'|]. intros e [->%list_elem_of_singleton ?]. split; [|done].
    apply list_elem_of_here. }
  destruct (reconcile_one op w) as [[u|e] w1]; cbn in *; [|exists l; by split_and!; auto].
  destruct (IH w1 Hops) as (l' & Hl' & Hf' & Hr'). destruct (Hr eq_refl) as [Ho Hs].
  exists (l ++ l'). split_and!; [by eapply lets_go_app| |].
  - apply Forall_app. split; [by auto|]. eapply Forall_impl; [exact Hf'|].
    intros e [? ?]. split; [by apply list_elem_of_further|done].
  - intros Hok. destruct (Hr' Hok) as [Ho' Hs']. rewrite fmap_app, Ho, Ho'.
    split; [done|]. by apply Forall_app.
Qed.

Lemma reconcile_run_spec s h (w : World Sk) :
  let ops := missing_releases s h in
  lets_go_of ops w (fst (reconcile_run ops w)) (snd (reconcile_run ops w)).
Proof.
  intros ops. unfold reconcile_run, mbind, M_bind.
  pose proof (clock_quiet w) as Q2.
  destruct (clock w) as [[now|e] w2]; cbn in Q2; [|by apply lets_go_of_refused].
  pose proof (check_reconciliation_quiet now w2) as Q3.
  destruct (check_reconciliation now w2) as [[v|e] w3]; cbn in Q3;
    [|apply lets_go_of_refused; by etrans].
  eapply (lets_go_of_quiet _ w w3); [by etrans| |reflexivity].
  apply reconcile_each_spec, Forall_forall. intros op. apply missing_releases_release.
Qed.

Lemma finish_applied rq r (w : World Sk) rep :
  fst (finish_reconciliation rq r w) = Ok rep -> rec_outcome rep = Applied -> is_ok r = true.
Proof.
  destruct r as [u|e]; [done|]. unfold finish_reconciliation, revoke, on_report, on_own, set_revoked.
  run_method. cbn. destruct (reconciliation (own w)) as [r0|]; cbn; intros [= <-]; cbn; [|done].
  case_bool_decide as Hb; cbn; [by rewrite Hb|done].
Qed.

(** Confirmed releases clear exactly what they name. *)
Lemma key_down_releases k l : forall d,
  Forall is_sub l -> Forall (fun e => release_op (nc_op e)) l ->
  key_down k l d = d && negb (bool_decide (OpKey k Release ∈ nc_op <$> l)).
Proof.
  induction l as [|e l IH]; intros d Hs Hl; [by destruct d|].
  apply Forall_cons in Hs as [He Hs]. apply Forall_cons in Hl as [[Hr _] Hl].
  unfold key_down in *. cbn [foldl fmap list_fmap]. rewrite IH by done. unfold is_sub in He.
  destruct e as [op r g]; cbn in *. subst r.
  rewrite (bool_decide_ext (OpKey k Release ∈ op :: (nc_op <$> l)) (OpKey k Release = op \/ OpKey k Release ∈ nc_op <$> l))
    by apply elem_of_cons.
  destruct op as [k' []|p|b' []|x y|x y u|d' []|c]; cbn in *; try done.
  - destruct (Z.eqb_spec k' k) as [->|Hne]; cbn.
    + rewrite (bool_decide_eq_true_2 (_ \/ _)) by (by left). by destruct d.
    + do 2 f_equal. apply bool_decide_ext. naive_solver.
  - do 2 f_equal. apply bool_decide_ext. naive_solver.
  - do 2 f_equal. apply bool_decide_ext. naive_solver.
Qed.

Lemma button_down_releases b l : forall d,
  Forall is_sub l -> Forall (fun e => release_op (nc_op e)) l ->
  button_down b l d = d && negb (bool_decide (OpButton b false ∈ nc_op <$> l)).
Proof.
  induction l as [|e l IH]; intros d Hs Hl; [by destruct d|].
  apply Forall_cons in Hs as [He Hs]. apply Forall_cons in Hl as [[Hr _] Hl].
  unfold button_down in *. cbn [foldl fmap list_fmap]. rewrite IH by done. unfold is_sub in He.
  destruct e as [op r g]; cbn in *. subst r.
  rewrite (bool_decide_ext (OpButton b false ∈ op :: (nc_op <$> l)) (OpButton b false = op \/ OpButton b false ∈ nc_op <$> l))
    by apply elem_of_cons.
  destruct op as [k' []|p|b' []|x y|x y u|d' []|c]; cbn in *; try done.
  - do 2 f_equal. apply bool_decide_ext. naive_solver.
  - destruct (bool_decide_reflect (b' = b)) as [->|Hne]; cbn.
    + rewrite (bool_decide_eq_true_2 (_ \/ _)) by (by left). by destruct d.
    + do 2 f_equal. apply bool_decide_ext. naive_solver.
  - do 2 f_equal. apply bool_decide_ext. naive_solver.
Qed.

(** The releases of a reconciliation, read against the state it started from. *)
Lemma missing_keys s h k :
  physical_key k = Some k ->
  key_held s k && negb (bool_decide (OpKey k Release ∈ missing_releases s h))
  = key_held s k && Held.key h k.
Proof.
  intros Hk. destruct (key_held s k) eqn:Hh; [|done]. cbn. case_bool_decide as Hin; cbn.
  - apply missing_releases_spec in Hin as [(k' & _ & _ & _ & Hn & [= ->])|(b & _ & _ & ?)]; done.
  - destruct (Held.key h k) eqn:Hn; [done|]. exfalso. apply Hin, missing_releases_spec.
    left. exists k. pose proof (physical_range k Hk). by split_and!; try lia.
Qed.

Lemma missing_buttons s h b :
  button_held s b && negb (bool_decide (OpButton b false ∈ missing_releases s h))
  = button_held s b && Held.button h b.
Proof.
  destruct (button_held s b) eqn:Hh; [|done]. cbn. case_bool_decide as Hin; cbn.
  - apply missing_releases_spec in Hin as [(k' & _ & _ & _ & Hn & ?)|(b' & _ & Hn & [= ->])]; done.
  - destruct (Held.button h b) eqn:Hn; [done|]. exfalso. apply Hin, missing_releases_spec.
    right. by exists b.
Qed.

Lemma missing_releases_held s s' h :
  held_of s' = held_of s -> missing_releases s' h = missing_releases s h.
Proof.
  intros [= Hk Hb _]. unfold missing_releases, key_held, button_held. by rewrite Hk, Hb.
Qed.

Lemma wheel_down_other l : forall d,
  Forall (fun e => forall d b, nc_op e <> OpWheel d b) l -> wheel_down l d = d.
Proof.
  induction l as [|e l IH]; intros d Hl; [done|]. apply Forall_cons in Hl as [He Hl].
  unfold wheel_down in *. cbn [foldl]. rewrite IH by done.
  destruct e as [op r g]; cbn in *. destruct op as [| | | | |d' b|]; try done. by destruct (He d' b).
Qed.

Lemma released_reads l h (w w' : World Sk) :
  held_wf (own w) -> held_of (own w') = held_of (replay l (own w)) ->
  Forall is_sub l -> Forall (fun e => release_op (nc_op e)) l ->
  nc_op <$> l = missing_releases (own w) h ->
  (forall k, physical_key k = Some k -> key_held (own w') k = key_held (own w) k && Held.key h k) /\
  (forall b, button_held (own w') b = button_held (own w) b && Held.button h b) /\
  wheel (own w') = wheel (own w).
Proof.
  intros Hwf [= Hk Hb Hw] Hs Hrel Ho.
  assert (Hph : Forall (fun e => physical_op (nc_op e)) l).
  { eapply Forall_impl; [exact Hrel|]. by intros e [_ ?]. }
  split_and!.
  - intros k Hp. destruct (replay_reads l k Primary (own w) Hp Hph Hwf) as (Hr & _).
    unfold key_held at 1. rewrite Hk. fold (key_held (replay l (own w)) k).
    by rewrite Hr, key_down_releases, Ho, missing_keys.
  - intros b. destruct (replay_reads l 4 b (own w) eq_refl Hph Hwf) as (_ & Hr & _).
    unfold button_held at 1. rewrite Hb. fold (button_held (replay l (own w)) b).
    by rewrite Hr, button_down_releases, Ho, missing_buttons.
  - destruct (replay_reads l 4 Primary (own w) eq_refl Hph Hwf) as (_ & _ & Hr & _).
    rewrite Hw, Hr. apply wheel_down_other, Forall_forall. intros e He d b Hd.
    assert (Hin : nc_op e ∈ nc_op <$> l) by by apply list_elem_of_fmap_2.
    rewrite Ho, Hd in Hin.
    by apply missing_releases_spec in Hin as [(k & _ & _ & _ & _ & ?)|(b' & _ & _ & ?)].
Qed.

(** The run of [reconcile_held]: it does nothing, or releases what is missing. *)
Lemma reconcile_held_spec rq (w : World Sk) :
  let w' := snd (reconcile_held rq w) in
  let ops := missing_releases (own w) (Held.held rq) in
  (lets_go [] w w' /\ forall rep, fst (reconcile_held rq w) = Ok rep -> rec_outcome rep <> Applied) \/
  (exists r, lets_go_of ops w r w' /\
    forall rep, fst (reconcile_held rq w) = Ok rep -> rec_outcome rep = Applied -> is_ok r = true).
Proof.
  cbv zeta. unfold reconcile_held.
  assert (Hign : forall w', lets_go [] w w' ->
    lets_go [] w w' /\ forall rep, Ok (E:=Refusal) (ignored (Held.hs_sequence rq)) = Ok rep -> rec_outcome rep <> Applied).
  { intros w' Hl. split; [done|]. by intros rep [= <-]. }
  destruct (_ || _); [left; by apply Hign, lets_go_quiet|].
  pose proof (check_active_quiet w) as Q.
  destruct (check_active w) as [active w1]; cbn in Q.
  destruct (_ || _); [left; by apply Hign, lets_go_quiet|].
  destruct (Ledger.next_sequence (ledger (own w1))) as [expected|]; [|left; by apply Hign, lets_go_quiet].
  destruct (_ <? _); [left; by apply Hign, lets_go_quiet|]. destruct (_ || _).
  - left. split; [|done]. apply lets_go_idle. etrans; [by apply quiet_advances|].
    pose proof (revoke_advances (fun _ => False) w1) as R.
    unfold mbind, M_bind. by destruct (revoke w1) as [[]].
  - right. rewrite <- (missing_releases_held (own w) (own w1)) by apply Q.
    unfold mbind, M_bind, on_own, modify, method.
    set (ops := missing_releases (own w1) (Held.held rq)).
    match goal with |- context [reconcile_run ops ?x] => set (w2 := x) end.
    pose proof (reconcile_run_spec (own w1) (Held.held rq) w2) as (l & Hl & Hf & Hr).
    fold ops in Hl, Hf, Hr. destruct (reconcile_run ops w2) as [res w3]; cbn [fst snd] in *.
    exists res. split; [|intros rep; by apply finish_applied]. exists l. split; [|done].
    rewrite <- (app_nil_l l), <- (app_nil_r ([] ++ l)).
    eapply lets_go_app; [|apply lets_go_idle, finish_reconciliation_advances].
    eapply lets_go_app; [|exact Hl].
    destruct (lets_go_quiet _ _ Q) as [Ht Hh]. by split.
Qed.

(** Reconciling with the controller's snapshot only lets go, and only of
    input that is held here and not held there; and when it reports [Applied],
    what remains held is exactly what was held before and is held in the
    snapshot. *)
Theorem reconciliation_is_exact (rq : Held.HeldStateRequest) (w : World Sk) :
  held_wf (own w) ->
  let w' := snd (reconcile_held rq w) in
  (exists l, trace w' = trace w ++ l /\
    Forall (fun e => nc_grant e = None /\
      ((exists k, nc_op e = OpKey k Release /\ key_held (own w) k = true /\ Held.key (Held.held rq) k = false) \/
       (exists b, nc_op e = OpButton b false /\ button_held (own w) b = true /\
          Held.button (Held.held rq) b = false))) l) /\
  forall rep, fst (reconcile_held rq w) = Ok rep -> rec_outcome rep = Applied ->
    (forall k, physical_key k = Some k ->
       key_held (own w') k = key_held (own w) k && Held.key (Held.held rq) k) /\
    (forall b, button_held (own w') b = button_held (own w) b && Held.button (Held.held rq) b) /\
    wheel (own w') = wheel (own w).
Proof.
  intros Hwf w'.
  destruct (reconcile_held_spec rq w) as [[[Ht _] Hno]|(r & (l & [Ht Hh] & Hf & Hr) & Hok)].
  { split; [exists []; by split|]. intros rep Hrep Hap. by destruct (Hno rep Hrep). }
  fold w' in Ht, Hh. split.
  - exists l. split; [done|]. eapply Forall_impl; [exact Hf|]. intros e [Hin Hg]. split; [done|].
    apply missing_releases_spec in Hin as [(k & _ & _ & Hk & Hn & He)|(b & Hb & Hn & He)];
      [left; by exists k|right; by exists b].
  - intros rep Hrep Hap. destruct (Hr (Hok rep Hrep Hap)) as [Ho Hs].
    assert (Hrel : Forall (fun e => release_op (nc_op e)) l).
    { eapply Forall_impl; [exact Hf|]. intros e [Hin _]. by eapply missing_releases_release. }
    by apply (released_reads l).
Qed.

End held_histories.

(** ** Witnesses *)

Lemma demo_held_wf w : demo_world = Some w -> held_wf (own w).
Proof.
  intros Hw. vm_compute in Hw. injection Hw as <-. split; [reflexivity..|]. cbn [own is_keys].
  intros i Hi. exfalso. revert i Hi. change (forall i, replicate 256 false !! i = Some true -> False).
  intros i [? _]%lookup_replicate. done.
Qed.

Lemma held_state_is_exact_witness :
  exists w, demo_world = Some w /\
    let w' := run_actions [ADispatch (press 0 4); AMaintain 200] w in
    exists l, trace w' = trace w ++ l /\
    (forall k, physical_key k = Some k -> key_held (own w') k = key_down k l (key_held (own w) k)) /\
    (forall b, button_held (own w') b = button_down b l (button_held (own w) b)) /\
    wheel (own w') = wheel (own w).
Proof.
  destruct demo_world as [w|] eqn:Hw; [|vm_compute in Hw; discriminate].
  exists w. split; [reflexivity|].
  destruct (held_state_is_exact [ADispatch (press 0 4); AMaintain 200] w) as (l & Ht & Hk & Hb & Hwh).
  - by apply demo_held_wf.
  - repeat constructor.
  - exists l. split_and!; [exact Ht|exact Hk|exact Hb|]. rewrite Hwh.
    assert (l = trace (run_actions [ADispatch (press 0 4); AMaintain 200] w)) as ->.
    { rewrite Ht. vm_compute in Hw. injection Hw as <-. done. }
    vm_compute in Hw. injection Hw as <-. vm_compute. reflexivity.
Defined.

Lemma accepting_sink_cooperative : cooperative (Sk:=unit).
Proof. by intros op sk Hop. Qed.

Lemma cleanup_releases_everything_witness :
  exists w, demo_world = Some w /\
    exists n w', cleanup (run_actions [ADispatch (press 0 4)] w) = (Ok (mkCleanup n 0), w') /\
      held_count (own w') = 0 /\ revoked w' = true.
Proof.
  destruct demo_world as [w|] eqn:Hw; [|vm_compute in Hw; discriminate].
  exists w. split; [reflexivity|]. apply cleanup_releases_everything.
  - apply accepting_sink_cooperative.
  - by apply demo_held_wf.
  - repeat constructor.
Defined.

(** An empty snapshot lets go of the one key held. *)
Definition empty_snapshot : Held.HeldStateRequest := Held.mkHeldRequest 1 2 1 1 Held.empty.

Lemma reconciliation_is_exact_witness :
  exists w, demo_world = Some w /\
    let w1 := run_actions [ADispatch (press 0 4)] w in
    let w2 := snd (reconcile_held empty_snapshot w1) in
    key_held (own w1) 4 = true /\ key_held (own w2) 4 = false.
Proof.
  destruct demo_world as [w|] eqn:Hw; [|vm_compute in Hw; discriminate].
  exists w. split; [reflexivity|]. cbv zeta.
  destruct (advances_held w (run_actions [ADispatch (press 0 4)] w)) as (_ & _ & Hwf & _).
  { apply history_physical. repeat constructor. }
  { by apply demo_held_wf. }
  destruct (reconciliation_is_exact empty_snapshot _ Hwf) as [_ Hap].
  vm_compute in Hw. injection Hw as <-. split; [vm_compute; reflexivity|].
  edestruct Hap as (Hk & _); [vm_compute; reflexivity..|].
  rewrite Hk by reflexivity. vm_compute. reflexivity.
Defined.
