(* ===== verification/Bytes.v ===== *)
(** * Byte buffers

    Big-endian integers, two's complement, and the slice operations the codecs of
    the repository use.  A byte is a [Z] in [0 .. 255]; a fixed array is a list
    whose length the codec checks. *)

From S2P Require Import Prelude.

Abbreviation bytes := (list Z) (only parsing).

Definition is_byte (b : Z) : Prop := fits u8_max b.
#[export] Instance is_byte_dec b : Decision (is_byte b).
Proof. unfold is_byte. apply _. Defined.

(** [to_be_bytes] of an [n]-byte unsigned integer. *)
Fixpoint be (n : nat) (z : Z) : bytes :=
  match n with
  | O => []
  | S n => (z / 256 ^ Z.of_nat n) mod 256 :: be n z
  end.

(** [from_be_bytes]. *)
Definition of_be (l : bytes) : Z := foldl (fun acc b => acc * 256 + b) 0 l.

(** [i32::to_be_bytes] and [i32::from_be_bytes]. *)
Definition be_i32 (z : Z) : bytes := be 4 (z mod 2 ^ 32).
Definition of_be_i32 (l : bytes) : Z := let v := of_be l in if 2 ^ 31 <=? v then v - 2 ^ 32 else v.

(** [bytes[a..b]] and [bytes[off..off + src.len()].copy_from_slice(src)]. *)
Definition slice (a b : nat) (l : bytes) : bytes := take (b - a) (drop a l).
Definition put (off : nat) (src : bytes) (l : bytes) : bytes :=
  take off l ++ src ++ drop (off + length src) l.
(** [bytes[i]]. *)
Definition at_ (i : nat) (l : bytes) : Z := default 0 (l !! i).

Definition zeros (n : nat) : bytes := replicate n 0.
Definition all_zero (l : bytes) : bool := forallb (fun b => b =? 0) l.

(** ** Round trips *)

Lemma be_length n z : length (be n z) = n.
Proof. induction n as [|n IH]; cbn; congruence. Qed.

Lemma be_bytes n z : Forall is_byte (be n z).
Proof.
  induction n as [|n IH]; cbn; constructor; [|done].
  unfold is_byte, fits, u8_max. pose proof (Z.mod_pos_bound (z / 256 ^ Z.of_nat n) 256). lia.
Qed.

Lemma of_be_acc l : forall acc, foldl (fun acc b => acc * 256 + b) acc l = acc * 256 ^ Z.of_nat (length l) + of_be l.
Proof.
  unfold of_be. induction l as [|b l IH]; intros acc; cbn [foldl length]; [cbn; lia|].
  rewrite IH, (IH (0 * 256 + b)), Nat2Z.inj_succ, Z.pow_succ_r by lia. lia.
Qed.

Lemma of_be_cons b l : of_be (b :: l) = b * 256 ^ Z.of_nat (length l) + of_be l.
Proof. unfold of_be at 1. cbn [foldl]. rewrite of_be_acc. lia. Qed.

Lemma of_be_bound l : Forall is_byte l -> 0 <= of_be l < 256 ^ Z.of_nat (length l).
Proof.
  induction 1 as [|b l Hb Hl IH]; [by cbn|]. rewrite of_be_cons. cbn [length].
  rewrite Nat2Z.inj_succ, Z.pow_succ_r by lia. unfold is_byte, fits, u8_max in Hb. nia.
Qed.

Lemma of_be_be n z : 0 <= z -> of_be (be n z) = z mod 256 ^ Z.of_nat n.
Proof.
  intros Hz. induction n as [|n IH]; [by rewrite Z.mod_1_r|].
  cbn [be]. rewrite of_be_cons, IH, be_length, Nat2Z.inj_succ, Z.pow_succ_r by lia.
  set (p := 256 ^ Z.of_nat n). assert (0 < p) by (apply Z.pow_pos_nonneg; lia).
  rewrite (Z.mul_comm 256), Z.rem_mul_r by lia. lia.
Qed.

Lemma of_be_be_id n z : 0 <= z < 256 ^ Z.of_nat n -> of_be (be n z) = z.
Proof. intros Hz. rewrite of_be_be by lia. by apply Z.mod_small. Qed.

Lemma be_mod n m z a : (n <= m)%nat -> be n (a * 256 ^ Z.of_nat m + z) = be n z.
Proof.
  induction n as [|n IH]; intros Hm; [done|]. cbn [be]. f_equal; [|apply IH; lia].
  replace (Z.of_nat m) with (1 + Z.of_nat (m - S n) + Z.of_nat n) by lia.
  rewrite Z.pow_add_r, Z.pow_add_r by lia.
  replace (a * (256 ^ 1 * 256 ^ Z.of_nat (m - S n) * 256 ^ Z.of_nat n) + z)
    with (a * 256 ^ Z.of_nat (m - S n) * 256 * 256 ^ Z.of_nat n + z) by lia.
  rewrite Z.div_add_l by lia. rewrite Z.add_comm. apply Z.mod_add. lia.
Qed.

Lemma be_of_be l : Forall is_byte l -> be (length l) (of_be l) = l.
Proof.
  induction 1 as [|b l Hb Hl IH]; [done|]. cbn [length be].
  pose proof (of_be_bound l Hl) as Hr. set (p := 256 ^ Z.of_nat (length l)) in *.
  rewrite of_be_cons. fold p. unfold is_byte, fits, u8_max in Hb. f_equal.
  - rewrite Z.div_add_l, Z.div_small by lia. rewrite Z.mod_small; lia.
  - rewrite <- IH at 3. by apply be_mod.
Qed.

Lemma of_be_i32_be_i32 z : i32_min <= z <= i32_max -> of_be_i32 (be_i32 z) = z.
Proof.
  unfold i32_min, i32_max. intros Hz. unfold of_be_i32, be_i32.
  rewrite of_be_be_id by (apply Z.mod_pos_bound; lia).
  destruct (Z.leb_spec (2 ^ 31) (z mod 2 ^ 32)) as [Hge|Hlt].
  - destruct (Z.neg_nonneg_cases z); [|rewrite Z.mod_small in Hge; lia].
    replace (z mod 2 ^ 32) with (z + 2 ^ 32); [lia|].
    symmetry. rewrite <- (Z.mod_add z 1) by lia. rewrite Z.mul_1_l. apply Z.mod_small. lia.
  - destruct (Z.neg_nonneg_cases z); [|rewrite Z.mod_small; lia].
    assert (z mod 2 ^ 32 = z + 2 ^ 32); [|lia].
    rewrite <- (Z.mod_add z 1) by lia. rewrite Z.mul_1_l. apply Z.mod_small. lia.
Qed.

Lemma be_i32_of_be_i32 l : Forall is_byte l -> length l = 4%nat -> be_i32 (of_be_i32 l) = l.
Proof.
  intros Hb Hl. pose proof (of_be_bound l Hb) as Hr. rewrite Hl in Hr.
  rewrite <- (be_of_be l Hb) at 2. rewrite Hl. unfold be_i32, of_be_i32. f_equal.
  destruct (Z.leb_spec (2 ^ 31) (of_be l)).
  - rewrite <- (Z.mod_add _ 1) by lia. rewrite Z.mul_1_l, Z.sub_add. apply Z.mod_small. lia.
  - apply Z.mod_small. lia.
Qed.

Lemma of_be_i32_range l : Forall is_byte l -> length l = 4%nat -> i32_min <= of_be_i32 l <= i32_max.
Proof.
  intros Hb Hl. pose proof (of_be_bound l Hb) as Hr. rewrite Hl in Hr.
  unfold of_be_i32, i32_min, i32_max. destruct (Z.leb_spec (2 ^ 31) (of_be l)); lia.
Qed.

Lemma all_zero_spec l : all_zero l = true <-> l = zeros (length l).
Proof.
  unfold all_zero, zeros. induction l as [|b l IH]; cbn [forallb length replicate]; [done|].
  rewrite andb_true_iff, IH, Z.eqb_eq. split.
  - intros [-> Hl]. by rewrite Hl at 1.
  - by intros [= -> <-].
Qed.

Lemma all_zero_zeros n : all_zero (zeros n) = true.
Proof. by induction n. Qed.

Lemma zeros_bytes n : Forall is_byte (zeros n).
Proof. apply Forall_replicate. by vm_compute. Qed.
