(* ===== verification/ProcessCodec.v ===== *)
(** * The injection executor's private codec

    [fr-core/src/input_submission/process.rs]: the fixed 64-byte command frames and
    16-byte signals between the input owner and the one out-of-process executor of
    its lease, and the translation of the owner's deadline into the executor's
    clock. *)

From S2P Require Import Prelude CoreTime InputModel Submission Bytes.
Import InputModel.Scroll.

Definition MAGIC : bytes := [70; 82; 73; 65].
Definition SIGNAL_MAGIC : bytes := [70; 82; 73; 70].
Definition VERSION : Z := 1.
Definition FRAME_BYTES : nat := 64.
Definition SIGNAL_BYTES : nat := 16.
Definition HEADER_BYTES : nat := 16.
Definition BODY_BYTES : nat := 48.
Definition CAPABILITY_BITS : Z := 255.

Inductive CodecError :=
| CMagic | CVersion | CKind | CReserved | CPadding | CSequence | CValue | CLength.

Inductive Request :=
| QHello (epoch : Z) (bounds : Bounds.InputBounds) (required : Capabilities)
| QPrepare (op : Operation)
| QSubmit (op : Operation) (not_after_ns : Z)
| QRelease (op : Operation)
| QCancel
| QCleanup
| QStop
| QProbe (epoch : Z).

Inductive Reply :=
| PReady (epoch : Z) (capabilities : Capabilities) (repeat_requires_pair line_scroll_requires_pairs : bool)
| PRefused (e : PlatformError)
| PPrepared
| PPrepareFailed (e : PlatformError)
| PSubmitted
| PNotSubmitted (e : PlatformError)
| PUnknown
| PExpired
| PFenced
| PCancelled
| PCleaned (done : bool)
| PStopped.

Definition submission_of (r : Reply) : option Submission :=
  match r with
  | PSubmitted => Some Submitted
  | PNotSubmitted e => Some (NotSubmitted e)
  | PUnknown => Some Unknown
  | PExpired => Some Expired
  | PFenced => Some SubFenced
  | _ => None
  end.

Inductive Signal := SFence | SLocalRevoke | SIndicatorFailed.

Definition not_after_ns (monotonic_ns : Z) (now until : HostInstant) : option Z :=
  match HostTime.duration_since until now with
  | None => None
  | Some remaining =>
      if remaining =? 0 then None
      else match checked_mul u64_max remaining 1000 with
           | None => None
           | Some ns => checked_add u64_max monotonic_ns ns
           end
  end.

(** ** Frames *)

Definition codec_err {A : Type} (e : CodecError) : Result CodecError A := Err e.
(** [if cond { return Err(e) }]. *)
Definition reject (cond : bool) (e : CodecError) : Result CodecError unit :=
  if cond then Err e else Ok tt.

Definition frame (sequence kind : Z) (body : bytes) : Result CodecError bytes :=
  _ ← reject (sequence =? 0) CSequence;
  let b := zeros FRAME_BYTES in
  let b := put 0 MAGIC b in
  let b := <[4%nat := VERSION]> b in
  let b := <[5%nat := kind]> b in
  let b := put 8 (be 8 sequence) b in
  mret (put HEADER_BYTES body b).

Definition unframe (b : bytes) : Result CodecError (Z * Z * bytes) :=
  _ ← reject (negb (length b =? FRAME_BYTES)%nat) CLength;
  _ ← reject (negb (bool_decide (slice 0 4 b = MAGIC))) CMagic;
  _ ← reject (negb (at_ 4 b =? VERSION)) CVersion;
  _ ← reject (negb (bool_decide (slice 6 8 b = [0; 0]))) CReserved;
  let sequence := of_be (slice 8 16 b) in
  _ ← reject (sequence =? 0) CSequence;
  mret (sequence, at_ 5 b, drop HEADER_BYTES b).

Definition zero (b : bytes) : Result CodecError unit := if all_zero b then Ok tt else Err CPadding.

Definition flag (b : Z) : Result CodecError bool :=
  if b =? 0 then Ok false else if b =? 1 then Ok true else Err CValue.

Definition decode_capabilities (b : bytes) : Result CodecError Capabilities :=
  let bits := of_be b in
  _ ← reject (negb (Z.land bits (Z.lxor CAPABILITY_BITS u16_max) =? 0)) CValue;
  mret bits.

Definition platform_code (e : PlatformError) : Z :=
  match e with PUnsupported => 1 | PPermission => 2 | PGeometryChanged => 3 | PUnavailable => 4 end.

Definition platform_error (code : Z) : Result CodecError PlatformError :=
  if code =? 1 then Ok PUnsupported
  else if code =? 2 then Ok PPermission
  else if code =? 3 then Ok PGeometryChanged
  else if code =? 4 then Ok PUnavailable
  else Err CValue.

(** ** Operations *)

Definition put_point (x y : Z) (b : bytes) : bytes := put 5 (be_i32 y) (put 1 (be_i32 x) b).

Definition transition_code (t : KeyTransition) : Z :=
  match t with Release => 0 | Press => 1 | Repeat => 2 end.
Definition button_code (b : PointerButton) : Z := Z.of_nat (button_index b) + 1.
Definition unit_code (u : ScrollUnit) : Z := match u with Pixels => 0 | Lines => 1 end.
Definition direction_code (d : WheelDirection) : Z :=
  match d with WLeft => 0 | WRight => 1 | WUp => 2 | WDown => 3 end.
Definition bool_code (b : bool) : Z := if b then 1 else 0.

Definition put_operation (body : bytes) (op : Operation) : bytes :=
  match op with
  | OpKey key transition =>
      <[3%nat := transition_code transition]> (put 1 (be 2 key) (<[0%nat := 1]> body))
  | OpAbsolute p => put_point (px p) (py p) (<[0%nat := 2]> body)
  | OpButton button pressed =>
      <[2%nat := bool_code pressed]> (<[1%nat := button_code button]> (<[0%nat := 3]> body))
  | OpRelative x y => put_point x y (<[0%nat := 4]> body)
  | OpScroll x y u => <[9%nat := unit_code u]> (put_point x y (<[0%nat := 5]> body))
  | OpWheel d pressed =>
      <[2%nat := bool_code pressed]> (<[1%nat := direction_code d]> (<[0%nat := 6]> body))
  | OpText c => put 1 (be 4 c) (<[0%nat := 7]> body)
  end.

(** [char::from_u32]. *)
Definition char_from_u32 (c : Z) : option Z :=
  if (1114111 <? c) || ((55296 <=? c) && (c <=? 57343)) then None else Some c.

Definition decode_transition (b : Z) : Result CodecError KeyTransition :=
  if b =? 0 then Ok Release else if b =? 1 then Ok Press else if b =? 2 then Ok Repeat
  else Err CValue.
Definition decode_button (b : Z) : Result CodecError PointerButton :=
  if b =? 1 then Ok Primary else if b =? 2 then Ok Secondary else if b =? 3 then Ok Middle
  else if b =? 4 then Ok Back else if b =? 5 then Ok Forward else Err CValue.
Definition decode_unit (b : Z) : Result CodecError ScrollUnit :=
  if b =? 0 then Ok Pixels else if b =? 1 then Ok Lines else Err CValue.
Definition decode_direction (b : Z) : Result CodecError WheelDirection :=
  if b =? 0 then Ok WLeft else if b =? 1 then Ok WRight else if b =? 2 then Ok WUp
  else if b =? 3 then Ok WDown else Err CValue.

(** The [match] of [operation]: the operation and the bytes it used. *)
Definition decode_used (b : bytes) : Result CodecError (Operation * nat) :=
  let int i := of_be_i32 (slice i (i + 4) b) in
  let tag := at_ 0 b in
  if tag =? 1 then
    key ← ok_or (physical_key (of_be [at_ 1 b; at_ 2 b])) CValue;
    transition ← decode_transition (at_ 3 b);
    mret (OpKey key transition, 4%nat)
  else if tag =? 2 then mret (OpAbsolute (mkPoint (int 1%nat) (int 5%nat)), 9%nat)
  else if tag =? 3 then
    button ← decode_button (at_ 1 b);
    pressed ← flag (at_ 2 b);
    mret (OpButton button pressed, 3%nat)
  else if tag =? 4 then mret (OpRelative (int 1%nat) (int 5%nat), 9%nat)
  else if tag =? 5 then
    u ← decode_unit (at_ 9 b);
    mret (OpScroll (int 1%nat) (int 5%nat) u, 10%nat)
  else if tag =? 6 then
    direction ← decode_direction (at_ 1 b);
    pressed ← flag (at_ 2 b);
    mret (OpWheel direction pressed, 3%nat)
  else if tag =? 7 then
    scalar ← ok_or (char_from_u32 (of_be (slice 1 5 b))) CValue;
    mret (OpText scalar, 5%nat)
  else Err CValue.

Definition operation (b : bytes) : Result CodecError Operation :=
  r ← decode_used b;
  let '(op, used) := r in
  _ ← zero (drop used b);
  mret op.

(** ** Requests *)

(** The [match] of [encode_request]: the kind and the body. *)
Definition request_body (r : Request) : Result CodecError (Z * bytes) :=
  let body := zeros BODY_BYTES in
  match r with
  | QHello epoch b required =>
      _ ← reject (epoch =? 0) CValue;
      let body := put 0 (be 16 epoch) body in
      let body := put 16 (be_i32 (px (Bounds.origin b))) body in
      let body := put 20 (be_i32 (py (Bounds.origin b))) body in
      let body := put 24 (be 4 (Bounds.width b)) body in
      let body := put 28 (be 4 (Bounds.height b)) body in
      mret (1, put 32 (be 2 required) body)
  | QPrepare op => mret (2, put_operation body op)
  | QSubmit op n =>
      _ ← reject (n =? 0) CValue;
      mret (3, put 16 (be 8 n) (put_operation body op))
  | QRelease op =>
      _ ← reject (negb (is_release op)) CValue;
      mret (4, put_operation body op)
  | QCancel => mret (5, body)
  | QCleanup => mret (6, body)
  | QStop => mret (7, body)
  | QProbe epoch =>
      _ ← reject (epoch =? 0) CValue;
      mret (8, put 0 (be 16 epoch) body)
  end.

Definition encode_request (sequence : Z) (r : Request) : Result CodecError bytes :=
  kb ← request_body r;
  frame sequence (fst kb) (snd kb).

(** The [match] of [decode_request]. *)
Definition request_of (kind : Z) (body : bytes) : Result CodecError Request :=
  if kind =? 1 then
    let epoch := of_be (slice 0 16 body) in
    b ← ok_or (Bounds.new (mkPoint (of_be_i32 (slice 16 20 body)) (of_be_i32 (slice 20 24 body)))
                 (of_be (slice 24 28 body)) (of_be (slice 28 32 body))) CValue;
    required ← decode_capabilities (slice 32 34 body);
    _ ← zero (drop 34 body);
    _ ← reject (epoch =? 0) CValue;
    mret (QHello epoch b required)
  else if kind =? 2 then
    _ ← zero (drop 16 body);
    op ← operation (slice 0 16 body);
    mret (QPrepare op)
  else if kind =? 3 then
    op ← operation (slice 0 16 body);
    let n := of_be (slice 16 24 body) in
    _ ← zero (drop 24 body);
    _ ← reject (n =? 0) CValue;
    mret (QSubmit op n)
  else if kind =? 4 then
    _ ← zero (drop 16 body);
    op ← operation (slice 0 16 body);
    _ ← reject (negb (is_release op)) CValue;
    mret (QRelease op)
  else if (5 <=? kind) && (kind <=? 7) then
    _ ← zero body;
    mret (if kind =? 5 then QCancel else if kind =? 6 then QCleanup else QStop)
  else if kind =? 8 then
    let epoch := of_be (slice 0 16 body) in
    _ ← zero (drop 16 body);
    _ ← reject (epoch =? 0) CValue;
    mret (QProbe epoch)
  else Err CKind.

Definition decode_request (b : bytes) : Result CodecError (Z * Request) :=
  u ← unframe b;
  let '(sequence, kind, body) := u in
  r ← request_of kind body;
  mret (sequence, r).

(** ** Replies *)

Definition reply_body (r : Reply) : Result CodecError (Z * bytes) :=
  let body := zeros BODY_BYTES in
  match r with
  | PReady epoch caps pairs lines =>
      _ ← reject (epoch =? 0) CValue;
      let body := put 0 (be 16 epoch) body in
      let body := put 16 (be 2 caps) body in
      mret (129, <[18%nat := Z.lor (bool_code pairs) (Z.shiftl (bool_code lines) 1)]> body)
  | PRefused e => mret (130, <[0%nat := platform_code e]> body)
  | PPrepared => mret (131, body)
  | PPrepareFailed e => mret (132, <[0%nat := platform_code e]> body)
  | PSubmitted => mret (133, body)
  | PNotSubmitted e => mret (134, <[0%nat := platform_code e]> body)
  | PUnknown => mret (135, body)
  | PExpired => mret (136, body)
  | PFenced => mret (137, body)
  | PCancelled => mret (138, body)
  | PCleaned b => mret (139, <[0%nat := bool_code b]> body)
  | PStopped => mret (140, body)
  end.

Definition encode_reply (sequence : Z) (r : Reply) : Result CodecError bytes :=
  kb ← reply_body r;
  frame sequence (fst kb) (snd kb).

Definition reply_of (kind : Z) (body : bytes) : Result CodecError Reply :=
  if kind =? 129 then
    let epoch := of_be (slice 0 16 body) in
    caps ← decode_capabilities (slice 16 18 body);
    let flags := at_ 18 body in
    _ ← zero (drop 19 body);
    _ ← reject ((epoch =? 0) || negb (Z.land flags (Z.lxor 3 u8_max) =? 0)) CValue;
    mret (PReady epoch caps (negb (Z.land flags 1 =? 0)) (negb (Z.land flags 2 =? 0)))
  else if (kind =? 130) || (kind =? 132) || (kind =? 134) then
    _ ← zero (drop 1 body);
    e ← platform_error (at_ 0 body);
    mret (if kind =? 130 then PRefused e else if kind =? 132 then PPrepareFailed e else PNotSubmitted e)
  else if kind =? 139 then
    _ ← zero (drop 1 body);
    b ← flag (at_ 0 body);
    mret (PCleaned b)
  else if (kind =? 131) || (kind =? 133) || ((135 <=? kind) && (kind <=? 138)) || (kind =? 140) then
    _ ← zero body;
    mret (if kind =? 131 then PPrepared else if kind =? 133 then PSubmitted
          else if kind =? 135 then PUnknown else if kind =? 136 then PExpired
          else if kind =? 137 then PFenced else if kind =? 138 then PCancelled else PStopped)
  else Err CKind.

Definition decode_reply (b : bytes) : Result CodecError (Z * Reply) :=
  u ← unframe b;
  let '(sequence, kind, body) := u in
  r ← reply_of kind body;
  mret (sequence, r).

(** ** Signals *)

Definition signal_code (s : Signal) : Z :=
  match s with SFence => 1 | SLocalRevoke => 2 | SIndicatorFailed => 3 end.

Definition encode_signal (s : Signal) : bytes :=
  <[5%nat := signal_code s]> (<[4%nat := VERSION]> (put 0 SIGNAL_MAGIC (zeros SIGNAL_BYTES))).

Definition decode_signal (b : bytes) : Result CodecError Signal :=
  _ ← reject (negb (length b =? SIGNAL_BYTES)%nat) CLength;
  _ ← reject (negb (bool_decide (slice 0 4 b = SIGNAL_MAGIC))) CMagic;
  _ ← reject (negb (at_ 4 b =? VERSION)) CVersion;
  _ ← zero (drop 6 b);
  let kind := at_ 5 b in
  if kind =? 1 then Ok SFence
  else if kind =? 2 then Ok SLocalRevoke
  else if kind =? 3 then Ok SIndicatorFailed
  else Err CKind.
