(* ===== verification/ProcessProps.v ===== *)
(** * The executor codec: exactness

    Every well-formed request and reply survives the frame, and a frame decodes
    in at most one way: whatever the decoder accepts is exactly what the encoder
    writes for the value it returns, and that value is well-formed.  The deadline
    handed to the executor never lies after the owner's. *)

From S2P Require Import Prelude CoreTime InputModel Submission Bytes ProcessCodec.

#[global] Arguments of_be : simpl never.
#[global] Arguments be : simpl never.
#[global] Arguments of_be_i32 : simpl never.
#[global] Arguments be_i32 : simpl never.

(** ** Well-formed values, as the Rust types keep them *)

Definition is_i32 (z : Z) : Prop := i32_min <= z <= i32_max.

Definition valid_operation (op : Operation) : Prop :=
  match op with
  | OpKey k _ => physical_key k = Some k
  | OpAbsolute p => is_i32 (px p) /\ is_i32 (py p)
  | OpRelative x y | OpScroll x y _ => is_i32 x /\ is_i32 y
  | OpText c => 0 <= c /\ char_from_u32 c = Some c
  | OpButton _ _ | OpWheel _ _ => True
  end.

Definition valid_bounds (b : Bounds.InputBounds) : Prop :=
  is_i32 (px (Bounds.origin b)) /\ is_i32 (py (Bounds.origin b)) /\
  fits u32_max (Bounds.width b) /\ fits u32_max (Bounds.height b) /\
  Bounds.new (Bounds.origin b) (Bounds.width b) (Bounds.height b) = Some b.

Definition valid_request (r : Request) : Prop :=
  match r with
  | QHello epoch b required => fits u128_max epoch /\ valid_bounds b /\ fits CAPABILITY_BITS required
  | QSubmit op n => valid_operation op /\ fits u64_max n
  | QPrepare op | QRelease op => valid_operation op
  | QCancel | QCleanup | QStop => True
  | QProbe epoch => fits u128_max epoch
  end.

(** What the encoder refuses: zero identities and deadlines, and anything but a
    release where only a release is allowed. *)
Definition sendable (r : Request) : bool :=
  match r with
  | QHello epoch _ _ | QProbe epoch => negb (epoch =? 0)
  | QSubmit _ n => negb (n =? 0)
  | QRelease op => is_release op
  | _ => true
  end.

Definition valid_reply (r : Reply) : Prop :=
  match r with
  | PReady epoch caps _ _ => fits u128_max epoch /\ epoch <> 0 /\ fits CAPABILITY_BITS caps
  | _ => True
  end.

(** ** Exploding fixed buffers *)

(** [l] has a known length: name its elements. *)
Ltac explode l H :=
  repeat (let x := fresh "b" in
          destruct l as [|x l]; [discriminate H|];
          cbn [length] in H; apply Nat.succ_inj in H);
  destruct l; [clear H | discriminate H].

(** The bytes of [be n x], with the value they carry. *)
Lemma be_spec n x : 0 <= x < 256 ^ Z.of_nat n -> exists l, be n x = l /\ length l = n /\ of_be l = x.
Proof. intros Hx. exists (be n x). by rewrite be_length, of_be_be_id. Qed.

Lemma be_i32_spec x : is_i32 x -> exists l, be_i32 x = l /\ length l = 4%nat /\ of_be_i32 l = x.
Proof.
  intros Hx. exists (be_i32 x). split; [done|]. split; [apply be_length|].
  by apply of_be_i32_be_i32.
Qed.

Ltac spell_be n x Hx :=
  let l := fresh "l" in let E := fresh "E" in let L := fresh "L" in let V := fresh "V" in
  destruct (be_spec n x Hx) as (l & E & L & V); rewrite E; explode l L.
Ltac spell_i32 x Hx :=
  let l := fresh "l" in let E := fresh "E" in let L := fresh "L" in let V := fresh "V" in
  destruct (be_i32_spec x Hx) as (l & E & L & V); rewrite E; explode l L.

(** ** Operations *)

Lemma physical_key_u16 k : physical_key k = Some k -> 0 <= k < 256 ^ Z.of_nat 2.
Proof. unfold physical_key. case_match; [|done]. intros _. lia. Qed.

Lemma scalar_u32 c : 0 <= c -> char_from_u32 c = Some c -> 0 <= c < 256 ^ Z.of_nat 4.
Proof. unfold char_from_u32. intros ?. case_match; [done|]. intros _. lia. Qed.

Lemma operation_roundtrip op :
  valid_operation op ->
  operation (slice 0 16 (put_operation (zeros BODY_BYTES) op)) = Ok op /\
  drop 16 (put_operation (zeros BODY_BYTES) op) = zeros 32 /\
  length (put_operation (zeros BODY_BYTES) op) = BODY_BYTES.
Proof.
  intros Hv. destruct op as [k t|[x y]|b p|x y|x y u|d p|c]; cbn in Hv; unfold put_operation.
  - pose proof (physical_key_u16 k Hv) as Hk. spell_be 2%nat k Hk.
    split; [|split; reflexivity]. cbn. unfold operation, decode_used. cbn. rewrite V, Hv. cbn.
    by destruct t.
  - destruct Hv as [Hx Hy]. unfold put_point. cbn [px py] in *. spell_i32 x Hx. spell_i32 y Hy.
    split; [|split; reflexivity]. unfold operation, decode_used. cbn. by rewrite V, V0.
  - split; [|split; reflexivity]. by destruct b, p.
  - destruct Hv as [Hx Hy]. unfold put_point. spell_i32 x Hx. spell_i32 y Hy.
    split; [|split; reflexivity]. unfold operation, decode_used. cbn. by rewrite V, V0.
  - destruct Hv as [Hx Hy]. unfold put_point. spell_i32 x Hx. spell_i32 y Hy.
    split; [|split; reflexivity]. unfold operation, decode_used. destruct u; cbn; by rewrite V, V0.
  - split; [|split; reflexivity]. by destruct d, p.
  - destruct Hv as [Hc Hs]. pose proof (scalar_u32 c Hc Hs) as Hr. spell_be 4%nat c Hr.
    split; [|split; reflexivity]. unfold operation, decode_used. cbn. by rewrite V, Hs.
Qed.

(** ** Decoding is exact *)

Lemma result_bind_Ok {E A B : Type} (m : Result E A) (k : A -> Result E B) b :
  m ≫= k = Ok b <-> exists a, m = Ok a /\ k a = Ok b.
Proof.
  destruct m as [a|e]; cbn; split; intros Hx.
  - by exists a.
  - by destruct Hx as (a' & [= <-] & ?).
  - done.
  - by destruct Hx as (a' & ? & _).
Qed.

Lemma reject_Ok c e u : reject c e = Ok u <-> c = false.
Proof. unfold reject. destruct u, c; by split. Qed.

Lemma zero_Ok l u : zero l = Ok u <-> l = zeros (length l).
Proof. unfold zero. destruct u. rewrite <- all_zero_spec. by destruct (all_zero l). Qed.

Lemma ok_or_Ok {E A} (o : option A) (e : E) a : ok_or o e = Ok a <-> o = Some a.
Proof. destruct o; cbn; split; congruence. Qed.

Lemma be_of_be_n n l : length l = n -> Forall is_byte l -> be n (of_be l) = l.
Proof. intros <-. apply be_of_be. Qed.

(** Take a successful decoding apart. *)
Ltac dissect :=
  repeat match goal with
  | H : _ ≫= _ = Ok _ |- _ =>
      let a := fresh "a" in let E := fresh "D" in apply result_bind_Ok in H as (a & E & H)
  | H : reject _ _ = Ok _ |- _ => apply reject_Ok in H
  | H : zero _ = Ok _ |- _ => apply zero_Ok in H
  | H : ok_or _ _ = Ok _ |- _ => apply ok_or_Ok in H
  | H : mret _ = Ok _ |- _ => injection H as H
  | H : Ok _ = Ok _ |- _ => injection H as H
  | H : Err _ = Ok _ |- _ => discriminate H
  | H : negb _ = false |- _ => apply negb_false_iff in H
  | H : bool_decide _ = true |- _ => apply bool_decide_eq_true in H
  | H : (_ =? _) = true |- _ => apply Z.eqb_eq in H
  | H : (_ =? _)%nat = true |- _ => apply Nat.eqb_eq in H
  | H : (if ?c then _ else _) = Ok _ |- _ => destruct c eqn:?
  | x : unit |- _ => destruct x
  end.

Lemma flag_Ok b p : flag b = Ok p -> b = bool_code p.
Proof. unfold flag. intros ?. by dissect; subst. Qed.
Lemma decode_transition_Ok b t : decode_transition b = Ok t -> b = transition_code t.
Proof. unfold decode_transition. intros ?. by dissect; subst. Qed.
Lemma decode_button_Ok b t : decode_button b = Ok t -> b = button_code t.
Proof. unfold decode_button. intros ?. by dissect; subst. Qed.
Lemma decode_unit_Ok b t : decode_unit b = Ok t -> b = unit_code t.
Proof. unfold decode_unit. intros ?. by dissect; subst. Qed.
Lemma decode_direction_Ok b t : decode_direction b = Ok t -> b = direction_code t.
Proof. unfold decode_direction. intros ?. by dissect; subst. Qed.
Lemma platform_error_Ok b e : platform_error b = Ok e -> b = platform_code e.
Proof. unfold platform_error. intros ?. by dissect; subst. Qed.
Lemma char_from_u32_Ok c c' : char_from_u32 c = Some c' -> c' = c.
Proof. unfold char_from_u32. case_match; congruence. Qed.
Lemma physical_key_Ok k k' : physical_key k = Some k' -> k' = k.
Proof. unfold physical_key. case_match; congruence. Qed.

(** The mask of the undefined capability bits tests the high byte. *)
Lemma high_byte_clear v :
  0 <= v < 65536 -> Z.land v (Z.lxor CAPABILITY_BITS u16_max) = 0 <-> v <= CAPABILITY_BITS.
Proof.
  intros Hv. change (Z.lxor CAPABILITY_BITS u16_max) with (Z.shiftl (Z.ones 8) 8).
  assert (Hs : Z.land v (Z.shiftl (Z.ones 8) 8) = Z.shiftl (v / 256) 8).
  { apply Z.bits_inj'. intros n Hn. rewrite Z.land_spec, !Z.shiftl_spec by done.
    destruct (Z.ltb_spec n 8).
    - rewrite !(Z.testbit_neg_r _ (n - 8)) by lia. by rewrite andb_false_r.
    - change 256 with (2 ^ 8). rewrite Z.div_pow2_bits by lia. rewrite Z.sub_add.
      destruct (Z.ltb_spec n 16).
      + rewrite Z.ones_spec_low by lia. apply andb_true_r.
      + rewrite Z.ones_spec_high, andb_false_r by lia. symmetry.
        apply Z.bits_above_log2; [lia|]. destruct (Z.eq_dec v 0) as [->|]; [cbn; lia|].
        apply Z.log2_lt_pow2; [lia|]. apply Z.lt_le_trans with (2 ^ 16); [lia|].
        apply Z.pow_le_mono_r; lia. }
  rewrite Hs, Z.shiftl_eq_0_iff by lia. unfold CAPABILITY_BITS. split; intros Hq.
  - apply Z.div_small_iff in Hq; lia.
  - apply Z.div_small. lia.
Qed.

Lemma decode_capabilities_Ok l c :
  length l = 2%nat -> Forall is_byte l -> decode_capabilities l = Ok c ->
  fits CAPABILITY_BITS c /\ c = of_be l.
Proof.
  intros Hl Hb. unfold decode_capabilities. intros Hc. dissect. subst c.
  pose proof (of_be_bound l Hb) as Hr. rewrite Hl in Hr. cbn in Hr.
  split; [|done]. apply high_byte_clear in D; [|lia]. split; lia.
Qed.

Lemma decode_capabilities_be c l :
  fits CAPABILITY_BITS c -> of_be l = c -> decode_capabilities l = Ok c.
Proof.
  intros [? ?] Hl. unfold decode_capabilities, reject. rewrite Hl.
  assert (Hr : 0 <= c < 65536) by (unfold CAPABILITY_BITS in *; lia).
  by rewrite (proj2 (high_byte_clear c Hr)).
Qed.

Ltac bytes_ok := repeat (apply Forall_cons_2; [assumption|]); apply Forall_nil_2.

(** Replace re-encoded bytes by the bytes they came from. *)
Ltac reencode :=
  repeat first
    [ rewrite be_i32_of_be_i32 by (reflexivity || bytes_ok)
    | rewrite be_of_be_n by (reflexivity || bytes_ok) ].

(** The decoded tail is zero: substitute it. *)
Ltac clear_tail :=
  repeat match goal with
  | H : ?l = zeros _ |- _ => cbn in H; injection H as; subst
  | H : _ :: _ = [_] |- _ => injection H as; subst
  | H : _ :: _ = _ :: _ |- _ => injection H as; subst
  end.

Ltac decoded :=
  repeat match goal with
  | H : flag _ = Ok _ |- _ => apply flag_Ok in H as ->
  | H : decode_transition _ = Ok _ |- _ => apply decode_transition_Ok in H as ->
  | H : decode_button _ = Ok _ |- _ => apply decode_button_Ok in H as ->
  | H : decode_unit _ = Ok _ |- _ => apply decode_unit_Ok in H as ->
  | H : decode_direction _ = Ok _ |- _ => apply decode_direction_Ok in H as ->
  | H : platform_error _ = Ok _ |- _ => apply platform_error_Ok in H as ->
  | H : physical_key _ = Some ?a |- _ =>
      is_var a; pose proof (physical_key_Ok _ _ H); subst a
  | H : char_from_u32 _ = Some ?a |- _ =>
      is_var a; pose proof (char_from_u32_Ok _ _ H); subst a
  end.

Lemma operation_exact b op :
  length b = 16%nat -> Forall is_byte b -> operation b = Ok op ->
  valid_operation op /\ slice 0 16 (put_operation (zeros BODY_BYTES) op) = b.
Proof.
  intros Hl Hb Ho. explode b Hl. unfold operation in Ho. dissect.
  destruct a as [op' used]. cbn in Ho. dissect. subst op'. unfold decode_used in D. cbn in D.
  repeat rewrite Forall_cons in Hb. destruct Hb as (? & ? & ? & ? & ? & ? & ? & ? & ? & ? & Hb).
  clear Hb. dissect; subst; decoded; cbn in *.
  all: reencode; clear_tail; split; [|reflexivity].
  - done.
  - split; (apply of_be_i32_range; [bytes_ok|reflexivity]).
  - done.
  - split; (apply of_be_i32_range; [bytes_ok|reflexivity]).
  - split; (apply of_be_i32_range; [bytes_ok|reflexivity]).
  - done.
  - split; [|done]. apply of_be_bound. bytes_ok.
Qed.

(** ** Frames *)

Lemma u64_be s : fits u64_max s -> 0 <= s < 256 ^ Z.of_nat 8.
Proof. intros [? ?]. unfold u64_max in *. lia. Qed.
Lemma u128_be s : fits u128_max s -> 0 <= s < 256 ^ Z.of_nat 16.
Proof. intros [? ?]. unfold u128_max in *. lia. Qed.
Lemma u32_be s : fits u32_max s -> 0 <= s < 256 ^ Z.of_nat 4.
Proof. intros [? ?]. unfold u32_max in *. lia. Qed.
Lemma caps_be c : fits CAPABILITY_BITS c -> 0 <= c < 256 ^ Z.of_nat 2.
Proof. intros [? ?]. unfold CAPABILITY_BITS in *. lia. Qed.

(** The frame spelled out. *)
Lemma executor_frame_bytes s k body :
  fits u64_max s -> s <> 0 -> length body = BODY_BYTES ->
  frame s k body = Ok (MAGIC ++ [VERSION; k; 0; 0] ++ be 8 s ++ body).
Proof.
  intros Hs Hz Hl. unfold frame, reject. apply Z.eqb_neq in Hz. rewrite Hz. cbn [mbind Result_bind].
  spell_be 8%nat s (u64_be s Hs). unfold put at 1. rewrite Hl. cbn. by rewrite app_nil_r.
Qed.

Lemma frame_roundtrip s k body :
  fits u64_max s -> s <> 0 -> length body = BODY_BYTES ->
  exists b, frame s k body = Ok b /\ length b = FRAME_BYTES /\ unframe b = Ok (s, k, body).
Proof.
  intros Hs Hz Hl. rewrite executor_frame_bytes by done. eexists. split; [reflexivity|].
  apply Z.eqb_neq in Hz. spell_be 8%nat s (u64_be s Hs). split; [cbn; by rewrite Hl|].
  unfold unframe, reject. cbn. rewrite Hl. cbn. by rewrite take_0, drop_0, V, Hz.
Qed.

Lemma unframe_exact b s k body :
  Forall is_byte b -> unframe b = Ok (s, k, body) ->
  fits u64_max s /\ s <> 0 /\ length body = BODY_BYTES /\ Forall is_byte body /\
  frame s k body = Ok b.
Proof.
  intros Hb Hu. unfold unframe in Hu. dissect. rename Hu into Hs, H into Hk, H0 into Hd.
  rewrite Z.eqb_neq, Hs in D3.
  assert (Hq : Forall is_byte (slice 8 16 b)) by by apply Forall_take, Forall_drop.
  assert (Hls : length (slice 8 16 b) = 8%nat).
  { unfold slice. by rewrite length_take, length_drop, D. }
  pose proof (of_be_bound _ Hq) as Hr. rewrite Hls, Hs in Hr.
  assert (Hf : fits u64_max s) by (unfold fits, u64_max; lia).
  assert (Hlb : length body = BODY_BYTES) by (by rewrite <- Hd, length_drop, D).
  split_and!; try done; [rewrite <- Hd; by apply Forall_drop|].
  rewrite executor_frame_bytes, <- Hs, be_of_be_n by done. f_equal. subst k body s.
  clear - D D0 D1 D2. explode b D. unfold MAGIC in D0. cbn in D0, D1, D2. simplify_eq. subst. reflexivity.
Qed.

(** ** Requests *)

Lemma bounds_new o w h b : Bounds.new o w h = Some b -> b = Bounds.mkBounds o w h.
Proof. unfold Bounds.new. case_match; [done|]. by intros [= <-]. Qed.

Lemma slice_0_16 l : slice 0 16 l ++ drop 16 l = l.
Proof. unfold slice. by rewrite drop_0, take_drop. Qed.

(** Writing fields one after the other. *)
Lemma put_next off a src n :
  length a = off -> put off src (a ++ zeros n) = (a ++ src) ++ zeros (n - length src).
Proof.
  intros <-. unfold put, zeros. rewrite take_app_length, <- drop_drop, drop_app_length.
  by rewrite drop_replicate, (assoc_L (++)).
Qed.

Lemma put_first src n : put 0 src (zeros n) = src ++ zeros (n - length src).
Proof. apply (put_next 0 []). done. Qed.

Lemma hello_body epoch b required :
  epoch <> 0 -> request_body (QHello epoch b required) =
  Ok (1, be 16 epoch ++ be_i32 (px (Bounds.origin b)) ++ be_i32 (py (Bounds.origin b)) ++
         be 4 (Bounds.width b) ++ be 4 (Bounds.height b) ++ be 2 required ++ zeros 14).
Proof.
  intros Hz. unfold request_body, reject. destruct (Z.eqb_spec epoch 0); [done|].
  cbn [mbind Result_bind mret Result_ret]. apply (f_equal (fun x => Ok (1, x))).
  unfold BODY_BYTES, be_i32.
  rewrite put_first, be_length.
  repeat (rewrite put_next by (by rewrite ?length_app, ?be_length); rewrite be_length).
  by rewrite <- !(assoc_L (++)).
Qed.

Lemma hello_roundtrip epoch b required :
  valid_request (QHello epoch b required) -> epoch <> 0 ->
  exists body, request_body (QHello epoch b required) = Ok (1, body) /\ length body = BODY_BYTES /\
    request_of 1 body = Ok (QHello epoch b required).
Proof.
  intros (He & (Hx & Hy & Hw & Hh & Hnew) & Hc) Hz. rewrite hello_body by done.
  destruct b as [[x y] w h]; cbn [px py Bounds.origin Bounds.width Bounds.height] in *.
  spell_be 16%nat epoch (u128_be epoch He). spell_i32 x Hx. spell_i32 y Hy.
  spell_be 4%nat w (u32_be w Hw). spell_be 4%nat h (u32_be h Hh).
  spell_be 2%nat required (caps_be required Hc). cbn [app].
  eexists. split; [reflexivity|]. split; [reflexivity|].
  unfold request_of, slice. cbn [Z.eqb Pos.eqb drop take Nat.sub].
  rewrite V, V0, V1, V2, V3, Hnew. cbn [ok_or mbind Result_bind].
  rewrite (decode_capabilities_be required) by done. cbn. by destruct (Z.eqb_spec epoch 0).
Qed.

(** What round-trips through a body. *)
Definition body_roundtrip (r : Request) : Prop :=
  exists k body, request_body r = Ok (k, body) /\ length body = BODY_BYTES /\ request_of k body = Ok r.

Lemma prepare_roundtrip op : valid_operation op -> body_roundtrip (QPrepare op).
Proof.
  intros Hv. destruct (operation_roundtrip op Hv) as (Ho & Hd & Hl).
  exists 2, (put_operation (zeros BODY_BYTES) op). split; [done|]. split; [done|].
  revert Ho Hd. generalize (put_operation (zeros BODY_BYTES) op). intros l Ho Hd.
  unfold request_of. cbn [Z.eqb Pos.eqb]. by rewrite Hd, Ho.
Qed.

Lemma release_roundtrip op :
  valid_operation op -> is_release op = true -> body_roundtrip (QRelease op).
Proof.
  intros Hv Hs. destruct (operation_roundtrip op Hv) as (Ho & Hd & Hl).
  exists 4, (put_operation (zeros BODY_BYTES) op).
  split; [unfold request_body, reject; by rewrite Hs|]. split; [done|].
  revert Ho Hd. generalize (put_operation (zeros BODY_BYTES) op). intros l Ho Hd.
  unfold request_of. cbn [Z.eqb Pos.eqb]. rewrite Hd, Ho. cbn. unfold reject. by rewrite Hs.
Qed.

Lemma submit_roundtrip op n :
  valid_operation op -> fits u64_max n -> n <> 0 -> body_roundtrip (QSubmit op n).
Proof.
  intros Hv Hn Hz. destruct (operation_roundtrip op Hv) as (Ho & Hd & Hl).
  apply Z.eqb_neq in Hz. unfold body_roundtrip, request_body, reject. rewrite Hz.
  cbn [mbind Result_bind]. revert Ho Hd Hl. generalize (put_operation (zeros BODY_BYTES) op).
  intros body Ho Hd Hl. rewrite <- (slice_0_16 body), Hd.
  assert (Hl16 : length (slice 0 16 body) = 16%nat).
  { unfold slice. by rewrite length_take, length_drop, Hl. }
  rewrite put_next by done. rewrite be_length. revert Ho Hl16. generalize (slice 0 16 body).
  intros l Ho Hl16. eexists _, _. split; [reflexivity|].
  split; [by rewrite !length_app, Hl16, be_length|].
  spell_be 8%nat n (u64_be n Hn). explode l Hl16. cbn [app].
  unfold request_of, slice. cbn [Z.eqb Pos.eqb drop take Nat.sub].
  rewrite Ho. cbn [mbind Result_bind]. rewrite !take_0, V. unfold reject. by rewrite Hz.
Qed.

Lemma probe_roundtrip epoch : fits u128_max epoch -> epoch <> 0 -> body_roundtrip (QProbe epoch).
Proof.
  intros Hv Hz. apply Z.eqb_neq in Hz. unfold body_roundtrip, request_body, reject. rewrite Hz.
  cbn [mbind Result_bind]. rewrite put_first, be_length. eexists _, _. split; [reflexivity|].
  split; [by rewrite length_app, be_length|].
  spell_be 16%nat epoch (u128_be epoch Hv). cbn [app].
  unfold request_of, slice. cbn [Z.eqb Pos.eqb drop take Nat.sub]. rewrite !take_0, V.
  unfold reject. by rewrite Hz.
Qed.

Lemma request_body_roundtrip r : valid_request r -> sendable r = true -> body_roundtrip r.
Proof.
  intros Hv Hs. destruct r as [epoch b required|op|op n|op| | | |epoch]; cbn in Hs;
    rewrite ?negb_true_iff, ?Z.eqb_neq in Hs.
  - destruct (hello_roundtrip _ _ _ Hv Hs) as (body & ?). by exists 1, body.
  - by apply prepare_roundtrip.
  - by apply submit_roundtrip; [apply Hv..|].
  - by apply release_roundtrip.
  - by exists 5, (zeros BODY_BYTES).
  - by exists 6, (zeros BODY_BYTES).
  - by exists 7, (zeros BODY_BYTES).
  - by apply probe_roundtrip.
Qed.

(** What decodes was encoded. *)
Definition body_exact (k : Z) (body : bytes) (r : Request) : Prop :=
  valid_request r /\ sendable r = true /\ request_body r = Ok (k, body).

Lemma bytes_slice a b l : Forall is_byte l -> Forall is_byte (slice a b l).
Proof. intros Hl. by apply Forall_take, Forall_drop. Qed.

Lemma slice_length a b l : (a <= b <= length l)%nat -> length (slice a b l) = (b - a)%nat.
Proof. intros Hl. unfold slice. rewrite length_take, length_drop. lia. Qed.

Lemma u_range n l : Forall is_byte l -> length l = n -> 0 <= of_be l < 256 ^ Z.of_nat n.
Proof. intros Hl <-. by apply of_be_bound. Qed.

Lemma hello_exact body r :
  length body = BODY_BYTES -> Forall is_byte body -> request_of 1 body = Ok r -> body_exact 1 body r.
Proof.
  intros Hl Hb Hr. unfold request_of in Hr. cbn [Z.eqb Pos.eqb] in Hr. dissect. subst r.
  assert (Hlen : forall a b, (a <= b <= 48)%nat -> length (slice a b body) = (b - a)%nat).
  { intros a1 b1 ?. apply slice_length. rewrite Hl. unfold BODY_BYTES. lia. }
  pose proof (bounds_new _ _ _ _ D) as ->.
  apply decode_capabilities_Ok in D0 as [Hc ->]; [|by apply Hlen; lia|by apply bytes_slice].
  rewrite Z.eqb_neq in D2.
  pose proof (fun n a b => u_range n (slice a b body) (bytes_slice a b body Hb)) as Hrange.
  unfold body_exact. cbn [valid_request sendable]. rewrite (proj2 (Z.eqb_neq _ _) D2).
  rewrite hello_body by done. unfold valid_bounds. cbn [Bounds.origin Bounds.width Bounds.height px py].
  split_and!; try done.
  - pose proof (Hrange 16 0 16)%nat as R. specialize (R ltac:(by apply Hlen; lia)).
    unfold fits, u128_max. lia.
  - apply of_be_i32_range; [by apply bytes_slice|by apply Hlen; lia].
  - apply of_be_i32_range; [by apply bytes_slice|by apply Hlen; lia].
  - pose proof (Hrange 4 24 28)%nat as R. specialize (R ltac:(by apply Hlen; lia)).
    unfold fits, u32_max. lia.
  - pose proof (Hrange 4 28 32)%nat as R. specialize (R ltac:(by apply Hlen; lia)).
    unfold fits, u32_max. lia.
  - rewrite !be_i32_of_be_i32 by first [by apply bytes_slice|by apply Hlen; lia].
    rewrite !be_of_be_n by first [by apply bytes_slice|by apply Hlen; lia].
    do 2 f_equal. rewrite length_drop, Hl in D1. change (BODY_BYTES - 34)%nat with 14%nat in D1.
    rewrite <- D1. clear - Hl. unfold BODY_BYTES in Hl. explode body Hl. reflexivity.
Qed.

Lemma op_body_exact op body :
  length body = BODY_BYTES -> Forall is_byte body -> operation (slice 0 16 body) = Ok op ->
  valid_operation op /\ slice 0 16 (put_operation (zeros BODY_BYTES) op) = slice 0 16 body /\
  put_operation (zeros BODY_BYTES) op = slice 0 16 body ++ zeros 32.
Proof.
  intros Hl Hb Ho. apply operation_exact in Ho as [Hv Hs].
  - split; [done|]. split; [done|]. destruct (operation_roundtrip op Hv) as (_ & Hd & _).
    rewrite <- (slice_0_16 (put_operation _ _)), Hd. by rewrite Hs.
  - apply slice_length. rewrite Hl. unfold BODY_BYTES. lia.
  - by apply bytes_slice.
Qed.

Lemma submit_exact body r :
  length body = BODY_BYTES -> Forall is_byte body -> request_of 3 body = Ok r -> body_exact 3 body r.
Proof.
  intros Hl Hb Hr. unfold request_of in Hr. cbn [Z.eqb Pos.eqb] in Hr. dissect. subst r.
  destruct (op_body_exact a body Hl Hb D) as (Hv & _ & Hp). rewrite Z.eqb_neq in D1.
  assert (H8 : length (slice 16 24 body) = 8%nat).
  { rewrite slice_length; rewrite ?Hl; unfold BODY_BYTES; lia. }
  pose proof (u_range 8 _ (bytes_slice 16 24 body Hb) H8) as R.
  unfold body_exact. cbn [valid_request sendable]. rewrite (proj2 (Z.eqb_neq _ _) D1).
  split; [split; [done|]; unfold fits, u64_max; lia|]. split; [done|].
  unfold request_body, reject. rewrite (proj2 (Z.eqb_neq _ _) D1). cbn [mbind Result_bind].
  rewrite Hp, be_of_be_n; [|done|by apply bytes_slice].
  rewrite put_next by (apply slice_length; rewrite Hl; unfold BODY_BYTES; lia). rewrite H8.
  rewrite length_drop, Hl in D0. change (BODY_BYTES - 24)%nat with 24%nat in D0.
  change (32 - 8)%nat with 24%nat. rewrite <- D0. clear - Hl. do 2 f_equal.
  unfold BODY_BYTES in Hl. explode body Hl. reflexivity.
Qed.

Lemma request_body_exact k body r :
  length body = BODY_BYTES -> Forall is_byte body -> request_of k body = Ok r -> body_exact k body r.
Proof.
  intros Hl Hb Hr. destruct (Z.eqb_spec k 1) as [->|N1]; [by apply hello_exact|].
  destruct (Z.eqb_spec k 3) as [->|N3]; [by apply submit_exact|].
  unfold request_of in Hr. apply Z.eqb_neq in N1, N3. rewrite N1, N3 in Hr.
  assert (H16 : drop 16 body = zeros (length (drop 16 body)) -> slice 0 16 body ++ zeros 32 = body).
  { rewrite length_drop, Hl. change (BODY_BYTES - 16)%nat with 32%nat. intros <-. apply slice_0_16. }
  dissect; subst.
  - match goal with D : operation _ = Ok ?op |- _ =>
      destruct (op_body_exact op body Hl Hb D) as (Hv & _ & Hp) end. split_and!; [done..|].
    unfold request_body. cbn [mret Result_ret]. by rewrite Hp, H16.
  - match goal with D : operation _ = Ok ?op, D' : is_release ?op = true |- _ =>
      destruct (op_body_exact op body Hl Hb D) as (Hv & _ & Hp); rename D' into Hrel end.
    split_and!; [done..|]. unfold request_body, reject. rewrite Hrel.
    cbn [mbind Result_bind mret Result_ret negb]. by rewrite Hp, H16.
  - rewrite Hl in D. assert (k = 5 \/ k = 6 \/ k = 7) as [-> | [-> | ->]] by lia;
      unfold body_exact; cbn [Z.eqb Pos.eqb]; by rewrite D.
  - rewrite Z.eqb_neq in D0.
    assert (Hs : length (slice 0 16 body) = 16%nat) by (apply slice_length; rewrite Hl; unfold BODY_BYTES; lia).
    pose proof (u_range 16 _ (bytes_slice 0 16 body Hb) Hs) as R.
    unfold body_exact. cbn [valid_request sendable request_body]. unfold reject.
    rewrite (proj2 (Z.eqb_neq _ _) D0). split_and!; [unfold fits, u128_max; lia|done|].
    cbn [mbind Result_bind]. rewrite put_first, be_length, be_of_be_n; [|done|by apply bytes_slice].
    change (BODY_BYTES - 16)%nat with 32%nat. by rewrite H16.
Qed.

Lemma request_body_refused r : sendable r = false -> is_ok (request_body r) = false.
Proof.
  destruct r as [epoch b required|op|op n|op| | | |epoch]; cbn; try done;
    rewrite ?negb_false_iff; unfold reject; by intros ->.
Qed.

(** Requests survive the frame: a well-formed request under a nonzero
    sequence is encoded into exactly 64 bytes that decode to that sequence and
    request; the encoder refuses exactly the zero sequence, zero identities and
    deadlines, and a [Release] that does not release. *)
Theorem request_roundtrip (s : Z) (r : Request) :
  valid_request r -> fits u64_max s ->
  if sendable r && negb (s =? 0)
  then exists b, encode_request s r = Ok b /\ length b = FRAME_BYTES /\ decode_request b = Ok (s, r)
  else is_ok (encode_request s r) = false.
Proof.
  intros Hv Hs. unfold encode_request, decode_request. destruct (sendable r) eqn:Hsend; cbn [andb].
  - destruct (request_body_roundtrip r Hv Hsend) as (k & body & Hb & Hl & Hr). rewrite Hb.
    cbn [mbind Result_bind fst snd]. destruct (Z.eqb_spec s 0) as [->|Hz]; [done|]. cbn [negb].
    destruct (frame_roundtrip s k body Hs Hz Hl) as (b & Hf & Hlb & Hu).
    exists b. split_and!; [done..|]. rewrite Hu. cbn [mbind Result_bind]. by rewrite Hr.
  - pose proof (request_body_refused r Hsend) as Hb. by destruct (request_body r).
Qed.

(** A frame has one meaning: whatever bytes the executor's decoder accepts
    are exactly what the encoder writes for the request it returns - no reserved
    bit, padding byte or alternative spelling is ignored - and that request is
    well-formed: keys are physical, text is a Unicode scalar, bounds fit the
    desktop, capabilities are known and [Release] only releases. *)
Theorem request_decoding_is_exact (b : bytes) (s : Z) (r : Request) :
  Forall is_byte b -> decode_request b = Ok (s, r) ->
  valid_request r /\ sendable r = true /\ 0 < s <= u64_max /\ encode_request s r = Ok b.
Proof.
  intros Hb Hd. unfold decode_request in Hd. dissect. destruct a as [[s' k] body].
  apply unframe_exact in D as (Hs & Hz & Hl & Hbb & Hf); [|done].
  cbn in Hd. dissect. subst.
  match goal with D : request_of k body = Ok _ |- _ =>
    apply request_body_exact in D as (Hv & Hsend & Hbody) end; [|done..].
  destruct Hs. split_and!; try done; [lia|]. unfold encode_request. by rewrite Hbody.
Qed.

(** ** Replies *)

Lemma ready_flags p l :
  Z.land (Z.lor (bool_code p) (Z.shiftl (bool_code l) 1)) (Z.lxor 3 u8_max) = 0 /\
  negb (Z.land (Z.lor (bool_code p) (Z.shiftl (bool_code l) 1)) 1 =? 0) = p /\
  negb (Z.land (Z.lor (bool_code p) (Z.shiftl (bool_code l) 1)) 2 =? 0) = l.
Proof. by destruct p, l. Qed.

Lemma ready_body epoch caps p l :
  epoch <> 0 -> reply_body (PReady epoch caps p l) =
  Ok (129, be 16 epoch ++ be 2 caps ++ [Z.lor (bool_code p) (Z.shiftl (bool_code l) 1)] ++ zeros 29).
Proof.
  intros Hz. unfold reply_body, reject. destruct (Z.eqb_spec epoch 0); [done|].
  cbn [mbind Result_bind mret Result_ret]. apply (f_equal (fun x => Ok (129, x))).
  rewrite put_first, be_length, put_next by apply be_length. rewrite be_length.
  rewrite insert_app_r_alt by (rewrite length_app, !be_length; lia).
  rewrite length_app, !be_length. by rewrite <- (assoc_L (++)).
Qed.

Lemma ready_roundtrip epoch caps p l :
  valid_reply (PReady epoch caps p l) ->
  exists body, reply_body (PReady epoch caps p l) = Ok (129, body) /\ length body = BODY_BYTES /\
    reply_of 129 body = Ok (PReady epoch caps p l).
Proof.
  intros (He & Hz & Hc). rewrite ready_body by done. eexists. split; [reflexivity|].
  split; [by rewrite !length_app, !be_length|].
  spell_be 16%nat epoch (u128_be epoch He). spell_be 2%nat caps (caps_be caps Hc). cbn [app].
  unfold reply_of, slice, at_. cbn [Z.eqb Pos.eqb drop take Nat.sub lookup list_lookup default].
  rewrite V, (decode_capabilities_be caps) by done. cbn [mbind Result_bind].
  destruct (ready_flags p l) as (F0 & F1 & F2).
  unfold from_option, id. rewrite F0, F1, F2. by destruct (Z.eqb_spec epoch 0).
Qed.

Lemma reply_body_roundtrip r :
  valid_reply r ->
  exists k body, reply_body r = Ok (k, body) /\ length body = BODY_BYTES /\ reply_of k body = Ok r.
Proof.
  intros Hv. destruct r as [epoch caps p l|[]| |[]| |[]| | | | |[]|];
    try (eexists _, _; split; [reflexivity|]; split; reflexivity).
  destruct (ready_roundtrip _ _ _ _ Hv) as (body & ?). by exists 129, body.
Qed.

(** A decidable fact about bytes, checked on all of them. *)
Lemma byte_forall (p : Z -> bool) b : forallb p (seqZ 0 256) = true -> is_byte b -> p b = true.
Proof.
  intros Hall [? ?]. rewrite forallb_forall in Hall. apply Hall, list_elem_of_In, elem_of_seqZ.
  unfold u8_max in *. lia.
Qed.

Lemma flags_exact f :
  is_byte f -> Z.land f (Z.lxor 3 u8_max) = 0 ->
  Z.lor (bool_code (negb (Z.land f 1 =? 0))) (Z.shiftl (bool_code (negb (Z.land f 2 =? 0))) 1) = f.
Proof.
  intros Hb Hf. apply (byte_forall (fun f => negb (Z.land f (Z.lxor 3 u8_max) =? 0) ||
    (Z.lor (bool_code (negb (Z.land f 1 =? 0))) (Z.shiftl (bool_code (negb (Z.land f 2 =? 0))) 1) =? f)))
    in Hb; [|vm_compute; reflexivity].
  rewrite Hf in Hb. cbn [negb Z.eqb orb] in Hb. by apply Z.eqb_eq.
Qed.

Lemma reply_body_exact k body r :
  length body = BODY_BYTES -> Forall is_byte body -> reply_of k body = Ok r ->
  valid_reply r /\ reply_body r = Ok (k, body).
Proof.
  intros Hl Hb Hr. unfold BODY_BYTES in Hl. destruct (Z.eqb_spec k 129) as [->|N1].
  - unfold reply_of in Hr. cbn [Z.eqb Pos.eqb] in Hr. dissect. subst r.
    apply orb_false_iff in D1 as [Hz Hf]. rewrite Z.eqb_neq in Hz. dissect.
    assert (H16 : length (slice 0 16 body) = 16%nat) by (apply slice_length; lia).
    assert (H2 : length (slice 16 18 body) = 2%nat) by (apply slice_length; lia).
    apply decode_capabilities_Ok in D as [Hc ->]; [|done|by apply bytes_slice].
    pose proof (u_range 16 _ (bytes_slice 0 16 body Hb) H16) as R.
    split; [split; [unfold fits, u128_max; lia|by split]|].
    rewrite ready_body, !be_of_be_n by first [done|by apply bytes_slice].
    rewrite flags_exact; [|by apply (Forall_lookup_1 _ _ 18 _ Hb); clear - Hl; explode body Hl|done].
    rewrite length_drop, Hl in D0. change (48 - 19)%nat with 29%nat in D0. rewrite <- D0.
    clear - Hl. do 2 f_equal. explode body Hl. reflexivity.
  - unfold reply_of in Hr. apply Z.eqb_neq in N1. rewrite N1 in Hr. clear N1.
    assert (H1 : forall x, at_ 0 body = x -> drop 1 body = zeros (length (drop 1 body)) ->
      <[0%nat := x]> (zeros BODY_BYTES) = body).
    { rewrite length_drop, Hl. clear - Hl. intros x. explode body Hl. cbn. by intros -> ->. }
    dissect; subst r.
    + apply orb_true_iff in Heqb as [[Hk|Hk]%orb_true_iff|Hk]; apply Z.eqb_eq in Hk as ->;
        cbn [Z.eqb Pos.eqb reply_body mret Result_ret]; (split; [done|]);
        match goal with D : platform_error _ = Ok _ |- _ => apply platform_error_Ok in D end;
        by rewrite (H1 _ ltac:(eassumption)).
    + subst k. split; [done|]. cbn [reply_body mret Result_ret].
      match goal with D : flag _ = Ok _ |- _ => apply flag_Ok in D end.
      by rewrite (H1 _ ltac:(eassumption)).
    + rewrite Hl in *. assert (Hbody : zeros BODY_BYTES = body) by (symmetry; assumption).
      assert (k = 131 \/ k = 133 \/ k = 135 \/ k = 136 \/ k = 137 \/ k = 138 \/ k = 140)
        as [-> | [-> | [-> | [-> | [-> | [-> | ->]]]]]] by lia;
        cbn [Z.eqb Pos.eqb reply_body mret Result_ret]; by rewrite Hbody.
Qed.

(** The same for replies: every well-formed reply survives the frame, and
    every accepted reply frame is exactly the encoding of the reply it decodes to,
    so a lost, truncated or altered reply is never read as another. *)
Theorem reply_codec_is_exact :
  (forall s r, valid_reply r -> 0 < s <= u64_max ->
     exists b, encode_reply s r = Ok b /\ length b = FRAME_BYTES /\ decode_reply b = Ok (s, r)) /\
  (forall b s r, Forall is_byte b -> decode_reply b = Ok (s, r) ->
     valid_reply r /\ 0 < s <= u64_max /\ encode_reply s r = Ok b).
Proof.
  unfold encode_reply, decode_reply. split.
  - intros s r Hv Hs. destruct (reply_body_roundtrip r Hv) as (k & body & Hb & Hl & Hr). rewrite Hb.
    cbn [mbind Result_bind fst snd].
    destruct (frame_roundtrip s k body) as (b & Hf & Hlb & Hu); [split; lia|lia|done|].
    exists b. split_and!; [done..|]. rewrite Hu. cbn [mbind Result_bind]. by rewrite Hr.
  - intros b s r Hb Hd. dissect. destruct a as [[s' k] body].
    apply unframe_exact in D as (Hs & Hz & Hl & Hbb & Hf); [|done]. cbn in Hd. dissect. subst.
    match goal with D : reply_of k body = Ok _ |- _ => apply reply_body_exact in D as (Hv & Hbody) end;
      [|done..].
    destruct Hs. split_and!; try done; [lia|]. by rewrite Hbody.
Qed.

(** ** Signals *)

Lemma signal_codec_exact b s :
  Forall is_byte b -> decode_signal b = Ok s <-> b = encode_signal s.
Proof.
  intros Hb. split.
  - intros Hd. unfold decode_signal in Hd. dissect; subst s; clear Hb; unfold SIGNAL_BYTES in *;
      explode b D; unfold SIGNAL_MAGIC in *; cbn in *; simplify_eq; reflexivity.
  - intros ->. by destruct s.
Qed.

(** ** The executor's deadline *)

(** The executor cannot outlive the owner's deadline: the nanosecond bound
    is exact, and when the monotonic clock was sampled [gap] nanoseconds before
    the owner's, an executor that [e] microseconds later still reads a value
    strictly before the bound is strictly before the owner's deadline. *)
Theorem executor_deadline_is_early (mono : Z) (now until : HostInstant) (n gap e : Z) :
  not_after_ns mono now until = Some n -> 0 <= gap ->
  n = mono + 1000 * (until - now) /\ now < until /\ n <= u64_max /\
  (mono + gap + 1000 * e < n -> now + e < until).
Proof.
  unfold not_after_ns, HostTime.duration_since. intros Hn Hgap.
  destruct (checked_sub until now) as [d|] eqn:Hd; [|done]. apply checked_sub_Some in Hd as [-> Hle].
  destruct (Z.eqb_spec (until - now) 0); [done|].
  destruct (checked_mul _ _ _) as [m|] eqn:Hm; [|done]. apply checked_mul_Some in Hm as [-> _].
  apply checked_add_Some in Hn as [-> Hmax]. split_and!; lia.
Qed.

(** ** Witnesses *)

Definition demo_submit : Request := QSubmit (OpScroll (-65536) 131072 Lines) 7000.

Lemma request_roundtrip_witness :
  exists b, encode_request 5 demo_submit = Ok b /\ length b = FRAME_BYTES /\
    decode_request b = Ok (5, demo_submit).
Proof.
  apply (request_roundtrip 5 demo_submit).
  - repeat split; vm_compute; discriminate.
  - split; vm_compute; discriminate.
Defined.

Definition demo_frame : bytes := Eval vm_compute in
  match encode_request 5 demo_submit with Ok b => b | Err _ => [] end.

Lemma request_decoding_is_exact_witness :
  valid_request demo_submit /\ sendable demo_submit = true /\ 0 < 5 <= u64_max /\
  encode_request 5 demo_submit = Ok demo_frame.
Proof.
  apply (request_decoding_is_exact demo_frame 5 demo_submit).
  - repeat constructor; vm_compute; discriminate.
  - vm_compute. reflexivity.
Defined.

Lemma executor_deadline_is_early_witness :
  1001000 = 1000 + 1000 * (6000 - 5000) /\ 5000 < 6000 /\ 1001000 <= u64_max /\
  (1000 + 20 + 1000 * 999 < 1001000 -> 5000 + 999 < 6000).
Proof.
  apply (executor_deadline_is_early 1000 5000 6000 1001000 20 999); [reflexivity|lia].
Defined.
