(* ===== verification/WireRecord.v ===== *)
(** * The record layer of [fr-wire]

    [record.rs]: the error vocabulary, the selected media limits, the record kinds
    with their channels, the reader and the writer every message codec uses, the
    extension area and the decoder of one complete record.  A [Reader] method is a
    method on the bytes that remain; a [Writer] method is a method on the borrowed
    output and its position. *)

From S2P Require Import Prelude.
From S2P Require Import Bytes.
From S2P Require Import Limits.

Definition usize_max : Z := u64_max.
Definition HEADER_BYTES : nat := 24.
Definition MAX_FRAGMENTS : Z := 16384.
Definition MAX_REPAIR_RANGES : Z := 64.
Definition FRAGMENT_OVERHEAD : Z := 73.

Inductive WireError :=
| Truncated | TrailingBytes | BadMagic | UnsupportedVersion | UnsupportedKind | InvalidFlags
| InvalidBinding | WrongChannel | WrongRole | InvalidLimits | ResourceLimit | ArithmeticOverflow
| InvalidValue | InvalidFragment | InvalidDependency | InvalidExtension | RequiredExtension
| InvalidRanges | BufferTooSmall.
#[export] Instance WireError_eq_dec : EqDecision WireError.
Proof. solve_decision. Defined.

(** ** Selected limits *)

Record MediaLimits := mk_media_limits {
  protocol : Limits.ProtocolLimits;
  record_bytes : Z;
  fragments : Z;
  repair_ranges : Z }.

Definition new_limits (p : Limits.ProtocolLimits) (record_bytes fragments repair_ranges : Z)
  : Result WireError MediaLimits :=
  if (record_bytes <=? FRAGMENT_OVERHEAD)
     || (Limits.max_control_message_bytes p <? record_bytes)
     || (fragments =? 0) || (MAX_FRAGMENTS <? fragments)
     || (repair_ranges =? 0) || (MAX_REPAIR_RANGES <? repair_ranges)
  then Err InvalidLimits
  else Ok (mk_media_limits p record_bytes fragments repair_ranges).

Definition fragment_stride (l : MediaLimits) : Z := record_bytes l - FRAGMENT_OVERHEAD.

(** ** Kinds and channels *)

Inductive Kind :=
  | ClientHello | HostCapabilities | SelectedConfiguration | Refused | ApprovalRequired
  | SessionOpened | ControlRequest | LeaseGranted | LeaseRevoked | Challenge
  | ChallengeResponse | InputTicket | ChannelTicket | ChannelAttach | ChannelAttached
  | StreamBinding | BindingAccepted | CloseRequest | Closed | DisplayCatalog
  | SelectDisplay | DecoderConfiguration | DecoderConfigured | Recovery | FirstFrameDecoded
  | Fragment | Repair | RecoveryRequest | Progress | CursorShape
  | CursorPosition | Key | Button | Pointer | Relative
  | Scroll | Text | HeldState | InputMode | InputResult
  | ClipboardBegin | ClipboardChunk | ClipboardCommit | ClipboardCancel | ClipboardReady
  | AudioConfiguration | AudioConfigured | AudioPacket | AudioStop | FileOffer
  | FileAccept | FileChunk | FileComplete | FileCancel | PresentedState
  | StageMetrics | QualityDecision | ClockProbe | ClockReply.
#[export] Instance Kind_eq_dec : EqDecision Kind.
Proof. solve_decision. Defined.

Inductive Channel := Video | RecoveryChannel | Control | MediaConfig.
#[export] Instance Channel_eq_dec : EqDecision Channel.
Proof. solve_decision. Defined.

(** [kind as u16]. *)
Definition kind_code (k : Kind) : Z :=
  match k with
  | ClientHello => 0x0001 | HostCapabilities => 0x0002 | SelectedConfiguration => 0x0003
  | Refused => 0x0004 | ApprovalRequired => 0x0010 | SessionOpened => 0x0011
  | ControlRequest => 0x0012 | LeaseGranted => 0x0013 | LeaseRevoked => 0x0014
  | Challenge => 0x0015 | ChallengeResponse => 0x0016 | InputTicket => 0x0017
  | ChannelTicket => 0x0018 | ChannelAttach => 0x0019 | ChannelAttached => 0x001a
  | StreamBinding => 0x001b | BindingAccepted => 0x001c | CloseRequest => 0x001d
  | Closed => 0x001e | DisplayCatalog => 0x0020 | SelectDisplay => 0x0022
  | DecoderConfiguration => 0x0030 | DecoderConfigured => 0x0031 | Recovery => 0x0032
  | FirstFrameDecoded => 0x0033 | Fragment => 0x0034 | Repair => 0x0035
  | RecoveryRequest => 0x0036 | Progress => 0x0037 | CursorShape => 0x0038
  | CursorPosition => 0x0039 | Key => 0x0040 | Button => 0x0041
  | Pointer => 0x0042 | Relative => 0x0043 | Scroll => 0x0044
  | Text => 0x0045 | HeldState => 0x0046 | InputMode => 0x0047
  | InputResult => 0x0048 | ClipboardBegin => 0x0050 | ClipboardChunk => 0x0051
  | ClipboardCommit => 0x0052 | ClipboardCancel => 0x0053 | ClipboardReady => 0x0054
  | AudioConfiguration => 0x0060 | AudioConfigured => 0x0061 | AudioPacket => 0x0062
  | AudioStop => 0x0063 | FileOffer => 0x0070 | FileAccept => 0x0071
  | FileChunk => 0x0072 | FileComplete => 0x0073 | FileCancel => 0x0074
  | PresentedState => 0x0080 | StageMetrics => 0x0082 | QualityDecision => 0x0083
  | ClockProbe => 0x0084 | ClockReply => 0x0085
  end.

Definition parse (value : Z) : Result WireError Kind :=
  match value with
  | 0x0001 => Ok ClientHello | 0x0002 => Ok HostCapabilities | 0x0003 => Ok SelectedConfiguration
  | 0x0004 => Ok Refused | 0x0010 => Ok ApprovalRequired | 0x0011 => Ok SessionOpened
  | 0x0012 => Ok ControlRequest | 0x0013 => Ok LeaseGranted | 0x0014 => Ok LeaseRevoked
  | 0x0015 => Ok Challenge | 0x0016 => Ok ChallengeResponse | 0x0017 => Ok InputTicket
  | 0x0018 => Ok ChannelTicket | 0x0019 => Ok ChannelAttach | 0x001a => Ok ChannelAttached
  | 0x001b => Ok StreamBinding | 0x001c => Ok BindingAccepted | 0x001d => Ok CloseRequest
  | 0x001e => Ok Closed | 0x0020 => Ok DisplayCatalog | 0x0022 => Ok SelectDisplay
  | 0x0030 => Ok DecoderConfiguration | 0x0031 => Ok DecoderConfigured | 0x0032 => Ok Recovery
  | 0x0033 => Ok FirstFrameDecoded | 0x0034 => Ok Fragment | 0x0035 => Ok Repair
  | 0x0036 => Ok RecoveryRequest | 0x0037 => Ok Progress | 0x0038 => Ok CursorShape
  | 0x0039 => Ok CursorPosition | 0x0040 => Ok Key | 0x0041 => Ok Button
  | 0x0042 => Ok Pointer | 0x0043 => Ok Relative | 0x0044 => Ok Scroll
  | 0x0045 => Ok Text | 0x0046 => Ok HeldState | 0x0047 => Ok InputMode
  | 0x0048 => Ok InputResult | 0x0050 => Ok ClipboardBegin | 0x0051 => Ok ClipboardChunk
  | 0x0052 => Ok ClipboardCommit | 0x0053 => Ok ClipboardCancel | 0x0054 => Ok ClipboardReady
  | 0x0060 => Ok AudioConfiguration | 0x0061 => Ok AudioConfigured | 0x0062 => Ok AudioPacket
  | 0x0063 => Ok AudioStop | 0x0070 => Ok FileOffer | 0x0071 => Ok FileAccept
  | 0x0072 => Ok FileChunk | 0x0073 => Ok FileComplete | 0x0074 => Ok FileCancel
  | 0x0080 => Ok PresentedState | 0x0082 => Ok StageMetrics | 0x0083 => Ok QualityDecision
  | 0x0084 => Ok ClockProbe | 0x0085 => Ok ClockReply
  | _ => Err UnsupportedKind
  end.

Definition initial (k : Kind) : bool :=
  match k with
  | ClientHello | HostCapabilities | SelectedConfiguration | Refused | ApprovalRequired
  | SessionOpened => true
  | _ => false
  end.

Definition channel (k : Kind) : option Channel :=
  match k with
  | Recovery => Some RecoveryChannel
  | Fragment | CursorPosition => Some Video
  | Repair => Some Control
  | Progress | DecoderConfiguration | DecoderConfigured | FirstFrameDecoded | CursorShape =>
      Some MediaConfig
  | _ => None
  end.

(** ** The reader *)

Definition Reader : Type := list Z.

Definition rtake (len : Z) : M Reader WireError bytes :=
  fun r => if len <=? Z.of_nat (length r)
           then (Ok (take (Z.to_nat len) r), drop (Z.to_nat len) r)
           else (Err Truncated, r).
Definition ru8 : M Reader WireError Z := b ← rtake 1; mret (of_be b).
Definition ru16 : M Reader WireError Z := b ← rtake 2; mret (of_be b).
Definition ru32 : M Reader WireError Z := b ← rtake 4; mret (of_be b).
Definition ru64 : M Reader WireError Z := b ← rtake 8; mret (of_be b).
Definition roptional_u64 : M Reader WireError (option Z) :=
  tag ← ru8;
  match tag with
  | 0 => mret None
  | 1 => v ← ru64; mret (Some v)
  | _ => fail InvalidValue
  end.
Definition rdata : M Reader WireError bytes := len ← ru32; rtake len.
Definition rfinish : M Reader WireError unit :=
  fun r => match r with [] => (Ok tt, r) | _ => (Err TrailingBytes, r) end.

(** ** The extension area

    The loop gives up at its 129th item, so it recurs on the number of items it
    may still read. *)
Fixpoint extensions_loop (budget : nat) (previous : option Z) : M Reader WireError unit :=
  fun r =>
    match r with
    | [] => (Ok tt, r)
    | _ =>
        match budget with
        | O => (Err ResourceLimit, r)
        | S budget =>
            (tag ← ru16; flags ← ru16; len ← ru32;
             _ ← refuse_if (fun _ => is_some_and (fun p => tag <=? p) previous
                                     || negb (Z.ldiff flags 1 =? 0)) (fun _ => InvalidExtension);
             _ ← rtake len;
             _ ← refuse_if (fun _ => negb (Z.land flags 1 =? 0)) (fun _ => RequiredExtension);
             extensions_loop budget (Some tag)) r
        end
    end.

Definition validate_extensions (b : bytes) : Result WireError unit :=
  fst (extensions_loop 128 None b).

(** ** One record *)

Record WireRecord := mk_record { kind : Kind; rbinding : Z; payload : bytes }.

Definition magic : bytes := [70; 82; 68; 48].

Definition decode_bounded (b : bytes) (maximum binding : Z) (ch : option Channel)
  : Result WireError WireRecord :=
  if maximum <? Z.of_nat (length b) then Err ResourceLimit else
  fst ((m ← rtake 4;
        _ ← refuse_if (fun _ => negb (bool_decide (m = magic))) (fun _ => BadMagic);
        version ← ru16;
        _ ← refuse_if (fun _ => negb (version =? 0)) (fun _ => UnsupportedVersion);
        code ← ru16;
        k ← lift (parse code);
        flags ← ru16;
        _ ← refuse_if (fun _ => negb (flags =? 0)) (fun _ => InvalidFlags);
        reserved ← ru16;
        _ ← refuse_if (fun _ => negb (reserved =? 0)) (fun _ => InvalidFlags);
        payload_len ← ru32;
        received_binding ← ru32;
        ext_len ← ru32;
        _ ← refuse_if (fun _ => ((binding =? 0) && negb (initial k))
                                || negb (received_binding =? binding)) (fun _ => InvalidBinding);
        _ ← refuse_if (fun _ => negb (bool_decide (channel k = ch))) (fun _ => WrongChannel);
        _ ← refuse_if (fun _ => payload_len <? ext_len) (fun _ => InvalidExtension);
        p ← rtake payload_len;
        _ ← rfinish;
        _ ← lift (validate_extensions (drop (Z.to_nat (payload_len - ext_len)) p));
        mret (mk_record k binding (take (Z.to_nat (payload_len - ext_len)) p))) b).

Definition decode (b : bytes) (limits : MediaLimits) (binding : Z) (ch : Channel)
  : Result WireError WireRecord :=
  decode_bounded b (record_bytes limits) binding (Some ch).

(** [record.reader(expected)] followed by the reader methods of a codec. *)
Definition reading {A} (record : WireRecord) (expected : Kind) (body : M Reader WireError A)
  : Result WireError A :=
  if negb (bool_decide (kind record = expected)) then Err UnsupportedKind
  else fst (body (payload record)).

(** ** The writer *)

Record Writer := mk_writer { wbytes : bytes; position : Z }.

Definition wput (data : bytes) : M Writer WireError unit :=
  fun w => match checked_add usize_max (position w) (Z.of_nat (length data)) with
           | None => (Err ArithmeticOverflow, w)
           | Some e =>
               if Z.of_nat (length (wbytes w)) <? e then (Err BufferTooSmall, w)
               else (Ok tt, mk_writer (put (Z.to_nat (position w)) data (wbytes w)) e)
           end.
Definition wu8 (v : Z) := wput (be 1 v).
Definition wu16 (v : Z) := wput (be 2 v).
Definition wu32 (v : Z) := wput (be 4 v).
Definition wu64 (v : Z) := wput (be 8 v).
Definition woptional_u64 (v : option Z) : M Writer WireError unit :=
  _ ← wu8 (if v then 1 else 0);
  match v with Some v => wu64 v | None => mret tt end.
(** [u32::try_from]. *)
Definition u32_try_from (e : WireError) (v : Z) : Result WireError Z :=
  if v <=? u32_max then Ok v else Err e.
Definition wdata (data : bytes) : M Writer WireError unit :=
  n ← lift (u32_try_from ResourceLimit (Z.of_nat (length data)));
  _ ← wu32 n;
  wput data.
Definition wfinish : M Writer WireError Z :=
  fun w => if position w =? Z.of_nat (length (wbytes w)) then (Ok (position w), w)
           else (Err InvalidValue, w).

(** The fixed header [record_bounded] writes before it returns the writer. *)
Definition wheader (binding : Z) (k : Kind) (payload : Z) : M Writer WireError unit :=
  _ ← wput magic; _ ← wu16 0; _ ← wu16 (kind_code k); _ ← wu16 0; _ ← wu16 0;
  n ← lift (u32_try_from ArithmeticOverflow payload);
  _ ← wu32 n; _ ← wu32 binding; wu32 0.

(** [Writer::record_bounded] on [out], then the writes of a codec, then [finish]:
    the result and the bytes [out] holds afterwards.  The writer borrows
    [out[..total]] only. *)
Definition record_bounded (out : bytes) (maximum binding : Z) (k : Kind) (payload : Z)
  (body : M Writer WireError unit) : Result WireError Z * bytes :=
  match checked_add usize_max (Z.of_nat HEADER_BYTES) payload with
  | None => (Err ArithmeticOverflow, out)
  | Some total =>
      if (binding =? 0) && negb (initial k) then (Err InvalidBinding, out)
      else if maximum <? total then (Err ResourceLimit, out)
      else if Z.of_nat (length out) <? total then (Err BufferTooSmall, out)
      else
        let '(r, w) := (_ ← wheader binding k payload; _ ← body; wfinish)
                         (mk_writer (take (Z.to_nat total) out) 0) in
        (r, wbytes w ++ drop (Z.to_nat total) out)
  end.

Definition record (out : bytes) (limits : MediaLimits) (binding : Z) (k : Kind) (payload : Z)
  (body : M Writer WireError unit) : Result WireError Z * bytes :=
  record_bounded out (record_bytes limits) binding k payload body.
