(* ===== verification/WireRecordProps.v ===== *)
(** Exactness of records and of messages: the grammar of one record, and the contract
    between the encoder and the decoder of a message. *)

From S2P Require Import Prelude.
From S2P Require Import Bytes.
From S2P Require Import WireRecord.

(** * What the record layer reads and writes

    [Codec] relates a value, its bytes and the reader method that returns it, in
    both directions; [writes] describes a writer method by the bytes it appends.
    With them, the decoder of one record accepts exactly the frames of the
    grammar, and what a codec writes through [record_bounded] is such a frame. *)

(** ** Readers *)

(** [m] reads exactly the encodings of the values that satisfy [ok]. *)
Class Codec {E A : Type} (ok : A -> Prop) (enc : A -> bytes) (m : M Reader E A) : Prop := {
  codec_read a r : ok a -> m (enc a ++ r) = (Ok a, r);
  codec_exact r a r' : Forall is_byte r -> m r = (Ok a, r') ->
    ok a /\ r = enc a ++ r' /\ Forall is_byte r'
}.

Lemma rtake_app d r n : n = Z.of_nat (length d) -> rtake n (d ++ r) = (Ok d, r).
Proof.
  intros ->. unfold rtake. rewrite length_app. destruct (Z.leb_spec (Z.of_nat (length d)) (Z.of_nat (length d + length r))); [|lia].
  by rewrite Nat2Z.id, take_app_length, drop_app_length.
Qed.

Lemma rtake_exact n r d r' : 0 <= n -> rtake n r = (Ok d, r') ->
  r = d ++ r' /\ Z.of_nat (length d) = n.
Proof.
  unfold rtake. intros Hn. destruct (Z.leb_spec n (Z.of_nat (length r))) as [Hle|]; [|done].
  intros [= <- <-]. rewrite take_drop, length_take. split; [done | lia].
Qed.

Lemma codec_read_all {E A} (ok : A -> Prop) enc (m : M Reader E A) `{!Codec ok enc m} a : ok a -> m (enc a) = (Ok a, []).
Proof. intros Ha. rewrite <- (app_nil_r (enc a)). by apply codec_read. Qed.

(** A fixed-width integer. *)
Lemma be_codec (w : nat) (m : Z) :
  m + 1 = 256 ^ Z.of_nat w ->
  Codec (fits m) (be w) (b ← rtake (Z.of_nat w); mret (of_be b)).
Proof.
  intros Hm. split.
  - intros a r Ha. unfold mbind, M_bind, mret, M_ret.
    rewrite rtake_app by (by rewrite be_length). rewrite of_be_be_id; [done|].
    unfold fits in Ha. lia.
  - intros r a r' Hr Hm'. apply method_bind_Ok in Hm' as (d & s & Hd & Ha).
    apply rtake_exact in Hd as [-> Hl]; [|lia]. injection Ha as <- <-.
    apply Forall_app in Hr as [Hd Hr]. pose proof (of_be_bound d Hd) as Hb.
    apply Nat2Z.inj in Hl. rewrite Hl in Hb. split; [unfold fits; lia|].
    split; [|done]. f_equal. rewrite <- Hl. symmetry. by apply be_of_be.
Qed.

#[export] Instance ru8_codec : Codec (fits u8_max) (be 1) ru8.
Proof. by apply (be_codec 1). Qed.
#[export] Instance ru16_codec : Codec (fits u16_max) (be 2) ru16.
Proof. by apply (be_codec 2). Qed.
#[export] Instance ru32_codec : Codec (fits u32_max) (be 4) ru32.
Proof. by apply (be_codec 4). Qed.
#[export] Instance ru64_codec : Codec (fits u64_max) (be 8) ru64.
Proof. by apply (be_codec 8). Qed.

Definition optional_ok (v : option Z) : Prop := match v with Some v => fits u64_max v | None => True end.
Definition optional_bytes (v : option Z) : bytes :=
  match v with Some v => be 1 1 ++ be 8 v | None => be 1 0 end.

Lemma rfinish_Ok r u r' : rfinish r = (Ok u, r') -> r = [].
Proof. by destruct r. Qed.

(** Turn the guards a successful method passed into facts. *)
Ltac guards :=
  repeat match goal with
  | H : negb _ = false |- _ => apply negb_false_iff in H
  | H : _ || _ = false |- _ => apply orb_false_iff in H as [? ?]
  | H : bool_decide _ = true |- _ => apply bool_decide_eq_true_1 in H
  | H : (_ =? _) = true |- _ => apply Z.eqb_eq in H
  | H : (_ =? _) = false |- _ => apply Z.eqb_neq in H
  | H : (_ <? _) = false |- _ => apply Z.ltb_ge in H
  | H : (_ <=? _) = false |- _ => apply Z.leb_gt in H
  end; subst.

Ltac solve_fits := unfold fits, u8_max, u16_max, u32_max, u64_max in *; lia.

(** Step a reader forward on known bytes, or read off what a successful reader
    found. *)
Ltac read_step :=
  unfold mbind at 1, M_bind at 1; cbv beta;
  rewrite <- ?app_assoc;
  first [rewrite codec_read by first [assumption | solve_fits] | rewrite rtake_app by done].
Ltac read_inv :=
  repeat match goal with
  | H : (_ ≫= _) _ = (Ok _, _) |- _ =>
      let a := fresh "v" in let s := fresh "s" in let H1 := fresh "Hread" in
      apply method_bind_Ok in H as (a & s & H1 & H); cbv beta in H
  | Hb : Forall is_byte ?r, H : ?m ?r = (Ok _, _) |- _ =>
      let E := fresh "E" in let Hok := fresh "Hok" in let Hn := fresh "Hbytes" in
      apply (codec_exact _ _ _ Hb) in H as (Hok & E & Hn); subst r
  | H : rfinish _ = (Ok _, _) |- _ => apply rfinish_Ok in H; subst
  | H : refuse_if _ _ _ = (Ok _, _) |- _ =>
      let E := fresh "E" in apply refuse_if_Ok in H as [H E]; subst
  | H : mret _ _ = (Ok _, _) |- _ => injection H as; subst
  | H : lift _ _ = (Ok _, _) |- _ => unfold lift in H; injection H as; subst
  end.

#[export] Instance roptional_codec : Codec optional_ok optional_bytes roptional_u64.
Proof.
  split.
  - intros [v|] r Hv; cbn [optional_bytes optional_ok] in *; unfold roptional_u64.
    + read_step. by read_step.
    + by read_step.
  - intros r a r' Hr H. unfold roptional_u64 in H. read_inv.
    destruct v as [|[p|p|]|]; read_inv; try done.
    all: rewrite <- ?app_assoc; done.
Qed.

Definition data_ok (d : bytes) : Prop := Forall is_byte d /\ Z.of_nat (length d) <= u32_max.
Definition data_bytes (d : bytes) : bytes := be 4 (Z.of_nat (length d)) ++ d.

#[export] Instance rdata_codec : Codec data_ok data_bytes rdata.
Proof.
  split.
  - intros d r [Hb Hl]. unfold rdata, data_bytes. rewrite <- app_assoc.
    unfold mbind, M_bind. rewrite codec_read by (unfold fits; lia). by apply rtake_app.
  - intros r d r' Hr H. unfold rdata in H. read_inv. destruct Hok as [Hlo Hhi].
    apply rtake_exact in H as [-> <-]; [|done].
    apply Forall_app in Hbytes as [? ?]. unfold data_ok, data_bytes. rewrite <- app_assoc. done.
Qed.

(** Read known bytes to their end. *)
Ltac read_all :=
  repeat (rewrite <- ?app_assoc; unfold mbind at 1, M_bind at 1; cbv beta iota;
          first [ rewrite codec_read by first [assumption | solve_fits]
                | rewrite (codec_read_all _ _ rdata) by assumption
                | rewrite (codec_read_all _ _ roptional_u64) by assumption
                | rewrite (codec_read_all _ _ ru64) by first [assumption | solve_fits]
                | rewrite (codec_read_all _ _ ru32) by first [assumption | solve_fits]
                | rewrite (codec_read_all _ _ ru16) by first [assumption | solve_fits]
                | rewrite (codec_read_all _ _ ru8) by first [assumption | solve_fits]
                | rewrite rtake_app by first [done | lia] ];
          cbv beta iota).

(** Expose the run of a successful reader. *)
Ltac run_reader H :=
  let u := fresh "u" in let s := fresh "rest" in let E := fresh "Hrun" in
  match type of H with fst ?x = _ => destruct x as [u s] eqn:E end;
  cbn [fst] in H; subst u; rename E into H.

(** ** The extension area *)

Record Extension := mk_extension { tag : Z; value : bytes }.
Definition extension_bytes (e : Extension) : bytes := be 2 (tag e) ++ be 2 0 ++ data_bytes (value e).
Definition extension_area (l : list Extension) : bytes := concat (map extension_bytes l).
Definition extension_ok (e : Extension) : Prop := fits u16_max (tag e) /\ data_ok (value e).

(** Tags ascend strictly from [previous] on. *)
Fixpoint ascending (previous : option Z) (l : list Extension) : Prop :=
  match l with
  | [] => True
  | e :: l => is_some_and (fun p => tag e <=? p) previous = false /\ ascending (Some (tag e)) l
  end.

(** What an extension area may hold: at most 128 optional items in tag order. *)
Definition extensions_ok (l : list Extension) : Prop :=
  (length l <= 128)%nat /\ Forall extension_ok l /\ ascending None l.

Lemma extension_bytes_nonempty e r : extension_bytes e ++ r <> [].
Proof. unfold extension_bytes. cbn. done. Qed.

(** One item of the loop. *)
Lemma extensions_step budget previous e r :
  extension_ok e -> is_some_and (fun p => tag e <=? p) previous = false ->
  extensions_loop (S budget) previous (extension_bytes e ++ r)
  = extensions_loop budget (Some (tag e)) r.
Proof.
  intros [Ht [Hb Hl]] Hp. pose proof (extension_bytes_nonempty e r) as Hne.
  cbn [extensions_loop]. destruct (extension_bytes e ++ r) eqn:Hs; [done|]. rewrite <- Hs.
  unfold extension_bytes, data_bytes. rewrite <- !app_assoc.
  unfold mbind, M_bind. rewrite (codec_read (m := ru16)) by done.
  rewrite (codec_read (m := ru16)) by solve_fits.
  rewrite (codec_read (m := ru32)) by solve_fits.
  unfold refuse_if at 1. rewrite Hp. cbn. by rewrite rtake_app.
Qed.

Lemma flags_zero f : 0 <= f -> negb (Z.ldiff f 1 =? 0) = false -> negb (Z.land f 1 =? 0) = false -> f = 0.
Proof.
  intros Hf H1 H2. apply negb_false_iff, Z.eqb_eq in H1. apply negb_false_iff, Z.eqb_eq in H2.
  apply Z.bits_inj'. intros n Hn. apply (f_equal (fun z => Z.testbit z n)) in H1, H2.
  rewrite Z.ldiff_spec, Z.testbit_0_l in H1. rewrite Z.land_spec, Z.testbit_0_l in H2.
  rewrite Z.testbit_0_l. destruct (Z.testbit f n), (Z.testbit 1 n); done.
Qed.

Lemma extensions_exact budget : forall previous r,
  Forall is_byte r ->
  fst (extensions_loop budget previous r) = Ok tt <->
  exists l, (length l <= budget)%nat /\ Forall extension_ok l /\ ascending previous l
            /\ r = extension_area l.
Proof.
  induction budget as [|budget IH]; intros previous r Hr; (split; [intros H | intros (l & Hl & Hok & Ha & ->)]).
  - destruct r; [|done]. by exists [].
  - destruct l; [done | cbn in Hl; lia].
  - destruct r as [|b r]; [by exists []; cbn; auto with lia|].
    cbn [extensions_loop] in H. remember (b :: r) as r0 eqn:Hr0. clear Hr0 b r.
    match type of H with fst ?x = _ => destruct x as [u s] eqn:Hx end. cbn [fst] in H. subst u.
    read_inv.
    rename v3 into d, s4 into rest. apply rtake_exact in Hread3 as [-> <-]; [|by destruct Hok1].
    apply Forall_app in Hbytes1 as [Hd Hs]. apply orb_false_iff in Hread2 as [Hp Hf].
    assert (v0 = 0) as -> by (apply flags_zero; [by destruct Hok0 | done..]).
    assert (fst (extensions_loop budget (Some v) rest) = Ok tt) as Hrest by (by rewrite Hx).
    apply IH in Hrest as (l & Hl & Hok' & Ha & ->); [|done].
    exists (mk_extension v d :: l). repeat split; cbn; try done; try lia.
    constructor; [|done]. split; [done|]. split; [done | by destruct Hok1].
  - destruct l as [|e l]; [by destruct budget|].
    apply Forall_cons in Hok as [He Hok]. destruct Ha as [Hp Ha].
    unfold extension_area. cbn [map concat]. rewrite extensions_step by done.
    unfold extension_area in Hr. cbn [map concat] in Hr. apply Forall_app in Hr as [_ Hr].
    apply IH; [done|]. exists l. cbn in Hl. auto with lia.
Qed.

(** ** One complete record *)

(** The bytes of a record: header, payload, extensions. *)
Definition frame_of (k : Kind) (binding : Z) (p : bytes) (exts : list Extension) : bytes :=
  magic ++ be 2 0 ++ be 2 (kind_code k) ++ be 2 0 ++ be 2 0
  ++ be 4 (Z.of_nat (length p + length (extension_area exts))) ++ be 4 binding
  ++ be 4 (Z.of_nat (length (extension_area exts))) ++ p ++ extension_area exts.

Definition frame_ok (k : Kind) (binding : Z) (p : bytes) (exts : list Extension) : Prop :=
  fits u32_max binding /\ (binding = 0 -> initial k = true) /\ extensions_ok exts
  /\ Z.of_nat (length p + length (extension_area exts)) <= u32_max.

Lemma parse_kind_code k : parse (kind_code k) = Ok k.
Proof. by destruct k. Qed.

Lemma parse_exact code k : parse code = Ok k -> code = kind_code k.
Proof.
  unfold parse. repeat match goal with |- context [match ?x with _ => _ end] => destruct x end;
    intros H; by inversion H.
Qed.

Lemma kind_code_fits k : fits u16_max (kind_code k).
Proof. destruct k; by vm_compute. Qed.

Lemma frame_length k binding p exts :
  length (frame_of k binding p exts) = (24 + length p + length (extension_area exts))%nat.
Proof. unfold frame_of. rewrite !length_app, !be_length. cbn [length magic]. lia. Qed.

Lemma extensions_ok_valid exts :
  Forall is_byte (extension_area exts) ->
  extensions_ok exts -> validate_extensions (extension_area exts) = Ok tt.
Proof. intros Hb [Hl [Hok Ha]]. apply extensions_exact; [done|]. by exists exts. Qed.

Lemma extension_area_bytes exts : Forall extension_ok exts -> Forall is_byte (extension_area exts).
Proof.
  induction 1 as [|e l [_ [Hv _]] _ IH]; [constructor|].
  unfold extension_area, extension_bytes, data_bytes in *. cbn [map concat].
  rewrite !Forall_app. auto using be_bytes.
Qed.

Lemma decode_frame k binding p exts maximum :
  frame_ok k binding p exts ->
  Z.of_nat (length (frame_of k binding p exts)) <= maximum ->
  decode_bounded (frame_of k binding p exts) maximum binding (channel k)
  = Ok (mk_record k binding p).
Proof.
  intros (Hbind & Hinit & Hexts & Hlen) Hmax. unfold decode_bounded.
  destruct (Z.ltb_spec maximum (Z.of_nat (length (frame_of k binding p exts)))); [lia|].
  unfold frame_of. set (n := length (extension_area exts)) in *.
  unfold mbind, M_bind. rewrite rtake_app by done.
  unfold refuse_if at 1. rewrite bool_decide_eq_true_2 by done. cbn [negb].
  rewrite (codec_read (m := ru16)) by solve_fits. unfold refuse_if at 1. cbn [Z.eqb negb].
  rewrite (codec_read (m := ru16)) by apply kind_code_fits. unfold lift at 1. rewrite parse_kind_code.
  do 2 (rewrite (codec_read (m := ru16)) by solve_fits; unfold refuse_if at 1; cbn [Z.eqb negb]).
  do 3 (rewrite (codec_read (m := ru32)) by first [done | solve_fits]).
  unfold refuse_if at 1.
  replace ((binding =? 0) && negb (initial k) || negb (binding =? binding)) with false;
    [|rewrite Z.eqb_refl; destruct (Z.eqb_spec binding 0); [by rewrite Hinit | done]].
  unfold refuse_if at 1. rewrite bool_decide_eq_true_2 by done. cbn [negb].
  unfold refuse_if at 1. destruct (Z.ltb_spec (Z.of_nat (length p + n)) (Z.of_nat n)); [lia|].
  rewrite <- (app_nil_r (p ++ extension_area exts)).
  rewrite rtake_app by (by rewrite length_app). cbn [rfinish].
  replace (Z.to_nat (Z.of_nat (length p + n) - Z.of_nat n)) with (length p) by lia.
  rewrite drop_app_length, take_app_length. unfold lift.
  rewrite extensions_ok_valid; [done | | done]. by apply extension_area_bytes, Hexts.
Qed.

Lemma decode_only_frames b maximum binding ch r :
  Forall is_byte b -> fits u32_max binding ->
  decode_bounded b maximum binding ch = Ok r ->
  exists exts, frame_ok (kind r) binding (payload r) exts /\ rbinding r = binding
    /\ channel (kind r) = ch /\ b = frame_of (kind r) binding (payload r) exts
    /\ Z.of_nat (length b) <= maximum.
Proof.
  intros Hb Hbind H. unfold decode_bounded in H.
  destruct (Z.ltb_spec maximum (Z.of_nat (length b))) as [|Hmax]; [done|].
  match type of H with fst ?x = _ => destruct x as [u s] eqn:Hx end. cbn [fst] in H. subst u.
  apply method_bind_Ok in Hx as (m & s0 & Hm & Hx). apply rtake_exact in Hm as [-> _]; [|done].
  apply Forall_app in Hb as [_ Hb]. cbv beta in Hx. read_inv. guards.
  match goal with H : parse _ = Ok _ |- _ => apply parse_exact in H; subst end.
  match goal with H : rtake _ _ = (Ok _, _) |- _ =>
    apply rtake_exact in H as [-> Hlen]; [|by destruct Hok3] end.
  rewrite app_nil_r in *. match goal with H : validate_extensions _ = Ok ?u |- _ =>
    destruct u; apply extensions_exact in H as (exts & Hn & Hexts & Ha & Hd);
      [|by apply Forall_drop] end.
  exists exts. cbn [kind rbinding payload].
  set (fixed := Z.to_nat (v8 - v10)) in *. set (p := take fixed v14).
  assert (v14 = p ++ extension_area exts) as Hp by (rewrite <- Hd; symmetry; apply take_drop).
  assert (length p = fixed) as Hfixed by (unfold p, fixed, fits in *; rewrite length_take; lia).
  assert (v8 = Z.of_nat (length p + length (extension_area exts))) as Hv8
    by (rewrite <- Hlen, Hp at 1; rewrite length_app; lia).
  assert (v10 = Z.of_nat (length (extension_area exts))) as Hv10
    by (unfold fixed, fits in *; lia).
  rewrite Hv8, Hv10, Hp in *. unfold frame_ok, extensions_ok, frame_of. repeat split; try done; try solve_fits.
  intros ->. match goal with H : (0 =? 0) && _ = false |- _ => by destruct (initial v3) end.
Qed.

(** C38. The decoder of one record accepts exactly the frames of the protocol
    grammar: for a byte string within the limit, it returns a record if and only
    if the bytes are the header with this kind, binding and lengths, the record's
    payload, and at most 128 optional extensions in strictly ascending tag order;
    the kind belongs to the expected channel, and an unbound stream carries
    initial kinds only.  In particular the frame determines the record, and
    nothing else decodes. *)
Theorem record_decoding_is_exact b maximum binding ch r :
  Forall is_byte b -> fits u32_max binding ->
  decode_bounded b maximum binding ch = Ok r <->
  rbinding r = binding /\ channel (kind r) = ch /\ Z.of_nat (length b) <= maximum
  /\ exists exts, frame_ok (kind r) binding (payload r) exts
                  /\ b = frame_of (kind r) binding (payload r) exts.
Proof.
  intros Hb Hbind. split.
  - intros H. apply decode_only_frames in H as (exts & Hok & Hrb & Hch & Hf & Hmax); [|done..].
    by eauto 10.
  - intros (Hrb & <- & Hmax & exts & Hok & ->). rewrite decode_frame by done.
    destruct r. cbn in *. by subst.
Qed.

Lemma record_decoding_is_exact_witness :
  decode_bounded (frame_of Repair 7 [1; 2] [mk_extension 3 [9]]) 64 7 (Some Control)
  = Ok (mk_record Repair 7 [1; 2]).
Proof.
  apply record_decoding_is_exact.
  - by vm_compute; repeat constructor.
  - by vm_compute.
  - split; [done|]. split; [done|]. split; [by vm_compute|].
    exists [mk_extension 3 [9]]. split; [|done]. split; [by vm_compute|]. split; [done|].
    split; [|by vm_compute]. split; [cbn; lia|]. split; [|done].
    constructor; [|constructor]. split; [by vm_compute|]. split; [|by vm_compute].
    constructor; [by vm_compute | constructor].
Defined.

(** ** Writers *)

(** Within the borrowed space, [m] succeeds and appends exactly [enc]. *)
Definition writes {E} (m : M Writer E unit) (enc : bytes) : Prop :=
  forall pre rest, (length enc <= length rest)%nat ->
    Z.of_nat (length pre + length rest) <= usize_max ->
    m (mk_writer (pre ++ rest) (Z.of_nat (length pre)))
    = (Ok tt, mk_writer (pre ++ enc ++ drop (length enc) rest) (Z.of_nat (length pre + length enc))).

Lemma writes_put d : writes (wput d) d.
Proof.
  intros pre rest Hfit Hmax. unfold wput, checked_add. cbn [position wbytes].
  destruct (Z.leb_spec (Z.of_nat (length pre) + Z.of_nat (length d)) usize_max); [|lia].
  rewrite length_app. destruct (Z.ltb_spec (Z.of_nat (length pre + length rest)) (Z.of_nat (length pre) + Z.of_nat (length d))); [lia|].
  do 2 f_equal; [|lia]. unfold put.
  rewrite Nat2Z.id, take_app_length, drop_app_add. done.
Qed.

Lemma writes_bind {E} (m1 m2 : M Writer E unit) e1 e2 : writes m1 e1 -> writes m2 e2 -> writes (_ ← m1; m2) (e1 ++ e2).
Proof.
  intros H1 H2 pre rest Hfit Hmax. rewrite length_app in Hfit.
  unfold mbind, M_bind. rewrite H1 by lia. rewrite app_assoc, <- length_app.
  rewrite H2 by (rewrite ?length_app, length_drop; lia).
  rewrite drop_drop, !length_app, <- !app_assoc. do 2 f_equal. lia.
Qed.

Lemma writes_ret {E} : writes (E:=E) (mret tt) [].
Proof. intros pre rest _ _. unfold mret, M_ret. cbn. by rewrite drop_0, Nat.add_0_r. Qed.

Lemma writes_optional v : writes (woptional_u64 v) (optional_bytes v).
Proof.
  unfold woptional_u64. destruct v as [v|]; cbn [optional_bytes].
  - apply writes_bind; apply writes_put.
  - rewrite <- (app_nil_r (be 1 0)). apply writes_bind; [apply writes_put | apply writes_ret].
Qed.

Lemma writes_lift {E A} (e : Result E A) (a : A) (k : A -> M Writer E unit) enc :
  e = Ok a -> writes (k a) enc -> writes (x ← lift e; k x) enc.
Proof. intros -> H. exact H. Qed.

Lemma writes_data d : Z.of_nat (length d) <= u32_max -> writes (wdata d) (data_bytes d).
Proof.
  intros Hl. unfold wdata, u32_try_from. apply Z.leb_le in Hl. rewrite Hl.
  apply writes_lift with (Z.of_nat (length d)); [done|]. apply writes_bind; apply writes_put.
Qed.

#[export] Hint Resolve writes_put writes_bind writes_ret writes_optional writes_data : remote.

Definition header_of (k : Kind) (binding payload : Z) : bytes :=
  magic ++ be 2 0 ++ be 2 (kind_code k) ++ be 2 0 ++ be 2 0 ++ be 4 payload ++ be 4 binding ++ be 4 0.

Lemma header_length k binding p : length (header_of k binding p) = 24%nat.
Proof. done. Qed.

Lemma header_frame k binding p :
  header_of k binding (Z.of_nat (length p)) ++ p = frame_of k binding p [].
Proof.
  unfold header_of, frame_of. cbn [extension_area map concat length].
  rewrite Nat.add_0_r, app_nil_r, <- !app_assoc. done.
Qed.

Lemma writes_header binding k p : p <= u32_max -> writes (wheader binding k p) (header_of k binding p).
Proof.
  intros Hp. unfold wheader, header_of, wu16, wu32.
  do 5 (apply writes_bind; [apply writes_put|]).
  apply writes_lift with p; [unfold u32_try_from; apply Z.leb_le in Hp; by rewrite Hp|].
  do 2 (apply writes_bind; [apply writes_put|]). apply writes_put.
Qed.

Lemma writes_all {E} (m : M Writer E unit) enc space :
  writes m enc -> length space = length enc -> Z.of_nat (length enc) <= usize_max ->
  m (mk_writer space 0) = (Ok tt, mk_writer enc (Z.of_nat (length enc))).
Proof.
  intros Hm Hs Hmax. pose proof (Hm [] space ltac:(lia) ltac:(cbn [length]; lia)) as H.
  cbn [length app] in H. change (Z.of_nat 0) with 0 in H. rewrite H, drop_ge, app_nil_r by lia. done.
Qed.

(** A codec that writes as many bytes as it announced leaves one frame at the
    start of [out] and the rest of [out] untouched. *)
Lemma record_written out maximum binding k body p :
  writes body p ->
  Z.of_nat (length p) <= u32_max -> (binding = 0 -> initial k = true) ->
  Z.of_nat (24 + length p) <= maximum -> (24 + length p <= length out)%nat ->
  Z.of_nat (length out) <= usize_max ->
  record_bounded out maximum binding k (Z.of_nat (length p)) body
  = (Ok (Z.of_nat (24 + length p)), frame_of k binding p [] ++ drop (24 + length p) out).
Proof.
  intros Hbody Hp Hinit Hmax Hout Husize. unfold record_bounded, HEADER_BYTES, checked_add.
  destruct (Z.leb_spec (Z.of_nat 24 + Z.of_nat (length p)) usize_max); [|lia].
  replace ((binding =? 0) && negb (initial k)) with false;
    [|destruct (Z.eqb_spec binding 0); [by rewrite Hinit | done]].
  destruct (Z.ltb_spec maximum (Z.of_nat 24 + Z.of_nat (length p))); [lia|].
  destruct (Z.ltb_spec (Z.of_nat (length out)) (Z.of_nat 24 + Z.of_nat (length p))); [lia|].
  replace (Z.to_nat (Z.of_nat 24 + Z.of_nat (length p))) with (24 + length p)%nat by lia.
  set (space := take (24 + length p) out).
  assert (length space = 24 + length p)%nat as Hspace by (unfold space; rewrite length_take; lia).
  pose proof (writes_bind _ _ _ _ (writes_header binding k _ Hp) Hbody) as Hw.
  rewrite header_frame in Hw. apply (writes_all _ _ space) in Hw;
    [|rewrite frame_length; cbn [extension_area map concat length]; lia..].
  unfold mbind, M_bind in *.
  destruct (wheader binding k (Z.of_nat (length p)) (mk_writer space 0)) as [[[]|e] w]; [|done].
  rewrite Hw. unfold wfinish. cbn [position wbytes]. rewrite Z.eqb_refl, frame_length.
  cbn [extension_area map concat length]. do 3 f_equal. lia.
Qed.

#[global] Arguments be : simpl never.

(** * What a message codec promises

    Every message module of [fr-wire] pairs an encoder that validates a message and
    writes one record with a decoder that reads one record and validates again.
    [exact_codec] is the contract between them, stated once: valid messages are
    written as the one frame the protocol gives them, that frame is read back as
    the message, whatever is read is such a frame, and whatever is not valid is
    refused before the output is touched.  [exact_codec_intro] reduces it to the
    body of the encoder and the body of the decoder. *)

Section contract.
Context {E A : Type}.
(** The messages of the type's width, the valid ones among them, their kind and
    their payload. *)
Context (typed valid : A -> Prop) (kind_of : A -> Kind) (body_of : A -> bytes).
(** The channel: the largest record, its binding and the channel its kinds use. *)
Context (maximum binding : Z) (ch : option Channel).
Context (enc : A -> bytes -> Result E Z * bytes) (dec : bytes -> Result E A).

Definition fits_record (a : A) : Prop := Z.of_nat (24 + length (body_of a)) <= maximum.

Record exact_codec : Prop := {
  (** A valid message that fits is written as its frame; the rest of the buffer
      stays as it was. *)
  codec_writes a out :
    typed a -> valid a -> fits_record a ->
    (24 + length (body_of a) <= length out)%nat -> Z.of_nat (length out) <= usize_max ->
    enc a out = (Ok (Z.of_nat (24 + length (body_of a))),
                 frame_of (kind_of a) binding (body_of a) [] ++ drop (24 + length (body_of a)) out);
  (** An invalid message is refused and the buffer left alone. *)
  codec_refuses a out :
    typed a -> ~ valid a -> exists e, enc a out = (Err e, out);
  (** The frame of a valid message is read back. *)
  codec_reads a :
    typed a -> valid a -> fits_record a ->
    dec (frame_of (kind_of a) binding (body_of a) []) = Ok a;
  (** Nothing else is accepted: what decodes is a valid message's frame, up to
      optional extensions. *)
  codec_accepts b a :
    Forall is_byte b -> dec b = Ok a ->
    typed a /\ valid a /\ Z.of_nat (length b) <= maximum
    /\ exists exts, frame_ok (kind_of a) binding (body_of a) exts
                    /\ b = frame_of (kind_of a) binding (body_of a) exts
}.

(** Encoding into a large enough buffer and decoding the written prefix returns the
    message. *)
Lemma exact_codec_roundtrip a out :
  exact_codec -> typed a -> valid a -> fits_record a ->
  (24 + length (body_of a) <= length out)%nat -> Z.of_nat (length out) <= usize_max ->
  exists n, fst (enc a out) = Ok n /\ dec (take (Z.to_nat n) (snd (enc a out))) = Ok a.
Proof.
  intros H Ht Hv Hf Ho Hu. rewrite (codec_writes H) by done. eexists. split; [done|]. cbn [snd].
  rewrite Nat2Z.id, take_app_length' by (by rewrite frame_length; cbn; lia). by apply H.
Qed.

End contract.

(** Validity counts up to equivalence. *)
Lemma exact_codec_iff {E A} (typed valid valid' : A -> Prop) kind_of body_of maximum binding (enc : A -> bytes -> Result E Z * bytes) dec :
  (forall a, valid a <-> valid' a) ->
  exact_codec typed valid kind_of body_of maximum binding enc dec ->
  exact_codec typed valid' kind_of body_of maximum binding enc dec.
Proof.
  intros Hv [H1 H2 H3 H4]. split.
  - intros a out Ht ?%Hv. by apply H1.
  - intros a out Ht Hn. apply H2; [done|]. by rewrite Hv.
  - intros a Ht ?%Hv. by apply H3.
  - intros b a Hb Hd. destruct (H4 b a Hb Hd) as (? & ?%Hv & ? & ?). by split_and!.
Qed.

(** An encoder that leaves out a check of its own caller's obligation [P]. *)
Lemma exact_codec_restrict {E A} (P typed valid : A -> Prop) kind_of body_of maximum binding (enc enc' : A -> bytes -> Result E Z * bytes) dec :
  (forall a, typed a -> valid a -> P a) -> (forall a out, typed a -> P a -> enc a out = enc' a out) ->
  exact_codec typed valid kind_of body_of maximum binding enc' dec ->
  exact_codec (fun a => typed a /\ P a) valid kind_of body_of maximum binding enc dec.
Proof.
  intros HP Henc [H1 H2 H3 H4]. split.
  - intros a out [Ht HPa]. rewrite Henc by done. by apply H1.
  - intros a out [Ht HPa]. rewrite Henc by done. by apply H2.
  - intros a [Ht _]. by apply H3.
  - intros b a Hb Hd. destruct (H4 b a Hb Hd) as (? & ? & ? & ?). split_and!; auto.
Qed.

(** ** Building the contract *)

Section intro.
Context {A : Type} (typed valid : A -> Prop) (kind_of : A -> Kind) (body_of : A -> bytes).
Context (maximum binding : Z) (ch : option Channel).
Context (enc : A -> bytes -> Result WireError Z * bytes) (dec : bytes -> Result WireError A).

Lemma frame_bytes k p : Forall is_byte p -> Forall is_byte (frame_of k binding p []).
Proof.
  intros Hp. unfold frame_of. rewrite !Forall_app. repeat split; auto using be_bytes.
  by vm_compute; repeat constructor.
Qed.

(** The general introduction: the decoder need only accept the frame without
    extensions. *)
Lemma exact_codec_intro_fixed :
  fits u32_max binding ->
  (forall a, typed a -> valid a -> binding = 0 -> initial (kind_of a) = true) ->
  (forall a, typed a -> valid a -> channel (kind_of a) = ch) ->
  (forall a, typed a -> valid a -> data_ok (body_of a)) ->
  (forall a, typed a -> valid a -> exists body, writes body (body_of a) /\
     forall out, enc a out = record_bounded out maximum binding (kind_of a)
                               (Z.of_nat (length (body_of a))) body) ->
  (forall a out, typed a -> ~ valid a -> exists e, enc a out = (Err e, out)) ->
  (forall a b, b = frame_of (kind_of a) binding (body_of a) [] -> Forall is_byte b -> typed a -> valid a ->
     decode_bounded b maximum binding ch = Ok (mk_record (kind_of a) binding (body_of a)) -> dec b = Ok a) ->
  (forall a b, Forall is_byte b -> dec b = Ok a ->
     typed a /\ valid a /\
     decode_bounded b maximum binding ch = Ok (mk_record (kind_of a) binding (body_of a))) ->
  exact_codec typed valid kind_of body_of maximum binding enc dec.
Proof.
  intros Hb Hi Hc Hl Hw Hr Hd Hx. split.
  - intros a out Ht Hv Hf Ho Hu. destruct (Hw a Ht Hv) as (body & Hbody & ->).
    apply record_written; auto. by apply Hl.
  - done.
  - intros a Ht Hv Hf. apply (Hd a _ eq_refl); [by apply frame_bytes, Hl | done | done|].
    rewrite <- (Hc a Ht Hv). apply decode_frame.
    + split; [done|]. split; [by apply Hi|]. split; [by repeat constructor|].
      cbn. rewrite Nat.add_0_r. by apply Hl.
    + rewrite frame_length. cbn. unfold fits_record in Hf. lia.
  - intros b a Hbytes H. apply Hx in H as (Ht & Hv & Hdec); [|done].
    apply decode_only_frames in Hdec as (exts & Hok & _ & _ & Hf & Hmax); [|done..]. cbn in *. eauto 10.
Qed.

Lemma exact_codec_intro :
  fits u32_max binding ->
  (forall a, typed a -> valid a -> binding = 0 -> initial (kind_of a) = true) ->
  (forall a, typed a -> valid a -> channel (kind_of a) = ch) ->
  (forall a, typed a -> valid a -> data_ok (body_of a)) ->
  (forall a, typed a -> valid a -> exists body, writes body (body_of a) /\
     forall out, enc a out = record_bounded out maximum binding (kind_of a)
                               (Z.of_nat (length (body_of a))) body) ->
  (forall a out, typed a -> ~ valid a -> exists e, enc a out = (Err e, out)) ->
  (forall a b, Forall is_byte b ->
     dec b = Ok a <->
     typed a /\ valid a /\
     decode_bounded b maximum binding ch = Ok (mk_record (kind_of a) binding (body_of a))) ->
  exact_codec typed valid kind_of body_of maximum binding enc dec.
Proof.
  intros Hb Hi Hc Hl Hw Hr Hd. apply exact_codec_intro_fixed; try done.
  - intros a b _ Hbytes Ht Hv H. by apply Hd.
  - intros a b Hbytes H. by apply Hd.
Qed.

(** A decoder that first decodes the record is judged by what it does with it. *)
Lemma record_exact_at (valid' : A -> Prop) (dec_r : WireRecord -> Result WireError A) a b :
  fits u32_max binding -> Forall is_byte b ->
  (forall r, Forall is_byte (payload r) -> rbinding r = binding ->
     dec_r r = Ok a <-> kind r = kind_of a /\ typed a /\ valid' a /\ payload r = body_of a) ->
  (decode_bounded b maximum binding ch ≫= dec_r) = Ok a <->
  typed a /\ valid' a /\ decode_bounded b maximum binding ch = Ok (mk_record (kind_of a) binding (body_of a)).
Proof.
  intros Hb Hbytes Hr. unfold mbind, Result_bind.
  destruct (decode_bounded b maximum binding ch) as [[k bi p]|e] eqn:E; [|by split; [|intros (_ & _ & ?)]].
  apply decode_only_frames in E as (exts & _ & Hbi & _ & -> & _); [|done..].
  cbn [rbinding kind payload] in *. subst bi.
  unfold frame_of in Hbytes. rewrite !Forall_app in Hbytes. destruct Hbytes as (_ & _ & _ & _ & _ & _ & _ & _ & Hp & _).
  rewrite Hr by done. cbn. split.
  - by intros (-> & Ht & Hv & ->).
  - by intros (Ht & Hv & [= -> ->]).
Qed.

Lemma record_exact (dec_r : WireRecord -> Result WireError A) a b :
  fits u32_max binding -> Forall is_byte b ->
  (forall r, Forall is_byte (payload r) -> rbinding r = binding ->
     dec_r r = Ok a <-> kind r = kind_of a /\ typed a /\ valid a /\ payload r = body_of a) ->
  (decode_bounded b maximum binding ch ≫= dec_r) = Ok a <->
  typed a /\ valid a /\ decode_bounded b maximum binding ch = Ok (mk_record (kind_of a) binding (body_of a)).
Proof. apply record_exact_at. Qed.

(** A decoder between a check of its route and a check of the message. *)
Lemma checked_exact (pre : Result WireError unit) (post : A -> Result WireError unit) dec_r a b :
  fits u32_max binding -> Forall is_byte b ->
  (forall r, Forall is_byte (payload r) -> rbinding r = binding ->
     dec_r r = Ok a <-> kind r = kind_of a /\ typed a /\ payload r = body_of a) ->
  (_ ← pre; r ← decode_bounded b maximum binding ch; x ← dec_r r; _ ← post x; Ok x) = Ok a <->
  typed a /\ (pre = Ok tt /\ post a = Ok tt)
  /\ decode_bounded b maximum binding ch = Ok (mk_record (kind_of a) binding (body_of a)).
Proof.
  intros Hb Hbytes Hr.
  pose proof (fun P => record_exact_at P dec_r a b Hb Hbytes) as H.
  rewrite !Result_bind_Ok. split.
  - intros ([] & Hpre & Hd). apply Result_bind_Ok in Hd as (r & Hd & Hx).
    apply Result_bind_Ok in Hx as (x & Hx & Hp). apply Result_bind_Ok in Hp as ([] & Hp & [= ->]).
    assert ((decode_bounded b maximum binding ch ≫= dec_r) = Ok a) as E by (by rewrite Hd).
    apply (H (fun _ => True)) in E; [by destruct E as (Ht & _ & Hdec)|]. intros r' Hp' Hb'. rewrite Hr by done.
    split; [by intros (? & ? & ?) | by intros (? & ? & _ & ?)].
  - intros (Ht & [Hpre Hp] & Hd). exists tt. split; [done|].
    assert ((decode_bounded b maximum binding ch ≫= dec_r) = Ok a) as E.
    { apply (H (fun _ => True)); [|done]. intros r' Hp' Hb'. rewrite Hr by done.
      split; [by intros (? & ? & ?) | by intros (? & ? & _ & ?)]. }
    rewrite Hd in *. cbn in E |- *. rewrite E. cbn. by rewrite Hp.
Qed.

Lemma reading_exact {B} (r : WireRecord) k (body : M Reader WireError B) a :
  reading r k body = Ok a <-> kind r = k /\ fst (body (payload r)) = Ok a.
Proof. unfold reading. case_bool_decide; cbn; naive_solver. Qed.

End intro.

(** A tag read by cases is the code of the value it selects. *)
Ltac tag_codec :=
  split; [intros [] r _; unfold mbind, M_bind; rewrite codec_read by (by vm_compute); reflexivity | intros r a r' Hr H; read_inv;
    repeat match goal with v : Z |- _ => destruct v as [|v|v]; try done end;
    repeat match goal with v : positive |- _ => destruct v as [v|v|]; try done end;
    read_inv; done].

(** Two checks in a row. *)
Lemma both_Ok {E} (a b : Result E unit) : (_ ← a; b) = Ok tt <-> a = Ok tt /\ b = Ok tt.
Proof.
  rewrite Result_bind_Ok. split; [by intros ([] & ? & ?) | intros [? ?]; by exists tt].
Qed.
Lemma refuse_checked (c : Result WireError unit) (out : bytes) (f : Result WireError Z * bytes) :
  c <> Ok tt -> exists e, (match c with Err e => (Err e, out) | Ok _ => f end) = (Err e, out).
Proof. destruct c as [[]|e]; [done | by exists e]. Qed.

(** The shape most messages have: a check of the route, the record, one block read
    to its end, a check of the message; the same checks before the encoder writes.
    What is left to a message is its block. *)
Lemma message_codec {A} (typed : A -> Prop) (k : Kind) (body_of : A -> bytes) maximum binding ch
  (pre : Result WireError unit) (post : A -> Result WireError unit)
  (read : M Reader WireError A) (write : A -> M Writer WireError unit) `{!Codec typed body_of read} size enc dec :
  fits u32_max binding -> (binding = 0 -> initial k = true) -> channel k = ch -> 0 <= size <= u32_max ->
  (forall a, typed a -> Forall is_byte (body_of a) /\ Z.of_nat (length (body_of a)) = size) ->
  (forall a, typed a -> writes (write a) (body_of a)) ->
  (forall a out, typed a -> enc a out = match (_ ← pre; post a) with
                             | Err e => (Err e, out)
                             | Ok _ => record_bounded out maximum binding k size (write a)
                             end) ->
  (forall b, dec b = (_ ← pre; r ← decode_bounded b maximum binding ch;
                      x ← reading r k (x ← read; _ ← rfinish; mret x); _ ← post x; Ok x)) ->
  exact_codec typed (fun a => pre = Ok tt /\ post a = Ok tt) (fun _ => k) body_of maximum binding enc dec.
Proof.
  intros Hb Hi Hc Hs Hbody Hw Henc Hdec. apply exact_codec_intro with (ch := ch); try done.
  - intros a Ha _. destruct (Hbody a Ha) as [? Hl]. split; [done | lia].
  - intros a Ha Hv. exists (write a). split; [by apply Hw|]. intros out.
    by rewrite Henc, (proj2 (both_Ok _ _) Hv), (proj2 (Hbody a Ha)).
  - intros a out Ha Hv. rewrite Henc by done. apply refuse_checked. by rewrite both_Ok.
  - intros a b Hbytes. rewrite Hdec. apply (checked_exact typed (fun _ => k) body_of); [done | done|].
    intros [k' bi p] Hp _. cbn [kind payload] in *. rewrite reading_exact. cbn [kind payload]. split.
    + intros [Hk H]. run_reader H. read_inv. by rewrite app_nil_r.
    + intros (-> & Ht & ->). split; [done|]. unfold mbind, M_bind. by rewrite (codec_read_all _ _ read).
Qed.

(** A block read field by field is the concatenation of its fields. *)
Ltac block_codec :=
  split; [ intros [] r; intros; destruct_and?; cbn in *; by read_all
         | intros r a r' Hr H; read_inv; split; [done|]; split; [by rewrite <- ?app_assoc | done] ].

(** Match the writes of an encoder with the pieces of its payload. *)
Ltac solve_writes :=
  repeat first
    [ assumption
    | apply writes_optional | apply writes_put | apply writes_ret
    | progress auto with remote
    | match goal with |- writes (_ ≫= _) (_ ++ _) => apply writes_bind end ].

(** The length of a payload assembled from fixed-width fields. *)
Ltac solve_length := rewrite ?length_app, ?be_length; cbn [length]; lia.
Ltac solve_bytes := rewrite ?Forall_app; repeat split; auto using be_bytes.
