(* ===== verification/RecordStream.v ===== *)
(** * Incremental framing of reliable streams

    [fr-wire/src/stream.rs]: the owner that collects one bounded record across
    arbitrary read boundaries, and what the sizes it refers to are. *)

From S2P Require Import Prelude.
From S2P Require Import Bytes.
From S2P Require Import Limits.
From S2P Require Import WireRecord.

Module Stream.

(** [negotiation::MAX_RECORD], [inspection::REQUEST_BYTES] and [CLOSED_BYTES]. *)
Definition MAX_RECORD : Z := 4096.
Definition REQUEST_BYTES : Z := 24 + 19.
Definition CLOSED_BYTES : Z := 24 + 28.

Inductive StreamError :=
| Wire (e : WireError) | InvalidPolicy | Allocation | Expired | ClockRegression | Closed.
#[export] Instance StreamError_eq_dec : EqDecision StreamError.
Proof. solve_decision. Defined.

(** How a method can end early: with an error value, or in the [expect] of [push]. *)
Inductive Exit := Refused (e : StreamError) | Panicked.

(** [Vec::try_reserve_exact] of the current capacity and the needed one: a failure,
    or a capacity that is large enough.  An allocator may return more than asked. *)
Record Allocator := mk_allocator {
  grow : Z -> Z -> option Z;
  grow_enough cap need c : grow cap need = Some c -> need <= c
}.

Record RecordStream := mk_stream {
  maximum : Z;
  lifetime : Z;
  binding : Z;
  header : bytes;
  header_len : nat;
  record : bytes;
  capacity : Z;
  total : option Z;
  until : option Z;
  last_now : option Z;
  failure : option StreamError;
  closed : bool
}.
#[export] Instance eta_stream : Eta RecordStream := fun s =>
  mk_stream (maximum s) (lifetime s) (binding s) (header s) (header_len s) (record s) (capacity s)
    (total s) (until s) (last_now s) (failure s) (closed s).

(** ** Construction *)

Definition new_inner (maximum binding lifetime : Z) : Result StreamError RecordStream :=
  if negb ((Z.of_nat HEADER_BYTES <=? maximum)
           && (maximum <=? Limits.max_control_message_bytes Limits.ABSOLUTE))
     || negb ((1 <=? lifetime) && (lifetime <=? 5000000))
  then Err InvalidPolicy
  else Ok (mk_stream maximum lifetime binding (zeros HEADER_BYTES) 0 [] 0 None None None None false).

Definition new (maximum binding lifetime : Z) : Result StreamError RecordStream :=
  if binding =? 0 then Err InvalidPolicy else new_inner maximum binding lifetime.

Definition negotiation (maximum lifetime : Z) : Result StreamError RecordStream :=
  new_inner (Z.min maximum MAX_RECORD) 0 lifetime.

(** ** The header *)

Definition word (h : bytes) (i : nat) : Z := of_be (slice i (i + 4) h).

(** The kinds an unbound stream carries. *)
Definition bootstrap_kind (code : Z) : bool :=
  ((1 <=? code) && (code <=? 4)) || (code =? 0x10) || (code =? 0x11) || (code =? 0x1d)
  || (code =? 0x1e).

Definition bootstrap_length (code : Z) : option Z :=
  match code with
  | 0x1d => Some (REQUEST_BYTES - Z.of_nat HEADER_BYTES)
  | 0x1e => Some (CLOSED_BYTES - Z.of_nat HEADER_BYTES)
  | _ => None
  end.

Definition validate_header (maximum binding : Z) (h : bytes) : Result WireError Z :=
  let code := of_be (slice 6 8 h) in
  if negb (bool_decide (slice 0 4 h = magic)) then Err BadMagic
  else if negb (bool_decide (slice 4 6 h = [0; 0])) then Err UnsupportedVersion
  else if negb (bool_decide (slice 8 12 h = [0; 0; 0; 0])) then Err InvalidFlags
  else if (binding =? 0) && negb (bootstrap_kind code) then Err UnsupportedKind
  else if negb (word h 16 =? binding) then Err InvalidBinding
  else if (binding =? 0) && is_some_and (fun n => negb (word h 12 =? n) || negb (word h 20 =? 0))
                              (bootstrap_length code) then Err InvalidValue
  else if word h 12 <? word h 20 then Err InvalidExtension
  else match checked_add usize_max (Z.of_nat HEADER_BYTES) (word h 12) with
       | None => Err ArithmeticOverflow
       | Some total => if maximum <? total then Err ResourceLimit else Ok total
       end.

(** ** Methods *)

Definition ready (s : RecordStream) : bool :=
  is_some_and (fun total => Z.of_nat (length (record s)) =? total) (total s).

Definition close (s : RecordStream) : RecordStream :=
  s <| closed := true |> <| header := zeros HEADER_BYTES |> <| header_len := 0%nat |>
    <| record := [] |> <| capacity := 0 |> <| total := None |> <| until := None |>.

(** [self.fail(error)]. *)
Definition fail_stream {A} (e : StreamError) : M RecordStream Exit A :=
  fun s => (Err (Refused e), (close s) <| failure := Some e |>).

Definition tick (now : Z) : M RecordStream Exit unit :=
  fun s =>
    match failure s with
    | Some e => (Err (Refused e), s)
    | None =>
        if closed s then (Err (Refused Closed), s)
        else if is_some_and (fun old => now <? old) (last_now s) then fail_stream ClockRegression s
        else
          let s := s <| last_now := Some now |> in
          if is_some_and (fun until => until <=? now) (until s) then fail_stream Expired s
          else (Ok tt, s)
    end.

(** The first byte of a record fixes its deadline. *)
Definition start_deadline (now : Z) : M RecordStream Exit unit :=
  fun s =>
    match until s with
    | Some _ => (Ok tt, s)
    | None =>
        match checked_add u64_max now (lifetime s) with
        | None => fail_stream (Wire ArithmeticOverflow) s
        | Some u => (Ok tt, s <| until := Some u |>)
        end
    end.

(** The complete header is validated, the record's space reserved and charged. *)
Definition accept_header (a : Allocator) : M RecordStream Exit unit :=
  fun s =>
    match validate_header (maximum s) (binding s) (header s) with
    | Err e => fail_stream (Wire e) s
    | Ok t =>
        match grow a (capacity s) (Z.of_nat (length (record s)) + t) with
        | None => fail_stream Allocation s
        | Some c =>
            let s := s <| capacity := c |> in
            if maximum s <? c then fail_stream Allocation s
            else (Ok tt, s <| record := record s ++ header s |> <| total := Some t |>)
        end
    end.

(** Copy what is missing of the record out of [rest]. *)
Definition fill (rest : bytes) : M RecordStream Exit Z :=
  fun s =>
    match total s with
    | None => (Err Panicked, s)
    | Some t =>
        let n := Z.min (t - Z.of_nat (length (record s))) (Z.of_nat (length rest)) in
        (Ok n, s <| record := record s ++ take (Z.to_nat n) rest |>)
    end.

Definition push (a : Allocator) (chunk : bytes) (now : Z) : M RecordStream Exit Z :=
  _ ← tick now;
  stop ← gets (fun s => bool_decide (chunk = []) || ready s);
  if (stop : bool) then mret 0 else
  _ ← start_deadline now;
  have ← gets header_len;
  if (have <? HEADER_BYTES)%nat then
    let n := Nat.min (HEADER_BYTES - have) (length chunk) in
    _ ← modify (fun s => s <| header := put have (take n chunk) (header s) |>
                           <| header_len := (have + n)%nat |>);
    if (have + n <? HEADER_BYTES)%nat then mret (Z.of_nat n) else
    _ ← accept_header a;
    m ← fill (drop n chunk);
    mret (Z.of_nat n + m)
  else fill chunk.

Definition frame (now : Z) : M RecordStream Exit (option bytes) :=
  _ ← tick now;
  gets (fun s => if ready s then Some (record s) else None).

Definition consume (now : Z) : M RecordStream Exit unit :=
  _ ← tick now;
  _ ← refuse_if (fun s => negb (ready s)) (fun _ => Refused (Wire Truncated));
  modify (fun s => s <| header := zeros HEADER_BYTES |> <| header_len := 0%nat |>
                     <| record := [] |> <| total := None |> <| until := None |>).

Definition finish (now : Z) : M RecordStream Exit unit :=
  _ ← tick now;
  have ← gets header_len;
  if negb (have =? 0)%nat then fail_stream (Wire Truncated) else modify close.

Definition next_deadline (s : RecordStream) : option Z := until s.
Definition allocated_bytes (s : RecordStream) : Z := capacity s.
Definition buffered_bytes (s : RecordStream) : Z :=
  if total s then Z.of_nat (length (record s)) else Z.of_nat (header_len s).

End Stream.
