(* ===== verification/RecordStreamClaims.v ===== *)
(** The stream framing: lemmas on one call, then the theorem over histories of calls. *)

From S2P Require Import Prelude.
From S2P Require Import Limits.
From S2P Require Import Bytes.
From S2P Require Import WireRecord.
From S2P Require Import WireRecordProps.
From S2P Require Import RecordStream.

(** * What the stream framing guarantees

    The invariant of the owner, the description of each method by what it does to
    the buffered bytes, and theorems over every history of calls: the records
    delivered are the unique division of the accepted bytes into frames, whatever
    the read boundaries; deadlines are fixed by a record's first byte; memory is
    bounded; failure is final; a valid record is always delivered. *)

Module StreamProps.
Import Stream.

(** ** Frames *)

Section frames.
Context (maximum binding : Z).

(** One complete frame. *)
Definition is_frame (f : bytes) : Prop :=
  (24 <= length f)%nat /\ validate_header maximum binding (take 24 f) = Ok (Z.of_nat (length f)).

(** The beginning of a frame, not yet complete. *)
Definition incomplete (b : bytes) : Prop :=
  (length b < 24)%nat \/
  exists t, validate_header maximum binding (take 24 b) = Ok t /\ Z.of_nat (length b) < t.

(** [b] divides into the frames [fs] and the unfinished [rest]. *)
Inductive framed : bytes -> list bytes -> bytes -> Prop :=
| framed_rest b : incomplete b -> framed b [] b
| framed_cons f b fs rest : is_frame f -> framed b fs rest -> framed (f ++ b) (f :: fs) rest.

Lemma validate_header_total h t : validate_header maximum binding h = Ok t -> t <= maximum.
Proof.
  unfold validate_header, checked_add. intros H. split_matches. guards. lia.
Qed.

Lemma word_nonneg h i : Forall is_byte h -> 0 <= word h i.
Proof.
  intros Hh. unfold word, slice. apply of_be_bound. by apply Forall_take, Forall_drop.
Qed.

Lemma validate_header_min h t : Forall is_byte h -> validate_header maximum binding h = Ok t -> 24 <= t.
Proof.
  intros Hh H. pose proof (word_nonneg h 12 Hh). unfold validate_header, checked_add in H.
  split_matches. unfold HEADER_BYTES. lia.
Qed.

Lemma frame_prefix f b : is_frame f -> take 24 (f ++ b) = take 24 f.
Proof. intros [Hl _]. by apply take_app_le. Qed.

Lemma frame_not_incomplete f b : is_frame f -> ~ incomplete (f ++ b).
Proof.
  intros Hf [Hl | (t & Ht & Hl)]; rewrite length_app in Hl; [destruct Hf; lia|].
  rewrite frame_prefix in Ht by done. destruct Hf as [_ Hf]. rewrite Hf in Ht.
  injection Ht as <-. lia.
Qed.

Lemma framed_unique b fs rest : framed b fs rest ->
  forall fs' rest', framed b fs' rest' -> fs' = fs /\ rest' = rest.
Proof.
  induction 1 as [b Hb | f b fs rest Hf Hb IH]; intros fs' rest' H.
  - inversion H as [|f b' fs1 r1 Hf' Hb' Eb]; subst; [done|]. by apply frame_not_incomplete in Hb.
  - inversion H as [b' Hi Eb | f' b' fs1 r1 Hf' Hb' Eb]; subst; [by apply frame_not_incomplete in Hi|].
    pose proof (f_equal (take 24) Eb) as Ht. rewrite !frame_prefix in Ht by done.
    destruct Hf as [_ Hf], Hf' as [_ Hf']. rewrite Ht, Hf in Hf'. injection Hf' as Hl.
    apply app_inj_1 in Eb as [-> ->]; [|lia]. destruct (IH _ _ Hb') as [-> ->]. done.
Qed.

Lemma framed_concat fs rest : Forall is_frame fs -> incomplete rest -> framed (concat fs ++ rest) fs rest.
Proof.
  intros Hfs Hr. induction Hfs as [|f fs Hf _ IH]; cbn; [by constructor|].
  rewrite <- app_assoc. by constructor.
Qed.

End frames.

(** ** The invariant *)

(** The bytes of the record in progress. *)
Definition buffer (s : RecordStream) : bytes :=
  if total s then record s else take (header_len s) (header s).

Definition live (s : RecordStream) : Prop := closed s = false.

Definition bounds (s : RecordStream) : Prop :=
  24 <= maximum s <= 65536 /\ 1 <= lifetime s <= 5000000.

Record inv (s : RecordStream) : Prop := {
  inv_bounds : bounds s;
  inv_header : length (header s) = 24%nat /\ Forall is_byte (header s);
  inv_record : Forall is_byte (record s);
  inv_capacity : 0 <= capacity s <= maximum s;
  inv_until : until s = None <-> header_len s = 0%nat;
  inv_total :
    match total s with
    | None => record s = [] /\ (header_len s < 24)%nat
    | Some t => header_len s = 24%nat
                /\ validate_header (maximum s) (binding s) (header s) = Ok t
                /\ take 24 (record s) = header s /\ Z.of_nat (length (record s)) <= t <= capacity s
    end;
  inv_closed : closed s = true -> header_len s = 0%nat /\ total s = None /\ capacity s = 0;
  inv_failure : failure s <> None -> closed s = true
}.

Lemma zeroed_header : length (zeros HEADER_BYTES) = 24%nat /\ Forall is_byte (zeros HEADER_BYTES).
Proof. split; [done | apply zeros_bytes]. Qed.

Lemma inv_new maximum0 binding0 lifetime0 s : new_inner maximum0 binding0 lifetime0 = Ok s -> inv s.
Proof.
  unfold new_inner. destruct (_ || _) eqn:E; [done|]. intros [= <-]. guards.
  apply andb_true_iff in H as [H1 H2]. apply andb_true_iff in H0 as [H3 H4].
  rewrite !Z.leb_le in *. change (Z.of_nat HEADER_BYTES) with 24 in *.
  change (Limits.max_control_message_bytes Limits.ABSOLUTE) with 65536 in *.
  split; try done; unfold bounds; cbn [maximum lifetime capacity header_len total record]; try lia.
  - apply zeroed_header.
  - split; [done | lia].
Qed.

(** Closing and failing need the configuration only. *)
Lemma inv_close s : bounds s -> (failure s <> None -> closed s = true) -> inv (close s).
Proof.
  intros [Hm Hl] Hf. split; [done | apply zeroed_header | constructor | cbn; lia | done | | done | done].
  cbn. split; [done | lia].
Qed.

Lemma inv_fail s e : bounds s -> inv ((close s) <| failure := Some e |>).
Proof.
  intros [Hm Hl]. split; [done | apply zeroed_header | constructor | cbn; lia | done | | done | done].
  cbn. split; [done | lia].
Qed.

(** What a successful [tick] establishes. *)
Lemma tick_Ok now s u s' : inv s -> tick now s = (Ok u, s') ->
  s' = s <| last_now := Some now |> /\ inv s' /\ live s /\ failure s = None
  /\ (forall t, last_now s = Some t -> t <= now) /\ (forall t, until s = Some t -> now < t).
Proof.
  intros Hs. unfold tick, fail_stream, live. destruct (failure s) eqn:Ef; [done|].
  destruct (closed s) eqn:Ec; [done|].
  destruct (is_some_and _ (last_now s)) eqn:El; [done|]. cbn [until].
  destruct (is_some_and _ (until _)) eqn:Eu; [done|]. intros [= _ <-].
  split; [done|]. split; [by destruct Hs; split|]. split; [done|]. split; [done|].
  split; intros t Ht; [rewrite Ht in El | cbn in Eu; rewrite Ht in Eu]; cbn in *; lia.
Qed.

(** Every public method ticks first. *)
Lemma tick_then_live {A} now (k : unit -> M RecordStream Exit A) s r s' :
  inv s -> (tick now ≫= k) s = (Ok r, s') -> live s.
Proof.
  intros Hs H. apply method_bind_Ok in H as (u & s1 & Ht & _).
  by apply tick_Ok in Ht as (_ & _ & Hl & _).
Qed.

(** ** The steps of [push] *)

(** Nothing but the configuration is kept across every call. *)
Definition same_config (s s' : RecordStream) : Prop :=
  maximum s' = maximum s /\ lifetime s' = lifetime s /\ binding s' = binding s.

Lemma same_config_trans s1 s2 s3 : same_config s1 s2 -> same_config s2 s3 -> same_config s1 s3.
Proof. unfold same_config. intuition congruence. Qed.

Lemma bounds_config s s' : same_config s s' -> bounds s -> bounds s'.
Proof. unfold same_config, bounds. intros (-> & -> & _). done. Qed.

Lemma put_within have d h :
  length h = 24%nat -> (have + length d <= 24)%nat ->
  length (put have d h) = 24%nat /\ take (have + length d) (put have d h) = take have h ++ d.
Proof.
  intros Hh Hd. unfold put. rewrite !length_app, length_take, length_drop. split; [lia|].
  rewrite app_assoc. apply take_app_length'. rewrite length_app, length_take. lia.
Qed.

Lemma put_bytes have d h : Forall is_byte h -> Forall is_byte d -> Forall is_byte (put have d h).
Proof. intros Hh Hd. unfold put. auto using Forall_app_2, Forall_take, Forall_drop. Qed.

(** Header bytes that do not complete the header. *)
Lemma header_step s have d u :
  inv s -> live s -> header_len s = have -> Forall is_byte d -> (0 < length d)%nat ->
  (have + length d < 24)%nat ->
  let s' := s <| until := Some u |> <| header := put have d (header s) |>
              <| header_len := (have + length d)%nat |> in
  inv s' /\ buffer s' = buffer s ++ d.
Proof.
  intros [Hb [Hl Hh] Hr Hc Hu Ht Hcl Hf] Hlive Hhave Hd Hpos Hlt.
  destruct (put_within have d (header s)) as [Hl' Hp]; [done | lia|].
  assert (total s = None) as Etotal by (destruct (total s); [destruct Ht; lia | done]).
  rewrite Etotal in Ht. cbn zeta. split.
  - split; cbn [upd setter]; try done.
    + split; [done | by apply put_bytes].
    + cbn. split; [done | lia].
    + cbn. rewrite Etotal. split; [apply Ht | done].
    + cbn. unfold live in Hlive. congruence.
  - unfold buffer. cbn. rewrite Etotal, Hhave. done.
Qed.

(** How a method leaves the stream when it refuses: still well-formed, with its
    configuration, and no longer live. *)
Definition refused (s s' : RecordStream) : Prop := inv s' /\ same_config s s' /\ ~ live s'.

Lemma refused_fail s e : bounds s -> refused s ((close s) <| failure := Some e |>).
Proof. intros Hb. split; [by apply inv_fail|]. split; [done|]. unfold live. by cbn. Qed.

Lemma refused_from s s1 s2 : same_config s s1 -> refused s1 s2 -> refused s s2.
Proof.
  intros Hc (Hi & Hc' & Hl). split; [done|]. split; [|done]. by apply (same_config_trans s s1).
Qed.

(** A stream whose header has just been completed. *)
Record full_header (s : RecordStream) : Prop := {
  fh_bounds : bounds s;
  fh_live : live s /\ failure s = None;
  fh_header : length (header s) = 24%nat /\ Forall is_byte (header s);
  fh_len : header_len s = 24%nat;
  fh_empty : record s = [] /\ total s = None;
  fh_capacity : 0 <= capacity s <= maximum s;
  fh_until : until s <> None
}.

Lemma header_full s have d u :
  inv s -> live s -> header_len s = have -> Forall is_byte d -> (have < 24)%nat ->
  (have + length d = 24)%nat ->
  let s' := s <| until := Some u |> <| header := put have d (header s) |>
              <| header_len := (have + length d)%nat |> in
  full_header s' /\ header s' = buffer s ++ d.
Proof.
  intros [Hb [Hl Hh] Hr Hc Hu Ht Hcl Hf] Hlive Hhave Hd Hlt Hfull.
  destruct (put_within have d (header s)) as [Hl' Hp]; [done | lia|].
  assert (total s = None) as Etotal by (destruct (total s); [destruct Ht; lia | done]).
  rewrite Etotal in Ht. cbn zeta. split.
  - split; cbn; try done.
    + split; [done|]. destruct (failure s); [|done]. unfold live in Hlive.
      rewrite Hf in Hlive by done. done.
    + split; [done | by apply put_bytes].
    + split; [apply Ht | done].
  - unfold buffer. cbn. rewrite Etotal, Hhave, <- Hp. rewrite take_ge; [done | lia].
Qed.

(** Why a complete header [h] is refused. *)
Inductive header_refusal (a : Allocator) (s : RecordStream) (h : bytes) : StreamError -> Prop :=
| refusal_header w : validate_header (maximum s) (binding s) h = Err w -> header_refusal a s h (Wire w)
| refusal_memory t : validate_header (maximum s) (binding s) h = Ok t ->
    (forall c, grow a (capacity s) t = Some c -> maximum s < c) -> header_refusal a s h Allocation.

Lemma header_refusal_config s s' a h e :
  same_config s' s -> capacity s = capacity s' -> header_refusal a s h e -> header_refusal a s' h e.
Proof.
  intros (Em & _ & Eb) Ec [w H|t H Hg]; rewrite Em, Eb in H; [by constructor|].
  econstructor; [done|]. by rewrite <- Ec, <- Em.
Qed.

Lemma accept_step a s :
  full_header s ->
  match accept_header a s with
  | (Ok _, s') => inv s' /\ live s' /\ same_config s s' /\ until s' = until s
                  /\ buffer s' = header s /\ is_some (total s') = true
  | (Err (Refused e), s') => refused s s' /\ header_refusal a s (header s) e
  | (Err Panicked, _) => False
  end.
Proof.
  intros [Hb [Hlive Hf] [Hl Hh] Hlen [Erec Etot] Hc Hu]. unfold accept_header.
  destruct (validate_header (maximum s) (binding s) (header s)) as [t|e] eqn:Ev;
    [|by split; [apply (refused_fail s) | constructor]].
  pose proof (validate_header_min _ _ _ _ Hh Ev). rewrite Erec. cbn [length].
  change (Z.of_nat 0 + t) with t.
  destruct (grow a (capacity s) t) as [c|] eqn:Eg;
    [|by split; [apply (refused_fail s) | econstructor; [done | congruence]]].
  cbn zeta. change (maximum (s <| capacity := c |>)) with (maximum s).
  assert (bounds (s <| capacity := c |>)) as Hb' by exact Hb.
  destruct (Z.ltb_spec (maximum s) c).
  { split; [exact (refused_fail _ Allocation Hb') | econstructor; [done | congruence]]. }
  apply grow_enough in Eg.
  split; [|repeat split; try done; unfold buffer; cbn; by rewrite Erec].
  split; try done; cbn; rewrite ?Erec; cbn [app].
  - done.
  - lia.
  - by rewrite Hlen.
  - rewrite take_ge by lia. repeat split; try done; lia.
  - unfold live in Hlive. congruence.
Qed.

(** Payload bytes. *)
Lemma fill_step rest s :
  inv s -> live s -> Forall is_byte rest -> is_some (total s) = true ->
  match fill rest s with
  | (Ok n, s') => inv s' /\ live s' /\ same_config s s' /\ until s' = until s
                  /\ 0 <= n <= Z.of_nat (length rest)
                  /\ buffer s' = buffer s ++ take (Z.to_nat n) rest
                  /\ (ready s = false -> rest <> [] -> 0 < n)
                  /\ (n = Z.of_nat (length rest) \/ ready s' = true)
  | (Err _, _) => False
  end.
Proof.
  intros [Hb [Hl Hh] Hr Hc Hu Ht Hcl Hf] Hlive Hrest Hsome. unfold fill.
  destruct (total s) as [t|] eqn:Et; [|done]. destruct Ht as (Hlen & Hv & Htake & Hle & Hcap).
  set (n := Z.min (t - Z.of_nat (length (record s))) (Z.of_nat (length rest))).
  assert (24 <= length (record s))%nat.
  { apply (f_equal length) in Htake. rewrite length_take in Htake. lia. }
  split.
  - split; cbn [upd setter]; try done; cbn; rewrite ?Et; try done.
    + apply Forall_app; auto using Forall_take.
    + rewrite take_app_le by lia. rewrite length_app, length_take. repeat split; try done; lia.
  - repeat split; try done; try (unfold n; lia).
    + unfold buffer. cbn. by rewrite Et.
    + unfold ready. rewrite Et. cbn. intros Hnr Hne. destruct rest; [done|]. unfold n. cbn [length]. lia.
    + unfold ready. cbn. rewrite Et. cbn. rewrite length_app, length_take.
      destruct (Z.le_gt_cases (Z.of_nat (length rest)) (t - Z.of_nat (length (record s))));
        [left; unfold n; lia | right; apply Z.eqb_eq; unfold n; lia].
Qed.

(** ** Each method *)

(** The deadline after a push that took [n] bytes. *)
Definition deadline_after (n now : Z) (s : RecordStream) : option Z :=
  if n =? 0 then until s else Some (default (now + lifetime s) (until s)).

Definition pushed (s : RecordStream) (chunk : bytes) (now n : Z) (s' : RecordStream) : Prop :=
  inv s' /\ live s' /\ same_config s s' /\ 0 <= n <= Z.of_nat (length chunk)
  /\ buffer s' = buffer s ++ take (Z.to_nat n) chunk /\ until s' = deadline_after n now s
  /\ (n = 0 -> chunk = [] \/ ready s = true)
  /\ (n = Z.of_nat (length chunk) \/ ready s' = true).

(** Why a push is refused. *)
Inductive push_refusal (a : Allocator) (s : RecordStream) (chunk : bytes) (now : Z) : StreamError -> Prop :=
| refusal_tick e s' : tick now s = (Err (Refused e), s') -> push_refusal a s chunk now e
| refusal_clock : until s = None -> u64_max < now + lifetime s ->
    push_refusal a s chunk now (Wire ArithmeticOverflow)
| refusal_record e : (24 <= length (buffer s ++ chunk))%nat ->
    header_refusal a s (take 24 (buffer s ++ chunk)) e -> push_refusal a s chunk now e.

Lemma tick_refused now s e s' : inv s -> tick now s = (Err e, s') ->
  exists r, e = Refused r /\ refused s s' /\ (failure s = None -> closed s = false -> failure s' = Some r).
Proof.
  intros Hs. unfold tick, fail_stream. destruct (failure s) eqn:Ef.
  { intros [= <- <-]. eexists. split; [done|]. split; [|done].
    split; [done|]. split; [done|]. unfold live. rewrite (inv_failure s Hs); [done | congruence]. }
  destruct (closed s) eqn:Ec.
  { intros [= <- <-]. eexists. split; [done|]. split; [|done].
    split; [done|]. split; [done|]. unfold live. congruence. }
  destruct (is_some_and _ (last_now s)).
  { intros [= <- <-]. eexists. split; [done|]. split; [|done]. apply refused_fail, Hs. }
  cbn zeta. destruct (is_some_and _ (until _)); [|done].
  intros [= <- <-]. eexists. split; [done|]. split; [|done].
  assert (bounds (s <| last_now := Some now |>)) as Hb by exact (inv_bounds s Hs).
  exact (refused_fail _ Expired Hb).
Qed.

Lemma start_deadline_spec now s :
  bounds s ->
  match start_deadline now s with
  | (Ok _, s') => s' = s <| until := deadline_after 1 now s |>
  | (Err (Refused e), s') => refused s s' /\ e = Wire ArithmeticOverflow /\ until s = None
                             /\ u64_max < now + lifetime s
  | (Err Panicked, _) => False
  end.
Proof.
  intros Hb. unfold start_deadline, deadline_after. destruct (until s) as [u|] eqn:Eu; cbn.
  - destruct s; cbn in *. by subst.
  - destruct (checked_add u64_max now (lifetime s)) as [u|] eqn:Ea.
    + apply checked_add_Some in Ea as [-> _]. done.
    + split; [exact (refused_fail s (Wire ArithmeticOverflow) Hb)|]. split; [done|]. split; [done|].
      unfold checked_add in Ea. destruct (Z.leb_spec (now + lifetime s) u64_max); [done | lia].
Qed.

Lemma nonempty_length (c : bytes) : c <> [] -> (0 < length c)%nat.
Proof. destruct c; [done | cbn; lia]. Qed.

Section push_parts.
Context (s s1 : RecordStream) (chunk : bytes) (now u : Z).
Context (Hs1 : inv s1) (Hlive : live s1) (Hchunk : Forall is_byte chunk) (Hne : chunk <> []).
Context (Hsame : same_config s s1) (Hbuf : buffer s1 = buffer s) (Hcap : capacity s1 = capacity s).
Context (Hu : forall n, 0 < n -> deadline_after n now s = Some u).

(** The header is not complete yet. *)
Lemma push_header a (have := header_len s1) (n := Nat.min (HEADER_BYTES - have) (length chunk))
  (s2 := s1 <| until := Some u |> <| header := put have (take n chunk) (header s1) |>
            <| header_len := (have + n)%nat |>) :
  (have < HEADER_BYTES)%nat ->
  match (if (have + n <? HEADER_BYTES)%nat then mret (Z.of_nat n) else
         _ ← accept_header a; m ← fill (drop n chunk); mret (Z.of_nat n + m)) s2 with
  | (Ok n, s') => pushed s chunk now n s'
  | (Err (Refused e), s') => refused s s' /\ push_refusal a s chunk now e
  | (Err Panicked, _) => False
  end.
Proof using All.
  unfold HEADER_BYTES in *. intros Hhave. pose proof (nonempty_length _ Hne) as Hpos.
  assert (length (take n chunk) = n) as Hn by (rewrite length_take; lia).
  assert (Forall is_byte (take n chunk)) as Hd by by apply Forall_take.
  destruct (Nat.ltb_spec (have + n) 24) as [Hlt|Hge].
  - destruct (header_step s1 have (take n chunk) u) as [Hs2 Hb2]; rewrite ?Hn; try done; try lia.
    rewrite Hn in Hs2, Hb2. fold s2 in Hs2, Hb2. unfold mret, M_ret.
    split; [done|]. rewrite Nat2Z.id. repeat split; try apply Hsame; try done; try lia.
    + by rewrite Hb2, Hbuf.
    + by rewrite Hu by lia.
  - destruct (header_full s1 have (take n chunk) u) as [Hs2 Hb2]; rewrite ?Hn; try done; try lia.
    rewrite Hn in Hs2, Hb2. fold s2 in Hs2, Hb2. run_method.
    pose proof (accept_step a s2 Hs2) as Ha.
    destruct (accept_header a s2) as [[[]|[e|]] s3]; [| | done].
    2:{ destruct Ha as [Hr Hwhy]. split; [by apply (refused_from s s2)|].
        assert (take 24 (buffer s ++ chunk) = header s2) as Eh.
        { rewrite Hb2, Hbuf, <- (take_drop n chunk) at 1. rewrite app_assoc. apply take_app_length'.
          rewrite <- Hbuf, <- Hb2. by rewrite (proj1 (fh_header _ Hs2)). }
        apply refusal_record; [|rewrite Eh; by apply (header_refusal_config s2)].
        apply (f_equal length) in Eh. rewrite length_take, (proj1 (fh_header _ Hs2)) in Eh. lia. }
    destruct Ha as (Hs3 & Hl3 & Hc3 & Hu3 & Hb3 & Ht3).
    pose proof (fill_step (drop n chunk) s3 Hs3 Hl3 (Forall_drop _ _ _ Hchunk) Ht3) as Hf.
    destruct (fill (drop n chunk) s3) as [[m|e] s4]; [|done].
    destruct Hf as (Hs4 & Hl4 & Hc4 & Hu4 & Hm & Hb4 & _ & Hall). rewrite length_drop in *.
    split; [done|]. split; [done|]. split; [by eapply (same_config_trans s s2), same_config_trans|].
    split; [lia|]. split; [|split; [|split; [lia|]]].
    + rewrite Hb4, Hb3, Hb2, Hbuf, Z2Nat.inj_add, Nat2Z.id, <- app_assoc by lia.
      by rewrite take_take_drop.
    + rewrite Hu4, Hu3, Hu by lia. done.
    + destruct Hall; [left; lia | by right].
Qed.

(** The header is complete: the deadline is running. *)
Lemma push_body a :
  (HEADER_BYTES <= header_len s1)%nat -> ready s1 = false -> until s1 = Some u ->
  match fill chunk (s1 <| until := Some u |>) with
  | (Ok n, s') => pushed s chunk now n s'
  | (Err (Refused e), s') => refused s s' /\ push_refusal a s chunk now e
  | (Err Panicked, _) => False
  end.
Proof using All.
  intros Hhave Hnr Hrun. assert (s1 <| until := Some u |> = s1) as -> by (destruct s1; cbn in *; congruence).
  assert (is_some (total s1) = true) as Ht.
  { pose proof (inv_total _ Hs1) as Ht. unfold HEADER_BYTES in Hhave. destruct (total s1); [done | lia]. }
  pose proof (fill_step chunk s1 Hs1 Hlive Hchunk Ht) as Hf.
  destruct (fill chunk s1) as [[n|e] s2]; [|done].
  destruct Hf as (Hs2 & Hl2 & Hc2 & Hu2 & Hn & Hb2 & Hpos & Hall).
  specialize (Hpos Hnr Hne). split; [done|]. split; [done|].
  split; [by apply (same_config_trans s s1)|]. split; [done|]. split; [by rewrite Hb2, Hbuf|].
  rewrite Hu by lia. split; [congruence|]. split; [lia | done].
Qed.

End push_parts.

Lemma push_spec a chunk now s :
  inv s -> Forall is_byte chunk ->
  match push a chunk now s with
  | (Ok n, s') => pushed s chunk now n s'
  | (Err (Refused e), s') => refused s s' /\ push_refusal a s chunk now e
  | (Err Panicked, _) => False
  end.
Proof.
  intros Hs Hchunk. unfold push. run_method.
  destruct (tick now s) as [[[]|e] s1] eqn:Etick;
    [|pose proof Etick as Et; apply tick_refused in Et as (r & -> & ? & _); [|done];
      split; [done | by econstructor]].
  apply tick_Ok in Etick as (-> & Hs1 & Hlive & Hfail & _ & _); [|done].
  set (s1 := s <| last_now := Some now |>) in *.
  destruct (bool_decide (chunk = []) || ready s1) eqn:Estop.
  { split; [done|]. repeat split; try done; try lia; [by rewrite app_nil_r|..];
      apply orb_true_iff in Estop as [E%bool_decide_eq_true_1 | E]; subst; auto. }
  apply orb_false_iff in Estop as [Hne%bool_decide_eq_false_1 Hnr].
  pose proof (start_deadline_spec now s1 (inv_bounds _ Hs1)) as Hd.
  destruct (start_deadline now s1) as [[[]|[e|]] s2]; [subst s2 | | done].
  2:{ destruct Hd as (Hr & -> & Hnone & Hover). split; [exact Hr | by constructor]. }
  change (deadline_after 1 now s1) with (Some (default (now + lifetime s) (until s1))).
  set (u := default (now + lifetime s) (until s1)).
  change (header_len (s1 <| until := Some u |>)) with (header_len s1).
  assert (forall n, 0 < n -> deadline_after n now s = Some u) as Hu.
  { intros n Hn. unfold deadline_after. destruct (Z.eqb_spec n 0); [lia | done]. }
  assert (same_config s s1) as Hsame by done.
  destruct (Nat.ltb_spec (header_len s1) HEADER_BYTES) as [Hshort|Hfull].
  - exact (push_header s s1 chunk now u Hs1 Hlive Hchunk Hne Hsame eq_refl eq_refl Hu a Hshort).
  - refine (push_body s s1 chunk now u Hs1 Hlive Hchunk Hne Hsame eq_refl eq_refl Hu a Hfull Hnr _).
    destruct (until s1) as [v|] eqn:E; [done|]. apply (inv_until _ Hs1) in E.
    unfold HEADER_BYTES in Hfull. lia.
Qed.

(** A complete record is a frame, an incomplete one the beginning of a frame. *)
Lemma ready_frame s : inv s -> ready s = true -> buffer s = record s /\ is_frame (maximum s) (binding s) (record s).
Proof.
  intros Hs. unfold ready, buffer. pose proof (inv_total _ Hs) as Ht.
  destruct (total s) as [t|]; [|done]. cbn. rewrite Z.eqb_eq. intros <-. split; [done|].
  destruct Ht as (_ & Hv & Htake & _). split; [|by rewrite Htake].
  apply (f_equal length) in Htake. rewrite length_take, (proj1 (inv_header _ Hs)) in Htake. lia.
Qed.

Lemma unready_incomplete s : inv s -> ready s = false -> incomplete (maximum s) (binding s) (buffer s).
Proof.
  intros Hs. unfold ready, buffer, incomplete. pose proof (inv_total _ Hs) as Ht.
  destruct (total s) as [t|]; cbn.
  - rewrite Z.eqb_neq. intros Hne. destruct Ht as (_ & Hv & Htake & Hle). right. exists t.
    rewrite Htake. split; [done | lia].
  - intros _. left. rewrite length_take. lia.
Qed.

Definition reset (s : RecordStream) : RecordStream :=
  s <| header := zeros HEADER_BYTES |> <| header_len := 0%nat |> <| record := [] |>
    <| total := None |> <| until := None |>.

Lemma inv_reset s : inv s -> live s -> inv (reset s).
Proof.
  intros [Hb Hh Hr Hc Hu Ht Hcl Hf] Hlive.
  split; try done; cbn; [apply zeroed_header | split; [done | lia] |].
  unfold live in Hlive. congruence.
Qed.

(** [consume] succeeds exactly on a complete record and keeps the reservation. *)
Lemma consume_spec now s :
  inv s ->
  match consume now s with
  | (Ok _, s') => s' = reset (s <| last_now := Some now |>) /\ inv s' /\ live s' /\ ready s = true
  | (Err (Refused _), s') => refused s s' \/ s' = s <| last_now := Some now |> /\ inv s' /\ ready s = false
  | (Err Panicked, _) => False
  end.
Proof.
  intros Hs. unfold consume. run_method. destruct (tick now s) as [[[]|e] s1] eqn:Etick;
    [|by apply tick_refused in Etick as (r & -> & ? & _); [left|]].
  apply tick_Ok in Etick as (-> & Hs1 & Hlive & _); [|done].
  change (ready (s <| last_now := Some now |>)) with (ready s).
  destruct (ready s) eqn:Er; cbn [negb]; [|by right].
  split; [done|]. split; [by apply inv_reset | done].
Qed.

Lemma frame_spec now s :
  inv s ->
  match frame now s with
  | (Ok r, s') => s' = s <| last_now := Some now |> /\ inv s' /\ live s
                  /\ r = if ready s then Some (record s) else None
  | (Err (Refused _), s') => refused s s'
  | (Err Panicked, _) => False
  end.
Proof.
  intros Hs. unfold frame. run_method. destruct (tick now s) as [[[]|e] s1] eqn:Etick;
    [|by apply tick_refused in Etick as (r & -> & ? & _)].
  by apply tick_Ok in Etick as (-> & Hs1 & Hlive & _).
Qed.

Lemma finish_spec now s :
  inv s ->
  match finish now s with
  | (Ok _, s') => refused s s' /\ buffer s = []
  | (Err (Refused _), s') => refused s s'
  | (Err Panicked, _) => False
  end.
Proof.
  intros Hs. unfold finish. run_method. destruct (tick now s) as [[[]|e] s1] eqn:Etick;
    [|by apply tick_refused in Etick as (r & -> & ? & _)].
  apply tick_Ok in Etick as (-> & Hs1 & Hlive & Hf & _); [|done].
  change (header_len (s <| last_now := Some now |>)) with (header_len s).
  destruct (Nat.eqb_spec (header_len s) 0) as [E|E]; cbn [negb].
  - split; [|unfold buffer; pose proof (inv_total _ Hs) as Ht; destruct (total s); [destruct Ht; lia | by rewrite E]].
    split; [apply inv_close; [apply Hs1 | cbn; congruence]|]. split; [done|]. unfold live. by cbn.
  - pose proof (inv_bounds _ Hs1) as Hb. exact (refused_fail _ (Wire Truncated) Hb).
Qed.

End StreamProps.

(** * The stream framing over every history of calls

    A history is any sequence of calls of the public methods, with any chunks,
    clock readings and allocator answers.  The log is what an observer of the
    calls knows: the bytes the stream accepted, the records it delivered, and the
    time of the first byte of the record in progress. *)

Module StreamClaims.
Import Stream StreamProps.

Inductive Op :=
| OpPush (a : Allocator) (chunk : bytes) (now : Z)
| OpFrame (now : Z) | OpConsume (now : Z) | OpTick (now : Z) | OpFinish (now : Z) | OpClose.

(** A chunk is a slice of bytes. *)
Definition op_ok (op : Op) : Prop :=
  match op with OpPush _ chunk _ => Forall is_byte chunk | _ => True end.

Record Log := mk_log { accepted : bytes; delivered : list bytes; started : option Z }.
Definition empty_log : Log := mk_log [] [] None.

Definition step (w : RecordStream * Log) (op : Op) : RecordStream * Log :=
  let '(s, l) := w in
  match op with
  | OpPush a chunk now =>
      match push a chunk now s with
      | (Ok n, s') =>
          (s', mk_log (accepted l ++ take (Z.to_nat n) chunk) (delivered l)
                 (if n =? 0 then started l else Some (default now (started l))))
      | (Err _, s') => (s', l)
      end
  | OpConsume now =>
      match consume now s with
      | (Ok _, s') => (s', mk_log (accepted l) (delivered l ++ [record s]) None)
      | (Err _, s') => (s', l)
      end
  | OpFrame now => (snd (frame now s), l)
  | OpTick now => (snd (tick now s), l)
  | OpFinish now => (snd (finish now s), l)
  | OpClose => (close s, l)
  end.

Definition run (s : RecordStream) (ops : list Op) : RecordStream * Log :=
  foldl step (s, empty_log) ops.

(** How a history starts: with either constructor. *)
Definition opened (s : RecordStream) : Prop :=
  exists maximum binding lifetime, new_inner maximum binding lifetime = Ok s.

Lemma opened_new maximum binding lifetime s : new maximum binding lifetime = Ok s -> opened s.
Proof. unfold new. destruct (binding =? 0); [done|]. intros H. by eexists _, _, _. Qed.
Lemma opened_negotiation maximum lifetime s : negotiation maximum lifetime = Ok s -> opened s.
Proof. intros H. by eexists _, _, _. Qed.

(** ** The invariant of a history *)

Record history (s0 : RecordStream) (w : RecordStream * Log) : Prop := {
  h_inv : inv (fst w);
  h_config : same_config s0 (fst w);
  h_frames : Forall (is_frame (maximum s0) (binding s0)) (delivered (snd w));
  h_bytes : live (fst w) -> accepted (snd w) = concat (delivered (snd w)) ++ buffer (fst w);
  h_until : live (fst w) -> until (fst w) = (fun t => t + lifetime s0) <$> started (snd w)
}.

Lemma history_opened s0 : opened s0 -> history s0 (s0, empty_log).
Proof.
  intros (m & b & l & H). split; cbn; [by eapply inv_new | done | constructor |..];
    unfold new_inner in H; destruct (_ || _); simplify_eq; done.
Qed.

Lemma history_refused s0 s l s' : history s0 (s, l) -> refused s s' -> history s0 (s', l).
Proof.
  intros [Hi Hc Hf _ _] (Hi' & Hc' & Hd). split; cbn in *; try done.
  by apply (same_config_trans s0 s).
Qed.

Lemma history_same s0 s l s' :
  history s0 (s, l) -> inv s' -> same_config s s' -> buffer s' = buffer s -> until s' = until s ->
  (live s' -> live s) -> history s0 (s', l).
Proof.
  intros [Hi Hc Hf Hb Hu] Hi' Hc' Eb Eu Hl. split; cbn in *; try done.
  - by apply (same_config_trans s0 s).
  - intros H. by rewrite Eb, Hb by auto.
  - intros H. by rewrite Eu, Hu by auto.
Qed.

Lemma history_push s0 s l a chunk now :
  history s0 (s, l) -> Forall is_byte chunk -> history s0 (step (s, l) (OpPush a chunk now)).
Proof.
  intros H Hchunk. pose proof (h_inv _ _ H) as Hinv. cbn in Hinv.
  pose proof (push_spec a chunk now s Hinv Hchunk) as Hp. cbn [step].
  destruct (push a chunk now s) as [[n|[e|]] s'] eqn:Ep; [| |done].
  - destruct Hp as (Hi & Hl & Hc & Hn & Hb & Hu & _). destruct H as [_ Hc0 Hf Hb0 Hu0].
    assert (live s) as Hlive by exact (tick_then_live now _ s _ _ Hinv Ep).
    specialize (Hb0 Hlive). specialize (Hu0 Hlive). cbn in *.
    split; cbn; try done; [by apply (same_config_trans s0 s) |..]; intros _.
    + by rewrite Hb, Hb0, <- app_assoc.
    + rewrite Hu. unfold deadline_after. rewrite Hu0. destruct (n =? 0); [done|].
      destruct Hc0 as (_ & El & _). rewrite El. by destruct (started l).
  - by apply (history_refused s0 s), Hp.
Qed.

Lemma history_step s0 w op : history s0 w -> op_ok op -> history s0 (step w op).
Proof.
  destruct w as [s l]. intros H Hop. pose proof (h_inv _ _ H) as Hinv. cbn in Hinv.
  destruct op as [a chunk now | now | now | now | now |].
  - by apply history_push.
  - cbn [step]. pose proof (frame_spec now s Hinv) as Hs.
    destruct (frame now s) as [[r|[e|]] s']; cbn; [| by apply (history_refused s0 s) | done].
    destruct Hs as (-> & Hi & Hl & _). by apply (history_same s0 s).
  - cbn [step]. pose proof (consume_spec now s Hinv) as Hs.
    destruct (consume now s) as [[r|[e|]] s'] eqn:Ec; [|destruct Hs as [Hs | (-> & Hi & _)] | done].
    + destruct Hs as (-> & Hi & Hl & Hr). apply ready_frame in Hr as [Eb Hr]; [|done].
      assert (live s) as Hlive by exact (tick_then_live now _ s _ _ Hinv Ec).
      destruct H as [_ (Em & El & Ebind) Hf Hb _]. specialize (Hb Hlive). cbn in *.
      split; cbn; try done.
      * apply Forall_app. split; [done|]. constructor; [|done]. by rewrite <- Em, <- Ebind.
      * intros _. rewrite concat_app, Hb, Eb. cbn. by rewrite !app_nil_r.
    + by apply (history_refused s0 s).
    + by apply (history_same s0 s).
  - cbn [step]. destruct (tick now s) as [[[]|e] s'] eqn:Et.
    + apply tick_Ok in Et as (-> & Hi & Hl & _); [|done]. by apply (history_same s0 s).
    + apply tick_refused in Et as (r & -> & Hr & _); [|done]. by apply (history_refused s0 s).
  - cbn [step]. pose proof (finish_spec now s Hinv) as Hs.
    destruct (finish now s) as [[r|[e|]] s']; cbn; [|by apply (history_refused s0 s) | done].
    by apply (history_refused s0 s), Hs.
  - cbn [step]. apply (history_refused s0 s); [done|].
    split; [apply inv_close; apply Hinv|]. split; [done|]. unfold live. by cbn.
Qed.

Lemma history_run s0 ops : opened s0 -> Forall op_ok ops -> history s0 (run s0 ops).
Proof.
  intros Ho Hops. unfold run. apply history_opened in Ho. revert Ho.
  generalize (s0, empty_log). induction Hops as [|op ops Hop _ IH]; intros w Hw; [done|].
  cbn [foldl]. apply IH. by apply history_step.
Qed.

(** ** Reassembly *)

(** The records an observer has or can borrow now, and the bytes after them. *)
Definition records (w : RecordStream * Log) : list bytes :=
  delivered (snd w) ++ if ready (fst w) then [record (fst w)] else [].
Definition pending (w : RecordStream * Log) : bytes :=
  if ready (fst w) then [] else buffer (fst w).

Lemma framed_division s0 ops :
  opened s0 -> Forall op_ok ops -> live (fst (run s0 ops)) ->
  framed (maximum s0) (binding s0) (accepted (snd (run s0 ops))) (records (run s0 ops))
    (pending (run s0 ops)).
Proof.
  intros Ho Hops Hlive. pose proof (history_run s0 ops Ho Hops) as [Hi (Em & _ & Eb) Hf Hb _].
  rewrite (Hb Hlive). unfold records, pending.
  destruct (ready (fst (run s0 ops))) eqn:Er.
  - apply ready_frame in Er as [-> Hr]; [|done]. rewrite Em, Eb in Hr.
    replace (concat (delivered (snd (run s0 ops))) ++ record (fst (run s0 ops)))
      with (concat (delivered (snd (run s0 ops)) ++ [record (fst (run s0 ops))]) ++ [])
      by (by rewrite concat_app; cbn; rewrite !app_nil_r).
    apply framed_concat; [by apply Forall_app; auto | left; cbn; lia].
  - rewrite app_nil_r. apply framed_concat; [done|]. rewrite <- Em, <- Eb.
    by apply unready_incomplete.
Qed.

(** C37. While the stream is live, the records it has delivered or offers are
    exactly the division of the bytes it accepted into frames with valid headers
    within the limit, and what it still buffers is the beginning of the next one:
    nothing is lost, invented or reordered, in any history. *)
Theorem stream_framing_is_exact s0 ops :
  opened s0 -> Forall op_ok ops -> live (fst (run s0 ops)) ->
  framed (maximum s0) (binding s0) (accepted (snd (run s0 ops))) (records (run s0 ops))
    (pending (run s0 ops)).
Proof. apply framed_division. Qed.

(** Read boundaries do not matter: two histories of streams with the same
    configuration that accepted the same bytes, in whatever chunks, at whatever
    times and with whatever other calls between them, have delivered or offer the
    same records and wait for the same rest. *)
Theorem stream_ignores_read_boundaries s0 ops ops' :
  opened s0 -> Forall op_ok ops -> Forall op_ok ops' ->
  live (fst (run s0 ops)) -> live (fst (run s0 ops')) ->
  accepted (snd (run s0 ops)) = accepted (snd (run s0 ops')) ->
  records (run s0 ops) = records (run s0 ops') /\ pending (run s0 ops) = pending (run s0 ops').
Proof.
  intros Ho H H' Hl Hl' E.
  pose proof (framed_division s0 ops Ho H Hl) as F. pose proof (framed_division s0 ops' Ho H' Hl') as F'.
  rewrite E in F. destruct (framed_unique _ _ _ _ _ F' _ _ F) as [-> ->]. done.
Qed.

(** ** Deadlines, memory and failure *)

(** Every public method, called at [now] on [s], ends with this error. *)
Definition all_refuse (s : RecordStream) (now : Z) (e : StreamError) : Prop :=
  (forall a chunk, fst (push a chunk now s) = Err (Refused e))
  /\ fst (frame now s) = Err (Refused e) /\ fst (consume now s) = Err (Refused e)
  /\ fst (tick now s) = Err (Refused e) /\ fst (finish now s) = Err (Refused e).

Lemma tick_decides s now e : fst (tick now s) = Err (Refused e) -> all_refuse s now e.
Proof.
  intros H. unfold all_refuse, push, frame, consume, finish, mbind, M_bind.
  destruct (tick now s) as [[[]|x] s']; [done|]. cbn in H. simplify_eq. done.
Qed.

Lemma tick_expired s now t :
  inv s -> live s -> until s = Some t -> t <= now -> (forall x, last_now s = Some x -> x <= now) ->
  fst (tick now s) = Err (Refused Expired).
Proof.
  intros Hi Hl Ht Hle Hx. unfold tick. destruct (failure s) eqn:Ef.
  { unfold live in Hl. rewrite (inv_failure _ Hi) in Hl; [done | congruence]. }
  rewrite Hl. replace (is_some_and _ (last_now s)) with false; [cbn; rewrite Ht; cbn|].
  - destruct (Z.leb_spec t now); [done | lia].
  - destruct (last_now s) as [x|]; cbn; [|done]. specialize (Hx x eq_refl). lia.
Qed.

Lemma tick_fine s now :
  inv s -> live s -> (forall x, last_now s = Some x -> x <= now) -> (forall t, until s = Some t -> now < t) ->
  fst (tick now s) = Ok tt.
Proof.
  intros Hi Hl Hx Ht. unfold tick. destruct (failure s) eqn:Ef.
  { unfold live in Hl. rewrite (inv_failure _ Hi) in Hl; [done | congruence]. }
  rewrite Hl. destruct (last_now s) as [x|]; cbn.
  - specialize (Hx x eq_refl). destruct (Z.ltb_spec now x); [lia|]. cbn.
    destruct (until s) as [t|]; cbn; [|done]. specialize (Ht t eq_refl).
    destruct (Z.leb_spec t now); [lia | done].
  - destruct (until s) as [t|]; cbn; [|done]. specialize (Ht t eq_refl).
    destruct (Z.leb_spec t now); [lia | done].
Qed.

(** The first byte of a record fixes its deadline: in every history, while a
    record whose first byte was accepted at [t] is neither delivered nor refused,
    the deadline is [t] plus the lifetime of the stream, however many bytes
    trickled in since, and from that time on every method refuses with [Expired]
    on a clock that does not run backwards. *)
Theorem stream_deadline_is_fixed s0 ops t :
  opened s0 -> Forall op_ok ops -> live (fst (run s0 ops)) ->
  started (snd (run s0 ops)) = Some t ->
  next_deadline (fst (run s0 ops)) = Some (t + lifetime s0)
  /\ forall now, t + lifetime s0 <= now ->
       (forall x, last_now (fst (run s0 ops)) = Some x -> x <= now) ->
       all_refuse (fst (run s0 ops)) now Expired.
Proof.
  intros Ho Hops Hl Ht. pose proof (history_run s0 ops Ho Hops) as [Hi _ _ _ Hu].
  specialize (Hu Hl). rewrite Ht in Hu. split; [exact Hu|].
  intros now Hnow Hx. by eapply tick_decides, tick_expired.
Qed.

(** In every history the stream's one allocation and the bytes it buffers stay
    within the maximum it was opened with, at most 64 KiB; a closed or failed
    stream holds nothing; and [push] never reaches its panic. *)
Theorem stream_memory_is_bounded s0 ops :
  opened s0 -> Forall op_ok ops ->
  let s := fst (run s0 ops) in
  0 <= allocated_bytes s <= maximum s0 /\ 0 <= buffered_bytes s <= maximum s0
  /\ maximum s0 <= 65536
  /\ (closed s = true -> allocated_bytes s = 0 /\ buffered_bytes s = 0)
  /\ forall a chunk now, Forall is_byte chunk -> fst (push a chunk now s) <> Err Panicked.
Proof.
  intros Ho Hops s. pose proof (history_run s0 ops Ho Hops) as [Hi (Em & _) _ _ _]. fold s in Hi, Em.
  pose proof (inv_bounds _ Hi) as [Hm _]. pose proof (inv_capacity _ Hi) as Hc. rewrite Em in *.
  split; [done|]. split; [|split; [lia|split]].
  - pose proof (inv_total _ Hi) as Ht. unfold buffered_bytes. destruct (total s); lia.
  - intros Hclosed. destruct (inv_closed _ Hi Hclosed) as (Eh & Et & Ec).
    unfold buffered_bytes, allocated_bytes. by rewrite Et, Eh, Ec.
  - intros a chunk now Hchunk E. pose proof (push_spec a chunk now s Hi Hchunk) as Hp.
    destruct (push a chunk now s) as [[n|[e|]] s']; done.
Qed.

Lemma failed_step s l op e : failure s = Some e ->
  failure (fst (step (s, l) op)) = Some e /\ snd (step (s, l) op) = l.
Proof.
  intros H. assert (forall now, tick now s = (Err (Refused e), s)) as Ht
    by (intros now; unfold tick; by rewrite H).
  destruct op; cbn [step]; unfold push, frame, consume, finish, mbind, M_bind; rewrite ?Ht; done.
Qed.

(** Failure is final: once a stream has failed, every further history leaves
    the failure and the log as they are, so no byte is accepted and no record
    delivered, and every method keeps returning the first failure. *)
Theorem stream_failure_is_final s0 ops ops' e :
  failure (fst (run s0 ops)) = Some e ->
  failure (fst (run s0 (ops ++ ops'))) = Some e
  /\ snd (run s0 (ops ++ ops')) = snd (run s0 ops)
  /\ forall now, all_refuse (fst (run s0 (ops ++ ops'))) now e.
Proof.
  intros H. assert (failure (fst (run s0 (ops ++ ops'))) = Some e
                    /\ snd (run s0 (ops ++ ops')) = snd (run s0 ops)) as [Hf Hl].
  { unfold run in *. rewrite foldl_app. revert H. generalize (foldl step (s0, empty_log) ops).
    induction ops' as [|op ops' IH]; intros [s l] H; [done|].
    destruct (failed_step s l op e H) as [H1 H2]. cbn [foldl].
    destruct (IH _ H1) as [-> ->]. done. }
  split; [done|]. split; [done|]. intros now. apply tick_decides.
  unfold tick. by rewrite Hf.
Qed.

(** ** A valid record gets through *)

(** Push the parts of a record, each taken whole. *)
Fixpoint feed (a : Allocator) (parts : list (bytes * Z)) (s : RecordStream) : option RecordStream :=
  match parts with
  | [] => Some s
  | (chunk, now) :: parts =>
      match push a chunk now s with
      | (Ok n, s') => if n =? Z.of_nat (length chunk) then feed a parts s' else None
      | (Err _, _) => None
      end
  end.

(** Clock readings that never run backwards from [lo] and stay before [hi]. *)
Fixpoint punctual (lo hi : Z) (times : list Z) : Prop :=
  match times with
  | [] => True
  | t :: times => lo <= t < hi /\ punctual t hi times
  end.

Lemma push_last_now a chunk now s n s' : push a chunk now s = (Ok n, s') -> last_now s' = Some now.
Proof.
  unfold push. intros H. apply method_bind_Ok in H as (u & s1 & Ht & H).
  assert (last_now s1 = Some now) as H1.
  { unfold tick in Ht. destruct (failure s), (closed s); try done.
    destruct (is_some_and _ (last_now s)); [done|]. cbn zeta in Ht.
    destruct (is_some_and _ (until _)); [done|]. by injection Ht as _ <-. }
  cbv beta in H. revert H1. match type of H with ?m s1 = _ =>
    assert (preserves (fun s => last_now s = Some now) m) as Hp; [|intros H1; specialize (Hp s1 H1); by rewrite H in Hp] end.
  assert (preserves (fun s => last_now s = Some now) (start_deadline now)).
  { intros x Hx. unfold start_deadline, fail_stream. split_matches; done. }
  assert (preserves (fun s => last_now s = Some now) (accept_header a)).
  { intros x Hx. unfold accept_header, fail_stream. split_matches; done. }
  assert (forall r, preserves (fun s => last_now s = Some now) (fill r)).
  { intros r x Hx. unfold fill. split_matches; done. }
  repeat first [apply preserves_bind; [|intros ?] | case_match | by auto with remote].
Qed.

Section deliver.
Context (maximum0 binding0 : Z) (f : bytes) (a : Allocator).
Context (Hframe : is_frame maximum0 binding0 f) (Hbytes : Forall is_byte f).
Context (Hgrow : forall cap, exists c, grow a cap (Z.of_nat (length f)) = Some c /\ c <= maximum0).

(** A stream that holds the beginning of [f]. *)
Definition holds (s : RecordStream) (rest : bytes) : Prop :=
  inv s /\ live s /\ maximum s = maximum0 /\ binding s = binding0 /\ f = buffer s ++ rest.

Lemma holds_ready s rest : holds s rest -> ready s = bool_decide (rest = []).
Proof using Hframe.
  intros (Hi & Hl & Em & Eb & Ef). case_bool_decide as Hr.
  - subst rest. rewrite app_nil_r in Ef. destruct (ready s) eqn:Er; [done|].
    apply unready_incomplete in Er; [|done]. rewrite Em, Eb, <- Ef in Er.
    rewrite <- (app_nil_r f) in Er. by apply frame_not_incomplete in Er.
  - destruct (ready s) eqn:Er; [|done]. apply ready_frame in Er as [E [Hlen Hv]]; [|done].
    rewrite <- E, Em, Eb in *. destruct Hframe as [_ Hf]. exfalso. apply Hr.
    rewrite Ef, take_app_le, Hv in Hf by done. injection Hf as Hf. rewrite length_app in Hf.
    destruct rest; [done | cbn in Hf; lia].
Qed.

Lemma push_part s chunk rest now :
  holds s (chunk ++ rest) -> chunk <> [] -> fst (tick now s) = Ok tt ->
  (until s = None -> now + lifetime s <= u64_max) ->
  exists s', push a chunk now s = (Ok (Z.of_nat (length chunk)), s') /\ holds s' rest
    /\ lifetime s' = lifetime s /\ until s' = Some (default (now + lifetime s) (until s)).
Proof using All.
  intros Hh Hne Htick Hclock. pose proof (holds_ready _ _ Hh) as Hr.
  rewrite bool_decide_eq_false_2 in Hr by (by intros [? _]%app_nil).
  destruct Hh as (Hi & Hl & Em & Eb & Ef).
  assert (Forall is_byte chunk) as Hc by (rewrite Ef, !Forall_app in Hbytes; apply Hbytes).
  pose proof (push_spec a chunk now s Hi Hc) as Hp.
  destruct (push a chunk now s) as [[n|[e|]] s'] eqn:Ep; [| |done].
  - destruct Hp as (Hi' & Hl' & (Em' & El' & Eb') & Hn & Eb2 & Eu & Hz & Hall).
    assert (holds s' (drop (Z.to_nat n) chunk ++ rest)) as Hh'.
    { split; [done|]. split; [done|]. split; [congruence|]. split; [congruence|].
      rewrite Eb2, Ef, <- app_assoc. by rewrite (app_assoc (take _ _)), take_drop. }
    assert (n = Z.of_nat (length chunk)) as ->.
    { destruct Hall as [|Hall]; [done|]. rewrite (holds_ready _ _ Hh') in Hall.
      apply bool_decide_eq_true_1, app_nil in Hall as [Hd _].
      apply (f_equal length) in Hd. rewrite length_drop in Hd. cbn in Hd. lia. }
    rewrite Nat2Z.id, drop_ge in Hh' by done. exists s'. split; [done|]. split; [done|].
    split; [done|]. rewrite Eu. unfold deadline_after.
    destruct (Z.eqb_spec (Z.of_nat (length chunk)) 0); [by destruct chunk | done].
  - exfalso. destruct Hp as [_ [e' x Ht | Hu Ho | e' Hlen Hw]].
    + by rewrite Ht in Htick.
    + specialize (Hclock Hu). lia.
    + assert (take 24 (buffer s ++ chunk) = take 24 f) as E
        by (rewrite Ef, app_assoc; symmetry; by apply take_app_le).
      destruct Hframe as [_ Hf]. rewrite E in Hw. destruct Hw as [w Hw|t Hw Hg]; rewrite Em, Eb, Hf in Hw; [done|].
      injection Hw as <-. destruct (Hgrow (capacity s)) as (c & Hc1 & Hc2).
      specialize (Hg c Hc1). lia.
Qed.

Lemma feed_parts parts : forall s lo hi last,
  holds s (concat (map fst parts)) -> Forall (fun p => fst p <> []) parts ->
  (forall x, last_now s = Some x -> x <= lo) ->
  punctual lo hi (map snd parts ++ [last]) ->
  (if until s then until s = Some hi
   else exists now, head (map snd parts) = Some now /\ hi = now + lifetime s /\ hi <= u64_max) ->
  exists s', feed a parts s = Some s' /\ fst (frame last s') = Ok (Some f).
Proof using All.
  induction parts as [|[chunk now] parts IH]; intros s lo hi last Hh Hne Hlo Htimes Hun.
  - exists s. split; [done|]. pose proof (holds_ready _ _ Hh) as Hr.
    destruct (until s) as [u|] eqn:Eu; [|by destruct Hun as (? & ? & _)].
    destruct Hh as (Hi & Hl & Em & Eb & Ef). destruct Htimes as [Hlast _].
    assert (fst (tick last s) = Ok tt) as Ht 
      by (apply tick_fine; [done | done | intros x Hx; specialize (Hlo x Hx); lia
                           | intros t Ht; assert (t = hi) by congruence; lia]).
    pose proof (frame_spec last s Hi) as Hs. unfold frame, mbind, M_bind in *.
    destruct (tick last s) as [[[]|e] s1]; [|done]. cbn in Hs |- *. destruct Hs as (_ & _ & _ & ->).
    rewrite Hr. cbn. apply ready_frame in Hr as [Er _]; [|done]. rewrite <- Er, Ef. cbn. by rewrite app_nil_r.
  - cbn in Hh, Htimes, Hun |- *. destruct Htimes as [Hnow Htimes].
    apply Forall_cons in Hne as [Hc Hne].
    assert (fst (tick now s) = Ok tt) as Ht.
    { destruct Hh as (Hi & Hl & _). apply tick_fine; [done | done | |].
      - intros x Hx. specialize (Hlo x Hx). lia.
      - intros t Et. rewrite Et in Hun. assert (t = hi) by congruence. lia. }
    destruct (push_part s chunk (concat (map fst parts)) now Hh Hc Ht) as (s' & Ep & Hh' & El & Eu).
    { intros Eu. rewrite Eu in Hun. destruct Hun as (n & [= <-] & -> & Hle). done. }
    rewrite Ep, Z.eqb_refl. apply (IH s' now hi last Hh' Hne); [| done |].
    + intros x Hx. apply push_last_now in Ep. assert (x = now) by congruence. lia.
    + rewrite Eu. destruct (until s); cbn; [congruence|].
      destruct Hun as (n & [= <-] & -> & Hle). done.
Qed.

End deliver.

(** A valid record always gets through: after any history that left the stream
    live with nothing buffered, a frame with a valid header, cut into nonempty
    chunks anywhere and pushed on a clock that neither runs backwards nor reaches
    the deadline fixed by its first byte, is taken whole and offered as it was
    sent, provided the allocator grants its length within the maximum. *)
Theorem valid_record_is_delivered s0 ops a f chunk t0 parts last :
  opened s0 -> Forall op_ok ops -> live (fst (run s0 ops)) -> buffer (fst (run s0 ops)) = [] ->
  is_frame (maximum s0) (binding s0) f -> Forall is_byte f ->
  (forall cap, exists c, grow a cap (Z.of_nat (length f)) = Some c /\ c <= maximum s0) ->
  f = concat (map fst ((chunk, t0) :: parts)) -> Forall (fun p => fst p <> []) ((chunk, t0) :: parts) ->
  punctual (default t0 (last_now (fst (run s0 ops)))) (t0 + lifetime s0)
    (t0 :: map snd parts ++ [last]) ->
  t0 + lifetime s0 <= u64_max ->
  exists s', feed a ((chunk, t0) :: parts) (fst (run s0 ops)) = Some s'
             /\ fst (frame last s') = Ok (Some f).
Proof.
  intros Ho Hops Hl Hbuf Hf Hb Hg Ef Hne Ht Hmax.
  pose proof (history_run s0 ops Ho Hops) as [Hi (Em & El & Eb) _ _ _].
  apply (feed_parts (maximum s0) (binding s0) f a Hf Hb Hg _ (fst (run s0 ops))
           (default t0 (last_now (fst (run s0 ops)))) (t0 + lifetime s0) last); [|done| |exact Ht|].
  - split; [done|]. split; [done|]. split; [done|]. split; [done|]. by rewrite Hbuf.
  - intros x ->. done.
  - assert (until (fst (run s0 ops)) = None) as ->; [|exists t0; rewrite El; done].
    apply (inv_until _ Hi). pose proof (inv_total _ Hi) as Htot. unfold buffer in Hbuf.
    destruct (total (fst (run s0 ops))) as [t|].
    + destruct Htot as (_ & _ & Hh & _). apply (f_equal length) in Hh.
      rewrite Hbuf, (proj1 (inv_header _ Hi)) in Hh. done.
    + apply (f_equal length) in Hbuf. rewrite length_take, (proj1 (inv_header _ Hi)) in Hbuf.
      cbn in Hbuf. lia.
Qed.

(** ** Witnesses *)

Definition exact_allocator : Allocator.
Proof. refine (mk_allocator (fun _ need => Some need) _). intros cap need c [= <-]. lia. Defined.

(** A stream of binding 7 with 64 bytes and one second; one frame of 26 bytes. *)
Definition demo_stream : RecordStream :=
  mk_stream 64 1000000 7 (zeros 24) 0 [] 0 None None None None false.
Definition demo_frame : bytes := frame_of Repair 7 [1; 2] [].

(** One frame and three bytes of the next, cut in two different ways. *)
Definition demo_ops : list Op :=
  [OpPush exact_allocator (take 10 demo_frame) 5;
   OpPush exact_allocator (drop 10 demo_frame ++ take 3 demo_frame) 9; OpFrame 9; OpConsume 10;
   OpPush exact_allocator (take 3 demo_frame) 11].
Definition other_ops : list Op :=
  [OpPush exact_allocator demo_frame 100; OpConsume 200;
   OpPush exact_allocator (take 1 demo_frame) 300; OpTick 301;
   OpPush exact_allocator (take 2 (drop 1 demo_frame)) 302].
(** A second frame with a wrong magic fails the stream. *)
Definition bad_ops : list Op := [OpPush exact_allocator (zeros 24) 5].

Lemma demo_opened : opened demo_stream.
Proof. exists 64, 7, 1000000. reflexivity. Qed.
Lemma demo_bytes : Forall is_byte demo_frame.
Proof. unfold demo_frame. by vm_compute; repeat constructor. Qed.
Lemma demo_pushes_ok : Forall op_ok demo_ops.
Proof.
  pose proof demo_bytes. unfold demo_ops.
  repeat (apply Forall_cons; split; [cbn [op_ok]; auto using Forall_take, Forall_drop, Forall_app_2|]).
  constructor.
Qed.
Lemma other_ops_ok : Forall op_ok other_ops.
Proof.
  pose proof demo_bytes. unfold other_ops.
  repeat (apply Forall_cons; split; [cbn [op_ok]; auto using Forall_take, Forall_drop|]). constructor.
Qed.

Lemma stream_framing_is_exact_witness :
  framed 64 7 (demo_frame ++ take 3 demo_frame) [demo_frame] (take 3 demo_frame).
Proof.
  refine (stream_framing_is_exact demo_stream demo_ops demo_opened demo_pushes_ok _).
  vm_compute. reflexivity.
Defined.

Lemma stream_ignores_read_boundaries_witness :
  records (run demo_stream demo_ops) = [demo_frame]
  /\ records (run demo_stream demo_ops) = records (run demo_stream other_ops).
Proof.
  split; [vm_compute; reflexivity|].
  apply (stream_ignores_read_boundaries demo_stream demo_ops other_ops demo_opened demo_pushes_ok
           other_ops_ok); vm_compute; reflexivity.
Defined.

Lemma stream_deadline_is_fixed_witness :
  next_deadline (fst (run demo_stream demo_ops)) = Some (11 + 1000000)
  /\ all_refuse (fst (run demo_stream demo_ops)) 1000011 Expired.
Proof.
  destruct (stream_deadline_is_fixed demo_stream demo_ops 11 demo_opened demo_pushes_ok) as [H1 H2];
    [vm_compute; reflexivity | vm_compute; reflexivity |].
  split; [exact H1|]. apply H2; [cbn; lia|].
  intros x Hx. vm_compute in Hx. injection Hx as <-. lia.
Defined.

Lemma stream_memory_is_bounded_witness :
  allocated_bytes (fst (run demo_stream demo_ops)) = 26
  /\ allocated_bytes (fst (run demo_stream demo_ops)) <= 64.
Proof.
  split; [vm_compute; reflexivity|].
  apply (stream_memory_is_bounded demo_stream demo_ops demo_opened demo_pushes_ok).
Defined.

Lemma stream_failure_is_final_witness :
  failure (fst (run demo_stream (bad_ops ++ demo_ops))) = Some (Wire BadMagic)
  /\ snd (run demo_stream (bad_ops ++ demo_ops)) = snd (run demo_stream bad_ops).
Proof.
  destruct (stream_failure_is_final demo_stream bad_ops demo_ops (Wire BadMagic)) as (H1 & H2 & _);
    [vm_compute; reflexivity | done].
Defined.

Lemma valid_record_is_delivered_witness :
  exists s', feed exact_allocator [(take 5 demo_frame, 20); (drop 5 demo_frame, 30)]
               (fst (run demo_stream [])) = Some s'
             /\ fst (frame 40 s') = Ok (Some demo_frame).
Proof.
  apply (valid_record_is_delivered demo_stream [] exact_allocator demo_frame (take 5 demo_frame) 20
           [(drop 5 demo_frame, 30)] 40).
  - exact demo_opened.
  - constructor.
  - reflexivity.
  - reflexivity.
  - split; [vm_compute; lia | vm_compute; reflexivity].
  - exact demo_bytes.
  - intros cap. exists 26. split; [reflexivity | vm_compute; discriminate].
  - vm_compute. reflexivity.
  - repeat constructor; vm_compute; discriminate.
  - cbn. lia.
  - vm_compute. discriminate.
Defined.

End StreamClaims.
