(* ===== verification/WireMedia.v ===== *)
(** * Media messages

    [fr-wire/src/media.rs]: picture fragments, reliable recovery chunks, progress
    announcements and repair requests. *)

From S2P Require Import Prelude.
From S2P Require Import Bytes.
From S2P Require Import Limits.
From S2P Require Import WireRecord.

Module Media.

Definition RECOVERY_OVERHEAD : Z := 52.

(** [u32::div_ceil]. *)
Definition div_ceil (a b : Z) : Z := if 0 <? a mod b then a / b + 1 else a / b.

(** ** Frame descriptors *)

Record FrameDescriptor := mk_descriptor {
  frame : Z;
  total_bytes : Z;
  stride : Z;
  capture_micros : Z;
  reference : option Z }.

Definition fragment_count (d : FrameDescriptor) : Result WireError Z :=
  if (stride d =? 0) || (total_bytes d =? 0) then Err InvalidFragment
  else Ok (div_ceil (total_bytes d) (stride d)).

Definition validate (d : FrameDescriptor) (limits : MediaLimits) : Result WireError unit :=
  if (total_bytes d =? 0) || (stride d =? 0) then Err InvalidFragment
  else if (Limits.max_encoded_access_unit_bytes (protocol limits) <? total_bytes d)
          || (fragment_stride limits <? stride d) then Err ResourceLimit
  else if is_some_and (fun r => frame d <=? r) (reference d) then Err InvalidDependency
  else count ← fragment_count d;
       if fragments limits <? count then Err ResourceLimit else Ok tt.

(** The byte range of one fragment, as start and end. *)
Definition fragment_range (d : FrameDescriptor) (index : Z) : Result WireError (Z * Z) :=
  count ← fragment_count d;
  if count <=? index then Err InvalidFragment else
  start ← ok_or (checked_mul u32_max index (stride d)) ArithmeticOverflow;
  let length := Z.min (stride d) (total_bytes d - start) in
  end_ ← ok_or (checked_add u32_max start length) ArithmeticOverflow;
  Ok (start, end_).

Definition encoded_len (d : FrameDescriptor) : Z := 25 + if reference d then 8 else 0.

Definition write (d : FrameDescriptor) : M Writer WireError unit :=
  _ ← wu64 (frame d); _ ← wu32 (total_bytes d); _ ← wu32 (stride d);
  _ ← wu64 (capture_micros d); woptional_u64 (reference d).

Definition read (limits : MediaLimits) : M Reader WireError FrameDescriptor :=
  f ← ru64; t ← ru32; s ← ru32; c ← ru64; r ← roptional_u64;
  let d := mk_descriptor f t s c r in
  _ ← lift (validate d limits);
  mret d.

(** ** Fragments *)

Record Fragment := mk_fragment { descriptor : FrameDescriptor; index : Z; fbytes : bytes }.

Definition validate_fragment (f : Fragment) (limits : MediaLimits) : Result WireError unit :=
  _ ← validate (descriptor f) limits;
  range ← fragment_range (descriptor f) (index f);
  if negb (snd range - fst range =? Z.of_nat (length (fbytes f))) then Err InvalidFragment else Ok tt.

(** Results of [&self] helpers inside the writes of a codec. *)
Definition encode_fragment (f : Fragment) (binding : Z) (limits : MediaLimits) (out : bytes)
  : Result WireError Z * bytes :=
  match validate_fragment f limits with
  | Err e => (Err e, out)
  | Ok _ =>
      let d := descriptor f in
      match (n ← checked_add usize_max (encoded_len d) 16;
             checked_add usize_max n (Z.of_nat (length (fbytes f)))) with
      | None => (Err ArithmeticOverflow, out)
      | Some payload =>
          record out limits binding WireRecord.Fragment payload
            (_ ← wu64 (frame d); _ ← wu32 (total_bytes d);
             range ← lift (fragment_range d (index f));
             start ← lift (u32_try_from ArithmeticOverflow (fst range));
             _ ← wu32 start; _ ← wu32 (index f);
             count ← lift (fragment_count d);
             _ ← wu32 count; _ ← wu32 (stride d); _ ← wu64 (capture_micros d);
             _ ← woptional_u64 (reference d);
             wdata (fbytes f))
      end
  end.

Definition decode_fragment (r : WireRecord) (limits : MediaLimits) : Result WireError Fragment :=
  reading r WireRecord.Fragment
    (frame ← ru64; total_bytes ← ru32; offset ← ru32; index ← ru32; count ← ru32; stride ← ru32;
     capture_micros ← ru64; reference ← roptional_u64; b ← rdata;
     _ ← rfinish;
     let d := mk_descriptor frame total_bytes stride capture_micros reference in
     let f := mk_fragment d index b in
     _ ← lift (validate_fragment f limits);
     expected ← lift (fragment_count d);
     _ ← refuse_if (fun _ => negb (count =? expected)) (fun _ => InvalidFragment);
     range ← lift (fragment_range d index);
     _ ← refuse_if (fun _ => negb (offset =? fst range)) (fun _ => InvalidFragment);
     mret f).

(** ** Recovery chunks *)

Record RecoveryChunk := mk_chunk {
  c_frame : Z; c_total_bytes : Z; c_offset : Z; c_capture_micros : Z; c_bytes : bytes }.

Definition validate_chunk (c : RecoveryChunk) (limits : MediaLimits) : Result WireError unit :=
  if (c_total_bytes c =? 0) || bool_decide (c_bytes c = []) then Err InvalidFragment
  else if Limits.max_encoded_access_unit_bytes (protocol limits) <? c_total_bytes c then Err ResourceLimit
  else length ← u32_try_from ArithmeticOverflow (Z.of_nat (length (c_bytes c)));
       end_ ← ok_or (checked_add u32_max (c_offset c) length) ArithmeticOverflow;
       if c_total_bytes c <? end_ then Err InvalidFragment else Ok tt.

Definition encode_recovery (c : RecoveryChunk) (binding : Z) (limits : MediaLimits) (out : bytes)
  : Result WireError Z * bytes :=
  match validate_chunk c limits with
  | Err e => (Err e, out)
  | Ok _ =>
      match checked_add usize_max 28 (Z.of_nat (length (c_bytes c))) with
      | None => (Err ArithmeticOverflow, out)
      | Some payload =>
          record out limits binding Recovery payload
            (_ ← wu64 (c_frame c); _ ← wu32 (c_total_bytes c); _ ← wu32 (c_offset c);
             _ ← wu64 (c_capture_micros c); wdata (c_bytes c))
      end
  end.

Definition decode_recovery (r : WireRecord) (limits : MediaLimits) : Result WireError RecoveryChunk :=
  reading r Recovery
    (frame ← ru64; total_bytes ← ru32; offset ← ru32; capture_micros ← ru64; b ← rdata;
     let c := mk_chunk frame total_bytes offset capture_micros b in
     _ ← rfinish;
     _ ← lift (validate_chunk c limits);
     mret c).

(** ** Progress *)

Inductive SourceObservation := Unknown | Captured | QualifiedUnchanged.
Inductive PipelineState := Opening | Running | Idle | Failed.
#[export] Instance SourceObservation_eq_dec : EqDecision SourceObservation.
Proof. solve_decision. Defined.
#[export] Instance PipelineState_eq_dec : EqDecision PipelineState.
Proof. solve_decision. Defined.

Definition observation_code (o : SourceObservation) : Z :=
  match o with Unknown => 0 | Captured => 1 | QualifiedUnchanged => 2 end.
Definition pipeline_code (p : PipelineState) : Z :=
  match p with Opening => 0 | Running => 1 | Idle => 2 | Failed => 3 end.

Record Progress := mk_progress {
  p_descriptor : FrameDescriptor; observed_micros : Z; observation : SourceObservation;
  pipeline : PipelineState }.

Definition encode_progress (p : Progress) (binding : Z) (limits : MediaLimits) (out : bytes)
  : Result WireError Z * bytes :=
  match validate (p_descriptor p) limits with
  | Err e => (Err e, out)
  | Ok _ =>
      record out limits binding WireRecord.Progress (encoded_len (p_descriptor p) + 10)
        (_ ← write (p_descriptor p); _ ← wu64 (observed_micros p);
         _ ← wu8 (observation_code (observation p)); wu8 (pipeline_code (pipeline p)))
  end.

Definition read_observation : M Reader WireError SourceObservation :=
  tag ← ru8;
  match tag with
  | 0 => mret Unknown | 1 => mret Captured | 2 => mret QualifiedUnchanged
  | _ => fail InvalidValue
  end.
Definition read_pipeline : M Reader WireError PipelineState :=
  tag ← ru8;
  match tag with
  | 0 => mret Opening | 1 => mret Running | 2 => mret Idle | 3 => mret Failed
  | _ => fail InvalidValue
  end.

Definition decode_progress (r : WireRecord) (limits : MediaLimits) : Result WireError Progress :=
  reading r WireRecord.Progress
    (d ← read limits; micros ← ru64; o ← read_observation; p ← read_pipeline;
     _ ← rfinish;
     mret (mk_progress d micros o p)).

(** ** Repair requests *)

Record RepairRange := mk_range { r_start : Z; r_end : Z }.

Definition validate_range (range : RepairRange) (previous_end fragment_count : Z)
  : Result WireError unit :=
  if (r_start range <? previous_end) || (r_end range <=? r_start range)
     || (fragment_count <? r_end range) then Err InvalidRanges else Ok tt.

(** The loop over the ranges, each against the end of the one before. *)
Fixpoint validate_ranges (previous fragment_count : Z) (ranges : list RepairRange)
  : Result WireError unit :=
  match ranges with
  | [] => Ok tt
  | r :: ranges => _ ← validate_range r previous fragment_count;
                   validate_ranges (r_end r) fragment_count ranges
  end.

(** The range vector stays encoded in the request. *)
Record RepairRequest := mk_request { q_frame : Z; q_ranges : bytes }.

(** [as_chunks::<8>().0] and the two words of each chunk. *)
Fixpoint ranges_of (fuel : nat) (b : bytes) : list RepairRange :=
  match fuel with
  | O => []
  | S fuel =>
      if (length b <? 8)%nat then []
      else mk_range (of_be (slice 0 4 b)) (of_be (slice 4 8 b)) :: ranges_of fuel (drop 8 b)
  end.
Definition ranges (q : RepairRequest) : list RepairRange :=
  ranges_of (length (q_ranges q) / 8) (q_ranges q).

(** The loop that writes the ranges. *)
Fixpoint write_ranges (ranges : list RepairRange) : M Writer WireError unit :=
  match ranges with
  | [] => mret tt
  | r :: ranges => _ ← wu32 (r_start r); _ ← wu32 (r_end r); write_ranges ranges
  end.

Definition encode_repair (frame : Z) (ranges : list RepairRange) (fragment_count binding : Z)
  (limits : MediaLimits) (out : bytes) : Result WireError Z * bytes :=
  if bool_decide (ranges = []) || (repair_ranges limits <? Z.of_nat (length ranges))
     || (fragment_count =? 0) || (fragments limits <? fragment_count)
  then (Err InvalidRanges, out)
  else
    match validate_ranges 0 fragment_count ranges with
    | Err e => (Err e, out)
    | Ok _ =>
        record out limits binding Repair (12 + Z.of_nat (length ranges) * 8)
          (_ ← wu64 frame;
           n ← lift (u32_try_from ArithmeticOverflow (Z.of_nat (length ranges)));
           _ ← wu32 n;
           write_ranges ranges)
    end.

Definition decode_repair (r : WireRecord) (fragment_count : Z) (limits : MediaLimits)
  : Result WireError RepairRequest :=
  if (fragment_count =? 0) || (fragments limits <? fragment_count) then Err InvalidRanges
  else
    reading r Repair
      (frame ← ru64; count ← ru32;
       _ ← refuse_if (fun _ => (count =? 0) || (repair_ranges limits <? count)) (fun _ => InvalidRanges);
       len ← lift (ok_or (checked_mul usize_max count 8) ArithmeticOverflow);
       b ← rtake len;
       _ ← rfinish;
       let q := mk_request frame b in
       _ ← lift (validate_ranges 0 fragment_count (ranges q));
       mret q).

End Media.
