(* ===== verification/WireMediaProps.v ===== *)
(** * What the media messages guarantee

    The fragments of a picture tile it exactly and each fits one record; fragments,
    recovery chunks, progress announcements and repair requests have exact
    codecs. *)

From S2P Require Import Prelude.
From S2P Require Import Bytes.
From S2P Require Import Limits.
From S2P Require Import WireRecord.
From S2P Require Import WireRecordProps.
From S2P Require Import WireMedia.

Module MediaProps.
Import Media.

(** What [MediaLimits::new] establishes on resolved protocol limits. *)
Definition limits_ok (l : MediaLimits) : Prop :=
  Limits.valid (protocol l)
  /\ FRAGMENT_OVERHEAD < record_bytes l <= Limits.max_control_message_bytes (protocol l)
  /\ 0 < fragments l <= MAX_FRAGMENTS /\ 0 < repair_ranges l <= MAX_REPAIR_RANGES.

Lemma new_limits_ok p r f q l :
  Limits.valid p -> 0 <= f -> 0 <= q -> new_limits p r f q = Ok l -> limits_ok l.
Proof.
  unfold new_limits. intros Hp Hf Hq. destruct (_ || _) eqn:E; [done|]. intros [= <-]. guards.
  unfold limits_ok. cbn. split; [done | lia].
Qed.

(** Records are at most 64 KiB and pictures at most 16 MiB. *)
Lemma limits_sizes l : limits_ok l ->
  73 < record_bytes l <= 65536 /\ 1 <= Limits.max_encoded_access_unit_bytes (protocol l) <= 16777216.
Proof.
  intros (Hv & Hr & _). pose proof (Hv ControlMessageBytes) as [_ Hc].
  pose proof (Hv EncodedAccessUnitBytes) as [Ha1 Ha2]. unfold FRAGMENT_OVERHEAD in Hr. cbn in *. lia.
Qed.

(** ** Tiling *)

Definition descriptor_typed (d : FrameDescriptor) : Prop :=
  fits u64_max (frame d) /\ fits u32_max (total_bytes d) /\ fits u32_max (stride d)
  /\ fits u64_max (capture_micros d) /\ optional_ok (reference d).

Definition count_of (d : FrameDescriptor) : Z := div_ceil (total_bytes d) (stride d).

Lemma div_ceil_bounds a b : 0 < b -> 0 < a -> b * (div_ceil a b - 1) < a <= b * div_ceil a b.
Proof.
  intros Hb Ha. unfold div_ceil. pose proof (Z.div_mod a b) as H. pose proof (Z.mod_pos_bound a b Hb).
  destruct (Z.ltb_spec 0 (a mod b)); lia.
Qed.

Section descriptor.
Context (d : FrameDescriptor) (limits : MediaLimits).
Context (Htyped : descriptor_typed d) (Hvalid : validate d limits = Ok tt).

Lemma descriptor_positive : 0 < stride d /\ 0 < total_bytes d.
Proof using All.
  destruct Htyped as (_ & [Ht _] & [Hs _] & _). unfold validate in Hvalid.
  destruct (_ || _) eqn:E; [done|]. guards. lia.
Qed.

Lemma count_ok : fragment_count d = Ok (count_of d).
Proof using All.
  pose proof descriptor_positive. unfold fragment_count. destruct (_ || _) eqn:E; [|done].
  apply orb_true_iff in E as [E|E]; apply Z.eqb_eq in E; lia.
Qed.

Lemma stride_fits : stride d <= fragment_stride limits /\ 1 <= count_of d <= fragments limits.
Proof using All.
  pose proof descriptor_positive as [Hs Ht]. pose proof count_ok as Hc.
  pose proof (div_ceil_bounds (total_bytes d) (stride d) Hs Ht). fold (count_of d) in *.
  unfold validate in Hvalid. unfold mbind, Result_bind in Hvalid. rewrite Hc in Hvalid.
  split_matches. guards. nia.
Qed.

(** The range of a fragment; its arithmetic never overflows. *)
Lemma range_ok i : 0 <= i < count_of d ->
  fragment_range d i = Ok (i * stride d, Z.min ((i + 1) * stride d) (total_bytes d)).
Proof using All.
  intros Hi. pose proof descriptor_positive as [Hs Ht]. unfold fragment_range, mbind, Result_bind.
  rewrite count_ok. destruct (Z.leb_spec (count_of d) i); [lia|].
  pose proof (div_ceil_bounds (total_bytes d) (stride d) Hs Ht) as Hb. fold (count_of d) in Hb.
  destruct Htyped as (_ & [_ Hu] & _). assert (i * stride d < total_bytes d) by nia.
  unfold ok_or, checked_mul. destruct (Z.leb_spec (i * stride d) u32_max); [|lia].
  unfold checked_add. destruct (Z.leb_spec (i * stride d + Z.min (stride d) (total_bytes d - i * stride d)) u32_max); [|lia].
  do 2 f_equal. lia.
Qed.

Lemma range_refused i : 0 <= i -> count_of d <= i -> fragment_range d i = Err InvalidFragment.
Proof using All.
  intros Hi Hc. unfold fragment_range, mbind, Result_bind. rewrite count_ok.
  destruct (Z.leb_spec (count_of d) i); [done | lia].
Qed.

End descriptor.

(** The bytes of fragment [i] of a picture. *)
Definition piece (d : FrameDescriptor) (picture : bytes) (i : Z) : bytes :=
  match fragment_range d i with
  | Ok (s, e) => slice (Z.to_nat s) (Z.to_nat e) picture
  | Err _ => []
  end.

Lemma take_pieces d limits picture n :
  descriptor_typed d -> validate d limits = Ok tt ->
  Z.of_nat (length picture) = total_bytes d -> Z.of_nat n <= count_of d ->
  concat (map (piece d picture) (seqZ 0 (Z.of_nat n)))
  = take (Z.to_nat (Z.of_nat n * stride d)) picture.
Proof.
  intros Ht Hv Hl. pose proof (descriptor_positive d limits Ht Hv) as [Hs Hp].
  induction n as [|n IH]; intros Hn; [by cbn|].
  rewrite seqZ_S, map_app, concat_app, IH by lia. cbn [map concat]. rewrite app_nil_r, Z.add_0_l.
  unfold piece. rewrite (range_ok d limits) by (done || lia).
  rewrite Nat2Z.inj_succ, <- Z.add_1_r. unfold slice. set (s := stride d) in *.
  rewrite Z2Nat.inj_min. set (a := Z.to_nat (Z.of_nat n * s)).
  assert (Z.to_nat ((Z.of_nat n + 1) * s) = a + Z.to_nat s)%nat as -> by nia.
  assert (Z.to_nat (total_bytes d) = length picture) as -> by lia.
  rewrite <- (take_take_drop picture a (Z.to_nat s)). f_equal.
  destruct (Nat.le_ge_cases (a + Z.to_nat s) (length picture)).
  - rewrite Nat.min_l by lia. f_equal. lia.
  - rewrite Nat.min_r by lia. rewrite !take_ge; rewrite ?length_drop; lia || done.
Qed.

(** In order, the pieces are the picture. *)
Lemma pieces_tile d limits picture :
  descriptor_typed d -> validate d limits = Ok tt -> Z.of_nat (length picture) = total_bytes d ->
  concat (map (piece d picture) (seqZ 0 (count_of d))) = picture.
Proof.
  intros Ht Hv Hl. pose proof (descriptor_positive d limits Ht Hv) as [Hs Hp].
  pose proof (stride_fits d limits Ht Hv) as [_ Hcount].
  pose proof (div_ceil_bounds (total_bytes d) (stride d) Hs Hp) as Hb. fold (count_of d) in Hb.
  rewrite <- (Z2Nat.id (count_of d)), (take_pieces d limits) by (done || lia).
  rewrite Z2Nat.id by lia. apply take_ge. nia.
Qed.

(** The fragments of a picture tile it: for a descriptor the limits accept, the
    ranges of the fragments [0 .. count - 1] are exactly the whole picture in
    order, without gap or overlap, no range computation overflows, each fragment
    is nonempty and, with its worst-case overhead, fits one record, and there are
    at most as many as the limits allow. *)
Theorem fragments_tile_the_picture d limits picture :
  descriptor_typed d -> validate d limits = Ok tt ->
  Z.of_nat (length picture) = total_bytes d ->
  fragment_count d = Ok (count_of d) /\ 1 <= count_of d <= fragments limits
  /\ concat (map (piece d picture) (seqZ 0 (count_of d))) = picture
  /\ forall i, 0 <= i < count_of d ->
       exists s e, fragment_range d i = Ok (s, e) /\ 0 <= s < e /\ e <= total_bytes d
                   /\ FRAGMENT_OVERHEAD + Z.of_nat (length (piece d picture i)) <= record_bytes limits.
Proof.
  intros Ht Hv Hl. pose proof (descriptor_positive d limits Ht Hv) as [Hs Hp].
  pose proof (stride_fits d limits Ht Hv) as [Hstride Hcount].
  pose proof (div_ceil_bounds (total_bytes d) (stride d) Hs Hp) as Hb. fold (count_of d) in Hb.
  split; [by apply (count_ok d limits)|]. split; [done|]. split; [by apply (pieces_tile d limits)|].
  - intros i Hi. unfold piece. rewrite (range_ok d limits) by done.
    eexists _, _. split; [done|]. split; [nia|]. split; [lia|].
    unfold slice. rewrite length_take. unfold fragment_stride in Hstride. nia.
Qed.

Definition demo_limits : MediaLimits := mk_media_limits Limits.ABSOLUTE 80 16 4.
Definition demo_descriptor : FrameDescriptor := mk_descriptor 9 17 7 1000 (Some 8).

Lemma fragments_tile_the_picture_witness :
  concat (map (piece demo_descriptor (be 17 1)) (seqZ 0 (count_of demo_descriptor))) = be 17 1
  /\ count_of demo_descriptor = 3.
Proof.
  split; [|vm_compute; reflexivity].
  apply (fragments_tile_the_picture demo_descriptor demo_limits (be 17 1)).
  - repeat split; vm_compute; discriminate.
  - vm_compute; reflexivity.
  - vm_compute; reflexivity.
Defined.

(** ** Fragments *)

(** The decoder of a channel: one record, then the message. *)
Definition on_channel {A} (dec : WireRecord -> MediaLimits -> Result WireError A)
  (limits : MediaLimits) (binding : Z) (ch : Channel) (b : bytes) : Result WireError A :=
  decode b limits binding ch ≫= fun r => dec r limits.

Definition fragment_typed (f : Fragment) : Prop :=
  descriptor_typed (descriptor f) /\ fits u32_max (index f) /\ data_ok (fbytes f).
Definition fragment_body (f : Fragment) : bytes :=
  let d := descriptor f in
  be 8 (frame d) ++ be 4 (total_bytes d) ++ be 4 (index f * stride d) ++ be 4 (index f)
  ++ be 4 (count_of d) ++ be 4 (stride d) ++ be 8 (capture_micros d)
  ++ optional_bytes (reference d) ++ data_bytes (fbytes f).

Lemma validate_fragment_spec f limits :
  fragment_typed f ->
  validate_fragment f limits = Ok tt <->
  validate (descriptor f) limits = Ok tt /\ index f < count_of (descriptor f)
  /\ Z.of_nat (length (fbytes f))
     = Z.min ((index f + 1) * stride (descriptor f)) (total_bytes (descriptor f))
       - index f * stride (descriptor f).
Proof.
  intros (Ht & [Hi _] & _). unfold validate_fragment, mbind, Result_bind.
  destruct (validate (descriptor f) limits) as [[]|e] eqn:Ev; [|by split; [|intros [? _]]].
  destruct (Z.lt_ge_cases (index f) (count_of (descriptor f))).
  - rewrite (range_ok _ limits) by done. cbn. destruct (Z.eqb_spec (Z.min ((index f + 1) * stride (descriptor f)) (total_bytes (descriptor f)) - index f * stride (descriptor f)) (Z.of_nat (length (fbytes f)))); cbn; split; try done; intros; lia.
  - rewrite (range_refused _ limits) by done. split; [done|]. intros (_ & ? & _). lia.
Qed.

Lemma optional_bytes_length v : length (optional_bytes v) = if v then 9%nat else 1%nat.
Proof. by destruct v. Qed.
Lemma optional_bytes_bytes v : Forall is_byte (optional_bytes v).
Proof. destruct v; cbn [optional_bytes]; rewrite ?Forall_app; auto using be_bytes. Qed.
Lemma data_bytes_bytes b : data_ok b -> Forall is_byte (data_bytes b).
Proof. intros [H _]. unfold data_bytes. rewrite Forall_app. auto using be_bytes. Qed.

Lemma fragment_facts f limits :
  limits_ok limits -> fragment_typed f -> validate_fragment f limits = Ok tt ->
  fits u32_max (index f * stride (descriptor f)) /\ fits u32_max (count_of (descriptor f))
  /\ Z.of_nat (length (fragment_body f))
     = encoded_len (descriptor f) + 16 + Z.of_nat (length (fbytes f))
  /\ data_ok (fragment_body f) /\ Z.of_nat (24 + length (fragment_body f)) <= record_bytes limits.
Proof.
  intros Hlim Ht Hv. pose proof (limits_sizes limits Hlim) as [[Hr Hr2] _].
  destruct Hlim as (_ & _ & [Hf Hf2] & _). pose proof Ht as (Hd & Hi & Hb).
  apply validate_fragment_spec in Hv as (Hv & Hlt & Hlen); [|done].
  pose proof (descriptor_positive _ _ Hd Hv) as [Hs Htot]. pose proof (stride_fits _ _ Hd Hv) as [Hst Hc].
  pose proof (div_ceil_bounds _ _ Hs Htot) as Hdc. fold (count_of (descriptor f)) in Hdc.
  pose proof Hd as (_ & [_ Hu] & _). unfold fits in *. unfold MAX_FRAGMENTS, fragment_stride, FRAGMENT_OVERHEAD, u32_max in *.
  assert (Z.of_nat (length (fragment_body f)) = encoded_len (descriptor f) + 16 + Z.of_nat (length (fbytes f))) as Hl.
  { unfold fragment_body, data_bytes, encoded_len. rewrite !length_app, optional_bytes_length, !be_length.
    destruct (reference (descriptor f)); lia. }
  assert (encoded_len (descriptor f) <= 33) by (unfold encoded_len; destruct (reference (descriptor f)); lia).
  split; [nia|]. split; [lia|]. split; [done|]. split; [|nia]. split; [|unfold u32_max; nia].
  unfold fragment_body. rewrite !Forall_app. auto 20 using be_bytes, optional_bytes_bytes, data_bytes_bytes.
Qed.

Lemma fragment_writes f limits binding :
  limits_ok limits -> fragment_typed f -> validate_fragment f limits = Ok tt ->
  exists body, writes body (fragment_body f) /\ forall out,
    encode_fragment f binding limits out
    = record_bounded out (record_bytes limits) binding WireRecord.Fragment
        (Z.of_nat (length (fragment_body f))) body.
Proof.
  intros Hlim Ht Hv. pose proof (fragment_facts f limits Hlim Ht Hv) as (Hstart & Hcount & Hlen & _ & Hrec).
  pose proof Ht as (Hd & Hi & Hb). pose proof (proj1 (validate_fragment_spec _ _ Ht) Hv) as (Hvd & Hlt & _).
  eexists. split; [|intros out; unfold encode_fragment; rewrite Hv].
  2:{ unfold checked_add, mbind, option_bind. destruct (Z.leb_spec (encoded_len (descriptor f) + 16) usize_max);
        [|unfold encoded_len, usize_max, u64_max in *; destruct (reference (descriptor f)); lia].
      destruct (Z.leb_spec (encoded_len (descriptor f) + 16 + Z.of_nat (length (fbytes f))) usize_max);
        [|apply limits_sizes in Hlim as [[_ ?] _]; unfold usize_max, u64_max in *; lia].
      unfold record. rewrite <- Hlen. reflexivity. }
  unfold fragment_body. cbn zeta. do 2 (apply writes_bind; [apply writes_put|]).
  eapply writes_lift; [apply (range_ok _ limits); [done | done | destruct Hi; lia]|]. cbn [fst].
  eapply writes_lift; [unfold u32_try_from; destruct Hstart as [_ H]; apply Z.leb_le in H; by rewrite H|].
  do 2 (apply writes_bind; [apply writes_put|]).
  eapply writes_lift; [by apply (count_ok _ limits)|].
  do 3 (apply writes_bind; [apply writes_put|]). apply writes_bind; [apply writes_optional|].
  apply writes_data, Hb.
Qed.

Lemma decode_fragment_exact f limits r :
  limits_ok limits -> Forall is_byte (payload r) ->
  decode_fragment r limits = Ok f <->
  kind r = WireRecord.Fragment /\ fragment_typed f /\ validate_fragment f limits = Ok tt
  /\ payload r = fragment_body f.
Proof.
  intros Hlim Hb. unfold decode_fragment. rewrite reading_exact. destruct r as [k bi p]. cbn [kind payload] in *.
  split.
  - intros [Hk H]. split; [done|]. run_reader H. read_inv. guards.
    match goal with H : validate_fragment ?f limits = Ok ?u |- _ =>
      destruct u; set (f0 := f) in *; assert (fragment_typed f0) as Ht by done;
      pose proof (proj1 (validate_fragment_spec f0 limits Ht) H) as (Hvd & Hlt & _) end.
    pose proof (proj1 Ht) as Hd. split; [done|]. split; [done|].
    pose proof (count_ok _ _ Hd Hvd) as Hcount.
    pose proof (range_ok _ _ Hd Hvd _ (conj (proj1 Hok2) Hlt)) as Hrange.
    subst f0. cbn in Hcount, Hrange. rewrite Hcount in H0. rewrite Hrange in H. simplify_eq/=.
    by rewrite app_nil_r.
  - intros (Hk & Ht & Hv & ->). split; [done|].
    pose proof (fragment_facts f limits Hlim Ht Hv) as (Hstart & Hcount & _).
    pose proof (proj1 (validate_fragment_spec f limits Ht) Hv) as (Hvd & Hlt & _).
    destruct f as [[fr to st ca re] ix by_]. destruct Ht as ((Hfr & Hto & Hst & Hca & Hre) & Hix & Hby).
    cbn [descriptor index fbytes frame total_bytes stride capture_micros reference] in *.
    unfold fragment_body. cbn [descriptor index fbytes frame total_bytes stride capture_micros reference].
    read_all. cbn [rfinish]. unfold lift, mbind, M_bind. rewrite Hv.
    set (d := mk_descriptor fr to st ca re) in *.
    assert (descriptor_typed d) as Hd by done. rewrite (count_ok d limits) by done.
    unfold refuse_if at 1. rewrite Z.eqb_refl. cbn [negb].
    rewrite (range_ok d limits) by (done || (destruct Hix; lia)). cbn. by rewrite Z.eqb_refl.
Qed.

(** The contract of a media message on its channel. *)
Definition media_codec {A} (limits : MediaLimits) (binding : Z) (k : Kind) (ch : Channel)
  (typed valid : A -> Prop) (body : A -> bytes)
  (enc : A -> Z -> MediaLimits -> bytes -> Result WireError Z * bytes)
  (dec : WireRecord -> MediaLimits -> Result WireError A) : Prop :=
  exact_codec typed valid (fun _ => k) body (record_bytes limits) binding
    (fun a => enc a binding limits) (on_channel dec limits binding ch).

Lemma media_codec_intro {A} limits binding k ch (typed valid : A -> Prop) body enc dec :
  fits u32_max binding -> binding <> 0 -> channel k = Some ch ->
  (forall a, typed a -> valid a -> data_ok (body a)) ->
  (forall a, typed a -> valid a -> exists w, writes w (body a) /\ forall out,
     enc a binding limits out
     = record_bounded out (record_bytes limits) binding k (Z.of_nat (length (body a))) w) ->
  (forall a out, typed a -> ~ valid a -> exists e, enc a binding limits out = (Err e, out)) ->
  (forall a r, Forall is_byte (payload r) ->
     dec r limits = Ok a <-> kind r = k /\ typed a /\ valid a /\ payload r = body a) ->
  media_codec limits binding k ch typed valid body enc dec.
Proof.
  intros Hb Hnz Hch Hd Hw Hr Hx. unfold media_codec. apply exact_codec_intro with (ch := Some ch); try done.
  intros a b Hbytes. unfold on_channel, decode. apply (record_exact typed valid (fun _ => k) body); [done | done|]. intros r Hp _. by apply Hx.
Qed.

Lemma fragment_codec limits binding :
  limits_ok limits -> fits u32_max binding -> binding <> 0 ->
  media_codec limits binding WireRecord.Fragment Video fragment_typed
    (fun f => validate_fragment f limits = Ok tt) fragment_body encode_fragment decode_fragment.
Proof.
  intros Hl Hb Hnz. apply media_codec_intro; try done.
  - intros f Ht Hv. by apply (fragment_facts f limits).
  - intros f Ht Hv. by apply fragment_writes.
  - intros f out _ Hv. unfold encode_fragment. destruct (validate_fragment f limits) as [[]|e]; [done | by eexists].
  - intros f r Hp. by apply decode_fragment_exact.
Qed.

(** ** Recovery chunks *)

Definition chunk_typed (c : RecoveryChunk) : Prop :=
  fits u64_max (c_frame c) /\ fits u32_max (c_total_bytes c) /\ fits u32_max (c_offset c)
  /\ fits u64_max (c_capture_micros c) /\ Forall is_byte (c_bytes c).
(** A chunk lies inside the picture it announces and fits a record. *)
Definition chunk_valid (limits : MediaLimits) (c : RecoveryChunk) : Prop :=
  validate_chunk c limits = Ok tt.
Definition chunk_body (c : RecoveryChunk) : bytes :=
  be 8 (c_frame c) ++ be 4 (c_total_bytes c) ++ be 4 (c_offset c) ++ be 8 (c_capture_micros c)
  ++ data_bytes (c_bytes c).

Lemma validate_chunk_len c limits : chunk_typed c -> chunk_valid limits c ->
  c_bytes c <> [] /\ c_offset c + Z.of_nat (length (c_bytes c)) <= c_total_bytes c
  /\ c_total_bytes c <= Limits.max_encoded_access_unit_bytes (protocol limits).
Proof.
  intros (_ & _ & [Ho _] & _) H. unfold chunk_valid, validate_chunk, mbind, Result_bind, u32_try_from, ok_or, checked_add in H.
  destruct (_ || _) eqn:E; [done|]. apply orb_false_iff in E as [_ E%bool_decide_eq_false_1].
  split_matches. guards. split; [done | lia].
Qed.

Lemma chunk_data c limits : limits_ok limits -> chunk_typed c -> chunk_valid limits c ->
  data_ok (chunk_body c) /\ data_ok (c_bytes c)
  /\ Z.of_nat (length (chunk_body c)) = 28 + Z.of_nat (length (c_bytes c)).
Proof.
  intros [_ Hmax]%limits_sizes Ht Hv.
  pose proof (validate_chunk_len c limits Ht Hv) as (_ & Hlen & Hunit).
  destruct Ht as (_ & _ & [Ho _] & _ & Hb).
  assert (Z.of_nat (length (chunk_body c)) = 28 + Z.of_nat (length (c_bytes c))) as Hl
    by (unfold chunk_body, data_bytes; rewrite !length_app, !be_length; lia).
  split; [|split; [split; [done | unfold u32_max; lia] | done]].
  split; [|unfold u32_max; lia]. unfold chunk_body. rewrite !Forall_app. repeat split; auto using be_bytes.
  apply data_bytes_bytes. split; [done | unfold u32_max; lia].
Qed.

Lemma recovery_codec limits binding :
  limits_ok limits -> fits u32_max binding -> binding <> 0 ->
  media_codec limits binding Recovery RecoveryChannel chunk_typed (chunk_valid limits) chunk_body
    encode_recovery decode_recovery.
Proof.
  intros Hl Hb Hnz. apply media_codec_intro; try done.
  - intros c Ht Hv. by apply (chunk_data c limits).
  - intros c Ht Hv. pose proof (chunk_data c limits Hl Ht Hv) as (Hbody & Hd & Hlen).
    eexists. split; [|intros out; unfold encode_recovery; rewrite Hv].
    2:{ unfold checked_add. destruct (Z.leb_spec (28 + Z.of_nat (length (c_bytes c))) usize_max);
          [|destruct Hbody; unfold usize_max, u64_max, u32_max in *; lia].
        unfold record. rewrite <- Hlen. reflexivity. }
    unfold chunk_body. do 4 (apply writes_bind; [apply writes_put|]). apply writes_data, Hd.
  - intros c out _ Hv. unfold chunk_valid in Hv. unfold encode_recovery.
    destruct (validate_chunk c limits) as [[]|e]; [done | by eexists].
  - intros c r Hp. unfold decode_recovery. rewrite reading_exact. destruct r as [k bi p].
    cbn [kind payload] in *. split.
    + intros [Hk H]. run_reader H. read_inv. match goal with H : validate_chunk _ _ = Ok ?u |- _ => destruct u end.
      split; [done|]. split; [|split; [done | by rewrite app_nil_r]].
      match goal with H : data_ok _ |- _ => destruct H end. done.
    + intros (Hk & Ht & Hv & ->). split; [done|]. pose proof (chunk_data c limits Hl Ht Hv) as (_ & Hd & _).
      destruct c as [fr to off ca by_]. destruct Ht as (Hfr & Hto & Hof & Hca & Hby). cbn in Hfr, Hto, Hof, Hca, Hd.
      unfold chunk_body. cbn [c_frame c_total_bytes c_offset c_capture_micros c_bytes]. read_all.
      cbn [rfinish]. unfold lift, mbind, M_bind. by rewrite Hv.
Qed.

(** ** Progress *)

Definition progress_typed (p : Progress) : Prop :=
  descriptor_typed (p_descriptor p) /\ fits u64_max (observed_micros p).
Definition descriptor_bytes (d : FrameDescriptor) : bytes :=
  be 8 (frame d) ++ be 4 (total_bytes d) ++ be 4 (stride d) ++ be 8 (capture_micros d)
  ++ optional_bytes (reference d).
Definition observation_bytes (o : SourceObservation) : bytes := be 1 (observation_code o).
Definition pipeline_bytes (p : PipelineState) : bytes := be 1 (pipeline_code p).
Definition progress_body (p : Progress) : bytes :=
  descriptor_bytes (p_descriptor p) ++ be 8 (observed_micros p)
  ++ observation_bytes (observation p) ++ pipeline_bytes (pipeline p).

#[export] Instance read_codec limits :
  Codec (fun d => descriptor_typed d /\ validate d limits = Ok tt) descriptor_bytes (read limits).
Proof.
  split.
  - intros [fr to st ca re] r [(Hfr & Hto & Hst & Hca & Hre) Hv]. cbn in Hfr, Hto, Hst, Hca, Hre.
    unfold descriptor_bytes, read. cbn [frame total_bytes stride capture_micros reference]. read_all.
    unfold lift, mbind, M_bind. by rewrite Hv.
  - intros r d r' Hr H. unfold read in H. read_inv.
    match goal with H : validate _ _ = Ok ?u |- _ => destruct u end.
    split; [done|]. split; [|done]. unfold descriptor_bytes. by rewrite <- !app_assoc.
Qed.

#[export] Instance observation_codec :
  Codec (fun _ => True) observation_bytes read_observation.
Proof. unfold read_observation, observation_bytes. tag_codec. Qed.
#[export] Instance pipeline_codec :
  Codec (fun _ => True) pipeline_bytes read_pipeline.
Proof. unfold read_pipeline, pipeline_bytes. tag_codec. Qed.

Lemma descriptor_bytes_length d : Z.of_nat (length (descriptor_bytes d)) = encoded_len d.
Proof.
  unfold descriptor_bytes, encoded_len. rewrite !length_app, optional_bytes_length, !be_length.
  destruct (reference d); lia.
Qed.

Lemma progress_body_ok p : data_ok (progress_body p)
  /\ Z.of_nat (length (progress_body p)) = encoded_len (p_descriptor p) + 10.
Proof.
  assert (Z.of_nat (length (progress_body p)) = encoded_len (p_descriptor p) + 10) as Hl.
  { unfold progress_body, observation_bytes, pipeline_bytes. rewrite !length_app, !be_length, <- descriptor_bytes_length. lia. }
  split; [|done]. split.
  - unfold progress_body, descriptor_bytes, observation_bytes, pipeline_bytes. rewrite !Forall_app.
    auto 12 using be_bytes, optional_bytes_bytes.
  - rewrite Hl. unfold encoded_len. destruct (reference (p_descriptor p)); unfold u32_max; lia.
Qed.

Lemma progress_codec limits binding :
  limits_ok limits -> fits u32_max binding -> binding <> 0 ->
  media_codec limits binding WireRecord.Progress MediaConfig progress_typed
    (fun p => validate (p_descriptor p) limits = Ok tt) progress_body encode_progress decode_progress.
Proof.
  intros Hl Hb Hnz. apply media_codec_intro; try done.
  - intros p _ _. apply progress_body_ok.
  - intros p _ Hv. eexists. split; [|intros out; unfold encode_progress, record; rewrite Hv, <- (proj2 (progress_body_ok p)); reflexivity].
    unfold progress_body. apply writes_bind.
    + unfold write, descriptor_bytes. do 4 (apply writes_bind; [apply writes_put|]). apply writes_optional.
    + do 2 (apply writes_bind; [apply writes_put|]). apply writes_put.
  - intros p out _ Hv. unfold encode_progress. destruct (validate (p_descriptor p) limits) as [[]|e]; [done | by eexists].
  - intros p r Hp. unfold decode_progress. rewrite reading_exact. destruct r as [k bi b].
    cbn [kind payload] in *. split.
    + intros [Hk H]. run_reader H. read_inv. destruct Hok as [Hd Hv].
      split; [done|]. split; [done|]. split; [done|]. by rewrite app_nil_r.
    + intros (Hk & [Hd Hm] & Hv & ->). split; [done|].
      destruct p as [d m o st]. cbn [p_descriptor observed_micros observation pipeline] in *.
      unfold progress_body. cbn [p_descriptor observed_micros observation pipeline].
      unfold mbind, M_bind. rewrite (codec_read (m := read limits)) by done.
      rewrite (codec_read (m := ru64)) by done.
      rewrite (codec_read (m := read_observation)) by done.
      by rewrite (codec_read_all _ _ read_pipeline).
Qed.

(** ** Repair requests *)

(** The ranges of a request for [count] fragments: nonempty, ascending, disjoint and
    within the picture. *)
Fixpoint ranges_ok (previous count : Z) (l : list RepairRange) : Prop :=
  match l with
  | [] => True
  | r :: l => previous <= r_start r < r_end r /\ r_end r <= count /\ ranges_ok (r_end r) count l
  end.

Lemma validate_ranges_spec count l : forall previous,
  validate_ranges previous count l = Ok tt <-> ranges_ok previous count l.
Proof.
  induction l as [|r l IH]; intros previous; cbn; [done|]. unfold validate_range, mbind, Result_bind.
  destruct (_ || _) eqn:E.
  - split; [done|]. intros (H1 & H2 & _). rewrite !orb_true_iff in E. lia.
  - rewrite IH. guards. split; [|tauto]. intros Hl. split; [lia | split; [lia | done]].
Qed.

Definition range_bytes (r : RepairRange) : bytes := be 4 (r_start r) ++ be 4 (r_end r).
Definition range_typed (r : RepairRange) : Prop := fits u32_max (r_start r) /\ fits u32_max (r_end r).
Definition ranges_bytes (l : list RepairRange) : bytes := concat (map range_bytes l).

Lemma ranges_bytes_length l : length (ranges_bytes l) = (8 * length l)%nat.
Proof. induction l as [|r l IH]; [done|]. unfold ranges_bytes in *. cbn [map concat]. rewrite length_app, IH. change (length (range_bytes r)) with 8%nat. cbn [length]. lia. Qed.

Lemma ranges_bytes_bytes l : Forall is_byte (ranges_bytes l).
Proof.
  induction l as [|r l IH]; [constructor|]. unfold ranges_bytes, range_bytes in *. cbn [map concat].
  rewrite !Forall_app. auto using be_bytes.
Qed.

Lemma ranges_of_bytes l : Forall range_typed l -> ranges_of (length l) (ranges_bytes l) = l.
Proof.
  induction 1 as [|[s e] l [Hs He] Hl IH]; [done|]. cbn [length ranges_of].
  rewrite ranges_bytes_length. cbn [length]. destruct (Nat.ltb_spec (8 * S (length l)) 8); [lia|].
  unfold ranges_bytes, range_bytes in *. cbn [map concat r_start r_end] in *. rewrite <- !app_assoc.
  unfold slice. cbn [Nat.sub]. rewrite drop_0, take_app_length' by done.
  replace (drop 4 (be 4 s ++ be 4 e ++ concat (map (fun r => be 4 (r_start r) ++ be 4 (r_end r)) l)))
    with (be 4 e ++ concat (map (fun r => be 4 (r_start r) ++ be 4 (r_end r)) l)) by done.
  rewrite take_app_length' by done. rewrite !of_be_be_id by (unfold fits, u32_max in *; cbn in *; lia).
  f_equal. exact IH.
Qed.

Lemma bytes_ranges n : forall b, Forall is_byte b -> length b = (8 * n)%nat ->
  exists l, length l = n /\ Forall range_typed l /\ b = ranges_bytes l.
Proof.
  induction n as [|n IH]; intros b Hb Hl; [exists []; by destruct b|].
  destruct (IH (drop 8 b)) as (l & Hn & Ht & Hd); [by apply Forall_drop | rewrite length_drop; lia|].
  exists (mk_range (of_be (take 4 b)) (of_be (take 4 (drop 4 b))) :: l).
  assert (forall c, Forall is_byte c -> length c = 4%nat -> fits u32_max (of_be c) /\ be 4 (of_be c) = c) as Hw.
  { intros c Hc Hcl. pose proof (of_be_bound c Hc) as Hbound. rewrite Hcl in Hbound.
    split; [unfold fits, u32_max; cbn in Hbound; lia|]. rewrite <- Hcl. by apply be_of_be. }
  destruct (Hw (take 4 b)) as [H1 H2]; [by apply Forall_take | rewrite length_take; lia|].
  destruct (Hw (take 4 (drop 4 b))) as [H3 H4]; [by apply Forall_take, Forall_drop | rewrite length_take, length_drop; lia|].
  split; [cbn; congruence|]. split; [by constructor|].
  unfold ranges_bytes, range_bytes in *. cbn [map concat r_start r_end]. rewrite H2, H4, <- Hd, <- app_assoc.
  change (drop 8 b) with (drop (4 + 4) b). rewrite <- drop_drop, !take_drop. done.
Qed.

Definition Repair_message : Type := Z * list RepairRange.
Definition repair_typed (m : Repair_message) : Prop := fits u64_max (fst m) /\ Forall range_typed (snd m).
Definition repair_valid (limits : MediaLimits) (count : Z) (m : Repair_message) : Prop :=
  snd m <> [] /\ Z.of_nat (length (snd m)) <= repair_ranges limits /\ 0 < count <= fragments limits
  /\ ranges_ok 0 count (snd m).
Definition repair_body (m : Repair_message) : bytes :=
  be 8 (fst m) ++ be 4 (Z.of_nat (length (snd m))) ++ ranges_bytes (snd m).

(** The ranges an accepted request yields to its reader. *)
Definition decode_ranges (count : Z) (r : WireRecord) (limits : MediaLimits)
  : Result WireError Repair_message :=
  q ← decode_repair r count limits; Ok (q_frame q, ranges q).

Lemma writes_ranges l : writes (write_ranges l) (ranges_bytes l).
Proof.
  induction l as [|r l IH]; [apply writes_ret|]. cbn [write_ranges]. unfold ranges_bytes, range_bytes in *.
  cbn [map concat]. rewrite <- app_assoc. do 2 (apply writes_bind; [apply writes_put|]). exact IH.
Qed.

Lemma repair_body_ok limits count m : limits_ok limits -> repair_valid limits count m ->
  data_ok (repair_body m) /\ Z.of_nat (length (repair_body m)) = 12 + Z.of_nat (length (snd m)) * 8
  /\ 0 < Z.of_nat (length (snd m)) <= 64.
Proof.
  intros (_ & _ & _ & Hr) (Hne & Hlen & _).
  assert (Z.of_nat (length (repair_body m)) = 12 + Z.of_nat (length (snd m)) * 8) as Hl.
  { unfold repair_body. rewrite !length_app, !be_length, ranges_bytes_length. lia. }
  unfold MAX_REPAIR_RANGES in Hr. split; [|split; [done|]].
  - split; [|rewrite Hl; unfold u32_max; lia]. unfold repair_body. rewrite !Forall_app.
    auto using be_bytes, ranges_bytes_bytes.
  - destruct m as [fr l]. cbn [snd] in *. destruct l; [done | cbn [length] in *; lia].
Qed.

Lemma ranges_bytes_read m l : Forall range_typed l -> ranges (mk_request m (ranges_bytes l)) = l.
Proof.
  intros Ht. unfold ranges. cbn [q_ranges]. rewrite ranges_bytes_length.
  rewrite Nat.mul_comm, Nat.div_mul by lia. by apply ranges_of_bytes.
Qed.

Lemma decode_ranges_exact limits count m r :
  limits_ok limits -> 0 <= count -> Forall is_byte (payload r) ->
  decode_ranges count r limits = Ok m <->
  kind r = Repair /\ repair_typed m /\ repair_valid limits count m /\ payload r = repair_body m.
Proof.
  intros Hl Hcount Hp. unfold decode_ranges, decode_repair. destruct r as [k bi p]. cbn [kind payload] in *. split.
  - intros H. apply Result_bind_Ok in H as (q & Er & [= <-]). destruct (_ || _) eqn:E; [done|]. guards.
    apply reading_exact in Er as [Hk Hrun]. cbn [kind payload] in *. run_reader Hrun. read_inv. guards.
    match goal with H : ok_or _ _ = Ok _ |- _ => unfold ok_or, checked_mul in H; split_matches end.
    match goal with H : rtake _ _ = _ |- _ => apply rtake_exact in H as [-> Hn]; [|destruct Hok0; lia] end.
    rewrite app_nil_r in *. match goal with H : validate_ranges _ _ _ = Ok ?u |- _ => destruct u; rename H into Hv end.
    destruct (bytes_ranges (Z.to_nat v0) v3) as (l & Hlen & Ht & ->); [done | destruct Hok0; lia|].
    rewrite ranges_bytes_read in * by done. apply validate_ranges_spec in Hv. cbn [q_frame].
    split; [done|]. split; [done|]. split.
    + destruct Hok0. split; [destruct l; cbn [length snd] in *; [lia | done]|]. cbn [snd].
      split; [lia | split; [lia | done]].
    + unfold repair_body. cbn [fst snd]. replace (Z.of_nat (length l)) with v0 by (destruct Hok0; lia). done.
  - intros (Hk & [Hf Ht] & Hv & ->). pose proof (repair_body_ok limits count m Hl Hv) as (_ & _ & Hn).
    destruct Hv as (Hne & Hlen & Hc & Hr). destruct m as [fr l]. cbn [fst snd] in *.
    replace ((count =? 0) || (fragments limits <? count)) with false by lia.
    match goal with |- context [reading ?r ?k ?b] =>
      assert (reading r k b = Ok (mk_request fr (ranges_bytes l))) as -> end.
    { apply reading_exact. split; [done|]. cbn [payload]. unfold repair_body. cbn [fst snd].
      read_all. unfold mbind, M_bind, refuse_if. replace (_ || _) with false by lia.
      unfold lift at 1, ok_or, checked_mul.
      destruct (Z.leb_spec (Z.of_nat (length l) * 8) usize_max); [|unfold usize_max, u64_max in *; lia].
      rewrite <- (app_nil_r (ranges_bytes l)) at 1.
      rewrite rtake_app by (rewrite ranges_bytes_length; lia). cbn [rfinish].
      rewrite ranges_bytes_read by done. unfold lift. apply validate_ranges_spec in Hr. by rewrite Hr. }
    unfold mbind, Result_bind. cbn [q_frame]. by rewrite ranges_bytes_read.
Qed.

Lemma repair_codec limits count binding :
  limits_ok limits -> 0 <= count -> fits u32_max binding -> binding <> 0 ->
  media_codec limits binding Repair Control repair_typed (repair_valid limits count) repair_body
    (fun m => encode_repair (fst m) (snd m) count) (decode_ranges count).
Proof.
  intros Hl Hcount Hb Hnz. apply media_codec_intro; try done.
  - intros m _ Hv. by apply (repair_body_ok limits count).
  - intros m _ Hv. pose proof (repair_body_ok limits count m Hl Hv) as (_ & Hlen & Hn).
    destruct Hv as (Hne & Hmax & Hc & Hr). apply validate_ranges_spec in Hr.
    eexists. split; [|intros out; unfold encode_repair].
    2:{ rewrite bool_decide_eq_false_2 by done. cbn [orb]. replace (_ || _) with false by lia.
        rewrite Hr, <- Hlen. reflexivity. }
    unfold repair_body. apply writes_bind; [apply writes_put|].
    eapply writes_lift; [unfold u32_try_from; by replace (Z.of_nat (length (snd m)) <=? u32_max) with true by (unfold u32_max; lia)|].
    apply writes_bind; [apply writes_put | apply writes_ranges].
  - intros m out _ Hv. unfold encode_repair. destruct (_ || _) eqn:E; [by eexists|].
    destruct (validate_ranges 0 count (snd m)) as [[]|e] eqn:Er; [|by eexists].
    destruct Hv. apply validate_ranges_spec in Er. guards.
    split; [by eapply bool_decide_eq_false_1|]. split; [lia|]. split; [lia | done].
  - intros m r Hp. by apply decode_ranges_exact.
Qed.

(** The media codecs are exact.  On the channel of a session, each of the four
    media messages that its validator accepts (fragments, recovery chunks,
    progress, repair ranges) is written as one determined frame and read back
    unchanged; an invalid one is refused before the buffer is touched; and
    whatever a decoder accepts is the frame of a valid message, so no two messages
    share a frame and no message has two. *)
Theorem media_messages_are_exact limits binding count :
  limits_ok limits -> fits u32_max binding -> binding <> 0 -> 0 <= count ->
  media_codec limits binding WireRecord.Fragment Video fragment_typed
    (fun f => validate_fragment f limits = Ok tt) fragment_body encode_fragment decode_fragment
  /\ media_codec limits binding Recovery RecoveryChannel chunk_typed (chunk_valid limits) chunk_body
       encode_recovery decode_recovery
  /\ media_codec limits binding WireRecord.Progress MediaConfig progress_typed
       (fun p => validate (p_descriptor p) limits = Ok tt) progress_body encode_progress decode_progress
  /\ media_codec limits binding Repair Control repair_typed (repair_valid limits count) repair_body
       (fun m => encode_repair (fst m) (snd m) count) (decode_ranges count).
Proof.
  auto using fragment_codec, recovery_codec, progress_codec, repair_codec.
Qed.

Lemma demo_limits_ok : limits_ok demo_limits.
Proof.
  split; [apply Limits.absolute_valid|]. unfold FRAGMENT_OVERHEAD, MAX_FRAGMENTS, MAX_REPAIR_RANGES.
  cbn. lia.
Qed.

Lemma media_messages_are_exact_witness :
  on_channel decode_fragment demo_limits 7 Video
    (frame_of WireRecord.Fragment 7 (fragment_body (mk_fragment demo_descriptor 2 [1; 2; 3])) [])
  = Ok (mk_fragment demo_descriptor 2 [1; 2; 3]).
Proof.
  destruct (media_messages_are_exact demo_limits 7 0 demo_limits_ok) as [H _]; [by vm_compute | done | done|].
  apply (codec_reads _ _ _ _ _ _ _ _ H).
  - split; [repeat split; vm_compute; discriminate|]. split; [by vm_compute|].
    split; [|by vm_compute]. repeat constructor; by vm_compute.
  - vm_compute. reflexivity.
  - vm_compute. discriminate.
Defined.

End MediaProps.
