(* ===== verification/Utf8.v ===== *)
(** * UTF-8

    [str::as_bytes] and [core::str::from_utf8] of the standard library, which the
    text messages use: the encoding of a sequence of Unicode scalars and the
    validating decoder, inverse to each other. *)

From S2P Require Import Prelude.
From S2P Require Import Bytes.
From S2P Require Import InputModel.

Definition scalar (c : Z) : Prop := 0 <= c < 0xD800 \/ 0xDFFF < c <= 0x10FFFF.

Definition encode_scalar (c : Z) : bytes :=
  if c <? 0x80 then [c]
  else if c <? 0x800 then [0xC0 + c / 64; 0x80 + c mod 64]
  else if c <? 0x10000 then [0xE0 + c / 4096; 0x80 + c / 64 mod 64; 0x80 + c mod 64]
  else [0xF0 + c / 262144; 0x80 + c / 4096 mod 64; 0x80 + c / 64 mod 64; 0x80 + c mod 64].

Definition utf8 (t : list Z) : bytes := concat (map encode_scalar t).

Definition between (lo hi b : Z) : bool := (lo <=? b) && (b <=? hi).
Definition continuation (b : Z) : bool := between 0x80 0xBF b.

(** The second byte a leading byte of three or four bytes allows: no overlong
    forms, no surrogates, nothing beyond the last scalar. *)
Definition second3 (b0 b1 : Z) : bool :=
  if b0 =? 0xE0 then between 0xA0 0xBF b1 else if b0 =? 0xED then between 0x80 0x9F b1
  else continuation b1.
Definition second4 (b0 b1 : Z) : bool :=
  if b0 =? 0xF0 then between 0x90 0xBF b1 else if b0 =? 0xF4 then between 0x80 0x8F b1
  else continuation b1.

Fixpoint from_utf8 (b : bytes) : option (list Z) :=
  match b with
  | [] => Some []
  | b0 :: r =>
      if b0 <? 0x80 then cons b0 <$> from_utf8 r
      else if between 0xC2 0xDF b0 then
        match r with
        | b1 :: r =>
            if continuation b1 then cons ((b0 - 0xC0) * 64 + (b1 - 0x80)) <$> from_utf8 r else None
        | _ => None
        end
      else if between 0xE0 0xEF b0 then
        match r with
        | b1 :: b2 :: r =>
            if second3 b0 b1 && continuation b2
            then cons ((b0 - 0xE0) * 4096 + (b1 - 0x80) * 64 + (b2 - 0x80)) <$> from_utf8 r else None
        | _ => None
        end
      else if between 0xF0 0xF4 b0 then
        match r with
        | b1 :: b2 :: b3 :: r =>
            if second4 b0 b1 && continuation b2 && continuation b3
            then cons ((b0 - 0xF0) * 262144 + (b1 - 0x80) * 4096 + (b2 - 0x80) * 64 + (b3 - 0x80))
                   <$> from_utf8 r else None
        | _ => None
        end
      else None
  end.

Ltac solve_utf8 :=
  unfold second3, second4, continuation, between, scalar, is_byte, fits, u8_max in *;
  repeat match goal with |- context [if ?c then _ else _] => destruct c eqn:? end;
  repeat match goal with H : context [if ?c then _ else _] |- _ => destruct c eqn:? end;
  Z.to_euclidean_division_equations; try lia.

Lemma encode_scalar_bytes c : scalar c -> Forall is_byte (encode_scalar c).
Proof.
  intros Hc. unfold encode_scalar. repeat case_match; repeat constructor; solve_utf8.
Qed.

Lemma encode_scalar_length c : scalar c -> Z.of_nat (length (encode_scalar c)) = utf8_len c.
Proof. intros _. unfold encode_scalar, utf8_len. by repeat case_match. Qed.

Lemma from_utf8_step c r : scalar c -> from_utf8 (encode_scalar c ++ r) = cons c <$> from_utf8 r.
Proof.
  intros Hc. unfold encode_scalar.
  destruct (Z.ltb_spec c 0x80); [cbn [app from_utf8]; by replace (c <? 128) with true by lia|].
  destruct (Z.ltb_spec c 0x800); [|destruct (Z.ltb_spec c 0x10000)]; cbn [app from_utf8].
  - replace (0xC0 + c / 64 <? 0x80) with false by solve_utf8.
    replace (between 0xC2 0xDF (0xC0 + c / 64)) with true by solve_utf8.
    replace (continuation (0x80 + c mod 64)) with true by solve_utf8.
    do 2 f_equal. solve_utf8.
  - replace (0xE0 + c / 4096 <? 0x80) with false by solve_utf8.
    replace (between 0xC2 0xDF (0xE0 + c / 4096)) with false by solve_utf8.
    replace (between 0xE0 0xEF (0xE0 + c / 4096)) with true by solve_utf8.
    replace (second3 (0xE0 + c / 4096) (0x80 + c / 64 mod 64) && continuation (0x80 + c mod 64))
      with true by solve_utf8.
    do 2 f_equal. solve_utf8.
  - replace (0xF0 + c / 262144 <? 0x80) with false by solve_utf8.
    replace (between 0xC2 0xDF (0xF0 + c / 262144)) with false by solve_utf8.
    replace (between 0xE0 0xEF (0xF0 + c / 262144)) with false by solve_utf8.
    replace (between 0xF0 0xF4 (0xF0 + c / 262144)) with true by solve_utf8.
    replace (second4 (0xF0 + c / 262144) (0x80 + c / 4096 mod 64)
             && continuation (0x80 + c / 64 mod 64) && continuation (0x80 + c mod 64))
      with true by solve_utf8.
    do 2 f_equal. solve_utf8.
Qed.

Lemma from_utf8_utf8 t : Forall scalar t -> from_utf8 (utf8 t) = Some t.
Proof.
  induction 1 as [|c t Hc _ IH]; [done|]. unfold utf8 in *. cbn [map concat].
  by rewrite from_utf8_step, IH.
Qed.

(** The scalar a sequence of leading and continuation bytes stands for is encoded
    by exactly these bytes. *)
Lemma two_bytes b0 b1 : between 0xC2 0xDF b0 = true -> continuation b1 = true ->
  let c := (b0 - 0xC0) * 64 + (b1 - 0x80) in scalar c /\ encode_scalar c = [b0; b1].
Proof.
  intros H0 H1 c. assert (0x80 <= c < 0x800 /\ c / 64 = b0 - 0xC0 /\ c mod 64 = b1 - 0x80) as (Hc & E1 & E2)
    by (unfold c; solve_utf8).
  split; [unfold scalar; lia|]. unfold encode_scalar. rewrite E1, E2.
  destruct (Z.ltb_spec c 0x80); [lia|]. destruct (Z.ltb_spec c 0x800); [|lia]. repeat f_equal; lia.
Qed.

Lemma three_bytes b0 b1 b2 :
  between 0xE0 0xEF b0 = true -> second3 b0 b1 && continuation b2 = true ->
  let c := (b0 - 0xE0) * 4096 + (b1 - 0x80) * 64 + (b2 - 0x80) in
  scalar c /\ encode_scalar c = [b0; b1; b2].
Proof.
  intros H0 H1 c.
  assert (0x800 <= c < 0x10000 /\ scalar c /\ c / 4096 = b0 - 0xE0 /\ c / 64 mod 64 = b1 - 0x80
          /\ c mod 64 = b2 - 0x80) as (Hc & Hs & E1 & E2 & E3) by (unfold c; solve_utf8).
  split; [done|]. unfold encode_scalar. rewrite E1, E2, E3.
  destruct (Z.ltb_spec c 0x80); [lia|]. destruct (Z.ltb_spec c 0x800); [lia|].
  destruct (Z.ltb_spec c 0x10000); [|lia]. repeat f_equal; lia.
Qed.

Lemma four_bytes b0 b1 b2 b3 :
  between 0xF0 0xF4 b0 = true -> second4 b0 b1 && continuation b2 && continuation b3 = true ->
  let c := (b0 - 0xF0) * 262144 + (b1 - 0x80) * 4096 + (b2 - 0x80) * 64 + (b3 - 0x80) in
  scalar c /\ encode_scalar c = [b0; b1; b2; b3].
Proof.
  intros H0 H1 c.
  assert (0x10000 <= c <= 0x10FFFF /\ c / 262144 = b0 - 0xF0 /\ c / 4096 mod 64 = b1 - 0x80
          /\ c / 64 mod 64 = b2 - 0x80 /\ c mod 64 = b3 - 0x80) as (Hc & E1 & E2 & E3 & E4)
    by (unfold c; solve_utf8).
  split; [unfold scalar; lia|]. unfold encode_scalar. rewrite E1, E2, E3, E4.
  destruct (Z.ltb_spec c 0x80); [lia|]. destruct (Z.ltb_spec c 0x800); [lia|].
  destruct (Z.ltb_spec c 0x10000); [lia|]. repeat f_equal; lia.
Qed.

Lemma utf8_from_utf8 n : forall b t, (length b <= n)%nat -> Forall is_byte b -> from_utf8 b = Some t ->
  Forall scalar t /\ utf8 t = b.
Proof.
  induction n as [|n IH]; intros b t Hn Hb H; [destruct b; [by injection H as <- | cbn in Hn; lia]|].
  assert (forall c e r, (length r <= n)%nat -> Forall is_byte r -> b = e ++ r ->
            scalar c /\ encode_scalar c = e -> cons c <$> from_utf8 r = Some t ->
            Forall scalar t /\ utf8 t = b) as Hcons.
  { intros c e r Hr Hrb -> [Hs <-] Ht. apply fmap_Some in Ht as (t' & Ht & ->).
    destruct (IH r t' Hr Hrb Ht) as [Hst <-]. split; [by constructor | done]. }
  destruct b as [|b0 r]; [by injection H as <-|]. cbn [from_utf8 length] in *.
  apply Forall_cons in Hb as [Hb0 Hb].
  destruct (b0 <? 128) eqn:E0.
  { eapply (Hcons b0 [b0] r); [lia | done | done | | done].
    split; [solve_utf8|]. unfold encode_scalar. by rewrite E0. }
  destruct (between 0xC2 0xDF b0) eqn:E1.
  { destruct r as [|b1 r]; [done|]. destruct (continuation b1) eqn:C1; [|done].
    apply Forall_cons in Hb as [_ Hb]. cbn [length] in Hn.
    eapply (Hcons _ [b0; b1] r); [lia | done | done | by apply two_bytes | done]. }
  destruct (between 0xE0 0xEF b0) eqn:E2.
  { destruct r as [|b1 [|b2 r]]; [done..|]. destruct (second3 b0 b1 && continuation b2) eqn:C1; [|done].
    apply Forall_cons in Hb as [_ Hb]. apply Forall_cons in Hb as [_ Hb]. cbn [length] in Hn.
    eapply (Hcons _ [b0; b1; b2] r); [lia | done | done | by apply three_bytes | done]. }
  destruct (between 0xF0 0xF4 b0) eqn:E3; [|done].
  destruct r as [|b1 [|b2 [|b3 r]]]; [done..|].
  destruct (second4 b0 b1 && continuation b2 && continuation b3) eqn:C1; [|done].
  do 3 apply Forall_cons in Hb as [_ Hb]. cbn [length] in Hn.
  eapply (Hcons _ [b0; b1; b2; b3] r); [lia | done | done | by apply four_bytes | done].
Qed.

Lemma from_utf8_exact b t : Forall is_byte b -> from_utf8 b = Some t <-> Forall scalar t /\ b = utf8 t.
Proof.
  intros Hb. split.
  - intros H. by destruct (utf8_from_utf8 _ b t (le_n _) Hb H) as [? <-].
  - intros [Ht ->]. by apply from_utf8_utf8.
Qed.

Lemma utf8_bytes t : Forall scalar t -> Forall is_byte (utf8 t).
Proof.
  induction 1 as [|c t Hc _ IH]; [constructor|]. unfold utf8 in *. cbn [map concat].
  apply Forall_app. auto using encode_scalar_bytes.
Qed.

Lemma utf8_length t : Forall scalar t -> Z.of_nat (length (utf8 t)) = text_len t.
Proof.
  induction 1 as [|c t Hc _ IH]; [done|]. unfold utf8 in *. cbn [map concat text_len foldr].
  rewrite length_app, Nat2Z.inj_add, IH, encode_scalar_length by done. done.
Qed.
