(* ===== verification/WireInput.v ===== *)
(** * Input messages

    [fr-wire/src/input.rs], [held_state.rs] and [input_ticket.rs]: the messages of a
    controlling session, with the direction and delivery each of them requires. *)

From S2P Require Import Prelude.
From S2P Require Import Bytes.
From S2P Require Import CoreTime.
From S2P Require Import Limits.
From S2P Require Import InputModel.
From S2P Require Import Utf8.
From S2P Require Import WireRecord.

Inductive InputDirection := ViewerToHost | HostToViewer.
Inductive InputDelivery := Reliable | Datagram.
#[export] Instance InputDirection_eq_dec : EqDecision InputDirection.
Proof. solve_decision. Defined.
#[export] Instance InputDelivery_eq_dec : EqDecision InputDelivery.
Proof. solve_decision. Defined.

Definition is_direction (a b : InputDirection) : bool := bool_decide (a = b).
Definition is_delivery (a b : InputDelivery) : bool := bool_decide (a = b).

(** ** Fields the messages share *)

(** The 16-byte identifiers, each module's [id] or [opaque]. *)
Definition opaque : M Reader WireError Z := b ← rtake 16; mret (of_be b).
Definition wu128 (v : Z) : M Writer WireError unit := wput (be 16 v).

(** [cast_signed] and [cast_unsigned] at 32 and 64 bits. *)
Definition cast_signed (w : Z) (v : Z) : Z := if 2 ^ (w - 1) <=? v then v - 2 ^ w else v.
Definition cast_unsigned (w : Z) (v : Z) : Z := v mod 2 ^ w.
Definition ri32 : M Reader WireError Z := v ← ru32; mret (cast_signed 32 v).
Definition ri64 : M Reader WireError Z := v ← ru64; mret (cast_signed 64 v).
Definition wi32 (v : Z) : M Writer WireError unit := wu32 (cast_unsigned 32 v).
Definition wi64 (v : Z) : M Writer WireError unit := wu64 (cast_unsigned 64 v).

Definition control_bytes (limits : Limits.ProtocolLimits) : Z := Limits.max_control_message_bytes limits.

(** ** Input events *)

Module InputMsg.

Definition INPUT_PREFIX_BYTES : Z := 88.
Definition KEYBOARD_USAGE_PAGE : Z := 7.
Definition MAX_TEXT_BYTES : Z := MAX_COMMITTED_TEXT_BYTES.

Definition kind (e : InputEvent) : Kind :=
  match e with
  | EvKey _ _ => Key
  | EvButton _ _ _ _ => Button
  | EvPointer _ => Pointer
  | EvRelative _ _ _ => Relative
  | EvScroll _ _ _ _ _ => Scroll
  | EvText _ => Text
  | EvMode _ _ => InputMode
  end.

Definition validate_route (direction : InputDirection) (delivery : InputDelivery) (k : Kind)
  : Result WireError unit :=
  if negb (is_direction direction ViewerToHost) then Err WrongRole
  else if is_delivery delivery Datagram && negb (bool_decide (k = Pointer)) then Err WrongChannel
  else Ok tt.

Definition point : M Reader WireError DesktopPoint := x ← ri32; y ← ri32; mret (mkPoint x y).
Definition put_point (p : DesktopPoint) : M Writer WireError unit := _ ← wi32 (px p); wi32 (py p).
Definition boolean : M Reader WireError bool :=
  v ← ru8; match v with 0 => mret false | 1 => mret true | _ => fail InvalidValue end.

(** The discriminants. *)
Definition transition_code (t : KeyTransition) : Z :=
  match t with Release => 0 | Press => 1 | Repeat => 2 end.
Definition button_code (b : PointerButton) : Z :=
  match b with Primary => 1 | Secondary => 2 | Middle => 3 | Back => 4 | Forward => 5 end.
Definition unit_code (u : ScrollUnit) : Z := match u with Pixels => 0 | Lines => 1 end.
Definition mode_code (m : PointerMode) : Z := match m with AbsoluteMode => 0 | RelativeMode => 1 end.

Definition read_transition : M Reader WireError KeyTransition :=
  v ← ru8; match v with 0 => mret Release | 1 => mret Press | 2 => mret Repeat | _ => fail InvalidValue end.
Definition read_button : M Reader WireError PointerButton :=
  v ← ru8; match v with 1 => mret Primary | 2 => mret Secondary | 3 => mret Middle | 4 => mret Back
                   | 5 => mret Forward | _ => fail InvalidValue end.
Definition read_unit : M Reader WireError ScrollUnit :=
  v ← ru8; match v with 0 => mret Pixels | 1 => mret Lines | _ => fail InvalidValue end.
Definition read_mode : M Reader WireError PointerMode :=
  v ← ru8; match v with 0 => mret AbsoluteMode | 1 => mret RelativeMode | _ => fail InvalidValue end.

Definition read_credentials : M Reader WireError InputCredentials :=
  session ← opaque; lease ← opaque; ticket ← opaque;
  g ← ru64; v ← ru64; c ← ru64; r ← ru64;
  mret (Credentials.mkCredentials session lease ticket (mkView g v c r)).

(** The event of a record of kind [k]. *)
Definition read_event (k : Kind) : M Reader WireError InputEvent :=
  match k with
  | Key =>
      page ← ru16;
      _ ← refuse_if (fun _ => negb (page =? KEYBOARD_USAGE_PAGE)) (fun _ => InvalidValue);
      usage ← ru16;
      key ← lift (ok_or (physical_key usage) InvalidValue);
      t ← read_transition;
      mret (EvKey key t)
  | Button =>
      b ← read_button; pressed ← boolean; p ← point; barrier ← ru64;
      mret (EvButton b pressed p barrier)
  | Pointer => p ← point; mret (EvPointer p)
  | Relative => e ← ru64; x ← ri64; y ← ri64; mret (EvRelative e x y)
  | Scroll =>
      p ← point; barrier ← ru64; x ← ri32; y ← ri32; u ← read_unit;
      mret (EvScroll p barrier x y u)
  | Text =>
      text ← rdata;
      _ ← refuse_if (fun _ => bool_decide (text = []) || (MAX_TEXT_BYTES <? Z.of_nat (length text)))
                    (fun _ => ResourceLimit);
      t ← lift (ok_or (from_utf8 text) InvalidValue);
      mret (EvText t)
  | InputMode => m ← read_mode; e ← ru64; mret (EvMode m e)
  | _ => fail UnsupportedKind
  end.

Definition decode_input (b : bytes) (limits : Limits.ProtocolLimits) (binding : Z)
  (direction : InputDirection) (delivery : InputDelivery) : Result WireError InputRequest :=
  if negb (is_direction direction ViewerToHost) then Err WrongRole
  else
    r ← decode_bounded b (control_bytes limits) binding None;
    let k := WireRecord.kind r in
    _ ← validate_route direction delivery k;
    reading r k
      (c ← read_credentials;
       sequence ← ru64;
       e ← read_event k;
       _ ← rfinish;
       mret (mkRequest c sequence e)).

(** The bytes of an event after the prefix; text has its own bounds. *)
Definition event_size (e : InputEvent) : Result WireError Z :=
  match e with
  | EvKey _ _ => Ok 5
  | EvButton _ _ _ _ => Ok 18
  | EvPointer _ => Ok 8
  | EvRelative _ _ _ => Ok 24
  | EvScroll _ _ _ _ _ => Ok 25
  | EvMode _ _ => Ok 9
  | EvText text =>
      if bool_decide (text = []) || (MAX_TEXT_BYTES <? text_len text) then Err ResourceLimit
      else Ok (4 + text_len text)
  end.

(** The identifiers and generations are written in a loop each. *)
Definition write_credentials (c : InputCredentials) (sequence : Z) : M Writer WireError unit :=
  _ ← wu128 (Credentials.session c); _ ← wu128 (Credentials.lease c); _ ← wu128 (Credentials.ticket c);
  _ ← wu64 (geometry (Credentials.view c)); _ ← wu64 (viewport (Credentials.view c));
  _ ← wu64 (configuration (Credentials.view c)); _ ← wu64 (recovery (Credentials.view c));
  wu64 sequence.

Definition write_event (e : InputEvent) : M Writer WireError unit :=
  match e with
  | EvKey key t => _ ← wu16 KEYBOARD_USAGE_PAGE; _ ← wu16 key; wu8 (transition_code t)
  | EvButton b pressed p barrier =>
      _ ← wu8 (button_code b); _ ← wu8 (if pressed then 1 else 0); _ ← put_point p; wu64 barrier
  | EvPointer p => put_point p
  | EvRelative e x y => _ ← wu64 e; _ ← wi64 x; wi64 y
  | EvScroll p barrier x y u => _ ← put_point p; _ ← wu64 barrier; _ ← wi32 x; _ ← wi32 y; wu8 (unit_code u)
  | EvText text => wdata (utf8 text)
  | EvMode m e => _ ← wu8 (mode_code m); wu64 e
  end.

Definition encode_input (rq : InputRequest) (out : bytes) (limits : Limits.ProtocolLimits) (binding : Z)
  (direction : InputDirection) (delivery : InputDelivery) : Result WireError Z * bytes :=
  let k := kind (event rq) in
  match validate_route direction delivery k with
  | Err e => (Err e, out)
  | Ok _ =>
      match event_size (event rq) with
      | Err e => (Err e, out)
      | Ok size =>
          record_bounded out (control_bytes limits) binding k (INPUT_PREFIX_BYTES + size)
            (_ ← write_credentials (credentials rq) (rq_sequence rq); write_event (event rq))
      end
  end.

End InputMsg.

(** ** Held state *)

Module HeldMsg.
Import Held.

Definition HELD_STATE_BYTES : Z := 24 + 16 + 16 + 8 + 8 + 32 + 1.

Definition role (direction : InputDirection) (delivery : InputDelivery) : Result WireError unit :=
  if negb (is_direction direction ViewerToHost) then Err WrongRole
  else if negb (is_delivery delivery Reliable) then Err WrongChannel else Ok tt.

Definition valid (rq : HeldStateRequest) (binding : Z) : Result WireError unit :=
  if (binding =? 0) || (hs_session rq =? 0) || (hs_lease rq =? 0) then Err InvalidBinding else Ok tt.

Definition encode (rq : HeldStateRequest) (out : bytes) (limits : Limits.ProtocolLimits) (binding : Z)
  (direction : InputDirection) (delivery : InputDelivery) : Result WireError Z * bytes :=
  match (_ ← role direction delivery; valid rq binding) with
  | Err e => (Err e, out)
  | Ok _ =>
      record_bounded out (control_bytes limits) binding WireRecord.HeldState (HELD_STATE_BYTES - 24)
        (_ ← wu128 (hs_session rq); _ ← wu128 (hs_lease rq); _ ← wu64 (hs_sequence rq);
         _ ← wu64 (next_action rq); _ ← wput (keys (held rq)); wu8 (buttons (held rq)))
  end.

Definition decode (b : bytes) (limits : Limits.ProtocolLimits) (binding : Z)
  (direction : InputDirection) (delivery : InputDelivery) : Result WireError HeldStateRequest :=
  _ ← role direction delivery;
  r ← decode_bounded b (control_bytes limits) binding None;
  rq ← reading r WireRecord.HeldState
         (session ← opaque; lease ← opaque; sequence ← ru64; next_action ← ru64;
          keys ← rtake (Z.of_nat KEY_BITMAP_BYTES);
          buttons ← ru8;
          held ← lift (ok_or (from_bits keys buttons) InvalidValue);
          _ ← rfinish;
          mret (mkHeldRequest session lease sequence next_action held));
  _ ← valid rq binding;
  Ok rq.

End HeldMsg.

(** ** Tickets *)

Module TicketMsg.

Definition INPUT_TICKET_BYTES : Z := 24 + 104.
Definition AUTHORITY_TICKET_BYTES : Z := INPUT_TICKET_BYTES + 8.
Definition READINESS_TICKET_BYTES : Z := AUTHORITY_TICKET_BYTES + 8.
Definition MAX_TICKET_LIFETIME_US : Z := 1500000.
Definition MAX_LEASE_LIFETIME_US : Z := 3000000.

Record Ticket := mk_ticket {
  t_credentials : InputCredentials; t_sequence : Z; issued_at_us : Z; expires_at_us : Z }.
Record AuthorityTicket := mk_authority_ticket { ticket : Ticket; authority_until_us : Z }.
Record ReadinessTicket := mk_readiness_ticket { authority : AuthorityTicket; presented_sequence : Z }.

Definition role (direction : InputDirection) (delivery : InputDelivery) : Result WireError unit :=
  if negb (is_direction direction HostToViewer) then Err WrongRole
  else if negb (is_delivery delivery Reliable) then Err WrongChannel else Ok tt.

Definition within (lo hi : Z) (o : option Z) : bool := is_some_and (fun n => (lo <=? n) && (n <=? hi)) o.

Definition valid (t : Ticket) (channel : Z) : Result WireError unit :=
  let c := t_credentials t in
  if (channel =? 0) || (Credentials.session c =? 0) || (Credentials.lease c =? 0)
     || (Credentials.ticket c =? 0) then Err InvalidBinding
  else if negb (within 1 MAX_TICKET_LIFETIME_US (checked_sub (expires_at_us t) (issued_at_us t)))
  then Err InvalidValue else Ok tt.

Definition valid_authority (t : AuthorityTicket) (channel : Z) : Result WireError unit :=
  _ ← valid (ticket t) channel;
  if (authority_until_us t <? expires_at_us (ticket t))
     || negb (within 1 MAX_LEASE_LIFETIME_US (checked_sub (authority_until_us t) (issued_at_us (ticket t))))
  then Err InvalidValue else Ok tt.

Definition valid_readiness (t : ReadinessTicket) (channel : Z) : Result WireError unit :=
  _ ← valid_authority (authority t) channel;
  if presented_sequence t =? 0 then Err InvalidValue else Ok tt.

Definition write_body (t : Ticket) : M Writer WireError unit :=
  _ ← InputMsg.write_credentials (t_credentials t) (t_sequence t);
  _ ← wu64 (issued_at_us t); wu64 (expires_at_us t).
Definition read_body : M Reader WireError Ticket :=
  c ← InputMsg.read_credentials; s ← ru64; i ← ru64; e ← ru64; mret (mk_ticket c s i e).
Definition write_authority_body (t : AuthorityTicket) : M Writer WireError unit :=
  _ ← write_body (ticket t); wu64 (authority_until_us t).
Definition read_authority_body : M Reader WireError AuthorityTicket :=
  t ← read_body; u ← ru64; mret (mk_authority_ticket t u).

(** The three profiles differ in their body only. *)
Definition encode (t : Ticket) (out : bytes) (limits : Limits.ProtocolLimits) (channel : Z)
  (direction : InputDirection) (delivery : InputDelivery) : Result WireError Z * bytes :=
  match (_ ← role direction delivery; valid t channel) with
  | Err e => (Err e, out)
  | Ok _ => record_bounded out (control_bytes limits) channel InputTicket (INPUT_TICKET_BYTES - 24)
              (write_body t)
  end.
Definition decode (b : bytes) (limits : Limits.ProtocolLimits) (channel : Z)
  (direction : InputDirection) (delivery : InputDelivery) : Result WireError Ticket :=
  _ ← role direction delivery;
  r ← decode_bounded b (control_bytes limits) channel None;
  t ← reading r InputTicket (t ← read_body; _ ← rfinish; mret t);
  _ ← valid t channel;
  Ok t.

Definition encode_authority (t : AuthorityTicket) (out : bytes) (limits : Limits.ProtocolLimits) (channel : Z)
  (direction : InputDirection) (delivery : InputDelivery) : Result WireError Z * bytes :=
  match (_ ← role direction delivery; valid_authority t channel) with
  | Err e => (Err e, out)
  | Ok _ => record_bounded out (control_bytes limits) channel InputTicket (AUTHORITY_TICKET_BYTES - 24)
              (write_authority_body t)
  end.
Definition decode_authority (b : bytes) (limits : Limits.ProtocolLimits) (channel : Z)
  (direction : InputDirection) (delivery : InputDelivery) : Result WireError AuthorityTicket :=
  _ ← role direction delivery;
  r ← decode_bounded b (control_bytes limits) channel None;
  t ← reading r InputTicket (t ← read_authority_body; _ ← rfinish; mret t);
  _ ← valid_authority t channel;
  Ok t.

Definition encode_readiness (t : ReadinessTicket) (out : bytes) (limits : Limits.ProtocolLimits) (channel : Z)
  (direction : InputDirection) (delivery : InputDelivery) : Result WireError Z * bytes :=
  match (_ ← role direction delivery; valid_readiness t channel) with
  | Err e => (Err e, out)
  | Ok _ => record_bounded out (control_bytes limits) channel InputTicket (READINESS_TICKET_BYTES - 24)
              (_ ← write_authority_body (authority t); wu64 (presented_sequence t))
  end.
(** The readiness profile has one length: no extensions. *)
Definition decode_readiness (b : bytes) (limits : Limits.ProtocolLimits) (channel : Z)
  (direction : InputDirection) (delivery : InputDelivery) : Result WireError ReadinessTicket :=
  _ ← role direction delivery;
  if negb (Z.of_nat (length b) =? READINESS_TICKET_BYTES)
  then Err (if Z.of_nat (length b) <? READINESS_TICKET_BYTES then Truncated else TrailingBytes)
  else
    r ← decode_bounded b (control_bytes limits) channel None;
    t ← reading r InputTicket (a ← read_authority_body; p ← ru64; _ ← rfinish;
                               mret (mk_readiness_ticket a p));
    _ ← valid_readiness t channel;
    Ok t.

End TicketMsg.
