(* ===== verification/WireInputProps.v ===== *)
(** * What the input messages guarantee

    Exact codecs for input requests, held-state snapshots and the three ticket
    profiles. *)

From S2P Require Import Prelude.
From S2P Require Import Bytes.
From S2P Require Import CoreTime.
From S2P Require Import Limits.
From S2P Require Import InputModel.
From S2P Require Import Utf8.
From S2P Require Import WireRecord.
From S2P Require Import WireRecordProps.
From S2P Require Import WireInput.

(** ** Fields *)

#[export] Instance opaque_codec : Codec (fits u128_max) (be 16) opaque.
Proof. by apply (be_codec 16). Qed.

Definition signed (w : Z) (v : Z) : Prop := - 2 ^ (w - 1) <= v < 2 ^ (w - 1).
Definition i32_bytes (v : Z) : bytes := be 4 (cast_unsigned 32 v).
Definition i64_bytes (v : Z) : bytes := be 8 (cast_unsigned 64 v).

Lemma cast_roundtrip w v : 0 < w -> signed w v ->
  0 <= cast_unsigned w v < 2 ^ w /\ cast_signed w (cast_unsigned w v) = v.
Proof.
  intros Hw [H1 H2]. assert (2 ^ w = 2 * 2 ^ (w - 1)) as E by (rewrite <- Z.pow_succ_r by lia; f_equal; lia).
  unfold cast_unsigned, cast_signed. pose proof (Z.mod_pos_bound v (2 ^ w)) as Hb.
  split; [apply Hb; lia|]. assert (0 <= v \/ v < 0) as [Hv|Hv] by lia.
  - rewrite Z.mod_small by lia. destruct (Z.leb_spec (2 ^ (w - 1)) v); lia.
  - assert (v mod 2 ^ w = v + 2 ^ w) as ->.
    { rewrite <- (Z.mod_small (v + 2 ^ w) (2 ^ w)) by lia. rewrite <- (Z.mod_add v 1) by lia. f_equal. lia. }
    destruct (Z.leb_spec (2 ^ (w - 1)) (v + 2 ^ w)); lia.
Qed.

Lemma uncast_roundtrip w v : 0 < w -> 0 <= v < 2 ^ w ->
  signed w (cast_signed w v) /\ cast_unsigned w (cast_signed w v) = v.
Proof.
  intros Hw Hv. assert (2 ^ w = 2 * 2 ^ (w - 1)) as E by (rewrite <- Z.pow_succ_r by lia; f_equal; lia).
  unfold cast_unsigned, cast_signed, signed. destruct (Z.leb_spec (2 ^ (w - 1)) v).
  - split; [lia|]. rewrite <- (Z.mod_add _ 1) by lia. rewrite Z.mod_small; lia.
  - split; [lia|]. apply Z.mod_small. lia.
Qed.

(** A signed integer read through its unsigned width. *)
Lemma signed_codec w m n (rd : M Reader WireError Z) `{!Codec (fits m) (be n) rd} :
  0 < w -> m + 1 = 2 ^ w ->
  Codec (signed w) (fun v => be n (cast_unsigned w v)) (v ← rd; mret (cast_signed w v)).
Proof.
  intros Hw Hm. split.
  - intros v r Hv. destruct (cast_roundtrip w v Hw Hv) as [Hb Hc]. unfold mbind, M_bind.
    rewrite codec_read by (unfold fits; lia). unfold mret, M_ret. by rewrite Hc.
  - intros r v r' Hr H. read_inv. destruct (uncast_roundtrip w v0) as [Hs Hc]; [done | unfold fits in Hok; lia|].
    split; [done|]. split; [|done]. by rewrite Hc.
Qed.

#[export] Instance ri32_codec : Codec (signed 32) i32_bytes ri32.
Proof. by apply (signed_codec 32 u32_max 4 ru32). Qed.
#[export] Instance ri64_codec : Codec (signed 64) i64_bytes ri64.
Proof. by apply (signed_codec 64 u64_max 8 ru64). Qed.

Section blocks.
Import InputMsg.

Definition credentials_typed (c : InputCredentials) : Prop :=
  fits u128_max (Credentials.session c) /\ fits u128_max (Credentials.lease c)
  /\ fits u128_max (Credentials.ticket c) /\ fits u64_max (geometry (Credentials.view c))
  /\ fits u64_max (viewport (Credentials.view c)) /\ fits u64_max (configuration (Credentials.view c))
  /\ fits u64_max (recovery (Credentials.view c)).
Definition credentials_bytes (c : InputCredentials) : bytes :=
  be 16 (Credentials.session c) ++ be 16 (Credentials.lease c) ++ be 16 (Credentials.ticket c)
  ++ be 8 (geometry (Credentials.view c)) ++ be 8 (viewport (Credentials.view c))
  ++ be 8 (configuration (Credentials.view c)) ++ be 8 (recovery (Credentials.view c)).

#[export] Instance credentials_codec : Codec credentials_typed credentials_bytes read_credentials.
Proof.
  split.
  - intros [s l t [g v c rec]] r (H1 & H2 & H3 & H4 & H5 & H6 & H7). cbn in *.
    unfold credentials_bytes, read_credentials. cbn [Credentials.session Credentials.lease Credentials.ticket
      Credentials.view geometry viewport configuration recovery]. by read_all.
  - intros r c r' Hr H. unfold read_credentials in H. read_inv. split; [done|]. split; [|done].
    unfold credentials_bytes. by rewrite <- !app_assoc.
Qed.

Definition point_typed (p : DesktopPoint) : Prop := signed 32 (px p) /\ signed 32 (py p).
Definition point_bytes (p : DesktopPoint) : bytes := i32_bytes (px p) ++ i32_bytes (py p).
#[export] Instance point_codec : Codec point_typed point_bytes point.
Proof.
  split.
  - intros [x y] r [Hx Hy]. cbn in *. unfold point_bytes, point. cbn [px py]. by read_all.
  - intros r p r' Hr H. unfold point in H. read_inv. split; [done|]. split; [|done].
    unfold point_bytes. by rewrite <- !app_assoc.
Qed.

Definition bool_bytes (b : bool) : bytes := be 1 (if b then 1 else 0).
Definition transition_bytes (t : KeyTransition) : bytes := be 1 (transition_code t).
Definition button_bytes (b : PointerButton) : bytes := be 1 (button_code b).
Definition unit_bytes (u : ScrollUnit) : bytes := be 1 (unit_code u).
Definition mode_bytes (m : PointerMode) : bytes := be 1 (mode_code m).
#[export] Instance boolean_codec : Codec (fun _ => True) bool_bytes boolean.
Proof. unfold boolean, bool_bytes. tag_codec. Qed.
#[export] Instance transition_codec : Codec (fun _ => True) transition_bytes read_transition.
Proof. unfold read_transition, transition_bytes. tag_codec. Qed.
#[export] Instance button_codec : Codec (fun _ => True) button_bytes read_button.
Proof. unfold read_button, button_bytes. tag_codec. Qed.
#[export] Instance unit_codec : Codec (fun _ => True) unit_bytes read_unit.
Proof. unfold read_unit, unit_bytes. tag_codec. Qed.
#[export] Instance mode_codec : Codec (fun _ => True) mode_bytes read_mode.
Proof. unfold read_mode, mode_bytes. tag_codec. Qed.

End blocks.

(** ** Input requests *)

Module InputMsgProps.
Import InputMsg.

(** What the Rust types of an event guarantee. *)
Definition event_typed (e : InputEvent) : Prop :=
  match e with
  | EvKey key _ => physical_key key = Some key
  | EvButton _ _ p barrier => point_typed p /\ fits u64_max barrier
  | EvPointer p => point_typed p
  | EvRelative e x y => fits u64_max e /\ signed 64 x /\ signed 64 y
  | EvScroll p barrier x y _ => point_typed p /\ fits u64_max barrier /\ signed 32 x /\ signed 32 y
  | EvText t => Forall scalar t
  | EvMode _ e => fits u64_max e
  end.
Definition event_ok (e : InputEvent) : Prop := is_ok (event_size e) = true.
Definition event_bytes (e : InputEvent) : bytes :=
  match e with
  | EvKey key t => be 2 KEYBOARD_USAGE_PAGE ++ be 2 key ++ transition_bytes t
  | EvButton b pressed p barrier => button_bytes b ++ bool_bytes pressed ++ point_bytes p ++ be 8 barrier
  | EvPointer p => point_bytes p
  | EvRelative e x y => be 8 e ++ i64_bytes x ++ i64_bytes y
  | EvScroll p barrier x y u => point_bytes p ++ be 8 barrier ++ i32_bytes x ++ i32_bytes y ++ unit_bytes u
  | EvText t => data_bytes (utf8 t)
  | EvMode m e => mode_bytes m ++ be 8 e
  end.

Lemma physical_key_fits k u : physical_key u = Some k -> k = u /\ fits u16_max k.
Proof.
  unfold physical_key. destruct (_ || _) eqn:E; [|done]. intros [= <-]. split; [done|].
  unfold fits, u16_max. lia.
Qed.

Lemma text_ok t : Forall scalar t -> event_ok (EvText t) ->
  data_ok (utf8 t) /\ utf8 t <> [] /\ text_len t <= MAX_TEXT_BYTES.
Proof.
  intros Ht. unfold event_ok, event_size. destruct (_ || _) eqn:E; [done|]. intros _.
  apply orb_false_iff in E as [Hne%bool_decide_eq_false_1 Hle%Z.ltb_ge].
  pose proof (utf8_length t Ht) as Hl. unfold MAX_TEXT_BYTES, MAX_COMMITTED_TEXT_BYTES in *.
  split; [split; [by apply utf8_bytes | unfold u32_max; lia]|]. split; [|done].
  intros E. rewrite E in Hl. pose proof (text_len_length t). destruct t; [done|]. cbn in *. lia.
Qed.

Lemma utf8_nil t : Forall scalar t -> (utf8 t = [] <-> t = []).
Proof.
  intros Ht. split; [|by intros ->]. intros E. pose proof (utf8_length t Ht) as Hl. rewrite E in Hl.
  pose proof (text_len_length t). destruct t; [done|]. cbn in *. lia.
Qed.

Ltac packed := split; [done|]; split; [cbn [event_bytes]; rewrite <- ?app_assoc; done | done].

#[export] Instance event_codec k :
  Codec (fun e => kind e = k /\ event_typed e /\ event_ok e) event_bytes (read_event k).
Proof.
  split.
  - intros e r (<- & Ht & Hok). destruct e as [key t|b pr p ba|p|e x y|p ba x y u|t|m e]; cbn [kind read_event event_bytes event_typed] in *.
    + pose proof (physical_key_fits _ _ Ht) as [_ Hf]. unfold mbind, M_bind. rewrite <- !app_assoc.
      rewrite (codec_read (m := ru16)) by (unfold KEYBOARD_USAGE_PAGE; solve_fits). cbn -[ru16 read_transition].
      rewrite (codec_read (m := ru16)) by done. unfold lift. rewrite Ht. cbn -[read_transition].
      by rewrite (codec_read (m := read_transition)).
    + destruct Ht as [Hp Hb]. by read_all.
    + by read_all.
    + destruct Ht as (He & Hx & Hy). by read_all.
    + destruct Ht as (Hp & Hb & Hx & Hy). by read_all.
    + pose proof (text_ok t Ht Hok) as (Hd & Hne & Hle). unfold mbind, M_bind.
      rewrite (codec_read (m := rdata)) by done. unfold refuse_if.
      rewrite bool_decide_eq_false_2, utf8_length by done. cbn [orb].
      destruct (Z.ltb_spec MAX_TEXT_BYTES (text_len t)); [lia|].
      unfold lift. by rewrite from_utf8_utf8.
    + by read_all.
  - intros r e r' Hr H. destruct k; try done; cbn [read_event] in H; read_inv.
    + guards. match goal with H : ok_or _ _ = Ok _ |- _ => unfold ok_or in H; split_matches end.
      match goal with H : physical_key _ = Some _ |- _ => pose proof (physical_key_fits _ _ H) as [-> _] end.
      packed.
    + packed.
    + packed.
    + packed.
    + packed.
    + apply orb_false_iff in Hread0 as [Hne%bool_decide_eq_false_1 Hle%Z.ltb_ge].
      match goal with H : ok_or _ _ = Ok _ |- _ => unfold ok_or in H; split_matches end.
      match goal with H : from_utf8 _ = Some _ |- _ => apply from_utf8_exact in H as [Ht ->]; [|apply Hok] end.
      split; [|done]. split; [done|]. split; [done|]. unfold event_ok, event_size.
      rewrite utf8_nil in Hne by done. rewrite utf8_length in Hle by done.
      rewrite bool_decide_eq_false_2 by done. cbn [orb]. by destruct (Z.ltb_spec MAX_TEXT_BYTES (text_len v1)); [lia|].
    + packed.
Qed.

Definition request_typed (rq : InputRequest) : Prop :=
  credentials_typed (credentials rq) /\ fits u64_max (rq_sequence rq) /\ event_typed (event rq).
(** What the encoder and the decoder check of a request on its route. *)
Definition request_valid (direction : InputDirection) (delivery : InputDelivery) (rq : InputRequest) : Prop :=
  validate_route direction delivery (kind (event rq)) = Ok tt /\ event_ok (event rq).
Definition request_body (rq : InputRequest) : bytes :=
  credentials_bytes (credentials rq) ++ be 8 (rq_sequence rq) ++ event_bytes (event rq).

Lemma credentials_length c : length (credentials_bytes c) = 80%nat.
Proof. done. Qed.

Lemma event_bytes_ok e : event_typed e -> event_ok e ->
  Forall is_byte (event_bytes e) /\ event_size e = Ok (Z.of_nat (length (event_bytes e)))
  /\ Z.of_nat (length (event_bytes e)) <= 4 + MAX_TEXT_BYTES.
Proof.
  intros Ht Hok. unfold MAX_TEXT_BYTES, MAX_COMMITTED_TEXT_BYTES.
  destruct e as [key t|b pr p ba|p|e x y|p ba x y u|t|m e];
    try (split; [cbn [event_bytes]; unfold transition_bytes, button_bytes, bool_bytes, point_bytes,
                   i32_bytes, i64_bytes, unit_bytes, mode_bytes; solve_bytes | split; [done | by vm_compute]]).
  pose proof (text_ok t Ht Hok) as (Hd & _ & Hle). cbn [event_bytes].
  pose proof (utf8_length t Ht) as Hl. unfold data_bytes.
  split; [rewrite Forall_app; split; [apply be_bytes | apply Hd]|].
  rewrite length_app, be_length. unfold event_ok, event_size in *. destruct (_ || _); [done|].
  unfold MAX_TEXT_BYTES, MAX_COMMITTED_TEXT_BYTES in *. split; [f_equal; lia | lia].
Qed.

Lemma writes_credentials c sequence : writes (write_credentials c sequence) (credentials_bytes c ++ be 8 sequence).
Proof. unfold write_credentials, credentials_bytes. rewrite <- !app_assoc. solve_writes. Qed.

Lemma writes_point p : writes (put_point p) (point_bytes p).
Proof. unfold put_point, point_bytes. solve_writes. Qed.
#[local] Hint Resolve writes_credentials writes_point : remote.

Lemma writes_event e : event_typed e -> event_ok e -> writes (write_event e) (event_bytes e).
Proof.
  intros Ht Hok. destruct e; cbn [write_event event_bytes]; solve_writes.
  apply writes_data, text_ok; done.
Qed.

Lemma input_codec limits binding direction delivery :
  fits u32_max binding -> binding <> 0 ->
  exact_codec request_typed (request_valid direction delivery) (fun rq => kind (event rq)) request_body
    (control_bytes limits) binding
    (fun rq out => encode_input rq out limits binding direction delivery)
    (fun b => decode_input b limits binding direction delivery).
Proof.
  intros Hb Hnz. apply exact_codec_intro with (ch := None); try done.
  - intros [c s e] _ _. by destruct e.
  - intros rq (Hc & Hs & He) [_ Hok]. destruct (event_bytes_ok _ He Hok) as (Hbytes & _ & Hlen).
    unfold MAX_TEXT_BYTES, MAX_COMMITTED_TEXT_BYTES in *.
    split; [unfold request_body, credentials_bytes; solve_bytes|].
    unfold request_body. rewrite !length_app, credentials_length, be_length. unfold u32_max. lia.
  - intros rq (Hc & Hs & He) [Hr Hok]. destruct (event_bytes_ok _ He Hok) as (_ & Hsize & _).
    eexists. split; [|intros out; unfold encode_input; rewrite Hr, Hsize].
    2:{ replace (INPUT_PREFIX_BYTES + _) with (Z.of_nat (length (request_body rq)));
          [reflexivity|]. unfold request_body, INPUT_PREFIX_BYTES.
        rewrite !length_app, credentials_length, be_length. lia. }
    unfold request_body. rewrite app_assoc. apply writes_bind; auto using writes_event with remote.
  - intros rq out _ Hv. unfold encode_input.
    destruct (validate_route _ _ _) as [[]|e] eqn:Er; [|by eexists].
    destruct (event_size (event rq)) as [n|e] eqn:Es; [|by eexists].
    destruct Hv. split; [done|]. unfold event_ok. by rewrite Es.
  - intros rq b Hbytes. unfold decode_input. destruct (negb (is_direction direction ViewerToHost)) eqn:Ed.
    { split; [done|]. intros (_ & [Hr _] & _). unfold validate_route in Hr. by rewrite Ed in Hr. }
    apply (record_exact request_typed (request_valid direction delivery) (fun rq => kind (event rq)) request_body);
      [done | done|].
    intros [k bi p] Hp _. cbn [WireRecord.kind payload] in *. rewrite Result_bind_Ok.
    setoid_rewrite reading_exact. cbn [WireRecord.kind payload]. split.
    + intros ([] & Hr & _ & H). run_reader H. read_inv. destruct Hok1 as (<- & Ht & Hok').
      split; [done|]. split; [done|]. split; [done|]. by rewrite app_nil_r.
    + intros (-> & (Hc & Hs & He) & [Hr Hok] & ->). exists tt. split; [done|]. split; [done|].
      destruct rq as [c s e]. cbn [credentials rq_sequence event] in *. unfold request_body.
      cbn [credentials rq_sequence event]. unfold mbind, M_bind.
      rewrite (codec_read (m := read_credentials)) by done. rewrite (codec_read (m := ru64)) by done.
      by rewrite (codec_read_all _ _ (read_event (kind e))).
Qed.

End InputMsgProps.

(** ** Held-state snapshots *)

Module HeldMsgProps.
Import Held HeldMsg.

(** A [HeldState] is built by [from_bits] only. *)
Definition held_typed (rq : HeldStateRequest) : Prop :=
  fits u128_max (hs_session rq) /\ fits u128_max (hs_lease rq) /\ fits u64_max (hs_sequence rq)
  /\ fits u64_max (next_action rq) /\ length (keys (held rq)) = KEY_BITMAP_BYTES
  /\ Forall is_byte (keys (held rq)) /\ fits u8_max (buttons (held rq))
  /\ from_bits (keys (held rq)) (buttons (held rq)) = Some (held rq).
Definition held_valid (binding : Z) (direction : InputDirection) (delivery : InputDelivery)
  (rq : HeldStateRequest) : Prop :=
  role direction delivery = Ok tt /\ valid rq binding = Ok tt.
Definition held_body (rq : HeldStateRequest) : bytes :=
  be 16 (hs_session rq) ++ be 16 (hs_lease rq) ++ be 8 (hs_sequence rq) ++ be 8 (next_action rq)
  ++ keys (held rq) ++ be 1 (buttons (held rq)).

Lemma from_bits_fields k b h : from_bits k b = Some h -> h = mkHeld k b.
Proof. unfold from_bits. repeat case_match; try done. by intros [= <-]. Qed.

Lemma held_codec limits binding direction delivery :
  fits u32_max binding -> binding <> 0 ->
  exact_codec held_typed (held_valid binding direction delivery) (fun _ => WireRecord.HeldState) held_body
    (control_bytes limits) binding
    (fun rq out => encode rq out limits binding direction delivery)
    (fun b => decode b limits binding direction delivery).
Proof.
  intros Hb Hnz. apply exact_codec_intro with (ch := None); try done.
  - intros rq (_ & _ & _ & _ & Hl & Hk & _) _. split; [unfold held_body; solve_bytes|].
    unfold held_body. rewrite !length_app, !be_length, Hl. unfold KEY_BITMAP_BYTES, u32_max. lia.
  - intros rq (_ & _ & _ & _ & Hl & _) [Hr Hv].
    eexists. split; [|intros out; unfold encode; rewrite (proj2 (both_Ok _ _) (conj Hr Hv))].
    2:{ replace (HELD_STATE_BYTES - 24) with (Z.of_nat (length (held_body rq))); [reflexivity|].
        unfold held_body. rewrite !length_app, !be_length, Hl. done. }
    unfold held_body. solve_writes.
  - intros rq out _ Hv. unfold encode. apply refuse_checked. by rewrite both_Ok.
  - intros rq b Hbytes. unfold decode, held_valid.
    apply (checked_exact held_typed (fun _ => WireRecord.HeldState) held_body _ _ _
             (role direction delivery) (fun rq => valid rq binding)); [done | done|].
    intros [k bi p] Hp _. cbn [WireRecord.kind payload] in *. rewrite reading_exact. cbn [WireRecord.kind payload].
    split.
    + intros [Hk H]. run_reader H. read_inv.
      match goal with H : rtake _ _ = _ |- _ => apply rtake_exact in H as [-> Hl%Nat2Z.inj]; [|done] end.
      apply Forall_app in Hbytes3 as [Hkeys Hlast]. read_inv.
      match goal with H : ok_or (from_bits ?k ?b) _ = Ok _ |- _ =>
        destruct (from_bits k b) as [h|] eqn:Ef; [|done]; injection H as <- end.
      pose proof (from_bits_fields _ _ _ Ef) as ->. split; [done|]. split; [done|].
      unfold held_body. cbn. by rewrite app_nil_r.
    + intros (-> & (Hs & Hl & Hq & Hn & Hlen & Hkeys & Hbut & Hfrom) & ->). split; [done|].
      destruct rq as [se le sq na [ks bu]]. cbn [hs_session hs_lease hs_sequence next_action held keys buttons] in *.
      unfold held_body. cbn [hs_session hs_lease hs_sequence next_action held keys buttons]. read_all.
      unfold mbind, M_bind, lift. rewrite Hfrom. done.
Qed.

End HeldMsgProps.

(** ** Tickets *)

Module TicketMsgProps.
Import TicketMsg.

Definition ticket_typed (t : Ticket) : Prop :=
  credentials_typed (t_credentials t) /\ fits u64_max (t_sequence t) /\ fits u64_max (issued_at_us t)
  /\ fits u64_max (expires_at_us t).
Definition ticket_bytes (t : Ticket) : bytes :=
  credentials_bytes (t_credentials t) ++ be 8 (t_sequence t) ++ be 8 (issued_at_us t) ++ be 8 (expires_at_us t).
#[export] Instance ticket_codec_body : Codec ticket_typed ticket_bytes read_body.
Proof.
  split.
  - intros [c s i e] r (Hc & Hs & Hi & He). cbn [t_credentials t_sequence issued_at_us expires_at_us] in *.
    unfold ticket_bytes, read_body. cbn [t_credentials t_sequence issued_at_us expires_at_us]. by read_all.
  - intros r t r' Hr H. unfold read_body in H. read_inv. split; [done|]. split; [|done].
    unfold ticket_bytes. by rewrite <- !app_assoc.
Qed.

Definition authority_typed (t : AuthorityTicket) : Prop :=
  ticket_typed (ticket t) /\ fits u64_max (authority_until_us t).
Definition authority_bytes (t : AuthorityTicket) : bytes := ticket_bytes (ticket t) ++ be 8 (authority_until_us t).
#[export] Instance authority_codec_body : Codec authority_typed authority_bytes read_authority_body.
Proof.
  split.
  - intros [t u] r (Ht & Hu). cbn [ticket authority_until_us] in *. unfold authority_bytes, read_authority_body.
    cbn [ticket authority_until_us]. by read_all.
  - intros r t r' Hr H. unfold read_authority_body in H. read_inv. split; [done|]. split; [|done].
    unfold authority_bytes. by rewrite <- !app_assoc.
Qed.

Definition readiness_typed (t : ReadinessTicket) : Prop :=
  authority_typed (authority t) /\ fits u64_max (presented_sequence t).
Definition readiness_bytes (t : ReadinessTicket) : bytes :=
  authority_bytes (authority t) ++ be 8 (presented_sequence t).

Lemma writes_ticket t : writes (write_body t) (ticket_bytes t).
Proof.
  unfold write_body, ticket_bytes. rewrite app_assoc.
  apply writes_bind; [apply InputMsgProps.writes_credentials | solve_writes].
Qed.
Lemma writes_authority t : writes (write_authority_body t) (authority_bytes t).
Proof. apply writes_bind; [apply writes_ticket | apply writes_put]. Qed.
#[local] Hint Resolve writes_ticket writes_authority : remote.

Section tickets.
Context (limits : Limits.ProtocolLimits) (channel : Z) (direction : InputDirection) (delivery : InputDelivery).
Context (Hchannel : fits u32_max channel) (Hbound : channel <> 0).

(** A ticket on the route the host sends it, valid for the channel. *)
Definition on_route {A} (valid : A -> Z -> Result WireError unit) (t : A) : Prop :=
  role direction delivery = Ok tt /\ valid t channel = Ok tt.

Lemma ticket_codec :
  exact_codec ticket_typed (on_route valid) (fun _ => InputTicket) ticket_bytes (control_bytes limits) channel
    (fun t out => encode t out limits channel direction delivery)
    (fun b => decode b limits channel direction delivery).
Proof using All.
  apply (message_codec ticket_typed InputTicket ticket_bytes (control_bytes limits) channel None
           (role direction delivery) (fun t => valid t channel) read_body write_body (INPUT_TICKET_BYTES - 24));
    try done; [|intros t _; apply writes_ticket].
  intros t _. split; [unfold ticket_bytes, credentials_bytes; solve_bytes | done].
Qed.

Lemma authority_ticket_codec :
  exact_codec authority_typed (on_route valid_authority) (fun _ => InputTicket) authority_bytes
    (control_bytes limits) channel
    (fun t out => encode_authority t out limits channel direction delivery)
    (fun b => decode_authority b limits channel direction delivery).
Proof using All.
  apply (message_codec authority_typed InputTicket authority_bytes (control_bytes limits) channel None
           (role direction delivery) (fun t => valid_authority t channel) read_authority_body write_authority_body
           (AUTHORITY_TICKET_BYTES - 24)); try done; [|intros t _; apply writes_authority].
  intros t _. split; [unfold authority_bytes, ticket_bytes, credentials_bytes; solve_bytes | done].
Qed.

(** The readiness profile accepts its one length only. *)
Lemma readiness_codec :
  exact_codec readiness_typed (on_route valid_readiness) (fun _ => InputTicket) readiness_bytes
    (control_bytes limits) channel
    (fun t out => encode_readiness t out limits channel direction delivery)
    (fun b => decode_readiness b limits channel direction delivery).
Proof using All.
  pose proof (fun t b Hb => checked_exact readiness_typed (fun _ => InputTicket) readiness_bytes
    (control_bytes limits) channel None (role direction delivery) (fun t => valid_readiness t channel)
    (fun r => reading r InputTicket (a ← read_authority_body; p ← ru64; _ ← rfinish; mret (mk_readiness_ticket a p)))
    t b Hchannel Hb) as Hdec.
  assert (forall t (r : WireRecord), Forall is_byte (payload r) -> rbinding r = channel ->
    reading r InputTicket (a ← read_authority_body; p ← ru64; _ ← rfinish; mret (mk_readiness_ticket a p)) = Ok t
    <-> WireRecord.kind r = InputTicket /\ readiness_typed t /\ payload r = readiness_bytes t) as Hr.
  { intros t [k bi p] Hp _. cbn [WireRecord.kind payload] in *. rewrite reading_exact. cbn [WireRecord.kind payload]. split.
    + intros [Hk H]. run_reader H. read_inv. by rewrite app_nil_r.
    + intros (-> & [Ha Hs] & ->). split; [done|]. destruct t as [a s]. unfold readiness_bytes.
      cbn [authority presented_sequence] in *. unfold mbind, M_bind.
      rewrite (codec_read (m := read_authority_body)) by done. by rewrite (codec_read_all _ _ ru64). }
  apply exact_codec_intro_fixed with (ch := None); try done.
  - intros t _ _. split; [unfold readiness_bytes, authority_bytes, ticket_bytes, credentials_bytes; solve_bytes | by vm_compute].
  - intros t _ Hv. exists (_ ← write_authority_body (authority t); wu64 (presented_sequence t)).
    split; [unfold readiness_bytes; solve_writes|].
    intros out. unfold encode_readiness. by rewrite (proj2 (both_Ok _ _) Hv).
  - intros t out _ Hv. unfold encode_readiness. apply refuse_checked. by rewrite both_Ok.
  - intros t b Eb Hbytes Ht Hv Hd. unfold decode_readiness.
    replace (negb (Z.of_nat (length b) =? READINESS_TICKET_BYTES)) with false
      by (rewrite Eb, frame_length; reflexivity).
    apply Hdec; auto.
  - intros t b Hbytes H. unfold decode_readiness in H. apply Hdec; [done | auto|].
    apply Result_bind_Ok in H as ([] & Hrole & H). rewrite Hrole.
    destruct (negb (Z.of_nat (length b) =? READINESS_TICKET_BYTES)); [done | exact H].
Qed.

End tickets.

End TicketMsgProps.
