(* ===== verification/WireResult.v ===== *)
(** * Input results

    [fr-wire/src/input_result.rs]: the terminal receipt of an input action as the
    viewer sees it.  [from_receipt] turns a receipt of the submission boundary into
    a result, [validate] states which results are consistent, and the two codec
    functions move one over the control channel. *)

From S2P Require Import Prelude.
From S2P Require Import Bytes.
From S2P Require Import Authority.
From S2P Require Import InputSequence.
From S2P Require Import Limits.
From S2P Require Import InputModel.
From S2P Require Import Submission.
From S2P Require Import WireRecord.
From S2P Require Import WireInput.

Module ResultMsg.

Definition INPUT_RESULT_BYTES : Z := 24 + 50.

Record ResultBinding := mk_binding { rb_channel : Z; rb_session : Z; rb_lease : Z }.
Inductive SequenceSpace := ActionSpace | PointerSpace.
Inductive Stage := StAdmitted | StSubmittedToOs | StObserved.

Inductive Reason :=
| ReInvalidState | ReObservationExpired | ReNoLease | ReStaleLease | ReLeaseExpired | ReViewUnready
| ReControllerBusy | ReControllerCleanupRequired | ReTicketInvalid | ReTicketExpired
| ReChallengeMismatch | ReChallengePending | ReChallengeExpired | ReClockRegression
| ReDeadlineOverflow | ReInvalidReceiptCapacity | ReSequenceFenced | RePreviousActionPending
| ReSequenceGap | ReNotPending | ReStaleSession | ReStaleView | ReOutOfBounds | ReUnsupported
| ReInvalidTransition | ReRelativeOverflow | ReModeMismatch | ReRevoked | RePermissionMissing
| RePlatformGeometryChanged | RePlatformUnavailable | ReUnknownEffect | ReAuthorityUnavailable.

#[export] Instance ResultBinding_eq_dec : EqDecision ResultBinding.
Proof. solve_decision. Defined.
#[export] Instance SequenceSpace_eq_dec : EqDecision SequenceSpace.
Proof. solve_decision. Defined.
#[export] Instance Stage_eq_dec : EqDecision Stage.
Proof. solve_decision. Defined.
#[export] Instance Reason_eq_dec : EqDecision Reason.
Proof. solve_decision. Defined.

(** [reason as u16]. *)
Definition reason_code (r : Reason) : Z :=
  match r with
  | ReInvalidState => 1 | ReObservationExpired => 2 | ReNoLease => 3 | ReStaleLease => 4
  | ReLeaseExpired => 5 | ReViewUnready => 6 | ReControllerBusy => 7
  | ReControllerCleanupRequired => 8 | ReTicketInvalid => 9 | ReTicketExpired => 10
  | ReChallengeMismatch => 11 | ReChallengePending => 12 | ReChallengeExpired => 13
  | ReClockRegression => 14 | ReDeadlineOverflow => 15 | ReInvalidReceiptCapacity => 16
  | ReSequenceFenced => 17 | RePreviousActionPending => 18 | ReSequenceGap => 19
  | ReNotPending => 20 | ReStaleSession => 21 | ReStaleView => 22 | ReOutOfBounds => 23
  | ReUnsupported => 24 | ReInvalidTransition => 25 | ReRelativeOverflow => 26
  | ReModeMismatch => 27 | ReRevoked => 28 | RePermissionMissing => 29
  | RePlatformGeometryChanged => 30 | RePlatformUnavailable => 31 | ReUnknownEffect => 32
  | ReAuthorityUnavailable => 33
  end.

Definition parse_reason (code : Z) : Result WireError (option Reason) :=
  match code with
  | 0 => Ok None
  | 1 => Ok (Some ReInvalidState)
  | 2 => Ok (Some ReObservationExpired)
  | 3 => Ok (Some ReNoLease)
  | 4 => Ok (Some ReStaleLease)
  | 5 => Ok (Some ReLeaseExpired)
  | 6 => Ok (Some ReViewUnready)
  | 7 => Ok (Some ReControllerBusy)
  | 8 => Ok (Some ReControllerCleanupRequired)
  | 9 => Ok (Some ReTicketInvalid)
  | 10 => Ok (Some ReTicketExpired)
  | 11 => Ok (Some ReChallengeMismatch)
  | 12 => Ok (Some ReChallengePending)
  | 13 => Ok (Some ReChallengeExpired)
  | 14 => Ok (Some ReClockRegression)
  | 15 => Ok (Some ReDeadlineOverflow)
  | 16 => Ok (Some ReInvalidReceiptCapacity)
  | 17 => Ok (Some ReSequenceFenced)
  | 18 => Ok (Some RePreviousActionPending)
  | 19 => Ok (Some ReSequenceGap)
  | 20 => Ok (Some ReNotPending)
  | 21 => Ok (Some ReStaleSession)
  | 22 => Ok (Some ReStaleView)
  | 23 => Ok (Some ReOutOfBounds)
  | 24 => Ok (Some ReUnsupported)
  | 25 => Ok (Some ReInvalidTransition)
  | 26 => Ok (Some ReRelativeOverflow)
  | 27 => Ok (Some ReModeMismatch)
  | 28 => Ok (Some ReRevoked)
  | 29 => Ok (Some RePermissionMissing)
  | 30 => Ok (Some RePlatformGeometryChanged)
  | 31 => Ok (Some RePlatformUnavailable)
  | 32 => Ok (Some ReUnknownEffect)
  | 33 => Ok (Some ReAuthorityUnavailable)
  | _ => Err InvalidValue
  end.

Definition is_expiry (r : Reason) : bool :=
  match r with ReObservationExpired | ReLeaseExpired | ReTicketExpired => true | _ => false end.

(** [Reason::try_from(Refusal)]. *)
Definition try_from (refusal : Refusal) : Result WireError Reason :=
  match refusal with
  | RAuthority e =>
      match e with
      | InvalidState _ => Ok ReInvalidState
      | ObservationExpired => Ok ReObservationExpired
      | NoLease => Ok ReNoLease
      | StaleLease => Ok ReStaleLease
      | LeaseExpired => Ok ReLeaseExpired
      | ViewUnready => Ok ReViewUnready
      | ControllerBusy => Ok ReControllerBusy
      | ControllerCleanupRequired => Ok ReControllerCleanupRequired
      | TicketInvalid => Ok ReTicketInvalid
      | TicketExpired => Ok ReTicketExpired
      | ChallengeMismatch => Ok ReChallengeMismatch
      | ChallengePending => Ok ReChallengePending
      | ChallengeExpired => Ok ReChallengeExpired
      | ClockRegression => Ok ReClockRegression
      | DeadlineOverflow => Ok ReDeadlineOverflow
      | TicketCapacity | ReleasePending | StaleGeneration => Err UnsupportedKind
      end
  | RSequence e =>
      match e with
      | InvalidCapacity _ => Ok ReInvalidReceiptCapacity
      | SeqStaleLease => Ok ReStaleLease
      | Fenced => Ok ReSequenceFenced
      | PreviousActionPending _ => Ok RePreviousActionPending
      | SequenceGap _ _ => Ok ReSequenceGap
      | NotPending => Ok ReNotPending
      end
  | RStaleSession => Ok ReStaleSession
  | RStaleLease => Ok ReStaleLease
  | RStaleView => Ok ReStaleView
  | ROutOfBounds => Ok ReOutOfBounds
  | RUnsupported | RPlatform PUnsupported => Ok ReUnsupported
  | RInvalidTransition => Ok ReInvalidTransition
  | RRelativeOverflow => Ok ReRelativeOverflow
  | RModeMismatch => Ok ReModeMismatch
  | RRevoked => Ok ReRevoked
  | RPlatform PPermission => Ok RePermissionMissing
  | RPlatform PGeometryChanged => Ok RePlatformGeometryChanged
  | RPlatform PUnavailable => Ok RePlatformUnavailable
  | RUnknownEffect => Ok ReUnknownEffect
  | RAuthorityUnavailable => Ok ReAuthorityUnavailable
  | RExpiredAtBoundary => Ok ReTicketExpired
  end.

Record InputResult := mk_result {
  ir_binding : ResultBinding;
  ir_sequence : Z;
  ir_space : SequenceSpace;
  ir_stage : Stage;
  ir_outcome : InputOutcome;
  ir_submitted : Z;
  unknown_next_operation : bool;
  ir_reason : option Reason;
}.

Definition valid_outcome (r : InputResult) (has_prefix : bool) : bool :=
  match ir_outcome r with
  | SubmittedToOs => has_prefix && negb (is_some (ir_reason r))
  | AppliedLocally => negb has_prefix && negb (is_some (ir_reason r))
  | RejectedBeforeSubmission =>
      negb has_prefix
      && is_some_and (fun reason => negb (is_expiry reason)
           && negb (match reason with ReRevoked | ReUnknownEffect => true | _ => false end)) (ir_reason r)
  | ExpiredBeforeSubmission => negb has_prefix && is_some_and is_expiry (ir_reason r)
  | CancelledBeforeSubmission => negb has_prefix && bool_decide (ir_reason r = Some ReRevoked)
  | PartiallySubmittedToOs =>
      has_prefix && is_some_and (fun reason => negb (bool_decide (reason = ReUnknownEffect))) (ir_reason r)
  | EffectUnknown => bool_decide (ir_reason r = Some ReUnknownEffect)
  end.

(** The constant [MAX_COMMITTED_TEXT_BYTES] fits [u32], so the conversion before
    the bound cannot fail. *)
Definition validate (r : InputResult) : Result WireError unit :=
  let has_prefix := negb (ir_submitted r =? 0) in
  let unknown := bool_decide (ir_outcome r = EffectUnknown) in
  if rb_channel (ir_binding r) =? 0 then Err InvalidBinding
  else if (MAX_COMMITTED_TEXT_BYTES <? ir_submitted r)
          || ((unknown_next_operation r || bool_decide (ir_outcome r = PartiallySubmittedToOs))
              && (ir_submitted r =? MAX_COMMITTED_TEXT_BYTES)) then Err ResourceLimit
  else if bool_decide (ir_space r = PointerSpace)
          && ((1 <? ir_submitted r) || (unknown && has_prefix)
              || match ir_outcome r with AppliedLocally | PartiallySubmittedToOs => true | _ => false end)
  then Err InvalidValue
  else if negb (Bool.eqb (unknown_next_operation r) unknown)
          || Bool.eqb (bool_decide (ir_stage r = StAdmitted)) has_prefix
          || (bool_decide (ir_stage r = StObserved) && negb (bool_decide (ir_outcome r = SubmittedToOs)))
  then Err InvalidValue
  else if valid_outcome r has_prefix then Ok tt else Err InvalidValue.

Definition from_receipt (binding : ResultBinding) (space : SequenceSpace) (receipt : Receipt)
  : Result WireError InputResult :=
  reason ← match rc_refusal receipt with
           | None => Ok None
           | Some refusal => r ← try_from refusal; Ok (Some r)
           end;
  let result :=
    mk_result binding (rc_sequence receipt) space
      (if submitted_operations receipt =? 0 then StAdmitted else StSubmittedToOs)
      (rc_outcome receipt) (submitted_operations receipt)
      (bool_decide (rc_outcome receipt = EffectUnknown)) reason in
  _ ← validate result;
  Ok result.

Definition route (direction : InputDirection) (delivery : InputDelivery) : Result WireError unit :=
  if negb (is_direction direction HostToViewer) then Err WrongRole
  else if negb (is_delivery delivery Reliable) then Err WrongChannel else Ok tt.

(** The discriminants. *)
Definition space_code (s : SequenceSpace) : Z := match s with ActionSpace => 0 | PointerSpace => 1 end.
Definition stage_code (s : Stage) : Z := match s with StAdmitted => 0 | StSubmittedToOs => 1 | StObserved => 2 end.
Definition outcome_code (o : InputOutcome) : Z :=
  match o with
  | SubmittedToOs => 0 | AppliedLocally => 1 | RejectedBeforeSubmission => 2
  | ExpiredBeforeSubmission => 3 | CancelledBeforeSubmission => 4 | PartiallySubmittedToOs => 5
  | EffectUnknown => 6
  end.
Definition read_space : M Reader WireError SequenceSpace :=
  v ← ru8; match v with 0 => mret ActionSpace | 1 => mret PointerSpace | _ => fail InvalidValue end.
Definition read_stage : M Reader WireError Stage :=
  v ← ru8; match v with 0 => mret StAdmitted | 1 => mret StSubmittedToOs | 2 => mret StObserved
                   | _ => fail InvalidValue end.
Definition read_outcome : M Reader WireError InputOutcome :=
  v ← ru8; match v with
           | 0 => mret SubmittedToOs | 1 => mret AppliedLocally | 2 => mret RejectedBeforeSubmission
           | 3 => mret ExpiredBeforeSubmission | 4 => mret CancelledBeforeSubmission
           | 5 => mret PartiallySubmittedToOs | 6 => mret EffectUnknown | _ => fail InvalidValue
           end.

(** [Reason::parse(r.u16()?)?]. *)
Definition read_reason : M Reader WireError (option Reason) := code ← ru16; lift (parse_reason code).

(** The fields in the order the struct literal of [decode_input_result] reads them. *)
Definition read_result (binding : ResultBinding) : M Reader WireError InputResult :=
  session ← opaque;
  _ ← refuse_if (fun _ => negb (session =? rb_session binding)) (fun _ => InvalidBinding);
  lease ← opaque;
  _ ← refuse_if (fun _ => negb (lease =? rb_lease binding)) (fun _ => InvalidBinding);
  sequence ← ru64;
  space ← read_space;
  stage ← read_stage;
  outcome ← read_outcome;
  submitted ← ru32;
  unknown ← InputMsg.boolean;
  reason ← read_reason;
  mret (mk_result binding sequence space stage outcome submitted unknown reason).

Definition decode_input_result (b : bytes) (limits : Limits.ProtocolLimits) (binding : ResultBinding)
  (direction : InputDirection) (delivery : InputDelivery) : Result WireError InputResult :=
  _ ← route direction delivery;
  r ← decode_bounded b (control_bytes limits) (rb_channel binding) None;
  result ← reading r WireRecord.InputResult (x ← read_result binding; _ ← rfinish; mret x);
  _ ← validate result;
  Ok result.

Definition write_result (r : InputResult) : M Writer WireError unit :=
  _ ← wu128 (rb_session (ir_binding r)); _ ← wu128 (rb_lease (ir_binding r));
  _ ← wu64 (ir_sequence r); _ ← wu8 (space_code (ir_space r)); _ ← wu8 (stage_code (ir_stage r));
  _ ← wu8 (outcome_code (ir_outcome r)); _ ← wu32 (ir_submitted r);
  _ ← wu8 (if unknown_next_operation r then 1 else 0);
  wu16 (match ir_reason r with None => 0 | Some reason => reason_code reason end).

Definition encode_input_result (r : InputResult) (out : bytes) (limits : Limits.ProtocolLimits)
  (direction : InputDirection) (delivery : InputDelivery) : Result WireError Z * bytes :=
  match (_ ← route direction delivery; validate r) with
  | Err e => (Err e, out)
  | Ok _ =>
      record_bounded out (control_bytes limits) (rb_channel (ir_binding r)) WireRecord.InputResult
        (INPUT_RESULT_BYTES - 24) (write_result r)
  end.

(** What the input agent projects a reply with, [frd/src/input_agent/result.rs]:
    the binding and the sequence space of the original request. *)
Definition result_context (channel : Z) (rq : InputRequest) : ResultBinding * SequenceSpace :=
  (mk_binding channel (Credentials.session (credentials rq)) (Credentials.lease (credentials rq)),
   if is_pointer (event rq) then PointerSpace else ActionSpace).

(** [Reply] of the input agent: the answer to whichever command it ran. *)
Inductive Reply :=
| InputReplied (r : Result Refusal Dispatch)
| AuthorityReplied (r : Result Refusal Z)
| TicketReplied (r : Result Refusal TicketMsg.Ticket)
| AuthorityTicketReplied (r : Result Refusal TicketMsg.AuthorityTicket)
| ReadinessTicketReplied (r : Result Refusal TicketMsg.ReadinessTicket)
| ReconciliationReplied (r : Result Refusal Reconciliation)
| ReconciliationPanic (report : option Reconciliation)
| CancelledBeforeStart
| NativePanic (receipt : option Receipt)
| InitializationFailed (e : PlatformError).

Inductive InputReply :=
| ReplyRecord (r : InputResult)
| ReplyConsumedWithoutReceipt
| ReplyObsoletePointer
| ReplyRefused (e : Refusal)
| ReplyCancelledBeforeStart
| ReplyNativePanicWithoutReceipt
| ReplyInitializationFailed (e : PlatformError).

(** The two errors of the agent that the projection returns. *)
Inductive ProjectError := NotInputCommand | ProjectWire (e : WireError).

Definition project_receipt (context : ResultBinding * SequenceSpace) (receipt : Receipt)
  : Result ProjectError InputReply :=
  match from_receipt (fst context) (snd context) receipt with
  | Ok r => Ok (ReplyRecord r)
  | Err e => Err (ProjectWire e)
  end.

Definition project (context : ResultBinding * SequenceSpace) (reply : Reply)
  : Result ProjectError InputReply :=
  match reply with
  | InputReplied (Ok (DCompleted receipt)) | NativePanic (Some receipt) =>
      project_receipt context receipt
  | InputReplied (Ok DConsumedWithoutReceipt) => Ok ReplyConsumedWithoutReceipt
  | InputReplied (Ok DObsoletePointer) => Ok ReplyObsoletePointer
  | InputReplied (Err refusal) => Ok (ReplyRefused refusal)
  | CancelledBeforeStart => Ok ReplyCancelledBeforeStart
  | NativePanic None => Ok ReplyNativePanicWithoutReceipt
  | InitializationFailed e => Ok (ReplyInitializationFailed e)
  | TicketReplied _ | AuthorityTicketReplied _ | ReadinessTicketReplied _ | AuthorityReplied _
  | ReconciliationReplied _ | ReconciliationPanic _ => Err NotInputCommand
  end.

End ResultMsg.
