(* ===== verification/WireReceipts.v ===== *)
(** Input results: exactness of their codec, and the projection of every receipt to one. *)

From S2P Require Import Prelude.
From S2P Require Import CoreTime.
From S2P Require Import Authority.
From S2P Require Import InputSequence.
From S2P Require Import Limits.
From S2P Require Import InputModel.
From S2P Require Import Submission.
From S2P Require Import SubmissionBase.
From S2P Require Import SubmissionProps.
From S2P Require Import SubmissionClaims.
From S2P Require Import Bytes.
From S2P Require Import WireRecord.
From S2P Require Import WireRecordProps.
From S2P Require Import WireInput.
From S2P Require Import WireInputProps.
From S2P Require Import WireResult.

(** * What input results guarantee

    The result codec is exact, and every receipt the submission boundary can
    produce is reportable: it has a reason code, it passes the result's own
    validation and it survives the wire. *)

Module ResultMsgProps.
Import ResultMsg.

(** ** The codec *)

Definition space_bytes (s : SequenceSpace) : bytes := be 1 (space_code s).
Definition stage_bytes (s : Stage) : bytes := be 1 (stage_code s).
Definition outcome_bytes (o : InputOutcome) : bytes := be 1 (outcome_code o).
#[export] Instance space_codec : Codec (fun _ => True) space_bytes read_space.
Proof. unfold read_space, space_bytes. tag_codec. Qed.
#[export] Instance stage_codec : Codec (fun _ => True) stage_bytes read_stage.
Proof. unfold read_stage, stage_bytes. tag_codec. Qed.
#[export] Instance outcome_codec : Codec (fun _ => True) outcome_bytes read_outcome.
Proof. unfold read_outcome, outcome_bytes. tag_codec. Qed.

Definition optional_reason (r : option Reason) : Z :=
  match r with None => 0 | Some reason => reason_code reason end.
Definition reason_bytes (r : option Reason) : bytes := be 2 (optional_reason r).
Lemma parse_reason_code r : parse_reason (optional_reason r) = Ok r.
Proof. by destruct r as [[]|]. Qed.
Lemma parse_reason_exact code r : parse_reason code = Ok r -> code = optional_reason r.
Proof.
  unfold parse_reason. intros H.
  repeat match type of H with (match ?c with _ => _ end) = _ => destruct c; try done end;
    by injection H as <-.
Qed.
#[export] Instance reason_codec : Codec (fun _ => True) reason_bytes read_reason.
Proof.
  unfold read_reason. split.
  - intros r s _. unfold mbind, M_bind, reason_bytes. rewrite codec_read by (by destruct r as [[]|]).
    unfold lift. by rewrite parse_reason_code.
  - intros s r s' Hs H. read_inv.
    split; [done|]. split; [|done]. unfold reason_bytes.
    by match goal with H : parse_reason _ = Ok _ |- _ => apply parse_reason_exact in H as -> end.
Qed.

Definition result_typed (binding : ResultBinding) (r : InputResult) : Prop :=
  ir_binding r = binding /\ fits u64_max (ir_sequence r) /\ fits u32_max (ir_submitted r).
Definition result_bytes (r : InputResult) : bytes :=
  be 16 (rb_session (ir_binding r)) ++ be 16 (rb_lease (ir_binding r)) ++ be 8 (ir_sequence r)
  ++ space_bytes (ir_space r) ++ stage_bytes (ir_stage r) ++ outcome_bytes (ir_outcome r)
  ++ be 4 (ir_submitted r) ++ bool_bytes (unknown_next_operation r) ++ reason_bytes (ir_reason r).

Definition binding_typed (b : ResultBinding) : Prop :=
  fits u32_max (rb_channel b) /\ fits u128_max (rb_session b) /\ fits u128_max (rb_lease b).

Lemma result_codec_body binding : binding_typed binding ->
  Codec (result_typed binding) result_bytes (read_result binding).
Proof.
  intros (_ & Hs & Hl). split.
  - intros [b sq sp st o n u re] r (Hb & Hq & Hn). cbn in Hb, Hq, Hn. subst b.
    unfold result_bytes, read_result. cbn [ir_binding ir_sequence ir_space ir_stage ir_outcome ir_submitted
      unknown_next_operation ir_reason].
    do 2 (read_step; unfold mbind at 1, M_bind at 1, refuse_if at 1; rewrite Z.eqb_refl; cbn [negb]).
    by read_all.
  - intros r a r' Hr H. unfold read_result in H. read_inv. guards.
    split; [done|]. split; [|done]. unfold result_bytes. cbn. by rewrite <- !app_assoc.
Qed.

Lemma writes_result r : writes (write_result r) (result_bytes r).
Proof. unfold write_result, result_bytes. solve_writes. Qed.

(** A result on the route the host sends it, consistent in itself. *)
Definition result_valid (direction : InputDirection) (delivery : InputDelivery) (r : InputResult) : Prop :=
  route direction delivery = Ok tt /\ validate r = Ok tt.

Lemma result_codec limits binding direction delivery : binding_typed binding -> rb_channel binding <> 0 ->
  exact_codec (result_typed binding) (result_valid direction delivery) (fun _ => WireRecord.InputResult)
    result_bytes (control_bytes limits) (rb_channel binding)
    (fun r out => encode_input_result r out limits direction delivery)
    (fun b => decode_input_result b limits binding direction delivery).
Proof.
  intros Hb Hc. pose proof (result_codec_body binding Hb).
  apply (message_codec (result_typed binding) WireRecord.InputResult result_bytes (control_bytes limits)
           (rb_channel binding) None (route direction delivery) validate (read_result binding) write_result
           (INPUT_RESULT_BYTES - 24)); try done; [apply Hb | | |].
  - intros r _. split; [unfold result_bytes, space_bytes, stage_bytes, outcome_bytes, bool_bytes, reason_bytes; solve_bytes | done].
  - intros r _. apply writes_result.
  - intros r out (<- & _). reflexivity.
Qed.

End ResultMsgProps.

(** * Receipts on the wire

    The submission boundary and the result codec together: which refusals an
    attempt can raise, that every receipt the owner hands out has a reason code and
    passes the result's validation, and so that the agent can always report it. *)

Module Receipts.
Import ResultMsg.

(** ** Which refusals reach a receipt *)

(** A refusal with a reason code of its own, other than the unknown effect. *)
Definition plain (e : Refusal) : Prop := is_ok (try_from e) = true /\ e <> RUnknownEffect.
Definition plain_authority (e : AuthorityError) : Prop := plain (RAuthority e).

Section raises.
Context {S E : Type} (P : E -> Prop).

(** Every error of the method satisfies [P]. *)
Definition raises {A : Type} (m : M S E A) : Prop := forall s e s', m s = (Err e, s') -> P e.

Lemma raises_ret {A} (a : A) : raises (mret a).
Proof. done. Qed.
Lemma raises_gets {A} (f : S -> A) : raises (gets f).
Proof. done. Qed.
Lemma raises_modify f : raises (modify f).
Proof. done. Qed.
Lemma raises_fail {A} e : P e -> raises (fail e : M S E A).
Proof. by intros He s e' s' [= <- <-]. Qed.
Lemma raises_refuse_if c e : (forall s, P (e s)) -> raises (refuse_if c e).
Proof. intros He s e' s'. unfold refuse_if. destruct (c s); [|done]. by intros [= <- <-]. Qed.
Lemma raises_readr {A} (f : S -> Result E A) : (forall s e, f s = Err e -> P e) -> raises (readr f).
Proof. intros Hf s e s'. unfold readr. intros [= He <-]. by eapply Hf. Qed.
Lemma raises_lift {A} (r : Result E A) : (forall e, r = Err e -> P e) -> raises (lift r).
Proof. intros Hf s e s'. unfold lift. intros [= He <-]. by apply Hf. Qed.
Lemma raises_bind {A B} (m : M S E A) (k : A -> M S E B) :
  raises m -> (forall a, raises (k a)) -> raises (m ≫= k).
Proof.
  intros Hm Hk s e s'. unfold mbind, M_bind. destruct (m s) as [[a|e1] s1] eqn:Em; [apply Hk|].
  intros [= <- <-]. by eapply Hm.
Qed.
Lemma raises_if {A} (b : bool) (m n : M S E A) : raises m -> raises n -> raises (if b then m else n).
Proof. by destruct b. Qed.

End raises.

Create HintDb raising.
#[local] Hint Resolve raises_ret raises_gets raises_modify : raising.

Lemma ok_or_plain {A E} (P : E -> Prop) (o : option A) e e' : P e -> ok_or o e = Err e' -> P e'.
Proof. destruct o; [done|]. by intros ? [= <-]. Qed.


(** Decompose a method; an error named in the source is judged by evaluation. *)
Ltac raise :=
  repeat (intros; first
    [ solve [eauto 1 with raising]
    | lazymatch goal with |- raises _ (_ ≫= _) => apply raises_bind | |- raises _ (if _ then _ else _) => apply raises_if end
    | apply raises_fail; by vm_compute
    | apply raises_refuse_if; by vm_compute
    | apply raises_readr; intros ? ?; apply ok_or_plain; by vm_compute
    | apply raises_lift; intros ?; apply ok_or_plain; by vm_compute ]); intros.

Lemma check_time_raises now : raises plain_authority (check_time now).
Proof. intros a e a'. unfold check_time. destruct (_ || _); [|done]. by intros [= <- <-]. Qed.

Lemma observation_live_raises now : raises plain_authority (readr (fun a => check_observation_live a now)).
Proof.
  apply raises_readr. intros a e. unfold check_observation_live. destruct (negb _); [by intros [= <-]|].
  destruct (observation_until a); [|by intros [= <-]]. destruct (_ <? _); [done|]. by intros [= <-].
Qed.
#[local] Hint Resolve check_time_raises observation_live_raises : raising.

(** The errors of the final check are among those with a reason code. *)
Lemma submission_deadline_raises l t now : raises plain_authority (submission_deadline l t now).
Proof. unfold submission_deadline, authorize_submission. raise. Qed.

Lemma invalidate_tickets_raises l : raises plain_authority (invalidate_input_tickets l).
Proof. unfold invalidate_input_tickets. raise. Qed.

Section attempts.
Context {Sk : Type} `{InputSink Sk}.

(** The condition on a platform sink: what it refuses with before it asks for the
    final authorization is a plain refusal.  The trait's default refuses nothing. *)
Definition sink_reports : Prop :=
  forall op s e, fst (sink_revalidate op s) = Err e -> plain e.
Context (Hsink : sink_reports).

Abbreviation plainly m := (raises plain (m : M (World Sk) Refusal _)).

Lemma guard_revoked_raises : plainly guard_revoked.
Proof. unfold guard_revoked, is_revoked, interfere. raise. Qed.
Lemma check_active_raises : plainly check_active.
Proof. unfold check_active, is_revoked, interfere. raise. Qed.
Lemma clock_raises : plainly clock.
Proof. intros w e w'. unfold clock. by destruct (ticks w). Qed.
#[local] Hint Resolve guard_revoked_raises check_active_raises clock_raises : raising.

Lemma monitor_with_raises {A} (f : SessionAuthority -> Result AuthorityError A * SessionAuthority) :
  raises plain_authority f -> plainly (monitor_with f).
Proof.
  intros Hf. unfold monitor_with, interfere, interfere_locked. raise.
  intros w e w'. unfold method. destruct (f (shared w)) as [[x|e1] y] eqn:Ef; [done|].
  intros [= <- <-]. by eapply Hf.
Qed.

Lemma with_time_raises {A} now (f : HostInstant -> SessionAuthority -> Result AuthorityError A * SessionAuthority) :
  (forall at_, raises plain_authority (f at_)) -> plainly (with_time now f).
Proof.
  intros Hf. unfold with_time, set_revoked, on_own. raise. apply monitor_with_raises.
  intros s0 e s1 E. by eapply Hf.
Qed.

Lemma check_raises c now : plainly (check c now).
Proof.
  unfold check, interfere. raise. apply with_time_raises. intros at_. apply submission_deadline_raises.
Qed.
Lemma require_raises cap : plainly (require cap).
Proof. unfold require. raise. Qed.
#[local] Hint Resolve check_raises require_raises : raising.
Lemma position_raises p : plainly (Submission.position p).
Proof. unfold Submission.position. raise. Qed.
#[local] Hint Resolve position_raises : raising.

Lemma prepare_raises op : plainly (on_sink (sink_prepare op) RPlatform).
Proof.
  intros w e w'. unfold on_sink. destruct (sink_prepare op (sink w)) as [[a|e1] s]; [done|].
  intros [= <- <-]. by destruct e1.
Qed.

Lemma submit_authorized_raises op rq : plainly (submit_authorized op rq (final_authorization rq op)).
Proof using All.
  unfold submit_authorized, final_authorization, on_own. raise.
  - intros w e w'. unfold on_sink. pose proof (Hsink op (sink w)) as Hs.
    destruct (sink_revalidate op (sink w)) as [[a|e1] s]; [done|]. intros [= <- <-]. by apply Hs.
  - intros w e w'. unfold native. by destruct (sink_submit_until _ _ _).
Qed.

(** ** Refusals and the mark of an uncertain effect *)

Definition same_mark (w w' : World Sk) : Prop := uncertain w' = uncertain w.
#[local] Instance same_mark_preorder : PreOrder same_mark.
Proof. unfold same_mark. split; [done|]. intros x y z. congruence. Qed.

Lemma calm_mark {A} (m : M (World Sk) Refusal A) : respects quiet m -> respects same_mark m.
Proof. intros Hm w. apply Hm. Qed.

(** From a state without an uncertain effect, the method refuses with a reason code,
    and refuses as unknown exactly when it leaves the mark behind. *)
Definition honest {A} (m : M (World Sk) Refusal A) : Prop :=
  forall w, uncertain w = false ->
    match m w with
    | (Ok _, w') => uncertain w' = false
    | (Err e, w') => is_ok (try_from e) = true /\ (e = RUnknownEffect <-> uncertain w' = true)
    end.

Lemma honest_plain {A} (m : M (World Sk) Refusal A) :
  respects same_mark m -> raises plain m -> honest m.
Proof.
  intros Hm Hp w Hw. specialize (Hm w). specialize (Hp w). destruct (m w) as [[a|e] w']; cbn in Hm; [congruence|].
  destruct (Hp e w' eq_refl) as [Ho Hn]. split; [done|]. rewrite Hm, Hw. done.
Qed.

Lemma honest_bind {A B} (m : M (World Sk) Refusal A) (k : A -> M (World Sk) Refusal B) :
  honest m -> (forall a, honest (k a)) -> honest (m ≫= k).
Proof.
  intros Hm Hk w Hw. unfold mbind, M_bind. specialize (Hm w Hw). destruct (m w) as [[a|e] w']; [|done].
  by apply Hk.
Qed.

Lemma honest_own f : honest (on_own f : M (World Sk) Refusal unit).
Proof. by intros w Hw. Qed.
Lemma honest_ret {A} (a : A) : honest (mret a : M (World Sk) Refusal A).
Proof. by intros w Hw. Qed.
Lemma honest_gets {A} (f : World Sk -> A) : honest (gets f).
Proof. by intros w Hw. Qed.
Lemma honest_if {A} (b : bool) (m n : M (World Sk) Refusal A) : honest m -> honest n -> honest (if b then m else n).
Proof. by destruct b. Qed.
Lemma honest_refuse_if c e : (forall w, plain (e w)) -> honest (refuse_if c e : M (World Sk) Refusal unit).
Proof. intros He. apply honest_plain; [apply respects_refuse_if, _ | by apply raises_refuse_if]. Qed.
Lemma honest_fail {A} e : plain e -> honest (fail e : M (World Sk) Refusal A).
Proof. intros He. apply honest_plain; [apply respects_fail, _ | by apply raises_fail]. Qed.
Lemma honest_require cap : honest (require cap : M (World Sk) Refusal unit).
Proof. apply honest_plain; [apply calm_mark, require_quiet | apply require_raises]. Qed.
Lemma honest_position pt : honest (Submission.position pt : M (World Sk) Refusal unit).
Proof. apply honest_plain; [apply calm_mark, position_quiet | apply position_raises]. Qed.

Lemma submit_authorized_mark op rq (w : World Sk) r w' :
  submit_authorized op rq (final_authorization rq op) w = (Ok r, w') -> uncertain w' = true.
Proof.
  unfold submit_authorized. intros (u & w1 & _ & Hk)%method_bind_Ok.
  apply method_bind_Ok in Hk as (until & w2 & Hf & Hk).
  apply method_bind_Ok in Hk as (g & w3 & [= _ <-] & Hn).
  unfold native in Hn. destruct (sink_submit_until _ _ _) as [x s]. injection Hn as _ <-. cbn.
  unfold final_authorization in Hf. apply method_bind_Ok in Hf as (t & w4 & _ & Hf).
  apply method_bind_Ok in Hf as (v & w5 & _ & Hf). apply method_bind_Ok in Hf as ([] & w6 & _ & Hf).
  apply method_bind_Ok in Hf as ([] & w7 & [= <-] & [= _ <-]). done.
Qed.

Lemma honest_one rq op : honest (one rq op : M (World Sk) Refusal unit).
Proof using All.
  intros w Hw. unfold one, with_prepared.
  assert (forall m : M (World Sk) Refusal unit, honest m ->
    match (let (r, w) := m w in (r, snd (cancel_prepared (Sk:=Sk) w))) with
    | (Ok _, w') => uncertain w' = false
    | (Err e, w') => is_ok (try_from e) = true /\ (e = RUnknownEffect <-> uncertain w' = true)
    end) as Hcancel.
  { intros m Hm. specialize (Hm w Hw). by destruct (m w) as [[a|e] w']. }
  apply Hcancel. clear Hcancel w Hw. apply honest_bind.
  { apply honest_plain; [|apply prepare_raises]. intros w. unfold on_sink. by destruct (sink_prepare op (sink w)). }
  intros _. apply honest_bind; [apply honest_gets|]. intros previous w Hw. unfold method.
  pose proof (submit_authorized_raises op rq w) as Hr. pose proof (submit_authorized_mark op rq w) as Hm.
  destruct (submit_authorized op rq (final_authorization rq op) w) as [[[]|e] w'];
    try (by vm_compute); try (split; [by vm_compute|by vm_compute]).
  - by destruct e0.
  - split; [done|]. by rewrite (Hm _ _ eq_refl).
  - destruct (Hr e w' eq_refl) as [Ho Hn]. by split.
Qed.

Lemma honest_for_each {A} (f : A -> M (World Sk) Refusal unit) l : (forall x, honest (f x)) -> honest (for_each f l).
Proof.
  intros Hf. induction l as [|x l IH]; [apply honest_ret|]. cbn [for_each]. by apply honest_bind.
Qed.

Create HintDb honesty.
#[local] Hint Resolve honest_own honest_ret honest_gets honest_require honest_position honest_one : honesty.
Ltac be_honest :=
  repeat (intros; first
    [ solve [eauto 1 with honesty]
    | lazymatch goal with |- honest (_ ≫= _) => apply honest_bind | |- honest (if _ then _ else _) => apply honest_if end
    | apply honest_refuse_if; by vm_compute | apply honest_fail; by vm_compute
    | apply honest_for_each ]); intros.

Lemma honest_key rq k t : honest (key_transition rq k t : M (World Sk) Refusal unit).
Proof using All. unfold key_transition. be_honest. destruct t; be_honest. Qed.

Lemma honest_delta new old : honest (readr (fun w : World Sk => delta new (old w))).
Proof.
  apply honest_plain; [apply respects_readr, _|]. apply raises_readr. intros w e. unfold delta.
  destruct (_ && _); [done|]. by intros [= <-].
Qed.

Lemma honest_realize rq : honest (realize rq : M (World Sk) Refusal unit).
Proof using All.
  unfold realize. destruct (event rq) as [k t|b pr p ba|p|e x y|p ba x y u|t|m e].
  - apply honest_key.
  - be_honest.
  - be_honest.
  - be_honest; apply honest_delta.
  - be_honest; [destruct (Scroll.new x y); be_honest|]. destruct a2; unfold wheel_steps; be_honest.
  - be_honest.
  - be_honest. apply honest_plain; [apply calm_mark, monitor_with_quiet|].
    apply monitor_with_raises, invalidate_tickets_raises.
Qed.

Lemma honest_execute rq : honest (execute rq : M (World Sk) Refusal unit).
Proof using All.
  unfold execute. apply honest_bind; [apply honest_plain; [apply calm_mark, clock_quiet | apply clock_raises]|].
  intros now. apply honest_bind; [apply honest_plain; [apply calm_mark, check_quiet | apply check_raises]|].
  intros deadline. apply honest_realize.
Qed.

(** ** Receipts *)

(** The agent can report the receipt, whatever channel it is bound to. *)
Definition reportable (space : SequenceSpace) (r : Receipt) : Prop :=
  forall b, rb_channel b <> 0 -> is_ok (from_receipt b space r) = true.

Lemma receipt_reportable rq result (w : World Sk) space :
  0 <= submitted w -> submitted w < MAX_COMMITTED_TEXT_BYTES + (if is_ok result then 1 else 0) ->
  match result with
  | Ok _ => uncertain w = false /\ (space = PointerSpace -> submitted w = 1)
  | Err e => is_ok (try_from e) = true /\ (e = RUnknownEffect <-> uncertain w = true)
             /\ (space = PointerSpace -> submitted w = 0)
  end ->
  reportable space (receipt_of rq result w).
Proof.
  intros Hpos Hmax Hr b Hb. apply Z.eqb_neq in Hb. unfold from_receipt, receipt_of, validate.
  cbn [rc_refusal rc_sequence rc_outcome submitted_operations].
  destruct result as [u|e]; cbn [is_ok] in Hmax.
  - destruct Hr as [-> Hp]. cbn [mbind Result_bind ir_binding ir_submitted ir_outcome ir_space
      unknown_next_operation ir_stage]. rewrite Hb.
    destruct (Z.eqb_spec (submitted w) 0) as [Hz|Hz], (Z.ltb_spec MAX_COMMITTED_TEXT_BYTES (submitted w)),
      (Z.eqb_spec (submitted w) MAX_COMMITTED_TEXT_BYTES), (Z.ltb_spec 1 (submitted w)), space; try lia;
      try reflexivity; specialize (Hp eq_refl); lia.
  - destruct Hr as (Ho & Hu & Hp). destruct (try_from e) as [reason|] eqn:Et; [|done].
    cbn [mbind Result_bind ir_binding ir_submitted ir_outcome ir_space unknown_next_operation ir_stage]. rewrite Hb.
    destruct (Z.ltb_spec MAX_COMMITTED_TEXT_BYTES (submitted w)),
      (Z.eqb_spec (submitted w) MAX_COMMITTED_TEXT_BYTES); try lia. clear Ho Hb Hmax.
    destruct (uncertain w).
    + assert (e = RUnknownEffect) as -> by (by apply Hu). injection Et as <-.
      destruct (Z.eqb_spec (submitted w) 0) as [Hz|Hz], space; try reflexivity.
      * rewrite Hz. reflexivity.
      * specialize (Hp eq_refl). lia.
    + assert (e <> RUnknownEffect) as Hne by (by intros ->; destruct Hu as [Hu _]; specialize (Hu eq_refl)).
      destruct (Z.ltb_spec 0 (submitted w)), (Z.eqb_spec (submitted w) 0) as [Hz|Hz], space; try lia;
        try (specialize (Hp eq_refl); lia); rewrite ?Hz;
        destruct e as [[]|[]| | | | | | | | | |[]| | |]; try done; injection Et as <-; reflexivity.
Qed.

(** A refused attempt confirmed fewer submissions than the request expands to. *)
Lemma refused_count rq ops (w : World Sk) e w' l :
  performs rq ops w (Err e) w' l -> bounded ops l ->
  n_sub l = 0%nat \/ (n_sub l < length ops)%nat /\ Z.of_nat (length ops) <= MAX_COMMITTED_TEXT_BYTES.
Proof.
  intros Hp [->|Hb]; [by left|]. pose proof (performs_length _ _ _ _ _ _ Hp) as Hl.
  destruct Hp as [_ _ _ _ _ [_ [(Hs & _ & [Hlt| ->])|(l0 & e0 & -> & Hs & Hn & _)]]].
  - right. rewrite (n_sub_all l Hs). lia.
  - by left.
  - right. rewrite n_sub_app, (n_sub_all l0 Hs). rewrite length_app in Hl. cbn [length] in Hl.
    assert (n_sub [e0] = 0%nat) as -> by (unfold n_sub; by rewrite filter_cons_False by done). lia.
Qed.

Definition space_of (rq : InputRequest) : SequenceSpace :=
  if is_pointer (event rq) then PointerSpace else ActionSpace.

Lemma execute_reportable rq (w : World Sk) :
  ready w -> submitted w = 0 ->
  let r := receipt_of rq (fst (execute rq w)) (snd (execute rq w)) in
  0 <= submitted_operations r /\ reportable (space_of rq) r.
Proof using All.
  intros Hw H0. destruct (execute_performs rq w Hw) as (ops & l & Ho & Hp & Hb).
  pose proof (performs_bounded _ _ _ _ _ _ Hp Hb) as Hlen.
  pose proof (receipt_truthful _ _ _ _ _ _ H0 Hp Hb) as [Hn _]. cbn [submitted_operations receipt_of] in Hn.
  pose proof (length_filter is_sub l) as Hf. fold (n_sub l) in Hf.
  pose proof (honest_execute rq w (proj1 Hw)) as Hh.
  assert (space_of rq = PointerSpace -> length ops = 1%nat) as Hone.
  { unfold space_of. destruct Ho as (pr & ls & ->). by destruct (event rq). }
  cbv zeta. split; [cbn; lia|].
  destruct (execute rq w) as [[u|e] w']; cbn [fst snd] in *; apply receipt_reportable; rewrite ?Hn; cbn [is_ok]; try lia.
  - split; [done|]. intros Hs. destruct Hp as [_ _ _ _ _ (Hops & Hsub & _)].
    rewrite (n_sub_all l Hsub). assert (length l = 1%nat); [|lia].
    by rewrite <- (Hone Hs), <- Hops, length_fmap.
  - destruct (refused_count _ _ _ _ _ _ Hp Hb) as [->|?]; [done|lia].
  - destruct Hh as [Hh1 Hh2]. split; [done|]. split; [done|]. intros Hs. specialize (Hone Hs).
    destruct (refused_count _ _ _ _ _ _ Hp Hb); lia.
Qed.

(** ** The receipts an owner retains *)

Definition retains_good (w : World Sk) : Prop :=
  forall r, Some r ∈ is_receipts (own w) -> 0 <= submitted_operations r /\ reportable ActionSpace r.

Definition same_receipts (w w' : World Sk) : Prop := is_receipts (own w') = is_receipts (own w).
#[local] Instance same_receipts_preorder : PreOrder same_receipts.
Proof. unfold same_receipts. split; [done|]. intros x y z. congruence. Qed.
Abbreviation keeps m := (respects (E:=Refusal) same_receipts m).

Lemma quiet_receipts {A} (m : M (World Sk) Refusal A) : respects quiet m -> keeps m.
Proof. intros Hm w. apply (st_receipts _ _ (qu_steady _ _ (Hm w))). Qed.
Lemma revoke_receipts : keeps (revoke (Sk:=Sk)).
Proof. by intros w. Qed.
Lemma try_release_receipts op : keeps (try_release (Sk:=Sk) op).
Proof.
  intros w. unfold try_release, on_sink, native. destruct (sink_prepare op (sink w)) as [[u|e] s]; [|done]. cbn.
  by destruct (sink_submit op s) as [[] s'].
Qed.
#[local] Hint Resolve revoke_receipts try_release_receipts : calm.
Lemma prepared_receipts {A} (m : M (World Sk) Refusal A) : keeps m -> keeps (with_prepared m).
Proof. intros Hm w. unfold with_prepared. specialize (Hm w). by destruct (m w) as [r w']. Qed.
Lemma fold_each_receipts {A B} (f : A -> B -> M (World Sk) Refusal B) l : forall b,
  (forall x b, keeps (f x b)) -> keeps (fold_each f l b).
Proof.
  induction l as [|x l IH]; intros b Hf; cbn [fold_each]; respect. by apply IH.
Qed.

Lemma own_receipts f : (forall s, is_receipts (f s) = is_receipts s) -> keeps (on_own (Sk:=Sk) f).
Proof. intros Hf w. apply Hf. Qed.

Lemma release_held_receipts : keeps (release_held (Sk:=Sk)).
Proof.
  assert (forall n, keeps (release_wheel (Sk:=Sk) n)) as Hw.
  { intros n. unfold release_wheel. respect. destruct a as [d|]; respect; try by apply own_receipts.
    apply prepared_receipts. respect. }
  assert (forall u n, keeps (release_key (Sk:=Sk) u n)) as Hk.
  { intros u n. unfold release_key. respect. destruct (if a then _ else _); respect; by apply own_receipts. }
  assert (forall b n, keeps (release_button (Sk:=Sk) b n)) as Hb.
  { intros b n. unfold release_button. respect; by apply own_receipts. }
  unfold release_held. respect; by apply fold_each_receipts.
Qed.
#[local] Hint Resolve release_held_receipts : calm.

Lemma cleanup_receipts : keeps (cleanup (Sk:=Sk)).
Proof. unfold cleanup. respect. Qed.
#[local] Hint Resolve cleanup_receipts : calm.

Lemma maintain_receipts now : keeps (maintain (Sk:=Sk) now).
Proof.
  assert (keeps (maintain_status (Sk:=Sk) now)) as Hs.
  { intros w. unfold maintain_status. pose proof (quiet_receipts _ (with_time_quiet now control_status) w) as Ht.
    destruct (with_time now control_status w) as [[[d|d released]|e] w1]; cbn [snd] in Ht; [done| |].
    - etrans; [exact Ht|].
      match goal with |- same_receipts w1 (snd (?m w1)) => assert (keeps m) as Hm; [|apply Hm] end.
      apply respects_bind; [apply _|apply release_held_receipts|intros c].
      apply respects_bind; [apply _| |intros _; apply respects_ret, _].
      apply respects_if; [|apply respects_ret, _].
      apply (quiet_receipts (ignore_error _)). intros w2.
      exact (monitor_with_quiet (confirm_suspension_release (is_lease (own w2))) w2).
    - etrans; [exact Ht|]. by apply revoke_receipts. }
  unfold maintain. pose proof (quiet_receipts _ is_revoked_quiet) as Hq. respect.
  destruct a0; respect.
Qed.

Lemma reconcile_held_receipts rq : keeps (reconcile_held (Sk:=Sk) rq).
Proof.
  assert (forall f, keeps (on_report (Sk:=Sk) f)) as Hreport by (intros f; apply quiet_receipts, on_report_quiet).
  assert (forall now, keeps (check_reconciliation (Sk:=Sk) now)) as Hcheck
    by (intros now; apply quiet_receipts, check_reconciliation_quiet).
  pose proof (quiet_receipts _ clock_quiet) as Hclock.
  assert (forall op, keeps (reconcile_one (Sk:=Sk) op)) as Hone.
  { intros op. unfold reconcile_one. apply prepared_receipts. respect.
    - apply quiet_receipts, on_sink_quiet.
    - intros w. unfold native. by destruct (sink_submit op (sink w)).
    - destruct a3; respect. apply own_receipts. intros s. destruct op as [? []| |? []| | |? []|]; done. }
  assert (forall ops, keeps (reconcile_run (Sk:=Sk) ops)) as Hrun.
  { intros ops. unfold reconcile_run. respect. apply for_each_respects; [apply _|]. intros op _. apply Hone. }
  assert (forall res, keeps (finish_reconciliation (Sk:=Sk) rq res)) as Hfinish
    by (intros res; unfold finish_reconciliation; respect).
  intros w. unfold reconcile_held. destruct (_ || _); [done|].
  pose proof (quiet_receipts _ check_active_quiet w) as Hq. destruct (check_active w) as [active w1]; cbn in Hq.
  destruct (_ || _); [exact Hq|]. destruct (Ledger.next_sequence _) as [expected|]; [|exact Hq].
  destruct (_ <? _); [exact Hq|]. destruct (_ || _); (etrans; [exact Hq|]); [done|].
  cbv zeta. unfold mbind, M_bind, method, on_own, modify. 
  set (w2 := w1 <| own := _ |>). assert (same_receipts w1 w2) as H12 by done. etrans; [exact H12|].
  pose proof (Hrun (missing_releases (own w1) (Held.held rq)) w2) as H3.
  destruct (reconcile_run _ w2) as [res w3]. etrans; [exact H3 | apply Hfinish].
Qed.

Definition good (rq : InputRequest) (r : Receipt) : Prop :=
  rc_sequence r = rq_sequence rq /\ 0 <= submitted_operations r /\ reportable (space_of rq) r.

Lemma record_receipts r pointer (w : World Sk) x :
  Some x ∈ is_receipts (own (snd (Submission.record r pointer w))) ->
  Some x ∈ is_receipts (own w) \/ pointer = false /\ x = r.
Proof.
  unfold Submission.record, revoke, on_own, set_revoked. run_method. unfold method.
  destruct pointer; cbn; [by destruct (outcome_continues _); left|].
  destruct (Ledger.record_outcome _ _ _ _) as [res g]; cbn.
  intros Hx. assert (Some x ∈ <[is_cursor (own w) := Some r]> (is_receipts (own w))) as Hin.
  { destruct (is_ok res), (outcome_continues _); exact Hx. }
  apply list_elem_of_lookup in Hin as (i & [(<- & [= ->] & _)|[_ Hi]]%list_lookup_insert_Some); [by right|].
  left. by eapply list_elem_of_lookup_2.
Qed.

Lemma attempt_receipts rq (w : World Sk) :
  retains_good w ->
  retains_good (snd (attempt rq (is_pointer (event rq)) w)) /\
  forall r, fst (attempt rq (is_pointer (event rq)) w) = Ok r -> good rq r.
Proof using All.
  intros Hw. unfold attempt. set (w0 := w <| submitted := 0 |> <| uncertain := false |>).
  assert (ready w0) as Hready by by vm_compute.
  pose proof (execute_reportable rq w0 Hready eq_refl) as Hgood. cbv zeta in Hgood.
  destruct (execute_performs rq w0 Hready) as (ops & l & _ & Hp & _).
  pose proof (kp_receipts _ _ (pf_kept _ _ _ _ _ _ Hp)) as Hkept. clear Hp.
  destruct (execute rq w0) as [res w1]; cbn [fst snd] in *. set (r0 := receipt_of rq res w1) in *.
  pose proof (record_receipts r0 (is_pointer (event rq)) w1) as Hrec.
  pose proof (record_Ok r0 (is_pointer (event rq)) w1) as Hok.
  unfold mbind, M_bind. destruct (Submission.record r0 _ w1) as [rr w2]; cbn in Hok, Hrec |- *. rewrite Hok. cbn. split.
  - intros x [Hx|[Hx ->]]%Hrec; [apply Hw; rewrite Hkept in Hx; exact Hx|].
    unfold space_of in Hgood. by rewrite Hx in Hgood.
  - intros r [= <-]. by split.
Qed.

Lemma retained_good rq (w : World Sk) r :
  retains_good w -> is_pointer (event rq) = false ->
  retained_receipt (own w) (rq_sequence rq) = Some r -> good rq r.
Proof.
  intros Hw Hp [Hin%elem_of_flatten Hs%Z.eqb_eq]%find_first_Some. unfold good, space_of. rewrite Hp.
  split; [done|]. by apply Hw.
Qed.

Lemma dispatch_receipts rq (w : World Sk) :
  retains_good w ->
  retains_good (snd (dispatch rq w)) /\ forall r, fst (dispatch rq w) = Ok (DCompleted r) -> good rq r.
Proof using All.
  intros Hw. unfold dispatch, mbind, M_bind, refuse_if, gets.
  destruct (negb _); [done|]. destruct (negb _); [done|].
  assert (forall w1 : World Sk, is_receipts (own w1) = is_receipts (own w) -> retains_good w1) as Hsame
    by (intros w1 E x; rewrite E; apply Hw).
  assert (forall w1 : World Sk, is_receipts (own w1) = is_receipts (own w) ->
    let m := match attempt rq (is_pointer (event rq)) w1 with
             | (Ok a, s') => (Ok (DCompleted a) : Result Refusal Dispatch, s') | (Err e, s') => (Err e, s') end in
    retains_good (snd m) /\ forall r, fst m = Ok (DCompleted r) -> good rq r) as Hattempt.
  { intros w1 E. destruct (attempt_receipts rq w1 (Hsame w1 E)) as [H1 H2].
    destruct (attempt rq _ w1) as [[r|e] w2]; cbn in *; split; try done. intros r' [= <-]. by apply H2. }
  destruct (is_pointer (event rq)) eqn:Hp.
  - destruct (is_some_and _ _); [done|].
    pose proof (quiet_receipts _ check_active_quiet w) as Hq.
    destruct (check_active w) as [[u|e] w1]; cbn in Hq; [|split; [by apply Hsame|done]].
    by apply Hattempt.
  - unfold method. destruct (Ledger.admit_action _ _ _) as [[[]|e] g]; cbn.
    1: by apply Hattempt.
    all: split; [first [by apply Hsame | run_method; by destruct (Ledger.fenced g); apply Hsame]|intros r]; try done.
    + match goal with |- Ok (match ?o with _ => _ end) = _ -> _ => destruct o eqn:E end; [|done].
      intros [= <-]. by eapply retained_good; [| |exact E]; [apply Hsame|].
    + run_method. by destruct (Ledger.fenced g).
Qed.

Lemma act_receipts a (w : World Sk) : retains_good w -> retains_good (act a w).
Proof using All.
  intros Hw. assert (forall w1, same_receipts w w1 -> retains_good w1) as Hsame
    by (intros w1 E x; rewrite E; apply Hw).
  destruct a; cbn [act]; [by apply dispatch_receipts|apply Hsame..].
  - apply maintain_receipts.
  - apply cleanup_receipts.
  - apply release_held_receipts.
  - apply revoke_receipts.
  - apply reconcile_held_receipts.
  - apply (quiet_receipts (owner_issue_observation_challenge n now)), renewal_quiet.
  - apply (quiet_receipts (renew_observation n now)), renewal_quiet.
  - apply (quiet_receipts (owner_issue_control_challenge n now)), renewal_quiet.
  - apply (quiet_receipts (renew_control n now)), renew_control_quiet.
  - apply (quiet_receipts (issue_ticket_snapshot t now presented)), issue_ticket_snapshot_quiet.
  - apply (quiet_receipts take_control_lease), take_control_lease_quiet.
Qed.

Lemma history_receipts acts : forall w : World Sk, retains_good w -> retains_good (run_actions acts w).
Proof using All.
  induction acts as [|a acts IH]; intros w Hw; [done|]. by apply IH, act_receipts.
Qed.

End attempts.

(** ** What a result says of a receipt *)

(** Which refusals each code on the wire stands for: the table of refusal codes of
    [docs/PROTOCOL_INPUT.md], read from the code to the refusals.  The detail of a
    refusal, its phase or its sequences, is not on the wire. *)
Definition names (code : Z) (e : Refusal) : Prop :=
  match code with
  | 1 => exists phase, e = RAuthority (InvalidState phase)
  | 2 => e = RAuthority ObservationExpired
  | 3 => e = RAuthority NoLease
  | 4 => e = RAuthority StaleLease \/ e = RSequence SeqStaleLease \/ e = RStaleLease
  | 5 => e = RAuthority LeaseExpired
  | 6 => e = RAuthority ViewUnready
  | 7 => e = RAuthority ControllerBusy
  | 8 => e = RAuthority ControllerCleanupRequired
  | 9 => e = RAuthority TicketInvalid
  | 10 => e = RAuthority TicketExpired \/ e = RExpiredAtBoundary
  | 11 => e = RAuthority ChallengeMismatch
  | 12 => e = RAuthority ChallengePending
  | 13 => e = RAuthority ChallengeExpired
  | 14 => e = RAuthority ClockRegression
  | 15 => e = RAuthority DeadlineOverflow
  | 16 => exists provided, e = RSequence (InvalidCapacity provided)
  | 17 => e = RSequence Fenced
  | 18 => exists pending, e = RSequence (PreviousActionPending pending)
  | 19 => exists expected received, e = RSequence (SequenceGap expected received)
  | 20 => e = RSequence NotPending
  | 21 => e = RStaleSession
  | 22 => e = RStaleView
  | 23 => e = ROutOfBounds
  | 24 => e = RUnsupported \/ e = RPlatform PUnsupported
  | 25 => e = RInvalidTransition
  | 26 => e = RRelativeOverflow
  | 27 => e = RModeMismatch
  | 28 => e = RRevoked
  | 29 => e = RPlatform PPermission
  | 30 => e = RPlatform PGeometryChanged
  | 31 => e = RPlatform PUnavailable
  | 32 => e = RUnknownEffect
  | 33 => e = RAuthorityUnavailable
  | _ => False
  end.

(** [result] is the receipt [r] of the request [rq], as the host answers it on
    [channel]: every field, with the stage a receipt can vouch for. *)
Record reports (channel : Z) (rq : InputRequest) (r : Receipt) (result : InputResult) : Prop := {
  rp_binding : ir_binding result
    = mk_binding channel (Credentials.session (credentials rq)) (Credentials.lease (credentials rq));
  rp_space : ir_space result = PointerSpace <-> is_pointer (event rq) = true;
  rp_sequence : ir_sequence result = rq_sequence rq /\ rc_sequence r = rq_sequence rq;
  rp_outcome : ir_outcome result = rc_outcome r;
  rp_submitted : ir_submitted result = submitted_operations r;
  rp_stage : ir_stage result <> StObserved /\ (ir_stage result = StAdmitted <-> submitted_operations r = 0);
  rp_unknown : unknown_next_operation result = true <-> rc_outcome r = EffectUnknown;
  rp_reason : match ir_reason result, rc_refusal r with
              | None, None => True
              | Some reason, Some e => names (reason_code reason) e
              | _, _ => False
              end }.

Lemma try_from_names e reason : try_from e = Ok reason -> names (reason_code reason) e.
Proof.
  intros H. destruct e as [[]|[]| | | | | | | | | |[]| | |]; try done; injection H as <-; cbn; eauto.
Qed.

Lemma refusal_named (o : option Refusal) reason :
  match o with None => Ok None | Some e => x ← try_from e; Ok (Some x) end = Ok reason ->
  match reason, o with None, None => True | Some x, Some e => names (reason_code x) e | _, _ => False end.
Proof.
  destruct o as [e|]; [|by intros [= <-]]. intros (x & Hx & [= <-])%Result_bind_Ok. by apply try_from_names.
Qed.

(** A reported result has the fields the codec requires, and they are the receipt's. *)
Lemma reported_typed channel rq r result :
  fits u64_max (rq_sequence rq) -> good rq r ->
  from_receipt (fst (result_context channel rq)) (snd (result_context channel rq)) r = Ok result ->
  ResultMsgProps.result_typed (fst (result_context channel rq)) result /\ validate result = Ok tt
  /\ reports channel rq r result.
Proof.
  intros Hs (Hq & Hn & _) H. unfold from_receipt in H.
  apply Result_bind_Ok in H as (reason & Hr%refusal_named & H). apply Result_bind_Ok in H as ([] & Hv & [= <-]).
  split; [|split; [done|]].
  - split; [done|]. cbn [ir_sequence ir_submitted]. rewrite Hq. split; [done|].
    unfold validate in Hv. cbn [ir_submitted ir_binding] in Hv.
    destruct (_ =? 0); [done|]. destruct (Z.ltb_spec MAX_COMMITTED_TEXT_BYTES (submitted_operations r)) as [|Hle]; [done|].
    unfold fits, u32_max, MAX_COMMITTED_TEXT_BYTES in *. lia.
  - split; cbn; try done.
    + by destruct (is_pointer (event rq)).
    + by destruct (Z.eqb_spec (submitted_operations r) 0).
    + apply bool_decide_eq_true.
Qed.

(** C20. Every receipt reaches the viewer as it is: over any history of an owner that
    starts without receipts, the agent can turn the reply to any request into a
    reply of its own.  A receipt, replayed requests included, becomes a record with
    the request's session, lease and sequence and the receipt's own outcome and
    count of submitted operations; the record is marked unknown exactly when the
    outcome is, claims no more than submission, and carries a refusal code exactly
    when the receipt has a refusal, one that the protocol's table gives to it.  That
    record fits one control message and the viewer decodes it to the same result.
    The answers without a receipt are passed on as they are.  The platform sink must
    refuse with reportable refusals only. *)
Theorem every_receipt_is_reportable {Sk : Type} `{InputSink Sk} (acts : list Action) (w : World Sk)
  (rq : InputRequest) (channel : Z) (limits : Limits.ProtocolLimits) (out : bytes) :
  sink_reports (Sk:=Sk) -> flatten (is_receipts (own w)) = [] ->
  fits u32_max channel -> channel <> 0 -> credentials_typed (credentials rq) -> fits u64_max (rq_sequence rq) ->
  INPUT_RESULT_BYTES <= control_bytes limits -> INPUT_RESULT_BYTES <= Z.of_nat (length out) <= usize_max ->
  let answer := fst (dispatch rq (run_actions acts w)) in
  let reply := project (result_context channel rq) (InputReplied answer) in
  match answer with
  | Ok (DCompleted r) =>
      exists result, reply = Ok (ReplyRecord result) /\ reports channel rq r result /\
      exists n, fst (encode_input_result result out limits HostToViewer Reliable) = Ok n /\
        decode_input_result (take (Z.to_nat n) (snd (encode_input_result result out limits HostToViewer Reliable)))
          limits (ir_binding result) HostToViewer Reliable = Ok result
  | Ok DConsumedWithoutReceipt => reply = Ok ReplyConsumedWithoutReceipt
  | Ok DObsoletePointer => reply = Ok ReplyObsoletePointer
  | Err e => reply = Ok (ReplyRefused e)
  end.
Proof.
  intros Hsink Hnone Hch Hnz Hc Hs Hlim Hout answer reply.
  assert (retains_good (run_actions acts w)) as Hw.
  { apply history_receipts; [done|]. intros r Hr%elem_of_flatten. rewrite Hnone in Hr. by apply not_elem_of_nil in Hr. }
  destruct (dispatch_receipts Hsink rq _ Hw) as [_ Hgood]. fold answer in Hgood. subst reply.
  destruct answer as [[r| |]|e]; try done. specialize (Hgood r eq_refl).
  set (context := result_context channel rq).
  assert (is_ok (from_receipt (fst context) (snd context) r) = true) as Hok by (apply Hgood; exact Hnz).
  unfold project, project_receipt. destruct (from_receipt (fst context) (snd context) r) as [result|e] eqn:E; [|done].
  destruct (reported_typed _ _ _ _ Hs Hgood E) as (Ht & Hv & Hrep). exists result. split; [done|]. split; [done|].
  rewrite (rp_binding _ _ _ _ Hrep).
  refine (exact_codec_roundtrip _ _ _ _ _ _ _ _ result out
    (ResultMsgProps.result_codec limits (fst context) HostToViewer Reliable _ _) Ht _ _ _ _); try done.
  - destruct Hc as (? & ? & _). done.
  - unfold INPUT_RESULT_BYTES in Hout. assert (24 + length (ResultMsgProps.result_bytes result) = 74)%nat as -> by done. lia.
  - lia.
Qed.

(** The replay of a key press, submitted to the system as one operation, and a press of
    the key that is already down, refused before submission under code 25. *)
Lemma every_receipt_is_reportable_witness :
  exists w, demo_world = Some w /\
    let acts := [ADispatch (press 0 4)] in
    let told rq r := exists result,
      project (result_context 9 rq) (InputReplied (Ok (DCompleted r))) = Ok (ReplyRecord result) /\
      reports 9 rq r result /\
      exists n, fst (encode_input_result result (replicate 80 0) Limits.ABSOLUTE HostToViewer Reliable) = Ok n /\
        decode_input_result
          (take (Z.to_nat n) (snd (encode_input_result result (replicate 80 0) Limits.ABSOLUTE HostToViewer Reliable)))
          Limits.ABSOLUTE (ir_binding result) HostToViewer Reliable = Ok result in
    (exists r, fst (dispatch (press 0 4) (run_actions acts w)) = Ok (DCompleted r) /\
       rc_outcome r = SubmittedToOs /\ submitted_operations r = 1 /\ rc_refusal r = None /\ told (press 0 4) r) /\
    (exists r, fst (dispatch (press 1 4) (run_actions acts w)) = Ok (DCompleted r) /\
       rc_outcome r = RejectedBeforeSubmission /\ submitted_operations r = 0 /\
       rc_refusal r = Some RInvalidTransition /\ names 25 RInvalidTransition /\ told (press 1 4) r).
Proof.
  eexists. split; [vm_compute; reflexivity|]. cbv zeta.
  split; (eexists; split; [vm_compute; reflexivity|]; repeat (split; [vm_compute; reflexivity|]));
  match goal with |- context [result_context 9 ?rq] =>
    assert (exists w, demo_world = Some w) as [w Ew] by (eexists; vm_compute; reflexivity);
    pose proof (every_receipt_is_reportable [ADispatch (press 0 4)] w rq 9 Limits.ABSOLUTE
                  (replicate 80 0)) as H
  end;
  vm_compute in Ew; injection Ew as <-; cbv zeta in H;
  match type of H with context [fst (dispatch ?rq ?h)] =>
    let a := eval vm_compute in (fst (dispatch rq h)) in
    assert (fst (dispatch rq h) = a) as E by (vm_compute; reflexivity) end;
  rewrite E in H; cbn beta iota in H; apply H; clear;
    (reflexivity || (vm_compute; reflexivity) || discriminate || (vm_compute; discriminate)
     || (repeat split; vm_compute; discriminate) || (intros op s e He; discriminate He)).
Defined.

End Receipts.
