(* ===== verification/WireControl.v ===== *)
(** * Session control messages

    [fr-wire/src/authority.rs], [lease_revoked.rs], [closure.rs] and [clock.rs]: how
    a host challenges a viewer's authority, ends a lease or a session, and answers
    clock probes.  Each message is bound to its channel and session, has one
    direction and travels on a reliable stream only. *)

From S2P Require Import Prelude.
From S2P Require Import Bytes.
From S2P Require Import Limits.
From S2P Require Import WireRecord.
From S2P Require Import WireInput.

(** [T::parse(reader.u8()?)?] and the like. *)
Definition parsed {A} (read : M Reader WireError Z) (parse : Z -> Result WireError A) : M Reader WireError A :=
  v ← read; lift (parse v).

(** ** Challenges *)

Module AuthorityMsg.

Definition OBSERVATION_CHALLENGE_BYTES : Z := 24 + 42.
Definition OBSERVATION_RESPONSE_BYTES : Z := 24 + 34.
Definition MAX_AUTHORITY_BYTES : Z := OBSERVATION_CHALLENGE_BYTES + 16.

Record Binding := mk_binding { b_channel : Z; b_session : Z }.
Inductive Scope := Observation | ControlScope (lease : Z).
Inductive Message :=
| ChallengeMessage (scope : Scope) (nonce deadline_micros : Z)
| ResponseMessage (scope : Scope) (nonce : Z).

Definition scope_of (m : Message) : Scope :=
  match m with ChallengeMessage s _ _ | ResponseMessage s _ => s end.
Definition nonce_of (m : Message) : Z :=
  match m with ChallengeMessage _ n _ | ResponseMessage _ n => n end.
Definition kind (m : Message) : Kind :=
  match m with ChallengeMessage _ _ _ => Challenge | ResponseMessage _ _ => ChallengeResponse end.

Definition validate (m : Message) : Result WireError unit :=
  if (nonce_of m =? 0)
     || match scope_of m with ControlScope lease => lease =? 0 | Observation => false end
     || match m with ChallengeMessage _ _ deadline => deadline =? 0 | _ => false end
  then Err InvalidValue else Ok tt.

Definition role (k : Kind) (direction : InputDirection) (delivery : InputDelivery) : Result WireError unit :=
  if negb (is_delivery delivery Reliable) then Err WrongChannel
  else
    expected ← match k with
               | Challenge => Ok HostToViewer
               | ChallengeResponse => Ok ViewerToHost
               | _ => Err UnsupportedKind
               end;
    if negb (is_direction direction expected) then Err WrongRole else Ok tt.

Definition validate_binding (b : Binding) : Result WireError unit :=
  if (b_channel b =? 0) || (b_session b =? 0) then Err InvalidBinding else Ok tt.

Definition is_control (m : Message) : bool := match scope_of m with ControlScope _ => true | Observation => false end.
Definition flag (b : bool) : Z := if b then 1 else 0.

Definition write_message (b : Binding) (m : Message) : M Writer WireError unit :=
  _ ← wu128 (b_session b);
  _ ← wu8 (flag (is_control m)); _ ← wu8 (flag (is_control m));
  _ ← (match scope_of m with ControlScope lease => wu128 lease | Observation => mret tt end);
  _ ← wu128 (nonce_of m);
  match m with ChallengeMessage _ _ deadline => wu64 deadline | _ => mret tt end.

Definition encode (m : Message) (b : Binding) (limits : Limits.ProtocolLimits) (out : bytes)
  (direction : InputDirection) (delivery : InputDelivery) : Result WireError Z * bytes :=
  match (_ ← validate_binding b; _ ← validate m; role (kind m) direction delivery) with
  | Err e => (Err e, out)
  | Ok _ =>
      let payload := 34 + (if is_control m then 16 else 0)
                     + match m with ChallengeMessage _ _ _ => 8 | _ => 0 end in
      record_bounded out (control_bytes limits) (b_channel b) (kind m) payload (write_message b m)
  end.

Definition read_scope : M Reader WireError Scope :=
  x ← ru8; y ← ru8;
  if (x =? 0) && (y =? 0) then mret Observation
  else if (x =? 1) && (y =? 1) then lease ← opaque; mret (ControlScope lease)
  else fail InvalidValue.

Definition read_message (b : Binding) (k : Kind) : M Reader WireError Message :=
  session ← opaque;
  _ ← refuse_if (fun _ => negb (session =? b_session b)) (fun _ => InvalidBinding);
  s ← read_scope;
  nonce ← opaque;
  if bool_decide (k = Challenge) then deadline ← ru64; mret (ChallengeMessage s nonce deadline)
  else mret (ResponseMessage s nonce).

Definition decode (bs : bytes) (b : Binding) (limits : Limits.ProtocolLimits)
  (direction : InputDirection) (delivery : InputDelivery) : Result WireError Message :=
  _ ← validate_binding b;
  r ← decode_bounded bs (control_bytes limits) (b_channel b) None;
  _ ← role (WireRecord.kind r) direction delivery;
  m ← reading r (WireRecord.kind r) (m ← read_message b (WireRecord.kind r); _ ← rfinish; mret m);
  _ ← validate m;
  Ok m.

End AuthorityMsg.

(** ** The end of a lease *)

Module RevokedMsg.
Import AuthorityMsg.

Definition REVOKED_BYTES : Z := 24 + 36.

Inductive Reason :=
| LocalRevoke | LeaseExpired | ObservationEnded | ViewInvalidated | SessionEnded | PermissionLost
| HostFailure | ClientRequested | Suspended | GeometryChanged.
Inductive CleanupStage := FencedStage | ReleasedStage | FailedStage.
Inductive EffectStage := UnknownEffects | ReceiptsPending | ReceiptsComplete.

(** The discriminants and their [parse]. *)
Definition reason_code (r : Reason) : Z :=
  match r with
  | LocalRevoke => 1 | LeaseExpired => 2 | ObservationEnded => 3 | ViewInvalidated => 4 | SessionEnded => 5
  | PermissionLost => 6 | HostFailure => 7 | ClientRequested => 8 | Suspended => 9 | GeometryChanged => 10
  end.
Definition parse_reason (v : Z) : Result WireError Reason :=
  match v with
  | 1 => Ok LocalRevoke | 2 => Ok LeaseExpired | 3 => Ok ObservationEnded | 4 => Ok ViewInvalidated
  | 5 => Ok SessionEnded | 6 => Ok PermissionLost | 7 => Ok HostFailure | 8 => Ok ClientRequested
  | 9 => Ok Suspended | 10 => Ok GeometryChanged
  | _ => Err InvalidValue
  end.
Definition cleanup_code (c : CleanupStage) : Z :=
  match c with FencedStage => 1 | ReleasedStage => 2 | FailedStage => 3 end.
Definition parse_cleanup (v : Z) : Result WireError CleanupStage :=
  match v with 1 => Ok FencedStage | 2 => Ok ReleasedStage | 3 => Ok FailedStage | _ => Err InvalidValue end.
Definition effect_code (e : EffectStage) : Z :=
  match e with UnknownEffects => 0 | ReceiptsPending => 1 | ReceiptsComplete => 2 end.
Definition parse_effect (v : Z) : Result WireError EffectStage :=
  match v with 0 => Ok UnknownEffects | 1 => Ok ReceiptsPending | 2 => Ok ReceiptsComplete | _ => Err InvalidValue end.

Record Revoked := mk_revoked { lease : Z; reason : Reason; cleanup : CleanupStage; effects : EffectStage }.

Definition session_route (b : Binding) (direction : InputDirection) (delivery : InputDelivery)
  : Result WireError unit :=
  if negb (is_direction direction HostToViewer) then Err WrongRole
  else if negb (is_delivery delivery Reliable) then Err WrongChannel
  else if (b_channel b =? 0) || (b_session b =? 0) then Err InvalidBinding else Ok tt.

Definition route (b : Binding) (lease : Z) (direction : InputDirection) (delivery : InputDelivery)
  : Result WireError unit :=
  _ ← session_route b direction delivery;
  if lease =? 0 then Err InvalidBinding else Ok tt.

Definition write_revoked (b : Binding) (v : Revoked) : M Writer WireError unit :=
  _ ← wu128 (b_session b); _ ← wu128 (lease v); _ ← wu16 (reason_code (reason v));
  _ ← wu8 (cleanup_code (cleanup v)); wu8 (effect_code (effects v)).

Definition encode (v : Revoked) (b : Binding) (limits : Limits.ProtocolLimits) (out : bytes)
  (direction : InputDirection) (delivery : InputDelivery) : Result WireError Z * bytes :=
  match route b (lease v) direction delivery with
  | Err e => (Err e, out)
  | Ok _ => record_bounded out (control_bytes limits) (b_channel b) LeaseRevoked (REVOKED_BYTES - 24)
              (write_revoked b v)
  end.

Definition read_revoked (b : Binding) (expected : option Z) : M Reader WireError Revoked :=
  session ← opaque;
  _ ← refuse_if (fun _ => negb (session =? b_session b)) (fun _ => InvalidBinding);
  l ← opaque;
  _ ← refuse_if (fun _ => (l =? 0) || is_some_and (fun e => negb (e =? l)) expected) (fun _ => InvalidBinding);
  r ← parsed ru16 parse_reason;
  c ← parsed ru8 parse_cleanup;
  e ← parsed ru8 parse_effect;
  mret (mk_revoked l r c e).

Definition decode_record (bs : bytes) (b : Binding) (expected : option Z) (limits : Limits.ProtocolLimits)
  : Result WireError Revoked :=
  r ← decode_bounded bs (control_bytes limits) (b_channel b) None;
  reading r LeaseRevoked (v ← read_revoked b expected; _ ← rfinish; mret v).

Definition decode (bs : bytes) (b : Binding) (lease : Z) (limits : Limits.ProtocolLimits)
  (direction : InputDirection) (delivery : InputDelivery) : Result WireError Revoked :=
  _ ← route b lease direction delivery; decode_record bs b (Some lease) limits.

Definition decode_before_grant (bs : bytes) (b : Binding) (limits : Limits.ProtocolLimits)
  (direction : InputDirection) (delivery : InputDelivery) : Result WireError Revoked :=
  _ ← session_route b direction delivery; decode_record bs b None limits.

End RevokedMsg.

(** ** The end of a session *)

Module ClosureMsg.
Import AuthorityMsg.

Definition REQUEST_BYTES : Z := 24 + 19.
Definition CLOSED_BYTES : Z := 24 + 28.

Inductive Reason := Requested | ClientStopping | ClientFailure | InspectionComplete.
Definition reason_code (r : Reason) : Z :=
  match r with Requested => 1 | ClientStopping => 2 | ClientFailure => 3 | InspectionComplete => 4 end.
Definition parse_reason (v : Z) : Result WireError Reason :=
  match v with
  | 1 => Ok Requested | 2 => Ok ClientStopping | 3 => Ok ClientFailure | 4 => Ok InspectionComplete
  | _ => Err InvalidValue
  end.

Definition route (b : Binding) (direction : InputDirection) (delivery : InputDelivery) : Result WireError unit :=
  if negb (is_direction direction ViewerToHost) then Err WrongRole
  else if negb (is_delivery delivery Reliable) then Err WrongChannel
  else if (b_channel b =? 0) || (b_session b =? 0) then Err InvalidBinding else Ok tt.

(** A request is its reason. *)
Definition write_request (b : Binding) (r : Reason) : M Writer WireError unit :=
  _ ← wu128 (b_session b); _ ← wu8 1; wu16 (reason_code r).
Definition encode_request (r : Reason) (b : Binding) (limits : Limits.ProtocolLimits) (out : bytes)
  (direction : InputDirection) (delivery : InputDelivery) : Result WireError Z * bytes :=
  match route b direction delivery with
  | Err e => (Err e, out)
  | Ok _ => record_bounded out (control_bytes limits) (b_channel b) CloseRequest 19 (write_request b r)
  end.

(** 1 is the session; 0, a release of control only, is not implemented. *)
Definition parse_scope (v : Z) : Result WireError unit :=
  match v with 1 => Ok tt | 0 => Err UnsupportedKind | _ => Err InvalidValue end.
Definition read_request (b : Binding) : M Reader WireError Reason :=
  session ← opaque;
  _ ← refuse_if (fun _ => negb (session =? b_session b)) (fun _ => InvalidBinding);
  _ ← parsed ru8 parse_scope;
  parsed ru16 parse_reason.
Definition decode_request (bs : bytes) (b : Binding) (limits : Limits.ProtocolLimits)
  (direction : InputDirection) (delivery : InputDelivery) : Result WireError Reason :=
  _ ← route b direction delivery;
  r ← decode_bounded bs (control_bytes limits) (b_channel b) None;
  reading r CloseRequest (x ← read_request b; _ ← rfinish; mret x).

Inductive ClosedReason :=
| ByClientRequest | HostStopping | AuthorityExpired | ByPermissionLost | ByViewInvalidated | ProtocolError
| ByHostFailure | SessionReplaced | ByGeometryChanged.
Definition closed_code (r : ClosedReason) : Z :=
  match r with
  | ByClientRequest => 1 | HostStopping => 2 | AuthorityExpired => 3 | ByPermissionLost => 4
  | ByViewInvalidated => 5 | ProtocolError => 6 | ByHostFailure => 7 | SessionReplaced => 8 | ByGeometryChanged => 9
  end.
Definition parse_closed (v : Z) : Result WireError ClosedReason :=
  match v with
  | 1 => Ok ByClientRequest | 2 => Ok HostStopping | 3 => Ok AuthorityExpired | 4 => Ok ByPermissionLost
  | 5 => Ok ByViewInvalidated | 6 => Ok ProtocolError | 7 => Ok ByHostFailure | 8 => Ok SessionReplaced
  | 9 => Ok ByGeometryChanged
  | _ => Err InvalidValue
  end.

Inductive Cleanup := Unconfirmed | CompleteCleanup | IncompleteCleanup.
Definition cleanup_code (c : Cleanup) : Z :=
  match c with Unconfirmed => 1 | CompleteCleanup => 2 | IncompleteCleanup => 3 end.
Definition parse_cleanup (v : Z) : Result WireError Cleanup :=
  match v with 1 => Ok Unconfirmed | 2 => Ok CompleteCleanup | 3 => Ok IncompleteCleanup | _ => Err InvalidValue end.

Inductive OutstandingEffects := UnknownEffects | KnownEffects (pending uncertain : Z).
Record ClosedReport := mk_closed { cl_reason : ClosedReason; cl_cleanup : Cleanup; cl_effects : OutstandingEffects }.

Definition closed_route (b : Binding) (direction : InputDirection) (delivery : InputDelivery) : Result WireError unit :=
  if negb (is_direction direction HostToViewer) then Err WrongRole else route b ViewerToHost delivery.

Definition effect_fields (e : OutstandingEffects) : Z * Z * Z :=
  match e with UnknownEffects => (0, 0, 0) | KnownEffects p u => (1, p, u) end.
Definition effects_of (known pending uncertain : Z) : Result WireError OutstandingEffects :=
  match known, pending, uncertain with
  | 0, 0, 0 => Ok UnknownEffects
  | 1, p, u => Ok (KnownEffects p u)
  | _, _, _ => Err InvalidValue
  end.

Definition write_closed (b : Binding) (c : ClosedReport) : M Writer WireError unit :=
  _ ← wu128 (b_session b); _ ← wu16 (closed_code (cl_reason c)); _ ← wu8 (cleanup_code (cl_cleanup c));
  let '(known, pending, uncertain) := effect_fields (cl_effects c) in
  _ ← wu8 known; _ ← wu32 pending; wu32 uncertain.
Definition encode_closed (c : ClosedReport) (b : Binding) (limits : Limits.ProtocolLimits) (out : bytes)
  (direction : InputDirection) (delivery : InputDelivery) : Result WireError Z * bytes :=
  match closed_route b direction delivery with
  | Err e => (Err e, out)
  | Ok _ => record_bounded out (control_bytes limits) (b_channel b) WireRecord.Closed (CLOSED_BYTES - 24)
              (write_closed b c)
  end.

Definition read_closed (b : Binding) : M Reader WireError ClosedReport :=
  session ← opaque;
  _ ← refuse_if (fun _ => negb (session =? b_session b)) (fun _ => InvalidBinding);
  r ← parsed ru16 parse_closed;
  c ← parsed ru8 parse_cleanup;
  known ← ru8; pending ← ru32; uncertain ← ru32;
  e ← lift (effects_of known pending uncertain);
  mret (mk_closed r c e).
Definition decode_closed (bs : bytes) (b : Binding) (limits : Limits.ProtocolLimits)
  (direction : InputDirection) (delivery : InputDelivery) : Result WireError ClosedReport :=
  _ ← closed_route b direction delivery;
  r ← decode_bounded bs (control_bytes limits) (b_channel b) None;
  reading r WireRecord.Closed (x ← read_closed b; _ ← rfinish; mret x).

End ClosureMsg.

(** ** Clock probes *)

(** The connection-control tuple of [negotiation.rs]. *)
Record ControlBinding := mk_control { cb_id : Z; host_boot : Z; os_session : Z; remote_session : Z }.

Module ClockMsg.

Definition PROBE_BYTES : Z := 24 + 56.
Definition REPLY_BYTES : Z := PROBE_BYTES + 8.

Inductive Message := Probe (sequence : Z) | Reply (sequence host_sample_us : Z).
Definition sequence_of (m : Message) : Z := match m with Probe s | Reply s _ => s end.
Definition kind (m : Message) : Kind := match m with Probe _ => ClockProbe | Reply _ _ => ClockReply end.

Definition validate (b : ControlBinding) (sequence : Z) : Result WireError unit :=
  if (cb_id b =? 0) || (host_boot b =? 0) || (os_session b =? 0) || (remote_session b =? 0) then Err InvalidBinding
  else if sequence =? 0 then Err InvalidValue else Ok tt.

Definition role (k : Kind) (direction : InputDirection) (delivery : InputDelivery) : Result WireError unit :=
  if negb (is_delivery delivery Reliable) then Err WrongChannel
  else
    expected ← match k with
               | ClockProbe => Ok ViewerToHost
               | ClockReply => Ok HostToViewer
               | _ => Err UnsupportedKind
               end;
    if negb (is_direction direction expected) then Err WrongRole else Ok tt.

Definition write_message (b : ControlBinding) (m : Message) : M Writer WireError unit :=
  _ ← wu128 (host_boot b); _ ← wu128 (os_session b); _ ← wu128 (remote_session b); _ ← wu64 (sequence_of m);
  match m with Reply _ sample => wu64 sample | _ => mret tt end.

Definition encode (m : Message) (b : ControlBinding) (limits : Limits.ProtocolLimits) (out : bytes)
  (direction : InputDirection) (delivery : InputDelivery) : Result WireError Z * bytes :=
  match (_ ← validate b (sequence_of m); role (kind m) direction delivery) with
  | Err e => (Err e, out)
  | Ok _ =>
      let payload := match m with Probe _ => PROBE_BYTES - 24 | Reply _ _ => REPLY_BYTES - 24 end in
      record_bounded out (control_bytes limits) (cb_id b) (kind m) payload (write_message b m)
  end.

(** The three identifiers are compared with short-circuit: a mismatch ends the
    reading. *)
Definition read_message (b : ControlBinding) (k : Kind) : M Reader WireError Message :=
  x ← opaque; _ ← refuse_if (fun _ => negb (x =? host_boot b)) (fun _ => InvalidBinding);
  x ← opaque; _ ← refuse_if (fun _ => negb (x =? os_session b)) (fun _ => InvalidBinding);
  x ← opaque; _ ← refuse_if (fun _ => negb (x =? remote_session b)) (fun _ => InvalidBinding);
  s ← ru64;
  if bool_decide (k = ClockProbe) then mret (Probe s) else sample ← ru64; mret (Reply s sample).

Definition decode (bs : bytes) (b : ControlBinding) (limits : Limits.ProtocolLimits)
  (direction : InputDirection) (delivery : InputDelivery) : Result WireError Message :=
  _ ← validate b 1;
  r ← decode_bounded bs (control_bytes limits) (cb_id b) None;
  _ ← role (WireRecord.kind r) direction delivery;
  m ← reading r (WireRecord.kind r) (m ← read_message b (WireRecord.kind r); _ ← rfinish; mret m);
  _ ← validate b (sequence_of m);
  Ok m.

End ClockMsg.
