(* ===== verification/WireControlProps.v ===== *)
(** * What session control messages guarantee

    The codecs of [WireControl] are exact: a message bound to another channel or
    session, sent in the wrong direction or on the wrong delivery, or out of its
    ranges is refused by both ends, and every accepted message has one frame. *)

From S2P Require Import Prelude.
From S2P Require Import Bytes.
From S2P Require Import CoreTime.
From S2P Require Import Limits.
From S2P Require Import WireRecord.
From S2P Require Import WireRecordProps.
From S2P Require Import WireInput.
From S2P Require Import WireInputProps.
From S2P Require Import WireControl.

(** ** Shapes *)

(** A value read as a number and parsed. *)
Lemma parsed_codec {A} (m : Z) n (rd : M Reader WireError Z) (code : A -> Z) parse `{!Codec (fits m) (be n) rd} :
  (forall a, parse (code a) = Ok a) -> (forall v a, parse v = Ok a -> v = code a) -> (forall a, fits m (code a)) ->
  Codec (fun _ => True) (fun a => be n (code a)) (parsed rd parse).
Proof.
  intros Hp Hc Hf. unfold parsed. split.
  - intros a r _. unfold mbind, M_bind. rewrite codec_read by done. unfold lift. by rewrite Hp.
  - intros r a r' Hr H. read_inv. split; [done|]. split; [|done].
    match goal with H : parse _ = Ok _ |- _ => by apply Hc in H as -> end.
Qed.

(** What a route allows: every message or none. *)
Definition routed {A} (route : Result WireError unit) (_ : A) : Prop := route = Ok tt.

(** A message checked by its route only. *)
Lemma plain_codec {A} (typed : A -> Prop) (k : Kind) (body_of : A -> bytes) maximum binding ch
  (pre : Result WireError unit) (read : M Reader WireError A) (write : A -> M Writer WireError unit)
  `{!Codec typed body_of read} size enc dec :
  fits u32_max binding -> (binding = 0 -> initial k = true) -> channel k = ch -> 0 <= size <= u32_max ->
  (forall a, typed a -> Forall is_byte (body_of a) /\ Z.of_nat (length (body_of a)) = size) ->
  (forall a, typed a -> writes (write a) (body_of a)) ->
  (forall a out, typed a -> enc a out = match pre with
                             | Err e => (Err e, out)
                             | Ok _ => record_bounded out maximum binding k size (write a)
                             end) ->
  (forall b, dec b = (_ ← pre; r ← decode_bounded b maximum binding ch;
                      reading r k (x ← read; _ ← rfinish; mret x))) ->
  exact_codec typed (routed pre) (fun _ => k) body_of maximum binding enc dec.
Proof.
  intros Hb Hi Hc Hs Hbody Hw Henc Hdec.
  assert (exact_codec typed (fun _ => pre = Ok tt /\ @Ok WireError unit tt = Ok tt) (fun _ => k) body_of maximum binding enc dec) as Hx.
  { apply (message_codec typed k body_of maximum binding ch pre (fun _ => Ok tt) read write size); try done.
    - intros a out Ha. rewrite Henc by done. by destruct pre as [[]|e].
    - intros b. rewrite Hdec. destruct pre; [|done]. cbn. destruct (decode_bounded b maximum binding ch) as [r|e]; [|done].
      cbn. by destruct (reading r k _). }
  destruct Hx as [H1 H2 H3 H4]. unfold routed. split.
  - intros a out Ha Hv. by apply H1.
  - intros a out Ha Hv. apply H2; [done|]. by intros [? _].
  - intros a Ha Hv. by apply H3.
  - intros b a Hbytes Hd. destruct (H4 b a Hbytes Hd) as (? & [? _] & ? & ?). by split_and!.
Qed.

(** A parser's table, read backwards. *)
Ltac parse_exact :=
  let v := fresh in let a := fresh in let H := fresh in
  intros v a; lazymatch goal with |- ?f v = _ -> _ => unfold f end; intros H; repeat match type of H with (match ?c with _ => _ end) = _ => destruct c; try done end;
  by injection H as <-.

(** A message whose reader refuses what [inner] excludes before the record ends. *)
Lemma inner_codec {A} (typed inner : A -> Prop) (k : Kind) (body_of : A -> bytes) maximum binding ch
  (pre : Result WireError unit) (read : M Reader WireError A) (write : A -> M Writer WireError unit)
  `{!Codec (fun a => typed a /\ inner a) body_of read} enc dec :
  fits u32_max binding -> (binding = 0 -> initial k = true) -> channel k = ch ->
  (forall a, typed a -> inner a -> data_ok (body_of a)) ->
  (forall a, typed a -> inner a -> writes (write a) (body_of a)) ->
  (forall a out, typed a -> pre = Ok tt -> inner a ->
     enc a out = record_bounded out maximum binding k (Z.of_nat (length (body_of a))) (write a)) ->
  (forall a out, typed a -> ~ (pre = Ok tt /\ inner a) -> exists e, enc a out = (Err e, out)) ->
  (forall b, dec b = (_ ← pre; r ← decode_bounded b maximum binding ch;
                      reading r k (x ← read; _ ← rfinish; mret x))) ->
  exact_codec typed (fun a => pre = Ok tt /\ inner a) (fun _ => k) body_of maximum binding enc dec.
Proof.
  intros Hb Hi Hc Hbody Hw Henc Href Hdec. apply exact_codec_intro with (ch := ch); try done.
  - intros a Ha [_ Hin]. by apply Hbody.
  - intros a Ha [Hpre Hin]. exists (write a). split; [by apply Hw|]. intros out. by apply Henc.
  - intros a b Hbytes. rewrite Hdec, Result_bind_Ok.
    assert (forall r, Forall is_byte (payload r) -> rbinding r = binding ->
      reading r k (x ← read; _ ← rfinish; mret x) = Ok a <-> WireRecord.kind r = k /\ typed a /\ inner a /\ payload r = body_of a) as Hr.
    { intros [k' bi p] Hp _. cbn [WireRecord.kind payload] in *. rewrite reading_exact. cbn [WireRecord.kind payload]. split.
      - intros [Hk H]. run_reader H. read_inv. destruct_and?. by rewrite app_nil_r.
      - intros (-> & Ht & Hin & ->). split; [done|]. unfold mbind, M_bind. by rewrite (codec_read_all _ _ read). }
    pose proof (record_exact_at typed (fun _ => k) body_of maximum binding ch inner _ a b Hb Hbytes Hr) as H. split.
    + intros ([] & Hpre & Hd). apply H in Hd as (? & ? & ?). by split_and!.
    + intros (Ht & [Hpre Hin] & Hd). exists tt. split; [done|]. by apply H.
Qed.

(** Messages of several kinds in one format: the role of the kind is checked
    between the record and its body, and the body may refuse what [inner] excludes. *)
Lemma framed_codec {A} (typed inner : A -> Prop) (kind_of : A -> Kind) (body_of : A -> bytes) maximum binding ch
  (pre : Result WireError unit) (role : Kind -> Result WireError unit) (post : A -> Result WireError unit)
  (read : Kind -> M Reader WireError A) (write : A -> M Writer WireError unit) (enc : A -> bytes -> Result WireError Z * bytes)
  (dec : bytes -> Result WireError A) :
  fits u32_max binding -> binding <> 0 -> (forall a, channel (kind_of a) = ch) ->
  (forall k, role k = Ok tt -> Codec (fun a => kind_of a = k /\ typed a /\ inner a) body_of (read k)) ->
  (forall a, typed a -> inner a -> post a = Ok tt -> data_ok (body_of a)) ->
  (forall a, typed a -> inner a -> writes (write a) (body_of a)) ->
  (forall a out, typed a -> pre = Ok tt -> inner a -> post a = Ok tt -> role (kind_of a) = Ok tt ->
     enc a out = record_bounded out maximum binding (kind_of a) (Z.of_nat (length (body_of a))) (write a)) ->
  (forall a out, typed a -> ~ (pre = Ok tt /\ inner a /\ post a = Ok tt /\ role (kind_of a) = Ok tt) ->
     exists e, enc a out = (Err e, out)) ->
  (forall b, dec b = (_ ← pre; r ← decode_bounded b maximum binding ch;
                      _ ← role (WireRecord.kind r);
                      x ← reading r (WireRecord.kind r) (x ← read (WireRecord.kind r); _ ← rfinish; mret x);
                      _ ← post x; Ok x)) ->
  exact_codec typed (fun a => pre = Ok tt /\ inner a /\ post a = Ok tt /\ role (kind_of a) = Ok tt) kind_of body_of
    maximum binding enc dec.
Proof.
  intros Hb Hnz Hch Hread Hbody Hw Henc Href Hdec. apply exact_codec_intro with (ch := ch); try done.
  - intros a Ha (_ & Hin & Hp & _). by apply Hbody.
  - intros a Ha (H1 & Hin & H2 & H3). exists (write a). split; [by apply Hw|]. intros out. by apply Henc.
  - intros a b Hbytes. rewrite Hdec. split.
    + intros H. apply Result_bind_Ok in H as ([] & Hpre & H).
      set (dec_r := fun r => _ ← role (WireRecord.kind r);
        x ← reading r (WireRecord.kind r) (x ← read (WireRecord.kind r); _ ← rfinish; mret x); _ ← post x; Ok x) in H.
      apply (record_exact_at typed kind_of body_of maximum binding ch
        (fun a => inner a /\ post a = Ok tt /\ role (kind_of a) = Ok tt) dec_r) in H as (Ht & (Hin & Hp & Hr) & Hd); [by split_and!|done|done|].
      intros [k bi p] Hp _. unfold dec_r. cbn [WireRecord.kind payload] in *. split.
      * intros Hd. apply Result_bind_Ok in Hd as ([] & Hrole & Hd). apply Result_bind_Ok in Hd as (x & Hx & Hd).
        apply Result_bind_Ok in Hd as ([] & Hpost & [= ->]). apply reading_exact in Hx as [_ Hx]. cbn [payload] in Hx.
        run_reader Hx. specialize (Hread k Hrole). read_inv. destruct_and?. subst k. rewrite app_nil_r. by split_and!.
      * intros (-> & Ht & (Hin & Hpost & Hrole) & ->). rewrite Hrole. cbn [mbind Result_bind].
        specialize (Hread _ Hrole). rewrite (proj2 (reading_exact _ _ _ a)); [cbn; by rewrite Hpost|].
        cbn [payload WireRecord.kind]. split; [done|]. unfold mbind, M_bind.
        by rewrite (codec_read_all _ _ (read (kind_of a))).
    + intros (Ht & (Hpre & Hin & Hpost & Hrole) & Hd). rewrite Hpre, Hd. cbn [mbind Result_bind WireRecord.kind]. rewrite Hrole.
      cbn [mbind Result_bind]. specialize (Hread _ Hrole). rewrite (proj2 (reading_exact _ _ _ a)); [cbn; by rewrite Hpost|].
      cbn [payload WireRecord.kind]. split; [done|]. unfold mbind, M_bind.
      by rewrite (codec_read_all _ _ (read (kind_of a))).
Qed.

(** The same without refusals inside the body. *)
Lemma kinds_codec {A} (typed : A -> Prop) (kind_of : A -> Kind) (body_of : A -> bytes) maximum binding
  (pre : Result WireError unit) (role : Kind -> Result WireError unit) (post : A -> Result WireError unit)
  (read : Kind -> M Reader WireError A) (write : A -> M Writer WireError unit) (enc : A -> bytes -> Result WireError Z * bytes)
  (dec : bytes -> Result WireError A) :
  fits u32_max binding -> binding <> 0 -> (forall a, channel (kind_of a) = None) ->
  (forall k, role k = Ok tt -> Codec (fun a => kind_of a = k /\ typed a) body_of (read k)) ->
  (forall a, typed a -> Forall is_byte (body_of a) /\ Z.of_nat (length (body_of a)) <= u32_max) ->
  (forall a, typed a -> writes (write a) (body_of a)) ->
  (forall a out, typed a -> pre = Ok tt -> post a = Ok tt -> role (kind_of a) = Ok tt ->
     enc a out = record_bounded out maximum binding (kind_of a) (Z.of_nat (length (body_of a))) (write a)) ->
  (forall a out, typed a -> ~ (pre = Ok tt /\ post a = Ok tt /\ role (kind_of a) = Ok tt) ->
     exists e, enc a out = (Err e, out)) ->
  (forall b, dec b = (_ ← pre; r ← decode_bounded b maximum binding None;
                      _ ← role (WireRecord.kind r);
                      x ← reading r (WireRecord.kind r) (x ← read (WireRecord.kind r); _ ← rfinish; mret x);
                      _ ← post x; Ok x)) ->
  exact_codec typed (fun a => pre = Ok tt /\ post a = Ok tt /\ role (kind_of a) = Ok tt) kind_of body_of
    maximum binding enc dec.
Proof.
  intros Hb Hnz Hch Hread Hbody Hw Henc Href Hdec.
  eapply (exact_codec_iff typed (fun a => pre = Ok tt /\ True /\ post a = Ok tt /\ role (kind_of a) = Ok tt)); [naive_solver|].
  apply (framed_codec typed (fun _ => True) kind_of body_of maximum binding None pre role post read write); try done.
  - intros k Hk. destruct (Hread k Hk) as [H1 H2]. split; [naive_solver|]. intros r a r' Hr H.
    destruct (H2 r a r' Hr H) as ([? ?] & ? & ?). by split_and!.
  - intros a Ha _ _. by apply Hbody.
  - intros a Ha _. by apply Hw.
  - intros a out Ha H1 _ H2 H3. by apply Henc.
  - intros a out Ha Hn. apply Href; naive_solver.
Qed.

(** A binding of the types' widths. *)
Definition channel_typed (b : AuthorityMsg.Binding) : Prop :=
  fits u32_max (AuthorityMsg.b_channel b) /\ fits u128_max (AuthorityMsg.b_session b).

(** ** Challenges *)

Module AuthorityMsgProps.
Import AuthorityMsg.

Definition scope_typed (s : Scope) : Prop := match s with Observation => True | ControlScope l => fits u128_max l end.
Definition scope_bytes (s : Scope) : bytes :=
  match s with Observation => be 1 0 ++ be 1 0 | ControlScope l => be 1 1 ++ be 1 1 ++ be 16 l end.
#[export] Instance scope_codec : Codec scope_typed scope_bytes read_scope.
Proof.
  split.
  - intros [|l] r Hs; unfold scope_bytes, read_scope, mbind, M_bind; rewrite <- ?app_assoc;
      rewrite !codec_read by (by vm_compute); cbn [Z.eqb andb Pos.eqb]; [done|]. by rewrite codec_read.
  - intros r s r' Hr H. unfold read_scope in H. read_inv. destruct ((v =? 0) && (v0 =? 0)) eqn:E1.
    + read_inv. assert (v = 0 /\ v0 = 0) as [-> ->] by lia. done.
    + destruct ((v =? 1) && (v0 =? 1)) eqn:E2; [|done]. read_inv. assert (v = 1 /\ v0 = 1) as [-> ->] by lia.
      split; [done|]. split; [|done]. unfold scope_bytes. by rewrite <- !app_assoc.
Qed.

Definition message_typed (m : Message) : Prop :=
  match m with
  | ChallengeMessage s n d => scope_typed s /\ fits u128_max n /\ fits u64_max d
  | ResponseMessage s n => scope_typed s /\ fits u128_max n
  end.
Definition message_bytes (b : Binding) (m : Message) : bytes :=
  be 16 (b_session b) ++ scope_bytes (scope_of m) ++ be 16 (nonce_of m)
  ++ match m with ChallengeMessage _ _ d => be 8 d | _ => [] end.

Lemma challenge_codec_body b k : fits u128_max (b_session b) -> k = Challenge \/ k = ChallengeResponse ->
  Codec (fun m => kind m = k /\ message_typed m) (message_bytes b) (read_message b k).
Proof.
  intros Hb Hk. split.
  - intros m r [<- Ht]. unfold message_bytes, read_message. rewrite <- !app_assoc.
    unfold mbind at 1, M_bind at 1. rewrite codec_read by done. unfold mbind at 1, M_bind at 1, refuse_if.
    rewrite Z.eqb_refl. cbn [negb]. destruct m as [s n d|s n]; cbn [scope_of nonce_of kind] in *.
    + destruct Ht as (? & ? & ?). read_all. rewrite bool_decide_eq_true_2 by done. by read_all.
    + destruct Ht as (? & ?). read_all. by rewrite bool_decide_eq_false_2 by done.
  - intros r m r' Hr H. unfold read_message in H. read_inv. guards. case_bool_decide as E.
    + read_inv. split; [done|]. split; [|done]. unfold message_bytes. cbn. by rewrite <- !app_assoc.
    + read_inv. destruct Hk as [->| ->]; [done|]. split; [done|]. split; [|done].
      unfold message_bytes. cbn. by rewrite app_nil_r, <- !app_assoc.
Qed.

Lemma writes_message b m : writes (write_message b m) (message_bytes b m).
Proof.
  assert (message_bytes b m = be 16 (b_session b) ++ be 1 (flag (is_control m)) ++ be 1 (flag (is_control m))
    ++ (match scope_of m with ControlScope l => be 16 l | Observation => [] end) ++ be 16 (nonce_of m)
    ++ match m with ChallengeMessage _ _ d => be 8 d | _ => [] end) as ->.
  { unfold message_bytes, scope_bytes, is_control. by destruct (scope_of m); rewrite <- ?app_assoc. }
  unfold write_message. do 3 (apply writes_bind; [apply writes_put|]).
  apply writes_bind; [destruct (scope_of m); [apply writes_ret|apply writes_put]|].
  apply writes_bind; [apply writes_put|]. destruct m; [apply writes_put|apply writes_ret].
Qed.

(** A message the two ends may exchange on this binding. *)
Definition message_valid (b : Binding) (direction : InputDirection) (delivery : InputDelivery) (m : Message) : Prop :=
  validate_binding b = Ok tt /\ validate m = Ok tt /\ role (kind m) direction delivery = Ok tt.

Lemma authority_codec b limits direction delivery : channel_typed b -> b_channel b <> 0 ->
  exact_codec message_typed (message_valid b direction delivery) kind (message_bytes b)
    (control_bytes limits) (b_channel b)
    (fun m out => encode m b limits out direction delivery)
    (fun bs => decode bs b limits direction delivery).
Proof.
  intros [Hc Hs] Hnz.
  apply (kinds_codec message_typed kind (message_bytes b) (control_bytes limits) (b_channel b) (validate_binding b)
    (fun k => role k direction delivery) validate (read_message b) (write_message b)); try done.
  - by intros [].
  - intros k Hk. apply challenge_codec_body; [done|]. unfold role in Hk. destruct (negb _); [done|].
    destruct k; try done; auto.
  - intros [[|l] n d|[|l] n] _; (split; [unfold message_bytes, scope_bytes; cbn [scope_of nonce_of]; solve_bytes|done]).
  - intros m _. apply writes_message.
  - intros m out _ H1 H2 H3. unfold encode. rewrite H1, H2. cbn [mbind Result_bind]. rewrite H3.
    by destruct m as [[|l] n d|[|l] n].
  - intros m out _ Hn. unfold encode. destruct (validate_binding b) as [[]|e]; [|by exists e].
    destruct (validate m) as [[]|e]; [|by exists e]. cbn [mbind Result_bind].
    destruct (role (kind m) direction delivery) as [[]|e]; [|by exists e]. by destruct Hn.
Qed.

End AuthorityMsgProps.

(** ** The end of a lease *)

Module RevokedMsgProps.
Import AuthorityMsg RevokedMsg.

Definition reason_bytes (r : Reason) : bytes := be 2 (reason_code r).
Definition cleanup_bytes (c : CleanupStage) : bytes := be 1 (cleanup_code c).
Definition effect_bytes (e : EffectStage) : bytes := be 1 (effect_code e).
#[export] Instance reason_codec : Codec (fun _ => True) reason_bytes (parsed ru16 parse_reason).
Proof. apply (parsed_codec u16_max 2 ru16 reason_code parse_reason); [by intros []|parse_exact|by intros []]. Qed.
#[export] Instance cleanup_codec : Codec (fun _ => True) cleanup_bytes (parsed ru8 parse_cleanup).
Proof. apply (parsed_codec u8_max 1 ru8 cleanup_code parse_cleanup); [by intros []|parse_exact|by intros []]. Qed.
#[export] Instance effect_codec : Codec (fun _ => True) effect_bytes (parsed ru8 parse_effect).
Proof. apply (parsed_codec u8_max 1 ru8 effect_code parse_effect); [by intros []|parse_exact|by intros []]. Qed.

Definition revoked_bytes (b : Binding) (v : Revoked) : bytes :=
  be 16 (b_session b) ++ be 16 (lease v) ++ reason_bytes (reason v) ++ cleanup_bytes (cleanup v)
  ++ effect_bytes (effects v).
Definition revoked_typed (v : Revoked) : Prop := fits u128_max (lease v) /\ lease v <> 0.

(** The lease [expected] names, or any. *)
Definition of_lease (expected : option Z) (v : Revoked) : Prop :=
  match expected with Some l => lease v = l | None => True end.

Lemma revoked_codec_body b expected : fits u128_max (b_session b) ->
  Codec (fun v => revoked_typed v /\ of_lease expected v) (revoked_bytes b) (read_revoked b expected).
Proof.
  intros Hb. split.
  - intros [l re c e] r [[Hl Hnz] Ho]. cbn in Hl, Hnz, Ho. unfold revoked_bytes, read_revoked.
    cbn [lease reason cleanup effects]. read_step. unfold mbind at 1, M_bind at 1, refuse_if at 1.
    rewrite Z.eqb_refl. cbn [negb]. read_step. unfold mbind at 1, M_bind at 1, refuse_if at 1.
    replace ((l =? 0) || is_some_and (fun e0 => negb (e0 =? l)) expected) with false; [by read_all|].
    destruct expected as [x|]; cbn in *; lia.
  - intros r v r' Hr H. unfold read_revoked in H. read_inv. guards. split; [|split; [|done]].
    + split; [done|]. destruct expected as [x|]; cbn in *; [lia|done].
    + unfold revoked_bytes. cbn. by rewrite <- !app_assoc.
Qed.

Lemma writes_revoked b v : writes (write_revoked b v) (revoked_bytes b v).
Proof. unfold write_revoked, revoked_bytes, reason_bytes, cleanup_bytes, effect_bytes. solve_writes. Qed.

Lemma revoked_route b l direction delivery : l <> 0 -> route b l direction delivery = session_route b direction delivery.
Proof.
  intros Hl. unfold route. destruct (session_route b direction delivery) as [[]|e]; [|done]. cbn. by destruct (Z.eqb_spec l 0).
Qed.

Lemma revoked_codec b expected limits direction delivery : channel_typed b -> b_channel b <> 0 ->
  match expected with Some l => l <> 0 | None => True end ->
  exact_codec (fun v => revoked_typed v /\ of_lease expected v) (routed (session_route b direction delivery))
    (fun _ => LeaseRevoked) (revoked_bytes b) (control_bytes limits) (b_channel b)
    (fun v out => encode v b limits out direction delivery)
    (fun bs => match expected with
               | Some l => decode bs b l limits direction delivery
               | None => decode_before_grant bs b limits direction delivery
               end).
Proof.
  intros [Hc Hs] Hnz Hexp. pose proof (revoked_codec_body b expected Hs).
  apply (plain_codec _ LeaseRevoked (revoked_bytes b) (control_bytes limits) (b_channel b) None
    (session_route b direction delivery) (read_revoked b expected) (write_revoked b) (REVOKED_BYTES - 24)); try done.
  - intros v _. split; [unfold revoked_bytes, reason_bytes, cleanup_bytes, effect_bytes; solve_bytes|done].
  - intros v _. apply writes_revoked.
  - intros v out [[_ Hl] _]. unfold encode. by rewrite revoked_route.
  - intros bs. destruct expected as [l|]; [|done]. unfold decode. by rewrite revoked_route.
Qed.

End RevokedMsgProps.

(** ** The end of a session *)

Module ClosureMsgProps.
Import AuthorityMsg ClosureMsg.

Definition scope_bytes (_ : unit) : bytes := be 1 1.
Definition reason_bytes (r : Reason) : bytes := be 2 (reason_code r).
Definition closed_bytes (r : ClosedReason) : bytes := be 2 (closed_code r).
Definition cleanup_bytes (c : Cleanup) : bytes := be 1 (cleanup_code c).
#[export] Instance scope_codec : Codec (fun _ => True) scope_bytes (parsed ru8 parse_scope).
Proof. apply (parsed_codec u8_max 1 ru8 (fun _ => 1) parse_scope); [by intros []|parse_exact|done]. Qed.
#[export] Instance reason_codec : Codec (fun _ => True) reason_bytes (parsed ru16 parse_reason).
Proof. apply (parsed_codec u16_max 2 ru16 reason_code parse_reason); [by intros []|parse_exact|by intros []]. Qed.
#[export] Instance closed_codec : Codec (fun _ => True) closed_bytes (parsed ru16 parse_closed).
Proof. apply (parsed_codec u16_max 2 ru16 closed_code parse_closed); [by intros []|parse_exact|by intros []]. Qed.
#[export] Instance cleanup_codec : Codec (fun _ => True) cleanup_bytes (parsed ru8 parse_cleanup).
Proof. apply (parsed_codec u8_max 1 ru8 cleanup_code parse_cleanup); [by intros []|parse_exact|by intros []]. Qed.

Definition request_bytes (b : Binding) (r : Reason) : bytes := be 16 (b_session b) ++ scope_bytes tt ++ reason_bytes r.

Lemma request_codec_body b : fits u128_max (b_session b) ->
  Codec (fun _ => True) (request_bytes b) (read_request b).
Proof.
  intros Hb. split.
  - intros re r _. unfold request_bytes, read_request. read_step. unfold mbind at 1, M_bind at 1, refuse_if at 1.
    rewrite Z.eqb_refl. cbn [negb]. read_step. by rewrite codec_read.
  - intros r v r' Hr H. unfold read_request in H. read_inv. guards. split; [done|]. split; [|done].
    unfold request_bytes. match goal with u : unit |- _ => destruct u end. by rewrite <- !app_assoc.
Qed.

Lemma request_codec b limits direction delivery : channel_typed b -> b_channel b <> 0 ->
  exact_codec (fun _ => True) (routed (route b direction delivery)) (fun _ => CloseRequest) (request_bytes b)
    (control_bytes limits) (b_channel b)
    (fun r out => encode_request r b limits out direction delivery)
    (fun bs => decode_request bs b limits direction delivery).
Proof.
  intros [Hc Hs] Hnz. pose proof (request_codec_body b Hs).
  apply (plain_codec _ CloseRequest (request_bytes b) (control_bytes limits) (b_channel b) None
    (route b direction delivery) (read_request b) (write_request b) 19); try done.
  - intros r _. split; [unfold request_bytes, scope_bytes, reason_bytes; solve_bytes|done].
  - intros r _. unfold write_request, request_bytes, scope_bytes, reason_bytes. solve_writes.
Qed.

(** Unknown effects and zero known effects are different reports. *)
Definition effects_typed (e : OutstandingEffects) : Prop :=
  match e with UnknownEffects => True | KnownEffects p u => fits u32_max p /\ fits u32_max u end.
Definition effects_bytes (e : OutstandingEffects) : bytes :=
  let '(k, p, u) := effect_fields e in be 1 k ++ be 4 p ++ be 4 u.
Definition report_typed (c : ClosedReport) : Prop := effects_typed (cl_effects c).
Definition report_bytes (b : Binding) (c : ClosedReport) : bytes :=
  be 16 (b_session b) ++ closed_bytes (cl_reason c) ++ cleanup_bytes (cl_cleanup c) ++ effects_bytes (cl_effects c).

Lemma effects_of_exact k p u e : effects_of k p u = Ok e -> effect_fields e = (k, p, u).
Proof. unfold effects_of. intros H. repeat case_match; try done; by injection H as <-. Qed.

Lemma report_codec_body b : fits u128_max (b_session b) -> Codec report_typed (report_bytes b) (read_closed b).
Proof.
  intros Hb. split.
  - intros [re c e] r He. unfold report_bytes, read_closed, effects_bytes. cbn [cl_reason cl_cleanup cl_effects] in *.
    read_step. unfold mbind at 1, M_bind at 1, refuse_if at 1. rewrite Z.eqb_refl. cbn [negb].
    destruct e as [|p u]; cbn [effect_fields].
    + read_all. done.
    + destruct He. by read_all.
  - intros r v r' Hr H. unfold read_closed in H. read_inv. guards.
    match goal with H : effects_of _ _ _ = Ok ?e |- _ => pose proof (effects_of_exact _ _ _ _ H) as Hf; rename e into eff end.
    split; [|split; [|done]].
    + unfold report_typed. cbn. destruct eff; cbn in *; [done|]. by simplify_eq.
    + unfold report_bytes, effects_bytes. cbn [cl_reason cl_cleanup cl_effects]. rewrite Hf. by rewrite <- !app_assoc.
Qed.

Lemma report_codec b limits direction delivery : channel_typed b -> b_channel b <> 0 ->
  exact_codec report_typed (routed (closed_route b direction delivery)) (fun _ => WireRecord.Closed) (report_bytes b)
    (control_bytes limits) (b_channel b)
    (fun c out => encode_closed c b limits out direction delivery)
    (fun bs => decode_closed bs b limits direction delivery).
Proof.
  intros [Hc Hs] Hnz. pose proof (report_codec_body b Hs).
  apply (plain_codec _ WireRecord.Closed (report_bytes b) (control_bytes limits) (b_channel b) None
    (closed_route b direction delivery) (read_closed b) (write_closed b) (CLOSED_BYTES - 24)); try done.
  - intros [re c e] _. unfold report_bytes, closed_bytes, cleanup_bytes, effects_bytes. cbn [cl_reason cl_cleanup cl_effects].
    destruct e; cbn [effect_fields]; (split; [solve_bytes|done]).
  - intros [re c e] _. unfold write_closed, report_bytes, closed_bytes, cleanup_bytes, effects_bytes.
    cbn [cl_reason cl_cleanup cl_effects]. destruct e; cbn [effect_fields]; solve_writes.
Qed.

End ClosureMsgProps.

(** ** Clock probes *)

Module ClockMsgProps.
Import ClockMsg.

Definition control_typed (b : ControlBinding) : Prop :=
  fits u32_max (cb_id b) /\ fits u128_max (host_boot b) /\ fits u128_max (os_session b) /\ fits u128_max (remote_session b).
Definition message_typed (m : Message) : Prop :=
  fits u64_max (sequence_of m) /\ match m with Reply _ sample => fits u64_max sample | _ => True end.
Definition message_bytes (b : ControlBinding) (m : Message) : bytes :=
  be 16 (host_boot b) ++ be 16 (os_session b) ++ be 16 (remote_session b) ++ be 8 (sequence_of m)
  ++ match m with Reply _ sample => be 8 sample | _ => [] end.

Lemma clock_codec_body b k : control_typed b -> k = ClockProbe \/ k = ClockReply ->
  Codec (fun m => kind m = k /\ message_typed m) (message_bytes b) (read_message b k).
Proof.
  intros (_ & H1 & H2 & H3) Hk. split.
  - intros m r [<- [Hs Ht]]. unfold message_bytes, read_message.
    do 3 (read_step; unfold mbind at 1, M_bind at 1, refuse_if at 1; rewrite Z.eqb_refl; cbn [negb]).
    read_step. destruct m as [s|s x]; cbn [sequence_of kind] in *.
    + by rewrite bool_decide_eq_true_2 by done.
    + rewrite bool_decide_eq_false_2 by done. by read_all.
  - intros r m r' Hr H. unfold read_message in H. read_inv. guards. case_bool_decide as E.
    + read_inv. split; [done|]. split; [|done]. unfold message_bytes. cbn [sequence_of].
      by rewrite app_nil_r, <- !app_assoc.
    + read_inv. destruct Hk as [->| ->]; [done|]. split; [done|]. split; [|done].
      unfold message_bytes. cbn [sequence_of]. by rewrite <- !app_assoc.
Qed.

Lemma validate_sequence b s : validate b s = Ok tt <-> validate b 1 = Ok tt /\ s <> 0.
Proof.
  unfold validate. destruct (_ || _); [by split; [|intros [? _]]|]. cbn. destruct (Z.eqb_spec s 0); naive_solver.
Qed.

(** A probe or reply the two ends may exchange on this binding. *)
Definition message_valid (b : ControlBinding) (direction : InputDirection) (delivery : InputDelivery) (m : Message) : Prop :=
  validate b 1 = Ok tt /\ validate b (sequence_of m) = Ok tt /\ role (kind m) direction delivery = Ok tt.

Lemma clock_codec b limits direction delivery : control_typed b -> cb_id b <> 0 ->
  exact_codec message_typed (message_valid b direction delivery) kind (message_bytes b)
    (control_bytes limits) (cb_id b)
    (fun m out => encode m b limits out direction delivery)
    (fun bs => decode bs b limits direction delivery).
Proof.
  intros Hb Hnz.
  apply (kinds_codec message_typed kind (message_bytes b) (control_bytes limits) (cb_id b) (validate b 1)
    (fun k => role k direction delivery) (fun m => validate b (sequence_of m)) (read_message b) (write_message b)); try done.
  - apply Hb.
  - by intros [].
  - intros k Hk. apply clock_codec_body; [done|]. unfold role in Hk. destruct (negb _); [done|].
    destruct k; try done; auto.
  - intros [s|s x] _; (split; [unfold message_bytes; cbn [sequence_of]; solve_bytes|done]).
  - intros m _. unfold write_message, message_bytes. do 4 (apply writes_bind; [apply writes_put|]).
    destruct m; [apply writes_ret|apply writes_put].
  - intros m out _ _ H2 H3. unfold encode. rewrite H2. cbn [mbind Result_bind]. rewrite H3. by destruct m.
  - intros m out _ Hn. unfold encode. destruct (validate b (sequence_of m)) as [[]|e] eqn:E; [|by exists e].
    cbn [mbind Result_bind]. destruct (role (kind m) direction delivery) as [[]|e]; [|by exists e].
    destruct Hn. apply validate_sequence in E as E'. by destruct E'.
Qed.

End ClockMsgProps.
