(* ===== verification/WireView.v ===== *)
(** * Messages about the view of a session

    [fr-wire/src/decoder.rs], [recovery_request.rs], [presented.rs],
    [receiver_metrics.rs] and [quality_decision.rs]: decoder configuration and its
    acknowledgements, the viewer's request to start over, what it presents, the
    load of its decoder and the host's quality decisions.  Each names the whole
    immutable view it belongs to, which the reader compares field by field. *)

From S2P Require Import Prelude.
From S2P Require Import Bytes.
From S2P Require Import Limits.
From S2P Require Import Utf8.
From S2P Require Import WireRecord.
From S2P Require Import WireMedia.
From S2P Require Import WireInput.
From S2P Require Import WireControl.

(** ** The binding of a view *)

Module ViewBinding.

Definition BINDING_BYTES : Z := 96.

Record Binding := mk_view {
  parent : ControlBinding;
  display : Z;
  geometry : Z;
  configuration : Z;
  recovery : Z;
  viewport : Z
}.

Definition validate (b : Binding) : Result WireError unit :=
  if (cb_id (parent b) =? 0) || (host_boot (parent b) =? 0) || (os_session (parent b) =? 0)
     || (remote_session (parent b) =? 0) || (display b =? 0)
  then Err InvalidBinding else Ok tt.

Definition write_binding (b : Binding) : M Writer WireError unit :=
  _ ← wu128 (host_boot (parent b)); _ ← wu128 (os_session (parent b));
  _ ← wu128 (remote_session (parent b)); _ ← wu128 (display b);
  _ ← wu64 (geometry b); _ ← wu64 (configuration b); _ ← wu64 (recovery b); wu64 (viewport b).

(** The bodies of the two loops. *)
Definition check_id (n : Z) : M Reader WireError unit :=
  x ← rtake 16; refuse_if (fun _ => negb (bool_decide (x = be 16 n))) (fun _ => InvalidBinding).
Definition check_generation (n : Z) : M Reader WireError unit :=
  x ← ru64; refuse_if (fun _ => negb (x =? n)) (fun _ => InvalidBinding).

Definition check_binding (b : Binding) : M Reader WireError unit :=
  _ ← check_id (host_boot (parent b)); _ ← check_id (os_session (parent b));
  _ ← check_id (remote_session (parent b)); _ ← check_id (display b);
  _ ← check_generation (geometry b); _ ← check_generation (configuration b);
  _ ← check_generation (recovery b); check_generation (viewport b).

(** A version or subtype every body starts with. *)
Definition check_version (rd : M Reader WireError Z) (version : Z) : M Reader WireError unit :=
  v ← rd; refuse_if (fun _ => negb (v =? version)) (fun _ => UnsupportedVersion).

(** A flag byte, [u8::from(b)]. *)
Definition flag (b : bool) : Z := if b then 1 else 0.

End ViewBinding.

(** ** Recovery requests *)

Module RecoveryMsg.
Import ViewBinding.

Definition REQUEST_BYTES : Z := 24 + BINDING_BYTES + 11.

Inductive Reason := ReferenceExpired | RecoveryExpired | DecodeFailed.
Definition reason_code (r : Reason) : Z :=
  match r with ReferenceExpired => 1 | RecoveryExpired => 2 | DecodeFailed => 3 end.
Definition parse_reason (v : Z) : Result WireError Reason :=
  match v with 1 => Ok ReferenceExpired | 2 => Ok RecoveryExpired | 3 => Ok DecodeFailed | _ => Err InvalidValue end.

Record Request := mk_request { reason : Reason; last_useful_frame : option Z }.

Definition role (direction : InputDirection) (delivery : InputDelivery) : Result WireError unit :=
  if negb (is_delivery delivery Reliable) then Err WrongChannel
  else if negb (is_direction direction ViewerToHost) then Err WrongRole
  else Ok tt.

Definition write_request (b : Binding) (r : Request) : M Writer WireError unit :=
  _ ← write_binding b; _ ← wu8 1; _ ← wu8 (reason_code (reason r));
  _ ← wu8 (flag (is_some (last_useful_frame r))); wu64 (default 0 (last_useful_frame r)).

Definition encode (r : Request) (b : Binding) (limits : Limits.ProtocolLimits) (out : bytes)
  (direction : InputDirection) (delivery : InputDelivery) : Result WireError Z * bytes :=
  match (_ ← validate b; role direction delivery) with
  | Err e => (Err e, out)
  | Ok _ => record_bounded out (control_bytes limits) (cb_id (parent b)) RecoveryRequest
              (REQUEST_BYTES - 24) (write_request b r)
  end.

(** [match (known, frame)]. *)
Definition known_value (known value : Z) : Result WireError (option Z) :=
  match known with
  | 0 => if value =? 0 then Ok None else Err InvalidValue
  | 1 => Ok (Some value)
  | _ => Err InvalidValue
  end.

Definition read_request (b : Binding) : M Reader WireError Request :=
  _ ← check_binding b; _ ← check_version ru8 1;
  reason ← parsed ru8 parse_reason;
  known ← ru8; frame ← ru64;
  last ← lift (known_value known frame);
  mret (mk_request reason last).

Definition decode (bs : bytes) (b : Binding) (limits : Limits.ProtocolLimits)
  (direction : InputDirection) (delivery : InputDelivery) : Result WireError Request :=
  _ ← (_ ← validate b; role direction delivery);
  r ← decode_bounded bs (control_bytes limits) (cb_id (parent b)) None;
  reading r RecoveryRequest (x ← read_request b; _ ← rfinish; mret x).

End RecoveryMsg.

(** ** Presentation reports *)

Module PresentedMsg.
Import Media ViewBinding.

Definition BYTES : Z := 24 + BINDING_BYTES + 43.
Definition BASE_SOURCE_AGE_US : Z := 250000.
Definition MAX_SOURCE_AGE_US : Z := 1000000.
Definition VIEWER_RTT_MULTIPLE : Z := 3.
Definition HOST_RTT_MULTIPLE : Z := 4.

Definition source_age_bound_us (base_us : Z) (smoothed_rtt_us : option Z) (rtt_multiple : Z) : Z :=
  match smoothed_rtt_us with
  | None => base_us
  | Some rtt =>
      Z.max (Z.min (saturating_add u64_max base_us (saturating_mul u64_max rtt rtt_multiple)) MAX_SOURCE_AGE_US) base_us
  end.

Record Stamp := mk_stamp { st_frame : Z; captured_us : Z; observed_us : Z; source : SourceObservation }.
Record Sample := mk_sample { stamp : Stamp; age_upper_us : Z }.
Record Report := mk_report { sequence : Z; visible : option Sample }.

Definition validate_sample (s : Sample) : Result WireError unit :=
  if (observed_us (stamp s) <? captured_us (stamp s))
     || bool_decide (source (stamp s) = Unknown)
     || (bool_decide (source (stamp s) = Captured) && negb (observed_us (stamp s) =? captured_us (stamp s)))
     || (MAX_SOURCE_AGE_US <=? age_upper_us s)
  then Err InvalidValue else Ok tt.

Definition role (direction : InputDirection) (delivery : InputDelivery) : Result WireError unit :=
  if negb (is_direction direction ViewerToHost) then Err WrongRole
  else if negb (is_delivery delivery Reliable) then Err WrongChannel
  else Ok tt.

Definition no_sample : Sample := mk_sample (mk_stamp 0 0 0 Unknown) 0.

Definition write_report (b : Binding) (r : Report) : M Writer WireError unit :=
  let s := default no_sample (visible r) in
  _ ← write_binding b; _ ← wu8 1; _ ← wu64 (sequence r); _ ← wu8 (flag (is_some (visible r)));
  _ ← wu64 (st_frame (stamp s)); _ ← wu64 (captured_us (stamp s)); _ ← wu64 (observed_us (stamp s));
  _ ← wu8 (observation_code (source (stamp s))); wu64 (age_upper_us s).

(** The two checks the encoder makes of a report. *)
Definition validate_report (r : Report) : Result WireError unit :=
  if sequence r =? 0 then Err InvalidValue
  else match visible r with Some s => validate_sample s | None => Ok tt end.

Definition encode (r : Report) (b : Binding) (limits : Limits.ProtocolLimits) (out : bytes)
  (direction : InputDirection) (delivery : InputDelivery) : Result WireError Z * bytes :=
  match (_ ← validate b; _ ← role direction delivery; validate_report r) with
  | Err e => (Err e, out)
  | Ok _ => record_bounded out (control_bytes limits) (cb_id (parent b)) PresentedState
              (BYTES - 24) (write_report b r)
  end.

(** [match stage]: nothing is visible, or a valid sample is. *)
Definition visible_of (stage : Z) (s : Sample) : Result WireError (option Sample) :=
  match stage with
  | 0 => if (st_frame (stamp s) =? 0) && (captured_us (stamp s) =? 0) && (observed_us (stamp s) =? 0)
            && bool_decide (source (stamp s) = Unknown) && (age_upper_us s =? 0)
         then Ok None else Err InvalidValue
  | 1 => _ ← validate_sample s; Ok (Some s)
  | _ => Err InvalidValue
  end.

Definition read_report (b : Binding) : M Reader WireError Report :=
  _ ← check_binding b; _ ← check_version ru8 1;
  sequence ← ru64;
  _ ← refuse_if (fun _ => sequence =? 0) (fun _ => InvalidValue);
  stage ← ru8; frame ← ru64; captured ← ru64; observed ← ru64;
  source ← read_observation; age ← ru64;
  visible ← lift (visible_of stage (mk_sample (mk_stamp frame captured observed source) age));
  mret (mk_report sequence visible).

Definition decode (bs : bytes) (b : Binding) (limits : Limits.ProtocolLimits)
  (direction : InputDirection) (delivery : InputDelivery) : Result WireError Report :=
  _ ← validate b; _ ← role direction delivery;
  if negb (Z.of_nat (length bs) =? BYTES) then Err (if Z.of_nat (length bs) <? BYTES then Truncated else TrailingBytes)
  else
    r ← decode_bounded bs (control_bytes limits) (cb_id (parent b)) None;
    reading r PresentedState (x ← read_report b; _ ← rfinish; mret x).

End PresentedMsg.

(** ** Decoder metrics *)

Module MetricsMsg.
Import ViewBinding.

Definition QUERY_BYTES : Z := 24 + BINDING_BYTES + 10.
Definition REPLY_BYTES : Z := QUERY_BYTES + 22.
Definition MAX_WORK_US : Z := 5000000.

Record Load := mk_load {
  retained_bytes : Z;
  retained_pictures : Z;
  decoding : bool;
  work_us : option Z
}.

Definition validate_load (l : Load) (limits : Limits.ProtocolLimits) : Result WireError unit :=
  if (Limits.per_viewer_compressed_bytes limits <? retained_bytes l)
     || (Limits.reassembly_window_pictures limits <? retained_pictures l)
     || negb (Bool.eqb (retained_bytes l =? 0) (retained_pictures l =? 0))
     || (decoding l && ((retained_pictures l =? 0) || negb (is_some (work_us l))))
     || is_some_and (fun n => MAX_WORK_US <? n) (work_us l)
  then Err InvalidValue else Ok tt.

Inductive Message := Query (sequence : Z) | Reply (sequence : Z) (load : Load).
Definition sequence_of (m : Message) : Z := match m with Query s | Reply s _ => s end.
Definition tag (m : Message) : Z := match m with Query _ => 0 | Reply _ _ => 1 end.

Definition role (tag : Z) (direction : InputDirection) (delivery : InputDelivery) : Result WireError unit :=
  if negb (is_delivery delivery Reliable) then Err WrongChannel
  else
    expected ← match tag with 0 => Ok HostToViewer | 1 => Ok ViewerToHost | _ => Err InvalidValue end;
    if negb (is_direction direction expected) then Err WrongRole else Ok tt.

Definition write_load (l : Load) : M Writer WireError unit :=
  _ ← wu64 (retained_bytes l); _ ← wu32 (retained_pictures l); _ ← wu8 (flag (decoding l));
  _ ← wu8 (flag (is_some (work_us l))); wu64 (default 0 (work_us l)).
Definition write_message (b : Binding) (m : Message) : M Writer WireError unit :=
  _ ← write_binding b; _ ← wu8 1; _ ← wu8 (tag m); _ ← wu64 (sequence_of m);
  match m with Reply _ l => write_load l | Query _ => mret tt end.

(** What the encoder checks after the binding. *)
Definition validate_message (limits : Limits.ProtocolLimits) (direction : InputDirection)
  (delivery : InputDelivery) (m : Message) : Result WireError unit :=
  _ ← role (tag m) direction delivery;
  if sequence_of m =? 0 then Err InvalidValue
  else match m with Reply _ l => validate_load l limits | Query _ => Ok tt end.

Definition encode (m : Message) (b : Binding) (limits : Limits.ProtocolLimits) (out : bytes)
  (direction : InputDirection) (delivery : InputDelivery) : Result WireError Z * bytes :=
  match (_ ← validate b; validate_message limits direction delivery m) with
  | Err e => (Err e, out)
  | Ok _ =>
      let size := match m with Query _ => QUERY_BYTES | Reply _ _ => REPLY_BYTES end in
      record_bounded out (control_bytes limits) (cb_id (parent b)) StageMetrics (size - 24) (write_message b m)
  end.

Definition read_load : M Reader WireError Load :=
  retained ← ru64; pictures ← ru32; decoding ← InputMsg.boolean; known ← ru8; work ← ru64;
  work ← lift (RecoveryMsg.known_value known work);
  mret (mk_load retained pictures decoding work).

Definition read_message (b : Binding) (limits : Limits.ProtocolLimits) (direction : InputDirection)
  (delivery : InputDelivery) : M Reader WireError Message :=
  _ ← check_binding b; _ ← check_version ru8 1;
  tag ← ru8;
  _ ← lift (role tag direction delivery);
  sequence ← ru64;
  _ ← refuse_if (fun _ => sequence =? 0) (fun _ => InvalidValue);
  if tag =? 0 then mret (Query sequence)
  else l ← read_load; _ ← lift (validate_load l limits); mret (Reply sequence l).

Definition decode (bs : bytes) (b : Binding) (limits : Limits.ProtocolLimits)
  (direction : InputDirection) (delivery : InputDelivery) : Result WireError Message :=
  _ ← validate b;
  r ← decode_bounded bs (control_bytes limits) (cb_id (parent b)) None;
  reading r StageMetrics (x ← read_message b limits direction delivery; _ ← rfinish; mret x).

End MetricsMsg.

(** ** Quality decisions *)

Module QualityMsg.
Import ViewBinding.

Definition VERSION : Z := 1.
Definition RECORD_BYTES : Z := 24 + BINDING_BYTES + 30.
Definition MIN_CAPTURE_INTERVAL_US : Z := 1000.
Definition MAX_CAPTURE_INTERVAL_US : Z := 1000000.
Definition MIN_BITRATE_BPS : Z := 10000.
Definition MAX_BITRATE_BPS : Z := 200000000.

Inductive Mode := Active | IdleMode.
Inductive Reason :=
| Hold | SourceWork | SendAdmission | CaptureCredit | ReceiverBacklog | DecoderWork | HeadroomProbe
| VerifiedIdle | ChangedAfterIdle | EvidenceGap.
Definition mode_code (m : Mode) : Z := match m with Active => 0 | IdleMode => 1 end.
Definition parse_mode (v : Z) : Result WireError Mode :=
  match v with 0 => Ok Active | 1 => Ok IdleMode | _ => Err InvalidValue end.
Definition reason_code (r : Reason) : Z :=
  match r with
  | Hold => 0 | SourceWork => 1 | SendAdmission => 2 | CaptureCredit => 3 | ReceiverBacklog => 4
  | DecoderWork => 5 | HeadroomProbe => 6 | VerifiedIdle => 7 | ChangedAfterIdle => 8 | EvidenceGap => 9
  end.
Definition parse_reason (v : Z) : Result WireError Reason :=
  match v with
  | 0 => Ok Hold | 1 => Ok SourceWork | 2 => Ok SendAdmission | 3 => Ok CaptureCredit
  | 4 => Ok ReceiverBacklog | 5 => Ok DecoderWork | 6 => Ok HeadroomProbe | 7 => Ok VerifiedIdle
  | 8 => Ok ChangedAfterIdle | 9 => Ok EvidenceGap | _ => Err InvalidValue
  end.

Record Decision := mk_decision {
  sequence : Z;
  capture_interval_us : Z;
  mode : Mode;
  reason : Reason;
  applied_bitrate_bps : option Z;
  pending_bitrate_bps : option Z
}.

Definition interval_ok (n : Z) : bool := (MIN_CAPTURE_INTERVAL_US <=? n) && (n <=? MAX_CAPTURE_INTERVAL_US).
Definition rate_ok (n : Z) : bool := (MIN_BITRATE_BPS <=? n) && (n <=? MAX_BITRATE_BPS).

Definition validate_decision (d : Decision) : Result WireError unit :=
  if (sequence d =? 0) || negb (interval_ok (capture_interval_us d))
     || (is_some (pending_bitrate_bps d) && negb (is_some (applied_bitrate_bps d)))
     || existsb (fun rate => negb (rate_ok rate)) (flatten [applied_bitrate_bps d; pending_bitrate_bps d])
  then Err InvalidValue else Ok tt.

Definition role (direction : InputDirection) (delivery : InputDelivery) : Result WireError unit :=
  if negb (is_delivery delivery Reliable) then Err WrongChannel
  else if negb (is_direction direction HostToViewer) then Err WrongRole
  else Ok tt.

Definition write_bitrate (rate : option Z) : M Writer WireError unit :=
  _ ← wu8 (flag (is_some rate)); wu32 (default 0 rate).
Definition write_decision (b : Binding) (d : Decision) : M Writer WireError unit :=
  _ ← write_binding b; _ ← wu16 VERSION; _ ← wu64 (sequence d); _ ← wu64 (capture_interval_us d);
  _ ← wu8 (mode_code (mode d)); _ ← wu8 (reason_code (reason d));
  _ ← write_bitrate (applied_bitrate_bps d); write_bitrate (pending_bitrate_bps d).

Definition encode (d : Decision) (b : Binding) (limits : Limits.ProtocolLimits) (out : bytes)
  (direction : InputDirection) (delivery : InputDelivery) : Result WireError Z * bytes :=
  match (_ ← validate b; _ ← role direction delivery; validate_decision d) with
  | Err e => (Err e, out)
  | Ok _ => record_bounded out (control_bytes limits) (cb_id (parent b)) QualityDecision
              (RECORD_BYTES - 24) (write_decision b d)
  end.

Definition bitrate : M Reader WireError (option Z) :=
  known ← ru8; rate ← ru32;
  lift (match known with
        | 0 => if rate =? 0 then Ok None else Err InvalidValue
        | 1 => if rate_ok rate then Ok (Some rate) else Err InvalidValue
        | _ => Err InvalidValue
        end).

(** The interval in its range fits [u32]. *)
Definition read_decision (b : Binding) : M Reader WireError Decision :=
  _ ← check_binding b; _ ← check_version ru16 VERSION;
  sequence ← ru64; interval ← ru64;
  _ ← refuse_if (fun _ => negb (interval_ok interval)) (fun _ => InvalidValue);
  mode ← parsed ru8 parse_mode; reason ← parsed ru8 parse_reason;
  applied ← bitrate; pending ← bitrate;
  let d := mk_decision sequence interval mode reason applied pending in
  _ ← lift (validate_decision d);
  mret d.

Definition decode (bs : bytes) (b : Binding) (limits : Limits.ProtocolLimits)
  (direction : InputDirection) (delivery : InputDelivery) : Result WireError Decision :=
  _ ← (_ ← validate b; role direction delivery);
  r ← decode_bounded bs (control_bytes limits) (cb_id (parent b)) None;
  reading r QualityDecision (x ← read_decision b; _ ← rfinish; mret x).

End QualityMsg.

(** ** Decoder configuration *)

Module DecoderMsg.
Import ViewBinding.

Definition MAX_HVCC_BYTES : Z := 23 + 3 * (5 + 4096).
Definition MAX_CODEC_BYTES : Z := 64.
Definition CONFIGURATION_OVERHEAD : Z := 24 + BINDING_BYTES + 31.
Definition ACK_BYTES : Z := 24 + BINDING_BYTES.
Definition FIRST_DECODED_BYTES : Z := ACK_BYTES + 16.

(** [codec] is a string: its Unicode scalars. *)
Record Configuration := mk_configuration {
  coded_width : Z;
  coded_height : Z;
  crop_width : Z;
  crop_height : Z;
  fps : Z;
  primaries : Z;
  transfer : Z;
  matrix : Z;
  full_range : bool;
  decoded_pictures : Z;
  codec : list Z;
  hvcc : bytes
}.

(** ["hev1."] and [is_ascii_alphanumeric]. *)
Definition hev1 : bytes := [104; 101; 118; 49; 46].
Definition is_ascii_alphanumeric (b : Z) : bool :=
  between 48 57 b || between 65 90 b || between 97 122 b.

Definition validate_configuration (c : Configuration) (limits : Limits.ProtocolLimits) : Result WireError unit :=
  _ ← map_err (fun _ => ResourceLimit) (Limits.validate_coded_dimensions limits (coded_width c) (coded_height c));
  let text := utf8 (codec c) in
  if (crop_width c =? 0) || (crop_height c =? 0) || (coded_width c <? crop_width c)
     || (coded_height c <? crop_height c)
     || negb (between 1 240 (fps c)) || negb (between 2 12 (decoded_pictures c))
     || negb ((primaries c =? 1) || (primaries c =? 9))
     || negb ((transfer c =? 1) || (transfer c =? 13))
     || negb ((matrix c =? 1) || (matrix c =? 9))
     || negb (bool_decide (take 5 text = hev1))
     || (MAX_CODEC_BYTES <? Z.of_nat (length text)) || (Z.of_nat (length text) <=? 5)
     || negb (forallb (fun b => is_ascii_alphanumeric b || (b =? 46)) text)
  then Err InvalidValue
  else if negb (between 23 MAX_HVCC_BYTES (Z.of_nat (length (hvcc c)))) then Err ResourceLimit
  else Ok tt.

Inductive Message :=
| ConfigurationMessage (c : Configuration)
| Configured
| FirstDecoded (frame decoder_micros : Z).

Definition kind (m : Message) : Kind :=
  match m with
  | ConfigurationMessage _ => DecoderConfiguration
  | Configured => DecoderConfigured
  | FirstDecoded _ _ => FirstFrameDecoded
  end.

Definition role (k : Kind) (direction : InputDirection) (delivery : InputDelivery) : Result WireError unit :=
  if negb (is_delivery delivery Reliable) then Err WrongChannel
  else
    expected ← match k with
               | DecoderConfiguration => Ok HostToViewer
               | DecoderConfigured | FirstFrameDecoded => Ok ViewerToHost
               | _ => Err UnsupportedKind
               end;
    if negb (is_direction direction expected) then Err WrongRole else Ok tt.

Definition write_configuration (c : Configuration) : M Writer WireError unit :=
  _ ← wu32 (coded_width c); _ ← wu32 (coded_height c); _ ← wu32 (crop_width c); _ ← wu32 (crop_height c);
  _ ← wu16 (fps c);
  _ ← wu8 (primaries c); _ ← wu8 (transfer c); _ ← wu8 (matrix c); _ ← wu8 (flag (full_range c));
  _ ← wu8 (decoded_pictures c);
  _ ← wdata (utf8 (codec c)); wdata (hvcc c).
Definition write_message (b : Binding) (m : Message) : M Writer WireError unit :=
  _ ← write_binding b;
  match m with
  | ConfigurationMessage c => write_configuration c
  | Configured => mret tt
  | FirstDecoded frame micros => _ ← wu64 frame; wu64 micros
  end.

(** The whole record's length. *)
Definition total (m : Message) (limits : Limits.ProtocolLimits) : Result WireError Z :=
  match m with
  | ConfigurationMessage c =>
      _ ← validate_configuration c limits;
      ok_or (n ← checked_add usize_max CONFIGURATION_OVERHEAD (Z.of_nat (length (utf8 (codec c))));
             checked_add usize_max n (Z.of_nat (length (hvcc c)))) ArithmeticOverflow
  | Configured => Ok ACK_BYTES
  | FirstDecoded _ _ => Ok FIRST_DECODED_BYTES
  end.

Definition encode (m : Message) (b : Binding) (limits : Limits.ProtocolLimits) (out : bytes)
  (direction : InputDirection) (delivery : InputDelivery) : Result WireError Z * bytes :=
  match (_ ← validate b; _ ← role (kind m) direction delivery; total m limits) with
  | Err e => (Err e, out)
  | Ok n => record_bounded out (control_bytes limits) (cb_id (parent b)) (kind m) (n - 24) (write_message b m)
  end.

Definition read_configuration : M Reader WireError Configuration :=
  width ← ru32; height ← ru32; crop_w ← ru32; crop_h ← ru32; fps ← ru16;
  primaries ← ru8; transfer ← ru8; matrix ← ru8; full ← InputMsg.boolean; pictures ← ru8;
  codec ← rdata;
  codec ← lift (ok_or (from_utf8 codec) InvalidValue);
  hvcc ← rdata;
  mret (mk_configuration width height crop_w crop_h fps primaries transfer matrix full pictures codec hvcc).

Definition read_message (b : Binding) (limits : Limits.ProtocolLimits) (k : Kind) : M Reader WireError Message :=
  _ ← check_binding b;
  match k with
  | DecoderConfiguration =>
      c ← read_configuration; _ ← lift (validate_configuration c limits); mret (ConfigurationMessage c)
  | DecoderConfigured => mret Configured
  | FirstFrameDecoded => frame ← ru64; micros ← ru64; mret (FirstDecoded frame micros)
  | _ => fail UnsupportedKind
  end.

Definition decode (bs : bytes) (b : Binding) (limits : Limits.ProtocolLimits)
  (direction : InputDirection) (delivery : InputDelivery) : Result WireError Message :=
  _ ← validate b;
  r ← decode_bounded bs (control_bytes limits) (cb_id (parent b)) (Some MediaConfig);
  _ ← role (WireRecord.kind r) direction delivery;
  reading r (WireRecord.kind r) (x ← read_message b limits (WireRecord.kind r); _ ← rfinish; mret x).

End DecoderMsg.
