(* ===== verification/WireGrant.v ===== *)
(** * Control grants and refusals

    [fr-wire/src/control.rs] and [refusal.rs]: a viewer asks for control of one
    mapped view with named operations, the host answers with a lease and its first
    ticket or with a refusal that carries a reason and nothing else. *)

From S2P Require Import Prelude.
From S2P Require Import Bytes.
From S2P Require Import CoreTime.
From S2P Require Import Limits.
From S2P Require Import InputModel.
From S2P Require Import Submission.
From S2P Require Import WireRecord.
From S2P Require Import WireInput.
From S2P Require Import WireResult.
From S2P Require Import WireControl.
From S2P Require Import WireView.

(** ** Grants *)

Module GrantMsg.
Import ViewBinding.

Definition REQUEST_BYTES : Z := 24 + 109.
Definition GRANTED_BYTES : Z := REQUEST_BYTES + 76.

Definition CAPS : list Capability :=
  [CapKeys; CapRepeat; CapAbsolute; CapButtons; CapRelative; CapPixelScroll; CapLineScroll; CapText].

Record Target := mk_target {
  display_binding : Z;
  tg_view : InputView;
  bounds : Bounds.InputBounds;
  tg_capabilities : Z
}.
Record Request := mk_control_request { rq_parent : ControlBinding; rq_sequence : Z; target : Target }.
Record Granted := mk_granted {
  request : Request;
  input_channel : Z;
  g_lease : Z;
  g_ticket : Z;
  g_issued_at_us : Z;
  lease_until_us : Z;
  ticket_until_us : Z;
  first_action : Z;
  first_pointer : Z
}.
#[export] Instance ControlBinding_eq_dec : EqDecision ControlBinding.
Proof. solve_decision. Defined.

Definition granted_credentials (g : Granted) : InputCredentials :=
  Credentials.mkCredentials (remote_session (rq_parent (request g))) (g_lease g) (g_ticket g)
    (tg_view (target (request g))).
Definition initial_ticket (g : Granted) : TicketMsg.Ticket :=
  TicketMsg.mk_ticket (granted_credentials g) 0 (g_issued_at_us g) (ticket_until_us g).

Definition valid_request (rq : Request) (limits : Limits.ProtocolLimits) : Result WireError unit :=
  let p := rq_parent rq in
  let t := target rq in
  if (cb_id p =? 0) || (host_boot p =? 0) || (os_session p =? 0) || (remote_session p =? 0)
     || (display_binding t =? 0) || (display_binding t =? cb_id p)
  then Err InvalidBinding
  else
    _ ← map_err (fun _ => ResourceLimit)
          (Limits.validate_coded_dimensions limits (Bounds.width (bounds t)) (Bounds.height (bounds t)));
    let c := tg_capabilities t in
    if (c =? 0) || (cap_contains c CapRepeat && negb (cap_contains c CapKeys))
       || (existsb (cap_contains c) [CapButtons; CapPixelScroll; CapLineScroll] && negb (cap_contains c CapAbsolute))
    then Err InvalidValue else Ok tt.

(** [until.checked_sub(issued)] in [1..=maximum]. *)
Definition lifetime_ok (issued until maximum : Z) : bool :=
  is_some_and (fun n => (1 <=? n) && (n <=? maximum)) (checked_sub until issued).

Definition valid_grant (g : Granted) (limits : Limits.ProtocolLimits) : Result WireError unit :=
  _ ← valid_request (request g) limits;
  if (input_channel g =? 0) || (input_channel g =? cb_id (rq_parent (request g)))
     || (input_channel g =? display_binding (target (request g)))
     || (g_lease g =? 0) || (g_ticket g =? 0)
  then Err InvalidBinding
  else if negb (first_action g =? 0) || negb (first_pointer g =? 0)
          || negb (lifetime_ok (g_issued_at_us g) (lease_until_us g) TicketMsg.MAX_LEASE_LIFETIME_US)
          || negb (lifetime_ok (g_issued_at_us g) (ticket_until_us g) TicketMsg.MAX_TICKET_LIFETIME_US)
          || (lease_until_us g <? ticket_until_us g)
  then Err InvalidValue else Ok tt.

Definition role (direction wanted : InputDirection) (delivery : InputDelivery) : Result WireError unit :=
  if negb (is_direction direction wanted) then Err WrongRole
  else if negb (is_delivery delivery Reliable) then Err WrongChannel
  else Ok tt.

(** The two folds over [CAPS]. *)
Definition capability_bits (c : Z) : Z :=
  foldl (fun bits cap => Z.lor bits (Z.shiftl (flag (cap_contains c cap)) (cap_index cap))) 0 CAPS.
Definition capabilities_of (bits : Z) : Z :=
  foldl cap_with 0 (List.filter (fun c => negb (Z.land bits (Z.shiftl 1 (cap_index c)) =? 0)) CAPS).

Definition write_request (rq : Request) : M Writer WireError unit :=
  let v := tg_view (target rq) in
  let b := bounds (target rq) in
  _ ← wu128 (host_boot (rq_parent rq)); _ ← wu128 (os_session (rq_parent rq));
  _ ← wu128 (remote_session (rq_parent rq));
  _ ← wu64 (rq_sequence rq); _ ← wu32 (display_binding (target rq));
  _ ← wu64 (InputModel.geometry v); _ ← wu64 (InputModel.viewport v);
  _ ← wu64 (InputModel.configuration v); _ ← wu64 (InputModel.recovery v);
  _ ← wi32 (px (Bounds.origin b)); _ ← wi32 (py (Bounds.origin b));
  _ ← wu32 (Bounds.width b); _ ← wu32 (Bounds.height b);
  wu8 (capability_bits (tg_capabilities (target rq))).

Definition read_request (channel : Z) : M Reader WireError Request :=
  boot ← opaque; os ← opaque; remote ← opaque;
  sequence ← ru64; display ← ru32;
  g ← ru64; v ← ru64; c ← ru64; r ← ru64;
  x ← ri32; y ← ri32; w ← ru32; h ← ru32;
  bounds ← lift (ok_or (Bounds.new (mkPoint x y) w h) InvalidValue);
  bits ← ru8;
  mret (mk_control_request (mk_control channel boot os remote) sequence
          (mk_target display (mkView g v c r) bounds (capabilities_of bits))).

Definition encode_request (rq : Request) (out : bytes) (limits : Limits.ProtocolLimits)
  (direction : InputDirection) (delivery : InputDelivery) : Result WireError Z * bytes :=
  match (_ ← role direction ViewerToHost delivery; valid_request rq limits) with
  | Err e => (Err e, out)
  | Ok _ => record_bounded out (control_bytes limits) (cb_id (rq_parent rq)) ControlRequest
              (REQUEST_BYTES - 24) (write_request rq)
  end.

Definition decode_request (bs : bytes) (expected : ControlBinding) (limits : Limits.ProtocolLimits)
  (direction : InputDirection) (delivery : InputDelivery) : Result WireError Request :=
  _ ← role direction ViewerToHost delivery;
  r ← decode_bounded bs (control_bytes limits) (cb_id expected) None;
  rq ← reading r ControlRequest (rq ← read_request (cb_id expected); _ ← rfinish; mret rq);
  _ ← valid_request rq limits;
  if negb (bool_decide (rq_parent rq = expected)) then Err InvalidBinding else Ok rq.

Definition write_granted (g : Granted) : M Writer WireError unit :=
  _ ← write_request (request g);
  _ ← wu32 (input_channel g); _ ← wu128 (g_lease g); _ ← wu128 (g_ticket g);
  _ ← wu64 (g_issued_at_us g); _ ← wu64 (lease_until_us g); _ ← wu64 (ticket_until_us g);
  _ ← wu64 (first_action g); wu64 (first_pointer g).

Definition encode_granted (g : Granted) (out : bytes) (limits : Limits.ProtocolLimits)
  (direction : InputDirection) (delivery : InputDelivery) : Result WireError Z * bytes :=
  match (_ ← role direction HostToViewer delivery; valid_grant g limits) with
  | Err e => (Err e, out)
  | Ok _ => record_bounded out (control_bytes limits) (cb_id (rq_parent (request g))) LeaseGranted
              (GRANTED_BYTES - 24) (write_granted g)
  end.

Definition read_granted (channel : Z) : M Reader WireError Granted :=
  rq ← read_request channel; ch ← ru32; lease ← opaque; ticket ← opaque;
  issued ← ru64; lease_until ← ru64; ticket_until ← ru64; action ← ru64; pointer ← ru64;
  mret (mk_granted rq ch lease ticket issued lease_until ticket_until action pointer).

Definition decode_granted (bs : bytes) (expected : ControlBinding) (limits : Limits.ProtocolLimits)
  (direction : InputDirection) (delivery : InputDelivery) : Result WireError Granted :=
  _ ← role direction HostToViewer delivery;
  r ← decode_bounded bs (control_bytes limits) (cb_id expected) None;
  g ← reading r LeaseGranted (g ← read_granted (cb_id expected); _ ← rfinish; mret g);
  _ ← valid_grant g limits;
  if negb (bool_decide (rq_parent (request g) = expected)) then Err InvalidBinding else Ok g.

End GrantMsg.

(** ** Refusals *)

Module RefusalMsg.
Import ResultMsg ViewBinding.

Definition MIN_BYTES : Z := 24 + 4.
Definition MAX_BYTES : Z := 24 + 13.

Inductive Reason :=
| InvalidMessage | RUnsupportedVersion | UnsupportedProfile | RequiredCapability | InvalidLimits
| InvalidSelection | PermissionDenied | LocalApprovalDenied | ApprovalExpired | ControlUnavailable
| RResourceLimit | InvalidState | Expired | HostUnavailable | TailnetMembershipUnverifiable.

Definition reason_code (r : Reason) : Z :=
  match r with
  | InvalidMessage => 1 | RUnsupportedVersion => 2 | UnsupportedProfile => 3 | RequiredCapability => 4
  | InvalidLimits => 5 | InvalidSelection => 6 | PermissionDenied => 7 | LocalApprovalDenied => 8
  | ApprovalExpired => 9 | ControlUnavailable => 10 | RResourceLimit => 11 | InvalidState => 12
  | Expired => 13 | HostUnavailable => 14 | TailnetMembershipUnverifiable => 15
  end.
Definition parse_reason (v : Z) : Result WireError Reason :=
  match v with
  | 1 => Ok InvalidMessage | 2 => Ok RUnsupportedVersion | 3 => Ok UnsupportedProfile
  | 4 => Ok RequiredCapability | 5 => Ok InvalidLimits | 6 => Ok InvalidSelection
  | 7 => Ok PermissionDenied | 8 => Ok LocalApprovalDenied | 9 => Ok ApprovalExpired
  | 10 => Ok ControlUnavailable | 11 => Ok RResourceLimit | 12 => Ok InvalidState
  | 13 => Ok Expired | 14 => Ok HostUnavailable | 15 => Ok TailnetMembershipUnverifiable
  | _ => Err InvalidValue
  end.

Record Refused := mk_refused { reason : Reason; operation : option Z; stage : option Stage }.

Definition connection (r : Reason) : Refused := mk_refused r None None.

Definition validate (m : Refused) (binding : Z) : Result WireError unit :=
  if is_some (stage m) && ((binding =? 0) || negb (is_some (operation m))) then Err InvalidValue else Ok tt.

Definition maximum (value : Z) (delivery : InputDelivery) : Result WireError Z :=
  if negb (is_delivery delivery Reliable) then Err WrongChannel
  else Ok (Z.min value (Limits.max_control_message_bytes Limits.ABSOLUTE)).

Definition write_refused (m : Refused) : M Writer WireError unit :=
  _ ← wu16 (reason_code (reason m)); _ ← woptional_u64 (operation m); _ ← wu8 (flag (is_some (stage m)));
  match stage m with Some s => wu8 (stage_code s) | None => mret tt end.

Definition encode (m : Refused) (binding limit : Z) (out : bytes) (delivery : InputDelivery)
  : Result WireError Z * bytes :=
  match maximum limit delivery with
  | Err e => (Err e, out)
  | Ok maximum =>
      match validate m binding with
      | Err e => (Err e, out)
      | Ok _ =>
          let payload := 4 + flag (is_some (operation m)) * 8 + flag (is_some (stage m)) in
          record_bounded out maximum binding WireRecord.Refused payload (write_refused m)
      end
  end.

Definition read_stage_flag : M Reader WireError (option Stage) :=
  known ← ru8;
  match known with
  | 0 => mret None
  | 1 => s ← read_stage; mret (Some s)
  | _ => fail InvalidValue
  end.

Definition read_refused : M Reader WireError Refused :=
  reason ← parsed ru16 parse_reason; operation ← roptional_u64; stage ← read_stage_flag;
  mret (mk_refused reason operation stage).

Definition decode (bs : bytes) (binding limit : Z) (delivery : InputDelivery) : Result WireError Refused :=
  maximum ← maximum limit delivery;
  r ← decode_bounded bs maximum binding None;
  m ← reading r WireRecord.Refused (m ← read_refused; _ ← rfinish; mret m);
  _ ← validate m binding;
  Ok m.

End RefusalMsg.
