(* ===== verification/WireViewProps.v ===== *)
(** Exactness of the view, grant and refusal messages, module by module. *)

From S2P Require Import Prelude.
From S2P Require Import CoreTime.
From S2P Require Import Limits.
From S2P Require Import InputModel.
From S2P Require Import Submission.
From S2P Require Import Bytes.
From S2P Require Import WireRecord.
From S2P Require Import WireRecordProps.
From S2P Require Import WireMedia.
From S2P Require Import WireMediaProps.
From S2P Require Import Utf8.
From S2P Require Import WireInput.
From S2P Require Import WireInputProps.
From S2P Require Import WireResult.
From S2P Require Import WireReceipts.
From S2P Require Import WireControl.
From S2P Require Import WireControlProps.
From S2P Require Import WireView.
From S2P Require Import WireGrant.

(** * What messages about a view guarantee

    The codecs of [WireView] are exact: a message for another view, another
    direction or delivery, or out of its ranges is refused by both ends, and every
    accepted message has one frame. *)

(** ** Shared blocks *)

Module ViewProps.
Import ViewBinding.

(** A reader that checks for known bytes is the codec of the unit value; what
    follows it is read as before. *)
Abbreviation expects m d := (Codec (fun _ : unit => True) (fun _ => d) m).

(** The results of checks. *)
Ltac units := repeat match goal with u : unit |- _ => destruct u end.

Lemma prefix_codec {A} m d (typed : A -> Prop) body (rd : M Reader WireError A) :
  expects m d -> Codec typed body rd -> Codec typed (fun a => d ++ body a) (_ ← m; rd).
Proof.
  intros Hm Hrd. split.
  - intros a r Ha. rewrite <- app_assoc. unfold mbind, M_bind. pose proof (codec_read (m := m) tt (body a ++ r) I) as ->.
    by apply codec_read.
  - intros r a r' Hr H. read_inv. split; [done|]. split; [|done]. by rewrite <- app_assoc.
Qed.

#[export] Instance check_id_codec n : expects (check_id n) (be 16 n).
Proof.
  split.
  - intros [] r _. unfold check_id. unfold mbind, M_bind. rewrite rtake_app by (by rewrite be_length).
    unfold refuse_if. by rewrite bool_decide_eq_true_2.
  - intros r [] r' Hr H. unfold check_id in H. read_inv. apply rtake_exact in Hread as [-> ?]; [|done]. guards.
    apply Forall_app in Hr as [_ ?]. done.
Qed.
Lemma number_codec (m : Z) w (rd : M Reader WireError Z) n e `{!Codec (fits m) (be w) rd} : fits m n ->
  expects (v ← rd; refuse_if (fun _ => negb (v =? n)) (fun _ => e)) (be w n).
Proof.
  intros Hn. split.
  - intros [] r _. unfold mbind, M_bind. rewrite codec_read by done. unfold refuse_if. by rewrite Z.eqb_refl.
  - intros r [] r' Hr H. read_inv. guards. done.
Qed.
Lemma check_generation_codec n : fits u64_max n -> expects (check_generation n) (be 8 n).
Proof. exact (number_codec u64_max 8 ru64 n InvalidBinding). Qed.
#[export] Instance subtype_codec : expects (check_version ru8 1) (be 1 1).
Proof. apply (number_codec u8_max 1 ru8 1 UnsupportedVersion). solve_fits. Qed.
#[export] Instance version_codec : expects (check_version ru16 1) (be 2 1).
Proof. apply (number_codec u16_max 2 ru16 1 UnsupportedVersion). solve_fits. Qed.

Definition generations (b : Binding) : list Z := [geometry b; configuration b; recovery b; viewport b].
Definition view_typed (b : Binding) : Prop :=
  fits u32_max (cb_id (parent b)) /\ Forall (fits u64_max) (generations b).
Definition view_bytes (b : Binding) : bytes :=
  be 16 (host_boot (parent b)) ++ be 16 (os_session (parent b)) ++ be 16 (remote_session (parent b))
  ++ be 16 (display b) ++ be 8 (geometry b) ++ be 8 (configuration b) ++ be 8 (recovery b) ++ be 8 (viewport b).

Lemma view_length b : length (view_bytes b) = 96%nat.
Proof. done. Qed.
Lemma view_is_bytes b : Forall is_byte (view_bytes b).
Proof. unfold view_bytes. solve_bytes. Qed.
Lemma writes_view b : writes (write_binding b) (view_bytes b).
Proof. unfold write_binding, view_bytes. solve_writes. Qed.

Lemma check_binding_codec b : view_typed b -> expects (check_binding b) (view_bytes b).
Proof.
  intros [_ Hg]. unfold generations in Hg. rewrite !Forall_cons in Hg. destruct Hg as (H1 & H2 & H3 & H4 & _).
  unfold check_binding, view_bytes. do 4 (apply prefix_codec; [apply check_id_codec|]).
  do 3 (apply prefix_codec; [by apply check_generation_codec|]). by apply check_generation_codec.
Qed.

End ViewProps.

(** ** Recovery requests *)

Module RecoveryMsgProps.
Import ViewBinding ViewProps RecoveryMsg.

Definition reason_bytes (r : Reason) : bytes := be 1 (reason_code r).
#[export] Instance reason_codec : Codec (fun _ => True) reason_bytes (parsed ru8 parse_reason).
Proof. apply (parsed_codec u8_max 1 ru8 reason_code parse_reason); [by intros []|parse_exact|by intros []]. Qed.

(** An optional number in a fixed width: a flag and the value or zero. *)
Definition known_bytes (w : nat) (v : option Z) : bytes := be 1 (flag (is_some v)) ++ be w (default 0 v).
Definition known_typed (m : Z) (v : option Z) : Prop := match v with Some v => fits m v | None => True end.
Lemma known_default m v : fits m (default 0 v) -> known_typed m v.
Proof. by destruct v. Qed.
Lemma known_value_exact k v o : known_value k v = Ok o -> k = flag (is_some o) /\ v = default 0 o.
Proof.
  unfold known_value. destruct k as [|[]|]; try done.
  - destruct (Z.eqb_spec v 0); [|done]. by intros [= <-].
  - by intros [= <-].
Qed.
#[export] Instance known_codec :
  Codec (known_typed u64_max) (known_bytes 8) (k ← ru8; v ← ru64; lift (known_value k v)).
Proof.
  split.
  - intros [v|] r Hv; unfold known_bytes; cbn [is_some flag default]; by read_all.
  - intros r o r' Hr H. read_inv. match goal with H : known_value _ _ = _ |- _ => apply known_value_exact in H as [-> ->] end.
    split; [by apply known_default|]. split; [|done]. unfold known_bytes. by rewrite <- app_assoc.
Qed.

Definition request_bytes (q : Request) : bytes := reason_bytes (reason q) ++ known_bytes 8 (last_useful_frame q).
Definition request_typed (q : Request) : Prop := known_typed u64_max (last_useful_frame q).
Definition body (b : Binding) (q : Request) : bytes := view_bytes b ++ be 1 1 ++ request_bytes q.

Lemma recovery_request_codec_body b : view_typed b -> Codec request_typed (body b) (read_request b).
Proof.
  intros Hb. unfold body, read_request. apply prefix_codec; [by apply check_binding_codec|].
  apply prefix_codec; [apply subtype_codec|]. split.
  - intros [re o] r Ho. unfold request_bytes. cbn [reason last_useful_frame] in *. read_step.
    pose proof (codec_read (m := k ← ru8; v ← ru64; lift (known_value k v)) o r Ho) as Hk.
    revert Hk. unfold mbind, M_bind. repeat case_match; naive_solver.
  - intros r q r' Hr H. read_inv.
    match goal with H : known_value _ _ = _ |- _ => apply known_value_exact in H as [-> ->] end.
    split; [by apply known_default|]. split; [|done]. unfold request_bytes, known_bytes. by rewrite <- !app_assoc.
Qed.

Lemma recovery_request_codec b limits direction delivery : view_typed b -> cb_id (parent b) <> 0 ->
  exact_codec request_typed (routed (_ ← validate b; role direction delivery)) (fun _ => RecoveryRequest) (body b)
    (control_bytes limits) (cb_id (parent b))
    (fun q out => encode q b limits out direction delivery)
    (fun bs => decode bs b limits direction delivery).
Proof.
  intros Hb Hnz. pose proof (recovery_request_codec_body b Hb).
  apply (plain_codec _ RecoveryRequest (body b) (control_bytes limits) (cb_id (parent b)) None
    (_ ← validate b; role direction delivery) (read_request b) (write_request b) (REQUEST_BYTES - 24)); try done.
  - apply Hb.
  - intros [re o] _. split; [|by destruct o]. unfold body, request_bytes, reason_bytes, known_bytes.
    cbn [reason last_useful_frame]. rewrite !Forall_app. repeat split; auto using be_bytes, view_is_bytes.
  - intros q _. unfold write_request, body, request_bytes, reason_bytes, known_bytes.
    apply writes_bind; [apply writes_view|]. solve_writes.
Qed.

End RecoveryMsgProps.

(** ** Presentation reports *)

Module PresentedMsgProps.
Import Media MediaProps ViewBinding ViewProps PresentedMsg.

Definition stamp_typed (s : Stamp) : Prop :=
  fits u64_max (st_frame s) /\ fits u64_max (captured_us s) /\ fits u64_max (observed_us s).
Definition sample_typed (s : Sample) : Prop := stamp_typed (stamp s) /\ fits u64_max (age_upper_us s).
Definition report_typed (r : Report) : Prop :=
  fits u64_max (sequence r) /\ match visible r with Some s => sample_typed s | None => True end.
Definition sample_bytes (s : Sample) : bytes :=
  be 8 (st_frame (stamp s)) ++ be 8 (captured_us (stamp s)) ++ be 8 (observed_us (stamp s))
  ++ observation_bytes (source (stamp s)) ++ be 8 (age_upper_us s).
Definition report_bytes (r : Report) : bytes :=
  be 8 (sequence r) ++ be 1 (flag (is_some (visible r))) ++ sample_bytes (default no_sample (visible r)).
Definition body (b : Binding) (r : Report) : bytes := view_bytes b ++ be 1 1 ++ report_bytes r.
Definition report_valid (r : Report) : Prop := validate_report r = Ok tt.

Lemma visible_of_exact stage s v : visible_of stage s = Ok v ->
  stage = flag (is_some v) /\ s = default no_sample v /\ match v with Some s => validate_sample s = Ok tt | None => True end.
Proof.
  unfold visible_of. destruct stage as [|[]|]; try done.
  - destruct (_ && _) eqn:E; [|done]. intros [= <-]. split; [done|]. split; [|done].
    destruct s as [[f c o so] a]. cbn in E. rewrite !andb_true_iff, !Z.eqb_eq, bool_decide_eq_true in E. cbn.
    by destruct E as [[[[-> ->] ->] ->] ->].
  - destruct (validate_sample s) as [[]|] eqn:E; [|done]. by intros [= <-].
Qed.
Lemma visible_of_read v : match v with Some s => validate_sample s = Ok tt | None => True end ->
  visible_of (flag (is_some v)) (default no_sample v) = Ok v.
Proof. destruct v as [s|]; [|done]. cbn. by intros ->. Qed.

Lemma presented_report_codec_body b : view_typed b -> Codec (fun r => report_typed r /\ report_valid r) (body b) (read_report b).
Proof.
  intros Hb. unfold body, read_report. apply prefix_codec; [by apply check_binding_codec|].
  apply prefix_codec; [apply subtype_codec|]. split.
  - intros [n v] r [[Hn Hv] Hval]. unfold report_valid, validate_report in Hval. cbn [sequence visible] in *.
    destruct (Z.eqb_spec n 0) as [|Hnz]; [done|]. unfold report_bytes. cbn [sequence visible]. read_step.
    unfold mbind at 1, M_bind at 1, refuse_if at 1. rewrite (proj2 (Z.eqb_neq n 0) Hnz).
    pose proof (visible_of_read v) as Hvis. set (s := default no_sample v) in *.
    assert (sample_typed s) as [(? & ? & ?) ?] by (by destruct v; [|vm_compute; repeat split]).
    assert (fits u8_max (flag (is_some v))) by (by destruct v).
    unfold sample_bytes. read_all. unfold mbind, M_bind, lift.
    replace (mk_sample _ _) with s by (by destruct s as [[] ?]). rewrite Hvis; [done|]. by destruct v.
  - intros r q r' Hr H. read_inv. guards.
    match goal with H : visible_of _ _ = Ok ?v |- _ => apply visible_of_exact in H as (-> & Hs & Hval); rename v into vis end.
    split; [split|split; [|done]].
    + split; [done|]. cbn [visible]. destruct vis as [s|]; [|done]. cbn in Hs. by rewrite <- Hs.
    + unfold report_valid, validate_report. cbn [sequence visible]. rewrite (proj2 (Z.eqb_neq _ 0)) by done. by destruct vis.
    + unfold report_bytes, sample_bytes. cbn [sequence visible]. rewrite <- Hs. cbn [stamp st_frame captured_us observed_us source age_upper_us].
      by rewrite <- !app_assoc.
Qed.

(** The decoder takes no extensions: it refuses every other length first. *)
Lemma presented_codec b limits direction delivery : view_typed b -> cb_id (parent b) <> 0 ->
  exact_codec report_typed (fun r => (_ ← validate b; role direction delivery) = Ok tt /\ report_valid r)
    (fun _ => PresentedState) (body b) (control_bytes limits) (cb_id (parent b))
    (fun r out => encode r b limits out direction delivery)
    (fun bs => decode bs b limits direction delivery).
Proof.
  intros Hb Hnz. pose proof (presented_report_codec_body b Hb) as Hcodec.
  assert (exact_codec report_typed (fun r => (_ ← validate b; role direction delivery) = Ok tt /\ report_valid r)
    (fun _ => PresentedState) (body b) (control_bytes limits) (cb_id (parent b))
    (fun r out => encode r b limits out direction delivery)
    (fun bs => _ ← (_ ← validate b; role direction delivery); r ← decode_bounded bs (control_bytes limits) (cb_id (parent b)) None;
               reading r PresentedState (x ← read_report b; _ ← rfinish; mret x))) as [H1 H2 H3 H4].
  { apply (inner_codec _ _ PresentedState (body b) _ _ None _ (read_report b) (write_report b)); try done.
    - apply Hb.
    - intros [n v] _ _. split; [|done]. unfold body, report_bytes, sample_bytes, observation_bytes.
      rewrite !Forall_app. repeat split; auto using be_bytes, view_is_bytes.
    - intros r _ _. unfold write_report, body, report_bytes, sample_bytes, observation_bytes.
      apply writes_bind; [apply writes_view|]. solve_writes.
    - intros r out _ Hpre Hin. unfold encode. apply both_Ok in Hpre as [-> ->]. cbn [mbind Result_bind]. by rewrite Hin.
    - intros r out _ Hn. unfold encode. destruct (validate b) as [[]|e]; [|by exists e]. cbn [mbind Result_bind] in *.
      destruct (role direction delivery) as [[]|e]; [|by exists e]. cbn [mbind Result_bind] in *.
      destruct (validate_report r) as [[]|e] eqn:E; [|by exists e]. destruct Hn. by split. }
  assert (forall r, length (body b r) = 139%nat) as Hlen by done.
  split; [done|done| |].
  - intros r Ht Hv Hf. unfold decode. destruct Hv as [Hpre Hv]. apply both_Ok in Hpre as Hpre'. destruct Hpre' as [E1 E2].
    rewrite E1, E2. cbn [mbind Result_bind]. rewrite frame_length, Hlen. cbn [length plus Z.of_nat].
    specialize (H3 r Ht (conj Hpre Hv) Hf). by rewrite Hpre in H3.
  - intros bs r Hbytes Hd. apply H4; [done|]. unfold decode in Hd. destruct (validate b) as [[]|e]; [|done].
    cbn [mbind Result_bind] in *. destruct (role direction delivery) as [[]|e]; [|done]. cbn [mbind Result_bind] in *.
    destruct (negb _); done.
Qed.

End PresentedMsgProps.

(** ** Decoder metrics *)

Module MetricsMsgProps.
Import ViewBinding ViewProps RecoveryMsgProps MetricsMsg.

Definition load_typed (l : Load) : Prop :=
  fits u64_max (retained_bytes l) /\ fits u32_max (retained_pictures l) /\ known_typed u64_max (work_us l).
Definition load_bytes (l : Load) : bytes :=
  be 8 (retained_bytes l) ++ be 4 (retained_pictures l) ++ bool_bytes (decoding l) ++ known_bytes 8 (work_us l).
Definition message_typed (m : Message) : Prop :=
  fits u64_max (sequence_of m) /\ match m with Reply _ l => load_typed l | Query _ => True end.
Definition message_bytes (m : Message) : bytes :=
  be 1 (tag m) ++ be 8 (sequence_of m) ++ match m with Reply _ l => load_bytes l | Query _ => [] end.
Definition body (b : Binding) (m : Message) : bytes := view_bytes b ++ be 1 1 ++ message_bytes m.

#[export] Instance load_codec : Codec load_typed load_bytes read_load.
Proof.
  split.
  - intros [n p d w] r (H1 & H2 & H3). unfold load_bytes, read_load. cbn in H1, H2, H3.
    cbn [retained_bytes retained_pictures decoding work_us]. read_all.
    pose proof (codec_read (m := k ← ru8; v ← ru64; lift (RecoveryMsg.known_value k v)) w r H3) as Hk.
    revert Hk. unfold mbind, M_bind. repeat case_match; naive_solver.
  - intros r l r' Hr H. unfold read_load in H. read_inv.
    match goal with H : RecoveryMsg.known_value _ _ = _ |- _ => apply known_value_exact in H as [-> ->] end.
    split; [split_and!; try done; by apply known_default|]. split; [|done]. unfold load_bytes, known_bytes. by rewrite <- !app_assoc.
Qed.

Lemma role_tag t direction delivery : role t direction delivery = Ok tt -> t = 0 \/ t = 1.
Proof. unfold role. destruct (negb _); [done|]. destruct t as [|[]|]; auto; done. Qed.

Lemma metrics_codec_body b limits direction delivery : view_typed b ->
  Codec (fun m => message_typed m /\ validate_message limits direction delivery m = Ok tt) (body b)
    (read_message b limits direction delivery).
Proof.
  intros Hb. unfold body, read_message. apply prefix_codec; [by apply check_binding_codec|].
  apply prefix_codec; [apply subtype_codec|]. split.
  - intros m r [[Hs Hm] Hv]. unfold validate_message in Hv. apply Result_bind_Ok in Hv as ([] & Hrole & Hv).
    destruct (Z.eqb_spec (sequence_of m) 0) as [|Hnz]; [done|]. unfold message_bytes.
    assert (fits u8_max (tag m)) by (by destruct m). read_step. unfold mbind at 1, M_bind at 1, lift at 1. rewrite Hrole.
    read_step. unfold mbind at 1, M_bind at 1, refuse_if at 1. rewrite (proj2 (Z.eqb_neq _ 0) Hnz).
    destruct m as [s|s l]; cbn [tag sequence_of] in *; [done|]. cbn [Z.eqb]. read_step.
    unfold mbind, M_bind, lift. by rewrite Hv.
  - intros r m r' Hr H. read_inv. guards. units. match goal with H : role ?t _ _ = _ |- _ => destruct (role_tag _ _ _ H) as [-> | ->] end.
    + rewrite Z.eqb_refl in H. read_inv. split; [split; [by split|]|split; [|done]].
      * unfold validate_message. cbn [tag sequence_of]. match goal with H : role _ _ _ = _ |- _ => rewrite H end.
        cbn. by rewrite (proj2 (Z.eqb_neq _ 0)).
      * unfold message_bytes. cbn [tag sequence_of]. by rewrite app_nil_r, <- !app_assoc.
    + cbn [Z.eqb] in H. read_inv. units. split; [split; [by split|]|split; [|done]].
      * unfold validate_message. cbn [tag sequence_of]. match goal with H : role _ _ _ = _ |- _ => rewrite H end.
        cbn [mbind Result_bind]. by rewrite (proj2 (Z.eqb_neq _ 0)).
      * unfold message_bytes. cbn [tag sequence_of]. by rewrite <- !app_assoc.
Qed.

Lemma metrics_codec b limits direction delivery : view_typed b -> cb_id (parent b) <> 0 ->
  exact_codec message_typed (fun m => validate b = Ok tt /\ validate_message limits direction delivery m = Ok tt)
    (fun _ => StageMetrics) (body b) (control_bytes limits) (cb_id (parent b))
    (fun m out => encode m b limits out direction delivery)
    (fun bs => decode bs b limits direction delivery).
Proof.
  intros Hb Hnz. pose proof (metrics_codec_body b limits direction delivery Hb).
  apply (inner_codec _ _ StageMetrics (body b) _ _ None _ (read_message b limits direction delivery) (write_message b)); try done.
  - apply Hb.
  - intros [s|s l] _ _; (split; [|done]); unfold body, message_bytes, load_bytes, bool_bytes, known_bytes;
      rewrite !Forall_app; repeat split; auto using be_bytes, view_is_bytes.
  - intros m _ _. unfold write_message, body, message_bytes. apply writes_bind; [apply writes_view|].
    do 3 (apply writes_bind; [apply writes_put|]). destruct m; [apply writes_ret|].
    unfold write_load, load_bytes, bool_bytes, known_bytes. solve_writes.
  - intros m out _ Hpre Hin. unfold encode. rewrite Hpre, Hin. by destruct m.
  - intros m out _ Hn. unfold encode. destruct (validate b) as [[]|e]; [|by exists e]. cbn [mbind Result_bind].
    destruct (validate_message _ _ _ m) as [[]|e]; [|by exists e]. by destruct Hn.
Qed.

End MetricsMsgProps.

(** ** Quality decisions *)

Module QualityMsgProps.
Import ViewBinding ViewProps RecoveryMsgProps QualityMsg.

Definition mode_bytes (m : Mode) : bytes := be 1 (mode_code m).
Definition reason_bytes (r : Reason) : bytes := be 1 (reason_code r).
#[export] Instance mode_codec : Codec (fun _ => True) mode_bytes (parsed ru8 parse_mode).
Proof. apply (parsed_codec u8_max 1 ru8 mode_code parse_mode); [by intros []|parse_exact|by intros []]. Qed.
#[export] Instance reason_codec : Codec (fun _ => True) reason_bytes (parsed ru8 parse_reason).
Proof. apply (parsed_codec u8_max 1 ru8 reason_code parse_reason); [by intros []|parse_exact|by intros []]. Qed.

Definition rate_valid (r : option Z) : Prop := match r with Some n => rate_ok n = true | None => True end.
Lemma rate_fits n : rate_ok n = true -> fits u32_max n.
Proof. unfold rate_ok, MIN_BITRATE_BPS, MAX_BITRATE_BPS, fits, u32_max. lia. Qed.
#[export] Instance bitrate_codec : Codec rate_valid (known_bytes 4) bitrate.
Proof.
  split.
  - intros [n|] r Hn; unfold known_bytes, bitrate; cbn [is_some flag default rate_valid] in *.
    + pose proof (rate_fits n Hn). read_all. unfold lift, id. by rewrite Hn.
    + by read_all.
  - intros r o r' Hr H. unfold bitrate in H. read_inv. unfold known_bytes.
    match goal with H : (match ?k with _ => _ end) = Ok _ |- _ => rename H into Hk; rename k into known end.
    destruct known as [|[]|]; try done.
    + destruct (Z.eqb_spec v0 0) as [->|]; [|done]. injection Hk as <-. by rewrite <- app_assoc.
    + destruct (rate_ok v0) eqn:E; [|done]. injection Hk as <-. by rewrite <- app_assoc.
Qed.

Definition decision_typed (d : Decision) : Prop :=
  fits u64_max (sequence d) /\ fits u32_max (capture_interval_us d)
  /\ known_typed u32_max (applied_bitrate_bps d) /\ known_typed u32_max (pending_bitrate_bps d).
Definition decision_bytes (d : Decision) : bytes :=
  be 8 (sequence d) ++ be 8 (capture_interval_us d) ++ mode_bytes (mode d) ++ reason_bytes (reason d)
  ++ known_bytes 4 (applied_bitrate_bps d) ++ known_bytes 4 (pending_bitrate_bps d).
Definition body (b : Binding) (d : Decision) : bytes := view_bytes b ++ be 2 1 ++ decision_bytes d.
Definition decision_valid (d : Decision) : Prop := validate_decision d = Ok tt.

Lemma decision_parts d : decision_valid d ->
  interval_ok (capture_interval_us d) = true /\ rate_valid (applied_bitrate_bps d) /\ rate_valid (pending_bitrate_bps d).
Proof.
  unfold decision_valid, validate_decision. destruct (_ || _ || _ || _) eqn:E; [done|]. intros _.
  rewrite !orb_false_iff in E. destruct E as [[[_ Hi] _] Hr]. split; [by destruct (interval_ok _)|].
  destruct (applied_bitrate_bps d) as [x|], (pending_bitrate_bps d) as [y|]; cbn in *;
    rewrite ?orb_false_iff in Hr; repeat destruct Hr as [? Hr]; guards; by split_and!.
Qed.

Lemma decision_codec_body b : view_typed b ->
  Codec (fun d => decision_typed d /\ decision_valid d) (body b) (read_decision b).
Proof.
  intros Hb. unfold body, read_decision. apply prefix_codec; [by apply check_binding_codec|].
  apply prefix_codec; [apply version_codec|]. split.
  - intros d r [(Hs & Hi & _ & _) Hv]. destruct (decision_parts d Hv) as (Hin & Ha & Hp).
    unfold decision_bytes. assert (fits u64_max (capture_interval_us d)) by solve_fits.
    do 2 read_step. unfold mbind at 1, M_bind at 1, refuse_if at 1. rewrite Hin. cbn [negb].
    read_all. destruct d. cbn in *. unfold mbind, M_bind, lift. by rewrite Hv.
  - intros r d r' Hr H. read_inv. guards. units. split; [split|split; [|done]].
    + match goal with H : interval_ok _ = true |- _ => unfold interval_ok, MIN_CAPTURE_INTERVAL_US, MAX_CAPTURE_INTERVAL_US in H end.
      split_and!; cbn; try done; [solve_fits|..]; match goal with |- known_typed _ ?o => destruct o; [by apply rate_fits|done] end.
    + done.
    + unfold decision_bytes. cbn. by rewrite <- !app_assoc.
Qed.

Lemma quality_codec b limits direction delivery : view_typed b -> cb_id (parent b) <> 0 ->
  exact_codec decision_typed (fun d => (_ ← validate b; role direction delivery) = Ok tt /\ decision_valid d)
    (fun _ => QualityDecision) (body b) (control_bytes limits) (cb_id (parent b))
    (fun d out => encode d b limits out direction delivery)
    (fun bs => decode bs b limits direction delivery).
Proof.
  intros Hb Hnz. pose proof (decision_codec_body b Hb).
  apply (inner_codec _ _ QualityDecision (body b) _ _ None _ (read_decision b) (write_decision b)); try done.
  - apply Hb.
  - intros d _ _. split; [|done]. unfold body, decision_bytes, mode_bytes, reason_bytes, known_bytes.
    rewrite !Forall_app. repeat split; auto using be_bytes, view_is_bytes.
  - intros d _ _. unfold write_decision, body, decision_bytes, mode_bytes, reason_bytes.
    apply writes_bind; [apply writes_view|]. do 5 (apply writes_bind; [apply writes_put|]).
    unfold write_bitrate, known_bytes. apply writes_bind; solve_writes.
  - intros d out _ Hpre Hin. unfold encode. apply both_Ok in Hpre as [-> ->]. cbn [mbind Result_bind]. by rewrite Hin.
  - intros d out _ Hn. unfold encode. destruct (validate b) as [[]|e]; [|by exists e]. cbn [mbind Result_bind] in *.
    destruct (role direction delivery) as [[]|e]; [|by exists e]. cbn [mbind Result_bind] in *.
    destruct (validate_decision d) as [[]|e] eqn:E; [|by exists e]. destruct Hn. by split.
Qed.

End QualityMsgProps.

(** ** Decoder configuration *)

Module DecoderMsgProps.
Import ViewBinding ViewProps DecoderMsg.

Definition configuration_typed (c : Configuration) : Prop :=
  Forall (fits u32_max) [coded_width c; coded_height c; crop_width c; crop_height c] /\ fits u16_max (fps c)
  /\ Forall (fits u8_max) [primaries c; transfer c; matrix c; decoded_pictures c]
  /\ Forall scalar (codec c) /\ Forall is_byte (hvcc c).
Definition configuration_bytes (c : Configuration) : bytes :=
  be 4 (coded_width c) ++ be 4 (coded_height c) ++ be 4 (crop_width c) ++ be 4 (crop_height c) ++ be 2 (fps c)
  ++ be 1 (primaries c) ++ be 1 (transfer c) ++ be 1 (matrix c) ++ bool_bytes (full_range c)
  ++ be 1 (decoded_pictures c) ++ data_bytes (utf8 (codec c)) ++ data_bytes (hvcc c).
Definition short (c : Configuration) : Prop :=
  Z.of_nat (length (utf8 (codec c))) <= u32_max /\ Z.of_nat (length (hvcc c)) <= u32_max.

#[export] Instance configuration_codec :
  Codec (fun c => configuration_typed c /\ short c) configuration_bytes read_configuration.
Proof.
  split.
  - intros [w h cw ch f p t m fr dp co hv] r [(H4 & H2 & H1 & Hco & Hhv) [Hs1 Hs2]]. cbn in *.
    rewrite !Forall_cons in H4, H1. destruct H4 as (? & ? & ? & ? & _), H1 as (? & ? & ? & ? & _).
    assert (data_ok (utf8 co)) by (split; [by apply utf8_bytes|done]). assert (data_ok hv) by done.
    unfold configuration_bytes, read_configuration.
    cbn [coded_width coded_height crop_width crop_height fps primaries transfer matrix full_range decoded_pictures codec hvcc].
    read_all. unfold mbind at 1, M_bind at 1, lift at 1. rewrite from_utf8_utf8 by done. cbn [ok_or]. by read_all.
  - intros r c r' Hr H. unfold read_configuration in H. read_inv.
    match goal with H : ok_or ?o _ = Ok _, D : data_ok ?d |- _ =>
      destruct o eqn:Ho; [injection H as ->|done]; apply from_utf8_exact in Ho as [Ht ->]; [|apply D] end.
    repeat match goal with D : data_ok _ |- _ => destruct D end.
    split; [split; [split_and!; cbn; repeat constructor; solve_fits || done|by split]|]. split; [|done].
    unfold configuration_bytes. cbn. by rewrite <- !app_assoc.
Qed.

Lemma configuration_short c limits : validate_configuration c limits = Ok tt ->
  Z.of_nat (length (utf8 (codec c))) <= MAX_CODEC_BYTES /\ Z.of_nat (length (hvcc c)) <= MAX_HVCC_BYTES.
Proof.
  unfold validate_configuration. intros H. apply Result_bind_Ok in H as (? & _ & H). cbv zeta in H.
  destruct (_ || _) eqn:E; [done|]. rewrite !orb_false_iff in E. destruct E as [[[_ E] _] _]. apply Z.ltb_ge in E.
  split; [done|]. destruct (negb _) eqn:E2; [done|]. unfold between in E2. lia.
Qed.

Definition message_typed (m : Message) : Prop :=
  match m with
  | ConfigurationMessage c => configuration_typed c
  | Configured => True
  | FirstDecoded frame micros => fits u64_max frame /\ fits u64_max micros
  end.
Definition message_bytes (m : Message) : bytes :=
  match m with
  | ConfigurationMessage c => configuration_bytes c
  | Configured => []
  | FirstDecoded frame micros => be 8 frame ++ be 8 micros
  end.
Definition body (b : Binding) (m : Message) : bytes := view_bytes b ++ message_bytes m.
Definition inner (limits : Limits.ProtocolLimits) (m : Message) : Prop :=
  match m with ConfigurationMessage c => validate_configuration c limits = Ok tt | _ => True end.

Lemma decoder_codec_body b limits k : view_typed b ->
  k = DecoderConfiguration \/ k = DecoderConfigured \/ k = FirstFrameDecoded ->
  Codec (fun m => kind m = k /\ message_typed m /\ inner limits m) (body b) (read_message b limits k).
Proof.
  intros Hb Hk. unfold body, read_message. apply prefix_codec; [by apply check_binding_codec|]. split.
  - intros m r (<- & Ht & Hin). destruct m as [c| |f x]; cbn [kind message_bytes message_typed inner] in *.
    + destruct (configuration_short c limits Hin). unfold mbind at 1, M_bind at 1.
      rewrite codec_read by (split; [done|]; unfold short, MAX_CODEC_BYTES, MAX_HVCC_BYTES, u32_max in *; lia).
      unfold mbind, M_bind, lift. by rewrite Hin.
    + done.
    + destruct Ht. by read_all.
  - intros r m r' Hr H. destruct Hk as [->|[->| ->]]; read_inv; units.
    + destruct_and?. done.
    + done.
    + split; [done|]. split; [|done]. cbn. by rewrite <- app_assoc.
Qed.

Lemma decoder_codec b limits direction delivery : view_typed b -> cb_id (parent b) <> 0 ->
  exact_codec message_typed
    (fun m => validate b = Ok tt /\ inner limits m /\ @Ok WireError unit tt = Ok tt /\ role (kind m) direction delivery = Ok tt)
    kind (body b) (control_bytes limits) (cb_id (parent b))
    (fun m out => encode m b limits out direction delivery)
    (fun bs => decode bs b limits direction delivery).
Proof.
  intros Hb Hnz.
  assert (forall c, configuration_typed c -> validate_configuration c limits = Ok tt ->
    Z.of_nat (length (body b (ConfigurationMessage c))) = CONFIGURATION_OVERHEAD - 24
      + Z.of_nat (length (utf8 (codec c))) + Z.of_nat (length (hvcc c))) as Hlen.
  { intros c _ _. unfold body, message_bytes, configuration_bytes, data_bytes, bool_bytes, CONFIGURATION_OVERHEAD, BINDING_BYTES.
    rewrite ?length_app, ?view_length, ?be_length. lia. }
  apply (framed_codec message_typed (inner limits) kind (body b) (control_bytes limits) (cb_id (parent b)) (Some MediaConfig)
    (validate b) (fun k => role k direction delivery) (fun _ => Ok tt) (read_message b limits) (write_message b)); try done.
  - apply Hb.
  - by intros [].
  - intros k Hk. apply decoder_codec_body; [done|]. unfold role in Hk. destruct (negb _); [done|]. destruct k; try done; auto.
  - intros m Ht Hin _. split.
    + unfold body. apply Forall_app. split; [apply view_is_bytes|].
      destruct m as [c| |f x]; [|done|]; unfold message_bytes, configuration_bytes, bool_bytes, data_bytes; [|by solve_bytes].
      destruct Ht as (_ & _ & _ & ? & ?). rewrite !Forall_app. repeat split; auto using be_bytes, utf8_bytes.
    + destruct m as [c| |f x]; [|done|done]. cbn [inner] in Hin. rewrite Hlen by done. destruct (configuration_short c limits Hin).
      unfold CONFIGURATION_OVERHEAD, BINDING_BYTES, MAX_CODEC_BYTES, MAX_HVCC_BYTES, u32_max in *. lia.
  - intros m Ht Hin. unfold write_message, body. apply writes_bind; [apply writes_view|]. destruct m as [c| |f x]; cbn [message_bytes].
    + destruct (configuration_short c limits Hin). unfold write_configuration, configuration_bytes, bool_bytes.
      do 10 (apply writes_bind; [apply writes_put|]).
      apply writes_bind; apply writes_data; unfold MAX_CODEC_BYTES, MAX_HVCC_BYTES, u32_max in *; lia.
    + apply writes_ret.
    + solve_writes.
  - intros m out Ht Hpre Hin _ Hr. unfold encode. rewrite Hpre. cbn [mbind Result_bind]. rewrite Hr. cbn [mbind Result_bind].
    destruct m as [c| |f x]; [|done|done]. cbn [inner] in Hin. destruct (configuration_short c limits Hin). rewrite Hlen by done.
    unfold total. rewrite Hin. cbn [mbind Result_bind]. unfold MAX_CODEC_BYTES, MAX_HVCC_BYTES in *.
    assert (forall n m, n + m <= 20000 -> checked_add usize_max n m = Some (n + m)) as Hadd.
    { intros n m Hle. unfold checked_add, usize_max, u64_max. by destruct (Z.leb_spec (n + m) (2 ^ 64 - 1)); [|lia]. }
    unfold CONFIGURATION_OVERHEAD, BINDING_BYTES. rewrite Hadd by lia. cbn [mbind option_bind]. rewrite Hadd by lia.
    cbn [ok_or]. f_equal. lia.
  - intros m out Ht Hn. unfold encode. destruct (validate b) as [[]|e]; [|by exists e]. cbn [mbind Result_bind].
    destruct (role (kind m) direction delivery) as [[]|e]; [|by exists e]. cbn [mbind Result_bind].
    destruct m as [c| |f x]; [|by destruct Hn|by destruct Hn]. unfold total.
    destruct (validate_configuration c limits) as [[]|e] eqn:E; [|by exists e]. by destruct Hn.
  - intros bs. unfold decode. destruct (validate b); [|done]. cbn [mbind Result_bind].
    destruct (decode_bounded _ _ _ _) as [r|]; [|done]. cbn [mbind Result_bind]. destruct (role _ _ _); [|done].
    cbn [mbind Result_bind]. by destruct (reading _ _ _).
Qed.

End DecoderMsgProps.

(** * What grants and refusals guarantee

    The codecs of [WireGrant] are exact; a grant names the request it answers, and
    the ticket it carries is one that the ticket codec and the input codec accept. *)

(** ** Grants *)

Module GrantMsgProps.
Import ViewBinding GrantMsg.

(** The sets of the eight capabilities are the bytes. *)
Lemma capabilities_exact c : fits u8_max c -> capability_bits c = c /\ capabilities_of c = c.
Proof.
  intros Hc.
  assert (forallb (fun c => (capability_bits c =? c) && (capabilities_of c =? c)) (seqZ 0 256) = true) as H by (by vm_compute).
  rewrite forallb_forall in H. assert (c ∈ seqZ 0 256) as Hin by (apply elem_of_seqZ; unfold fits, u8_max in Hc; lia).
  apply list_elem_of_In, H in Hin. lia.
Qed.

Definition view_fields (v : InputView) : list Z :=
  [InputModel.geometry v; InputModel.viewport v; InputModel.configuration v; InputModel.recovery v].
Definition bounds_typed (b : Bounds.InputBounds) : Prop :=
  point_typed (Bounds.origin b) /\ fits u32_max (Bounds.width b) /\ fits u32_max (Bounds.height b)
  /\ Bounds.new (Bounds.origin b) (Bounds.width b) (Bounds.height b) = Some b.
Definition parent_typed (p : ControlBinding) : Prop :=
  fits u128_max (host_boot p) /\ fits u128_max (os_session p) /\ fits u128_max (remote_session p).
Definition request_typed (channel : Z) (rq : Request) : Prop :=
  cb_id (rq_parent rq) = channel /\ parent_typed (rq_parent rq) /\ fits u64_max (rq_sequence rq)
  /\ fits u32_max (display_binding (target rq)) /\ Forall (fits u64_max) (view_fields (tg_view (target rq)))
  /\ bounds_typed (bounds (target rq)) /\ fits u8_max (tg_capabilities (target rq)).
Definition request_bytes (rq : Request) : bytes :=
  let v := tg_view (target rq) in
  let b := bounds (target rq) in
  be 16 (host_boot (rq_parent rq)) ++ be 16 (os_session (rq_parent rq)) ++ be 16 (remote_session (rq_parent rq))
  ++ be 8 (rq_sequence rq) ++ be 4 (display_binding (target rq))
  ++ be 8 (InputModel.geometry v) ++ be 8 (InputModel.viewport v)
  ++ be 8 (InputModel.configuration v) ++ be 8 (InputModel.recovery v)
  ++ i32_bytes (px (Bounds.origin b)) ++ i32_bytes (py (Bounds.origin b))
  ++ be 4 (Bounds.width b) ++ be 4 (Bounds.height b) ++ be 1 (capability_bits (tg_capabilities (target rq))).

(** Read the fields of an explicit request. *)
Ltac request_fields :=
  cbn [rq_parent rq_sequence target cb_id host_boot os_session remote_session display_binding tg_view bounds
       tg_capabilities InputModel.geometry InputModel.viewport InputModel.configuration InputModel.recovery
       Bounds.origin Bounds.width Bounds.height px py].

#[export] Instance control_request_codec channel :
  Codec (request_typed channel) request_bytes (read_request channel).
Proof.
  split.
  - intros [[id hb os rs] s [d [g v c rc] [[x y] w h] caps]] r (<- & (? & ? & ?) & ? & ? & Hv & ([? ?] & ? & ? & Hnew) & Hc).
    cbn in *. unfold view_fields in Hv. rewrite !Forall_cons in Hv. cbn in Hv. destruct Hv as (? & ? & ? & ? & _). destruct (capabilities_exact caps Hc) as [Hb Ho].
    unfold request_bytes, read_request. request_fields. rewrite Hb.
    read_all. unfold mbind at 1, M_bind at 1, lift at 1. rewrite Hnew. cbn [ok_or]. read_all. by rewrite Ho.
  - intros r rq r' Hr H. unfold read_request in H. read_inv.
    match goal with H : ok_or ?o _ = Ok _ |- _ => destruct o as [bd|] eqn:Ho; [injection H as ->|done] end.
    assert (Ho' := Ho). unfold Bounds.new in Ho'. destruct (_ || _) in Ho'; [done|]. injection Ho' as <-.
    match goal with H : fits u8_max ?bits |- _ => destruct (capabilities_exact bits H) as [Hb Hc] end.
    split; [|split; [|done]].
    + unfold request_typed, view_fields. request_fields. rewrite Hc. split_and!; try done. by repeat (apply Forall_cons; split; [done|]).
    + unfold request_bytes. request_fields. rewrite Hc, Hb. by rewrite <- !app_assoc.
Qed.

Lemma request_is_bytes rq : Forall is_byte (request_bytes rq).
Proof. unfold request_bytes, i32_bytes. solve_bytes. Qed.
Lemma writes_request rq : writes (write_request rq) (request_bytes rq).
Proof. unfold write_request, request_bytes, wi32, i32_bytes. solve_writes. Qed.

(** The parent the decoder expects, which the encoder takes from the message. *)
Definition for_parent (expected p : ControlBinding) : Result WireError unit :=
  if negb (bool_decide (p = expected)) then Err InvalidBinding else Ok tt.
Lemma for_parent_Ok expected p : for_parent expected p = Ok tt <-> p = expected.
Proof. unfold for_parent. case_bool_decide; by split. Qed.

Definition request_valid (limits : Limits.ProtocolLimits) (expected : ControlBinding) (direction : InputDirection)
  (delivery : InputDelivery) (rq : Request) : Prop :=
  role direction ViewerToHost delivery = Ok tt /\ (_ ← valid_request rq limits; for_parent expected (rq_parent rq)) = Ok tt.

Lemma grant_request_codec expected limits direction delivery : fits u32_max (cb_id expected) -> cb_id expected <> 0 ->
  exact_codec (fun rq => request_typed (cb_id expected) rq /\ rq_parent rq = expected)
    (request_valid limits expected direction delivery) (fun _ => ControlRequest) request_bytes
    (control_bytes limits) (cb_id expected)
    (fun rq out => encode_request rq out limits direction delivery)
    (fun bs => decode_request bs expected limits direction delivery).
Proof.
  intros Hid Hnz.
  apply (exact_codec_restrict _ _ _ _ _ _ _ _ (fun rq out =>
    match (_ ← role direction ViewerToHost delivery; _ ← valid_request rq limits; for_parent expected (rq_parent rq)) with
    | Err e => (Err e, out)
    | Ok _ => record_bounded out (control_bytes limits) (cb_id expected) ControlRequest (REQUEST_BYTES - 24) (write_request rq)
    end)).
  - intros rq _ [_ Hv]. apply both_Ok in Hv as [_ Hp]. by apply for_parent_Ok.
  - intros rq out _ Hp. unfold encode_request. destruct (role _ _ _) as [[]|e]; [|done]. cbn [mbind Result_bind].
    destruct (valid_request rq limits) as [[]|e]; [|done]. cbn [mbind Result_bind].
    by rewrite (proj2 (for_parent_Ok _ _) Hp), Hp.
  - apply (message_codec _ ControlRequest request_bytes _ _ None (role direction ViewerToHost delivery)
      (fun rq => _ ← valid_request rq limits; for_parent expected (rq_parent rq)) (read_request (cb_id expected))
      write_request (REQUEST_BYTES - 24)); try done.
    + intros rq _. split; [apply request_is_bytes|done].
    + intros rq _. apply writes_request.
    + intros bs. unfold decode_request. destruct (role _ _ _); [|done]. cbn [mbind Result_bind].
      destruct (decode_bounded _ _ _ _) as [r|]; [|done]. cbn [mbind Result_bind]. destruct (reading _ _ _) as [rq|]; [|done].
      cbn [mbind Result_bind]. destruct (valid_request rq limits); [|done]. cbn [mbind Result_bind]. unfold for_parent.
      by destruct (negb _).
Qed.

(** ** The grant itself *)

Definition granted_typed (channel : Z) (g : Granted) : Prop :=
  request_typed channel (request g) /\ fits u32_max (input_channel g) /\ fits u128_max (g_lease g)
  /\ fits u128_max (g_ticket g) /\ fits u64_max (g_issued_at_us g) /\ fits u64_max (lease_until_us g)
  /\ fits u64_max (ticket_until_us g) /\ fits u64_max (first_action g) /\ fits u64_max (first_pointer g).
Definition granted_bytes (g : Granted) : bytes :=
  request_bytes (request g) ++ be 4 (input_channel g) ++ be 16 (g_lease g) ++ be 16 (g_ticket g)
  ++ be 8 (g_issued_at_us g) ++ be 8 (lease_until_us g) ++ be 8 (ticket_until_us g)
  ++ be 8 (first_action g) ++ be 8 (first_pointer g).
#[export] Instance granted_codec_body channel : Codec (granted_typed channel) granted_bytes (read_granted channel).
Proof.
  split.
  - intros g r (? & ? & ? & ? & ? & ? & ? & ? & ?). destruct g. cbn in *. unfold granted_bytes, read_granted. cbn. by read_all.
  - intros r g r' Hr H. unfold read_granted in H. read_inv. split; [by split_and!|]. split; [|done].
    unfold granted_bytes. by rewrite <- !app_assoc.
Qed.

Definition granted_valid (limits : Limits.ProtocolLimits) (expected : ControlBinding) (direction : InputDirection)
  (delivery : InputDelivery) (g : Granted) : Prop :=
  role direction HostToViewer delivery = Ok tt
  /\ (_ ← valid_grant g limits; for_parent expected (rq_parent (request g))) = Ok tt.

Lemma granted_codec expected limits direction delivery : fits u32_max (cb_id expected) -> cb_id expected <> 0 ->
  exact_codec (fun g => granted_typed (cb_id expected) g /\ rq_parent (request g) = expected)
    (granted_valid limits expected direction delivery) (fun _ => LeaseGranted) granted_bytes
    (control_bytes limits) (cb_id expected)
    (fun g out => encode_granted g out limits direction delivery)
    (fun bs => decode_granted bs expected limits direction delivery).
Proof.
  intros Hid Hnz.
  apply (exact_codec_restrict _ _ _ _ _ _ _ _ (fun g out =>
    match (_ ← role direction HostToViewer delivery; _ ← valid_grant g limits; for_parent expected (rq_parent (request g))) with
    | Err e => (Err e, out)
    | Ok _ => record_bounded out (control_bytes limits) (cb_id expected) LeaseGranted (GRANTED_BYTES - 24) (write_granted g)
    end)).
  - intros g _ [_ Hv]. apply both_Ok in Hv as [_ Hp]. by apply for_parent_Ok.
  - intros g out _ Hp. unfold encode_granted. destruct (role _ _ _) as [[]|e]; [|done]. cbn [mbind Result_bind].
    destruct (valid_grant g limits) as [[]|e]; [|done]. cbn [mbind Result_bind].
    by rewrite (proj2 (for_parent_Ok _ _) Hp), Hp.
  - apply (message_codec _ LeaseGranted granted_bytes _ _ None (role direction HostToViewer delivery)
      (fun g => _ ← valid_grant g limits; for_parent expected (rq_parent (request g))) (read_granted (cb_id expected))
      write_granted (GRANTED_BYTES - 24)); try done.
    + intros g _. split; [|done]. unfold granted_bytes. rewrite !Forall_app.
      repeat split; auto using be_bytes, request_is_bytes.
    + intros g _. unfold write_granted, granted_bytes. apply writes_bind; [apply writes_request|]. solve_writes.
    + intros bs. unfold decode_granted. destruct (role _ _ _); [|done]. cbn [mbind Result_bind].
      destruct (decode_bounded _ _ _ _) as [r|]; [|done]. cbn [mbind Result_bind]. destruct (reading _ _ _) as [g|]; [|done].
      cbn [mbind Result_bind]. destruct (valid_grant g limits); [|done]. cbn [mbind Result_bind]. unfold for_parent.
      by destruct (negb _).
Qed.

(** The first ticket of a valid grant is one the ticket codec accepts. *)
Lemma initial_ticket_valid g limits : valid_grant g limits = Ok tt ->
  TicketMsg.valid (initial_ticket g) (input_channel g) = Ok tt.
Proof.
  unfold valid_grant. intros H. apply Result_bind_Ok in H as ([] & Hrq & H). unfold valid_request in Hrq.
  destruct (_ || _) eqn:E1 in Hrq; [done|]. destruct (_ || _) eqn:E2 in H; [done|]. destruct (_ || _) eqn:E3 in H; [done|].
  guards. unfold TicketMsg.valid, initial_ticket, granted_credentials. cbn.
  assert (TicketMsg.within 1 TicketMsg.MAX_TICKET_LIFETIME_US (checked_sub (ticket_until_us g) (g_issued_at_us g)) = true)
    as -> by assumption.
  destruct (Z.eqb_spec (input_channel g) 0), (Z.eqb_spec (remote_session (rq_parent (request g))) 0),
    (Z.eqb_spec (g_lease g) 0), (Z.eqb_spec (g_ticket g) 0); done.
Qed.

End GrantMsgProps.

(** ** Refusals *)

Module RefusalMsgProps.
Import ResultMsg ResultMsgProps ViewBinding RefusalMsg.

Definition reason_bytes (r : Reason) : bytes := be 2 (reason_code r).
#[export] Instance refusal_reason_codec : Codec (fun _ => True) reason_bytes (parsed ru16 parse_reason).
Proof. apply (parsed_codec u16_max 2 ru16 reason_code parse_reason); [by intros []|parse_exact|by intros []]. Qed.

Definition stage_flag_bytes (s : option Stage) : bytes :=
  be 1 (flag (is_some s)) ++ match s with Some s => stage_bytes s | None => [] end.
#[export] Instance stage_flag_codec : Codec (fun _ => True) stage_flag_bytes read_stage_flag.
Proof.
  split.
  - intros [s|] r _; unfold stage_flag_bytes, read_stage_flag; cbn [is_some flag]; [by read_all|].
    rewrite app_nil_r. by read_all.
  - intros r s r' Hr H. unfold read_stage_flag in H. read_inv. destruct v as [|[]|]; try done; read_inv.
    + done.
    + split; [done|]. split; [|done]. unfold stage_flag_bytes. by rewrite <- app_assoc.
Qed.

Definition refused_typed (m : Refused) : Prop := optional_ok (operation m).
Definition refused_bytes (m : Refused) : bytes :=
  reason_bytes (reason m) ++ optional_bytes (operation m) ++ stage_flag_bytes (stage m).
#[export] Instance refused_codec : Codec refused_typed refused_bytes read_refused.
Proof.
  split.
  - intros [re o s] r Ho. unfold refused_bytes, read_refused. cbn [reason operation stage] in *. by read_all.
  - intros r m r' Hr H. unfold read_refused in H. read_inv. split; [done|]. split; [|done].
    unfold refused_bytes. by rewrite <- !app_assoc.
Qed.

(** The route and the largest record together. *)
Definition reliable (delivery : InputDelivery) : Result WireError unit :=
  if negb (is_delivery delivery Reliable) then Err WrongChannel else Ok tt.
Definition record_limit (limit : Z) : Z := Z.min limit (Limits.max_control_message_bytes Limits.ABSOLUTE).
Lemma maximum_route {B} limit delivery (k : Z -> Result WireError B) :
  (maximum limit delivery ≫= k) = (_ ← reliable delivery; k (record_limit limit)).
Proof. unfold maximum, reliable, mbind, Result_bind. by destruct (negb _). Qed.

Lemma refusal_codec binding limit delivery : fits u32_max binding ->
  exact_codec refused_typed (fun m => reliable delivery = Ok tt /\ validate m binding = Ok tt)
    (fun _ => WireRecord.Refused) refused_bytes (record_limit limit) binding
    (fun m out => encode m binding limit out delivery)
    (fun bs => decode bs binding limit delivery).
Proof.
  intros Hb. apply exact_codec_intro with (ch := None); try done.
  - intros [re o s] _ _. split; [|by destruct o, s]. unfold refused_bytes, reason_bytes, stage_flag_bytes, stage_bytes, optional_bytes.
    cbn [reason operation stage]. rewrite !Forall_app. destruct o, s; repeat split; auto using be_bytes; rewrite ?Forall_app; auto using be_bytes.
  - intros m Hm [Hr Hv]. exists (write_refused m). split.
    + unfold write_refused, refused_bytes, reason_bytes, stage_flag_bytes, stage_bytes. do 2 (apply writes_bind; [solve_writes|]).
      apply writes_bind; [apply writes_put|]. destruct (stage m); [apply writes_put|apply writes_ret].
    + intros out. unfold encode, maximum. unfold reliable in Hr. destruct (negb _); [done|]. rewrite Hv.
      f_equal. by destruct m as [? [] []].
  - intros m out Hm Hn. unfold encode, maximum. unfold reliable in Hn. destruct (negb _); [by eexists|].
    destruct (validate m binding) as [[]|e]; [by destruct Hn|by eexists].
  - intros m b Hbytes. unfold decode. rewrite maximum_route.
    apply (checked_exact refused_typed (fun _ => WireRecord.Refused) refused_bytes); [done|done|].
    intros [k bi p] Hp _. cbn [WireRecord.kind payload] in *. rewrite reading_exact. cbn [WireRecord.kind payload]. split.
    + intros [Hk H]. run_reader H. read_inv. by rewrite app_nil_r.
    + intros (-> & Ht & ->). split; [done|]. unfold mbind, M_bind. by rewrite (codec_read_all _ _ read_refused).
Qed.

End RefusalMsgProps.
