(* ===== verification/WireClaims.v ===== *)
(** What the exactness of the codecs gives for every message of the protocol. *)

From S2P Require Import Prelude.
From S2P Require Import CoreTime.
From S2P Require Import Limits.
From S2P Require Import InputModel.
From S2P Require Import Bytes.
From S2P Require Import WireRecord.
From S2P Require Import WireRecordProps.
From S2P Require Import WireMedia.
From S2P Require Import WireInput.
From S2P Require Import WireInputProps.
From S2P Require Import WireResult.
From S2P Require Import WireReceipts.
From S2P Require Import WireControl.
From S2P Require Import WireControlProps.
From S2P Require Import WireView.
From S2P Require Import WireGrant.
From S2P Require Import WireViewProps.

(** * What the control channel guarantees

    The exactness of the input, ticket, result and session messages, gathered over
    their modules. *)

Module WireClaims.

(** C39. The input messages are exact.  On a bound channel, in the direction and on the
    delivery each of them allows, an input event, a held-state request, each of
    the three profiles of a ticket and an input result are written as one
    determined frame and read back unchanged; whatever their validators reject,
    or what is sent the wrong way, is refused before the buffer is touched; and
    whatever a decoder accepts is the frame of a valid message of the right
    widths. *)
Theorem input_messages_are_exact limits channel binding direction delivery :
  fits u32_max channel -> channel <> 0 -> ResultMsgProps.binding_typed binding -> ResultMsg.rb_channel binding <> 0 ->
  exact_codec InputMsgProps.request_typed (InputMsgProps.request_valid direction delivery)
    (fun rq => InputMsg.kind (event rq)) InputMsgProps.request_body (control_bytes limits) channel
    (fun rq out => InputMsg.encode_input rq out limits channel direction delivery)
    (fun b => InputMsg.decode_input b limits channel direction delivery)
  /\ exact_codec HeldMsgProps.held_typed (HeldMsgProps.held_valid channel direction delivery)
       (fun _ => WireRecord.HeldState) HeldMsgProps.held_body (control_bytes limits) channel
       (fun rq out => HeldMsg.encode rq out limits channel direction delivery)
       (fun b => HeldMsg.decode b limits channel direction delivery)
  /\ exact_codec TicketMsgProps.ticket_typed (TicketMsgProps.on_route channel direction delivery TicketMsg.valid)
       (fun _ => InputTicket) TicketMsgProps.ticket_bytes (control_bytes limits) channel
       (fun t out => TicketMsg.encode t out limits channel direction delivery)
       (fun b => TicketMsg.decode b limits channel direction delivery)
  /\ exact_codec TicketMsgProps.authority_typed
       (TicketMsgProps.on_route channel direction delivery TicketMsg.valid_authority)
       (fun _ => InputTicket) TicketMsgProps.authority_bytes (control_bytes limits) channel
       (fun t out => TicketMsg.encode_authority t out limits channel direction delivery)
       (fun b => TicketMsg.decode_authority b limits channel direction delivery)
  /\ exact_codec TicketMsgProps.readiness_typed
       (TicketMsgProps.on_route channel direction delivery TicketMsg.valid_readiness)
       (fun _ => InputTicket) TicketMsgProps.readiness_bytes (control_bytes limits) channel
       (fun t out => TicketMsg.encode_readiness t out limits channel direction delivery)
       (fun b => TicketMsg.decode_readiness b limits channel direction delivery)
  /\ exact_codec (ResultMsgProps.result_typed binding) (ResultMsgProps.result_valid direction delivery)
       (fun _ => WireRecord.InputResult) ResultMsgProps.result_bytes (control_bytes limits) (ResultMsg.rb_channel binding)
       (fun r out => ResultMsg.encode_input_result r out limits direction delivery)
       (fun b => ResultMsg.decode_input_result b limits binding direction delivery).
Proof.
  intros Hc Hnz Hb Hbnz.
  split; [by apply InputMsgProps.input_codec|]. split; [by apply HeldMsgProps.held_codec|].
  split; [by apply TicketMsgProps.ticket_codec|]. split; [by apply TicketMsgProps.authority_ticket_codec|].
  split; [by apply TicketMsgProps.readiness_codec|]. by apply ResultMsgProps.result_codec.
Qed.

(** A key press on channel 9. *)
Definition demo_press : InputRequest :=
  mkRequest (Credentials.mkCredentials 5 6 7 (mkView 1 1 1 0)) 3 (EvKey 4 Press).
Definition demo_result_binding : ResultMsg.ResultBinding := ResultMsg.mk_binding 9 5 6.

Lemma input_messages_are_exact_witness :
  InputMsg.decode_input (frame_of Key 9 (InputMsgProps.request_body demo_press) []) Limits.ABSOLUTE 9 ViewerToHost Reliable
  = Ok demo_press.
Proof.
  destruct (input_messages_are_exact Limits.ABSOLUTE 9 demo_result_binding ViewerToHost Reliable) as [H _];
    [by vm_compute|done|by vm_compute|done|].
  apply (codec_reads _ _ _ _ _ _ _ _ H demo_press).
  - repeat split; vm_compute; done.
  - split; vm_compute; reflexivity.
  - vm_compute. discriminate.
Defined.

(** The session control messages are exact.  A challenge or its response, the
    report that a lease was revoked, a request to close the session, the final
    report of a session and a clock probe or reply are accepted only on their
    channel, for their session (and, once a lease is known, for that lease), in
    their direction and on the reliable stream; each accepted message has one
    frame and one meaning, and neither end produces a frame the other refuses. *)
Theorem session_messages_are_exact limits b cb expected direction delivery :
  channel_typed b -> AuthorityMsg.b_channel b <> 0 -> ClockMsgProps.control_typed cb -> cb_id cb <> 0 ->
  match expected with Some l => l <> 0 | None => True end ->
  exact_codec AuthorityMsgProps.message_typed (AuthorityMsgProps.message_valid b direction delivery) AuthorityMsg.kind
    (AuthorityMsgProps.message_bytes b) (control_bytes limits) (AuthorityMsg.b_channel b)
    (fun m out => AuthorityMsg.encode m b limits out direction delivery)
    (fun bs => AuthorityMsg.decode bs b limits direction delivery)
  /\ exact_codec (fun v => RevokedMsgProps.revoked_typed v /\ RevokedMsgProps.of_lease expected v)
       (routed (RevokedMsg.session_route b direction delivery)) (fun _ => LeaseRevoked)
       (RevokedMsgProps.revoked_bytes b) (control_bytes limits) (AuthorityMsg.b_channel b)
       (fun v out => RevokedMsg.encode v b limits out direction delivery)
       (fun bs => match expected with
                  | Some l => RevokedMsg.decode bs b l limits direction delivery
                  | None => RevokedMsg.decode_before_grant bs b limits direction delivery
                  end)
  /\ exact_codec (fun _ => True) (routed (ClosureMsg.route b direction delivery)) (fun _ => CloseRequest)
       (ClosureMsgProps.request_bytes b) (control_bytes limits) (AuthorityMsg.b_channel b)
       (fun r out => ClosureMsg.encode_request r b limits out direction delivery)
       (fun bs => ClosureMsg.decode_request bs b limits direction delivery)
  /\ exact_codec ClosureMsgProps.report_typed (routed (ClosureMsg.closed_route b direction delivery))
       (fun _ => WireRecord.Closed) (ClosureMsgProps.report_bytes b) (control_bytes limits) (AuthorityMsg.b_channel b)
       (fun c out => ClosureMsg.encode_closed c b limits out direction delivery)
       (fun bs => ClosureMsg.decode_closed bs b limits direction delivery)
  /\ exact_codec ClockMsgProps.message_typed (ClockMsgProps.message_valid cb direction delivery) ClockMsg.kind
       (ClockMsgProps.message_bytes cb) (control_bytes limits) (cb_id cb)
       (fun m out => ClockMsg.encode m cb limits out direction delivery)
       (fun bs => ClockMsg.decode bs cb limits direction delivery).
Proof.
  intros Hb Hnz Hcb Hcnz Hexp.
  split; [by apply AuthorityMsgProps.authority_codec|]. split; [by apply RevokedMsgProps.revoked_codec|].
  split; [by apply ClosureMsgProps.request_codec|]. split; [by apply ClosureMsgProps.report_codec|].
  by apply ClockMsgProps.clock_codec.
Qed.

Lemma session_messages_are_exact_witness :
  let b := AuthorityMsg.mk_binding 9 5 in
  let m := AuthorityMsg.ChallengeMessage (AuthorityMsg.ControlScope 6) 77 1000 in
  AuthorityMsg.decode (frame_of Challenge 9 (AuthorityMsgProps.message_bytes b m) []) b Limits.ABSOLUTE HostToViewer Reliable
  = Ok m.
Proof.
  intros b m.
  destruct (session_messages_are_exact Limits.ABSOLUTE b (mk_control 8 1 2 5) (Some 6) HostToViewer Reliable) as [H _];
    [by vm_compute|done|by vm_compute|done|done|].
  apply (codec_reads _ _ _ _ _ _ _ _ H m).
  - repeat split; vm_compute; done.
  - repeat split; vm_compute; reflexivity.
  - vm_compute. discriminate.
Defined.

End WireClaims.

(** * Messages about views and grants: the theorems

    What the codecs of [WireView] and [WireGrant] guarantee together, with concrete
    messages. *)

Module ViewClaims.
Import ViewBinding ViewProps.

(** The messages about a view are exact.  A recovery request, a presentation
    report, a decoder load query or reply, a quality decision and a decoder
    configuration or acknowledgement are accepted only for the installed view (all
    nine fields of its binding), in their direction and on the reliable stream;
    each accepted message has one frame and one meaning, and neither end produces
    a frame the other refuses. *)
Theorem view_messages_are_exact limits b direction delivery : view_typed b -> cb_id (parent b) <> 0 ->
  exact_codec RecoveryMsgProps.request_typed (routed (_ ← validate b; RecoveryMsg.role direction delivery))
    (fun _ => RecoveryRequest) (RecoveryMsgProps.body b) (control_bytes limits) (cb_id (parent b))
    (fun q out => RecoveryMsg.encode q b limits out direction delivery)
    (fun bs => RecoveryMsg.decode bs b limits direction delivery)
  /\ exact_codec PresentedMsgProps.report_typed
       (fun r => (_ ← validate b; PresentedMsg.role direction delivery) = Ok tt /\ PresentedMsgProps.report_valid r)
       (fun _ => PresentedState) (PresentedMsgProps.body b) (control_bytes limits) (cb_id (parent b))
       (fun r out => PresentedMsg.encode r b limits out direction delivery)
       (fun bs => PresentedMsg.decode bs b limits direction delivery)
  /\ exact_codec MetricsMsgProps.message_typed
       (fun m => validate b = Ok tt /\ MetricsMsg.validate_message limits direction delivery m = Ok tt)
       (fun _ => StageMetrics) (MetricsMsgProps.body b) (control_bytes limits) (cb_id (parent b))
       (fun m out => MetricsMsg.encode m b limits out direction delivery)
       (fun bs => MetricsMsg.decode bs b limits direction delivery)
  /\ exact_codec QualityMsgProps.decision_typed
       (fun d => (_ ← validate b; QualityMsg.role direction delivery) = Ok tt /\ QualityMsgProps.decision_valid d)
       (fun _ => QualityDecision) (QualityMsgProps.body b) (control_bytes limits) (cb_id (parent b))
       (fun d out => QualityMsg.encode d b limits out direction delivery)
       (fun bs => QualityMsg.decode bs b limits direction delivery)
  /\ exact_codec DecoderMsgProps.message_typed
       (fun m => validate b = Ok tt /\ DecoderMsgProps.inner limits m /\ DecoderMsg.role (DecoderMsg.kind m) direction delivery = Ok tt)
       DecoderMsg.kind (DecoderMsgProps.body b) (control_bytes limits) (cb_id (parent b))
       (fun m out => DecoderMsg.encode m b limits out direction delivery)
       (fun bs => DecoderMsg.decode bs b limits direction delivery).
Proof.
  intros Hb Hnz. split; [by apply RecoveryMsgProps.recovery_request_codec|].
  split; [by apply PresentedMsgProps.presented_codec|]. split; [by apply MetricsMsgProps.metrics_codec|].
  split; [by apply QualityMsgProps.quality_codec|].
  eapply exact_codec_iff; [|by apply DecoderMsgProps.decoder_codec]. naive_solver.
Qed.

(** Control is granted in the terms it was asked for.  A request for control and
    the grant that answers it are exact on the channel of their session: each end
    reads back the target, the operations and the lifetimes the other wrote, or
    refuses; refusals are exact before and after a session is bound; and the first
    ticket of an accepted grant is a valid ticket of the channel it names. *)
Theorem grant_messages_are_exact limits expected binding limit direction delivery :
  fits u32_max (cb_id expected) -> cb_id expected <> 0 -> fits u32_max binding ->
  exact_codec (fun rq => GrantMsgProps.request_typed (cb_id expected) rq /\ GrantMsg.rq_parent rq = expected)
    (GrantMsgProps.request_valid limits expected direction delivery) (fun _ => ControlRequest)
    GrantMsgProps.request_bytes (control_bytes limits) (cb_id expected)
    (fun rq out => GrantMsg.encode_request rq out limits direction delivery)
    (fun bs => GrantMsg.decode_request bs expected limits direction delivery)
  /\ exact_codec (fun g => GrantMsgProps.granted_typed (cb_id expected) g /\ GrantMsg.rq_parent (GrantMsg.request g) = expected)
       (GrantMsgProps.granted_valid limits expected direction delivery) (fun _ => LeaseGranted)
       GrantMsgProps.granted_bytes (control_bytes limits) (cb_id expected)
       (fun g out => GrantMsg.encode_granted g out limits direction delivery)
       (fun bs => GrantMsg.decode_granted bs expected limits direction delivery)
  /\ exact_codec RefusalMsgProps.refused_typed
       (fun m => RefusalMsgProps.reliable delivery = Ok tt /\ RefusalMsg.validate m binding = Ok tt)
       (fun _ => WireRecord.Refused) RefusalMsgProps.refused_bytes (RefusalMsgProps.record_limit limit) binding
       (fun m out => RefusalMsg.encode m binding limit out delivery)
       (fun bs => RefusalMsg.decode bs binding limit delivery)
  /\ forall bs g, GrantMsg.decode_granted bs expected limits direction delivery = Ok g ->
       TicketMsg.valid (GrantMsg.initial_ticket g) (GrantMsg.input_channel g) = Ok tt.
Proof.
  intros Hid Hnz Hb. split; [by apply GrantMsgProps.grant_request_codec|]. split; [by apply GrantMsgProps.granted_codec|].
  split; [by apply RefusalMsgProps.refusal_codec|]. intros bs g Hd. apply (GrantMsgProps.initial_ticket_valid g limits).
  unfold GrantMsg.decode_granted in Hd. apply Result_bind_Ok in Hd as (? & _ & Hd).
  apply Result_bind_Ok in Hd as (? & _ & Hd). apply Result_bind_Ok in Hd as (g' & _ & Hd).
  apply Result_bind_Ok in Hd as ([] & Hv & Hd). destruct (negb _); [done|]. by injection Hd as <-.
Qed.

(** ** Witnesses *)

Definition demo_parent : ControlBinding := mk_control 8 1 2 5.
Definition demo_view : Binding := mk_view demo_parent 4 1 2 3 6.
Definition demo_report : PresentedMsg.Report :=
  PresentedMsg.mk_report 7 (Some (PresentedMsg.mk_sample (PresentedMsg.mk_stamp 12 1000 1000 Media.Captured) 30000)).

Lemma view_messages_are_exact_witness :
  PresentedMsg.decode (frame_of PresentedState 8 (PresentedMsgProps.body demo_view demo_report) []) demo_view
    Limits.ABSOLUTE ViewerToHost Reliable = Ok demo_report.
Proof.
  destruct (view_messages_are_exact Limits.ABSOLUTE demo_view ViewerToHost Reliable) as (_ & H & _);
    [split; [by vm_compute|repeat constructor; by vm_compute]|done|].
  apply (codec_reads _ _ _ _ _ _ _ _ H demo_report).
  - repeat split; vm_compute; done.
  - split; vm_compute; reflexivity.
  - vm_compute. discriminate.
Defined.

(** Keys and absolute pointing on a 1920x1080 view. *)
Definition demo_target : GrantMsg.Target :=
  GrantMsg.mk_target 3 (mkView 1 1 1 0) (Bounds.mkBounds (mkPoint 0 0) 1920 1080) 5.
Definition demo_grant : GrantMsg.Granted :=
  GrantMsg.mk_granted (GrantMsg.mk_control_request demo_parent 1 demo_target) 9 11 12 1000 2000000 900000 0 0.

Lemma demo_grant_typed : GrantMsgProps.granted_typed 8 demo_grant.
Proof.
  unfold GrantMsgProps.granted_typed, GrantMsgProps.request_typed, GrantMsgProps.bounds_typed,
    GrantMsgProps.parent_typed, GrantMsgProps.view_fields, point_typed, signed, fits.
  repeat match goal with |- _ /\ _ => split | |- Forall _ (_ :: _) => apply Forall_cons | |- Forall _ _ => constructor end;
    vm_compute; first [discriminate | reflexivity].
Qed.

Lemma grant_messages_are_exact_witness :
  let bs := frame_of LeaseGranted 8 (GrantMsgProps.granted_bytes demo_grant) [] in
  GrantMsg.decode_granted bs demo_parent Limits.ABSOLUTE HostToViewer Reliable = Ok demo_grant
  /\ TicketMsg.valid (GrantMsg.initial_ticket demo_grant) 9 = Ok tt.
Proof.
  intros bs. destruct (grant_messages_are_exact Limits.ABSOLUTE demo_parent 8 4096 HostToViewer Reliable) as (_ & H & _ & Ht);
    [by vm_compute|done|by vm_compute|].
  assert (GrantMsg.decode_granted bs demo_parent Limits.ABSOLUTE HostToViewer Reliable = Ok demo_grant) as Hd.
  { apply (codec_reads _ _ _ _ _ _ _ _ H demo_grant).
    - split; [exact demo_grant_typed|reflexivity].
    - split; vm_compute; reflexivity.
    - vm_compute. discriminate. }
  split; [exact Hd|]. exact (Ht bs demo_grant Hd).
Defined.

End ViewClaims.
