(* ===== verification/Delivery.v ===== *)
(** * Media delivery: bindings, epochs and the compressed-byte budget

    [fr-media/src/delivery/mod.rs] and [budget.rs].  A ledger of bytes and pictures
    is shared by everything that holds compressed pictures; a reservation follows
    its bytes and gives them back when they are dropped.  The size of the two
    structures every picture is charged with depends on the platform: it is a
    parameter, the class [Layout].  An allocator may return more than it was asked
    for, or fail: it is an argument of the methods that allocate. *)

From S2P Require Import Prelude.
From S2P Require Import Bytes.
From S2P Require Import Limits.
From S2P Require Import WireRecord.

Module Delivery.

Inductive DeliveryError :=
| DWire (e : WireError)
| InvalidPolicy
| WrongState
| DResourceLimit
| ReferenceCapacityExceeded
| AllocationFailed
| ConflictingPicture
| NoncontiguousRecovery
| ReferenceExpired
| RecoveryExpired
| ClockRegression
| ClockOverflow
| StaleGeneration
| DecodeFailed
| DecodeMismatch.
#[export] Instance DeliveryError_eq_dec : EqDecision DeliveryError.
Proof. solve_decision. Defined.

(** [DeliveryError::from] through [?]. *)
Definition from_wire {A} (r : Result WireError A) : Result DeliveryError A := map_err DWire r.

(** ** Bindings and epochs *)

Record MediaBindings := mk_bindings { video : Z; recovery : Z; progress : Z; repair : Z }.
#[export] Instance MediaBindings_eq_dec : EqDecision MediaBindings.
Proof. solve_decision. Defined.

(** The loop of [MediaBindings::new]: each value against zero and those before it. *)
Fixpoint distinct_nonzero (seen values : list Z) : bool :=
  match values with
  | [] => true
  | v :: values => negb (v =? 0) && negb (existsb (Z.eqb v) seen) && distinct_nonzero (seen ++ [v]) values
  end.

Definition new_bindings (video recovery progress repair : Z) : Result DeliveryError MediaBindings :=
  if distinct_nonzero [] [video; recovery; progress; repair]
  then Ok (mk_bindings video recovery progress repair) else Err StaleGeneration.

Definition negotiated (video recovery : Z) : Result DeliveryError MediaBindings :=
  if (video =? 0) || (recovery =? 0) || (video =? recovery) then Err StaleGeneration
  else Ok (mk_bindings video recovery video video).

Definition for_channel (b : MediaBindings) (ch : Channel) : Z :=
  match ch with
  | Video => video b
  | RecoveryChannel => recovery b
  | MediaConfig => progress b
  | Control => repair b
  end.

Definition all_newer_than (b old : MediaBindings) : bool :=
  let highest := Z.max (Z.max (Z.max (video old) (recovery old)) (progress old)) (repair old) in
  forallb (fun v => highest <? v) [video b; recovery b; progress b; repair b].

Record MediaEpoch := mk_epoch { e_configuration : Z; e_recovery : Z }.
#[export] Instance MediaEpoch_eq_dec : EqDecision MediaEpoch.
Proof. solve_decision. Defined.

Definition replaces (e old : MediaEpoch) : bool :=
  (e_configuration old <? e_configuration e)
  || ((e_configuration e =? e_configuration old) && (e_recovery old <? e_recovery e)).

Definition deadline (now duration : Z) : Result DeliveryError Z :=
  ok_or (checked_add u64_max now duration) ClockOverflow.

(** ** The budget *)

(** [size_of::<Assembly>() + size_of::<ReceivedPicture>()]. *)
Class Layout := { struct_bytes : Z; struct_bytes_nonneg : 0 <= struct_bytes }.

(** [Vec::try_reserve_exact] on an empty vector, by element size and count. *)
Record Allocator := mk_allocator {
  reserve_exact : Z -> Z -> option Z;
  reserve_enough size n cap : reserve_exact size n = Some cap -> n <= cap
}.

Record Ledger := mk_ledger { used_bytes : Z; used_pictures : Z; max_bytes : Z; max_pictures : Z }.
#[export] Instance eta_ledger : Eta Ledger := fun l =>
  mk_ledger (used_bytes l) (used_pictures l) (max_bytes l) (max_pictures l).

(** [u64] and [u8] both fit [usize]. *)
Definition new_budget (limits : Limits.ProtocolLimits) : Ledger :=
  mk_ledger 0 0 (Limits.per_viewer_compressed_bytes limits) (Limits.reassembly_window_pictures limits).

Definition budget_fits (l : Ledger) (limits : Limits.ProtocolLimits) : bool :=
  (max_bytes l <=? Limits.per_viewer_compressed_bytes limits)
  && (max_pictures l <=? Limits.reassembly_window_pictures limits).

Definition check_allocation (l : Ledger) (length metadata : Z) : Result DeliveryError unit :=
  bytes ← ok_or (checked_add usize_max length metadata) DResourceLimit;
  if max_bytes l <? bytes then Err DResourceLimit else Ok tt.

Definition has_headroom (l : Ledger) (bytes pictures : Z) : bool :=
  is_some_and (fun total => total <=? max_bytes l) (checked_add usize_max (used_bytes l) bytes)
  && is_some_and (fun total => total <=? max_pictures l) (checked_add usize_max (used_pictures l) pictures).

(** A reservation is the number of bytes it holds. *)
Definition reserve (bytes : Z) : M Ledger DeliveryError Z :=
  _ ← refuse_if (fun l => max_bytes l <? bytes) (fun _ => DResourceLimit);
  next ← readr (fun l => ok_or (checked_add usize_max (used_bytes l) bytes) DResourceLimit);
  _ ← refuse_if (fun l => (max_bytes l <? next) || (max_pictures l <=? used_pictures l))
                (fun _ => ReferenceCapacityExceeded);
  _ ← modify (fun l => l <| used_bytes := next |> <| used_pictures := used_pictures l + 1 |>);
  mret bytes.

Definition grow (own extra : Z) : M Ledger DeliveryError Z :=
  own' ← lift (ok_or (checked_add usize_max own extra) DResourceLimit);
  _ ← refuse_if (fun l => max_bytes l <? own') (fun _ => DResourceLimit);
  next ← readr (fun l => ok_or (checked_add usize_max (used_bytes l) extra) DResourceLimit);
  _ ← refuse_if (fun l => max_bytes l <? next) (fun _ => ReferenceCapacityExceeded);
  _ ← modify (fun l => l <| used_bytes := next |>);
  mret own'.

(** [Reservation::drop]. *)
Definition release (own : Z) (l : Ledger) : Ledger :=
  l <| used_bytes := used_bytes l - own |> <| used_pictures := used_pictures l - 1 |>.

(** A method that owns a reservation of [own] bytes and drops it on its error
    paths. *)
Definition releasing {A} (own : Z) (m : M Ledger DeliveryError A) : M Ledger DeliveryError A :=
  fun l => match m l with
           | (Err e, l) => (Err e, release own l)
           | ok => ok
           end.

(** [MediaBudget::allocate]: the zeroed bytes and their reservation. *)
Definition allocate (al : Allocator) (length metadata : Z) : M Ledger DeliveryError (bytes * Z) :=
  total ← lift (ok_or (checked_add usize_max length metadata) DResourceLimit);
  own ← reserve total;
  releasing own
    (capacity ← lift (ok_or (reserve_exact al 1 length) AllocationFailed);
     own ← grow own (capacity - length);
     mret (zeros (Z.to_nat length), own)).

End Delivery.
