(* ===== verification/Assembly.v ===== *)
(** * Reassembly of one picture

    [Assembly] of [fr-media/src/delivery/receive.rs] with the receiver's policy: the
    bytes of one picture, which fragments of it have arrived, when it stops being
    useful and when to ask for what is missing. *)

From S2P Require Import Prelude.
From S2P Require Import Bytes.
From S2P Require Import Limits.
From S2P Require Import WireRecord.
From S2P Require Import WireMedia.
From S2P Require Import Delivery.

Module Assembly.
Import Media Delivery.

Record ReceivePolicy := mk_policy {
  display_budget_micros : Z;
  reference_budget_micros : Z;
  recovery_budget_micros : Z;
  repair_delay_micros : Z;
  repair_interval_micros : Z;
  max_repair_attempts : Z
}.
#[export] Instance ReceivePolicy_eq_dec : EqDecision ReceivePolicy.
Proof. solve_decision. Defined.

Definition default_policy : ReceivePolicy := mk_policy 50000 250000 2000000 20000 60000 3.

Definition validate_policy (p : ReceivePolicy) : Result DeliveryError unit :=
  if (display_budget_micros p =? 0)
     || (reference_budget_micros p <? display_budget_micros p)
     || (250000 <? reference_budget_micros p)
     || (recovery_budget_micros p =? 0)
     || (5000000 <? recovery_budget_micros p)
     || (repair_delay_micros p =? 0)
     || (reference_budget_micros p <=? repair_delay_micros p)
     || (repair_interval_micros p =? 0)
     || (reference_budget_micros p <? repair_interval_micros p)
     || negb ((1 <=? max_repair_attempts p) && (max_repair_attempts p <=? 8))
  then Err InvalidPolicy else Ok tt.

Record ReceiveConfig := mk_config {
  limits : MediaLimits;
  bindings : MediaBindings;
  epoch : MediaEpoch;
  policy : ReceivePolicy
}.
#[export] Instance eta_config : Eta ReceiveConfig := fun c =>
  mk_config (limits c) (bindings c) (epoch c) (policy c).

Inductive ReceiveUpdate := Accepted | Duplicate | Obsolete | Deferred | PictureComplete.
#[export] Instance ReceiveUpdate_eq_dec : EqDecision ReceiveUpdate.
Proof. solve_decision. Defined.
#[export] Instance FrameDescriptor_eq_dec : EqDecision FrameDescriptor.
Proof. solve_decision. Defined.

(** [charged] is what the reservation of [bytes] holds; [seen] are the [u64] words
    of the bitset. *)
Record Assembly := mk_assembly {
  descriptor : FrameDescriptor;
  abytes : bytes;
  charged : Z;
  seen : list Z;
  received : Z;
  reliable_offset : option Z;
  reliable_chunks : Z;
  display_until : Z;
  reference_until : Z;
  next_repair : Z;
  received_end : Z;
  tail_probe_after : Z;
  prefix_probe_after : option Z;
  repair_attempts : Z
}.
#[export] Instance eta_assembly : Eta Assembly := fun a =>
  mk_assembly (descriptor a) (abytes a) (charged a) (seen a) (received a) (reliable_offset a)
    (reliable_chunks a) (display_until a) (reference_until a) (next_repair a) (received_end a)
    (tail_probe_after a) (prefix_probe_after a) (repair_attempts a).

(** ** Construction *)

(** Length, bitset words and metadata; [u32] fits [usize]. *)
Definition storage `{Layout} (d : FrameDescriptor) (reliable : bool) : Result DeliveryError (Z * Z * Z) :=
  count ← from_wire (fragment_count d);
  let words := if reliable then 0 else div_ceil count 64 in
  metadata ← ok_or (n ← checked_mul usize_max words 8; checked_add usize_max n struct_bytes) DResourceLimit;
  Ok (total_bytes d, words, metadata).

Definition new `{Layout} (al : Allocator) (d : FrameDescriptor) (c : ReceiveConfig) (now : Z)
  (reliable_until : option Z) : M Ledger DeliveryError Assembly :=
  _ ← lift (from_wire (validate d (limits c)));
  s ← lift (storage d (is_some reliable_until));
  let '(length, words, metadata) := s in
  buffer ← allocate al length metadata;
  own ← releasing (snd buffer)
    (capacity ← lift (ok_or (reserve_exact al 8 words) AllocationFailed);
     extra ← lift (ok_or (checked_mul usize_max (capacity - words) 8) DResourceLimit);
     grow (snd buffer) extra);
  releasing own
    (display ← lift (deadline now (display_budget_micros (policy c)));
     reference ← lift (match reliable_until with
                       | Some until => Ok until
                       | None => deadline now (reference_budget_micros (policy c))
                       end);
     probe ← lift (deadline now (repair_delay_micros (policy c)));
     mret (mk_assembly d (fst buffer) own (zeros (Z.to_nat words)) 0
             (if reliable_until then Some 0 else None) 0 display reference probe 0 probe None 0)).

(** ** Arrivals *)

Definition complete (a : Assembly) : bool := received a =? total_bytes (descriptor a).

Definition has_fragment (a : Assembly) (i : Z) : bool :=
  negb (Z.land (default 0 (seen a !! Z.to_nat (i / 64))) (Z.shiftl 1 (i mod 64)) =? 0).

(** [self.seen[index / 64] |= 1 << (index % 64)]. *)
Definition mark (i : Z) (words : list Z) : list Z :=
  alter (fun w => Z.lor w (Z.shiftl 1 (i mod 64))) (Z.to_nat (i / 64)) words.

Definition has_prefix_hole (a : Assembly) : bool :=
  received a <? Z.min (received_end a * stride (descriptor a)) (total_bytes (descriptor a)).

(** The grace a newly exposed gap gets, or its end. *)
Definition note_gap (now : Z) (a : Assembly) : Assembly :=
  if has_prefix_hole a then
    let probe := if (repair_attempts a =? 0) && (now <? next_repair a) then next_repair a
                 else tail_probe_after a in
    a <| prefix_probe_after := Some (default probe (prefix_probe_after a)) |>
  else a <| prefix_probe_after := None |>.

Definition update_of (a : Assembly) : ReceiveUpdate := if complete a then PictureComplete else Accepted.

Definition fragment (f : Fragment) (now repair_delay : Z) : M Assembly DeliveryError ReceiveUpdate :=
  _ ← refuse_if (fun a => is_some (reliable_offset a)
                          || negb (bool_decide (Media.descriptor f = descriptor a)))
                (fun _ => ConflictingPicture);
  range ← readr (fun a => from_wire (fragment_range (descriptor a) (index f)));
  let '(start, end_) := range in
  known ← gets (fun a => has_fragment a (index f));
  if (known : bool) then
    readr (fun a => if bool_decide (slice (Z.to_nat start) (Z.to_nat end_) (abytes a) = fbytes f)
                    then Ok Duplicate else Err ConflictingPicture)
  else
    _ ← modify (fun a => a <| abytes := put (Z.to_nat start) (fbytes f) (abytes a) |>
                           <| seen := mark (index f) (seen a) |>);
    n ← lift (if Z.of_nat (length (fbytes f)) <=? u32_max then Ok (Z.of_nat (length (fbytes f)))
              else Err DResourceLimit);
    _ ← modify (fun a => a <| received := received a + n |>
                           <| received_end := Z.max (received_end a) (index f + 1) |>);
    _ ← modify (fun a => a <| tail_probe_after :=
                                Z.min (saturating_add u64_max now repair_delay) (reference_until a) |>);
    _ ← modify (note_gap now);
    gets update_of.

Definition recovery (c : RecoveryChunk) (max_chunks : Z) : M Assembly DeliveryError ReceiveUpdate :=
  _ ← refuse_if (fun a => negb (bool_decide (reliable_offset a = Some (c_offset c)))
                          || negb (frame (descriptor a) =? c_frame c)
                          || negb (total_bytes (descriptor a) =? c_total_bytes c)
                          || negb (capture_micros (descriptor a) =? c_capture_micros c)
                          || (max_chunks <=? reliable_chunks a))
                (fun _ => NoncontiguousRecovery);
  end_ ← lift (ok_or (checked_add usize_max (c_offset c) (Z.of_nat (length (c_bytes c)))) DResourceLimit);
  _ ← refuse_if (fun a => Z.of_nat (length (abytes a)) <? end_) (fun _ => NoncontiguousRecovery);
  _ ← modify (fun a => a <| abytes := put (Z.to_nat (c_offset c)) (c_bytes c) (abytes a) |>);
  n ← lift (if end_ <=? u32_max then Ok end_ else Err DResourceLimit);
  _ ← modify (fun a => a <| received := n |> <| reliable_offset := Some n |>
                         <| reliable_chunks := reliable_chunks a + 1 |>);
  gets update_of.

(** ** Repairs *)

Definition repair_due (a : Assembly) : Z :=
  Z.max (next_repair a) (default (tail_probe_after a) (prefix_probe_after a)).

(** The received gaps between consecutive ranges, and the one before the next hole. *)
Fixpoint gaps (ranges : list RepairRange) (next : Z) : list Z :=
  match ranges with
  | [] => []
  | r :: ranges =>
      (match ranges with [] => next | r' :: _ => r_start r' end - r_end r) :: gaps ranges next
  end.

(** The search for the smallest gap: the last one is the first candidate, an
    earlier one replaces it when it is strictly smaller. *)
Fixpoint smallest (i merge : nat) (gap : Z) (l : list Z) : nat :=
  match l with
  | [] => merge
  | candidate :: l => if candidate <? gap then smallest (S i) i candidate l else smallest (S i) merge gap l
  end.

(** One more hole in the bounded request: append it while there is room, else
    merge across the smallest gap. *)
Definition add_range (capacity : nat) (ranges : list RepairRange) (missing : RepairRange) : list RepairRange :=
  let count := length ranges in
  if (count <? capacity)%nat then ranges ++ [missing]
  else
    let gs := gaps ranges (r_start missing) in
    let merge := smallest 0 (count - 1) (default 0 (last gs)) (removelast gs) in
    if (merge =? count - 1)%nat
    then alter (fun r => mk_range (r_start r) (r_end missing)) merge ranges
    else match ranges !! S merge with
         | Some next =>
             (* [ranges[merge].end = ranges[merge + 1].end], the rest moved down by one *)
             alter (fun r => mk_range (r_start r) (r_end next)) merge (take (S merge) ranges)
             ++ drop (S (S merge)) ranges ++ [missing]
         | None => ranges
         end.

(** The inner loop: the end of a run of missing fragments. *)
Fixpoint run_end (fuel : nat) (a : Assembly) (total index : Z) : Z :=
  match fuel with
  | O => index
  | S fuel => if (index <? total) && negb (has_fragment a index) then run_end fuel a total (index + 1) else index
  end.

(** The outer loop.  Every round moves [index] forward, so [total] rounds are
    enough. *)
Fixpoint missing_loop (fuel : nat) (a : Assembly) (capacity : nat) (total index : Z)
  (ranges : list RepairRange) : list RepairRange :=
  match fuel with
  | O => ranges
  | S fuel =>
      if index <? total then
        if has_fragment a index then missing_loop fuel a capacity total (index + 1) ranges
        else
          let end_ := run_end (Z.to_nat total) a total index in
          missing_loop fuel a capacity total end_ (add_range capacity ranges (mk_range index end_))
      else ranges
  end.

Definition missing (a : Assembly) (capacity : nat) (now : Z) : Result DeliveryError (list RepairRange) :=
  total ← (if now <? tail_probe_after a then Ok (received_end a)
           else from_wire (fragment_count (descriptor a)));
  if (capacity =? 0)%nat then Err DResourceLimit
  else Ok (missing_loop (Z.to_nat total) a capacity total 0 []).

End Assembly.
