(* ===== verification/AssemblyClaims.v ===== *)
(** The reassembly of one picture: its invariant, and the theorem on orders of arrival. *)

From S2P Require Import Prelude.
From S2P Require Import Limits.
From S2P Require Import Bytes.
From S2P Require Import WireRecord.
From S2P Require Import WireRecordProps.
From S2P Require Import WireMedia.
From S2P Require Import WireMediaProps.
From S2P Require Import Delivery.
From S2P Require Import Assembly.

(** * What reassembly guarantees

    The bitset of an assembly, the bytes it has collected and what a complete one
    holds; repair requests name every missing fragment within their bound. *)

Module AssemblyProps.
Import Media MediaProps Delivery Assembly.

(** ** Slices of a buffer *)

Lemma put_length off src l : (off + length src <= length l)%nat -> length (put off src l) = length l.
Proof. intros H. unfold put. rewrite !length_app, length_take, length_drop. lia. Qed.

Lemma slice_lookup a b l i : (a + i < b)%nat -> slice a b l !! i = l !! (a + i)%nat.
Proof. intros H. unfold slice. rewrite lookup_take_lt by lia. apply lookup_drop. Qed.

Lemma put_lookup off src l i : (off + length src <= length l)%nat ->
  put off src l !! i = if decide (off <= i < off + length src)%nat then src !! (i - off)%nat else l !! i.
Proof.
  intros H. unfold put. case_decide as Hi.
  - rewrite lookup_app_r by (rewrite length_take; lia). rewrite length_take, Nat.min_l by lia.
    by rewrite lookup_app_l by lia.
  - destruct (decide (i < off)%nat).
    + rewrite lookup_app_l by (rewrite length_take; lia). by apply lookup_take_lt.
    + rewrite lookup_app_r by (rewrite length_take; lia). rewrite length_take, Nat.min_l by lia.
      rewrite lookup_app_r by lia. rewrite lookup_drop. f_equal. lia.
Qed.

Lemma slice_put_same off src l : (off + length src <= length l)%nat ->
  slice off (off + length src) (put off src l) = src.
Proof.
  intros H. apply list_eq. intros i. destruct (decide (i < length src)%nat).
  - rewrite slice_lookup by lia. rewrite put_lookup by done. rewrite decide_True by lia. f_equal. lia.
  - rewrite !lookup_ge_None_2; [done|lia|]. unfold slice. rewrite length_take. lia.
Qed.

Lemma slice_put_other off src l a b : (off + length src <= length l)%nat ->
  (b <= off \/ off + length src <= a)%nat -> slice a b (put off src l) = slice a b l.
Proof.
  intros H Hd. apply list_eq. intros i. destruct (decide (a + i < b)%nat).
  - rewrite !slice_lookup by done. rewrite put_lookup by done. by rewrite decide_False by lia.
  - rewrite !lookup_ge_None_2; [done|..]; unfold slice; rewrite length_take; lia.
Qed.

Lemma take_put off src l : (off <= length l)%nat -> take off (put off src l) = take off l.
Proof. intros H. unfold put. rewrite take_app_le by (rewrite length_take; lia). rewrite take_take. f_equal. lia. Qed.

(** ** The bitset *)

Lemma land_bit w k : 0 <= k -> negb (Z.land w (Z.shiftl 1 k) =? 0) = Z.testbit w k.
Proof.
  intros Hk. rewrite Z.shiftl_1_l. destruct (Z.testbit w k) eqn:E.
  - apply negb_true_iff, Z.eqb_neq. intros H0.
    assert (Z.testbit (Z.land w (2 ^ k)) k = false) as Hf by (rewrite H0; apply Z.bits_0).
    rewrite Z.land_spec, E, Z.pow2_bits_true in Hf by done. done.
  - apply negb_false_iff, Z.eqb_eq, Z.bits_inj'. intros n Hn. rewrite Z.land_spec, Z.bits_0.
    destruct (Z.eq_dec n k) as [->|]; [by rewrite E|]. by rewrite Z.pow2_bits_false, andb_false_r by lia.
Qed.

Definition bit (words : list Z) (i : Z) : bool := Z.testbit (default 0 (words !! Z.to_nat (i / 64))) (i mod 64).

Lemma has_fragment_bit a i : has_fragment a i = bit (seen a) i.
Proof. unfold has_fragment. apply land_bit. apply Z.mod_pos_bound. lia. Qed.

Lemma bit_mark words i j : 0 <= i -> 0 <= j -> (Z.to_nat (i / 64) < length words)%nat ->
  bit (mark i words) j = (j =? i) || bit words j.
Proof.
  intros Hi Hj Hl. unfold bit, mark. pose proof (Z.div_pos i 64 Hi). pose proof (Z.div_pos j 64 Hj).
  pose proof (Z.div_mod i 64). pose proof (Z.div_mod j 64).
  destruct (decide (i / 64 = j / 64)) as [E|E].
  - rewrite <- E. rewrite list_lookup_alter_eq. apply lookup_lt_is_Some in Hl as [w ->]. cbn -[Z.testbit Z.lor Z.shiftl Z.div Z.modulo].
    rewrite Z.lor_spec, Z.shiftl_1_l. destruct (Z.eqb_spec j i) as [->|Hne].
    + rewrite Z.pow2_bits_true by (apply Z.mod_pos_bound; lia). apply orb_true_r.
    + rewrite Z.pow2_bits_false by lia. by rewrite orb_false_r.
  - rewrite list_lookup_alter_ne by lia. by destruct (Z.eqb_spec j i) as [->|].
Qed.

Lemma bit_zeros n i : bit (zeros n) i = false.
Proof.
  unfold bit, zeros. destruct (replicate n 0 !! Z.to_nat (i / 64)) as [w|] eqn:E; cbn; [|apply Z.testbit_0_l].
  apply lookup_replicate in E as [-> _]. apply Z.testbit_0_l.
Qed.

(** ** Counting received bytes *)

(** The length of fragment [i]. *)
Definition frag_len (d : FrameDescriptor) (i : Z) : Z :=
  Z.min ((i + 1) * stride d) (total_bytes d) - i * stride d.

(** The bytes of the fragments below [n] that satisfy [p]. *)
Fixpoint sum_len (d : FrameDescriptor) (p : Z -> bool) (n : nat) : Z :=
  match n with
  | O => 0
  | S n => sum_len d p n + if p (Z.of_nat n) then frag_len d (Z.of_nat n) else 0
  end.

Section sums.
Context (d : FrameDescriptor) (l : MediaLimits).
Context (Ht : descriptor_typed d) (Hv : validate d l = Ok tt).

Lemma count_bounds : 0 < stride d /\ 0 < total_bytes d
  /\ stride d * (count_of d - 1) < total_bytes d <= stride d * count_of d.
Proof using All.
  pose proof (descriptor_positive d l Ht Hv) as [Hs Hp]. split_and!; [done|done|by apply div_ceil_bounds..].
Qed.

Lemma start_below i : 0 <= i < count_of d -> i * stride d < total_bytes d.
Proof using All. intros Hi. pose proof count_bounds. nia. Qed.

Lemma frag_len_pos i : 0 <= i < count_of d -> 0 < frag_len d i.
Proof using All.
  intros Hi. pose proof (start_below i Hi). pose proof count_bounds. unfold frag_len.
  rewrite Z.mul_add_distr_r. lia.
Qed.

Lemma sum_len_bound p n : Z.of_nat n <= count_of d -> 0 <= sum_len d p n <= Z.min (Z.of_nat n * stride d) (total_bytes d).
Proof using All.
  pose proof count_bounds as (Hs & Htot & Hc). induction n as [|n IH]; intros Hn; [cbn; lia|].
  specialize (IH ltac:(lia)). cbn [sum_len]. pose proof (frag_len_pos (Z.of_nat n) ltac:(lia)) as Hf.
  pose proof (start_below (Z.of_nat n) ltac:(lia)).
  unfold frag_len in *. rewrite Nat2Z.inj_succ, <- Z.add_1_r in *. destruct (p (Z.of_nat n)); nia.
Qed.

(** All bytes have arrived exactly when all fragments have. *)
Lemma sum_len_full p n : Z.of_nat n <= count_of d ->
  sum_len d p n = Z.min (Z.of_nat n * stride d) (total_bytes d) <-> forall i, 0 <= i < Z.of_nat n -> p i = true.
Proof using All.
  pose proof count_bounds as (Hs & Htot & Hc). induction n as [|n IH]; intros Hn.
  { split; [intros _ i Hi; lia | intros _; cbn; lia]. }
  specialize (IH ltac:(lia)). pose proof (sum_len_bound p n ltac:(lia)) as Hb. cbn [sum_len].
  pose proof (frag_len_pos (Z.of_nat n) ltac:(lia)) as Hf. unfold frag_len in *.
  pose proof (start_below (Z.of_nat n) ltac:(lia)) as Hbelow. rewrite Nat2Z.inj_succ, <- Z.add_1_r in *. split.
  - intros H. destruct (p (Z.of_nat n)) eqn:Ep; [|lia].
    assert (sum_len d p n = Z.min (Z.of_nat n * stride d) (total_bytes d)) as E by lia.
    rewrite IH in E. intros i Hi. destruct (Z.eq_dec i (Z.of_nat n)) as [->|]; [done|]. apply E. lia.
  - intros H. rewrite H by lia. rewrite (proj2 IH); [lia|]. intros i Hi. apply H. lia.
Qed.

Lemma sum_len_ext p q n : (forall i, 0 <= i < Z.of_nat n -> p i = q i) -> sum_len d p n = sum_len d q n.
Proof.
  induction n as [|n IH]; intros H; [done|]. cbn. rewrite (H (Z.of_nat n)) by lia. rewrite IH; [done|]. intros i Hi. apply H. lia.
Qed.

Lemma sum_len_add p q n i : 0 <= i < Z.of_nat n -> p i = false ->
  (forall j, 0 <= j < Z.of_nat n -> q j = (j =? i) || p j) -> sum_len d q n = sum_len d p n + frag_len d i.
Proof.
  induction n as [|n IH]; intros Hi Hp Hq; [lia|]. cbn [sum_len]. rewrite (Hq (Z.of_nat n)) by lia.
  destruct (Z.eqb_spec (Z.of_nat n) i) as [E|E].
  - rewrite E, Hp. cbn. rewrite (sum_len_ext q p); [lia|]. intros j Hj. rewrite Hq by lia.
    by destruct (Z.eqb_spec j i); [lia|].
  - cbn. rewrite IH; [lia | lia | done|]. intros j Hj. apply Hq. lia.
Qed.

End sums.

(** ** Well-formed assemblies *)

Record wf_datagram (a : Assembly) : Prop := {
  wd_words : Z.of_nat (length (seen a)) = div_ceil (count_of (descriptor a)) 64;
  wd_received : received a = sum_len (descriptor a) (has_fragment a) (Z.to_nat (count_of (descriptor a)));
  wd_end : 0 <= received_end a <= count_of (descriptor a);
  wd_below i : 0 <= i < count_of (descriptor a) -> has_fragment a i = true -> i < received_end a;
  wd_gap : is_some (prefix_probe_after a) = has_prefix_hole a
}.

Record wf (l : MediaLimits) (a : Assembly) : Prop := {
  wf_typed : descriptor_typed (descriptor a);
  wf_valid : validate (descriptor a) l = Ok tt;
  wf_length : Z.of_nat (length (abytes a)) = total_bytes (descriptor a);
  wf_kind : match reliable_offset a with
            | None => wf_datagram a
            | Some o => received a = o /\ 0 <= o <= total_bytes (descriptor a) /\ seen a = []
            end
}.

(** What has arrived are pieces of [src]. *)
Definition agrees (src : bytes) (a : Assembly) : Prop :=
  match reliable_offset a with
  | None => forall i, 0 <= i < count_of (descriptor a) -> has_fragment a i = true ->
              piece (descriptor a) (abytes a) i = piece (descriptor a) src i
  | Some o => take (Z.to_nat o) (abytes a) = take (Z.to_nat o) src
  end.

(** A complete picture is its source. *)
Lemma complete_bytes l a src : wf l a -> agrees src a -> complete a = true ->
  Z.of_nat (length src) = total_bytes (descriptor a) -> abytes a = src.
Proof.
  intros [Ht Hv Hlen Hk] Hag Hc%Z.eqb_eq Hsrc. unfold agrees in Hag.
  destruct (reliable_offset a) as [o|].
  - destruct Hk as (Hr & _ & _). rewrite Hr in Hc. subst o. rewrite !take_ge in Hag by lia. done.
  - destruct Hk as [_ Hrec _ _ _]. rewrite Hrec in Hc.
    pose proof (count_bounds _ l Ht Hv) as (Hs & Htot & Hcb). pose proof (stride_fits _ l Ht Hv) as [_ Hcnt].
    assert (forall i, 0 <= i < count_of (descriptor a) -> has_fragment a i = true) as Hall.
    { intros i Hi. apply (sum_len_full _ l Ht Hv (has_fragment a) (Z.to_nat (count_of (descriptor a)))); lia || nia. }
    rewrite <- (pieces_tile _ l (abytes a) Ht Hv Hlen), <- (pieces_tile _ l src Ht Hv Hsrc). f_equal.
    apply map_ext_in. intros i Hi%list_elem_of_In%elem_of_seqZ. apply Hag; [lia|apply Hall; lia].
Qed.

(** ** Arrivals *)

(** What no arrival changes: the picture, its reservation and its deadlines. *)
Record same_picture (a a' : Assembly) : Prop := {
  sp_descriptor : descriptor a' = descriptor a;
  sp_charged : charged a' = charged a;
  sp_kind : is_some (reliable_offset a') = is_some (reliable_offset a);
  sp_display : display_until a' = display_until a;
  sp_reference : reference_until a' = reference_until a
}.
#[export] Instance same_picture_preorder : PreOrder same_picture.
Proof. split; [by split|]. intros x y z [] []. split; congruence. Qed.

Section arrivals.
Context (l : MediaLimits) (a : Assembly) (Hwf : wf l a).

Lemma piece_range i : 0 <= i < count_of (descriptor a) ->
  fragment_range (descriptor a) i
  = Ok (i * stride (descriptor a), i * stride (descriptor a) + frag_len (descriptor a) i)
  /\ 0 <= i * stride (descriptor a)
  /\ i * stride (descriptor a) + frag_len (descriptor a) i <= Z.of_nat (length (abytes a)).
Proof using All.
  intros Hi. destruct Hwf as [Ht Hv Hlen _]. rewrite (range_ok _ l Ht Hv) by done.
  pose proof (count_bounds _ l Ht Hv). unfold frag_len. split; [f_equal; f_equal; lia|]. lia.
Qed.

(** Writing one piece changes that piece only. *)
Lemma put_piece i b : 0 <= i < count_of (descriptor a) -> Z.of_nat (length b) = frag_len (descriptor a) i ->
  let bs := put (Z.to_nat (i * stride (descriptor a))) b (abytes a) in
  length bs = length (abytes a) /\ piece (descriptor a) bs i = b
  /\ forall j, 0 <= j < count_of (descriptor a) -> j <> i ->
       piece (descriptor a) bs j = piece (descriptor a) (abytes a) j.
Proof using All.
  intros Hi Hb. destruct (piece_range i Hi) as (Hr & H0 & He). cbv zeta.
  assert (Z.to_nat (i * stride (descriptor a)) + length b <= length (abytes a))%nat as Hfit by lia.
  split; [by apply put_length|]. unfold piece. split.
  - rewrite Hr. replace (Z.to_nat (_ + frag_len _ i)) with (Z.to_nat (i * stride (descriptor a)) + length b)%nat by lia.
    by apply slice_put_same.
  - intros j Hj Hne. destruct (piece_range j Hj) as (Hrj & Hj0 & Hje). rewrite Hrj.
    apply slice_put_other; [done|]. destruct Hwf as [Ht Hv _ _]. pose proof (count_bounds _ l Ht Hv).
    unfold frag_len in *. assert (j < i \/ i < j) as [Hlt|Hlt] by lia.
    + left. assert ((j + 1) * stride (descriptor a) <= i * stride (descriptor a)) by nia. lia.
    + right. assert ((i + 1) * stride (descriptor a) <= j * stride (descriptor a)) by nia. lia.
Qed.

(** A fragment with a new index. *)
Definition took (f : Fragment) (a' : Assembly) : Prop :=
  reliable_offset a' = None /\ Media.descriptor f = descriptor a /\ has_fragment a (index f) = false
  /\ (forall j, 0 <= j -> has_fragment a' j = (j =? index f) || has_fragment a j)
  /\ piece (descriptor a) (abytes a') (index f) = fbytes f
  /\ forall j, 0 <= j < count_of (descriptor a) -> j <> index f ->
       piece (descriptor a) (abytes a') j = piece (descriptor a) (abytes a) j.

Lemma note_gap_same now b :
  exists p, note_gap now b = b <| prefix_probe_after := p |> /\ is_some p = has_prefix_hole b.
Proof. unfold note_gap. destruct (has_prefix_hole b); by eexists. Qed.

Lemma fragment_spec f now delay : fragment_typed f -> validate_fragment f l = Ok tt ->
  let '(res, a') := fragment f now delay a in
  wf l a' /\ same_picture a a' /\
  match res with
  | Err e => a' = a /\ e = ConflictingPicture
  | Ok Duplicate => a' = a /\ reliable_offset a = None /\ Media.descriptor f = descriptor a
                    /\ has_fragment a (index f) = true /\ piece (descriptor a) (abytes a) (index f) = fbytes f
  | Ok u => took f a' /\ u = update_of a'
  end.
Proof using All.
  intros Hft Hfv. unfold fragment, mbind, M_bind, refuse_if.
  destruct (_ || _) eqn:Eg; [by split_and!|].
  apply orb_false_iff in Eg as [Hrel Hd%negb_false_iff%bool_decide_eq_true_1].
  destruct (reliable_offset a) eqn:Hro; [done|]. clear Hrel.
  apply validate_fragment_spec in Hfv as (_ & Hidx & Hlen); [|done].
  destruct Hft as (_ & [Hi0 _] & Hdata). rewrite Hd in Hidx, Hlen. fold (frag_len (descriptor a) (index f)) in Hlen.
  destruct (piece_range (index f)) as (Hr & Hs0 & He); [done|].
  unfold readr, gets. rewrite Hr. cbn [from_wire map_err].
  pose proof Hwf as [Ht Hv Hal Hk]. rewrite Hro in Hk. destruct Hk as [Hw Hrec Hend Hbelow Hgap].
  destruct (has_fragment a (index f)) eqn:Ehas.
  { case_bool_decide as Heq; (split; [done|]; split; [done|]); [|done]. split_and!; try done.
    unfold piece. by rewrite Hr. }
  unfold modify. destruct Hdata as [_ Hu32]. unfold lift. rewrite (proj2 (Z.leb_le _ _) Hu32).
  destruct (note_gap_same now (a <| abytes := put (Z.to_nat (index f * stride (descriptor a))) (fbytes f) (abytes a) |>
    <| seen := mark (index f) (seen a) |> <| received := received a + Z.of_nat (length (fbytes f)) |>
    <| received_end := Z.max (received_end a) (index f + 1) |>
    <| tail_probe_after := Z.min (saturating_add u64_max now delay) (reference_until a) |>)) as (p & Hp & Hpg).
  cbn in Hp |- *. rewrite Hp. clear Hp. set (a' := mk_assembly _ _ _ _ _ _ _ _ _ _ _ _ _ _).
  destruct (put_piece (index f) (fbytes f)) as (Hpl & Hpi & Hpo); [done|done|].
  assert (forall j, 0 <= j -> has_fragment a' j = (j =? index f) || has_fragment a j) as Hbits.
  { intros j Hj. rewrite !has_fragment_bit. apply bit_mark; [done|done|].
    pose proof (stride_fits _ l Ht Hv) as [_ Hcnt]. pose proof (div_ceil_bounds (count_of (descriptor a)) 64).
    pose proof (Z.div_lt_upper_bound (index f) 64 (div_ceil (count_of (descriptor a)) 64)). lia. }
  assert (wf l a') as Hwf'.
  { split; [done|done|cbn; lia|]. cbn [reliable_offset a']. rewrite Hro. split.
    - change (seen a') with (mark (index f) (seen a)). unfold mark. by rewrite length_alter.
    - change (descriptor a') with (descriptor a). change (received a') with (received a + Z.of_nat (length (fbytes f))).
      assert (sum_len (descriptor a) (has_fragment a') (Z.to_nat (count_of (descriptor a)))
        = sum_len (descriptor a) (has_fragment a) (Z.to_nat (count_of (descriptor a)))
          + frag_len (descriptor a) (index f)) as ->; [|lia].
      apply sum_len_add; [lia|done|]. intros j Hj. apply Hbits. lia.
    - change (descriptor a') with (descriptor a). change (received_end a') with (Z.max (received_end a) (index f + 1)). lia.
    - intros j Hj. change (received_end a') with (Z.max (received_end a) (index f + 1)).
      rewrite Hbits by lia. intros [->%Z.eqb_eq|Hj']%orb_true_iff; [lia|]. specialize (Hbelow j Hj Hj'). lia.
    - exact Hpg. }
  split; [done|]. split; [by split|].
  assert (took f a') as Htook by (by split_and!).
  unfold update_of. by destruct (complete a').
Qed.

Lemma fragment_agrees f now delay src : fragment_typed f -> validate_fragment f l = Ok tt ->
  fbytes f = piece (Media.descriptor f) src (index f) -> agrees src a -> agrees src (snd (fragment f now delay a)).
Proof using All.
  intros Hft Hfv Hsrc Hag. pose proof (fragment_spec f now delay Hft Hfv) as Hspec.
  assert (forall a', took f a' -> same_picture a a' -> agrees src a') as Htook.
  { intros a' (Hro & Hd & _ & Hbits & Hpi & Hpo) Hsame. unfold agrees. rewrite Hro.
    pose proof (sp_kind _ _ Hsame) as Hk. rewrite Hro in Hk. unfold agrees in Hag.
    destruct (reliable_offset a); [done|]. rewrite (sp_descriptor _ _ Hsame).
    intros j Hj. rewrite Hbits by lia. intros [->%Z.eqb_eq|Hb]%orb_true_iff.
    - rewrite Hpi, Hsrc. by rewrite Hd.
    - destruct (Z.eq_dec j (index f)) as [->|]; [by rewrite Hpi, Hsrc, Hd|]. rewrite Hpo by done. by apply Hag. }
  destruct (fragment f now delay a) as [[[]|e] a']; cbn [snd]; destruct Hspec as (_ & Hsame & Hres);
    try (destruct Hres as [Hres _]); try (by subst a'); by apply Htook.
Qed.

(** A recovery chunk continues the prefix or changes nothing. *)
Lemma recovery_spec c max : chunk_typed c -> chunk_valid l c ->
  let '(res, a') := recovery c max a in
  wf l a' /\ same_picture a a' /\
  match res with
  | Err _ => a' = a
  | Ok u =>
      reliable_offset a = Some (c_offset c) /\ frame (descriptor a) = c_frame c
      /\ total_bytes (descriptor a) = c_total_bytes c
      /\ reliable_offset a' = Some (c_offset c + Z.of_nat (length (c_bytes c)))
      /\ abytes a' = put (Z.to_nat (c_offset c)) (c_bytes c) (abytes a)
      /\ c_offset c + Z.of_nat (length (c_bytes c)) <= Z.of_nat (length (abytes a))
      /\ u = update_of a'
  end.
Proof using All.
  intros Hct Hcv. pose proof (validate_chunk_len c l Hct Hcv) as (_ & Hfit & _).
  pose proof Hct as (_ & [_ Hu] & [Ho _] & _ & Hb).
  unfold recovery, mbind, M_bind, refuse_if. destruct (_ || _) eqn:Eg; [by split_and!|].
  assert (reliable_offset a = Some (c_offset c)) as Hro.
  { do 4 (apply orb_false_iff in Eg as [Eg ?]). by apply negb_false_iff, bool_decide_eq_true_1 in Eg. }
  guards. pose proof Hwf as [Ht Hv Hal Hk]. rewrite Hro in Hk. destruct Hk as (Hrec & Hoff & Hseen).
  unfold lift at 1. unfold ok_or, checked_add.
  destruct (Z.leb_spec (c_offset c + Z.of_nat (length (c_bytes c))) usize_max);
    [|unfold usize_max, u64_max, u32_max in *; lia].
  destruct (Z.ltb_spec (Z.of_nat (length (abytes a))) (c_offset c + Z.of_nat (length (c_bytes c)))); [by split_and!|].
  unfold modify, lift. destruct (Z.leb_spec (c_offset c + Z.of_nat (length (c_bytes c))) u32_max); [|lia].
  cbn. split; [|split; [split; try done; cbn; by rewrite Hro | by split_and!]].
  split; cbn; [done|done|rewrite put_length; lia|]. split_and!; [done|lia|lia|done].
Qed.

Lemma recovery_agrees c max src : chunk_typed c -> chunk_valid l c ->
  c_bytes c = slice (Z.to_nat (c_offset c)) (Z.to_nat (c_offset c) + length (c_bytes c)) src ->
  agrees src a -> agrees src (snd (recovery c max a)).
Proof using All.
  intros Hct Hcv Hsrc Hag. pose proof (recovery_spec c max Hct Hcv) as Hspec.
  pose proof Hct as (_ & _ & [Ho _] & _).
  destruct (recovery c max a) as [[u|e] a']; cbn [snd]; destruct Hspec as (_ & _ & Hres); [|by subst].
  destruct Hres as (Hro & _ & _ & Hro' & Hbytes & Hfit & _). unfold agrees in *. rewrite Hro in Hag. rewrite Hro', Hbytes.
  rewrite Z2Nat.inj_add, Nat2Z.id by lia. unfold put.
  rewrite take_app_ge by (rewrite length_take; lia). rewrite length_take, Nat.min_l by lia.
  replace (Z.to_nat (c_offset c) + length (c_bytes c) - Z.to_nat (c_offset c))%nat with (length (c_bytes c)) by lia.
  rewrite take_app_length, Hag, Hsrc at 1. unfold slice at 1.
  replace (Z.to_nat (c_offset c) + length (c_bytes c) - Z.to_nat (c_offset c))%nat with (length (c_bytes c)) by lia.
  apply take_take_drop.
Qed.

End arrivals.

(** ** Reservations *)

(** [own] more bytes and one more picture are charged, within the budget. *)
Record charges (l : Ledger) (own : Z) (l' : Ledger) : Prop := {
  ch_bytes : used_bytes l' = used_bytes l + own;
  ch_pictures : used_pictures l' = used_pictures l + 1;
  ch_max_bytes : max_bytes l' = max_bytes l;
  ch_max_pictures : max_pictures l' = max_pictures l;
  ch_fits : used_bytes l' <= max_bytes l' /\ used_pictures l' <= max_pictures l'
}.

Lemma release_charges l own l' : charges l own l' -> release own l' = l.
Proof.
  intros [Hb Hp Hm1 Hm2 _]. destruct l, l'. cbn in *. subst. unfold release. cbn. f_equal; lia.
Qed.

Lemma reserve_spec n l :
  match reserve n l with
  | (Ok own, l') => own = n /\ charges l n l'
  | (Err _, l') => l' = l
  end.
Proof.
  unfold reserve, mbind, M_bind, refuse_if, readr, modify, ok_or, checked_add.
  destruct (Z.ltb_spec (max_bytes l) n); [done|].
  destruct (Z.leb_spec (used_bytes l + n) usize_max); [|done]. destruct (_ || _) eqn:E; [done|]. guards.
  split; [done|]. split; cbn; lia.
Qed.

Lemma grow_spec own extra l l' : charges l own l' ->
  match grow own extra l' with
  | (Ok own', l'') => own' = own + extra /\ charges l own' l''
  | (Err _, l'') => l'' = l'
  end.
Proof.
  intros [Hb Hp Hm1 Hm2 Hf]. unfold grow, mbind, M_bind, refuse_if, readr, modify, lift, ok_or, checked_add.
  destruct (Z.leb_spec (own + extra) usize_max); [|done]. destruct (Z.ltb_spec (max_bytes l') (own + extra)); [done|].
  destruct (Z.leb_spec (used_bytes l' + extra) usize_max); [|done].
  destruct (Z.ltb_spec (max_bytes l') (used_bytes l' + extra)); [done|].
  split; [done|]. split; cbn; lia.
Qed.

Lemma releasing_spec {A} own (m : M Ledger DeliveryError A) l l' :
  charges l own l' -> (forall e l'', m l' = (Err e, l'') -> l'' = l') ->
  match releasing own m l' with
  | (Ok x, l'') => m l' = (Ok x, l'')
  | (Err _, l'') => l'' = l
  end.
Proof.
  intros Hc He. unfold releasing. destruct (m l') as [[x|e] l''] eqn:E; [done|].
  rewrite (He e l'' eq_refl). by apply release_charges.
Qed.

Lemma allocate_spec al n metadata l :
  match allocate al n metadata l with
  | (Ok (b, own), l') => charges l own l' /\ b = zeros (Z.to_nat n) /\ n + metadata <= own
  | (Err _, l') => l' = l
  end.
Proof.
  unfold allocate. unfold mbind at 1, M_bind at 1, lift at 1, ok_or at 1, checked_add.
  destruct (Z.leb_spec (n + metadata) usize_max); [|done]. unfold mbind at 1, M_bind at 1.
  pose proof (reserve_spec (n + metadata) l) as Hr. destruct (reserve (n + metadata) l) as [[own|e] l1]; [|done].
  destruct Hr as [-> Hc]. pose proof (reserve_enough al 1 n) as Hen.
  unfold releasing, mbind, M_bind, lift. destruct (reserve_exact al 1 n) as [cap|]; cbn [ok_or];
    [|by apply release_charges]. specialize (Hen cap eq_refl).
  pose proof (grow_spec (n + metadata) (cap - n) l l1 Hc) as Hg.
  destruct (grow (n + metadata) (cap - n) l1) as [[own|e] l2]; [|subst; by apply release_charges].
  destruct Hg as [-> Hc2]. cbn. split_and!; [done|done|lia].
Qed.

(** A fresh assembly: nothing has arrived, and its deadlines are fixed. *)
Record fresh `{Layout} (d : FrameDescriptor) (c : ReceiveConfig) (now : Z) (until : option Z) (a : Assembly) : Prop := {
  fs_wf : wf (limits c) a;
  fs_descriptor : descriptor a = d;
  fs_kind : is_some (reliable_offset a) = is_some until;
  fs_empty : received a = 0;
  fs_agrees src : agrees src a;
  fs_display : display_until a = now + display_budget_micros (policy c);
  fs_reference : reference_until a = match until with
                                     | Some u => u
                                     | None => now + reference_budget_micros (policy c)
                                     end;
  fs_attempts : repair_attempts a = 0;
  fs_charged : total_bytes d + struct_bytes <= charged a
}.

Lemma deadline_Ok now n t : deadline now n = Ok t -> t = now + n.
Proof. unfold deadline, ok_or. destruct (checked_add _ _ _) eqn:E; [|done]. apply checked_add_Some in E as [-> _]. by intros [= <-]. Qed.

Lemma storage_spec `{Layout} d reliable l n words metadata :
  descriptor_typed d -> validate d l = Ok tt -> storage d reliable = Ok (n, words, metadata) ->
  n = total_bytes d /\ words = (if reliable then 0 else div_ceil (count_of d) 64) /\ words * 8 + struct_bytes = metadata
  /\ 0 <= words.
Proof.
  intros Ht Hv. unfold storage, from_wire. rewrite (count_ok d l Ht Hv). cbn.
  destruct (checked_mul usize_max _ 8) as [m|] eqn:E1; cbn; [|done]. apply checked_mul_Some in E1 as [-> _].
  destruct (checked_add usize_max _ _) as [m|] eqn:E2; cbn; [|done]. apply checked_add_Some in E2 as [-> _].
  intros [= <- <- <-]. split_and!; try done. pose proof (stride_fits d l Ht Hv) as [_ Hc].
  destruct reliable; [done|]. pose proof (div_ceil_bounds (count_of d) 64). lia.
Qed.

Lemma fresh_assembly `{Layout} d c now until own words display reference probe :
  descriptor_typed d -> validate d (limits c) = Ok tt -> total_bytes d + struct_bytes <= own ->
  words = (if is_some until then 0 else div_ceil (count_of d) 64) -> 0 <= words ->
  display = now + display_budget_micros (policy c) ->
  reference = match until with Some u => u | None => now + reference_budget_micros (policy c) end ->
  fresh d c now until
    (mk_assembly d (zeros (Z.to_nat (total_bytes d))) own (zeros (Z.to_nat words)) 0
       (if until then Some 0 else None) 0 display reference probe 0 probe None 0).
Proof.
  intros Ht Hv Hown Hw Hw0 Hd Hr. pose proof (descriptor_positive _ _ Ht Hv) as [_ Htot].
  pose proof (stride_fits _ _ Ht Hv) as [_ Hc].
  set (a := mk_assembly _ _ _ _ _ _ _ _ _ _ _ _ _ _).
  assert (forall i, has_fragment a i = false) as Hno by (intros i; rewrite has_fragment_bit; apply bit_zeros).
  assert (forall n, sum_len d (has_fragment a) n = 0) as Hsum.
  { intros n. induction n as [|n IH]; [done|]. cbn [sum_len]. by rewrite IH, Hno. }
  split; try done.
  - split; [done|done|cbn -[zeros]; unfold zeros; rewrite length_replicate; lia|]. destruct until; cbn [reliable_offset a].
    + split_and!; [done|lia|cbn;lia|]. cbn in Hw. by subst words.
    + split; cbn [descriptor received received_end a].
      * cbn -[zeros]. unfold zeros. rewrite length_replicate. cbn in Hw. lia.
      * by rewrite Hsum.
      * lia.
      * intros i _. by rewrite Hno.
      * cbn. unfold has_prefix_hole. cbn. symmetry. apply Z.ltb_ge. lia.
  - by destruct until.
  - intros src. unfold agrees. destruct until; cbn [reliable_offset a]; [done|]. intros i _. by rewrite Hno.
Qed.

(** The bitset is charged to the reservation of the picture. *)
Lemma bitset_spec al own words l l1 : charges l own l1 -> 0 <= words ->
  match releasing own (capacity ← lift (ok_or (reserve_exact al 8 words) AllocationFailed);
                       extra ← lift (ok_or (checked_mul usize_max (capacity - words) 8) DResourceLimit);
                       grow own extra) l1 with
  | (Ok own', l') => charges l own' l' /\ own <= own'
  | (Err _, l') => l' = l
  end.
Proof.
  intros Hc Hw. unfold releasing, mbind, M_bind, lift. pose proof (reserve_enough al 8 words) as Hen.
  destruct (reserve_exact al 8 words) as [cap|]; cbn [ok_or]; [|by apply release_charges]. specialize (Hen cap eq_refl).
  destruct (checked_mul usize_max (cap - words) 8) as [extra|] eqn:E; cbn [ok_or]; [|by apply release_charges].
  apply checked_mul_Some in E as [-> _]. pose proof (grow_spec own ((cap - words) * 8) l l1 Hc) as Hg.
  destruct (grow own _ l1) as [[own'|e] l']; [|subst; by apply release_charges]. destruct Hg as [-> Hg]. split; [done|lia].
Qed.

Lemma new_spec `{Layout} al d c now until l : descriptor_typed d ->
  match new al d c now until l with
  | (Ok a, l') => charges l (charged a) l' /\ fresh d c now until a
  | (Err _, l') => l' = l
  end.
Proof.
  intros Ht. unfold new. unfold mbind at 1, M_bind at 1, lift at 1.
  destruct (validate d (limits c)) as [[]|e] eqn:Hv; cbn [from_wire map_err]; [|done].
  unfold mbind at 1, M_bind at 1, lift at 1.
  destruct (storage d (is_some until)) as [[[n words] metadata]|e] eqn:Es; [|done].
  destruct (storage_spec d _ _ _ _ _ Ht Hv Es) as (-> & Hw & Hm & Hw0).
  unfold mbind at 1, M_bind at 1. pose proof (allocate_spec al (total_bytes d) metadata l) as Ha.
  destruct (allocate al (total_bytes d) metadata l) as [[[b own]|e] l1]; [|done]. destruct Ha as (Hc & -> & Hown).
  cbn [fst snd]. unfold mbind at 1, M_bind at 1. pose proof (bitset_spec al own words l l1 Hc Hw0) as Hbs.
  match goal with |- context [releasing own ?m l1] => destruct (releasing own m l1) as [[own2|e] l2] end; [|done].
  destruct Hbs as [Hc2 Hle]. unfold releasing, mbind, M_bind, lift.
  destruct (deadline now (display_budget_micros (policy c))) as [display|e] eqn:Ed; [|by apply release_charges].
  apply deadline_Ok in Ed.
  destruct (match until with Some u => Ok u | None => deadline now (reference_budget_micros (policy c)) end)
    as [reference|e] eqn:Er; [|by apply release_charges].
  assert (reference = match until with Some u => u | None => now + reference_budget_micros (policy c) end) as Hr
    by (destruct until; [by injection Er|by apply deadline_Ok]).
  destruct (deadline now (repair_delay_micros (policy c))) as [probe|e] eqn:Ep; [|by apply release_charges].
  cbn -[zeros]. split; [done|]. apply fresh_assembly; try done. lia.
Qed.

End AssemblyProps.

(** * Reassembly: any order of arrival

    The fragments of a picture may arrive in any order and any number of times: the
    assembly is complete exactly when each has arrived, and then holds the picture. *)

Module AssemblyClaims.
Import Media MediaProps Delivery Assembly AssemblyProps.

(** Fragment [i] of the picture [src], as the host cuts it. *)
Definition fragment_of (d : FrameDescriptor) (src : bytes) (i : Z) : Fragment := mk_fragment d i (piece d src i).

(** Arrivals at the given times, in order. *)
Definition arrivals (d : FrameDescriptor) (src : bytes) (delay : Z) (order : list (Z * Z)) (a : Assembly) : Assembly :=
  foldl (fun a '(i, now) => snd (fragment (fragment_of d src i) now delay a)) a order.

Section order.
Context (l : MediaLimits) (d : FrameDescriptor) (src : bytes) (delay : Z).
Context (Ht : descriptor_typed d) (Hv : validate d l = Ok tt).
Context (Hsrc : Z.of_nat (length src) = total_bytes d) (Hbytes : Forall is_byte src).

Lemma fragment_of_valid i : 0 <= i < count_of d ->
  fragment_typed (fragment_of d src i) /\ validate_fragment (fragment_of d src i) l = Ok tt.
Proof using All.
  intros Hi. pose proof (stride_fits d l Ht Hv) as [_ Hc]. pose proof (count_bounds d l Ht Hv) as (Hs & Hp & Hcb).
  assert (fragment_range d i = Ok (i * stride d, i * stride d + frag_len d i)) as Hr.
  { rewrite (range_ok d l Ht Hv i Hi). unfold frag_len. f_equal. f_equal. lia. }
  pose proof (frag_len_pos d l Ht Hv i Hi) as Hpos.
  assert (Z.of_nat (length (piece d src i)) = frag_len d i) as Hlen.
  { unfold piece. rewrite Hr. unfold slice. rewrite length_take, length_drop. unfold frag_len in *. nia. }
  assert (fragment_typed (fragment_of d src i)) as Hft.
  { destruct Ht as (? & [? Hu] & ? & ? & ?). split; [by split_and!|]. split.
    - assert (i < total_bytes d) by nia. unfold fits. cbn. lia.
    - split; cbn.
      + unfold piece. rewrite Hr. unfold slice. by apply Forall_take, Forall_drop.
      + rewrite Hlen. unfold frag_len. lia. }
  split; [done|]. apply validate_fragment_spec; [done|]. cbn. split_and!; [done|lia|exact Hlen].
Qed.

(** What has arrived after the indices [seen]. *)
Record progressed (seen : list Z) (a : Assembly) : Prop := {
  pr_wf : wf l a;
  pr_descriptor : descriptor a = d;
  pr_kind : reliable_offset a = None;
  pr_agrees : agrees src a;
  pr_seen i : 0 <= i < count_of d -> has_fragment a i = true <-> i ∈ seen
}.

Lemma arrival_progress seen a i now : 0 <= i < count_of d -> progressed seen a ->
  progressed (i :: seen) (snd (fragment (fragment_of d src i) now delay a)).
Proof using All.
  intros Hi [Hw Hd Hk Ha Hseen]. destruct (fragment_of_valid i Hi) as [Hft Hfv].
  pose proof (fragment_spec l a Hw (fragment_of d src i) now delay Hft Hfv) as Hspec.
  pose proof (fragment_agrees l a Hw (fragment_of d src i) now delay src Hft Hfv eq_refl Ha) as Hag.
  assert (forall a', wf l a' -> same_picture a a' -> agrees src a' -> reliable_offset a' = None ->
    (forall j, 0 <= j -> has_fragment a' j = (j =? i) || has_fragment a j) -> progressed (i :: seen) a') as Htook.
  { intros a' Hw' Hs' Hag' Hk' Hb. split; try done; [by rewrite (sp_descriptor _ _ Hs')|].
    intros j Hj. rewrite Hb by lia. rewrite orb_true_iff, Z.eqb_eq, elem_of_cons, (Hseen j Hj). done. }
  destruct (fragment _ now delay a) as [res a'] eqn:E; cbn [snd] in *. destruct Hspec as (Hw' & Hs' & Hres).
  assert (has_fragment a i = true -> a' = a -> progressed (i :: seen) a') as Hdup.
  { intros Hhas ->. apply Htook; try done. intros j Hj. destruct (Z.eqb_spec j i) as [->|]; [by rewrite Hhas|done]. }
  destruct res as [u|e].
  - destruct u; try (destruct Hres as ((? & _ & _ & Hb & _) & _); by apply Htook).
    destruct Hres as (-> & _ & _ & Hhas & _). by apply Hdup.
  - exfalso. destruct Hres as [-> ->]. revert E. unfold fragment, mbind, M_bind, refuse_if. rewrite Hk, Hd. cbn [is_some].
    rewrite bool_decide_eq_true_2 by done. cbn [orb negb]. unfold readr, gets. rewrite Hd.
    pose proof (piece_range l a Hw i) as Hr. rewrite Hd in Hr. destruct (Hr Hi) as (Hr' & _). clear Hr.
    cbn [index fragment_of]. rewrite Hr'. cbn [from_wire map_err].
    destruct (has_fragment a i) eqn:Hhas.
    + rewrite bool_decide_eq_true_2; [done|]. pose proof Ha as Ha'. unfold agrees in Ha'. rewrite Hk in Ha'.
      specialize (Ha' i). rewrite Hd in Ha'. specialize (Ha' Hi Hhas). unfold piece in Ha' at 1. by rewrite Hr' in Ha'.
    + unfold lift. destruct Hft as (_ & _ & [_ Hlen]). cbn [fbytes fragment_of] in *.
      rewrite (proj2 (Z.leb_le _ _) Hlen). done.
Qed.

Lemma arrivals_progress order : forall seen a, Forall (fun p => 0 <= fst p < count_of d) order ->
  progressed seen a -> progressed (rev (map fst order) ++ seen) (arrivals d src delay order a).
Proof using All.
  induction order as [|[i now] order IH]; intros seen a Ho Hp; [done|]. inversion_clear Ho as [|? ? Hi Ho'].
  cbn [map fst rev]. rewrite <- app_assoc. cbn [app]. change (arrivals d src delay ((i, now) :: order) a)
    with (arrivals d src delay order (snd (fragment (fragment_of d src i) now delay a))).
  apply IH; [done|]. by apply arrival_progress.
Qed.

(** Complete exactly when every fragment has arrived. *)
Lemma progressed_complete seen a : progressed seen a ->
  complete a = true <-> forall i, 0 <= i < count_of d -> i ∈ seen.
Proof using All.
  intros [Hw Hd Hk Ha Hseen]. pose proof (count_bounds d l Ht Hv) as (Hs & Hp & Hcb).
  pose proof (stride_fits d l Ht Hv) as [_ Hc]. destruct Hw as [_ _ _ Hkind]. rewrite Hk in Hkind.
  destruct Hkind as [_ Hrec _ _ _]. rewrite Hd in Hrec.
  pose proof (sum_len_full d l Ht Hv (has_fragment a) (Z.to_nat (count_of d)) ltac:(lia)) as Hfull.
  rewrite Z2Nat.id, <- Hrec, Z.min_r in Hfull by (lia || nia).
  unfold complete. rewrite Hd, Z.eqb_eq, Hfull. split; intros H i Hi; by apply Hseen, H.
Qed.

(** Nothing has arrived. *)
Lemma empty_progressed a : wf l a -> descriptor a = d -> reliable_offset a = None -> agrees src a -> received a = 0 ->
  progressed [] a.
Proof using All.
  intros Hw Hd Hro Ha He. pose proof Hw as [_ _ _ Hkind]. rewrite Hro in Hkind.
  split; try done. intros i Hi. split; [|by intros ?%not_elem_of_nil]. intros Hhas. exfalso.
  pose proof (wd_received _ Hkind) as Hrec. rewrite He, Hd in Hrec.
  pose proof (frag_len_pos d _ Ht Hv) as Hpos. pose proof (stride_fits d _ Ht Hv) as [_ Hc].
  assert (forall n, Z.of_nat n <= count_of d -> i < Z.of_nat n -> 0 < sum_len d (has_fragment a) n) as Hgt.
  { intros n. induction n as [|n IH]; intros Hn Hlt; [lia|]. cbn [sum_len].
    pose proof (sum_len_bound d _ Ht Hv (has_fragment a) n ltac:(lia)).
    destruct (Z.eq_dec i (Z.of_nat n)) as [<-|]; [rewrite Hhas; specialize (Hpos i Hi); lia|].
    specialize (IH ltac:(lia) ltac:(lia)). specialize (Hpos (Z.of_nat n) ltac:(lia)).
    destruct (has_fragment a (Z.of_nat n)); lia. }
  specialize (Hgt (Z.to_nat (count_of d)) ltac:(lia) ltac:(lia)). lia.
Qed.

End order.

(** C25. Reassembly does not depend on the order.  Let the host cut a picture into the
    fragments of its descriptor.  Whatever the order in which they reach a fresh
    assembly, however often and at whatever times, the assembly reports the
    picture complete exactly when every fragment has arrived at least once, and
    then its bytes are the picture. *)
Theorem any_order_reassembles `{Layout} al d c start g a g' src delay order :
  descriptor_typed d -> Z.of_nat (length src) = total_bytes d -> Forall is_byte src ->
  Assembly.new al d c start None g = (Ok a, g') ->
  Forall (fun p => 0 <= fst p < count_of d) order ->
  let a' := arrivals d src delay order a in
  (complete a' = true <-> forall i, 0 <= i < count_of d -> i ∈ map fst order)
  /\ (complete a' = true -> abytes a' = src).
Proof.
  intros Ht Hsrc Hb Hnew Ho. pose proof (new_spec al d c start None g Ht) as Hn. rewrite Hnew in Hn.
  destruct Hn as [_ [Hw Hd Hk He Ha _ _ _ _]]. assert (reliable_offset a = None) as Hro by (by destruct (reliable_offset a)).
  pose proof Hw as [_ Hv _ Hkind]. rewrite Hd in Hv. rewrite Hro in Hkind.
  assert (progressed (limits c) d src [] a) as Hp0 by (by apply (empty_progressed _ _ _ delay)).
  pose proof (arrivals_progress (limits c) d src delay Ht Hv Hsrc Hb order [] a Ho Hp0) as Hp. rewrite app_nil_r in Hp.
  intros a'. split.
  - unfold a'. rewrite (progressed_complete (limits c) d src delay Ht Hv Hsrc Hb _ _ Hp).
    split; intros HH i Hi; specialize (HH i Hi);
      apply list_elem_of_In; apply list_elem_of_In in HH; by apply in_rev in HH || rewrite <- in_rev.
  - intros Hc. destruct Hp as [Hw' Hd' Hk' Ha' _]. eapply complete_bytes; [exact Hw'|exact Ha'|done|].
    unfold a'. by rewrite Hd'.
Qed.

(** An allocator that returns what it is asked for, and a size for the structures. *)
Definition exact_allocator : Allocator := mk_allocator (fun _ n => Some n) ltac:(intros size n cap [= <-]; lia).
Definition demo_layout : Layout := {| struct_bytes := 300; struct_bytes_nonneg := ltac:(lia) |}.
Definition demo_config : ReceiveConfig :=
  mk_config demo_limits (mk_bindings 1 2 3 4) (mk_epoch 1 0) default_policy.
Definition demo_ledger : Ledger := mk_ledger 0 0 4000000 12.
Definition demo_picture : bytes := map Z.of_nat (seq 40 17).

Lemma any_order_reassembles_witness :
  exists a g', Assembly.new (H := demo_layout) exact_allocator demo_descriptor demo_config 1000 None demo_ledger = (Ok a, g')
    /\ abytes (arrivals demo_descriptor demo_picture 20 [(2, 5); (0, 6); (2, 7); (1, 9)] a) = demo_picture
    /\ complete (arrivals demo_descriptor demo_picture 20 [(2, 5); (0, 6); (2, 7)] a) = false.
Proof.
  eexists _, _. split; [vm_compute; reflexivity|]. split; [|vm_compute; reflexivity].
  match goal with |- abytes (arrivals _ _ _ _ ?a) = _ =>
    apply (any_order_reassembles (H := demo_layout) exact_allocator demo_descriptor demo_config 1000 demo_ledger a
             (mk_ledger 325 1 4000000 12) demo_picture 20 [(2, 5); (0, 6); (2, 7); (1, 9)]) end.
  - split_and!; vm_compute; done.
  - vm_compute. reflexivity.
  - repeat constructor; vm_compute; done.
  - vm_compute. reflexivity.
  - repeat constructor; vm_compute; done.
  - vm_compute. reflexivity.
Defined.

End AssemblyClaims.
