(* ===== verification/RepairProps.v ===== *)
(** * What repair requests guarantee

    The ranges of a repair request are in order, within the picture and within the
    request's bound; they cover every missing fragment, and name only missing ones
    unless the bound forces neighbouring holes to be merged. *)

From S2P Require Import Prelude.
From S2P Require Import Bytes.
From S2P Require Import Limits.
From S2P Require Import WireRecord.
From S2P Require Import WireRecordProps.
From S2P Require Import WireMedia.
From S2P Require Import WireMediaProps.
From S2P Require Import Delivery.
From S2P Require Import Assembly.
From S2P Require Import AssemblyClaims.

Module RepairProps.
Import Media MediaProps Delivery Assembly AssemblyProps.

(** ** Ordered ranges *)

Fixpoint ordered (lo : Z) (rs : list RepairRange) : Prop :=
  match rs with
  | [] => True
  | r :: rs => lo <= r_start r /\ r_start r < r_end r /\ ordered (r_end r) rs
  end.
(** Where a list of ranges ends. *)
Definition end_of (lo : Z) (rs : list RepairRange) : Z := default lo (r_end <$> last rs).
Definition covers (rs : list RepairRange) (i : Z) : Prop := exists r, r ∈ rs /\ r_start r <= i < r_end r.

Lemma end_of_cons lo r rs : end_of lo (r :: rs) = end_of (r_end r) rs.
Proof. unfold end_of. rewrite last_cons. by destruct (last rs). Qed.
Lemma end_of_snoc lo rs r : end_of lo (rs ++ [r]) = r_end r.
Proof. unfold end_of. by rewrite last_snoc. Qed.

Lemma ordered_app rs1 rs2 : forall lo, ordered lo (rs1 ++ rs2) <-> ordered lo rs1 /\ ordered (end_of lo rs1) rs2.
Proof.
  induction rs1 as [|r rs1 IH]; intros lo; [by cbn; tauto|]. cbn [app ordered]. rewrite IH, end_of_cons. tauto.
Qed.

Lemma ordered_end rs : forall lo, ordered lo rs -> lo <= end_of lo rs.
Proof.
  induction rs as [|r rs IH]; intros lo; [done|]. intros (H1 & H2 & H3). rewrite end_of_cons.
  specialize (IH _ H3). lia.
Qed.

Lemma covers_app rs1 rs2 i : covers (rs1 ++ rs2) i <-> covers rs1 i \/ covers rs2 i.
Proof. unfold covers. setoid_rewrite elem_of_app. naive_solver. Qed.
Lemma covers_cons r rs i : covers (r :: rs) i <-> r_start r <= i < r_end r \/ covers rs i.
Proof. unfold covers. setoid_rewrite elem_of_cons. naive_solver. Qed.
Lemma end_of_app lo rs1 rs2 : end_of lo (rs1 ++ rs2) = end_of (end_of lo rs1) rs2.
Proof. unfold end_of. rewrite last_app. by destruct (last rs2). Qed.
Lemma covers_one r i : covers [r] i <-> r_start r <= i < r_end r.
Proof. unfold covers. setoid_rewrite list_elem_of_singleton. naive_solver. Qed.

Lemma covers_within rs : forall lo i, ordered lo rs -> covers rs i -> lo <= i < end_of lo rs.
Proof.
  induction rs as [|r rs IH]; intros lo i Ho Hc.
  - destruct Hc as (q & Hq & _). by apply not_elem_of_nil in Hq.
  - destruct Ho as (H1 & H2 & H3). rewrite end_of_cons. pose proof (ordered_end _ _ H3).
    apply covers_cons in Hc as [Hc|Hc]; [lia|]. specialize (IH _ _ H3 Hc). lia.
Qed.

(** ** Adding a hole *)

Lemma gaps_length rs next : length (gaps rs next) = length rs.
Proof. revert next. induction rs as [|r rs IH]; intros next; [done|]. cbn. by rewrite IH. Qed.

Lemma smallest_range l : forall i merge gap,
  smallest i merge gap l = merge \/ (i <= smallest i merge gap l < i + length l)%nat.
Proof.
  induction l as [|c l IH]; intros i merge gap; [by left|]. cbn [smallest length].
  destruct (_ <? _); [destruct (IH (S i) i c); lia|]. destruct (IH (S i) merge gap); lia.
Qed.

(** How a full request absorbs one more hole: a suffix of it is extended, or two
    neighbours become one. *)
Lemma add_range_cases capacity rs m : (0 < capacity)%nat -> (length rs <= capacity)%nat ->
  ((length rs < capacity)%nat /\ add_range capacity rs m = rs ++ [m])
  \/ (length rs = capacity /\ exists rs0 z, rs = rs0 ++ [z] /\ add_range capacity rs m = rs0 ++ [mk_range (r_start z) (r_end m)])
  \/ (length rs = capacity /\ exists rs1 x y rs2, rs = rs1 ++ x :: y :: rs2
      /\ add_range capacity rs m = rs1 ++ mk_range (r_start x) (r_end y) :: rs2 ++ [m]).
Proof.
  intros Hcap Hlen. unfold add_range. destruct (Nat.ltb_spec (length rs) capacity); [by left|]. right.
  assert (length rs = capacity) as E by lia.
  pose proof (smallest_range (removelast (gaps rs (r_start m))) 0 (length rs - 1)
    (default 0 (last (gaps rs (r_start m))))) as Hs.
  set (merge := smallest _ _ _ _) in *. clearbody merge.
  rewrite List.removelast_firstn_len, length_take, gaps_length in Hs.
  destruct (Nat.eqb_spec merge (length rs - 1)) as [->|Hne].
  - left. split; [done|]. destruct rs as [|z rs0 _] using rev_ind; [cbn in *; lia|].
    exists rs0, z. split; [done|]. rewrite length_app. cbn [length].
    rewrite alter_app_r_alt by lia. by replace (length rs0 + 1 - 1 - length rs0)%nat with 0%nat by lia.
  - right. split; [done|]. assert (S merge < length rs)%nat as Hm by lia.
    apply lookup_lt_is_Some in Hm as [y Hy]. rewrite Hy.
    assert (merge < length rs)%nat as Hm by lia. apply lookup_lt_is_Some in Hm as [x Hx].
    exists (take merge rs), x, y, (drop (S (S merge)) rs). split.
    + rewrite <- (take_drop_middle rs merge x Hx) at 1. f_equal. f_equal.
      rewrite <- (drop_S rs y (S merge)) by done. done.
    + rewrite (take_S_r rs merge x Hx). rewrite alter_app_r_alt by (rewrite length_take; lia).
      rewrite length_take, Nat.min_l by (apply lookup_lt_Some in Hx; lia). rewrite Nat.sub_diag. cbn. by rewrite <- app_assoc.
Qed.

Lemma add_range_ok capacity lo rs m : (0 < capacity)%nat -> (length rs <= capacity)%nat ->
  ordered lo rs -> end_of lo rs <= r_start m -> r_start m < r_end m ->
  let rs' := add_range capacity rs m in
  (length rs' <= capacity)%nat /\ rs' <> [] /\ ordered lo rs' /\ end_of lo rs' = r_end m
  /\ forall i, covers rs i \/ r_start m <= i < r_end m -> covers rs' i.
Proof.
  intros Hcap Hlen Ho He Hm. cbv zeta.
  destruct (add_range_cases capacity rs m Hcap Hlen)
    as [[Hl ->]|[(Hl & rs0 & z & -> & ->)|(Hl & rs1 & x & y & rs2 & -> & ->)]].
  - rewrite length_app. cbn [length]. split_and!; [lia|by destruct rs| |apply end_of_snoc|].
    + apply ordered_app. cbn. split_and!; lia || done.
    + intros i. by rewrite covers_app, covers_one.
  - rewrite length_app in *. cbn [length] in *. apply ordered_app in Ho as [Ho (Hz1 & Hz2 & _)].
    rewrite end_of_snoc in He. split_and!; [lia|by destruct rs0| |by rewrite end_of_snoc|].
    + apply ordered_app. cbn. split_and!; lia || done.
    + intros i. rewrite !covers_app, !covers_one. cbn. intros [[?|?]|?]; auto; right; lia.
  - rewrite !length_app in *. cbn [length] in *. rewrite length_app in *. cbn [length] in *.
    apply ordered_app in Ho as [Ho (Hx1 & Hx2 & Hy1 & Hy2 & Ho2)].
    rewrite end_of_app, !end_of_cons in He.
    split_and!; [lia|by destruct rs1| | |].
    + apply ordered_app. split; [done|]. cbn [ordered r_start r_end]. split_and!; [lia|lia|].
      apply ordered_app. cbn. split_and!; lia || done.
    + rewrite app_comm_cons, app_assoc. apply end_of_snoc.
    + intros i. rewrite !covers_app, !covers_cons, covers_app, covers_one. cbn. intros [[?|[?|[?|?]]]|?]; auto 6; lia.
Qed.

(** Every range begins and ends with a hole. *)
Definition tight (hole : Z -> bool) (rs : list RepairRange) : Prop :=
  Forall (fun r => hole (r_start r) = true /\ hole (r_end r - 1) = true) rs.

Lemma add_range_tight hole capacity rs m : (0 < capacity)%nat -> (length rs <= capacity)%nat ->
  tight hole rs -> hole (r_start m) = true -> hole (r_end m - 1) = true -> tight hole (add_range capacity rs m).
Proof.
  intros Hcap Hlen Ht H1 H2. unfold tight in *.
  destruct (add_range_cases capacity rs m Hcap Hlen)
    as [[Hl ->]|[(Hl & rs0 & z & -> & ->)|(Hl & rs1 & x & y & rs2 & -> & ->)]].
  - apply Forall_app. split; [done|]. by repeat constructor.
  - apply Forall_app in Ht as [Ht Hz]. inversion_clear Hz as [|? ? [Hz1 Hz2] _].
    apply Forall_app. split; [done|]. by repeat constructor.
  - apply Forall_app in Ht as [Ht Hz]. inversion_clear Hz as [|? ? [Hx1 Hx2] Hz']. inversion_clear Hz' as [|? ? [Hy1 Hy2] Hr].
    apply Forall_app. split; [done|]. constructor; [done|]. apply Forall_app. split; [done|]. by repeat constructor.
Qed.

(** ** The scan *)

Section scan.
Context (a : Assembly) (total : Z).
Definition hole (i : Z) : bool := negb (has_fragment a i).

Lemma run_end_spec fuel : forall index, index <= total -> total - index <= Z.of_nat fuel ->
  let e := run_end fuel a total index in
  index <= e <= total /\ (forall i, index <= i < e -> hole i = true) /\ (e = total \/ hole e = false)
  /\ (index < total -> hole index = true -> index < e).
Proof.
  induction fuel as [|fuel IH]; intros index Hi Hf; cbn [run_end].
  - assert (index = total) by lia. split_and!; [lia|lia|intros; lia|by left|lia].
  - fold (hole index). destruct (Z.ltb_spec index total) as [Hlt|Hge]; cbn [andb].
    2:{ assert (index = total) by lia. split_and!; [lia|lia|intros; lia|by left|lia]. }
    destruct (hole index) eqn:Eh.
    2:{ split_and!; [lia|lia|intros; lia|by right|done]. }
    destruct (IH (index + 1)) as (H1 & H2 & H3 & _); [lia|lia|]. split_and!; [lia|lia| |done|lia].
    intros i Hi'. destruct (Z.eq_dec i index) as [->|]; [done|]. apply H2. lia.
Qed.

(** What the scan keeps about the fragments below [index]. *)
Record scanned (capacity : nat) (index : Z) (rs : list RepairRange) : Prop := {
  sc_length : (length rs <= capacity)%nat;
  sc_ordered : ordered 0 rs;
  sc_end : end_of 0 rs <= index;
  sc_covers i : 0 <= i < index -> hole i = true -> covers rs i;
  sc_tight : tight hole rs;
  (** Received fragments are named only by a full request. *)
  sc_exact i : (length rs < capacity)%nat -> covers rs i -> hole i = true
}.

Lemma missing_loop_spec capacity fuel : forall index rs,
  (0 < capacity)%nat -> 0 <= index <= total -> total - index <= Z.of_nat fuel -> scanned capacity index rs ->
  scanned capacity total (missing_loop fuel a capacity total index rs).
Proof.
  induction fuel as [|fuel IH]; intros index rs Hcap Hi Hf Hs; cbn [missing_loop].
  { assert (index = total) as <- by lia. done. }
  destruct (Z.ltb_spec index total) as [Hlt|Hge]; [|assert (index = total) as <- by lia; done].
  destruct Hs as [Hl Ho He Hc Ht Hx]. destruct (has_fragment a index) eqn:Eh.
  - apply IH; [done|lia|lia|]. split; try done; [lia|].
    intros i Hi' Hh. destruct (Z.eq_dec i index) as [->|]; [unfold hole in Hh; by rewrite Eh in Hh|]. apply Hc; [lia|done].
  - destruct (run_end_spec (Z.to_nat total) index) as (H1 & H2 & H3 & H4); [lia|lia|].
    assert (hole index = true) as Hh by (unfold hole; by rewrite Eh). specialize (H4 Hlt Hh).
    set (e := run_end _ _ _ _) in *. apply IH; [done|lia|lia|].
    destruct (add_range_ok capacity 0 rs (mk_range index e)) as (A1 & A2 & A3 & A4 & A5); try done.
    split; try done; [by rewrite A4| | |].
    + intros i Hi' Hhole. apply A5. destruct (Z.lt_ge_cases i index); [left; apply Hc; [lia|done]|right; cbn; lia].
    + apply add_range_tight; try done. cbn. apply H2. lia.
    + intros i Hlt'. destruct (add_range_cases capacity rs (mk_range index e) Hcap Hl)
        as [[Hl' ->]|[(Hl' & rs0 & z & -> & E)|(Hl' & rs1 & x & y & rs2 & -> & E)]].
      * rewrite covers_app, covers_one. cbn. intros [Hcov|?]; [by apply Hx|by apply H2].
      * rewrite E, length_app in Hlt'. rewrite length_app in Hl'. cbn in *. lia.
      * rewrite E, !length_app in Hlt'. rewrite length_app in Hl'. cbn in *. rewrite length_app in Hlt'. cbn in *. lia.
Qed.

End scan.

(** ** The request of an assembly *)

(** Below this index the assembly looks for holes: an unfinished tail is not one
    while it may still be arriving. *)
Definition horizon (a : Assembly) (now : Z) : Z :=
  if now <? tail_probe_after a then received_end a else count_of (descriptor a).

Lemma missing_spec l a capacity now : wf l a -> reliable_offset a = None -> (0 < capacity)%nat ->
  exists rs, missing a capacity now = Ok rs /\ scanned a capacity (horizon a now) rs.
Proof.
  intros [Ht Hv _ Hk] Hro Hcap. rewrite Hro in Hk. destruct Hk as [_ _ Hend _ _].
  pose proof (stride_fits _ l Ht Hv) as [_ Hcount].
  exists (missing_loop (Z.to_nat (horizon a now)) a capacity (horizon a now) 0 []). split.
  { unfold missing, horizon, from_wire. rewrite (count_ok _ l Ht Hv). destruct (Nat.eqb_spec capacity 0); [lia|].
    by destruct (now <? tail_probe_after a). }
  assert (0 <= horizon a now) by (unfold horizon; destruct (_ <? _); lia).
  apply missing_loop_spec; try done; [lia..|].
  split; cbn; try done; [lia|intros; lia|constructor|]. intros i _ (r & Hr & _). by apply not_elem_of_nil in Hr.
Qed.

(** A picture that is due for repair has a hole to ask for. *)
Lemma due_hole l a now : wf l a -> reliable_offset a = None -> complete a = false -> repair_due a <= now ->
  exists i, 0 <= i < horizon a now /\ hole a i = true.
Proof.
  intros [Ht Hv _ Hk] Hro Hinc Hdue. rewrite Hro in Hk. destruct Hk as [_ Hrec Hend _ Hgap].
  pose proof (stride_fits _ l Ht Hv) as [_ Hcount]. pose proof (count_bounds _ l Ht Hv) as (Hs & Htot & Hcb).
  assert (forall n, 0 <= n <= count_of (descriptor a) ->
    (forall i, 0 <= i < n -> hole a i = false) -> Z.min (n * stride (descriptor a)) (total_bytes (descriptor a)) <= received a) as Hfull.
  { intros n Hn Hno. rewrite Hrec.
    pose proof (proj2 (sum_len_full _ l Ht Hv (has_fragment a) (Z.to_nat n) ltac:(lia))) as Hsum.
    rewrite Z2Nat.id in Hsum by lia. rewrite <- Hsum by (intros i Hi; specialize (Hno i Hi); unfold hole in Hno; by destruct (has_fragment a i)).
    assert (forall m k, (m <= k)%nat -> Z.of_nat k <= count_of (descriptor a) ->
      sum_len (descriptor a) (has_fragment a) m <= sum_len (descriptor a) (has_fragment a) k) as Hmono.
    { intros m k Hmk. induction Hmk as [|k Hmk IH]; intros Hk; [lia|]. specialize (IH ltac:(lia)). cbn [sum_len].
      pose proof (frag_len_pos _ l Ht Hv (Z.of_nat k) ltac:(lia)). destruct (has_fragment a (Z.of_nat k)); lia. }
    apply Hmono; lia. }
  assert (0 <= horizon a now <= count_of (descriptor a)) as Hh by (unfold horizon; destruct (_ <? _); lia).
  destruct (decide (Exists (fun i => hole a i = true) (seqZ 0 (horizon a now)))) as [He|He].
  { apply Exists_exists in He as (i & Hi%elem_of_seqZ & Hhole). exists i. split; [lia|done]. }
  exfalso. assert (forall i, 0 <= i < horizon a now -> hole a i = false) as Hno.
  { intros i Hi. destruct (hole a i) eqn:E; [|done]. destruct He. apply Exists_exists. exists i.
    split; [apply elem_of_seqZ; lia|done]. }
  specialize (Hfull _ Hh Hno). unfold horizon in *. unfold complete in Hinc. apply Z.eqb_neq in Hinc.
  pose proof (sum_len_bound _ l Ht Hv (has_fragment a) (Z.to_nat (count_of (descriptor a))) ltac:(lia)) as Hb.
  rewrite <- Hrec in Hb. destruct (Z.ltb_spec now (tail_probe_after a)).
  - unfold repair_due in Hdue. destruct (prefix_probe_after a) as [p|]; cbn in Hgap, Hdue; [|lia].
    symmetry in Hgap. unfold has_prefix_hole in Hgap. apply Z.ltb_lt in Hgap. lia.
  - nia.
Qed.

End RepairProps.
