(* ===== verification/Receiver.v ===== *)
(** * The receiving pipeline

    [ReceivePipeline] of [fr-media/src/delivery/receive.rs]: one subscription that
    reassembles pictures from datagrams, a reliable recovery stream and progress
    announcements, hands complete pictures to a decoder in dependency order, asks
    for repairs, and gives a reference chain up when a deadline passes.

    The [Arc<AtomicBool>] scope is an identity, compared by address, and a flag.  A
    receiver replaces its scope only after storing [false] in the old one, so every
    scope but the current one is dead: a scope is a number that grows with each
    replacement, [live] is the flag of the current one.  Other owners of the scope
    may store [false] between method calls ([cancel]); pictures handed out return
    their bytes to the shared ledger when they are dropped ([drop_picture]). *)

From S2P Require Import Prelude.
From S2P Require Import Bytes.
From S2P Require Import Limits.
From S2P Require Import WireRecord.
From S2P Require Import WireMedia.
From S2P Require Import Delivery.
From S2P Require Import Assembly.

Module Receiver.
Import Media Delivery Assembly.

Definition SLOTS : nat := Z.to_nat Limits.REASSEMBLY_WINDOW_CEILING.

#[export] Instance ProtocolLimits_eq_dec : EqDecision Limits.ProtocolLimits.
Proof. solve_decision. Defined.
#[export] Instance MediaLimits_eq_dec : EqDecision MediaLimits.
Proof. solve_decision. Defined.

Inductive ReceiveState :=
| AwaitingConfiguration | AwaitingRecovery | DecodingRecovery | Streaming | NeedsRecovery | Closed.
#[export] Instance ReceiveState_eq_dec : EqDecision ReceiveState.
Proof. solve_decision. Defined.

Record RepairOffer := mk_offer { o_bytes : Z; o_frame : Z; reference_deadline_us : Z }.

Record ReceivedPicture := mk_picture {
  pic_scope : Z;
  pic_descriptor : FrameDescriptor;
  pic_epoch : MediaEpoch;
  pic_bindings : MediaBindings;
  queue_fresh : bool;
  newest : bool;
  pic_display_until : Z;
  pic_reference_until : Z;
  pic_bytes : bytes;
  pic_charged : Z;
  pic_budget : Z
}.

Record DecodedFrame := mk_decoded {
  df_scope : Z; df_descriptor : FrameDescriptor; df_epoch : MediaEpoch; df_bindings : MediaBindings;
  df_display_until : Z }.

Record InFlight := mk_in_flight { if_frame : Z; if_deadline : Z }.

(** [budget] is the address of the ledger. *)
Record ReceivePipeline := mk_pipeline {
  scope : Z;
  live : bool;
  lineage : bool;
  config : ReceiveConfig;
  budget : Z;
  ledger : Ledger;
  state : ReceiveState;
  failure : option DeliveryError;
  failure_at : option Z;
  active_slots : nat;
  slots : list (option Assembly);
  last_now : option Z;
  recovery_until : option Z;
  recovery_frame : option Z;
  last_decoded : option Z;
  in_flight : option InFlight;
  latest : option Progress
}.
#[export] Instance eta_pipeline : Eta ReceivePipeline := fun p =>
  mk_pipeline (scope p) (live p) (lineage p) (config p) (budget p) (ledger p) (state p) (failure p)
    (failure_at p) (active_slots p) (slots p) (last_now p) (recovery_until p) (recovery_frame p)
    (last_decoded p) (in_flight p) (latest p).

Abbreviation PM := (M ReceivePipeline DeliveryError).

(** A method given by what it returns and leaves behind. *)
Definition method {A} (f : ReceivePipeline -> Result DeliveryError A * ReceivePipeline) : PM A := f.

Definition new (c : ReceiveConfig) (budget : Z) (l : Ledger) : Result DeliveryError ReceivePipeline :=
  _ ← validate_policy (policy c);
  if negb (budget_fits l (protocol (limits c))) then Err DResourceLimit
  else Ok (mk_pipeline 0 true true c budget l AwaitingConfiguration None None
             (Z.to_nat (Limits.reassembly_window_pictures (protocol (limits c))))
             (replicate SLOTS None) None None None None None None).

(** ** Slots and their reservations *)

(** Drop the assemblies that satisfy [p]; each gives its bytes back. *)
Definition drop_where (p : Assembly -> bool) (r : ReceivePipeline) : ReceivePipeline :=
  r <| ledger := foldl (fun l a => release (charged a) l) (ledger r)
                   (filter (fun a => p a = true) (flatten (slots r))) |>
    <| slots := (fun s => match s with Some a => if p a then None else Some a | None => None end)
                  <$> slots r |>.

(** Stops the scope, drops every slot and forgets the chain. *)
Definition clear (r : ReceivePipeline) : ReceivePipeline :=
  let r := drop_where (fun _ => true) r in
  mk_pipeline (scope r) false (lineage r) (config r) (budget r) (ledger r) (state r) (failure r)
    None (active_slots r) (slots r) (last_now r) None None None None None.

Definition close (r : ReceivePipeline) : ReceivePipeline :=
  (clear (r <| lineage := false |>)) <| state := Closed |>.

(** [self.fail(error)]. *)
Definition fail_chain {A} (e : DeliveryError) : PM A := fun r =>
  let r := clear r in
  let r := r <| failure := Some e |> <| failure_at := last_now r |> in
  (Err e, if bool_decide (state r = Closed) then r else r <| state := NeedsRecovery |>).

Definition check_clock (now : Z) : PM unit := fun r =>
  if is_some_and (fun last => now <? last) (last_now r)
  then (Err ClockRegression, (close r) <| failure := Some ClockRegression |>)
  else (Ok tt, r <| last_now := Some now |>).

(** [matches!(state, NeedsRecovery | Closed)]. *)
Definition stopped (s : ReceiveState) : bool :=
  match s with NeedsRecovery | Closed => true | _ => false end.

Definition tick (now : Z) : PM unit :=
  _ ← check_clock now;
  method (fun r =>
    if negb (live r) && negb (stopped (state r)) then (Err WrongState, close r)
    else if stopped (state r) then (Err (default WrongState (failure r)), r)
    else if is_some_and (fun until => until <=? now) (recovery_until r) then fail_chain RecoveryExpired r
    else if is_some_and (fun p => if_deadline p <=? now) (in_flight r)
            || existsb (fun a => reference_until a <=? now) (flatten (slots r))
    then fail_chain ReferenceExpired r
    else (Ok tt, r)).

(** ** Configuration *)

Definition check_delivery_configuration (r : ReceivePipeline) (l : MediaLimits) (b : MediaBindings)
  (e : MediaEpoch) : Result DeliveryError unit :=
  if negb (live r) || bool_decide (state r = Closed) then Err WrongState
  else if negb (bool_decide (bindings (config r) = b)) || negb (bool_decide (epoch (config r) = e))
  then Err StaleGeneration
  else if negb (bool_decide (limits (config r) = l)) then Err DResourceLimit else Ok tt.

Definition window (r : ReceivePipeline) : Z := Limits.reassembly_window_pictures (protocol (limits (config r))).

Definition configure_frame_rate (fps : Z) : PM Z :=
  let in_range := (1 <=? fps) && (fps <=? 240) in
  _ ← refuse_if (fun r => negb (bool_decide (state r = AwaitingConfiguration)) || is_some (in_flight r)
                          || existsb is_some (slots r) || negb in_range)
                (fun _ => if in_range then WrongState else InvalidPolicy);
  numerator ← readr (fun r =>
    ok_or (v ← checked_mul u64_max fps (reference_budget_micros (policy (config r)));
           checked_add u64_max v 999999) InvalidPolicy);
  requested ← lift (ok_or (checked_add u64_max (numerator / 1000000) 2) InvalidPolicy);
  active ← gets (fun r => Z.min (Z.max requested 2) (window r));
  _ ← modify (fun r => r <| active_slots := Z.to_nat active |>);
  lift (if active <=? u8_max then Ok active else Err InvalidPolicy).

Definition decoder_configured (now : Z) : PM unit :=
  _ ← check_clock now;
  _ ← refuse_if (fun r => negb (bool_decide (state r = AwaitingConfiguration))) (fun _ => WrongState);
  until ← readr (fun r => deadline now (recovery_budget_micros (policy (config r))));
  modify (fun r => r <| recovery_until := Some until |> <| state := AwaitingRecovery |>).

(** ** The decoder's side of the scope *)

Record DecoderBinding := mk_binding { db_scope : Z; db_revoked : bool }.

Definition check_decoder_configuration (r : ReceivePipeline) (generation : Z) (l : Limits.ProtocolLimits)
  : Result DeliveryError unit :=
  if negb (bool_decide (state r = AwaitingConfiguration)) || negb (live r) then Err WrongState
  else if negb (generation =? e_configuration (epoch (config r))) then Err StaleGeneration
  else if negb (bool_decide (l = protocol (limits (config r)))) then Err DResourceLimit else Ok tt.

Definition bind_decoder (generation : Z) (l : Limits.ProtocolLimits) (now : Z) : PM DecoderBinding :=
  _ ← readr (fun r => check_decoder_configuration r generation l);
  _ ← decoder_configured now;
  gets (fun r => mk_binding (scope r) false).

(** [DecoderBinding::check], [check_picture] and [check_recovery]. *)
Definition check_binding (d : DecoderBinding) (r : ReceivePipeline) : Result DeliveryError unit :=
  if db_revoked d || negb (db_scope d =? scope r) || negb (live r) then Err DecodeMismatch else Ok tt.
Definition check_picture (d : DecoderBinding) (p : ReceivedPicture) (r : ReceivePipeline)
  : Result DeliveryError unit :=
  if db_revoked d || negb (db_scope d =? pic_scope p) || negb ((pic_scope p =? scope r) && live r)
  then Err DecodeMismatch else Ok tt.
Definition check_recovery (d : DecoderBinding) (r : ReceivePipeline) : Result DeliveryError unit :=
  if negb (db_scope d =? scope r) then Err DecodeMismatch
  else if db_revoked d || match state r with Closed | AwaitingConfiguration => true | _ => false end
  then Err WrongState else Ok tt.

(** ** Slots *)

Definition independent (a : Assembly) : bool :=
  complete a && negb (is_some (reliable_offset a)) && negb (is_some (reference (descriptor a))).

Definition frame_of (a : Assembly) : Z := frame (descriptor a).

(** [Iterator::max]. *)
Definition maximum (l : list Z) : option Z :=
  foldl (fun m x => Some (match m with Some y => Z.max y x | None => x end)) None l.

Definition queued_independent_frame (r : ReceivePipeline) : option Z :=
  if negb (bool_decide (state r = Streaming)) then None
  else maximum (frame_of <$> filter (fun a => independent a = true) (flatten (slots r))).

Definition obsolete (r : ReceivePipeline) (f : Z) : bool :=
  is_some_and (fun last => f <=? last) (last_decoded r)
  || is_some_and (fun p => f <=? if_frame p) (in_flight r)
  || is_some_and (fun newer => f <? newer) (queued_independent_frame r).

Definition discard_superseded (r : ReceivePipeline) : ReceivePipeline :=
  match queued_independent_frame r with
  | None => r
  | Some f => drop_where (fun a => frame_of a <? f) r
  end.

(** [iter().position(..)] over the slots. *)
Definition find_slot (p : option Assembly -> bool) (l : list (option Assembly)) : option nat := Prelude.position p l.

Definition holds_frame (f : Z) (s : option Assembly) : bool := is_some_and (fun a => frame_of a =? f) s.

(** A method of the shared ledger. *)
Definition on_ledger {A} (m : M Ledger DeliveryError A) : PM A := fun r =>
  let (res, l) := m (ledger r) in (res, r <| ledger := l |>).

Section arrivals.
Context `{Layout} (al : Allocator).

Definition slot (d : FrameDescriptor) (now : Z) (reliable : bool) : PM nat := fun r =>
  match find_slot (holds_frame (frame d)) (slots r) with
  | Some i =>
      match mjoin (slots r !! i) with
      | Some a => if negb (bool_decide (descriptor a = d)) || negb (Bool.eqb (is_some (reliable_offset a)) reliable)
                  then (Err ConflictingPicture, r) else (Ok i, r)
      | None => (Ok i, r)
      end
  | None =>
      (s ← lift (storage d reliable);
       let '(length, _, metadata) := s in
       _ ← readr (fun r => check_allocation (ledger r) length metadata);
       i ← readr (fun r => ok_or (find_slot (fun s => negb (is_some s)) (take (active_slots r) (slots r)))
                                 ReferenceCapacityExceeded);
       until ← readr (fun r => if reliable then u ← ok_or (recovery_until r) WrongState; Ok (Some u) else Ok None);
       c ← gets config;
       a ← on_ledger (Assembly.new al d c now until);
       _ ← modify (fun r => r <| slots := <[i := Some a]> (slots r) |>);
       mret i) r
  end.

(** The largest recovery access unit, while its descriptor is unknown. *)
Definition recovery_bytes (r : ReceivePipeline) : Result DeliveryError Z :=
  ok_or (checked_add usize_max (Limits.max_encoded_access_unit_bytes (protocol (limits (config r)))) struct_bytes)
        DResourceLimit.

Definition datagram_slot (d : FrameDescriptor) (now : Z) : PM (option nat) := fun r =>
  if negb (bool_decide (state r = AwaitingRecovery)) || is_some (recovery_frame r)
     || existsb (fun a => frame_of a =? frame d) (flatten (slots r))
  then (i ← slot d now false; mret (Some i)) r
  else
    (_ ← readr (fun r => from_wire (validate d (limits (config r))));
     s ← lift (storage d false);
     let '(length, _, metadata) := s in
     _ ← readr (fun r => check_allocation (ledger r) length metadata);
     reserve ← readr recovery_bytes;
     required ← lift (ok_or (n ← checked_add usize_max length metadata; checked_add usize_max n reserve)
                            DResourceLimit);
     room ← gets (fun r => negb ((active_slots r - 1 <=? Datatypes.length (flatten (slots r)))%nat)
                           && has_headroom (ledger r) required 2);
     if negb room then mret None
     else
       i ← slot d now false;
       kept ← gets (fun r => has_headroom (ledger r) reserve 1);
       if negb kept then
         _ ← modify (fun r =>
               match mjoin (slots r !! i) with
               | Some a => r <| slots := <[i := None]> (slots r) |> <| ledger := release (charged a) (ledger r) |>
               | None => r
               end);
         mret None
       else mret (Some i)) r.

(** A method of the assembly in slot [i], which [slot] has just found or filled: the
    [expect] of the callers does not fire. *)
Definition on_slot {A} (i : nat) (m : M Assembly DeliveryError A) : PM (option A) := fun r =>
  match mjoin (slots r !! i) with
  | Some a =>
      let (res, a) := m a in
      (match res with Ok x => Ok (Some x) | Err e => Err e end, r <| slots := <[i := Some a]> (slots r) |>)
  | None => (Ok None, r)
  end.

(** ** Messages *)

Definition on_fragment (f : Fragment) (now : Z) : PM ReceiveUpdate := fun r =>
  if obsolete r (frame (Media.descriptor f)) then (Ok Obsolete, r)
  else
    (index ← datagram_slot (Media.descriptor f) now;
     match index with
     | None => mret Deferred
     | Some i =>
         c ← gets config;
         update ← on_slot i (Assembly.fragment f now (repair_delay_micros (policy c)));
         let update := default Accepted update in
         _ ← modify (fun r => if bool_decide (update = PictureComplete) then discard_superseded r else r);
         mret update
     end) r.

Definition on_recovery (c : RecoveryChunk) (now : Z) : PM ReceiveUpdate :=
  _ ← refuse_if (fun r => negb (bool_decide (state r = AwaitingRecovery))) (fun _ => WrongState);
  _ ← refuse_if (fun r => is_some_and (fun f => negb (f =? c_frame c)) (recovery_frame r))
                (fun _ => ConflictingPicture);
  cfg ← gets config;
  let d := mk_descriptor (c_frame c) (c_total_bytes c) (fragment_stride (limits cfg)) (c_capture_micros c) None in
  i ← slot d now true;
  _ ← modify (fun r => r <| recovery_frame := Some (c_frame c) |>);
  update ← on_slot i (Assembly.recovery c (fragments (limits cfg)));
  mret (default Accepted update).

Definition on_progress (p : Progress) (now : Z) : PM ReceiveUpdate := fun r =>
  let d := p_descriptor p in
  if match pipeline p with Failed => true | _ => false end then (Err ReferenceExpired, r)
  else if is_some_and (fun old => frame d <? frame (p_descriptor old)) (latest r) then (Ok Obsolete, r)
  else if obsolete r (frame d) then (Ok Obsolete, r <| latest := Some p |>)
  else
    let reliable := bool_decide (state r = AwaitingRecovery) && negb (is_some (reference d))
                    && is_none_or (fun f => f =? frame d) (recovery_frame r) in
    (_ ← (if reliable then _ ← slot d now true; mret tt
          else i ← datagram_slot d now;
               match i with Some _ => mret tt | None => fail ReferenceCapacityExceeded end);
     _ ← modify (fun r => if reliable then r <| recovery_frame := Some (frame d) |> else r);
     _ ← modify (fun r => r <| latest := Some p |>);
     mret Accepted) r.

(** The [match] that turns the result of a handler into the result of [receive]. *)
Definition settle (res : Result DeliveryError ReceiveUpdate) : PM ReceiveUpdate := fun r =>
  match res with
  | Ok update => (Ok update, r)
  | Err WrongState => (Err WrongState, r)
  | Err ReferenceCapacityExceeded =>
      if negb (bool_decide (state r = Streaming)) then fail_chain DResourceLimit r
      else fail_chain ReferenceCapacityExceeded r
  | Err e => fail_chain e r
  end.

(** Decode with the wire codec, then handle. *)
Definition handle {A} (decoded : Result WireError A) (h : A -> PM ReceiveUpdate) : PM ReceiveUpdate :=
  a ← lift (from_wire decoded); h a.

Definition accepting (s : ReceiveState) : bool :=
  match s with AwaitingRecovery | DecodingRecovery | Streaming => true | _ => false end.

Definition receive (ch : Channel) (packet : bytes) (now : Z) : PM ReceiveUpdate := fun r =>
  match decode packet (limits (config r)) (for_channel (bindings (config r)) ch) ch with
  | Err InvalidBinding => (Err StaleGeneration, r)
  | Err e => fail_chain (DWire e) r
  | Ok record =>
      (_ ← tick now;
       _ ← refuse_if (fun r => negb (accepting (state r))) (fun _ => WrongState);
       method (fun r =>
         let l := limits (config r) in
         let (res, r) :=
           match ch with
           | Video => handle (decode_fragment record l) (fun f => on_fragment f now)
           | RecoveryChannel => handle (decode_recovery record l) (fun c => on_recovery c now)
           | MediaConfig => handle (decode_progress record l) (fun p => on_progress p now)
           | Control => fail (DWire WrongChannel)
           end r in
         settle res r)) r
  end.

End arrivals.

(** ** Decoding *)

(** May this complete assembly be decoded next? *)
Definition eligible (r : ReceivePipeline) (a : Assembly) : bool :=
  complete a &&
  match state r with
  | AwaitingRecovery => is_some (reliable_offset a) && bool_decide (recovery_frame r = Some (frame_of a))
  | Streaming => negb (is_some (reference (descriptor a))) || bool_decide (reference (descriptor a) = last_decoded r)
  | _ => false
  end.

(** [filter_map(..).min_by_key(|(_, frame)| *frame)]: the first of the least. *)
Fixpoint min_frame (p : Assembly -> bool) (i : nat) (l : list (option Assembly)) (best : option (nat * Assembly))
  : option (nat * Assembly) :=
  match l with
  | [] => best
  | s :: l =>
      min_frame p (S i) l
        (match s with
         | Some a => if p a && is_none_or (fun b => frame_of a <? frame_of (snd b)) best then Some (i, a) else best
         | None => best
         end)
  end.

Definition select (p : Assembly -> bool) (r : ReceivePipeline) : option (nat * Assembly) :=
  min_frame p 0 (slots r) None.

(** Slot [i], with the picture [a], is emptied and [a] is being decoded. *)
Definition hand_out (i : nat) (a : Assembly) (r : ReceivePipeline) : ReceivePipeline :=
  let r := r <| slots := <[i := None]> (slots r) |> in
  let r := if is_some (reference (descriptor a)) then r else drop_where (fun b => frame_of b <? frame_of a) r in
  let r := if bool_decide (state r = AwaitingRecovery) then r <| state := DecodingRecovery |> else r in
  r <| in_flight := Some (mk_in_flight (frame_of a) (reference_until a)) |>.

Definition take_decodable (now : Z) : PM (option ReceivedPicture) :=
  _ ← tick now;
  method (fun r =>
    if is_some (in_flight r) then (Ok None, r)
    else match select (eligible r) r with
    | None => (Ok None, r)
    | Some (i, a) =>
        let f := frame_of a in
        let r := hand_out i a r in
        let newest := is_none_or (fun p => frame (p_descriptor p) <=? f) (latest r)
                      && negb (existsb (fun b => f <? frame_of b) (flatten (slots r))) in
        (Ok (Some (mk_picture (scope r) (descriptor a) (epoch (config r)) (bindings (config r))
                     (now <? display_until a) newest (display_until a) (reference_until a)
                     (abytes a) (charged a) (budget r))), r)
    end).

Definition acknowledge_decode (p : ReceivedPicture) (success : bool) (now : Z) : PM unit :=
  _ ← refuse_if (fun r => negb (pic_scope p =? scope r) || negb (live r)
                          || negb (bool_decide (pic_epoch p = epoch (config r)))
                          || negb (bool_decide (pic_bindings p = bindings (config r)))
                          || negb (pic_budget p =? budget r))
                (fun _ => StaleGeneration);
  _ ← tick now;
  _ ← refuse_if (fun r => is_none_or (fun q => negb (if_frame q =? frame (pic_descriptor p))) (in_flight r))
                (fun _ => DecodeMismatch);
  if negb success then fail_chain DecodeFailed
  else
    _ ← modify (fun r => r <| last_decoded := Some (frame (pic_descriptor p)) |> <| in_flight := None |>
                           <| recovery_until := None |> <| state := Streaming |>);
    modify discard_superseded.

Definition complete_decode (p : ReceivedPicture) (now : Z) : PM DecodedFrame :=
  _ ← acknowledge_decode p true now;
  gets (fun r => mk_decoded (scope r) (pic_descriptor p) (pic_epoch p) (pic_bindings p) (pic_display_until p)).

(** ** Repairs *)

Definition wants_repair (r : ReceivePipeline) (now : Z) (a : Assembly) : bool :=
  negb (complete a) && negb (is_some (reliable_offset a)) && (repair_due a <=? now)
  && (repair_attempts a <? max_repair_attempts (policy (config r))).

Definition repair_capacity (l : MediaLimits) : nat :=
  Z.to_nat (Z.min (repair_ranges l) ((record_bytes l - 36) / 8)).

(** The offer and the request written to the caller's bytes. *)
Definition repair_offer (now : Z) (out : bytes) : PM (option (RepairOffer * bytes)) :=
  _ ← tick now;
  method (fun r =>
    match select (wants_repair r now) r with
    | None => (Ok None, r)
    | Some (i, a) =>
        let c := config r in
        match (ranges ← missing a (repair_capacity (limits c)) now;
               next ← deadline now (repair_interval_micros (policy c));
               count ← from_wire (fragment_count (descriptor a));
               let '(res, out) := encode_repair (frame_of a) ranges count (for_channel (bindings c) Control)
                                    (limits c) out in
               n ← from_wire res;
               Ok (n, next, out)) with
        | Err e => (Err e, r)
        | Ok (n, next, out) =>
            (Ok (Some (mk_offer n (frame_of a) (reference_until a), out)),
             r <| slots := <[i := Some (a <| next_repair := next |>
                                          <| repair_attempts := repair_attempts a + 1 |>)]> (slots r) |>)
        end
    end).

Definition repair_request (now : Z) (out : bytes) : PM (option Z) :=
  offer ← repair_offer now out; mret ((fun p => o_bytes (fst p)) <$> offer).

Definition repair_needed (r : ReceivePipeline) (f : Z) : bool :=
  live r && existsb (fun a => (frame_of a =? f) && negb (complete a) && negb (is_some (reliable_offset a)))
              (flatten (slots r)).

(** [Iterator::min]. *)
Definition minimum (l : list Z) : option Z :=
  foldl (fun m x => Some (match m with Some y => Z.min y x | None => x end)) None l.

Definition reference_deadline (r : ReceivePipeline) : option Z :=
  if stopped (state r) then None
  else minimum ((reference_until <$> flatten (slots r)) ++ option_list (recovery_until r)
                ++ option_list (if_deadline <$> in_flight r)).

Definition slot_deadline (r : ReceivePipeline) (a : Assembly) : Z :=
  if negb (complete a) && negb (is_some (reliable_offset a))
     && (repair_attempts a <? max_repair_attempts (policy (config r)))
  then Z.min (reference_until a) (repair_due a) else reference_until a.

Definition next_deadline (r : ReceivePipeline) : option Z :=
  if stopped (state r) then None
  else
    let least old candidate := Some (match old with Some y => Z.min y candidate | None => candidate end) in
    let next := foldl (fun next a => least next (slot_deadline r a)) (recovery_until r) (flatten (slots r)) in
    match in_flight r with Some p => least next (if_deadline p) | None => next end.

(** ** Replacement and other owners *)

Definition replace (e : MediaEpoch) (b : MediaBindings) (now : Z) : PM unit :=
  _ ← check_clock now;
  _ ← refuse_if (fun r => bool_decide (state r = Closed)) (fun _ => WrongState);
  _ ← refuse_if (fun r => negb (replaces e (epoch (config r))) || negb (all_newer_than b (bindings (config r))))
                (fun _ => StaleGeneration);
  modify (fun r =>
    let r := clear r in
    mk_pipeline (scope r + 1) true (lineage r) ((config r) <| epoch := e |> <| bindings := b |>) (budget r)
      (ledger r) AwaitingConfiguration None (failure_at r) (active_slots r) (slots r) (last_now r)
      (recovery_until r) (recovery_frame r) (last_decoded r) (in_flight r) (latest r)).

(** [ReceivedPicture::cancel_decode] and [DecoderBinding::revoke] on scope [s]. *)
Definition cancel (s : Z) (r : ReceivePipeline) : ReceivePipeline :=
  if s =? scope r then r <| live := false |> else r.

(** The drop of a picture that was handed out. *)
Definition drop_picture (p : ReceivedPicture) (r : ReceivePipeline) : ReceivePipeline :=
  r <| ledger := release (pic_charged p) (ledger r) |>.

End Receiver.
