(* ===== verification/ReceiverInv.v ===== *)
(** * The receiving pipeline: its invariant

    What holds of a receiver between two calls, for any predicate [Q] on assemblies
    that fresh ones satisfy and arrivals keep, and how a call may change the
    pictures it holds: every one of them was there before with the same deadlines,
    or begins now. *)

From S2P Require Import Prelude.
From S2P Require Import Bytes.
From S2P Require Import Limits.
From S2P Require Import WireRecord.
From S2P Require Import WireRecordProps.
From S2P Require Import WireMedia.
From S2P Require Import WireMediaProps.
From S2P Require Import Delivery.
From S2P Require Import Assembly.
From S2P Require Import AssemblyClaims.
From S2P Require Import Receiver.

Module ReceiverInv.
Import Media MediaProps Delivery Assembly AssemblyProps Receiver.

(** ** Slots *)

Abbreviation held r := (flatten (slots r)).

Lemma flatten_app {A} (l1 l2 : list (option A)) : flatten (l1 ++ l2) = flatten l1 ++ flatten l2.
Proof. unfold flatten. apply omap_app. Qed.

(** The contents of a slot, before the pictures that follow. *)
Definition cons_option {A} (o : option A) (l : list A) : list A := match o with Some a => a :: l | None => l end.

Lemma flatten_at {A} (l : list (option A)) i o :
  l !! i = Some o -> flatten l = flatten (take i l) ++ cons_option o (flatten (drop (S i) l)).
Proof.
  intros H. rewrite <- (take_drop_middle l i o H) at 1. rewrite flatten_app. by destruct o.
Qed.

Lemma flatten_insert {A} (l : list (option A)) i o :
  (i < length l)%nat -> flatten (<[i := o]> l) = flatten (take i l) ++ cons_option o (flatten (drop (S i) l)).
Proof.
  intros H. rewrite insert_take_drop by done. rewrite flatten_app. by destruct o.
Qed.

(** The slots without those that satisfy [p]. *)
Definition kept (p : Assembly -> bool) (l : list Assembly) : list Assembly := filter (fun a => p a = false) l.

Lemma drop_where_held p r : held (drop_where p r) = kept p (held r).
Proof.
  unfold drop_where, kept. cbn [slots upd setter]. induction (slots r) as [|[a|] l IH]; [done| |exact IH].
  change (flatten (Some a :: l)) with (a :: flatten l). rewrite filter_cons. cbn [fmap list_fmap].
  destruct (p a) eqn:E; [rewrite decide_False by congruence; exact IH|]. rewrite decide_True by done.
  change (a :: flatten ((fun s => match s with Some a => if p a then None else Some a | None => None end) <$> l)
          = a :: filter (fun a => p a = false) (flatten l)). f_equal. exact IH.
Qed.

Lemma kept_all l : kept (fun _ => true) l = [].
Proof. unfold kept. by induction l. Qed.

Lemma kept_elem p l a : a ∈ kept p l <-> a ∈ l /\ p a = false.
Proof. unfold kept. rewrite list_elem_of_filter. tauto. Qed.

(** Replace the assembly in slot [i] by one of the same picture. *)
Lemma held_update r i a a' b : slots r !! i = Some (Some a) -> NoDup (frame_of <$> held r) ->
  frame_of a' = frame_of a ->
  b ∈ held (r <| slots := <[i := Some a']> (slots r) |>) <-> b = a' \/ b ∈ held r /\ frame_of b <> frame_of a.
Proof.
  intros Hi Hd Hf. cbn [slots upd setter]. rewrite flatten_insert by (by eapply lookup_lt_Some).
  rewrite (flatten_at _ _ _ Hi) in *. cbn [cons_option] in *.
  rewrite fmap_app, fmap_cons in Hd. apply NoDup_app in Hd as (_ & Hd1 & Hd2).
  apply NoDup_cons in Hd2 as [Hd2 _].
  rewrite !elem_of_app, !elem_of_cons. split.
  - intros [Hb|[->|Hb]]; [right|by left|right]; (split; [tauto|]).
    + intros E. apply (Hd1 (frame_of b)); [by apply list_elem_of_fmap_2|]. rewrite E. apply list_elem_of_here.
    + intros E. apply Hd2. rewrite <- E. by apply list_elem_of_fmap_2.
  - intros [->|[[Hb|[->|Hb]] Hne]]; auto. by destruct Hne.
Qed.

Lemma held_at r i a : slots r !! i = Some (Some a) -> a ∈ held r.
Proof. intros Hi. apply elem_of_flatten. by eapply list_elem_of_lookup_2. Qed.

(** Put a fresh assembly into an empty slot. *)
Lemma held_insert r i a : slots r !! i = Some None ->
  flatten (<[i := Some a]> (slots r)) ≡ₚ a :: held r.
Proof.
  intros Hi. rewrite flatten_insert by (by eapply lookup_lt_Some). rewrite (flatten_at _ _ _ Hi). cbn.
  symmetry. apply Permutation_middle.
Qed.

(** ** What is charged *)

Fixpoint sum (l : list Assembly) : Z := match l with [] => 0 | a :: l => charged a + sum l end.
Lemma sum_app l1 l2 : sum (l1 ++ l2) = sum l1 + sum l2.
Proof. induction l1 as [|a l1 IH]; cbn; lia. Qed.

Lemma sum_perm l l' : l ≡ₚ l' -> sum l = sum l'.
Proof. induction 1; cbn; lia. Qed.

(** Outside the slots [eb] bytes and [en] pictures are charged. *)
Record accounted (eb en : Z) (l : list Assembly) (g : Ledger) : Prop := {
  ac_bytes : used_bytes g = eb + sum l;
  ac_pictures : used_pictures g = en + Z.of_nat (length l);
  ac_fits : used_bytes g <= max_bytes g /\ used_pictures g <= max_pictures g
}.

Lemma accounted_perm eb en l l' g : l ≡ₚ l' -> accounted eb en l g -> accounted eb en l' g.
Proof.
  intros Hp [Hb Hn Hf]. split; [by rewrite <- (sum_perm _ _ Hp)|by rewrite <- (Permutation_length Hp)|done].
Qed.

Lemma accounted_charge eb en l g a g' :
  accounted eb en l g -> charges g (charged a) g' -> accounted eb en (a :: l) g'.
Proof. intros [Hb Hn Hf] [Cb Cn Cm Cp Cf]. split; cbn [sum length]; [lia|lia|done]. Qed.

(** Every assembly has a positive charge, so giving one back stays within bounds. *)
Lemma accounted_release eb en l g a : 0 <= charged a ->
  accounted eb en (a :: l) g -> accounted eb en l (release (charged a) g).
Proof. intros Ha [Hb Hn Hf]. cbn [sum length] in *. split; cbn; lia. Qed.

Lemma accounted_drop p eb en l : forall g, Forall (fun a => 0 <= charged a) l -> accounted eb en l g ->
  accounted eb en (kept p l) (foldl (fun g a => release (charged a) g) g (filter (fun a => p a = true) l)).
Proof.
  (* both sides of the filter, in any order *)
  intros g Hc Hac.
  assert (forall l1 g, Forall (fun a => 0 <= charged a) l1 -> forall l2, accounted eb en (l1 ++ l2) g ->
    accounted eb en l2 (foldl (fun g a => release (charged a) g) g l1)) as Hfold.
  { intros l1. induction l1 as [|a l1 IH]; intros g1 Hl l2 H1; [done|]. inversion_clear Hl.
    cbn. apply IH; [done|]. by apply accounted_release. }
  apply Hfold.
  { apply Forall_forall. intros a [_ Ha]%list_elem_of_filter. rewrite Forall_forall in Hc. by apply Hc. } eapply accounted_perm; [|exact Hac]. clear.
  unfold kept. induction l as [|a l IH]; [done|]. rewrite !filter_cons. destruct (p a) eqn:E.
  - rewrite decide_True, decide_False by congruence. cbn. by rewrite <- IH.
  - rewrite decide_False, decide_True by congruence. rewrite IH at 1. apply Permutation_middle.
Qed.

Lemma budget_fits_released l : forall g p,
  budget_fits (foldl (fun g a => release (charged a) g) g l) p = budget_fits g p.
Proof. induction l as [|a l IH]; intros g p; [done|]. cbn. by rewrite IH. Qed.

(** ** The invariant *)

(** A property [Q] of assemblies with the descriptors, fragments and chunks it
    allows: a fresh assembly has it, and what arrives and repairs keep it. *)
Class Content `{Layout} (Q : Assembly -> Prop) (okd : FrameDescriptor -> Prop) (okf : Fragment -> Prop)
  (okc : RecoveryChunk -> Prop) : Prop := {
  Q_fresh d c now until a : okd d -> fresh d c now until a -> Q a;
  Q_fragment l a f now delay : wf l a -> fragment_typed f -> validate_fragment f l = Ok tt -> okf f ->
    descriptor a = Media.descriptor f -> Q a -> Q (snd (Assembly.fragment f now delay a));
  Q_recovery l a c max : wf l a -> chunk_typed c -> chunk_valid l c -> okc c ->
    frame_of a = c_frame c -> Q a -> Q (snd (Assembly.recovery c max a));
  Q_repair a next n : Q a -> Q (a <| next_repair := next |> <| repair_attempts := n |>);
  okf_descriptor f : okf f -> okd (Media.descriptor f);
  okc_descriptor c s : okc c -> okd (mk_descriptor (c_frame c) (c_total_bytes c) s (c_capture_micros c) None)
}.

Section invariant.
Context `{Layout} (Q : Assembly -> Prop).

(** An assembly a receiver with limits [l] may hold. *)
Record good (l : MediaLimits) (a : Assembly) : Prop := {
  gd_wf : wf l a;
  gd_charged : total_bytes (descriptor a) + struct_bytes <= charged a;
  gd_Q : Q a
}.

(** Newer than everything decoded or being decoded. *)
Definition newer (r : ReceivePipeline) (f : Z) : Prop :=
  is_some_and (fun last => f <=? last) (last_decoded r) = false
  /\ is_some_and (fun p => f <=? if_frame p) (in_flight r) = false.

(** Bindings as [MediaBindings::new] and [negotiated] make them. *)
Definition bindings_ok (b : MediaBindings) : Prop := forall ch, fits u32_max (for_channel b ch) /\ for_channel b ch <> 0.

(** What holds of the slots at every point of a method. *)
Record base (eb en : Z) (r : ReceivePipeline) : Prop := {
  bs_limits : limits_ok (limits (config r));
  bs_bindings : bindings_ok (bindings (config r));
  bs_policy : validate_policy (policy (config r)) = Ok tt;
  bs_slots : length (slots r) = SLOTS;
  bs_active : (2 <= active_slots r)%nat /\ Z.of_nat (active_slots r) <= window r;
  bs_beyond : flatten (drop (active_slots r) (slots r)) = [];
  bs_good a : a ∈ held r -> good (limits (config r)) a;
  bs_distinct : NoDup (frame_of <$> held r);
  bs_ledger : accounted eb en (held r) (ledger r);
  bs_budget : budget_fits (ledger r) (protocol (limits (config r))) = true
}.

(** What holds of the state machine between calls. *)
Record phases (r : ReceivePipeline) : Prop := {
  (** The only reliable picture is the one the recovery waits for. *)
  ph_reliable a : a ∈ held r -> is_some (reliable_offset a) = true ->
    state r = AwaitingRecovery /\ recovery_frame r = Some (frame_of a) /\ reference (descriptor a) = None;
  (** A complete picture without a reference is newer than what was decoded. *)
  ph_order a : a ∈ held r -> independent a = true -> newer r (frame_of a);
  ph_idle : accepting (state r) = false -> held r = [] /\ in_flight r = None /\ last_decoded r = None
                                            /\ recovery_until r = None;
  ph_awaiting : state r = AwaitingRecovery -> in_flight r = None /\ last_decoded r = None;
  ph_decoding : state r = DecodingRecovery -> last_decoded r = None
}.

Definition inv (eb en : Z) (r : ReceivePipeline) : Prop := base eb en r /\ phases r.

(** Where the pictures held after a call come from: [now] is the time of the call. *)
Definition born (now : Z) (r : ReceivePipeline) (a : Assembly) : Prop :=
  display_until a = now + display_budget_micros (policy (config r))
  /\ reference_until a = now + reference_budget_micros (policy (config r))
  \/ is_some (reliable_offset a) = true /\ recovery_until r = Some (reference_until a).

Definition evolves (now : Z) (r r' : ReceivePipeline) : Prop :=
  forall a', a' ∈ held r' -> (exists a, a ∈ held r /\ same_picture a a') \/ born now r a'.

Lemma evolves_refl now r : evolves now r r.
Proof. intros a Ha. left. by exists a. Qed.

(** Calls within one method share the clock, the policy and the recovery deadline. *)
Lemma born_same now r r1 a a' : config r1 = config r -> recovery_until r1 = recovery_until r ->
  same_picture a a' -> born now r1 a -> born now r a'.
Proof.
  intros Hc Hr [_ _ Hk Hd Hf]. unfold born. rewrite Hc, Hr, Hk, Hd, Hf. done.
Qed.

Lemma evolves_trans now r r1 r2 : config r1 = config r -> recovery_until r1 = recovery_until r ->
  evolves now r r1 -> evolves now r1 r2 -> evolves now r r2.
Proof.
  intros Hc Hr H1 H2 a2 Ha2. destruct (H2 a2 Ha2) as [(a1 & Ha1 & Hs)|Hb].
  - destruct (H1 a1 Ha1) as [(a & Ha & Hs')|Hb]; [left; exists a; split; [done|by etrans]|right].
    exact (born_same now r r a1 a2 eq_refl eq_refl Hs Hb).
  - right. exact (born_same now r r1 a2 a2 Hc Hr (reflexivity a2) Hb).
Qed.

(** A receiver that only lost pictures. *)
Lemma evolves_subset now r r' : (forall a, a ∈ held r' -> a ∈ held r) -> evolves now r r'.
Proof. intros Hs a Ha. left. exists a. split; [by apply Hs|done]. Qed.

Lemma good_charged l a : good l a -> 0 <= charged a.
Proof using All.
  intros [[Ht Hv _ _] Hc _]. pose proof (descriptor_positive _ _ Ht Hv). pose proof struct_bytes_nonneg. lia.
Qed.

(** ** Changing the slots *)

Lemma base_charged eb en r : base eb en r -> Forall (fun a => 0 <= charged a) (held r).
Proof using All. intros Hb. apply Forall_forall. intros a Ha. eapply good_charged. by apply (bs_good _ _ _ Hb). Qed.

Lemma base_drop eb en r p : base eb en r -> base eb en (drop_where p r).
Proof using All.
  intros Hb. pose proof (base_charged _ _ _ Hb) as Hch. pose proof Hb as [Hl Hbi Hpo Hs Ha Hbe Hg Hd Hled Hbud].
  split; try done.
  - cbn. by rewrite length_fmap.
  - change (active_slots (drop_where p r)) with (active_slots r).
    assert (flatten (drop (active_slots r) (slots (drop_where p r))) = kept p (flatten (drop (active_slots r) (slots r)))) as ->.
    { cbn [drop_where slots upd setter]. rewrite <- fmap_drop.
      exact (drop_where_held p (r <| slots := drop (active_slots r) (slots r) |>)). }
    by rewrite Hbe.
  - intros a. rewrite drop_where_held, kept_elem. intros [? _]. by apply Hg.
  - rewrite drop_where_held. unfold kept. eapply sublist_NoDup; [exact Hd|]. by apply fmap_sublist, sublist_filter.
  - rewrite drop_where_held. by apply accounted_drop.
  - cbn. rewrite <- Hbud. apply budget_fits_released.
Qed.

Lemma active_index eb en r i a : base eb en r -> slots r !! i = Some (Some a) -> (i < active_slots r)%nat.
Proof using All.
  intros Hb Hi. destruct (decide (i < active_slots r)%nat); [done|]. exfalso.
  assert (a ∈ flatten (drop (active_slots r) (slots r))) as Hin.
  { apply elem_of_flatten. apply (list_elem_of_lookup_2 _ (i - active_slots r)). rewrite lookup_drop, <- Hi. f_equal. lia. }
  rewrite (bs_beyond _ _ _ Hb) in Hin. by apply not_elem_of_nil in Hin.
Qed.

Lemma base_update eb en r i a a' : base eb en r -> slots r !! i = Some (Some a) ->
  good (limits (config r)) a' -> frame_of a' = frame_of a -> charged a' = charged a ->
  base eb en (r <| slots := <[i := Some a']> (slots r) |>).
Proof using All.
  intros Hb Hi Hg' Hf Hc. pose proof (active_index _ _ _ _ _ Hb Hi) as Hact.
  pose proof (lookup_lt_Some _ _ _ Hi) as Hlt. pose proof Hb as [Hl Hbi Hpo Hs Ha Hbe Hg Hd Hled Hbud].
  assert (frame_of <$> held (r <| slots := <[i := Some a']> (slots r) |>) = frame_of <$> held r) as Hframes.
  { cbn [slots upd setter]. rewrite flatten_insert, (flatten_at _ _ _ Hi), !fmap_app by done. cbn. by rewrite Hf. }
  split; try done.
  - cbn. by rewrite length_insert.
  - cbn [slots upd setter]. by rewrite drop_insert_lt.
  - intros b. rewrite held_update by done. intros [->|[? _]]; [done|by apply Hg].
  - by rewrite Hframes.
  - destruct Hled as [L1 L2 L3]. cbn [slots upd setter ledger]. rewrite (flatten_at _ _ _ Hi) in L1, L2.
    split; [|by rewrite flatten_insert, L2, !length_app by done|done].
    rewrite flatten_insert, L1, !sum_app by done. cbn. lia.
Qed.

Lemma base_insert eb en r i a g : base eb en r -> slots r !! i = Some None -> (i < active_slots r)%nat ->
  good (limits (config r)) a -> (forall b, b ∈ held r -> frame_of b <> frame_of a) -> charges (ledger r) (charged a) g ->
  base eb en (r <| ledger := g |> <| slots := <[i := Some a]> (slots r) |>).
Proof using All.
  intros Hb Hi Hact Hga Hnew Hc. pose proof Hb as [Hl Hbi Hpo Hs Ha Hbe Hg Hd Hled Hbud].
  pose proof (held_insert r i a Hi) as Hperm.
  split; try done.
  - cbn. by rewrite length_insert.
  - cbn [slots upd setter]. by rewrite drop_insert_lt.
  - intros b Hin. cbn [slots upd setter] in Hin. rewrite Hperm in Hin. apply elem_of_cons in Hin as [->|?]; [done|by apply Hg].
  - cbn [slots upd setter]. rewrite Hperm. cbn. apply NoDup_cons. split; [|done].
    intros (b & Hb1 & Hb2)%list_elem_of_fmap. by apply (Hnew b).
  - cbn [slots upd setter ledger]. eapply accounted_perm; [symmetry; exact Hperm|]. by eapply accounted_charge.
  - cbn [ledger upd setter]. destruct Hc as [_ _ E1 E2 _]. unfold budget_fits in *. cbn. by rewrite E1, E2.
Qed.

End invariant.

End ReceiverInv.
