(* ===== verification/ReceiverSteps.v ===== *)
(** * The receiving pipeline: every method keeps the invariant

    For each method of the receiver, what it does to the slots, that it keeps the
    invariant on every branch, and that it gives no picture it keeps a new
    deadline. *)

From S2P Require Import Prelude.
From S2P Require Import Bytes.
From S2P Require Import Limits.
From S2P Require Import WireRecord.
From S2P Require Import WireRecordProps.
From S2P Require Import WireMedia.
From S2P Require Import WireMediaProps.
From S2P Require Import Delivery.
From S2P Require Import Assembly.
From S2P Require Import AssemblyClaims.
From S2P Require Import Receiver.
From S2P Require Import ReceiverInv.

Module ReceiverSteps.
Import Media MediaProps Delivery Assembly AssemblyProps Receiver ReceiverInv.

(** Project the fields of an updated receiver. *)
Ltac fields :=
 
  cbn [scope live lineage config budget ledger state failure failure_at active_slots slots last_now
       recovery_until recovery_frame last_decoded in_flight latest upd setter fst snd] in *.

(** Only the slots and the ledger differ. *)
Definition framed (r r' : ReceivePipeline) : Prop := r' = r <| ledger := ledger r' |> <| slots := slots r' |>.

Lemma framed_refl r : framed r r.
Proof. by destruct r. Qed.

Lemma framed_trans r r1 r2 : framed r r1 -> framed r1 r2 -> framed r r2.
Proof. intros -> ->. unfold framed. done. Qed.

Lemma drop_where_framed p r : framed r (drop_where p r).
Proof. done. Qed.

Lemma discard_framed r : framed r (discard_superseded r).
Proof. unfold discard_superseded. destruct (queued_independent_frame r); [done|apply framed_refl]. Qed.

Lemma discard_held r a : a ∈ held (discard_superseded r) -> a ∈ held r.
Proof.
  unfold discard_superseded. destruct (queued_independent_frame r); [|done].
  rewrite drop_where_held, kept_elem. by intros [? _].
Qed.

(** ** Phases *)

Lemma phases_same r r' : slots r' = slots r -> state r' = state r -> recovery_frame r' = recovery_frame r ->
  in_flight r' = in_flight r -> last_decoded r' = last_decoded r -> recovery_until r' = recovery_until r ->
  phases r -> phases r'.
Proof.
  intros H1 H2 H3 H4 H5 H6 [P1 P2 P3 P4 P5].
  split; unfold newer in *; rewrite ?H1, ?H2, ?H3, ?H4, ?H5, ?H6; done.
Qed.

Lemma phases_idle r : accepting (state r) = false -> held r = [] -> in_flight r = None -> last_decoded r = None ->
  recovery_until r = None -> phases r.
Proof.
  intros Ha Hh Hi Hl Hu. split; try done; rewrite ?Hh.
  - by intros a ?%not_elem_of_nil.
  - by intros a ?%not_elem_of_nil.
Qed.

(** A picture that may join the slots. *)
Definition welcome (r : ReceivePipeline) (a : Assembly) : Prop :=
  (is_some (reliable_offset a) = true ->
     state r = AwaitingRecovery /\ recovery_frame r = Some (frame_of a) /\ reference (descriptor a) = None)
  /\ (independent a = true -> newer r (frame_of a)).

Lemma phases_framed r r' : framed r r' -> phases r -> accepting (state r) = true ->
  (forall a, a ∈ held r' -> a ∈ held r \/ welcome r a) -> phases r'.
Proof.
  intros Hf [P1 P2 P3 P4 P5] Hacc Hin. rewrite Hf. split; try done.
  - intros a Ha. destruct (Hin a) as [?|[Hw _]]; [by rewrite Hf|by apply P1|done].
  - intros a Ha. destruct (Hin a) as [?|[_ Hw]]; [by rewrite Hf|by apply P2|done].
  - cbn. by rewrite Hacc.
Qed.

Lemma phases_subset r r' : framed r r' -> phases r -> (forall a, a ∈ held r' -> a ∈ held r) -> phases r'.
Proof.
  intros Hf [P1 P2 P3 P4 P5] Hin. rewrite Hf. split; try done.
  - intros a Ha. apply P1. apply Hin. by rewrite Hf.
  - intros a Ha. apply P2. apply Hin. by rewrite Hf.
  - intros Hacc. destruct (P3 Hacc) as (Hh & ?). split; [|done]. rewrite <- Hf. rewrite Hh in Hin.
    destruct (held r') as [|a l]; [done|]. by pose proof (Hin a (list_elem_of_here _ _)) as ?%not_elem_of_nil.
Qed.

Section steps.
Context `{Layout} {Q : Assembly -> Prop} {okd : FrameDescriptor -> Prop} {okf : Fragment -> Prop}
  {okc : RecoveryChunk -> Prop} `{!Content Q okd okf okc}.
Context (eb en : Z).

Abbreviation base := (base Q eb en).
Abbreviation inv := (inv Q eb en).

Lemma base_same r r' : config r' = config r -> slots r' = slots r -> active_slots r' = active_slots r ->
  ledger r' = ledger r -> base r -> base r'.
Proof.
  intros H1 H2 H3 H4 []. split; unfold window in *; rewrite ?H1, ?H2, ?H3, ?H4; done.
Qed.

(** ** Giving up *)

Lemma clear_base r : base r -> base (clear r) /\ held (clear r) = [].
Proof.
  intros Hb. split.
  - by apply (base_same (drop_where (fun _ => true) r)); try apply base_drop.
  - exact (eq_trans (drop_where_held (fun _ => true) r) (kept_all _)).
Qed.

(** A receiver that gave its pictures up. *)
Lemma cleared_inv r r' : base r -> accepting (state r') = false ->
  config r' = config r -> slots r' = slots (clear r) -> active_slots r' = active_slots r ->
  ledger r' = ledger (clear r) -> in_flight r' = None -> last_decoded r' = None -> recovery_until r' = None ->
  inv r' /\ held r' = [].
Proof.
  intros Hb Ha Hc Hs Hact Hl Hi Hd Hu. destruct (clear_base r Hb) as [Hc' Hh].
  assert (held r' = []) as Hh' by by rewrite Hs. split; [|done]. split; [by apply (base_same (clear r))|].
  by apply phases_idle.
Qed.

Lemma close_inv r : base r -> inv (close r) /\ held (close r) = [].
Proof. intros Hb. by apply (cleared_inv r). Qed.

Lemma fail_inv {A} e r : base r ->
  inv (snd (fail_chain (A := A) e r)) /\ held (snd (fail_chain (A := A) e r)) = [].
Proof.
  intros Hb. unfold fail_chain. cbn [snd]. case_bool_decide as Hs; apply (cleared_inv r); unfold clear in *;
    fields; try done. by rewrite Hs.
Qed.

Lemma fail_stopped {A} e r : stopped (state (snd (fail_chain (A := A) e r))) = true.
Proof.
  unfold fail_chain, clear, drop_where. fields. case_bool_decide as E; fields; [|reflexivity]. rewrite E. reflexivity.
Qed.

Lemma stopped_accepting s : accepting s = true -> stopped s = false.
Proof. by destruct s. Qed.

(** ** The clock *)

Lemma inv_same r r' : config r' = config r -> slots r' = slots r -> active_slots r' = active_slots r ->
  ledger r' = ledger r -> state r' = state r -> recovery_frame r' = recovery_frame r ->
  in_flight r' = in_flight r -> last_decoded r' = last_decoded r -> recovery_until r' = recovery_until r ->
  inv r -> inv r'.
Proof. intros ????????? [Hb Hp]. split; [by apply (base_same r)|by apply (phases_same r)]. Qed.

(** The receiver after a successful [check_clock]. *)
Abbreviation at_time now r := (r <| last_now := Some now |>).

Lemma check_clock_spec now r : inv r ->
  wp (check_clock now) r (fun res r' =>
    match res with
    | Ok _ => r' = at_time now r /\ is_some_and (fun last => now <? last) (last_now r) = false
    | Err e => e = ClockRegression /\ inv r' /\ held r' = [] /\ state r' = Closed
    end).
Proof.
  intros [Hb _]. unfold wp, check_clock. destruct (is_some_and _ _) eqn:E; cbn [fst snd]; [|done].
  destruct (close_inv r Hb) as [Hi Hh]. split; [done|].
  split; [apply (inv_same (close r)); fields; [reflexivity..|exact Hi]|].
  fields. split; [exact Hh|reflexivity].
Qed.

(** Nothing the receiver holds or waits for is past its deadline. *)
Record timely (now : Z) (r : ReceivePipeline) : Prop := {
  tm_clock : is_some_and (fun last => now <? last) (last_now r) = false;
  tm_live : live r = true;
  tm_state : stopped (state r) = false;
  tm_recovery : is_some_and (fun until => until <=? now) (recovery_until r) = false;
  tm_in_flight : is_some_and (fun p => if_deadline p <=? now) (in_flight r) = false;
  tm_reference a : a ∈ held r -> now < reference_until a
}.

(** The part of [tick] after [check_clock]. *)
Definition timely_now (now : Z) (r : ReceivePipeline) : Prop :=
  live r = true /\ stopped (state r) = false
  /\ is_some_and (fun until => until <=? now) (recovery_until r) = false
  /\ is_some_and (fun p => if_deadline p <=? now) (in_flight r) = false
  /\ forall a, a ∈ held r -> now < reference_until a.

Lemma tick_deadlines now r : inv r ->
  wp (method (fun r =>
    if negb (live r) && negb (stopped (state r)) then (Err WrongState, close r)
    else if stopped (state r) then (Err (default WrongState (failure r)), r)
    else if is_some_and (fun until => until <=? now) (recovery_until r) then fail_chain RecoveryExpired r
    else if is_some_and (fun p => if_deadline p <=? now) (in_flight r)
            || existsb (fun a => reference_until a <=? now) (flatten (slots r))
    then fail_chain ReferenceExpired r
    else (Ok tt, r))) r (fun res r' =>
    match res with
    | Ok _ => r' = r /\ timely_now now r
    | Err _ => inv r' /\ (forall a, a ∈ held r' -> a ∈ held r) /\ stopped (state r') = true
    end).
Proof.
  intros [Hb Hp]. unfold wp, method.
  assert (forall a, a ∈ @nil Assembly -> a ∈ held r) as Hnil by (by intros a ?%not_elem_of_nil).
  destruct (live r) eqn:Hlive; cbn [negb andb].
  - destruct (stopped (state r)) eqn:Hst; cbn [fst snd]; [by split_and!|].
    destruct (is_some_and _ (recovery_until r)) eqn:Hr.
    { destruct (fail_inv (A := unit) RecoveryExpired _ Hb) as [Hf Hh]. split; [exact Hf|]. split; [by rewrite Hh|].
      apply fail_stopped. }
    destruct (is_some_and _ (in_flight r) || _) eqn:Hd.
    { destruct (fail_inv (A := unit) ReferenceExpired _ Hb) as [Hf Hh]. split; [exact Hf|]. split; [by rewrite Hh|].
      apply fail_stopped. }
    apply orb_false_iff in Hd as [Hd1 Hd2]. split; [done|]. split_and!; try done.
    intros a Ha. destruct (Z.ltb_spec now (reference_until a)); [done|].
    assert (existsb (fun a => reference_until a <=? now) (held r) = true); [|congruence].
    apply existsb_exists. exists a. split; [by apply list_elem_of_In|lia].
  - destruct (stopped (state r)) eqn:Hst; cbn [negb fst snd]; [by split_and!|].
    destruct (close_inv _ Hb) as [Hc Hh]. split; [exact Hc|]. split; [by rewrite Hh|reflexivity].
Qed.

Lemma tick_spec now r : inv r ->
  wp (tick now) r (fun res r' =>
    match res with
    | Ok _ => r' = at_time now r /\ timely now r
    | Err e => inv r' /\ (forall a, a ∈ held r' -> a ∈ held r) /\ stopped (state r') = true
    end).
Proof.
  intros Hi. unfold tick. apply wp_bind. eapply wp_mono; [by apply check_clock_spec|]. cbv beta.
  intros [[]|e] r'; [|intros (_ & ? & Hh & Hs); rewrite Hh, Hs; split_and!; [done| |done];
                      by intros a ?%not_elem_of_nil].
  intros [-> Hclock]. eapply wp_mono; [apply tick_deadlines; by apply (inv_same r)|]. cbv beta.
  intros [[]|e] r'; [|done]. intros [-> (H1 & H2 & H3 & H4 & H5)]. split; [done|]. by split.
Qed.

(** ** Slots *)

(** A fresh assembly in a free slot, within the budget. *)
Record opened (d : FrameDescriptor) (now : Z) (reliable : bool) (r : ReceivePipeline) (i : nat) (a : Assembly)
  (g : Ledger) (until : option Z) : Prop := {
  op_free : slots r !! i = Some None;
  op_active : (i < active_slots r)%nat;
  op_charges : charges (ledger r) (charged a) g;
  op_fresh : fresh d (config r) now until a;
  op_until : if reliable then is_some until = true /\ recovery_until r = until else until = None;
  op_new b : b ∈ held r -> frame_of b <> frame d
}.

(** Slot [i] holds the picture [d]: found, or opened now. *)
Inductive placed (d : FrameDescriptor) (now : Z) (reliable : bool) (r : ReceivePipeline) (i : nat) : ReceivePipeline -> Prop :=
| placed_found a : slots r !! i = Some (Some a) -> descriptor a = d -> is_some (reliable_offset a) = reliable ->
    placed d now reliable r i r
| placed_opened a g until : opened d now reliable r i a g until ->
    placed d now reliable r i (r <| ledger := g |> <| slots := <[i := Some a]> (slots r) |>).

Lemma slot_spec al d now reliable r : descriptor_typed d ->
  wp (slot al d now reliable) r (fun res r' =>
    match res with
    | Err _ => r' = r
    | Ok i => placed d now reliable r i r'
    end).
Proof.
  intros Ht. destruct (find_slot (holds_frame (frame d)) (slots r)) as [i|] eqn:Ef.
  - unfold wp, slot. rewrite Ef.
    apply position_Some in Ef as (o & Hi & Ho & _). rewrite Hi. cbn [mjoin option_join].
    destruct o as [a|]; [|done]. destruct (_ || _) eqn:E; [done|]. cbn [fst snd].
    apply orb_false_iff in E as [E1%negb_false_iff%bool_decide_eq_true_1 E2%negb_false_iff%eqb_prop].
    by eapply placed_found.
  - eapply wp_eq; [unfold slot; rewrite Ef; reflexivity|]. unfold find_slot in Ef. rewrite position_None in Ef.
    apply wp_lift. destruct (storage d reliable) as [[[n w] m]|e] eqn:Es; [|done].
    apply wp_readr. destruct (check_allocation (ledger r) n m) as [[]|e]; [|done].
    apply wp_readr. destruct (find_slot _ (take (active_slots r) (slots r))) as [i|] eqn:Ei; cbn [ok_or]; [|done].
    apply wp_readr. destruct (if reliable then _ else _) as [until|e] eqn:Eu; [|done].
    apply wp_gets, wp_bind. unfold wp at 1, on_ledger.
    pose proof (new_spec al d (config r) now until (ledger r) Ht) as Hn.
    destruct (Assembly.new al d (config r) now until (ledger r)) as [[a|e] g]; [|subst g; by destruct r].
    destruct Hn as [Hc Hf]. cbn [fst snd]. apply wp_modify.
    change (placed d now reliable r i (r <| ledger := g |> <| slots := <[i := Some a]> (slots r) |>)).
    apply (placed_opened _ _ _ _ _ a g until).
    apply position_Some in Ei as (o & Hi & Ho & _). apply lookup_take_Some in Hi as [Hi Hlt].
    split; try done.
    + by destruct o.
    + destruct reliable; [|by injection Eu as <-]. cbn in Eu. destruct (recovery_until r); [|done]. by injection Eu as <-.
    + intros b Hb. apply elem_of_flatten in Hb. specialize (Ef _ Hb). cbn in Ef. lia.
Qed.

Lemma opened_empty d now reliable r i a g until : opened d now reliable r i a g until ->
  complete a = false /\ descriptor a = d /\ is_some (reliable_offset a) = reliable.
Proof.
  intros [_ _ _ [[Ht Hv _ _] Hd Hk He _ _ _ _ _] Hu _]. split_and!.
  - unfold complete. rewrite He. pose proof (descriptor_positive _ _ Ht Hv). apply Z.eqb_neq. lia.
  - done.
  - rewrite Hk. destruct reliable; [by destruct Hu|by rewrite Hu].
Qed.

Lemma opened_born d now reliable r i a g until : opened d now reliable r i a g until -> born now r a.
Proof.
  intros Ho. destruct (opened_empty _ _ _ _ _ _ _ _ Ho) as (_ & _ & Hk).
  destruct Ho as [_ _ _ [_ _ _ _ _ Hd Hr _ _] Hu _]. unfold born. destruct reliable.
  - right. split; [done|]. destruct Hu as [Hs ->]. destruct until; [|done]. by rewrite Hr.
  - left. rewrite Hu in Hr. done.
Qed.

Lemma opened_base d now reliable r i a g until : okd d -> base r -> opened d now reliable r i a g until ->
  base (r <| ledger := g |> <| slots := <[i := Some a]> (slots r) |>).
Proof using All.
  intros Hd Hb Ho. destruct (opened_empty _ _ _ _ _ _ _ _ Ho) as (_ & Hf & _). destruct Ho as [Ho Ha Hc Hfr _ Hn].
  apply (base_insert Q eb en r i a g Hb); try done.
  - split; [by apply Hfr| |by eapply Q_fresh]. rewrite (fs_descriptor _ _ _ _ _ Hfr). apply Hfr.
  - unfold frame_of at 2. rewrite Hf. done.
Qed.

Lemma datagram_slot_spec al d now r : descriptor_typed d ->
  wp (datagram_slot al d now) r (fun res r' =>
    match res with
    | Ok (Some i) => placed d now false r i r'
    | Ok None | Err _ => r' = r
    end).
Proof.
  intros Ht. destruct (negb (bool_decide (state r = AwaitingRecovery)) || is_some (recovery_frame r)
     || existsb (fun a => frame_of a =? frame d) (flatten (slots r))) eqn:E.
  { eapply wp_eq; [unfold datagram_slot; rewrite E; reflexivity|]. apply wp_bind.
    eapply wp_mono; [by apply slot_spec|]. cbv beta. by intros [i|e] r'. }
  eapply wp_eq; [unfold datagram_slot; rewrite E; reflexivity|]. apply orb_false_iff in E as [_ E].
  apply wp_readr. destruct (from_wire _) as [[]|e]; [|done].
  apply wp_lift. destruct (storage d false) as [[[n w] m]|e]; [|done].
  apply wp_readr. destruct (check_allocation (ledger r) n m) as [[]|e]; [|done].
  apply wp_readr. destruct (recovery_bytes r) as [res|e]; [|done].
  apply wp_lift. destruct (ok_or _ _) as [required|e]; [|done].
  apply wp_gets. destruct (negb (_ && _)); [done|].
  apply wp_bind. eapply wp_mono; [by apply slot_spec|]. cbv beta. intros [i|e] r'; [|done]. intros Hp.
  apply wp_gets. destruct (has_headroom (ledger r') res 1); [done|]. cbn [negb]. apply wp_modify.
  unfold wp, mret, M_ret. cbn [fst snd]. destruct Hp as [a Ha Hd _|a g until Ho].
  - exfalso. assert (existsb (fun a => frame_of a =? frame d) (held r) = true); [|congruence].
    apply existsb_exists. exists a. split; [by apply list_elem_of_In, (held_at _ i)|]. unfold frame_of. rewrite Hd. lia.
  - fields. destruct Ho as [Ho _ Hc _ _ _]. rewrite list_lookup_insert_eq by (by eapply lookup_lt_Some).
    cbn [mjoin option_join]. fields. rewrite list_insert_insert_eq, (list_insert_id _ _ _ Ho), (release_charges _ _ _ Hc).
    by destruct r.
Qed.

(** ** Messages *)

(** What a placement keeps. *)
Lemma placed_keeps d now reliable r i r' : okd d -> base r -> placed d now reliable r i r' ->
  base r' /\ framed r r'
  /\ (forall b, b ∈ held r' -> b ∈ held r \/ complete b = false /\ descriptor b = d
                                             /\ is_some (reliable_offset b) = reliable /\ born now r b)
  /\ exists a, slots r' !! i = Some (Some a) /\ descriptor a = d /\ is_some (reliable_offset a) = reliable.
Proof using All.
  intros Hd Hb [a Ha Hda Hk|a g until Ho].
  - split_and!; [done|apply framed_refl|by left|by exists a].
  - pose proof (opened_base _ _ _ _ _ _ _ _ Hd Hb Ho) as Hb'. pose proof (opened_born _ _ _ _ _ _ _ _ Ho) as Hbo.
    destruct (opened_empty _ _ _ _ _ _ _ _ Ho) as (Hc & Hf & Hk). split; [done|]. split; [done|]. split.
    + intros b. fields. rewrite (held_insert r i a) by apply Ho. intros [->|?]%elem_of_cons; [by right|by left].
    + exists a. fields. rewrite list_lookup_insert_eq by (eapply lookup_lt_Some, Ho). split_and!; [done| |done].
      apply (fs_descriptor _ _ _ _ _ (op_fresh _ _ _ _ _ _ _ _ Ho)).
Qed.

(** An arrival in slot [i]. *)
Lemma update_slot r i a a' : base r -> slots r !! i = Some (Some a) -> wf (limits (config r)) a' -> same_picture a a' ->
  Q a' -> base (r <| slots := <[i := Some a']> (slots r) |>)
          /\ forall b, b ∈ held (r <| slots := <[i := Some a']> (slots r) |>) -> b = a' \/ b ∈ held r.
Proof using All.
  intros Hb Hi Hw Hs Hq. assert (frame_of a' = frame_of a) as Hf by (unfold frame_of; by rewrite (sp_descriptor _ _ Hs)).
  split.
  - apply (base_update Q eb en r i a a' Hb Hi); [|done|by apply Hs]. split; [done| |done].
    rewrite (sp_descriptor _ _ Hs), (sp_charged _ _ Hs). apply (bs_good _ _ _ _ Hb). by eapply held_at.
  - intros b. rewrite (held_update r i a) by (done || apply Hb). intros [?|[? _]]; auto.
Qed.

(** Where the pictures of [r'] come from, when one of them, [a'], continues [a] of [r1]. *)
Lemma evolves_arrival now r r1 r' a a' : (forall b, b ∈ held r1 -> b ∈ held r \/ born now r b) -> a ∈ held r1 ->
  same_picture a a' -> (forall b, b ∈ held r' -> b = a' \/ b ∈ held r1) -> evolves now r r'.
Proof.
  intros H1 Ha Hs Hin b Hb. destruct (Hin b Hb) as [->|Hb1].
  - destruct (H1 a Ha) as [?|Hbo]; [left; by exists a|right]. exact (born_same now r r a a' eq_refl eq_refl Hs Hbo).
  - destruct (H1 b Hb1) as [?|?]; [left; by exists b|by right].
Qed.

(** A handler keeps the invariant whatever it returns, and what the deadlines of
    fresh pictures depend on. *)
Definition handled (now : Z) (r : ReceivePipeline) (res : Result DeliveryError ReceiveUpdate) (r' : ReceivePipeline) : Prop :=
  inv r' /\ evolves now r r' /\ config r' = config r /\ recovery_until r' = recovery_until r.

Lemma handled_refl now r res : inv r -> handled now r res r.
Proof. intros Hi. split; [done|]. split; [apply evolves_refl|done]. Qed.

Lemma framed_config r r' : framed r r' -> config r' = config r /\ recovery_until r' = recovery_until r
  /\ state r' = state r /\ active_slots r' = active_slots r.
Proof. intros ->. done. Qed.

Lemma obsolete_newer r f : obsolete r f = false -> newer r f.
Proof. unfold obsolete, newer. intros [[? ?]%orb_false_iff _]%orb_false_iff. done. Qed.

Lemma on_fragment_spec al f now r : inv r -> accepting (state r) = true ->
  fragment_typed f -> validate_fragment f (limits (config r)) = Ok tt -> okf f ->
  wp (on_fragment al f now) r (handled now r).
Proof using All.
  intros Hi Hacc Ht Hv Hok. destruct (obsolete r (frame (Media.descriptor f))) eqn:Eo.
  { unfold wp, on_fragment. rewrite Eo. by apply handled_refl. }
  eapply wp_eq; [unfold on_fragment; rewrite Eo; reflexivity|]. apply obsolete_newer in Eo.
  apply wp_bind. eapply wp_mono; [apply (datagram_slot_spec al (Media.descriptor f) now r), Ht|]. cbv beta.
  intros [[i|]|e] r1; [|intros ->; by apply handled_refl..]. intros Hp.
  pose proof Hi as [Hb Hph].
  destruct (placed_keeps _ _ _ _ _ _ (okf_descriptor _ Hok) Hb Hp) as (Hb1 & Hf1 & Hin & a & Ha & Hda & Hka).
  apply wp_gets, wp_bind. unfold wp at 1, on_slot. rewrite Ha. cbn [mjoin option_join].
  destruct (framed_config _ _ Hf1) as (Hc1 & Hu1 & Hs1 & _).
  assert (good Q (limits (config r1)) a) as Hga by (apply (bs_good _ _ _ _ Hb1); by eapply held_at).
  pose proof (fragment_spec (limits (config r1)) a (gd_wf _ _ _ Hga) f now (repair_delay_micros (policy (config r1))) Ht)
    as Hspec.
  pose proof (Q_fragment (Content := Content0) (limits (config r1)) a f now (repair_delay_micros (policy (config r1)))
    (gd_wf _ _ _ Hga) Ht) as Hq.
  destruct (Assembly.fragment f now (repair_delay_micros (policy (config r1))) a) as [u a'] eqn:Efr. cbn [snd] in Hq.
  rewrite Hc1 in Hspec, Hq. destruct (Hspec Hv) as (Hw' & Hsame & _).
  specialize (Hq Hv Hok Hda (gd_Q _ _ _ Hga)).
  destruct (update_slot r1 i a a' Hb1 Ha) as [Hb2 Hin2]; [by rewrite Hc1|done|done|].
  set (r2 := r1 <| slots := _ |>) in *.
  assert (framed r r2) as Hf2 by (apply (framed_trans r r1 r2); done).
  assert (forall r3, framed r r3 -> base r3 -> (forall b, b ∈ held r3 -> b ∈ held r2) ->
    forall res, handled now r res r3) as Hend.
  { intros r3 Hf3 Hb3 Hsub res. destruct (framed_config _ _ Hf3) as (Hc3 & Hu3 & _).
    split; [split; [done|]|split; [|done]].
    - apply (phases_framed r r3 Hf3 Hph Hacc). intros b Hb'. destruct (Hin2 b (Hsub b Hb')) as [->|Hb1'].
      + right. split; [by rewrite (sp_kind _ _ Hsame), Hka|]. intros _.
        unfold frame_of. by rewrite (sp_descriptor _ _ Hsame), Hda.
      + destruct (Hin b Hb1') as [?|(Hcb & Hfb & Hkb & _)]; [by left|right]. split; [by rewrite Hkb|].
        unfold independent. by rewrite Hcb.
    - apply (evolves_arrival now r r1 r3 a a'); [|by eapply held_at|done|].
      + intros b Hb'. destruct (Hin b Hb') as [?|(_ & _ & _ & ?)]; auto.
      + intros b Hb'. apply Hin2, Hsub, Hb'. }
  destruct u as [u|e]; cbn [fst snd]; [|by apply Hend].
  apply wp_modify. unfold wp, mret, M_ret. cbn [fst snd]. case_bool_decide; [|by apply Hend].
  apply Hend.
  - apply (framed_trans r r2); [done|apply discard_framed].
  - unfold discard_superseded. destruct (queued_independent_frame r2); [by apply base_drop|done].
  - apply discard_held.
Qed.

(** The recovery picture [f] joins the slots. *)
Lemma phases_recovery r r' f : framed (r <| recovery_frame := Some f |>) r' -> phases r -> state r = AwaitingRecovery ->
  is_some_and (fun g => negb (g =? f)) (recovery_frame r) = false ->
  (forall b, b ∈ held r' -> b ∈ held r
     \/ is_some (reliable_offset b) = true /\ frame_of b = f /\ reference (descriptor b) = None) -> phases r'.
Proof.
  intros Hf [P1 P2 P3 P4 P5] Hs Hfr Hin. rewrite Hf. split; try done.
  - intros b Hb Hr. fields. split; [done|]. destruct (Hin b) as [Hb'|(_ & -> & ?)]; [by rewrite Hf| |done].
    destruct (P1 b Hb' Hr) as (_ & Hfb & ?). rewrite Hfb in Hfr. cbn in Hfr. split; [f_equal; lia|done].
  - intros b Hb Hindep. destruct (Hin b) as [Hb'|[Hr _]]; [by rewrite Hf|by apply P2|].
    unfold independent in Hindep. rewrite Hr in Hindep. by rewrite andb_false_r in Hindep.
  - fields. rewrite Hs. done.
Qed.

Lemma recovery_base r f : base r -> base (r <| recovery_frame := f |>).
Proof. intros Hb. by apply (base_same r). Qed.

Lemma on_recovery_spec al c now r : inv r -> chunk_typed c -> chunk_valid (limits (config r)) c -> okc c ->
  wp (on_recovery al c now) r (handled now r).
Proof using All.
  intros Hi Ht Hv Hok. pose proof Hi as [Hb Hph]. unfold on_recovery.
  apply wp_refuse. case_bool_decide as Hst; [|by apply handled_refl]. cbn [negb].
  apply wp_refuse. destruct (is_some_and _ _) eqn:Hfr; [by apply handled_refl|]. apply wp_gets.
  set (d := mk_descriptor _ _ _ _ _). assert (descriptor_typed d) as Hdt.
  { pose proof (limits_sizes _ (bs_limits _ _ _ _ Hb)) as [Hl _]. destruct Ht as (? & ? & ? & ? & _).
    split_and!; cbn; try done. unfold fits, fragment_stride, FRAGMENT_OVERHEAD, u32_max in *. cbn. lia. }
  apply wp_bind. eapply wp_mono; [by apply (slot_spec al d now true r)|]. cbv beta.
  intros [i|e] r1; [|intros ->; by apply handled_refl]. intros Hp.
  destruct (placed_keeps _ _ _ _ _ _ (okc_descriptor c _ Hok) Hb Hp) as (Hb1 & Hf1 & Hin & a & Ha & Hda & Hka).
  apply wp_modify, wp_bind. unfold wp at 1, on_slot. change (slots (r1 <| recovery_frame := _ |>)) with (slots r1).
  rewrite Ha. cbn [mjoin option_join]. destruct (framed_config _ _ Hf1) as (Hc1 & Hu1 & _).
  assert (good Q (limits (config r)) a) as Hga by (rewrite <- Hc1; apply (bs_good _ _ _ _ Hb1); by eapply held_at).
  pose proof (recovery_spec _ a (gd_wf _ _ _ Hga) c (fragments (limits (config r))) Ht Hv) as Hspec.
  pose proof (Q_recovery (Content := Content0) _ a c (fragments (limits (config r))) (gd_wf _ _ _ Hga) Ht Hv Hok) as Hq.
  destruct (Assembly.recovery c (fragments (limits (config r))) a) as [u a'] eqn:Erec. cbn [snd] in Hq.
  destruct Hspec as (Hw' & Hsame & _). assert (frame_of a = c_frame c) as Hfa by (unfold frame_of; by rewrite Hda).
  specialize (Hq Hfa (gd_Q _ _ _ Hga)).
  set (r2 := r1 <| recovery_frame := Some (c_frame c) |>).
  destruct (update_slot r2 i a a' (recovery_base _ _ Hb1) Ha) as [Hb3 Hin3]; [unfold r2; fields; by rewrite Hc1|done|done|].
  set (r3 := r2 <| slots := _ |>) in *.
  assert (handled now r (Ok Accepted) r3) as Hend.
  { split; [split; [done|]|split; [|by split]].
    - apply (phases_recovery r r3 (c_frame c)); try done; [unfold r3, r2; rewrite Hf1; done|].
      intros b Hb'. destruct (Hin3 b Hb') as [->|Hb1'].
      + right. unfold frame_of in *. by rewrite (sp_kind _ _ Hsame), (sp_descriptor _ _ Hsame), Hda.
      + destruct (Hin b Hb1') as [?|(_ & Hfb & Hkb & _)]; [by left|right]. unfold frame_of. by rewrite Hfb.
    - apply (evolves_arrival now r r1 r3 a a'); [|by eapply held_at|done|done].
      intros b Hb'. destruct (Hin b Hb') as [?|(_ & _ & _ & ?)]; auto. }
  by destruct u.
Qed.

Lemma on_progress_spec al p now r : inv r -> accepting (state r) = true -> progress_typed p -> okd (p_descriptor p) ->
  wp (on_progress al p now) r (handled now r).
Proof using All.
  intros Hi Hacc [Ht _] Hok. pose proof Hi as [Hb Hph]. set (d := p_descriptor p) in *.
  assert (forall r1 res, handled now r res r1 -> forall res', handled now r res' (r1 <| latest := Some p |>)) as Hlatest.
  { intros r1 res (Hi1 & He1 & Hc1 & Hu1) res'. split; [by apply (inv_same r1)|done]. }
  destruct (match pipeline p with Failed => true | _ => false end) eqn:E1.
  { unfold wp, on_progress. rewrite E1. by apply handled_refl. }
  destruct (is_some_and (fun old => frame d <? frame (p_descriptor old)) (latest r)) eqn:E2.
  { unfold wp, on_progress. fold d. rewrite E1, E2. by apply handled_refl. }
  destruct (obsolete r (frame d)) eqn:E3.
  { unfold wp, on_progress. fold d. rewrite E1, E2, E3. cbn [fst snd].
    apply (Hlatest r (Ok Obsolete)). by apply handled_refl. }
  eapply wp_eq; [unfold on_progress; fold d; rewrite E1, E2, E3; reflexivity|]. cbv zeta.
  destruct (bool_decide (state r = AwaitingRecovery) && negb (is_some (reference d))
            && is_none_or (fun f => f =? frame d) (recovery_frame r)) eqn:Er.
  - apply andb_true_iff in Er as [[Hst%bool_decide_eq_true_1 Href%negb_true_iff]%andb_true_iff Hfr].
    assert (reference d = None) as Hnone by (by destruct (reference d)).
    apply wp_bind, wp_bind. eapply wp_mono; [by apply (slot_spec al d now true r)|]. cbv beta.
    intros [i|e] r1; [|intros ->; by apply handled_refl]. intros Hp.
    destruct (placed_keeps _ _ _ _ _ _ Hok Hb Hp) as (Hb1 & Hf1 & Hin & _).
    destruct (framed_config _ _ Hf1) as (Hc1 & Hu1 & _).
    unfold wp at 1, mret, M_ret. cbn [fst snd]. apply wp_modify, wp_modify. unfold wp. cbn [fst snd].
    apply (Hlatest _ (Ok Accepted)). split; [split; [by apply recovery_base|]|split; [|by split]].
    + apply (phases_recovery r _ (frame d)); try done; [rewrite Hf1; done| |].
      * destruct (recovery_frame r); cbn in *; lia || done.
      * intros b Hb'. destruct (Hin b Hb') as [?|(_ & Hfb & Hkb & _)]; [by left|right]. unfold frame_of. by rewrite Hfb.
    + intros b Hb'. destruct (Hin b Hb') as [?|(_ & _ & _ & ?)]; [left; by exists b|by right].
  - apply wp_bind, wp_bind. eapply wp_mono; [by apply (datagram_slot_spec al d now r)|]. cbv beta.
    intros [[i|]|e] r1; [|intros ->; by apply handled_refl..]. intros Hp.
    destruct (placed_keeps _ _ _ _ _ _ Hok Hb Hp) as (Hb1 & Hf1 & Hin & _).
    destruct (framed_config _ _ Hf1) as (Hc1 & Hu1 & _).
    unfold wp at 1, mret, M_ret. cbn [fst snd]. apply wp_modify, wp_modify. unfold wp. cbn [fst snd].
    apply (Hlatest _ (Ok Accepted)). split; [split; [done|]|split; [|done]].
    + apply (phases_framed r r1 Hf1 Hph Hacc). intros b Hb'. destruct (Hin b Hb') as [?|(Hcb & _ & Hkb & _)]; [by left|right].
      split; [by rewrite Hkb|]. unfold independent. by rewrite Hcb.
    + intros b Hb'. destruct (Hin b Hb') as [?|(_ & _ & _ & ?)]; [left; by exists b|by right].
Qed.

(** ** Receiving *)

(** What a method leaves behind: the invariant, and no picture with a new deadline. *)
Definition sound (now : Z) (r r' : ReceivePipeline) : Prop := inv r' /\ evolves now r r'.

Lemma sound_empty now r r' : inv r' -> held r' = [] -> sound now r r'.
Proof. intros Hi Hh. split; [done|]. apply evolves_subset. rewrite Hh. by intros a ?%not_elem_of_nil. Qed.

Lemma settle_spec now r res r1 : handled now r res r1 -> wp (settle res) r1 (fun _ r' => sound now r r').
Proof.
  intros (Hi & He & _). pose proof Hi as [Hb _]. unfold wp, settle.
  assert (forall e, sound now r (snd (fail_chain (A := ReceiveUpdate) e r1))) as Hfail.
  { intros e. destruct (fail_inv (A := ReceiveUpdate) e r1 Hb). by apply sound_empty. }
  destruct res as [u|e]; [done|]. destruct e; try apply Hfail; [done|]. case_bool_decide; apply Hfail.
Qed.

(** The messages a packet may carry on its channel are those [Q] allows. *)
Definition admissible (l : MediaLimits) (b : MediaBindings) (ch : Channel) (packet : bytes) : Prop :=
  match ch with
  | Video => forall f, on_channel decode_fragment l (for_channel b ch) ch packet = Ok f -> okf f
  | RecoveryChannel => forall c, on_channel decode_recovery l (for_channel b ch) ch packet = Ok c -> okc c
  | MediaConfig => forall p, on_channel decode_progress l (for_channel b ch) ch packet = Ok p -> okd (p_descriptor p)
  | Control => True
  end.

Lemma handle_spec {A} now r (decoded : Result WireError A) (h : A -> PM ReceiveUpdate) : inv r ->
  (forall a, decoded = Ok a -> wp (h a) r (handled now r)) -> wp (handle decoded h) r (handled now r).
Proof.
  intros Hi Hh. unfold handle. apply wp_lift. destruct decoded as [a|e]; cbn [from_wire map_err]; [by apply Hh|].
  by apply handled_refl.
Qed.

Lemma accepts_message {A} (l : MediaLimits) (binding : Z) k ch (typed valid : A -> Prop) body enc dec packet record a :
  media_codec l binding k ch typed valid body enc dec -> Forall is_byte packet ->
  decode packet l binding ch = Ok record -> dec record l = Ok a ->
  on_channel dec l binding ch packet = Ok a /\ typed a /\ valid a.
Proof.
  intros Hc Hb Hd Ha. assert (on_channel dec l binding ch packet = Ok a) as Ho by (unfold on_channel; by rewrite Hd).
  split; [done|]. unfold media_codec in Hc.
  destruct (WireRecordProps.codec_accepts _ _ _ _ _ _ _ _ Hc packet a Hb Ho) as (? & ? & _). done.
Qed.

Lemma receive_handlers al ch packet now r record : inv r -> accepting (state r) = true -> Forall is_byte packet ->
  admissible (limits (config r)) (bindings (config r)) ch packet ->
  decode packet (limits (config r)) (for_channel (bindings (config r)) ch) ch = Ok record ->
  wp (match ch with
      | Video => handle (decode_fragment record (limits (config r))) (fun f => on_fragment al f now)
      | RecoveryChannel => handle (decode_recovery record (limits (config r))) (fun c => on_recovery al c now)
      | MediaConfig => handle (decode_progress record (limits (config r))) (fun p => on_progress al p now)
      | Control => fail (DWire WrongChannel)
      end) r (handled now r).
Proof using All.
  intros Hi Hacc Hbytes Hok Hd. pose proof Hi as [Hb _]. pose proof (bs_limits _ _ _ _ Hb) as Hl.
  destruct (bs_bindings _ _ _ _ Hb ch) as [Hb1 Hb2]. destruct ch.
  3: by apply handled_refl.
  all: apply handle_spec; [done|]; intros m Hm.
  - edestruct (accepts_message (limits (config r)) _ _ _ _ _ _ _ _ _ _ _ (fragment_codec _ _ Hl Hb1 Hb2) Hbytes Hd Hm)
      as (Ho & ? & ?). apply on_fragment_spec; try done. by apply Hok.
  - edestruct (accepts_message (limits (config r)) _ _ _ _ _ _ _ _ _ _ _ (recovery_codec _ _ Hl Hb1 Hb2) Hbytes Hd Hm)
      as (Ho & ? & ?). apply on_recovery_spec; try done. by apply Hok.
  - edestruct (accepts_message (limits (config r)) _ _ _ _ _ _ _ _ _ _ _ (progress_codec _ _ Hl Hb1 Hb2) Hbytes Hd Hm)
      as (Ho & ? & ?). apply on_progress_spec; try done. by apply Hok.
Qed.

Lemma receive_spec al ch packet now r : inv r -> Forall is_byte packet ->
  admissible (limits (config r)) (bindings (config r)) ch packet ->
  wp (receive al ch packet now) r (fun _ r' => sound now r r').
Proof using All.
  intros Hi Hbytes Hok. pose proof Hi as [Hb _].
  destruct (decode packet (limits (config r)) (for_channel (bindings (config r)) ch) ch) as [record|e] eqn:Ed.
  - eapply wp_eq; [unfold receive; rewrite Ed; reflexivity|]. apply wp_bind.
    eapply wp_mono; [by apply tick_spec|]. cbv beta.
    intros [[]|e] r1; [|intros (? & ? & _); split; [done|by apply evolves_subset]]. intros [-> _].
    assert (inv (at_time now r)) as Hi1 by (by apply (inv_same r)).
    assert (forall r', sound now (at_time now r) r' -> sound now r r') as Hsame by done.
    apply wp_refuse. destruct (accepting (state (at_time now r))) eqn:Hacc; cbn [negb]; [|by apply Hsame; split; [|apply evolves_refl]].
    pose proof (receive_handlers al ch packet now (at_time now r) record Hi1 Hacc Hbytes Hok Ed) as Hh.
    match type of Hh with wp ?m _ _ =>
      apply (wp_eq _ (fun r0 => let (res, r1) := m r0 in settle res r1)); [reflexivity|]; revert Hh;
      unfold wp; destruct (m (at_time now r)) as [res r1]
    end.
    cbn [fst snd]. intros Hh. apply Hsame. exact (settle_spec _ _ _ _ Hh).
  - unfold wp, receive. rewrite Ed. destruct (fail_inv (A := ReceiveUpdate) (DWire e) r Hb) as [Hf Hhe].
    assert (sound now r (snd (fail_chain (A := ReceiveUpdate) (DWire e) r))) by (by apply sound_empty).
    destruct e; try done. split; [done|apply evolves_refl].
Qed.

End steps.
End ReceiverSteps.
