(* ===== verification/ReceiverDecode.v ===== *)
(** * The receiving pipeline: decoding, repairs and replacement

    The other half of the receiver's methods: what the decoder is handed and in
    which order, what a repair request changes, and how a chain starts and is
    replaced.  Each keeps the invariant. *)

From S2P Require Import Prelude.
From S2P Require Import Bytes.
From S2P Require Import Limits.
From S2P Require Import WireRecord.
From S2P Require Import WireRecordProps.
From S2P Require Import WireMedia.
From S2P Require Import WireMediaProps.
From S2P Require Import Delivery.
From S2P Require Import Assembly.
From S2P Require Import AssemblyClaims.
From S2P Require Import RepairProps.
From S2P Require Import Receiver.
From S2P Require Import ReceiverInv.
From S2P Require Import ReceiverSteps.

Module ReceiverDecode.
Import Media MediaProps Delivery Assembly AssemblyProps RepairProps Receiver ReceiverInv ReceiverSteps.

(** ** Selection *)

Lemma min_frame_spec p l : forall i best,
  match min_frame p i l best with
  | None => best = None /\ forall b, Some b ∈ l -> p b = false
  | Some (j, a) =>
      (best = Some (j, a) \/ (i <= j)%nat /\ l !! (j - i)%nat = Some (Some a) /\ p a = true)
      /\ (forall b, Some b ∈ l -> p b = true -> frame_of a <= frame_of b)
      /\ (forall k b, best = Some (k, b) -> frame_of a <= frame_of b)
  end.
Proof.
  induction l as [|s l IH]; intros i best; cbn [min_frame].
  { destruct best as [[j a]|]; [|split; [done|by intros b ?%not_elem_of_nil]].
    split_and!; [by left|by intros b ?%not_elem_of_nil|intros k b [= -> ->]; done]. }
  set (best' := match s with Some a => _ | None => best end). specialize (IH (S i) best').
  destruct (min_frame p (S i) l best') as [[j a]|].
  - destruct IH as (Hw & Hl & Hb). split_and!.
    + destruct Hw as [Hw|(Hle & Hat & Hp)].
      * unfold best' in Hw. destruct s as [c|]; [|by left]. destruct (p c && _) eqn:E; [|by left].
        injection Hw as <- <-. right. apply andb_true_iff in E as [? _]. rewrite Nat.sub_diag. done.
      * right. replace (j - i)%nat with (S (j - S i)) by lia. split_and!; [lia|done|done].
    + intros b [Hs|?]%elem_of_cons Hpb; [|by apply Hl]. subst s. unfold best' in Hb. rewrite Hpb in Hb. cbn [andb] in Hb.
      destruct best as [[k c]|]; cbn in Hb; [|by eapply Hb]. destruct (frame_of b <? frame_of c) eqn:E; [by eapply Hb|].
      specialize (Hb k c eq_refl). lia.
    + intros k b ->. unfold best' in Hb. destruct s as [c|]; [|by eapply Hb]. cbn in Hb.
      destruct (p c && _) eqn:E; [|by eapply Hb]. specialize (Hb i c eq_refl). apply andb_true_iff in E as [_ E]. cbn in E. lia.
  - destruct IH as [Hn Hl]. unfold best' in Hn. destruct s as [c|].
    + destruct (p c && _) eqn:E; [done|]. subst best. cbn in E. rewrite andb_true_r in E. split; [done|].
      intros b [[= ->]|?]%elem_of_cons; [done|by apply Hl].
    + split; [done|]. intros b [?|?]%elem_of_cons; [done|by apply Hl].
Qed.

(** The first of the least pictures that satisfy [p]. *)
Lemma select_spec p r :
  match select p r with
  | None => forall b, b ∈ held r -> p b = false
  | Some (i, a) => slots r !! i = Some (Some a) /\ p a = true
                   /\ forall b, b ∈ held r -> p b = true -> frame_of a <= frame_of b
  end.
Proof.
  unfold select. pose proof (min_frame_spec p (slots r) 0 None) as Hm.
  destruct (min_frame p 0 (slots r) None) as [[i a]|].
  - destruct Hm as ([?|(_ & Hat & Hp)] & Hl & _); [done|]. rewrite Nat.sub_0_r in Hat. split_and!; [done|done|].
    intros b Hb%elem_of_flatten. by apply Hl.
  - destruct Hm as [_ Hl]. intros b Hb%elem_of_flatten. by apply Hl.
Qed.

(** ** The request for one picture *)

Lemma ordered_ranges count rs : forall lo, 0 <= lo -> ordered lo rs -> end_of lo rs <= count -> count <= u32_max ->
  ranges_ok lo count rs /\ Forall range_typed rs.
Proof.
  induction rs as [|r rs IH]; intros lo Hlo Ho He Hc; [done|]. destruct Ho as (H1 & H2 & H3). rewrite end_of_cons in He.
  pose proof (ordered_end _ _ H3). destruct (IH (r_end r)) as [Hr Ht]; [lia|done|done|done|].
  split; [cbn; split_and!; [lia|lia|lia|done]|]. constructor; [|done]. unfold range_typed, fits. lia.
Qed.

(** A picture that is due yields a request its host accepts. *)
Lemma request_valid l a now : limits_ok l -> wf l a -> reliable_offset a = None -> complete a = false ->
  repair_due a <= now ->
  exists rs, missing a (repair_capacity l) now = Ok rs
    /\ scanned a (repair_capacity l) (horizon a now) rs
    /\ repair_typed (frame_of a, rs) /\ repair_valid l (count_of (descriptor a)) (frame_of a, rs)
    /\ Z.of_nat (24 + length (repair_body (frame_of a, rs))) <= record_bytes l.
Proof.
  intros Hl Hw Hro Hc Hdue. pose proof (limits_sizes l Hl) as [Hrec _]. pose proof Hl as (_ & _ & Hfr & Hrr).
  assert (Z.of_nat (repair_capacity l) = Z.min (repair_ranges l) ((record_bytes l - 36) / 8) /\ 0 < (record_bytes l - 36) / 8)
    as [Hcap Hpos].
  { pose proof (Z.div_le_lower_bound (record_bytes l - 36) 8 1). unfold repair_capacity. lia. }
  destruct (missing_spec l a (repair_capacity l) now Hw Hro) as (rs & Hm & Hsc); [lia|].
  destruct (due_hole l a now Hw Hro Hc Hdue) as (i & Hi & Hhole). destruct Hw as [Ht Hv _ Hk].
  rewrite Hro in Hk. destruct Hk as [_ _ Hend _ _]. pose proof (stride_fits _ l Ht Hv) as [_ Hcount].
  assert (horizon a now <= count_of (descriptor a)) as Hh by (unfold horizon; destruct (_ <? _); lia).
  destruct (ordered_ranges (count_of (descriptor a)) rs 0) as [Hr1 Hr2];
    [lia|apply Hsc|pose proof (sc_end _ _ _ _ Hsc); lia|unfold MAX_FRAGMENTS, u32_max in *; lia|].
  assert (repair_valid l (count_of (descriptor a)) (frame_of a, rs)) as Hvalid.
  { pose proof (sc_length _ _ _ _ Hsc). split; [|cbn; split_and!; [lia|lia|lia|done]]. cbn. intros ->.
    destruct (sc_covers _ _ _ _ Hsc i Hi Hhole) as (r & Hr & _). by apply not_elem_of_nil in Hr. }
  exists rs. split_and!; [done|done|split; [by apply Ht|done]|done|].
  destruct (repair_body_ok l _ _ Hl Hvalid) as (_ & Hlen & _). cbn [snd] in Hlen. pose proof (sc_length _ _ _ _ Hsc).
  pose proof (Z.mul_div_le (record_bytes l - 36) 8). lia.
Qed.

Section decode.
Context `{Layout} {Q : Assembly -> Prop} {okd : FrameDescriptor -> Prop} {okf : Fragment -> Prop}
  {okc : RecoveryChunk -> Prop} `{!Content Q okd okf okc}.
Context (eb en : Z).

Abbreviation base := (base Q eb en).
Abbreviation inv := (inv Q eb en).
Abbreviation at_time now r := (r <| last_now := Some now |>).

(** ** Handing a picture out *)

(** Its bytes stay charged, outside the slots. *)
Lemma base_take r i a : base r -> slots r !! i = Some (Some a) ->
  let r' := r <| slots := <[i := None]> (slots r) |> in
  ReceiverInv.base Q (eb + charged a) (en + 1) r'
  /\ forall b, b ∈ held r' <-> b ∈ held r /\ frame_of b <> frame_of a.
Proof.
  intros Hb Hi r'. pose proof (lookup_lt_Some _ _ _ Hi) as Hlt. pose proof (active_index _ _ _ _ _ _ Hb Hi) as Hact.
  assert (held r ≡ₚ a :: held r') as Hperm.
  { unfold r'. fields. rewrite (flatten_insert _ _ _ Hlt), (flatten_at _ _ _ Hi). cbn. by rewrite Permutation_middle. }
  pose proof Hb as [Hl Hbi Hpo Hs Ha Hbe Hg Hd Hled Hbud]. pose proof Hd as Hd0.
  rewrite Hperm, fmap_cons in Hd. apply NoDup_cons in Hd as [Hnot Hd].
  split; [split; try done|].
  - unfold r'. fields. by rewrite length_insert.
  - unfold r'. fields. by rewrite drop_insert_lt.
  - intros b Hb'. apply Hg. rewrite Hperm. by right.
  - destruct Hled as [L1 L2 L3]. rewrite (sum_perm _ _ Hperm) in L1. rewrite (Permutation_length Hperm) in L2.
    cbn [sum length] in *. unfold r' in *. fields. split; lia || done.
  - intros b. rewrite Hperm, elem_of_cons. split.
    + intros Hb'. split; [by right|]. intros E. apply Hnot. rewrite <- E. by apply list_elem_of_fmap_2.
    + intros [[->|?] Hne]; [by destruct Hne|done].
Qed.

(** What the decoder is handed. *)
Record handed (now : Z) (r : ReceivePipeline) (a : Assembly) (p : ReceivedPicture) : Prop := {
  hd_held : a ∈ held r;
  hd_complete : complete a = true;
  hd_timely : timely now r;
  hd_idle : in_flight r = None;
  hd_picture : pic_bytes p = abytes a /\ pic_descriptor p = descriptor a /\ pic_charged p = charged a
               /\ pic_reference_until p = reference_until a /\ pic_display_until p = display_until a;
  hd_owner : pic_scope p = scope r /\ pic_budget p = budget r /\ pic_epoch p = epoch (config r)
             /\ pic_bindings p = bindings (config r);
  hd_fresh : queue_fresh p = (now <? display_until a);
  hd_order : is_some_and (fun last => frame_of a <=? last) (last_decoded r) = false;
  hd_reference : reference (descriptor a) = None \/ reference (descriptor a) = last_decoded r;
  hd_recovery : state r = AwaitingRecovery /\ is_some (reliable_offset a) = true \/ state r = Streaming
}.

(** A complete picture the decoder may have next is newer than what it had. *)
Lemma eligible_order r a : phases r -> base r -> a ∈ held r -> eligible r a = true ->
  complete a = true
  /\ is_some_and (fun last => frame_of a <=? last) (last_decoded r) = false
  /\ (reference (descriptor a) = None \/ reference (descriptor a) = last_decoded r)
  /\ (state r = AwaitingRecovery /\ is_some (reliable_offset a) = true /\ recovery_frame r = Some (frame_of a)
      \/ state r = Streaming).
Proof.
  intros Hp Hb Ha He. unfold eligible in He. apply andb_true_iff in He as [Hc He]. split; [done|].
  pose proof (gd_wf _ _ _ (bs_good _ _ _ _ Hb a Ha)) as [_ Hv _ _].
  assert (forall f, reference (descriptor a) = Some f -> f < frame_of a) as Href.
  { intros f Hf. unfold validate in Hv. rewrite Hf in Hv. cbn in Hv. unfold frame_of.
    destruct (Z.leb_spec (frame (descriptor a)) f); [|done]. split_matches; congruence. }
  destruct (state r) eqn:Hs; try done.
  - apply andb_true_iff in He as [Hr Hf%bool_decide_eq_true_1]. destruct (ph_awaiting _ Hp Hs) as [_ ->].
    destruct (ph_reliable _ Hp a Ha Hr) as (_ & _ & ?). split; [done|]. split; [by left|by left].
  - destruct (reference (descriptor a)) as [f|] eqn:E; cbn in He.
    + apply bool_decide_eq_true_1 in He. rewrite <- He. cbn. specialize (Href f eq_refl).
      split; [lia|]. split; [by right|by right].
    + split; [|split; [by left|by right]].
      assert (independent a = true) as Hi.
      { unfold independent. rewrite Hc, E. destruct (is_some (reliable_offset a)) eqn:Er; [|done].
        destruct (ph_reliable _ Hp a Ha Er) as [? _]. congruence. }
      apply (ph_order _ Hp a Ha Hi).
Qed.

(** Without the pictures that [p] gives up, with the same charges outside. *)
Lemma phases_take r r' a : base r -> phases r -> a ∈ held r -> eligible r a = true ->
  (forall b, b ∈ held r -> eligible r b = true -> frame_of a <= frame_of b) ->
  (forall b, b ∈ held r' -> b ∈ held r /\ frame_of b <> frame_of a
                            /\ (reference (descriptor a) = None -> frame_of a <= frame_of b)) ->
  in_flight r = None -> last_decoded r' = last_decoded r ->
  if_frame <$> in_flight r' = Some (frame_of a) ->
  state r' = (if bool_decide (state r = AwaitingRecovery) then DecodingRecovery else state r) ->
  phases r'.
Proof.
  intros Hb Hp Ha He Hmin Hin Hidle Hld Hif Hst.
  destruct (eligible_order r a Hp Hb Ha He) as (Hc & Hord & Href & Hstate).
  assert (forall b, b ∈ held r' -> is_some (reliable_offset b) = false) as Hrel.
  { intros b Hb'. destruct (Hin b Hb') as (Hbr & Hne & _). destruct (is_some (reliable_offset b)) eqn:E; [|done].
    destruct (ph_reliable _ Hp b Hbr E) as (Hs & Hf & _). destruct Hstate as [(_ & _ & Hfa)|?]; congruence. }
  split.
  - intros b Hb' Hr. rewrite Hrel in Hr by done. done.
  - intros b Hb' Hi. destruct (Hin b Hb') as (Hbr & Hne & Hge). unfold newer. rewrite Hld.
    destruct (ph_order _ Hp b Hbr Hi) as [Hn _]. split; [done|].
    destruct (in_flight r') as [q|]; cbn in *; [|done]. injection Hif as ->.
    assert (frame_of a <= frame_of b); [|lia].
    destruct (reference (descriptor a)) eqn:E; [|by apply Hge]. apply Hmin; [done|].
    destruct Hstate as [(Hs & Hr & _)|Hs].
    + destruct (ph_reliable _ Hp a Ha Hr) as (_ & _ & ?). congruence.
    + unfold independent in Hi. apply andb_true_iff in Hi as [[Hcb _]%andb_true_iff Hrb%negb_true_iff].
      unfold eligible. rewrite Hcb, Hs, Hrb. done.
  - rewrite Hst. destruct Hstate as [(-> & _)| ->]; done.
  - rewrite Hst. destruct Hstate as [(-> & _)| ->]; done.
  - intros Hd. rewrite Hld. destruct Hstate as [(Hs & _)|Hs]; [by apply (ph_awaiting _ Hp)|]. by rewrite Hst, Hs in Hd.
Qed.

Lemma hand_out_spec r i a : base r -> slots r !! i = Some (Some a) ->
  ReceiverInv.base Q (eb + charged a) (en + 1) (hand_out i a r)
  /\ forall b, b ∈ held (hand_out i a r) -> b ∈ held r /\ frame_of b <> frame_of a
       /\ (reference (descriptor a) = None -> frame_of a <= frame_of b).
Proof.
  intros Hb Hat. destruct (base_take r i a Hb Hat) as [Hb1 Hin1]. unfold hand_out.
  destruct (reference (descriptor a)) as [f|]; cbn [is_some].
  - split; [case_bool_decide; by eapply base_same; [..|exact Hb1]|].
    intros b Hb'. assert (b ∈ held (r <| slots := <[i := None]> (slots r) |>)) as Hb2 by (case_bool_decide; exact Hb').
    apply Hin1 in Hb2 as [? ?]. done.
  - pose proof (base_drop _ _ _ _ (fun b => frame_of b <? frame_of a) Hb1) as Hb2.
    split; [case_bool_decide; by eapply base_same; [..|exact Hb2]|].
    intros b Hb'. assert (b ∈ held (drop_where (fun b => frame_of b <? frame_of a)
      (r <| slots := <[i := None]> (slots r) |>))) as Hb3 by (case_bool_decide; exact Hb').
    rewrite drop_where_held, kept_elem, Hin1 in Hb3. destruct Hb3 as [[? ?] ?]. split_and!; [done|done|]. lia.
Qed.

Lemma hand_out_fields r i a :
  let r' := hand_out i a r in
  in_flight r' = Some (mk_in_flight (frame_of a) (reference_until a)) /\ config r' = config r /\ live r' = live r
  /\ scope r' = scope r /\ budget r' = budget r /\ last_decoded r' = last_decoded r /\ latest r' = latest r
  /\ state r' = (if bool_decide (state r = AwaitingRecovery) then DecodingRecovery else state r).
Proof.
  cbv zeta. unfold hand_out, drop_where. destruct (is_some (reference (descriptor a))); fields;
    case_bool_decide; fields; by split_and!.
Qed.

Lemma take_spec now r : inv r ->
  wp (take_decodable now) r (fun res r' =>
    match res with
    | Ok (Some p) => exists a, handed now r a p
        /\ ReceiverInv.inv Q (eb + charged a) (en + 1) r' /\ (forall b, b ∈ held r' -> b ∈ held r)
        /\ in_flight r' = Some (mk_in_flight (frame_of a) (reference_until a)) /\ config r' = config r
        /\ live r' = true /\ scope r' = scope r /\ last_decoded r' = last_decoded r
    | Ok None => r' = at_time now r /\ timely now r
                 /\ (in_flight r = None -> forall a, a ∈ held r -> eligible r a = false)
    | Err _ => inv r' /\ (forall a, a ∈ held r' -> a ∈ held r) /\ stopped (state r') = true
    end).
Proof.
  intros Hi. unfold take_decodable. apply wp_bind. eapply wp_mono; [apply (tick_spec eb en now r Hi)|]. cbv beta.
  intros [[]|e] r1; [|done]. intros [-> Ht].
  assert (inv (at_time now r)) as [Hb Hp] by (by apply (inv_same _ _ r)).
  unfold wp, method. change (in_flight (at_time now r)) with (in_flight r).
  destruct (is_some (in_flight r)) eqn:Hif.
  { cbn [fst snd]. split_and!; [done|done|]. by destruct (in_flight r). }
  assert (in_flight r = None) as Hnone by (by destruct (in_flight r)).
  pose proof (select_spec (eligible (at_time now r)) (at_time now r)) as Hsel.
  destruct (select _ _) as [[i a]|]; cbn [fst snd]; [|by split_and!].
  destruct Hsel as (Hat & He & Hmin). pose proof (held_at _ _ _ Hat) as Ha.
  destruct (hand_out_spec _ i a Hb Hat) as [Hb1 Hin1].
  destruct (hand_out_fields (at_time now r) i a) as (F1 & F2 & F3 & F4 & F5 & F6 & _ & F7).
  destruct (eligible_order _ a Hp Hb Ha He) as (Hc & Hord & Href & Hstate).
  exists a. split; [|split; [split; [done|]|split_and!; try done]].
  - split; try done; [by rewrite F2, F4, F5|]. destruct Hstate as [(? & ? & _)|?]; [by left|by right].
  - by apply (phases_take (at_time now r) _ a Hb Hp Ha He Hmin); rewrite ?F1.
  - intros b Hb'. by apply Hin1 in Hb' as [? _].
  - rewrite F3. apply (tm_live _ _ Ht).
Qed.

(** ** The decoder's answer *)

Abbreviation sound now := (sound (Q := Q) eb en now).

Lemma sound_same now r : inv r -> sound now r (at_time now r).
Proof. intros Hi. split; [by apply (inv_same _ _ r)|]. by apply evolves_subset. Qed.

Lemma sound_refl now r : inv r -> sound now r r.
Proof. intros Hi. split; [done|apply evolves_refl]. Qed.

Lemma sound_subset now r r' : inv r' -> (forall a, a ∈ held r' -> a ∈ held r) -> sound now r r'.
Proof. intros Hi Hs. split; [done|by apply evolves_subset]. Qed.

(** A method that starts with [tick]. *)
Lemma ticked {A} now r (k : unit -> PM A) (P : Result DeliveryError A -> ReceivePipeline -> Prop) : inv r ->
  (forall e r', inv r' -> (forall a, a ∈ held r' -> a ∈ held r) -> stopped (state r') = true -> P (Err e) r') ->
  (timely now r -> inv (at_time now r) -> wp (k tt) (at_time now r) P) ->
  wp (tick now ≫= k) r P.
Proof.
  intros Hi He Hk. apply wp_bind. eapply wp_mono; [apply (tick_spec eb en now r Hi)|]. cbv beta.
  intros [[]|e] r'; [|intros (? & ? & ?); by apply He]. intros [-> Ht]. apply Hk; [done|]. by apply (inv_same _ _ r).
Qed.

(** A decoded picture is the last one; the recovery is over. *)
Definition decoded (f : Z) (r : ReceivePipeline) : ReceivePipeline :=
  r <| last_decoded := Some f |> <| in_flight := None |> <| recovery_until := None |> <| state := Streaming |>.

Lemma decoded_inv f q r : inv r -> in_flight r = Some q -> if_frame q = f -> inv (discard_superseded (decoded f r)).
Proof.
  intros [Hb Hp] Hif Hf. assert (base (decoded f r)) as Hb1 by (by apply (base_same _ _ r)).
  assert (phases (decoded f r)) as Hp1.
  { assert (state r <> AwaitingRecovery) as Hst.
    { intros E. destruct (ph_awaiting _ Hp E) as [? _]. congruence. }
    split; try done.
    - intros a Ha Hr. by destruct (ph_reliable _ Hp a Ha Hr) as [? _].
    - intros a Ha Hi. destruct (ph_order _ Hp a Ha Hi) as [_ Hn]. rewrite Hif in Hn. cbn in Hn.
      unfold newer, decoded. fields. cbn. rewrite <- Hf. done. }
  split.
  - unfold discard_superseded. destruct (queued_independent_frame _); [by apply base_drop|done].
  - apply (phases_subset (decoded f r)); [apply discard_framed|done|apply discard_held].
Qed.

Lemma acknowledge_spec p success now r : inv r ->
  wp (acknowledge_decode p success now) r (fun res r' =>
    sound now r r' /\
    match res with
    | Ok _ => success = true /\ timely now r /\ if_frame <$> in_flight r = Some (frame (pic_descriptor p))
              /\ last_decoded r' = Some (frame (pic_descriptor p)) /\ in_flight r' = None /\ state r' = Streaming
    | Err _ => True
    end).
Proof.
  intros Hi. unfold acknowledge_decode. apply wp_refuse. destruct (_ || _); [split; [by apply sound_refl|done]|].
  apply ticked; [done| |].
  { intros e r' Hi' Hs _. split; [by apply sound_subset|done]. }
  intros Ht Hi1. apply wp_refuse. change (in_flight (at_time now r)) with (in_flight r).
  destruct (is_none_or _ _) eqn:Em; [split; [by apply sound_same|done]|].
  destruct (in_flight r) as [q|] eqn:Hif; [|done]. cbn in Em. apply negb_false_iff, Z.eqb_eq in Em.
  destruct success; cbn [negb].
  - apply wp_modify. unfold wp, modify. cbn [fst snd]. fold (decoded (frame (pic_descriptor p)) (at_time now r)).
    pose proof (decoded_inv (frame (pic_descriptor p)) q (at_time now r) Hi1 Hif Em) as Hi2.
    pose proof (discard_framed (decoded (frame (pic_descriptor p)) (at_time now r))) as Hfr.
    pose proof (discard_held (decoded (frame (pic_descriptor p)) (at_time now r))) as Hh.
    split; [by apply sound_subset|]. rewrite Hfr. split_and!; try done. cbn. by rewrite Em.
  - destruct Hi1 as [Hb1 _]. unfold wp. split; [|done].
    destruct (fail_inv (A := unit) eb en DecodeFailed (at_time now r) Hb1) as [? ?]. by apply sound_empty.
Qed.

(** ** Repairs *)

Lemma repair_updates a next n : same_picture a (a <| next_repair := next |> <| repair_attempts := n |>).
Proof. by split. Qed.

Lemma wf_repair l a next n : wf l a -> wf l (a <| next_repair := next |> <| repair_attempts := n |>).
Proof. intros [Ht Hv Hlen Hk]. split; try done. cbn. destruct (reliable_offset a); [done|]. destruct Hk. by split. Qed.

(** The slot of a request after it was written. *)
Lemma repair_inv now r i a next n : inv r -> slots r !! i = Some (Some a) -> wants_repair r now a = true ->
  sound now r (r <| slots := <[i := Some (a <| next_repair := next |> <| repair_attempts := n |>)]> (slots r) |>).
Proof using All.
  intros [Hb Hp] Hat Hw. set (a' := a <| next_repair := next |> <| repair_attempts := n |>).
  assert (good Q (limits (config r)) a) as Hga by (apply (bs_good _ _ _ _ Hb); by eapply held_at).
  destruct (update_slot eb en r i a a' Hb Hat) as [Hb' Hin];
    [by apply wf_repair, Hga|apply repair_updates|by apply Q_repair, Hga|].
  set (r' := r <| slots := _ |>) in *. unfold wants_repair in Hw.
  apply andb_true_iff in Hw as [[[Hc%negb_true_iff Hr%negb_true_iff]%andb_true_iff _]%andb_true_iff _].
  destruct (accepting (state r)) eqn:Hacc.
  - split; [split; [done|]|].
    + apply (phases_framed r r'); try done. intros b Hb1. destruct (Hin b Hb1) as [->|?]; [right|by left].
      split; [change (reliable_offset a') with (reliable_offset a); by rewrite Hr|].
      unfold independent. change (complete a') with (complete a). by rewrite Hc.
    + apply (evolves_arrival now r r r' a a'); [by left|by eapply held_at|apply repair_updates|done].
  - destruct (ph_idle _ Hp Hacc) as (Hh & _). apply held_at in Hat. rewrite Hh in Hat. by apply not_elem_of_nil in Hat.
Qed.

(** What a repair request asks for, and what its host reads. *)
Record asked (now : Z) (r : ReceivePipeline) (i : nat) (a : Assembly) (o : RepairOffer) (out' : bytes)
  (rs : list RepairRange) : Prop := {
  as_at : slots r !! i = Some (Some a);
  as_due : wants_repair r now a = true;
  as_first b : b ∈ held r -> wants_repair r now b = true -> frame_of a <= frame_of b;
  as_holes : scanned a (repair_capacity (limits (config r))) (horizon a now) rs;
  as_nonempty : rs <> [];
  as_offer : o_frame o = frame_of a /\ reference_deadline_us o = reference_until a
             /\ o_bytes o <= record_bytes (limits (config r));
  as_decoded : on_channel (decode_ranges (count_of (descriptor a))) (limits (config r))
                 (for_channel (bindings (config r)) Control) Control (take (Z.to_nat (o_bytes o)) out')
               = Ok (frame_of a, rs)
}.

Lemma repair_offer_spec now out r : inv r ->
  record_bytes (limits (config r)) <= Z.of_nat (length out) <= usize_max ->
  wp (repair_offer now out) r (fun res r' =>
    sound now r r' /\
    match res with
    | Ok None => timely now r /\ forall a, a ∈ held r -> wants_repair r now a = false
    | Ok (Some (o, out')) => timely now r /\ exists i a rs, asked now r i a o out' rs
        /\ r' = at_time now r <| slots := <[i := Some (a
             <| next_repair := now + repair_interval_micros (policy (config r)) |>
             <| repair_attempts := repair_attempts a + 1 |>)]> (slots r) |>
    | Err e => stopped (state r') = true
               \/ e = ClockOverflow /\ r' = at_time now r /\ u64_max < now + repair_interval_micros (policy (config r))
    end).
Proof using All.
  intros Hi Hout. unfold repair_offer. apply ticked; [done| |].
  { intros e r' Hi' Hs Hst. split; [by apply sound_subset|by left]. }
  intros Ht Hi1. unfold wp, method. pose proof (select_spec (wants_repair (at_time now r) now) (at_time now r)) as Hsel.
  destruct (select _ _) as [[i a]|]; cbn [fst snd]; [|split; [by apply sound_same|done]].
  destruct Hsel as (Hat & Hw & Hmin). pose proof Hi as [Hb _].
  assert (good Q (limits (config r)) a) as Hga by (apply (bs_good _ _ _ _ Hb); by eapply held_at).
  change (config (at_time now r)) with (config r). pose proof (repair_inv now (at_time now r) i a) as Hinv.
  pose proof Hw as Hw0. unfold wants_repair in Hw0.
  apply andb_true_iff in Hw0 as [[[Hc%negb_true_iff Hr%negb_true_iff]%andb_true_iff Hdue]%andb_true_iff _].
  assert (reliable_offset a = None) as Hro by (by destruct (reliable_offset a)).
  destruct (request_valid (limits (config r)) a now (bs_limits _ _ _ _ Hb) (gd_wf _ _ _ Hga) Hro Hc ltac:(lia))
    as (rs & Hm & Hsc & Hty & Hva & Hfit).
  rewrite Hm. unfold mbind, Result_bind, deadline, checked_add.
  destruct (Z.leb_spec (now + repair_interval_micros (policy (config r))) u64_max) as [Hle|Hgt]; cbn [ok_or];
    [|split; [by apply sound_same|by right]].
  destruct (gd_wf _ _ _ Hga) as [Hdt Hdv _ _]. rewrite (count_ok _ _ Hdt Hdv). cbn [from_wire map_err].
  destruct (bs_bindings _ _ _ _ Hb Control) as [Hb1 Hb2]. pose proof (stride_fits _ _ Hdt Hdv) as [_ Hcount].
  pose proof (repair_codec (limits (config r)) (count_of (descriptor a)) _ (bs_limits _ _ _ _ Hb) ltac:(lia) Hb1 Hb2) as Hcodec.
  unfold media_codec in Hcodec.
  pose proof (codec_writes _ _ _ _ _ _ _ _ Hcodec (frame_of a, rs) out Hty Hva Hfit ltac:(lia) ltac:(lia)) as Hwr.
  destruct (exact_codec_roundtrip _ _ _ _ _ _ _ _ (frame_of a, rs) out Hcodec Hty Hva Hfit ltac:(lia) ltac:(lia))
    as (n & Hn & Hdec).
  cbn [fst snd] in Hwr, Hn, Hdec. destruct (encode_repair _ _ _ _ _ out) as [res out'] eqn:Eenc.
  cbn [fst snd] in Hn, Hdec. subst res. cbn [map_err fst snd].
  split; [by apply Hinv|]. split; [done|]. exists i, a, rs. split; [|done]. split; try done.
  - apply Hva.
  - injection Hwr as -> _. done.
Qed.

(** ** Starting and replacing a chain *)

Lemma clocked {A} now r (k : unit -> PM A) : inv r ->
  (inv (at_time now r) -> wp (k tt) (at_time now r) (fun _ r' => sound now r r')) ->
  wp (check_clock now ≫= k) r (fun _ r' => sound now r r').
Proof.
  intros Hi Hk. apply wp_bind. eapply wp_mono; [apply (check_clock_spec eb en now r Hi)|]. cbv beta.
  intros [[]|e] r'; [|intros (_ & ? & ? & _); by apply sound_empty].
  intros [-> _]. apply Hk. by apply (inv_same _ _ r).
Qed.

Lemma configured_spec now r : inv r -> wp (decoder_configured now) r (fun _ r' => sound now r r').
Proof.
  intros Hi. unfold decoder_configured. apply clocked; [done|]. intros Hi1.
  apply wp_refuse. change (state (at_time now r)) with (state r).
  case_bool_decide as Hst; [|by apply sound_same]. cbn [negb]. apply wp_readr.
  destruct (deadline _ _) as [until|e]; [|by apply sound_same].
  destruct Hi1 as [Hb Hp]. destruct (ph_idle _ Hp) as (Hh & H1 & H2 & H3); [fields; by rewrite Hst|].
  unfold wp, modify. fields. assert (forall a, a ∈ held r -> False) as Hno.
  { intros a. rewrite Hh. apply not_elem_of_nil. }
  apply sound_subset; [|done]. split; [by apply (base_same _ _ (at_time now r))|].
  split; try done; fields; intros a Ha; by destruct (Hno a Ha).
Qed.

Lemma replace_spec e b now r : inv r -> bindings_ok b -> wp (replace e b now) r (fun _ r' => sound now r r').
Proof.
  intros Hi Hbi. unfold replace. apply clocked; [done|]. intros [Hb Hp].
  apply wp_refuse. destruct (bool_decide _); [by apply sound_same|].
  apply wp_refuse. destruct (_ || _); [by apply sound_same|]. unfold wp, modify. cbn [fst snd].
  destruct (clear_base eb en (at_time now r) Hb) as [Hc Hh].
  apply sound_empty; [|exact Hh]. split; [|by apply phases_idle].
  destruct Hc as [C1 C2 C3 C4 C5 C6 C7 C8 C9 C10]. by split.
Qed.

Lemma window_bounds r : base r -> 2 <= window r <= 12.
Proof. intros Hb. destruct (bs_limits _ _ _ _ Hb) as (Hv & _). apply (Hv Limits.ReassemblyWindowPictures). Qed.

Lemma frame_rate_spec fps r : inv r ->
  wp (configure_frame_rate fps) r (fun _ r' => inv r' /\ slots r' = slots r).
Proof.
  intros Hi. unfold configure_frame_rate. apply wp_refuse.
  destruct (_ || _) eqn:E; [done|]. guards.
  apply wp_readr. destruct (ok_or _ _) as [numerator|e]; [|done].
  apply wp_lift. destruct (ok_or _ _) as [requested|e]; [|done].
  apply wp_gets, wp_modify. unfold wp, lift. cbn [fst snd]. destruct Hi as [Hb Hp].
  pose proof (window_bounds r Hb) as Hw.
  assert (held r = []) as Hh.
  { destruct (held r) as [|a l] eqn:Eh; [done|]. assert (a ∈ held r) as Ha by (rewrite Eh; left).
    apply elem_of_flatten in Ha. assert (existsb is_some (slots r) = true); [|congruence].
    apply existsb_exists. exists (Some a). split; [by apply list_elem_of_In|done]. }
  split; [|done]. split; [|by apply (phases_same r)].
  destruct Hb as [C1 C2 C3 C4 C5 C6 C7 C8 C9 C10]. split; try done.
  - unfold window in *. fields. lia.
  - fields. set (n := Z.to_nat _). destruct (flatten (drop n (slots r))) as [|a l] eqn:Eh; [reflexivity|].
    assert (Some a ∈ slots r) as Ha.
    { rewrite <- (take_drop n (slots r)). apply elem_of_app. right. apply elem_of_flatten. rewrite Eh. left. }
    apply elem_of_flatten in Ha. rewrite Hh in Ha. by apply not_elem_of_nil in Ha.
Qed.

Lemma cancel_inv s r : inv r -> inv (cancel s r).
Proof. intros Hi. unfold cancel. destruct (_ =? _); [by apply (inv_same _ _ r)|done]. Qed.

End decode.

Lemma drop_picture_inv `{Layout} Q eb en p r : 0 <= pic_charged p ->
  inv Q (eb + pic_charged p) (en + 1) r -> inv Q eb en (drop_picture p r).
Proof.
  intros Hc [Hb Hp]. split; [|by apply (phases_same r)].
  destruct Hb as [C1 C2 C3 C4 C5 C6 C7 C8 [L1 L2 L3] C10]. split; try done.
  unfold drop_picture, release. split; fields; cbn; lia.
Qed.

Lemma flatten_vacant n k : flatten (drop n (replicate k (@None Assembly))) = [].
Proof. rewrite drop_replicate. by induction (k - n)%nat. Qed.

Lemma new_inv `{Layout} Q c b l r : limits_ok (limits c) -> bindings_ok (bindings c) ->
  used_bytes l <= max_bytes l -> used_pictures l <= max_pictures l ->
  new c b l = Ok r -> inv Q (used_bytes l) (used_pictures l) r.
Proof.
  intros Hl Hbi Hb Hn. unfold new. destruct (validate_policy (policy c)) as [[]|e] eqn:Ep; [|done]. cbn.
  destruct (negb _) eqn:Efit; [done|]. apply negb_false_iff in Efit. intros [= <-].
  assert (flatten (replicate SLOTS (@None Assembly)) = []) as Hh by done.
  split; [|by apply phases_idle].
  assert (2 <= Limits.reassembly_window_pictures (protocol (limits c)) <= 12) as Hw.
  { destruct Hl as (Hv & _). apply (Hv Limits.ReassemblyWindowPictures). }
  split; try done; unfold window; fields.
  - lia.
  - apply (flatten_vacant _ SLOTS).
  - by intros a ?%not_elem_of_nil.
  - constructor.
  - split; cbn; lia.
Qed.

End ReceiverDecode.
