(* ===== verification/ReceiverSession.v ===== *)
(** Whole sessions of the receiving pipeline, and the dependency chain of its pictures. *)

From S2P Require Import Prelude.
From S2P Require Import Limits.
From S2P Require Import Bytes.
From S2P Require Import WireRecord.
From S2P Require Import WireMedia.
From S2P Require Import WireMediaProps.
From S2P Require Import Delivery.
From S2P Require Import Assembly.
From S2P Require Import AssemblyClaims.
From S2P Require Import Receiver.
From S2P Require Import ReceiverInv.
From S2P Require Import ReceiverSteps.
From S2P Require Import ReceiverDecode.

(** * A receiver and the pictures it handed out

    The calls an owner of a [ReceivePipeline] makes, in any order, together with the
    pictures it still holds: those keep their share of the budget until they are
    dropped.  The invariant of the receiver is the invariant of the session. *)

Module ReceiverSession.
Import Media MediaProps Delivery Assembly AssemblyProps Receiver ReceiverInv ReceiverSteps ReceiverDecode.

Record Session := mk_session { rx : ReceivePipeline; pictures : list ReceivedPicture }.

(** The public methods; pictures are named by their position. *)
Inductive Call :=
| CReceive (al : Allocator) (ch : Channel) (packet : bytes) (now : Z)
| CTick (now : Z)
| CTakeDecodable (now : Z)
| CAcknowledgeDecode (k : nat) (success : bool) (now : Z)
| CDropPicture (k : nat)
| CRepairOffer (now : Z) (out : bytes)
| CDecoderConfigured (now : Z)
| CConfigureFrameRate (fps : Z)
| CReplace (e : MediaEpoch) (b : MediaBindings) (now : Z)
| CCancel (s : Z)
| CClose.

(** The time a call carries. *)
Definition time_of (c : Call) : option Z :=
  match c with
  | CReceive _ _ _ now | CTick now | CTakeDecodable now | CAcknowledgeDecode _ _ now | CRepairOffer now _
  | CDecoderConfigured now | CReplace _ _ now => Some now
  | CDropPicture _ | CConfigureFrameRate _ | CCancel _ | CClose => None
  end.

Section session.
Context `{Layout}.

(** A method of the receiver, whatever it returns. *)
Definition on_receiver {A} (m : PM A) (s : Session) : Session := mk_session (snd (m (rx s))) (pictures s).

(** The picture a call hands out, and the session after it. *)
Definition call (c : Call) (s : Session) : option ReceivedPicture * Session :=
  match c with
  | CReceive al ch packet now => (None, on_receiver (receive al ch packet now) s)
  | CTick now => (None, on_receiver (tick now) s)
  | CTakeDecodable now =>
      match take_decodable now (rx s) with
      | (Ok (Some p), r) => (Some p, mk_session r (pictures s ++ [p]))
      | (_, r) => (None, mk_session r (pictures s))
      end
  | CAcknowledgeDecode k success now =>
      match pictures s !! k with
      | Some p => (None, on_receiver (acknowledge_decode p success now) s)
      | None => (None, s)
      end
  | CDropPicture k =>
      match pictures s !! k with
      | Some p => (None, mk_session (drop_picture p (rx s)) (delete k (pictures s)))
      | None => (None, s)
      end
  | CRepairOffer now out => (None, on_receiver (repair_offer now out) s)
  | CDecoderConfigured now => (None, on_receiver (decoder_configured now) s)
  | CConfigureFrameRate fps => (None, on_receiver (configure_frame_rate fps) s)
  | CReplace e b now => (None, on_receiver (replace e b now) s)
  | CCancel scope => (None, mk_session (cancel scope (rx s)) (pictures s))
  | CClose => (None, mk_session (close (rx s)) (pictures s))
  end.

(** A sequence of calls: the pictures handed out, in order, and the session. *)
Fixpoint run (cs : list Call) (s : Session) : list ReceivedPicture * Session :=
  match cs with
  | [] => ([], s)
  | c :: cs =>
      let (p, s) := call c s in
      let (ps, s) := run cs s in
      (option_list p ++ ps, s)
  end.

(** Arguments the types of the program allow: packets are bytes, bindings are made
    by their constructors, the buffer of a request holds a record. *)
Definition call_typed (c : Call) (s : Session) : Prop :=
  match c with
  | CReceive _ _ packet _ => Forall is_byte packet
  | CReplace _ b _ => bindings_ok b
  | CRepairOffer _ out => record_bytes (limits (config (rx s))) <= Z.of_nat (length out) <= usize_max
  | _ => True
  end.

Section content.
Context {Q : Assembly -> Prop} {okd : FrameDescriptor -> Prop} {okf : Fragment -> Prop}
  {okc : RecoveryChunk -> Prop} `{!Content Q okd okf okc}.

(** Every packet carries what [Q] allows. *)
Definition call_admissible (c : Call) (s : Session) : Prop :=
  match c with
  | CReceive _ ch packet _ =>
      admissible (okd := okd) (okf := okf) (okc := okc) (limits (config (rx s))) (bindings (config (rx s))) ch packet
  | _ => True
  end.

Fixpoint run_ok (cs : list Call) (s : Session) : Prop :=
  match cs with
  | [] => True
  | c :: cs => call_typed c s /\ call_admissible c s /\ run_ok cs (snd (call c s))
  end.

(** [b0] bytes and [n0] pictures are charged by other owners of the budget. *)
Fixpoint charged_out (ps : list ReceivedPicture) : Z :=
  match ps with [] => 0 | p :: ps => pic_charged p + charged_out ps end.

Record session_inv (b0 n0 : Z) (s : Session) : Prop := {
  si_receiver : inv Q (b0 + charged_out (pictures s)) (n0 + Z.of_nat (length (pictures s))) (rx s);
  si_pictures : Forall (fun p => 0 <= pic_charged p) (pictures s)
}.

(** Every picture held after a call was held before it with the same deadlines, or
    begins with the call. *)
Definition keeps_deadlines (c : Call) (r r' : ReceivePipeline) : Prop :=
  forall a', a' ∈ held r' -> (exists a, a ∈ held r /\ same_picture a a')
                            \/ exists now, time_of c = Some now /\ born now r a'.

Lemma keeps_sound eb en c now r r' : time_of c = Some now -> sound (Q := Q) eb en now r r' -> keeps_deadlines c r r'.
Proof. intros Ht [_ He] a Ha. destruct (He a Ha) as [?|?]; [by left|right; by exists now]. Qed.

Lemma keeps_subset c r r' : (forall a, a ∈ held r' -> a ∈ held r) -> keeps_deadlines c r r'.
Proof. intros Hs a Ha. left. exists a. split; [by apply Hs|done]. Qed.

Lemma charged_out_app ps qs : charged_out (ps ++ qs) = charged_out ps + charged_out qs.
Proof. induction ps as [|p ps IH]; cbn; [done|]. rewrite IH. lia. Qed.

Lemma charged_out_delete ps k p : ps !! k = Some p -> charged_out ps = charged_out (delete k ps) + pic_charged p.
Proof.
  intros Hk. rewrite delete_take_drop, charged_out_app. rewrite <- (take_drop_middle ps k p Hk) at 1.
  rewrite charged_out_app. cbn. lia.
Qed.

Lemma on_receiver_inv {A} b0 n0 c now (m : PM A) s : time_of c = Some now -> session_inv b0 n0 s ->
  wp m (rx s) (fun _ r' => sound (Q := Q) (b0 + charged_out (pictures s)) (n0 + Z.of_nat (length (pictures s))) now (rx s) r') ->
  session_inv b0 n0 (on_receiver m s) /\ keeps_deadlines c (rx s) (rx (on_receiver m s)).
Proof.
  intros Ht [Hi Hp] Hw. unfold wp in Hw. split; [by split; [apply Hw|]|]. by eapply keeps_sound.
Qed.

Lemma call_inv b0 n0 c s : session_inv b0 n0 s -> call_typed c s -> call_admissible c s ->
  session_inv b0 n0 (snd (call c s)) /\ keeps_deadlines c (rx s) (rx (snd (call c s))).
Proof using All.
  intros Hs Hty Hok. pose proof Hs as [Hi Hps]. destruct c as [al ch packet now|now|now|k success now|k|now out|now|fps|e b now|scope|];
    cbn [call snd]; try (eapply on_receiver_inv; [reflexivity|exact Hs|]).
  - by apply receive_spec.
  - eapply wp_mono; [by apply (tick_spec _ _ now (rx s) Hi)|]. cbv beta. intros [u|e] r'.
    + intros [-> _]. by apply sound_same.
    + intros (? & ? & _). by apply sound_subset.
  - pose proof (take_spec _ _ now (rx s) Hi) as Ht. unfold wp in Ht.
    destruct (take_decodable now (rx s)) as [[[p|]|e] r']; cbn [fst snd] in *.
    + destruct Ht as (a & Hh & Hi' & Hsub & _). destruct (hd_picture _ _ _ _ Hh) as (_ & _ & Hc & _).
      pose proof (good_charged _ _ _ (bs_good _ _ _ _ (proj1 Hi) a (hd_held _ _ _ _ Hh))) as Hpos.
      split; [split|by apply keeps_subset]; cbn [rx pictures].
      * rewrite charged_out_app, length_app. cbn. rewrite Hc, Z.add_0_r.
        replace (n0 + Z.of_nat (length (pictures s) + 1)) with (n0 + Z.of_nat (length (pictures s)) + 1) by lia.
        by rewrite Z.add_assoc.
      * apply Forall_app. split; [done|]. constructor; [lia|done].
    + destruct Ht as (-> & _). split; [split; [|done]|by apply keeps_subset]. by apply (inv_same _ _ (rx s)).
    + destruct Ht as (? & ? & _). split; [by split|by apply keeps_subset].
  - destruct (pictures s !! k) as [p|]; cbn [snd]; [|split; [done|by apply keeps_subset]].
    eapply on_receiver_inv; [reflexivity|exact Hs|].
    eapply wp_mono; [apply (acknowledge_spec _ _ p success now (rx s) Hi)|]. cbv beta. by intros res r' [? _].
  - destruct (pictures s !! k) as [p|] eqn:Hk; cbn [snd]; [|split; [done|by apply keeps_subset]].
    pose proof (proj1 (Forall_lookup _ _) Hps k p Hk) as Hc. split; [split|by apply keeps_subset]; cbn [rx pictures].
    + apply drop_picture_inv; [done|]. rewrite <- Z.add_assoc, <- (charged_out_delete _ _ _ Hk).
      replace (n0 + Z.of_nat (length (delete k (pictures s))) + 1) with (n0 + Z.of_nat (length (pictures s))); [done|].
      rewrite length_delete by done. apply lookup_lt_Some in Hk. lia.
    + by apply Forall_delete.
  - eapply wp_mono; [by apply (repair_offer_spec _ _ now out (rx s) Hi)|]. cbv beta. by intros res r' [? _].
  - by apply configured_spec.
  - destruct (frame_rate_spec _ _ fps (rx s) Hi) as [Hi' Hsl]. split; [by split|].
    apply keeps_subset. cbn [rx on_receiver]. by rewrite Hsl.
  - by apply replace_spec.
  - split; [split; [by apply cancel_inv|done]|]. apply keeps_subset. unfold cancel. by destruct (_ =? _).
  - destruct (close_inv _ _ _ (proj1 Hi)) as [? Hh]. split; [by split|]. apply keeps_subset. cbn [rx].
    rewrite Hh. by intros a ?%not_elem_of_nil.
Qed.

End content.
End session.
End ReceiverSession.

(** * The receiving pipeline: the chain of references

    Within one scope the receiver hands out a chain of pictures.  [front] is its last
    link: the picture being decoded, or else the last one decoded.  Only
    [take_decodable] moves the front; every other method leaves it where it is or
    stops the receiver, and a stopped receiver stays stopped until it is replaced. *)

Module ReceiverChain.
Import Media Delivery Assembly Receiver ReceiverInv ReceiverSteps.

Definition front (r : ReceivePipeline) : option Z :=
  match in_flight r with Some q => Some (if_frame q) | None => last_decoded r end.

(** The same scope and limits, and either stopped or still at the same link; closing is final. *)
Definition continues (r r' : ReceivePipeline) : Prop :=
  scope r' = scope r /\ limits (config r') = limits (config r) /\ (state r = Closed -> state r' = Closed)
  /\ (stopped (state r') = true \/ stopped (state r) = false /\ front r' = front r).

Definition continuing {A} (m : PM A) : Prop := forall r, continues r (snd (m r)).

(** Nothing the chain depends on differs. *)
Definition same_chain (r r' : ReceivePipeline) : Prop :=
  scope r' = scope r /\ limits (config r') = limits (config r) /\ state r' = state r /\ in_flight r' = in_flight r /\ last_decoded r' = last_decoded r.

Lemma same_continues r r' : same_chain r r' -> continues r r'.
Proof.
  intros (H1 & H0 & H2 & H3 & H4). split; [done|]. split; [done|]. unfold front. rewrite H2, H3, H4. split; [done|].
  destruct (stopped (state r)); [by left|by right].
Qed.

Lemma stop_continues r r' : scope r' = scope r -> limits (config r') = limits (config r) -> (state r = Closed -> state r' = Closed) ->
  stopped (state r') = true -> continues r r'.
Proof. intros ? ? ? ?. split_and!; [done|done|done|by left]. Qed.

#[export] Instance continues_preorder : PreOrder continues.
Proof.
  split; [intros r; by apply same_continues|]. intros x y z (H1 & L1 & C1 & H2) (H3 & L2 & C2 & H4).
  split_and!; [congruence|congruence|auto|].
  destruct H4 as [?|[Hy Hf]]; [by left|]. destruct H2 as [?|[Hx Hf']]; [congruence|].
  right. split; [done|congruence].
Qed.

(** ** Closure *)

Create HintDb chain.

Lemma continuing_same {A} (m : PM A) : (forall r, snd (m r) = r) -> continuing m.
Proof. intros Hm r. by rewrite Hm. Qed.

Lemma continuing_ret {A} (a : A) : continuing (mret a).
Proof. by apply continuing_same. Qed.
Lemma continuing_fail {A} e : continuing (fail (A := A) e).
Proof. by apply continuing_same. Qed.
Lemma continuing_gets {A} (f : ReceivePipeline -> A) : continuing (gets f).
Proof. by apply continuing_same. Qed.
Lemma continuing_lift {A} (x : Result DeliveryError A) : continuing (lift x).
Proof. by apply continuing_same. Qed.
Lemma continuing_readr {A} (f : ReceivePipeline -> Result DeliveryError A) : continuing (readr f).
Proof. by apply continuing_same. Qed.
Lemma continuing_refuse c e : continuing (refuse_if c e).
Proof. apply continuing_same. intros r. unfold refuse_if. by destruct (c r). Qed.
Lemma continuing_modify f : (forall r, continues r (f r)) -> continuing (modify f).
Proof. intros Hf r. apply Hf. Qed.
Lemma continuing_bind {A B} (m : PM A) (k : A -> PM B) :
  continuing m -> (forall a, continuing (k a)) -> continuing (m ≫= k).
Proof.
  intros Hm Hk r. unfold mbind, M_bind. specialize (Hm r). destruct (m r) as [[a|e] r1]; cbn [snd] in *; [|done].
  etrans; [done|apply Hk].
Qed.
Lemma continuing_on_ledger {A} (m : M Ledger DeliveryError A) : continuing (on_ledger m).
Proof. intros r. unfold on_ledger. destruct (m (ledger r)). by apply same_continues. Qed.
Lemma continuing_on_slot {A} i (m : M Assembly DeliveryError A) : continuing (on_slot i m).
Proof.
  intros r. unfold on_slot. destruct (mjoin _) as [a|]; [|done]. destruct (m a). by apply same_continues.
Qed.
Lemma continuing_fail_chain {A} e : continuing (fail_chain (A := A) e).
Proof.
  intros r. apply stop_continues; [| | |apply fail_stopped];
    unfold fail_chain, clear, drop_where; fields; case_bool_decide as E; fields; done.
Qed.

#[export] Hint Resolve continuing_ret continuing_fail continuing_gets continuing_lift continuing_readr
  continuing_refuse continuing_modify continuing_bind continuing_on_ledger continuing_on_slot
  continuing_fail_chain : chain.

(** Step through the binds of a method. *)
Ltac chain := repeat (first [apply continuing_bind; [|intros ?] | split_match]; auto with chain).

Lemma drop_where_chain p r : same_chain r (drop_where p r).
Proof. done. Qed.

Lemma discard_chain r : same_chain r (discard_superseded r).
Proof. unfold discard_superseded. by destruct (queued_independent_frame r). Qed.

(** ** Methods *)

Lemma continuing_check_clock now : continuing (check_clock now).
Proof.
  intros r. unfold check_clock. destruct (is_some_and _ _); cbn [snd]; [by apply stop_continues|by apply same_continues].
Qed.
#[export] Hint Resolve continuing_check_clock : chain.

Lemma continuing_tick now : continuing (tick now).
Proof.
  unfold tick. apply continuing_bind; [auto with chain|]. intros _ r. unfold method.
  destruct (_ && _); [by apply stop_continues|]. destruct (stopped _); [done|].
  destruct (is_some_and _ _); [apply continuing_fail_chain|]. destruct (_ || _); [apply continuing_fail_chain|done].
Qed.
#[export] Hint Resolve continuing_tick : chain.

Section arrivals.
Context `{Layout} (al : Allocator).

Lemma continuing_slot d now reliable : continuing (slot al d now reliable).
Proof.
  intros r. unfold slot. destruct (find_slot _ _).
  - destruct (mjoin _); [|done]. by destruct (_ || _).
  - match goal with |- continues r (snd (?m r)) => enough (continuing m) by auto end.
    chain. apply continuing_modify. intros r1. by apply same_continues.
Qed.
#[local] Hint Resolve continuing_slot : chain.

Lemma continuing_datagram_slot d now : continuing (datagram_slot al d now).
Proof.
  intros r. unfold datagram_slot. destruct (_ || _).
  - match goal with |- continues r (snd (?m r)) => enough (continuing m) by auto end. chain.
  - match goal with |- continues r (snd (?m r)) => enough (continuing m) by auto end.
    chain. apply continuing_modify. intros r1. destruct (mjoin _); [by apply same_continues|done].
Qed.
#[local] Hint Resolve continuing_datagram_slot : chain.

Lemma continuing_receive ch packet now : continuing (receive al ch packet now).
Proof.
  intros r. unfold receive. destruct (decode _ _ _ _) as [record|e].
  - match goal with |- continues r (snd (?m r)) => enough (continuing m) by auto end.
    apply continuing_bind; [auto with chain|intros _]. apply continuing_bind; [auto with chain|intros _].
    intros r1. unfold method.
    assert (forall res, continuing (settle res)) as Hsettle.
    { intros [u|e] r2; cbn; [done|]. destruct e; try apply continuing_fail_chain; [done|].
      destruct (negb _); apply continuing_fail_chain. }
    match goal with |- context [?m r1] => assert (continuing m) as Hm end.
    { destruct ch; auto with chain; unfold handle; (apply continuing_bind; [auto with chain|]); intros m.
      - intros r2. unfold on_fragment. destruct (obsolete _ _); [done|].
        match goal with |- continues r2 (snd (?m r2)) => enough (continuing m) by auto end.
        chain; apply continuing_modify; intros r3; [apply same_continues, discard_chain|done].
      - unfold on_recovery. chain. apply continuing_modify. intros r3. by apply same_continues.
      - intros r2. unfold on_progress. destruct (match pipeline m with Failed => true | _ => false end); [done|].
        destruct (is_some_and _ _); [done|]. destruct (obsolete _ _); [by apply same_continues|].
        match goal with |- continues r2 (snd (?m r2)) => enough (continuing m) by auto end.
        apply continuing_bind; [destruct (_ && _ && _); chain|intros _].
        apply continuing_bind; [|intros _; apply continuing_bind; [|auto with chain]];
          apply continuing_modify; intros r3; [destruct (_ && _ && _)|]; by apply same_continues. }
    specialize (Hm r1). destruct (_ r1) as [res r2]. cbn [snd] in Hm. etrans; [exact Hm|apply Hsettle].
  - destruct e; try apply continuing_fail_chain. done.
Qed.

End arrivals.

(** A tick that succeeds finds a running receiver. *)
Lemma tick_running now r r' : tick now r = (Ok tt, r') ->
  stopped (state r') = false /\ live r' = true /\ r' = r <| last_now := Some now |>.
Proof.
  unfold tick, mbind, M_bind. unfold check_clock. destruct (is_some_and _ (last_now r)); [done|].
  unfold method. generalize (r <| last_now := Some now |>) as r1. intros r1.
  destruct (live r1) eqn:Hl, (stopped (state r1)) eqn:Hs; cbn [negb andb]; try done.
  destruct (is_some_and _ _); [done|]. destruct (_ || _); [done|]. by intros [= <-].
Qed.

Lemma continuing_acknowledge p success now : continuing (acknowledge_decode p success now).
Proof.
  unfold acknowledge_decode. apply continuing_bind; [auto with chain|intros _]. intros r.
  pose proof (continuing_tick now r) as Hc. unfold mbind at 1, M_bind at 1.
  destruct (tick now r) as [[[]|e] r1] eqn:Et; cbn [snd] in *; [|done].
  destruct (tick_running now r r1 Et) as (Hs & _ & _). etrans; [exact Hc|]. unfold mbind, M_bind, refuse_if.
  destruct (is_none_or _ _) eqn:E; [done|]. destruct success; cbn [negb]; [|apply continuing_fail_chain].
  unfold modify. cbn [snd]. etrans; [|apply same_continues, discard_chain].
  split; [done|]. split; [done|]. split; [intros E1; by rewrite E1 in Hs|]. right. split; [done|]. unfold front. fields.
  destruct (in_flight r1) as [q|]; [|done]. cbn in E. f_equal. lia.
Qed.

Lemma continuing_repair_offer now out : continuing (repair_offer now out).
Proof.
  unfold repair_offer. apply continuing_bind; [auto with chain|intros _]. intros r. unfold method.
  destruct (select _ _) as [[i a]|]; [|done]. cbv zeta.
  match goal with |- context [match ?x with Ok _ => _ | Err _ => _ end] => destruct x as [[[n next] out']|e] end;
    [by apply same_continues|done].
Qed.

Lemma continuing_configure fps : continuing (configure_frame_rate fps).
Proof. unfold configure_frame_rate. chain. apply continuing_modify. intros r. by apply same_continues. Qed.

Lemma continuing_configured now : continuing (decoder_configured now).
Proof.
  unfold decoder_configured. apply continuing_bind; [auto with chain|intros _]. intros r.
  unfold mbind, M_bind, refuse_if, readr, modify. case_bool_decide as Hs; [|done]. cbn [negb].
  destruct (deadline _ _); [|done]. split; [done|]. split; [done|]. rewrite Hs. split; [done|]. by right.
Qed.

Lemma continues_cancel s r : continues r (cancel s r).
Proof. unfold cancel. destruct (_ =? _); [by apply same_continues|done]. Qed.

Lemma continues_close r : continues r (close r).
Proof. by apply stop_continues. Qed.

Lemma continues_drop_picture p r : continues r (drop_picture p r).
Proof. by apply same_continues. Qed.

(** A replacement that succeeds starts a scope with an empty chain. *)
Lemma replace_chain e b now r :
  let r' := snd (replace e b now r) in
  continues r r' \/ scope r' = scope r + 1 /\ front r' = None /\ state r' = AwaitingConfiguration /\ state r <> Closed
    /\ limits (config r') = limits (config r).
Proof.
  cbv zeta. remember (snd (replace e b now r)) as r' eqn:Hr'. revert Hr'. unfold replace.
  pose proof (continuing_check_clock now r) as Hc. unfold check_clock, mbind, M_bind, refuse_if, modify in *.
  destruct (is_some_and _ (last_now r)); cbn [snd] in *; [intros ->; by left|]. case_bool_decide as Hs; [intros ->; by left|].
  destruct (_ || _); [intros ->; by left|]. intros ->. right. done.
Qed.

(** [take_decodable] moves the front to the picture it hands out. *)
Lemma take_chain now r :
  let '(res, r') := take_decodable now r in
  match res with
  | Ok (Some p) => scope r' = scope r /\ pic_scope p = scope r /\ front r' = Some (frame (pic_descriptor p))
                   /\ stopped (state r) = false /\ limits (config r') = limits (config r)
  | _ => continues r r'
  end.
Proof.
  unfold take_decodable. pose proof (continuing_tick now r) as Hc. unfold mbind, M_bind.
  destruct (tick now r) as [[[]|e] r1] eqn:Et; cbn [snd] in *; [|done].
  destruct (tick_running now r r1 Et) as (Hs & _ & Hr1). assert (stopped (state r) = false) as Hs' by (by subst r1).
  assert (scope r1 = scope r) as Hsc by apply Hc.
  assert (limits (config r1) = limits (config r)) as Hli by apply Hc. clear Hr1.
  unfold method. destruct (is_some (in_flight r1)); [done|].
  destruct (select _ _) as [[i a]|]; [|done]. cbn [pic_scope pic_descriptor].
  assert (scope (hand_out i a r1) = scope r1 /\ limits (config (hand_out i a r1)) = limits (config r1)) as [Ho Ho'].
  { unfold hand_out, drop_where. destruct (is_some _); fields; by case_bool_decide. }
  rewrite Ho. split_and!; try done. by rewrite Ho'.
Qed.

End ReceiverChain.
