(* ===== verification/ReceiverClaims.v ===== *)
(** * What the media receiver promises

    Statements about every sequence of calls on a receiver that [ReceivePipeline::new]
    returned: the bytes of the pictures it hands out, their order, the memory it
    charges, its deadlines, its repair requests and what a failure leaves. *)

From S2P Require Import Prelude.
From S2P Require Import Bytes.
From S2P Require Import Limits.
From S2P Require Import WireRecord.
From S2P Require Import WireRecordProps.
From S2P Require Import WireMedia.
From S2P Require Import WireMediaProps.
From S2P Require Import Delivery.
From S2P Require Import Assembly.
From S2P Require Import AssemblyClaims.
From S2P Require Import RepairProps.
From S2P Require Import Receiver.
From S2P Require Import ReceiverInv.
From S2P Require Import ReceiverSteps.
From S2P Require Import ReceiverDecode.
From S2P Require Import ReceiverSession.

Module ReceiverClaims.
Import Media MediaProps Delivery Assembly AssemblyProps AssemblyClaims RepairProps Receiver ReceiverInv ReceiverSteps
  ReceiverDecode ReceiverSession ReceiverChain.

(** ** What packets may carry *)

(** Anything. *)
#[export] Instance any_content `{Layout} : Content (fun _ => True) (fun _ => True) (fun _ => True) (fun _ => True).
Proof. by split. Qed.

(** Pieces of the host's pictures, given by frame number. *)
Section source.
Context (src : Z -> bytes).

Definition holds_source (a : Assembly) : Prop :=
  Z.of_nat (length (src (frame_of a))) = total_bytes (descriptor a) /\ agrees (src (frame_of a)) a.
Definition true_descriptor (d : FrameDescriptor) : Prop := Z.of_nat (length (src (frame d))) = total_bytes d.
Definition true_fragment (f : Fragment) : Prop :=
  true_descriptor (Media.descriptor f)
  /\ fbytes f = piece (Media.descriptor f) (src (frame (Media.descriptor f))) (index f).
Definition true_chunk (c : RecoveryChunk) : Prop :=
  Z.of_nat (length (src (c_frame c))) = c_total_bytes c
  /\ c_bytes c = slice (Z.to_nat (c_offset c)) (Z.to_nat (c_offset c) + length (c_bytes c)) (src (c_frame c)).

#[export] Instance source_content `{Layout} : Content holds_source true_descriptor true_fragment true_chunk.
Proof.
  split.
  - intros d c now until a Hd [Hw Hda Hk He Ha _ _ _ _]. unfold holds_source, frame_of. rewrite Hda. done.
  - intros l a f now delay Hw Ht Hv [Hd Hf] Hda [Hl Ha].
    pose proof (fragment_spec l a Hw f now delay Ht Hv) as Hspec. unfold holds_source, frame_of in *.
    rewrite Hda in Hl, Ha. pose proof (fragment_agrees l a Hw f now delay _ Ht Hv Hf Ha) as Hag.
    destruct (Assembly.fragment f now delay a) as [res a']. cbn [snd] in *. destruct Hspec as (_ & Hs & _).
    by rewrite (sp_descriptor _ _ Hs), Hda.
  - intros l a c max Hw Ht Hv [Hd Hc] Hf [Hl Ha].
    pose proof (recovery_spec l a Hw c max Ht Hv) as Hspec. unfold holds_source in *. rewrite Hf in Hl, Ha.
    pose proof (recovery_agrees l a Hw c max _ Ht Hv Hc Ha) as Hag.
    destruct (Assembly.recovery c max a) as [res a']. cbn [snd] in *. destruct Hspec as (_ & Hs & _).
    unfold frame_of in *. by rewrite (sp_descriptor _ _ Hs), Hf.
  - intros a next n Hq. exact Hq.
  - by intros f [? _].
  - by intros c s [? _].
Qed.

End source.

Section claims.
Context `{Layout}.

(** Packets that carry pieces of the host's pictures, in the order of the calls. *)
Definition truthful (src : Z -> bytes) : list Call -> Session -> Prop :=
  run_ok (okd := true_descriptor src) (okf := true_fragment src) (okc := true_chunk src).

(** Any packets. *)
Definition typed_run : list Call -> Session -> Prop :=
  run_ok (okd := fun _ => True) (okf := fun _ => True) (okc := fun _ => True).

(** A receiver as its constructor makes it, on a budget that others may share. *)
Record started (c : ReceiveConfig) (b : Z) (l : Ledger) (r : ReceivePipeline) : Prop := {
  st_limits : limits_ok (limits c);
  st_bindings : bindings_ok (bindings c);
  st_budget : used_bytes l <= max_bytes l /\ used_pictures l <= max_pictures l;
  st_new : new c b l = Ok r
}.

Lemma started_inv Q c b l r : started c b l r -> session_inv (Q := Q) (used_bytes l) (used_pictures l) (mk_session r []).
Proof.
  intros [Hl Hb [H1 H2] Hn]. split; [|constructor]. cbn. rewrite !Z.add_0_r. by apply (new_inv Q c b).
Qed.

Lemma run_inv {Q okd okf okc} `{!Content Q okd okf okc} b0 n0 cs : forall s, session_inv (Q := Q) b0 n0 s ->
  run_ok (okd := okd) (okf := okf) (okc := okc) cs s -> session_inv (Q := Q) b0 n0 (snd (run cs s)).
Proof.
  induction cs as [|c cs IH]; intros s Hs Hok; [done|]. destruct Hok as (Hty & Had & Hok). cbn.
  pose proof (call_inv _ _ c s Hs Hty Had) as [Hs' _]. destruct (call c s) as [p s']. cbn [snd] in *.
  specialize (IH s' Hs' Hok). by destruct (run cs s').
Qed.

(** Reachable from the constructor. *)
Definition reachable (l : Ledger) (s : Session) : Prop :=
  exists c b r cs, started c b l r /\ typed_run cs (mk_session r []) /\ s = snd (run cs (mk_session r [])).

Lemma reachable_inv l s : reachable l s -> session_inv (Q := fun _ => True) (used_bytes l) (used_pictures l) s.
Proof.
  intros (c & b & r & cs & Hst & Hok & ->). eapply run_inv; [by eapply started_inv|exact Hok].
Qed.

(** ** Bytes *)

Lemma take_source src b0 n0 c s p : session_inv (Q := holds_source src) b0 n0 s -> fst (call c s) = Some p ->
  pic_bytes p = src (frame (pic_descriptor p)) /\ pic_bytes p <> [].
Proof.
  intros [Hi _] Hp. destruct c; cbn in Hp; try done; [|by destruct (pictures s !! k)|by destruct (pictures s !! k)].
  pose proof (take_spec _ _ now (rx s) Hi) as Ht. unfold wp in Ht.
  destruct (take_decodable now (rx s)) as [[[q|]|e] r']; cbn in Hp; try done. injection Hp as ->. cbn [fst snd] in Ht.
  destruct Ht as (a & Hh & _). destruct (hd_picture _ _ _ _ Hh) as (-> & -> & _).
  destruct (bs_good _ _ _ _ (proj1 Hi) a (hd_held _ _ _ _ Hh)) as [Hw _ [Hl Ha]].
  assert (abytes a = src (frame (descriptor a))) as Hb by (eapply complete_bytes; [exact Hw|exact Ha|by apply Hh|exact Hl]).
  split; [done|]. rewrite Hb. intros E. unfold frame_of in Hl. rewrite E in Hl.
  destruct Hw as [Hty Hv _ _]. pose proof (descriptor_positive _ _ Hty Hv). cbn in Hl. lia.
Qed.

(** What holds of each picture a call hands out holds of all of them. *)
Lemma run_pictures {Q okd okf okc} `{!Content Q okd okf okc} (P : ReceivedPicture -> Prop) b0 n0 :
  (forall c s p, session_inv (Q := Q) b0 n0 s -> fst (call c s) = Some p -> P p) ->
  forall cs s, session_inv (Q := Q) b0 n0 s -> run_ok (okd := okd) (okf := okf) (okc := okc) cs s ->
  forall p, p ∈ fst (run cs s) -> P p.
Proof.
  intros HP cs. induction cs as [|k cs IH]; intros s Hs Hok p Hp.
  { by apply not_elem_of_nil in Hp. }
  destruct Hok as (Hty & Had & Hok). cbn in Hp. pose proof (call_inv _ _ k s Hs Hty Had) as [Hs' _].
  pose proof (fun q => HP k s q Hs) as Htake. destruct (call k s) as [o s']. cbn [fst snd] in *.
  specialize (IH s' Hs' Hok). destruct (run cs s') as [ps s'']. cbn [fst] in *.
  apply elem_of_app in Hp as [Hp|Hp]; [|by apply IH]. destruct o as [q|]; [|by apply not_elem_of_nil in Hp].
  apply list_elem_of_singleton in Hp as ->. by apply Htake.
Qed.

(** The decoder sees the host's pictures.  Whatever the order of calls, if every
    packet that arrives on the session's channels carries a piece of the host's
    picture of that frame (fragments, recovery chunks and announcements in any
    order, repeated, late or missing), then each picture the receiver hands to the
    decoder is the host's picture of its frame, byte for byte: never a mixture, a
    prefix or a picture with a hole. *)
Theorem received_pictures_are_the_sent_ones src c b l r cs p :
  started c b l r -> truthful src cs (mk_session r []) ->
  p ∈ fst (run cs (mk_session r [])) -> pic_bytes p = src (frame (pic_descriptor p)).
Proof.
  intros Hst Hok. apply (run_pictures _ _ _ (fun c s p Hs Hp => proj1 (take_source src _ _ c s p Hs Hp)) cs _
    (started_inv (holds_source src) c b l r Hst) Hok).
Qed.

(** ** Order *)

(** The last frame handed out in a scope. *)
Definition last_frame (sc : Z) (ps : list ReceivedPicture) : option Z :=
  (fun p => frame (pic_descriptor p)) <$> last (filter (fun p => pic_scope p = sc) ps).

(** [p] is newer than everything its scope handed out before, and depends on nothing
    or on the picture handed out just before it. *)
Definition follows (past : list ReceivedPicture) (p : ReceivedPicture) : Prop :=
  (forall q, q ∈ past -> pic_scope q = pic_scope p -> frame (pic_descriptor q) < frame (pic_descriptor p))
  /\ (reference (pic_descriptor p) = None \/ reference (pic_descriptor p) = last_frame (pic_scope p) past).

Fixpoint in_order (past ps : list ReceivedPicture) : Prop :=
  match ps with
  | [] => True
  | p :: ps => follows past p /\ in_order (past ++ [p]) ps
  end.

(** What was handed out, against the chain of the receiver. *)
Record chained (past : list ReceivedPicture) (r : ReceivePipeline) : Prop := {
  cn_scopes q : q ∈ past -> pic_scope q <= scope r;
  cn_front : stopped (state r) = false -> last_frame (scope r) past = front r;
  cn_below q f : stopped (state r) = false -> q ∈ past -> pic_scope q = scope r -> front r = Some f ->
    frame (pic_descriptor q) <= f
}.

Lemma chained_continues past r r' : continues r r' -> chained past r -> chained past r'.
Proof.
  intros (Hs & _ & _ & Hc) [H1 H2 H3]. split; rewrite Hs; [done| |];
    (destruct Hc as [Hc|[Hr Hf]]; [by rewrite Hc|rewrite Hf; eauto]).
Qed.

Lemma last_frame_snoc sc ps p :
  last_frame sc (ps ++ [p]) = if decide (pic_scope p = sc) then Some (frame (pic_descriptor p)) else last_frame sc ps.
Proof.
  unfold last_frame. rewrite filter_app, filter_cons. destruct (decide _); cbn.
  - by rewrite last_snoc.
  - by rewrite app_nil_r.
Qed.

Lemma call_chain c s :
  match call c s with
  | (Some p, s') => exists now, c = CTakeDecodable now /\ take_decodable now (rx s) = (Ok (Some p), rx s')
  | (None, s') => continues (rx s) (rx s')
      \/ (exists e b now, c = CReplace e b now) /\ scope (rx s') = scope (rx s) + 1 /\ front (rx s') = None
         /\ state (rx s') = AwaitingConfiguration /\ state (rx s) <> Closed
         /\ limits (config (rx s')) = limits (config (rx s))
  end.
Proof.
  destruct c as [al ch packet now|now|now|k success now|k|now out|now|fps|e b now|sc|]; unfold call.
  - left. apply continuing_receive.
  - left. apply continuing_tick.
  - pose proof (take_chain now (rx s)) as Ht. destruct (take_decodable now (rx s)) as [[[p|]|e] r'] eqn:E.
    + by exists now.
    + by left.
    + by left.
  - destruct (pictures s !! k); left; [apply continuing_acknowledge|done].
  - destruct (pictures s !! k); left; [apply continues_drop_picture|done].
  - left. apply continuing_repair_offer.
  - left. apply continuing_configured.
  - left. apply continuing_configure.
  - destruct (replace_chain e b now (rx s)) as [?|?]; [by left|right]. split; [by eexists _, _, _|done].
  - left. apply continues_cancel.
  - left. apply continues_close.
Qed.

Lemma take_follows b0 n0 now past s p r' : session_inv (Q := fun _ => True) b0 n0 s -> chained past (rx s) ->
  take_decodable now (rx s) = (Ok (Some p), r') -> follows past p /\ chained (past ++ [p]) r'.
Proof.
  intros [Hi _] Hch Ht. pose proof (take_chain now (rx s)) as Hc. rewrite Ht in Hc.
  destruct Hc as (Hsc & Hp & Hf & Hrun & _). pose proof (take_spec _ _ now (rx s) Hi) as Hs. unfold wp in Hs.
  rewrite Ht in Hs. cbn [fst snd] in Hs. destruct Hs as (a & Hh & _). destruct Hch as [C1 C2 C3].
  destruct (hd_picture _ _ _ _ Hh) as (_ & Hd & _). pose proof (hd_order _ _ _ _ Hh) as Hord.
  assert (front (rx s) = last_decoded (rx s)) as Hfront by (unfold front; by rewrite (hd_idle _ _ _ _ Hh)).
  assert (forall q, q ∈ past -> pic_scope q = pic_scope p -> frame (pic_descriptor q) < frame (pic_descriptor p)) as Hlt.
  { intros q Hq Hqs. rewrite Hp in Hqs. specialize (C2 Hrun). rewrite Hfront in C2, C3.
    destruct (last_decoded (rx s)) as [f|] eqn:El.
    - specialize (C3 q f Hrun Hq Hqs eq_refl). cbn in Hord. unfold frame_of in Hord. rewrite Hd. lia.
    - exfalso. unfold last_frame in C2. assert (q ∈ filter (fun p => pic_scope p = scope (rx s)) past) as Hin
        by (by apply list_elem_of_filter).
      destruct (filter _ past) as [|x xs] eqn:Ex; [by apply not_elem_of_nil in Hin|].
      destruct (last (x :: xs)) eqn:E; [done|]. by apply last_None in E. }
  split.
  - split; [done|]. rewrite Hd, Hp, C2, Hfront by done. apply Hh.
  - split; rewrite Hsc.
    + intros q [Hq|Hq%list_elem_of_singleton]%elem_of_app; [by apply C1|subst q; lia].
    + intros _. rewrite last_frame_snoc, decide_True by done. done.
    + intros q f _ [Hq|Hq%list_elem_of_singleton]%elem_of_app Hqs; rewrite Hf; intros [= <-]; [|by subst q].
      assert (frame (pic_descriptor q) < frame (pic_descriptor p)); [apply Hlt; [done|congruence]|lia].
Qed.

(** C11. Pictures are decoded in dependency order.  Within one scope of a receiver
    (until it is replaced), the frames it hands to the decoder strictly increase,
    and each picture either stands alone or refers to exactly the picture handed
    out just before it.  This holds for every sequence of calls, whatever arrives
    and however decoding and acknowledgements interleave with it. *)
Theorem pictures_follow_their_references c b l r cs :
  started c b l r -> typed_run cs (mk_session r []) -> in_order [] (fst (run cs (mk_session r []))).
Proof.
  intros Hst. pose proof (started_inv (fun _ => True) c b l r Hst) as Hs.
  assert (chained [] (rx (mk_session r []))) as Hch.
  { destruct Hst as [_ _ _ Hn]. unfold new in Hn. destruct (validate_policy _); [|done]. cbn in Hn.
    destruct (negb _); [done|]. injection Hn as <-. split; [by intros q ?%not_elem_of_nil|done|].
    intros q f _ Hq. by apply not_elem_of_nil in Hq. }
  revert Hs Hch. generalize (mk_session r []) as s. generalize (@nil ReceivedPicture) as past. unfold typed_run.
  induction cs as [|k cs IH]; intros past s Hs Hch Hok; [done|]. destruct Hok as (Hty & Had & Hok). cbn.
  pose proof (call_inv _ _ k s Hs Hty Had) as [Hs' _]. pose proof (call_chain k s) as Hk.
  destruct (call k s) as [o s']. cbn [fst snd] in *. specialize (fun past => IH past s' Hs').
  destruct o as [p|].
  - destruct Hk as (now & -> & Ht). destruct (take_follows _ _ now past s p (rx s') Hs Hch Ht) as [Hf Hch'].
    specialize (IH _ Hch' Hok). destruct (run cs s') as [ps s'']. cbn. done.
  - assert (chained past (rx s')) as Hch'.
    { destruct Hk as [Hk|(_ & Hsc & Hf & Hst' & _)]; [by eapply chained_continues|]. destruct Hch as [C1 C2 C3].
      split; rewrite ?Hsc, ?Hf.
      - intros q Hq. specialize (C1 q Hq). lia.
      - intros _. unfold last_frame. rewrite filter_none; [done|]. intros q Hq. specialize (C1 q Hq). lia.
      - done. }
    specialize (IH _ Hch' Hok). destruct (run cs s') as [ps s'']. done.
Qed.

(** ** Memory *)

Lemma held_active Q eb en r : base Q eb en r -> (length (held r) <= active_slots r)%nat.
Proof.
  intros Hb. rewrite <- (take_drop (active_slots r) (slots r)), flatten_app, (bs_beyond _ _ _ _ Hb), app_nil_r.
  assert (forall l : list (option Assembly), (length (flatten l) <= length l)%nat) as Hlen.
  { intros l. induction l as [|[a|] l IH]; [done|..]; change (length (flatten (Some a :: l))) with (S (length (flatten l)))
      || change (length (flatten (None :: l))) with (length (flatten l)); cbn [length]; lia. }
  etrans; [apply Hlen|]. rewrite length_take. lia.
Qed.

(** C26. The receiver's memory is bounded and nothing leaks.  At every point the ledger
    holds exactly what other owners held at the start, what the slots charge and
    what the pictures handed out and not yet dropped charge; every assembly is
    charged at least its buffer and its structures; and the total stays within
    the compressed bytes and pictures of the session's limits, in at most 12
    slots, however packets, decodes, failures and replacements interleave. *)
Theorem receiver_memory_is_bounded l s : reachable l s ->
  let r := rx s in
  used_bytes (ledger r) = used_bytes l + charged_out (pictures s) + sum (held r)
  /\ used_pictures (ledger r) = used_pictures l + Z.of_nat (length (pictures s)) + Z.of_nat (length (held r))
  /\ used_bytes (ledger r) <= Limits.per_viewer_compressed_bytes (protocol (limits (config r)))
  /\ used_pictures (ledger r) <= Limits.reassembly_window_pictures (protocol (limits (config r)))
  /\ (length (held r) <= active_slots r <= 12)%nat
  /\ (forall a, a ∈ held r -> Z.of_nat (length (abytes a)) + struct_bytes <= charged a)
  /\ NoDup (frame_of <$> held r).
Proof.
  intros Hr. destruct (reachable_inv l s Hr) as [[Hb _] _]. cbv zeta. pose proof (held_active _ _ _ _ Hb) as Hact.
  pose proof (window_bounds _ _ _ Hb). pose proof (bs_active _ _ _ _ Hb) as [_ Hw].
  destruct (bs_ledger _ _ _ _ Hb) as [L1 L2 L3]. pose proof (bs_budget _ _ _ _ Hb) as Hfit.
  unfold budget_fits in Hfit. apply andb_true_iff in Hfit as [F1 F2]. split_and!; try lia.
  - intros a Ha. destruct (bs_good _ _ _ _ Hb a Ha) as [Hwf Hc _]. rewrite (wf_length _ _ Hwf). done.
  - apply Hb.
Qed.

(** ** Deadlines *)

Lemma policy_bounds p : validate_policy p = Ok tt -> display_budget_micros p <= 250000 /\ reference_budget_micros p <= 250000.
Proof. unfold validate_policy. destruct (_ || _) eqn:E; [done|]. intros _. guards. lia. Qed.

(** Deadlines are fixed when a picture begins.  No call moves the deadlines of a
    picture the receiver holds; a picture that begins has at most 250 ms, or ends
    with the recovery it belongs to; when the clock reaches a deadline the receiver
    drops everything it holds; and what it hands to the decoder is before its
    deadline and marked as displayable exactly when it still is. *)
Theorem deadlines_are_fixed l s c : reachable l s -> call_typed c s ->
  let '(o, s') := call c s in
  (forall a', a' ∈ held (rx s') ->
     (exists a, a ∈ held (rx s) /\ frame_of a' = frame_of a /\ reference_until a' = reference_until a
                /\ display_until a' = display_until a)
     \/ exists now, time_of c = Some now
          /\ (reference_until a' <= now + 250000 \/ recovery_until (rx s) = Some (reference_until a')))
  /\ (forall now, c = CTick now -> (exists a, a ∈ held (rx s) /\ reference_until a <= now) -> held (rx s') = [])
  /\ (forall p, o = Some p -> exists now, c = CTakeDecodable now /\ now < pic_reference_until p
          /\ queue_fresh p = (now <? pic_display_until p)).
Proof.
  intros Hr Hty. pose proof (reachable_inv l s Hr) as Hs. pose proof Hs as [Hi _].
  pose proof (call_inv (okd := fun _ => True) (okf := fun _ => True) (okc := fun _ => True) _ _ c s Hs Hty) as Hc.
  assert (call_admissible (okd := fun _ => True) (okf := fun _ => True) (okc := fun _ => True) c s) as Had
    by (destruct c as [al ch packet now| | | | | | | | | |]; try done; by destruct ch).
  destruct (Hc Had) as [_ Hk]. pose proof (call_chain c s) as Hch.
  destruct (call c s) as [o s'] eqn:Ecall. cbn [snd] in *. split_and!.
  - intros a' Ha'. destruct (Hk a' Ha') as [(a & Ha & Hsame)|(now & Hn & Hb)].
    + left. exists a. unfold frame_of. rewrite (sp_descriptor _ _ Hsame). split_and!; [done|done|apply Hsame..].
    + right. exists now. split; [done|]. destruct (policy_bounds _ (bs_policy _ _ _ _ (proj1 Hi))).
      destruct Hb as [[_ Hb]|[_ Hb]]; [left; lia|by right].
  - intros now -> (a & Ha & Hlate). injection Ecall as <- <-. cbn [rx on_receiver].
    pose proof (tick_spec _ _ now (rx s) Hi) as Ht. unfold wp in Ht. destruct (tick now (rx s)) as [[u|e] r']; cbn [fst snd] in *.
    + destruct Ht as [_ Ht]. pose proof (tm_reference _ _ Ht a Ha). lia.
    + destruct Ht as ([_ Hp'] & _ & Hst). apply (ph_idle _ Hp'). by destruct (state r').
  - intros p ->. destruct Hch as (now & -> & Ht). exists now. split; [done|].
    pose proof (take_spec _ _ now (rx s) Hi) as Hsp. unfold wp in Hsp. rewrite Ht in Hsp. cbn [fst snd] in Hsp.
    destruct Hsp as (a & Hh & _). destruct (hd_picture _ _ _ _ Hh) as (_ & _ & _ & -> & ->).
    split; [by apply (tm_reference _ _ (hd_timely _ _ _ _ Hh)), Hh|]. apply Hh.
Qed.

(** ** Failure *)

(** C27. A stopped receiver stays silent.  Once a chain has failed or the receiver is
    closed, it holds no assembly, no call hands a picture out, and no call but a
    replacement starts it again; after [close] not even that does. *)
Theorem stopped_receiver_is_silent l s c : reachable l s -> stopped (state (rx s)) = true ->
  held (rx s) = []
  /\ used_bytes (ledger (rx s)) = used_bytes l + charged_out (pictures s)
  /\ fst (call c s) = None
  /\ (stopped (state (rx (snd (call c s)))) = true
      \/ (exists e b now, c = CReplace e b now) /\ state (rx s) <> Closed
         /\ scope (rx (snd (call c s))) = scope (rx s) + 1)
  /\ (state (rx s) = Closed -> state (rx (snd (call c s))) = Closed).
Proof.
  intros Hr Hst. pose proof (reachable_inv l s Hr) as Hs. pose proof Hs as [[Hb Hp] _].
  destruct (ph_idle _ Hp) as [Hh _]; [by destruct (state (rx s))|].
  destruct (bs_ledger _ _ _ _ Hb) as [L1 _ _]. rewrite Hh in L1. cbn in L1.
  split; [done|]. split; [lia|]. pose proof (call_chain c s) as Hch.
  destruct (call c s) as [[p|] s']; cbn [fst snd].
  - destruct Hch as (now & -> & Ht). pose proof (take_chain now (rx s)) as Htc. rewrite Ht in Htc.
    destruct Htc as (_ & _ & _ & ? & _). congruence.
  - split; [done|]. destruct Hch as [(_ & _ & Hcl & Hc)|(Hc & Hsc & _ & _ & Hne & _)].
    + split; [|done]. destruct Hc as [?|[? _]]; [by left|congruence].
    + split; [right; done|]. by intros ?.
Qed.

(** ** Repairs *)

(** What the host reads from a request and what it may resend: every fragment that
    is overdue, only fragments of the picture, and nothing that has arrived unless
    the request had no room to leave it out. *)
Record names_the_holes (now : Z) (r : ReceivePipeline) (a : Assembly) (o : RepairOffer) (out' : bytes) : Prop := {
  nh_held : a ∈ held r /\ wants_repair r now a = true /\ o_frame o = frame_of a
            /\ reference_deadline_us o = reference_until a;
  nh_bounded : o_bytes o <= record_bytes (limits (config r));
  nh_request : exists rs,
    on_channel (decode_ranges (count_of (descriptor a))) (limits (config r)) (for_channel (bindings (config r)) Control)
      Control (take (Z.to_nat (o_bytes o)) out') = Ok (o_frame o, rs)
    /\ rs <> [] /\ (length rs <= repair_capacity (limits (config r)))%nat
    /\ (forall i, 0 <= i < horizon a now -> has_fragment a i = false -> covers rs i)
    /\ (forall i, covers rs i -> 0 <= i < count_of (descriptor a))
    /\ ((length rs < repair_capacity (limits (config r)))%nat -> forall i, covers rs i -> has_fragment a i = false)
}.

(** A repair request names the holes.  Asked for a repair with room for one record,
    a receiver either reports that no picture is due for one, or writes a request
    for the oldest picture that is: the host decodes it to ranges that name every
    overdue fragment, stay within the picture and leave out what has arrived
    unless the request is full.  The only failures are an expired chain and a
    clock at its end, and no picture is asked about more often than the policy
    allows. *)
Theorem repair_requests_name_the_holes l s now out : reachable l s ->
  record_bytes (limits (config (rx s))) <= Z.of_nat (length out) <= usize_max ->
  match repair_offer now out (rx s) with
  | (Ok None, _) => forall a, a ∈ held (rx s) -> wants_repair (rx s) now a = false
  | (Ok (Some (o, out')), r') => exists i a, slots (rx s) !! i = Some (Some a)
      /\ names_the_holes now (rx s) a o out'
      /\ exists a', slots r' !! i = Some (Some a') /\ repair_attempts a' = repair_attempts a + 1
           /\ repair_attempts a' <= max_repair_attempts (policy (config (rx s)))
  | (Err e, r') => stopped (state r') = true
      \/ e = ClockOverflow /\ u64_max < now + repair_interval_micros (policy (config (rx s)))
  end.
Proof.
  intros Hr Hout. destruct (reachable_inv l s Hr) as [Hi _]. pose proof (repair_offer_spec _ _ now out (rx s) Hi Hout) as Hsp.
  unfold wp in Hsp. destruct (repair_offer now out (rx s)) as [[[[o out']|]|e] r']; cbn [fst snd] in Hsp.
  - destruct Hsp as (_ & _ & i & a & rs & Has & ->).
    destruct Has as [Hat Hdue Hfirst Hsc Hne (Ho & Hd & Hb) Hdec].
    exists i, a. split; [done|]. split; [split|].
    + split_and!; [by eapply held_at|done|done|done].
    + done.
    + exists rs. rewrite Ho. pose proof (bs_good _ _ _ _ (proj1 Hi) a (held_at _ _ _ Hat)) as [[Ht Hv _ Hk] _ _].
      assert (reliable_offset a = None) as Hro.
      { unfold wants_repair in Hdue. apply andb_true_iff in Hdue as [[[_ E%negb_true_iff]%andb_true_iff _]%andb_true_iff _].
        by destruct (reliable_offset a). }
      rewrite Hro in Hk. pose proof (wd_end _ Hk) as Hend. destruct Hsc as [S1 S2 S3 S4 S5 S6]. split_and!; try done.
      * intros i' Hi' Hh. apply S4; [done|]. unfold hole. by rewrite Hh.
      * intros i' Hc. pose proof (covers_within rs 0 i' S2 Hc). unfold horizon in S3. destruct (_ <? _); lia.
      * intros Hlt i' Hc. specialize (S6 i' Hlt Hc). unfold hole in S6. by destruct (has_fragment a i').
    + eexists. fields. rewrite list_lookup_insert_eq by (by eapply lookup_lt_Some). split_and!; [done|done|].
      unfold wants_repair in Hdue. apply andb_true_iff in Hdue as [_ E]. cbn. lia.
  - apply Hsp.
  - destruct Hsp as [_ [?|(? & _ & ?)]]; [by left|by right].
Qed.

End claims.

(** ** A session *)

(** A recovery picture, then a picture that refers to it in three fragments that
    arrive out of order, one of them twice. *)
Definition demo_src (f : Z) : bytes := if f =? 1 then map Z.of_nat (seq 100 10) else demo_picture.
Definition demo_second : FrameDescriptor := mk_descriptor 2 17 7 1000 (Some 1).
Definition written (w : Result WireError Z * bytes) : bytes :=
  match w with (Ok n, out) => take (Z.to_nat n) out | _ => [] end.
Definition demo_chunk : bytes :=
  Eval vm_compute in written (encode_recovery (mk_chunk 1 10 0 900 (demo_src 1)) 2 demo_limits (zeros 80)).
Definition demo_fragment (i : Z) : bytes :=
  written (encode_fragment (fragment_of demo_second demo_picture i) 1 demo_limits (zeros 80)).
Definition demo_receiver : ReceivePipeline :=
  mk_pipeline 0 true true demo_config 7 demo_ledger AwaitingConfiguration None None 12 (replicate 12 None)
    None None None None None None.
Definition demo_start : Session := mk_session demo_receiver [].
Definition demo_arrivals : list Call :=
  [CDecoderConfigured 10; CReceive exact_allocator RecoveryChannel demo_chunk 20; CTakeDecodable 30;
   CAcknowledgeDecode 0 true 40; CReceive exact_allocator Video (demo_fragment 2) 50;
   CReceive exact_allocator Video (demo_fragment 0) 51; CReceive exact_allocator Video (demo_fragment 2) 52].
Definition demo_calls : list Call :=
  demo_arrivals ++ [CReceive exact_allocator Video (demo_fragment 1) 53; CTakeDecodable 60].

Lemma demo_started : started demo_config 7 demo_ledger demo_receiver.
Proof.
  split; [apply demo_limits_ok| |done|vm_compute; reflexivity]. intros []; split; vm_compute; done.
Qed.

(** One step of a concrete run, at the session it leads to. *)
Lemma run_ok_step {okd okf okc} c cs s s' :
  call_typed c s -> call_admissible (okd := okd) (okf := okf) (okc := okc) c s ->
  snd (call (H := demo_layout) c s) = s' ->
  run_ok (H := demo_layout) (okd := okd) (okf := okf) (okc := okc) cs s' ->
  run_ok (H := demo_layout) (okd := okd) (okf := okf) (okc := okc) (c :: cs) s.
Proof. intros ? ? <- ?. done. Qed.

Ltac run_step :=
  eapply run_ok_step;
    [ first [exact I | vm_compute; repeat constructor; done]
    | first [exact I | intros ? _; exact I
            | let f := fresh in let Hf := fresh in intros f Hf; vm_compute in Hf; injection Hf as <-;
              vm_compute; repeat split ]
    | vm_compute; reflexivity |].

Lemma demo_truthful : truthful (H := demo_layout) demo_src demo_calls demo_start.
Proof. unfold truthful, demo_calls, demo_arrivals. cbn [app]. do 9 run_step. exact I. Qed.

Lemma demo_typed : typed_run (H := demo_layout) demo_calls demo_start.
Proof. unfold typed_run, demo_calls, demo_arrivals. cbn [app]. do 9 run_step. exact I. Qed.

Lemma demo_arrivals_typed : typed_run (H := demo_layout) demo_arrivals demo_start.
Proof. unfold typed_run, demo_arrivals. do 7 run_step. exact I. Qed.

(** The session when the second picture has a hole, and after both were handed out. *)
Definition demo_waiting : Session := snd (run (H := demo_layout) demo_arrivals demo_start).
Definition demo_done : Session := snd (run (H := demo_layout) demo_calls demo_start).

Lemma demo_waiting_reachable : reachable (H := demo_layout) demo_ledger demo_waiting.
Proof.
  exists demo_config, 7, demo_receiver, demo_arrivals.
  split; [apply demo_started|]. split; [apply demo_arrivals_typed|done].
Qed.

Lemma demo_done_reachable : reachable (H := demo_layout) demo_ledger demo_done.
Proof.
  exists demo_config, 7, demo_receiver, demo_calls. split; [apply demo_started|]. split; [apply demo_typed|done].
Qed.

Lemma received_pictures_are_the_sent_ones_witness :
  exists p, fst (run (H := demo_layout) demo_calls demo_start) !! 1%nat = Some p
    /\ frame (pic_descriptor p) = 2 /\ pic_bytes p = demo_src (frame (pic_descriptor p)).
Proof.
  eexists. split; [vm_compute; reflexivity|]. split; [reflexivity|].
  apply (received_pictures_are_the_sent_ones (H := demo_layout) demo_src demo_config 7 demo_ledger demo_receiver demo_calls).
  - apply demo_started.
  - apply demo_truthful.
  - apply (list_elem_of_lookup_2 _ 1). vm_compute. reflexivity.
Defined.

Lemma pictures_follow_their_references_witness :
  in_order [] (fst (run (H := demo_layout) demo_calls demo_start))
  /\ (fun p => frame (pic_descriptor p)) <$> fst (run (H := demo_layout) demo_calls demo_start) = [1; 2].
Proof.
  split; [|vm_compute; reflexivity].
  apply (pictures_follow_their_references (H := demo_layout) demo_config 7 demo_ledger demo_receiver demo_calls).
  - apply demo_started.
  - apply demo_typed.
Defined.

Lemma receiver_memory_is_bounded_witness :
  used_bytes (ledger (rx demo_done)) = 0 + charged_out (pictures demo_done) + sum (held (rx demo_done))
  /\ used_bytes (ledger (rx demo_done)) = 635.
Proof.
  split; [|vm_compute; reflexivity].
  apply (receiver_memory_is_bounded (H := demo_layout) demo_ledger demo_done demo_done_reachable).
Defined.

Lemma deadlines_are_fixed_witness :
  held (rx (snd (call (H := demo_layout) (CTick 400000) demo_waiting))) = [].
Proof.
  pose proof (deadlines_are_fixed (H := demo_layout) demo_ledger demo_waiting (CTick 400000) demo_waiting_reachable I) as Hd.
  destruct (call (H := demo_layout) (CTick 400000) demo_waiting) as [o s']. destruct Hd as (_ & Hd & _).
  apply (Hd 400000 eq_refl). eexists. split.
  - apply elem_of_flatten, (list_elem_of_lookup_2 _ 0). vm_compute. reflexivity.
  - vm_compute. discriminate.
Defined.

Lemma demo_expired_reachable :
  reachable (H := demo_layout) demo_ledger (snd (run (H := demo_layout) (demo_arrivals ++ [CTick 400000]) demo_start)).
Proof.
  exists demo_config, 7, demo_receiver, (demo_arrivals ++ [CTick 400000]). split; [apply demo_started|]. split; [|done].
  unfold typed_run, demo_arrivals. cbn [app]. do 8 run_step. exact I.
Qed.

Lemma stopped_receiver_is_silent_witness :
  fst (call (H := demo_layout) (CTakeDecodable 400001)
         (snd (run (H := demo_layout) (demo_arrivals ++ [CTick 400000]) demo_start))) = None.
Proof.
  apply (stopped_receiver_is_silent (H := demo_layout) demo_ledger _ (CTakeDecodable 400001) demo_expired_reachable).
  vm_compute. reflexivity.
Defined.

Lemma repair_requests_name_the_holes_witness :
  exists o out' r' a, repair_offer 30000 (zeros 80) (rx demo_waiting) = (Ok (Some (o, out')), r')
    /\ names_the_holes 30000 (rx demo_waiting) a o out'.
Proof.
  pose proof (repair_requests_name_the_holes (H := demo_layout) demo_ledger demo_waiting 30000 (zeros 80)
    demo_waiting_reachable) as Hr.
  assert (record_bytes (limits (config (rx demo_waiting))) <= Z.of_nat (length (zeros 80)) <= usize_max) as Hb
    by (vm_compute; split; discriminate).
  specialize (Hr Hb). destruct (repair_offer 30000 (zeros 80) (rx demo_waiting)) as [[[[o out']|]|e] r'] eqn:E.
  - destruct Hr as (i & a & _ & Hn & _). exists o, out', r', a. split; [reflexivity|exact Hn].
  - exfalso. vm_compute in E. discriminate E.
  - exfalso. vm_compute in E. discriminate E.
Defined.

End ReceiverClaims.
