(* ===== verification/Sender.v ===== *)
(** * The sending cache

    [SendCache] of [fr-media/src/delivery/send.rs] with [send/observation.rs],
    [send/recovery.rs] and [send/repair.rs]: one subscription's encoded pictures,
    cut into records, announced before they are sent, resent on request within
    bounds of time, rounds and bytes, and given up as a chain when one of them
    expires unsent.

    The [Arc<()>] owner is an identity, compared by address: a number.  The size of
    [CachedPicture] depends on the platform: a parameter, the class [SendLayout].
    A [Vec] is its bytes and its capacity. *)

From S2P Require Import Prelude.
From S2P Require Import Bytes.
From S2P Require Import Limits.
From S2P Require Import WireRecord.
From S2P Require Import WireMedia.
From S2P Require Import WireInput.
From S2P Require Import WireView.
From S2P Require Import Delivery.
From S2P Require Import Assembly.

Module Sender.
Import Media Delivery.

Definition CACHE_SLOTS : nat := 64.
Definition RECOVERY_SLOTS : nat := 16.

(** ** Policy and errors *)

Record SendPolicy := mk_send_policy {
  max_cached_pictures : Z;
  max_cached_bytes : Z;
  reference_horizon_micros : Z;
  recovery_horizon_micros : Z;
  minimum_repair_interval_micros : Z;
  max_repair_rounds : Z;
  repair_bytes_per_window : Z;
  repair_window_micros : Z;
  max_recoveries_per_window : Z;
  recovery_window_micros : Z
}.

Definition default_policy : SendPolicy :=
  mk_send_policy 32 (32 * 1024 * 1024) 250000 2000000 10000 3 (1024 * 1024) 250000 4 10000000.

Inductive SendError :=
| SDelivery (e : DeliveryError)
| SWire (e : WireError)
| SInvalidPolicy
| SClosed
| SNeedsRecovery
| InvalidSequence
| SInvalidDependency
| InvalidRecovery
| InvalidPayload
| CacheFull
| FrameUnavailable
| RepairBusy
| RepairNotReady
| RepairRateLimited
| RepairBudgetExceeded
| RepairExpired
| OriginalExpired
| InvalidObservation
| ObservationExpired
| RecoveryLimitExceeded.

(** [SendError::from] through [?]. *)
Definition wire {A} (r : Result WireError A) : Result SendError A := map_err SWire r.
Definition delivery {A} (r : Result DeliveryError A) : Result SendError A := map_err SDelivery r.

Definition between (lo hi v : Z) : bool := (lo <=? v) && (v <=? hi).

Definition validate_send_policy (p : SendPolicy) (limits : MediaLimits) : Result SendError unit :=
  if negb (between 1 (Z.of_nat CACHE_SLOTS) (max_cached_pictures p))
     || (max_cached_bytes p =? 0)
     || (Limits.per_viewer_compressed_bytes (protocol limits) <? max_cached_bytes p)
     || negb (between 1 250000 (reference_horizon_micros p))
     || negb (between 1 5000000 (recovery_horizon_micros p))
     || (minimum_repair_interval_micros p =? 0)
     || (reference_horizon_micros p <? minimum_repair_interval_micros p)
     || negb (between 1 8 (max_repair_rounds p))
     || (repair_bytes_per_window p =? 0)
     || (max_cached_bytes p <? repair_bytes_per_window p)
     || negb (between 1 1000000 (repair_window_micros p))
     || negb (between 1 (Z.of_nat RECOVERY_SLOTS) (max_recoveries_per_window p))
     || negb (between 1000000 60000000 (recovery_window_micros p))
  then Err SInvalidPolicy else Ok tt.

(** ** Offers *)

Inductive DeliveryMode := RecoveryMode | Datagrams.
#[export] Instance DeliveryMode_eq_dec : EqDecision DeliveryMode.
Proof. solve_decision. Defined.
Inductive OfferPurpose := Original | RepairPurpose | ObservationPurpose.

Record OfferOrigin := mk_origin { o_owner : Z; o_epoch : MediaEpoch }.
Record PacketOffer := mk_packet {
  po_channel : Channel;
  byte_len : Z;
  po_frame : Z;
  send_by_micros : Z;
  origin : OfferOrigin;
  purpose : OfferPurpose
}.

Definition expiry_error (o : PacketOffer) : SendError :=
  match purpose o with
  | Original => OriginalExpired
  | RepairPurpose => RepairExpired
  | ObservationPurpose => ObservationExpired
  end.

(** ** Pictures *)

(** [SharedFrame] of [shared.rs]: an immutable allocation and what its pool charged
    for it. *)
Inductive FrameKind := Idr (recovery : Z) | Predicted (references : Z).
Record SharedFrame := mk_shared {
  sf_frame : Z;
  sf_kind : FrameKind;
  sf_configuration : Z;
  sf_capture_micros : Z;
  sf_bytes : bytes;
  allocation_charge : Z
}.

Definition shared_progress (f : SharedFrame) (stride : Z) : Result WireError Progress :=
  total ← u32_try_from ResourceLimit (Z.of_nat (length (sf_bytes f)));
  Ok (mk_progress
        (mk_descriptor (sf_frame f) total stride (sf_capture_micros f)
           (match sf_kind f with Idr _ => None | Predicted references => Some references end))
        (sf_capture_micros f) Captured Running).

Inductive PictureBytes := Owned (b : bytes) (capacity : Z) | Shared (f : SharedFrame).
Definition charge (b : PictureBytes) : Z := match b with Owned _ capacity => capacity | Shared f => allocation_charge f end.
(** [Deref]. *)
Definition contents (b : PictureBytes) : bytes := match b with Owned b _ => b | Shared f => sf_bytes f end.

(** The first [count] entries of the array; [j_range] and [j_fragment] are the next
    fragment to resend. *)
Record RepairJob := mk_job { j_ranges : list RepairRange; j_range : nat; j_fragment : Z }.
#[export] Instance eta_job : Eta RepairJob := fun j => mk_job (j_ranges j) (j_range j) (j_fragment j).

Record CachedPicture := mk_cached {
  cp_progress : Progress;
  cp_bytes : PictureBytes;
  mode : DeliveryMode;
  cp_charged : Z;
  send_by : Z;
  announced : bool;
  next_original : Z;
  repair_rounds : Z;
  cp_next_repair : Z;
  cp_repair : option RepairJob
}.
#[export] Instance eta_cached : Eta CachedPicture := fun p =>
  mk_cached (cp_progress p) (cp_bytes p) (mode p) (cp_charged p) (send_by p) (announced p) (next_original p)
    (repair_rounds p) (cp_next_repair p) (cp_repair p).

Definition cp_descriptor (p : CachedPicture) : FrameDescriptor := p_descriptor (cp_progress p).
Definition cp_frame (p : CachedPicture) : Z := frame (cp_descriptor p).

(** The [expect]: the descriptor of a cached picture was validated. *)
Definition originals (p : CachedPicture) : Z :=
  match mode p with
  | RecoveryMode => total_bytes (cp_descriptor p)
  | Datagrams => match fragment_count (cp_descriptor p) with Ok n => n | Err _ => 0 end
  end.
Definition original_complete (p : CachedPicture) : bool := originals p <=? next_original p.

Definition picture_fragment (p : CachedPicture) (index : Z) : Result SendError Fragment :=
  range ← wire (fragment_range (cp_descriptor p) index);
  Ok (mk_fragment (cp_descriptor p) index
        (slice (Z.to_nat (fst range)) (Z.to_nat (snd range)) (contents (cp_bytes p)))).

Definition repair_packet_bytes (p : CachedPicture) (index : Z) : Result SendError Z :=
  let overhead := if is_some (reference (cp_descriptor p)) then FRAGMENT_OVERHEAD else FRAGMENT_OVERHEAD - 8 in
  f ← picture_fragment p index;
  Ok (Z.of_nat (length (fbytes f)) + overhead).

(** ** Repair jobs *)

(** The unsent suffix: the first range from its next fragment. *)
Definition remaining (j : RepairJob) : list RepairRange :=
  match drop (j_range j) (j_ranges j) with
  | [] => []
  | r :: rest => mk_range (j_fragment j) (r_end r) :: rest
  end.

(** The order in which the loop takes the two lists: by start, the old first on a
    tie.  Fuel is the number of ranges of both. *)
Fixpoint merge_ranges (fuel : nat) (old new : list RepairRange) : list RepairRange :=
  match fuel with
  | O => []
  | S fuel =>
      match old, new with
      | a :: old', b :: new' =>
          if r_start a <=? r_start b then a :: merge_ranges fuel old' new else b :: merge_ranges fuel old new'
      | [], b :: new' => b :: merge_ranges fuel [] new'
      | a :: old', [] => a :: merge_ranges fuel old' []
      | [], [] => []
      end
  end.

(** One round of the loop: extend the last range when the next one touches it, else
    append it, bridging the smallest gap when there is no room. *)
Definition add_merged (maximum : nat) (ranges : list RepairRange) (next : RepairRange) : list RepairRange :=
  match last ranges with
  | Some l =>
      if r_start next <=? r_end l
      then alter (fun r => mk_range (r_start r) (Z.max (r_end r) (r_end next))) ((length ranges - 1)%nat) ranges
      else Assembly.add_range maximum ranges next
  | None => Assembly.add_range maximum ranges next
  end.

Definition fragments_in (ranges : list RepairRange) : Z :=
  foldr (fun r n => r_end r - r_start r + n) 0 ranges.

Definition coalesce (j : RepairJob) (requested : list RepairRange) (maximum : Z) : Result SendError RepairJob :=
  let maximum := Nat.min (Z.to_nat maximum) 64 in
  if (maximum =? 0)%nat then Err RepairBusy
  else
    let old := remaining j in
    let result := foldl (add_merged maximum) [] (merge_ranges (length old + length requested) old requested) in
    if fragments_in old =? fragments_in result then Err RepairBusy
    else Ok (mk_job result 0 (match result with r :: _ => r_start r | [] => 0 end)).

(** ** The cache *)

Class SendLayout := { picture_struct_bytes : Z; picture_struct_bytes_nonneg : 0 <= picture_struct_bytes }.

Record PendingObservation := mk_pending_observation { ob_progress : Progress; ob_send_by : Z }.
Record PendingRecovery := mk_pending_recovery {
  pr_request : option RecoveryMsg.Request;
  pr_binding : option ViewBinding.Binding;
  pr_until : Z
}.

Record SendCache := mk_cache {
  owner : Z;
  limits : MediaLimits;
  bindings : MediaBindings;
  epoch : MediaEpoch;
  policy : SendPolicy;
  cached : list (option CachedPicture);
  c_used_bytes : Z;
  c_used_pictures : Z;
  last_inserted : option Z;
  last_progress : option Progress;
  pending_observation : option PendingObservation;
  last_now : option Z;
  repair_window_start : Z;
  repair_spent : Z;
  closed : bool;
  needs_recovery : bool;
  first_failure_deadline : option Z;
  recovery_request : option PendingRecovery;
  recoveries : list (option Z);
  recovery_charged_epoch : option MediaEpoch
}.
#[export] Instance eta_cache : Eta SendCache := fun c =>
  mk_cache (owner c) (limits c) (bindings c) (epoch c) (policy c) (cached c) (c_used_bytes c) (c_used_pictures c)
    (last_inserted c) (last_progress c) (pending_observation c) (last_now c) (repair_window_start c) (repair_spent c)
    (closed c) (needs_recovery c) (first_failure_deadline c) (recovery_request c) (recoveries c)
    (recovery_charged_epoch c).

Abbreviation SM := (M SendCache SendError).

(** A method given by what it returns and leaves behind. *)
Definition method {A} (f : SendCache -> Result SendError A * SendCache) : SM A := f.

Definition new (owner : Z) (l : MediaLimits) (b : MediaBindings) (e : MediaEpoch) (p : SendPolicy)
  : Result SendError SendCache :=
  _ ← validate_send_policy p l;
  Ok (mk_cache owner l b e p (replicate CACHE_SLOTS None) 0 0 None None None None 0 0 false false None None
        (replicate RECOVERY_SLOTS None) None).

Definition maximum_capacity `{SendLayout} (c : SendCache) : Z :=
  saturating_sub (max_cached_bytes (policy c)) picture_struct_bytes.

Definition can_push_capacity `{SendLayout} (c : SendCache) (capacity : Z) : bool :=
  negb (closed c) && negb (needs_recovery c) && (c_used_pictures c <? max_cached_pictures (policy c))
  && is_some_and (fun total => total <=? max_cached_bytes (policy c))
       (charge ← checked_add usize_max capacity picture_struct_bytes; checked_add usize_max (c_used_bytes c) charge).

Definition originals_pending (c : SendCache) : bool :=
  is_some (pending_observation c)
  || existsb (fun p => negb (announced p) || negb (original_complete p)) (flatten (cached c)).

(** ** Time and failure *)

Definition clear (c : SendCache) : SendCache :=
  mk_cache (owner c) (limits c) (bindings c) (epoch c) (policy c) ((fun _ => None) <$> cached c) 0 0
    (last_inserted c) None None (last_now c) (repair_window_start c) (repair_spent c)
    (closed c) (needs_recovery c) None None (recoveries c) (recovery_charged_epoch c).

Definition close (c : SendCache) : SendCache := (clear c) <| closed := true |>.

Definition check_clock (now : Z) : SM unit := fun c =>
  if is_some_and (fun last => now <? last) (last_now c)
  then (Err (SDelivery ClockRegression), close c)
  else (Ok tt, c <| last_now := Some now |>).

(** The minimum of two optional deadlines. *)
Definition earliest (a b : option Z) : option Z :=
  match a, b with
  | Some a, Some b => Some (Z.min a b)
  | Some a, None => Some a
  | None, b => b
  end.

Definition recovery_deadline (c : SendCache) : option Z :=
  earliest (first_failure_deadline c) (pr_until <$> recovery_request c).

Definition check_recovery_deadline (now : Z) : SM unit := fun c =>
  if is_some_and (fun until => until <=? now) (recovery_deadline c)
  then (Err (SDelivery RecoveryExpired), close c) else (Ok tt, c).

Definition fail_reference (now : Z) : SM unit := fun c =>
  match deadline now (recovery_horizon_micros (policy c)) with
  | Err e => (Err (SDelivery e), close c)
  | Ok until =>
      (Ok tt, (clear c) <| last_progress := last_progress c |> <| needs_recovery := true |>
                        <| first_failure_deadline := Some until |>)
  end.

(** An original that expired before all of it was sent. *)
Definition lost (now : Z) (p : CachedPicture) : bool := (send_by p <=? now) && negb (original_complete p).

(** The loop that evicts expired pictures. *)
Definition evict (now : Z) (c : SendCache) : SendCache :=
  let gone := filter (fun p => (send_by p <=? now) = true) (flatten (cached c)) in
  c <| cached := (fun s => match s with Some p => if send_by p <=? now then None else Some p | None => None end)
                   <$> cached c |>
    <| c_used_bytes := c_used_bytes c - foldr (fun p n => cp_charged p + n) 0 gone |>
    <| c_used_pictures := c_used_pictures c - Z.of_nat (length gone) |>.

Definition tick (now : Z) : SM unit :=
  _ ← check_clock now;
  _ ← refuse_if closed (fun _ => SClosed);
  _ ← check_recovery_deadline now;
  _ ← refuse_if needs_recovery (fun _ => SNeedsRecovery);
  method (fun c =>
    if existsb (lost now) (flatten (cached c)) then (_ ← fail_reference now; fail OriginalExpired) c
    else
      let c := if is_some_and (fun o => ob_send_by o <=? now) (pending_observation c)
               then c <| pending_observation := None |> else c in
      let c := evict now c in
      (Ok tt, if repair_window_micros (policy c) <=? now - repair_window_start c
              then c <| repair_window_start := now |> <| repair_spent := 0 |> else c)).

(** ** Insertion *)

Definition lifetime (p : SendPolicy) (m : DeliveryMode) : Z :=
  match m with RecoveryMode => recovery_horizon_micros p | Datagrams => reference_horizon_micros p end.

Definition push_picture `{SendLayout} (p : Progress) (b : PictureBytes) (m : DeliveryMode) (now : Z) : SM unit :=
  _ ← tick now;
  let d := p_descriptor p in
  _ ← readr (fun c => wire (validate d (limits c)));
  _ ← refuse_if (fun _ => negb (total_bytes d =? Z.of_nat (length (contents b)))) (fun _ => InvalidPayload);
  _ ← refuse_if (fun c => is_some_and (fun last => frame d <=? last) (last_inserted c)) (fun _ => InvalidSequence);
  _ ← refuse_if (fun c => is_some (reference d) && negb (bool_decide (reference d = last_inserted c)))
                (fun _ => SInvalidDependency);
  _ ← refuse_if (fun c =>
         (negb (is_some (last_inserted c)) && (is_some (reference d) || negb (bool_decide (m = RecoveryMode))))
         || (is_some (last_inserted c) && bool_decide (m = RecoveryMode))
         || (bool_decide (m = RecoveryMode) && negb (stride d =? fragment_stride (limits c))))
       (fun _ => InvalidRecovery);
  charged ← lift (ok_or (checked_add usize_max (charge b) picture_struct_bytes) CacheFull);
  used ← readr (fun c => ok_or (checked_add usize_max (c_used_bytes c) charged) CacheFull);
  _ ← refuse_if (fun c => (max_cached_bytes (policy c) <? used)
                          || (max_cached_pictures (policy c) <=? c_used_pictures c)) (fun _ => CacheFull);
  _ ← refuse_if (fun _ => now <? capture_micros d) (fun _ => InvalidObservation);
  until ← readr (fun c => delivery (deadline (capture_micros d) (lifetime (policy c) m)));
  if until <=? now then _ ← fail_reference now; fail OriginalExpired
  else
    index ← readr (fun c => ok_or (Prelude.position (fun s => negb (is_some s)) (cached c)) CacheFull);
    modify (fun c =>
      mk_cache (owner c) (limits c) (bindings c) (epoch c) (policy c)
        (<[index := Some (mk_cached p b m charged until false 0 0 now None)]> (cached c))
        used (c_used_pictures c + 1) (Some (frame d)) (Some p) None (last_now c) (repair_window_start c)
        (repair_spent c) (closed c) (needs_recovery c) (first_failure_deadline c) (recovery_request c)
        (recoveries c) (recovery_charged_epoch c)).

Definition push `{SendLayout} (p : Progress) (b : bytes) (capacity : Z) (m : DeliveryMode) (now : Z) : SM unit :=
  push_picture p (Owned b capacity) m now.

Definition push_shared `{SendLayout} (f : SharedFrame) (m : DeliveryMode) (now : Z) : SM unit :=
  _ ← refuse_if (fun c => negb (sf_configuration f =? e_configuration (epoch c))) (fun _ => SDelivery StaleGeneration);
  p ← readr (fun c => wire (shared_progress f (fragment_stride (limits c))));
  push_picture p (Shared f) m now.

(** ** Packets *)

(** Every packet method returns its offer and the buffer it wrote. *)
Definition packet := (PacketOffer * bytes)%type.
Definition offered (ch : Channel) (f until : Z) (w : OfferPurpose) (c : SendCache) (n : Z) (out : bytes) : packet :=
  (mk_packet ch n f until (mk_origin (owner c) (epoch c)) w, out).

Definition next_observation (out : bytes) : SM (option packet) := fun c =>
  match pending_observation c with
  | None => (Ok None, c)
  | Some o =>
      match encode_progress (ob_progress o) (for_channel (bindings c) MediaConfig) (limits c) out with
      | (Err e, _) => (Err (SWire e), c)
      | (Ok n, out) =>
          (Ok (Some (offered MediaConfig (frame (p_descriptor (ob_progress o))) (ob_send_by o) ObservationPurpose c n out)),
           c <| pending_observation := None |>)
      end
  end.

(** Announcements and originals still to be sent. *)
Definition unsent (p : CachedPicture) : bool := negb (announced p) || negb (original_complete p).

(** [min_by_key] on the frame: the first smallest. *)
Fixpoint oldest (w : CachedPicture -> bool) (i : nat) (l : list (option CachedPicture))
  (best : option (nat * CachedPicture)) : option (nat * CachedPicture) :=
  match l with
  | [] => best
  | s :: l =>
      oldest w (S i) l
        (match s with
         | Some p => if w p && is_none_or (fun b => cp_frame p <? cp_frame (snd b)) best then Some (i, p) else best
         | None => best
         end)
  end.

(** The record of the next original: its channel, length and the buffer, and the
    picture after it. *)
Definition original_packet (c : SendCache) (p : CachedPicture) (out : bytes)
  : Result SendError (Channel * Z * bytes * CachedPicture) :=
  if announced p then
    match mode p with
    | Datagrams =>
        f ← picture_fragment p (next_original p);
        let '(res, out) := encode_fragment f (for_channel (bindings c) Video) (limits c) out in
        n ← wire res;
        Ok (Video, n, out, p <| next_original := next_original p + 1 |>)
    | RecoveryMode =>
        let start := next_original p in
        let length_ := Z.min (record_bytes (limits c) - RECOVERY_OVERHEAD)
                             (Z.of_nat (length (contents (cp_bytes p))) - start) in
        let '(res, out) := encode_recovery
          (mk_chunk (cp_frame p) (total_bytes (cp_descriptor p)) start (capture_micros (cp_descriptor p))
             (slice (Z.to_nat start) (Z.to_nat (start + length_)) (contents (cp_bytes p))))
          (for_channel (bindings c) RecoveryChannel) (limits c) out in
        n ← wire res;
        advance ← map_err (fun _ => InvalidPayload) (u32_try_from ResourceLimit length_);
        Ok (RecoveryChannel, n, out, p <| next_original := start + advance |>)
    end
  else
    let '(res, out) := encode_progress (cp_progress p) (for_channel (bindings c) MediaConfig) (limits c) out in
    n ← wire res;
    Ok (MediaConfig, n, out, p <| announced := true |>).

Definition next_packet (now : Z) (out : bytes) : SM (option packet) :=
  _ ← tick now;
  method (fun c =>
    match oldest unsent 0 (cached c) None with
    | None => next_observation out c
    | Some (i, p) =>
        match original_packet c p out with
        | Err e => (Err e, c)
        | Ok (ch, n, out, p') =>
            (Ok (Some (offered ch (cp_frame p) (send_by p) Original c n out)),
             c <| cached := <[i := Some p']> (cached c) |>)
        end
    end).

(** ** Repairs *)

Definition index_of (c : SendCache) (f : Z) : option nat :=
  Prelude.position (is_some_and (fun p => cp_frame p =? f)) (cached c).

(** The request's ranges against the picture, and each range's largest record
    against the budget. *)
Definition repair_fits (c : SendCache) (p : CachedPicture) (ranges : list RepairRange) : Result SendError unit :=
  total ← wire (fragment_count (cp_descriptor p));
  if existsb (fun r => total <? r_end r) ranges then Err (SWire InvalidRanges)
  else
    foldl (fun acc r => _ ← acc; n ← repair_packet_bytes p (r_start r);
                        if repair_bytes_per_window (policy c) <? n then Err RepairBudgetExceeded else Ok tt)
          (Ok tt) ranges.

Definition repair_job (c : SendCache) (p : CachedPicture) (ranges : list RepairRange) : Result SendError RepairJob :=
  match cp_repair p with
  | Some pending => coalesce pending ranges (repair_ranges (limits c))
  | None => Ok (mk_job ranges 0 (match ranges with r :: _ => r_start r | [] => 0 end))
  end.

Definition queue_repair (packet : bytes) (now : Z) : SM unit := fun c =>
  match (r ← wire (decode packet (limits c) (for_channel (bindings c) Control) Control);
         wire (decode_repair r (fragments (limits c)) (limits c))) with
  | Err e => (Err e, c)
  | Ok request =>
      (_ ← tick now;
       method (fun c =>
         match index_of c (q_frame request) ≫= (fun i => (i,.) <$> mjoin (cached c !! i)) with
         | None => (Err FrameUnavailable, c)
         | Some (i, p) =>
             if bool_decide (mode p = RecoveryMode) || negb (announced p) then (Err RepairNotReady, c)
             else
               match (_ ← repair_fits c p (ranges request);
                      job ← repair_job c p (ranges request);
                      if (now <? cp_next_repair p) || (max_repair_rounds (policy c) <=? repair_rounds p)
                      then Err (if cp_repair p then RepairBusy else RepairRateLimited)
                      else
                        next ← delivery (deadline now (minimum_repair_interval_micros (policy c)));
                        Ok (p <| cp_next_repair := next |> <| repair_rounds := repair_rounds p + 1 |>
                              <| cp_repair := Some job |>)) with
               | Err e => (Err e, c)
               | Ok p' => (Ok tt, c <| cached := <[i := Some p']> (cached c) |>)
               end
         end)) c
  end.

(** The loop that selects the repair with the earliest deadline, then frame, then
    slot among those issued and affordable. *)
Fixpoint select_repair (budget : Z) (i : nat) (l : list (option CachedPicture)) (best : option (nat * CachedPicture))
  : Result SendError (option (nat * CachedPicture)) :=
  match l with
  | [] => Ok best
  | None :: l => select_repair budget (S i) l best
  | Some p :: l =>
      match cp_repair p with
      | None => select_repair budget (S i) l best
      | Some job =>
          if next_original p <=? j_fragment job then select_repair budget (S i) l best
          else
            n ← repair_packet_bytes p (j_fragment job);
            select_repair budget (S i) l
              (if negb (budget <? n)
                  && is_none_or (fun b => (send_by p <? send_by (snd b))
                                          || ((send_by p =? send_by (snd b)) && (cp_frame p <? cp_frame (snd b)))) best
               then Some (i, p) else best)
      end
  end.

(** The job after its next fragment was sent; [None] when that was the last. *)
Definition advance_job (j : RepairJob) : option RepairJob :=
  let f := j_fragment j + 1 in
  match j_ranges j !! j_range j with
  | Some r =>
      if f =? r_end r then
        match j_ranges j !! S (j_range j) with
        | None => None
        | Some next => Some (mk_job (j_ranges j) (S (j_range j)) (r_start next))
        end
      else Some (j <| j_fragment := f |>)
  | None => Some (j <| j_fragment := f |>)
  end.

Definition next_repair_packet (now : Z) (out : bytes) : SM (option packet) :=
  _ ← tick now;
  method (fun c =>
    match select_repair (repair_bytes_per_window (policy c) - repair_spent c) 0 (cached c) None with
    | Err e => (Err e, c)
    | Ok None => (Ok None, c)
    | Ok (Some (i, p)) =>
        match cp_repair p with
        | None => (Ok None, c)
        | Some job =>
            match (f ← picture_fragment p (j_fragment job);
                   let '(res, out) := encode_fragment f (for_channel (bindings c) Video) (limits c) out in
                   n ← wire res; Ok (n, out)) with
            | Err e => (Err e, c)
            | Ok (n, out) =>
                (Ok (Some (offered Video (cp_frame p) (send_by p) RepairPurpose c n out)),
                 c <| repair_spent := repair_spent c + n |>
                   <| cached := <[i := Some (p <| cp_repair := advance_job job |>)]> (cached c) |>)
            end
        end
    end).

(** ** The last check before a write *)

Definition own_offer (c : SendCache) (o : OfferOrigin) : bool :=
  (owner c =? o_owner o) && bool_decide (epoch c = o_epoch o).

Definition authorize_write (o : PacketOffer) (now : Z) : SM unit :=
  _ ← tick now;
  _ ← refuse_if (fun c => negb (own_offer c (origin o))) (fun _ => SDelivery StaleGeneration);
  refuse_if (fun _ => send_by_micros o <=? now) (fun _ => expiry_error o).

(** ** Deadlines *)

Definition repair_window_deadline (c : SendCache) : option Z :=
  refill ← checked_add u64_max (repair_window_start c) (repair_window_micros (policy c));
  let left := repair_bytes_per_window (policy c) - repair_spent c in
  if existsb (fun p =>
       match cp_repair p with
       | None => false
       | Some job =>
           (j_fragment job <? next_original p) && (refill <? send_by p)
           && match repair_packet_bytes p (j_fragment job) with Ok n => left <? n | Err _ => false end
       end) (flatten (cached c))
  then Some refill else None.

Definition next_deadline (c : SendCache) : option Z :=
  if closed c then None
  else if needs_recovery c then recovery_deadline c
  else foldl (fun best p => earliest best (Some (send_by p)))
         (earliest (ob_send_by <$> pending_observation c) (repair_window_deadline c)) (flatten (cached c)).

(** ** Recovery *)

(** The slots of the window, those older than it emptied. *)
Definition within_window (now window : Z) (s : option Z) : option Z :=
  match s with Some at_ => if window <=? saturating_sub now at_ then None else Some at_ | None => None end.

Definition admit_recovery (now : Z) : SM unit := fun c =>
  if bool_decide (recovery_charged_epoch c = Some (epoch c)) then (Ok tt, c)
  else
    let n := Z.to_nat (max_recoveries_per_window (policy c)) in
    let slots := within_window now (recovery_window_micros (policy c)) <$> take n (recoveries c) in
    let rest := drop n (recoveries c) in
    match Prelude.position (fun s => negb (is_some s)) slots with
    | None => (Err RecoveryLimitExceeded, close (c <| recoveries := slots ++ rest |>))
    | Some i =>
        (Ok tt, c <| recoveries := <[i := Some now]> slots ++ rest |>
                  <| recovery_charged_epoch := Some (epoch c) |>)
    end.

Definition replace (e : MediaEpoch) (b : MediaBindings) (now : Z) : SM unit :=
  _ ← check_clock now;
  _ ← refuse_if closed (fun _ => SClosed);
  _ ← check_recovery_deadline now;
  _ ← refuse_if (fun c => negb (replaces e (epoch c)) || negb (all_newer_than b (bindings c)))
                (fun _ => SDelivery StaleGeneration);
  failed ← gets (fun c => needs_recovery c || existsb (lost now) (flatten (cached c)));
  _ ← (if failed : bool then admit_recovery now else mret tt);
  modify (fun c =>
    let c := clear c in
    c <| epoch := e |> <| bindings := b |> <| last_inserted := None |> <| needs_recovery := false |>).

Definition await_recovery_request (now : Z) : SM unit :=
  _ ← check_clock now;
  _ ← refuse_if closed (fun _ => SClosed);
  _ ← check_recovery_deadline now;
  _ ← refuse_if (fun c => negb (needs_recovery c)) (fun _ => SDelivery WrongState);
  waiting ← gets (fun c => is_some (recovery_request c));
  if (waiting : bool) then mret tt
  else
    until ← readr (fun c => ok_or (first_failure_deadline c) (SDelivery WrongState));
    _ ← admit_recovery now;
    modify (fun c => c <| recovery_request := Some (mk_pending_recovery None None until) |>).

Definition abandon_expired_offer (o : PacketOffer) (now : Z) : SM unit :=
  _ ← check_clock now;
  _ ← refuse_if closed (fun _ => SClosed);
  _ ← check_recovery_deadline now;
  _ ← refuse_if (fun c => negb (own_offer c (origin o))) (fun _ => SDelivery StaleGeneration);
  _ ← refuse_if (fun _ => now <? send_by_micros o) (fun _ => SDelivery WrongState);
  failed ← gets needs_recovery;
  _ ← (if failed : bool then mret tt else fail_reference now);
  await_recovery_request now.

Record RecoveryDemand := mk_demand { d_origin : OfferOrigin; d_request : RecoveryMsg.Request; d_until : Z }.
Inductive RecoveryDisposition := DemandAccepted (d : RecoveryDemand) | DemandCoalesced.

#[export] Instance ControlBinding_eq_dec : EqDecision WireControl.ControlBinding.
Proof. solve_decision. Defined.
#[export] Instance ViewBinding_eq_dec : EqDecision ViewBinding.Binding.
Proof. solve_decision. Defined.
#[export] Instance Reason_eq_dec : EqDecision RecoveryMsg.Reason.
Proof. solve_decision. Defined.
#[export] Instance Request_eq_dec : EqDecision RecoveryMsg.Request.
Proof. solve_decision. Defined.

Definition check_demand (d : RecoveryDemand) (c : SendCache) (now : Z) : Result DeliveryError unit :=
  if closed c || negb (needs_recovery c) || negb (own_offer c (d_origin d))
     || is_none_or (fun p => negb (pr_until p =? d_until d) || negb (bool_decide (pr_request p = Some (d_request d))))
          (recovery_request c)
  then Err StaleGeneration
  else if d_until d <=? now then Err RecoveryExpired else Ok tt.

Definition request_recovery (packet : bytes) (b : ViewBinding.Binding) (now : Z) : SM RecoveryDisposition :=
  _ ← check_clock now;
  _ ← refuse_if closed (fun _ => SClosed);
  _ ← check_recovery_deadline now;
  _ ← refuse_if (fun c => negb (ViewBinding.configuration b =? e_configuration (epoch c))
                          || negb (ViewBinding.recovery b =? e_recovery (epoch c))) (fun _ => SDelivery StaleGeneration);
  request ← readr (fun c => wire (RecoveryMsg.decode packet b (protocol (limits c)) ViewerToHost Reliable));
  _ ← refuse_if (fun c => is_some_and (fun f => is_none_or (fun last => last <? f) (last_inserted c))
                            (RecoveryMsg.last_useful_frame request)) (fun _ => InvalidSequence);
  pending ← gets recovery_request;
  _ ← refuse_if (fun _ => is_some_and (fun p => is_some_and (fun installed => negb (bool_decide (installed = b))) (pr_binding p))
                            pending) (fun _ => SDelivery StaleGeneration);
  if is_some_and (fun p => is_some (pr_request p)) pending then mret DemandCoalesced
  else
    until ← method (fun c =>
      match recovery_deadline c with
      | Some until => (Ok until, c)
      | None => match deadline now (recovery_horizon_micros (policy c)) with
                | Ok until => (Ok until, c)
                | Err e => (Err (SDelivery e), close c)
                end
      end);
    _ ← admit_recovery now;
    _ ← modify (fun c => (clear c) <| needs_recovery := true |>
                                   <| recovery_request := Some (mk_pending_recovery (Some request) (Some b) until) |>);
    gets (fun c => DemandAccepted (mk_demand (mk_origin (owner c) (epoch c)) request until)).

(** ** Observations *)

Definition latest_progress (c : SendCache) : option Progress :=
  if closed c || needs_recovery c then None else last_progress c.

Definition recovery_progress (c : SendCache) : option Progress :=
  if closed c || negb (needs_recovery c) then None
  else (fun p => mk_progress (p_descriptor p) (observed_micros p) (observation p) Failed) <$> last_progress c.

Definition observe_unchanged (f observed now : Z) : SM bool :=
  _ ← tick now;
  previous ← readr (fun c => ok_or (last_progress c) InvalidObservation);
  let d := p_descriptor previous in
  _ ← refuse_if (fun _ => negb (frame d =? f) || (now <? observed) || (observed <? observed_micros previous)
                          || (observed <? capture_micros d) || bool_decide (observation previous = Unknown)
                          || negb (bool_decide (pipeline previous = Running) || bool_decide (pipeline previous = Idle)))
                (fun _ => InvalidObservation);
  if observed =? observed_micros previous then mret false
  else
    until ← readr (fun c => delivery (deadline observed (reference_horizon_micros (policy c))));
    _ ← refuse_if (fun _ => until <=? now) (fun _ => ObservationExpired);
    let p := mk_progress d observed QualifiedUnchanged Idle in
    _ ← modify (fun c => c <| last_progress := Some p |>
                           <| pending_observation := Some (mk_pending_observation p until) |>);
    mret true.

End Sender.
