(* ===== verification/SenderInv.v ===== *)
(** * The sending cache: its invariant

    What holds of a [SendCache] between two calls, for any relation [Q] between frame
    numbers and bytes that the pushed pictures satisfy: every cached picture is
    valid and its cursor and repair job lie within it, what is charged is what is
    cached, and a cache that was closed or lost a reference holds nothing. *)

From S2P Require Import Prelude.
From S2P Require Import Bytes.
From S2P Require Import Limits.
From S2P Require Import WireRecord.
From S2P Require Import WireRecordProps.
From S2P Require Import WireMedia.
From S2P Require Import WireMediaProps.
From S2P Require Import Delivery.
From S2P Require Import Assembly.
From S2P Require Import RepairProps.
From S2P Require Import ReceiverInv.
From S2P Require Import Sender.

Module SenderInv.
Import Media MediaProps Delivery RepairProps Sender.
Import ReceiverInv(flatten_app, flatten_at, flatten_insert, cons_option, bindings_ok).

Abbreviation stored c := (flatten (cached c)).
(** Closed, or a reference was lost. *)
Definition stopped (c : SendCache) : bool := closed c || needs_recovery c.

(** ** Cached pictures *)

(** A job of at most [maximum] ranges that still has a fragment to resend, within
    [total] fragments. *)
Record job_ok (maximum total : Z) (j : RepairJob) : Prop := {
  jb_ordered : ordered 0 (j_ranges j);
  jb_end : end_of 0 (j_ranges j) <= total;
  jb_count : Z.of_nat (length (j_ranges j)) <= maximum;
  jb_next : exists r, j_ranges j !! j_range j = Some r /\ r_start r <= j_fragment j < r_end r
}.

Record picture_ok (l : MediaLimits) (p : CachedPicture) : Prop := {
  pk_typed : progress_typed (cp_progress p);
  pk_valid : validate (cp_descriptor p) l = Ok tt;
  pk_bytes : Forall is_byte (contents (cp_bytes p));
  pk_length : Z.of_nat (length (contents (cp_bytes p))) = total_bytes (cp_descriptor p);
  pk_next : 0 <= next_original p <= originals p;
  pk_announced : announced p = false -> next_original p = 0 /\ cp_repair p = None;
  pk_mode : mode p = RecoveryMode -> cp_repair p = None;
  pk_job j : cp_repair p = Some j -> job_ok (repair_ranges l) (count_of (cp_descriptor p)) j;
  pk_charged : total_bytes (cp_descriptor p) <= cp_charged p;
  pk_rounds : 0 <= repair_rounds p <= 8
}.

Lemma originals_eq l p : picture_ok l p ->
  originals p = match mode p with RecoveryMode => total_bytes (cp_descriptor p) | Datagrams => count_of (cp_descriptor p) end.
Proof.
  intros [[Ht _] Hv _ _ _ _ _ _ _ _]. unfold originals. by rewrite (count_ok (cp_descriptor p) l Ht Hv).
Qed.

Lemma originals_pos l p : picture_ok l p -> 0 < originals p.
Proof.
  intros Hp. rewrite (originals_eq l) by done. destruct Hp as [[Ht _] Hv _ _ _ _ _ _ _ _].
  pose proof (descriptor_positive (cp_descriptor p) l Ht Hv). pose proof (stride_fits (cp_descriptor p) l Ht Hv).
  destruct (mode p); lia.
Qed.

Lemma charged_pos l p : picture_ok l p -> 0 < cp_charged p.
Proof.
  intros [[Ht _] Hv _ _ _ _ _ _ Hc _]. pose proof (descriptor_positive (cp_descriptor p) l Ht Hv). lia.
Qed.

(** What is charged for a list of pictures. *)
Fixpoint charges (l : list CachedPicture) : Z := match l with [] => 0 | p :: l => cp_charged p + charges l end.

Lemma charges_app l1 l2 : charges (l1 ++ l2) = charges l1 + charges l2.
Proof. induction l1 as [|p l1 IH]; cbn; lia. Qed.
Lemma charges_nonneg lim l : Forall (picture_ok lim) l -> 0 <= charges l.
Proof. induction 1 as [|p l Hp _ IH]; cbn; [lia|]. pose proof (charged_pos _ _ Hp). lia. Qed.

(** The slots with their pictures changed in place. *)
Lemma flatten_update (l : list (option CachedPicture)) i p p' : l !! i = Some (Some p) ->
  cp_frame p' = cp_frame p -> cp_charged p' = cp_charged p ->
  cp_frame <$> flatten (<[i := Some p']> l) = cp_frame <$> flatten l
  /\ charges (flatten (<[i := Some p']> l)) = charges (flatten l)
  /\ length (flatten (<[i := Some p']> l)) = length (flatten l)
  /\ forall q, q ∈ flatten (<[i := Some p']> l) -> q = p' \/ q ∈ flatten l.
Proof.
  intros Hi Hf Hc. rewrite flatten_insert by (by eapply lookup_lt_Some). rewrite (flatten_at _ _ _ Hi).
  cbn [cons_option]. split_and!.
  - by rewrite !fmap_app, !fmap_cons, Hf.
  - rewrite !charges_app. cbn. lia.
  - by rewrite !length_app.
  - intros q. rewrite !elem_of_app, !elem_of_cons. tauto.
Qed.

Lemma flatten_all_None {A B} (l : list B) : flatten ((fun _ => None) <$> l : list (option A)) = [].
Proof. by induction l. Qed.

(** ** The cache *)

Lemma sender_policy_bounds p l : validate_send_policy p l = Ok tt ->
  1 <= max_cached_pictures p <= 64 /\ max_cached_bytes p <> 0
  /\ max_cached_bytes p <= Limits.per_viewer_compressed_bytes (protocol l)
  /\ 1 <= reference_horizon_micros p <= 250000 /\ 1 <= recovery_horizon_micros p <= 5000000
  /\ minimum_repair_interval_micros p <> 0 /\ 1 <= max_repair_rounds p <= 8
  /\ repair_bytes_per_window p <> 0 /\ repair_bytes_per_window p <= max_cached_bytes p
  /\ 1 <= repair_window_micros p <= 1000000 /\ 1 <= max_recoveries_per_window p <= 16
  /\ 1000000 <= recovery_window_micros p <= 60000000.
Proof.
  unfold validate_send_policy, between, CACHE_SLOTS, RECOVERY_SLOTS. destruct (_ || _) eqn:E; [done|]. intros _. guards.
  repeat match goal with H : _ && _ = true |- _ => apply andb_true_iff in H as [?%Z.leb_le ?%Z.leb_le] end. lia.
Qed.

Section invariant.
Context (Q : Z -> bytes -> Prop).

(** A valid announcement of a picture the host has. *)
Definition progress_ok (l : MediaLimits) (p : Progress) : Prop :=
  progress_typed p /\ validate (p_descriptor p) l = Ok tt
  /\ exists b, Q (frame (p_descriptor p)) b /\ Z.of_nat (length b) = total_bytes (p_descriptor p).

Record inv (c : SendCache) : Prop := {
  iv_limits : limits_ok (limits c);
  iv_bindings : bindings_ok (bindings c);
  iv_policy : validate_send_policy (policy c) (limits c) = Ok tt;
  iv_slots : length (cached c) = CACHE_SLOTS;
  iv_pictures : Forall (picture_ok (limits c)) (stored c);
  iv_content : Forall (fun p => Q (cp_frame p) (contents (cp_bytes p))) (stored c);
  iv_frames : NoDup (cp_frame <$> stored c);
  iv_last : Forall (fun p => is_some_and (fun last => cp_frame p <=? last) (last_inserted c) = true) (stored c);
  iv_bytes : c_used_bytes c = charges (stored c) /\ c_used_bytes c <= max_cached_bytes (policy c);
  iv_count : c_used_pictures c = Z.of_nat (length (stored c)) /\ c_used_pictures c <= max_cached_pictures (policy c);
  iv_stopped : stopped c = true -> stored c = [] /\ pending_observation c = None;
  iv_progress p : last_progress c = Some p -> progress_ok (limits c) p;
  iv_observation o : pending_observation c = Some o -> progress_ok (limits c) (ob_progress o);
  iv_spent : 0 <= repair_spent c <= repair_bytes_per_window (policy c);
  iv_window : 0 <= repair_window_start c <= default 0 (last_now c);
  iv_recoveries : length (recoveries c) = RECOVERY_SLOTS
}.

(** A cache that holds nothing; the rest of its state is [c]'s, or as constrained. *)
Lemma inv_empty c c' : inv c ->
  limits c' = limits c -> bindings_ok (bindings c') -> policy c' = policy c -> length (cached c') = CACHE_SLOTS ->
  stored c' = [] -> c_used_bytes c' = 0 -> c_used_pictures c' = 0 -> pending_observation c' = None ->
  (last_progress c' = last_progress c \/ last_progress c' = None) ->
  repair_spent c' = repair_spent c -> repair_window_start c' = repair_window_start c ->
  default 0 (last_now c) <= default 0 (last_now c') -> length (recoveries c') = RECOVERY_SLOTS -> inv c'.
Proof.
  intros [V1 V2 V3 V4 V5 V6 V7 V8 V9 V10 V11 V12 V13 V14 V15 V16] L B P S E U1 U2 O G R1 R2 N H.
  assert (0 < max_cached_bytes (policy c) /\ 0 < max_cached_pictures (policy c)) as [M1 M2].
  { pose proof (charges_nonneg _ _ V5). pose proof (sender_policy_bounds _ _ V3). lia. }
  split; rewrite ?L, ?P, ?E, ?O, ?R1, ?R2, ?U1, ?U2; cbn; auto using Forall_nil_2; try done; try lia.
  - constructor.
  - intros p Hp. apply V12. destruct G as [G|G]; congruence.
Qed.

(** ** Clearing *)

Lemma clear_stored c : stored (clear c) = [].
Proof. apply flatten_all_None. Qed.

Lemma clear_inv c : inv c -> inv (clear c).
Proof.
  intros Hi. apply (inv_empty c); try done; try (by apply Hi).
  - cbn. rewrite length_fmap. apply Hi.
  - apply clear_stored.
  - by right.
Qed.

Lemma sender_close_inv c : inv c -> inv (close c).
Proof.
  intros Hi. apply (inv_empty (clear c)); try done; try (by apply (clear_inv c Hi)).
  - apply clear_stored.
  - by left.
Qed.

(** ** Time *)

Definition at_time (now : Z) (c : SendCache) : SendCache := c <| last_now := Some now |>.

Lemma at_time_inv now c : inv c -> default 0 (last_now c) <= now -> inv (at_time now c).
Proof. intros [] Hn. split; try done. cbn. lia. Qed.

(** What no method but a replacement and an admitted recovery changes. *)
Record steady (c c' : SendCache) : Prop := {
  sd_owner : owner c' = owner c;
  sd_limits : limits c' = limits c;
  sd_policy : policy c' = policy c;
  sd_epoch : epoch c' = epoch c;
  sd_bindings : bindings c' = bindings c
}.

Lemma steady_refl c : steady c c.
Proof. done. Qed.
Lemma steady_trans c1 c2 c3 : steady c1 c2 -> steady c2 c3 -> steady c1 c3.
Proof. intros [] []. split; congruence. Qed.

(** The repair allowance and its window are as they were. *)
Definition window_kept (c c' : SendCache) : Prop :=
  repair_spent c' = repair_spent c /\ repair_window_start c' = repair_window_start c.

(** A reference was lost at [now]. *)
Definition failed (until : Z) (c : SendCache) : SendCache :=
  (clear c) <| last_progress := last_progress c |> <| needs_recovery := true |> <| first_failure_deadline := Some until |>.

Lemma failed_inv until c : inv c -> inv (failed until c).
Proof.
  intros Hi. apply (inv_empty c); try done; try (by apply Hi).
  - cbn. rewrite length_fmap. apply Hi.
  - apply clear_stored.
  - by left.
Qed.

Lemma fail_reference_eq now c :
  fail_reference now c = match deadline now (recovery_horizon_micros (policy c)) with
                         | Ok until => (Ok tt, failed until c) | Err e => (Err (SDelivery e), close c) end.
Proof. unfold fail_reference. by destruct (deadline _ _). Qed.

(** What a successful [tick] does after its checks. *)
Definition swept (now : Z) (c : SendCache) : SendCache :=
  let c := if is_some_and (fun o => ob_send_by o <=? now) (pending_observation c)
           then c <| pending_observation := None |> else c in
  let c := evict now c in
  if repair_window_micros (policy c) <=? now - repair_window_start c
  then c <| repair_window_start := now |> <| repair_spent := 0 |> else c.

Definition kept (now : Z) (l : list CachedPicture) : list CachedPicture := filter (fun p => (send_by p <=? now) = false) l.

Lemma evict_stored now c : stored (evict now c) = kept now (stored c).
Proof.
  unfold evict, kept. cbn [cached upd setter]. induction (cached c) as [|[p|] l IH]; [done| |exact IH].
  change (flatten (Some p :: l)) with (p :: flatten l). rewrite filter_cons, fmap_cons.
  destruct (send_by p <=? now) eqn:E.
  - rewrite decide_False by done. exact IH.
  - rewrite decide_True by done. by rewrite <- IH.
Qed.

Lemma swept_stored now c : stored (swept now c) = kept now (stored c).
Proof.
  unfold swept. cbv zeta. destruct (_ <=? now - _); (etrans; [|apply (evict_stored now c)]);
    by destruct (is_some_and _ (pending_observation c)).
Qed.

Lemma evict_charges now l :
  charges l = charges (kept now l) + foldr (fun p n => cp_charged p + n) 0 (filter (fun p => (send_by p <=? now) = true) l)
  /\ length l = (length (kept now l) + length (filter (fun p => (send_by p <=? now)%Z = true) l))%nat.
Proof.
  unfold kept. induction l as [|p l [IH1 IH2]]; [done|]. rewrite !filter_cons.
  destruct (send_by p <=? now); [rewrite decide_False, decide_True by done|rewrite decide_True, decide_False by done];
    cbn [charges foldr length]; lia.
Qed.

Lemma filtered_Forall {A} (P : A -> Prop) (R : A -> Prop) `{!forall x, Decision (R x)} l : Forall P l -> Forall P (filter R l).
Proof. rewrite !Forall_forall. intros Hl x [_ Hx]%list_elem_of_filter. by apply Hl. Qed.
Lemma kept_Forall P now l : Forall P l -> Forall P (kept now l).
Proof. apply filtered_Forall. Qed.

Lemma evict_inv now c : inv c -> inv (evict now c).
Proof.
  intros [V1 V2 V3 V4 V5 V6 V7 V8 [V9 V9'] [V10 V10'] V11 V12 V13 V14 V15 V16].
  pose proof (evict_charges now (stored c)) as [E1 E2].
  assert (0 <= charges (kept now (stored c)) <= charges (stored c)) as Hc.
  { pose proof (charges_nonneg _ _ (kept_Forall _ now _ V5)).
    assert (forall l, Forall (picture_ok (limits c)) l -> 0 <= foldr (fun p n => cp_charged p + n) 0 l) as Hf.
    { induction 1 as [|p l Hp _ IH]; cbn; [lia|]. pose proof (charged_pos _ _ Hp). lia. }
    specialize (Hf _ (filtered_Forall _ (fun p => (send_by p <=? now) = true) _ V5)). lia. }
  split; rewrite ?evict_stored; try done; cbn [cached c_used_bytes c_used_pictures last_inserted upd setter evict policy].
  - by rewrite length_fmap.
  - by apply kept_Forall.
  - by apply kept_Forall.
  - eapply sublist_NoDup; [done|]. apply fmap_sublist, sublist_filter.
  - by apply kept_Forall.
  - lia.
  - lia.
  - intros Hs. destruct (V11 Hs) as [-> ?]. done.
Qed.

Lemma swept_inv now c : inv c -> last_now c = Some now -> inv (swept now c).
Proof.
  intros Hi Hn. unfold swept. cbv zeta.
  set (c1 := if is_some_and _ _ then _ else c).
  assert (inv c1 /\ last_now c1 = Some now) as [H1 N1].
  { subst c1. destruct (is_some_and _ _); [|done]. destruct Hi. split; [|done]. split; try done.
    intros Hs. split; [by apply iv_stopped0|done]. }
  clearbody c1. assert (last_now (evict now c1) = Some now) as N2 by exact N1.
  pose proof (evict_inv now c1 H1) as H2. destruct (_ <=? now - _); [|done].
  generalize dependent (evict now c1). intros c2 N2 H2. destruct H2. rewrite N2 in *.
  split; try done; cbn in *; [lia|rewrite N2; cbn; lia].
Qed.

(** How every method begins: a clock that went back and a recovery that took too
    long close the cache, a closed cache refuses. *)
Lemma gated {A} now (k : SM A) c (P : Result SendError A -> SendCache -> Prop) : inv c -> 0 <= now ->
  (forall e c', inv c' -> closed c' = true -> steady c c' -> recoveries c' = recoveries c ->
     recovery_charged_epoch c' = recovery_charged_epoch c -> default 0 (last_now c) <= default 0 (last_now c') ->
     window_kept c c' -> P (Err e) c') ->
  (inv (at_time now c) -> default 0 (last_now c) <= now -> closed c = false ->
   is_some_and (fun until => until <=? now) (recovery_deadline c) = false -> wp k (at_time now c) P) ->
  wp (_ ← check_clock now; _ ← refuse_if closed (fun _ => SClosed); _ ← check_recovery_deadline now; k) c P.
Proof.
  intros Hi Hnow He Hk. apply wp_bind. unfold wp at 1, check_clock.
  destruct (is_some_and _ (last_now c)) eqn:Ec; cbn [fst snd].
  { apply He; [by apply sender_close_inv|done..]. }
  assert (default 0 (last_now c) <= now) as Hn.
  { destruct (last_now c); cbn in *; [apply Z.ltb_ge in Ec; lia|done]. }
  pose proof (at_time_inv now c Hi Hn) as Ht. fold (at_time now c). apply wp_refuse.
  change (closed (at_time now c)) with (closed c). destruct (closed c) eqn:Ecl; [by apply He|].
  apply wp_bind. unfold wp at 1, check_recovery_deadline. change (recovery_deadline (at_time now c)) with (recovery_deadline c).
  destruct (is_some_and _ (recovery_deadline c)) eqn:Er; cbn [fst snd]; [|by apply Hk].
  apply He; [by apply sender_close_inv|done..].
Qed.

(** The state after an error that stopped the cache. *)
Record halted (c c' : SendCache) : Prop := {
  hl_inv : inv c';
  hl_stopped : stopped c' = true;
  hl_steady : steady c c';
  hl_recoveries : recoveries c' = recoveries c;
  hl_charged : recovery_charged_epoch c' = recovery_charged_epoch c;
  hl_closed : closed c = true -> closed c' = true;
  hl_clock : default 0 (last_now c) <= default 0 (last_now c');
  hl_window : window_kept c c'
}.

Lemma steady_at now c c' : steady (at_time now c) c' -> steady c c'.
Proof. by intros []. Qed.
Lemma halted_at now c c' : default 0 (last_now c) <= now -> halted (at_time now c) c' -> halted c c'.
Proof. intros Hn [H1 H2 H3%steady_at H4 H5 H6 H7 H8]. cbn in H7. split; try done. lia. Qed.

(** The state after a successful [tick]. *)
Record ticked (now : Z) (c c' : SendCache) : Prop := {
  tk_inv : inv c';
  tk_before : stopped c = false;
  tk_clock : default 0 (last_now c) <= now;
  tk_unlost p : p ∈ stored c -> lost now p = false;
  tk_state : c' = swept now (at_time now c);
  tk_deadline : is_some_and (fun until => until <=? now) (recovery_deadline c) = false
}.

Lemma fail_reference_halts {A} now c (e : SendError) : inv c ->
  wp (_ ← fail_reference now; fail e : SM A) c (fun r c' => (exists e, r = Err e) /\ halted c c' /\ last_now c' = last_now c).
Proof.
  intros Hi. apply wp_bind. unfold wp at 1. rewrite fail_reference_eq.
  destruct (deadline _ _) as [until|e']; cbn [fst snd]; (split; [by eexists|]); (split; [|done]).
  - split; try done; [by apply failed_inv|]. unfold stopped. apply orb_true_r.
  - split; try done. by apply sender_close_inv.
Qed.

Lemma sender_tick_spec now c : inv c -> 0 <= now ->
  wp (tick now) c (fun r c' => match r with Ok _ => ticked now c c' | Err _ => halted c c' end).
Proof.
  intros Hi Hnow. apply gated; [done|done| |].
  { intros e c' H1 H2 H3 H4 H5 H6 H7. split; try done. unfold stopped. by rewrite H2. }
  intros Ht Hclk Hcl Hr. apply wp_refuse. change (needs_recovery (at_time now c)) with (needs_recovery c).
  destruct (needs_recovery c) eqn:En.
  { split; try done. unfold stopped. cbn. rewrite En. apply orb_true_r. }
  unfold wp, method. change (stored (at_time now c)) with (stored c).
  destruct (existsb (lost now) (stored c)) eqn:El.
  { pose proof (fail_reference_halts (A := unit) now (at_time now c) OriginalExpired Ht) as [[e He] [Hh _]]. rewrite He.
    exact (halted_at _ _ _ Hclk Hh). }
  cbn [fst snd]. split; try done.
  - by apply (swept_inv now (at_time now c)).
  - unfold stopped. by rewrite Hcl, En.
  - intros p Hp. apply not_true_iff_false. intros Hl. apply not_true_iff_false in El. apply El, existsb_exists.
    exists p. split; [by apply list_elem_of_In|done].
Qed.

Lemma swept_steady now c : steady c (swept now (at_time now c)).
Proof.
  unfold swept. cbv zeta. destruct (_ <=? now - _); destruct (is_some_and _ (pending_observation (at_time now c))); done.
Qed.

(** What [swept] leaves alone. *)
Lemma swept_rest now c :
  stopped (swept now c) = stopped c /\ last_inserted (swept now c) = last_inserted c
  /\ last_progress (swept now c) = last_progress c /\ last_now (swept now c) = last_now c
  /\ recoveries (swept now c) = recoveries c /\ recovery_charged_epoch (swept now c) = recovery_charged_epoch c.
Proof.
  unfold swept. cbv zeta. destruct (_ <=? now - _); destruct (is_some_and _ (pending_observation c)); done.
Qed.

Lemma ticked_live now c c' : ticked now c c' -> stopped c' = false.
Proof. intros [_ Hs _ _ -> _]. by rewrite (proj1 (swept_rest now (at_time now c))). Qed.

End invariant.
End SenderInv.
