(* ===== verification/SenderPackets.v ===== *)
(** Repair jobs of the sending cache and the packets its methods write. *)

From S2P Require Import Prelude.
From S2P Require Import Limits.
From S2P Require Import Bytes.
From S2P Require Import WireRecord.
From S2P Require Import WireRecordProps.
From S2P Require Import WireMedia.
From S2P Require Import WireMediaProps.
From S2P Require Import Delivery.
From S2P Require Import Assembly.
From S2P Require Import RepairProps.
From S2P Require Import ReceiverInv.
From S2P Require Import Sender.
From S2P Require Import SenderInv.

(** * What a repair job guarantees

    [RepairJob::coalesce] keeps every fragment that is still outstanding and every
    fragment that is newly requested, in order, within the picture and within the
    bound on ranges, and refuses a request exactly when it adds nothing. *)

Module SenderRepair.
Import Media MediaProps Delivery RepairProps Sender SenderInv.
Import Assembly(add_range).

(** ** The merged order *)

(** Nonempty ranges by increasing start; they may overlap. *)
Fixpoint by_start (lo : Z) (rs : list RepairRange) : Prop :=
  match rs with
  | [] => True
  | r :: rs => lo <= r_start r /\ r_start r < r_end r /\ by_start (r_start r) rs
  end.

Lemma by_start_weaken lo lo' rs : lo' <= lo -> by_start lo rs -> by_start lo' rs.
Proof. destruct rs as [|r rs]; [done|]. cbn. intros ? (? & ? & ?). split_and!; lia || done. Qed.

Lemma by_start_elem rs r : forall lo, by_start lo rs -> r ∈ rs -> lo <= r_start r.
Proof.
  induction rs as [|a rs IH]; intros lo; [by intros _ ?%not_elem_of_nil|]. cbn.
  intros (H1 & H2 & H3) [->|Hr]%elem_of_cons; [done|]. specialize (IH _ H3 Hr). lia.
Qed.

Lemma ordered_by_start rs : forall lo, ordered lo rs -> by_start lo rs.
Proof.
  induction rs as [|r rs IH]; intros lo; [done|]. cbn. intros (H1 & H2 & H3). split_and!; [done|done|].
  eapply by_start_weaken; [|by apply IH]. lia.
Qed.

Lemma merge_spec fuel : forall lo old new, (length old + length new <= fuel)%nat -> by_start lo old -> by_start lo new ->
  by_start lo (merge_ranges fuel old new)
  /\ forall r, r ∈ merge_ranges fuel old new <-> r ∈ old \/ r ∈ new.
Proof.
  induction fuel as [|fuel IH]; intros lo old new Hl Ho Hn.
  { destruct old, new; cbn in Hl; try lia. split; [done|]. intros r. cbn. rewrite elem_of_nil. tauto. }
  destruct old as [|a old], new as [|b new]; cbn [merge_ranges length] in *.
  - split; [done|]. intros r. rewrite elem_of_nil. tauto.
  - destruct Hn as (H1 & H2 & H3). destruct (IH (r_start b) [] new) as [I1 I2]; [cbn; lia|done|done|].
    split; [done|]. intros r. rewrite !elem_of_cons, I2, elem_of_nil. tauto.
  - destruct Ho as (H1 & H2 & H3). destruct (IH (r_start a) old []) as [I1 I2]; [cbn; lia|done|done|].
    split; [done|]. intros r. rewrite !elem_of_cons, I2, elem_of_nil. tauto.
  - destruct (Z.leb_spec (r_start a) (r_start b)).
    + destruct Ho as (H1 & H2 & H3). destruct (IH (r_start a) old (b :: new)) as [I1 I2]; [cbn; lia|done|cbn in *; split_and!; try lia; apply Hn|].
      split; [done|]. intros r. rewrite elem_of_cons, I2, !elem_of_cons. tauto.
    + destruct Hn as (H1 & H2 & H3). destruct (IH (r_start b) (a :: old) new) as [I1 I2]; [cbn; lia|cbn in *; split_and!; try lia; apply Ho|done|].
      split; [done|]. intros r. rewrite elem_of_cons, I2, !elem_of_cons. tauto.
Qed.

(** ** One round of the loop *)

(** The union so far: [s] is the start of the last range taken. *)
Record union_ok (maximum : nat) (total s : Z) (rs : list RepairRange) : Prop := {
  un_length : (length rs <= maximum)%nat;
  un_ordered : ordered 0 rs;
  un_end : end_of 0 rs <= total;
  un_last l : last rs = Some l -> r_start l <= s
}.

(** What a round adds: it covers the new range and all that was covered. *)
Definition absorbs (maximum : nat) (total : Z) (rs rs' : list RepairRange) (m : RepairRange) : Prop :=
  union_ok maximum total (r_start m) rs' /\ rs' <> []
  /\ (forall i, covers rs i \/ r_start m <= i < r_end m -> covers rs' i)
  /\ (length rs' <= S (length rs))%nat.

Lemma add_range_absorbs maximum total s rs m : (0 < maximum)%nat -> union_ok maximum total s rs ->
  end_of 0 rs <= r_start m -> s <= r_start m -> r_start m < r_end m -> r_end m <= total ->
  absorbs maximum total rs (add_range maximum rs m) m.
Proof.
  intros Hmax [Hl Ho _ Hs] He Hsm Hm Ht.
  destruct (add_range_ok maximum 0 rs m Hmax Hl Ho He Hm) as (A1 & A2 & A3 & A4 & A5).
  split; [|split; [done|split; [done|]]].
  - split; [done|done|by rewrite A4|]. intros l.
    destruct (add_range_cases maximum rs m Hmax Hl) as [[_ ->]|[(_ & rs0 & z & -> & ->)|(_ & rs1 & x & y & rs2 & -> & ->)]].
    + rewrite last_snoc. by intros [= <-].
    + rewrite last_snoc. intros [= <-]. cbn. specialize (Hs z (last_snoc _ _)). lia.
    + rewrite app_comm_cons, app_assoc, last_snoc. by intros [= <-].
  - destruct (add_range_cases maximum rs m Hmax Hl) as [[_ ->]|[(_ & rs0 & z & -> & ->)|(_ & rs1 & x & y & rs2 & -> & ->)]];
      rewrite ?length_app; cbn [length]; rewrite ?length_app; cbn [length]; lia.
Qed.

(** A range that touches the last one extends it. *)
Lemma add_merged_touch maximum rs0 l m : r_start m <= r_end l ->
  add_merged maximum (rs0 ++ [l]) m = rs0 ++ [mk_range (r_start l) (Z.max (r_end l) (r_end m))].
Proof.
  intros H. unfold add_merged. rewrite last_snoc, length_app. destruct (Z.leb_spec (r_start m) (r_end l)); [|lia].
  cbn [length]. replace (length rs0 + 1 - 1)%nat with (length rs0 + 0)%nat by lia. by rewrite alter_app_r.
Qed.

Lemma add_merged_spec maximum total s rs m : (0 < maximum)%nat -> union_ok maximum total s rs ->
  0 <= r_start m -> s <= r_start m -> r_start m < r_end m -> r_end m <= total ->
  absorbs maximum total rs (add_merged maximum rs m) m.
Proof.
  intros Hmax Hu H0 Hsm Hm Ht.
  destruct rs as [|l rs0 _] using rev_ind; [by apply (add_range_absorbs _ _ s)|].
  destruct (Z.le_gt_cases (r_start m) (r_end l)) as [Hle|Hgt].
  2:{ unfold add_merged. rewrite last_snoc. destruct (Z.leb_spec (r_start m) (r_end l)); [lia|].
      apply (add_range_absorbs _ _ s); try done. rewrite end_of_snoc. lia. }
  rewrite add_merged_touch by done. destruct Hu as [Hl Ho He Hs].
  rewrite length_app in Hl. cbn in Hl. apply ordered_app in Ho as [Ho (H1 & H2 & _)]. rewrite end_of_snoc in He.
  specialize (Hs l (last_snoc _ _)). split_and!.
  - split; rewrite ?length_app, ?end_of_snoc; cbn [length r_end]; [lia| |lia|].
    + apply ordered_app. cbn. split_and!; lia || done.
    + intros l'. rewrite last_snoc. intros [= <-]. cbn. lia.
  - by destruct rs0.
  - intros i. rewrite !covers_app, !covers_one. cbn. intros [[?|?]|?]; [by left|right; lia|right; lia].
  - rewrite !length_app. cbn. lia.
Qed.

(** ** The whole loop *)

Lemma foldl_merged maximum total next : (0 < maximum)%nat -> forall s rs,
  union_ok maximum total s rs -> 0 <= s -> by_start s next -> Forall (fun r => r_end r <= total) next ->
  let rs' := foldl (add_merged maximum) rs next in
  exists s', union_ok maximum total s' rs' /\ (next <> [] \/ rs <> [] -> rs' <> [])
  /\ (forall i, covers rs i \/ covers next i -> covers rs' i).
Proof.
  intros Hmax. induction next as [|m next IH]; intros s rs Hu Hs Hb Ht; cbv zeta.
  { exists s. cbn [foldl]. split_and!; [done|tauto|]. intros i [?|(r & Hr & _)]; [done|by apply not_elem_of_nil in Hr]. }
  destruct Hb as (H1 & H2 & H3). inversion_clear Ht as [|? ? Hm Ht'].
  destruct (add_merged_spec maximum total s rs m) as (Hu' & Hne & Hc & _); try done; [lia|].
  destruct (IH (r_start m) (add_merged maximum rs m)) as (s' & I1 & I2 & I3); try done; [lia|].
  exists s'. split_and!; [done|by intros _; apply I2; right|].
  intros i Hi. apply I3. rewrite covers_cons in Hi. destruct Hi as [Hi|[Hi|Hi]]; auto.
Qed.

Lemma covers_permuted rs1 rs2 rs : (forall r, r ∈ rs <-> r ∈ rs1 \/ r ∈ rs2) ->
  forall i, covers rs i <-> covers rs1 i \/ covers rs2 i.
Proof. intros H i. unfold covers. setoid_rewrite H. naive_solver. Qed.

(** ** What is still outstanding *)

Lemma remaining_eq j r : j_ranges j !! j_range j = Some r ->
  remaining j = mk_range (j_fragment j) (r_end r) :: drop (S (j_range j)) (j_ranges j).
Proof. intros Hr. unfold remaining. by rewrite (drop_S _ r). Qed.

Lemma remaining_ok maximum total j : job_ok maximum total j ->
  ordered 0 (remaining j) /\ end_of 0 (remaining j) <= total /\ Z.of_nat (length (remaining j)) <= maximum /\ remaining j <> []
  /\ exists rest r, remaining j = mk_range (j_fragment j) (r_end r) :: rest.
Proof.
  intros [Ho He Hc (r & Hr & Hf)]. rewrite (remaining_eq j r Hr).
  rewrite <- (take_drop_middle _ _ _ Hr) in Ho, He, Hc.
  apply ordered_app in Ho as [Ho1 (H1 & H2 & H3)]. pose proof (ordered_end _ _ Ho1).
  rewrite end_of_app, end_of_cons in He. rewrite end_of_cons. cbn [ordered r_start r_end length].
  rewrite length_app in Hc. cbn [length] in Hc.
  split_and!; [lia|lia|done|done|lia|done|by eexists _, r].
Qed.

(** ** Counting *)

Definition indices (rs : list RepairRange) : list Z := concat (map (fun r => seqZ (r_start r) (r_end r - r_start r)) rs).

Lemma indices_elem rs i : i ∈ indices rs <-> covers rs i.
Proof.
  induction rs as [|r rs IH]; cbn.
  - split; [by intros ?%not_elem_of_nil|]. intros (q & Hq & _). by apply not_elem_of_nil in Hq.
  - unfold indices in *. cbn. rewrite elem_of_app, IH, elem_of_seqZ, covers_cons. split; intros [?|?]; auto; left; lia.
Qed.

Lemma indices_ordered rs : forall lo, ordered lo rs -> NoDup (indices rs) /\ Z.of_nat (length (indices rs)) = fragments_in rs.
Proof.
  induction rs as [|r rs IH]; intros lo Ho; [by split; [constructor|]|]. pose proof Ho as (H1 & H2 & H3).
  destruct (IH _ H3) as [I1 I2]. unfold indices in *. cbn [map concat]. split.
  - apply NoDup_app. split_and!; [apply NoDup_seqZ| |done]. intros i Hi%elem_of_seqZ Hc.
    apply (indices_elem rs) in Hc. pose proof (covers_within _ _ _ H3 Hc). lia.
  - rewrite length_app, length_seqZ. cbn [fragments_in foldr]. unfold fragments_in in I2. lia.
Qed.

(** A larger union has more fragments, unless it is the same. *)
Lemma fragments_compare rs rs' lo lo' : ordered lo rs -> ordered lo' rs' -> (forall i, covers rs i -> covers rs' i) ->
  fragments_in rs = fragments_in rs' <-> forall i, covers rs' i -> covers rs i.
Proof.
  intros Ho Ho' Hsub. destruct (indices_ordered rs lo Ho) as [N1 L1], (indices_ordered rs' lo' Ho') as [N2 L2].
  split.
  - intros He i Hi. apply indices_elem, list_elem_of_In. apply indices_elem, list_elem_of_In in Hi. revert i Hi.
    apply (List.NoDup_length_incl).
    + by apply NoDup_ListNoDup.
    + lia.
    + intros i. rewrite <- !list_elem_of_In, !indices_elem. apply Hsub.
  - intros Hsub'. rewrite <- L1, <- L2. f_equal. apply Permutation_length, NoDup_Permutation; [done|done|].
    intros i. rewrite !indices_elem. split; auto.
Qed.

(** ** A request that adds nothing *)

(** A round that need not bridge covers nothing else. *)
Lemma add_merged_exact maximum rs m k :
  (length rs < maximum)%nat \/ (exists rs0 l, rs = rs0 ++ [l] /\ r_start m <= r_end l) ->
  covers (add_merged maximum rs m) k -> covers rs k \/ r_start m <= k < r_end m.
Proof.
  intros Hcase. assert ((length rs < maximum)%nat -> covers (add_range maximum rs m) k -> covers rs k \/ r_start m <= k < r_end m) as Hadd.
  { intros Hl. unfold add_range. destruct (Nat.ltb_spec (length rs) maximum); [|lia]. by rewrite covers_app, covers_one. }
  destruct rs as [|l rs0 _] using rev_ind.
  { apply Hadd. destruct Hcase as [?|(rs0 & l & ? & _)]; [done|]. by destruct rs0. }
  destruct (Z.le_gt_cases (r_start m) (r_end l)) as [Hle|Hgt].
  - rewrite add_merged_touch by done. rewrite !covers_app, !covers_one. cbn. intros [?|?]; [tauto|].
    destruct (Z.lt_ge_cases k (r_end l)); [left; right; lia|right; lia].
  - unfold add_merged. rewrite last_snoc. destruct (Z.leb_spec (r_start m) (r_end l)); [lia|]. apply Hadd.
    destruct Hcase as [?|(rs1 & l1 & E & ?)]; [done|]. apply app_inj_2 in E as [_ E]; [|done]. injection E as <-. lia.
Qed.

(** Nothing is bridged when every requested fragment is outstanding. *)
Section subset.
Context (maximum : nat) (total : Z) (Hmax : (0 < maximum)%nat).

(** The loop with [rs] done and [old] and [new] ahead. *)
Record ahead (s : Z) (old new rs : list RepairRange) : Prop := {
  ah_union : union_ok maximum total s rs;
  ah_start : 0 <= s;
  ah_old : by_start s old /\ Forall (fun r => r_end r <= total) old;
  ah_new : by_start s new /\ Forall (fun r => r_end r <= total) new;
  ah_room : (length rs + length old <= maximum)%nat;
  ah_subset i : covers new i -> covers rs i \/ covers old i
}.

Lemma ahead_old s a old new rs : ahead s (a :: old) new rs -> by_start (r_start a) new ->
  ahead (r_start a) old new (add_merged maximum rs a)
  /\ forall i, covers (add_merged maximum rs a) i \/ covers old i -> covers rs i \/ covers (a :: old) i.
Proof using Hmax.
  intros [Hu Hs [(A1 & A2 & A3) To] [Hn Tn] Hr Hsub] Hn'. inversion_clear To as [|? ? Ta To']. cbn [length] in Hr.
  destruct (add_merged_spec maximum total s rs a) as (Hu' & _ & Hc & Hl); try done; [lia|].
  split.
  - split; try done; [lia|lia|]. intros i Hi. destruct (Hsub i Hi) as [?|Hi']; [left; by apply Hc; left|].
    apply covers_cons in Hi' as [?|?]; [left; by apply Hc; right|by right].
  - intros i. rewrite covers_cons. intros [Hi|?]; [|tauto]. apply add_merged_exact in Hi; [tauto|left; lia].
Qed.

Lemma ahead_new s b old new rs : ahead s old (b :: new) rs -> by_start (r_start b + 1) old ->
  ahead (r_start b) old new (add_merged maximum rs b)
  /\ forall i, covers (add_merged maximum rs b) i \/ covers old i -> covers rs i \/ covers old i.
Proof using Hmax.
  intros [Hu Hs [Ho To] [(B1 & B2 & B3) Tn] Hr Hsub] Ho'. inversion_clear Tn as [|? ? Tb Tn'].
  destruct (add_merged_spec maximum total s rs b) as (Hu' & _ & Hc & _); try done; [lia|].
  assert (exists rs0 l, rs = rs0 ++ [l] /\ r_start b <= r_end l) as Htouch.
  { destruct (Hsub (r_start b)) as [Hrs|Hold].
    - apply covers_cons. left. lia.
    - pose proof (covers_within _ _ _ (un_ordered _ _ _ _ Hu) Hrs) as Hw. destruct rs as [|l rs0 _] using rev_ind.
      { destruct Hrs as (q & Hq & _). by apply not_elem_of_nil in Hq. }
      exists rs0, l. rewrite end_of_snoc in Hw. split; [done|lia].
    - exfalso. destruct Hold as (r & Hr' & Hi). pose proof (by_start_elem _ _ _ Ho' Hr'). lia. }
  split.
  - split; try done; [lia| | |].
    + split; [|done]. eapply by_start_weaken; [|exact Ho']. lia.
    + destruct Htouch as (rs0 & l & -> & Ht). rewrite add_merged_touch by done. rewrite length_app in *. cbn in *. lia.
    + intros i Hi. destruct (Hsub i) as [?|?]; [apply covers_cons; by right|left; by apply Hc; left|by right].
  - intros i [Hi|?]; [|by right]. apply add_merged_exact in Hi; [|by right].
    destruct Hi as [?|Hi]; [by left|]. apply Hsub, covers_cons. by left.
Qed.

Lemma merge_subset fuel : forall s old new rs, (length old + length new <= fuel)%nat -> ahead s old new rs ->
  forall i, covers (foldl (add_merged maximum) rs (merge_ranges fuel old new)) i -> covers rs i \/ covers old i.
Proof using Hmax.
  induction fuel as [|fuel IH]; intros s old new rs Hf Ha i; [by left|].
  destruct old as [|a old], new as [|b new]; cbn [merge_ranges length foldl] in *.
  - by left.
  - destruct (ahead_new s b [] new rs Ha) as [Ha' Hc]; [done|]. intros Hi. apply Hc. eapply IH; [|exact Ha'|done]. cbn. lia.
  - destruct (ahead_old s a old [] rs Ha) as [Ha' Hc]; [done|]. intros Hi. apply Hc. eapply IH; [|exact Ha'|done]. cbn. lia.
  - destruct (Z.leb_spec (r_start a) (r_start b)); cbn [foldl].
    + destruct (ahead_old s a old (b :: new) rs Ha) as [Ha' Hc].
      { destruct Ha as [_ _ _ [(B1 & B2 & B3) _] _ _]. by cbn. }
      intros Hi. apply Hc. eapply IH; [|exact Ha'|done]. cbn. lia.
    + destruct (ahead_new s b (a :: old) new rs Ha) as [Ha' Hc].
      { destruct Ha as [_ _ [(B1 & B2 & B3) _] _ _ _]. cbn. split_and!; lia || done. }
      intros Hi. apply Hc. eapply IH; [|exact Ha'|done]. cbn. lia.
Qed.
End subset.

(** ** Coalescing *)

Lemma ordered_Forall rs : forall lo total, ordered lo rs -> end_of lo rs <= total -> Forall (fun r => r_end r <= total) rs.
Proof.
  induction rs as [|r rs IH]; intros lo total; [constructor|]. intros (H1 & H2 & H3) He. rewrite end_of_cons in He.
  constructor; [|by apply (IH _ _ H3)]. pose proof (ordered_end _ _ H3). lia.
Qed.

(** A job at its beginning. *)
Lemma fresh_job maximum total r rs : ordered 0 (r :: rs) -> end_of 0 (r :: rs) <= total ->
  Z.of_nat (length (r :: rs)) <= maximum ->
  job_ok maximum total (mk_job (r :: rs) 0 (r_start r)) /\ remaining (mk_job (r :: rs) 0 (r_start r)) = r :: rs.
Proof.
  intros Ho He Hl. split; [|by destruct r]. split; cbn [j_ranges j_range j_fragment]; try done.
  exists r. split; [done|]. destruct Ho as (? & ? & _). lia.
Qed.

(** What a repair request may ask of a picture of [total] fragments. *)
Record request_ok (maximum total : Z) (rs : list RepairRange) : Prop := {
  rq_some : rs <> [];
  rq_ordered : ordered 0 rs;
  rq_end : end_of 0 rs <= total;
  rq_count : Z.of_nat (length rs) <= maximum
}.

Lemma coalesce_spec maximum total j rs : 0 < maximum <= 64 -> job_ok maximum total j -> request_ok maximum total rs ->
  match coalesce j rs maximum with
  | Ok j' => job_ok maximum total j' /\ (forall i, covers (remaining j) i \/ covers rs i -> covers (remaining j') i)
             /\ exists i, covers rs i /\ ~ covers (remaining j) i
  | Err e => e = RepairBusy /\ forall i, covers rs i -> covers (remaining j) i
  end.
Proof.
  intros Hm Hj [Rne Ro Re Rc]. destruct (remaining_ok _ _ j Hj) as (Jo & Je & Jc & Jne & _).
  unfold coalesce. set (m := Nat.min (Z.to_nat maximum) 64). assert (0 < m)%nat as Hm0 by (subst m; lia).
  assert (Z.of_nat m = maximum) as Hm1 by (subst m; lia). clearbody m. destruct (Nat.eqb_spec m 0); [lia|].
  set (old := remaining j) in *. pose proof (ordered_Forall _ _ _ Jo Je) as Tj. pose proof (ordered_Forall _ _ _ Ro Re) as Tr.
  destruct (merge_spec (length old + length rs) 0 old rs) as [Ms Me]; [done|by apply ordered_by_start..|].
  assert (union_ok m total 0 []) as Hu.
  { split; cbn; try done; [lia|]. pose proof (ordered_end _ _ Ro). lia. }
  set (next := merge_ranges _ old rs) in *.
  destruct (foldl_merged m total next Hm0 0 [] Hu) as (s & [U1 U2 U3 _] & Une & Uc); try done.
  { apply Forall_forall. intros r [Hr|Hr]%Me; [by apply (proj1 (Forall_forall _ _) Tj)|by apply (proj1 (Forall_forall _ _) Tr)]. }
  set (result := foldl (add_merged m) [] next) in *.
  assert (forall i, covers old i \/ covers rs i -> covers result i) as Hsup.
  { intros i Hi. apply Uc. right. by apply (covers_permuted old rs next Me). }
  pose proof (fragments_compare old result 0 0 Jo U2 (fun i Hi => Hsup i (or_introl Hi))) as Hcmp.
  destruct (Z.eqb_spec (fragments_in old) (fragments_in result)) as [Heq|Hne].
  { split; [done|]. intros i Hi. apply (proj1 Hcmp Heq). auto. }
  assert (result <> []) as Hres.
  { apply Une. left. intros E. destruct rs as [|r rs]; [done|]. destruct (not_elem_of_nil r). rewrite <- E.
    apply Me. right. apply list_elem_of_here. }
  assert ((forall i, covers rs i -> covers old i) -> forall i, covers result i -> covers old i) as Hsub.
  { intros Hin i Hi. apply (merge_subset m total Hm0 (length old + length rs) 0 old rs []) in Hi; [|done|].
    - destruct Hi as [(q & Hq & _)|?]; [by apply not_elem_of_nil in Hq|done].
    - split; try done; [by split; [apply ordered_by_start|]..|cbn; lia|by intros k ?; right; apply Hin]. }
  clearbody result. destruct result as [|r rest]; [done|].
  destruct (fresh_job maximum total r rest) as [Hf Hrem]; [done|done|lia|]. rewrite Hrem. split_and!; [done|done|].
  destruct (decide (Forall (fun i => i ∈ indices old) (indices rs))) as [Hall|Hsome].
  - destruct Hne. apply Hcmp, Hsub. intros i Hi%indices_elem. apply indices_elem. by apply (proj1 (Forall_forall _ _) Hall).
  - apply not_Forall_Exists, Exists_exists in Hsome as (i & Hi & Hn); [|apply _].
    exists i. rewrite <- !indices_elem. done.
Qed.

(** ** Emission *)

(** Sending the next fragment leaves the others; the last one ends the job. *)
Lemma advance_spec maximum total j : job_ok maximum total j ->
  match advance_job j with
  | Some j' => job_ok maximum total j' /\ forall i, covers (remaining j) i <-> i = j_fragment j \/ covers (remaining j') i
  | None => forall i, covers (remaining j) i <-> i = j_fragment j
  end.
Proof.
  intros [Ho He Hc (r & Hr & Hf)]. unfold advance_job. rewrite Hr.
  rewrite (remaining_eq j r Hr). destruct (Z.eqb_spec (j_fragment j + 1) (r_end r)) as [Hend|Hend].
  - destruct (j_ranges j !! S (j_range j)) as [next|] eqn:En.
    + assert (r_start next < r_end next) as Hne.
      { rewrite <- (take_drop_middle _ _ _ En) in Ho. by apply ordered_app in Ho as [_ (_ & ? & _)]. }
      split.
      * split; cbn [j_ranges j_range j_fragment]; try done. exists next. split; [done|]. lia.
      * intros i. rewrite (remaining_eq (mk_job _ _ _) next) by done. cbn [j_ranges j_range j_fragment].
        rewrite (drop_S _ next) by done. rewrite !covers_cons. cbn [r_start r_end]. intuition lia.
    + intros i. rewrite drop_ge by (by apply lookup_ge_None_1). rewrite covers_one. cbn. lia.
  - split.
    + split; try done. exists r. split; [done|]. cbn. lia.
    + intros i. rewrite (remaining_eq (j <| j_fragment := j_fragment j + 1 |>) r) by done. rewrite !covers_cons. cbn. intuition lia.
Qed.

End SenderRepair.

(** * What the sending cache puts on the wire

    Every record a [SendCache] writes is a fragment, a recovery chunk or an
    announcement of a picture that was pushed, and a receiver that decodes it, under
    whatever bindings it has, reads exactly that. *)

Module SenderPackets.
Import Media MediaProps Delivery RepairProps Sender SenderInv SenderRepair.
Import ReceiverInv(bindings_ok).

(** ** Records *)

Lemma frame_binding k b p exts : slice 16 20 (frame_of k b p exts) = be 4 b.
Proof. done. Qed.

(** A record is read back by whoever has its binding, and by nobody else. *)
Lemma read_by_its_binding {A} l b b' k ch (typed valid : A -> Prop) body enc dec a a' :
  media_codec l b k ch typed valid body enc dec -> media_codec l b' k ch typed valid body enc dec ->
  fits u32_max b -> fits u32_max b' -> data_ok (body a) ->
  typed a -> valid a -> fits_record body (record_bytes l) a ->
  on_channel dec l b' ch (frame_of k b (body a) []) = Ok a' -> a' = a.
Proof.
  intros Hc Hc' Hb Hb' Hd Ht Hv Hf Ha.
  assert (Forall is_byte (frame_of k b (body a) [])) as Hby by (apply frame_bytes, Hd).
  destruct (codec_accepts _ _ _ _ _ _ _ _ Hc' _ _ Hby Ha) as (_ & _ & _ & exts & _ & E).
  apply (f_equal (slice 16 20)) in E. rewrite !frame_binding in E.
  assert (b = b') as <-.
  { apply (f_equal of_be) in E. rewrite !of_be_be_id in E; [done|unfold fits, u32_max in *; cbn; lia..]. }
  pose proof (codec_reads _ _ _ _ _ _ _ _ Hc a Ht Hv Hf) as Hr. cbv beta in Hr. congruence.
Qed.

(** What the written prefix of the buffer is. *)
Lemma written_frame {A} l b k ch (typed valid : A -> Prop) body enc dec a out :
  media_codec l b k ch typed valid body enc dec -> typed a -> valid a -> fits_record body (record_bytes l) a ->
  record_bytes l <= Z.of_nat (length out) <= usize_max ->
  exists out', enc a b l out = (Ok (Z.of_nat (24 + length (body a))), out')
    /\ length out' = length out /\ take (24 + length (body a)) out' = frame_of k b (body a) [].
Proof.
  intros Hc Ht Hv Hf Hout. unfold fits_record in Hf. pose proof (codec_writes _ _ _ _ _ _ _ _ Hc a out Ht Hv Hf) as Hw. cbn beta in Hw.
  rewrite Hw by lia. eexists. split; [done|]. split.
  - rewrite length_app, frame_length, length_drop. cbn. lia.
  - rewrite take_app_length' by (by rewrite frame_length; cbn; lia). done.
Qed.

(** ** Contents *)

Section packets.
Context (Q : Z -> bytes -> Prop).

(** The record on channel [ch] is a piece or an announcement of a picture of [Q]. *)
Inductive carries (l : MediaLimits) (b : MediaBindings) : Channel -> bytes -> Prop :=
| carries_fragment f picture :
    fragment_typed f -> validate_fragment f l = Ok tt ->
    Q (frame (descriptor f)) picture -> Z.of_nat (length picture) = total_bytes (descriptor f) ->
    fbytes f = piece (descriptor f) picture (index f) ->
    carries l b Video (frame_of WireRecord.Fragment (for_channel b Video) (fragment_body f) [])
| carries_chunk k picture :
    chunk_typed k -> chunk_valid l k -> fits_record chunk_body (record_bytes l) k ->
    Q (c_frame k) picture -> Z.of_nat (length picture) = c_total_bytes k ->
    c_bytes k = slice (Z.to_nat (c_offset k)) (Z.to_nat (c_offset k) + length (c_bytes k)) picture ->
    carries l b RecoveryChannel (frame_of Recovery (for_channel b RecoveryChannel) (chunk_body k) [])
| carries_progress p :
    progress_ok Q l p ->
    carries l b MediaConfig (frame_of WireRecord.Progress (for_channel b MediaConfig) (progress_body p) []).

(** The offer names the record at the start of the buffer. *)
Definition sends (c : SendCache) (pk : packet) : Prop :=
  let (o, out) := pk in
  carries (limits c) (bindings c) (po_channel o) (take (Z.to_nat (byte_len o)) out)
  /\ 0 < byte_len o <= record_bytes (limits c) /\ o_owner (origin o) = owner c /\ o_epoch (origin o) = epoch c.

Lemma progress_fits l p : limits_ok l -> fits_record progress_body (record_bytes l) p.
Proof.
  intros [Hr _]%limits_sizes. unfold fits_record. pose proof (proj2 (progress_body_ok p)) as Hp.
  unfold encoded_len in Hp. destruct (reference (p_descriptor p)); lia.
Qed.

Lemma carries_bytes l b ch pk : limits_ok l -> carries l b ch pk -> Forall is_byte pk.
Proof.
  intros Hl [f picture Ht Hv _ _ _|k picture Ht Hv Hf _ _ _|p _]; apply frame_bytes.
  - by apply (fragment_facts f l).
  - by apply (chunk_data k l).
  - apply progress_body_ok.
Qed.

End packets.
End SenderPackets.
