(* ===== verification/SenderMethods.v ===== *)
(** The methods of the sending cache: the steps they share, then each of them. *)

From S2P Require Import Prelude.
From S2P Require Import Limits.
From S2P Require Import Bytes.
From S2P Require Import WireRecord.
From S2P Require Import WireRecordProps.
From S2P Require Import WireMedia.
From S2P Require Import WireMediaProps.
From S2P Require Import WireInput.
From S2P Require Import WireView.
From S2P Require Import Delivery.
From S2P Require Import Assembly.
From S2P Require Import RepairProps.
From S2P Require Import ReceiverInv.
From S2P Require Import Sender.
From S2P Require Import SenderInv.
From S2P Require Import SenderPackets.

(** * The sending cache: its methods

    Every method keeps the invariant; the packet methods write the next record of
    the oldest unsent picture, or the repair with the earliest deadline that fits
    the byte allowance. *)

Module SenderSteps.
Import Media MediaProps Delivery RepairProps Sender SenderInv SenderRepair SenderPackets.
Import ReceiverInv(bindings_ok, flatten_insert, flatten_at, cons_option).

(** ** Pictures *)

Lemma fragment_ok l p i : limits_ok l -> picture_ok l p -> 0 <= i < count_of (cp_descriptor p) ->
  exists f, picture_fragment p i = Ok f /\ fragment_typed f /\ validate_fragment f l = Ok tt
    /\ descriptor f = cp_descriptor p /\ index f = i
    /\ fbytes f = piece (cp_descriptor p) (contents (cp_bytes p)) i
    /\ repair_packet_bytes p i = Ok (Z.of_nat (24 + length (fragment_body f))).
Proof.
  intros Hl Hp Hi. pose proof Hp as [[Ht _] Hv Hb Hlen _ _ _ _ _ _]. fold (cp_descriptor p) in Ht.
  pose proof (range_ok _ l Ht Hv i Hi) as Hr. pose proof (stride_fits _ l Ht Hv) as [_ Hc].
  pose proof (descriptor_positive _ l Ht Hv) as [Hs Htot].
  pose proof (div_ceil_bounds _ _ Hs Htot) as Hd. fold (count_of (cp_descriptor p)) in Hd.
  set (f := mk_fragment (cp_descriptor p) i (piece (cp_descriptor p) (contents (cp_bytes p)) i)).
  assert (picture_fragment p i = Ok f) as Hf.
  { unfold picture_fragment, wire, map_err, mbind, Result_bind. subst f. unfold piece. by rewrite Hr. }
  assert (Z.of_nat (length (fbytes f)) = Z.min ((i + 1) * stride (cp_descriptor p)) (total_bytes (cp_descriptor p)) - i * stride (cp_descriptor p)) as Hfl.
  { subst f. cbn [fbytes]. unfold piece. rewrite Hr. unfold slice. rewrite length_take, length_drop. nia. }
  assert (fragment_typed f) as Hft.
  { split_and!; try done; [subst f; cbn; destruct Hl as (_ & _ & Hf1 & _); unfold fits, MAX_FRAGMENTS, u32_max in *; lia|].
    split; [|pose proof (limits_sizes l Hl); destruct Ht as (_ & [_ ?] & _); unfold u32_max in *; nia].
    subst f. cbn [fbytes]. unfold piece. rewrite Hr. unfold slice. by apply Forall_take, Forall_drop. }
  assert (validate_fragment f l = Ok tt) as Hvf by (apply validate_fragment_spec; done || (subst f; cbn in *; split_and!; lia || done)).
  exists f. split_and!; try done.
  destruct (fragment_facts f l Hl Hft Hvf) as (_ & _ & Hbl & _). unfold repair_packet_bytes. rewrite Hf. cbn [mbind Result_bind].
  f_equal. unfold encoded_len in Hbl. change (descriptor f) with (cp_descriptor p) in Hbl. unfold FRAGMENT_OVERHEAD.
  destruct (reference (cp_descriptor p)); cbn [is_some]; lia.
Qed.

(** ** Selection *)

(** A loop that keeps the best candidate so far; [before p q] when [p] replaces [q]. *)
Section pick.
Context (w : CachedPicture -> bool) (before : CachedPicture -> CachedPicture -> bool).

Fixpoint pick (i : nat) (l : list (option CachedPicture)) (best : option (nat * CachedPicture)) : option (nat * CachedPicture) :=
  match l with
  | [] => best
  | s :: l =>
      pick (S i) l
        (match s with
         | Some p => if w p && is_none_or (fun b => before p (snd b)) best then Some (i, p) else best
         | None => best
         end)
  end.

Context (le : CachedPicture -> CachedPicture -> Prop) `{!PreOrder le}.
Context (Hbefore : forall p q, if before p q then le p q else le q p).

Lemma pick_spec l : forall i best,
  match pick i l best with
  | None => best = None /\ forall q, Some q ∈ l -> w q = false
  | Some (j, p) =>
      (best = Some (j, p) \/ (i <= j)%nat /\ l !! (j - i)%nat = Some (Some p) /\ w p = true)
      /\ (forall q, Some q ∈ l -> w q = true -> le p q)
      /\ (forall k q, best = Some (k, q) -> le p q)
  end.
Proof using All.
  induction l as [|s l IH]; intros i best; cbn [pick].
  { destruct best as [[j p]|]; [|split; [done|by intros q ?%not_elem_of_nil]].
    split_and!; [by left|by intros q ?%not_elem_of_nil|by intros k q [= -> ->]]. }
  set (best' := match s with Some p => _ | None => best end). specialize (IH (S i) best').
  assert ((best' = best /\ forall q, s = Some q -> w q = true -> exists k b, best = Some (k, b) /\ le b q)
          \/ exists p, s = Some p /\ w p = true /\ best' = Some (i, p) /\ forall k b, best = Some (k, b) -> le p b) as Hb.
  { subst best'. destruct s as [p|]; [|left; split; [done|discriminate]]. destruct (w p) eqn:Ew; cbn [andb].
    2:{ left. split; [done|]. intros q [= <-]. congruence. }
    destruct best as [[k b]|]; cbn [is_none_or snd].
    - pose proof (Hbefore p b) as Hle. destruct (before p b).
      + right. exists p. split_and!; try done. by intros ? ? [= <- <-].
      + left. split; [done|]. intros q [= <-] _. by exists k, b.
    - right. by exists p. }
  clearbody best'. destruct (pick (S i) l best') as [[j p]|].
  - destruct IH as (I1 & I2 & I3). split_and!.
    + destruct I1 as [->|(H1 & H2 & H3)].
      * destruct Hb as [[Hb _]|(q & -> & Hw & [= -> ->] & _)]; [by left|right]. split_and!; [lia|by rewrite Nat.sub_diag|done].
      * right. split_and!; [lia| |done]. by replace (j - i)%nat with (S (j - S i)) by lia.
    + intros q [Hq|Hq]%elem_of_cons Hw; [|by apply I2].
      destruct Hb as [[-> Hb]|(r & -> & _ & -> & _)].
      * destruct (Hb q (eq_sym Hq) Hw) as (k & b & -> & ?). etrans; [by apply (I3 k b)|done].
      * injection Hq as <-. by apply (I3 i).
    + intros k q ->. destruct Hb as [[-> _]|(r & _ & _ & -> & Hb)]; [by apply (I3 k)|].
      etrans; [by apply (I3 i r)|by apply (Hb k)].
  - destruct IH as [-> I2]. destruct Hb as [[<- Hb]|(r & _ & _ & ? & _)]; [|done]. split; [done|].
    intros q [Hq|Hq]%elem_of_cons; [|by apply I2]. apply not_true_iff_false. intros Hw.
    by destruct (Hb q (eq_sym Hq) Hw) as (k & b & ? & _).
Qed.

Lemma picked l :
  match pick 0 l None with
  | Some (i, p) => l !! i = Some (Some p) /\ w p = true /\ forall q, q ∈ flatten l -> w q = true -> le p q
  | None => forall q, q ∈ flatten l -> w q = false
  end.
Proof using All.
  pose proof (pick_spec l 0 None) as H. destruct (pick 0 l None) as [[i p]|].
  - destruct H as ([?|(_ & H1 & H2)] & H3 & _); [done|]. rewrite Nat.sub_0_r in H1.
    split_and!; [done|done|]. intros q Hq%elem_of_flatten. by apply H3.
  - destruct H as [_ H]. intros q Hq%elem_of_flatten. by apply H.
Qed.
End pick.

Definition older (p q : CachedPicture) : Prop := cp_frame p <= cp_frame q.
#[export] Instance older_preorder : PreOrder older.
Proof. split; unfold older; [intros p|intros p q r]; lia. Qed.

Lemma oldest_pick w l : forall i best, oldest w i l best = pick w (fun p q => cp_frame p <? cp_frame q) i l best.
Proof. induction l as [|s l IH]; intros i best; cbn [oldest pick]; [done|]. apply IH. Qed.

Lemma oldest_spec w l :
  match oldest w 0 l None with
  | Some (i, p) => l !! i = Some (Some p) /\ w p = true /\ forall q, q ∈ flatten l -> w q = true -> cp_frame p <= cp_frame q
  | None => forall q, q ∈ flatten l -> w q = false
  end.
Proof.
  rewrite oldest_pick. apply (picked w _ older). intros p q. unfold older. destruct (Z.ltb_spec (cp_frame p) (cp_frame q)); lia.
Qed.

(** The next fragment of the picture's repair job was issued as an original and its
    record fits [budget]. *)
Definition eligible (budget : Z) (p : CachedPicture) : bool :=
  match cp_repair p with
  | Some job => (j_fragment job <? next_original p)
                && match repair_packet_bytes p (j_fragment job) with Ok n => n <=? budget | Err _ => false end
  | None => false
  end.
Definition sooner (p q : CachedPicture) : Prop :=
  send_by p < send_by q \/ send_by p = send_by q /\ cp_frame p <= cp_frame q.

Lemma job_bytes l p j : limits_ok l -> picture_ok l p -> cp_repair p = Some j ->
  exists f, picture_fragment p (j_fragment j) = Ok f /\ fragment_typed f /\ validate_fragment f l = Ok tt
    /\ f = mk_fragment (cp_descriptor p) (j_fragment j) (piece (cp_descriptor p) (contents (cp_bytes p)) (j_fragment j))
    /\ repair_packet_bytes p (j_fragment j) = Ok (Z.of_nat (24 + length (fragment_body f))).
Proof.
  intros Hl Hp Hj. destruct (pk_job _ _ Hp j Hj) as [Ho He _ (r & Hr & Hf)].
  rewrite <- (take_drop_middle _ _ _ Hr) in Ho, He. apply ordered_app in Ho as [Ho1 (H1 & H2 & H3)].
  pose proof (ordered_end _ _ Ho1). pose proof (ordered_end _ _ H3). rewrite end_of_app, end_of_cons in He.
  destruct (fragment_ok l p (j_fragment j) Hl Hp) as (f & F1 & F2 & F3 & F4 & F5 & F6 & F7); [lia|].
  exists f. split_and!; try done. destruct f; cbn in *; congruence.
Qed.

#[export] Instance sooner_preorder : PreOrder sooner.
Proof. split; unfold sooner; [intros p|intros p q r]; lia. Qed.

Definition sooner_than (p q : CachedPicture) : bool :=
  (send_by p <? send_by q) || ((send_by p =? send_by q) && (cp_frame p <? cp_frame q)).

Lemma select_repair_pick lim budget l : limits_ok lim -> Forall (picture_ok lim) (flatten l) -> forall i best,
  select_repair budget i l best = Ok (pick (eligible budget) sooner_than i l best).
Proof.
  intros Hlim. induction l as [|[p|] l IH]; intros Hok i best; cbn [select_repair pick]; [done| |by apply IH].
  inversion_clear Hok as [|? ? Hp Hok']. assert (eligible budget p = eligible budget p) as He by done.
  unfold eligible at 2 in He. rewrite He. clear He. destruct (cp_repair p) as [job|] eqn:Ej; [|by apply IH].
  destruct (job_bytes lim p job Hlim Hp Ej) as (f & _ & _ & _ & _ & Hn).
  destruct (Z.leb_spec (next_original p) (j_fragment job)) as [Hge|Hlt].
  { destruct (Z.ltb_spec (j_fragment job) (next_original p)); [lia|]. by apply IH. }
  rewrite Hn. cbn [mbind Result_bind]. destruct (Z.ltb_spec (j_fragment job) (next_original p)); [|lia].
  rewrite <- Z.leb_antisym. by apply IH.
Qed.

Lemma select_repair_spec lim budget l : limits_ok lim -> Forall (picture_ok lim) (flatten l) ->
  exists o, select_repair budget 0 l None = Ok o /\
  match o with
  | Some (i, p) => l !! i = Some (Some p) /\ eligible budget p = true
                   /\ forall q, q ∈ flatten l -> eligible budget q = true -> sooner p q
  | None => forall q, q ∈ flatten l -> eligible budget q = false
  end.
Proof.
  intros Hlim Hok. eexists. split; [by apply (select_repair_pick lim)|].
  apply (picked (eligible budget) _ sooner). intros p q. unfold sooner_than, sooner.
  destruct (_ || _) eqn:E; rewrite ?orb_true_iff, ?orb_false_iff, ?andb_true_iff, ?andb_false_iff in E; lia.
Qed.

(** ** The next record of a picture *)

Definition chunk_at (l : MediaLimits) (p : CachedPicture) : RecoveryChunk :=
  let start := next_original p in
  let n := Z.min (record_bytes l - RECOVERY_OVERHEAD) (Z.of_nat (length (contents (cp_bytes p))) - start) in
  mk_chunk (cp_frame p) (total_bytes (cp_descriptor p)) start (capture_micros (cp_descriptor p))
    (slice (Z.to_nat start) (Z.to_nat (start + n)) (contents (cp_bytes p))).
Definition fragment_at (p : CachedPicture) (i : Z) : Fragment :=
  mk_fragment (cp_descriptor p) i (piece (cp_descriptor p) (contents (cp_bytes p)) i).

(** An announcement, then the fragments by index or the chunks by offset. *)
Definition record_of (l : MediaLimits) (b : MediaBindings) (p : CachedPicture) : Channel * bytes :=
  if announced p then
    match mode p with
    | Datagrams =>
        (Video, frame_of WireRecord.Fragment (for_channel b Video) (fragment_body (fragment_at p (next_original p))) [])
    | RecoveryMode =>
        (RecoveryChannel, frame_of Recovery (for_channel b RecoveryChannel) (chunk_body (chunk_at l p)) [])
    end
  else (MediaConfig, frame_of WireRecord.Progress (for_channel b MediaConfig) (progress_body (cp_progress p)) []).
Definition advanced (l : MediaLimits) (p : CachedPicture) : CachedPicture :=
  if announced p then
    p <| next_original := next_original p + match mode p with
                                            | Datagrams => 1
                                            | RecoveryMode => Z.of_nat (length (c_bytes (chunk_at l p)))
                                            end |>
  else p <| announced := true |>.

Lemma valid_total d l : validate d l = Ok tt -> total_bytes d <= Limits.max_encoded_access_unit_bytes (protocol l).
Proof.
  unfold validate. destruct ((total_bytes d =? 0) || _); [done|]. destruct (_ || _) eqn:E; [done|]. intros _. guards. lia.
Qed.

Lemma chunk_at_ok l p : limits_ok l -> picture_ok l p -> mode p = RecoveryMode -> original_complete p = false ->
  chunk_typed (chunk_at l p) /\ chunk_valid l (chunk_at l p) /\ fits_record chunk_body (record_bytes l) (chunk_at l p)
  /\ c_bytes (chunk_at l p) = slice (Z.to_nat (next_original p)) (Z.to_nat (next_original p) + length (c_bytes (chunk_at l p))) (contents (cp_bytes p))
  /\ 0 < Z.of_nat (length (c_bytes (chunk_at l p)))
  /\ Z.of_nat (length (c_bytes (chunk_at l p)))
     = Z.min (record_bytes l - RECOVERY_OVERHEAD) (Z.of_nat (length (contents (cp_bytes p))) - next_original p).
Proof.
  intros Hl Hp Hm Hc. pose proof (originals_eq l p Hp) as Ho. rewrite Hm in Ho. unfold original_complete in Hc.
  apply Z.leb_gt in Hc. rewrite Ho in Hc. destruct Hp as [[Ht Hpt] Hv Hb Hlen Hn _ _ _ _ _]. fold (cp_descriptor p) in Ht.
  pose proof (limits_sizes l Hl) as [Hr _]. pose proof Ht as (T1 & T2 & T3 & T4 & T5).
  set (n := Z.min (record_bytes l - RECOVERY_OVERHEAD) (Z.of_nat (length (contents (cp_bytes p))) - next_original p)).
  assert (0 < n <= Z.of_nat (length (contents (cp_bytes p))) - next_original p) as Hn' by (subst n; unfold RECOVERY_OVERHEAD; lia).
  assert (Z.of_nat (length (c_bytes (chunk_at l p))) = n) as Hcl.
  { unfold chunk_at. cbn [c_bytes]. fold n. unfold slice. rewrite length_take, length_drop. lia. }
  assert (chunk_typed (chunk_at l p)) as Hct.
  { unfold chunk_typed. split_and!; try done; [split; cbn; destruct T2; lia|].
    unfold chunk_at. cbn [c_bytes]. unfold slice. by apply Forall_take, Forall_drop. }
  assert (chunk_valid l (chunk_at l p)) as Hcv.
  { unfold chunk_valid, validate_chunk. cbn [c_total_bytes c_offset chunk_at].
    assert (c_bytes (chunk_at l p) <> []) as Hne by (intros E; rewrite E in Hcl; cbn in Hcl; lia).
    rewrite bool_decide_false, orb_false_r by exact Hne. destruct (Z.eqb_spec (total_bytes (cp_descriptor p)) 0); [lia|].
    pose proof (valid_total _ _ Hv). destruct (Z.ltb_spec (Limits.max_encoded_access_unit_bytes (protocol l)) (total_bytes (cp_descriptor p))); [lia|].
    unfold u32_try_from, ok_or, checked_add, mbind, Result_bind. change (mk_chunk _ _ _ _ _) with (chunk_at l p). rewrite Hcl. destruct T2 as [_ T2].
    destruct (Z.leb_spec n u32_max); [|lia]. destruct (Z.leb_spec (next_original p + n) u32_max); [|lia].
    destruct (Z.ltb_spec (total_bytes (cp_descriptor p)) (next_original p + n)); [lia|done]. }
  split_and!; try done; [| |lia].
  - unfold fits_record. destruct (chunk_data _ l Hl Hct Hcv) as (_ & _ & E). unfold RECOVERY_OVERHEAD in n. lia.
  - unfold chunk_at at 1. cbn [c_bytes]. fold n. f_equal. lia.
Qed.

(** The same picture with its cursors moved. *)
Record same_payload (p p' : CachedPicture) : Prop := {
  sp_progress : cp_progress p' = cp_progress p;
  sp_bytes : cp_bytes p' = cp_bytes p;
  sp_mode : mode p' = mode p;
  sp_charged : cp_charged p' = cp_charged p;
  sp_send_by : send_by p' = send_by p
}.

(** The bytes or fragments of a picture still to be sent, and its announcement. *)
Definition effort (p : CachedPicture) : Z := (if announced p then 0 else 1) + (originals p - next_original p).

Lemma advanced_ok l p : limits_ok l -> picture_ok l p -> unsent p = true ->
  picture_ok l (advanced l p) /\ same_payload p (advanced l p) /\ effort (advanced l p) < effort p
  /\ announced (advanced l p) = true.
Proof.
  intros Hl Hp Hu. pose proof Hp as [Hpt Hv Hby Hlen Hn Ha Hm Hj Hc Hro]. pose proof (originals_pos l p Hp) as Hpos.
  unfold advanced, unsent in *. destruct (announced p) eqn:Ea; cbn [negb orb] in Hu.
  2:{ split_and!; try done.
      change (effort (p <| announced := true |>)) with (0 + (originals p - next_original p)). unfold effort. rewrite Ea. lia. }
  apply negb_true_iff in Hu. set (n := match mode p with Datagrams => 1 | RecoveryMode => _ end).
  assert (0 < n <= originals p - next_original p) as Hstep.
  { subst n. pose proof (originals_eq l p Hp) as Ho. destruct (mode p) eqn:Em.
    - destruct (chunk_at_ok l p Hl Hp Em Hu) as (_ & _ & _ & _ & K0 & Kn). lia.
    - unfold original_complete in Hu. lia. }
  clearbody n. split_and!; try done.
  - split; try done.
    + change (0 <= next_original p + n <= originals p). lia.
    + intros E. cbn in E. congruence.
  - change (effort (p <| next_original := next_original p + n |>))
      with ((if announced p then 0 else 1) + (originals p - (next_original p + n))). unfold effort. rewrite Ea. lia.
Qed.

Section steps.
Context (Q : Z -> bytes -> Prop).
Abbreviation inv := (inv Q).
Abbreviation carries := (carries Q).

Lemma codecs c ch : inv c -> fits u32_max (for_channel (bindings c) ch) /\ for_channel (bindings c) ch <> 0.
Proof. intros Hi. apply (iv_bindings _ _ Hi). Qed.

Lemma original_packet_spec c p out : inv c -> picture_ok (limits c) p -> Q (cp_frame p) (contents (cp_bytes p)) ->
  unsent p = true -> record_bytes (limits c) <= Z.of_nat (length out) <= usize_max ->
  let rec := record_of (limits c) (bindings c) p in
  exists out', original_packet c p out = Ok (fst rec, Z.of_nat (length (snd rec)), out', advanced (limits c) p)
    /\ length out' = length out /\ take (length (snd rec)) out' = snd rec
    /\ carries (limits c) (bindings c) (fst rec) (snd rec) /\ 0 < Z.of_nat (length (snd rec)) <= record_bytes (limits c).
Proof.
  intros Hi Hp HQ Hu Hout. cbv zeta. pose proof (iv_limits _ _ Hi) as Hl. unfold record_of, advanced, original_packet, unsent in *.
  assert (forall k b body, length (frame_of k b body []) = 24 + length body)%nat as Hfl by (intros; rewrite frame_length; cbn; lia).
  pose proof Hp as [Hpt Hv Hby Hlen Hn _ _ _ _ _].
  destruct (announced p) eqn:Ea; cbn [negb orb] in Hu; [apply negb_true_iff in Hu; destruct (mode p) eqn:Em|]; cbn [fst snd].
  - destruct (chunk_at_ok (limits c) p Hl Hp Em Hu) as (Kt & Kv & Kf & Ks & K0 & Kn).
    destruct (codecs c RecoveryChannel Hi) as [B1 B2].
    destruct (written_frame _ _ _ _ _ _ _ _ _ (chunk_at (limits c) p) out (recovery_codec (limits c) _ Hl B1 B2) Kt Kv Kf Hout)
      as (out' & Hw & Ho & Htk). exists out'. unfold fits_record in Kf. rewrite Hfl. split_and!; try done; try lia.
    + change (mk_chunk _ _ _ _ _) with (chunk_at (limits c) p). rewrite Hw. cbn [wire map_err mbind Result_bind].
      rewrite <- Kn. unfold u32_try_from. destruct (Z.leb_spec (Z.of_nat (length (c_bytes (chunk_at (limits c) p)))) u32_max); [done|].
      pose proof (limits_sizes _ Hl). unfold u32_max, RECOVERY_OVERHEAD in *. lia.
    + by apply (carries_chunk _ _ _ _ (contents (cp_bytes p))).
  - assert (0 <= next_original p < count_of (cp_descriptor p)) as Hni.
    { unfold original_complete in Hu. rewrite (originals_eq _ _ Hp), Em in Hu. apply Z.leb_gt in Hu. lia. }
    destruct (fragment_ok (limits c) p _ Hl Hp Hni) as (f & Hf & Ft & Fv & Fd & Fi & Fb & _).
    assert (fragment_at p (next_original p) = f) as Hat by (destruct f; cbn in *; unfold fragment_at; congruence).
    rewrite Hat, Hf. cbn [mbind Result_bind]. destruct (codecs c Video Hi) as [B1 B2].
    destruct (fragment_facts f _ Hl Ft Fv) as (_ & _ & _ & _ & Ff).
    destruct (written_frame _ _ _ _ _ _ _ _ _ f out (fragment_codec (limits c) _ Hl B1 B2) Ft Fv Ff Hout) as (out' & Hw & Ho & Htk).
    exists out'. rewrite Hfl. split_and!; try done; try lia; [by rewrite Hw|].
    apply (carries_fragment _ _ _ _ (contents (cp_bytes p))); try done; rewrite ?Fd, ?Fi; done.
  - destruct (codecs c MediaConfig Hi) as [B1 B2]. pose proof (progress_fits (limits c) (cp_progress p) Hl) as Pf.
    destruct (written_frame _ _ _ _ _ _ _ _ _ (cp_progress p) out (progress_codec (limits c) _ Hl B1 B2) Hpt Hv Pf Hout)
      as (out' & Hw & Ho & Htk). exists out'. rewrite Hfl. unfold fits_record in Pf. split_and!; try done; try lia; [by rewrite Hw|].
    apply carries_progress. split_and!; try done. by exists (contents (cp_bytes p)).
Qed.

(** Move the cursors of the picture in slot [i]. *)
Lemma update_inv c i p p' : inv c -> cached c !! i = Some (Some p) -> picture_ok (limits c) p' -> same_payload p p' ->
  inv (c <| cached := <[i := Some p']> (cached c) |>).
Proof.
  intros [V1 V2 V3 V4 V5 V6 V7 V8 V9 V10 V11 V12 V13 V14 V15 V16] Hi Hp' [S1 S2 S3 S4 S5].
  assert (cp_frame p' = cp_frame p) as Hf by (unfold cp_frame, cp_descriptor; by rewrite S1).
  destruct (flatten_update _ i p p' Hi Hf S4) as (U1 & U2 & U3 & U4).
  assert (p ∈ stored c) as Hin by (apply elem_of_flatten; by eapply list_elem_of_lookup_2).
  rewrite Forall_forall in V5, V6, V8.
  split; try done; cbn [cached upd setter c_used_bytes c_used_pictures last_inserted].
  - by rewrite length_insert.
  - apply Forall_forall. intros q [->|Hq]%U4; [done|by apply V5].
  - apply Forall_forall. intros q [->|Hq]%U4; [rewrite Hf, S2; by apply V6|by apply V6].
  - by rewrite U1.
  - apply Forall_forall. intros q [->|Hq]%U4; [rewrite Hf; by apply V8|by apply V8].
  - by rewrite U2.
  - by rewrite U3.
  - intros Hs. destruct (V11 Hs) as [E _]. rewrite E in Hin. by apply not_elem_of_nil in Hin.
Qed.

Lemma stored_at c i p : inv c -> cached c !! i = Some (Some p) ->
  p ∈ stored c /\ picture_ok (limits c) p /\ Q (cp_frame p) (contents (cp_bytes p)).
Proof.
  intros Hi Hp. assert (p ∈ stored c) as Hin by (apply elem_of_flatten; by eapply list_elem_of_lookup_2).
  split_and!; [done|by apply (proj1 (Forall_forall _ _) (iv_pictures _ _ Hi))|].
  by apply (proj1 (Forall_forall _ _) (iv_content _ _ Hi) p).
Qed.

(** ** Packets *)

(** The packet of picture [p] in slot [i], and the cache after it. *)
Record original_sent (c : SendCache) (out : bytes) (pk : packet) (c' : SendCache) (i : nat) (p : CachedPicture) : Prop := {
  og_slot : cached c !! i = Some (Some p);
  og_unsent : unsent p = true;
  og_oldest q : q ∈ stored c -> unsent q = true -> cp_frame p <= cp_frame q;
  og_offer : fst pk = mk_packet (fst (record_of (limits c) (bindings c) p)) (Z.of_nat (length (snd (record_of (limits c) (bindings c) p))))
                        (cp_frame p) (send_by p) (mk_origin (owner c) (epoch c)) Original;
  og_record : take (Z.to_nat (byte_len (fst pk))) (snd pk) = snd (record_of (limits c) (bindings c) p);
  og_state : c' = c <| cached := <[i := Some (advanced (limits c) p)]> (cached c) |>
}.

(** The packet of the pending observation [o]. *)
Record observation_sent (c : SendCache) (pk : packet) (c' : SendCache) (o : PendingObservation) : Prop := {
  os_pending : pending_observation c = Some o;
  os_idle q : q ∈ stored c -> unsent q = false;
  os_record : take (Z.to_nat (byte_len (fst pk))) (snd pk)
              = frame_of WireRecord.Progress (for_channel (bindings c) MediaConfig) (progress_body (ob_progress o)) [];
  os_offer : po_channel (fst pk) = MediaConfig /\ send_by_micros (fst pk) = ob_send_by o /\ purpose (fst pk) = ObservationPurpose;
  os_state : c' = c <| pending_observation := None |>
}.

Lemma forget_observation c : inv c -> inv (c <| pending_observation := None |>).
Proof.
  intros Hi. pose proof (iv_stopped _ _ Hi) as Hst. destruct Hi. split; try done. intros Hs. split; [by apply Hst|done].
Qed.

Lemma next_observation_spec c out : inv c -> (forall q, q ∈ stored c -> unsent q = false) ->
  record_bytes (limits c) <= Z.of_nat (length out) <= usize_max ->
  wp (next_observation out) c (fun r c' => inv c' /\ match r with
    | Ok (Some pk) => sends Q c pk /\ exists o, observation_sent c pk c' o
    | Ok None => c' = c /\ pending_observation c = None
    | Err _ => False
    end).
Proof.
  intros Hi Hidle Hout. unfold wp, next_observation. destruct (pending_observation c) as [o|] eqn:Eo; [|done].
  destruct (iv_observation _ _ Hi o Eo) as (Pt & Pv & Pq). pose proof (iv_limits _ _ Hi) as Hl.
  destruct (codecs c MediaConfig Hi) as [B1 B2]. pose proof (progress_fits (limits c) (ob_progress o) Hl) as Pf.
  destruct (written_frame _ _ _ _ _ _ _ _ _ (ob_progress o) out (progress_codec (limits c) _ Hl B1 B2) Pt Pv Pf Hout)
    as (out' & Hw & Ho & Htk). rewrite Hw. cbn [fst snd offered]. split; [by apply forget_observation|].
  unfold fits_record in Pf. split.
  - unfold sends. cbn [po_channel byte_len origin o_owner o_epoch offered]. rewrite Nat2Z.id, Htk. split_and!; try done; try lia.
    by apply carries_progress.
  - exists o. split; try done. cbn [fst snd byte_len offered]. by rewrite Nat2Z.id.
Qed.

Lemma next_packet_spec c now out : inv c -> 0 <= now -> record_bytes (limits c) <= Z.of_nat (length out) <= usize_max ->
  wp (next_packet now out) c (fun r c' => inv c' /\ match r with
    | Ok o => exists c1, ticked Q now c c1 /\ match o with
        | Some pk => sends Q c1 pk /\ ((exists i p, original_sent c1 out pk c' i p) \/ exists o, observation_sent c1 pk c' o)
        | None => c' = c1 /\ originals_pending c1 = false
        end
    | Err _ => halted Q c c'
    end).
Proof.
  intros Hi Hnow Hout. unfold next_packet. apply wp_bind. eapply wp_mono; [by apply (sender_tick_spec Q)|]. cbv beta.
  intros [[]|e] c1; [|intros Hh; split; [apply Hh|done]]. intros Ht. pose proof (tk_inv _ _ _ _ Ht) as H1.
  assert (limits c1 = limits c) as Hlim by (rewrite (tk_state _ _ _ _ Ht); apply swept_steady).
  rewrite <- Hlim in Hout. unfold wp, method.
  pose proof (oldest_spec unsent (cached c1)) as Hold. destruct (oldest unsent 0 (cached c1) None) as [[i p]|].
  - destruct Hold as (Hslot & Hu & Hold). destruct (stored_at c1 i p H1 Hslot) as (Hin & Hp & HQ).
    destruct (original_packet_spec c1 p out H1 Hp HQ Hu Hout) as (out' & -> & Hlen & Htk & Hca & Hsz). cbn [fst snd offered].
    destruct (advanced_ok (limits c1) p (iv_limits _ _ H1) Hp Hu) as (Hp' & Hs' & _).
    split; [by eapply update_inv|]. exists c1. split; [done|]. split.
    + unfold sends. cbn [po_channel byte_len origin o_owner o_epoch offered]. by rewrite Nat2Z.id, Htk.
    + left. exists i, p. split; try done. cbn [fst snd byte_len offered]. by rewrite Nat2Z.id.
  - rename Hold into Hidle. pose proof (next_observation_spec c1 out H1 Hidle Hout) as Hno. unfold wp in Hno.
    destruct (next_observation out c1) as [[[pk|]|e] c']; cbn [fst snd] in *; destruct Hno as [H' Hno]; (split; [done|]).
    + destruct Hno as [Hs Ho]. exists c1. split; [done|]. split; [done|]. by right.
    + destruct Hno as [-> Hp]. exists c1. split_and!; try done. unfold originals_pending. rewrite Hp. cbn [is_some orb].
      apply not_true_iff_false. intros (q & Hq%list_elem_of_In & Hw)%existsb_exists. specialize (Hidle q Hq). unfold unsent in Hidle. congruence.
    + done.
Qed.

End steps.
End SenderSteps.

(** * The sending cache: repairs, insertion and recovery

    The methods that accept repair requests, resend, insert pictures, fail and
    replace a generation: each keeps the invariant. *)

Module SenderMethods.
Import Media MediaProps Delivery RepairProps Sender SenderInv SenderRepair SenderPackets SenderSteps.
Import ReceiverInv(bindings_ok, flatten_insert, flatten_at, cons_option, flatten_app).

Section methods.
Context (Q : Z -> bytes -> Prop).
Abbreviation inv := (inv Q).
Abbreviation ticked := (ticked Q).
Abbreviation halted := (halted Q).

(** The bytes still allowed for repairs in this window. *)
Definition allowance (c : SendCache) : Z := repair_bytes_per_window (policy c) - repair_spent c.

(** ** Resending *)

(** The repair packet of picture [p] in slot [i] with job [j], and the cache after it. *)
Record repair_sent (c : SendCache) (pk : packet) (c' : SendCache) (i : nat) (p : CachedPicture) (j : RepairJob) : Prop := {
  rs_slot : cached c !! i = Some (Some p);
  rs_job : cp_repair p = Some j;
  rs_issued : j_fragment j < next_original p;
  rs_soonest q : q ∈ stored c -> eligible (allowance c) q = true -> sooner p q;
  rs_offer : fst pk = mk_packet Video (byte_len (fst pk)) (cp_frame p) (send_by p) (mk_origin (owner c) (epoch c)) RepairPurpose;
  rs_fits : 0 < byte_len (fst pk) <= allowance c;
  rs_record : take (Z.to_nat (byte_len (fst pk))) (snd pk)
              = frame_of WireRecord.Fragment (for_channel (bindings c) Video) (fragment_body (fragment_at p (j_fragment j))) [];
  rs_state : c' = c <| repair_spent := repair_spent c + byte_len (fst pk) |>
                    <| cached := <[i := Some (p <| cp_repair := advance_job j |>)]> (cached c) |>
}.

Lemma spend_inv c s : inv c -> 0 <= s <= repair_bytes_per_window (policy c) -> inv (c <| repair_spent := s |>).
Proof. intros [] Hs. by split. Qed.

Lemma job_taken l p j : picture_ok l p -> cp_repair p = Some j -> announced p = true /\ mode p = Datagrams.
Proof.
  intros [_ _ _ _ _ Ha Hm _ _ _] Hj. split.
  - destruct (announced p); [done|]. destruct (Ha eq_refl). congruence.
  - destruct (mode p); [|done]. specialize (Hm eq_refl). congruence.
Qed.

(** Another job for a picture that may have one. *)
Lemma with_job l p o rounds next : picture_ok l p -> announced p = true -> mode p = Datagrams -> 0 <= rounds <= 8 ->
  (forall j, o = Some j -> job_ok (repair_ranges l) (count_of (cp_descriptor p)) j) ->
  picture_ok l (p <| cp_next_repair := next |> <| repair_rounds := rounds |> <| cp_repair := o |>).
Proof. intros [] Ha Hm Hr Hj. split; try done; cbn; congruence. Qed.

Lemma advanced_job l p j : picture_ok l p -> cp_repair p = Some j ->
  picture_ok l (p <| cp_repair := advance_job j |>) /\ same_payload p (p <| cp_repair := advance_job j |>).
Proof.
  intros Hp Hj. destruct (job_taken l p j Hp Hj) as [Ha Hm]. split; [|done].
  apply (with_job l p (advance_job j) (repair_rounds p) (cp_next_repair p)); try done; [apply Hp|]. intros j' Hj'.
  pose proof (advance_spec _ _ j (pk_job _ _ Hp j Hj)) as Has. rewrite Hj' in Has. apply Has.
Qed.

Lemma next_repair_spec c now out : inv c -> 0 <= now -> record_bytes (limits c) <= Z.of_nat (length out) <= usize_max ->
  wp (next_repair_packet now out) c (fun r c' => inv c' /\ match r with
    | Ok o => exists c1, ticked now c c1 /\ match o with
        | Some pk => sends Q c1 pk /\ exists i p j, repair_sent c1 pk c' i p j
        | None => c' = c1 /\ forall q, q ∈ stored c1 -> eligible (allowance c1) q = false
        end
    | Err _ => halted c c'
    end).
Proof.
  intros Hi Hnow Hout. unfold next_repair_packet. apply wp_bind. eapply wp_mono; [by apply (sender_tick_spec Q)|]. cbv beta.
  intros [[]|e] c1; [|intros Hh; split; [apply Hh|done]]. intros Ht. pose proof (tk_inv _ _ _ _ Ht) as H1.
  assert (limits c1 = limits c) as Hlim by (rewrite (tk_state _ _ _ _ Ht); apply swept_steady).
  rewrite <- Hlim in Hout. pose proof (iv_limits _ _ H1) as Hl. unfold wp, method.
  destruct (select_repair_spec _ (allowance c1) (cached c1) Hl (iv_pictures _ _ H1)) as (o & Ho & Hsel).
  unfold allowance in Ho. rewrite Ho. destruct o as [[i p]|]; [|cbn; by eauto].
  destruct Hsel as (Hslot & Hel & Hsoon). destruct (stored_at Q c1 i p H1 Hslot) as (Hin & Hp & HQ).
  unfold eligible in Hel. destruct (cp_repair p) as [j|] eqn:Ej; [|done].
  destruct (job_bytes _ p j Hl Hp Ej) as (f & Hf & Ft & Fv & Ff & Hn). rewrite Hn in Hel.
  apply andb_true_iff in Hel as [Hel1%Z.ltb_lt Hel2%Z.leb_le]. rewrite Hf. cbn [mbind Result_bind].
  destruct (codecs Q c1 Video H1) as [B1 B2]. destruct (fragment_facts f _ Hl Ft Fv) as (_ & _ & _ & _ & Fs).
  destruct (written_frame _ _ _ _ _ _ _ _ _ f out (fragment_codec (limits c1) _ Hl B1 B2) Ft Fv Fs Hout) as (out' & Hw & Hlen & Htk).
  rewrite Hw. cbn [wire map_err mbind Result_bind fst snd offered].
  destruct (advanced_job _ p j Hp Ej) as [Hp' Hs'].
  split.
  - assert (inv (c1 <| repair_spent := repair_spent c1 + Z.of_nat (24 + length (fragment_body f)) |>)) as H2.
    { apply spend_inv; [done|]. pose proof (iv_spent _ _ H1). unfold allowance in Hel2. lia. }
    exact (update_inv Q _ i p _ H2 Hslot Hp' Hs').
  - exists c1. split; [done|]. split.
    + unfold sends. cbn [po_channel byte_len origin o_owner o_epoch offered]. rewrite Nat2Z.id, Htk. split_and!; try done; try lia.
      apply (carries_fragment _ _ _ _ (contents (cp_bytes p))); subst f; try done. apply Hp.
    + exists i, p, j. split; try done; cbn [fst snd byte_len offered]; try lia. rewrite Nat2Z.id, Htk. by subst f.
Qed.

(** ** Requests *)

Lemma ranges_ordered count rs : forall lo, ranges_ok lo count rs -> ordered lo rs.
Proof. induction rs as [|r rs IH]; intros lo; [done|]. cbn. intros (H1 & H2 & H3). split_and!; [lia|lia|by apply IH]. Qed.

Lemma ends_within total rs : forall lo, ordered lo rs -> lo <= total -> existsb (fun r => total <? r_end r) rs = false ->
  end_of lo rs <= total.
Proof.
  induction rs as [|r rs IH]; intros lo; [done|]. cbn [ordered existsb]. intros (H1 & H2 & H3) Hlo [H4%Z.ltb_ge H5]%orb_false_iff.
  rewrite end_of_cons. by apply IH.
Qed.

(** A request that decodes asks for ordered, nonempty ranges within the bound. *)
Lemma decoded_request l b packet request : limits_ok l -> fits u32_max b -> b <> 0 -> Forall is_byte packet ->
  (r ← wire (decode packet l b Control); wire (decode_repair r (fragments l) l)) = Ok request ->
  ranges request <> [] /\ ordered 0 (ranges request) /\ Z.of_nat (length (ranges request)) <= repair_ranges l.
Proof.
  intros Hl Hb Hnz Hby H. destruct (decode packet l b Control) as [r|e] eqn:Ed; [|done]. cbn in H.
  destruct (decode_repair r (fragments l) l) as [q|e] eqn:Er; [|done]. cbn in H. injection H as ->.
  assert (on_channel (decode_ranges (fragments l)) l b Control packet = Ok (q_frame request, ranges request)) as Hon.
  { unfold on_channel, decode_ranges. rewrite Ed. cbn [mbind Result_bind]. by rewrite Er. }
  assert (0 <= fragments l) as Hf by (destruct Hl as (_ & _ & ? & _); lia).
  destruct (codec_accepts _ _ _ _ _ _ _ _ (repair_codec l (fragments l) b Hl Hf Hb Hnz) _ _ Hby Hon) as (_ & (Hne & Hlen & _ & Hr) & _).
  cbn [snd] in *. split_and!; [done|by eapply ranges_ordered|done].
Qed.

(** A request that was accepted for picture [p] in slot [i]. *)
Record request_queued (now : Z) (c c' : SendCache) (i : nat) (p : CachedPicture) (request : RepairRequest) (job : RepairJob) : Prop := {
  qd_slot : cached c !! i = Some (Some p);
  qd_frame : cp_frame p = q_frame request;
  qd_ready : announced p = true /\ mode p = Datagrams;
  qd_request : request_ok (repair_ranges (limits c)) (count_of (cp_descriptor p)) (ranges request);
  qd_job : job_ok (repair_ranges (limits c)) (count_of (cp_descriptor p)) job;
  qd_covers k : covers (ranges request) k \/ (exists j, cp_repair p = Some j /\ covers (remaining j) k) -> covers (remaining job) k;
  qd_paced : cp_next_repair p <= now /\ repair_rounds p < max_repair_rounds (policy c);
  qd_state : c' = c <| cached := <[i := Some (p <| cp_next_repair := now + minimum_repair_interval_micros (policy c) |>
                                                 <| repair_rounds := repair_rounds p + 1 |> <| cp_repair := Some job |>)]> (cached c) |>
}.

Lemma repair_job_spec c p request : inv c -> picture_ok (limits c) p ->
  request_ok (repair_ranges (limits c)) (count_of (cp_descriptor p)) (ranges request) ->
  match repair_job c p (ranges request) with
  | Ok job => job_ok (repair_ranges (limits c)) (count_of (cp_descriptor p)) job
      /\ forall k, covers (ranges request) k \/ (exists j, cp_repair p = Some j /\ covers (remaining j) k) -> covers (remaining job) k
  | Err e => e = RepairBusy /\ exists j, cp_repair p = Some j /\ forall k, covers (ranges request) k -> covers (remaining j) k
  end.
Proof.
  intros Hi Hp Hr. pose proof (iv_limits _ _ Hi) as (_ & _ & _ & Hrr). unfold MAX_REPAIR_RANGES in Hrr. unfold repair_job.
  destruct (cp_repair p) as [j|] eqn:Ej.
  - pose proof (coalesce_spec _ _ j (ranges request) Hrr (pk_job _ _ Hp j Ej) Hr) as Hc.
    destruct (coalesce _ _ _) as [job|e].
    + destruct Hc as (H1 & H2 & _). split; [done|]. intros k [?|(j' & [= <-] & ?)]; auto.
    + destruct Hc as [-> Hc]. by eauto.
  - destruct Hr as [Rne Ro Re Rc]. destruct (ranges request) as [|r rs]; [done|].
    destruct (fresh_job _ _ r rs Ro Re Rc) as [Hj Hrem]. split; [done|]. rewrite Hrem. intros k [?|(j' & ? & _)]; done.
Qed.

Lemma queue_repair_spec c packet now : inv c -> 0 <= now -> Forall is_byte packet ->
  wp (queue_repair packet now) c (fun r c' => inv c' /\ match r with
    | Ok _ => exists c1 i p request job, ticked now c c1 /\ request_queued now c1 c' i p request job
    | Err e => c' = c \/ ticked now c c' \/ halted c c'
    end).
Proof.
  intros Hi Hnow Hby. pose proof (iv_limits _ _ Hi) as Hl. destruct (codecs Q c Control Hi) as [B1 B2].
  destruct (r ← wire (decode packet (limits c) (for_channel (bindings c) Control) Control);
            wire (decode_repair r (fragments (limits c)) (limits c))) as [request|e] eqn:Ed.
  2:{ unfold wp, queue_repair. rewrite Ed. cbn. by auto. }
  eapply wp_eq; [unfold queue_repair; rewrite Ed; reflexivity|].
  pose proof (decoded_request _ _ _ _ Hl B1 B2 Hby Ed) as (Rne & Ro & Rc). clear Ed.
  apply wp_bind. eapply wp_mono; [by apply (sender_tick_spec Q)|]. cbv beta.
  intros [[]|e] c1; [|intros Hh; split; [apply Hh|by auto]]. intros Ht. pose proof (tk_inv _ _ _ _ Ht) as H1.
  assert (limits c1 = limits c) as Hlim by (rewrite (tk_state _ _ _ _ Ht); apply swept_steady).
  rewrite <- Hlim in Rc, Hl. unfold wp, method, index_of.
  destruct (Prelude.position _ (cached c1)) as [i|] eqn:Epos; cbn [mbind option_bind]; [|cbn; by auto].
  apply position_Some in Epos as ([p|] & Hslot & Hfr & _); [|done]. cbn in Hfr. apply Z.eqb_eq in Hfr. rewrite Hslot.
  cbn [mjoin option_join fmap option_fmap option_map]. destruct (stored_at Q c1 i p H1 Hslot) as (Hin & Hp & _).
  destruct (_ || _) eqn:Eready; [cbn; by auto|]. apply orb_false_iff in Eready as [Hm%bool_decide_eq_false_1 Ha%negb_false_iff].
  destruct (_ ≫= _) as [p'|e] eqn:E; [|cbn; by auto].
  assert (mode p = Datagrams) as Hm' by (by destruct (mode p)).
  apply Result_bind_Ok in E as ([] & Hfits & E). apply Result_bind_Ok in E as (job & Hjob & E).
  assert (request_ok (repair_ranges (limits c1)) (count_of (cp_descriptor p)) (ranges request)) as Hreq.
  { unfold repair_fits in Hfits. rewrite (count_ok (cp_descriptor p) (limits c1)) in Hfits by apply Hp. cbn [wire map_err mbind Result_bind] in Hfits.
    destruct (existsb _ _) eqn:Ex; [done|]. split; try done. apply ends_within; try done.
    pose proof (stride_fits (cp_descriptor p) (limits c1)) as Hsf. destruct Hsf; [apply Hp..|lia]. }
  pose proof (repair_job_spec c1 p request H1 Hp Hreq) as Hj. rewrite Hjob in Hj. destruct Hj as [Hj1 Hj2].
  destruct (_ || _) eqn:Epace in E; [by destruct (cp_repair p)|]. apply orb_false_iff in Epace as [Hp1%Z.ltb_ge Hp2%Z.leb_gt].
  apply Result_bind_Ok in E as (next & Hnext & [= <-]). unfold delivery, deadline, checked_add, ok_or, map_err in Hnext.
  destruct (_ <=? _) in Hnext; [|done]. injection Hnext as <-. cbn [fst snd]. split.
  - apply (update_inv Q c1 i p); try done. apply with_job; try done; [|by intros j [= <-]].
    change (0 <= repair_rounds p + 1 <= 8). pose proof (sender_policy_bounds _ _ (iv_policy _ _ H1)). pose proof (pk_rounds _ _ Hp). lia.
  - exists c1, i, p, request, job. split; [done|]. by split.
Qed.

(** ** Insertion *)

Ltac refusal E := apply wp_refuse; cbv beta; match goal with |- if ?b then _ else _ => destruct b eqn:E end.

Lemma charges_perm l l' : l ≡ₚ l' -> charges l = charges l'.
Proof. induction 1; cbn; lia. Qed.

Section insertion.
Context `{SendLayout}.

(** The picture as it enters the cache. *)
Definition entered (p : Progress) (b : PictureBytes) (m : DeliveryMode) (c : SendCache) (now : Z) : CachedPicture :=
  mk_cached p b m (charge b + picture_struct_bytes) (capture_micros (p_descriptor p) + lifetime (policy c) m) false 0 0 now None.

(** What a caller owes: values of their types, and a picture of [Q]. *)
Record pushable (p : Progress) (b : PictureBytes) : Prop := {
  pb_typed : progress_typed p;
  pb_bytes : Forall is_byte (contents b);
  pb_charge : Z.of_nat (length (contents b)) <= charge b;
  pb_content : Q (frame (p_descriptor p)) (contents b)
}.

Record picture_pushed (now : Z) (p : Progress) (b : PictureBytes) (m : DeliveryMode) (c c' : SendCache) (i : nat) : Prop := {
  pp_slot : cached c !! i = Some None;
  pp_valid : validate (p_descriptor p) (limits c) = Ok tt /\ total_bytes (p_descriptor p) = Z.of_nat (length (contents b));
  pp_newer : is_none_or (fun last => last <? frame (p_descriptor p)) (last_inserted c) = true;
  pp_reference : reference (p_descriptor p) = None \/ reference (p_descriptor p) = last_inserted c;
  pp_mode : m = RecoveryMode <-> last_inserted c = None;
  pp_fresh : capture_micros (p_descriptor p) <= now < send_by (entered p b m c now);
  pp_after : cached c' = <[i := Some (entered p b m c now)]> (cached c) /\ last_inserted c' = Some (frame (p_descriptor p))
             /\ last_progress c' = Some p /\ pending_observation c' = None;
  pp_steady : steady c c' /\ last_now c' = last_now c /\ recoveries c' = recoveries c
              /\ recovery_charged_epoch c' = recovery_charged_epoch c
              /\ repair_spent c' = repair_spent c /\ repair_window_start c' = repair_window_start c
}.

Lemma insert_inv c i p until : inv c -> stopped c = false -> cached c !! i = Some None ->
  picture_ok (limits c) p -> Q (cp_frame p) (contents (cp_bytes p)) ->
  is_some_and (fun last => cp_frame p <=? last) (last_inserted c) = false ->
  c_used_bytes c + cp_charged p <= max_cached_bytes (policy c) -> c_used_pictures c < max_cached_pictures (policy c) ->
  until = cp_progress p ->
  inv (mk_cache (owner c) (limits c) (bindings c) (epoch c) (policy c) (<[i := Some p]> (cached c))
        (c_used_bytes c + cp_charged p) (c_used_pictures c + 1) (Some (cp_frame p)) (Some until) None (last_now c)
        (repair_window_start c) (repair_spent c) (closed c) (needs_recovery c) (first_failure_deadline c)
        (recovery_request c) (recoveries c) (recovery_charged_epoch c)).
Proof.
  intros [V1 V2 V3 V4 V5 V6 V7 V8 V9 V10 V11 V12 V13 V14 V15 V16] Hs Hslot Hp HQ Hlast Hb Hn ->.
  assert (flatten (<[i := Some p]> (cached c)) ≡ₚ p :: stored c) as Hperm.
  { rewrite flatten_insert by (by eapply lookup_lt_Some). rewrite (flatten_at _ _ _ Hslot). cbn. symmetry. apply Permutation_middle. }
  assert (forall q, q ∈ stored c -> cp_frame q < cp_frame p) as Hnew.
  { intros q Hq. pose proof (proj1 (Forall_forall _ _) V8 q Hq) as Hq'. cbn in Hq'. destruct (last_inserted c); cbn in *; [lia|done]. }
  split; cbn [limits bindings policy cached last_inserted c_used_bytes c_used_pictures last_progress pending_observation]; try done.
  - by rewrite length_insert.
  - rewrite Hperm. by constructor.
  - rewrite Hperm. by constructor.
  - rewrite Hperm. cbn. apply NoDup_cons. split; [|done]. intros (q & Hq1 & Hq2)%list_elem_of_fmap. specialize (Hnew q Hq2). lia.
  - rewrite Hperm. cbn. constructor; [lia|]. apply Forall_forall. intros q Hq. specialize (Hnew q Hq). lia.
  - rewrite (charges_perm _ _ Hperm). cbn. lia.
  - rewrite (Permutation_length Hperm). cbn [length]. lia.
  - intros Hst. unfold stopped in *. cbn in Hst. congruence.
  - intros q [= <-]. destruct Hp. split_and!; try done. by exists (contents (cp_bytes p)).
Qed.

Lemma entered_ok p b m c now l : pushable p b -> validate (p_descriptor p) l = Ok tt ->
  total_bytes (p_descriptor p) = Z.of_nat (length (contents b)) -> picture_ok l (entered p b m c now).
Proof.
  intros [Pt Pb Pc _] Hv Hlen. pose proof picture_struct_bytes_nonneg.
  pose proof (descriptor_positive _ l (proj1 Pt) Hv). pose proof (stride_fits _ l (proj1 Pt) Hv) as [_ Hc].
  split; try done; [|change (total_bytes (p_descriptor p) <= charge b + picture_struct_bytes); lia]. unfold originals. cbn [next_original mode entered].
  change (cp_descriptor (entered p b m c now)) with (p_descriptor p).
  destruct m; [lia|]. rewrite (count_ok _ l (proj1 Pt) Hv). lia.
Qed.

Lemma push_picture_spec c p b m now : inv c -> 0 <= now -> pushable p b ->
  wp (push_picture p b m now) c (fun r c' => inv c' /\ match r with
    | Ok _ => exists c1 i, ticked now c c1 /\ picture_pushed now p b m c1 c' i
    | Err e => ticked now c c' \/ halted c c' \/ exists c1, ticked now c c1 /\ halted c1 c' /\ last_now c' = last_now c1
    end).
Proof.
  intros Hi Hnow [Pt Pb Pc Pq]. unfold push_picture. apply wp_bind. eapply wp_mono; [by apply (sender_tick_spec Q)|]. cbv beta.
  intros [[]|e] c1; [|intros Hh; split; [apply Hh|by auto]]. intros Ht. pose proof (tk_inv _ _ _ _ Ht) as H1.
  assert (forall e : SendError, inv c1 /\ (ticked now c c1 \/ halted c c1 \/ exists c2, ticked now c c2 /\ halted c2 c1 /\ last_now c1 = last_now c2)) as Hrefuse by auto.
  cbv zeta. apply wp_readr. destruct (validate (p_descriptor p) (limits c1)) as [[]|e] eqn:Ev; cbn [wire map_err]; [|by auto].
  refusal El; [by auto|]. apply negb_false_iff, Z.eqb_eq in El.
  refusal En; [by auto|]. refusal Er; [by auto|]. refusal Em; [by auto|].
  apply wp_lift. destruct (checked_add usize_max (charge b) picture_struct_bytes) as [charged|] eqn:Ec; cbn [ok_or]; [|by auto].
  apply wp_readr. destruct (checked_add usize_max (c_used_bytes c1) charged) as [used|] eqn:Eu; cbn [ok_or]; [|by auto].
  refusal Ef; [by auto|]. refusal Ek; [by auto|].
  apply wp_readr. destruct (deadline _ _) as [until|e] eqn:Edl; cbn [delivery map_err]; [|by auto].
  destruct (until <=? now) eqn:Eexp.
  { eapply wp_mono; [by apply (fail_reference_halts Q now c1)|]. intros r c' [[e ->] [Hh Hln]]. split; [apply Hh|]. right. right. by exists c1. }
  apply wp_readr. destruct (Prelude.position _ (cached c1)) as [i|] eqn:Epos; cbn [ok_or]; [|by auto].
  apply position_Some in Epos as (o & Hslot & Ho & _). destruct o; [done|]. clear Hrefuse.
  unfold checked_add in Ec, Eu. destruct (_ <=? usize_max) in Ec; [|done]. destruct (_ <=? usize_max) in Eu; [|done].
  injection Ec as <-. injection Eu as <-. unfold deadline, checked_add, ok_or in Edl. destruct (_ <=? u64_max) in Edl; [|done].
  injection Edl as <-. apply orb_false_iff in Ef as [Ef1%Z.ltb_ge Ef2%Z.leb_gt]. apply Z.ltb_ge in Ek. apply Z.leb_gt in Eexp.
  unfold wp, modify. cbn [fst snd]. split; [|exists c1, i; split; [done|]; split; try done].
  - assert (pushable p b) as Hpb by done.
    apply (insert_inv c1 i (entered p b m c1 now)); try done; [by eapply ticked_live|by apply entered_ok].
  - by destruct (last_inserted c1); cbn in *; [apply Z.ltb_lt; apply Z.leb_gt in En|].
  - apply andb_false_iff in Er as [Er|Er%negb_false_iff%bool_decide_eq_true_1]; [left; by destruct (reference _)|by right].
  - apply orb_false_iff in Em as [[Em1 Em2]%orb_false_iff _]. destruct (last_inserted c1), m; cbn in *; try done.
    by destruct (is_some _).
Qed.

End insertion.

(** ** Recovery *)

(** The recovery slots after a charge at [now]. *)
Definition charged_slots (now : Z) (c : SendCache) (i : nat) : list (option Z) :=
  let n := Z.to_nat (max_recoveries_per_window (policy c)) in
  <[i := Some now]> (within_window now (recovery_window_micros (policy c)) <$> take n (recoveries c)) ++ drop n (recoveries c).

(** A generation is charged at most once. *)
Inductive charge_outcome (now : Z) (c c' : SendCache) : Prop :=
| already_charged : recovery_charged_epoch c = Some (epoch c) -> recoveries c' = recoveries c ->
    recovery_charged_epoch c' = recovery_charged_epoch c -> charge_outcome now c c'
| newly_charged i : recovery_charged_epoch c <> Some (epoch c) ->
    (within_window now (recovery_window_micros (policy c))
       <$> take (Z.to_nat (max_recoveries_per_window (policy c))) (recoveries c)) !! i = Some None ->
    recoveries c' = charged_slots now c i -> recovery_charged_epoch c' = Some (epoch c) -> charge_outcome now c c'.

Lemma slots_length n (f : option Z -> option Z) (l : list (option Z)) : length ((f <$> take n l) ++ drop n l) = length l.
Proof. rewrite length_app, length_fmap, length_take, length_drop. lia. Qed.

Lemma admit_recovery_spec c now : inv c ->
  wp (admit_recovery now) c (fun r c' => inv c' /\ steady c c' /\ window_kept c c' /\ match r with
    | Ok _ => charge_outcome now c c' /\ stored c' = stored c /\ pending_observation c' = pending_observation c
              /\ closed c' = closed c /\ needs_recovery c' = needs_recovery c /\ last_now c' = last_now c
    | Err e => closed c' = true /\ recovery_charged_epoch c' = recovery_charged_epoch c /\ last_now c' = last_now c
    end).
Proof.
  intros Hi. unfold wp, admit_recovery. destruct (bool_decide _) eqn:Ech; cbn [fst snd].
  { split_and!; try done. apply already_charged; try done. by apply bool_decide_eq_true_1 in Ech. }
  apply bool_decide_eq_false_1 in Ech. cbv zeta.
  set (n := Z.to_nat (max_recoveries_per_window (policy c))).
  destruct (Prelude.position _ _) as [i|] eqn:Epos; cbn [fst snd].
  - apply position_Some in Epos as ([o|] & Hslot & Ho & _); [done|]. split; [|split; [|split]].
    + destruct Hi. split; try done. cbn [recoveries upd setter]. rewrite length_app, length_insert, <- length_app. by rewrite slots_length.
    + done.
    + done.
    + split_and!; try done. by apply (newly_charged _ _ _ i).
  - split_and!; try done. apply sender_close_inv. destruct Hi. split; try done. cbn [recoveries upd setter]. by rewrite slots_length.
Qed.

(** Charged, or no reference was lost and there was nothing to charge. *)
Definition settled (now : Z) (c c' : SendCache) : Prop :=
  charge_outcome now c c'
  \/ recoveries c' = recoveries c /\ recovery_charged_epoch c' = recovery_charged_epoch c /\ needs_recovery c = false.

(** The cache after a replacement of its generation by [e] and [b]. *)
Record replaced (now : Z) (e : MediaEpoch) (b : MediaBindings) (c c' : SendCache) : Prop := {
  rp_open : closed c = false;
  rp_newer : replaces e (epoch c) = true /\ all_newer_than b (bindings c) = true;
  rp_identity : epoch c' = e /\ bindings c' = b /\ owner c' = owner c /\ limits c' = limits c /\ policy c' = policy c;
  rp_empty : stored c' = [] /\ last_inserted c' = None /\ stopped c' = false;
  rp_clock : last_now c' = Some now /\ default 0 (last_now c) <= now;
  rp_settled : settled now c c';
  rp_window : window_kept c c'
}.

Definition renew (e : MediaEpoch) (b : MediaBindings) (c : SendCache) : SendCache :=
  let c := clear c in c <| epoch := e |> <| bindings := b |> <| last_inserted := None |> <| needs_recovery := false |>.

Lemma renew_replaced now e b c c1 : inv c1 -> steady c c1 -> closed c = false -> closed c1 = false ->
  replaces e (epoch c) = true -> all_newer_than b (bindings c) = true -> bindings_ok b ->
  last_now c1 = Some now -> default 0 (last_now c) <= now -> settled now c c1 -> window_kept c c1 -> inv (renew e b c1) /\ replaced now e b c (renew e b c1).
Proof.
  intros H1 [S1 S2 S3 S4 S5] Hc Hc1 He Hb Hbo Hn Hle Hs Hwin. split.
  - pose proof (clear_inv Q c1 H1) as H2. apply (inv_empty Q (clear c1)); try done; try (by apply H2).
    + apply clear_stored.
    + by left.
  - split; try done.
    + split_and!; [apply clear_stored|done|]. unfold stopped. cbn. by rewrite Hc1.
    + destruct Hs as [[]|?]; [left; by apply already_charged|left; by eapply newly_charged|by right].
Qed.

Lemma settled_at now c c' : charge_outcome now (at_time now c) c' -> settled now c c'.
Proof. intros []; left; [by apply already_charged|by eapply newly_charged]. Qed.

(** A refusal that changed no generation: the cache was closed, or only its clock
    moved. *)
Definition refused (now : Z) (c c' : SendCache) : Prop :=
  steady c c' /\ window_kept c c' /\ default 0 (last_now c) <= default 0 (last_now c') /\ recovery_charged_epoch c' = recovery_charged_epoch c /\ (closed c' = true \/ c' = at_time now c).

Lemma sender_replace_spec c e b now : inv c -> 0 <= now -> bindings_ok b ->
  wp (replace e b now) c (fun r c' => inv c' /\ match r with Ok _ => replaced now e b c c' | Err _ => refused now c c' end).
Proof.
  intros Hi Hnow Hb. apply (gated Q); [done|done| |].
  { intros e' c' H1 H2 H3 H4 H5 H6 H7. split; [done|]. split_and!; auto. }
  intros Ht Hclk Hcl Hdl. refusal Es; [split; [done|]; split_and!; auto; done|].
  apply orb_false_iff in Es as [Es1%negb_false_iff Es2%negb_false_iff].
  apply wp_gets. set (f := needs_recovery (at_time now c) || _). destruct f eqn:Ef.
  - apply wp_bind. eapply wp_mono; [by apply (admit_recovery_spec (at_time now c) now)|]. cbv beta.
    intros [[]|e'] c1 (H1 & H2%steady_at & Hwin & H3).
    + destruct H3 as (Hch & _ & _ & H4 & H5 & H6). unfold wp, modify. cbn [fst snd].
      apply (renew_replaced now e b c c1); try done; [by rewrite H4|]. by apply settled_at.
    + destruct H3 as (H3 & H4 & H5). split; [done|]. split_and!; auto. rewrite H5. cbn. lia.
  - apply wp_bind. unfold wp at 1, mret, M_ret. cbn [fst snd]. unfold wp, modify. cbn [fst snd].
    apply (renew_replaced now e b c (at_time now c)); try done. right. split_and!; try done.
    by apply orb_false_iff in Ef as [Ef _].
Qed.

(** What a call does to the recovery allowance. *)
Definition ledger_kept (c c' : SendCache) : Prop :=
  recovery_charged_epoch c' = recovery_charged_epoch c /\ (recoveries c' = recoveries c \/ closed c' = true).
Definition ledger_step (now : Z) (c c' : SendCache) : Prop := ledger_kept c c' \/ charge_outcome now c c'.

Lemma kept_same now c c' : recoveries c' = recoveries c -> recovery_charged_epoch c' = recovery_charged_epoch c -> ledger_step now c c'.
Proof. intros. left. split; auto. Qed.

(** A call of the recovery methods: the generation stays, the allowance is charged
    at most once, a stopped cache stays stopped. *)
Record held_back (now : Z) (c c' : SendCache) : Prop := {
  hb_inv : inv c';
  hb_steady : steady c c';
  hb_ledger : ledger_step now c c';
  hb_stopped : stopped c = true -> stopped c' = true;
  hb_closed : closed c = true -> closed c' = true /\ ledger_kept c c';
  hb_window : window_kept c c';
  hb_clock : default 0 (last_now c) <= default 0 (last_now c') /\ (ledger_kept c c' \/ last_now c' = Some now)
}.

Lemma held_close now c c' : inv c' -> closed c' = true -> steady c c' -> recoveries c' = recoveries c ->
  recovery_charged_epoch c' = recovery_charged_epoch c -> default 0 (last_now c) <= default 0 (last_now c') -> window_kept c c' -> held_back now c c'.
Proof.
  intros H1 H2 H3 H4 H5 H6 H7. assert (ledger_kept c c') as Hk by (split; auto).
  split; try done; [by left|unfold stopped; by rewrite H2|by auto].
Qed.

Lemma held_at_time now c : inv (at_time now c) -> default 0 (last_now c) <= now -> held_back now c (at_time now c).
Proof. intros Ht Hn. assert (ledger_kept c (at_time now c)) as Hk by (split; auto). split; try done; [by left|by auto]. Qed.

Lemma held_refusal now c c' : inv c' -> steady c c' -> closed c' = true ->
  recovery_charged_epoch c' = recovery_charged_epoch c -> last_now c' = Some now -> default 0 (last_now c) <= now -> window_kept c c' -> held_back now c c'.
Proof.
  intros H1 H2 H3 H4 H5 H6 H7. assert (ledger_kept c c') as Hk by (split; auto).
  split; try done; [by left|unfold stopped; by rewrite H3|]. rewrite H5. auto.
Qed.

Lemma await_spec c now : inv c -> 0 <= now ->
  wp (await_recovery_request now) c (fun r c' => held_back now c c' /\ (r = Ok tt -> needs_recovery c = true)).
Proof.
  intros Hi Hnow. apply (gated Q); [done|done| |].
  { intros e' c' H1 H2 H3 H4 H5 H6 H7. split; [by apply held_close|done]. }
  intros Ht Hclk Hcl Hdl. pose proof (held_at_time now c Ht Hclk) as Hh. refusal Es; [by split|]. apply negb_false_iff in Es.
  apply wp_gets. destruct (is_some _); [by split|].
  apply wp_readr. destruct (first_failure_deadline (at_time now c)) as [until|]; cbn [ok_or]; [|by split].
  apply wp_bind. eapply wp_mono; [by apply (admit_recovery_spec (at_time now c) now)|]. cbv beta.
  intros [[]|e] c1 (H1 & H2%steady_at & Hwin & H3).
  - destruct H3 as (Hch & Hst & Hob & H4 & H5 & H6). unfold wp, modify. cbn [fst snd]. split; [|done]. split; try done.
    + destruct H1. by split.
    + by destruct H2.
    + right. destruct Hch; [by apply already_charged|by eapply newly_charged].
    + intros _. unfold stopped. cbn. rewrite H5. change (needs_recovery (at_time now c)) with (needs_recovery c).
      cbn in Es. rewrite Es. apply orb_true_r.
    + intros Hc. congruence.
    + cbn [last_now upd setter]. rewrite H6. auto.
  - destruct H3 as (H3 & H4 & H5). split; [|done]. by apply held_refusal.
Qed.

Lemma held_trans_at now c c1 c' : steady c c1 -> recoveries c1 = recoveries c ->
  recovery_charged_epoch c1 = recovery_charged_epoch c -> last_now c1 = Some now -> default 0 (last_now c) <= now ->
  closed c1 = closed c -> window_kept c c1 -> stopped c1 = true -> held_back now c1 c' -> held_back now c c'.
Proof.
  intros S1 R1 R2 R3 R4 R5 [R6 R7] Hs [H1 H2 H3 H4 H5 [H8 H9] H6].
  assert (ledger_kept c1 c' -> ledger_kept c c') as Hk by (intros [K1 K2]; split; [congruence|rewrite <- R1; tauto]).
  split; try done.
  - by eapply steady_trans.
  - destruct H3 as [?|Hc]; [left; by apply Hk|right].
    destruct S1 as [S1 S2 S3 S4 S5].
    destruct Hc as [C1 C2 C3|i C1 C2 C3 C4]; [apply already_charged; congruence|].
    apply (newly_charged _ _ _ i); [congruence|congruence| |congruence]. rewrite C3. unfold charged_slots. by rewrite S3, R1.
  - intros _. by apply H4.
  - rewrite <- R5. intros Hc. destruct (H5 Hc). auto.
  - split; congruence.
  - destruct H6 as [H6 H7]. rewrite R3 in H6. cbn in H6. split; [lia|]. destruct H7 as [?|?]; [left; by apply Hk|by right].
Qed.

Lemma abandon_spec c o now : inv c -> 0 <= now ->
  wp (abandon_expired_offer o now) c (fun r c' => held_back now c c' /\
    (r = Ok tt -> stopped c' = true /\ own_offer c (origin o) = true /\ send_by_micros o <= now)).
Proof.
  intros Hi Hnow. apply (gated Q); [done|done| |].
  { intros e' c' H1 H2 H3 H4 H5 H6 H7. split; [by apply held_close|done]. }
  intros Ht Hclk Hcl Hdl. pose proof (held_at_time now c Ht Hclk) as Hh. refusal Eo; [by split|]. refusal Eb; [by split|].
  apply negb_false_iff in Eo. apply Z.ltb_ge in Eb. apply wp_gets. destruct (needs_recovery (at_time now c)) eqn:En.
  - apply wp_bind. unfold wp at 1, mret, M_ret. cbn [fst snd]. eapply wp_mono; [by apply (await_spec (at_time now c) now)|].
    cbv beta. intros r c' [Hh' _]. assert (stopped (at_time now c) = true) as Hs by (unfold stopped; rewrite En; apply orb_true_r).
    split; [by apply (held_trans_at now c (at_time now c)); auto|]. intros _. split_and!; [by apply (hb_stopped _ _ _ Hh')|done|done].
  - apply wp_bind. unfold wp at 1. rewrite fail_reference_eq. destruct (deadline _ _) as [until|e]; cbn [fst snd].
    + pose proof (failed_inv Q until _ Ht) as Hf. eapply wp_mono; [by apply (await_spec (failed until (at_time now c)) now)|].
      cbv beta. intros r c' [Hh' _].
      assert (stopped (failed until (at_time now c)) = true) as Hs by (unfold stopped; apply orb_true_r).
      split; [by apply (held_trans_at now c (failed until (at_time now c))); auto|].
      intros _. split_and!; [by apply (hb_stopped _ _ _ Hh')|done|done].
    + split; [|done]. apply held_close; try done. by apply sender_close_inv.
Qed.

(** A demand that was accepted fences the cache and carries its request and its
    deadline. *)
Record demanded (now : Z) (c c' : SendCache) (b : ViewBinding.Binding) (d : RecoveryDemand) : Prop := {
  dm_fenced : needs_recovery c' = true /\ closed c' = false /\ stored c' = [];
  dm_origin : d_origin d = mk_origin (owner c) (epoch c);
  dm_pending : recovery_request c' = Some (mk_pending_recovery (Some (d_request d)) (Some b) (d_until d));
  dm_until : recovery_deadline c = Some (d_until d)
             \/ recovery_deadline c = None /\ d_until d = now + recovery_horizon_micros (policy c);
  dm_first : is_some_and (fun p => is_some (pr_request p)) (recovery_request c) = false
}.

Lemma request_spec c packet b now : inv c -> 0 <= now ->
  wp (request_recovery packet b now) c (fun r c' => held_back now c c' /\ match r with
    | Ok (DemandAccepted d) => demanded now c c' b d
    | Ok DemandCoalesced => c' = at_time now c /\ is_some_and (fun p => is_some (pr_request p)) (recovery_request c) = true
    | Err _ => True
    end).
Proof.
  intros Hi Hnow. apply (gated Q); [done|done| |].
  { intros e' c' H1 H2 H3 H4 H5 H6 H7. split; [by apply held_close|done]. }
  intros Ht Hclk Hcl Hdl. pose proof (held_at_time now c Ht Hclk) as Hh. refusal Eb; [by split|].
  apply wp_readr. destruct (RecoveryMsg.decode _ _ _ _ _) as [request|e]; cbn [wire map_err]; [|by split].
  refusal Es; [by split|]. apply wp_gets. refusal Eg; [by split|].
  change (recovery_request (at_time now c)) with (recovery_request c). destruct (is_some_and _ (recovery_request c)) eqn:Ep; [by split|].
  apply wp_bind. unfold wp at 1, method. change (recovery_deadline (at_time now c)) with (recovery_deadline c).
  assert (forall until, recovery_deadline c = Some until \/ recovery_deadline c = None /\ until = now + recovery_horizon_micros (policy c) ->
    wp (_ ← admit_recovery now;
        _ ← modify (fun c => (clear c) <| needs_recovery := true |>
                                       <| recovery_request := Some (mk_pending_recovery (Some request) (Some b) until) |>);
        gets (fun c => DemandAccepted (mk_demand (mk_origin (owner c) (epoch c)) request until)) : SM RecoveryDisposition)
      (at_time now c) (fun r c' => held_back now c c' /\ match r with
    | Ok (DemandAccepted d) => demanded now c c' b d
    | Ok DemandCoalesced => c' = at_time now c /\ false = true
    | Err _ => True end)) as Hadmit.
  { intros limit Hu. apply wp_bind. eapply wp_mono; [by apply (admit_recovery_spec (at_time now c) now)|]. cbv beta.
    intros [[]|e] c1 (H1 & H2%steady_at & Hwin & H3).
    - destruct H3 as (Hch & Hst & Hob & H4 & H5 & H6). unfold wp, modify. cbn [fst snd]. destruct H2 as [S1 S2 S3 S4 S5]. split.
      + split; try done.
        * pose proof (clear_inv Q c1 H1) as Hc. apply (inv_empty Q (clear c1)); try done; try (by apply Hc); [apply clear_stored|by left].
        * right. destruct Hch; [by apply already_charged|by eapply newly_charged].
        * intros _. unfold stopped. apply orb_true_r.
        * intros Hc. congruence.
        * change (default 0 (last_now c) <= default 0 (last_now c1) /\ (ledger_kept c c1 \/ last_now c1 = Some now)). rewrite H6. auto.
      + split; try done.
        * split_and!; [done|exact (eq_trans H4 Hcl)|apply clear_stored].
        * cbn [d_origin owner epoch clear upd setter]. by rewrite S1, S4.
    - destruct H3 as (H3 & H4 & H5). split; [|done]. by apply held_refusal. }
  destruct (recovery_deadline c) as [until|]; cbn [fst snd]; [apply Hadmit; by left|].
  unfold deadline, checked_add, ok_or. change (policy (at_time now c)) with (policy c).
  destruct (_ <=? u64_max); cbn [fst snd]; [apply Hadmit; by right|]. split; [|done]. apply held_close; try done. by apply sender_close_inv.
Qed.

(** ** Observations and authorization *)

Lemma observe_spec c f observed now : inv c -> 0 <= now -> fits u64_max observed ->
  wp (observe_unchanged f observed now) c (fun r c' => inv c' /\ match r with
    | Ok taken => exists c1, ticked now c c1 /\ steady c1 c' /\ recoveries c' = recoveries c1
        /\ recovery_charged_epoch c' = recovery_charged_epoch c1 /\ cached c' = cached c1
        /\ last_now c' = last_now c1 /\ last_inserted c' = last_inserted c1 /\ stopped c' = stopped c1 /\ window_kept c1 c'
    | Err _ => ticked now c c' \/ halted c c'
    end).
Proof.
  intros Hi Hnow Hob. unfold observe_unchanged. apply wp_bind. eapply wp_mono; [by apply (sender_tick_spec Q)|]. cbv beta.
  intros [[]|e] c1; [|intros Hh; split; [apply Hh|by auto]]. intros Ht. pose proof (tk_inv _ _ _ _ Ht) as H1.
  apply wp_readr. destruct (last_progress c1) as [previous|] eqn:Ep; cbn [ok_or]; [|by auto]. cbv zeta.
  refusal Ev; [by auto|]. destruct (observed =? _).
  { unfold wp, mret, M_ret. cbn [fst snd]. split; [done|]. by exists c1. }
  apply wp_readr. destruct (deadline _ _) as [until|e]; cbn [delivery map_err]; [|by auto].
  refusal Ee; [by auto|]. unfold wp, modify, mret, M_ret. cbn [fst snd].
  destruct (iv_progress _ _ H1 previous Ep) as ([Pd Po] & Pv & Pq).
  assert (progress_ok Q (limits c1) (mk_progress (p_descriptor previous) observed QualifiedUnchanged Idle)) as Hpo by done.
  split; [|by exists c1]. pose proof (ticked_live _ _ _ _ Ht) as Hlive. destruct H1. split; try done.
  - intros Hs. change (stopped c1 = true) in Hs. congruence.
  - by intros p [= <-].
  - by intros o [= <-].
Qed.

Lemma authorize_spec c o now : inv c -> 0 <= now ->
  wp (authorize_write o now) c (fun r c' => inv c' /\ match r with
    | Ok _ => ticked now c c' /\ own_offer c (origin o) = true /\ now < send_by_micros o
    | Err _ => ticked now c c' \/ halted c c'
    end).
Proof.
  intros Hi Hnow. unfold authorize_write. apply wp_bind. eapply wp_mono; [by apply (sender_tick_spec Q)|]. cbv beta.
  intros [[]|e] c1; [|intros Hh; split; [apply Hh|by auto]]. intros Ht. pose proof (tk_inv _ _ _ _ Ht) as H1.
  refusal Eo; [by auto|]. unfold wp, refuse_if. destruct (_ <=? now) eqn:En; cbn [fst snd]; [by auto|]. split; [done|].
  split; [done|]. apply negb_false_iff in Eo. split; [|by apply Z.leb_gt].
  rewrite <- Eo, (tk_state _ _ _ _ Ht). destruct (swept_steady now c) as [S1 _ _ S4 _]. unfold own_offer. by rewrite S1, S4.
Qed.

End methods.
End SenderMethods.
