(* ===== verification/SenderSession.v ===== *)
(** * A sending cache in use

    The calls an owner of a [SendCache] makes, in any order, with the records they
    write, and what every call keeps: the invariant, the generation, the recovery
    allowance, and that a stopped cache stays stopped until it is replaced. *)

From S2P Require Import Prelude.
From S2P Require Import Bytes.
From S2P Require Import Limits.
From S2P Require Import WireRecord.
From S2P Require Import WireRecordProps.
From S2P Require Import WireMedia.
From S2P Require Import WireMediaProps.
From S2P Require Import WireInput.
From S2P Require Import WireView.
From S2P Require Import Delivery.
From S2P Require Import ReceiverInv.
From S2P Require Import Sender.
From S2P Require Import SenderInv.
From S2P Require Import SenderPackets.
From S2P Require Import SenderMethods.

Module SenderSession.
Import Media MediaProps Delivery Sender SenderInv SenderPackets SenderSteps SenderMethods.
Import ReceiverInv(bindings_ok).

(** The public methods that change the cache. *)
Inductive Call :=
| Push (p : Progress) (b : bytes) (capacity : Z) (m : DeliveryMode) (now : Z)
| PushShared (f : SharedFrame) (m : DeliveryMode) (now : Z)
| Tick (now : Z)
| NextPacket (now : Z) (out : bytes)
| NextRepair (now : Z) (out : bytes)
| QueueRepair (packet : bytes) (now : Z)
| Authorize (o : PacketOffer) (now : Z)
| Observe (f observed now : Z)
| Replace (e : MediaEpoch) (b : MediaBindings) (now : Z)
| Await (now : Z)
| Abandon (o : PacketOffer) (now : Z)
| RequestRecovery (packet : bytes) (b : ViewBinding.Binding) (now : Z)
| Close.

Definition time_of (k : Call) : option Z :=
  match k with
  | Push _ _ _ _ now | PushShared _ _ now | Tick now | NextPacket now _ | NextRepair now _ | QueueRepair _ now
  | Authorize _ now | Observe _ _ now | Replace _ _ now | Await now | Abandon _ now | RequestRecovery _ _ now => Some now
  | Close => None
  end.

(** The picture a call brings, by frame number. *)
Definition brings (k : Call) : option (Z * bytes) :=
  match k with
  | Push p b _ _ _ => Some (frame (p_descriptor p), b)
  | PushShared f _ _ => Some (sf_frame f, sf_bytes f)
  | _ => None
  end.

Section session.
Context `{SendLayout}.

Definition without_packet {A} (m : SM A) (c : SendCache) : option packet * SendCache := (None, snd (m c)).
Definition with_packet (m : SM (option packet)) (c : SendCache) : option packet * SendCache :=
  match m c with (Ok o, c') => (o, c') | (Err _, c') => (None, c') end.

(** The packet a call writes, and the cache after it. *)
Definition call (k : Call) (c : SendCache) : option packet * SendCache :=
  match k with
  | Push p b capacity m now => without_packet (push p b capacity m now) c
  | PushShared f m now => without_packet (push_shared f m now) c
  | Tick now => without_packet (tick now) c
  | NextPacket now out => with_packet (next_packet now out) c
  | NextRepair now out => with_packet (next_repair_packet now out) c
  | QueueRepair packet now => without_packet (queue_repair packet now) c
  | Authorize o now => without_packet (authorize_write o now) c
  | Observe f observed now => without_packet (observe_unchanged f observed now) c
  | Replace e b now => without_packet (replace e b now) c
  | Await now => without_packet (await_recovery_request now) c
  | Abandon o now => without_packet (abandon_expired_offer o now) c
  | RequestRecovery packet b now => without_packet (request_recovery packet b now) c
  | Close => (None, close c)
  end.

Fixpoint run (ks : list Call) (c : SendCache) : list packet * SendCache :=
  match ks with
  | [] => ([], c)
  | k :: ks =>
      let (o, c) := call k c in
      let (os, c) := run ks c in
      (option_list o ++ os, c)
  end.

(** Values of the types of the program: times are unsigned, a [Vec] has room for its
    bytes and a pool charges at least them, a buffer holds a record, bindings are made by their constructors. *)
Definition shared_typed (f : SharedFrame) : Prop :=
  fits u64_max (sf_frame f) /\ fits u64_max (sf_capture_micros f) /\ Forall is_byte (sf_bytes f)
  /\ Z.of_nat (length (sf_bytes f)) <= allocation_charge f
  /\ match sf_kind f with Idr _ => True | Predicted r => fits u64_max r end.
Definition call_typed (k : Call) (c : SendCache) : Prop :=
  is_none_or (fun now => bool_decide (0 <= now)) (time_of k) = true /\
  match k with
  | Push p b capacity _ _ => progress_typed p /\ Forall is_byte b /\ Z.of_nat (length b) <= capacity
  | PushShared f _ _ => shared_typed f
  | NextPacket _ out | NextRepair _ out => record_bytes (limits c) <= Z.of_nat (length out) <= usize_max
  | QueueRepair packet _ => Forall is_byte packet
  | Observe _ observed _ => fits u64_max observed
  | Replace _ b _ => bindings_ok b
  | _ => True
  end.

Fixpoint run_typed (ks : list Call) (c : SendCache) : Prop :=
  match ks with
  | [] => True
  | k :: ks => call_typed k c /\ run_typed ks (snd (call k c))
  end.

(** A cache as its constructor makes it, from a policy of unsigned numbers. *)
Record started (owner : Z) (l : MediaLimits) (b : MediaBindings) (e : MediaEpoch) (p : SendPolicy) (c : SendCache) : Prop := {
  ss_limits : limits_ok l;
  ss_bindings : bindings_ok b;
  ss_policy : 0 <= max_cached_bytes p /\ 0 <= repair_bytes_per_window p;
  ss_new : new owner l b e p = Ok c
}.

(** Reached from the constructor by calls. *)
Definition reachable (c : SendCache) : Prop :=
  exists o l b e p c0 ks, started o l b e p c0 /\ run_typed ks c0 /\ c = snd (run ks c0).

Section content.
Context (Q : Z -> bytes -> Prop).

(** The bytes of a repair a call writes. *)
Definition repair_bytes (o : option packet) : Z :=
  match o with
  | Some (offer, _) => match purpose offer with RepairPurpose => byte_len offer | _ => 0 end
  | None => 0
  end.

(** The repair window runs on, or was refilled after its full length; then the call
    spends what it resends. *)
Definition window_step (k : Call) (c : SendCache) (o : option packet) (c' : SendCache) : Prop :=
  exists spent,
    (repair_window_start c' = repair_window_start c /\ spent = repair_spent c
     \/ repair_window_start c + repair_window_micros (policy c) <= repair_window_start c' /\ spent = 0)
    /\ repair_spent c' = spent + repair_bytes o
    /\ (o <> None -> exists now, time_of k = Some now
          /\ repair_window_start c' <= now < repair_window_start c' + repair_window_micros (policy c)).

(** What every call keeps. *)
Record call_ok (k : Call) (c : SendCache) (o : option packet) (c' : SendCache) : Prop := {
  co_inv : inv Q c';
  co_fixed : owner c' = owner c /\ limits c' = limits c /\ policy c' = policy c;
  co_packet pk : o = Some pk -> exists now c1, time_of k = Some now /\ ticked Q now c c1 /\ sends Q c1 pk;
  co_generation : epoch c' = epoch c /\ bindings c' = bindings c
                  \/ exists e b now, k = Replace e b now /\ replaced now e b c c';
  co_ledger : match time_of k with Some now => ledger_step now c c' | None => ledger_kept c c' end;
  co_window : window_step k c o c';
  co_closed : closed c = true -> closed c' = true /\ ledger_kept c c';
  co_stopped : stopped c = true -> o = None /\ (stopped c' = true \/ exists e b now, k = Replace e b now /\ closed c = false);
  co_clock : default 0 (last_now c) <= default 0 (last_now c')
             /\ forall now, time_of k = Some now -> ~ ledger_kept c c' -> last_now c' = Some now
}.

Lemma window_same k c c' : window_kept c c' -> window_step k c None c'.
Proof. intros [W1 W2]. exists (repair_spent c). split; [by left|]. split; [by rewrite W1, Z.add_0_r|done]. Qed.

Lemma ticked_window now c c1 : ticked Q now c c1 -> inv Q c ->
  repair_window_start c1 <= now < repair_window_start c1 + repair_window_micros (policy c)
  /\ (repair_window_start c1 = repair_window_start c /\ repair_spent c1 = repair_spent c
      \/ repair_window_start c + repair_window_micros (policy c) <= repair_window_start c1 /\ repair_spent c1 = 0).
Proof.
  intros [_ _ Hc _ -> _] Hi. pose proof (iv_window _ _ Hi). pose proof (sender_policy_bounds _ _ (iv_policy _ _ Hi)).
  unfold swept. cbv zeta. set (c2 := evict now _).
  assert (repair_window_start c2 = repair_window_start c /\ repair_spent c2 = repair_spent c /\ policy c2 = policy c) as (E1 & E2 & E3)
    by (unfold c2; match goal with |- context [if ?b then _ else _] => destruct b end; done).
  clearbody c2. rewrite E1, E3. destruct (Z.leb_spec (repair_window_micros (policy c)) (now - repair_window_start c)); cbn; lia.
Qed.

(** After a [tick] that succeeded, whatever leaves the fixed parts alone. *)
Lemma after_tick k now c c1 o c' : inv Q c -> time_of k = Some now -> ticked Q now c c1 -> inv Q c' -> steady c1 c' ->
  repair_window_start c' = repair_window_start c1 -> repair_spent c' = repair_spent c1 + repair_bytes o ->
  recoveries c' = recoveries c1 -> recovery_charged_epoch c' = recovery_charged_epoch c1 -> last_now c' = last_now c1 ->
  (forall pk, o = Some pk -> sends Q c1 pk) -> call_ok k c o c'.
Proof.
  intros Hi0 Hk Ht Hi [S1 S2 S3 S4 S5] W6 W7 R1 R2 R3 Hpk. pose proof (ticked_window now c c1 Ht Hi0) as [Wn Wc].
  pose proof Ht as [_ Hs Hc _ E _].
  destruct (swept_steady now c) as [W1 W2 W3 W4 W5]. rewrite <- E in W1, W2, W3, W4, W5.
  destruct (swept_rest now (at_time now c)) as (X1 & X2 & X3 & X4 & X5 & X6). rewrite <- E in X1, X2, X3, X4, X5, X6.
  assert (ledger_kept c c') as Hl by (split; [by rewrite R2, X6|left; by rewrite R1, X5]).
  split; try done.
  - split_and!; congruence.
  - intros pk Hp. exists now, c1. auto.
  - left. split; congruence.
  - rewrite Hk. by left.
  - exists (repair_spent c1). rewrite W6. split; [tauto|]. split; [done|]. intros _. by exists now.
  - intros Hcl. unfold stopped in Hs. by rewrite Hcl in Hs.
  - congruence.
  - rewrite R3, X4. cbn. split; [lia|]. by intros now' _ [].
Qed.

Lemma after_halt k now c c' : time_of k = Some now -> halted Q c c' -> call_ok k c None c'.
Proof.
  intros Hk [H1 H2 [S1 S2 S3 S4 S5] H4 H5 H6 H7 H8].
  assert (ledger_kept c c') as Hl by (split; [done|by left]).
  split; try done; [by left|rewrite Hk; by left|by apply window_same|by auto|by auto].
Qed.

Lemma after_hold k now c c' : time_of k = Some now -> held_back Q now c c' -> call_ok k c None c'.
Proof.
  intros Hk [H1 [S1 S2 S3 S4 S5] H3 H4 H5 H8 [H6 H7]]. split; try done; [by left|by rewrite Hk|by apply window_same|by auto|].
  split; [done|]. rewrite Hk. intros now' [= <-] Hn. by destruct H7.
Qed.

Lemma unchanged k c : inv Q c -> call_ok k c None c.
Proof.
  intros Hi. assert (ledger_kept c c) as Hl by (split; [done|by left]).
  split; try done; [by left|by destruct (time_of k); [left|]|by apply window_same|by auto].
Qed.

Lemma ticked_ok k now c c' : inv Q c -> time_of k = Some now -> ticked Q now c c' -> call_ok k c None c'.
Proof. intros Hi Hk Ht. apply (after_tick k now c c'); try done; [apply Ht|by rewrite Z.add_0_r]. Qed.

Lemma after_tick_halt k now c c1 c' : inv Q c -> time_of k = Some now -> ticked Q now c c1 -> halted Q c1 c' ->
  last_now c' = last_now c1 -> call_ok k c None c'.
Proof.
  intros Hi Hk Ht [H1 H2 H3 H4 H5 H6 H7 [H8 H9]] Hn. apply (after_tick k now c c1); try done. by rewrite Z.add_0_r.
Qed.

Lemma push_ok k p b m now c : time_of k = Some now -> 0 <= now -> inv Q c -> pushable Q p b ->
  call_ok k c None (snd (push_picture p b m now c)).
Proof.
  intros Hk Hnow Hi Hpb. pose proof (push_picture_spec Q c p b m now Hi Hnow Hpb) as Hp. unfold wp in Hp.
  destruct (push_picture p b m now c) as [[[]|e] c']; cbn [fst snd] in *; destruct Hp as [Hi' Hp].
  - destruct Hp as (c1 & i & Ht & [_ _ _ _ _ _ _ (S1 & S2 & S3 & S4 & S5 & S6)]). apply (after_tick k now c c1); try done.
    by rewrite Z.add_0_r.
  - destruct Hp as [Ht|[Hh|(c1 & Ht & Hh & Hn)]]; [by apply (ticked_ok k now)|by apply (after_halt k now)|].
    by apply (after_tick_halt k now c c1).
Qed.

Lemma shared_pushable f p l : limits_ok l -> shared_typed f -> shared_progress f (fragment_stride l) = Ok p ->
  Q (sf_frame f) (sf_bytes f) -> pushable Q p (Shared f).
Proof.
  intros Hl (F1 & F2 & F3 & F4 & F5). unfold shared_progress, u32_try_from. destruct (Z.leb_spec (Z.of_nat (length (sf_bytes f))) u32_max); [|done].
  cbn. intros [= <-] HQ. split; try done. pose proof (limits_sizes l Hl) as [Hr _].
  split; [|done]. split_and!; cbn; try done; try (unfold fits, fragment_stride, FRAGMENT_OVERHEAD, u32_max in *; lia).
  by destruct (sf_kind f).
Qed.

Lemma after_replace k e b now c c' : k = Replace e b now -> inv Q c -> inv Q c' -> replaced now e b c c' -> call_ok k c None c'.
Proof.
  intros -> Hi Hi' Hr. pose proof Hr as [R1 R2 (R3 & R4 & R5 & R6 & R7) (R8 & R9 & R10) [R11 R13] R12 _]. split; try done.
  - right. by exists e, b, now.
  - destruct R12 as [?|(? & ? & _)]; [by right|by apply kept_same].
  - apply window_same, Hr.
  - congruence.
  - intros _. split; [done|]. right. by exists e, b, now.
  - rewrite R11. split; [done|]. by intros now' [= <-].
Qed.

Lemma call_spec k c : inv Q c -> call_typed k c -> (forall f b, brings k = Some (f, b) -> Q f b) ->
  call_ok k c (fst (call k c)) (snd (call k c)).
Proof.
  intros Hi [Hnow Hty] HQ.
  assert (forall now, time_of k = Some now -> 0 <= now) as Hn.
  { intros now E. rewrite E in Hnow. cbn in Hnow. by apply bool_decide_eq_true_1 in Hnow. }
  destruct k as [p b capacity m now|f m now|now|now out|now out|packet now|o now|f observed now|e b now|now|o now|packet b now|];
    cbn [call without_packet with_packet fst snd brings time_of] in *; try (specialize (Hn now eq_refl)).
  - destruct Hty as (T1 & T2 & T3). apply (push_ok _ p (Owned b capacity) m now); try done. split; try done. by apply HQ.
  - unfold push_shared, mbind, M_bind, refuse_if. destruct (negb _); [by apply unchanged|].
    unfold readr. destruct (shared_progress f _) as [p|e] eqn:Ep; cbn [wire map_err]; [|by apply unchanged].
    apply (push_ok _ p (Shared f) m now); try done. eapply shared_pushable; [apply Hi|done|exact Ep|by apply HQ].
  - pose proof (sender_tick_spec Q now c Hi Hn) as Ht. unfold wp in Ht. destruct (tick now c) as [[[]|e] c']; cbn [fst snd] in *.
    + by apply (ticked_ok _ now).
    + by apply (after_halt _ now).
  - pose proof (next_packet_spec Q c now out Hi Hn Hty) as Hp. unfold wp in Hp. unfold with_packet.
    destruct (next_packet now out c) as [[o|e] c']; cbn [fst snd] in *; destruct Hp as [Hi' Hp]; [|by apply (after_halt _ now)].
    destruct Hp as (c1 & Ht & Ho). destruct o as [pk|].
    + destruct Ho as [Hs Ho]. assert (repair_bytes (Some pk) = 0) as Hz.
      { destruct Ho as [(i & p & [_ _ _ E _ _])|(o & [_ _ _ (_ & _ & E) _])]; destruct pk as [offer b']; cbn in *; [by rewrite E|by rewrite E]. }
      apply (after_tick _ now c c1); try done; rewrite ?Hz, ?Z.add_0_r; [..|by intros pk' [= <-]];
        destruct Ho as [(i & p & [_ _ _ _ _ ->])|(o & [_ _ _ _ ->])]; done.
    + destruct Ho as [-> _]. by apply (ticked_ok _ now).
  - pose proof (next_repair_spec Q c now out Hi Hn Hty) as Hp. unfold wp in Hp. unfold with_packet.
    destruct (next_repair_packet now out c) as [[o|e] c']; cbn [fst snd] in *; destruct Hp as [Hi' Hp]; [|by apply (after_halt _ now)].
    destruct Hp as (c1 & Ht & Ho). destruct o as [pk|].
    + destruct Ho as [Hs (i & p & j & [_ _ _ _ Eo _ _ ->])]. apply (after_tick _ now c c1); try done; [|by intros pk' [= <-]].
      destruct pk as [offer b']. cbn in *. by rewrite Eo.
    + destruct Ho as [-> _]. by apply (ticked_ok _ now).
  - pose proof (queue_repair_spec Q c packet now Hi Hn Hty) as Hp. unfold wp in Hp.
    destruct (queue_repair packet now c) as [[[]|e] c']; cbn [fst snd] in *; destruct Hp as [Hi' Hp].
    + destruct Hp as (c1 & i & p & request & job & Ht & [_ _ _ _ _ _ _ ->]). apply (after_tick _ now c c1); try done. by rewrite Z.add_0_r.
    + destruct Hp as [->|[Ht|Hh]]; [by apply unchanged|by apply (ticked_ok _ now)|by apply (after_halt _ now)].
  - pose proof (authorize_spec Q c o now Hi Hn) as Hp. unfold wp in Hp.
    destruct (authorize_write o now c) as [[[]|e] c']; cbn [fst snd] in *; destruct Hp as [Hi' Hp].
    + by apply (ticked_ok _ now), Hp.
    + destruct Hp as [Ht|Hh]; [by apply (ticked_ok _ now)|by apply (after_halt _ now)].
  - pose proof (observe_spec Q c f observed now Hi Hn Hty) as Hp. unfold wp in Hp.
    destruct (observe_unchanged f observed now c) as [[taken|e] c']; cbn [fst snd] in *; destruct Hp as [Hi' Hp].
    + destruct Hp as (c1 & Ht & S1 & S2 & S3 & S4 & S5 & _ & _ & [S6 S7]). apply (after_tick _ now c c1); try done. by rewrite Z.add_0_r.
    + destruct Hp as [Ht|Hh]; [by apply (ticked_ok _ now)|by apply (after_halt _ now)].
  - pose proof (sender_replace_spec Q c e b now Hi Hn Hty) as Hp. unfold wp in Hp.
    destruct (replace e b now c) as [[[]|e'] c']; cbn [fst snd] in *; destruct Hp as [Hi' Hp].
    + by apply (after_replace _ e b now).
    + destruct Hp as ([S1 S2 S3 S4 S5] & Hwin & Hc & Hch & Hcl).
      assert (ledger_kept c c') as Hk by (split; [done|]; destruct Hcl as [?| ->]; [by right|by left]). split; try done.
      * by left.
      * by left.
      * by apply window_same.
      * intros Hc'. by destruct Hcl as [?| ->].
      * intros Hs. split; [done|]. left. destruct Hcl as [Hcl| ->]; [unfold stopped; by rewrite Hcl|done].
  - pose proof (await_spec Q c now Hi Hn) as Hp. unfold wp in Hp. by apply (after_hold _ now), Hp.
  - pose proof (abandon_spec Q c o now Hi Hn) as Hp. unfold wp in Hp. by apply (after_hold _ now), Hp.
  - pose proof (request_spec Q c packet b now Hi Hn) as Hp. unfold wp in Hp. by apply (after_hold _ now), Hp.
  - split; try done; [by apply sender_close_inv|by left|by split; auto|by apply window_same|by split; [|split; auto]|by auto].
Qed.

Lemma sender_started_inv o l b e p c : started o l b e p c -> inv Q c.
Proof.
  intros [Hl Hb [Hp1 Hp2] Hn]. unfold new in Hn.
  destruct (validate_send_policy p l) as [[]|] eqn:Ev; [|done]. cbn in Hn. injection Hn as <-.
  pose proof (sender_policy_bounds p l Ev). split; try done; cbn; try lia; try constructor; try lia; done.
Qed.

Lemma sender_run_inv ks : forall c, inv Q c -> run_typed ks c -> (forall k f b, k ∈ ks -> brings k = Some (f, b) -> Q f b) ->
  inv Q (snd (run ks c)).
Proof.
  induction ks as [|k ks IH]; intros c Hi Hty HQ; [done|]. destruct Hty as [Ht Hty].
  pose proof (call_spec k c Hi Ht (fun f b => HQ k f b (list_elem_of_here _ _))) as Hc.
  cbn. destruct (call k c) as [o c']. cbn [fst snd] in *. specialize (IH c' (co_inv _ _ _ _ Hc) Hty).
  destruct (run ks c'). apply IH. intros k' f b Hk'. apply HQ. by right.
Qed.

End content.

(** Whatever the pictures are. *)
Lemma sender_reachable_inv c : reachable c -> inv (fun _ _ => True) c.
Proof. intros (o & l & b & e & p & c0 & ks & Hst & Hty & ->). apply sender_run_inv; [by eapply sender_started_inv|done|done]. Qed.

Lemma reachable_call c k : reachable c -> call_typed k c -> reachable (snd (call k c)).
Proof.
  intros (o & l & b & e & p & c0 & ks & Hst & Hty & ->) Hk. exists o, l, b, e, p, c0, (ks ++ [k]). split; [done|].
  clear Hst. revert c0 Hty Hk. induction ks as [|k' ks IH]; intros c0 Hty Hk.
  - cbn in *. split; [done|]. by destruct (call k c0).
  - destruct Hty as [Ht Hty]. cbn in *. destruct (call k' c0) as [o' c1]. cbn [snd] in *.
    specialize (IH c1 Hty). destruct (run ks c1) as [os c2]. destruct (run (ks ++ [k]) c1) as [os' c3]. cbn [snd] in *.
    destruct (IH Hk) as [IH1 IH2]. done.
Qed.
End session.
End SenderSession.
