(* ===== verification/SenderHistory.v ===== *)
(** The loop that drains the sending cache, and its allowances over time. *)

From S2P Require Import Prelude.
From S2P Require Import Limits.
From S2P Require Import Bytes.
From S2P Require Import WireRecord.
From S2P Require Import WireRecordProps.
From S2P Require Import WireMedia.
From S2P Require Import WireMediaProps.
From S2P Require Import Delivery.
From S2P Require Import ReceiverInv.
From S2P Require Import Sender.
From S2P Require Import SenderInv.
From S2P Require Import SenderPackets.
From S2P Require Import SenderMethods.
From S2P Require Import SenderSession.

(** * Draining the sending cache

    A caller with transport credit calls [next_packet] until it returns nothing.
    That ends, after as many records as the cached pictures have left, and what was
    written is, picture by picture in the order of their frames, the announcement
    followed by every fragment by index or every recovery chunk by offset. *)

From Stdlib Require Import Sorting.Sorted.

Module SenderDrain.
Import Media MediaProps Delivery Sender SenderInv SenderPackets SenderSteps.
Import ReceiverInv(flatten_insert, flatten_at, cons_option).

(** ** What a picture has left to send *)

(** The offsets of the chunks of [room] bytes from [start] to [total]. *)
Fixpoint chunk_offsets (fuel : nat) (room start total : Z) : list Z :=
  match fuel with
  | O => []
  | S fuel => if start <? total then start :: chunk_offsets fuel room (start + room) total else []
  end.

Definition announcement (b : MediaBindings) (p : CachedPicture) : Channel * bytes :=
  (MediaConfig, frame_of WireRecord.Progress (for_channel b MediaConfig) (progress_body (cp_progress p)) []).
Definition fragment_record (b : MediaBindings) (p : CachedPicture) (i : Z) : Channel * bytes :=
  (Video, frame_of WireRecord.Fragment (for_channel b Video) (fragment_body (fragment_at p i)) []).
(** The chunk at an offset: as many bytes as fit a record, or the rest. *)
Definition chunk_from (l : MediaLimits) (p : CachedPicture) (start : Z) : RecoveryChunk :=
  mk_chunk (cp_frame p) (total_bytes (cp_descriptor p)) start (capture_micros (cp_descriptor p))
    (slice (Z.to_nat start)
       (Z.to_nat (start + Z.min (record_bytes l - RECOVERY_OVERHEAD) (Z.of_nat (length (contents (cp_bytes p))) - start)))
       (contents (cp_bytes p))).
Definition chunk_record (l : MediaLimits) (b : MediaBindings) (p : CachedPicture) (start : Z) : Channel * bytes :=
  (RecoveryChannel, frame_of Recovery (for_channel b RecoveryChannel) (chunk_body (chunk_from l p start)) []).

(** The originals from cursor [x] on. *)
Definition originals_from (l : MediaLimits) (b : MediaBindings) (p : CachedPicture) (x : Z) : list (Channel * bytes) :=
  match mode p with
  | Datagrams => fragment_record b p <$> seqZ x (count_of (cp_descriptor p) - x)
  | RecoveryMode =>
      chunk_record l b p <$> chunk_offsets (Z.to_nat (total_bytes (cp_descriptor p) - x))
                               (record_bytes l - RECOVERY_OVERHEAD) x (total_bytes (cp_descriptor p))
  end.
Definition script (l : MediaLimits) (b : MediaBindings) (p : CachedPicture) : list (Channel * bytes) :=
  (if announced p then [] else [announcement b p]) ++ originals_from l b p (next_original p).

Lemma chunk_offsets_fuel room total : 0 < room -> forall n m start,
  total - start <= Z.of_nat n -> total - start <= Z.of_nat m -> chunk_offsets n room start total = chunk_offsets m room start total.
Proof.
  intros Hr. induction n as [|n IH]; intros [|m] start Hn Hm; cbn [chunk_offsets]; try done.
  - destruct (Z.ltb_spec start total); [lia|done].
  - destruct (Z.ltb_spec start total); [lia|done].
  - destruct (Z.ltb_spec start total); [|done]. f_equal. apply IH; lia.
Qed.

Lemma chunk_offsets_done n room start total : total <= start -> chunk_offsets n room start total = [].
Proof. intros H. destruct n; [done|]. cbn. destruct (Z.ltb_spec start total); [lia|done]. Qed.

Lemma script_step l b p : limits_ok l -> picture_ok l p -> unsent p = true ->
  script l b p = record_of l b p :: script l b (advanced l p).
Proof.
  intros Hl Hp Hu. pose proof (originals_eq l p Hp) as Ho. pose proof (limits_sizes l Hl) as [Hr _].
  unfold record_of, advanced, unsent in *. destruct (announced p) eqn:Ea; cbn [negb orb app] in *.
  2:{ unfold script at 1. by rewrite Ea. }
  apply negb_true_iff in Hu. unfold original_complete in Hu. rewrite Ho in Hu.
  set (s := next_original p) in *. set (t := total_bytes (cp_descriptor p)) in *.
  match goal with |- context [p <| next_original := ?x |>] =>
    change (script l b (p <| next_original := x |>)) with ((if announced p then [] else [announcement b p]) ++ originals_from l b p x) end.
  unfold script, originals_from. rewrite Ea. cbn [app]. fold s t. destruct (mode p) eqn:Em.
  - destruct (chunk_at_ok l p Hl Hp Em) as (_ & _ & _ & _ & K0 & Kn); [unfold original_complete; by rewrite Ho|].
    apply Z.leb_gt in Hu. pose proof (pk_length _ _ Hp) as Hlen. fold s in Kn.
    set (n := Z.of_nat (length (c_bytes (chunk_at l p)))) in *. set (room := record_bytes l - RECOVERY_OVERHEAD) in *.
    assert (0 < room) as Hroom by (unfold room, RECOVERY_OVERHEAD; lia). fold t in Hlen.
    destruct (Z.to_nat (t - s)) as [|k] eqn:Hk; [lia|]. cbn [chunk_offsets]. destruct (Z.ltb_spec s t); [|lia].
    cbn [fmap list_fmap]. f_equal. f_equal. destruct (Z.le_gt_cases (t - s) room).
    + by rewrite !chunk_offsets_done by lia.
    + replace (s + n) with (s + room) by lia. apply chunk_offsets_fuel; lia.
  - apply Z.leb_gt in Hu. rewrite seqZ_cons by lia. cbn [fmap list_fmap]. f_equal. f_equal. f_equal; lia.
Qed.

Lemma script_done l b p : picture_ok l p -> unsent p = false -> script l b p = [].
Proof.
  intros Hp Hu. pose proof (originals_eq l p Hp) as Ho. unfold script, originals_from, unsent in *. apply orb_false_iff in Hu as [Ha%negb_false_iff Hc%negb_false_iff].
  rewrite Ha. cbn [app]. unfold original_complete in Hc. rewrite Ho in Hc. apply Z.leb_le in Hc. destruct (mode p).
  - by rewrite chunk_offsets_done.
  - by rewrite seqZ_nil by lia.
Qed.

(** ** A cache at rest at [now] *)

(** [tick now] has nothing left to do. *)
Record calm (now : Z) (c : SendCache) : Prop := {
  cm_now : last_now c = Some now;
  cm_running : closed c = false /\ needs_recovery c = false;
  cm_deadline : is_some_and (fun until => until <=? now) (recovery_deadline c) = false;
  cm_fresh p : p ∈ stored c -> now < send_by p;
  cm_observation : is_some_and (fun o => ob_send_by o <=? now) (pending_observation c) = false;
  cm_window : now - repair_window_start c < repair_window_micros (policy c)
}.

Lemma evict_calm now c : (forall p, p ∈ stored c -> now < send_by p) -> evict now c = c.
Proof.
  intros Hf. unfold evict. cbv zeta.
  assert (filter (fun p => (send_by p <=? now) = true) (stored c) = []) as ->.
  { apply filter_none. intros p Hp. specialize (Hf p Hp). destruct (Z.leb_spec (send_by p) now); [lia|done]. }
  assert ((fun s => match s with Some p => if send_by p <=? now then None else Some p | None => None end) <$> cached c = cached c) as E.
  { rewrite <- (list_fmap_id (cached c)) at 2. apply list_fmap_ext. intros i [p|] Hi; [|done]. cbn.
    specialize (Hf p ltac:(apply elem_of_flatten; by eapply list_elem_of_lookup_2)). by destruct (Z.leb_spec (send_by p) now); [lia|]. }
  cbn [foldr length]. rewrite !Z.sub_0_r. destruct c. cbn in *. by rewrite E.
Qed.

Lemma swept_calm now c : calm now c -> swept now (at_time now c) = c.
Proof.
  intros [C1 _ _ C4 C5 C6]. assert (at_time now c = c) as -> by (destruct c; cbn in *; by rewrite C1).
  unfold swept. rewrite C5. cbv zeta. rewrite evict_calm by done. destruct (Z.leb_spec (repair_window_micros (policy c)) (now - repair_window_start c)); [lia|done].
Qed.

Lemma calm_update now c i p p' : calm now c -> cached c !! i = Some (Some p) -> send_by p' = send_by p ->
  calm now (c <| cached := <[i := Some p']> (cached c) |>).
Proof.
  intros [C1 C2 C3 C4 C5 C6] Hi Hs. split; try done. intros q Hq. cbn [cached upd setter] in Hq. apply elem_of_flatten in Hq.
  assert (p ∈ stored c) as Hp by (apply elem_of_flatten; by eapply list_elem_of_lookup_2).
  apply list_elem_of_lookup in Hq as [j Hj]. destruct (decide (i = j)) as [<-|Hne].
  - rewrite list_lookup_insert_eq in Hj by (by eapply lookup_lt_Some). injection Hj as <-. rewrite Hs. by apply C4.
  - rewrite list_lookup_insert_ne in Hj by done. apply C4, elem_of_flatten. by eapply list_elem_of_lookup_2.
Qed.

(** What [tick] leaves is at rest. *)
Lemma tick_calm Q now c c1 : inv Q c -> 0 <= now -> tick now c = (Ok tt, c1) -> calm now c1.
Proof.
  intros Hi Hnow Ht. pose proof (sender_tick_spec Q now c Hi Hnow) as Hs. unfold wp in Hs. rewrite Ht in Hs. cbn [fst snd] in Hs.
  pose proof (ticked_live _ _ _ _ Hs) as Hlive. destruct Hs as [H1 Hst _ _ E Hdl].
  destruct (swept_rest now (at_time now c)) as (X1 & X2 & X3 & X4 & X5 & X6). rewrite <- E in X4.
  unfold stopped in Hlive. apply orb_false_iff in Hlive as [L1 L2]. split; [done|done| | | |].
  - rewrite E, <- Hdl. f_equal. unfold swept. cbv zeta.
    destruct (_ <=? now - _); destruct (is_some_and _ (pending_observation (at_time now c))); done.
  - intros p. rewrite E, swept_stored. unfold kept. intros [Hp _]%list_elem_of_filter. by apply Z.leb_gt.
  - rewrite E. unfold swept. cbv zeta. set (o := is_some_and _ (pending_observation (at_time now c))).
    destruct o eqn:Eo; destruct (_ <=? now - _); first [reflexivity|exact Eo].
  - rewrite E. unfold swept. cbv zeta. pose proof (sender_policy_bounds _ _ (iv_policy _ _ Hi)).
    set (c2 := evict now _). assert (policy c2 = policy c) as Hp by (unfold c2; match goal with |- context [if ?b then _ else _] => destruct b end; reflexivity).
    clearbody c2. destruct (Z.leb_spec (repair_window_micros (policy c2)) (now - repair_window_start c2)); [|lia].
    cbn. rewrite Hp. lia.
Qed.

(** ** The loop *)

Fixpoint drain (fuel : nat) (now : Z) (out : bytes) (c : SendCache) : list packet * SendCache :=
  match fuel with
  | O => ([], c)
  | S fuel =>
      match next_packet now out c with
      | (Ok (Some pk), c') => let (pks, c'') := drain fuel now out c' in (pk :: pks, c'')
      | (_, c') => ([], c')
      end
  end.

Fixpoint total_effort (l : list CachedPicture) : Z := match l with [] => 0 | p :: l => effort p + total_effort l end.
(** Records, counted by bytes for recovery pictures, that are still to be sent. *)
Definition work (c : SendCache) : Z := total_effort (stored c) + (if pending_observation c then 1 else 0).

Lemma effort_nonneg l p : picture_ok l p -> 0 <= effort p.
Proof. intros Hp. destruct (pk_next _ _ Hp). unfold effort. destruct (announced p); lia. Qed.
Lemma total_effort_nonneg l ps : Forall (picture_ok l) ps -> 0 <= total_effort ps.
Proof. induction 1 as [|p ps Hp _ IH]; cbn; [lia|]. pose proof (effort_nonneg l p Hp). lia. Qed.
Lemma total_effort_app l1 l2 : total_effort (l1 ++ l2) = total_effort l1 + total_effort l2.
Proof. induction l1 as [|p l1 IH]; cbn; lia. Qed.

(** The observation that waits, as a record. *)
Definition observed (c : SendCache) : list (Channel * bytes) :=
  match pending_observation c with
  | Some o => [(MediaConfig, frame_of WireRecord.Progress (for_channel (bindings c) MediaConfig) (progress_body (ob_progress o)) [])]
  | None => []
  end.
Definition sent (pk : packet) : Channel * bytes := (po_channel (fst pk), take (Z.to_nat (byte_len (fst pk))) (snd pk)).

Lemma scripts_done l b ps : Forall (picture_ok l) ps -> (forall q, q ∈ ps -> unsent q = false) -> concat (script l b <$> ps) = [].
Proof.
  induction 1 as [|q ps Hq _ IH]; intros Hps; [done|]. cbn. rewrite (script_done l b q Hq) by (apply Hps; left).
  apply IH. intros q' Hq'. apply Hps. by right.
Qed.

(** The scripts of the pictures before the oldest unsent one are empty. *)
Lemma scripts_step l b ps qs p : limits_ok l -> Forall (picture_ok l) (ps ++ p :: qs) ->
  (forall q, q ∈ ps -> unsent q = false) -> unsent p = true ->
  concat (script l b <$> (ps ++ p :: qs)) = record_of l b p :: concat (script l b <$> (ps ++ advanced l p :: qs)).
Proof.
  intros Hl Hok Hps Hu. rewrite !fmap_app, !concat_app. cbn [fmap list_fmap concat].
  apply Forall_app in Hok as [Hok1 Hok2]. inversion_clear Hok2 as [|? ? Hp _].
  rewrite (scripts_done l b ps) by done. by rewrite (script_step l b p Hl Hp Hu).
Qed.

Section drained.
Context (Q : Z -> bytes -> Prop) (now : Z) (out : bytes) (Hnow : 0 <= now).

Lemma calm_tick c : calm now c -> tick now c = (Ok tt, c).
Proof using Type.
  intros Hc. pose proof (swept_calm now c Hc) as Hs. destruct Hc as [C1 [C2 C2'] C3 C4 C5 C6].
  assert (c <| last_now := Some now |> = c) as E by (destruct c; cbn in *; by rewrite C1).
  unfold tick. unfold mbind at 1, M_bind at 1, check_clock. rewrite C1. cbn [is_some_and]. rewrite Z.ltb_irrefl, E.
  unfold mbind at 1, M_bind at 1, refuse_if at 1. rewrite C2. unfold mbind at 1, M_bind at 1, check_recovery_deadline. rewrite C3.
  unfold mbind at 1, M_bind at 1, refuse_if at 1. rewrite C2'. unfold method.
  destruct (existsb (lost now) (stored c)) eqn:El.
  { exfalso. apply existsb_exists in El as (p & Hp%list_elem_of_In & Hl). specialize (C4 p Hp). unfold lost in Hl. lia. }
  f_equal. unfold at_time in Hs. rewrite E in Hs. exact Hs.
Qed.

(** One call on a cache at rest. *)
Lemma next_calm c : inv Q c -> calm now c -> record_bytes (limits c) <= Z.of_nat (length out) <= usize_max ->
  (next_packet now out c = (Ok None, c) /\ originals_pending c = false)
  \/ exists pk c', next_packet now out c = (Ok (Some pk), c') /\ inv Q c'
       /\ ((exists i p, original_sent c out pk c' i p) \/ exists o, observation_sent c pk c' o).
Proof using Hnow.
  intros Hi Hc Hout. pose proof (next_packet_spec Q c now out Hi Hnow Hout) as Hn. unfold wp in Hn.
  assert (forall c1, ticked Q now c c1 -> c1 = c) as Hsame by (intros c1 [_ _ _ _ -> _]; by apply swept_calm).
  destruct (next_packet now out c) as [[[pk|]|e] c'] eqn:En; cbn [fst snd] in Hn; destruct Hn as [Hi' Hn].
  - right. destruct Hn as (c1 & Ht%Hsame & _ & Hs). subst c1. by exists pk, c'.
  - left. destruct Hn as (c1 & Ht%Hsame & -> & Hp). by subst c1.
  - exfalso. unfold next_packet, mbind, M_bind in En. rewrite (calm_tick c Hc) in En. unfold method in En.
    pose proof (oldest_spec unsent (cached c)) as Hold. destruct (oldest unsent 0 (cached c) None) as [[i p]|].
    + destruct Hold as (Hslot & Hu & _). destruct (stored_at Q c i p Hi Hslot) as (_ & Hp & HQ).
      destruct (original_packet_spec Q c p out Hi Hp HQ Hu Hout) as (out' & E & _). by rewrite E in En.
    + pose proof (next_observation_spec Q c out Hi Hold Hout) as Ho. unfold wp in Ho. rewrite En in Ho. by destruct Ho.
Qed.

(** Moving the oldest unsent picture on. *)
Lemma sorted_split c ps i p : inv Q c -> cached c !! i = Some (Some p) -> ps ≡ₚ stored c -> StronglySorted Z.le (cp_frame <$> ps) ->
  exists qs rs, ps = qs ++ p :: rs /\ (forall q, q ∈ qs -> q ∈ stored c /\ cp_frame q < cp_frame p)
    /\ forall p', qs ++ p' :: rs ≡ₚ stored (c <| cached := <[i := Some p']> (cached c) |>).
Proof using Type.
  intros Hi Hslot Hps Hsort. destruct (stored_at Q c i p Hi Hslot) as (Hin & _). rewrite <- Hps in Hin.
  apply list_elem_of_split in Hin as (qs & rs & ->). exists qs, rs. split; [done|]. split.
  - intros q Hq. split; [rewrite <- Hps; apply elem_of_app; by left|].
    assert (cp_frame q <= cp_frame p) as Hle.
    { clear -Hsort Hq. induction qs as [|a qs IH]; [by apply not_elem_of_nil in Hq|]. cbn in Hsort. inversion_clear Hsort as [|? ? Hs Hall].
      apply elem_of_cons in Hq as [->|Hq]; [|by apply IH]. rewrite Forall_forall in Hall. apply Hall.
      rewrite fmap_app. apply elem_of_app. right. left. }
    pose proof (iv_frames _ _ Hi) as Hnd. rewrite <- Hps, fmap_app, fmap_cons in Hnd. apply NoDup_app in Hnd as (_ & Hd & _).
    specialize (Hd (cp_frame q) (list_elem_of_fmap_2 _ _ _ Hq)). rewrite elem_of_cons in Hd. lia.
  - intros p'. cbn [cached upd setter]. rewrite flatten_insert by (by eapply lookup_lt_Some).
    rewrite (flatten_at _ _ _ Hslot) in Hps. cbn [cons_option] in *. apply Permutation_app_inv in Hps.
    rewrite <- !Permutation_middle. by rewrite Hps.
Qed.

Lemma drain_spec n : forall c ps, inv Q c -> calm now c -> record_bytes (limits c) <= Z.of_nat (length out) <= usize_max ->
  work c < Z.of_nat n -> ps ≡ₚ stored c -> StronglySorted Z.le (cp_frame <$> ps) ->
  exists pks c', drain n now out c = (pks, c')
    /\ sent <$> pks = concat (script (limits c) (bindings c) <$> ps) ++ observed c
    /\ inv Q c' /\ calm now c' /\ originals_pending c' = false /\ next_packet now out c' = (Ok None, c').
Proof using Hnow.
  induction n as [|n IH]; intros c ps Hi Hc Hout Hw Hps Hsort.
  { pose proof (total_effort_nonneg _ _ (iv_pictures _ _ Hi)). unfold work in Hw. destruct (pending_observation c); lia. }
  pose proof (iv_pictures _ _ Hi) as Hok. rewrite <- Hps in Hok. cbn [drain].
  destruct (next_calm c Hi Hc Hout) as [[En Hp]|(pk & c' & En & Hi' & Hs)]; rewrite En.
  - exists [], c. split_and!; try done. unfold originals_pending in Hp. apply orb_false_iff in Hp as [Ho Hu].
    unfold observed. destruct (pending_observation c); [done|]. rewrite app_nil_r. symmetry. apply scripts_done; [done|]. intros q Hq.
    apply not_true_iff_false. intros Hq'. apply not_true_iff_false in Hu. apply Hu, existsb_exists. exists q.
    split; [|done]. apply list_elem_of_In. by rewrite <- Hps.
  - destruct Hs as [(i & p & [O1 O2 O3 O4 O5 O6])|(o & [S1 S2 S3 S4 S5])].
    + destruct (sorted_split c ps i p Hi O1 Hps Hsort) as (qs & rs & -> & Hqs & Hperm).
      destruct (stored_at Q c i p Hi O1) as (_ & Hp & _). destruct (advanced_ok _ p (iv_limits _ _ Hi) Hp O2) as (Hp' & [A1 A2 A3 A4 A5] & Hef & _).
      assert (cp_frame (advanced (limits c) p) = cp_frame p) as Hfr by (unfold cp_frame, cp_descriptor; by rewrite A1).
      destruct (IH c' (qs ++ advanced (limits c) p :: rs)) as (pks & c'' & Hd & Hl & Hrest); try done.
      * rewrite O6. by eapply calm_update.
      * by rewrite O6.
      * rewrite O6. unfold work in *. cbn [cached pending_observation upd setter].
        rewrite flatten_insert by (by eapply lookup_lt_Some). rewrite (flatten_at _ _ _ O1) in Hw. cbn [cons_option] in *.
        rewrite !total_effort_app in *. cbn [total_effort] in *. lia.
      * rewrite O6. apply Hperm.
      * rewrite fmap_app, fmap_cons in *. by rewrite Hfr.
      * rewrite Hd. exists (pk :: pks), c''. split_and!; [done| |apply Hrest..]. rewrite fmap_cons, Hl, O6.
        rewrite (scripts_step _ _ qs rs p (iv_limits _ _ Hi) Hok); [|intros q Hq; destruct (Hqs q Hq) as [Hq1 Hq2]|done].
        -- cbn [app]. f_equal. unfold sent. rewrite O5, O4. cbn [po_channel]. by destruct (record_of _ _ p).
        -- apply not_true_iff_false. intros Hu. specialize (O3 q Hq1 Hu). lia.
    + destruct (IH c' ps) as (pks & c'' & Hd & Hl & Hrest); try done.
      * rewrite S5. by destruct Hc.
      * by rewrite S5.
      * rewrite S5. unfold work in *. cbn [cached pending_observation upd setter]. rewrite S1 in Hw. lia.
      * by rewrite S5.
      * rewrite Hd. exists (pk :: pks), c''. split_and!; [done| |apply Hrest..]. rewrite fmap_cons, Hl, S5.
        unfold observed. cbn [pending_observation upd setter limits bindings]. rewrite S1, app_nil_r.
        rewrite scripts_done; [|done|intros q Hq; apply S2; by rewrite <- Hps].
        cbn [app]. f_equal. unfold sent. rewrite S3. by destruct S4 as [-> _].
Qed.
End drained.

End SenderDrain.

(** * Allowances over time

    What a [SendCache] may spend over any sequence of calls: failed generations per
    sliding window of time, and repair bytes per window. *)

From Stdlib Require Import Sorting.Sorted.

Module SenderHistory.
Import Media MediaProps Delivery Sender SenderInv SenderMethods SenderSession.
Import ReceiverInv(flatten_app, flatten_insert, flatten_at, cons_option).

(** ** Lists of times *)

Section window.
Context (W : Z) (n : nat) (HW : 0 < W).

(** Less than a window before [T]. *)
Definition recent (T t : Z) : Prop := T - t < W.
#[export] Instance recent_dec T t : Decision (recent T t).
Proof. unfold recent. apply _. Defined.

(** At most [n] times in any window: the one [n] places later is a window later. *)
Definition spaced (L : list Z) : Prop :=
  forall i a t, L !! i = Some a -> L !! (i + n)%nat = Some t -> W <= t - a.

Lemma filter_submseteq (P : Z -> Prop) `{!forall x, Decision (P x)} (l k : list Z) : l ⊆+ k -> filter P l ⊆+ filter P k.
Proof using Type. intros [l' ->]%submseteq_Permutation. rewrite filter_app. apply submseteq_inserts_r. done. Qed.

Lemma filter_everything (P : Z -> Prop) `{!forall x, Decision (P x)} (l : list Z) : (forall x, x ∈ l -> P x) -> filter P l = l.
Proof using Type.
  induction l as [|x l IH]; intros Hp; [done|]. rewrite filter_cons, decide_True by (apply Hp; left). f_equal.
  apply IH. intros y Hy. apply Hp. by right.
Qed.

Lemma filter_weaken (P R : Z -> Prop) `{!forall x, Decision (P x)} `{!forall x, Decision (R x)} (l : list Z) :
  (forall x, x ∈ l -> P x -> R x) -> filter P l ⊆+ filter R l.
Proof using Type.
  induction l as [|x l IH]; intros Hp; [done|]. rewrite !filter_cons. specialize (IH (fun y Hy => Hp y (list_elem_of_further _ _ _ Hy))).
  destruct (decide (P x)) as [HP|HP]; [rewrite decide_True by (apply Hp; [left|done]); by apply submseteq_skip|].
  destruct (decide (R x)); [by apply submseteq_cons_r; left|done].
Qed.

(** One more time, when at most [n] of them are recent. *)
Lemma spaced_snoc L now : spaced L -> StronglySorted Z.le (L ++ [now]) ->
  (length (filter (recent now) (L ++ [now])) <= n)%nat -> spaced (L ++ [now]).
Proof using Type.
  intros Hs Hsort Hc i a t Ha Ht. destruct (decide (i + n < length L)%nat) as [Hlt|Hge].
  { rewrite lookup_app_l in Ha, Ht by lia. by apply (Hs i). }
  assert (i + n = length L)%nat as Heq.
  { apply lookup_lt_Some in Ht. rewrite length_app in Ht. cbn in Ht. lia. }
  rewrite Heq, lookup_app_r, Nat.sub_diag in Ht by lia. injection Ht as <-.
  destruct (Z.le_gt_cases W (now - a)) as [|Hlt]; [done|]. exfalso.
  assert (forall x, x ∈ drop i (L ++ [now]) -> a <= x) as Hall.
  { clear -Hsort Ha. revert i Ha. induction (L ++ [now]) as [|y l IH]; intros i Ha; [done|]. inversion_clear Hsort as [|? ? Hs Hf].
    destruct i as [|i]; [|by apply IH]. injection Ha as ->. intros x [->|Hx]%elem_of_cons; [done|]. rewrite Forall_forall in Hf. by apply Hf. }
  rewrite <- (take_drop i (L ++ [now])), filter_app, length_app in Hc.
  rewrite (filter_everything (recent now) (drop i _)) in Hc by (intros x Hx; specialize (Hall x Hx); unfold recent; lia).
  rewrite length_drop, length_app in Hc. cbn in Hc. lia.
Qed.
End window.

(** ** Charged generations *)

Definition allowed (c : SendCache) : nat := Z.to_nat (max_recoveries_per_window (policy c)).

(** The time of a call that charged a failed generation. *)
Definition charge_time (k : Call) (c c' : SendCache) : list Z :=
  if bool_decide (recovery_charged_epoch c' = recovery_charged_epoch c) then [] else option_list (time_of k).

Record rationed (L : list Z) (c : SendCache) : Prop := {
  ra_sorted : StronglySorted Z.le L;
  ra_past t : t ∈ L -> t <= default 0 (last_now c);
  ra_spaced : spaced (recovery_window_micros (policy c)) (allowed c) L;
  ra_slots : closed c = false -> forall T, (forall t, t ∈ L -> t <= T) ->
    filter (recent (recovery_window_micros (policy c)) T) L ⊆+ flatten (take (allowed c) (recoveries c))
}.

(** The slots that a charge at [now] leaves hold the recent ones and [now]. *)
Lemma charged_flatten now c i : (allowed c <= length (recoveries c))%nat ->
  (within_window now (recovery_window_micros (policy c)) <$> take (allowed c) (recoveries c)) !! i = Some None ->
  flatten (take (allowed c) (charged_slots now c i))
  ≡ₚ now :: filter (fun t => saturating_sub now t < recovery_window_micros (policy c)) (flatten (take (allowed c) (recoveries c))).
Proof.
  intros Hlen Hslot. unfold charged_slots. fold (allowed c). set (l := take (allowed c) (recoveries c)) in *.
  rewrite take_app_le by (rewrite length_insert, length_fmap; unfold l; rewrite length_take; lia).
  rewrite take_ge by (rewrite length_insert, length_fmap; unfold l; rewrite length_take; lia).
  rewrite flatten_insert by (by eapply lookup_lt_Some). cbn [cons_option]. rewrite <- Permutation_middle. apply Permutation_skip.
  assert (forall l : list (option Z), flatten (within_window now (recovery_window_micros (policy c)) <$> l)
    = filter (fun t => saturating_sub now t < recovery_window_micros (policy c)) (flatten l)) as Hf.
  { clear. induction l as [|[t|] l IH]; [done| |exact IH]. change (flatten (Some t :: l)) with (t :: flatten l). rewrite filter_cons, fmap_cons.
    cbn [within_window]. destruct (Z.leb_spec (recovery_window_micros (policy c)) (saturating_sub now t)).
    - rewrite decide_False by lia. exact IH.
    - rewrite decide_True by lia. by rewrite <- IH. }
  rewrite <- Hf, (flatten_at _ _ _ Hslot). done.
Qed.

Lemma flatten_length {A} (l : list (option A)) : (length (flatten l) <= length l)%nat.
Proof.
  induction l as [|[a|] l IH]; [done|..].
  - change (flatten (Some a :: l)) with (a :: flatten l). cbn. lia.
  - change (flatten (None :: l)) with (flatten l). cbn. lia.
Qed.

Lemma sorted_snoc L now : StronglySorted Z.le L -> (forall t, t ∈ L -> t <= now) -> StronglySorted Z.le (L ++ [now]).
Proof.
  induction 1 as [|x l Hs IH Hf]; intros Hle; cbn; [by repeat constructor|]. constructor.
  - apply IH. intros t Ht. apply Hle. by right.
  - apply Forall_app. split; [done|]. repeat constructor. apply Hle. left.
Qed.

Lemma rationed_charge L c c' now i : inv (fun _ _ => True) c -> rationed L c -> closed c = false ->
  (within_window now (recovery_window_micros (policy c)) <$> take (allowed c) (recoveries c)) !! i = Some None ->
  recoveries c' = charged_slots now c i -> policy c' = policy c -> default 0 (last_now c) <= now -> last_now c' = Some now ->
  rationed (L ++ [now]) c'.
Proof.
  intros Hi [R1 R2 R3 R4] Hcl Hslot Hrec Hpol Hle Hnow. pose proof (sender_policy_bounds _ _ (iv_policy _ _ Hi)) as Hb.
  set (W := recovery_window_micros (policy c)) in *. assert (0 < W) as HW by (subst W; lia).
  assert (forall t, t ∈ L -> t <= now) as Hpast by (intros t Ht; specialize (R2 t Ht); lia).
  assert (allowed c <= length (recoveries c))%nat as Hlen by (rewrite (iv_recoveries _ _ Hi); unfold allowed, RECOVERY_SLOTS; lia).
  pose proof (sorted_snoc L now R1 Hpast) as Hsort.
  assert (filter (recent W now) (L ++ [now]) ⊆+ flatten (take (allowed c) (charged_slots now c i))) as Hsub.
  { rewrite (charged_flatten now c i Hlen Hslot). fold W. rewrite filter_app, Permutation_app_comm.
    rewrite (filter_everything (recent W now) [now]) by (intros x ->%list_elem_of_singleton; unfold recent; lia).
    cbn [app]. apply submseteq_skip. rewrite <- (filter_everything (fun t => saturating_sub now t < W) (filter (recent W now) L)).
    - apply filter_submseteq, R4; done.
    - intros x [Hx1 Hx2]%list_elem_of_filter. unfold recent, saturating_sub in *. lia. }
  assert (allowed c' = allowed c) as Hal by (unfold allowed; by rewrite Hpol). split; rewrite ?Hal, ?Hpol; fold W; try done.
  - intros t [Ht|Ht%list_elem_of_singleton]%elem_of_app; rewrite Hnow; cbn; [by apply Hpast|lia].
  - apply spaced_snoc; [done|done|]. etrans; [by apply submseteq_length|]. etrans; [apply flatten_length|].
    rewrite length_take. lia.
  - intros _ T HT. rewrite Hrec. etrans; [|exact Hsub]. apply filter_weaken. intros x Hx. unfold recent.
    specialize (HT now). rewrite elem_of_app, list_elem_of_singleton in HT. specialize (HT (or_intror eq_refl)). lia.
Qed.

Section run.
Context `{SendLayout}.

Fixpoint charge_times (ks : list Call) (c : SendCache) : list Z :=
  match ks with
  | [] => []
  | k :: ks => let c' := snd (call k c) in charge_time k c c' ++ charge_times ks c'
  end.

Lemma rationed_call L k c : inv (fun _ _ => True) c -> rationed L c -> call_typed k c ->
  rationed (L ++ charge_time k c (snd (call k c))) (snd (call k c)).
Proof.
  intros Hi Hra Hty. pose proof (call_spec (fun _ _ => True) k c Hi Hty ltac:(done)) as Hok.
  set (c' := snd (call k c)) in *. destruct (co_fixed _ _ _ _ _ Hok) as (_ & _ & Hpol).
  destruct (co_clock _ _ _ _ _ Hok) as [Hmono Hnow]. unfold charge_time.
  assert (ledger_kept c c' -> rationed L c') as Hkept.
  { intros [K1 K2]. destruct Hra as [R1 R2 R3 R4].
    assert (allowed c' = allowed c) as Hal by (unfold allowed; by rewrite Hpol). split; rewrite ?Hal, ?Hpol; try done.
    - intros t Ht. specialize (R2 t Ht). lia.
    - intros Hcl T HT. destruct K2 as [->|K2]; [|congruence]. apply R4; [|done].
      destruct (closed c) eqn:E; [|done]. destruct (co_closed _ _ _ _ _ Hok E). congruence. }
  case_bool_decide as Hch.
  - rewrite app_nil_r. pose proof (co_ledger _ _ _ _ _ Hok) as Hl. destruct (time_of k) as [now|]; [|by apply Hkept].
    destruct Hl as [?|[C1 C2 C3|i C1 C2 C3 C4]]; [by apply Hkept|apply Hkept; split; auto|]. congruence.
  - assert (~ ledger_kept c c') as Hnk by (intros [? _]; done). pose proof (co_ledger _ _ _ _ _ Hok) as Hl.
    destruct (time_of k) as [now|] eqn:Ek; [|done]. specialize (Hnow now eq_refl Hnk).
    destruct Hl as [?|[C1 C2 C3|i C1 C2 C3 C4]]; [done|done|]. cbn [option_list].
    apply (rationed_charge L c c' now i); try done.
    + destruct (closed c) eqn:E; [|done]. by destruct (co_closed _ _ _ _ _ Hok E).
    + rewrite Hnow in Hmono. exact Hmono.
Qed.

Lemma rationed_run ks : forall L c, inv (fun _ _ => True) c -> rationed L c -> run_typed ks c ->
  rationed (L ++ charge_times ks c) (snd (run ks c)).
Proof.
  induction ks as [|k ks IH]; intros L c Hi Hra Hty; [by rewrite app_nil_r|]. destruct Hty as [Ht Hty]. cbn [charge_times run].
  pose proof (rationed_call L k c Hi Hra Ht) as Hr. pose proof (co_inv _ _ _ _ _ (call_spec (fun _ _ => True) k c Hi Ht ltac:(done))) as Hi'.
  destruct (call k c) as [o c']. cbn [snd] in *. specialize (IH _ c' Hi' Hr Hty). rewrite <- app_assoc in IH.
  by destruct (run ks c').
Qed.

End run.

(** ** Repair bytes *)

(** The start of the window a repair was charged to, its time and its bytes. *)
Record Spent := mk_spent { sp_window : Z; sp_time : Z; sp_bytes : Z }.

Definition repair_entry (k : Call) (o : option packet) (c' : SendCache) : list Spent :=
  match o, time_of k with
  | Some (offer, _), Some now =>
      match purpose offer with RepairPurpose => [mk_spent (repair_window_start c') now (byte_len offer)] | _ => [] end
  | _, _ => []
  end.

Definition total (l : list Spent) : Z := foldr (fun e n => sp_bytes e + n) 0 l.
Lemma spent_app l1 l2 : total (l1 ++ l2) = total l1 + total l2.
Proof. unfold total. induction l1 as [|e l1 IH]; cbn; lia. Qed.

(** The bytes of the entries that satisfy [P]. *)
Definition total_of (P : Spent -> bool) (l : list Spent) : Z := total (filter (fun e => P e = true) l).
Lemma total_of_app P l1 l2 : total_of P (l1 ++ l2) = total_of P l1 + total_of P l2.
Proof. unfold total_of. rewrite filter_app. apply spent_app. Qed.
Lemma total_of_one P e : total_of P [e] = if P e then sp_bytes e else 0.
Proof. unfold total_of. rewrite filter_cons, filter_nil. destruct (P e); [rewrite decide_True by done|rewrite decide_False by done]; cbn; lia. Qed.

Lemma total_of_le P R l : (forall e, e ∈ l -> 0 <= sp_bytes e) -> (forall e, e ∈ l -> P e = true -> R e = true) ->
  total_of P l <= total_of R l.
Proof.
  induction l as [|e l IH]; intros H0 Hpr; [done|]. change (e :: l) with ([e] ++ l). rewrite !total_of_app, !total_of_one.
  specialize (IH (fun x Hx => H0 x (list_elem_of_further _ _ _ Hx)) (fun x Hx => Hpr x (list_elem_of_further _ _ _ Hx))).
  specialize (H0 e (list_elem_of_here _ _)). specialize (Hpr e (list_elem_of_here _ _)). destruct (P e); [rewrite Hpr by done; lia|].
  destruct (R e); lia.
Qed.

Lemma total_of_or P R S l : (forall e, e ∈ l -> 0 <= sp_bytes e) -> (forall e, e ∈ l -> P e = true -> R e = true \/ S e = true) ->
  total_of P l <= total_of R l + total_of S l.
Proof.
  induction l as [|e l IH]; intros H0 Hpr; [done|]. change (e :: l) with ([e] ++ l). rewrite !total_of_app, !total_of_one.
  specialize (IH (fun x Hx => H0 x (list_elem_of_further _ _ _ Hx)) (fun x Hx => Hpr x (list_elem_of_further _ _ _ Hx))).
  specialize (H0 e (list_elem_of_here _ _)). specialize (Hpr e (list_elem_of_here _ _)).
  destruct (P e), (R e), (S e); lia.
Qed.

Definition in_window (w : Z) (e : Spent) : bool := sp_window e =? w.

Record metered (L : list Spent) (c : SendCache) : Prop := {
  mt_current : total_of (in_window (repair_window_start c)) L <= repair_spent c;
  mt_spent w : total_of (in_window w) L <= repair_bytes_per_window (policy c);
  mt_entry e : e ∈ L -> 0 <= sp_bytes e /\ sp_window e <= sp_time e < sp_window e + repair_window_micros (policy c)
               /\ (sp_window e = repair_window_start c \/ sp_window e + repair_window_micros (policy c) <= repair_window_start c);
  mt_apart e e' : e ∈ L -> e' ∈ L -> sp_window e = sp_window e'
                  \/ sp_window e + repair_window_micros (policy c) <= sp_window e' \/ sp_window e' + repair_window_micros (policy c) <= sp_window e
}.

Lemma total_of_none P l : (forall e, e ∈ l -> P e = false) -> total_of P l = 0.
Proof.
  intros Hp. unfold total_of. rewrite filter_none; [done|]. intros e He. rewrite Hp by done. done.
Qed.

Lemma metered_current L c start spent : inv (fun _ _ => True) c -> metered L c ->
  (start = repair_window_start c /\ repair_spent c <= spent
   \/ repair_window_start c + repair_window_micros (policy c) <= start /\ 0 <= spent) ->
  total_of (in_window start) L <= spent.
Proof.
  intros Hi [M1 M2 M3 M4] Hcase. pose proof (sender_policy_bounds _ _ (iv_policy _ _ Hi)) as Hb.
  destruct Hcase as [[-> ?]|[? ?]]; [lia|]. rewrite total_of_none; [done|]. intros e He. specialize (M3 e He).
  unfold in_window. apply Z.eqb_neq. lia.
Qed.

(** The window moves on, or is refilled. *)
Lemma metered_move L c c' : inv (fun _ _ => True) c -> metered L c -> policy c' = policy c ->
  (repair_window_start c' = repair_window_start c /\ repair_spent c <= repair_spent c'
   \/ repair_window_start c + repair_window_micros (policy c) <= repair_window_start c' /\ 0 <= repair_spent c') ->
  metered L c'.
Proof.
  intros Hi Hm Hp Hcase. pose proof (metered_current L c _ _ Hi Hm Hcase) as Hcur. destruct Hm as [M1 M2 M3 M4].
  pose proof (sender_policy_bounds _ _ (iv_policy _ _ Hi)) as Hb. split; rewrite ?Hp; try done.
  - intros e He. specialize (M3 e He). lia.
Qed.

Lemma metered_add L c e : metered L c -> 0 <= sp_bytes e -> sp_window e = repair_window_start c ->
  sp_window e <= sp_time e < sp_window e + repair_window_micros (policy c) ->
  total_of (in_window (repair_window_start c)) L + sp_bytes e <= repair_spent c ->
  repair_spent c <= repair_bytes_per_window (policy c) -> metered (L ++ [e]) c.
Proof.
  intros [M1 M2 M3 M4] H0 Hw Ht Hs Hb. split.
  - rewrite total_of_app, total_of_one. unfold in_window at 2. destruct (_ =? _); lia.
  - intros w. rewrite total_of_app, total_of_one. unfold in_window at 2. specialize (M2 w). destruct (Z.eqb_spec (sp_window e) w) as [<-|]; [|lia].
    rewrite Hw in *. lia.
  - intros x [Hx|Hx%list_elem_of_singleton]%elem_of_app; [by apply M3|]. subst x. auto.
  - intros x y [Hx|Hx%list_elem_of_singleton]%elem_of_app [Hy|Hy%list_elem_of_singleton]%elem_of_app; subst; auto;
      [specialize (M3 x Hx)|specialize (M3 y Hy)]; lia.
Qed.

(** Any interval of one window's length touches at most two windows. *)
Lemma metered_rate L c t : metered L c ->
  total_of (fun e => (t <=? sp_time e) && (sp_time e <? t + repair_window_micros (policy c))) L
  <= 2 * repair_bytes_per_window (policy c).
Proof.
  intros [M1 M2 M3 M4]. set (W := repair_window_micros (policy c)) in *. set (B := repair_bytes_per_window (policy c)) in *.
  assert (forall P, (forall e e', e ∈ L -> e' ∈ L -> P e = true -> P e' = true -> sp_window e = sp_window e') -> total_of P L <= B) as Hone.
  { intros P HP. destruct (decide (Exists (fun e => P e = true) L)) as [Hex|Hno].
    - apply Exists_exists in Hex as (e & He & Hpe). etrans; [|apply (M2 (sp_window e))]. apply total_of_le; [intros x Hx; apply (M3 x Hx)|].
      intros x Hx Hpx. unfold in_window. apply Z.eqb_eq. by apply HP.
    - rewrite total_of_none; [specialize (M2 0); pose proof (total_of_le (fun _ => false) (in_window 0) L (fun x Hx => proj1 (M3 x Hx)) ltac:(done));
        rewrite total_of_none in H by done; lia|].
      intros e He. apply not_true_iff_false. intros Hpe. apply Hno, Exists_exists. by exists e. }
  etrans; [apply (total_of_or _ (fun e => (t <=? sp_time e) && (sp_time e <? t + W) && (sp_window e <=? t))
                               (fun e => (t <=? sp_time e) && (sp_time e <? t + W) && negb (sp_window e <=? t)))|].
  - intros e He. apply (M3 e He).
  - intros e He Hp. rewrite Hp. destruct (_ <=? t); auto.
  - assert (forall a b, a <= B -> b <= B -> a + b <= 2 * B) as Hadd by lia. apply Hadd; apply Hone; intros e e' He He' H1 H2;
      pose proof (M3 e He); pose proof (M3 e' He'); destruct (M4 e e' He He') as [?|[?|?]]; try done; lia.
Qed.

Section metered_run.
Context `{SendLayout}.

Fixpoint repair_log (ks : list Call) (c : SendCache) : list Spent :=
  match ks with
  | [] => []
  | k :: ks => let (o, c') := call k c in repair_entry k o c' ++ repair_log ks c'
  end.

Lemma metered_call L k c : inv (fun _ _ => True) c -> metered L c -> call_typed k c ->
  metered (L ++ repair_entry k (fst (call k c)) (snd (call k c))) (snd (call k c)).
Proof.
  intros Hi Hm Hty. pose proof (call_spec (fun _ _ => True) k c Hi Hty ltac:(done)) as Hok.
  set (o := fst (call k c)) in *. set (c' := snd (call k c)) in *. destruct (co_fixed _ _ _ _ _ Hok) as (_ & _ & Hpol).
  destruct (co_window _ _ _ _ _ Hok) as (spent & Hcase & Hsp & Htime). pose proof (iv_spent _ _ Hi) as Hs.
  pose proof (iv_spent _ _ (co_inv _ _ _ _ _ Hok)) as Hs'.
  assert (0 <= repair_bytes o) as H0.
  { destruct o as [[offer b]|] eqn:Eo; [|done]. cbn. destruct (co_packet _ _ _ _ _ Hok _ eq_refl) as (now & c1 & _ & _ & _ & Hlen & _).
    destruct (purpose offer); lia. }
  pose proof (metered_move L c c' Hi Hm Hpol) as Hmv. assert (metered L c') as Hm' by (apply Hmv; lia).
  assert (total_of (in_window (repair_window_start c')) L <= spent) as Hcur.
  { apply (metered_current L c); [done|done|lia]. }
  unfold repair_entry. destruct o as [[offer b]|] eqn:Eo; [|by rewrite app_nil_r].
  destruct (Htime ltac:(done)) as (now & -> & Hn). destruct (purpose offer) eqn:Ep; [by rewrite app_nil_r| |by rewrite app_nil_r].
  cbn [repair_bytes] in *. rewrite Ep in *. apply metered_add; cbn [sp_bytes sp_window sp_time]; try done; try lia. by rewrite Hpol.
Qed.

Lemma metered_run ks : forall L c, inv (fun _ _ => True) c -> metered L c -> run_typed ks c ->
  metered (L ++ repair_log ks c) (snd (run ks c)).
Proof.
  induction ks as [|k ks IH]; intros L c Hi Hm Hty; [by rewrite app_nil_r|]. destruct Hty as [Ht Hty]. cbn [repair_log run].
  pose proof (metered_call L k c Hi Hm Ht) as Hr. pose proof (co_inv _ _ _ _ _ (call_spec (fun _ _ => True) k c Hi Ht ltac:(done))) as Hi'.
  destruct (call k c) as [o c']. cbn [fst snd] in *. specialize (IH _ c' Hi' Hr Hty). rewrite <- app_assoc in IH.
  by destruct (run ks c').
Qed.

End metered_run.

End SenderHistory.
