(* ===== verification/Network.v ===== *)
(** * A sender and a receiver across a network

    A [SendCache] and a [ReceivePipeline] that agree on their limits, joined by a
    network that may lose, repeat, delay and reorder records: what is decoded is what
    was pushed.  Neither side's proof looks into the other: the sender's records are
    pieces of pushed pictures, which is all the receiver's theorem asks. *)

From S2P Require Import Prelude.
From S2P Require Import Bytes.
From S2P Require Import Limits.
From S2P Require Import WireRecord.
From S2P Require Import WireRecordProps.
From S2P Require Import WireMedia.
From S2P Require Import WireMediaProps.
From S2P Require Import Delivery.
From S2P Require Import Assembly.
From S2P Require Import AssemblyClaims.
From S2P Require Import Receiver.
From S2P Require Import ReceiverInv.
From S2P Require Import ReceiverSteps.
From S2P Require Import ReceiverSession.
From S2P Require Import ReceiverClaims.
From S2P Require Import Sender.
From S2P Require Import SenderInv.
From S2P Require Import SenderPackets.
From S2P Require Import SenderMethods.
From S2P Require Import SenderSession.

Module Network.
Import Media MediaProps Delivery Assembly AssemblyProps AssemblyClaims Receiver ReceiverInv ReceiverSteps ReceiverSession
  ReceiverClaims.

(** ** The sender's side *)

(** The pictures the calls bring, by frame number. *)
Definition pushes (ks : list SenderSession.Call) : list (Z * bytes) := omap SenderSession.brings ks.
(** A frame number names one picture. *)
Definition consistent (pictures : list (Z * bytes)) : Prop :=
  forall f b b', (f, b) ∈ pictures -> (f, b') ∈ pictures -> b = b'.

Section network.
Context `{Sender.SendLayout}.

(** The records a run writes, with their channels. *)
Definition record_sent (pk : Sender.packet) : Channel * bytes :=
  (Sender.po_channel (fst pk), take (Z.to_nat (Sender.byte_len (fst pk))) (snd pk)).
Definition records_sent (ks : list SenderSession.Call) (c : Sender.SendCache) : list (Channel * bytes) :=
  record_sent <$> fst (SenderSession.run ks c).

Lemma sender_run Q ks : forall c, SenderInv.inv Q c -> SenderSession.run_typed ks c ->
  (forall k f b, k ∈ ks -> SenderSession.brings k = Some (f, b) -> Q f b) ->
  SenderInv.inv Q (snd (SenderSession.run ks c))
  /\ Sender.limits (snd (SenderSession.run ks c)) = Sender.limits c
  /\ forall pk, pk ∈ fst (SenderSession.run ks c) ->
       exists c1, SenderInv.inv Q c1 /\ Sender.limits c1 = Sender.limits c /\ SenderPackets.sends Q c1 pk.
Proof.
  induction ks as [|k ks IH]; intros c Hi Hty HQ; [by split_and!; [..|intros pk ?%not_elem_of_nil]|].
  destruct Hty as [Ht Hty].
  pose proof (SenderSession.call_spec Q k c Hi Ht (fun f b => HQ k f b (list_elem_of_here _ _))) as Hc.
  cbn. destruct (SenderSession.call k c) as [o c'] eqn:Ec. cbn [fst snd] in *.
  destruct (IH c' (SenderSession.co_inv _ _ _ _ _ Hc) Hty) as (I1 & I2 & I3).
  { intros k' f b Hk'. apply HQ. by right. }
  destruct (SenderSession.co_fixed _ _ _ _ _ Hc) as (F1 & F2 & F3).
  destruct (SenderSession.run ks c') as [os c'']. cbn [fst snd] in *. split_and!; [done|congruence|].
  intros pk [Hpk|Hpk]%elem_of_app.
  - destruct o as [pk'|]; [|by apply not_elem_of_nil in Hpk]. apply list_elem_of_singleton in Hpk as ->.
    destruct (SenderSession.co_packet _ _ _ _ _ Hc pk' eq_refl) as (now & c1 & _ & Htk & Hs).
    exists c1. split_and!; [apply Htk| |done]. rewrite (SenderInv.tk_state _ _ _ _ Htk). apply SenderInv.swept_steady.
  - destruct (I3 pk Hpk) as (c1 & ? & ? & ?). exists c1. split_and!; [done|congruence|done].
Qed.

(** ** The record between them *)

(** A receiver, under whatever bindings it has, reads a sent record as a piece or an
    announcement of the host's picture of its frame, or not at all. *)
Lemma carries_admissible (Q : Z -> bytes -> Prop) src l b b' ch pk :
  limits_ok l -> bindings_ok b -> bindings_ok b' -> (forall f picture, Q f picture -> src f = picture) ->
  SenderPackets.carries Q l b ch pk ->
  admissible (okd := true_descriptor src) (okf := true_fragment src) (okc := true_chunk src) l b' ch pk.
Proof.
  intros Hl Hb Hb' Hsrc [f picture Ht Hv HQ Hlen Hf|k picture Ht Hv Hfit HQ Hlen Hk|p (Pt & Pv & picture & HQ & Hlen)];
    cbn [admissible].
  - intros f' Hd. destruct (Hb Video) as [B1 B2], (Hb' Video) as [B3 B4].
    destruct (fragment_facts f l Hl Ht Hv) as (_ & _ & _ & Hbody & Hfit).
    rewrite (SenderPackets.read_by_its_binding l _ _ _ _ _ _ _ _ _ f f' (fragment_codec l _ Hl B1 B2) (fragment_codec l _ Hl B3 B4)
      B1 B3 Hbody Ht Hv Hfit Hd). pose proof (Hsrc _ _ HQ) as Hs. split; [by unfold true_descriptor; rewrite Hs|by rewrite Hs].
  - intros k' Hd. destruct (Hb RecoveryChannel) as [B1 B2], (Hb' RecoveryChannel) as [B3 B4].
    destruct (chunk_data k l Hl Ht Hv) as (Hbody & _ & _).
    rewrite (SenderPackets.read_by_its_binding l _ _ _ _ _ _ _ _ _ k k' (recovery_codec l _ Hl B1 B2) (recovery_codec l _ Hl B3 B4)
      B1 B3 Hbody Ht Hv Hfit Hd). pose proof (Hsrc _ _ HQ) as Hs. split; [by rewrite Hs|by rewrite Hs].
  - intros p' Hd. destruct (Hb MediaConfig) as [B1 B2], (Hb' MediaConfig) as [B3 B4].
    rewrite (SenderPackets.read_by_its_binding l _ _ _ _ _ _ _ _ _ p p' (progress_codec l _ Hl B1 B2) (progress_codec l _ Hl B3 B4)
      B1 B3 (proj1 (progress_body_ok p)) Pt Pv (SenderPackets.progress_fits l p Hl) Hd).
    unfold true_descriptor. by rewrite (Hsrc _ _ HQ).
Qed.

(** ** The receiver's side *)

(** Every record that arrives was sent; which, how often and in what order is the
    network's choice. *)
Definition delivers (sent : list (Channel * bytes)) (cs : list Call) : Prop :=
  forall al ch packet now, CReceive al ch packet now ∈ cs -> (ch, packet) ∈ sent.

Context `{Layout}.

Lemma call_limits c s : limits (config (rx (snd (call c s)))) = limits (config (rx s)).
Proof.
  pose proof (call_chain c s) as Hc. destruct (call c s) as [[p|] s']; cbn [snd].
  - destruct Hc as (now & _ & Ht). pose proof (ReceiverChain.take_chain now (rx s)) as Htc. rewrite Ht in Htc. apply Htc.
  - destruct Hc as [(_ & ? & _)|(_ & _ & _ & _ & _ & ?)]; done.
Qed.

Lemma delivered_truthful (Q : Z -> bytes -> Prop) src sent l b0 n0 cs : limits_ok l ->
  (forall f picture, Q f picture -> src f = picture) ->
  (forall ch pk, (ch, pk) ∈ sent -> exists b, bindings_ok b /\ SenderPackets.carries Q l b ch pk) ->
  forall s, session_inv (Q := fun _ => True) b0 n0 s -> limits (config (rx s)) = l -> typed_run cs s -> delivers sent cs ->
  truthful src cs s.
Proof.
  intros Hl Hsrc Hsent. induction cs as [|c cs IH]; intros s Hs Hlim Hok Hdel; [done|]. destruct Hok as (Hty & Had & Hok).
  pose proof (call_inv _ _ c s Hs Hty Had) as [Hs' _].
  split; [done|]. split.
  - destruct c as [al ch packet now| | | | | | | | | |]; try done. cbn [call_admissible].
    destruct (Hsent ch packet) as (b & Hb & Hca); [apply (Hdel al ch packet now), list_elem_of_here|].
    rewrite Hlim. eapply carries_admissible; [done|exact Hb| |exact Hsrc|exact Hca]. apply (proj1 (si_receiver _ _ _ Hs)).
  - apply IH; [done|by rewrite call_limits|done|]. intros al ch packet now Hin. apply (Hdel al ch packet now). by right.
Qed.

(** The picture of a frame, among those pushed. *)
Definition source (pictures : list (Z * bytes)) (f : Z) : bytes :=
  default [] (snd <$> find_first (fun x => fst x =? f) pictures).

Lemma source_spec pictures f : source pictures f = [] \/ (f, source pictures f) ∈ pictures.
Proof.
  unfold source. induction pictures as [|[g b] l IH]; cbn [find_first]; [by left|]. cbn [fst].
  destruct (Z.eqb_spec g f) as [->|]; [right; cbn; left|]. destruct IH as [?|?]; [by left|right; by right].
Qed.

Lemma source_consistent pictures f b : consistent pictures -> (f, b) ∈ pictures -> source pictures f = b.
Proof.
  intros Hc Hin. destruct (find_first (fun x => fst x =? f) pictures) as [[g b']|] eqn:E.
  - unfold source. rewrite E. cbn. pose proof (find_first_Some _ _ _ E) as [Hin' Hg]. cbn in Hg. apply Z.eqb_eq in Hg as ->.
    by apply (Hc f).
  - exfalso. pose proof (proj1 (find_first_None _ _) E _ Hin) as Hf. cbn in Hf. rewrite Z.eqb_refl in Hf. done.
Qed.

(** C8. What is decoded is what was pushed.  A sending cache and a receiver that were
    made with the same limits are each driven by any sequence of calls, and every
    record that reaches the receiver is one the cache wrote, lost, repeated, late
    and out of order as the network pleases, across losses of reference, recoveries
    and replacements on either side.  Provided the host uses a frame number for one
    picture only, every picture handed to the decoder is, byte for byte, the
    picture that was pushed under its frame number. *)
Theorem decoded_pictures_were_pushed owner e policy bind c0 ks cfg budget l r cs p :
  SenderSession.started owner (limits cfg) bind e policy c0 -> SenderSession.run_typed ks c0 -> consistent (pushes ks) ->
  started cfg budget l r -> typed_run cs (mk_session r []) -> delivers (records_sent ks c0) cs ->
  p ∈ fst (run cs (mk_session r [])) -> (frame (pic_descriptor p), pic_bytes p) ∈ pushes ks.
Proof.
  intros Hss Hty Hcon Hst Hok Hdel. set (Q := fun f b => (f, b) ∈ pushes ks).
  destruct (sender_run Q ks c0 (SenderSession.sender_started_inv Q _ _ _ _ _ _ Hss) Hty) as (_ & _ & Hsent).
  { intros k f b Hk Hb. unfold Q, pushes. apply list_elem_of_omap. by exists k. }
  assert (Sender.limits c0 = limits cfg) as Hlim.
  { destruct Hss as [_ _ _ Hn]. unfold Sender.new in Hn. destruct (Sender.validate_send_policy _ _); [|done]. by injection Hn as <-. }
  assert (truthful (source (pushes ks)) cs (mk_session r [])) as Htrue.
  { eapply (delivered_truthful Q); [apply Hst|intros f b; by apply source_consistent| | | |exact Hok|exact Hdel].
    - intros ch pk Hin. unfold records_sent in Hin. apply list_elem_of_fmap in Hin as (x & E & Hx).
      destruct (Hsent x Hx) as (c1 & Hi & Hl1 & Hs). destruct x as [o out]. destruct Hs as [Hs _]. injection E as -> ->. exists (Sender.bindings c1).
      split; [apply Hi|]. by rewrite <- Hlim, <- Hl1.
    - by eapply started_inv.
    - destruct Hst as [_ _ _ Hn]. unfold new in Hn. destruct (validate_policy _); [|done]. cbn in Hn.
      destruct (negb _); [done|]. by injection Hn as <-. }
  intros Hp. destruct (run_pictures _ _ _ (fun c s p Hs Hp => take_source (source (pushes ks)) _ _ c s p Hs Hp) cs _
    (started_inv (holds_source (source (pushes ks))) cfg budget l r Hst) Htrue p Hp) as [Hb Hne].
  destruct (source_spec (pushes ks) (frame (pic_descriptor p))) as [E|Hin]; [by rewrite E in Hb|by rewrite Hb].
Qed.

End network.

(** ** A concrete exchange *)

#[local] Instance demo_send_layout : Sender.SendLayout.
Proof. refine {| Sender.picture_struct_bytes := 100 |}. done. Defined.

Definition demo_epoch : MediaEpoch := epoch demo_config.
Definition demo_sender : Sender.SendCache :=
  Sender.mk_cache 5 demo_limits (bindings demo_config) demo_epoch Sender.default_policy (replicate 64 None) 0 0
    None None None None 0 0 false false None None (replicate 16 None) None.
Definition demo_progress (d : FrameDescriptor) : Progress := mk_progress d (capture_micros d) Captured Running.
Definition demo_sends : list SenderSession.Call :=
  [SenderSession.Push (demo_progress (mk_descriptor 1 10 7 900 None)) (demo_src 1) 16 Sender.RecoveryMode 950;
   SenderSession.NextPacket 951 (zeros 80); SenderSession.NextPacket 952 (zeros 80);
   SenderSession.Push (demo_progress demo_second) demo_picture 32 Sender.Datagrams 1001;
   SenderSession.NextPacket 1002 (zeros 80); SenderSession.NextPacket 1003 (zeros 80);
   SenderSession.NextPacket 1004 (zeros 80); SenderSession.NextPacket 1005 (zeros 80)].
Definition demo_records : list (Channel * bytes) := Eval vm_compute in records_sent demo_sends demo_sender.
Definition demo_record (i : nat) (now : Z) : Call :=
  match demo_records !! i with Some (ch, pk) => CReceive exact_allocator ch pk now | None => CTick now end.
(** The announcements are lost; the fragments arrive in reverse, one of them twice. *)
Definition demo_receives : list Call :=
  [CDecoderConfigured 2000; demo_record 1 2001; CTakeDecodable 2002; CAcknowledgeDecode 0 true 2003;
   demo_record 5 2004; demo_record 4 2005; demo_record 5 2006; demo_record 3 2007; CTakeDecodable 2008].

Lemma demo_sender_made : SenderSession.started 5 demo_limits (bindings demo_config) demo_epoch Sender.default_policy demo_sender.
Proof.
  split; [apply demo_limits_ok| |by vm_compute|vm_compute; reflexivity]. intros []; split; vm_compute; done.
Qed.

Lemma sender_typed_step k ks c c' : SenderSession.call_typed k c -> snd (SenderSession.call k c) = c' ->
  SenderSession.run_typed ks c' -> SenderSession.run_typed (k :: ks) c.
Proof. intros ? <- ?. done. Qed.

Lemma demo_sends_typed : SenderSession.run_typed demo_sends demo_sender.
Proof.
  unfold demo_sends. do 8 (eapply sender_typed_step;
    [split; [vm_compute; reflexivity|repeat split; vm_compute; try discriminate; repeat constructor; discriminate]
    |vm_compute; reflexivity|]). exact I.
Qed.

Lemma demo_receives_typed : typed_run (H := demo_layout) demo_receives demo_start.
Proof. unfold typed_run, demo_receives, demo_record. cbn [lookup list_lookup demo_records]. do 9 run_step. exact I. Qed.

Lemma decoded_pictures_were_pushed_witness :
  exists p, fst (run (H := demo_layout) demo_receives demo_start) !! 1%nat = Some p
    /\ frame (pic_descriptor p) = 2 /\ (frame (pic_descriptor p), pic_bytes p) ∈ pushes demo_sends.
Proof.
  eexists. split; [vm_compute; reflexivity|]. split; [reflexivity|].
  apply (decoded_pictures_were_pushed (H := demo_send_layout) (H0 := demo_layout) 5 demo_epoch Sender.default_policy
    (bindings demo_config) demo_sender demo_sends demo_config 7 demo_ledger demo_receiver demo_receives).
  - apply demo_sender_made.
  - apply demo_sends_typed.
  - intros f b b' Hb Hb'. cbn in Hb, Hb'. rewrite !elem_of_cons, elem_of_nil in Hb, Hb'. naive_solver.
  - apply demo_started.
  - apply demo_receives_typed.
  - intros al ch packet now Hin. unfold demo_receives, demo_record in Hin. cbn [lookup list_lookup demo_records] in Hin.
    rewrite !elem_of_cons, elem_of_nil in Hin. change (records_sent demo_sends demo_sender) with demo_records.
    destruct_or! Hin; try discriminate Hin; try done; injection Hin as -> -> -> ->; apply list_elem_of_In; cbn; tauto.
  - apply (list_elem_of_lookup_2 _ 1). vm_compute. reflexivity.
Defined.

End Network.
