(* ===== verification/SenderClaims.v ===== *)
(** * The sending cache: its theorems

    What holds of a [SendCache] over any sequence of calls, whatever the network, the
    viewer's requests and the clock bring. *)

From Stdlib Require Import Sorting.Sorted.
From S2P Require Import Prelude.
From S2P Require Import Bytes.
From S2P Require Import Limits.
From S2P Require Import WireRecord.
From S2P Require Import WireRecordProps.
From S2P Require Import WireMedia.
From S2P Require Import WireMediaProps.
From S2P Require Import Delivery.
From S2P Require Import Assembly.
From S2P Require Import RepairProps.
From S2P Require Import AssemblyClaims.
From S2P Require Import ReceiverInv.
From S2P Require Import ReceiverClaims.
From S2P Require Import Sender.
From S2P Require Import SenderInv.
From S2P Require Import SenderPackets.
From S2P Require Import SenderMethods.
From S2P Require Import SenderSession.
From S2P Require Import SenderHistory.
From S2P Require Import Network.

Module SenderClaims.
Import Media MediaProps Delivery RepairProps Sender SenderInv SenderRepair SenderPackets SenderSteps SenderMethods.
Import SenderSession SenderDrain SenderHistory.

(** ** Lemmas on runs *)

Section runs.
Context `{SendLayout}.

Lemma snd_run_cons k ks c : snd (run (k :: ks) c) = snd (run ks (snd (call k c))).
Proof. cbn. destruct (call k c) as [o c1]. cbn. by destruct (run ks c1). Qed.

Lemma run_app ks1 ks2 c : snd (run (ks1 ++ ks2) c) = snd (run ks2 (snd (run ks1 c))).
Proof. revert c. induction ks1 as [|k ks1 IH]; intros c; [done|]. cbn [app]. by rewrite !snd_run_cons, IH. Qed.

Lemma run_typed_app ks1 ks2 c : run_typed (ks1 ++ ks2) c <-> run_typed ks1 c /\ run_typed ks2 (snd (run ks1 c)).
Proof.
  revert c. induction ks1 as [|k ks1 IH]; intros c; [cbn; tauto|]. cbn [app run_typed]. rewrite snd_run_cons, IH. tauto.
Qed.

Lemma sender_reachable_run ks : forall c, reachable c -> run_typed ks c -> reachable (snd (run ks c)).
Proof.
  induction ks as [|k ks IH]; intros c Hr Hty; [done|]. destruct Hty as [Ht Hty]. rewrite snd_run_cons.
  apply IH; [by apply reachable_call|done].
Qed.

Lemma reachable_ok c k : reachable c -> call_typed k c -> call_ok (fun _ _ => True) k c (fst (call k c)) (snd (call k c)).
Proof. intros Hr Ht. by apply call_spec; [apply sender_reachable_inv| |]. Qed.

Lemma started_policy o l b e p c : started o l b e p c -> policy c = p.
Proof. intros [_ _ _ Hn]. unfold new in Hn. destruct (validate_send_policy p l); [|done]. by injection Hn as <-. Qed.

Lemma run_policy ks : forall c, inv (fun _ _ => True) c -> run_typed ks c -> policy (snd (run ks c)) = policy c.
Proof.
  induction ks as [|k ks IH]; intros c Hi Hty; [done|]. destruct Hty as [Ht Hty].
  pose proof (call_spec (fun _ _ => True) k c Hi Ht ltac:(done)) as Hok. rewrite snd_run_cons, IH; [apply Hok|apply Hok|done].
Qed.

(** Generations only move forward. *)
Definition no_older (e e' : MediaEpoch) : Prop := e' = e \/ replaces e' e = true.

Lemma no_older_trans e1 e2 e3 : no_older e1 e2 -> no_older e2 e3 -> no_older e1 e3.
Proof.
  unfold no_older, replaces. intros [->|H1]; [done|]. intros [->|H2]; [by right|]. right.
  destruct e1, e2, e3; cbn in *. lia.
Qed.

Lemma no_older_antisym e1 e2 : no_older e1 e2 -> no_older e2 e1 -> e1 = e2.
Proof.
  unfold no_older, replaces. intros [->|H1]; [done|]. intros [->|H2]; [done|].
  destruct e1, e2; cbn in *. lia.
Qed.

Lemma call_generation k c : reachable c -> call_typed k c -> no_older (epoch c) (epoch (snd (call k c))).
Proof.
  intros Hr Ht. destruct (co_generation _ _ _ _ _ (reachable_ok c k Hr Ht)) as [[-> _]|(e & b & now & _ & Hp)]; [by left|].
  destruct (rp_newer _ _ _ _ _ Hp) as [Hn _], (rp_identity _ _ _ _ _ Hp) as [-> _]. by right.
Qed.

Lemma run_generation ks : forall c, reachable c -> run_typed ks c -> no_older (epoch c) (epoch (snd (run ks c))).
Proof.
  induction ks as [|k ks IH]; intros c Hr Hty; [by left|]. destruct Hty as [Ht Hty]. rewrite snd_run_cons.
  eapply no_older_trans; [by apply call_generation|]. apply IH; [by apply reachable_call|done].
Qed.

(** A stopped cache stays stopped until it is replaced. *)
Lemma run_stopped ks : forall c, reachable c -> run_typed ks c -> stopped c = true ->
  closed c = true \/ (forall e b now, Replace e b now ∉ ks) ->
  stopped (snd (run ks c)) = true /\ fst (run ks c) = [].
Proof.
  induction ks as [|k ks IH]; intros c Hr Hty Hst Hno; [done|]. destruct Hty as [Ht Hty].
  pose proof (reachable_ok c k Hr Ht) as Hok. pose proof (reachable_call c k Hr Ht) as Hr'.
  destruct (co_stopped _ _ _ _ _ Hok Hst) as [Ho Hs]. pose proof (co_closed _ _ _ _ _ Hok) as Hc.
  cbn [run]. destruct (call k c) as [o c1]. cbn [fst snd] in *. subst o.
  destruct (IH c1) as [I1 I2]; try done.
  - destruct Hs as [?|(e & b & now & -> & Hcl)]; [done|]. destruct Hno as [Hno|Hno]; [congruence|].
    exfalso. eapply Hno. apply list_elem_of_here.
  - destruct Hno as [Hno|Hno]; [left; by apply Hc|right]. intros e b now Hin. apply (Hno e b now). by right.
  - by destruct (run ks c1).
Qed.
End runs.

(** ** Theorems *)

Section claims.
Context `{SendLayout}.

(** C28. The state of a sending cache is well formed after any calls.  It has 64 slots,
    no two pictures with one frame number, and what it says it uses is what its
    pictures are charged, which is at least their bytes and at most the policy's
    bound, itself at most what one viewer may hold.  Every cached picture passed
    the wire's validation, is as long as it announces, has a fragment count (the
    code's [expect] cannot fail), its cursor and its repair job lie within its
    fragments, and nothing of it is repaired before it was announced.  The repair
    allowance is never exceeded, and a cache that has stopped holds nothing. *)
Theorem sender_state_is_valid c : reachable c ->
  length (cached c) = 64%nat /\ NoDup (cp_frame <$> stored c)
  /\ foldr (fun p n => Z.of_nat (length (contents (cp_bytes p))) + n) 0 (stored c) <= c_used_bytes c
  /\ c_used_bytes c = charges (stored c)
  /\ c_used_bytes c <= max_cached_bytes (policy c) <= Limits.per_viewer_compressed_bytes (protocol (limits c))
  /\ c_used_pictures c = Z.of_nat (length (stored c)) /\ c_used_pictures c <= max_cached_pictures (policy c) <= 64
  /\ 0 <= repair_spent c <= repair_bytes_per_window (policy c)
  /\ (stopped c = true -> stored c = [] /\ pending_observation c = None)
  /\ forall p, p ∈ stored c ->
       validate (cp_descriptor p) (limits c) = Ok tt
       /\ Z.of_nat (length (contents (cp_bytes p))) = total_bytes (cp_descriptor p)
       /\ (exists n, fragment_count (cp_descriptor p) = Ok n /\ 0 < n <= fragments (limits c))
       /\ 0 <= next_original p <= originals p
       /\ (announced p = false -> next_original p = 0 /\ cp_repair p = None)
       /\ (forall j, cp_repair p = Some j -> job_ok (repair_ranges (limits c)) (count_of (cp_descriptor p)) j).
Proof.
  intros Hr%sender_reachable_inv. pose proof (sender_policy_bounds _ _ (iv_policy _ _ Hr)) as Hb.
  pose proof (iv_pictures _ _ Hr) as Hp. split_and!; try apply Hr; try lia.
  - destruct (iv_bytes _ _ Hr) as [-> _]. clear -Hp. induction Hp as [|p l Hp _ IH]; cbn; [done|].
    pose proof (pk_length _ _ Hp). pose proof (pk_charged _ _ Hp). lia.
  - intros p Hin. rewrite Forall_forall in Hp. destruct (Hp p Hin) as [[Ht Ht'] Hv Hby Hlen Hn Ha Hm Hj Hc Hrd].
    split_and!; try done; try apply Hn.
    exists (count_of (cp_descriptor p)). split; [by eapply count_ok|].
    pose proof (stride_fits (cp_descriptor p) (limits c) Ht Hv). lia.
Qed.

(** C29. Everything cached is sent, once, in order, and the sending ends.  After a
    successful [tick], calling [next_packet] with room for a record until nothing
    comes out writes, for the cached pictures by rising frame number, what is left of
    each: its announcement, then its fragments (or, for a recovery picture, its
    chunks) from its cursor to its end; and then the waiting observation.  Nothing is
    lost, repeated or reordered, [work] calls and one more are enough, and the cache
    then has nothing left to send. *)
Theorem drain_sends_everything c c1 now out ps n : reachable c -> 0 <= now -> tick now c = (Ok tt, c1) ->
  record_bytes (limits c) <= Z.of_nat (length out) <= usize_max ->
  ps ≡ₚ stored c1 -> StronglySorted Z.le (cp_frame <$> ps) -> work c1 < Z.of_nat n ->
  exists pks c2, drain n now out c1 = (pks, c2)
    /\ sent <$> pks = concat (script (limits c) (bindings c) <$> ps) ++ observed c1
    /\ originals_pending c2 = false /\ next_packet now out c2 = (Ok None, c2).
Proof.
  intros Hr%sender_reachable_inv Hnow Ht Hout Hps Hsort Hw. pose proof (tick_calm _ now c c1 Hr Hnow Ht) as Hcalm.
  pose proof (sender_tick_spec _ now c Hr Hnow) as Hs. unfold wp in Hs. rewrite Ht in Hs. cbn [fst snd] in Hs.
  destruct (swept_steady now c) as [_ W2 _ _ W5]. rewrite <- (tk_state _ _ _ _ Hs) in W2, W5.
  destruct (drain_spec _ now out Hnow n c1 ps (tk_inv _ _ _ _ Hs) Hcalm) as (pks & c2 & Hd & Hl & _ & _ & Hp & Hn); try done.
  { by rewrite W2. }
  exists pks, c2. rewrite <- W2, <- W5. done.
Qed.

(** A repair request is merged into the repair that is under way without losing
    anything.  When merging succeeds, the new job still covers every fragment that
    was waiting and every fragment asked for, within the same bound on ranges and
    within the picture, and the request asked for something new; it is refused as
    busy exactly when everything it asks for is already waiting. *)
Theorem repair_merging_is_exact maximum total j rs : 0 < maximum <= 64 -> job_ok maximum total j -> request_ok maximum total rs ->
  (exists j', coalesce j rs maximum = Ok j' /\ job_ok maximum total j'
     /\ (forall i, covers (remaining j) i \/ covers rs i -> covers (remaining j') i)
     /\ exists i, covers rs i /\ ~ covers (remaining j) i)
  \/ (coalesce j rs maximum = Err RepairBusy /\ forall i, covers rs i -> covers (remaining j) i).
Proof.
  intros Hm Hj Hr. pose proof (coalesce_spec maximum total j rs Hm Hj Hr) as Hc.
  destruct (coalesce j rs maximum) as [j'|e]; [left; exists j'; tauto|right]. by destruct Hc as [-> Hc].
Qed.

(** Failed generations are rationed.  Over any sequence of calls, the times at which
    a failed generation was charged never decrease, and of any
    [max_recoveries_per_window] + 1 charges in a row the last is at least
    [recovery_window_micros] after the first, however the generations are replaced. *)
Theorem recoveries_are_rationed o l b e p c ks : started o l b e p c -> run_typed ks c ->
  StronglySorted Z.le (charge_times ks c)
  /\ forall i t t', charge_times ks c !! i = Some t ->
       charge_times ks c !! (i + Z.to_nat (max_recoveries_per_window p))%nat = Some t' ->
       recovery_window_micros p <= t' - t.
Proof.
  intros Hst Hty. pose proof (sender_started_inv (fun _ _ => True) _ _ _ _ _ _ Hst) as Hi.
  pose proof (started_policy _ _ _ _ _ _ Hst) as Hp.
  assert (rationed [] c) as H0.
  { split; [constructor|by intros t ?%not_elem_of_nil|intros i t t' Hc; by rewrite lookup_nil in Hc|].
    intros _ T _. rewrite filter_nil. apply submseteq_nil_l. }
  pose proof (rationed_run ks [] c Hi H0 Hty) as [R1 _ R3 _]. cbn [app] in *.
  pose proof (run_policy ks c Hi Hty) as Hpol.
  unfold allowed in R3. rewrite Hpol, Hp in R3. split; [exact R1|]. intros i t t' Ht Ht'. exact (R3 i t t' Ht Ht').
Qed.

(** Repairs are rationed.  Over any sequence of calls, the bytes of the repairs
    written in any interval as long as [repair_window_micros] are at most twice
    [repair_bytes_per_window], and those written while one window of the code is
    current are at most [repair_bytes_per_window], whatever the viewer requests. *)
Theorem repairs_are_rationed o l b e p c ks t : started o l b e p c -> run_typed ks c ->
  total_of (fun s => (t <=? sp_time s) && (sp_time s <? t + repair_window_micros p)) (repair_log ks c)
    <= 2 * repair_bytes_per_window p
  /\ total_of (in_window t) (repair_log ks c) <= repair_bytes_per_window p.
Proof.
  intros Hst Hty. pose proof (sender_started_inv (fun _ _ => True) _ _ _ _ _ _ Hst) as Hi.
  assert (metered [] c) as H0.
  { pose proof (iv_spent _ _ Hi). split; cbn; try lia; by intros s ?%not_elem_of_nil || intros s s' ?%not_elem_of_nil. }
  pose proof (metered_run ks [] c Hi H0 Hty) as Hm. cbn [app] in Hm.
  pose proof (metered_rate _ _ t Hm) as Hrate. pose proof (mt_spent _ _ Hm t) as Hw.
  rewrite (run_policy ks c Hi Hty), (started_policy _ _ _ _ _ _ Hst) in Hrate, Hw. done.
Qed.

(** A stopped cache is silent.  Once a reference was lost or the cache was closed,
    no sequence of calls makes it write a record or take a picture, until it is replaced by a
    newer generation; a closed cache can not be replaced either. *)
Theorem stopped_sender_is_silent c ks : reachable c -> run_typed ks c -> stopped c = true ->
  closed c = true \/ (forall e b now, Replace e b now ∉ ks) ->
  fst (run ks c) = [] /\ stopped (snd (run ks c)) = true
  /\ stored (snd (run ks c)) = [] /\ c_used_bytes (snd (run ks c)) = 0.
Proof.
  intros Hr Hty Hst Hno. destruct (run_stopped ks c Hr Hty Hst Hno) as [Hs Hf].
  pose proof (sender_reachable_inv _ (sender_reachable_run ks c Hr Hty)) as Hi.
  destruct (iv_stopped _ _ Hi Hs) as [He _]. split_and!; try done. destruct (iv_bytes _ _ Hi) as [-> _]. by rewrite He.
Qed.

(** C30. A packet of a replaced generation is never let out.  If a record that some
    call produced is later authorized for writing, then the cache is not stopped, the
    record's deadline has not come, and at no point since it was produced did the
    cache belong to another generation. *)
Theorem superseded_packets_are_not_written c k pk ks now :
  reachable c -> call_typed k c -> fst (call k c) = Some pk -> run_typed ks (snd (call k c)) -> 0 <= now ->
  fst (authorize_write (fst pk) now (snd (run ks (snd (call k c))))) = Ok tt ->
  now < send_by_micros (fst pk) /\ stopped (snd (run ks (snd (call k c)))) = false
  /\ forall before after, ks = before ++ after -> epoch (snd (run before (snd (call k c)))) = epoch c.
Proof.
  intros Hr Hk Hpk Hty Hnow Hok. pose proof (reachable_call c k Hr Hk) as Hr1. pose proof (call_generation k c Hr Hk) as Hg1.
  destruct (co_packet _ _ _ _ _ (reachable_ok c k Hr Hk) pk Hpk) as (now' & c' & _ & Htk & Hs).
  set (c1 := snd (call k c)) in *. pose proof (sender_reachable_run ks c1 Hr1 Hty) as Hr2. set (c2 := snd (run ks c1)) in *.
  pose proof (authorize_spec _ c2 (fst pk) now (sender_reachable_inv _ Hr2) Hnow) as Ha. unfold wp in Ha. rewrite Hok in Ha.
  destruct Ha as (_ & Ha & Hown & Hby). split_and!; [done|apply Ha|].
  assert (epoch c2 = epoch c) as He.
  { unfold own_offer in Hown. apply andb_true_iff in Hown as [_ Hown%bool_decide_eq_true_1]. rewrite Hown.
    destruct pk as [o out]. cbn [fst]. destruct Hs as (_ & _ & _ & ->). rewrite (tk_state _ _ _ _ Htk).
    apply (sd_epoch _ _ (swept_steady now' c)). }
  intros before after ->. apply run_typed_app in Hty as [Hty1 Hty2]. symmetry. apply no_older_antisym.
  - eapply no_older_trans; [exact Hg1|]. by apply run_generation.
  - rewrite <- He. unfold c2. rewrite run_app. apply run_generation; [by apply sender_reachable_run|done].
Qed.
End claims.

(** ** Concrete runs *)

Import AssemblyClaims(demo_config, demo_picture).
Import ReceiverClaims(demo_src, demo_second).
Import Network(demo_sender, demo_epoch, demo_sends, demo_progress, demo_sender_made, demo_sends_typed, sender_typed_step).
#[local] Existing Instance Network.demo_send_layout.

Lemma demo_sends_reachable : reachable (snd (run demo_sends demo_sender)).
Proof. do 7 eexists. split_and!; [apply demo_sender_made|apply demo_sends_typed|reflexivity]. Qed.

Ltac typed_call := split; [vm_compute; reflexivity|hnf;
  first [exact I | intros []; split; vm_compute; done
        | repeat split; vm_compute; try discriminate; repeat constructor; discriminate]].
Ltac typed_calls := repeat (eapply sender_typed_step; [typed_call|vm_compute; reflexivity|]); exact I.

Lemma sender_state_is_valid_witness :
  length (stored (snd (run demo_sends demo_sender))) = 2%nat /\ c_used_pictures (snd (run demo_sends demo_sender)) <= 64.
Proof.
  split; [vm_compute; reflexivity|]. destruct (sender_state_is_valid _ demo_sends_reachable) as (_ & _ & _ & _ & _ & _ & [H1 H2] & _). lia.
Defined.

(** A recovery picture and a picture in three fragments, none of it sent yet. *)
Definition demo_pushes : list Call :=
  [Push (demo_progress (mk_descriptor 1 10 7 900 None)) (demo_src 1) 16 RecoveryMode 950;
   Push (demo_progress demo_second) demo_picture 32 Datagrams 1001].
Definition demo_waiting : SendCache := snd (run demo_pushes demo_sender).
Definition demo_ticked : SendCache := snd (tick 1002 demo_waiting).

Lemma demo_pushes_typed : run_typed demo_pushes demo_sender.
Proof. unfold demo_pushes. typed_calls. Qed.

Lemma drain_sends_everything_witness : exists pks c2, drain 20 1002 (zeros 80) demo_ticked = (pks, c2)
  /\ length pks = 6%nat /\ originals_pending c2 = false.
Proof.
  destruct (drain_sends_everything demo_waiting demo_ticked 1002 (zeros 80) (stored demo_ticked) 20) as (pks & c2 & H1 & H2 & H3 & _).
  - do 7 eexists. split_and!; [apply demo_sender_made|apply demo_pushes_typed|reflexivity].
  - lia.
  - vm_compute. reflexivity.
  - vm_compute. split; discriminate.
  - reflexivity.
  - vm_compute. repeat constructor; discriminate.
  - vm_compute. reflexivity.
  - exists pks, c2. split_and!; [done| |done]. rewrite <- (length_fmap sent), H2. vm_compute. reflexivity.
Defined.

Lemma repair_merging_is_exact_witness :
  (exists j', coalesce (mk_job [mk_range 1 3; mk_range 5 7] 0 2) [mk_range 3 6] 4 = Ok j' /\ covers (remaining j') 4)
  /\ coalesce (mk_job [mk_range 1 3; mk_range 5 7] 0 2) [mk_range 5 6] 4 = Err RepairBusy.
Proof.
  assert (job_ok 4 9 (mk_job [mk_range 1 3; mk_range 5 7] 0 2)) as Hj
    by (split; cbn; [lia|lia|lia|exists (mk_range 1 3); split; [done|cbn; lia]]).
  split.
  - destruct (repair_merging_is_exact 4 9 (mk_job [mk_range 1 3; mk_range 5 7] 0 2) [mk_range 3 6]) as [(j' & E & _ & Hc & _)|[E _]].
    + lia.
    + exact Hj.
    + split; cbn; [done|lia|lia|lia].
    + exists j'. split; [exact E|]. apply Hc. right. exists (mk_range 3 6). split; [left|cbn; lia].
    + exfalso. vm_compute in E. discriminate E.
  - reflexivity.
Defined.

(** A host that may lose one generation per second: it loses two of them. *)
Definition demo_strict : SendPolicy := mk_send_policy 32 (32 * 1024 * 1024) 250000 2000000 10000 3 (1024 * 1024) 250000 1 1000000.
Definition demo_strict_sender : SendCache :=
  mk_cache 5 (limits demo_sender) (bindings demo_sender) demo_epoch demo_strict (replicate 64 None) 0 0
    None None None None 0 0 false false None None (replicate 16 None) None.
Definition demo_failures : list Call :=
  [Push (demo_progress (mk_descriptor 1 10 7 900 None)) (demo_src 1) 16 RecoveryMode 950;
   Tick 3000000; Await 3000001; Replace (mk_epoch 1 1) (mk_bindings 5 6 7 8) 3000002;
   Push (demo_progress (mk_descriptor 2 10 7 3000000 None)) (demo_src 1) 16 RecoveryMode 3000003;
   Tick 6000000; Await 6000001].

Lemma demo_strict_made : started 5 (limits demo_sender) (bindings demo_sender) demo_epoch demo_strict demo_strict_sender.
Proof. destruct demo_sender_made as [H1 H2 _ _]. split; [done|done|by vm_compute|vm_compute; reflexivity]. Qed.

Lemma recoveries_are_rationed_witness : charge_times demo_failures demo_strict_sender = [3000001; 6000001] /\ 1000000 <= 6000001 - 3000001.
Proof.
  split; [vm_compute; reflexivity|].
  destruct (recoveries_are_rationed 5 (limits demo_sender) (bindings demo_sender) demo_epoch demo_strict demo_strict_sender demo_failures)
    as [_ Hr].
  - apply demo_strict_made.
  - unfold demo_failures. typed_calls.
  - apply (Hr 0%nat 3000001 6000001); vm_compute; reflexivity.
Defined.

(** The viewer asks for the first two fragments again. *)
Definition demo_request : bytes :=
  match encode_repair 2 [mk_range 0 2] 3 (for_channel (bindings demo_sender) Control) (limits demo_sender) (zeros 80) with
  | (Ok n, out) => take (Z.to_nat n) out
  | _ => []
  end.
Definition demo_repairs : list Call :=
  demo_sends ++ [QueueRepair demo_request 1100; NextRepair 1101 (zeros 80); NextRepair 1102 (zeros 80)].

Lemma repairs_are_rationed_witness : repair_log demo_repairs demo_sender = [mk_spent 0 1101 80; mk_spent 0 1102 80]
  /\ 160 <= 2 * repair_bytes_per_window default_policy.
Proof.
  split; [vm_compute; reflexivity|].
  destruct (repairs_are_rationed 5 (limits demo_sender) (bindings demo_sender) demo_epoch default_policy demo_sender demo_repairs 1000) as [H _].
  - apply demo_sender_made.
  - unfold demo_repairs, demo_sends. cbn [app]. typed_calls.
  - etrans; [|exact H]. vm_compute. discriminate.
Defined.

Definition demo_lost : SendCache := snd (run [Tick 3000000] demo_waiting).

Lemma stopped_sender_is_silent_witness : stopped demo_lost = true
  /\ fst (run [NextPacket 3000001 (zeros 80); Push (demo_progress demo_second) demo_picture 32 Datagrams 3000002] demo_lost) = [].
Proof.
  split; [vm_compute; reflexivity|].
  apply (stopped_sender_is_silent demo_lost
    [NextPacket 3000001 (zeros 80); Push (demo_progress demo_second) demo_picture 32 Datagrams 3000002]).
  - apply sender_reachable_run; [|typed_calls]. do 7 eexists. split_and!; [apply demo_sender_made|apply demo_pushes_typed|reflexivity].
  - typed_calls.
  - vm_compute. reflexivity.
  - right. intros e b now Hin. apply list_elem_of_In in Hin. cbn in Hin. naive_solver.
Defined.

Definition demo_offer : packet := default (mk_packet Video 0 0 0 (mk_origin 0 demo_epoch) Original, [])
  (fst (call (NextPacket 1002 (zeros 80)) demo_waiting)).

Lemma superseded_packets_are_not_written_witness :
  exists c, fst (authorize_write (fst demo_offer) 1010 c) = Ok tt /\ epoch c = demo_epoch /\ 1010 < send_by_micros (fst demo_offer).
Proof.
  exists (snd (run [NextPacket 1003 (zeros 80)] (snd (call (NextPacket 1002 (zeros 80)) demo_waiting)))).
  split; [vm_compute; reflexivity|].
  destruct (superseded_packets_are_not_written demo_waiting (NextPacket 1002 (zeros 80)) demo_offer [NextPacket 1003 (zeros 80)] 1010) as (H1 & _ & H2).
  - do 7 eexists. split_and!; [apply demo_sender_made|apply demo_pushes_typed|reflexivity].
  - typed_call.
  - vm_compute. reflexivity.
  - typed_calls.
  - lia.
  - vm_compute. reflexivity.
  - split; [|exact H1]. apply (H2 [NextPacket 1003 (zeros 80)] []). reflexivity.
Defined.
End SenderClaims.
