(* ===== verification/Idr.v ===== *)
(** * Intra pictures for a shared encoder

    [IdrCoalescer] of [fr-media/src/delivery/idr.rs], which turns the recovery
    demands of all viewers of one encoder into as few intra pictures as its rate
    allows, and [SourceRecovery] of [frd/src/media/recovery_source.rs], which the
    capture loop asks before each capture. *)

From Stdlib Require Import Sorting.Sorted.
From S2P Require Import Prelude.
From S2P Require Import Delivery.
From S2P Require Import Sender.
From S2P Require Import SenderHistory.

Module Idr.
Import Delivery.
Import Sender(SendCache, RecoveryDemand, d_until, check_demand).
Import SenderHistory(spaced, sorted_snoc).

(** ** The coalescer *)

Record Pending := mk_pending { ready : Z; until : Z; shared_until : Z }.
Record IdrCoalescer := mk_idr {
  interval : Z;
  next_allowed : Z;
  pending : option Pending;
  last_now : option Z;
  closed : bool
}.
#[export] Instance eta_idr : Eta IdrCoalescer := fun q =>
  mk_idr (interval q) (next_allowed q) (pending q) (last_now q) (closed q).

Abbreviation IM := (M IdrCoalescer DeliveryError).
(** A method given by what it returns and leaves behind. *)
Definition method {A} (f : IdrCoalescer -> Result DeliveryError A * IdrCoalescer) : IM A := f.

Definition new (minimum_interval_micros : Z) : Result DeliveryError IdrCoalescer :=
  if negb ((100000 <=? minimum_interval_micros) && (minimum_interval_micros <=? 1000000)) then Err InvalidPolicy
  else Ok (mk_idr minimum_interval_micros 0 None None false).

Definition close (q : IdrCoalescer) : IdrCoalescer := q <| closed := true |> <| pending := None |>.
Definition cancel_pending (q : IdrCoalescer) : IdrCoalescer := q <| pending := None |>.

Definition check_clock (now : Z) : IM unit := fun q =>
  if closed q then (Err WrongState, q)
  else if is_some_and (fun last => now <? last) (last_now q) then (Err ClockRegression, close q)
  else (Ok tt, q <| last_now := Some now |>).

(** The demand joins the pending one, or is the first. *)
Definition coalesce (now u : Z) (q : IdrCoalescer) : IdrCoalescer :=
  q <| pending := Some
         match pending q with
         | Some p =>
             if until p <=? now
             then mk_pending (Z.max now (next_allowed q)) u (Z.max (shared_until p) u)
             else mk_pending (ready p) (Z.min (until p) u) (Z.max (shared_until p) u)
         | None => mk_pending (Z.max now (next_allowed q)) u u
         end |>.

Definition queue (cache : SendCache) (demand : RecoveryDemand) (now : Z) : IM unit :=
  _ ← check_clock now;
  _ ← lift (check_demand demand cache now);
  modify (coalesce now (d_until demand)).

Definition admit_until (now u : Z) : IM (option Z) := fun q =>
  if (now <? next_allowed q) || is_some_and (fun p => now <? ready p) (pending q) then (Ok None, q)
  else
    match deadline now (interval q) with
    | Err e => (Err e, close q)
    | Ok next => (Ok (Some u), q <| next_allowed := next |> <| pending := None |>)
    end.

Definition admit_either (now : Z) (join_until : option Z) : IM (option Z) := fun q =>
  match pending q, join_until with
  | Some p, Some u => admit_until now (Z.min (until p) u) q
  | Some p, None => admit_until now (until p) q
  | None, Some u => admit_until now u q
  | None, None => (Ok None, q)
  end.

Definition take (now : Z) : IM (option Z) :=
  _ ← check_clock now;
  method (fun q =>
    if is_some_and (fun p => until p <=? now) (pending q) then (Err RecoveryExpired, q <| pending := None |>)
    else admit_either now None q).

Definition take_shared (now : Z) : IM (option Z) :=
  _ ← check_clock now;
  method (fun q =>
    match pending q with
    | None => (Ok None, q)
    | Some p =>
        if shared_until p <=? now then (Err RecoveryExpired, q <| pending := None |>)
        else admit_until now (shared_until p) q
    end).

Definition take_for_join (now u : Z) : IM (option Z) :=
  _ ← check_clock now;
  _ ← refuse_if (fun _ => u <=? now) (fun _ => RecoveryExpired);
  method (fun q =>
    admit_either now (Some u)
      (if is_some_and (fun p => until p <=? now) (pending q) then q <| pending := None |> else q)).

Definition next_deadline (q : IdrCoalescer) : option Z :=
  match pending q with
  | Some p => if closed q then None else Some (if ready p <? until p then ready p else until p)
  | None => None
  end.
Definition next_shared_deadline (q : IdrCoalescer) : option Z :=
  match pending q with
  | Some p => if closed q then None else Some (if ready p <? shared_until p then ready p else shared_until p)
  | None => None
  end.

(** ** The capture source *)

(** What a capture does about a join, once recovery demands had their turn. *)
Definition admit_join (now : Z) (join_until : option Z) (shared : bool) (recovery_until : option Z)
  : IM (bool * option Z) := fun q =>
  let shared_waiting := shared && is_some (next_shared_deadline q) in
  let reply (join_idr : bool) := (is_some recovery_until || join_idr, if shared then None else recovery_until) in
  match (if is_some recovery_until || shared_waiting then None
         else match join_until with Some u => if now <? u then Some u else None | None => None end) with
  | Some u =>
      match take_for_join now u q with
      | (Ok taken, q) => (Ok (reply (is_some taken)), q)
      | (Err e, q) => (Err e, q)
      end
  | None => (Ok (reply false), q)
  end.

Definition admit_capture (now : Z) (join_until : option Z) (shared : bool) : IM (bool * option Z) := fun q =>
  match (if shared then take_shared now q else take now q) with
  | (Ok recovery_until, q) => admit_join now join_until shared recovery_until q
  | (Err e, q) =>
      if bool_decide (e = RecoveryExpired) then admit_join now join_until shared None q else (Err e, q)
  end.

(** ** Calls *)

Inductive Op :=
| Queue (cache : SendCache) (demand : RecoveryDemand) (now : Z)
| Take (now : Z)
| TakeShared (now : Z)
| TakeForJoin (now u : Z)
| Capture (now : Z) (join_until : option Z) (shared : bool)
| Retire
| Close.

Definition admitted (now : Z) (o : option Z) : list Z := if o then [now] else [].
Definition reply {A} (f : A -> list Z) (r : Result DeliveryError A * IdrCoalescer) : list Z * IdrCoalescer :=
  (match fst r with Ok a => f a | Err _ => [] end, snd r).

(** The times at which an intra picture was ordered, and the coalescer after it. *)
Definition step (op : Op) (q : IdrCoalescer) : list Z * IdrCoalescer :=
  match op with
  | Queue c d now => ([], snd (queue c d now q))
  | Take now => reply (admitted now) (take now q)
  | TakeShared now => reply (admitted now) (take_shared now q)
  | TakeForJoin now u => reply (admitted now) (take_for_join now u q)
  | Capture now join shared => reply (fun a => if fst a : bool then [now] else []) (admit_capture now join shared q)
  | Retire => ([], cancel_pending q)
  | Close => ([], close q)
  end.

Fixpoint run (ops : list Op) (q : IdrCoalescer) : list Z * IdrCoalescer :=
  match ops with
  | [] => ([], q)
  | op :: ops => let (ts, q) := step op q in let (us, q) := run ops q in (ts ++ us, q)
  end.


(** ** What every call keeps *)

Definition clock (q : IdrCoalescer) : Z := default 0 (last_now q).

Record inv (q : IdrCoalescer) : Prop := {
  iv_interval : 100000 <= interval q <= 1000000;
  iv_next : 0 <= next_allowed q <= clock q + interval q;
  iv_clock : 0 <= clock q;
  iv_pending p : pending q = Some p -> ready p <= Z.max (clock q) (next_allowed q) /\ until p <= shared_until p;
  iv_closed : closed q = true -> pending q = None
}.

(** A call orders the intra pictures [ts], each at the time of the call: it leaves
    the rate credit alone, or finds it and spends it. *)
Record moved (ts : list Z) (q q' : IdrCoalescer) : Prop := {
  mv_inv : inv q';
  mv_interval : interval q' = interval q;
  mv_clock : clock q <= clock q';
  mv_closed : closed q = true -> closed q' = true;
  mv_credit : ts = [] /\ next_allowed q' = next_allowed q
              \/ ts = [clock q'] /\ next_allowed q <= clock q' /\ next_allowed q' = clock q' + interval q
}.

Lemma moved_refl q : inv q -> moved [] q q.
Proof. intros Hi. split; auto; lia. Qed.

Lemma moved_trans ts q1 q2 q3 : moved [] q1 q2 -> moved ts q2 q3 -> moved ts q1 q3.
Proof.
  intros [I1 E1 C1 L1 [[_ N1]|[? _]]] [I2 E2 C2 L2 N2]; [|done]. split; [done|congruence|lia|auto|].
  rewrite <- N1, <- E1. destruct N2 as [[-> N2]|(-> & ? & ?)]; auto.
Qed.

Lemma moved_pending q o : inv q -> (forall p, o = Some p -> ready p <= Z.max (clock q) (next_allowed q) /\ until p <= shared_until p) ->
  (closed q = true -> o = None) -> moved [] q (q <| pending := o |>).
Proof. intros [I1 I2 I3 I4 I5] Ho Hc. split; auto; [by split|done]. Qed.

Lemma moved_close q : inv q -> moved [] q (close q).
Proof. intros [I1 I2 I3 I4 I5]. split; auto; [by split|done]. Qed.

Lemma drop_moved q : inv q -> moved [] q (q <| pending := None |>).
Proof. intros Hi. by apply moved_pending. Qed.

Definition at_time (now : Z) (q : IdrCoalescer) : IdrCoalescer := q <| last_now := Some now |>.

Lemma idr_clock_spec now q : 0 <= now -> inv q ->
  wp (check_clock now) q (fun r q' => moved [] q q' /\ match r with
    | Ok _ => q' = at_time now q /\ closed q = false /\ clock q <= now
    | Err e => e <> RecoveryExpired /\ closed q' = true /\ (closed q = true \/ now < clock q)
    end).
Proof.
  intros Hn Hi. unfold wp, check_clock. destruct (closed q) eqn:Ec; [split; [by apply moved_refl|split_and!; [done|done|by left]]|].
  destruct (is_some_and _ _) eqn:El; cbn [fst snd].
  { split; [by apply moved_close|]. split_and!; [done|done|right]. unfold clock. destruct (last_now q); [|done]. by apply Z.ltb_lt. }
  assert (clock q <= now) as Hle.
  { unfold clock. destruct (last_now q) as [l|]; cbn in *; [|done]. by apply Z.ltb_ge. }
  split; [|done]. pose proof (iv_next _ Hi). assert (clock (q <| last_now := Some now |>) = now) as Hc by done.
  split; try done; [|auto]. destruct Hi as [I1 I2 I3 I4 I5]. split; try done; rewrite Hc.
  - change (0 <= next_allowed q <= now + interval q). lia.
  - intros p Hp. specialize (I4 p Hp). change (ready p <= Z.max now (next_allowed q) /\ until p <= shared_until p). lia.
Qed.

(** Run at the time of the clock. *)
Lemma admit_until_spec u q : inv q ->
  wp (admit_until (clock q) u) q (fun r q' => match r with
    | Ok None => q' = q /\ (clock q < next_allowed q \/ exists p, pending q = Some p /\ clock q < ready p)
    | Ok (Some u') => u' = u /\ moved [clock q] q q' /\ next_allowed q <= clock q /\ pending q' = None
    | Err e => e <> RecoveryExpired /\ q' = close q /\ u64_max < clock q + interval q
    end).
Proof.
  intros Hi. unfold wp, admit_until. destruct (_ || _) eqn:Eg; cbn [fst snd].
  { split; [done|]. apply orb_true_iff in Eg as [Eg%Z.ltb_lt|Eg]; [by left|right].
    destruct (pending q) as [p|]; [|done]. exists p. split; [done|]. by apply Z.ltb_lt. }
  apply orb_false_iff in Eg as [Eg%Z.ltb_ge _]. unfold deadline, ok_or.
  destruct (checked_add u64_max (clock q) (interval q)) as [next|] eqn:Ed; cbn [fst snd].
  - apply checked_add_Some in Ed as [-> _]. split_and!; try done. split; try done.
    + destruct Hi as [I1 I2 I3 I4 I5]. split; try done. change (0 <= clock q + interval q <= clock q + interval q). lia.
    + right. auto.
  - unfold checked_add in Ed. destruct (Z.leb_spec (clock q + interval q) u64_max); [done|auto].
Qed.

Lemma at_clock now q : clock (at_time now q) = now.
Proof. done. Qed.

(** After the clock was checked. *)
Lemma idr_clocked {A} now (m : IM A) q (Q : Result DeliveryError A -> IdrCoalescer -> Prop) : 0 <= now -> inv q ->
  (forall q' e, moved [] q q' -> closed q' = true -> e <> RecoveryExpired -> closed q = true \/ now < clock q -> Q (Err e) q') ->
  (moved [] q (at_time now q) -> closed q = false -> clock q <= now -> wp m (at_time now q) Q) ->
  wp (_ ← check_clock now; m) q Q.
Proof.
  intros Hn Hi Herr Hok. apply wp_bind, (wp_mono _ _ _ _ (idr_clock_spec now q Hn Hi)).
  intros [[]|e] q' [Hm Hs].
  - destruct Hs as (-> & Hc & Hle). by apply Hok.
  - destruct Hs as (He & Hc & Hw). by apply Herr.
Qed.

(** An answer to the question whether an intra picture is due. *)
Definition answered (now : Z) (q : IdrCoalescer) (r : Result DeliveryError (option Z)) (q' : IdrCoalescer) : Prop :=
  match r with Ok (Some u) => moved [now] q q' | _ => moved [] q q' end.

Lemma admit_until_answer now u q q0 : inv q -> clock q = now -> moved [] q0 q -> wp (admit_until now u) q (answered now q0).
Proof.
  intros Hi <- Hm. apply (wp_mono _ _ _ _ (admit_until_spec u q Hi)). intros [[u'|]|e] q' Hs; cbn.
  - destruct Hs as (_ & Hs & _). by eapply moved_trans.
  - by destruct Hs as [-> _].
  - destruct Hs as (_ & -> & _). eapply moved_trans; [exact Hm|]. by apply moved_close.
Qed.

Lemma admit_answer now j q q0 : inv q -> clock q = now -> moved [] q0 q -> wp (admit_either now j) q (answered now q0).
Proof.
  intros Hi Hc Hm. unfold admit_either, wp. destruct (pending q), j; try (by apply admit_until_answer). exact Hm.
Qed.

Lemma take_answer now q : 0 <= now -> inv q -> wp (take now) q (answered now q).
Proof.
  intros Hn Hi. apply idr_clocked; [done|done|done|]. intros Hm Hc Hle. unfold method, wp. pose proof (mv_inv _ _ _ Hm) as Hi'.
  destruct (is_some_and _ _); [eapply moved_trans; [exact Hm|by apply drop_moved]|]. by apply admit_answer.
Qed.

Lemma take_shared_answer now q : 0 <= now -> inv q -> wp (take_shared now) q (answered now q).
Proof.
  intros Hn Hi. apply idr_clocked; [done|done|done|]. intros Hm Hc Hle. unfold method, wp. pose proof (mv_inv _ _ _ Hm) as Hi'.
  destruct (pending _) as [p|]; [|done]. destruct (_ <=? _); [eapply moved_trans; [exact Hm|by apply drop_moved]|].
  by apply admit_until_answer.
Qed.

Lemma take_for_join_answer now u q : 0 <= now -> inv q -> wp (take_for_join now u) q (answered now q).
Proof.
  intros Hn Hi. apply idr_clocked; [done|done|done|]. intros Hm Hc Hle. pose proof (mv_inv _ _ _ Hm) as Hi'.
  unfold mbind, M_bind, refuse_if, wp. destruct (u <=? now); [done|]. unfold method.
  destruct (is_some_and _ _); [|by apply admit_answer]. apply admit_answer; [by apply (drop_moved (at_time now q))|done|].
  eapply moved_trans; [exact Hm|by apply drop_moved].
Qed.

Lemma queue_moved c d now q : 0 <= now -> inv q -> wp (queue c d now) q (fun _ q' => moved [] q q').
Proof.
  intros Hn Hi. apply idr_clocked; [done|done|done|]. intros Hm Hc Hle. pose proof (mv_inv _ _ _ Hm) as Hi'.
  unfold mbind, M_bind, lift, modify, wp. destruct (check_demand _ _ _) as [[]|e]; [|done]. cbn [fst snd].
  eapply moved_trans; [exact Hm|]. unfold coalesce.
  apply moved_pending; [done| |intros Hx; change (closed q = true) in Hx; congruence].
  intros p' E. apply (inj Some) in E as <-. rewrite at_clock. destruct (pending (at_time now q)) as [p|] eqn:Ep; [|cbn [ready until shared_until]; lia].
  destruct (iv_pending _ Hi' p Ep) as [H1 H2]. rewrite at_clock in H1. destruct (Z.leb_spec (until p) now); cbn [ready until shared_until]; lia.
Qed.

(** The answer to a capture: whether an intra picture is ordered now. *)
Definition captured (now : Z) (q : IdrCoalescer) (r : Result DeliveryError (bool * option Z)) (q' : IdrCoalescer) : Prop :=
  match r with Ok (true, _) => moved [now] q q' | _ => moved [] q q' end.

Lemma admit_join_none now j shared q0 q : 0 <= now -> moved [] q0 q -> wp (admit_join now j shared None) q (captured now q0).
Proof.
  intros Hn Hm. unfold wp, admit_join. cbn [is_some orb].
  destruct (if _ : bool then None else _) as [u|]; [|exact Hm].
  pose proof (take_for_join_answer now u q Hn (mv_inv _ _ _ Hm)) as Hs. unfold wp in Hs.
  destruct (take_for_join now u q) as [[[u'|]|e] q']; cbn in *; by eapply moved_trans.
Qed.

Lemma admit_join_some now j shared u q : admit_join now j shared (Some u) q = (Ok (true, if shared then None else Some u), q).
Proof. done. Qed.

Lemma admit_capture_answer now j shared q : 0 <= now -> inv q -> wp (admit_capture now j shared) q (captured now q).
Proof.
  intros Hn Hi. unfold wp, admit_capture.
  assert (answered now q (fst (if shared then take_shared now q else take now q)) (snd (if shared then take_shared now q else take now q))) as Hs
    by (destruct shared; [by apply take_shared_answer|by apply take_answer]).
  destruct (if shared then take_shared now q else take now q) as [[[u|]|e] q']; cbn [fst snd answered] in Hs.
  - by rewrite admit_join_some.
  - by apply admit_join_none.
  - case_bool_decide; [by apply admit_join_none|done].
Qed.

Definition op_time (op : Op) : option Z :=
  match op with
  | Queue _ _ now | Take now | TakeShared now | TakeForJoin now _ | Capture now _ _ => Some now
  | Retire | Close => None
  end.
(** Times are unsigned. *)
Definition op_typed (op : Op) : Prop := is_none_or (fun now => 0 <=? now) (op_time op) = true.

Lemma step_moved op q : op_typed op -> inv q -> moved (fst (step op q)) q (snd (step op q)).
Proof.
  intros Ht Hi. assert (forall now, op_time op = Some now -> 0 <= now) as Hn.
  { unfold op_typed in Ht. intros now E. rewrite E in Ht. by apply Z.leb_le. }
  destruct op as [c d now|now|now|now u|now j shared| |]; cbn [op_time step fst snd] in *; try specialize (Hn now eq_refl).
  - by apply queue_moved.
  - pose proof (take_answer now q Hn Hi) as Hs. unfold wp, reply in *. by destruct (take now q) as [[[u|]|e] q'].
  - pose proof (take_shared_answer now q Hn Hi) as Hs. unfold wp, reply in *. by destruct (take_shared now q) as [[[u|]|e] q'].
  - pose proof (take_for_join_answer now u q Hn Hi) as Hs. unfold wp, reply in *. by destruct (take_for_join now u q) as [[[u'|]|e] q'].
  - pose proof (admit_capture_answer now j shared q Hn Hi) as Hs. unfold wp, reply in *.
    by destruct (admit_capture now j shared q) as [[[[] u]|e] q'].
  - by apply drop_moved.
  - by apply moved_close.
Qed.

Lemma run_moved ops : forall q, Forall op_typed ops -> inv q ->
  inv (snd (run ops q)) /\ interval (snd (run ops q)) = interval q /\ clock q <= clock (snd (run ops q))
  /\ (closed q = true -> closed (snd (run ops q)) = true)
  /\ (fst (run ops q) = [] -> next_allowed (snd (run ops q)) = next_allowed q).
Proof.
  induction ops as [|op ops IH]; intros q Hty Hi; [split_and!; done|]. inversion_clear Hty as [|? ? Ht Hty'].
  pose proof (step_moved op q Ht Hi) as [M1 M2 M3 M4 M5]. cbn [run]. destruct (step op q) as [ts q']. cbn [fst snd] in *.
  destruct (IH q' Hty' M1) as (I1 & I2 & I3 & I4 & I5). destruct (run ops q') as [us q'']. cbn [fst snd] in *.
  split_and!; [done|congruence|lia|auto|]. intros [-> ->]%app_eq_nil. rewrite I5 by done. by destruct M5 as [[_ ?]|[? _]].
Qed.

Lemma idr_new_inv i q : new i = Ok q -> inv q.
Proof.
  unfold new. destruct (negb _) eqn:E; [done|]. intros [= <-]. apply negb_false_iff, andb_true_iff in E as [?%Z.leb_le ?%Z.leb_le].
  split; try done; unfold clock; cbn; lia.
Qed.

(** Every order is at least an interval after the one before, and all are past. *)
Lemma run_paced ops : forall L q, Forall op_typed ops -> inv q -> spaced (interval q) 1 L ->
  (forall t, t ∈ L -> t + interval q <= next_allowed q) -> spaced (interval q) 1 (L ++ fst (run ops q)).
Proof.
  induction ops as [|op ops IH]; intros L q Hty Hi Hs HL; [by rewrite app_nil_r|]. inversion_clear Hty as [|? ? Ht Hty'].
  pose proof (step_moved op q Ht Hi) as [M1 M2 M3 M4 M5]. cbn [run]. destruct (step op q) as [ts q']. cbn [fst snd] in *.
  specialize (IH (L ++ ts) q' Hty' M1). rewrite M2 in IH. destruct (run ops q') as [us q'']. cbn [fst snd] in *.
  rewrite app_assoc. apply IH.
  - destruct M5 as [[-> _]|(-> & Hle & _)]; [by rewrite app_nil_r|]. intros i a t Ha Hb.
    destruct (decide (i + 1 < length L)%nat) as [Hlt|Hge].
    + rewrite lookup_app_l in Ha, Hb by lia. by apply (Hs i).
    + assert (i + 1 = length L)%nat as E by (apply lookup_lt_Some in Hb; rewrite length_app in Hb; cbn in Hb; lia).
      rewrite E, lookup_app_r, Nat.sub_diag in Hb by lia. injection Hb as <-. rewrite lookup_app_l in Ha by lia.
      specialize (HL a (list_elem_of_lookup_2 _ _ _ Ha)). lia.
  - pose proof (iv_interval _ Hi). intros t [Hin|Hin]%elem_of_app.
    + specialize (HL t Hin). destruct M5 as [[_ ->]|(_ & ? & ->)]; lia.
    + destruct M5 as [[-> _]|(-> & ? & ->)]; [by apply not_elem_of_nil in Hin|]. apply list_elem_of_singleton in Hin as ->. lia.
Qed.

(** ** Demands of a shared source *)

(** What a source that is shared by its viewers calls. *)
Definition shared_op (op : Op) : bool :=
  match op with Queue _ _ _ | TakeShared _ | Capture _ _ true => true | _ => false end.

(** A demand with this deadline waits. *)
Definition owed (D : Z) (q : IdrCoalescer) : Prop := exists p, pending q = Some p /\ D <= shared_until p.

Lemma queue_owed c d now q : 0 <= now -> inv q -> wp (queue c d now) q (fun r q' => closed q' = false ->
  clock q' = now /\ (r = Ok tt -> owed (d_until d) q') /\ forall D, owed D q -> owed D q').
Proof.
  intros Hn Hi. apply idr_clocked; [done|done|by intros q' e _ ->|]. intros Hm Hc Hle.
  unfold mbind, M_bind, lift, modify, wp. destruct (check_demand _ _ _) as [[]|e]; [|done]. cbn [fst snd]. intros _.
  split; [done|]. change (pending (at_time now q)) with (pending q). unfold owed, coalesce. change (pending (at_time now q)) with (pending q). split.
  - intros _. eexists. split; [reflexivity|]. destruct (pending q) as [p|]; [destruct (until p <=? now)|]; cbn [shared_until]; lia.
  - intros D (p & -> & HD). eexists. split; [reflexivity|]. destruct (until p <=? now); cbn [shared_until]; lia.
Qed.

(** The clock is behind, at its end, or the coalescer is closed. *)
Definition impossible (now : Z) (q : IdrCoalescer) : Prop := closed q = true \/ now < clock q \/ u64_max < now + interval q.

Lemma take_shared_owed D now q : 0 <= now -> inv q -> owed D q -> now < D ->
  wp (take_shared now) q (fun r q' => match r with
    | Ok (Some _) => True
    | Ok None => owed D q' /\ clock q' = now /\ closed q' = false /\ (now < Z.max (clock q) (next_allowed q))
    | Err e => e <> RecoveryExpired /\ closed q' = true /\ impossible now q
    end).
Proof.
  intros Hn Hi (p & Hp & HD) Hlt. apply idr_clocked; [done|done|unfold impossible; tauto|]. intros Hm Hc Hle. pose proof (mv_inv _ _ _ Hm) as Hi'.
  unfold method, wp. change (pending (at_time now q)) with (pending q). rewrite Hp.
  destruct (Z.leb_spec (shared_until p) now); [lia|]. pose proof (admit_until_spec (shared_until p) (at_time now q) Hi') as Hs.
  rewrite at_clock in Hs. unfold wp in Hs. destruct (admit_until now (shared_until p) (at_time now q)) as [[[u|]|e] q']; cbn [fst snd] in *; [done| |].
  - destruct Hs as [-> Hs]. split_and!; [by exists p|done|done|]. destruct Hs as [Hs|(p' & Hp' & Hs)].
    + change (now < next_allowed q) in Hs. lia.
    + change (pending q = Some p') in Hp'. rewrite Hp in Hp'. injection Hp' as <-. pose proof (iv_pending _ Hi p Hp). lia.
  - destruct Hs as (? & -> & Hx). split_and!; [done|done|]. right. right. exact Hx.
Qed.

Lemma capture_owed D now j q : 0 <= now -> inv q -> owed D q -> now < D ->
  wp (admit_capture now j true) q (fun r q' => match r with
    | Ok (true, o) => o = None
    | Ok (false, _) => owed D q' /\ clock q' = now /\ closed q' = false /\ (now < Z.max (clock q) (next_allowed q))
    | Err _ => closed q' = true /\ impossible now q
    end).
Proof.
  intros Hn Hi Ho Hlt. pose proof (take_shared_owed D now q Hn Hi Ho Hlt) as Hs. unfold wp, admit_capture in *.
  destruct (take_shared now q) as [[[u|]|e] q']; cbn [fst snd] in Hs; [by rewrite admit_join_some| |].
  - destruct Hs as ((p & Hp & HD) & Hck & Hc & Hw). unfold admit_join, next_shared_deadline. rewrite Hp, Hc. cbn.
    split_and!; [by exists p|done|done|lia].
  - destruct Hs as (He & Hc & Hx). rewrite bool_decide_eq_false_2 by done. done.
Qed.

(** Called before [D]. *)
Definition before (D : Z) (op : Op) : bool := is_none_or (fun t => t <? D) (op_time op).

Lemma step_owed D op q : op_typed op -> inv q -> shared_op op = true -> before D op = true -> owed D q ->
  closed (snd (step op q)) = false -> fst (step op q) = [] -> owed D (snd (step op q)).
Proof.
  intros Ht Hi Hsh Hb Ho Hc Hf. assert (forall now, op_time op = Some now -> 0 <= now < D) as Hn.
  { unfold op_typed, before in *. intros now E. rewrite E in Ht, Hb. cbn in *. lia. }
  destruct op as [c d now|now|now|now u|now j []| |]; try done; destruct (Hn now eq_refl) as [H0 HD];
    cbn [step fst snd] in *; unfold reply in *; cbn [fst snd] in *.
  - by apply (queue_owed c d now q H0 Hi).
  - pose proof (take_shared_owed D now q H0 Hi Ho HD) as Hs. unfold wp in Hs.
    destruct (take_shared now q) as [[[u|]|e] q']; cbn in *; [done|apply Hs|]. destruct Hs as (_ & ? & _). congruence.
  - pose proof (capture_owed D now j q H0 Hi Ho HD) as Hs. unfold wp in Hs.
    destruct (admit_capture now j true q) as [[[[] u]|e] q']; cbn in *; [done|apply Hs|]. destruct Hs. congruence.
Qed.

Lemma run_owed D ops : forall q, Forall op_typed ops -> inv q -> forallb shared_op ops = true -> forallb (before D) ops = true ->
  owed D q -> closed (snd (run ops q)) = false -> fst (run ops q) = [] -> owed D (snd (run ops q)).
Proof.
  induction ops as [|op ops IH]; intros q Hty Hi Hsh Hb Ho Hc Hf; [done|]. inversion_clear Hty as [|? ? Ht Hty'].
  cbn [forallb] in *. apply andb_true_iff in Hsh as [Hs1 Hs2], Hb as [Hb1 Hb2].
  pose proof (step_moved op q Ht Hi) as Hm. pose proof (step_owed D op q Ht Hi Hs1 Hb1 Ho) as Hso.
  cbn [run] in *. destruct (step op q) as [ts q']. cbn [fst snd] in *. pose proof (run_moved ops q' Hty' (mv_inv _ _ _ Hm)) as (_ & _ & _ & Hcl & _).
  specialize (IH q' Hty' (mv_inv _ _ _ Hm) Hs2 Hb2). destruct (run ops q') as [us q'']. cbn [fst snd] in *.
  apply app_eq_nil in Hf as [-> ->]. apply IH; try done. apply Hso; [|done]. destruct (closed q'); [|done]. by rewrite Hcl in Hc.
Qed.

(** ** Theorems *)

(** Reached from the constructor by calls. *)
Definition reachable (q : IdrCoalescer) : Prop := exists i q0 ops, new i = Ok q0 /\ Forall op_typed ops /\ q = snd (run ops q0).

Lemma idr_reachable_inv q : reachable q -> inv q.
Proof. intros (i & q0 & ops & Hn & Hty & ->). by apply run_moved; [|eapply idr_new_inv]. Qed.

(** Intra pictures are paced.  Whatever the recovery demands, joins, expiries,
    cancellations and replacements, and whichever of the three ways of asking is
    used, two intra pictures ordered from one encoder are at least its minimum
    interval apart, and that interval is at least a tenth of a second. *)
Theorem intra_pictures_are_paced i q ops : new i = Ok q -> Forall op_typed ops ->
  100000 <= i <= 1000000
  /\ forall n t t', fst (run ops q) !! n = Some t -> fst (run ops q) !! (n + 1)%nat = Some t' -> i <= t' - t.
Proof.
  intros Hn Hty. pose proof (idr_new_inv i q Hn) as Hi. pose proof (iv_interval _ Hi) as Hb.
  assert (interval q = i) as Hq by (unfold new in Hn; destruct (negb _); [done|]; by injection Hn as <-). rewrite Hq in Hb.
  split; [done|]. pose proof (run_paced ops [] q Hty Hi) as Hp. rewrite Hq in Hp. cbn [app] in Hp.
  intros n t t' H1 H2. assert (spaced i 1 (fst (run ops q))) as Hs; [|exact (Hs n t t' H1 H2)].
  apply Hp; [intros ? ? ? E; by rewrite lookup_nil in E|by intros ? ?%not_elem_of_nil].
Qed.

(** A live demand is not forgotten by a shared source.  Once a viewer's recovery
    demand was accepted at [t0], the source is called for anything a shared source
    is called for, earlier demands of other viewers expire and newcomers join; if no intra
    picture was ordered meanwhile, the first capture at least one interval after
    [t0] and before the demand's own deadline orders one.  (The capture's clock
    must not be at the end of its range, and the coalescer not closed.) *)
Theorem shared_demand_is_served q cache demand t0 q1 ops q2 now join :
  reachable q -> 0 <= t0 -> queue cache demand t0 q = (Ok tt, q1) ->
  Forall op_typed ops -> forallb shared_op ops = true -> forallb (before (d_until demand)) ops = true ->
  run ops q1 = ([], q2) -> closed q2 = false ->
  t0 + interval q <= now < d_until demand -> clock q2 <= now -> now + interval q <= u64_max ->
  fst (admit_capture now join true q2) = Ok (true, None).
Proof.
  intros Hr H0 Hq Hty Hsh Hb Hrun Hc Hnow Hck Hmax. pose proof (idr_reachable_inv q Hr) as Hi.
  pose proof (queue_moved cache demand t0 q H0 Hi) as Hm. pose proof (queue_owed cache demand t0 q H0 Hi) as Ho.
  unfold wp in Hm, Ho. rewrite Hq in Hm, Ho. cbn [fst snd] in *.
  pose proof (run_moved ops q1 Hty (mv_inv _ _ _ Hm)) as (I1 & I2 & I3 & I4 & I5).
  pose proof (run_owed (d_until demand) ops q1 Hty (mv_inv _ _ _ Hm) Hsh Hb) as Hro. rewrite Hrun in *. cbn [fst snd] in *.
  assert (closed q1 = false) as Hc1 by (destruct (closed q1); [by rewrite I4 in Hc|done]).
  destruct (Ho Hc1) as (Ck1 & Hod & _). specialize (Hro (Hod eq_refl) Hc eq_refl).
  pose proof (iv_next _ (mv_inv _ _ _ Hm)) as Hnx. rewrite (mv_interval _ _ _ Hm), Ck1 in Hnx. rewrite <- (I5 eq_refl) in Hnx.
  pose proof (capture_owed (d_until demand) now join q2 ltac:(lia) I1 Hro ltac:(lia)) as Hcap. unfold wp in Hcap.
  destruct (admit_capture now join true q2) as [[[[] u]|e] q3]; cbn [fst snd] in *.
  - by subst u.
  - destruct Hcap as (_ & _ & _ & ?). lia.
  - destruct Hcap as [_ [?|[?|?]]]; [congruence|lia|]. rewrite I2, (mv_interval _ _ _ Hm) in *. lia.
Qed.

End Idr.
