(* ===== verification/Requestor.v ===== *)
(** * Asking for recovery

    [RecoveryRequestor] of [fr-media/src/delivery/recovery.rs], the viewer's owner of
    at most one recovery request per generation of one receiver.

    A scope is compared by address.  The numbers of [Receiver] name the successive
    scopes of one receiver, so an address is a pair of a receiver's identity and
    such a number; the methods are given the identity of the receiver they are
    called with.  [offer] borrows the receiver mutably and ticks it: it runs on
    both. *)

From S2P Require Import Prelude.
From S2P Require Import Bytes.
From S2P Require Import CoreTime.
From S2P Require Import Limits.
From S2P Require Import WireRecord.
From S2P Require Import WireInput.
From S2P Require Import WireMedia.
From S2P Require Import WireView.
From S2P Require Import Delivery.
From S2P Require Import Assembly.
From S2P Require Import Receiver.
From S2P Require Import Sender.

Module Requestor.
Import Media Delivery Assembly.
Import Receiver(ReceivePipeline, DecodedFrame, df_scope, df_descriptor, df_epoch, df_bindings, ReceiveState, NeedsRecovery, Closed).
#[local] Existing Instances Receiver.ReceiveState_eq_dec Receiver.MediaLimits_eq_dec Sender.ViewBinding_eq_dec.

Definition address : Type := Z * Z.
Definition scope_of (id : Z) (r : ReceivePipeline) : address := (id, Receiver.scope r).

Record RecoveryOffer := mk_recovery_offer {
  ro_scope : address;
  ro_bytes : Z;
  ro_until : Z;
  ro_reason : RecoveryMsg.Reason
}.
Record Pending := mk_pending { request : RecoveryMsg.Request; until : Z; sent : bool }.
#[export] Instance eta_pending : Eta Pending := fun p => mk_pending (request p) (until p) (sent p).

Record RecoveryRequestor := mk_requestor {
  scope : address;
  config : ReceiveConfig;
  binding : ViewBinding.Binding;
  last_useful : option Z;
  pending : option Pending;
  last_now : option Z;
  closed : bool
}.
#[export] Instance eta_requestor : Eta RecoveryRequestor := fun q =>
  mk_requestor (scope q) (config q) (binding q) (last_useful q) (pending q) (last_now q) (closed q).

Abbreviation RM := (M RecoveryRequestor DeliveryError).
(** A method given by what it returns and leaves behind. *)
Definition method {A} (f : RecoveryRequestor -> Result DeliveryError A * RecoveryRequestor) : RM A := f.

Definition new (id : Z) (r : ReceivePipeline) (b : ViewBinding.Binding) : Result DeliveryError RecoveryRequestor :=
  _ ← from_wire (ViewBinding.validate b);
  let c := Receiver.config r in
  _ ← Receiver.check_delivery_configuration r (limits c) (bindings c) (epoch c);
  if negb (ViewBinding.configuration b =? e_configuration (epoch c)) || negb (ViewBinding.recovery b =? e_recovery (epoch c))
  then Err StaleGeneration
  else Ok (mk_requestor (scope_of id r) c b None None None false).

Definition close (q : RecoveryRequestor) : RecoveryRequestor := q <| closed := true |> <| pending := None |>.

Definition check (id : Z) (r : ReceivePipeline) (now : Z) : RM unit :=
  _ ← refuse_if closed (fun _ => WrongState);
  _ ← method (fun q =>
        if is_some_and (fun last => now <? last) (last_now q) then (Err ClockRegression, close q)
        else (Ok tt, q <| last_now := Some now |>));
  method (fun q =>
    if negb (bool_decide (scope q = scope_of id r)) || bool_decide (Receiver.state r = Closed)
    then (Err StaleGeneration, close q)
    else if is_some_and (fun p => until p <=? now) (pending q) then (Err RecoveryExpired, close q)
    else (Ok tt, q)).

(** The flag of a frame's scope is up while that scope is the current one of its
    receiver and was not stopped. *)
Definition belongs_to (id : Z) (r : ReceivePipeline) (frame_id : Z) (f : DecodedFrame) (s : address) : bool :=
  bool_decide ((frame_id, df_scope f) = s) && (bool_decide ((frame_id, df_scope f) = scope_of id r) && Receiver.live r).

Definition observe_decoded (id : Z) (r : ReceivePipeline) (frame_id : Z) (f : DecodedFrame) : RM unit :=
  _ ← refuse_if (fun q => closed q || is_some (pending q) || negb (belongs_to id r frame_id f (scope q))
                          || negb (bool_decide (df_epoch f = epoch (config q)))
                          || negb (bool_decide (df_bindings f = bindings (config q)))) (fun _ => StaleGeneration);
  let number := frame (df_descriptor f) in
  _ ← refuse_if (fun q => is_some_and (fun last => number <? last) (last_useful q)) (fun _ => StaleGeneration);
  modify (fun q => q <| last_useful := Some number |>).

(** What a failed [tick] asks for. *)
Definition reason_of (e : DeliveryError) : option RecoveryMsg.Reason :=
  match e with
  | ReferenceExpired | ReferenceCapacityExceeded => Some RecoveryMsg.ReferenceExpired
  | RecoveryExpired => Some RecoveryMsg.RecoveryExpired
  | DecodeFailed => Some RecoveryMsg.DecodeFailed
  | _ => None
  end.

(** The first failure is remembered, with the deadline that began when the receiver
    observed it. *)
Definition install (reason : RecoveryMsg.Reason) (r : ReceivePipeline) (now : Z) : RM unit := method (fun q =>
  if is_some (pending q) then (Ok tt, q)
  else
    match (at_ ← ok_or (Receiver.failure_at r) WrongState;
           deadline at_ (recovery_budget_micros (policy (config q)))) with
    | Err e => (Err e, close q)
    | Ok u =>
        if u <=? now then (Err RecoveryExpired, close q)
        else (Ok tt, q <| pending := Some (mk_pending (RecoveryMsg.mk_request reason (last_useful q)) u false) |>)
    end).

(** The bytes of the pending request, while it was not sent. *)
Definition prepare (out : bytes) : RM (option (RecoveryOffer * bytes)) := method (fun q =>
  match pending q with
  | None => (Ok None, q)
  | Some p =>
      if sent p then (Ok None, q)
      else
        match RecoveryMsg.encode (request p) (binding q) (protocol (limits (config q))) out ViewerToHost Reliable with
        | (Ok n, out') => (Ok (Some (mk_recovery_offer (scope q) n (until p) (RecoveryMsg.reason (request p)), out')), q)
        | (Err e, _) => (Err (DWire e), q)
        end
  end).

Definition offer (id now : Z) (out : bytes) (q : RecoveryRequestor) (r : ReceivePipeline)
  : Result DeliveryError (option (RecoveryOffer * bytes)) * RecoveryRequestor * ReceivePipeline :=
  match check id r now q with
  | (Err e, q) => (Err e, q, r)
  | (Ok _, q) =>
      match Receiver.tick now r with
      | (Ok _, r) => (Ok None, q, r)
      | (Err e, r) =>
          match reason_of e with
          | None => (Err e, q <| closed := true |>, r)
          | Some reason =>
              if negb (bool_decide (Receiver.state r = NeedsRecovery)) then (Err WrongState, q <| closed := true |>, r)
              else ((_ ← install reason r now; prepare out) q, r)
          end
      end
  end.

Definition authorize_write (id : Z) (r : ReceivePipeline) (o : RecoveryOffer) (now : Z) : RM unit :=
  _ ← check id r now;
  p ← readr (fun q => ok_or (pending q) WrongState);
  refuse_if (fun q => sent p || negb (bool_decide (ro_scope o = scope q)) || negb (ro_until o =? until p)
                      || negb (bool_decide (Receiver.state r = NeedsRecovery))) (fun _ => StaleGeneration).

Definition mark_sent (id : Z) (r : ReceivePipeline) (o : RecoveryOffer) (now : Z) : RM unit :=
  _ ← authorize_write id r o now;
  modify (fun q => q <| pending := (fun p => p <| sent := true |>) <$> pending q |>).

Definition authorize_replacement (id : Z) (r : ReceivePipeline) (b : ViewBinding.Binding) (l : MediaLimits) (bs : MediaBindings)
  (now : Z) : RM Z :=
  _ ← check id r now;
  p ← readr (fun q => ok_or (pending q) WrongState);
  _ ← refuse_if (fun _ => negb (sent p) || negb (bool_decide (Receiver.state r = NeedsRecovery))) (fun _ => WrongState);
  expected ← readr (fun q =>
    ok_or ((fun g => ViewBinding.mk_view (ViewBinding.parent (binding q)) (ViewBinding.display (binding q))
                       (ViewBinding.geometry (binding q)) (ViewBinding.configuration (binding q)) g
                       (ViewBinding.viewport (binding q)))
             <$> Generation.next (ViewBinding.recovery (binding q))) StaleGeneration);
  _ ← refuse_if (fun q => negb (bool_decide (b = expected)) || negb (all_newer_than bs (bindings (config q))))
                (fun _ => StaleGeneration);
  _ ← refuse_if (fun q => negb (bool_decide (l = limits (config q)))) (fun _ => DResourceLimit);
  mret (until p).

Definition next_deadline (q : RecoveryRequestor) : option Z :=
  match pending q with Some p => if closed q then None else Some (until p) | None => None end.

End Requestor.
