(* ===== verification/RecoveryClaims.v ===== *)
(** Recovery: the lemmas on the requestor, then the path of a request to the encoder. *)

From S2P Require Import Prelude.
From S2P Require Import Limits.
From S2P Require Import Bytes.
From S2P Require Import WireRecord.
From S2P Require Import WireRecordProps.
From S2P Require Import WireMedia.
From S2P Require Import WireMediaProps.
From S2P Require Import WireInput.
From S2P Require Import WireControl.
From S2P Require Import WireControlProps.
From S2P Require Import WireView.
From S2P Require Import WireViewProps.
From S2P Require Import Delivery.
From S2P Require Import Assembly.
From S2P Require Import AssemblyClaims.
From S2P Require Import Receiver.
From S2P Require Import ReceiverSession.
From S2P Require Import ReceiverClaims.
From S2P Require Import Sender.
From S2P Require Import SenderInv.
From S2P Require Import SenderMethods.
From S2P Require Import SenderSession.
From S2P Require Import Network.
From S2P Require Import SenderClaims.
From S2P Require Import Idr.
From S2P Require Import Requestor.

(** * Asking for recovery: at most once

    Every call a [RecoveryRequestor] can receive, with whatever receiver state and
    clock it comes, and what a history of calls can show to the network. *)

Module RequestorProps.
Import Media Delivery Assembly Requestor.
Import Receiver(ReceivePipeline, DecodedFrame, NeedsRecovery, Closed).

(** The receiver of a call is whatever it is at that time. *)
Inductive Op :=
| Observe (id : Z) (r : ReceivePipeline) (frame_id : Z) (f : DecodedFrame)
| Offer (id now : Z) (out : bytes) (r : ReceivePipeline)
| Authorize (id : Z) (r : ReceivePipeline) (o : RecoveryOffer) (now : Z)
| MarkSent (id : Z) (r : ReceivePipeline) (o : RecoveryOffer) (now : Z)
| Replacement (id : Z) (r : ReceivePipeline) (b : ViewBinding.Binding) (l : MediaLimits) (bs : MediaBindings) (now : Z)
| Close.

(** What a call lets happen. *)
Inductive Event :=
| Prepared (o : RecoveryOffer) (packet : bytes)
| Written (until now : Z)
| Sent (until now : Z)
| Replaced (until now : Z).

Definition when_ok {A} (r : Result DeliveryError A) (f : A -> list Event) : list Event :=
  match r with Ok a => f a | Err _ => [] end.

Definition step (op : Op) (q : RecoveryRequestor) : list Event * RecoveryRequestor :=
  match op with
  | Observe id r fid f => ([], snd (observe_decoded id r fid f q))
  | Offer id now out r =>
      let '(res, q, _) := offer id now out q r in
      (when_ok res (fun o => match o with Some (o, out) => [Prepared o (take (Z.to_nat (ro_bytes o)) out)] | None => [] end), q)
  | Authorize id r o now =>
      let (res, q) := authorize_write id r o now q in (when_ok res (fun _ => [Written (ro_until o) now]), q)
  | MarkSent id r o now =>
      let (res, q) := mark_sent id r o now q in (when_ok res (fun _ => [Sent (ro_until o) now]), q)
  | Replacement id r b l bs now =>
      let (res, q) := authorize_replacement id r b l bs now q in (when_ok res (fun u => [Replaced u now]), q)
  | Close => ([], close q)
  end.

Fixpoint run (ops : list Op) (q : RecoveryRequestor) : list Event * RecoveryRequestor :=
  match ops with
  | [] => ([], q)
  | op :: ops => let (es, q) := step op q in let (fs, q) := run ops q in (es ++ fs, q)
  end.

(** ** One call *)

(** The request and its deadline, once there is one. *)
Definition fixed (q : RecoveryRequestor) : option (RecoveryMsg.Request * Z) := (fun p => (request p, until p)) <$> pending q.
Definition is_sent (q : RecoveryRequestor) : bool := is_some_and sent (pending q).

(** The same request with the same deadline; what was sent stays sent. *)
Definition same_request (p p' : Pending) : Prop :=
  request p' = request p /\ until p' = until p /\ (sent p = true -> sent p' = true).

(** The identity is the same, and a pending request is kept, or gone for good. *)
Record kept (q q' : RecoveryRequestor) : Prop := {
  kp_binding : binding q' = binding q;
  kp_config : config q' = config q;
  kp_closed : closed q = true -> closed q' = true;
  kp_pending p : pending q = Some p -> closed q' = true \/ exists p', pending q' = Some p' /\ same_request p p'
}.

Lemma kept_stop q q' : binding q' = binding q -> config q' = config q -> closed q' = true -> kept q q'.
Proof. intros. split; auto. Qed.
Lemma requestor_kept_same q q' : binding q' = binding q -> config q' = config q -> closed q' = closed q -> pending q' = pending q -> kept q q'.
Proof. intros E1 E2 E3 E4. split; try congruence. intros p Hp. right. exists p. rewrite E4. by repeat split. Qed.
Lemma kept_trans q1 q2 q3 : kept q1 q2 -> kept q2 q3 -> kept q1 q3.
Proof.
  intros [B1 C1 L1 P1] [B2 C2 L2 P2]. split; try congruence; [by auto|]. intros p Hp.
  destruct (P1 p Hp) as [Hc|(p1 & Hp1 & R1 & U1 & S1)]; [by auto|]. destruct (P2 p1 Hp1) as [?|(p2 & Hp2 & R2 & U2 & S2)]; [by auto|right].
  exists p2. split; [done|]. split_and!; [congruence|congruence|auto].
Qed.

(** What a successful check leaves. *)
Definition checked (now : Z) (q q' : RecoveryRequestor) : Prop :=
  closed q = false /\ q' = q <| last_now := Some now |> /\ forall p, pending q = Some p -> now < until p.

Lemma check_spec id r now q : wp (check id r now) q (fun res q' => kept q q' /\ match res with
  | Ok _ => checked now q q'
  | Err _ => closed q' = true
  end).
Proof.
  unfold check. apply wp_bind, wp_refuse_if; [by split; [apply requestor_kept_same|]|]. intros Hc.
  apply wp_bind. unfold wp at 1, method. destruct (is_some_and _ (last_now q)); cbn [fst snd]; [by split; [apply kept_stop|]|].
  unfold wp, method. set (q1 := q <| last_now := Some now |>).
  assert (kept q (close q1)) as Hk by (by apply kept_stop).
  change (pending q1) with (pending q). destruct (negb _ || _); [by split|]. destruct (is_some_and _ (pending q)) eqn:Ep; [by split|].
  split; [by apply requestor_kept_same|]. split_and!; try done. intros p Hp. rewrite Hp in Ep. by apply Z.leb_gt.
Qed.

(** An event shows the pending request, before its deadline. *)
Definition shows (q q' : RecoveryRequestor) (e : Event) : Prop :=
  closed q' = false /\ exists p, pending q' = Some p /\ match e with
  | Prepared o packet =>
      sent p = false /\ ro_until o = until p /\ ro_reason o = RecoveryMsg.reason (request p)
      /\ exists out out', RecoveryMsg.encode (request p) (binding q) (protocol (limits (config q))) out ViewerToHost Reliable
                            = (Ok (ro_bytes o), out') /\ packet = take (Z.to_nat (ro_bytes o)) out'
  | Written u now => sent p = false /\ u = until p /\ now < u
  | Sent u now => is_sent q = false /\ sent p = true /\ u = until p /\ now < u
  | Replaced u now => sent p = true /\ u = until p /\ now < u
  end.

Lemma authorize_write_spec id r o now q : wp (authorize_write id r o now) q (fun res q' => kept q q' /\ match res with
  | Ok _ => q' = q <| last_now := Some now |> /\ closed q = false
            /\ exists p, pending q = Some p /\ sent p = false /\ ro_until o = until p /\ now < until p
  | Err _ => True
  end).
Proof.
  apply wp_bind, (wp_mono _ _ _ _ (check_spec id r now q)). intros [[]|e] q1 [Hk Hc]; [|done].
  destruct Hc as (Hcl & -> & Hu). apply wp_readr. change (pending (q <| last_now := Some now |>)) with (pending q).
  destruct (pending q) as [p|] eqn:Ep; cbn [ok_or]; [|done]. apply wp_refuse_if; [done|]. intros Hg. split; [done|]. split_and!; try done.
  exists p. apply orb_false_iff in Hg as [Hg _]. apply orb_false_iff in Hg as [Hg Hun]. apply orb_false_iff in Hg as [Hs _].
  apply negb_false_iff, Z.eqb_eq in Hun. auto.
Qed.

Lemma authorize_replacement_spec id r b l bs now q : wp (authorize_replacement id r b l bs now) q (fun res q' => kept q q' /\ match res with
  | Ok u => q' = q <| last_now := Some now |> /\ closed q = false
            /\ exists p, pending q = Some p /\ sent p = true /\ u = until p /\ now < u
  | Err _ => True
  end).
Proof.
  apply wp_bind, (wp_mono _ _ _ _ (check_spec id r now q)). intros [[]|e] q1 [Hk Hc]; [|done].
  destruct Hc as (Hcl & -> & Hu). apply wp_readr. change (pending (q <| last_now := Some now |>)) with (pending q).
  destruct (pending q) as [p|] eqn:Ep; cbn [ok_or]; [|done]. apply wp_refuse. destruct (negb (sent p) || _) eqn:Es; [done|].
  apply wp_readr. destruct (ok_or _ _) as [expected|]; [|done]. apply wp_refuse. destruct (negb (bool_decide (b = expected)) || _); [done|].
  apply wp_refuse. destruct (negb (bool_decide (l = _))); [done|]. split; [done|]. split_and!; try done. exists p.
  apply orb_false_iff in Es as [Es%negb_false_iff _]. auto.
Qed.

Lemma install_spec reason r now q : closed q = false -> (forall p, pending q = Some p -> now < until p) ->
  wp (install reason r now) q (fun res q' => kept q q' /\ match res with
    | Ok _ => closed q' = false /\ exists p, pending q' = Some p /\ now < until p
              /\ (pending q = Some p \/ pending q = None /\ RecoveryMsg.last_useful_frame (request p) = last_useful q)
    | Err _ => closed q' = true
    end).
Proof.
  intros Hc Hu. unfold wp, install, method. destruct (pending q) as [p|] eqn:Ep; cbn [is_some].
  { split; [by apply requestor_kept_same|]. split; [done|]. exists p. auto. }
  destruct (_ ≫= _) as [u|e]; cbn [fst snd]; [|by split; [apply kept_stop|]].
  destruct (Z.leb_spec u now); cbn [fst snd]; [by split; [apply kept_stop|]|]. split; [split; auto; congruence|].
  split; [done|]. eexists. split; [reflexivity|]. split; [cbn; lia|by right].
Qed.

(** An offer is the encoding of the pending request, which was pending before or
    names the last frame decoded. *)
Definition offered (out : bytes) (q q' : RecoveryRequestor) (o : RecoveryOffer) (out' : bytes) : Prop :=
  closed q' = false /\ exists p, pending q' = Some p
    /\ (sent p = false /\ ro_until o = until p /\ ro_reason o = RecoveryMsg.reason (request p)
        /\ RecoveryMsg.encode (request p) (binding q) (protocol (limits (config q))) out ViewerToHost Reliable = (Ok (ro_bytes o), out'))
    /\ (pending q = Some p \/ pending q = None /\ RecoveryMsg.last_useful_frame (request p) = last_useful q).

Lemma prepare_offers out q : closed q = false ->
  wp (prepare out) q (fun res q' => q' = q /\ match res with
    | Ok (Some (o, out')) => offered out q q' o out'
    | _ => True
    end).
Proof.
  intros Hc. unfold wp, prepare, method. destruct (pending q) as [p|] eqn:Ep; [|done]. destruct (sent p) eqn:Es; [done|].
  destruct (RecoveryMsg.encode _ _ _ _ _ _) as [[n|e] out'] eqn:Ee; cbn [fst snd]; [|done]. split; [done|]. split; [done|].
  exists p. split_and!; try done. by left.
Qed.

Lemma offer_spec id now out q r : let '(res, q', _) := offer id now out q r in
  kept q q' /\ match res with Ok (Some (o, out')) => offered out q q' o out' | _ => True end.
Proof.
  unfold offer. pose proof (check_spec id r now q) as Hc. unfold wp in Hc. destruct (check id r now q) as [[[]|e] q1]; cbn [fst snd] in Hc; [|by split; [apply Hc|]].
  destruct Hc as [Hk (Hcl & -> & Hu)]. set (q1 := q <| last_now := Some now |>) in *. assert (closed q1 = false) as Hcl1 by done.
  destruct (Receiver.tick now r) as [[[]|e] r']; [done|]. assert (kept q (q1 <| closed := true |>)) as Hst by (by apply kept_stop).
  destruct (reason_of e) as [reason|]; [|done]. destruct (negb _); [done|].
  pose proof (install_spec reason r' now q1 Hcl1 Hu) as Hi. unfold mbind, M_bind, wp in *.
  destruct (install reason r' now q1) as [[[]|e'] q2]; cbn [fst snd] in Hi; destruct Hi as [Hk2 Hi]; [|split; [exact (kept_trans _ _ _ Hk Hk2)|done]].
  destruct Hi as [Hcl2 (p1 & Hp1 & _ & Hwhich)]. pose proof (prepare_offers out q2 Hcl2) as Hp. unfold wp in Hp.
  destruct (prepare out q2) as [res q3]. cbn [fst snd] in Hp. destruct Hp as [-> Hp]. split; [exact (kept_trans _ _ _ Hk Hk2)|].
  destruct res as [[[o out']|]|]; [|done|done]. destruct Hp as (_ & p & Hp2 & Ho & _). split; [done|]. rewrite Hp1 in Hp2. injection Hp2 as <-.
  exists p1. rewrite (kp_binding _ _ Hk2), (kp_config _ _ Hk2) in Ho. done.
Qed.

Lemma step_spec op q : kept q (snd (step op q)) /\ forall e, e ∈ fst (step op q) -> shows q (snd (step op q)) e.
Proof.
  destruct op as [id r fid f|id now out r|id r o now|id r o now|id r b l bs now|]; cbn [step].
  - cbn [fst snd]. split; [|by intros e ?%not_elem_of_nil].
    unfold observe_decoded, mbind, M_bind, refuse_if, modify. destruct (closed q || _ || _ || _ || _); [by apply requestor_kept_same|].
    destruct (is_some_and _ (last_useful q)); by apply requestor_kept_same.
  - pose proof (offer_spec id now out q r) as Ho. destruct (offer id now out q r) as [[res q'] r']. cbn [fst snd].
    destruct Ho as [Hk Ho]. split; [done|]. destruct res as [[[o out']|]|]; cbn [when_ok]; [|by intros e0 ?%not_elem_of_nil..].
    intros e ->%list_elem_of_singleton. destruct Ho as (Hc & p & Hp & (H1 & H2 & H3 & H4) & _). split; [done|]. exists p. split_and!; try done.
    by exists out, out'.
  - pose proof (authorize_write_spec id r o now q) as Ho. unfold wp in Ho. destruct (authorize_write id r o now q) as [[[]|e] q']; cbn [fst snd when_ok] in *;
      destruct Ho as [Hk Ho]; (split; [done|]); [|by intros e' ?%not_elem_of_nil].
    intros e ->%list_elem_of_singleton. destruct Ho as (-> & Hc & p & Hp & Hs & Hu & Hn). split; [done|]. exists p. rewrite Hu. auto.
  - pose proof (authorize_write_spec id r o now q) as Ho. unfold wp in Ho. unfold mark_sent, mbind, M_bind, modify.
    destruct (authorize_write id r o now q) as [[[]|e] q1]; cbn [fst snd when_ok] in *; destruct Ho as [Hk Ho]; [|by split; [|intros e' ?%not_elem_of_nil]].
    destruct Ho as (-> & Hc & p & Hp & Hs & Hu & Hn).
    set (q1 := q <| last_now := Some now |>) in *. assert (pending q1 = Some p) as Hp1 by done. rewrite Hp1. cbn [fmap option_fmap option_map].
    split.
    + eapply kept_trans; [exact Hk|]. split; auto. intros p' Hp'. right. eexists. split; [reflexivity|]. rewrite Hp1 in Hp'. by injection Hp' as <-.
    + intros e ->%list_elem_of_singleton. split; [done|]. eexists. split; [reflexivity|]. unfold is_sent. rewrite Hp. rewrite Hu. auto.
  - pose proof (authorize_replacement_spec id r b l bs now q) as Ho. unfold wp in Ho.
    destruct (authorize_replacement id r b l bs now q) as [[u|e] q']; cbn [fst snd when_ok] in *; destruct Ho as [Hk Ho];
      (split; [done|]); [|by intros e' ?%not_elem_of_nil].
    intros e ->%list_elem_of_singleton. destruct Ho as (-> & Hc & p & Hp & Hs & Hu & Hn). split; [done|]. exists p. auto.
  - split; [by apply kept_stop|by intros e ?%not_elem_of_nil].
Qed.

(** ** Any sequence of calls *)

(** The event shows this request and deadline, or only the deadline, and is in time. *)
Definition about (b : ViewBinding.Binding) (l : Limits.ProtocolLimits) (rq : RecoveryMsg.Request) (u : Z) (e : Event) : Prop :=
  match e with
  | Prepared o packet => ro_until o = u /\ ro_reason o = RecoveryMsg.reason rq
      /\ exists out out', RecoveryMsg.encode rq b l out ViewerToHost Reliable = (Ok (ro_bytes o), out')
                          /\ packet = take (Z.to_nat (ro_bytes o)) out'
  | Written u' now | Sent u' now | Replaced u' now => u' = u /\ now < u
  end.
Definition is_send (e : Event) : bool := match e with Sent _ _ => true | _ => false end.
Definition is_first (e : Event) : bool := match e with Prepared _ _ | Written _ _ | Sent _ _ => true | Replaced _ _ => false end.

Definition settings (q : RecoveryRequestor) : Limits.ProtocolLimits := protocol (limits (config q)).

Lemma closed_run ops : forall q, closed q = true -> fst (run ops q) = [].
Proof.
  induction ops as [|op ops IH]; intros q Hc; [done|]. destruct (step_spec op q) as [Hk Hsh]. pose proof (kp_closed _ _ Hk Hc) as Hc1.
  cbn [run]. destruct (step op q) as [es q1]. cbn [fst snd] in *. specialize (IH q1 Hc1). destruct (run ops q1) as [fs q2]. cbn [fst] in *.
  rewrite IH, app_nil_r. destruct es as [|e es]; [done|]. destruct (Hsh e (list_elem_of_here _ _)) as [? _]. congruence.
Qed.

(** The pending request an event shows is the one there was before. *)
Lemma shows_about q q' p e : kept q q' -> shows q q' e -> pending q = Some p ->
  about (binding q) (settings q) (request p) (until p) e /\ (sent p = true -> is_first e = false).
Proof.
  intros Hk [Hc (p1 & Hp1 & He)] Hp. destruct (kp_pending _ _ Hk p Hp) as [?|(p2 & Hp2 & E1 & E2 & E3)]; [congruence|].
  rewrite Hp1 in Hp2. injection Hp2 as <-. rewrite <- E1, <- E2. unfold is_sent in He. rewrite Hp in He. cbn [is_some_and] in He.
  destruct e; cbn [about is_first]; (split; [naive_solver|]); intros Hs; specialize (E3 Hs); try done; destruct He as [? He]; try destruct He; congruence.
Qed.

(** From a state whose request is settled, every event is about it; from one whose
    request was sent, it is not prepared, written or sent again. *)
Lemma run_about ops : forall q p, pending q = Some p ->
  (forall e, e ∈ fst (run ops q) -> about (binding q) (settings q) (request p) (until p) e)
  /\ (sent p = true -> forall e, e ∈ fst (run ops q) -> is_first e = false).
Proof.
  induction ops as [|op ops IH]; intros q p Hp; [split; [|intros _]; by intros e ?%not_elem_of_nil|].
  destruct (step_spec op q) as [Hk Hsh]. cbn [run]. destruct (step op q) as [es q1]. cbn [fst snd] in *.
  assert (forall e, e ∈ es -> about (binding q) (settings q) (request p) (until p) e /\ (sent p = true -> is_first e = false)) as Hes
    by (intros e He; by apply (shows_about q q1); [|apply Hsh|]).
  assert ((forall e, e ∈ fst (run ops q1) -> about (binding q) (settings q) (request p) (until p) e)
    /\ (sent p = true -> forall e, e ∈ fst (run ops q1) -> is_first e = false)) as [H1 H2].
  { destruct (kp_pending _ _ Hk p Hp) as [Hc|(p1 & Hp1 & E1 & E2 & E3)].
    - rewrite (closed_run ops q1 Hc). split; [|intros _]; by intros e ?%not_elem_of_nil.
    - destruct (IH q1 p1 Hp1) as [I1 I2]. unfold settings in *. rewrite (kp_binding _ _ Hk), (kp_config _ _ Hk), E1, E2 in I1. auto. }
  destruct (run ops q1) as [fs q2]. cbn [fst] in *. split; [|intros Hs]; intros e [He|He]%elem_of_app; [by apply Hes|by auto|by apply Hes|by auto].
Qed.

(** A request is settled by the first event. *)
Lemma run_settles ops : forall q, pending q = None -> fst (run ops q) = [] \/ exists rq u,
  forall e, e ∈ fst (run ops q) -> about (binding q) (settings q) rq u e.
Proof.
  induction ops as [|op ops IH]; intros q Hp; [by left|]. destruct (step_spec op q) as [Hk Hsh]. cbn [run].
  assert (forall e, e ∈ fst (step op q) -> exists p, pending (snd (step op q)) = Some p) as Hes by (intros e He; destruct (Hsh e He) as (_ & p & ? & _); eauto).
  destruct (step op q) as [es q1]. cbn [fst snd] in *. destruct (pending q1) as [p|] eqn:Ep.
  - right. exists (request p), (until p). destruct (run_about ops q1 p Ep) as [Ha _]. unfold settings in *.
    rewrite (kp_binding _ _ Hk), (kp_config _ _ Hk) in Ha. destruct (run ops q1) as [fs q2]. cbn [fst] in *.
    intros e [He|He]%elem_of_app; [|by apply Ha]. destruct (Hsh e He) as [_ (p' & Hp' & Hx)]. rewrite Ep in Hp'. injection Hp' as <-.
    destruct e; cbn [about]; naive_solver.
  - assert (es = []) as -> by (destruct es as [|e es]; [done|]; by destruct (Hes e (list_elem_of_here _ _))).
    specialize (IH q1 Ep). unfold settings in *. rewrite (kp_binding _ _ Hk), (kp_config _ _ Hk) in IH. by destruct (run ops q1).
Qed.

(** Nothing of the request is done again once it was sent. *)
Lemma run_once ops : forall q i j e e', fst (run ops q) !! i = Some e -> is_send e = true ->
  fst (run ops q) !! j = Some e' -> is_first e' = true -> (j <= i)%nat.
Proof.
  induction ops as [|op ops IH]; intros q i j e e' Hi Hs Hj Hf; [done|].
  destruct (step_spec op q) as [Hk Hsh]. assert (length (fst (step op q)) <= 1)%nat as Hlen.
  { destruct op; cbn [step]; [cbn; lia|..|cbn; lia]; unfold when_ok; repeat case_match; cbn; lia. }
  cbn [run] in *. destruct (step op q) as [es q1]. cbn [fst snd] in *. specialize (IH q1). pose proof (run_about ops q1) as Hr.
  destruct (run ops q1) as [fs q2]. cbn [fst] in *. destruct (decide (i < length es)%nat) as [Hlt|Hge].
  - rewrite lookup_app_l in Hi by done. destruct (decide (j < length es)%nat); [lia|]. rewrite lookup_app_r in Hj by lia.
    destruct (Hsh e (list_elem_of_lookup_2 _ _ _ Hi)) as [_ (p & Hp & He)]. destruct e; try done. destruct He as (_ & Hst & _).
    destruct (Hr p Hp) as [_ Hn]. rewrite (Hn Hst e' (list_elem_of_lookup_2 _ _ _ Hj)) in Hf. done.
  - rewrite lookup_app_r in Hi by lia. destruct (decide (j < length es)%nat); [lia|]. rewrite lookup_app_r in Hj by lia.
    specialize (IH _ _ _ _ Hi Hs Hj Hf). lia.
Qed.

(** Recovery is requested once, in one form, in time.  Over any sequence of calls on
    a requestor, with the receiver in whatever state: all prepared records carry
    one request and one deadline and are its encoding under the installed view; every
    write that is authorized or recorded and every replacement is before that
    deadline; and after the request was recorded as sent, it is not prepared,
    authorized or recorded again. *)
Theorem recovery_is_requested_once id r b q ops : new id r b = Ok q ->
  (fst (run ops q) = [] \/ exists rq u, forall e, e ∈ fst (run ops q) -> about b (protocol (limits (Receiver.config r))) rq u e)
  /\ forall i j e e', fst (run ops q) !! i = Some e -> is_send e = true ->
       fst (run ops q) !! j = Some e' -> is_first e' = true -> (j <= i)%nat.
Proof.
  intros Hn. assert (pending q = None /\ binding q = b /\ config q = Receiver.config r) as (Hp & Hb & Hc).
  { unfold new, mbind, Result_bind in Hn. repeat case_match; try done. by injection Hn as <-. }
  split; [|apply run_once]. pose proof (run_settles ops q Hp) as Hs. unfold settings in Hs. by rewrite Hb, Hc in Hs.
Qed.

End RequestorProps.

(** * Recovery from end to end

    A receiver whose reference chain failed, the requestor beside it, the host's
    sending cache and the coalescer of the shared encoder: a prepared request that
    reaches the host is admitted as a demand, which the coalescer accepts. *)

Module RecoveryClaims.
Import Media Delivery Sender SenderInv SenderMethods.
Import ViewProps(view_typed).

(** ** The host's side *)

(** What a cache needs to admit a request that knows this frame. *)
Record admits (now : Z) (c : SendCache) (b : ViewBinding.Binding) (rq : RecoveryMsg.Request) : Prop := {
  ad_open : closed c = false;
  ad_clock : is_some_and (fun last => now <? last) (last_now c) = false;
  ad_deadline : is_some_and (fun until => until <=? now) (recovery_deadline c) = false;
  ad_generation : ViewBinding.configuration b = e_configuration (epoch c) /\ ViewBinding.recovery b = e_recovery (epoch c);
  ad_frame : is_some_and (fun f => is_none_or (fun last => last <? f) (last_inserted c)) (RecoveryMsg.last_useful_frame rq) = false;
  ad_first : is_some_and (fun p => is_some (pr_request p) || is_some (pr_binding p)) (recovery_request c) = false;
  ad_allowance : fst (admit_recovery now (at_time now c)) = Ok tt;
  ad_time : now + recovery_horizon_micros (policy c) <= u64_max
}.

Lemma request_admitted c packet b now rq : admits now c b rq ->
  RecoveryMsg.decode packet b (protocol (limits c)) ViewerToHost Reliable = Ok rq ->
  exists d c', request_recovery packet b now c = (Ok (DemandAccepted d), c') /\ d_request d = rq.
Proof.
  intros [A1 A2 A3 [A4 A4'] A5 A6 A7 A8] Hd. unfold request_recovery, mbind, M_bind, check_clock. rewrite A2.
  fold (at_time now c). set (c1 := at_time now c) in *. unfold refuse_if, check_recovery_deadline, readr, gets, method, modify.
  assert (closed c1 = false /\ recovery_deadline c1 = recovery_deadline c /\ epoch c1 = epoch c /\ limits c1 = limits c
    /\ last_inserted c1 = last_inserted c /\ recovery_request c1 = recovery_request c /\ policy c1 = policy c) as (E1 & E2 & E3 & E4 & E5 & E6 & E7) by done.
  rewrite E1, E2, A3, E3, A4, A4', !Z.eqb_refl. cbn [negb orb]. rewrite E4, Hd. cbn [wire map_err]. rewrite E5, A5, E6.
  assert (is_some_and (fun p => is_some_and (fun installed => negb (bool_decide (installed = b))) (pr_binding p)) (recovery_request c) = false) as ->
    by (destruct (recovery_request c) as [p|]; [|done]; cbn in *; apply orb_false_iff in A6 as [_ A6]; by destruct (pr_binding p)).
  assert (is_some_and (fun p => is_some (pr_request p)) (recovery_request c) = false) as ->
    by (destruct (recovery_request c) as [p|]; [|done]; cbn in *; by apply orb_false_iff in A6 as [A6 _]).
  assert (exists u, match recovery_deadline c1 with
      | Some until => (Ok until, c1)
      | None => match deadline now (recovery_horizon_micros (policy c1)) with Ok until => (Ok until, c1) | Err e => (Err (SDelivery e), close c1) end
      end = (Ok u, c1)) as [u ->].
  { rewrite E2, E7. destruct (recovery_deadline c) as [u|]; [by exists u|]. unfold deadline, checked_add.
    destruct (Z.leb_spec (now + recovery_horizon_micros (policy c)) u64_max); [by eexists|lia]. }
  destruct (admit_recovery now c1) as [[[]|e] c2]; [|done]. do 2 eexists. split; reflexivity.
Qed.

(** A demand is good for the cache that issued it, until its deadline. *)
Lemma demand_checks Q c packet b now d c' : inv Q c -> 0 <= now -> request_recovery packet b now c = (Ok (DemandAccepted d), c') ->
  now < d_until d -> check_demand d c' now = Ok tt.
Proof.
  intros Hi Hn Hr Hlt. pose proof (request_spec Q c packet b now Hi Hn) as Hs. unfold wp in Hs. rewrite Hr in Hs. cbn [fst snd] in Hs.
  destruct Hs as [[_ [S1 _ _ S4 _] _ _ _ _ _] [(D1 & D2 & _) D3 D4 _ _]]. unfold check_demand, own_offer. rewrite D1, D2, D3, D4, S1, S4. cbn.
  rewrite Z.eqb_refl, bool_decide_eq_true_2, Z.eqb_refl, bool_decide_eq_true_2 by done. cbn. by destruct (Z.leb_spec (d_until d) now); [lia|].
Qed.

(** ** Across *)

(** A requestor with values of the types of the program. *)
Definition requestor_typed (q : Requestor.RecoveryRequestor) : Prop :=
  view_typed (Requestor.binding q) /\ ViewBinding.validate (Requestor.binding q) = Ok tt
  /\ RecoveryMsgProps.known_typed u64_max (Requestor.last_useful q)
  /\ forall p, Requestor.pending q = Some p -> RecoveryMsgProps.request_typed (Requestor.request p).

Lemma body_length b rq : length (RecoveryMsgProps.body b rq) = 107%nat.
Proof.
  unfold RecoveryMsgProps.body, RecoveryMsgProps.request_bytes. rewrite !length_app, ViewProps.view_length.
  unfold RecoveryMsgProps.reason_bytes, RecoveryMsgProps.known_bytes. rewrite !length_app, !be_length. done.
Qed.

(** What was offered is read back by whoever has the view. *)
Lemma offer_read q q' out o out' l : requestor_typed q -> RequestorProps.offered out q q' o out' ->
  protocol (Assembly.limits (Requestor.config q)) = l -> 131 <= control_bytes l -> 131 <= Z.of_nat (length out) <= usize_max ->
  exists p, Requestor.pending q' = Some p /\ Requestor.until p = Requestor.ro_until o
    /\ RecoveryMsg.decode (take (Z.to_nat (Requestor.ro_bytes o)) out') (Requestor.binding q) l ViewerToHost Reliable = Ok (Requestor.request p).
Proof.
  intros (Hv & Hval & Hlu & Hpt) (_ & p & Hp & (_ & Hu & _ & He) & Hw) <- Hl Hout. exists p. split; [done|]. split; [done|].
  assert (RecoveryMsgProps.request_typed (Requestor.request p)) as Ht.
  { destruct Hw as [Hw|[_ Hw]]; [by apply Hpt|]. unfold RecoveryMsgProps.request_typed. by rewrite Hw. }
  assert (cb_id (ViewBinding.parent (Requestor.binding q)) <> 0) as Hnz.
  { unfold ViewBinding.validate in Hval. destruct (_ || _) eqn:E; [done|]. guards. lia. }
  pose proof (RecoveryMsgProps.recovery_request_codec (Requestor.binding q) (protocol (Assembly.limits (Requestor.config q)))
    ViewerToHost Reliable Hv Hnz) as Hc.
  assert (routed (_ ← ViewBinding.validate (Requestor.binding q); RecoveryMsg.role ViewerToHost Reliable) (Requestor.request p)) as Hr
    by (unfold routed; by rewrite Hval).
  assert (fits_record (RecoveryMsgProps.body (Requestor.binding q)) (control_bytes (protocol (Assembly.limits (Requestor.config q)))) (Requestor.request p)) as Hf
    by (unfold fits_record; rewrite body_length; lia).
  pose proof (codec_writes _ _ _ _ _ _ _ _ Hc (Requestor.request p) out Ht Hr Hf) as Hwr. cbn beta in Hwr.
  rewrite body_length in Hwr. specialize (Hwr ltac:(lia) ltac:(lia)). rewrite Hwr in He.
  assert (Requestor.ro_bytes o = Z.of_nat (24 + 107)
    /\ out' = frame_of RecoveryRequest (cb_id (ViewBinding.parent (Requestor.binding q))) (RecoveryMsgProps.body (Requestor.binding q) (Requestor.request p)) []
               ++ drop (24 + 107) out) as [-> ->] by (split; congruence).
  rewrite Nat2Z.id, take_app_length' by (rewrite frame_length, body_length; done).
  by apply (codec_reads _ _ _ _ _ _ _ _ Hc).
Qed.

(** C31. A failed receiver reaches the encoder.  The record a requestor prepares when its
    receiver's chain has failed, once it arrives at a host that installed the same
    view and can still admit a recovery, becomes a demand with exactly the reason and
    the last useful frame the requestor stated; the host's cache is fenced; and
    the coalescer of the shared encoder accepts the demand and owes it an intra
    picture until the demand's deadline, which has not passed. *)
Theorem failed_receiver_reaches_the_encoder `{SendLayout} id now out q r o out' q' r' c now2 iq :
  requestor_typed q -> Requestor.offer id now out q r = (Ok (Some (o, out')), q', r') ->
  131 <= Z.of_nat (length out) <= usize_max ->
  SenderSession.reachable c -> protocol (Assembly.limits (Requestor.config q)) = protocol (limits c) ->
  131 <= control_bytes (protocol (limits c)) -> 0 <= now2 ->
  (forall p, Requestor.pending q' = Some p -> admits now2 c (Requestor.binding q) (Requestor.request p)) ->
  Idr.reachable iq -> Idr.closed iq = false -> Idr.clock iq <= now2 ->
  exists p d c' iq',
    Requestor.pending q' = Some p
    /\ request_recovery (take (Z.to_nat (Requestor.ro_bytes o)) out') (Requestor.binding q) now2 c = (Ok (DemandAccepted d), c')
    /\ d_request d = Requestor.request p /\ stopped c' = true /\ now2 < d_until d
    /\ Idr.queue c' d now2 iq = (Ok tt, iq') /\ Idr.owed (d_until d) iq'.
Proof.
  intros Hq Ho Hout Hr Hl Hc Hn Had Hir Hic Hik. pose proof (RequestorProps.offer_spec id now out q r) as Hs. rewrite Ho in Hs.
  destruct Hs as [_ Hs]. destruct (offer_read q q' out o out' (protocol (limits c)) Hq Hs Hl Hc Hout) as (p & Hp & _ & Hd).
  specialize (Had p Hp). destruct (request_admitted c _ _ now2 _ Had Hd) as (d & c' & Hreq & Hdr).
  pose proof (SenderSession.sender_reachable_inv c Hr) as Hi. pose proof (request_spec _ c (take (Z.to_nat (Requestor.ro_bytes o)) out') (Requestor.binding q) now2 Hi Hn) as Hrs.
  unfold wp in Hrs. rewrite Hreq in Hrs. cbn [fst snd] in Hrs. destruct Hrs as [_ Hdm].
  assert (now2 < d_until d) as Hlt.
  { pose proof (sender_policy_bounds _ _ (iv_policy _ _ Hi)). destruct (dm_until _ _ _ _ _ Hdm) as [E|[_ ->]]; [|lia].
    pose proof (ad_deadline _ _ _ _ Had) as Hx. rewrite E in Hx. cbn in Hx. lia. }
  pose proof (Idr.queue_owed c' d now2 iq Hn (Idr.idr_reachable_inv iq Hir)) as Hio.
  assert (Idr.queue c' d now2 iq = (Ok tt, Idr.coalesce now2 (d_until d) (Idr.at_time now2 iq))) as Hqueue.
  { unfold Idr.queue, mbind, M_bind, Idr.check_clock. rewrite Hic.
    assert (is_some_and (fun last => now2 <? last) (Idr.last_now iq) = false) as ->.
    { unfold Idr.clock in Hik. destruct (Idr.last_now iq) as [l|]; [|done]. by apply Z.ltb_ge. }
    unfold lift. by rewrite (demand_checks _ c _ _ now2 d c' Hi Hn Hreq Hlt). }
  unfold wp in Hio. rewrite Hqueue in Hio. cbn [fst snd] in Hio. exists p, d, c', (Idr.coalesce now2 (d_until d) (Idr.at_time now2 iq)).
  destruct (Hio Hic) as (_ & Hod & _). split_and!; try done; [|by apply Hod]. unfold stopped. destruct (dm_fenced _ _ _ _ _ Hdm) as (-> & _ & _). apply orb_true_r.
Qed.

(** ** Concrete runs *)

Import SenderSession(run, call).
Import Network(demo_sender, demo_sender_made).
Import SenderClaims(demo_pushes, demo_pushes_typed, demo_waiting).
#[local] Existing Instance Network.demo_send_layout.

Definition demo_view : ViewBinding.Binding := ViewBinding.mk_view (mk_control 9 1 2 3) 4 0 1 0 0.
Definition demo_viewer : Receiver.ReceivePipeline := ReceiverSession.rx ReceiverClaims.demo_waiting.
Definition demo_requestor : Requestor.RecoveryRequestor :=
  Requestor.mk_requestor (0, 0) (Receiver.config demo_viewer) demo_view None None None false.
Definition demo_offered := Requestor.offer 0 9000000 (zeros 140) demo_requestor demo_viewer.
Definition demo_packet : bytes :=
  match demo_offered with (Ok (Some (o, out)), _, _) => take (Z.to_nat (Requestor.ro_bytes o)) out | _ => [] end.
Definition demo_idr : Idr.IdrCoalescer := Idr.mk_idr 500000 0 None None false.

Lemma demo_idr_reachable : Idr.reachable demo_idr.
Proof. by exists 500000, demo_idr, []. Qed.

Lemma demo_waiting_sender : SenderSession.reachable demo_waiting.
Proof. do 7 eexists. split_and!; [apply demo_sender_made|apply demo_pushes_typed|reflexivity]. Qed.

Lemma failed_receiver_reaches_the_encoder_witness : exists d c' iq',
  request_recovery demo_packet demo_view 1200 demo_waiting = (Ok (DemandAccepted d), c')
  /\ Idr.queue c' d 1200 demo_idr = (Ok tt, iq') /\ Idr.owed (d_until d) iq'.
Proof.
  destruct (Requestor.offer 0 9000000 (zeros 140) demo_requestor demo_viewer) as [[[[[o out]|]|e] q'] r'] eqn:E;
    [|exfalso; vm_compute in E; discriminate E..].
  destruct (failed_receiver_reaches_the_encoder 0 9000000 (zeros 140) demo_requestor demo_viewer o out q' r' demo_waiting 1200 demo_idr)
    as (p & d & c' & iq' & _ & H1 & _ & _ & _ & H2 & H3).
  - split_and!; [split; [vm_compute; split; discriminate|repeat constructor; vm_compute; discriminate]|reflexivity|exact I|].
    intros p Hp. discriminate Hp.
  - exact E.
  - vm_compute. split; discriminate.
  - exact demo_waiting_sender.
  - vm_compute. reflexivity.
  - vm_compute. discriminate.
  - lia.
  - intros p Hp. vm_compute in E. injection E as <- <- <- <-. injection Hp as <-.
    split; [reflexivity|reflexivity|reflexivity|split; reflexivity|reflexivity|reflexivity|vm_compute; reflexivity|vm_compute; discriminate].
  - exact demo_idr_reachable.
  - reflexivity.
  - vm_compute. discriminate.
  - exists d, c', iq'. split; [|split; [exact H2|exact H3]]. unfold demo_packet, demo_offered. rewrite E. exact H1.
Defined.

(** The demand the host makes of that request, and its cache then. *)
Definition demo_demand : RecoveryDemand :=
  match fst (request_recovery demo_packet demo_view 1200 demo_waiting) with
  | Ok (DemandAccepted d) => d
  | _ => mk_demand (mk_origin 0 (mk_epoch 0 0)) (RecoveryMsg.mk_request RecoveryMsg.DecodeFailed None) 0
  end.
Definition demo_fenced : SendCache := snd (request_recovery demo_packet demo_view 1200 demo_waiting).
(** A newcomer takes the credit; the demand then waits for the next. *)
Definition demo_orders : list Idr.Op :=
  [Idr.Capture 1100 (Some 5000) true; Idr.Queue demo_fenced demo_demand 1200; Idr.Capture 1300 None true;
   Idr.Capture 501100 (Some 5000000) true].

Lemma intra_pictures_are_paced_witness : fst (Idr.run demo_orders demo_idr) = [1100; 501100] /\ 500000 <= 501100 - 1100.
Proof.
  split; [vm_compute; reflexivity|].
  destruct (Idr.intra_pictures_are_paced 500000 demo_idr demo_orders) as [_ Hp].
  - reflexivity.
  - repeat constructor.
  - apply (Hp 0%nat 1100 501100); vm_compute; reflexivity.
Defined.

Definition demo_spent : Idr.IdrCoalescer := snd (Idr.run [Idr.Capture 1100 (Some 5000) true] demo_idr).
Definition demo_owing : Idr.IdrCoalescer := snd (Idr.queue demo_fenced demo_demand 1200 demo_spent).

Lemma shared_demand_is_served_witness :
  fst (Idr.admit_capture 501200 None true (snd (Idr.run [Idr.Capture 1300 None true] demo_owing))) = Ok (true, None).
Proof.
  apply (Idr.shared_demand_is_served demo_spent demo_fenced demo_demand 1200 demo_owing [Idr.Capture 1300 None true]).
  - exists 500000, demo_idr, [Idr.Capture 1100 (Some 5000) true]. split; [reflexivity|]. split; [repeat constructor|reflexivity].
  - lia.
  - vm_compute. reflexivity.
  - repeat constructor.
  - reflexivity.
  - vm_compute. reflexivity.
  - vm_compute. reflexivity.
  - vm_compute. reflexivity.
  - vm_compute. split; [discriminate|reflexivity].
  - vm_compute. discriminate.
  - vm_compute. discriminate.
Defined.

Definition demo_offer : Requestor.RecoveryOffer :=
  match demo_offered with (Ok (Some (o, _)), _, _) => o | _ => Requestor.mk_recovery_offer (0, 0) 0 0 RecoveryMsg.DecodeFailed end.
Definition demo_failed : Receiver.ReceivePipeline := snd demo_offered.
Definition demo_asks : list RequestorProps.Op :=
  [RequestorProps.Offer 0 9000000 (zeros 140) demo_viewer; RequestorProps.MarkSent 0 demo_failed demo_offer 9000001;
   RequestorProps.Offer 0 9000002 (zeros 140) demo_failed].

Lemma recovery_is_requested_once_witness :
  fst (RequestorProps.run demo_asks demo_requestor) = [RequestorProps.Prepared demo_offer demo_packet; RequestorProps.Sent 11000000 9000001]
  /\ forall j e, fst (RequestorProps.run demo_asks demo_requestor) !! j = Some e -> RequestorProps.is_first e = true -> (j <= 1)%nat.
Proof.
  split; [vm_compute; reflexivity|].
  destruct (RequestorProps.recovery_is_requested_once 0 demo_viewer demo_view demo_requestor demo_asks) as [_ Ho].
  - vm_compute. reflexivity.
  - intros j e Hj He. apply (Ho 1%nat j (RequestorProps.Sent 11000000 9000001) e); [vm_compute; reflexivity|reflexivity|exact Hj|exact He].
Defined.

End RecoveryClaims.
