(* ===== verification/SharedPool.v ===== *)
(** * The shared frame pool

    [SharedFramePool] of [fr-media/src/delivery/shared.rs], the physical ledger of the
    encoded pictures one encoder shares among its viewers, and
    [EncodedAccessUnit] of [access_unit.rs].

    A reservation is held by one owner; a shared frame by any number of clones of
    one allocation.  The world below holds the ledger and every live owner:
    dropping a reservation, or the last clone of a frame, returns its credit. *)

From S2P Require Import Prelude.
From S2P Require Import Bytes.
From S2P Require Import Limits.
From S2P Require Import WireRecord.
From S2P Require Import WireMediaProps.
From S2P Require Import Delivery.
From S2P Require Import ReceiverInv.
From S2P Require Import Sender.

Module SharedPool.
Import Delivery.
Import Sender(FrameKind, Idr, SharedFrame, mk_shared, sf_bytes, allocation_charge).
Import ReceiverInv(flatten_app, flatten_at, flatten_insert, cons_option).

Definition MAX_PICTURES : Z := 64.

(** [Allocation::METADATA_BYTES], the size of two structures. *)
Class PoolLayout := { METADATA_BYTES : Z; metadata_positive : 0 < METADATA_BYTES }.

(** ** Access units *)

(** [capacity] is that of the vector. *)
Record EncodedAccessUnit := mk_unit {
  au_frame : Z;
  au_kind : FrameKind;
  config_generation : Z;
  au_capture_micros : Z;
  au_bytes : bytes;
  au_capacity : Z
}.
Definition len (b : bytes) : Z := Z.of_nat (length b).

Definition new_unit (limits : Limits.ProtocolLimits) (f : Z) (k : FrameKind) (g capture : Z) (b : bytes) (capacity : Z)
  : Result LimitsError EncodedAccessUnit :=
  _ ← Limits.validate_access_unit_len limits (len b);
  if bool_decide (b = []) then Err ZeroDimension else Ok (mk_unit f k g capture b capacity).

(** ** The ledger *)

Record Pool := mk_pool {
  used_bytes : Z;
  used_pictures : Z;
  maximum_bytes : Z;
  maximum_pictures : Z;
  pool_limits : Limits.ProtocolLimits
}.
#[export] Instance eta_pool : Eta Pool := fun p =>
  mk_pool (used_bytes p) (used_pictures p) (maximum_bytes p) (maximum_pictures p) (pool_limits p).

Section pool.
Context `{PoolLayout}.

Definition new (limits : Limits.ProtocolLimits) (maximum_bytes maximum_pictures : Z) : Result DeliveryError Pool :=
  if (maximum_bytes <=? METADATA_BYTES) || negb (maximum_bytes <=? Limits.per_viewer_compressed_bytes limits)
     || negb ((1 <=? maximum_pictures) && (maximum_pictures <=? MAX_PICTURES))
  then Err InvalidPolicy else Ok (mk_pool 0 0 maximum_bytes maximum_pictures limits).

Definition maximum_capacity (p : Pool) : Z := maximum_bytes p - METADATA_BYTES.

Definition can_share_capacity (p : Pool) (capacity : Z) : bool :=
  match (charge ← checked_add usize_max capacity METADATA_BYTES; checked_add usize_max (used_bytes p) charge) with
  | Some total => (total <=? maximum_bytes p) && (used_pictures p <? maximum_pictures p)
  | None => false
  end.

(** Take a picture slot and the bytes a capacity costs. *)
Definition charge (capacity : Z) : M Pool DeliveryError Z := fun p =>
  match (charged ← ok_or (checked_add usize_max capacity METADATA_BYTES) DResourceLimit;
         total ← ok_or (checked_add usize_max (used_bytes p) charged) DResourceLimit;
         if (maximum_bytes p <? total) || (maximum_pictures p <=? used_pictures p) then Err DResourceLimit
         else Ok (charged, total)) with
  | Err e => (Err e, p)
  | Ok (charged, total) => (Ok charged, p <| used_bytes := total |> <| used_pictures := used_pictures p + 1 |>)
  end.

(** [SharedPermit::drop]. *)
Definition release (charged : Z) (p : Pool) : Pool :=
  p <| used_bytes := used_bytes p - charged |> <| used_pictures := used_pictures p - 1 |>.

Definition reserve_capacity (maximum : Z) : M Pool DeliveryError Z :=
  _ ← refuse_if (fun _ => maximum =? 0) (fun _ => DResourceLimit);
  charge maximum.

Definition frame_of (u : EncodedAccessUnit) (charged : Z) : SharedFrame :=
  mk_shared (au_frame u) (au_kind u) (config_generation u) (au_capture_micros u) (au_bytes u) charged.

Definition share (u : EncodedAccessUnit) : M Pool DeliveryError SharedFrame :=
  _ ← readr (fun p => map_err (fun _ => DResourceLimit) (Limits.validate_access_unit_len (pool_limits p) (len (au_bytes u))));
  charged ← charge (au_capacity u);
  mret (frame_of u charged).

(** [SharedFrameReservation::share]: the reservation is consumed; a refusal drops it. *)
Definition reservation_share (charged : Z) (u : EncodedAccessUnit) : M Pool DeliveryError SharedFrame := fun p =>
  match Limits.validate_access_unit_len (pool_limits p) (len (au_bytes u)) with
  | Err _ => (Err DResourceLimit, release charged p)
  | Ok _ =>
      if charged - METADATA_BYTES <? au_capacity u then (Err DResourceLimit, release charged p)
      else
        let actual := au_capacity u + METADATA_BYTES in
        (Ok (frame_of u actual), p <| used_bytes := used_bytes p - (charged - actual) |>)
  end.

(** ** Every owner *)

Inductive Owner := Reservation (charged : Z) | Frame (f : SharedFrame) (clones : nat).
Definition owner_charge (o : Owner) : Z := match o with Reservation c => c | Frame f _ => allocation_charge f end.

Record World := mk_world { pool : Pool; owners : list (option Owner) }.

Inductive Op :=
| Reserve (maximum : Z)
| Share (u : EncodedAccessUnit)
| Convert (i : nat) (u : EncodedAccessUnit)
| Clone (i : nat)
| Drop (i : nat).

(** A new owner, if the pool granted one. *)
Definition granted {A} (own : A -> Owner) (r : Result DeliveryError A * Pool) (w : World) : World :=
  mk_world (snd r) (owners w ++ match fst r with Ok a => [Some (own a)] | Err _ => [] end).

Definition step (op : Op) (w : World) : World :=
  match op with
  | Reserve maximum => granted Reservation (reserve_capacity maximum (pool w)) w
  | Share u => granted (fun f => Frame f 1) (share u (pool w)) w
  | Convert i u =>
      match owners w !! i with
      | Some (Some (Reservation charged)) =>
          let r := reservation_share charged u (pool w) in
          mk_world (snd r) (<[i := match fst r with Ok f => Some (Frame f 1) | Err _ => None end]> (owners w))
      | _ => w
      end
  | Clone i =>
      match owners w !! i with
      | Some (Some (Frame f n)) => mk_world (pool w) (<[i := Some (Frame f (S n))]> (owners w))
      | _ => w
      end
  | Drop i =>
      match owners w !! i with
      | Some (Some (Frame f (S (S n)))) => mk_world (pool w) (<[i := Some (Frame f (S n))]> (owners w))
      | Some (Some o) => mk_world (release (owner_charge o) (pool w)) (<[i := None]> (owners w))
      | _ => w
      end
  end.

Fixpoint run (ops : list Op) (w : World) : World := match ops with [] => w | op :: ops => run ops (step op w) end.

Lemma access_unit_fits l n u : Limits.validate_access_unit_len l n = Ok u -> n <= Limits.max_encoded_access_unit_bytes l.
Proof.
  unfold Limits.validate_access_unit_len, Limits.validate_len. destruct (negb _); [done|]. by destruct (Z.ltb_spec (Limits.max_encoded_access_unit_bytes l) n).
Qed.

(** ** The invariant *)

Definition unit_typed (u : EncodedAccessUnit) : Prop := len (au_bytes u) <= au_capacity u.
(** A vector has room for its bytes, and indices and sizes are unsigned. *)
Definition op_typed (op : Op) : Prop :=
  match op with Reserve maximum => 0 <= maximum | Share u | Convert _ u => unit_typed u | _ => True end.

Definition owner_ok (limits : Limits.ProtocolLimits) (o : Owner) : Prop :=
  match o with
  | Reservation charged => METADATA_BYTES < charged
  | Frame f n => (0 < n)%nat /\ len (sf_bytes f) + METADATA_BYTES <= allocation_charge f
                 /\ len (sf_bytes f) <= Limits.max_encoded_access_unit_bytes limits
  end.

Fixpoint charges (l : list Owner) : Z := match l with [] => 0 | o :: l => owner_charge o + charges l end.
Lemma pool_charges_app l1 l2 : charges (l1 ++ l2) = charges l1 + charges l2.
Proof. induction l1 as [|o l1 IH]; cbn; lia. Qed.

Record inv (w : World) : Prop := {
  iv_bytes : used_bytes (pool w) = charges (flatten (owners w));
  iv_pictures : used_pictures (pool w) = Z.of_nat (length (flatten (owners w)));
  iv_bound : used_bytes (pool w) <= maximum_bytes (pool w) /\ used_pictures (pool w) <= maximum_pictures (pool w);
  iv_owners : Forall (owner_ok (pool_limits (pool w))) (flatten (owners w))
}.

Definition same_bounds (p p' : Pool) : Prop :=
  maximum_bytes p' = maximum_bytes p /\ maximum_pictures p' = maximum_pictures p /\ pool_limits p' = pool_limits p.

(** One owner more, or one owner's entry changed. *)
Lemma inv_push w p o : inv w -> same_bounds (pool w) p -> owner_ok (pool_limits p) o ->
  used_bytes p = used_bytes (pool w) + owner_charge o -> used_pictures p = used_pictures (pool w) + 1 ->
  used_bytes p <= maximum_bytes p -> used_pictures p <= maximum_pictures p -> inv (mk_world p (owners w ++ [Some o])).
Proof.
  intros [I1 I2 I3 I4] (B1 & B2 & B3) Ho U1 U2 L1 L2. split; cbn [pool owners]; rewrite ?flatten_app; change (flatten [Some o]) with [o].
  - rewrite pool_charges_app. cbn. lia.
  - rewrite length_app. cbn. lia.
  - done.
  - rewrite B3 in *. apply Forall_app. auto.
Qed.

Lemma inv_update w p i o o' : inv w -> same_bounds (pool w) p -> owners w !! i = Some (Some o) ->
  (forall x, o' = Some x -> owner_ok (pool_limits p) x) ->
  used_bytes p = used_bytes (pool w) - owner_charge o + default 0 (owner_charge <$> o') ->
  used_pictures p = used_pictures (pool w) - 1 + (if o' then 1 else 0) -> default 0 (owner_charge <$> o') <= owner_charge o ->
  inv (mk_world p (<[i := o']> (owners w))).
Proof.
  intros [I1 I2 I3 I4] (B1 & B2 & B3) Hi Ho U1 U2 Hle. pose proof (lookup_lt_Some _ _ _ Hi) as Hlt.
  rewrite (flatten_at _ _ _ Hi) in I1, I2, I4. cbn [cons_option] in *. rewrite pool_charges_app in I1. cbn [charges] in I1.
  rewrite length_app in I2. cbn [length] in I2. apply Forall_app in I4 as [F1 F2]. inversion_clear F2 as [|? ? F3 F4].
  split; cbn [pool owners]; rewrite ?flatten_insert by done.
  - rewrite pool_charges_app. destruct o'; cbn in *; lia.
  - rewrite length_app. destruct o'; cbn in *; lia.
  - rewrite B1, B2. destruct o'; cbn in *; lia.
  - rewrite B3. apply Forall_app. split; [done|]. destruct o' as [x|]; cbn [cons_option]; [|done]. constructor; [|done]. rewrite <- B3. by apply Ho.
Qed.

Lemma charge_spec capacity p : wp (charge capacity) p (fun r p' => match r with
  | Ok charged => charged = capacity + METADATA_BYTES /\ same_bounds p p' /\ used_bytes p' = used_bytes p + charged
      /\ used_pictures p' = used_pictures p + 1 /\ used_bytes p' <= maximum_bytes p' /\ used_pictures p' <= maximum_pictures p'
  | Err _ => p' = p
  end).
Proof.
  unfold wp, charge, ok_or, checked_add, mbind, Result_bind. destruct (capacity + METADATA_BYTES <=? usize_max); [|done].
  destruct (used_bytes p + _ <=? usize_max); [|done]. destruct (_ || _) eqn:E; [done|]. apply orb_false_iff in E as [E1%Z.ltb_ge E2%Z.leb_gt].
  cbn. split_and!; try done; lia.
Qed.

Lemma step_inv op w : op_typed op -> inv w -> inv (step op w) /\ same_bounds (pool w) (pool (step op w)).
Proof.
  intros Hty Hi. assert (same_bounds (pool w) (pool w)) as Hsame by done. pose proof metadata_positive as Hmeta.
  destruct op as [maximum|u|i u|i|i]; cbn [step op_typed] in *.
  - unfold granted, reserve_capacity, mbind, M_bind, refuse_if. destruct (Z.eqb_spec maximum 0) as [|Hne].
    { cbn [fst snd]. rewrite app_nil_r. by destruct w. }
    pose proof (charge_spec maximum (pool w)) as Hc. unfold wp in Hc. destruct (charge maximum (pool w)) as [[c|e] p]; cbn [fst snd] in *.
    + destruct Hc as (-> & Hb & U1 & U2 & L1 & L2). split; [|done]. apply inv_push; try done. cbn. lia.
    + subst p. rewrite app_nil_r. by destruct w.
  - unfold granted, share, mbind, M_bind, readr. destruct (Limits.validate_access_unit_len _ _) as [[]|] eqn:Ev; cbn [map_err].
    2: { cbn [fst snd]. rewrite app_nil_r. by destruct w. }
    pose proof (charge_spec (au_capacity u) (pool w)) as Hc. unfold wp in Hc. destruct (charge (au_capacity u) (pool w)) as [[c|e] p]; cbn [fst snd mret M_ret] in *.
    + destruct Hc as (-> & Hb & U1 & U2 & L1 & L2). split; [|done]. apply inv_push; try done. cbn [owner_ok frame_of sf_bytes allocation_charge].
      destruct Hb as (_ & _ & ->). unfold unit_typed in Hty. split_and!; [lia|lia|]. by eapply access_unit_fits.
    + subst p. rewrite app_nil_r. by destruct w.
  - destruct (owners w !! i) as [[[c|f n]|]|] eqn:Eo; [|done..].
    pose proof (iv_owners _ Hi) as Hf. rewrite (flatten_at _ _ _ Eo) in Hf. apply Forall_app in Hf as [_ Hf]. inversion_clear Hf as [|? ? Hc _]. cbn in Hc.
    unfold reservation_share. destruct (Limits.validate_access_unit_len _ _) as [[]|] eqn:Ev; cbn [fst snd].
    2: { split; [|done]. eapply inv_update; try done; cbn; lia. }
    destruct (Z.ltb_spec (c - METADATA_BYTES) (au_capacity u)) as [Hgt|Hle]; cbn [fst snd].
    { split; [|done]. eapply inv_update; try done; cbn; lia. }
    split; [|done]. unfold unit_typed in Hty. eapply inv_update; try done; [|cbn; lia..]. intros x [= <-]. cbn.
    split_and!; [lia|lia|]. by eapply access_unit_fits.
  - destruct (owners w !! i) as [[[c|f n]|]|] eqn:Eo; [done| |done..]. split; [|done].
    pose proof (iv_owners _ Hi) as Hf. rewrite (flatten_at _ _ _ Eo) in Hf. apply Forall_app in Hf as [_ Hf]. inversion_clear Hf as [|? ? Hc _]. cbn in Hc.
    eapply inv_update; try done; [|cbn; lia..]. intros x [= <-]. cbn. split; [lia|apply Hc].
  - destruct (owners w !! i) as [[[c|f [|[|n]]]|]|] eqn:Eo; [..|done|done]; (split; [|done]).
    all: pose proof (iv_owners _ Hi) as Hf; rewrite (flatten_at _ _ _ Eo) in Hf; apply Forall_app in Hf as [_ Hf];
      inversion_clear Hf as [|? ? Hc _]; cbn in Hc.
    4: { eapply inv_update; try done; [|cbn; lia..]. intros x [= <-]. cbn. split; [lia|apply Hc]. }
    all: eapply inv_update; try done; cbn; unfold len in *; lia.
Qed.

Lemma run_pool ops : forall w, Forall op_typed ops -> inv w -> inv (run ops w) /\ same_bounds (pool w) (pool (run ops w)).
Proof.
  induction ops as [|op ops IH]; intros w Hty Hi; [done|]. inversion_clear Hty as [|? ? Ht Hty']. destruct (step_inv op w Ht Hi) as [Hi' (B1 & B2 & B3)].
  destruct (IH _ Hty' Hi') as [Hi2 (C1 & C2 & C3)]. cbn [run]. split; [done|]. unfold same_bounds. split_and!; congruence.
Qed.

(** C32. The pool accounts for every shared picture exactly once.  Over any sequence of
    reservations, conversions (also refused ones), direct shares, clones and drops in
    any order, the ledger's bytes are the sum of the charges of the live
    reservations and allocations and its pictures are their number, however many
    clones an allocation has; they stay within the pool's bounds, which are within what
    one viewer may hold; every allocation is charged at least its bytes and metadata
    and is within the picture limit; and when every owner is gone, all credit is back. *)
Theorem shared_pool_is_exact limits bytes_max pictures_max p ops :
  new limits bytes_max pictures_max = Ok p -> Forall op_typed ops ->
  let w := run ops (mk_world p []) in
  used_bytes (pool w) = charges (flatten (owners w)) /\ used_pictures (pool w) = Z.of_nat (length (flatten (owners w)))
  /\ used_bytes (pool w) <= bytes_max <= Limits.per_viewer_compressed_bytes limits
  /\ used_pictures (pool w) <= pictures_max <= 64
  /\ (forall f n, Frame f n ∈ flatten (owners w) ->
       (0 < n)%nat /\ len (sf_bytes f) + METADATA_BYTES <= allocation_charge f
       /\ len (sf_bytes f) <= Limits.max_encoded_access_unit_bytes limits)
  /\ (flatten (owners w) = [] -> used_bytes (pool w) = 0 /\ used_pictures (pool w) = 0).
Proof.
  intros Hn Hty. unfold new in Hn. destruct (_ || _) eqn:E; [done|]. injection Hn as <-. pose proof metadata_positive as Hmeta.
  apply orb_false_iff in E as [E E3%negb_false_iff]. apply orb_false_iff in E as [E1%Z.leb_gt E2%negb_false_iff%Z.leb_le].
  apply andb_true_iff in E3 as [E3%Z.leb_le E4%Z.leb_le]. unfold MAX_PICTURES in E4.
  set (p := mk_pool 0 0 bytes_max pictures_max limits). assert (inv (mk_world p [])) as Hi by (split; cbn; try done; lia).
  destruct (run_pool ops _ Hty Hi) as [[I1 I2 [I3 I3'] I4] (B1 & B2 & B3)]. cbn [pool p maximum_bytes maximum_pictures pool_limits] in B1, B2, B3.
  cbv zeta. split_and!; try done; try lia.
  - intros f n Hf. rewrite Forall_forall in I4. specialize (I4 _ Hf). by rewrite B3 in I4.
  - intros Hw. rewrite I1, I2, Hw. done.
Qed.

End pool.

(** A reservation that is converted into a smaller picture, cloned and dropped once. *)
#[local] Instance demo_pool_layout : PoolLayout.
Proof. refine {| METADATA_BYTES := 80 |}. done. Defined.
Definition demo_pool : Pool := mk_pool 0 0 1000 2 Limits.ABSOLUTE.
Definition demo_unit : EncodedAccessUnit := mk_unit 1 (Idr 0) 1 900 (map Z.of_nat (seq 0 40)) 64.
Definition demo_ops : list Op := [Reserve 500; Reserve 1000; Convert 0 demo_unit; Clone 0; Drop 0].

Lemma shared_pool_is_exact_witness :
  used_bytes (pool (run demo_ops (mk_world demo_pool []))) = 144 /\ used_pictures (pool (run demo_ops (mk_world demo_pool []))) <= 2.
Proof.
  split; [vm_compute; reflexivity|].
  destruct (shared_pool_is_exact Limits.ABSOLUTE 1000 2 demo_pool demo_ops) as (_ & _ & _ & [H _] & _).
  - vm_compute. reflexivity.
  - repeat constructor; vm_compute; discriminate.
  - exact H.
Defined.

End SharedPool.
