(* ===== verification/Freshness.v ===== *)
(** * Source age and the visible view

    [fr-media/src/freshness.rs]: the correlation of the viewer's clock with the
    host's, and the tracker of one stream's way from a decoded picture to a picture
    on the screen whose source is known to be recent.

    A scope is an [Arc<AtomicBool>], compared by address: an address is a pair of a
    receiver's identity and the number of one of its scopes, as in [Requestor].  A
    method that loads the flag of a scope is given the flags as they are when it
    runs, since the receiver and its owner change them; [flag_of] is what one
    receiver makes of its own.  The [lineage] flag belongs to the receiver. *)

From S2P Require Import Prelude.
From S2P Require Import Bytes.
From S2P Require Import CoreTime.
From S2P Require Import Limits.
From S2P Require Import WireRecord.
From S2P Require Import WireInput.
From S2P Require Import WireMedia.
From S2P Require Import WireView.
From S2P Require Import Delivery.
From S2P Require Import Assembly.
From S2P Require Import Receiver.
From S2P Require Import Sender.
From S2P Require Import Requestor.

Module Freshness.
Import Media.
Import Delivery(MediaBindings, MediaEpoch, e_configuration, e_recovery, for_channel).
Import Requestor(address, scope_of).
Import Receiver(ReceivePipeline, DecodedFrame, df_scope, df_descriptor, df_epoch, df_bindings, df_display_until).
#[local] Existing Instances Assembly.FrameDescriptor_eq_dec Delivery.MediaBindings_eq_dec Delivery.MediaEpoch_eq_dec.

#[export] Instance Progress_eq_dec : EqDecision Progress.
Proof. solve_decision. Defined.

Inductive Error :=
| InvalidClock | ClockExpired | ClockRegression | ClockOverflow | FutureObservation | StaleBinding
| InvalidProgress | Obsolete | NotSubmitted | QueueExpired | SourceUnknown | SourceStale | Closed.
#[export] Instance Error_eq_dec : EqDecision Error.
Proof. solve_decision. Defined.

(** ** Two clocks *)

Record ClockSample := mk_clock_sample {
  host_boot : Z;
  client_sent_us : Z;
  host_sample_us : Z;
  client_received_us : Z
}.
Record ClockPolicy := mk_clock_policy { max_exchange_us : Z; valid_for_us : Z; drift_ppm : Z }.
Definition default_clock_policy : ClockPolicy := mk_clock_policy 1000000 10000000 1000.
Record ClockCorrelation := mk_correlation { sample : ClockSample; policy : ClockPolicy; valid_until_us : Z }.

Definition correlate (s : ClockSample) (p : ClockPolicy) : Result Error ClockCorrelation :=
  if (host_boot s =? 0)
     || (client_received_us s <? client_sent_us s)
     || negb ((1 <=? max_exchange_us p) && (max_exchange_us p <=? 10000000))
     || negb ((1 <=? valid_for_us p) && (valid_for_us p <=? 60000000))
     || (10000 <? drift_ppm p)
     || (max_exchange_us p <? client_received_us s - client_sent_us s)
  then Err InvalidClock
  else u ← ok_or (checked_add u64_max (client_received_us s) (valid_for_us p)) ClockOverflow;
       Ok (mk_correlation s p u).

(** The whole exchange is uncertainty. *)
Definition age_upper_us (c : ClockCorrelation) (host_observed now : Z) : Result Error Z :=
  if now <? client_received_us (sample c) then Err ClockRegression
  else if valid_until_us c <=? now then Err ClockExpired
  else
    let elapsed := now - client_sent_us (sample c) in
    let drift := div_ceil (elapsed * drift_ppm (policy c)) 1000000 in
    let latest_host := host_sample_us (sample c) + elapsed + drift in
    if u64_max <? latest_host then Err ClockOverflow
    else
      age ← ok_or (checked_sub latest_host host_observed) FutureObservation;
      if age <=? u64_max then Ok age else Err ClockOverflow.

Definition deadline_lower_us (c : ClockCorrelation) (host_deadline now : Z) : Result Error Z :=
  latest_host ← age_upper_us c 0 now;
  let remaining := saturating_sub host_deadline latest_host in
  let delta := remaining * 1000000 / (1000000 + drift_ppm (policy c)) in
  if delta <=? u64_max
  then ok_or ((fun u => Z.min u (valid_until_us c)) <$> checked_add u64_max now delta) ClockOverflow
  else Err ClockOverflow.

(** ** The tracker *)

Record ViewEvidence := mk_evidence {
  ev_serial : Z;
  ev_frame : Z;
  ev_epoch : MediaEpoch;
  observed_at_client_us : Z;
  pixel_age_upper_us : Z;
  source_age_upper_us : Z;
  ev_source : SourceObservation
}.
Record Candidate := mk_candidate { c_descriptor : FrameDescriptor; c_display_until_us : Z }.
Record Unqualified := mk_unqualified { until_us : Z; observed_after_us : Z }.

Record ViewTracker := mk_tracker {
  t_scope : address;
  t_lineage : Z;
  t_bindings : MediaBindings;
  t_epoch : MediaEpoch;
  t_clock : ClockCorrelation;
  t_max_source_age_us : Z;
  last_now_us : Z;
  t_last_decoded : option Z;
  t_pending : option Candidate;
  t_visible : option FrameDescriptor;
  visible_source : option (Z * SourceObservation);
  unqualified : option Unqualified;
  known_observation : option (FrameDescriptor * Z);
  t_progress : option Progress;
  serial : Z;
  t_closed : bool
}.
#[export] Instance eta_tracker : Eta ViewTracker := fun t =>
  mk_tracker (t_scope t) (t_lineage t) (t_bindings t) (t_epoch t) (t_clock t) (t_max_source_age_us t) (last_now_us t)
    (t_last_decoded t) (t_pending t) (t_visible t) (visible_source t) (unqualified t) (known_observation t) (t_progress t)
    (serial t) (t_closed t).

Abbreviation VM := (M ViewTracker Error).
(** A method given by what it returns and leaves behind. *)
Definition method {A} (f : ViewTracker -> Result Error A * ViewTracker) : VM A := f.

(** The flags one receiver holds up: that of its current scope, while it was not
    stopped. *)
Definition flag_of (id : Z) (r : ReceivePipeline) (s : address) : bool :=
  bool_decide (s = scope_of id r) && Receiver.live r.

Definition age_bound_ok (m : Z) : bool := (1 <=? m) && (m <=? 1500000).

Definition hide (t : ViewTracker) : ViewTracker :=
  t <| t_pending := None |> <| t_visible := None |> <| visible_source := None |> <| unqualified := None |>.

Definition close (t : ViewTracker) : ViewTracker :=
  (hide t) <| t_progress := None |> <| known_observation := None |> <| t_closed := true |>.

(** [return self.fail(e)] under a condition. *)
Definition fail_if (c : ViewTracker -> bool) (e : Error) : VM unit := method (fun t =>
  if c t then (Err e, close t) else (Ok tt, t)).

Definition bump : VM unit := method (fun t =>
  match checked_add u64_max (serial t) 1 with
  | None => (Err ClockOverflow, close t)
  | Some next => (Ok tt, t <| serial := next |>)
  end).

(** ** Receivers *)

Definition check_receiver (id : Z) (r : ReceivePipeline) (t : ViewTracker) : Result Error unit :=
  let c := Receiver.config r in
  if negb (bool_decide (scope_of id r = t_scope t)) || negb (bool_decide (Assembly.bindings c = t_bindings t))
     || negb (bool_decide (Assembly.epoch c = t_epoch t))
  then Err StaleBinding else Ok tt.

Definition check_recovery_receiver (id : Z) (r : ReceivePipeline) (t : ViewTracker) : Result Error unit :=
  let e := Assembly.epoch (Receiver.config r) in
  if negb (t_lineage t =? id) || negb (Receiver.lineage r) || negb (Receiver.live r)
     || negb (e_configuration e =? e_configuration (t_epoch t))
     || negb (Generation.supersedes (e_recovery e) (e_recovery (t_epoch t)))
  then Err StaleBinding else Ok tt.

Definition new (id : Z) (r : ReceivePipeline) (c : ClockCorrelation) (max_source_age now : Z) : Result Error ViewTracker :=
  if negb (age_bound_ok max_source_age) then Err InvalidProgress
  else if negb (Receiver.live r) then Err StaleBinding
  else
    _ ← age_upper_us c (host_sample_us (sample c)) now;
    Ok (mk_tracker (scope_of id r) id (Assembly.bindings (Receiver.config r)) (Assembly.epoch (Receiver.config r)) c
          max_source_age now None None None None None None None 0 false).

Definition set_max_source_age (m : Z) : VM unit :=
  _ ← refuse_if (fun _ => negb (age_bound_ok m)) (fun _ => InvalidProgress);
  modify (fun t => t <| t_max_source_age_us := m |>).

(** The record of a progress report, of the current bindings only. *)
Definition read_progress (bs : bytes) (limits : MediaLimits) (t : ViewTracker) : Result Error Progress :=
  record ← map_err (fun e => if bool_decide (e = InvalidBinding) then StaleBinding else InvalidProgress)
             (decode bs limits (for_channel (t_bindings t) MediaConfig) MediaConfig);
  map_err (fun _ => InvalidProgress) (decode_progress record limits).

(** ** The methods that load a flag *)

Section methods.
Context (flag : address -> bool).

Definition tick (now : Z) : VM unit :=
  _ ← refuse_if t_closed (fun _ => Closed);
  _ ← fail_if (fun t => negb (flag (t_scope t))) StaleBinding;
  _ ← fail_if (fun t => now <? last_now_us t) ClockRegression;
  modify (fun t => t <| last_now_us := now |>).

Definition synchronize (c : ClockCorrelation) (now : Z) : VM unit :=
  _ ← refuse_if (fun t => negb (host_boot (sample c) =? host_boot (sample (t_clock t)))) (fun _ => StaleBinding);
  _ ← tick now;
  _ ← refuse_if (fun t => client_received_us (sample c) <=? client_received_us (sample (t_clock t))) (fun _ => Obsolete);
  _ ← lift (age_upper_us c (host_sample_us (sample c)) now);
  _ ← modify (fun t => t <| t_clock := c |>);
  bump.

Definition is_known (p : Progress) : bool := negb (bool_decide (observation p = Unknown)).
Definition is_running (p : Progress) : bool := match pipeline p with Running | Idle => true | _ => false end.

(** The checks against the last report: older pictures and older observations are
    refused, a conflicting description of one picture is fatal. *)
Definition check_succession (p : Progress) : VM unit := method (fun t =>
  match t_progress t with
  | None => (Ok tt, t)
  | Some old =>
      if frame (p_descriptor p) <? frame (p_descriptor old) then (Err Obsolete, t)
      else if negb (frame (p_descriptor p) =? frame (p_descriptor old)) then (Ok tt, t)
      else if negb (bool_decide (p_descriptor p = p_descriptor old)) then (Err InvalidProgress, close t)
      else if is_known p && is_known old && (observed_micros p <? observed_micros old) then (Err Obsolete, t)
      else if bool_decide (p = old) then (Err Obsolete, t)
      else (Ok tt, t)
  end).

(** The checks of a known observation. *)
Definition check_known (p : Progress) (now : Z) : VM unit :=
  if is_known p then
    let capture := capture_micros (p_descriptor p) in
    _ ← fail_if (fun _ => (observed_micros p <? capture)
                          || (bool_decide (observation p = Captured) && negb (observed_micros p =? capture))) InvalidProgress;
    _ ← refuse_if (fun t => is_some_and (fun '(d, observed) => bool_decide (d = p_descriptor p) && (observed_micros p <? observed))
                              (known_observation t)) (fun _ => Obsolete);
    _ ← readr (fun t => age_upper_us (t_clock t) (observed_micros p) now);
    mret tt
  else mret tt.

(** Same number, different picture. *)
Definition conflicts (p : Progress) (d : FrameDescriptor) : bool :=
  (frame d =? frame (p_descriptor p)) && negb (bool_decide (d = p_descriptor p)).

Definition qualifies_visible (p : Progress) (t : ViewTracker) : bool :=
  is_none_or (fun late => is_known p && is_running p && (observed_after_us late <? observed_micros p)) (unqualified t).

Definition record_progress (p : Progress) (t : ViewTracker) : ViewTracker :=
  let t := if bool_decide (t_visible t = Some (p_descriptor p)) && qualifies_visible p t
           then t <| visible_source := Some (observed_micros p, observation p) |> <| unqualified := None |> else t in
  let t := if is_known p then t <| known_observation := Some (p_descriptor p, observed_micros p) |> else t in
  t <| t_progress := Some p |>.

Definition observe (p : Progress) (now : Z) : VM unit :=
  _ ← tick now;
  _ ← fail_if (fun _ => bool_decide (pipeline p = Failed)) SourceUnknown;
  _ ← check_succession p;
  _ ← check_known p now;
  _ ← fail_if (fun t => is_some_and (conflicts p) (t_visible t)
                        || is_some_and (fun c => conflicts p (c_descriptor c)) (t_pending t)) InvalidProgress;
  _ ← modify (record_progress p);
  bump.

Definition progress (bs : bytes) (limits : MediaLimits) (now : Z) : VM unit :=
  p ← readr (read_progress bs limits);
  observe p now.

Definition observe_receiver (id : Z) (r : ReceivePipeline) (now : Z) : VM unit :=
  _ ← readr (check_receiver id r);
  _ ← tick now;
  match Receiver.latest r with
  | None => mret tt
  | Some p => method (fun t => match observe p now t with (Err Obsolete, t) => (Ok tt, t) | res => res end)
  end.

Definition decoded (frame_id : Z) (f : DecodedFrame) (submitted : bool) (now : Z) : VM unit :=
  let s := (frame_id, df_scope f) in
  let d := df_descriptor f in
  _ ← refuse_if (fun t => negb (bool_decide (s = t_scope t) && flag s)) (fun _ => StaleBinding);
  _ ← refuse_if (fun t => negb (bool_decide (df_epoch f = t_epoch t)) || negb (bool_decide (df_bindings f = t_bindings t)))
                (fun _ => StaleBinding);
  _ ← tick now;
  _ ← refuse_if (fun t => is_some_and (fun last => frame d <=? last) (t_last_decoded t)) (fun _ => Obsolete);
  _ ← fail_if (fun t => is_some_and (fun p => (frame (p_descriptor p) =? frame d) && negb (bool_decide (p_descriptor p = d)))
                          (t_progress t)) InvalidProgress;
  modify (fun t =>
    let t := t <| t_last_decoded := Some (frame d) |> in
    let t := if submitted then t <| t_visible := None |> <| visible_source := None |> <| unqualified := None |> else t in
    t <| t_pending := if submitted then Some (mk_candidate d (df_display_until f)) else None |>).

Definition evidence (now : Z) : VM ViewEvidence :=
  _ ← tick now;
  shown ← readr (fun t => ok_or (t_visible t) NotSubmitted);
  _ ← readr (fun t => match unqualified t with
                      | Some late => Err (if now <? until_us late then NotSubmitted else SourceStale)
                      | None => Ok tt
                      end);
  p ← readr (fun t => ok_or (t_progress t) SourceUnknown);
  _ ← refuse_if (fun _ => negb (is_running p) || negb (is_known p)) (fun _ => SourceUnknown);
  '(observed, source) ← readr (fun t => ok_or (visible_source t) SourceUnknown);
  _ ← refuse_if (fun _ => bool_decide (source = Unknown)) (fun _ => SourceUnknown);
  pixel_age ← readr (fun t => age_upper_us (t_clock t) (capture_micros shown) now);
  source_age ← readr (fun t => age_upper_us (t_clock t) observed now);
  _ ← refuse_if (fun t => t_max_source_age_us t <=? source_age) (fun _ => SourceStale);
  gets (fun t => mk_evidence (serial t) (frame shown) (t_epoch t) now pixel_age source_age source).

(** A picture shown after its display budget is on the screen but not evidence: only
    a newer observation of exactly this picture can qualify it. *)
Definition visible_late (c : Candidate) (now : Z) : VM unit :=
  _ ← modify (fun t => t <| t_visible := Some (c_descriptor c) |>);
  u ← readr (fun t => ok_or (checked_add u64_max now (t_max_source_age_us t)) ClockOverflow);
  let capture := capture_micros (c_descriptor c) in
  _ ← modify (fun t =>
        let after := match known_observation t with
                     | Some (d, observed) => if bool_decide (d = c_descriptor c) then Z.max observed capture else capture
                     | None => capture
                     end in
        t <| unqualified := Some (mk_unqualified u after) |>);
  bump.

(** The source of a picture shown in time: its last report, else its capture. *)
Definition source_of (c : Candidate) (t : ViewTracker) : Z * SourceObservation :=
  match t_progress t with
  | Some p => if bool_decide (p_descriptor p = c_descriptor c) then (observed_micros p, observation p)
              else (capture_micros (c_descriptor c), Captured)
  | None => (capture_micros (c_descriptor c), Captured)
  end.

Definition visible (f : Z) (now : Z) : VM ViewEvidence :=
  _ ← tick now;
  c ← readr (fun t => ok_or (t_pending t) NotSubmitted);
  _ ← refuse_if (fun _ => negb (frame (c_descriptor c) =? f)) (fun _ => Obsolete);
  _ ← modify hide;
  if c_display_until_us c <=? now then
    _ ← visible_late c now;
    fail QueueExpired
  else
    _ ← modify (fun t => t <| t_visible := Some (c_descriptor c) |> <| visible_source := Some (source_of c t) |>);
    _ ← bump;
    evidence now.

Definition presented_sample (now : Z) : VM PresentedMsg.Sample :=
  e ← evidence now;
  d ← readr (fun t => ok_or (t_visible t) NotSubmitted);
  '(observed, source) ← readr (fun t => ok_or (visible_source t) SourceUnknown);
  mret (PresentedMsg.mk_sample (PresentedMsg.mk_stamp (frame d) (capture_micros d) observed source) (source_age_upper_us e)).

End methods.

End Freshness.
