(* ===== verification/FreshnessClaims.v ===== *)
(** The visible view: lemmas on the tracker, then the theorems over histories. *)

From S2P Require Import Prelude.
From S2P Require Import Bytes.
From S2P Require Import WireRecord.
From S2P Require Import WireMedia.
From S2P Require Import WireMediaProps.
From S2P Require Import WireView.
From S2P Require Import Delivery.
From S2P Require Import Receiver.
From S2P Require Import ReceiverClaims.
From S2P Require Import Requestor.
From S2P Require Import Freshness.

(** * What the visible view proves

    The clock is any function from the viewer's time to the host's that keeps the
    drift the policy allows and was really read during the exchange; the bounds of
    [ClockCorrelation] then hold of the true age and of the true deadline.  The
    invariant [shown_view] ties what a tracker shows to the log of what happened to
    it: submissions, visibility callbacks and reports of the source. *)

Module FreshnessProps.
Import Media Freshness.
Import Requestor(address, scope_of).
Import Receiver(ReceivePipeline, DecodedFrame, df_scope, df_descriptor, df_epoch, df_bindings, df_display_until).

(** ** The two clocks *)

(** [host v] is what the host's clock shows when the viewer's shows [v]: it never
    runs faster than the drift allows, and the exchange read it between the moment
    the request was sent and the moment the response arrived. *)
Record honest (host : Z -> Z) (s : ClockSample) (p : ClockPolicy) : Prop := {
  ho_drift : forall v v', v <= v' -> 1000000 * (host v' - host v) <= (v' - v) * (1000000 + drift_ppm p);
  ho_typed : 0 <= drift_ppm p;
  ho_read : exists v, client_sent_us s <= v <= client_received_us s /\ host v = host_sample_us s
}.

(** A correlation made from an honest exchange. *)
Definition correlated (host : Z -> Z) (c : ClockCorrelation) : Prop :=
  correlate (sample c) (policy c) = Ok c /\ honest host (sample c) (policy c).

Lemma div_ceil_upper a b : 0 < b -> a <= b * div_ceil a b.
Proof.
  intros Hb. unfold div_ceil. pose proof (Z.div_mod a b) as H. pose proof (Z.mod_pos_bound a b Hb).
  destruct (0 <? a mod b) eqn:E; [apply Z.ltb_lt in E|apply Z.ltb_ge in E]; lia.
Qed.

Lemma correlate_sent s p c : correlate s p = Ok c -> client_sent_us s <= client_received_us s.
Proof.
  unfold correlate. destruct (_ || _ || _ || _ || _ || _) eqn:E; [done|]. intros _.
  rewrite !orb_false_iff in E. destruct E as (((((_ & H) & _) & _) & _) & _). by apply Z.ltb_ge in H.
Qed.

(** The host's clock has not passed the bound, and the age is measured from it. *)
Lemma age_upper_spec host c observed now age : correlated host c -> age_upper_us c observed now = Ok age ->
  host now <= observed + age /\ 0 <= age /\ client_received_us (sample c) <= now < valid_until_us c.
Proof.
  intros [Hc [Hd Ht (v & Hv & Hh)]] H. apply correlate_sent in Hc. unfold age_upper_us in H.
  destruct (now <? _) eqn:E1; [done|]. apply Z.ltb_ge in E1.
  destruct (_ <=? now) eqn:E2; [done|]. apply Z.leb_gt in E2.
  set (e := now - client_sent_us (sample c)) in *.
  destruct (u64_max <? _); [done|]. unfold checked_sub in H. destruct (observed <=? _) eqn:E3; [|done].
  apply Z.leb_le in E3. cbn in H. destruct (_ <=? u64_max); [|done]. injection H as <-.
  pose proof (Hd v now ltac:(lia)) as Hr. rewrite Hh in Hr.
  pose proof (div_ceil_upper (e * drift_ppm (policy c)) 1000000 ltac:(lia)).
  assert ((now - v) * (1000000 + drift_ppm (policy c)) <= e * (1000000 + drift_ppm (policy c))) by (unfold e; nia).
  split; [nia|]. lia.
Qed.

Lemma deadline_lower_spec host c deadline now d : correlated host c -> deadline_lower_us c deadline now = Ok d ->
  d <= valid_until_us c /\ forall v, now <= v < d -> host v < deadline.
Proof.
  intros Hc H. unfold deadline_lower_us in H. apply Result_bind_Ok in H as (latest & Hl & H).
  pose proof Hc as [_ [Hd Ht _]]. apply (age_upper_spec host) in Hl as (Hl & _ & _); [|done].
  set (q := 1000000 + drift_ppm (policy c)) in *. set (rem := saturating_sub deadline latest) in *.
  destruct (_ <=? u64_max); [|done]. destruct (checked_add _ _ _) as [u|] eqn:Eu; [|done]. injection H as <-.
  apply checked_add_Some in Eu as [-> _]. split; [lia|]. intros v Hv.
  pose proof (Hd now v ltac:(lia)) as Hr. fold q in Hr.
  assert (v - now < rem * 1000000 / q) by lia.
  pose proof (Z.mul_div_le (rem * 1000000) q ltac:(lia)). unfold saturating_sub in rem.
  assert ((v - now) * q < rem * 1000000) by nia. unfold rem in *. nia.
Qed.

(** ** Histories of a tracker *)

Inductive Event :=
| Submitted (d : FrameDescriptor) (display_until : Z)
| Withdrawn
| Shown (f at_us : Z)
| Reported (p : Progress)
| Hidden.

Inductive Op :=
| ReadProgress (bs : bytes) (limits : MediaLimits)
| ObserveReceiver (id : Z) (r : ReceivePipeline)
| DecodedPicture (frame_id : Z) (f : DecodedFrame) (submitted : bool)
| VisibleCallback (f : Z)
| PollEvidence
| PollSample
| Synchronize (c : ClockCorrelation)
| SetMaxAge (m : Z)
| Hide
| Close.

(** A call with the flags and the clock it finds. *)
Record Call := mk_call { flags : address -> bool; call_now : Z; call_op : Op }.

(** The serial number moves exactly when a report or a callback is accepted. *)
Definition when_moved (t t' : ViewTracker) (e : list Event) : list Event := if serial t <? serial t' then e else [].

(** The log keeps the newest event first.  Its events are the arguments of the calls:
    the picture handed over, the frame a callback names, the report that was read. *)
Definition step (c : Call) (w : list Event * ViewTracker) : list Event * ViewTracker :=
  let '(log, t) := w in
  let now := call_now c in
  match call_op c with
  | ReadProgress bs limits =>
      let t' := snd (progress (flags c) bs limits now t) in
      (when_moved t t' (match read_progress bs limits t with Ok p => [Reported p] | _ => [] end) ++ log, t')
  | ObserveReceiver id r =>
      let t' := snd (observe_receiver (flags c) id r now t) in
      (when_moved t t' (match Receiver.latest r with Some p => [Reported p] | _ => [] end) ++ log, t')
  | DecodedPicture id f submitted =>
      let '(res, t') := decoded (flags c) id f submitted now t in
      ((if is_ok res then [if submitted then Submitted (df_descriptor f) (df_display_until f) else Withdrawn] else []) ++ log, t')
  | VisibleCallback f =>
      let t' := snd (visible (flags c) f now t) in
      (when_moved t t' [Shown f now] ++ log, t')
  | PollEvidence => (log, snd (evidence (flags c) now t))
  | PollSample => (log, snd (presented_sample (flags c) now t))
  | Synchronize k => (log, snd (synchronize (flags c) k now t))
  | SetMaxAge m => (log, snd (set_max_source_age m t))
  | Hide => (Hidden :: log, hide t)
  | Close => (Hidden :: log, close t)
  end.

Fixpoint run (cs : list Call) (w : list Event * ViewTracker) : list Event * ViewTracker :=
  match cs with [] => w | c :: cs => run cs (step c w) end.

(** ** What a log says *)

(** The picture on the screen stays: no newer submission, callback or hiding. *)
Definition keeps_screen (e : Event) : Prop := match e with Reported _ | Withdrawn => True | _ => False end.
Definition is_report (e : Event) : Prop := match e with Reported _ => True | _ => False end.

Definition candidate (log : list Event) (d : FrameDescriptor) (u : Z) : Prop :=
  exists l1 l2, log = l1 ++ Submitted d u :: l2 /\ Forall is_report l1.

(** [d] was submitted with display budget [u], then a callback named its frame as
    visible at [at_us], and [since] is what happened to it afterwards. *)
Definition on_screen (log : list Event) (d : FrameDescriptor) (u at_us : Z) (since : list Event) : Prop :=
  exists rest, log = since ++ Shown (frame d) at_us :: rest /\ Forall keeps_screen since /\ candidate rest d u.

(** The source was observed then: the host reported it of this very picture, or it
    is the capture itself. *)
Definition justified (log : list Event) (d : FrameDescriptor) (o : Z) (s : SourceObservation) : Prop :=
  (exists p, Reported p ∈ log /\ p_descriptor p = d /\ observed_micros p = o /\ observation p = s)
  \/ (o = capture_micros d /\ s = Captured).

(** A report, later than the capture, that qualifies a picture shown too late. *)
Definition qualified (d : FrameDescriptor) (since : list Event) : Prop :=
  exists q, Reported q ∈ since /\ p_descriptor q = d /\ is_known q = true /\ is_running q = true
            /\ capture_micros d < observed_micros q.

Definition source_ok (log : list Event) (d : FrameDescriptor) (u at_us : Z) (since : list Event) (t : ViewTracker) : Prop :=
  match visible_source t, unqualified t with
  | Some (o, s), None => justified log d o s /\ (u <= at_us -> qualified d since)
  | None, Some late => capture_micros d <= observed_after_us late
  | _, _ => False
  end.

Record shown_view (host : Z -> Z) (s : address) (log : list Event) (t : ViewTracker) : Prop := {
  sv_scope : t_scope t = s;
  sv_clock : correlated host (t_clock t);
  sv_max : 1 <= t_max_source_age_us t <= 1500000;
  sv_reports : forall p, Reported p ∈ log -> is_known p = true -> capture_micros (p_descriptor p) <= observed_micros p;
  sv_progress : forall p, t_progress t = Some p -> Reported p ∈ log;
  sv_pending : forall c, t_pending t = Some c -> candidate log (c_descriptor c) (c_display_until_us c);
  sv_visible : forall d, t_visible t = Some d ->
    exists u at_us since, on_screen log d u at_us since /\ source_ok log d u at_us since t
}.

(** A log that grows keeps what it said of the screen. *)
Lemma candidate_report log p d u : candidate log d u -> candidate (Reported p :: log) d u.
Proof. intros (l1 & l2 & -> & Hl). exists (Reported p :: l1), l2. split; [done|]. by constructor. Qed.

Lemma on_screen_cons log e d u at_us since : keeps_screen e -> on_screen log d u at_us since ->
  on_screen (e :: log) d u at_us (e :: since).
Proof. intros He (rest & -> & Hq & Hc). exists rest. split; [done|]. split; [by constructor|done]. Qed.

Lemma justified_cons log e d o sr : justified log d o sr -> justified (e :: log) d o sr.
Proof. intros [(p & Hp & H)|H]; [left|by right]. exists p. split; [|done]. apply elem_of_cons. by right. Qed.

Lemma source_ok_cons log e d u at_us since t : source_ok log d u at_us since t -> source_ok (e :: log) d u at_us (e :: since) t.
Proof.
  unfold source_ok. destruct (visible_source t) as [[o sr]|], (unqualified t); try done.
  intros [Hj Hq]. split; [by apply justified_cons|]. intros Hu. destruct (Hq Hu) as (q & Hq1 & Hq2).
  exists q. split; [|done]. apply elem_of_cons. by right.
Qed.

(** The report of a picture that is shown becomes its source, unless it was shown
    late and the report does not qualify it. *)
Lemma recorded_source log p t d u at_us since : source_ok log d u at_us since t -> t_visible t = Some d ->
  source_ok (Reported p :: log) d u at_us (Reported p :: since) (record_progress p t).
Proof.
  intros Hs Hd. unfold record_progress. cbv zeta. rewrite Hd.
  destruct (bool_decide _ && qualifies_visible p t) eqn:E;
    [|apply source_ok_cons; by destruct (is_known p)].
  apply andb_prop in E as [E Eq]. apply bool_decide_eq_true in E. injection E as E.
  assert (source_ok (Reported p :: log) d u at_us (Reported p :: since)
    (t <| visible_source := Some (observed_micros p, observation p) |> <| unqualified := None |>)) as H; [|by destruct (is_known p)].
  split; [left; exists p; split; [apply elem_of_cons; by left|done]|]. intros Hu. unfold source_ok in Hs.
  unfold qualifies_visible in Eq. destruct (visible_source t) as [[o sr]|], (unqualified t) as [late|]; try done.
  - destruct Hs as [_ Hs]. destruct (Hs Hu) as (q & Hq & Hq'). exists q. split; [|done]. apply elem_of_cons. by right.
  - cbn in Eq. rewrite !andb_true_iff, Z.ltb_lt in Eq. exists p. split; [apply elem_of_cons; by left|].
    split; [done|]. split; [tauto|]. split; [tauto|]. lia.
Qed.

(** ** Every method keeps it *)

Section methods.
Context (host : Z -> Z) (s : address).
Implicit Types (t : ViewTracker) (log : list Event).

Lemma shown_view_same log t t' : t_scope t' = t_scope t -> t_clock t' = t_clock t ->
  t_max_source_age_us t' = t_max_source_age_us t -> t_progress t' = t_progress t -> t_pending t' = t_pending t ->
  t_visible t' = t_visible t -> visible_source t' = visible_source t -> unqualified t' = unqualified t ->
  shown_view host s log t -> shown_view host s log t'.
Proof.
  intros E1 E2 E3 E4 E5 E6 E7 E8 [H1 H2 H3 H4 H5 H6 H7].
  constructor; rewrite ?E1, ?E2, ?E3, ?E4, ?E5, ?E6; try done.
  intros d Hd. destruct (H7 d Hd) as (u & at_us & since & Ho & Hs). exists u, at_us, since. split; [done|].
  unfold source_ok in *. by rewrite E7, E8.
Qed.

Lemma shown_view_close log log' t : shown_view host s log' t -> (forall e, e ∈ log -> e ∈ log') ->
  shown_view host s log (close t).
Proof. intros [H1 H2 H3 H4 _ _ _] Hl. constructor; try done. intros p Hp. by apply H4, Hl. Qed.

(** Nothing on the screen: the log may grow by anything but a report. *)
Lemma shown_view_hide log e t : shown_view host s log t -> ~ is_report e -> shown_view host s (e :: log) (hide t).
Proof.
  intros [H1 H2 H3 H4 H5 _ _] He. constructor; try done.
  - intros p [E|Hp]%elem_of_cons; [subst e; by destruct He|by apply H4].
  - intros p Hp. apply elem_of_cons. right. by apply H5.
Qed.

(** What a method that accepts nothing leaves. *)
Definition kept log t t' : Prop := shown_view host s log t' /\ serial t' = serial t.

Lemma kept_close log t : shown_view host s log t -> kept log t (close t).
Proof. intros H. split; [by eapply shown_view_close|done]. Qed.

Lemma wp_fail {B} (c : ViewTracker -> bool) e (k : unit -> VM B) t Q :
  (if c t then Q (Err e) (close t) else wp (k tt) t Q) -> wp (fail_if c e ≫= k) t Q.
Proof. unfold wp, mbind, M_bind, fail_if, method. by destruct (c t). Qed.

Definition ticked now t : ViewTracker := t <| last_now_us := now |>.

Lemma ticked_view log now t : shown_view host s log t -> shown_view host s log (ticked now t).
Proof. by apply shown_view_same. Qed.

Lemma wp_tick {B} flag now (k : unit -> VM B) log t Q : shown_view host s log t ->
  (forall e t', kept log t t' -> Q (Err e) t') ->
  (flag s = true -> shown_view host s log (ticked now t) -> wp (k tt) (ticked now t) Q) ->
  wp (tick flag now ≫= k) t Q.
Proof.
  intros Ht He Hok. apply wp_bind. unfold tick. apply wp_refuse. destruct (t_closed t) eqn:Ec; [by apply He|].
  apply wp_fail. destruct (negb (flag (t_scope t))) eqn:Ef; [by apply He, kept_close|].
  apply wp_fail. destruct (now <? last_now_us t); [by apply He, kept_close|].
  apply Hok; [|by apply ticked_view]. rewrite (sv_scope _ _ _ _ Ht) in Ef. by destruct (flag s).
Qed.

(** The evidence is that of the picture the tracker shows. *)
Record proves (flag : address -> bool) (now : Z) (ev : ViewEvidence) (d : FrameDescriptor) (o : Z) t : Prop := {
  pr_flag : flag s = true;
  pr_visible : t_visible t = Some d;
  pr_source : visible_source t = Some (o, ev_source ev);
  pr_known : ev_source ev <> Unknown;
  pr_qualified : unqualified t = None;
  pr_frame : ev_frame ev = frame d;
  pr_pixels : age_upper_us (t_clock t) (capture_micros d) now = Ok (pixel_age_upper_us ev);
  pr_age : age_upper_us (t_clock t) o now = Ok (source_age_upper_us ev);
  pr_fresh : source_age_upper_us ev < t_max_source_age_us t
}.

Lemma evidence_spec flag now log t : shown_view host s log t ->
  wp (evidence flag now) t (fun r t' => kept log t t' /\
    forall ev, r = Ok ev -> t' = ticked now t /\ exists d o, proves flag now ev d o t).
Proof.
  intros Ht. unfold evidence. eapply wp_tick; [done|done|]. intros Hf Htk.
  assert (Hk : kept log t (ticked now t)) by done.
  apply wp_readr. destruct (t_visible _) as [d|] eqn:Ed; cbn [ok_or]; [|done].
  apply wp_readr. destruct (unqualified _) eqn:Eu; [done|].
  apply wp_readr. destruct (t_progress _) as [p|]; cbn [ok_or]; [|done].
  apply wp_refuse. destruct (_ || _); [done|].
  apply wp_readr. destruct (visible_source _) as [[o sr]|] eqn:Es; cbn [ok_or]; [|done].
  apply wp_refuse. destruct (bool_decide _) eqn:Eb; [done|]. apply bool_decide_eq_false in Eb.
  apply wp_readr. destruct (age_upper_us _ (capture_micros d) now) as [pa|] eqn:Epa; [|done].
  apply wp_readr. destruct (age_upper_us _ o now) as [sa|] eqn:Esa; [|done].
  apply wp_refuse. destruct (_ <=? sa) eqn:El; [done|]. apply Z.leb_gt in El.
  split; [done|]. intros ev [= <-]. split; [done|]. by exists d, o.
Qed.

Lemma presented_spec flag now log t : shown_view host s log t ->
  wp (presented_sample flag now) t (fun r t' => kept log t t' /\
    forall x, r = Ok x -> exists ev d o, proves flag now ev d o t /\
      x = PresentedMsg.mk_sample (PresentedMsg.mk_stamp (frame d) (capture_micros d) o (ev_source ev)) (source_age_upper_us ev)).
Proof.
  intros Ht. unfold presented_sample. apply wp_bind, (wp_mono _ _ _ _ (evidence_spec flag now log t Ht)).
  intros [ev|e] t' [Hk Hev]; [|done]. destruct (Hev ev eq_refl) as (-> & d & o & Hp).
  pose proof (pr_visible _ _ _ _ _ _ Hp) as Ed. pose proof (pr_source _ _ _ _ _ _ Hp) as Es.
  apply wp_readr. change (t_visible (ticked now t)) with (t_visible t). rewrite Ed. cbn [ok_or].
  apply wp_readr. change (visible_source (ticked now t)) with (visible_source t). rewrite Es. cbn [ok_or].
  split; [done|]. intros x [= <-]. by exists ev, d, o.
Qed.

Lemma synchronize_spec flag c now log t : shown_view host s log t -> correlated host c ->
  wp (synchronize flag c now) t (fun _ t' => shown_view host s log t').
Proof.
  intros Ht Hc. unfold synchronize. apply wp_refuse. destruct (negb _); [done|].
  eapply wp_tick; [done|by intros e t' []|]. intros _ Htk. apply wp_refuse. destruct (_ <=? _); [done|].
  apply wp_lift. destruct (age_upper_us c _ now); [|done]. apply wp_modify. unfold wp, bump, method.
  assert (Hn : shown_view host s log ((ticked now t) <| t_clock := c |>)).
  { destruct Htk as [H1 _ H3 H4 H5 H6 H7]. constructor; done. }
  destruct (checked_add _ _ _); [by eapply shown_view_same, Hn|by eapply shown_view_close].
Qed.

Lemma record_view log p t : shown_view host s log t -> (is_known p = true -> capture_micros (p_descriptor p) <= observed_micros p) ->
  shown_view host s (Reported p :: log) (record_progress p t).
Proof.
  intros [H1 H2 H3 H4 H5 H6 H7] Hp.
  assert (Hsame : t_scope (record_progress p t) = t_scope t /\ t_clock (record_progress p t) = t_clock t /\
    t_max_source_age_us (record_progress p t) = t_max_source_age_us t /\ t_progress (record_progress p t) = Some p /\
    t_pending (record_progress p t) = t_pending t /\ t_visible (record_progress p t) = t_visible t).
  { unfold record_progress. cbv zeta. by destruct (bool_decide _ && _), (is_known p). }
  destruct Hsame as (E1 & E2 & E3 & E4 & E5 & E6).
  constructor; rewrite ?E1, ?E2, ?E3, ?E4, ?E5, ?E6; try done.
  - intros q [E|Hq]%elem_of_cons; [injection E as ->; exact Hp|by apply H4].
  - intros q [= <-]. apply elem_of_cons. by left.
  - intros c Hc. by apply candidate_report, H6.
  - intros d Hd. destruct (H7 d Hd) as (u & at_us & since & Ho & Hs). exists u, at_us, (Reported p :: since).
    split; [by apply on_screen_cons|]. by apply recorded_source.
Qed.

(** Nothing was accepted, or [e] was. *)
Definition advanced (e : Event) log t t' : Prop :=
  kept log t t' \/ (serial t < serial t' /\ shown_view host s (e :: log) t').

Lemma bump_spec e log t0 t : shown_view host s (e :: log) t -> serial t = serial t0 ->
  wp bump t (fun _ t' => advanced e log t0 t').
Proof.
  intros Ht Hs. unfold wp, bump, method. destruct (checked_add _ _ _) as [n|] eqn:E; cbn [fst snd].
  - apply checked_add_Some in E as [-> _]. right. split; [cbn; lia|]. by eapply shown_view_same, Ht.
  - left. split; [|done]. eapply shown_view_close; [exact Ht|]. intros x Hx. apply elem_of_cons. by right.
Qed.

Lemma check_succession_spec p log t : shown_view host s log t ->
  wp (check_succession p) t (fun r t' => match r with Ok _ => t' = t | Err _ => kept log t t' end).
Proof.
  intros Ht. unfold wp, check_succession, method. destruct (t_progress t) as [old|]; [|done].
  destruct (_ <? _); [done|]. destruct (negb _); [done|]. destruct (negb _); [by apply kept_close|].
  destruct (_ && _ && _); [done|]. by destruct (bool_decide _).
Qed.

Lemma check_known_spec p now log t : shown_view host s log t ->
  wp (check_known p now) t (fun r t' => match r with
    | Ok _ => t' = t /\ (is_known p = true -> capture_micros (p_descriptor p) <= observed_micros p)
    | Err _ => kept log t t' end).
Proof.
  intros Ht. unfold check_known. destruct (is_known p); [|done]. apply wp_fail.
  destruct (_ || _) eqn:E; [by apply kept_close|]. apply orb_false_iff in E as [E _]. apply Z.ltb_ge in E.
  apply wp_refuse. destruct (is_some_and _ _); [done|]. apply wp_readr. by destruct (age_upper_us _ _ _).
Qed.

Lemma observe_view flag p now log t : shown_view host s log t ->
  wp (observe flag p now) t (fun _ t' => advanced (Reported p) log t t').
Proof.
  intros Ht. unfold observe. eapply wp_tick; [done|by left|]. intros _ Htk.
  assert (Hk : forall t', kept log (ticked now t) t' -> advanced (Reported p) log t t') by (intros t' []; by left).
  apply wp_fail. destruct (bool_decide _); [by apply Hk, kept_close|].
  apply wp_bind, (wp_mono _ _ _ _ (check_succession_spec p log _ Htk)). intros [[]|e] t' H1; [subst t'|by apply Hk].
  apply wp_bind, (wp_mono _ _ _ _ (check_known_spec p now log _ Htk)).
  intros [[]|e] t' H2; [destruct H2 as [-> Hp]|by apply Hk].
  apply wp_fail. destruct (_ || _); [by apply Hk, kept_close|]. apply wp_modify, bump_spec; [by apply record_view|].
  unfold record_progress. cbv zeta. by destruct (bool_decide _ && _), (is_known p).
Qed.

(** The call moved the serial number exactly when it accepted something. *)
Lemma moved_view e log t t' : advanced e log t t' -> shown_view host s (when_moved t t' [e] ++ log) t'.
Proof.
  unfold when_moved. intros [[H E]|[Hl H]].
  - rewrite E, Z.ltb_irrefl. exact H.
  - apply Z.ltb_lt in Hl. rewrite Hl. exact H.
Qed.

Lemma kept_moved (es : list Event) log t t' : kept log t t' -> shown_view host s (when_moved t t' es ++ log) t'.
Proof. intros [H E]. unfold when_moved. by rewrite E, Z.ltb_irrefl. Qed.

Lemma progress_view flag bs limits now log t : shown_view host s log t ->
  shown_view host s (when_moved t (snd (progress flag bs limits now t))
    (match read_progress bs limits t with Ok p => [Reported p] | Err _ => [] end) ++ log) (snd (progress flag bs limits now t)).
Proof.
  intros Ht. unfold progress, mbind, M_bind, readr. destruct (read_progress bs limits t) as [p|e]; cbn [fst snd].
  - by apply moved_view, (observe_view flag p now).
  - by apply kept_moved.
Qed.

Lemma observe_receiver_view flag id r now log t : shown_view host s log t ->
  wp (observe_receiver flag id r now) t (fun _ t' => match Receiver.latest r with
    | Some p => advanced (Reported p) log t t' | None => kept log t t' end).
Proof.
  intros Ht. unfold observe_receiver. apply wp_readr.
  destruct (check_receiver id r t); [|destruct (Receiver.latest r); [by left|done]].
  eapply wp_tick; [done|intros e t' Hk; destruct (Receiver.latest r); [by left|done]|]. intros _ Htk.
  destruct (Receiver.latest r) as [p|]; [|done]. pose proof (observe_view flag p now log _ Htk) as Ho.
  unfold wp, method in *. destruct (observe flag p now (ticked now t)) as [[[]|[]] t']; exact Ho.
Qed.

Lemma decoded_view flag id f submitted now log t : shown_view host s log t ->
  wp (decoded flag id f submitted now) t (fun r t' => shown_view host s
    ((if is_ok r then [if submitted then Submitted (df_descriptor f) (df_display_until f) else Withdrawn] else []) ++ log) t').
Proof.
  intros Ht. unfold decoded. cbv zeta. apply wp_refuse. destruct (negb _); [done|]. apply wp_refuse.
  destruct (_ || _); [done|]. eapply wp_tick; [done|by intros e t' []|]. intros _ Htk. apply wp_refuse.
  destruct (is_some_and _ _); [done|]. apply wp_fail.
  destruct (is_some_and _ _); [by eapply shown_view_close|]. unfold wp, modify. cbn [fst snd is_ok app].
  destruct Htk as [H1 H2 H3 H4 H5 H6 H7]. destruct submitted; (constructor; try done).
  - intros p [E|Hp]%elem_of_cons; [done|by apply H4].
  - intros p Hp. apply elem_of_cons. right. by apply H5.
  - intros c [= <-]. exists [], log. by split.
  - intros p [E|Hp]%elem_of_cons; [done|by apply H4].
  - intros p Hp. apply elem_of_cons. right. by apply H5.
  - intros d Hd. destruct (H7 d Hd) as (u & at_us & since & Ho & Hs). exists u, at_us, (Withdrawn :: since).
    split; [by apply on_screen_cons|]. by apply (source_ok_cons _ _ _ _ _ _ (ticked now t)).
Qed.

(** The candidate goes on the screen, with a source that is justified or, when it is
    too late, with none. *)
Lemma shown_source log c now t t' :
  shown_view host s log t -> candidate log (c_descriptor c) (c_display_until_us c) ->
  t_scope t' = t_scope t -> t_clock t' = t_clock t -> t_max_source_age_us t' = t_max_source_age_us t ->
  t_progress t' = t_progress t -> t_pending t' = None -> t_visible t' = Some (c_descriptor c) ->
  source_ok (Shown (frame (c_descriptor c)) now :: log) (c_descriptor c) (c_display_until_us c) now [] t' ->
  shown_view host s (Shown (frame (c_descriptor c)) now :: log) t'.
Proof.
  intros [H1 H2 H3 H4 H5 _ _] Hc E1 E2 E3 E4 E5 E6 Hs.
  constructor; rewrite ?E1, ?E2, ?E3, ?E4, ?E5, ?E6; try done.
  - intros p [E|Hp]%elem_of_cons; [done|by apply H4].
  - intros p Hp. apply elem_of_cons. right. by apply H5.
  - intros d [= <-]. exists (c_display_until_us c), now, []. split; [|done]. exists log. by repeat split.
Qed.

Lemma source_of_justified log c t : shown_view host s log t ->
  justified log (c_descriptor c) (fst (source_of c t)) (snd (source_of c t)).
Proof.
  intros Ht. unfold source_of. destruct (t_progress t) as [p|] eqn:Ep; [|by right].
  destruct (bool_decide _) eqn:E; [|by right]. apply bool_decide_eq_true in E. left. exists p.
  split; [by apply (sv_progress _ _ _ _ Ht)|done].
Qed.

Lemma visible_late_view c now log t : shown_view host s log t -> candidate log (c_descriptor c) (c_display_until_us c) ->
  now + 1500000 <= u64_max -> c_display_until_us c <= now -> t_pending t = None -> visible_source t = None ->
  wp (visible_late c now) t (fun _ t' => advanced (Shown (frame (c_descriptor c)) now) log t t').
Proof.
  intros Ht Hc Hn Hl Hp Hs. unfold visible_late. cbv zeta. apply wp_modify, wp_readr.
  pose proof (sv_max _ _ _ _ Ht) as Hm. unfold checked_add.
  change (t_max_source_age_us (t <| t_visible := Some (c_descriptor c) |>)) with (t_max_source_age_us t).
  replace (now + t_max_source_age_us t <=? u64_max) with true by (symmetry; apply Z.leb_le; lia). cbn [ok_or].
  apply wp_modify, bump_spec; [|done]. eapply (shown_source log c now t); try done.
  unfold source_ok.
  match goal with |- match ?a with _ => _ end => change a with (visible_source t) end. rewrite Hs. cbn.
  destruct (known_observation t) as [[d o]|]; [|lia]. destruct (bool_decide _); lia.
Qed.

Lemma visible_view flag f now log t : shown_view host s log t -> now + 1500000 <= u64_max ->
  wp (visible flag f now) t (fun _ t' => advanced (Shown f now) log t t').
Proof.
  intros Ht Hn. unfold visible. eapply wp_tick; [done|by left|].
  intros _ Htk. apply wp_readr. change (t_pending (ticked now t)) with (t_pending t).
  destruct (t_pending t) as [c|] eqn:Ec; cbn [ok_or]; [|by left].
  pose proof (sv_pending _ _ _ _ Ht c Ec) as Hc. apply wp_refuse. destruct (Z.eqb_spec (frame (c_descriptor c)) f) as [<-|_]; cbn [negb]; [|by left]. apply wp_modify.
  assert (Hh : shown_view host s log (hide (ticked now t))).
  { destruct Htk as [H1 H2 H3 H4 H5 _ _]. by constructor. }
  destruct (_ <=? now) eqn:El.
  - apply Z.leb_le in El. apply wp_bind.
    apply (wp_mono _ _ _ _ (visible_late_view c now log (hide (ticked now t)) Hh Hc Hn El eq_refl eq_refl)).
    by intros [[]|e] t' Ha.
  - apply Z.leb_gt in El. apply wp_modify, wp_bind. set (t1 := _ <| visible_source := _ |>).
    assert (Hv : shown_view host s (Shown (frame (c_descriptor c)) now :: log) t1).
    { apply (shown_source log c now (hide (ticked now t))); try done. unfold source_ok.
      change (visible_source t1) with (Some (source_of c (hide (ticked now t)))).
      change (unqualified t1) with (@None Unqualified). pose proof (source_of_justified log c _ Hh) as Hj.
      destruct (source_of c _) as [o sr]. split; [by apply justified_cons|lia]. }
    apply (wp_mono _ _ _ _ (bump_spec _ log t t1 Hv eq_refl)). intros [[]|e] t' Ha; [|done].
    destruct Ha as [[Hk Hs]|[Hs Hk]].
    + apply (wp_mono _ _ _ _ (evidence_spec flag now _ _ Hk)). intros r t2 [[H2 E2] _]. left. split; [done|congruence].
    + apply (wp_mono _ _ _ _ (evidence_spec flag now _ _ Hk)). intros r t2 [[H2 E2] _]. right. split; [lia|done].
Qed.

(** ** Whole histories *)

(** The clock is not in its last second and a half, and correlations are honest. *)
Definition call_ok (c : Call) : Prop :=
  call_now c + 1500000 <= u64_max /\ match call_op c with Synchronize k => correlated host k | _ => True end.

Lemma step_view c log t : shown_view host s log t -> call_ok c ->
  shown_view host s (fst (step c (log, t))) (snd (step c (log, t))).
Proof.
  intros Ht [Hn Hc]. destruct c as [flag now op]. unfold step. cbn [call_op flags call_now] in *. destruct op.
  - by apply progress_view.
  - pose proof (observe_receiver_view flag id r now log t Ht) as H. unfold wp in H.
    destruct (Receiver.latest r); [by apply moved_view|by apply kept_moved].
  - pose proof (decoded_view flag frame_id f submitted now log t Ht) as H. unfold wp in H.
    by destruct (decoded _ _ _ _ _ _).
  - by apply moved_view, (visible_view flag f now log t Ht Hn).
  - apply (evidence_spec flag now log t Ht).
  - apply (presented_spec flag now log t Ht).
  - by apply (synchronize_spec flag c now log t).
  - unfold set_max_source_age, mbind, M_bind, refuse_if, modify. destruct (age_bound_ok m) eqn:E; [|done].
    unfold age_bound_ok in E. rewrite andb_true_iff, !Z.leb_le in E. destruct Ht as [H1 H2 H3 H4 H5 H6 H7]. by constructor.
  - apply shown_view_hide; [done|by intros []].
  - eapply shown_view_same; [..|apply (shown_view_hide log Hidden (close t)); [by eapply shown_view_close|by intros []]]; done.
Qed.

Lemma run_view cs log t : shown_view host s log t -> Forall call_ok cs ->
  shown_view host s (fst (run cs (log, t))) (snd (run cs (log, t))).
Proof.
  revert log t. induction cs as [|c cs IH]; intros log t Ht Hcs; [done|].
  inversion Hcs as [|? ? Hc Hcs']; subst. cbn [run]. pose proof (step_view c log t Ht Hc) as Hs.
  destruct (step c (log, t)) as [log' t']. by apply IH.
Qed.

Lemma new_view id r c m now t : correlated host c -> new id r c m now = Ok t -> scope_of id r = s -> shown_view host s [] t.
Proof.
  intros Hc Hn Hs. unfold new in Hn. destruct (negb (age_bound_ok m)) eqn:E; [done|]. destruct (negb (Receiver.live r)); [done|].
  apply Result_bind_Ok in Hn as (a & _ & [= <-]). unfold age_bound_ok in E. rewrite negb_false_iff, andb_true_iff, !Z.leb_le in E.
  constructor; try done. intros p Hp. by apply not_elem_of_nil in Hp.
Qed.

End methods.

End FreshnessProps.

(** * The theorems about the visible view

    The clock bounds are sound for every host clock within the drift, and evidence of
    a visible view stands for a picture that really is on the screen, of the receiver
    generation that is still alive, whose source the host checked a moment ago. *)

Module FreshnessClaims.
Import Media Freshness FreshnessProps.
Import Requestor(address, scope_of).
Import Receiver(ReceivePipeline, DecodedFrame, mk_decoded).
#[local] Existing Instance Receiver.eta_pipeline.

(** Ages and deadlines are conservative.  Let the host's clock be any function of the
    viewer's that keeps the qualified drift and was read during the exchange.  Then an
    age computed from a correlation is never below the true age of the observation,
    and before a local deadline computed from a host deadline, the host has not
    reached that deadline; both stop at the validity of the correlation. *)
Theorem age_is_never_understated host s p c :
  correlate s p = Ok c -> honest host s p ->
  (forall observed now age, age_upper_us c observed now = Ok age ->
     host now - observed <= age /\ client_received_us s <= now < valid_until_us c) /\
  (forall deadline now d, deadline_lower_us c deadline now = Ok d ->
     d <= valid_until_us c /\ forall v, now <= v < d -> host v < deadline).
Proof.
  intros Hc Hh. assert (Hs : sample c = s /\ policy c = p).
  { unfold correlate in Hc. destruct (_ || _); [done|]. by apply Result_bind_Ok in Hc as (u & _ & [= <-]). }
  destruct Hs as [<- <-]. split.
  - intros observed now age Ha. destruct (age_upper_spec host c observed now age) as (H & _ & Hv); [by split|done|]. split; [lia|done].
  - intros deadline now d Hd. by apply (deadline_lower_spec host c deadline now d).
Qed.

(** Evidence of a view is real and recent.  However reports, decoded pictures,
    callbacks and clock exchanges follow each other, whenever a tracker gives evidence
    the receiver generation it was made for is still live, the named picture was
    submitted to the compositor, a callback named its frame as visible after that, and it
    was neither replaced nor hidden since; its source was observed, by a report about exactly this picture or
    by its capture, no earlier than its capture and, by the host's true clock, more
    recently than the bound of at most 1.5 s; and a picture that was shown after its
    display budget counts only after a newer report of a running source arrived. *)
Theorem evidence_is_recent host id r c m now0 t0 calls log t flag now ev t' :
  correlated host c -> new id r c m now0 = Ok t0 -> Forall (call_ok host) calls -> run calls ([], t0) = (log, t) ->
  evidence flag now t = (Ok ev, t') ->
  flag (scope_of id r) = true /\
  exists d u at_us since o,
    on_screen log d u at_us since /\ ev_frame ev = frame d /\ ev_source ev <> Unknown /\
    justified log d o (ev_source ev) /\ capture_micros d <= o /\
    host now - o <= source_age_upper_us ev /\ source_age_upper_us ev < t_max_source_age_us t /\ t_max_source_age_us t <= 1500000 /\
    host now - capture_micros d <= pixel_age_upper_us ev /\
    (u <= at_us -> qualified d since).
Proof.
  intros Hc Hn Hcs Hr He. pose proof (run_view host (scope_of id r) calls [] t0 (new_view _ _ _ _ _ _ _ _ Hc Hn eq_refl) Hcs) as Hv.
  rewrite Hr in Hv. cbn [fst snd] in Hv. pose proof (evidence_spec host (scope_of id r) flag now log t Hv) as H.
  unfold wp in H. rewrite He in H. destruct H as [_ H]. destruct (H ev eq_refl) as (_ & d & o & [Hf Hvis Hsrc Hkn Hqu Hfr Hpx Hag Hfre]).
  split; [done|]. destruct (sv_visible _ _ _ _ Hv d Hvis) as (u & at_us & since & Ho & Hs).
  exists d, u, at_us, since, o. unfold source_ok in Hs. rewrite Hsrc, Hqu in Hs. destruct Hs as [Hj Hq].
  apply (age_upper_spec host) in Hag as (Ha & _); [|apply (sv_clock _ _ _ _ Hv)].
  apply (age_upper_spec host) in Hpx as (Hp & _); [|apply (sv_clock _ _ _ _ Hv)].
  assert (capture_micros d <= o).
  { destruct Hj as [(p & Hp1 & <- & <- & Hp2)|[-> _]]; [|lia]. apply (sv_reports _ _ _ _ Hv p Hp1).
    unfold is_known. rewrite Hp2. destruct (ev_source ev); [done|reflexivity..]. }
  pose proof (sv_max _ _ _ _ Hv). split_and!; try done; lia.
Qed.

(** ** Witnesses *)

(** The host's clock is five microseconds ahead; the picture is shown after its
    display budget and qualified by a later check of the unchanged source. *)
Definition demo_host (v : Z) : Z := v + 5.
Definition demo_sample : ClockSample := mk_clock_sample 1 100 155 200.
Definition demo_clock : ClockCorrelation := mk_correlation demo_sample default_clock_policy 10000200.
Definition demo_flag : address -> bool := flag_of 0 ReceiverClaims.demo_receiver.
Definition demo_report (o : Z) (s : SourceObservation) : ReceivePipeline :=
  ReceiverClaims.demo_receiver <| Receiver.latest := Some (mk_progress ReceiverClaims.demo_second o s Running) |>.
Definition demo_frame : DecodedFrame :=
  mk_decoded 0 ReceiverClaims.demo_second (Assembly.Assembly.epoch (Receiver.config ReceiverClaims.demo_receiver))
    (Assembly.Assembly.bindings (Receiver.config ReceiverClaims.demo_receiver)) 2500.
Definition demo_view_calls : list Call :=
  [mk_call demo_flag 1200 (DecodedPicture 0 demo_frame true);
   mk_call demo_flag 1210 (ObserveReceiver 0 (demo_report 1000 Captured));
   mk_call demo_flag 3000 (VisibleCallback 2);
   mk_call demo_flag 3100 (ObserveReceiver 0 (demo_report 2900 QualifiedUnchanged))].
Definition demo_tracker : ViewTracker :=
  mk_tracker (0, 0) 0 (Assembly.Assembly.bindings (Receiver.config ReceiverClaims.demo_receiver))
    (Assembly.Assembly.epoch (Receiver.config ReceiverClaims.demo_receiver)) demo_clock 250000 300 None None None None None None None 0 false.
Definition demo_evidence : ViewEvidence := mk_evidence 3 2 (t_epoch demo_tracker) 3200 2259 359 QualifiedUnchanged.

Lemma demo_honest : honest demo_host demo_sample default_clock_policy.
Proof.
  split; [|cbn; lia|exists 150; by unfold demo_host; cbn].
  intros v v' Hv. unfold demo_host, default_clock_policy. cbn [drift_ppm]. lia.
Qed.

Lemma age_is_never_understated_witness : demo_host 3200 - 2900 <= 359 /\ demo_host 1100 < 1200.
Proof.
  destruct (age_is_never_understated demo_host demo_sample default_clock_policy demo_clock) as [Ha Hd];
    [vm_compute; reflexivity|apply demo_honest|]. split.
  - apply (Ha 2900 3200 359). vm_compute. reflexivity.
  - apply (Hd 1200 1000 1143); [vm_compute; reflexivity|lia].
Defined.

Lemma evidence_is_recent_witness :
  snd (run demo_view_calls ([], demo_tracker)) <> demo_tracker /\ demo_flag (0, 0) = true /\
  exists d u at_us since o, on_screen (fst (run demo_view_calls ([], demo_tracker))) d u at_us since /\ 2 = frame d /\
    demo_host 3200 - o <= 359 /\ (u <= at_us -> qualified d since).
Proof.
  split; [vm_compute; discriminate|].
  destruct (evidence_is_recent demo_host 0 ReceiverClaims.demo_receiver demo_clock 250000 300 demo_tracker demo_view_calls
    (fst (run demo_view_calls ([], demo_tracker))) (snd (run demo_view_calls ([], demo_tracker))) demo_flag 3200 demo_evidence
    (snd (evidence demo_flag 3200 (snd (run demo_view_calls ([], demo_tracker)))))) as (Hf & d & u & at_us & since & o & H1 & H2 & _ & _ & _ & H3 & _ & _ & _ & H4).
  - split; [vm_compute; reflexivity|apply demo_honest].
  - vm_compute. reflexivity.
  - repeat constructor; vm_compute; discriminate.
  - vm_compute. reflexivity.
  - vm_compute. reflexivity.
  - split; [exact Hf|]. by exists d, u, at_us, since, o.
Defined.

End FreshnessClaims.
