(* ===== verification/Presented.v ===== *)
(** * Presentation reports

    [fr-media/src/presented.rs]: the host's verifier, which believes a report only
    about a source it recorded itself, and the viewer's reporter, which holds at most
    one report that was not handed to the transport yet. *)

From S2P Require Import Prelude.
From S2P Require Import Bytes.
From S2P Require Import Limits.
From S2P Require Import WireRecord.
From S2P Require Import WireInput.
From S2P Require Import WireMedia.
From S2P Require Import WireView.
From S2P Require Import Freshness.

Module Presented.
Import Media PresentedMsg.
Import Freshness(is_known, is_running).

#[export] Instance Stamp_eq_dec : EqDecision Stamp.
Proof. solve_decision. Defined.

Definition HISTORY : nat := 64.
Definition REPORT_INTERVAL_US : Z := 50000.

Inductive Error := EWire (e : WireError) | Clock | Overflow | UnknownSource | Replay | Expired.
Inductive Decision := Ready (until_us : Z) | Unavailable | Obsolete.

(** ** The host's verifier *)

Record Verifier := mk_verifier {
  v_binding : ViewBinding.Binding;
  v_limits : Limits.ProtocolLimits;
  history : list (option Stamp);
  cursor : nat;
  last_source : option Stamp;
  v_last_now : Z;
  floor : Z;
  confirmed_until : option Z
}.
#[export] Instance eta_verifier : Eta Verifier := fun v =>
  mk_verifier (v_binding v) (v_limits v) (history v) (cursor v) (last_source v) (v_last_now v) (floor v) (confirmed_until v).

Abbreviation HM := (M Verifier Error).

Definition new_verifier (b : ViewBinding.Binding) (l : Limits.ProtocolLimits) (now : Z) : Result Error Verifier :=
  _ ← map_err EWire (ViewBinding.validate b);
  Ok (mk_verifier b l (replicate HISTORY None) 0 None now 0 None).

(** [tick] on the verifier's clock. *)
Definition v_tick (now : Z) : HM unit :=
  _ ← refuse_if (fun v => now <? v_last_now v) (fun _ => Clock);
  modify (fun v => v <| v_last_now := now |>).

Definition stamp_of (p : Progress) : Stamp :=
  mk_stamp (frame (p_descriptor p)) (capture_micros (p_descriptor p)) (observed_micros p) (observation p).

Definition remember (s : Stamp) (v : Verifier) : Verifier :=
  v <| history := <[cursor v := Some s]> (history v) |>
    <| cursor := Nat.modulo (S (cursor v)) HISTORY |>
    <| last_source := Some s |>.

Definition observe (p : Progress) (now : Z) : HM unit :=
  _ ← v_tick now;
  if negb (is_running p) || negb (is_known p)
  then modify (fun v => v <| history := replicate HISTORY None |> <| last_source := None |>)
  else
    let s := stamp_of p in
    _ ← lift (map_err EWire (validate_sample (mk_sample s 0)));
    _ ← refuse_if (fun _ => now <? observed_us s) (fun _ => Clock);
    v ← gets id;
    if bool_decide (last_source v = Some s) then mret tt
    else
      _ ← refuse_if (fun v => is_some_and (fun l => (st_frame s <? st_frame l) || (observed_us s <? observed_us l)) (last_source v))
                    (fun _ => Clock);
      modify (remember s).

Definition bound_ok (bound : Z) : bool := (1 <=? bound) && (bound <=? MAX_SOURCE_AGE_US).

(** The verdict on a decoded report whose sequence is new. *)
Definition judge (sample : option Sample) (now bound : Z) : HM Decision :=
  match sample with
  | None => mret Unavailable
  | Some s =>
      until ← lift (ok_or (checked_add u64_max (observed_us (stamp s)) bound) Overflow);
      v ← gets id;
      if is_some_and (fun old => until <=? old) (confirmed_until v) then mret Obsolete
      else if until <=? now then mret Unavailable
      else
        _ ← refuse_if (fun v => negb (bool_decide (Some (stamp s) ∈ history v))) (fun _ => UnknownSource);
        _ ← modify (fun v => v <| confirmed_until := Some until |>);
        mret (Ready until)
  end.

Definition receive_report (bs : bytes) (now bound : Z) : HM (Z * Decision) :=
  _ ← v_tick now;
  _ ← refuse_if (fun _ => negb (bound_ok bound)) (fun _ => Overflow);
  report ← readr (fun v => map_err EWire (decode bs (v_binding v) (v_limits v) ViewerToHost Reliable));
  _ ← refuse_if (fun v => sequence report <=? floor v) (fun _ => Replay);
  _ ← refuse_if (fun _ => sequence report =? 0) (fun _ => Replay);
  _ ← modify (fun v => v <| floor := sequence report |>);
  d ← judge (visible report) now bound;
  mret (sequence report, d).

Definition receive (bs : bytes) (now bound : Z) : HM Decision :=
  d ← receive_report bs now bound;
  mret (snd d).

(** ** The viewer's reporter *)

(** The lineage is an [Arc<()>], compared by address. *)
Record AdmittedCursor := mk_cursor {
  ac_binding : ViewBinding.Binding;
  ac_sequence : Z;
  ac_visible : option Stamp;
  ac_lineage : Z
}.
Definition QueuedReport : Type := AdmittedCursor.

Record PendingReport := mk_pending { pr_stamp : option Stamp; pr_bytes : bytes; pr_until : Z }.
Record Reporter := mk_reporter {
  r_binding : ViewBinding.Binding;
  r_lineage : Z;
  r_limits : Limits.ProtocolLimits;
  r_sequence : Z;
  r_last_now : Z;
  after : Z;
  sent : option Stamp;
  discarded : option Stamp;
  unavailable_sent : bool;
  r_pending : option PendingReport
}.
#[export] Instance eta_reporter : Eta Reporter := fun r =>
  mk_reporter (r_binding r) (r_lineage r) (r_limits r) (r_sequence r) (r_last_now r) (after r) (sent r) (discarded r)
    (unavailable_sent r) (r_pending r).

Abbreviation RM := (M Reporter Error).

Definition new_reporter (lineage : Z) (b : ViewBinding.Binding) (l : Limits.ProtocolLimits) (now : Z) : Result Error Reporter :=
  _ ← map_err EWire (ViewBinding.validate b);
  Ok (mk_reporter b lineage l 1 now now None None false None).

Definition has_reported (r : Reporter) : bool := is_some (sent r).
Definition admitted_cursor (r : Reporter) : AdmittedCursor :=
  mk_cursor (r_binding r) (r_sequence r - 1) (if unavailable_sent r then None else sent r) (r_lineage r).

(** [tick] on the reporter's clock. *)
Definition r_tick (now : Z) : RM unit :=
  _ ← refuse_if (fun r => now <? r_last_now r) (fun _ => Clock);
  modify (fun r => r <| r_last_now := now |>).

Definition is_negative (p : PendingReport) : bool := negb (is_some (pr_stamp p)).
Definition pending_is_positive (r : Reporter) : bool := is_some_and (fun p => negb (is_negative p)) (r_pending r).

Definition pending (now : Z) : RM (option (bytes * Z)) :=
  _ ← r_tick now;
  _ ← refuse_if (fun r => is_some_and (fun p => pr_until p <=? now) (r_pending r)) (fun _ => Expired);
  gets (fun r => (fun p => (pr_bytes p, pr_until p)) <$> r_pending r).

Definition discard_expired_positive (now : Z) : RM bool :=
  _ ← r_tick now;
  r ← gets id;
  match r_pending r with
  | Some p =>
      if pr_until p <=? now then
        stamp ← lift (ok_or (pr_stamp p) Expired);
        _ ← modify (fun r => r <| discarded := Some stamp |> <| r_pending := None |>);
        mret true
      else mret false
  | None => mret false
  end.

(** A report on [BYTES] zero bytes, installed as the pending one. *)
Definition install (sample : option Sample) (until : Z) : RM unit :=
  bs ← readr (fun r =>
    match encode (mk_report (r_sequence r) sample) (r_binding r) (r_limits r) (zeros (Z.to_nat BYTES)) ViewerToHost Reliable with
    | (Ok _, out) => Ok out
    | (Err e, _) => Err (EWire e)
    end);
  modify (fun r => r <| r_pending := Some (mk_pending (stamp <$> sample) bs until) |>).

Definition force_unavailable (now : Z) : RM Z :=
  _ ← discard_expired_positive now;
  r ← gets id;
  if is_some_and is_negative (r_pending r) then mret (r_sequence r)
  else
    until ← lift (ok_or (checked_add u64_max now REPORT_INTERVAL_US) Overflow);
    _ ← install None until;
    gets r_sequence.

(** The last part of [prepare]: a sample of the wanted freshness. *)
Definition prepare_sample (s : Sample) (now bound : Z) : RM unit :=
  _ ← lift (map_err EWire (validate_sample s));
  _ ← modify (fun r => if is_some_and (fun p => negb (bool_decide (pr_stamp p = Some (stamp s)))) (r_pending r)
                       then r <| r_pending := None |> else r);
  r ← gets id;
  match r_pending r with
  | Some p => if pr_until p <=? now then fail Expired else mret tt
  | None =>
      if bool_decide (sent r = Some (stamp s)) || (now <? after r) then mret tt
      else
        until ← lift (ok_or (checked_add u64_max now (bound - age_upper_us s)) Overflow);
        install (Some s) until
  end.

(** A sample that is too old, or was discarded with its bytes, counts for none. *)
Definition usable (sample : option Sample) (bound : Z) (r : Reporter) : option Sample :=
  match sample with
  | Some s => if (age_upper_us s <? bound) && negb (bool_decide (discarded r = Some (stamp s))) then Some s else None
  | None => None
  end.

Definition prepare (sample : option Sample) (now bound : Z) : RM unit :=
  _ ← r_tick now;
  _ ← refuse_if (fun _ => negb (bound_ok bound)) (fun _ => Overflow);
  r ← gets id;
  if is_some_and is_negative (r_pending r) then
    _ ← pending now;
    mret tt
  else
    match usable sample bound r with
    | Some s => prepare_sample s now bound
    | None =>
        _ ← modify (fun r => r <| r_pending := None |>);
        if is_some (sent r) && negb (unavailable_sent r) then _ ← force_unavailable now; mret tt else mret tt
    end.

Definition pause (now : Z) : RM unit :=
  _ ← r_tick now;
  _ ← modify (fun r => if pending_is_positive r then r <| r_pending := None |> else r);
  _ ← pending now;
  mret tt.

Definition queued_receipt (now : Z) : RM QueuedReport :=
  o ← pending now;
  _ ← lift (ok_or o Expired);
  next ← readr (fun r => ok_or (checked_add u64_max (r_sequence r) 1) Overflow);
  aft ← lift (ok_or (checked_add u64_max now REPORT_INTERVAL_US) Overflow);
  p ← readr (fun r => ok_or (r_pending r) Expired);
  _ ← modify (fun r => r <| r_pending := None |>);
  receipt ← gets (fun r => mk_cursor (r_binding r) (r_sequence r) (pr_stamp p) (r_lineage r));
  _ ← modify (fun r => match pr_stamp p with
                       | Some s => r <| sent := Some s |> <| unavailable_sent := false |>
                       | None => r <| unavailable_sent := true |>
                       end);
  _ ← modify (fun r => r <| r_sequence := next |> <| after := aft |>);
  mret receipt.

Definition queued (now : Z) : RM unit :=
  _ ← queued_receipt now;
  mret tt.

End Presented.
