(* ===== verification/HostView.v ===== *)
(** * The host's gate on the visible view

    [HostPresentation] of [frd/src/media/presented.rs]: the owner that turns verified
    reports into the readiness of the session authority, with the [check] of
    [ObservationControl] ([frd/src/media.rs]) it makes first.

    What the runtime decides is an argument of each call: whether the task was
    cancelled, whether the tailnet admission still stands, what the clock shows when
    it is sampled, the round-trip time of the path.  Routes and roles are checked when
    the owner is attached. *)

From S2P Require Import Prelude.
From S2P Require Import Bytes.
From S2P Require Import CoreTime.
From S2P Require Import Limits.
From S2P Require Import Authority.
From S2P Require Import WireRecord.
From S2P Require Import WireMedia.
From S2P Require Import WireView.
From S2P Require Import Freshness.
From S2P Require Import Presented.

Module HostView.
Import Media PresentedMsg Presented.
Import Freshness(is_known, is_running).

Inductive HostError :=
| Binding | Cancelled | Admission | MissingRuntime | Closed
| Proof_ (e : Presented.Error) | FromAuthority (e : AuthorityError).

Record Outside := mk_outside {
  cancelled : bool;
  admitted : bool;
  check_clock : option Z;
  lock_clock : option Z
}.

Record HostPresentation := mk_host {
  authority : SessionAuthority;
  verifier : Verifier;
  inbound : Z;
  bound_us : Z;
  accepted : Z
}.
#[export] Instance eta_host : Eta HostPresentation := fun h =>
  mk_host (authority h) (verifier h) (inbound h) (bound_us h) (accepted h).

Abbreviation PM := (M HostPresentation HostError).

(** A method of one of the two owners, through [map_err] and [?]. *)
Definition on_authority {A} (m : AuthM A) : PM A := fun h =>
  let '(r, a) := m (authority h) in (map_err FromAuthority r, h <| authority := a |>).
Definition on_verifier {A} (m : M Verifier Presented.Error A) : PM A := fun h =>
  let '(r, v) := m (verifier h) in (map_err Proof_ r, h <| verifier := v |>).

(** [ObservationControl::check]; a lost admission revokes the session. *)
Definition check (out : Outside) : M SessionAuthority HostError Z := fun a =>
  if cancelled out then (Err Cancelled, a)
  else if negb (admitted out) then (Err Admission, close a)
  else
    match check_clock out with
    | None => (Err MissingRuntime, a)
    | Some now =>
        let '(r, a) := authorize_observation_delivery now a in
        (_ ← map_err FromAuthority r; Ok now, a)
    end.

Definition control_check (out : Outside) : PM Z := fun h =>
  let '(r, a) := check out (authority h) in (r, h <| authority := a |>).

Definition stale (h : HostPresentation) : HostPresentation := h <| authority := mark_view_stale (authority h) |>.

(** [if result.is_err() { self.stale() }]. *)
Definition or_stale {A} (m : PM A) : PM A := fun h =>
  match m h with (Ok a, h) => (Ok a, h) | (Err e, h) => (Err e, stale h) end.

Definition host_bound (rtt : option Z) : Z := source_age_bound_us BASE_SOURCE_AGE_US rtt HOST_RTT_MULTIPLE.

(** [connected]: the capability was selected and the routes and roles fit. *)
Definition attach (connected : bool) (route : Z) (b : ViewBinding.Binding) (l : Limits.ProtocolLimits) (rtt : option Z)
  (out : Outside) (a : SessionAuthority) : Result HostError HostPresentation * SessionAuthority :=
  if negb connected then (Err Binding, a)
  else
    match check out a with
    | (Err e, a) => (Err e, a)
    | (Ok _, a) =>
        match lock_clock out with
        | None => (Err MissingRuntime, a)
        | Some now =>
            match new_verifier b l now with
            | Err e => (Err (Proof_ e), a)
            | Ok v =>
                match require_view_evidence now a with
                | (Err e, a) => (Err (FromAuthority e), a)
                | (Ok _, a) => (Ok (mk_host a v route (host_bound rtt) 0), a)
                end
            end
        end
    end.

Definition check_connection (bound_to : bool) (rtt : option Z) (out : Outside) : PM unit :=
  if negb bound_to then _ ← modify stale; fail Binding
  else
    _ ← control_check out;
    modify (fun h => h <| bound_us := host_bound rtt |>).

Definition observe (progress : option Progress) (out : Outside) : PM unit := or_stale (
  now ← control_check out;
  p ← lift (ok_or progress Closed);
  _ ← on_verifier (Presented.observe p now);
  modify (fun h => if negb (is_known p) || negb (is_running p) then stale h else h)).

Definition apply_verified_report (sequence : Z) (d : Decision) (now : Z) : PM bool :=
  match d with
  | Ready until => fun h =>
      match mark_presented_ready_until sequence until now (authority h) with
      | (Ok _, a) => (Ok true, h <| authority := a |>)
      | (Err ReleasePending, a) => (Ok false, h <| authority := a |>)
      | (Err e, a) => (Err (FromAuthority e), h <| authority := a |>)
      end
  | Unavailable => _ ← modify stale; mret false
  | Obsolete => mret false
  end.

Definition receive (route : Z) (bs : bytes) (out : Outside) : PM unit := or_stale (
  _ ← refuse_if (fun h => negb (route =? inbound h)) (fun _ => Binding);
  _ ← control_check out;
  now ← lift (ok_or (lock_clock out) MissingRuntime);
  bound ← gets bound_us;
  verdict ← on_verifier (receive_report bs now bound);
  applied ← apply_verified_report (fst verdict) (snd verdict) now;
  modify (fun h => if (applied : bool) then h <| accepted := saturating_add u64_max (accepted h) 1 |> else h)).

(** [HostPresentation::drop]. *)
Definition drop_host (h : HostPresentation) : HostPresentation := stale h.

End HostView.
