(* ===== verification/HostViewProps.v ===== *)
(** Presentation reports: lemmas on the verifier and the reporter, then the host's gate. *)

From S2P Require Import Prelude.
From S2P Require Import CoreTime.
From S2P Require Import Authority.
From S2P Require Import AuthorityInv.
From S2P Require Import AuthoritySpec.
From S2P Require Import AuthorityProps.
From S2P Require Import Limits.
From S2P Require Import Bytes.
From S2P Require Import WireRecord.
From S2P Require Import WireRecordProps.
From S2P Require Import WireMedia.
From S2P Require Import WireMediaProps.
From S2P Require Import WireInput.
From S2P Require Import WireControl.
From S2P Require Import WireView.
From S2P Require Import WireViewProps.
From S2P Require Import Freshness.
From S2P Require Import Presented.
From S2P Require Import HostView.

(** * The viewer's reports

    The invariant [reporting] of a reporter over its calls: the record it holds reads
    as a report with the sequence it would have, about a sample that was offered, and
    so does every record it handed over. *)

Module PresentedProps.
Import Media PresentedMsg Presented.
Import PresentedMsgProps(stamp_typed, sample_typed, report_typed, report_valid, body, presented_codec).

(** ** One record *)

Lemma report_length b r : length (body b r) = 139%nat.
Proof.
  unfold body, PresentedMsgProps.report_bytes, PresentedMsgProps.sample_bytes. rewrite !length_app, ViewProps.view_length, !be_length.
  unfold MediaProps.observation_bytes. by rewrite be_length.
Qed.

(** A view both ends agreed on, in the limits they agreed on. *)
Record agreed (b : ViewBinding.Binding) (l : Limits.ProtocolLimits) : Prop := {
  ag_typed : ViewProps.view_typed b;
  ag_valid : ViewBinding.validate b = Ok tt;
  ag_fits : BYTES <= control_bytes l
}.

Lemma report_read b l q vis n out : agreed b l -> report_typed (mk_report q vis) ->
  encode (mk_report q vis) b l (zeros (Z.to_nat BYTES)) ViewerToHost Reliable = (Ok n, out) ->
  decode out b l ViewerToHost Reliable = Ok (mk_report q vis).
Proof.
  intros [Hv Hval Hf] Ht He.
  assert (Hnz : cb_id (ViewBinding.parent b) <> 0).
  { unfold ViewBinding.validate in Hval. destruct (_ || _) eqn:E; [done|]. guards. lia. }
  pose proof (presented_codec b l ViewerToHost Reliable Hv Hnz) as Hc.
  assert (Hr : report_valid (mk_report q vis)).
  { unfold encode in He. rewrite Hval in He. cbn [mbind Result_bind] in He. unfold report_valid.
    by destruct (validate_report _) as [[]|]. }
  assert (Hfit : fits_record (body b) (control_bytes l) (mk_report q vis)).
  { unfold fits_record. rewrite report_length. unfold BYTES, ViewBinding.BINDING_BYTES in Hf. lia. }
  assert (Hro : (_ ← ViewBinding.validate b; role ViewerToHost Reliable) = Ok tt) by (by rewrite Hval).
  pose proof (codec_writes _ _ _ _ _ _ _ _ Hc (mk_report q vis) (zeros (Z.to_nat BYTES)) Ht (conj Hro Hr) Hfit) as Hw.
  cbn beta in Hw. rewrite report_length in Hw. rewrite Hw in He by (vm_compute; done).
  assert (out = frame_of PresentedState (cb_id (ViewBinding.parent b)) (body b (mk_report q vis)) []
                ++ drop (24 + 139) (zeros (Z.to_nat BYTES))) as -> by congruence.
  change (drop (24 + 139) (zeros (Z.to_nat BYTES))) with (@nil Z). rewrite app_nil_r.
  by apply (codec_reads _ _ _ _ _ _ _ _ Hc).
Qed.

(** ** Histories, newest first *)

Inductive Event :=
| Offered (s : Sample) (now bound : Z)
| Queued (c : QueuedReport) (bs : bytes) (now : Z).

Inductive Op :=
| Prepare (sample : option Sample) (now bound : Z)
| Pause (now : Z)
| ForceUnavailable (now : Z)
| Discard (now : Z)
| Poll (now : Z)
| Hand (now : Z).

Definition step (op : Op) (w : list Event * Reporter) : list Event * Reporter :=
  let '(log, r) := w in
  match op with
  | Prepare s now bound => (match s with Some s => Offered s now bound :: log | None => log end, snd (prepare s now bound r))
  | Pause now => (log, snd (pause now r))
  | ForceUnavailable now => (log, snd (force_unavailable now r))
  | Discard now => (log, snd (discard_expired_positive now r))
  | Poll now => (log, snd (pending now r))
  | Hand now =>
      match queued_receipt now r with
      | (Ok c, r') => (match r_pending r with Some p => Queued c (pr_bytes p) now :: log | None => log end, r')
      | (Err _, r') => (log, r')
      end
  end.

Fixpoint run (ops : list Op) (w : list Event * Reporter) : list Event * Reporter :=
  match ops with [] => w | op :: ops => run ops (step op w) end.

Definition op_ok (op : Op) : Prop := match op with Prepare (Some s) _ _ => sample_typed s | _ => True end.

(** ** The invariant *)

Definition offered (log : list Event) (vis : option Sample) (until : Z) : Prop :=
  match vis with
  | Some s => exists t0 bound, Offered s t0 bound ∈ log /\ until = t0 + (bound - age_upper_us s) /\ age_upper_us s < bound <= MAX_SOURCE_AGE_US
  | None => True
  end.

(** The sequences of the records handed over. *)
Definition sequences (log : list Event) : list Z :=
  omap (fun e => match e with Queued c _ _ => Some (ac_sequence c) | _ => None end) log.

Definition handed (b : ViewBinding.Binding) (l : Limits.ProtocolLimits) (log : list Event) (c : QueuedReport) (bs : bytes) (now : Z) : Prop :=
  exists vis until, decode bs b l ViewerToHost Reliable = Ok (mk_report (ac_sequence c) vis) /\ ac_visible c = stamp <$> vis
    /\ offered log vis until /\ now < until /\ Forall (fun n => n < ac_sequence c) (sequences log).

Record reporting (b : ViewBinding.Binding) (l : Limits.ProtocolLimits) (log : list Event) (r : Reporter) : Prop := {
  rp_binding : r_binding r = b;
  rp_limits : r_limits r = l;
  rp_sequence : 1 <= r_sequence r <= u64_max;
  rp_below : Forall (fun n => n < r_sequence r) (sequences log);
  rp_pending : forall p, r_pending r = Some p -> exists vis,
    decode (pr_bytes p) b l ViewerToHost Reliable = Ok (mk_report (r_sequence r) vis) /\ pr_stamp p = stamp <$> vis
    /\ offered log vis (pr_until p);
  rp_handed : forall l1 c bs now l2, log = l1 ++ Queued c bs now :: l2 -> handed b l l2 c bs now
}.

Section methods.
Context (b : ViewBinding.Binding) (l : Limits.ProtocolLimits) (Hag : agreed b l).
Implicit Types (r : Reporter) (log : list Event).

Lemma reporting_same log r r' : reporting b l log r -> r_binding r' = r_binding r -> r_limits r' = r_limits r ->
  r_sequence r' = r_sequence r -> (r_pending r' = r_pending r \/ r_pending r' = None) -> reporting b l log r'.
Proof.
  intros [H1 H2 H3 H4 H5 H6] E1 E2 E3 E4. constructor; rewrite ?E1, ?E2, ?E3; try done.
  intros p Hp. destruct E4 as [E4|E4]; rewrite E4 in Hp; [by apply H5|done].
Qed.

Lemma wp_rtick {B} now (k : unit -> RM B) log r Q : reporting b l log r ->
  Q (Err Clock) r ->
  (reporting b l log (r <| r_last_now := now |>) -> wp (k tt) (r <| r_last_now := now |>) Q) ->
  wp (r_tick now ≫= k) r Q.
Proof.
  intros Hr He Hk. apply wp_bind. unfold r_tick. apply wp_refuse. destruct (_ <? _); [exact He|].
  apply Hk. eapply reporting_same; [exact Hr|done..|by left].
Qed.

Lemma pending_spec now log r : reporting b l log r ->
  wp (pending now) r (fun res r' => reporting b l log r' /\ r_pending r' = r_pending r /\ r_sequence r' = r_sequence r
    /\ r_binding r' = r_binding r /\ forall p, is_ok res = true -> r_pending r = Some p -> now < pr_until p).
Proof.
  intros Hr. unfold pending. eapply wp_rtick; [exact Hr|done|]. intros Hr'. apply wp_refuse.
  change (r_pending (r <| r_last_now := now |>)) with (r_pending r).
  destruct (is_some_and _ _) eqn:E; [done|]. unfold wp. cbn [fst snd gets]. split_and!; try done.
  intros p _ Hp. rewrite Hp in E. cbn in E. by apply Z.leb_gt in E.
Qed.

Lemma report_install_spec sample until log r : reporting b l log r -> match sample with Some s => sample_typed s | None => True end ->
  offered log sample until -> wp (install sample until) r (fun res r' => reporting b l log r' /\ r_sequence r' = r_sequence r /\
    match res with Ok _ => exists bs, r_pending r' = Some (mk_pending (stamp <$> sample) bs until) | Err _ => r' = r end).
Proof using Hag.
  intros Hr Hs Ho. unfold install. apply wp_readr.
  pose proof Hr as [H1 H2 H3 H4 _ H6]. rewrite H1, H2.
  destruct (encode _ b l _ _ _) as [[n|e] out] eqn:Ee; [|done]. unfold wp, modify. cbn [fst snd].
  split; [|split; [done|by eexists]]. constructor; try done. intros p [= <-]. exists sample. cbn. split; [|done].
  eapply report_read; [done| |exact Ee]. split; [|done]. unfold fits. cbn. lia.
Qed.

Lemma discard_spec now log r : reporting b l log r ->
  wp (discard_expired_positive now) r (fun res r' => reporting b l log r' /\ r_sequence r' = r_sequence r
    /\ (r_pending r' = r_pending r \/ r_pending r' = None)
    /\ (is_some_and is_negative (r_pending r) = true -> r_pending r' = r_pending r)).
Proof.
  intros Hr. unfold discard_expired_positive. eapply wp_rtick; [exact Hr|by auto|]. intros Hr'. apply wp_gets. unfold id.
  change (r_pending (r <| r_last_now := now |>)) with (r_pending r). destruct (r_pending r) as [p|] eqn:Ep; [|unfold wp; cbn; auto].
  destruct (_ <=? now); [|unfold wp; cbn; auto]. apply wp_lift. destruct (pr_stamp p) as [s|] eqn:Es; cbn [ok_or]; [|auto].
  apply wp_modify. unfold wp. cbn [fst snd mret M_ret]. split; [eapply reporting_same; [exact Hr'|done..|by right]|].
  split; [done|]. split; [by right|]. cbn. unfold is_negative. by rewrite Es.
Qed.

(** A pending loss report stays; otherwise one is installed under the same sequence. *)
Lemma force_unavailable_spec now log r : reporting b l log r ->
  wp (force_unavailable now) r (fun res r' => reporting b l log r' /\ r_sequence r' = r_sequence r
    /\ (is_some_and is_negative (r_pending r) = true -> r_pending r' = r_pending r)
    /\ match res with Ok q => q = r_sequence r /\ is_some_and is_negative (r_pending r') = true | Err _ => True end).
Proof using Hag.
  intros Hr. unfold force_unavailable. apply wp_bind, (wp_mono _ _ _ _ (discard_spec now log r Hr)).
  intros [x|e] r1 (H1 & E1 & _ & Hn); [|done]. apply wp_gets. unfold id.
  destruct (is_some_and is_negative (r_pending r1)) eqn:En; [done|].
  assert (Hneg : is_some_and is_negative (r_pending r) = true -> False) by (intros H; rewrite (Hn H) in En; congruence).
  apply wp_lift. destruct (checked_add _ _ _) as [u|]; cbn [ok_or]; [|split_and!; try done; intros H; by destruct (Hneg H)].
  apply wp_bind, (wp_mono _ _ _ _ (report_install_spec None u log r1 H1 I I)). intros [[]|e] r2 (H2 & E2 & H).
  - destruct H as [bs Hp]. unfold wp. cbn [fst snd gets]. rewrite E2, E1, Hp.
    split; [done|]. split; [done|]. split; [intros H'; by destruct (Hneg H')|done].
  - subst r2. split_and!; try done; intros H'; by destruct (Hneg H').
Qed.

Lemma prepare_sample_spec s now bound log r : reporting b l log r -> sample_typed s -> Offered s now bound ∈ log ->
  age_upper_us s < bound <= MAX_SOURCE_AGE_US ->
  wp (prepare_sample s now bound) r (fun _ r' => reporting b l log r' /\ r_sequence r' = r_sequence r).
Proof using Hag.
  intros Hr Hs Ho Hb. unfold prepare_sample. apply wp_lift. destruct (validate_sample s); cbn [map_err]; [|done].
  apply wp_modify, wp_gets. unfold id. match goal with |- wp _ ?x _ => set (r1 := x) end.
  assert (H1 : reporting b l log r1 /\ r_sequence r1 = r_sequence r).
  { unfold r1. destruct (is_some_and _ _); [|done]. split; [|done]. eapply reporting_same; [exact Hr|done..|by right]. }
  destruct H1 as [H1 E1]. destruct (r_pending r1) as [p|]; [destruct (_ <=? now); done|].
  destruct (_ || _); [done|]. apply wp_lift. destruct (checked_add _ _ _) as [u|] eqn:Eu; cbn [ok_or]; [|done].
  apply checked_add_Some in Eu as [-> _].
  apply (wp_mono _ _ _ _ (report_install_spec (Some s) (now + (bound - age_upper_us s)) log r1 H1 Hs
    ltac:(exists now, bound; split; [done|]; split; [done|exact Hb]))).
  intros res r2 (H2 & E2 & _). split; [done|congruence].
Qed.

(** Nothing but the loss report is pending while it is. *)
Lemma prepare_spec sample now bound log r : reporting b l log r -> match sample with Some s => sample_typed s | None => True end ->
  (forall s, sample = Some s -> Offered s now bound ∈ log) ->
  wp (prepare sample now bound) r (fun _ r' => reporting b l log r' /\ r_sequence r' = r_sequence r
    /\ (is_some_and is_negative (r_pending r) = true -> r_pending r' = r_pending r)).
Proof using Hag.
  intros Hr Hs Ho. unfold prepare. eapply wp_rtick; [exact Hr|done|]. intros Hr'. apply wp_refuse.
  destruct (bound_ok bound) eqn:Eb; cbn [negb]; [|done]. apply wp_gets. unfold id.
  set (r1 := r <| r_last_now := now |>) in *. change (r_pending r) with (r_pending r1). change (r_sequence r) with (r_sequence r1).
  destruct (is_some_and is_negative (r_pending r1)) eqn:En.
  { apply wp_bind, (wp_mono _ _ _ _ (pending_spec now log r1 Hr')). intros [x|e] r2 (H2 & E2 & E3 & _); done. }
  unfold usable. unfold bound_ok in Eb. rewrite andb_true_iff, !Z.leb_le in Eb.
  assert (Hloss : wp (_ ← modify (fun r => r <| r_pending := None |>);
      if is_some (sent r1) && negb (unavailable_sent r1) then _ ← force_unavailable now; mret tt else mret tt) r1
      (fun _ r' => reporting b l log r' /\ r_sequence r' = r_sequence r1 /\ (false = true -> r_pending r' = r_pending r1))).
  { apply wp_modify. assert (Hd : reporting b l log (r1 <| r_pending := None |>)) by (eapply reporting_same; [exact Hr'|done..|by right]).
    destruct (_ && _); [|done]. apply wp_bind, (wp_mono _ _ _ _ (force_unavailable_spec now log _ Hd)).
    intros [q|e] r2 (H2 & E2 & _); done. }
  destruct sample as [s|]; [|exact Hloss].
  destruct ((age_upper_us s <? bound) && _) eqn:Eu; [|exact Hloss]. apply andb_prop in Eu as [Ea _].
  apply Z.ltb_lt in Ea. apply (wp_mono _ _ _ _ (prepare_sample_spec s now bound log r1 Hr' Hs (Ho s eq_refl) ltac:(lia))).
  intros res r2 (H2 & E2). done.
Qed.

Lemma pause_spec now log r : reporting b l log r -> wp (pause now) r (fun _ r' => reporting b l log r' /\ r_sequence r' = r_sequence r
    /\ (is_some_and is_negative (r_pending r) = true -> r_pending r' = r_pending r)).
Proof.
  intros Hr. unfold pause. eapply wp_rtick; [exact Hr|done|]. intros Hr'. apply wp_modify.
  set (r1 := r <| r_last_now := now |>) in *. change (r_pending r) with (r_pending r1). change (r_sequence r) with (r_sequence r1).
  match goal with |- wp _ ?x _ => set (r2 := x) end.
  assert (H2 : reporting b l log r2 /\ r_sequence r2 = r_sequence r1 /\ (is_some_and is_negative (r_pending r1) = true -> r_pending r2 = r_pending r1)).
  { unfold r2, pending_is_positive. destruct (r_pending r1) as [p|] eqn:Ep; [|done]. cbn. destruct (is_negative p); [done|].
    split; [eapply reporting_same; [exact Hr'|done..|by right]|done]. }
  destruct H2 as (H2 & E2 & Hn). apply wp_bind, (wp_mono _ _ _ _ (pending_spec now log r2 H2)).
  intros [x|e] r3 (H3 & E3 & E4 & _); (split; [done|]); (split; [by rewrite <- E2|]); intros H; rewrite <- (Hn H); exact E3.
Qed.

Lemma sequences_queued c bs now log : sequences (Queued c bs now :: log) = ac_sequence c :: sequences log.
Proof. done. Qed.

(** A record is handed over before its deadline, and takes its sequence with it. *)
Lemma queued_spec now log r : reporting b l log r ->
  wp (queued_receipt now) r (fun res r' => match res with
    | Ok c => exists p, r_pending r = Some p /\ ac_sequence c = r_sequence r /\ ac_visible c = pr_stamp p
        /\ reporting b l (Queued c (pr_bytes p) now :: log) r'
    | Err _ => reporting b l log r' /\ r_pending r' = r_pending r /\ r_sequence r' = r_sequence r
    end).
Proof.
  intros Hr. unfold queued_receipt. apply wp_bind, (wp_mono _ _ _ _ (pending_spec now log r Hr)).
  intros [o|e] r1 (H1 & E1 & E2 & E3 & Hu); [|done]. apply wp_lift. destruct o as [o|]; cbn [ok_or]; [|done].
  apply wp_readr. destruct (checked_add u64_max (r_sequence r1) 1) as [n|] eqn:En; cbn [ok_or]; [|done].
  apply wp_lift. destruct (checked_add u64_max now _) as [aft|]; cbn [ok_or]; [|done]. apply wp_readr.
  destruct (r_pending r1) as [p|] eqn:Ep; cbn [ok_or]; [|done]. apply checked_add_Some in En as [-> Hn].
  apply wp_modify, wp_gets, wp_modify, wp_modify. unfold wp. cbn [fst snd mret M_ret]. exists p. split; [done|].
  split; [done|]. split; [done|]. pose proof H1 as [A1 A2 A3 A4 A5 A6].
  match goal with |- reporting _ _ (Queued ?c _ _ :: _) ?r' =>
    assert (Hsame : r_binding r' = b /\ r_limits r' = l /\ r_sequence r' = r_sequence r1 + 1 /\ r_pending r' = None)
      by (cbn; destruct (pr_stamp p); done);
    assert (Hc : ac_sequence c = r_sequence r1 /\ ac_visible c = pr_stamp p) by done;
    generalize dependent r'; generalize dependent c end.
  intros c [Hc1 Hc2] r' (B1 & B2 & B3 & B4). constructor; rewrite ?B3; try done.
  - lia.
  - rewrite sequences_queued, Hc1. constructor; [lia|]. eapply Forall_impl; [exact A4|]. cbn. lia.
  - intros p' Hp'. by rewrite B4 in Hp'.
  - intros l1 c' bs now' l2 E. destruct l1 as [|x l1]; cbn in E; [injection E as <- <- <- <-|injection E as _ E; by apply (A6 l1)].
    destruct (A5 p Ep) as (vis & Hd & Hv & Ho). exists vis, (pr_until p). rewrite Hc1, Hc2. split_and!; try done.
    apply (Hu p); [done|congruence].
Qed.

Lemma offered_cons log e vis u : offered log vis u -> offered (e :: log) vis u.
Proof. destruct vis as [s|]; [|done]. intros (t0 & bound & H & H'). exists t0, bound. split; [|done]. apply elem_of_cons. by right. Qed.

Lemma reporting_offer log r s now bound : reporting b l log r -> reporting b l (Offered s now bound :: log) r.
Proof.
  intros [H1 H2 H3 H4 H5 H6]. constructor; try done.
  - intros p Hp. destruct (H5 p Hp) as (vis & Hd & Hv & Ho). exists vis. split_and!; try done. by apply offered_cons.
  - intros l1 c bs n l2 E. destruct l1 as [|x l1]; cbn in E; [done|]. injection E as _ E. by apply (H6 l1).
Qed.

(** What one call does to a reporter: a loss report that is pending stays so until it
    is the record handed over. *)
Definition waits_for (q : Z) (r : Reporter) : Prop := r_sequence r = q /\ is_some_and is_negative (r_pending r) = true.

Lemma step_reporting op log r : reporting b l log r -> op_ok op ->
  let '(log', r') := step op (log, r) in
  reporting b l log' r' /\ forall q, waits_for q r ->
    (exists e, log' = e ++ log /\ sequences e = [] /\ waits_for q r')
    \/ (exists c bs t, log' = Queued c bs t :: log /\ ac_sequence c = q /\ ac_visible c = None).
Proof using Hag.
  intros Hr Ho.
  assert (Hkeep : forall e r', reporting b l (e ++ log) r' -> sequences e = [] -> r_sequence r' = r_sequence r ->
    (is_some_and is_negative (r_pending r) = true -> r_pending r' = r_pending r) ->
    reporting b l (e ++ log) r' /\ forall q, waits_for q r ->
    (exists e', e ++ log = e' ++ log /\ sequences e' = [] /\ waits_for q r')
    \/ (exists c bs t, e ++ log = Queued c bs t :: log /\ ac_sequence c = q /\ ac_visible c = None)).
  { intros e r' H1 H2 H3 H4. split; [done|]. intros q [Hq Hn]. left. exists e. split; [done|]. split; [done|].
    split; [congruence|]. by rewrite (H4 Hn). }
  destruct op as [smp now bound|now|now|now|now|now]; cbn [step op_ok] in *.
  - destruct smp as [s|].
    + pose proof (prepare_spec (Some s) now bound (Offered s now bound :: log) r (reporting_offer log r s now bound Hr) Ho) as H.
      destruct H as (H1 & H2 & H3); [intros ? [= <-]; apply elem_of_cons; by left|]. by apply (Hkeep [Offered s now bound]).
    + pose proof (prepare_spec None now bound log r Hr I) as H. destruct H as (H1 & H2 & H3); [done|]. by apply (Hkeep []).
  - destruct (pause_spec now log r Hr) as (H1 & H2 & H3). by apply (Hkeep []).
  - destruct (force_unavailable_spec now log r Hr) as (H1 & H2 & H3 & _). by apply (Hkeep []).
  - destruct (discard_spec now log r Hr) as (H1 & H2 & _ & H3). by apply (Hkeep []).
  - destruct (pending_spec now log r Hr) as (H1 & H2 & H3 & _). by apply (Hkeep []).
  - pose proof (queued_spec now log r Hr) as H. unfold wp in H.
    destruct (queued_receipt now r) as [[c|e] r']; cbn [fst snd] in H.
    + destruct H as (p & Hp & Hc & Hv & H). rewrite Hp. split; [done|]. intros q [Hq Hn]. right. exists c, (pr_bytes p), now.
      split; [done|]. split; [congruence|]. rewrite Hp in Hn. cbn in Hn. unfold is_negative in Hn. rewrite Hv. by destruct (pr_stamp p).
    + destruct H as (H1 & H2 & H3). by apply (Hkeep []).
Qed.

Lemma run_reporting ops log r : reporting b l log r -> Forall op_ok ops ->
  reporting b l (fst (run ops (log, r))) (snd (run ops (log, r))) /\ exists more, fst (run ops (log, r)) = more ++ log.
Proof using Hag.
  revert log r. induction ops as [|op ops IH]; intros log r Hr Hops; [split; [done|by exists []]|].
  inversion Hops as [|? ? Ho Hops']; subst. cbn [run]. pose proof (step_reporting op log r Hr Ho) as Hs.
  assert (Hm : exists e, fst (step op (log, r)) = e ++ log).
  { destruct op as [[s|] now bound|now|now|now|now|now]; cbn [step fst]; try (by exists []); [by exists [Offered s now bound]|].
    destruct (queued_receipt now r) as [[c|e] r']; [|by exists []]. destruct (r_pending r) as [p|]; [|by exists []].
    by exists [Queued c (pr_bytes p) now]. }
  destruct (step op (log, r)) as [log' r']. destruct Hs as [Hs _]. destruct (IH log' r' Hs Hops') as [H1 [more H2]]. split; [done|].
  destruct Hm as [e Hm]. cbn in Hm. exists (more ++ e). by rewrite H2, Hm, app_assoc.
Qed.

(** The first record after a loss report is pending is the loss report. *)
Lemma run_waits ops log r q : reporting b l log r -> Forall op_ok ops -> waits_for q r ->
  let log' := fst (run ops (log, r)) in
  (exists e, log' = e ++ log /\ sequences e = []) \/
  exists later c bs t e, log' = later ++ Queued c bs t :: e ++ log /\ sequences e = [] /\ ac_sequence c = q /\ ac_visible c = None.
Proof using Hag.
  revert log r. induction ops as [|op ops IH]; intros log r Hr Hops Hw; [left; by exists []|].
  inversion Hops as [|? ? Ho Hops']; subst. cbn [run]. pose proof (step_reporting op log r Hr Ho) as Hs.
  destruct (step op (log, r)) as [log' r']. destruct Hs as [Hr' Hs]. destruct (Hs q Hw) as [(e & -> & He & Hw')|(c & bs & t & -> & Hc)].
  - destruct (IH (e ++ log) r' Hr' Hops' Hw') as [(e' & -> & He')|(later & c & bs & t & e' & -> & He' & Hc)].
    + left. exists (e' ++ e). rewrite app_assoc. split; [done|]. unfold sequences in *. by rewrite omap_app, He', He.
    + right. exists later, c, bs, t, (e' ++ e). rewrite app_assoc. split; [done|]. split; [|done].
      unfold sequences in *. by rewrite omap_app, He', He.
  - right. destruct (run_reporting ops _ r' Hr' Hops') as [_ [more ->]]. by exists more, c, bs, t, [].
Qed.

Lemma new_reporting lineage now r : new_reporter lineage b l now = Ok r -> reporting b l [] r.
Proof.
  intros H. unfold new_reporter in H. apply Result_bind_Ok in H as (x & _ & [= <-]). constructor; [done|done|cbn; unfold u64_max; lia|by constructor|done|].
  intros [|? l1] c bs n l2 E; discriminate.
Qed.

End methods.

(** ** Theorems *)

(** Reports say what was sampled, while it is true.  However preparing, pausing,
    discarding and handing over follow each other, every record a reporter hands over
    is read by whoever holds the view as a report with the sequence of its receipt;
    the sequences increase; a report of a visible picture carries a sample that was
    offered before, and is handed over before the age of that sample, counted from the
    moment it was offered, reaches the bound of at most one second. *)
Theorem reports_are_the_samples lineage b l now0 r0 ops log r later c bs now earlier :
  agreed b l -> new_reporter lineage b l now0 = Ok r0 -> Forall op_ok ops -> run ops ([], r0) = (log, r) ->
  log = later ++ Queued c bs now :: earlier ->
  exists vis, decode bs b l ViewerToHost Reliable = Ok (mk_report (ac_sequence c) vis) /\ ac_visible c = stamp <$> vis /\
    Forall (fun n => n < ac_sequence c) (sequences earlier) /\
    forall s, vis = Some s -> exists t0 bound, Offered s t0 bound ∈ earlier /\ bound <= MAX_SOURCE_AGE_US /\ age_upper_us s + (now - t0) < bound.
Proof.
  intros Hag Hn Hops Hr El. pose proof (run_reporting b l Hag ops [] r0 (new_reporting b l lineage now0 r0 Hn) Hops) as [H _].
  rewrite Hr in H. destruct (rp_handed _ _ _ _ H later c bs now earlier El) as (vis & u & Hd & Hv & Ho & Hu & Hs).
  exists vis. split; [done|]. split; [done|]. split; [done|]. intros s ->. destruct Ho as (t0 & bound & Hin & -> & Hb).
  exists t0, bound. split; [done|]. lia.
Qed.

(** Loss of the view is reported first.  After a reporter reserved the report of a
    loss, the next record it hands over, whatever is sampled and prepared meanwhile, is
    that report under the sequence it was promised; nothing positive overtakes it. *)
Theorem loss_is_reported_first lineage b l now0 r0 ops log r now q r' ops' :
  agreed b l -> new_reporter lineage b l now0 = Ok r0 -> Forall op_ok ops -> run ops ([], r0) = (log, r) ->
  force_unavailable now r = (Ok q, r') -> Forall op_ok ops' ->
  (exists e, fst (run ops' (log, r')) = e ++ log /\ sequences e = []) \/
  exists later c bs t e, fst (run ops' (log, r')) = later ++ Queued c bs t :: e ++ log /\ sequences e = [] /\
    ac_sequence c = q /\ ac_visible c = None /\ decode bs b l ViewerToHost Reliable = Ok (mk_report q None).
Proof.
  intros Hag Hn Hops Hr Hf Hops'. pose proof (run_reporting b l Hag ops [] r0 (new_reporting b l lineage now0 r0 Hn) Hops) as [H _].
  rewrite Hr in H. pose proof (force_unavailable_spec b l Hag now log r H) as Hs. unfold wp in Hs. rewrite Hf in Hs. cbn [fst snd] in Hs.
  destruct Hs as (Hr' & E & _ & -> & Hw).
  destruct (run_waits b l Hag ops' log r' (r_sequence r) Hr' Hops' (conj E Hw)) as [He|(later & c & bs & t & e & He & Hse & Hc & Hv)]; [by left|].
  right. exists later, c, bs, t, e. split; [done|]. split; [done|]. split; [done|]. split; [done|].
  destruct (run_reporting b l Hag ops' log r' Hr' Hops') as [Hfin _].
  destruct (rp_handed _ _ _ _ Hfin later c bs t (e ++ log) He) as (vis & u & Hd & Hvis & _). rewrite Hd, Hc. rewrite Hv in Hvis.
  by destruct vis.
Qed.

End PresentedProps.

(** * No input without a recent view

    The invariant [watching] of an attached presentation owner over every history of
    its calls and of other calls on the same authority: the view is ready only until
    a deadline that a verified report fixed, and the report named a source that the
    host had recorded itself. *)

Module HostViewProps.
Import Media PresentedMsg Presented HostView.
Import Freshness(is_known, is_running).

(** ** What happened, newest first *)

Inductive Event :=
| Recorded (s : Stamp)
| SourceLost
| Verified (sequence : Z) (s : Stamp) (until : Z) (bs : bytes).

(** The host recorded this source and has not lost the source since. *)
Definition known_since (log : list Event) (s : Stamp) : Prop :=
  exists l1 l2, log = l1 ++ Recorded s :: l2 /\ SourceLost ∉ l1.

Lemma known_cons log e s : e <> SourceLost -> known_since log s -> known_since (e :: log) s.
Proof.
  intros He (l1 & l2 & -> & Hl). exists (e :: l1), l2. split; [done|]. intros [E|?]%elem_of_cons; [by subst e|done].
Qed.

(** ** The verifier *)

Definition usable_source (p : Progress) : bool := is_running p && is_known p.

Lemma no_history s : Some s ∉ replicate HISTORY (@None Stamp).
Proof. by intros [? _]%elem_of_replicate. Qed.

(** Nothing was recorded. *)
Ltac unrecorded := unfold wp; cbn; split_and!; [done|done|done|by intros; left|by intros].

Lemma verifier_observe_spec p now v : wp (Presented.observe p now) v (fun r v' =>
  v_binding v' = v_binding v /\ v_limits v' = v_limits v /\ confirmed_until v' = confirmed_until v /\
  (forall s, Some s ∈ history v' -> Some s ∈ history v \/ (is_ok r = true /\ s = stamp_of p)) /\
  (is_ok r = true -> usable_source p = false -> forall s, Some s ∉ history v')).
Proof.
  unfold Presented.observe, v_tick, usable_source. apply wp_bind, wp_refuse. destruct (_ <? _); [unrecorded|].
  rewrite <- negb_andb. destruct (is_running p && is_known p) eqn:E.
  - cbn [negb]. unfold wp at 1. cbn [fst snd modify]. apply wp_lift.
    destruct (validate_sample _); cbn [map_err]; [|unrecorded]. apply wp_refuse. destruct (_ <? _); [unrecorded|].
    apply wp_gets. destruct (bool_decide _); [unrecorded|]. apply wp_refuse.
    destruct (is_some_and _ _); [unrecorded|]. unfold wp, modify, remember. cbn [fst snd]. split_and!; try done.
    intros s Hs. cbn in Hs. apply list_elem_of_lookup in Hs as [i Hi].
    destruct (decide (i = cursor v)) as [->|Hne].
    + destruct (decide (cursor v < length (history v))%nat) as [Hlt|Hge].
      * rewrite list_lookup_insert_eq in Hi by done. injection Hi as <-. by right.
      * rewrite list_insert_ge in Hi by lia. left. by eapply list_elem_of_lookup_2.
    + rewrite list_lookup_insert_ne in Hi by done. left. by eapply list_elem_of_lookup_2.
  - cbn [negb]. unfold wp, modify. cbn [fst snd]. split_and!; [done..| |].
    + intros s Hs. by destruct (no_history s).
    + intros _ _ s. apply no_history.
Qed.

(** What a positive verdict rests on. *)
Record backed (bs : bytes) (now bound seq u : Z) (v v' : Verifier) (smp : Sample) : Prop := {
  bk_decoded : decode bs (v_binding v) (v_limits v) ViewerToHost Reliable = Ok (mk_report seq (Some smp));
  bk_known : Some (stamp smp) ∈ history v;
  bk_until : u = observed_us (stamp smp) + bound;
  bk_bound : 1 <= bound <= MAX_SOURCE_AGE_US;
  bk_future : now < u;
  bk_confirmed : confirmed_until v' = Some u;
  bk_fresh : confirmed_until v <> Some u
}.

Lemma judge_spec sample now bound v : wp (judge sample now bound) v (fun r v' =>
  v_binding v' = v_binding v /\ v_limits v' = v_limits v /\ history v' = history v /\
  match r with
  | Ok (Ready u) => exists smp, sample = Some smp /\ Some (stamp smp) ∈ history v /\ u = observed_us (stamp smp) + bound /\
      now < u /\ confirmed_until v' = Some u /\ confirmed_until v <> Some u
  | _ => confirmed_until v' = confirmed_until v
  end).
Proof.
  unfold judge. destruct sample as [smp|]; [|unfold wp; cbn; auto]. apply wp_lift.
  destruct (checked_add _ _ _) as [u|] eqn:Eu; cbn [ok_or]; [|auto]. apply checked_add_Some in Eu as [-> _].
  apply wp_gets. unfold id. destruct (is_some_and _ _) eqn:Eo; [unfold wp; cbn; auto|].
  destruct (_ <=? now) eqn:En; [unfold wp; cbn; auto|]. apply Z.leb_gt in En. apply wp_refuse.
  destruct (bool_decide _) eqn:Ek; cbn [negb]; [|auto]. apply bool_decide_eq_true in Ek.
  apply wp_modify. unfold wp. cbn [fst snd mret M_ret]. split_and!; try done. exists smp. split_and!; try done.
  intros E. rewrite E in Eo. cbn in Eo. apply Z.leb_gt in Eo. lia.
Qed.

Lemma receive_report_spec bs now bound v : wp (receive_report bs now bound) v (fun r v' =>
  v_binding v' = v_binding v /\ v_limits v' = v_limits v /\ history v' = history v /\
  match r with
  | Ok (seq, Ready u) => exists smp, backed bs now bound seq u v v' smp
  | _ => confirmed_until v' = confirmed_until v
  end).
Proof.
  unfold receive_report, v_tick. apply wp_bind, wp_refuse. destruct (_ <? _); [by auto 10|].
  unfold wp at 1. cbn [fst snd modify]. apply wp_refuse. destruct (bound_ok bound) eqn:Eb; cbn [negb]; [|by auto].
  unfold bound_ok in Eb. rewrite andb_true_iff, !Z.leb_le in Eb.
  apply wp_readr. change (v_binding (v <| v_last_now := now |>)) with (v_binding v).
  change (v_limits (v <| v_last_now := now |>)) with (v_limits v).
  destruct (decode bs _ _ _ _) as [[seq vis]|] eqn:Ed; cbn [map_err]; [|by auto]. apply wp_refuse. destruct (_ <=? _); [by auto|].
  apply wp_refuse. destruct (_ =? 0); [by auto|]. apply wp_modify, wp_bind.
  match goal with |- wp _ ?v1 _ => apply (wp_mono _ _ _ _ (judge_spec vis now bound v1)) end.
  intros [[u| |]|e] v' (E1 & E2 & E3 & H); cbn in E1, E2, E3, H; (split; [done|]; split; [done|]; split; [done|]); try done.
  destruct H as (smp & -> & H). destruct H as (Hk & -> & Hn & Hc & Hf). exists smp. by split.
Qed.

(** ** The authority *)

(** A bounded view that is ready has a deadline. *)
Definition gated (a : SessionAuthority) : Prop :=
  bounded_view a = true /\ (readiness a = Authority.Ready -> view_until a <> None).

Lemma trans_gated l a b : trans l a b -> gated a ->
  gated b /\ forall u, view_until b = Some u -> view_until a = Some u \/ l = LView u.
Proof.
  intros Ht [Hb Hr]. unfold gated.
  destruct Ht; try (by cbn; auto);
    try (unfold refuse, close, drop_observation, clear_authority, clear_tickets, revoke_lease; cbn;
         repeat case_match; cbn in *; split_and!; auto; try congruence; intros; simplify_eq; fail).
  - rewrite lapse_view_eq. cbn. unfold lapsed_readiness. split; [|done]. split; [done|]. by destruct (readiness a).
  - split; [done|]. intros u [= <-]. by right.
Qed.

Lemma tsteps_gated (P : Label -> Prop) a b : tsteps P a b -> gated a ->
  gated b /\ forall u, view_until b = Some u -> view_until a = Some u \/ P (LView u).
Proof.
  intros Ht. induction Ht as [a|a c b (l & Hl & Hac) _ IH]; [by auto|]. intros Ha.
  destruct (trans_gated l a c Hac Ha) as [Hc Hv]. destruct (IH Hc) as [Hb Hv']. split; [done|]. intros u Hu.
  destruct (Hv' u Hu) as [H|H]; [|by right]. destruct (Hv u H) as [H'|H']; [by left|right]. by subst l.
Qed.

(** Requiring evidence ends whatever readiness there was. *)
Lemma require_gated now a b : require_view_evidence now a = (Ok tt, b) ->
  bounded_view b = true /\ readiness b <> Authority.Ready /\ view_until b = None.
Proof.
  intros H. unfold require_view_evidence in H. apply method_bind_Ok in H as ([] & a1 & _ & H).
  apply method_bind_Ok in H as ([] & a2 & _ & H). injection H as <-. unfold mark_view_stale. rewrite lapse_view_eq. cbn.
  split; [done|]. split; [|done]. unfold lapsed_readiness. cbn. by destruct (readiness a2).
Qed.

(** Calls on the authority other than those that make a bounded view ready; the owner
    makes those itself. *)
Definition other_call (c : Call) : bool :=
  match c with MarkViewReadyUntil _ _ | MarkPresentedReadyUntil _ _ _ => false | _ => true end.

Lemma other_call_gated c a : call_ok c -> other_call c = true -> wf a -> gated a ->
  wf (exec c a) /\ gated (exec c a) /\ forall u, view_until (exec c a) = Some u -> view_until a = Some u.
Proof.
  intros Hc Ho Hw Hg. split; [by apply exec_wf|]. destruct (tsteps_gated _ _ _ (exec_tsteps c a Hc Hw) Hg) as [Hg' Hv].
  split; [done|]. intros u Hu. destruct (Hv u Hu) as [H|[(n & ->)|(q & n & ->)]]; done.
Qed.

Lemma presented_gated q until now a : 0 <= now -> wf a -> gated a ->
  let b := snd (mark_presented_ready_until q until now a) in
  wf b /\ gated b /\ forall u, view_until b = Some u -> view_until a = Some u \/ u = until.
Proof.
  intros Hn Hw Hg. assert (Hc : call_ok (MarkPresentedReadyUntil q until now)) by (intros x [= <-]; lia).
  split; [by apply (exec_wf _ a Hc)|]. destruct (tsteps_gated _ _ _ (exec_tsteps _ a Hc Hw) Hg) as [Hg' Hv].
  split; [done|]. intros u Hu. destruct (Hv u Hu) as [H|[(n & [=])|(q' & n & [= <- <- <-])]]; auto.
Qed.

(** ** The owner *)

(** The deadline of a ready view was fixed by a verified report, and the source was
    not lost since. *)
Definition promised (log : list Event) (u : Z) : Prop :=
  exists seq s bs l1 l2, log = l1 ++ Verified seq s u bs :: l2 /\ SourceLost ∉ l1.

Definition report_ok (b : ViewBinding.Binding) (l : Limits.ProtocolLimits) (rest : list Event) (seq : Z) (s : Stamp) (u : Z)
  (bs : bytes) : Prop :=
  known_since rest s /\ observed_us s < u <= observed_us s + MAX_SOURCE_AGE_US /\
  exists age, decode bs b l ViewerToHost Reliable = Ok (mk_report seq (Some (mk_sample s age))).

Record watching (b : ViewBinding.Binding) (l : Limits.ProtocolLimits) (log : list Event) (h : HostPresentation) : Prop := {
  wa_wf : wf (authority h);
  wa_gated : gated (authority h);
  wa_binding : v_binding (verifier h) = b;
  wa_limits : v_limits (verifier h) = l;
  wa_view : forall u, view_until (authority h) = Some u -> promised log u;
  wa_history : forall s, Some s ∈ history (verifier h) -> known_since log s;
  wa_verified : forall l1 seq s u bs l2, log = l1 ++ Verified seq s u bs :: l2 -> report_ok b l l2 seq s u bs
}.

(** Clock samples are unsigned. *)
Definition out_ok (out : Outside) : Prop :=
  (forall n, check_clock out = Some n -> 0 <= n) /\ (forall n, lock_clock out = Some n -> 0 <= n).

Section owner.
Context (b : ViewBinding.Binding) (l : Limits.ProtocolLimits).
Implicit Types (h : HostPresentation) (log : list Event).

Lemma watching_authority log h a : watching b l log h -> wf a -> gated a ->
  (forall u, view_until a = Some u -> view_until (authority h) = Some u) -> watching b l log (h <| authority := a |>).
Proof. intros [H1 H2 H3 H4 H5 H6 H7] Hw Hg Hv. constructor; try done. intros u Hu. by apply H5, Hv. Qed.

Lemma watching_call log h c : watching b l log h -> call_ok c -> other_call c = true ->
  watching b l log (h <| authority := exec c (authority h) |>).
Proof.
  intros Hh Hc Ho. destruct (other_call_gated c _ Hc Ho (wa_wf _ _ _ _ Hh) (wa_gated _ _ _ _ Hh)) as (H1 & H2 & H3).
  by apply watching_authority.
Qed.

Lemma watching_stale log h : watching b l log h -> watching b l log (stale h).
Proof. intros Hh. by apply (watching_call log h MarkViewStale). Qed.

Lemma stale_view h : view_until (authority (stale h)) = None.
Proof. unfold stale, mark_view_stale. cbn. by rewrite lapse_view_eq. Qed.

Lemma control_check_spec out log h : out_ok out -> watching b l log h ->
  wp (control_check out) h (fun r h' => watching b l log h' /\ verifier h' = verifier h /\ bound_us h' = bound_us h).
Proof.
  intros [Hc _] Hh. unfold wp, control_check, check. destruct (cancelled out).
  { cbn. split; [|done]. by apply (watching_authority log h (authority h)); [|apply Hh..|]. }
  destruct (negb (admitted out)); [cbn; split; [|done]; by apply (watching_call log h CloseSession)|].
  destruct (check_clock out) as [now|] eqn:Ec.
  2: { cbn. split; [|done]. by apply (watching_authority log h (authority h)); [|apply Hh..|]. }
  assert (Hok : call_ok (AuthorizeObservationDelivery now)) by (intros x [= <-]; by apply Hc).
  pose proof (watching_call log h (AuthorizeObservationDelivery now) Hh Hok eq_refl) as Hw. cbn [exec] in Hw.
  by destruct (authorize_observation_delivery now (authority h)) as [[u|e] a].
Qed.

Lemma or_stale_spec {A} (m : PM A) h (Q : Result HostError A -> HostPresentation -> Prop) :
  wp m h (fun r h' => if is_ok r then Q r h' else Q r (stale h')) -> wp (or_stale m) h Q.
Proof. unfold wp, or_stale. by destruct (m h) as [[a|e] h']. Qed.

Lemma known_appended log log' s : known_since log s -> SourceLost ∉ log' -> known_since (log' ++ log) s.
Proof.
  intros (l1 & l2 & -> & Hl) Hn. exists (log' ++ l1), l2. split; [by rewrite app_assoc|]. by intros [?|?]%elem_of_app.
Qed.

(** Appending anything but a verified report. *)
Lemma verified_cons log e (P : list Event -> Z -> Stamp -> Z -> bytes -> Prop) :
  (match e with Verified seq s u bs => P log seq s u bs | _ => True end) ->
  (forall l1 seq s u bs l2, log = l1 ++ Verified seq s u bs :: l2 -> P l2 seq s u bs) ->
  forall l1 seq s u bs l2, e :: log = l1 ++ Verified seq s u bs :: l2 -> P l2 seq s u bs.
Proof.
  intros He Hl l1 seq s u bs l2 E. destruct l1 as [|x l1]; cbn in E; injection E as -> E; [by subst log|]. by apply (Hl l1).
Qed.

Lemma watching_cons log h e : watching b l log h -> e <> SourceLost ->
  (match e with Verified seq s u bs => report_ok b l log seq s u bs | _ => True end) -> watching b l (e :: log) h.
Proof.
  intros [H1 H2 H3 H4 H5 H6 H7] He Hok. constructor; try done.
  - intros u Hu. destruct (H5 u Hu) as (seq & s & bs & l1 & l2 & -> & Hl). exists seq, s, bs, (e :: l1), l2.
    split; [done|]. intros [E|?]%elem_of_cons; [by subst e|done].
  - intros s Hs. by apply known_cons, H6.
  - by apply verified_cons.
Qed.

(** The verifier recorded a source, or forgot all of them. *)
Lemma watching_observed log h v p : watching b l log h -> v_binding v = b -> v_limits v = l ->
  (forall s, Some s ∈ history v -> Some s ∈ history (verifier h) \/ s = stamp_of p) ->
  watching b l (Recorded (stamp_of p) :: log) (h <| verifier := v |>).
Proof.
  intros Hh Eb El Hv. pose proof (watching_cons log h (Recorded (stamp_of p)) Hh ltac:(done) I) as [H1 H2 H3 H4 H5 H6 H7].
  constructor; try done. intros s Hs. destruct (Hv s Hs) as [H| ->]; [by apply H6|]. exists [], log. split; [done|apply not_elem_of_nil].
Qed.

Lemma watching_lost log h v : watching b l log h -> v_binding v = b -> v_limits v = l ->
  (forall s, Some s ∉ history v) -> watching b l (SourceLost :: log) (stale (h <| verifier := v |>)).
Proof.
  intros Hh Eb El Hv. assert (Hw : watching b l log (h <| verifier := v |>)).
  { destruct Hh as [H1 H2 H3 H4 H5 H6 H7]. constructor; try done. intros s Hs. by destruct (Hv s). }
  pose proof (stale_view (h <| verifier := v |>)) as Es. apply watching_stale in Hw as [H1 H2 H3 H4 H5 H6 H7].
  constructor; try done.
  - intros u Hu. by rewrite Es in Hu.
  - intros s Hs. by destruct (Hv s).
  - by apply verified_cons.
Qed.

Definition observed_events (progress : option Progress) (ok : bool) : list Event :=
  match progress with
  | Some p => if ok then (if usable_source p then [Recorded (stamp_of p)] else [SourceLost]) else []
  | None => []
  end.

Lemma host_observe_spec progress out log h : out_ok out -> watching b l log h ->
  wp (observe progress out) h (fun r h' => watching b l (observed_events progress (is_ok r) ++ log) h').
Proof.
  intros Ho Hh. unfold observe. apply or_stale_spec, wp_bind.
  apply (wp_mono _ _ _ _ (control_check_spec out log h Ho Hh)). intros [now|e] h1 (H1 & _ & _).
  2: { cbn [is_ok]. destruct progress; by apply watching_stale. }
  apply wp_lift. destruct progress as [p|]; cbn [ok_or]; [|by apply watching_stale]. apply wp_bind.
  unfold wp at 1, on_verifier. pose proof (verifier_observe_spec p now (verifier h1)) as Hs. unfold wp in Hs.
  destruct (Presented.observe p now (verifier h1)) as [[ []|e] v]; cbn [map_err fst snd] in *.
  2: { destruct Hs as (E1 & E2 & _ & Hv & _). cbn [is_ok observed_events app]. apply watching_stale.
       destruct H1 as [A1 A2 A3 A4 A5 A6 A7]. constructor; try done; try (cbn; congruence). intros s Hs.
       destruct (Hv s Hs) as [H|[? _]]; [by apply A6|done]. }
  destruct Hs as (E1 & E2 & _ & Hv & Hl). rewrite (wa_binding _ _ _ _ H1) in E1. rewrite (wa_limits _ _ _ _ H1) in E2.
  unfold wp, modify. cbn [fst snd is_ok observed_events].
  replace (negb (is_known p) || negb (is_running p)) with (negb (usable_source p))
    by (unfold usable_source; destruct (is_running p), (is_known p); done).
  destruct (usable_source p) eqn:Eu; cbn [negb app].
  - apply watching_observed; try done. intros s Hs. destruct (Hv s Hs) as [H|[_ H]]; auto.
  - apply watching_lost; try done. by apply Hl.
Qed.

(** A report was verified when the confirmed deadline moved. *)
Definition verified_events (bs : bytes) (v v' : Verifier) : list Event :=
  match confirmed_until v', decode bs (v_binding v) (v_limits v) ViewerToHost Reliable with
  | Some u, Ok (mk_report seq (Some smp)) =>
      if bool_decide (confirmed_until v = Some u) then [] else [Verified seq (stamp smp) u bs]
  | _, _ => []
  end.

Lemma no_verified bs v v' : confirmed_until v' = confirmed_until v -> verified_events bs v v' = [].
Proof.
  intros E. unfold verified_events. rewrite E. destruct (confirmed_until v) as [u|]; [|done].
  destruct (decode _ _ _ _ _) as [[seq [smp|]]|]; [|done..]. by rewrite bool_decide_true.
Qed.

Lemma watching_same log h h' : watching b l log h -> authority h' = authority h -> v_binding (verifier h') = v_binding (verifier h) ->
  v_limits (verifier h') = v_limits (verifier h) -> history (verifier h') = history (verifier h) -> watching b l log h'.
Proof. intros [H1 H2 H3 H4 H5 H6 H7] E1 E2 E3 E4. constructor; rewrite ?E1, ?E2, ?E3, ?E4; done. Qed.

Lemma watching_verified log h v' bs now seq u smp : watching b l log h -> v_binding v' = v_binding (verifier h) ->
  v_limits v' = v_limits (verifier h) -> history v' = history (verifier h) ->
  backed bs now (bound_us h) seq u (verifier h) v' smp ->
  watching b l (Verified seq (stamp smp) u bs :: log) (h <| verifier := v' |>) /\
  verified_events bs (verifier h) v' = [Verified seq (stamp smp) u bs].
Proof.
  intros Hh E1 E2 E3 [B1 B2 B3 B4 B5 B6 B7]. split.
  - apply (watching_same _ h); [|done..]. apply watching_cons; [done|done|]. split; [by apply (wa_history _ _ _ _ Hh)|].
    split; [lia|]. exists (age_upper_us smp). destruct smp. cbn in B1 |- *. by rewrite <- (wa_binding _ _ _ _ Hh), <- (wa_limits _ _ _ _ Hh).
  - unfold verified_events. rewrite B6, B1. by rewrite bool_decide_false.
Qed.

Lemma watching_promised log h seq s u bs now : watching b l (Verified seq s u bs :: log) h -> 0 <= now ->
  watching b l (Verified seq s u bs :: log) (h <| authority := snd (mark_presented_ready_until seq u now (authority h)) |>).
Proof.
  intros Hh Hn. destruct (presented_gated seq u now _ Hn (wa_wf _ _ _ _ Hh) (wa_gated _ _ _ _ Hh)) as (Hw & Hg & Hv).
  destruct Hh as [H1 H2 H3 H4 H5 H6 H7]. constructor; try done. intros u' Hu. destruct (Hv u' Hu) as [H| ->]; [by apply H5|].
  exists seq, s, bs, [], log. split; [done|apply not_elem_of_nil].
Qed.

(** What applying a verdict leaves. *)
Lemma apply_spec seq d now log h : watching b l log h -> 0 <= now ->
  (forall u, d = Ready u -> exists s bs rest, log = Verified seq s u bs :: rest) ->
  wp (apply_verified_report seq d now) h (fun _ h' => watching b l log h' /\ verifier h' = verifier h).
Proof.
  intros Hh Hn Hd. unfold apply_verified_report, wp. destruct d as [u| |].
  - destruct (Hd u eq_refl) as (s & bs & rest & ->). pose proof (watching_promised rest h seq s u bs now Hh Hn) as Hw.
    destruct (mark_presented_ready_until seq u now (authority h)) as [[x|[]] a]; done.
  - split; [by apply watching_stale|done].
  - done.
Qed.

Lemma host_receive_spec route bs out log h : out_ok out -> watching b l log h ->
  wp (receive route bs out) h (fun r h' => watching b l (verified_events bs (verifier h) (verifier h') ++ log) h').
Proof.
  intros Ho Hh. unfold receive. apply or_stale_spec, wp_refuse.
  assert (Hquiet : forall h', watching b l log h' -> confirmed_until (verifier h') = confirmed_until (verifier h) ->
            watching b l (verified_events bs (verifier h) (verifier (stale h')) ++ log) (stale h')).
  { intros h' Hw E. rewrite no_verified by done. by apply watching_stale. }
  destruct (negb _); [by apply Hquiet|]. apply wp_bind, (wp_mono _ _ _ _ (control_check_spec out log h Ho Hh)).
  intros [n|e] h1 (H1 & E1 & E2); [|apply Hquiet; [done|by rewrite E1]]. apply wp_lift.
  destruct (lock_clock out) as [now|] eqn:El; cbn [ok_or]; [|apply Hquiet; [done|by rewrite E1]].
  assert (Hn : 0 <= now) by (destruct Ho as [_ Ho]; by apply Ho). apply wp_gets, wp_bind. unfold wp at 1, on_verifier.
  pose proof (receive_report_spec bs now (bound_us h1) (verifier h1)) as Hs. unfold wp in Hs.
  destruct (receive_report bs now (bound_us h1) (verifier h1)) as [[[seq d]|e] v]; cbn [map_err fst snd] in *.
  2: { destruct Hs as (B1 & B2 & B3 & B4). apply Hquiet; [by eapply watching_same|by cbn; rewrite B4, E1]. }
  destruct Hs as (B1 & B2 & B3 & B4).
  assert (Hev : exists ev, watching b l (ev ++ log) (h1 <| verifier := v |>) /\ verified_events bs (verifier h) v = ev /\
            forall u, d = Ready u -> exists s bs' rest, ev ++ log = Verified seq s u bs' :: rest).
  { destruct d as [u| |].
    - destruct B4 as [smp Hb]. destruct (watching_verified log h1 v bs now seq u smp H1 B1 B2 B3 Hb) as [Hw He].
      exists [Verified seq (stamp smp) u bs]. split; [exact Hw|]. rewrite E1 in He. split; [exact He|]. intros ? [= <-]. by do 3 eexists.
    - exists []. split; [by eapply watching_same|]. split; [apply no_verified; by rewrite B4, E1|done].
    - exists []. split; [by eapply watching_same|]. split; [apply no_verified; by rewrite B4, E1|done]. }
  destruct Hev as (ev & Hw & He & Hd). apply wp_bind, (wp_mono _ _ _ _ (apply_spec seq d now _ _ Hw Hn Hd)).
  intros [ok|e] h2 [H2 E3].
  - unfold wp, modify. cbn [fst snd is_ok]. destruct ok; cbn; rewrite E3; cbn; rewrite He; [apply (watching_same _ h2); cbn; by rewrite ?E3|done].
  - cbn [is_ok]. change (verifier (stale h2)) with (verifier h2). rewrite E3. cbn. rewrite He. by apply watching_stale.
Qed.

Lemma host_connection_spec bound_to rtt out log h : out_ok out -> watching b l log h ->
  wp (check_connection bound_to rtt out) h (fun r h' => watching b l log h').
Proof.
  intros Ho Hh. unfold check_connection. destruct (negb bound_to); [by apply watching_stale|].
  apply wp_bind, (wp_mono _ _ _ _ (control_check_spec out log h Ho Hh)). intros [n|e] h1 (H1 & _); [|done].
  by eapply watching_same.
Qed.

End owner.

(** ** Histories *)

Inductive Op :=
| Observe (progress : option Progress) (out : Outside)
| Receive (route : Z) (bs : bytes) (out : Outside)
| Connection (bound_to : bool) (rtt : option Z) (out : Outside)
| Other (c : Call)
| DropHost.

Definition step (op : Op) (w : list Event * HostPresentation) : list Event * HostPresentation :=
  let '(log, h) := w in
  match op with
  | Observe p out => let '(r, h') := observe p out h in (observed_events p (is_ok r) ++ log, h')
  | Receive route bs out => let h' := snd (receive route bs out h) in (verified_events bs (verifier h) (verifier h') ++ log, h')
  | Connection bt rtt out => (log, snd (check_connection bt rtt out h))
  | Other c => (log, h <| authority := exec c (authority h) |>)
  | DropHost => (log, drop_host h)
  end.

Fixpoint run (ops : list Op) (w : list Event * HostPresentation) : list Event * HostPresentation :=
  match ops with [] => w | op :: ops => run ops (step op w) end.

Definition op_ok (op : Op) : Prop :=
  match op with
  | Observe _ out | Receive _ _ out | Connection _ _ out => out_ok out
  | Other c => call_ok c /\ other_call c = true
  | DropHost => True
  end.

Lemma step_watching b l op log h : watching b l log h -> op_ok op ->
  watching b l (fst (step op (log, h))) (snd (step op (log, h))).
Proof.
  intros Hh Ho. destruct op; cbn [step op_ok] in *.
  - pose proof (host_observe_spec b l progress out log h Ho Hh) as H. unfold wp in H. by destruct (observe progress out h).
  - by apply host_receive_spec.
  - by apply (host_connection_spec b l bound_to rtt out log h).
  - destruct Ho. by apply watching_call.
  - by apply watching_stale.
Qed.

Lemma run_watching b l ops log h : watching b l log h -> Forall op_ok ops ->
  watching b l (fst (run ops (log, h))) (snd (run ops (log, h))).
Proof.
  revert log h. induction ops as [|op ops IH]; intros log h Hh Hops; [done|].
  inversion Hops as [|? ? Ho Hops']; subst. cbn [run]. pose proof (step_watching b l op log h Hh Ho) as Hs.
  destruct (step op (log, h)) as [log' h']. by apply IH.
Qed.

(** Only what was received is verified. *)
Lemma run_received ops log h seq s u bs : Verified seq s u bs ∈ fst (run ops (log, h)) ->
  Verified seq s u bs ∈ log \/ exists route out, Receive route bs out ∈ ops.
Proof.
  revert log h. induction ops as [|op ops IH]; intros log h Hin; [by left|]. cbn [run] in Hin.
  assert (Hs : Verified seq s u bs ∈ fst (step op (log, h)) -> Verified seq s u bs ∈ log \/ exists route out, op = Receive route bs out).
  { destruct op; cbn [step]; try (by left).
    - destruct (observe progress out h) as [r h']. cbn [fst]. unfold observed_events. intros [H|H]%elem_of_app; [|by left].
      destruct progress as [p|]; [|by apply not_elem_of_nil in H]. destruct (is_ok r); [|by apply not_elem_of_nil in H].
      destruct (usable_source p); apply list_elem_of_singleton in H; done.
    - cbn [fst]. unfold verified_events. intros [H|H]%elem_of_app; [|by left]. right.
      destruct (confirmed_until _) as [u'|]; [|by apply not_elem_of_nil in H].
      destruct (decode _ _ _ _ _) as [[q [smp|]]|]; [|by apply not_elem_of_nil in H..].
      destruct (bool_decide _); [by apply not_elem_of_nil in H|]. apply list_elem_of_singleton in H. injection H as -> -> -> ->.
      by do 2 eexists. }
  destruct (step op (log, h)) as [log' h']. destruct (IH log' h' Hin) as [H|(route & out & H)].
  - destruct (Hs H) as [H'|(route & out & ->)]; [by left|right]. exists route, out. apply elem_of_cons. by left.
  - right. exists route, out. apply elem_of_cons. by right.
Qed.

(** ** Attaching and submitting *)

Lemma attach_watching connected route b l rtt out a h a' : wf a -> out_ok out ->
  attach connected route b l rtt out a = (Ok h, a') -> watching b l [] h.
Proof.
  intros Hw [Ho1 Ho2] H. unfold attach in H. destruct (negb connected); [done|].
  assert (Hc : wf (snd (check out a))).
  { unfold check. destruct (cancelled out); [done|]. destruct (negb (admitted out)); [by apply close_wf|].
    destruct (check_clock out) as [n|] eqn:Ec; [|done].
    pose proof (exec_wf (AuthorizeObservationDelivery n) a ltac:(intros x [= <-]; by apply Ho1) Hw) as H'. cbn [exec] in H'.
    by destruct (authorize_observation_delivery n a). }
  destruct (check out a) as [[n|e] a1]; [|done]. cbn [snd] in Hc. destruct (lock_clock out) as [now|] eqn:El; [|done].
  destruct (new_verifier b l now) as [v|] eqn:Ev; [|done].
  assert (Hn : 0 <= now) by (by apply Ho2). pose proof (require_view_evidence_wf now Hn a1 Hc) as Hw'.
  pose proof (require_gated now a1) as Hg.
  destruct (require_view_evidence now a1) as [[[]|e] a2]; [|done]. injection H as <- _. cbn [snd] in Hw'.
  destruct (Hg a2 eq_refl) as (G1 & G2 & G3).
  unfold new_verifier in Ev. apply Result_bind_Ok in Ev as (x & _ & [= <-]).
  constructor; try done.
  - intros u Hu. cbn in Hu; congruence.
  - intros s Hs. by destruct (no_history s).
  - intros [|? l1] seq s u bs l2 E; discriminate.
Qed.

(** Whoever is authorized is covered by a verified report. *)
Lemma authorized_covered b l log h i t now : watching b l log h ->
  is_ok (fst (authorize_submission i t now (authority h))) = true ->
  exists seq s age u bs l1 l2, log = l1 ++ Verified seq s u bs :: l2 /\ SourceLost ∉ l1 /\ known_since l2 s /\
    decode bs b l ViewerToHost Reliable = Ok (mk_report seq (Some (mk_sample s age))) /\ now < u <= observed_us s + MAX_SOURCE_AGE_US.
Proof.
  intros [H1 [_ H2] H3 H4 H5 H6 H7] Ha. apply authorize_submission_is_Ok in Ha as [_ _ _ _ Hr Hv _].
  destruct (view_until (authority h)) as [u|] eqn:Eu; [|by destruct (H2 Hr)].
  destruct (H5 u eq_refl) as (seq & s & bs & l1 & l2 & E & Hl). destruct (H7 l1 seq s u bs l2 E) as (Hk & Hb & age & Hd).
  exists seq, s, age, u, bs, l1, l2. pose proof (Hv u eq_refl). split_and!; try done; lia.
Qed.

End HostViewProps.
