(* ===== verification/ViewerView.v ===== *)
(** * The viewer's presentation owner

    [ViewerPresentation] of [frd/src/media/presented.rs]: the owner that turns the
    tracker's evidence into reports and hands them to the transport, with the
    histogram of the ages it reported.

    The transport answers are arguments: whether the connection is still the bound
    one, whether the task was cancelled, the round-trip time, and what became of the
    record. *)

From S2P Require Import Prelude.
From S2P Require Import Bytes.
From S2P Require Import WireRecord.
From S2P Require Import WireMedia.
From S2P Require Import WireView.
From S2P Require Import Freshness.
From S2P Require Import Presented.

Module ViewerView.
Import Media PresentedMsg Presented.

Inductive ViewerError := Binding | Closed | Proof_ (e : Presented.Error) | Transport.

Inductive ViewSample := Visible (s : Sample) (sampled_at : Z) | Pending | NoView.

Definition from_view (sample : Result Freshness.Error Sample) (sampled_at : Z) : Result Freshness.Error ViewSample :=
  match sample with
  | Ok s => Ok (if age_upper_us s <? MAX_SOURCE_AGE_US then Visible s sampled_at else NoView)
  | Err (Freshness.SourceUnknown | Freshness.SourceStale) => Ok NoView
  | Err Freshness.NotSubmitted => Ok Pending
  | Err e => Err e
  end.

(** The time since the sample was taken counts as age. *)
Definition sample_at (sample : ViewSample) (now bound : Z) : Result ViewerError ViewSample :=
  match sample with
  | Visible s sampled_at =>
      elapsed ← ok_or (checked_sub now sampled_at) (Proof_ Clock);
      age ← ok_or (checked_add u64_max (age_upper_us s) elapsed) (Proof_ Overflow);
      Ok (if bound <=? age then NoView else Visible (mk_sample (stamp s) age) now)
  | _ => Ok sample
  end.

(** ** Ages *)

Definition BUCKET_US : Z := 10000.
Definition AgeHistogram : Type := list Z.
Definition no_ages : AgeHistogram := replicate 100 0.

Definition record_age (age : Z) (h : AgeHistogram) : AgeHistogram :=
  let index := Z.to_nat (Z.min (age / BUCKET_US) (Z.of_nat (length h) - 1)) in
  alter (fun n => saturating_add u32_max n 1) index h.

Definition reports (h : AgeHistogram) : Z := foldr Z.add 0 h.

(** The loop over the buckets: the first whose running total reaches the rank. *)
Fixpoint bucket_of (rank seen index : Z) (h : AgeHistogram) : option Z :=
  match h with
  | [] => None
  | n :: h => if rank <=? seen + n then Some (saturating_mul u64_max (index + 1) BUCKET_US)
              else bucket_of rank (seen + n) (index + 1) h
  end.

Definition quantile_upper_us (permille : Z) (h : AgeHistogram) : option Z :=
  let total := reports h in
  if (total =? 0) || (1000 <? permille) then None
  else bucket_of (Z.max (div_ceil (total * permille) 1000) 1) 0 0 h.

(** ** One service turn *)

(** [records] are those the transport accepted, newest first. *)
Record ViewerPresentation := mk_viewer { reporter : Reporter; sent : Z; ages : AgeHistogram; records : list bytes }.
#[export] Instance eta_viewer : Eta ViewerPresentation := fun v => mk_viewer (reporter v) (sent v) (ages v) (records v).

Inductive Admission := Accepted | Backpressure | ExpiredAt (now : Z) | Failed (e : ViewerError).

Abbreviation WM := (M ViewerPresentation ViewerError).
Definition on_reporter {A} (m : M Reporter Presented.Error A) : WM A := fun v =>
  let '(r, rep) := m (reporter v) in (map_err Proof_ r, v <| reporter := rep |>).

Definition viewer_bound (rtt : option Z) : Z := source_age_bound_us BASE_SOURCE_AGE_US rtt VIEWER_RTT_MULTIPLE.

Definition offer_sample (sample : ViewSample) (now bound : Z) : WM unit :=
  match sample with
  | Visible s _ => on_reporter (prepare (Some s) now bound)
  | NoView => on_reporter (prepare None now bound)
  | Pending => on_reporter (pause now)
  end.

(** What follows the transport's answer about the pending record. *)
Definition settle (answer : Admission) (record : bytes) (sample : ViewSample) (positive : bool) (now : Z)
  : WM (option QueuedReport) :=
  match answer with
  | Accepted =>
      _ ← modify (fun v => v <| records := record :: records v |>);
      receipt ← on_reporter (queued_receipt now);
      _ ← modify (fun v => v <| sent := saturating_add u64_max (sent v) 1 |>);
      _ ← modify (fun v => match sample with
                           | Visible s _ => if positive then v <| ages := record_age (age_upper_us s) (ages v) |> else v
                           | _ => v
                           end);
      mret (Some receipt)
  | Backpressure => mret None
  | ExpiredAt later => _ ← on_reporter (discard_expired_positive later); mret None
  | Failed e => fail e
  end.

Definition service_reported (bound_to cancelled : bool) (rtt : option Z) (sample : ViewSample) (now : Z) (answer : Admission)
  : WM (option QueuedReport) :=
  _ ← refuse_if (fun _ => negb bound_to) (fun _ => Binding);
  _ ← refuse_if (fun _ => cancelled) (fun _ => Closed);
  let bound := viewer_bound rtt in
  _ ← on_reporter (discard_expired_positive now);
  sample ← lift (sample_at sample now bound);
  _ ← offer_sample sample now bound;
  positive ← gets (fun v => pending_is_positive (reporter v));
  o ← on_reporter (pending now);
  match o with
  | Some (record, _) => settle answer record sample positive now
  | None => mret None
  end.

Definition force_unavailable (now : Z) : WM Z := on_reporter (Presented.force_unavailable now).

End ViewerView.
