(* ===== verification/SeenInput.v ===== *)
(** * Input acts on what the viewer sees

    The viewer (a tracker, a sample of it, the presentation owner that reports it) and
    the host (the presentation owner over the session authority) joined by a network
    that may lose, delay, repeat and reorder reports but not make them up. *)

From S2P Require Import Prelude.
From S2P Require Import Bytes.
From S2P Require Import CoreTime.
From S2P Require Import Limits.
From S2P Require Import Authority.
From S2P Require Import AuthorityInv.
From S2P Require Import AuthoritySpec.
From S2P Require Import AuthorityProps.
From S2P Require Import WireRecord.
From S2P Require Import WireInput.
From S2P Require Import WireControl.
From S2P Require Import WireMedia.
From S2P Require Import WireMediaProps.
From S2P Require Import WireView.
From S2P Require Import WireViewProps.
From S2P Require Import Delivery.
From S2P Require Import Receiver.
From S2P Require Import ReceiverClaims.
From S2P Require Import Requestor.
From S2P Require Import Freshness.
From S2P Require Import FreshnessClaims.
From S2P Require Import Presented.
From S2P Require Import HostViewProps.
From S2P Require Import HostView.
From S2P Require Import ViewerView.

Module SeenInput.
Import Media PresentedMsg.
Import Freshness(ViewTracker, ClockCorrelation, is_known, is_running, t_pending, c_descriptor, ev_source).
Import FreshnessProps(Call, call_op, correlated, shown_view, on_screen, justified, qualified).
Import PresentedProps(agreed, reporting).
Import PresentedMsgProps(sample_typed, stamp_typed).
Import Presented(Reporter, r_pending, pr_bytes).
Import ViewerView(ViewSample, Visible, Pending, NoView, ViewerPresentation, reporter, records, Admission).
Import Requestor(address, scope_of).
#[local] Existing Instances ViewerView.eta_viewer.

(** ** The viewer *)

(** The viewer with the log of its tracker, and the times its samples were taken, each
    with the log as it was then. *)
Record Viewer := mk_viewer {
  v_log : list FreshnessProps.Event; taken : list (Z * list FreshnessProps.Event);
  tracker : ViewTracker; sample : ViewSample; owner : ViewerPresentation }.

Inductive Op :=
| Track (c : Call)
| TakeSample (flag : address -> bool) (now : Z)
| Service (bound_to cancelled : bool) (rtt : option Z) (now : Z) (answer : Admission)
| Force (now : Z).

Definition step (op : Op) (w : Viewer) : Viewer :=
  match op with
  | Track c => let '(log, t) := FreshnessProps.step c (v_log w, tracker w) in mk_viewer log (taken w) t (sample w) (owner w)
  | TakeSample flag now =>
      let '(r, t) := Freshness.presented_sample flag now (tracker w) in
      mk_viewer (v_log w) ((now, v_log w) :: taken w) t (match ViewerView.from_view r now with Ok s => s | Err _ => sample w end) (owner w)
  | Service bt c rtt now answer =>
      mk_viewer (v_log w) (taken w) (tracker w) (sample w) (snd (ViewerView.service_reported bt c rtt (sample w) now answer (owner w)))
  | Force now => mk_viewer (v_log w) (taken w) (tracker w) (sample w) (snd (ViewerView.force_unavailable now (owner w)))
  end.

Fixpoint run (ops : list Op) (w : Viewer) : Viewer := match ops with [] => w | op :: ops => run ops (step op w) end.

(** Values of the types of the program. *)
Definition typed_picture (d : FrameDescriptor) : Prop := fits u64_max (frame d) /\ fits u64_max (capture_micros d).

Definition call_typed (c : Call) : Prop :=
  match call_op c with
  | FreshnessProps.ReadProgress bs limits => forall t p, Freshness.read_progress bs limits t = Ok p -> fits u64_max (observed_micros p)
  | FreshnessProps.ObserveReceiver _ r => forall p, Receiver.latest r = Some p -> fits u64_max (observed_micros p)
  | FreshnessProps.DecodedPicture _ f _ => typed_picture (Receiver.df_descriptor f)
  | _ => True
  end.

Definition op_ok (host : Z -> Z) (op : Op) : Prop :=
  match op with Track c => FreshnessProps.call_ok host c /\ call_typed c | _ => True end.

(** ** What the viewer saw *)

(** At viewer time [v] the tracker stood for this stamp: the picture was on the
    screen, and its source had been observed at most 1.5 s before, by the host's clock. *)
Definition sighting (host : Z -> Z) (v : Z) (log : list FreshnessProps.Event) (s : Stamp) : Prop :=
  exists d u at_us since,
    on_screen log d u at_us since /\ st_frame s = frame d /\ captured_us s = capture_micros d /\
    justified log d (observed_us s) (source s) /\ source s <> Unknown /\ (u <= at_us -> qualified d since) /\
    host v - observed_us s < 1500000.

(** A sample was taken of it. *)
Definition seen (host : Z -> Z) (samples : list (Z * list FreshnessProps.Event)) (s : Stamp) : Prop :=
  exists v log, (v, log) ∈ samples /\ sighting host v log s.

Lemma seen_grows host samples x s : seen host samples s -> seen host (x :: samples) s.
Proof. intros (v & log & Hin & Hs). exists v, log. split; [by right|done]. Qed.

Definition typed_log (log : list FreshnessProps.Event) : Prop :=
  (forall d u, FreshnessProps.Submitted d u ∈ log -> typed_picture d) /\
  (forall p, FreshnessProps.Reported p ∈ log -> fits u64_max (observed_micros p)).

Lemma typed_log_cons e log : typed_log log ->
  match e with
  | FreshnessProps.Submitted d _ => typed_picture d
  | FreshnessProps.Reported p => fits u64_max (observed_micros p)
  | _ => True
  end -> typed_log (e :: log).
Proof.
  intros [H1 H2] He. split.
  - intros d u [E|H]%elem_of_cons; [subst e; exact He|by apply (H1 d u)].
  - intros p [E|H]%elem_of_cons; [subst e; exact He|by apply H2].
Qed.

Lemma step_typed c log t : typed_log log -> call_typed c -> typed_log (fst (FreshnessProps.step c (log, t))).
Proof.
  intros Hl Hc. destruct c as [flag now op]. unfold FreshnessProps.step, call_typed, FreshnessProps.when_moved in *.
  cbn [FreshnessProps.call_op FreshnessProps.flags FreshnessProps.call_now] in *. destruct op; cbn [fst]; try done.
  - destruct (_ <? _); [|done]. destruct (Freshness.read_progress bs limits t) as [p|] eqn:E; [|done].
    apply typed_log_cons; [done|]. by apply (Hc t).
  - destruct (_ <? _); [|done]. destruct (Receiver.latest r) as [p|]; [|done]. apply typed_log_cons; [done|]. by apply Hc.
  - destruct (Freshness.decoded _ _ _ _ _ _) as [r t']. destruct (is_ok r); [|done]. apply typed_log_cons; [done|].
    by destruct submitted.
  - destruct (_ <? _); [|done]. by apply typed_log_cons.
  - by apply typed_log_cons.
  - by apply typed_log_cons.
Qed.

(** ** The owner of the reports *)

Section owner.
Context (b : ViewBinding.Binding) (l : Limits.ProtocolLimits) (Hag : agreed b l) (S : Stamp -> Prop).

(** A record that reports something satisfying [S], or nothing. *)
Definition reports (bs : bytes) : Prop :=
  exists q vis, decode bs b l ViewerToHost Reliable = Ok (mk_report q vis) /\ forall x, vis = Some x -> S (stamp x).

Definition truthful (v : ViewerPresentation) : Prop :=
  Forall reports (records v) /\
  exists log, reporting b l log (reporter v) /\ forall x n bd, PresentedProps.Offered x n bd ∈ log -> S (stamp x).

Lemma truthful_reporter v r log : truthful v -> reporting b l log r ->
  (forall x n bd, PresentedProps.Offered x n bd ∈ log -> S (stamp x)) -> truthful (v <| reporter := r |>).
Proof. intros [H1 _] Hr Ho. split; [done|]. by exists log. Qed.

(** A call on the reporter that is described by its specification. *)
Lemma wp_reporter {A B} (m : M Reporter Presented.Error A) (k : A -> M ViewerPresentation ViewerView.ViewerError B) v Q :
  wp m (reporter v) (fun r rep => match r with Ok a => wp (k a) (v <| reporter := rep |>) Q | Err e => Q (Err (ViewerView.Proof_ e)) (v <| reporter := rep |>) end) ->
  wp (ViewerView.on_reporter m ≫= k) v Q.
Proof. unfold wp, mbind, M_bind, ViewerView.on_reporter. by destruct (m (reporter v)) as [[a|e] rep]. Qed.

Lemma wp_reporter_last {A} (m : M Reporter Presented.Error A) v (Q : ViewerPresentation -> Prop) :
  wp m (reporter v) (fun _ rep => Q (v <| reporter := rep |>)) -> wp (ViewerView.on_reporter m) v (fun _ v' => Q v').
Proof. unfold wp, ViewerView.on_reporter. by destruct (m (reporter v)) as [[a|e] rep]. Qed.

(** The bytes a reporter shows are those it holds. *)
Lemma wp_and_pending now log v : reporting b l log (reporter v) ->
  wp (Presented.pending now) (reporter v) (fun res rep => reporting b l log rep /\ r_pending rep = r_pending (reporter v) /\
    match res with Ok o => forall bs u, o = Some (bs, u) -> exists p, r_pending rep = Some p /\ bs = pr_bytes p | Err _ => True end).
Proof.
  intros Hr. pose proof (PresentedProps.pending_spec b l now log _ Hr) as (H1 & H2 & _). unfold wp. split; [done|]. split; [done|].
  rewrite H2. unfold Presented.pending, Presented.r_tick, mbind, M_bind, refuse_if, modify, gets. destruct (_ <? _); [done|].
  cbn [fst]. destruct (is_some_and _ _); [done|]. cbn [fst]. intros bs u E. cbn in E.
  destruct (r_pending (reporter v)) as [p|]; [|done]. injection E as <- _. by exists p.
Qed.

(** The sample is of the program's types and satisfies [S]. *)
Definition good (sample : ViewSample) : Prop := match sample with Visible x _ => sample_typed x /\ S (stamp x) | _ => True end.

Lemma sample_at_good sample now bound sample' : good sample -> ViewerView.sample_at sample now bound = Ok sample' -> good sample'.
Proof.
  destruct sample as [x at_us| |]; [|by intros _ [= <-]..]. intros [Hx Hs] H. cbn [ViewerView.sample_at] in H.
  apply Result_bind_Ok in H as (e & He & H). unfold checked_sub in He. destruct (Z.leb_spec at_us now); [|done]. injection He as <-.
  apply Result_bind_Ok in H as (age & Ha & H). unfold checked_add in Ha. destruct (Z.leb_spec (age_upper_us x + (now - at_us)) u64_max); [|done].
  injection Ha as <-. injection H as <-. destruct (_ <=? _); [done|]. destruct Hx as [Hx1 Hx2]. split; [|done]. split; [done|].
  unfold fits in *. cbn. lia.
Qed.

Lemma offer_truthful sample now bound v : good sample -> truthful v ->
  wp (ViewerView.offer_sample sample now bound) v (fun _ v' => truthful v').
Proof using Hag.
  intros Hg Hv. pose proof Hv as [_ (log & Hr & Ho)]. unfold ViewerView.offer_sample.
  destruct sample as [x at_us| |]; apply wp_reporter_last.
  - destruct Hg as [Hx Hs].
    apply (wp_mono _ _ _ _ (PresentedProps.prepare_spec b l Hag (Some x) now bound (PresentedProps.Offered x now bound :: log) _
      (PresentedProps.reporting_offer b l log _ x now bound Hr) Hx ltac:(intros ? [= <-]; apply elem_of_cons; by left))).
    intros _ rep (Hrep & _). eapply truthful_reporter; [done|exact Hrep|]. intros y n bd [[= -> _ _]|H]%elem_of_cons; [done|by apply (Ho y n bd)].
  - apply (wp_mono _ _ _ _ (PresentedProps.pause_spec b l now log _ Hr)). intros _ rep (Hrep & _). by eapply truthful_reporter.
  - apply (wp_mono _ _ _ _ (PresentedProps.prepare_spec b l Hag None now bound log _ Hr I ltac:(done))).
    intros _ rep (Hrep & _). by eapply truthful_reporter.
Qed.

(** What the reporter holds reports something offered. *)
Lemma pending_reports v p : truthful v -> r_pending (reporter v) = Some p -> reports (pr_bytes p).
Proof.
  intros [_ (log & Hr & Ho)] Hp. destruct (PresentedProps.rp_pending _ _ _ _ Hr p Hp) as (vis & Hd & _ & Hof).
  exists (Presented.r_sequence (reporter v)), vis. split; [done|]. intros x ->. destruct Hof as (t0 & bd & Hin & _). by apply (Ho x t0 bd).
Qed.

Lemma settle_truthful answer p sample positive now v : truthful v -> r_pending (reporter v) = Some p ->
  wp (ViewerView.settle answer (pr_bytes p) sample positive now) v (fun _ v' => truthful v').
Proof.
  intros Hv Hp. pose proof (pending_reports v p Hv Hp) as Hb. pose proof Hv as [Hrec (log & Hr & Ho)].
  destruct answer; cbn [ViewerView.settle]; [|done| |done].
  - apply wp_modify. set (v1 := v <| records := pr_bytes p :: records v |>).
    assert (Hv1 : truthful v1) by (split; [by constructor|by exists log]). apply wp_reporter.
    apply (wp_mono _ _ _ _ (PresentedProps.queued_spec b l now log (reporter v1) Hr)). intros [c|e] rep H.
    + destruct H as (p' & _ & _ & _ & H). apply wp_modify, wp_modify. unfold wp. cbn [fst snd mret M_ret].
      assert (Hrep : truthful (v1 <| reporter := rep |>)).
      { eapply truthful_reporter; [done|exact H|]. intros x n bd [?|Hin]%elem_of_cons; [done|by apply (Ho x n bd)]. }
      by destruct sample, positive.
    + destruct H as (H & _). by eapply truthful_reporter.
  - apply wp_reporter. apply (wp_mono _ _ _ _ (PresentedProps.discard_spec b l now0 log _ Hr)).
    intros [x|e] rep (H & _); by eapply truthful_reporter.
Qed.

Lemma service_truthful bound_to cancelled rtt sample now answer v : good sample -> truthful v ->
  wp (ViewerView.service_reported bound_to cancelled rtt sample now answer) v (fun _ v' => truthful v').
Proof using Hag.
  intros Hg Hv. unfold ViewerView.service_reported. cbv zeta. apply wp_refuse. destruct (negb bound_to); [done|].
  apply wp_refuse. destruct cancelled; [done|]. pose proof Hv as [_ (log & Hr & Ho)]. apply wp_reporter.
  apply (wp_mono _ _ _ _ (PresentedProps.discard_spec b l now log _ Hr)).
  intros [x|e] rep (H & _); [|by eapply truthful_reporter].
  assert (Hv1 : truthful (v <| reporter := rep |>)) by (by eapply truthful_reporter). clear log Hr Ho H.
  apply wp_lift. destruct (ViewerView.sample_at sample now _) as [sample'|] eqn:Es; [|done].
  pose proof (sample_at_good _ _ _ _ Hg Es) as Hg'. apply wp_bind.
  apply (wp_mono _ _ _ _ (offer_truthful sample' now _ _ Hg' Hv1)). intros [[]|e] v2 Hv2; [|done]. apply wp_gets.
  pose proof Hv2 as [_ (log & Hr & Ho)]. apply wp_reporter.
  apply (wp_mono _ _ _ _ (wp_and_pending now log v2 Hr)). intros [o|e] rep2 (H & E & Hb); [|by eapply truthful_reporter].
  assert (Hv3 : truthful (v2 <| reporter := rep2 |>)) by (by eapply truthful_reporter).
  destruct o as [[bs u]|]; [|done]. destruct (Hb bs u eq_refl) as (p & Hp & ->). by apply settle_truthful.
Qed.

End owner.

Lemma truthful_weaken b l (S S' : Stamp -> Prop) v : (forall s, S s -> S' s) -> truthful b l S v -> truthful b l S' v.
Proof.
  intros Hw [H1 (log & H2 & H3)]. split.
  - eapply Forall_impl; [exact H1|]. intros bs (q & vis & Hd & Hv). exists q, vis. split; [done|]. intros x Hx. by apply Hw, Hv.
  - exists log. split; [done|]. intros x n bd Hin. by apply Hw, (H3 x n bd).
Qed.

(** ** The whole viewer *)

Section viewer.
Context (host : Z -> Z) (sc : address) (b : ViewBinding.Binding) (l : Limits.ProtocolLimits) (Hag : agreed b l).

Record viewer_ok (w : Viewer) : Prop := {
  vo_view : shown_view host sc (v_log w) (tracker w);
  vo_typed : typed_log (v_log w);
  vo_sample : good (seen host (taken w)) (sample w);
  vo_owner : truthful b l (seen host (taken w)) (owner w)
}.

(** A sample of the tracker is a sighting. *)
Lemma sample_sighting flag now log t x : shown_view host sc log t -> typed_log log ->
  fst (Freshness.presented_sample flag now t) = Ok x -> sample_typed x /\ sighting host now log (stamp x).
Proof.
  intros Hv [Ht1 Ht2] Hx. pose proof (FreshnessProps.presented_spec host sc flag now log t Hv) as [_ H].
  destruct (H x Hx) as (ev & d & o & [Hf Hvis Hsrc Hkn Hqu Hfr Hpx Hage Hfre] & ->).
  destruct (FreshnessProps.sv_visible _ _ _ _ Hv d Hvis) as (u & at_us & since & Hos & Hso). unfold FreshnessProps.source_ok in Hso.
  rewrite Hsrc, Hqu in Hso. destruct Hso as [Hj Hq].
  apply (FreshnessProps.age_upper_spec host) in Hage as (Ha & Ha0 & _); [|apply (FreshnessProps.sv_clock _ _ _ _ Hv)].
  pose proof (FreshnessProps.sv_max _ _ _ _ Hv) as Hm.
  assert (Hd : typed_picture d).
  { destruct Hos as (rest & -> & _ & (l1 & l2 & -> & _)). apply (Ht1 d u).
    apply elem_of_app. right. apply elem_of_cons. right. apply elem_of_app. right. apply elem_of_cons. by left. }
  split.
  - split; [|unfold fits, u64_max; cbn; lia]. split; [apply Hd|]. split; [apply Hd|]. cbn.
    destruct Hj as [(p & Hp & _ & <- & _)|[-> _]]; [by apply Ht2|apply Hd].
  - exists d, u, at_us, since. cbn. split_and!; try done; lia.
Qed.

Lemma good_weaken (S S' : Stamp -> Prop) x : (forall s, S s -> S' s) -> good S x -> good S' x.
Proof. intros Hw. destruct x as [y n| |]; [|done..]. intros [H1 H2]. split; [done|by apply Hw]. Qed.

Lemma step_viewer op w : viewer_ok w -> op_ok host op -> viewer_ok (step op w).
Proof using Hag.
  intros [H1 H2 H3 H4] Ho. destruct op as [c|flag now|bt cn rtt now answer|now]; cbn [step op_ok] in *.
  - destruct Ho as [Hc Hty]. pose proof (FreshnessProps.step_view host sc c _ _ H1 Hc) as Hs.
    pose proof (step_typed c _ (tracker w) H2 Hty) as Ht.
    by destruct (FreshnessProps.step c (v_log w, tracker w)) as [log t].
  - pose proof (FreshnessProps.presented_spec host sc flag now _ _ H1) as [[Hk _] _].
    pose proof (fun x => sample_sighting flag now _ _ x H1 H2) as Hsi.
    destruct (Freshness.presented_sample flag now (tracker w)) as [r t]. cbn [fst snd] in *.
    assert (good (seen host ((now, v_log w) :: taken w)) (sample w)) as H3' by (eapply good_weaken; [intros s; apply seen_grows|done]).
    constructor; try done; [|by eapply truthful_weaken; [intros s; apply seen_grows|]]. cbn [sample taken].
    destruct r as [x|e]; cbn [ViewerView.from_view].
    + destruct (_ <? _); [|done]. destruct (Hsi x eq_refl) as [Hx Hs]. split; [done|]. exists now, (v_log w). split; [by left|done].
    + by destruct e.
  - constructor; try done. by apply (service_truthful b l Hag (seen host (taken w)) bt cn rtt (sample w) now answer (owner w)).
  - constructor; try done. unfold ViewerView.force_unavailable. pose proof H4 as [_ (log & Hr & Hof)].
    apply (wp_reporter_last (Presented.force_unavailable now) (owner w) (truthful b l (seen host (taken w)))).
    apply (wp_mono _ _ _ _ (PresentedProps.force_unavailable_spec b l Hag now log _ Hr)). intros _ rep (H & _).
    by eapply truthful_reporter.
Qed.

Lemma run_viewer ops w : viewer_ok w -> Forall (op_ok host) ops -> viewer_ok (run ops w).
Proof using Hag.
  revert w. induction ops as [|op ops IH]; intros w Hw Hops; [done|]. inversion Hops as [|? ? Ho Hops']; subst.
  cbn [run]. by apply IH; [apply step_viewer|].
Qed.

End viewer.

(** ** The two ends *)

(** The viewer before its first call. *)
Definition fresh_viewer (t : ViewTracker) (r : Reporter) : Viewer :=
  mk_viewer [] [] t Pending (ViewerView.mk_viewer r 0 ViewerView.no_ages []).

(** The network makes nothing up: what the host receives, the viewer sent. *)
Definition delivered (w : Viewer) (op : HostViewProps.Op) : Prop :=
  match op with HostViewProps.Receive _ bs _ => bs ∈ records (owner w) | _ => True end.

Lemma fresh_ok host id r c m now t lineage b l now' rep : correlated host c -> Freshness.new id r c m now = Ok t ->
  Presented.new_reporter lineage b l now' = Ok rep -> viewer_ok host (scope_of id r) b l (fresh_viewer t rep).
Proof.
  intros Hc Hn Hr. constructor; try done.
  - by eapply FreshnessProps.new_view.
  - split; intros ? *; intros H; by apply not_elem_of_nil in H.
  - split; [constructor|]. exists []. split; [by eapply PresentedProps.new_reporting|]. intros x n bd H. by apply not_elem_of_nil in H.
Qed.

(** ** Theorems *)

(** No input without a recent view.  Once the presentation owner is attached to a
    session, whatever source observations, reports, connection checks and other calls
    on the authority follow, a submission is authorized only under a report that was
    verified: its record carries the view's binding, names a source the host itself
    had recorded before and has not lost since, and the submission comes less than one
    second after the host's own observation of that source. *)
Theorem input_needs_a_recent_view connected route b l rtt out a h0 a' ops log h i t now :
  reachable a -> HostViewProps.out_ok out -> HostView.attach connected route b l rtt out a = (Ok h0, a') ->
  Forall HostViewProps.op_ok ops -> HostViewProps.run ops ([], h0) = (log, h) ->
  is_ok (fst (authorize_submission i t now (HostView.authority h))) = true ->
  exists seq s age u bs l1 l2,
    log = l1 ++ HostViewProps.Verified seq s u bs :: l2 /\ HostViewProps.SourceLost ∉ l1 /\ HostViewProps.known_since l2 s /\
    decode bs b l ViewerToHost Reliable = Ok (mk_report seq (Some (mk_sample s age))) /\
    now < u /\ u <= observed_us s + 1000000.
Proof.
  intros Ha Ho Hat Hops Hr Hok. apply reachable_wf in Ha.
  pose proof (HostViewProps.run_watching b l ops [] h0 (HostViewProps.attach_watching _ _ _ _ _ _ _ _ _ Ha Ho Hat) Hops) as Hw.
  rewrite Hr in Hw. destruct (HostViewProps.authorized_covered b l log h i t now Hw Hok) as (seq & s & age & u & bs & l1 & l2 & H1 & H2 & H3 & H4 & H5 & H6).
  exists seq, s, age, u, bs, l1, l2. by split_and!.
Qed.

(** Authorized input acts on what the viewer sees.  Join a viewer, whose clock is
    correlated honestly, and a host by a network that loses, delays, repeats and
    reorders reports but makes none up.  Whenever the host authorizes a submission,
    there is a picture that the viewer really had on its screen: submitted, named as
    visible by a callback, and not replaced when a sample of it was taken; the viewer
    reported that sample with a source observation made of that very picture; the host
    had recorded the same observation; and less than one second has passed on the
    host's clock since it was made. *)
Theorem authorized_input_was_seen host id r c m now0 tr lineage b l now1 rep vops connected route rtt out a h0 a' ops log h i t now :
  correlated host c -> Freshness.new id r c m now0 = Ok tr -> agreed b l -> Presented.new_reporter lineage b l now1 = Ok rep ->
  Forall (op_ok host) vops ->
  reachable a -> HostViewProps.out_ok out -> HostView.attach connected route b l rtt out a = (Ok h0, a') ->
  Forall HostViewProps.op_ok ops -> Forall (delivered (run vops (fresh_viewer tr rep))) ops ->
  HostViewProps.run ops ([], h0) = (log, h) ->
  is_ok (fst (authorize_submission i t now (HostView.authority h))) = true ->
  exists s, seen host (taken (run vops (fresh_viewer tr rep))) s /\ HostViewProps.Recorded s ∈ log /\ now < observed_us s + 1000000.
Proof.
  intros Hc Hn Hag Hrep Hv Ha Ho Hat Hops Hdel Hr Hok. apply reachable_wf in Ha.
  pose proof (HostViewProps.run_watching b l ops [] h0 (HostViewProps.attach_watching _ _ _ _ _ _ _ _ _ Ha Ho Hat) Hops) as Hw.
  pose proof (run_viewer host (scope_of id r) b l Hag vops _ (fresh_ok host id r c m now0 tr lineage b l now1 rep Hc Hn Hrep) Hv) as Hvw.
  pose proof (fun seq s u bs => HostViewProps.run_received ops [] h0 seq s u bs) as Hrec. rewrite Hr in Hw, Hrec.
  destruct (HostViewProps.authorized_covered b l log h i t now Hw Hok) as (seq & s & age & u & bs & l1 & l2 & -> & H2 & (k1 & k2 & -> & _) & H4 & H5).
  exists s. split; [|split; [|unfold MAX_SOURCE_AGE_US in H5; lia]].
  - destruct (Hrec seq s u bs) as [H|(rt & ou & Hin)]; [apply elem_of_app; right; apply elem_of_cons; by left|by apply not_elem_of_nil in H|].
    rewrite Forall_forall in Hdel. specialize (Hdel _ Hin). cbn in Hdel. destruct (vo_owner _ _ _ _ _ Hvw) as [Hall _].
    rewrite Forall_forall in Hall. destruct (Hall _ Hdel) as (q & vis & Hd & Hs). rewrite H4 in Hd. injection Hd as <- <-.
    by apply (Hs _ eq_refl).
  - apply elem_of_app. right. apply elem_of_cons. right. apply elem_of_app. right. apply elem_of_cons. by left.
Qed.

(** ** Witnesses *)

Import FreshnessClaims(demo_host, demo_clock, demo_tracker, demo_view_calls, demo_flag, demo_honest).

Definition demo_binding : ViewBinding.Binding := ViewBinding.mk_view (mk_control 9 1 2 3) 4 0 1 0 0.
Definition demo_reporter : Reporter := Presented.mk_reporter demo_binding 5 Limits.ABSOLUTE 1 300 300 None None false None.
Definition demo_vops : list Op :=
  map Track demo_view_calls ++ [TakeSample demo_flag 3200; Service true false None 3250 ViewerView.Accepted].
Definition demo_viewer : Viewer := run demo_vops (fresh_viewer demo_tracker demo_reporter).
Definition demo_record : bytes := hd [] (records (owner demo_viewer)).
Definition demo_out (n : Z) : HostView.Outside := HostView.mk_outside false true (Some n) (Some n).
Definition demo_session : SessionAuthority := AuthoritySpec.run [MarkCapabilitiesChecked; AuthorizeObservation 0] (Authority.new 1 plan_defaults).
Definition demo_progress (o : Z) (s : SourceObservation) : option Progress := Some (mk_progress ReceiverClaims.demo_second o s Running).
Definition demo_hops : list HostViewProps.Op :=
  [HostViewProps.Observe (demo_progress 1000 Captured) (demo_out 1100);
   HostViewProps.Observe (demo_progress 2900 QualifiedUnchanged) (demo_out 2950);
   HostViewProps.Receive 7 demo_record (demo_out 3300);
   HostViewProps.Other (GrantLease 2 3310); HostViewProps.Other (IssueInputTicket 2 3 3320)].
Definition demo_host_start : HostView.HostPresentation :=
  match fst (HostView.attach true 7 demo_binding Limits.ABSOLUTE None (demo_out 10) demo_session) with
  | Ok h => h
  | Err _ => HostView.mk_host demo_session (Presented.mk_verifier demo_binding Limits.ABSOLUTE [] 0 None 0 0 None) 0 0 0
  end.

Lemma demo_outs n : 0 <= n -> HostViewProps.out_ok (demo_out n).
Proof. intros Hn. split; intros x [= <-]; done. Qed.

Lemma demo_hops_ok : Forall HostViewProps.op_ok demo_hops.
Proof.
  unfold demo_hops. repeat constructor; try (intros x [= <-]; lia).
Qed.

Lemma demo_session_reachable : reachable demo_session.
Proof. apply run_reachable. solve_calls. Qed.

Lemma demo_agreed : agreed demo_binding Limits.ABSOLUTE.
Proof.
  split; [|done|by vm_compute]. unfold ViewProps.view_typed, ViewProps.generations, fits, u32_max, u64_max. cbn.
  split; [lia|]. repeat (apply Forall_cons_2; [lia|]). apply Forall_nil_2.
Qed.

Lemma input_needs_a_recent_view_witness :
  exists seq s age u bs l1 l2,
    fst (HostViewProps.run demo_hops ([], demo_host_start)) = l1 ++ HostViewProps.Verified seq s u bs :: l2 /\
    HostViewProps.known_since l2 s /\
    decode bs demo_binding Limits.ABSOLUTE ViewerToHost Reliable = Ok (mk_report seq (Some (mk_sample s age))) /\
    3400 < u /\ u <= observed_us s + 1000000.
Proof.
  destruct (input_needs_a_recent_view true 7 demo_binding Limits.ABSOLUTE None (demo_out 10) demo_session demo_host_start
    (snd (HostView.attach true 7 demo_binding Limits.ABSOLUTE None (demo_out 10) demo_session)) demo_hops
    (fst (HostViewProps.run demo_hops ([], demo_host_start))) (snd (HostViewProps.run demo_hops ([], demo_host_start))) 2 3 3400)
    as (seq & s & age & u & bs & l1 & l2 & H1 & _ & H2 & H3 & H4 & H5).
  - apply demo_session_reachable.
  - by apply demo_outs.
  - vm_compute. reflexivity.
  - apply demo_hops_ok.
  - by destruct (HostViewProps.run demo_hops _).
  - vm_compute. reflexivity.
  - exists seq, s, age, u, bs, l1, l2. by split_and!.
Defined.

Lemma demo_vops_ok : Forall (op_ok demo_host) demo_vops.
Proof.
  unfold demo_vops, demo_view_calls. cbn [map app]. repeat apply Forall_cons_2; try exact I; try apply Forall_nil_2;
    (split; [split; [vm_compute; discriminate|exact I]|]).
  - repeat split; vm_compute; discriminate.
  - intros p [= <-]. split; vm_compute; discriminate.
  - exact I.
  - intros p [= <-]. split; vm_compute; discriminate.
Qed.

Lemma authorized_input_was_seen_witness :
  exists s, seen demo_host (taken demo_viewer) s /\
    HostViewProps.Recorded s ∈ fst (HostViewProps.run demo_hops ([], demo_host_start)) /\ 3400 < observed_us s + 1000000.
Proof.
  apply (authorized_input_was_seen demo_host 0 ReceiverClaims.demo_receiver demo_clock 250000 300 demo_tracker 5 demo_binding Limits.ABSOLUTE 300
    demo_reporter demo_vops true 7 None (demo_out 10) demo_session demo_host_start
    (snd (HostView.attach true 7 demo_binding Limits.ABSOLUTE None (demo_out 10) demo_session)) demo_hops
    (fst (HostViewProps.run demo_hops ([], demo_host_start))) (snd (HostViewProps.run demo_hops ([], demo_host_start))) 2 3 3400).
  - split; [vm_compute; reflexivity|apply demo_honest].
  - vm_compute. reflexivity.
  - apply demo_agreed.
  - vm_compute. reflexivity.
  - apply demo_vops_ok.
  - apply demo_session_reachable.
  - by apply demo_outs.
  - vm_compute. reflexivity.
  - apply demo_hops_ok.
  - unfold demo_hops. repeat apply Forall_cons_2; try exact I; try apply Forall_nil_2.
    change (demo_record ∈ records (owner demo_viewer)). vm_compute. apply list_elem_of_here.
  - by destruct (HostViewProps.run demo_hops _).
  - vm_compute. reflexivity.
Defined.

Definition demo_offer : Sample := mk_sample (mk_stamp 2 1000 2900 QualifiedUnchanged) 400.
Definition demo_reports : list PresentedProps.Op :=
  [PresentedProps.Prepare (Some demo_offer) 3300 250000; PresentedProps.Hand 3400].
Definition demo_reported := PresentedProps.run demo_reports ([], demo_reporter).

Lemma demo_reports_ok : Forall PresentedProps.op_ok demo_reports.
Proof. repeat constructor; vm_compute; discriminate. Qed.

Lemma reports_are_the_samples_witness : exists c bs earlier vis,
  fst demo_reported = [] ++ PresentedProps.Queued c bs 3400 :: earlier /\
  decode bs demo_binding Limits.ABSOLUTE ViewerToHost Reliable = Ok (mk_report (Presented.ac_sequence c) vis) /\
  forall s, vis = Some s -> exists t0 bound, PresentedProps.Offered s t0 bound ∈ earlier /\ bound <= MAX_SOURCE_AGE_US
    /\ age_upper_us s + (3400 - t0) < bound.
Proof.
  destruct (fst demo_reported) as [|[|c bs n] earlier] eqn:E; [vm_compute in E; discriminate..|].
  assert (n = 3400) as -> by (vm_compute in E; congruence).
  destruct (PresentedProps.reports_are_the_samples 5 demo_binding Limits.ABSOLUTE 300 demo_reporter demo_reports (fst demo_reported) (snd demo_reported)
    [] c bs 3400 earlier) as (vis & Hd & _ & _ & Hs).
  - apply demo_agreed.
  - vm_compute. reflexivity.
  - apply demo_reports_ok.
  - unfold demo_reported. by destruct (PresentedProps.run demo_reports _).
  - exact E.
  - exists c, bs, earlier, vis. by split_and!.
Defined.

(** The view is lost after a report; a new sample is offered, and the loss goes first. *)
Definition demo_lost : Reporter := snd (Presented.force_unavailable 3500 (snd demo_reported)).
Definition demo_after : list PresentedProps.Op :=
  [PresentedProps.Prepare (Some demo_offer) 3600 250000; PresentedProps.Hand 3700].

Lemma loss_is_reported_first_witness :
  fst (PresentedProps.run demo_after (fst demo_reported, demo_lost)) <> fst demo_reported /\
  ((exists e, fst (PresentedProps.run demo_after (fst demo_reported, demo_lost)) = e ++ fst demo_reported /\ PresentedProps.sequences e = []) \/
   exists later c bs t e, fst (PresentedProps.run demo_after (fst demo_reported, demo_lost))
       = later ++ PresentedProps.Queued c bs t :: e ++ fst demo_reported /\ PresentedProps.sequences e = [] /\
     Presented.ac_sequence c = 2 /\ Presented.ac_visible c = None /\
     decode bs demo_binding Limits.ABSOLUTE ViewerToHost Reliable = Ok (mk_report 2 None)).
Proof.
  split; [vm_compute; discriminate|].
  apply (PresentedProps.loss_is_reported_first 5 demo_binding Limits.ABSOLUTE 300 demo_reporter demo_reports (fst demo_reported) (snd demo_reported)
    3500 2 demo_lost demo_after).
  - apply demo_agreed.
  - vm_compute. reflexivity.
  - apply demo_reports_ok.
  - unfold demo_reported. by destruct (PresentedProps.run demo_reports _).
  - vm_compute. reflexivity.
  - repeat constructor; vm_compute; discriminate.
Defined.

End SeenInput.
