(* ===== verification/Pacing.v ===== *)
(** * Capture pacing

    [fr-media/src/pacing.rs]: the controller that chooses how long the capture loop
    waits between pictures, from the age of the source's work, the outcome of sends,
    the credit for captures and, where negotiated, the load of the receiver.

    The three overload timers are an array of three; the receiver's three arrays of
    two are kept here by index, and a timer of measured time is one [Dwell], which
    is also what the three fields of the headroom are. *)

From S2P Require Import Prelude.
From S2P Require Import WireMedia.
From S2P Require Import WireView.

Module Pacing.
Import Media(div_ceil).
Import MetricsMsg(Load, retained_pictures, decoding, work_us).

Definition PRESSURE_DWELL_US : Z := 100000.
Definition REDUCE_DWELL_US : Z := 250000.
Definition PROBE_DWELL_US : Z := 2000000.
Definition IDLE_DWELL_US : Z := 1000000.
Definition MAX_SAMPLE_GAP_US : Z := 100000.
Definition SOURCE_EVIDENCE_US : Z := 250000.

Inductive Error := InvalidPolicy | InvalidObservation | ClockRegression | Closed.

(** ** Policy and evidence *)

Record Policy := mk_policy { minimum_interval_us : Z; maximum_interval_us : Z }.

Definition validate (p : Policy) : Result Error unit :=
  if (minimum_interval_us p <? 1000)
     || (maximum_interval_us p <? minimum_interval_us p)
     || (1000000 <? maximum_interval_us p)
     || ((200000 <? maximum_interval_us p) && negb (minimum_interval_us p =? maximum_interval_us p))
  then Err InvalidPolicy else Ok tt.
Definition conservative (p : Policy) : Z := Z.min (minimum_interval_us p * 2) (maximum_interval_us p).

Inductive Availability := Unknown | Ready | Blocked.
#[export] Instance Availability_eq_dec : EqDecision Availability.
Proof. solve_decision. Defined.

Record Observation := mk_observation { at_us : Z; changed : bool }.
#[export] Instance Observation_eq_dec : EqDecision Observation.
Proof. solve_decision. Defined.

Record Sample := mk_sample {
  now_us : Z;
  source_work_us : option Z;
  send : Availability;
  capture_credit : Availability;
  observation : option Observation
}.

Inductive Mode := Active | Idle.
#[export] Instance Mode_eq_dec : EqDecision Mode.
Proof. solve_decision. Defined.

Inductive Reason :=
| Hold | SourceWork | SendAdmission | CaptureCredit | ReceiverBacklog | DecoderWork
| HeadroomProbe | VerifiedIdle | ChangedAfterIdle | EvidenceGap.
#[export] Instance Reason_eq_dec : EqDecision Reason.
Proof. solve_decision. Defined.

Inductive ReceiverEvidence := Unobserved | UnknownLoad | Measured (load : Load).

(** An array of three. *)
Record Three (A : Type) := mk_three { at0 : A; at1 : A; at2 : A }.
Arguments mk_three {A}.
Arguments at0 {A}.
Arguments at1 {A}.
Arguments at2 {A}.
(** A [for] loop over the elements. *)
Definition map3 {A B C : Type} (f : A -> B -> C) (x : Three A) (y : Three B) : Three C :=
  mk_three (f (at0 x) (at0 y)) (f (at1 x) (at1 y)) (f (at2 x) (at2 y)).
Definition contains3 (x : Three bool) : bool := at0 x || at1 x || at2 x.
Definition contains2 (x : bool * bool) : bool := fst x || snd x.

Record Report := mk_report {
  sample : Sample;
  previous_interval_us : Z;
  interval_us : Z;
  r_mode : Mode;
  reason : Reason;
  pressure_us : Three Z;
  headroom_us : Z;
  receiver : ReceiverEvidence;
  receiver_pressure_us : Z * Z
}.

(** Time measured between samples that show something, one after the other. *)
Record Dwell := mk_dwell { busy_at : option Z; evidence_us : Z; previous_busy : bool }.
#[export] Instance eta_dwell : Eta Dwell := fun d => mk_dwell (busy_at d) (evidence_us d) (previous_busy d).
Definition no_dwell : Dwell := mk_dwell None 0 false.

Record Controller := mk_controller {
  policy : Policy;
  interval : Z;
  last_now : option Z;
  adjusted : option Z;
  busy_since : Three (option Z);
  remote_dwell : Dwell * Dwell;
  headroom : Dwell;
  source : option Observation;
  unchanged_since : option Z;
  mode : Mode;
  closed : bool;
  report : option Report;
  decisions : list (option Report);
  decision_next : nat
}.
#[export] Instance eta_controller : Eta Controller := fun c =>
  mk_controller (policy c) (interval c) (last_now c) (adjusted c) (busy_since c) (remote_dwell c) (headroom c) (source c)
    (unchanged_since c) (mode c) (closed c) (report c) (decisions c) (decision_next c).

Definition not_busy : Three (option Z) := mk_three None None None.

Definition new (p : Policy) : Result Error Controller :=
  _ ← validate p;
  Ok (mk_controller p (conservative p) None None not_busy (no_dwell, no_dwell) no_dwell None None Active false None
        (replicate 16 None) 0).

(** Oldest first: the slot after the newest. *)
Definition decision_history (c : Controller) : list Report :=
  omap (fun i => mjoin (decisions c !! ((decision_next c + i) mod length (decisions c))%nat))
    (seq 0 (length (decisions c))).

Definition reset_receiver_pressure (c : Controller) : Controller := c <| remote_dwell := (no_dwell, no_dwell) |>.
Definition reset_headroom (c : Controller) : Controller := c <| headroom := no_dwell |>.
Definition reset_receiver_evidence (c : Controller) : Controller := reset_headroom (reset_receiver_pressure c).
Definition reset_evidence (c : Controller) : Controller :=
  (reset_headroom (reset_receiver_pressure (c <| busy_since := not_busy |>))) <| unchanged_since := None |>.

(** ** Timers *)

(** [get_or_insert] while busy. *)
Definition busy_start (now : Z) (busy : bool) (since : option Z) : option Z :=
  if busy then Some (default now since) else None.
Definition busy_for (now : Z) (busy : bool) (since : option Z) : Z := if busy then now - default now since else 0.

(** An old timer starts over; a busy sample adds the time since the one before if
    that was busy too; a paused timer keeps its time and counts neither edge. *)
Definition dwell (now : Z) (busy paused : bool) (d : Dwell) : Dwell :=
  let d := if is_some_and (fun last => MAX_SAMPLE_GAP_US <? now - last) (busy_at d) then no_dwell else d in
  if busy then
    mk_dwell (Some now)
      (match busy_at d with
       | Some last => if previous_busy d then saturating_add u64_max (evidence_us d) (now - last) else evidence_us d
       | None => evidence_us d
       end) true
  else if paused then d <| previous_busy := false |>
  else no_dwell.
Definition dwell_us (busy : bool) (d : Dwell) : Z := if busy then evidence_us d else 0.

Definition pressure_of (s : Sample) (i : Z) : Three bool :=
  mk_three (is_some_and (fun work => i <=? work) (source_work_us s))
    (bool_decide (send s = Blocked)) (bool_decide (capture_credit s = Blocked)).

Definition track_pressure (s : Sample) (c : Controller) : (Three bool * Three Z) * Controller :=
  let pressure := pressure_of s (interval c) in
  ((pressure, map3 (busy_for (now_us s)) pressure (busy_since c)),
   c <| busy_since := map3 (busy_start (now_us s)) pressure (busy_since c) |>).

(** The overloads a receiver reports, and whether it is at ease. *)
Definition remote_of (r : ReceiverEvidence) (i : Z) : (bool * bool) * bool :=
  match r with
  | Unobserved => ((false, false), true)
  | UnknownLoad => ((false, false), false)
  | Measured l =>
      ((1 <? retained_pictures l, is_some_and (fun n => i <=? n) (work_us l)),
       negb (decoding l) && (retained_pictures l <=? 1) && is_some_and (fun n => n <=? i * 3 / 4) (work_us l))
  end.
Definition is_unknown (r : ReceiverEvidence) : bool := match r with UnknownLoad => true | _ => false end.

Definition track_receiver (r : ReceiverEvidence) (now : Z) (c : Controller)
  : (bool * bool) * bool * (Z * Z) * Controller :=
  let remote := fst (remote_of r (interval c)) in
  let d0 := dwell now (fst remote) (is_unknown r) (fst (remote_dwell c)) in
  let d1 := dwell now (snd remote) (is_unknown r) (snd (remote_dwell c)) in
  (remote, snd (remote_of r (interval c)), (dwell_us (fst remote) d0, dwell_us (snd remote) d1),
   c <| remote_dwell := (d0, d1) |>).

Definition track_headroom (now : Z) (ready uncertain : bool) (c : Controller) : Z * Controller :=
  let d := dwell now ready uncertain (headroom c) in
  (dwell_us ready d, c <| headroom := d |>).

(** ** The update *)

Definition observe (incoming : option Observation) (now : Z) : M Controller Error bool := fun c =>
  match incoming with
  | None => (Ok false, c)
  | Some o =>
      if (now <? at_us o)
         || is_some_and (fun old => (at_us o <? at_us old)
                                    || ((at_us o =? at_us old) && negb (Bool.eqb (changed o) (changed old)))) (source c)
      then (Err InvalidObservation, c)
      else if bool_decide (source c = Some o) then (Ok false, c)
      else
        let c := c <| source := Some o |> in
        (Ok (changed o),
         c <| unchanged_since :=
                if changed o || (SOURCE_EVIDENCE_US <? now - at_us o) then None
                else Some (default (at_us o) (unchanged_since c)) |>)
  end.

(** The reason of each of the five timers. *)
Definition load_reasons : list Reason := [SourceWork; SendAdmission; CaptureCredit; ReceiverBacklog; DecoderWork].

Definition adjust_for_load (now : Z) (pressure : Three Z) (remote : Z * Z) (room : Z) (c : Controller)
  : Reason * Controller :=
  let since_adjust := match adjusted c with Some t => now - t | None => u64_max end in
  let lower :=
    if (PROBE_DWELL_US <=? room) && (PROBE_DWELL_US <=? since_adjust) && (minimum_interval_us (policy c) <? interval c)
    then (HeadroomProbe,
          c <| interval := Z.max (interval c - div_ceil (interval c) 8) (minimum_interval_us (policy c)) |>
            <| adjusted := Some now |>
            <| headroom := mk_dwell (Some now) 0 true |>)
    else (Hold, c) in
  match position (fun t => PRESSURE_DWELL_US <=? t) [at0 pressure; at1 pressure; at2 pressure; fst remote; snd remote] with
  | Some index =>
      if (REDUCE_DWELL_US <=? since_adjust) && (interval c <? maximum_interval_us (policy c))
      then (nth index load_reasons Hold,
            reset_headroom (c <| interval := Z.min (interval c * 2) (maximum_interval_us (policy c)) |>
                              <| adjusted := Some now |>))
      else lower
  | None => lower
  end.

(** After a gap between samples nothing measured before it counts. *)
Definition note_gap (now : Z) (gap : bool) (c : Controller) : Reason * Controller :=
  if gap then
    (EvidenceGap,
     (reset_evidence c) <| mode := Active |> <| interval := Z.max (interval c) (conservative (policy c)) |>
                        <| adjusted := Some now |>)
  else (Hold, c).

Definition old_source (now : Z) (c : Controller) : bool :=
  is_some_and (fun o => SOURCE_EVIDENCE_US <? now - at_us o) (source c).

Definition note_stale (now : Z) (reason : Reason) (c : Controller) : Reason * Controller :=
  if old_source now c then
    let c := reset_headroom (c <| unchanged_since := None |>) in
    if bool_decide (mode c = Idle) then (EvidenceGap, c <| mode := Active |>) else (reason, c)
  else (reason, c).

Definition is_fresh (now : Z) (c : Controller) : bool :=
  is_some_and (fun o => now - at_us o <=? SOURCE_EVIDENCE_US) (source c).
Definition is_idle (now : Z) (c : Controller) : bool :=
  is_fresh now c
  && is_some_and (fun o => negb (changed o)
                           && is_some_and (fun t => IDLE_DWELL_US <=? at_us o - t) (unchanged_since c)) (source c).

(** Waking up, and falling asleep. *)
Definition switch_mode (now : Z) (changed idle pressed : bool) (reason : Reason) (c : Controller) : Reason * Controller :=
  if changed && bool_decide (mode c = Idle) then
    let c := c <| mode := Active |> in
    let c := if pressed then c else c <| interval := conservative (policy c) |> in
    (ChangedAfterIdle, reset_headroom (c <| adjusted := Some now |>))
  else if idle && negb (bool_decide (mode c = Idle)) then
    (VerifiedIdle,
     reset_headroom (c <| mode := Idle |> <| interval := maximum_interval_us (policy c) |> <| adjusted := Some now |>))
  else (reason, c).

Definition has_headroom (s : Sample) (receiver_ready idle : bool) (c : Controller) : bool :=
  receiver_ready && is_fresh (now_us s) c && negb idle && bool_decide (mode c = Active)
  && is_some_and (fun work => work <=? interval c * 3 / 4) (source_work_us s)
  && bool_decide (send s = Ready) && bool_decide (capture_credit s = Ready).
Definition is_uncertain (s : Sample) (overloaded idle : bool) (c : Controller) : bool :=
  negb overloaded && is_fresh (now_us s) c && negb idle && bool_decide (mode c = Active)
  && is_none_or (fun work => work <=? interval c * 3 / 4) (source_work_us s)
  && negb (bool_decide (send s = Blocked)) && negb (bool_decide (capture_credit s = Blocked)).

(** What follows a valid observation. *)
Definition decide_interval (s : Sample) (r : ReceiverEvidence) (previous : Z) (reason : Reason) (changed : bool)
  (c : Controller) : Report * Controller :=
  let now := now_us s in
  let '((pressure, pressure_us), c) := track_pressure s c in
  let '(remote, receiver_ready, receiver_pressure_us, c) := track_receiver r now c in
  let idle := is_idle now c in
  let '(reason, c) := switch_mode now changed idle (contains3 pressure || contains2 remote) reason c in
  let '(headroom_us, c) :=
    track_headroom now (has_headroom s receiver_ready idle c) (is_uncertain s (contains2 remote) idle c) c in
  let '(reason, c) :=
    if bool_decide (reason = Hold) && bool_decide (mode c = Active)
    then adjust_for_load now pressure_us receiver_pressure_us headroom_us c else (reason, c) in
  (mk_report s previous (interval c) (mode c) reason pressure_us headroom_us r receiver_pressure_us, c).

Definition update_inner (s : Sample) (r : ReceiverEvidence) : M Controller Error Report := fun c =>
  let now := now_us s in
  let previous := interval c in
  if is_some_and (fun t => now <? t) (last_now c) then (Err ClockRegression, c)
  else
    let gap := is_some_and (fun t => MAX_SAMPLE_GAP_US <? now - t) (last_now c) in
    let '(reason, c) := note_gap now gap (c <| last_now := Some now |>) in
    let '(reason, c) := note_stale now reason c in
    match observe (observation s) now c with
    | (Err e, c) => (Err e, c)
    | (Ok changed, c) => let (rep, c) := decide_interval s r previous reason changed c in (Ok rep, c)
    end.

Definition remember (rep : Report) (c : Controller) : Controller :=
  let c := c <| report := Some rep |> in
  if bool_decide (reason rep = Hold) then c
  else c <| decisions := <[decision_next c := Some rep]> (decisions c) |>
         <| decision_next := ((decision_next c + 1) mod length (decisions c))%nat |>.

Definition update_with_receiver (s : Sample) (r : ReceiverEvidence) : M Controller Error Report := fun c =>
  if closed c then (Err Closed, c)
  else
    match update_inner s r c with
    | (Ok rep, c) => (Ok rep, remember rep c)
    | (Err e, c) => (Err e, c <| closed := true |>)
    end.
Definition update (s : Sample) : M Controller Error Report := update_with_receiver s Unobserved.

(** ** Calls *)

Inductive Op :=
| Update (s : Sample) (r : ReceiverEvidence)
| ResetReceiverPressure
| ResetReceiverEvidence.

(** The reports of a call, and the controller after it. *)
Definition step (op : Op) (c : Controller) : list Report * Controller :=
  match op with
  | Update s r => match update_with_receiver s r c with (Ok rep, c) => ([rep], c) | (Err _, c) => ([], c) end
  | ResetReceiverPressure => ([], reset_receiver_pressure c)
  | ResetReceiverEvidence => ([], reset_receiver_evidence c)
  end.

Fixpoint run (ops : list Op) (c : Controller) : list Report * Controller :=
  match ops with
  | [] => ([], c)
  | op :: ops => let (rs, c) := step op c in let (rs', c) := run ops c in (rs ++ rs', c)
  end.

End Pacing.
