(* ===== verification/PacingClaims.v ===== *)
(** Capture pacing: the branches of one update and the invariant, the evidence behind
    decisions over whole histories, and the pace of reductions. *)

From S2P Require Import Prelude.
From S2P Require Import WireMedia.
From S2P Require Import WireView.
From S2P Require Import Pacing.

(** * Capture pacing: what an update does

    The branches of an update, the invariant of the controller, and the relation of
    its timers to the reports it made: time counts only between adjacent reports
    that both show what the timer measures. *)

Module PacingProps.
Import Media(div_ceil).
Import MetricsMsg(Load, retained_pictures, decoding, work_us).
Import Pacing.

(** ** The branches *)

Section branches.
Context (s : Sample) (r : ReceiverEvidence) (rs : Reason) (ch : bool) (c : Controller).

Definition pressed : Three bool := pressure_of s (interval c).
Definition overload : bool * bool := fst (remote_of r (interval c)).
Definition at_ease : bool := snd (remote_of r (interval c)).
Definition asleep : bool := is_idle (now_us s) c.
Definition room : bool := has_headroom s at_ease asleep c.
Definition unsure : bool := is_uncertain s (contains2 overload) asleep c.
Definition local_us : Three Z := map3 (busy_for (now_us s)) pressed (busy_since c).
Definition remote0 : Dwell := dwell (now_us s) (fst overload) (is_unknown r) (fst (remote_dwell c)).
Definition remote1 : Dwell := dwell (now_us s) (snd overload) (is_unknown r) (snd (remote_dwell c)).
Definition remote_us : Z * Z := (dwell_us (fst overload) remote0, dwell_us (snd overload) remote1).
Definition room_dwell : Dwell := dwell (now_us s) room unsure (headroom c).
Definition since_adjust : Z := match adjusted c with Some t => now_us s - t | None => u64_max end.
Definition pressing : option nat :=
  position (fun t => PRESSURE_DWELL_US <=? t) [at0 local_us; at1 local_us; at2 local_us; fst remote_us; snd remote_us].

(** What a report can tell of the headroom, against an interval. *)
Definition room_at (i : Z) : bool :=
  at_ease && is_some_and (fun work => work <=? i * 3 / 4) (source_work_us s)
  && bool_decide (send s = Ready) && bool_decide (capture_credit s = Ready).
(** The interval after waking up. *)
Definition woken : Z := if contains3 pressed || contains2 overload then interval c else conservative (policy c).

(** The reason, interval, mode, time of the last adjustment, headroom timer and
    headroom time an update ends with. *)
Inductive decided : Reason -> Z -> Mode -> option Z -> Dwell -> Z -> Prop :=
| Kept :
    ch = false \/ mode c = Active ->
    (rs = Hold -> mode c = Active ->
     pressing = None \/ since_adjust < REDUCE_DWELL_US \/ maximum_interval_us (policy c) <= interval c) ->
    decided rs (interval c) (mode c) (adjusted c) room_dwell (dwell_us room room_dwell)
| Woke ready paused :
    ch = true -> mode c = Idle -> (ready = true -> room_at woken = true) ->
    decided ChangedAfterIdle woken Active (Some (now_us s))
      (dwell (now_us s) ready paused no_dwell) (dwell_us ready (dwell (now_us s) ready paused no_dwell))
| Slept :
    asleep = true -> mode c = Active ->
    decided VerifiedIdle (maximum_interval_us (policy c)) Idle (Some (now_us s)) no_dwell 0
| Slowed index :
    rs = Hold -> mode c = Active -> pressing = Some index -> REDUCE_DWELL_US <= since_adjust ->
    interval c < maximum_interval_us (policy c) ->
    decided (nth index load_reasons Hold) (Z.min (interval c * 2) (maximum_interval_us (policy c))) Active
      (Some (now_us s)) no_dwell (dwell_us room room_dwell)
| Probed :
    rs = Hold -> mode c = Active -> PROBE_DWELL_US <= dwell_us room room_dwell -> PROBE_DWELL_US <= since_adjust ->
    minimum_interval_us (policy c) < interval c ->
    decided HeadroomProbe (Z.max (interval c - div_ceil (interval c) 8) (minimum_interval_us (policy c))) Active
      (Some (now_us s)) (mk_dwell (Some (now_us s)) 0 true) (dwell_us room room_dwell).

(** What the decision leaves behind besides. *)
Record decision (rep : Report) (c' : Controller) : Prop := {
  dc_sample : sample rep = s;
  dc_receiver : receiver rep = r;
  dc_interval : interval_us rep = interval c';
  dc_mode : r_mode rep = mode c';
  dc_local_us : pressure_us rep = local_us;
  dc_remote_us : receiver_pressure_us rep = remote_us;
  dc_busy : busy_since c' = map3 (busy_start (now_us s)) pressed (busy_since c);
  dc_remote : remote_dwell c' = (remote0, remote1);
  dc_policy : policy c' = policy c;
  dc_now : last_now c' = last_now c;
  dc_source : source c' = source c;
  dc_unchanged : unchanged_since c' = unchanged_since c;
  dc_closed : closed c' = closed c;
  dc_decisions : decisions c' = decisions c;
  dc_next : decision_next c' = decision_next c;
  dc_decided : decided (reason rep) (interval c') (mode c') (adjusted c') (headroom c') (headroom_us rep)
}.
End branches.

(** Everything but the interval, the mode, the last adjustment and the headroom. *)
Record framed (c c' : Controller) : Prop := {
  fr_policy : policy c' = policy c;
  fr_now : last_now c' = last_now c;
  fr_busy : busy_since c' = busy_since c;
  fr_remote : remote_dwell c' = remote_dwell c;
  fr_source : source c' = source c;
  fr_unchanged : unchanged_since c' = unchanged_since c;
  fr_closed : closed c' = closed c;
  fr_decisions : decisions c' = decisions c;
  fr_next : decision_next c' = decision_next c
}.

Lemma controller_framed_refl c : framed c c.
Proof. by split. Qed.

Lemma controller_framed_trans c1 c2 c3 : framed c1 c2 -> framed c2 c3 -> framed c1 c3.
Proof. intros [] []. split; congruence. Qed.

Lemma switch_mode_spec now ch idle busy rs c :
  let rc := switch_mode now ch idle busy rs c in
  framed c (snd rc)
  /\ ((ch = false \/ mode c = Active) /\ rc = (rs, c)
      \/ ch = true /\ mode c = Idle /\ fst rc = ChangedAfterIdle /\ mode (snd rc) = Active
         /\ interval (snd rc) = (if busy then interval c else conservative (policy c))
         /\ adjusted (snd rc) = Some now /\ headroom (snd rc) = no_dwell
      \/ idle = true /\ mode c = Active /\ fst rc = VerifiedIdle /\ mode (snd rc) = Idle
         /\ interval (snd rc) = maximum_interval_us (policy c)
         /\ adjusted (snd rc) = Some now /\ headroom (snd rc) = no_dwell).
Proof.
  unfold switch_mode. destruct (ch && bool_decide (mode c = Idle)) eqn:Ew.
  - apply andb_true_iff in Ew as [-> Ei%bool_decide_eq_true]. destruct busy; (split; [by split|]); right; left; done.
  - destruct (idle && negb (bool_decide (mode c = Idle))) eqn:Es.
    + apply andb_true_iff in Es as [-> Em%negb_true_iff%bool_decide_eq_false]. split; [by split|]. right; right.
      destruct (mode c); done.
    + split; [apply controller_framed_refl|]. left. split; [|done]. apply andb_false_iff in Ew as [->|Em%bool_decide_eq_false]; [by left|right].
      by destruct (mode c).
Qed.

Lemma adjust_spec now lo rem hr c :
  let rc := adjust_for_load now lo rem hr c in
  let since := match adjusted c with Some t => now - t | None => u64_max end in
  let pos := position (fun t => PRESSURE_DWELL_US <=? t) [at0 lo; at1 lo; at2 lo; fst rem; snd rem] in
  framed c (snd rc) /\ mode (snd rc) = mode c
  /\ (rc = (Hold, c) /\ (pos = None \/ since < REDUCE_DWELL_US \/ maximum_interval_us (policy c) <= interval c)
      \/ (exists index, pos = Some index /\ REDUCE_DWELL_US <= since /\ interval c < maximum_interval_us (policy c)
          /\ fst rc = nth index load_reasons Hold /\ interval (snd rc) = Z.min (interval c * 2) (maximum_interval_us (policy c))
          /\ adjusted (snd rc) = Some now /\ headroom (snd rc) = no_dwell)
      \/ PROBE_DWELL_US <= hr /\ PROBE_DWELL_US <= since /\ minimum_interval_us (policy c) < interval c
         /\ fst rc = HeadroomProbe
         /\ interval (snd rc) = Z.max (interval c - div_ceil (interval c) 8) (minimum_interval_us (policy c))
         /\ adjusted (snd rc) = Some now /\ headroom (snd rc) = mk_dwell (Some now) 0 true).
Proof.
  cbv zeta. unfold adjust_for_load. set (since := match adjusted c with Some _ => _ | None => _ end).
  set (pos := position _ _). 
  destruct ((PROBE_DWELL_US <=? hr) && (PROBE_DWELL_US <=? since) && (minimum_interval_us (policy c) <? interval c)) eqn:Ep.
  - apply andb_true_iff in Ep as [[?%Z.leb_le ?%Z.leb_le]%andb_true_iff ?%Z.ltb_lt].
    destruct pos as [index|]; [destruct ((REDUCE_DWELL_US <=? since) && _) eqn:Er|].
    + apply andb_true_iff in Er as [?%Z.leb_le ?%Z.ltb_lt]. split; [by split|]. split; [done|]. right; left. by exists index.
    + split; [by split|]. split; [done|]. right; right. done.
    + split; [by split|]. split; [done|]. right; right. done.
  - destruct pos as [index|]; [destruct ((REDUCE_DWELL_US <=? since) && _) eqn:Er|].
    + apply andb_true_iff in Er as [?%Z.leb_le ?%Z.ltb_lt]. split; [by split|]. split; [done|]. right; left. by exists index.
    + split; [by split|]. split; [done|]. left. split; [done|]. right.
      apply andb_false_iff in Er as [?%Z.leb_gt|?%Z.ltb_ge]; [by left|by right].
    + split; [by split|]. split; [done|]. left. auto.
Qed.

Lemma has_headroom_room_at s r idle (c c3 : Controller) : has_headroom s (at_ease r c) idle c3 = true ->
  room_at s r c (interval c3) = true.
Proof. unfold has_headroom, room_at. intros H. by rewrite !andb_true_iff in *; naive_solver. Qed.

Lemma dwell_slept now : dwell now false false no_dwell = no_dwell.
Proof. done. Qed.

Lemma decide_interval_spec s r rs ch c prev rep c' : decide_interval s r prev rs ch c = (rep, c') ->
  previous_interval_us rep = prev /\ decision s r rs ch c rep c'.
Proof.
  unfold decide_interval, track_pressure, track_receiver.
  set (c1 := c <| busy_since := _ |>). set (c2 := c1 <| remote_dwell := _ |>).
  pose proof (switch_mode_spec (now_us s) ch (is_idle (now_us s) c2)
    (contains3 (pressure_of s (interval c)) || contains2 (fst (remote_of r (interval c1)))) rs c2) as [F3 H3].
  destruct (switch_mode _ _ _ _ _ _) as [rs3 c3]. cbn [fst snd] in F3, H3.
  unfold track_headroom. set (rdy := has_headroom _ _ _ c3). set (uns := is_uncertain _ _ _ c3).
  set (d := dwell _ rdy uns (headroom c3)). set (c4 := c3 <| headroom := d |>).
  assert (framed c2 c4) as F4 by (eapply controller_framed_trans; [exact F3|by split]).
  destruct (bool_decide (rs3 = Hold) && bool_decide (mode c4 = Active)) eqn:Ea.
  - apply andb_true_iff in Ea as [->%bool_decide_eq_true Em%bool_decide_eq_true].
    destruct H3 as [[Hc [= <- ->]]|[(_ & _ & ? & _)|(_ & _ & ? & _)]]; [|done|done].
    match goal with |- context [adjust_for_load ?a ?b ?x ?y c4] => pose proof (adjust_spec a b x y c4) as (F5 & Hm & H5);
      destruct (adjust_for_load a b x y c4) as [rs5 c5] end. cbn [fst snd] in *.
    intros [= <- <-]. split; [done|].
    assert (framed c2 c5) as [] by (eapply controller_framed_trans; [exact F4|exact F5]). split; try done.
    cbn [reason headroom_us]. rewrite Hm. destruct H5 as [[[= -> ->] Hk]|[(index & Hp & Hd & Hi & -> & -> & -> & ->)|(Hp & Hd & Hi & -> & -> & -> & ->)]].
    + by apply (Kept s r Hold ch c).
    + rewrite Em. by apply (Slowed s r Hold ch c index).
    + rewrite Em. by apply (Probed s r Hold ch c).
  - intros [= <- <-]. split; [done|]. destruct F4. split; try done. cbn [reason headroom_us].
    destruct H3 as [[Hc [= -> ->]]|[(-> & Hm & -> & Hm3 & Hi & Hadj & Hh)|(Hid & Hm & -> & Hm3 & Hi & Hadj & Hh)]].
    + apply (Kept s r rs ch c); [done|]. intros -> Hm. exfalso. by rewrite !bool_decide_eq_true_2 in Ea.
    + change (mode c4) with (mode c3). change (interval c4) with (interval c3). change (adjusted c4) with (adjusted c3).
      rewrite Hm3, Hi, Hadj. change (headroom c4) with d. subst d. rewrite Hh.
      apply (Woke s r rs true c rdy uns); [done|done|]. intros Hr%has_headroom_room_at. by rewrite Hi in Hr.
    + change (mode c4) with (mode c3). change (interval c4) with (interval c3). change (adjusted c4) with (adjusted c3).
      rewrite Hm3, Hi, Hadj. change (headroom c4) with d. subst d. rewrite Hh.
      assert (rdy = false) as -> by (unfold rdy, has_headroom; rewrite Hm3; rewrite !andb_false_iff; auto 10).
      assert (uns = false) as -> by (unfold uns, is_uncertain; rewrite Hm3; rewrite !andb_false_iff; auto 10).
      by apply (Slept s r rs ch c).
Qed.

(** ** The invariant *)

Definition clock (c : Controller) : Z := default 0 (last_now c).

(** Times in the past of the clock, so that no subtraction of one from the time of
    an update is out of range. *)
Definition past (now : Z) (o : option Z) : Prop := forall t, o = Some t -> t <= now.

Record bounded (c : Controller) : Prop := {
  bd_policy : validate (policy c) = Ok tt;
  bd_interval : minimum_interval_us (policy c) <= interval c <= maximum_interval_us (policy c);
  bd_idle : mode c = Idle -> interval c = maximum_interval_us (policy c);
  bd_ring : length (decisions c) = 16%nat /\ (decision_next c < 16)%nat
}.

Record timed (now : Z) (c : Controller) : Prop := {
  tm_adjusted : past now (adjusted c);
  tm_busy : past now (at0 (busy_since c)) /\ past now (at1 (busy_since c)) /\ past now (at2 (busy_since c));
  tm_remote : past now (busy_at (fst (remote_dwell c))) /\ past now (busy_at (snd (remote_dwell c)));
  tm_headroom : past now (busy_at (headroom c));
  tm_source o : source c = Some o -> at_us o <= now;
  tm_unchanged t : unchanged_since c = Some t -> exists o, source c = Some o /\ t <= at_us o
}.

Record inv (c : Controller) : Prop := { iv_bounded : bounded c; iv_timed : timed (clock c) c }.

Lemma past_none now : past now None.
Proof. done. Qed.
Lemma past_some now t : t <= now -> past now (Some t).
Proof. by intros H t' [= <-]. Qed.
Lemma past_mono a b o : a <= b -> past a o -> past b o.
Proof. intros H Ho t E. specialize (Ho t E). lia. Qed.
#[local] Hint Resolve past_none past_some past_mono : core.

Lemma timed_mono a b c : a <= b -> timed a c -> timed b c.
Proof.
  intros H [A [B1 [B2 B3]] [C1 C2] D E F]. split; eauto 6. intros o Ho. specialize (E o Ho). lia.
Qed.

Lemma busy_start_past now b o : past now o -> past now (busy_start now b o).
Proof. unfold busy_start. destruct b; [|done]. destruct o as [t|]; intros H; apply past_some; cbn; [by apply H|lia]. Qed.

Lemma dwell_past now b p d : past now (busy_at d) -> past now (busy_at (dwell now b p d)).
Proof.
  intros H. unfold dwell. destruct (is_some_and _ _), b, p; cbn; auto; by apply past_some.
Qed.

Lemma conservative_bounds p : validate p = Ok tt ->
  1000 <= minimum_interval_us p <= conservative p /\ conservative p <= maximum_interval_us p <= 1000000
  /\ (minimum_interval_us p = maximum_interval_us p \/ maximum_interval_us p <= 200000).
Proof.
  unfold validate, conservative. destruct (_ || _) eqn:E; [done|]. intros _.
  apply orb_false_iff in E as [[[?%Z.ltb_ge ?%Z.ltb_ge]%orb_false_iff ?%Z.ltb_ge]%orb_false_iff E4].
  split; [lia|]. split; [lia|]. apply andb_false_iff in E4 as [?%Z.ltb_ge|?%negb_false_iff%Z.eqb_eq]; [right|left]; lia.
Qed.

Lemma pacing_div_ceil_bounds i : 0 < i -> 0 < div_ceil i 8 <= i.
Proof.
  intros H. unfold div_ceil. pose proof (Z.div_mod i 8 ltac:(lia)). pose proof (Z.mod_pos_bound i 8 ltac:(lia)).
  destruct (0 <? i mod 8) eqn:E; [apply Z.ltb_lt in E|apply Z.ltb_ge in E]; lia.
Qed.

(** A decision keeps the invariant. *)
Lemma decision_bounded s r rs ch c rep c' : bounded c -> decision s r rs ch c rep c' -> bounded c'.
Proof.
  intros [P I L R] D. destruct D as [_ _ _ _ _ _ _ _ Hp _ _ _ _ Hd Hn H].
  pose proof (conservative_bounds _ P) as (C1 & C2 & _). pose proof (pacing_div_ceil_bounds (interval c)).
  split; rewrite ?Hp, ?Hd, ?Hn; try done.
  - remember (interval c') as i' eqn:E. clear E Hp. destruct H; try lia. unfold woken. destruct (contains3 _ || contains2 _); lia.
  - clear Hd Hn Hp. destruct H; done.
Qed.

Lemma decision_timed s r rs ch c rep c' : timed (now_us s) c -> decision s r rs ch c rep c' -> timed (now_us s) c'.
Proof.
  intros [A [B1 [B2 B3]] [C1 C2] T E F] D. destruct D as [_ _ _ _ _ _ Hb Hr _ _ Hs Hu _ _ _ H].
  split; rewrite ?Hb, ?Hr, ?Hs, ?Hu; try done.
  - destruct H; auto; by apply past_some.
  - split_and!; by apply busy_start_past.
  - split; by apply dwell_past.
  - destruct H; auto; try by apply dwell_past. by apply past_some.
Qed.

(** ** Before the decision *)

Definition gapped (now : Z) (c : Controller) : bool :=
  is_some_and (fun t => MAX_SAMPLE_GAP_US <? now - t) (last_now c).

(** What the clock, the age of the source and its observation make of the
    controller. *)
Record prepared (now : Z) (c c1 : Controller) (rs : Reason) : Prop := {
  pr_clock : past now (last_now c);
  pr_now : last_now c1 = Some now;
  pr_policy : policy c1 = policy c;
  pr_closed : closed c1 = closed c;
  pr_decisions : decisions c1 = decisions c;
  pr_next : decision_next c1 = decision_next c;
  pr_timed : timed now c1;
  pr_case :
    gapped now c = false /\ busy_since c1 = busy_since c /\ remote_dwell c1 = remote_dwell c
    /\ adjusted c1 = adjusted c /\ interval c1 = interval c
    /\ (rs = Hold /\ mode c1 = mode c /\ (headroom c1 = headroom c \/ headroom c1 = no_dwell)
        \/ rs = EvidenceGap /\ mode c = Idle /\ mode c1 = Active /\ headroom c1 = no_dwell)
    \/ gapped now c = true /\ busy_since c1 = not_busy /\ remote_dwell c1 = (no_dwell, no_dwell)
       /\ adjusted c1 = Some now /\ interval c1 = Z.max (interval c) (conservative (policy c))
       /\ rs = EvidenceGap /\ mode c1 = Active /\ headroom c1 = no_dwell
}.

Lemma reset_timed now c : timed now c -> timed now (reset_evidence c).
Proof. intros [A B C D E F]. split; try done. Qed.

(** The two steps before the observation. *)
Lemma notes_prepared now c : inv c -> 0 <= now -> past now (last_now c) ->
  let rc := note_gap now (gapped now c) (c <| last_now := Some now |>) in
  let rc := note_stale now (fst rc) (snd rc) in
  prepared now c (snd rc) (fst rc).
Proof.
  intros [B T] Hn Hp. assert (clock c <= now) as Hc.
  { unfold clock. destruct (last_now c) as [t|]; cbn; [by apply Hp|done]. }
  pose proof (timed_mono _ now _ Hc T) as [TA TB TC TD TE TF].
  unfold note_gap, note_stale. destruct (gapped now c) eqn:Eg; cbn [fst snd].
  - destruct (old_source _ _); [rewrite bool_decide_eq_false_2 by done|]; cbn [fst snd];
      (split; try done; [split; try done; by apply past_some|right; by rewrite Eg]).
  - destruct (old_source _ _); [case_bool_decide as Hm|]; cbn [fst snd];
      (split; try done; [left; rewrite Eg; split_and!; try done; naive_solver]).
Qed.

Lemma observe_timed o now c : timed now c ->
  match observe o now c with
  | (Ok ch, c1) => framed (c <| source := source c1 |> <| unchanged_since := unchanged_since c1 |>) c1
      /\ interval c1 = interval c /\ mode c1 = mode c /\ adjusted c1 = adjusted c /\ headroom c1 = headroom c /\ timed now c1
  | (Err _, c1) => c1 = c
  end.
Proof.
  intros T. unfold observe. destruct o as [o|]; [|split; [by split|done]].
  destruct (_ || _) eqn:Eo; [done|]. case_bool_decide; [split; [by split|done]|].
  split; [by split|]. split_and!; try done. apply orb_false_iff in Eo as [Ho%Z.ltb_ge Hold].
  destruct T as [TA TB TC TD TE TF]. split; try done.
  - intros o' E. change (Some o = Some o') in E. injection E as <-. done.
  - intros t E. exists o. split; [done|].
    change ((if changed o || (SOURCE_EVIDENCE_US <? now - at_us o) then None else Some (default (at_us o) (unchanged_since c))) = Some t) in E.
    destruct (_ || _) in E; [done|]. injection E as <-. destruct (unchanged_since c) as [t|] eqn:Eu; cbn; [|done].
    destruct (TF t eq_refl) as (old & Eold & Hle). rewrite Eold in Hold. cbn in Hold.
    apply orb_false_iff in Hold as [?%Z.ltb_ge _]. lia.
Qed.

Lemma prepared_observed now c c1 rs o ch c2 : prepared now c c1 rs -> observe o now c1 = (Ok ch, c2) -> prepared now c c2 rs.
Proof.
  intros [P1 P2 P3 P4 P5 P6 P7 P8] E. pose proof (observe_timed o now c1 P7) as Ho. rewrite E in Ho.
  destruct Ho as ([F1 F2 F3 F4 _ _ F7 F8 F9] & I & Mo & A & H & T).
  change (policy c2 = policy c1) in F1. change (last_now c2 = last_now c1) in F2. change (busy_since c2 = busy_since c1) in F3.
  change (remote_dwell c2 = remote_dwell c1) in F4. change (closed c2 = closed c1) in F7.
  change (decisions c2 = decisions c1) in F8. change (decision_next c2 = decision_next c1) in F9.
  split; [done|congruence|congruence|congruence|congruence|congruence|done|]. by rewrite F3, F4, A, I, Mo, H.
Qed.

Lemma observe_changed o now c c1 : observe o now c = (Ok true, c1) -> exists o', o = Some o' /\ changed o' = true.
Proof.
  unfold observe. destruct o as [o|]; [|done]. destruct (_ || _); [done|]. case_bool_decide; [done|]. intros [= E _]. eauto.
Qed.

Lemma update_inner_spec s r c : inv c -> 0 <= now_us s ->
  match update_inner s r c with
  | (Ok rep, c') => exists rs ch c1, prepared (now_us s) c c1 rs /\ previous_interval_us rep = interval c
                      /\ decision s r rs ch c1 rep c'
                      /\ (ch = true -> exists o, observation s = Some o /\ changed o = true)
  | (Err _, c') => c' = c \/ exists rs, prepared (now_us s) c c' rs
  end.
Proof.
  intros Hi Hn. unfold update_inner. destruct (is_some_and (fun t => now_us s <? t) (last_now c)) eqn:El; [by left|].
  assert (past (now_us s) (last_now c)) as Hp.
  { intros t E. rewrite E in El. by apply Z.ltb_ge. }
  pose proof (notes_prepared _ _ Hi Hn Hp) as HP. cbv zeta in HP. fold (gapped (now_us s) c).
  destruct (note_gap _ _ _) as [rs0 c0]. cbn [fst snd] in HP. destruct (note_stale _ _ _) as [rs1 c1]. cbn [fst snd] in HP.
  destruct (observe (observation s) (now_us s) c1) as [[ch|e] c2] eqn:Eo.
  - pose proof (prepared_observed _ _ _ _ _ _ _ HP Eo) as HP2.
    destruct (decide_interval _ _ _ _ _ _) as [rep c'] eqn:Ed. apply decide_interval_spec in Ed as [Hv Hd].
    exists rs1, ch, c2. split_and!; try done. intros ->. by apply observe_changed in Eo.
  - right. exists rs1. pose proof (observe_timed (observation s) (now_us s) c1 (pr_timed _ _ _ _ HP)) as Ho. rewrite Eo in Ho. by subst.
Qed.

Lemma prepared_inv now c c1 rs : inv c -> prepared now c c1 rs -> inv c1.
Proof.
  intros [[P I L R] T] [P1 P2 P3 P4 P5 P6 P7 P8]. pose proof (conservative_bounds _ P) as (C1 & C2 & _).
  split; [|unfold clock; by rewrite P2].
  split; rewrite ?P3, ?P5, ?P6; try done; destruct P8 as [(_ & _ & _ & _ & Hi & Hm)|(_ & _ & _ & _ & Hi & _ & Hm & _)]; rewrite Hi; try lia.
  - destruct Hm as [(_ & -> & _)|(_ & _ & -> & _)]; done.
  - by rewrite Hm.
Qed.

Lemma decided_inv now s r rs ch c1 rep c' : now = now_us s -> last_now c1 = Some now -> inv c1 -> decision s r rs ch c1 rep c' -> inv c'.
Proof.
  intros -> Hl [B T] D. unfold clock in T. rewrite Hl in T. split; [by eapply decision_bounded|].
  unfold clock. rewrite (dc_now _ _ _ _ _ _ _ D), Hl. by eapply decision_timed.
Qed.

Lemma remember_inv rep c : inv c -> inv (remember rep c).
Proof.
  intros [[P I L [R1 R2]] [TA TB TC TD TE TF]]. unfold remember. case_bool_decide; [done|].
  split; split; try done. cbn -[Nat.modulo]. rewrite length_insert, R1. split; [done|]. by apply Nat.mod_upper_bound.
Qed.

End PacingProps.

(** * Capture pacing: why the interval changes

    The controller never sees its own past: it keeps a timer per kind of evidence.
    Here the timers are related to the reports made so far, and every change of the
    capture interval to the samples that called for it. *)

Module PacingClaims.
Import Media(div_ceil).
Import MetricsMsg(Load, retained_pictures, decoding, work_us).
Import Pacing PacingProps.

(** ** Evidence in the reports *)

Definition time (r : Report) : Z := now_us (sample r).
Definition shorter (r : Report) : Z := Z.min (previous_interval_us r) (interval_us r).
Definition longer (r : Report) : Z := Z.max (previous_interval_us r) (interval_us r).
Definition load_of (r : Report) : option Load := match receiver r with Measured l => Some l | _ => None end.

(** The sample of a report shows the named overload; for a probe, that there is
    headroom against the longer of the intervals before and after it. *)
Definition shows (cause : Reason) (r : Report) : bool :=
  match cause with
  | SourceWork => is_some_and (fun w => shorter r <=? w) (source_work_us (sample r))
  | SendAdmission => bool_decide (send (sample r) = Blocked)
  | CaptureCredit => bool_decide (capture_credit (sample r) = Blocked)
  | ReceiverBacklog => is_some_and (fun l => 1 <? retained_pictures l) (load_of r)
  | DecoderWork => is_some_and (fun l => is_some_and (fun n => shorter r <=? n) (work_us l)) (load_of r)
  | HeadroomProbe =>
      bool_decide (send (sample r) = Ready) && bool_decide (capture_credit (sample r) = Ready)
      && is_some_and (fun w => w <=? longer r * 3 / 4) (source_work_us (sample r))
      && match receiver r with
         | Unobserved => true
         | UnknownLoad => false
         | Measured l => negb (decoding l) && (retained_pictures l <=? 1)
                         && is_some_and (fun n => n <=? longer r * 3 / 4) (work_us l)
         end
  | _ => false
  end.

(** The sample does not speak against headroom. *)
Definition quiet (r : Report) : bool :=
  bool_decide (r_mode r = Active)
  && negb (bool_decide (send (sample r) = Blocked)) && negb (bool_decide (capture_credit (sample r) = Blocked))
  && is_none_or (fun w => w <=? longer r * 3 / 4) (source_work_us (sample r))
  && is_none_or (fun l => (retained_pictures l <=? 1) && is_none_or (fun n => n <? longer r) (work_us l)) (load_of r).

(** A report that ends what was measured before it. *)
Definition breaks (cause : Reason) (r : Report) : bool :=
  match cause with
  | ReceiverBacklog | DecoderWork => negb (shows cause r) && negb (is_unknown (receiver r))
  | HeadroomProbe => negb (bool_decide (reason r = Hold)) || negb (quiet r)
  | _ => negb (shows cause r)
  end.

(** Two reports, the newer one first, between which the cause was seen. *)
Definition near (r r0 : Report) : bool := time r - time r0 <=? MAX_SAMPLE_GAP_US.
Definition linked (cause : Reason) (r r0 : Report) : bool := shows cause r && shows cause r0 && near r r0.

(** The reports, newest first, are in the order of their times. *)
Definition follows (now : Z) (log : list Report) : Prop :=
  match log with [] => True | r :: _ => time r <= now end.
Fixpoint in_order (log : list Report) : Prop :=
  match log with [] => True | r :: rest => follows (time r) rest /\ in_order rest end.

Lemma in_order_time r log : in_order (r :: log) -> forall r0, r0 ∈ log -> time r0 <= time r.
Proof.
  revert r. induction log as [|r1 log IH]; intros r [Hf Ho] r0 Hin; [by apply not_elem_of_nil in Hin|].
  apply elem_of_cons in Hin as [->|Hin]; [done|]. specialize (IH r1 Ho r0 Hin). cbn in Hf. lia.
Qed.

Section measure.
Context (joins : Report -> Report -> bool) (ends : Report -> bool).

(** The time between adjacent reports that are joined, newest first, back to the
    report that ends it. *)
Fixpoint measured_by (log : list Report) : Z :=
  match log with
  | r :: ((r0 :: _) as rest) => (if joins r r0 then time r - time r0 else 0) + (if ends r0 then 0 else measured_by rest)
  | _ => 0
  end.

(** What a timer may still count on. *)
Definition credit_by (log : list Report) : Z :=
  match log with [] => 0 | r :: _ => if ends r then 0 else measured_by log end.

Lemma measured_by_nonneg log : in_order log -> 0 <= measured_by log.
Proof using Type.
  induction log as [|r [|r0 rest] IH]; [done|done|]. intros [Hf Ho]. specialize (IH Ho). cbn in Hf.
  cbn -[Z.sub]. cbn in IH. destruct (joins r r0), (ends r0); lia.
Qed.

Lemma credit_by_nonneg log : in_order log -> 0 <= credit_by log.
Proof using Type.
  destruct log as [|r log]; [done|]. intros Ho. unfold credit_by. destruct (ends r); [done|by apply measured_by_nonneg].
Qed.

Lemma measured_by_cons r log : measured_by (r :: log) =
  (match log with r0 :: _ => if joins r r0 then time r - time r0 else 0 | [] => 0 end) + credit_by log.
Proof using Type. by destruct log as [|r0 log]. Qed.

Lemma measured_by_credit r log : in_order (r :: log) -> credit_by log <= measured_by (r :: log).
Proof using Type.
  intros [Hf Ho]. rewrite measured_by_cons. destruct log as [|r0 log]; [done|]. cbn in Hf. destruct (joins r r0); lia.
Qed.
End measure.

Definition measured (cause : Reason) : list Report -> Z := measured_by (linked cause) (breaks cause).
Definition credit (cause : Reason) : list Report -> Z := credit_by (linked cause) (breaks cause).

Lemma measured_nonneg cause log : in_order log -> 0 <= measured cause log.
Proof. apply measured_by_nonneg. Qed.
Lemma credit_nonneg cause log : in_order log -> 0 <= credit cause log.
Proof. apply credit_by_nonneg. Qed.
Lemma measured_cons cause r log : measured cause (r :: log) =
  (match log with r0 :: _ => if linked cause r r0 then time r - time r0 else 0 | [] => 0 end) + credit cause log.
Proof. apply measured_by_cons. Qed.
Lemma credit_cons cause r log : credit cause (r :: log) = if breaks cause r then 0 else measured cause (r :: log).
Proof. done. Qed.

(** A measured timer never runs ahead of the reports. *)
Record dwell_ok (cause : Reason) (log : list Report) (d : Dwell) : Prop := {
  dw_evidence : 0 <= evidence_us d <= credit cause log;
  dw_previous : previous_busy d = true ->
    match log with r :: _ => shows cause r = true /\ busy_at d = Some (time r) | [] => False end
}.

Lemma no_dwell_ok cause log : in_order log -> dwell_ok cause log no_dwell.
Proof. intros Ho. split; [|done]. cbn. pose proof (credit_nonneg cause log Ho). lia. Qed.

Section timer.
Context (cause : Reason) (rep : Report) (log : list Report) (busy paused : bool) (d : Dwell).
Context (Ho : in_order (rep :: log)) (Hd : dwell_ok cause log d) (Hb : busy = true -> shows cause rep = true).

Lemma dwell_evidence : 0 <= evidence_us (dwell (time rep) busy paused d) <= measured cause (rep :: log).
Proof using Ho Hd Hb.
  destruct Ho as [Hf Ho']. pose proof (measured_nonneg cause _ Ho) as Hm. pose proof (credit_nonneg cause _ Ho') as Hc.
  rewrite measured_cons in *. destruct Hd as [He Hp].
  set (pair := match log with [] => 0 | _ => _ end) in *.
  assert (0 <= pair) as Hpair.
  { unfold pair. destruct log as [|r0 rest]; [done|]. cbn in Hf. destruct (linked _ _ _); lia. }
  unfold dwell. destruct (is_some_and _ (busy_at d)) eqn:Ex.
  { destruct busy, paused; cbn [busy_at no_dwell evidence_us upd setter]; lia. }
  destruct busy; [|destruct paused; cbn [evidence_us no_dwell upd setter]; lia].
  cbn [evidence_us]. destruct (busy_at d) as [last|] eqn:El; [|lia]. destruct (previous_busy d); [|lia].
  specialize (Hp eq_refl). destruct log as [|r0 rest]; [done|]. destruct Hp as [Hs [= ->]].
  cbn [is_some_and] in Ex. apply Z.ltb_ge in Ex. cbn in Hf.
  assert (pair = time rep - time r0) as ->.
  { unfold pair, linked, near. rewrite Hs, (Hb eq_refl). destruct (Z.leb_spec (time rep - time r0) MAX_SAMPLE_GAP_US); [done|lia]. }
  unfold saturating_add, u64_max. lia.
Qed.

Lemma dwell_measured : dwell_us busy (dwell (time rep) busy paused d) <= measured cause (rep :: log).
Proof using Ho Hd Hb.
  pose proof dwell_evidence. pose proof (measured_nonneg cause _ Ho). unfold dwell_us. by destruct busy; lia.
Qed.

Lemma dwell_ok_next : breaks cause rep = false \/ evidence_us (dwell (time rep) busy paused d) = 0 ->
  dwell_ok cause (rep :: log) (dwell (time rep) busy paused d).
Proof using Ho Hd Hb.
  intros Hbr. pose proof dwell_evidence as He. split.
  - rewrite credit_cons. destruct Hbr as [->|E]; [done|]. rewrite E in *. destruct (breaks cause rep); lia.
  - unfold dwell. destruct busy; [by rewrite Hb|]. destruct (is_some_and _ _), paused; done.
Qed.
End timer.

(** A timer of uninterrupted overload. *)
Definition since_ok (cause : Reason) (log : list Report) (since : option Z) : Prop :=
  match since, log with
  | Some start, r :: _ => shows cause r = true /\ start <= time r /\ time r - start <= credit cause log
  | Some _, [] => False
  | None, _ => True
  end.

Lemma since_ok_next cause rep log since busy : in_order (rep :: log) -> since_ok cause log since ->
  breaks cause rep = negb (shows cause rep) -> (busy = true -> shows cause rep = true) ->
  match log with r0 :: _ => since = None \/ time rep - time r0 <= MAX_SAMPLE_GAP_US | [] => True end ->
  since_ok cause (rep :: log) (busy_start (time rep) busy since)
  /\ busy_for (time rep) busy since <= measured cause (rep :: log).
Proof.
  intros Ho Hs Hbr Hb Hg. pose proof (measured_nonneg cause _ Ho) as Hm. unfold busy_start, busy_for.
  destruct busy; [|done]. specialize (Hb eq_refl). unfold since_ok at 1. rewrite credit_cons, Hbr, Hb. cbn [negb].
  destruct since as [start|]; cbn [default]; [|split_and!; try done; unfold id; lia].
  destruct log as [|r0 rest]; [done|]. destruct Hs as (Hs0 & Hle & Hcr). destruct Ho as [Hf Ho]. cbn in Hf.
  destruct Hg as [?|Hg]; [done|].
  assert (time rep - start <= measured cause (rep :: r0 :: rest)).
  { rewrite measured_cons. unfold linked, near. rewrite Hb, Hs0. destruct (Z.leb_spec (time rep - time r0) MAX_SAMPLE_GAP_US); cbn [andb]; lia. }
  unfold id. split_and!; try done; lia.
Qed.

(** ** The timers and the reports *)

Definition changes (r : Report) : Prop := previous_interval_us r <> interval_us r.

Record logged (log : list Report) (c : Controller) : Prop := {
  lg_now : last_now c = time <$> head log;
  lg_order : in_order log;
  lg_source : since_ok SourceWork log (at0 (busy_since c));
  lg_send : since_ok SendAdmission log (at1 (busy_since c));
  lg_credit : since_ok CaptureCredit log (at2 (busy_since c));
  lg_backlog : dwell_ok ReceiverBacklog log (fst (remote_dwell c));
  lg_decoder : dwell_ok DecoderWork log (snd (remote_dwell c));
  lg_headroom : dwell_ok HeadroomProbe log (headroom c);
  lg_adjusted r : r ∈ log -> changes r -> exists t, adjusted c = Some t /\ time r <= t;
  lg_mode : mode c = default Active (r_mode <$> head log)
}.

Section update.
Context (s : Sample) (r : ReceiverEvidence) (rs : Reason) (ch : bool) (c c1 c' : Controller) (rep : Report).
Context (Hi : inv c1) (HP : prepared (now_us s) c c1 rs) (Hv : previous_interval_us rep = interval c).
Context (HD : decision s r rs ch c1 rep c').

Lemma interval_between : shorter rep <= interval c1 <= longer rep.
Proof using Hi HP Hv HD.
  unfold shorter, longer. rewrite Hv, (dc_interval _ _ _ _ _ _ _ HD).
  destruct (pr_case _ _ _ _ HP) as [(_ & _ & _ & _ & <- & _)|(_ & _ & _ & _ & E & Ers & Em & _)]; [lia|].
  pose proof (bd_interval _ (iv_bounded _ Hi)). destruct (dc_decided _ _ _ _ _ _ _ HD); try congruence; lia.
Qed.

Lemma time_of : time rep = now_us s.
Proof using HD. unfold time. by rewrite (dc_sample _ _ _ _ _ _ _ HD). Qed.

Lemma pressed_shows :
  (at0 (pressed s c1) = true -> shows SourceWork rep = true)
  /\ (at1 (pressed s c1) = true -> shows SendAdmission rep = true)
  /\ (at2 (pressed s c1) = true -> shows CaptureCredit rep = true).
Proof using Hi HP Hv HD.
  pose proof interval_between as [Hs _]. unfold shows. rewrite (dc_sample _ _ _ _ _ _ _ HD).
  split_and!; [|done|done]. cbn. destruct (source_work_us s) as [w|]; [|done]. cbn. rewrite !Z.leb_le. lia.
Qed.

Lemma overload_shows :
  (fst (overload r c1) = true -> shows ReceiverBacklog rep = true)
  /\ (snd (overload r c1) = true -> shows DecoderWork rep = true).
Proof using Hi HP Hv HD.
  pose proof interval_between as [Hs _]. unfold shows, load_of. rewrite (dc_receiver _ _ _ _ _ _ _ HD).
  unfold overload. destruct r as [| |l]; [done|done|]. cbn. split; [done|].
  destruct (work_us l) as [w|]; [|done]. cbn. rewrite !Z.leb_le. lia.
Qed.

Lemma three_quarters a b w : a <= b -> w <= a * 3 / 4 -> w <= b * 3 / 4.
Proof using Type. intros H Hw. pose proof (Z.div_le_mono (a * 3) (b * 3) 4). lia. Qed.

Lemma room_shows i : i <= longer rep -> room_at s r c1 i = true -> shows HeadroomProbe rep = true.
Proof using Hi HP Hv HD.
  intros Hle Hr. pose proof interval_between as [_ Hl]. unfold room_at, at_ease in Hr. unfold shows.
  rewrite (dc_sample _ _ _ _ _ _ _ HD), (dc_receiver _ _ _ _ _ _ _ HD).
  rewrite !andb_true_iff in *. destruct Hr as [[[He Hw] Hs] Hc]. split_and!; try done.
  - destruct (source_work_us s) as [w|]; [|done]. cbn in *. rewrite Z.leb_le in *. by apply (three_quarters i).
  - destruct r as [| |l]; [done|done|]. cbn [remote_of snd] in He. rewrite !andb_true_iff in *. destruct He as [[? ?] Hn].
    split_and!; try done. destruct (work_us l) as [n|]; [|done]. cbn in *. rewrite Z.leb_le in *. by apply (three_quarters (interval c1)).
Qed.

Lemma room_room_at : room s r c1 = true -> room_at s r c1 (interval c1) = true.
Proof using Type. apply has_headroom_room_at. Qed.

(** A report that holds and is not quiet resets the headroom. *)
Lemma quiet_of : interval c' = interval c1 -> mode c' = mode c1 -> mode c1 = Active -> room s r c1 || unsure s r c1 = true -> quiet rep = true.
Proof using Hi HP Hv HD.
  intros Hint Hmo Hm Hru. pose proof interval_between as [_ Hl].
  pose proof (bd_interval _ (iv_bounded _ Hi)) as Hb. pose proof (conservative_bounds _ (bd_policy _ (iv_bounded _ Hi))) as (Hc & _).
  assert (1000 <= interval c1) as Hpos by lia. clear Hb Hc.
  unfold quiet, load_of. rewrite (dc_mode _ _ _ _ _ _ _ HD), (dc_sample _ _ _ _ _ _ _ HD), (dc_receiver _ _ _ _ _ _ _ HD), Hmo, Hm.
  assert (unsure s r c1 = true) as Hu.
  { apply orb_true_iff in Hru as [Hr|Hr]; [|done]. unfold room, has_headroom, unsure, is_uncertain, overload, at_ease in *.
    rewrite !andb_true_iff in *. destruct Hr as [[[[[[He Hf] Hid] Hmm] Hw] Hs] Hcr].
    apply bool_decide_eq_true in Hs, Hcr. rewrite Hs, Hcr. split_and!; try done; [|by destruct (source_work_us s)].
    destruct r as [| |l]; [done|done|]. unfold contains2. cbn [remote_of fst snd] in *. rewrite !andb_true_iff in He. destruct He as [[_ Hp] Hn].
    apply negb_true_iff, orb_false_iff. apply Z.leb_le in Hp. split; [by apply Z.ltb_ge|].
    destruct (work_us l) as [n|]; [|done]. cbn in *. apply Z.leb_le in Hn. apply Z.leb_gt.
    pose proof (Z.div_lt_upper_bound (interval c1 * 3) 4 (interval c1)). lia. }
  unfold unsure, is_uncertain in Hu. rewrite !andb_true_iff in *. destruct Hu as [[[[[[Ho Hf] Hid] Hmm] Hw] Hs] Hcr].
  split_and!; try done.
  - destruct (source_work_us s) as [w|]; [|done]. cbn in *. rewrite Z.leb_le in *. by apply (three_quarters (interval c1)).
  - unfold overload, contains2 in Ho. destruct r as [| |l]; [done|done|]. cbn in *. apply negb_true_iff, orb_false_iff in Ho as [H1%Z.ltb_ge H2].
    apply andb_true_iff. split; [by apply Z.leb_le|]. destruct (work_us l) as [n|]; [|done]. cbn in *. apply Z.leb_gt in H2. apply Z.ltb_lt. lia.
Qed.

(** *** The next report *)

Context (log : list Report) (HL : logged log c).

Lemma order_next : in_order (rep :: log).
Proof using HP HD HL.
  split; [|by apply HL]. pose proof (pr_clock _ _ _ _ HP) as Hc. rewrite (lg_now _ _ HL) in Hc.
  destruct log as [|r0 rest]; [done|]. cbn. rewrite time_of. by apply Hc.
Qed.

(** Without a gap the timers are those of the log; after one they are empty. *)
Lemma busy_prepared :
  since_ok SourceWork log (at0 (busy_since c1)) /\ since_ok SendAdmission log (at1 (busy_since c1))
  /\ since_ok CaptureCredit log (at2 (busy_since c1))
  /\ match log with
     | r0 :: _ => time rep - time r0 <= MAX_SAMPLE_GAP_US
                  \/ at0 (busy_since c1) = None /\ at1 (busy_since c1) = None /\ at2 (busy_since c1) = None
     | [] => True
     end.
Proof using HP HD HL.
  destruct (pr_case _ _ _ _ HP) as [(Hg & -> & _)|(_ & -> & _)].
  - split_and!; [apply HL..|]. unfold gapped in Hg. rewrite (lg_now _ _ HL) in Hg. destruct log as [|r0 rest]; [done|].
    cbn in Hg. apply Z.ltb_ge in Hg. left. by rewrite time_of.
  - split_and!; try done. destruct log; [done|]. by right.
Qed.

Lemma remote_prepared :
  dwell_ok ReceiverBacklog log (fst (remote_dwell c1)) /\ dwell_ok DecoderWork log (snd (remote_dwell c1)).
Proof using HP HL.
  pose proof (lg_order _ _ HL). destruct (pr_case _ _ _ _ HP) as [(_ & _ & -> & _)|(_ & _ & -> & _)].
  - split; apply HL.
  - split; by apply no_dwell_ok.
Qed.

Lemma headroom_prepared : dwell_ok HeadroomProbe log (headroom c1) /\ (rs <> Hold -> headroom c1 = no_dwell).
Proof using HP HD HL.
  pose proof (no_dwell_ok HeadroomProbe log (lg_order _ _ HL)) as Hno.
  destruct (pr_case _ _ _ _ HP) as [(_ & _ & _ & _ & _ & [(-> & _ & [->| ->])|(-> & _ & _ & ->)])|(_ & _ & _ & _ & _ & -> & _ & ->)];
    split; try done. apply HL.
Qed.

Lemma local_next :
  since_ok SourceWork (rep :: log) (at0 (busy_since c')) /\ since_ok SendAdmission (rep :: log) (at1 (busy_since c'))
  /\ since_ok CaptureCredit (rep :: log) (at2 (busy_since c'))
  /\ at0 (pressure_us rep) <= measured SourceWork (rep :: log) /\ at1 (pressure_us rep) <= measured SendAdmission (rep :: log)
  /\ at2 (pressure_us rep) <= measured CaptureCredit (rep :: log).
Proof using Hi HP Hv HD HL.
  destruct pressed_shows as (S0 & S1 & S2). destruct busy_prepared as (B0 & B1 & B2 & Hg).
  rewrite (dc_busy _ _ _ _ _ _ _ HD), (dc_local_us _ _ _ _ _ _ _ HD). unfold local_us. cbn [map3 at0 at1 at2].
  rewrite <- time_of. pose proof order_next as Ho.
  destruct (since_ok_next SourceWork rep log _ _ Ho B0 eq_refl S0) as [? ?]; [destruct log; naive_solver|].
  destruct (since_ok_next SendAdmission rep log _ _ Ho B1 eq_refl S1) as [? ?]; [destruct log; naive_solver|].
  destruct (since_ok_next CaptureCredit rep log _ _ Ho B2 eq_refl S2) as [? ?]; [destruct log; naive_solver|].
  done.
Qed.

(** A remote timer that a report breaks is empty. *)
Lemma dwell_broken now d : evidence_us (dwell now false false d) = 0.
Proof using Type. done. Qed.

Lemma remote_next :
  dwell_ok ReceiverBacklog (rep :: log) (fst (remote_dwell c')) /\ dwell_ok DecoderWork (rep :: log) (snd (remote_dwell c'))
  /\ fst (receiver_pressure_us rep) <= measured ReceiverBacklog (rep :: log)
  /\ snd (receiver_pressure_us rep) <= measured DecoderWork (rep :: log).
Proof using Hi HP Hv HD HL.
  destruct overload_shows as (S0 & S1). destruct remote_prepared as (B0 & B1).
  rewrite (dc_remote _ _ _ _ _ _ _ HD), (dc_remote_us _ _ _ _ _ _ _ HD). unfold remote0, remote1, remote_us, remote0, remote1. cbn [fst snd].
  rewrite <- time_of. pose proof order_next as Ho.
  assert (forall cause b, (b = true -> shows cause rep = true) -> breaks cause rep = negb (shows cause rep) && negb (is_unknown (receiver rep)) ->
    forall d, breaks cause rep = false \/ evidence_us (dwell (time rep) b (is_unknown r) d) = 0) as Hbr.
  { intros cause b Hb E d. rewrite E, (dc_receiver _ _ _ _ _ _ _ HD). destruct b; [rewrite Hb by done; by left|].
    destruct (is_unknown r); [left; by rewrite andb_false_r|right; apply dwell_broken]. }
  split_and!.
  - apply dwell_ok_next; try done. by apply Hbr.
  - apply dwell_ok_next; try done. by apply Hbr.
  - by apply dwell_measured.
  - by apply dwell_measured.
Qed.

Lemma load_reason_not_hold index : (index < 5)%nat -> nth index load_reasons Hold <> Hold.
Proof using Type. intros H. do 5 (destruct index as [|index]; [done|]). lia. Qed.

Lemma pressing_index index : pressing s r c1 = Some index -> (index < 5)%nat.
Proof using Type. intros H. unfold pressing in H. apply position_Some in H as (x & Hx & _). by apply lookup_lt_Some in Hx. Qed.

Lemma headroom_dwell_next d ready paused : dwell_ok HeadroomProbe log d -> (ready = true -> shows HeadroomProbe rep = true) ->
  breaks HeadroomProbe rep = false \/ evidence_us (dwell (time rep) ready paused d) = 0 ->
  dwell_ok HeadroomProbe (rep :: log) (dwell (now_us s) ready paused d)
  /\ dwell_us ready (dwell (now_us s) ready paused d) <= measured HeadroomProbe (rep :: log).
Proof using HP HD HL.
  intros Hd Hr Hb. rewrite <- time_of. pose proof order_next. split; [by apply dwell_ok_next|by apply dwell_measured].
Qed.

Lemma dwell_fresh now ready paused : evidence_us (dwell now ready paused no_dwell) = 0.
Proof using Type. by destruct ready, paused. Qed.

Lemma room_measured : dwell_us (room s r c1) (room_dwell s r c1) <= measured HeadroomProbe (rep :: log).
Proof using Hi HP Hv HD HL.
  unfold room_dwell. rewrite <- time_of. pose proof order_next. apply dwell_measured; [done|by apply headroom_prepared|].
  intros Hr. eapply room_shows; [|by apply room_room_at]. by apply interval_between.
Qed.

Lemma headroom_next : dwell_ok HeadroomProbe (rep :: log) (headroom c').
Proof using Hi HP Hv HD HL.
  pose proof order_next as Ho. destruct headroom_prepared as [Hd Hrs]. pose proof (no_dwell_ok HeadroomProbe _ (lg_order _ _ HL)) as Hno.
  pose proof interval_between as [_ Hl].
  pose proof (dc_decided _ _ _ _ _ _ _ HD) as H. pose proof (dc_interval _ _ _ _ _ _ _ HD) as Hint.
  remember (reason rep) as rr eqn:Er. remember (interval c') as i' eqn:Ei. remember (mode c') as m' eqn:Em.
  remember (adjusted c') as a' eqn:Ea. remember (headroom c') as h' eqn:Eh. remember (headroom_us rep) as u' eqn:Eu.
  destruct H as [Hc Hk|ready paused Hc Hm Hroom|Hs Hm|index Ers Hm Hp Hsa Hlt|Ers Hm Hhr Hsa Hlt].
  - apply headroom_dwell_next; [done| |].
    { intros Hr. eapply room_shows; [|by apply room_room_at]. done. }
    unfold breaks. rewrite <- Er. case_bool_decide as Eh0; [|right; rewrite Hrs by done; apply dwell_fresh].
    cbn [negb orb]. destruct (room s r c1 || unsure s r c1) eqn:Eru.
    + left. rewrite quiet_of; try done.
      apply orb_true_iff in Eru as [Eru|Eru]; unfold room, has_headroom, unsure, is_uncertain in Eru; rewrite !andb_true_iff in Eru;
        destruct Eru as [[[[_ Hma] _] _] _]; by apply bool_decide_eq_true in Hma.
    + right. apply orb_false_iff in Eru as [-> ->]. apply dwell_broken.
  - apply headroom_dwell_next; [done| |right; apply dwell_fresh]. intros Hr. eapply room_shows; [|by apply Hroom].
    unfold longer. rewrite Hint. lia.
  - by apply no_dwell_ok.
  - by apply no_dwell_ok.
  - split; [cbn|].
    { pose proof (credit_nonneg HeadroomProbe _ Ho). cbn in H. lia. }
    intros _. rewrite time_of. split; [|done]. eapply room_shows; [|apply room_room_at]; [done|].
    destruct (room s r c1); [done|]. unfold dwell_us, PROBE_DWELL_US in Hhr. lia.
Qed.

Lemma adjusted_next : adjusted c' = Some (now_us s) \/ adjusted c' = adjusted c /\ interval_us rep = previous_interval_us rep.
Proof using HP Hv HD.
  rewrite (dc_interval _ _ _ _ _ _ _ HD), Hv. destruct (dc_decided _ _ _ _ _ _ _ HD); auto.
  destruct (pr_case _ _ _ _ HP) as [(_ & _ & _ & -> & -> & _)|(_ & _ & _ & -> & _)]; auto.
Qed.

Lemma logged_next : logged (rep :: log) c'.
Proof using Hi HP Hv HD HL.
  destruct local_next as (L0 & L1 & L2 & _). destruct remote_next as (R0 & R1 & _). pose proof order_next as Ho.
  split; try done.
  - rewrite (dc_now _ _ _ _ _ _ _ HD), (pr_now _ _ _ _ HP). cbn. by rewrite time_of.
  - apply headroom_next.
  - intros r0 [->|Hin]%elem_of_cons Hch; (destruct adjusted_next as [E|[E En]]; [rewrite E; eexists; split; [done|]|]).
    + by rewrite time_of.
    + by unfold changes in Hch.
    + rewrite <- time_of. by apply (in_order_time _ _ Ho).
    + rewrite E. by apply HL.
  - cbn. by rewrite (dc_mode _ _ _ _ _ _ _ HD).
Qed.

(** *** Why the interval changed *)

Definition faster_ok (p : Policy) : Prop := interval_us rep < previous_interval_us rep ->
  reason rep = ChangedAfterIdle /\ interval_us rep = conservative p
    /\ (exists o, observation (sample rep) = Some o /\ changed o = true) /\ (r_mode <$> head log) = Some Idle
  \/ reason rep = HeadroomProbe
    /\ interval_us rep = Z.max (previous_interval_us rep - div_ceil (previous_interval_us rep) 8) (minimum_interval_us p)
    /\ PROBE_DWELL_US <= measured HeadroomProbe (rep :: log).

Definition slower_ok (p : Policy) : Prop := previous_interval_us rep < interval_us rep ->
  reason rep = VerifiedIdle /\ interval_us rep = maximum_interval_us p
  \/ reason rep = EvidenceGap /\ interval_us rep = conservative p
  \/ reason rep ∈ load_reasons
    /\ interval_us rep = Z.min (previous_interval_us rep * 2) (maximum_interval_us p)
    /\ PRESSURE_DWELL_US <= measured (reason rep) (rep :: log)
    /\ forall r0, r0 ∈ log -> changes r0 -> time r0 + REDUCE_DWELL_US <= time rep.

Lemma pressing_measured index : pressing s r c1 = Some index ->
  nth index load_reasons Hold ∈ load_reasons /\ PRESSURE_DWELL_US <= measured (nth index load_reasons Hold) (rep :: log).
Proof using Hi HP Hv HD HL.
  intros Hp. destruct local_next as (_ & _ & _ & P0 & P1 & P2). destruct remote_next as (_ & _ & P3 & P4).
  rewrite (dc_local_us _ _ _ _ _ _ _ HD) in P0, P1, P2. rewrite (dc_remote_us _ _ _ _ _ _ _ HD) in P3, P4.
  pose proof (pressing_index _ Hp) as Hlt. unfold pressing in Hp.
  revert P0 P1 P2 P3 P4 Hp. generalize (at0 (local_us s c1)) (at1 (local_us s c1)) (at2 (local_us s c1)) (fst (remote_us s r c1)) (snd (remote_us s r c1)).
  intros l0 l1 l2 l3 l4 P0 P1 P2 P3 P4 Hp. apply position_Some in Hp as (x & Hx & Hle%Z.leb_le & _).
  split; [apply list_elem_of_In, nth_In; exact Hlt|].
  do 5 (destruct index as [|index]; [injection Hx as <-; cbn [nth load_reasons]; lia|]). lia.
Qed.

Lemma since_adjust_spaced : REDUCE_DWELL_US <= since_adjust s c1 -> gapped (now_us s) c = false ->
  forall r0, r0 ∈ log -> changes r0 -> time r0 + REDUCE_DWELL_US <= time rep.
Proof using HP HD HL.
  intros Hs Hg r0 Hin Hch. destruct (lg_adjusted _ _ HL r0 Hin Hch) as (t & Et & Hle).
  destruct (pr_case _ _ _ _ HP) as [(_ & _ & _ & Ea & _)|(Hg' & _)]; [|congruence].
  unfold since_adjust in Hs. rewrite Ea, Et in Hs. rewrite time_of. lia.
Qed.

Lemma reported_ok : inv c -> (ch = true -> exists o, observation s = Some o /\ changed o = true) ->
  faster_ok (policy c) /\ slower_ok (policy c) /\ minimum_interval_us (policy c) <= interval_us rep <= maximum_interval_us (policy c).
Proof using Hi HP Hv HD HL.
  intros Hi0 Hch. pose proof (dc_decided _ _ _ _ _ _ _ HD) as H. pose proof (dc_interval _ _ _ _ _ _ _ HD) as Hint.
  pose proof room_measured as Hroom. pose proof pressing_measured as Hpm. pose proof since_adjust_spaced as Hsp.
  pose proof (bd_interval _ (iv_bounded _ Hi0)) as Hb0. pose proof (bd_interval _ (iv_bounded _ (decided_inv _ _ _ _ _ _ _ _ eq_refl (pr_now _ _ _ _ HP) Hi HD))) as Hb'.
  pose proof (pacing_div_ceil_bounds (interval c1)) as Hdc. pose proof (bd_interval _ (iv_bounded _ Hi)) as Hb1.
  pose proof (conservative_bounds _ (bd_policy _ (iv_bounded _ Hi))) as (Hc & _).
  rewrite (dc_policy _ _ _ _ _ _ _ HD), (pr_policy _ _ _ _ HP), <- Hint in Hb'. split; [|split; [|done]]; clear Hb'; rename Hb1 into Hb'.
  - unfold faster_ok. rewrite Hint, Hv, (dc_sample _ _ _ _ _ _ _ HD).
    pose proof (pr_policy _ _ _ _ HP) as Ep. rewrite <- Ep. destruct (pr_case _ _ _ _ HP) as [(_ & _ & _ & _ & Ei & Hm)|(_ & _ & _ & _ & Ei & Ers & Em & _)].
    + rewrite <- Ei. destruct H as [? ?|ready paused Ec Hmo _|? ?|index ? ? ? ? ?|? ? ? ? ?]; intros Hlt; try lia.
      * left. unfold woken in *. destruct (contains3 _ || contains2 _); [lia|]. split_and!; try done; [by apply Hch|].
        destruct Hm as [(_ & Emo & _)|(_ & _ & ? & _)]; [|congruence]. rewrite Emo, (lg_mode _ _ HL) in Hmo.
        destruct log as [|r0 rest]; [done|]. cbn in *. by rewrite Hmo.
      * right. split_and!; try done. lia.
    + destruct H; intros Hlt; try congruence; try lia.
  - unfold slower_ok. rewrite Hint, Hv.
    pose proof (pr_policy _ _ _ _ HP) as Ep. rewrite <- Ep. destruct (pr_case _ _ _ _ HP) as [(Hg & _ & _ & _ & Ei & Hm)|(_ & _ & _ & _ & Ei & Ers & Em & _)].
    + rewrite <- Ei. destruct H as [? ?|ready paused Ec Hmo _|? ?|index ? ? Hp Hsa ?|? ? ? ? ?]; intros Hlt; try lia.
      * pose proof (bd_idle _ (iv_bounded _ Hi) Hmo). unfold woken in Hlt.
        pose proof (conservative_bounds _ (bd_policy _ (iv_bounded _ Hi))) as (_ & ? & _). destruct (contains3 _ || contains2 _); lia.
      * by left.
      * right; right. destruct (Hpm index Hp) as [? ?]. split_and!; try done. by apply Hsp.
    + destruct H; intros Hlt; try congruence.
      * right; left. rewrite Ep in *. split; [done|lia].
      * by left.
Qed.
End update.

(** ** Calls *)

(** Times are unsigned. *)
Definition op_typed (op : Op) : Prop := match op with Update s _ => 0 <= now_us s | _ => True end.

(** A controller with the reports it made; after an error it makes none. *)
Definition live_log (log : list Report) (c : Controller) : Prop := closed c = true \/ logged log c.

Lemma remember_logged log rep c : logged log c -> logged log (remember rep c).
Proof. intros []. unfold remember. case_bool_decide; by split. Qed.

Definition report_ok (p : Policy) (log : list Report) (rep : Report) : Prop :=
  faster_ok rep log p /\ slower_ok rep log p
  /\ minimum_interval_us p <= interval_us rep <= maximum_interval_us p.

Lemma update_logged s r log c : 0 <= now_us s -> inv c -> live_log log c ->
  match update_with_receiver s r c with
  | (Ok rep, c') => inv c' /\ policy c' = policy c /\ live_log (rep :: log) c' /\ report_ok (policy c) log rep
  | (Err _, c') => inv c' /\ policy c' = policy c /\ closed c' = true
  end.
Proof.
  intros Hn Hi Hl. unfold update_with_receiver. destruct (closed c) eqn:Ec; [done|]. destruct Hl as [?|HL]; [congruence|].
  pose proof (update_inner_spec s r c Hi Hn) as Hs. destruct (update_inner s r c) as [[rep|e] c'].
  - destruct Hs as (rs & ch & c1 & HP & Hv & HD & Hch). pose proof (prepared_inv _ _ _ _ Hi HP) as Hi1.
    pose proof (decided_inv _ _ _ _ _ _ _ _ eq_refl (pr_now _ _ _ _ HP) Hi1 HD) as Hi'.
    split; [by apply remember_inv|]. split.
    { unfold remember. case_bool_decide; cbn [policy upd setter]; by rewrite (dc_policy _ _ _ _ _ _ _ HD), (pr_policy _ _ _ _ HP). }
    split; [right; apply remember_logged; exact (logged_next s r rs ch c c1 c' rep Hi1 HP Hv HD log HL)|].
    exact (reported_ok s r rs ch c c1 c' rep Hi1 HP Hv HD log HL Hi Hch).
  - assert (inv c' /\ policy c' = policy c) as [Hi' Hp].
    { destruct Hs as [->|(rs & HP)]; [done|]. split; [by eapply prepared_inv|by apply (pr_policy _ _ _ _ HP)]. }
    split_and!; [|exact Hp|done]. destruct Hi' as [[] []]. by split; split.
Qed.

Lemma step_logged op log c : op_typed op -> inv c -> live_log log c ->
  let rc := step op c in
  inv (snd rc) /\ policy (snd rc) = policy c /\ live_log (reverse (fst rc) ++ log) (snd rc)
  /\ (fst rc = [] \/ exists rep, fst rc = [rep] /\ report_ok (policy c) log rep).
Proof.
  intros Ht Hi Hl. destruct op as [s r| |]; cbn [step].
  - pose proof (update_logged s r log c Ht Hi Hl) as Hu. destruct (update_with_receiver s r c) as [[rep|e] c'].
    + destruct Hu as (? & ? & ? & ?). split_and!; try done. right. by exists rep.
    + destruct Hu as (? & ? & ?). split_and!; try done; by left.
  - destruct Hi as [[] [? ? ? ? ? ?]]. split; [by split; split|]. split; [done|]. split; [|by left]. destruct Hl as [?|HL]; [by left|right].
    pose proof (lg_order _ _ HL). destruct HL. split; try done; by apply no_dwell_ok.
  - destruct Hi as [[] [? ? ? ? ? ?]]. split; [by split; split|]. split; [done|]. split; [|by left]. destruct Hl as [?|HL]; [by left|right].
    pose proof (lg_order _ _ HL). destruct HL. split; try done; by apply no_dwell_ok.
Qed.

Lemma run_logged ops : forall log c, Forall op_typed ops -> inv c -> live_log log c ->
  inv (snd (run ops c)) /\ policy (snd (run ops c)) = policy c /\ live_log (reverse (fst (run ops c)) ++ log) (snd (run ops c))
  /\ forall older rep newer, fst (run ops c) = older ++ rep :: newer -> report_ok (policy c) (reverse older ++ log) rep.
Proof.
  induction ops as [|op ops IH]; intros log c Hty Hi Hl.
  { split_and!; try done. intros older rep newer E. by destruct older. }
  inversion_clear Hty as [|? ? Ht Hty']. destruct (step_logged op log c Ht Hi Hl) as (I & P & L & S). cbn [run].
  destruct (step op c) as [rs1 c1]. cbn [fst snd] in *. specialize (IH (reverse rs1 ++ log) c1 Hty' I L). destruct (run ops c1) as [rs2 c2].
  cbn [fst snd] in *. destruct IH as (I2 & P2 & L2 & S2). rewrite reverse_app, <- app_assoc. split_and!; [done|congruence|done|].
  intros older rep newer E. rewrite P in S2. destruct S as [->|(rep1 & -> & Hok)]; [by apply (S2 older rep newer)|].
  destruct older as [|r1 older]; cbn in E; injection E as <- E; [done|]. specialize (S2 older rep newer E).
  by rewrite reverse_cons, <- app_assoc.
Qed.

Lemma pacing_new p c : new p = Ok c -> inv c /\ policy c = p /\ live_log [] c.
Proof.
  unfold new. destruct (validate p) as [[]|] eqn:Ev; [|done]. intros [= <-].
  pose proof (conservative_bounds p Ev) as (? & ? & _). split_and!; try done.
  - split; split; try done; [cbn; lia|cbn; split; [done|lia]].
  - right. split; try done; try by apply no_dwell_ok. intros r Hin. by apply not_elem_of_nil in Hin.
Qed.

Lemma run_report p c ops older rep newer : new p = Ok c -> Forall op_typed ops -> fst (run ops c) = older ++ rep :: newer ->
  report_ok p (reverse older) rep.
Proof.
  intros (Hi & Hp & Hl)%pacing_new Hty E. destruct (run_logged ops [] c Hty Hi Hl) as (_ & _ & _ & H).
  specialize (H _ _ _ E). by rewrite app_nil_r, Hp in H.
Qed.

(** ** Claims *)

(** The controller's state stays sound under every sequence of samples and
    resets: the interval is within the policy, the longest one while idle, every
    stored time lies in the past (so that no time is subtracted from an earlier one),
    and the history keeps its sixteen slots; and every reported interval is within
    the policy. *)
Theorem pacing_state_is_sound p c ops : new p = Ok c -> Forall op_typed ops ->
  inv (snd (run ops c)) /\ policy (snd (run ops c)) = p
  /\ Forall (fun rep => minimum_interval_us p <= interval_us rep <= maximum_interval_us p) (fst (run ops c)).
Proof.
  intros Hnew Hty. destruct (pacing_new p c Hnew) as (Hi & Hp & Hl).
  destruct (run_logged ops [] c Hty Hi Hl) as (I & P & _ & _). split; [done|]. split; [congruence|].
  apply Forall_forall. intros rep (older & newer & E)%list_elem_of_split. by destruct (run_report p c ops older rep newer Hnew Hty E) as (_ & _ & ?).
Qed.

(** C34. Capture speeds up for two reasons only: the screen changed after a verified
    idle period, and the interval returns to the conservative one; or two seconds
    were measured, between adjacent samples no decision or contrary sample apart,
    that all show headroom at the source, the sender, the capture credit and the
    receiver, and the interval shrinks by an eighth. *)
Theorem faster_capture_needs_headroom p c ops older rep newer : new p = Ok c -> Forall op_typed ops ->
  fst (run ops c) = older ++ rep :: newer -> interval_us rep < previous_interval_us rep ->
  reason rep = ChangedAfterIdle /\ interval_us rep = conservative p
    /\ (exists o, observation (sample rep) = Some o /\ changed o = true) /\ (r_mode <$> last older) = Some Idle
  \/ reason rep = HeadroomProbe
    /\ interval_us rep = Z.max (previous_interval_us rep - div_ceil (previous_interval_us rep) 8) (minimum_interval_us p)
    /\ PROBE_DWELL_US <= measured HeadroomProbe (rep :: reverse older).
Proof.
  intros Hnew Hty E Hlt. destruct (run_report p c ops older rep newer Hnew Hty E) as (Hf & _). specialize (Hf Hlt).
  by rewrite head_reverse in Hf.
Qed.

(** Capture slows down for three reasons only: a verified idle screen, a gap in
    the samples, or an overload that adjacent samples showed for a tenth of a second;
    an overload doubles the interval up to the maximum, and no earlier than a quarter
    of a second after any change of the interval. *)
Theorem slower_capture_needs_pressure p c ops older rep newer : new p = Ok c -> Forall op_typed ops ->
  fst (run ops c) = older ++ rep :: newer -> previous_interval_us rep < interval_us rep ->
  reason rep = VerifiedIdle /\ interval_us rep = maximum_interval_us p
  \/ reason rep = EvidenceGap /\ interval_us rep = conservative p
  \/ reason rep ∈ load_reasons
    /\ interval_us rep = Z.min (previous_interval_us rep * 2) (maximum_interval_us p)
    /\ PRESSURE_DWELL_US <= measured (reason rep) (rep :: reverse older)
    /\ forall r0, r0 ∈ older -> changes r0 -> time r0 + REDUCE_DWELL_US <= time rep.
Proof.
  intros Hnew Hty E Hlt. destruct (run_report p c ops older rep newer Hnew Hty E) as (_ & Hs & _).
  destruct (Hs Hlt) as [?|[?|(? & ? & ? & Hsp)]]; [auto|auto|]. right; right. split_and!; try done.
  intros r0 Hin. apply Hsp. by apply elem_of_reverse.
Qed.

(** *** A run with a busy sender, then headroom *)

Definition demo_policy : Policy := mk_policy 20000 200000.
Definition demo_sample (a : Availability) (t : Z) : Sample := mk_sample t (Some 5000) a Ready (Some (mk_observation t true)).
(** Three samples of a blocked sender, and two seconds of headroom after them. *)
Definition demo_ops : list Op :=
  map (fun i => Update (demo_sample (if (i <=? 2)%nat then Blocked else Ready) (Z.of_nat i * 50000)) Unobserved) (seq 0 44).
Definition demo_controller : Controller :=
  mk_controller demo_policy 40000 None None not_busy (no_dwell, no_dwell) no_dwell None None Active false None (replicate 16 None) 0.
Definition demo_reports : list Report := fst (run demo_ops demo_controller).

Lemma pacing_demo_typed : Forall op_typed demo_ops.
Proof. unfold demo_ops. apply Forall_forall. intros op (i & -> & _)%list_elem_of_fmap. cbn -[Z.mul]. lia. Qed.

Definition slow_report : Report := default (mk_report (demo_sample Ready 0) 0 0 Active Hold (mk_three 0 0 0) 0 Unobserved (0, 0)) (demo_reports !! 2%nat).
Definition fast_report : Report := default slow_report (demo_reports !! 43%nat).

Lemma pacing_state_is_sound_witness :
  inv (snd (run demo_ops demo_controller)) /\ policy (snd (run demo_ops demo_controller)) = demo_policy
  /\ Forall (fun rep => minimum_interval_us demo_policy <= interval_us rep <= maximum_interval_us demo_policy)
       (fst (run demo_ops demo_controller)).
Proof. exact (pacing_state_is_sound demo_policy demo_controller demo_ops eq_refl pacing_demo_typed). Defined.

Lemma faster_capture_needs_headroom_witness :
  reason fast_report = HeadroomProbe /\ interval_us fast_report < previous_interval_us fast_report
  /\ PROBE_DWELL_US <= measured HeadroomProbe (fast_report :: reverse (take 43 demo_reports)).
Proof.
  assert (fst (run demo_ops demo_controller) = take 43 demo_reports ++ fast_report :: []) as E by (vm_compute; reflexivity).
  assert (interval_us fast_report < previous_interval_us fast_report) as Hlt by (vm_compute; reflexivity).
  destruct (faster_capture_needs_headroom demo_policy demo_controller demo_ops (take 43 demo_reports) fast_report [] eq_refl pacing_demo_typed E Hlt) as [(Hr & _)|(Hr & _ & Hm)].
  - exfalso. revert Hr. vm_compute. discriminate.
  - exact (conj Hr (conj Hlt Hm)).
Defined.

Lemma slower_capture_needs_pressure_witness :
  reason slow_report = SendAdmission /\ previous_interval_us slow_report < interval_us slow_report
  /\ PRESSURE_DWELL_US <= measured SendAdmission (slow_report :: reverse (take 2 demo_reports)).
Proof.
  assert (fst (run demo_ops demo_controller) = take 2 demo_reports ++ slow_report :: drop 3 demo_reports) as E by (vm_compute; reflexivity).
  assert (previous_interval_us slow_report < interval_us slow_report) as Hlt by (vm_compute; reflexivity).
  assert (reason slow_report = SendAdmission) as Hr by (vm_compute; reflexivity).
  destruct (slower_capture_needs_pressure demo_policy demo_controller demo_ops (take 2 demo_reports) slow_report (drop 3 demo_reports) eq_refl pacing_demo_typed E Hlt) as [(Hr' & _)|[(Hr' & _)|(_ & _ & Hm & _)]].
  - exfalso. congruence.
  - exfalso. congruence.
  - rewrite Hr in Hm. exact (conj Hr (conj Hlt Hm)).
Defined.

End PacingClaims.

(** * Capture pacing: progress and history

    A sender that stays blocked brings the capture interval to its maximum in
    bounded time, and the sixteen slots of the history always hold the most recent
    decisions in order. *)

Module PacingLive.
Import Pacing PacingProps PacingClaims.

(** ** A blocked sender *)

(** The longest time between two steps of the interval under pressure: the dwell
    after a change, and the time to the next sample. *)
Definition ROUND_US : Z := REDUCE_DWELL_US + MAX_SAMPLE_GAP_US.

(** Pressed at the sender since [t0]: the interval is the longest, or it has doubled
    [k] times in at most as many rounds. *)
Definition pushed (t0 : Z) (c : Controller) : Prop :=
  (exists start, at1 (busy_since c) = Some start /\ start <= t0)
  /\ (interval c = maximum_interval_us (policy c)
      \/ exists k, 0 <= k /\ 1000 * 2 ^ k <= interval c /\ past (t0 + ROUND_US * k) (adjusted c)
           /\ clock c < t0 + ROUND_US * k + REDUCE_DWELL_US).

Lemma blocked_at1 s i : send s = Blocked -> at1 (pressure_of s i) = true.
Proof. intros E. cbn. by rewrite bool_decide_eq_true_2. Qed.

Lemma blocked_busy s r rs ch c1 rep c' : send s = Blocked -> decision s r rs ch c1 rep c' ->
  at1 (busy_since c') = Some (default (now_us s) (at1 (busy_since c1))).
Proof. intros E D. rewrite (dc_busy _ _ _ _ _ _ _ D). unfold map3, pressed. cbn [at1]. by rewrite blocked_at1. Qed.

Lemma blocked_no_room s r c1 : send s = Blocked -> dwell_us (room s r c1) (room_dwell s r c1) = 0.
Proof.
  intros E. assert (room s r c1 = false) as ->; [|done]. unfold room, has_headroom. rewrite E. rewrite !andb_false_iff. auto.
Qed.

Lemma blocked_contains s r c1 : send s = Blocked -> contains3 (pressed s c1) || contains2 (overload r c1) = true.
Proof. intros E. unfold contains3, pressed. rewrite (blocked_at1 s _ E). by rewrite orb_true_r. Qed.

(** The longest interval stays under pressure. *)
Lemma blocked_max s r rs ch c1 rep c' : send s = Blocked -> bounded c1 -> decision s r rs ch c1 rep c' ->
  interval c1 = maximum_interval_us (policy c1) -> interval c' = maximum_interval_us (policy c').
Proof.
  intros E B D Hm. rewrite (dc_policy _ _ _ _ _ _ _ D). pose proof (blocked_no_room s r c1 E) as Hr.
  pose proof (blocked_contains s r c1 E) as Hc. destruct (dc_decided _ _ _ _ _ _ _ D) as [| | | |? ? Hp]; try done; try lia.
  - unfold woken. by rewrite Hc.
  - rewrite Hr in Hp. unfold PROBE_DWELL_US in Hp. lia.
Qed.

(** No overload is dwelling: the sender has been blocked for a short time. *)
Lemma not_pressing s r c1 start : send s = Blocked -> at1 (busy_since c1) = Some start -> pressing s r c1 = None ->
  now_us s - start < PRESSURE_DWELL_US.
Proof.
  intros E Hb Hp. unfold pressing in Hp. rewrite position_None in Hp. specialize (Hp (at1 (local_us s c1))).
  assert (at1 (local_us s c1) = now_us s - start) as El.
  { unfold local_us, map3, pressed. cbn [at1]. by rewrite blocked_at1, Hb. }
  rewrite El in Hp. apply Z.leb_gt. apply Hp. set_solver.
Qed.

Lemma pushed_decision t0 s r rs ch c c1 rep c' : send s = Blocked -> inv c -> prepared (now_us s) c c1 rs -> gapped (now_us s) c = false ->
  last_now c <> None -> decision s r rs ch c1 rep c' -> pushed t0 c -> pushed t0 c'.
Proof.
  intros E Hi HP Hg Hl HD [(start & Hb & Hst) Hpush]. pose proof (prepared_inv _ _ _ _ Hi HP) as Hi1.
  destruct (pr_case _ _ _ _ HP) as [(_ & Eb & _ & Ea & Ei & Hm)|(Hg' & _)]; [|congruence].
  assert (now_us s <= clock c + MAX_SAMPLE_GAP_US) as Hnow.
  { unfold gapped, clock in *. destruct (last_now c) as [t|]; [|done]. cbn in *. apply Z.ltb_ge in Hg. lia. }
  assert (clock c' = now_us s) as Hclk by (unfold clock; by rewrite (dc_now _ _ _ _ _ _ _ HD), (pr_now _ _ _ _ HP)).
  split; [exists start; split; [|done]; by rewrite (blocked_busy _ _ _ _ _ _ _ E HD), Eb, Hb|].
  destruct (decide (interval c1 = maximum_interval_us (policy c1))) as [Emax|Nmax].
  { left. by apply (blocked_max _ _ _ _ _ _ _ E (iv_bounded _ Hi1) HD). }
  destruct Hpush as [Hp|(k & Hk & Hint & Hadj & Hlt)]; [rewrite (pr_policy _ _ _ _ HP), Ei in Nmax; done|].
  assert (mode c1 = Active) as Hact. { destruct (mode c1) eqn:Emo; [done|]. destruct Nmax. by apply Hi1. }
  assert (rs = Hold) as ->.
  { destruct Hm as [(? & _)|(_ & Hmi & _)]; [done|]. destruct Nmax. rewrite Ei, (pr_policy _ _ _ _ HP). by apply Hi. }
  pose proof (blocked_no_room s r c1 E) as Hr. pose proof (bd_interval _ (iv_bounded _ Hi1)) as Hbd.
  rewrite (dc_policy _ _ _ _ _ _ _ HD), Hclk. unfold ROUND_US in *.
  destruct (dc_decided _ _ _ _ _ _ _ HD) as [_ Hkept|? ? _ Hmi _|_ _|index _ _ _ _ _|_ _ Hp _ _].
  - right. exists k. rewrite Ea, Ei. split_and!; try done. destruct (Hkept eq_refl Hact) as [Hnp|[Hsa|Hge]]; [| |lia].
    + pose proof (not_pressing s r c1 start E ltac:(by rewrite Eb) Hnp). unfold PRESSURE_DWELL_US, REDUCE_DWELL_US, MAX_SAMPLE_GAP_US in *. lia.
    + unfold since_adjust in Hsa. rewrite Ea in Hsa. destruct (adjusted c) as [a|]; [|done]. specialize (Hadj a eq_refl). lia.
  - congruence.
  - by left.
  - destruct (Z.le_gt_cases (maximum_interval_us (policy c1)) (interval c1 * 2)) as [Hle|Hgt]; [left; lia|right].
    exists (k + 1). rewrite Ei in Hgt |- *. rewrite Z.pow_add_r by lia. split_and!; [lia|lia| |unfold REDUCE_DWELL_US, MAX_SAMPLE_GAP_US in *; lia].
    apply past_some. unfold REDUCE_DWELL_US, MAX_SAMPLE_GAP_US in *. lia.
  - rewrite Hr in Hp. unfold PROBE_DWELL_US in Hp. lia.
Qed.

Lemma pushed_first s r rs ch c c1 rep c' : send s = Blocked -> inv c -> prepared (now_us s) c c1 rs ->
  decision s r rs ch c1 rep c' -> pushed (now_us s) c'.
Proof.
  intros E Hi HP HD. pose proof (prepared_inv _ _ _ _ Hi HP) as Hi1.
  pose proof (decided_inv _ _ _ _ _ _ _ _ eq_refl (pr_now _ _ _ _ HP) Hi1 HD) as Hi'.
  assert (clock c' = now_us s) as Hclk by (unfold clock; by rewrite (dc_now _ _ _ _ _ _ _ HD), (pr_now _ _ _ _ HP)).
  split.
  - eexists. split; [by apply (blocked_busy _ _ _ _ _ _ _ E HD)|]. destruct (at1 (busy_since c1)) as [t|] eqn:Et; cbn; [|lia].
    by apply (proj1 (proj2 (tm_busy _ _ (pr_timed _ _ _ _ HP)))).
  - right. exists 0. pose proof (bd_interval _ (iv_bounded _ Hi')). pose proof (conservative_bounds _ (bd_policy _ (iv_bounded _ Hi'))) as (? & _).
    pose proof (tm_adjusted _ _ (iv_timed _ Hi')) as Ha. rewrite Hclk in *. rewrite Z.mul_0_r, Z.add_0_r.
    split_and!; [done|lia|done|unfold REDUCE_DWELL_US; lia].
Qed.

Lemma pushed_remember t0 rep c : pushed t0 c -> pushed t0 (remember rep c).
Proof. intros H. unfold remember. by case_bool_decide. Qed.

(** Evidence that the sender stays blocked: each sample at most a tenth of a second
    after the one before. *)
Fixpoint sustained (t : Z) (l : list (Sample * ReceiverEvidence)) : bool :=
  match l with
  | [] => true
  | (s, _) :: l => bool_decide (send s = Blocked) && (0 <=? now_us s) && (now_us s - t <=? MAX_SAMPLE_GAP_US) && sustained (now_us s) l
  end.
Fixpoint end_of (t : Z) (l : list (Sample * ReceiverEvidence)) : Z :=
  match l with [] => t | (s, _) :: l => end_of (now_us s) l end.
Definition updates (l : list (Sample * ReceiverEvidence)) : list Op := map (fun sr => Update (fst sr) (snd sr)) l.

(** An update that does not close the controller. *)
Lemma update_open s r c : closed (snd (step (Update s r) c)) = false ->
  exists rep c', update_inner s r c = (Ok rep, c') /\ snd (step (Update s r) c) = remember rep c'.
Proof.
  cbn [step]. unfold update_with_receiver. destruct (closed c) eqn:Ec; [cbn; congruence|].
  destruct (update_inner s r c) as [[rep|e] c']; [eauto|done].
Qed.

Lemma step_closed op c : closed c = true -> closed (snd (step op c)) = true.
Proof. intros Hc. destruct op as [s r| |]; [|done|done]. cbn [step]. unfold update_with_receiver. by rewrite Hc. Qed.
Lemma run_closed ops : forall c, closed c = true -> closed (snd (run ops c)) = true.
Proof.
  induction ops as [|op ops IH]; intros c Hc; [done|]. cbn [run]. apply (step_closed op) in Hc. destruct (step op c) as [rs c1].
  specialize (IH c1 Hc). by destruct (run ops c1).
Qed.

Lemma run_cons op ops c : snd (run (op :: ops) c) = snd (run ops (snd (step op c))).
Proof. cbn [run]. destruct (step op c) as [rs c1]. cbn [snd]. by destruct (run ops c1). Qed.
Lemma pacing_run_app ops1 ops2 : forall c, snd (run (ops1 ++ ops2) c) = snd (run ops2 (snd (run ops1 c))).
Proof. induction ops1 as [|op ops1 IH]; intros c; [done|]. rewrite <- app_comm_cons, !run_cons. apply IH. Qed.

Lemma update_last s r c rep c' : inv c -> 0 <= now_us s -> update_inner s r c = (Ok rep, c') ->
  last_now (remember rep c') = Some (now_us s) /\ inv (remember rep c') /\ policy (remember rep c') = policy c.
Proof.
  intros Hi Hn E. pose proof (update_inner_spec s r c Hi Hn) as Hs. rewrite E in Hs. destruct Hs as (rs & ch & c1 & HP & Hv & HD & _).
  assert (last_now (remember rep c') = last_now c' /\ policy (remember rep c') = policy c') as [-> ->] by (unfold remember; by case_bool_decide).
  rewrite (dc_now _ _ _ _ _ _ _ HD), (pr_now _ _ _ _ HP), (dc_policy _ _ _ _ _ _ _ HD), (pr_policy _ _ _ _ HP).
  split_and!; try done. apply remember_inv. by eapply decided_inv; [|apply HP|eapply prepared_inv|].
Qed.

Lemma pushed_run t0 l : forall t c, inv c -> last_now c = Some t -> pushed t0 c -> sustained t l = true ->
  closed (snd (run (updates l) c)) = false ->
  inv (snd (run (updates l) c)) /\ pushed t0 (snd (run (updates l) c)) /\ last_now (snd (run (updates l) c)) = Some (end_of t l)
  /\ policy (snd (run (updates l) c)) = policy c.
Proof.
  induction l as [|[s r] l IH]; intros t c Hi Hl Hp Hs Hc; [done|].
  cbn [sustained] in Hs. rewrite !andb_true_iff in Hs. destruct Hs as [[[Hb%bool_decide_eq_true Hn%Z.leb_le] Hg%Z.leb_le] Hs].
  cbn [updates map fst snd] in *. rewrite run_cons in *.
  assert (closed (snd (step (Update s r) c)) = false) as Hc1.
  { destruct (closed (snd (step (Update s r) c))) eqn:Ec; [|done]. by rewrite (run_closed (updates l)) in Hc. }
  destruct (update_open s r c Hc1) as (rep & c' & Eu & E'). rewrite E' in *. destruct (update_last s r c rep c' Hi Hn Eu) as (Hl' & Hi' & Hpol).
  rewrite <- Hpol. apply (IH (now_us s)); try done. apply pushed_remember.
  pose proof (update_inner_spec s r c Hi Hn) as Hspec. rewrite Eu in Hspec. destruct Hspec as (rs & ch & c1 & HP & _ & HD & _).
  apply (pushed_decision t0 s r rs ch c c1 rep c'); try done; [|by rewrite Hl].
  unfold gapped. rewrite Hl. cbn. apply Z.ltb_ge. lia.
Qed.

(** C35. A sender that stays blocked slows capture down to the slowest rate within
    2.8 seconds: from any state a controller can be in, whatever the rest of the
    samples say, as long as samples keep coming a tenth of a second apart or less
    and are valid. *)
Theorem blocked_sender_reaches_the_slowest_rate p c ops s r l : new p = Ok c -> Forall op_typed ops -> 0 <= now_us s ->
  send s = Blocked -> sustained (now_us s) l = true -> now_us s + 2800000 <= end_of (now_us s) l ->
  closed (snd (run (ops ++ Update s r :: updates l) c)) = false ->
  interval (snd (run (ops ++ Update s r :: updates l) c)) = maximum_interval_us p.
Proof.
  intros (Hi & Hp & Hl)%pacing_new Hty Hn Hb Hs Hend. rewrite pacing_run_app, run_cons.
  destruct (run_logged ops [] c Hty Hi Hl) as (I & P & _). set (c0 := snd (run ops c)) in *. intros Hc.
  assert (closed (snd (step (Update s r) c0)) = false) as Hc1.
  { destruct (closed (snd (step (Update s r) c0))) eqn:Ec; [|done]. by rewrite (run_closed (updates l)) in Hc. }
  destruct (update_open s r c0 Hc1) as (rep & c' & Eu & E'). rewrite E' in *.
  destruct (update_last s r c0 rep c' I Hn Eu) as (Hl' & Hi' & Hpol).
  pose proof (update_inner_spec s r c0 I Hn) as Hspec. rewrite Eu in Hspec. destruct Hspec as (rs & ch & c1 & HP & _ & HD & _).
  pose proof (pushed_remember _ rep _ (pushed_first s r rs ch c0 c1 rep c' Hb I HP HD)) as Hpush.
  destruct (pushed_run (now_us s) l _ _ Hi' Hl' Hpush Hs Hc) as (If & [_ Hf] & Hlast & Pf). rewrite Pf, Hpol, P, Hp in Hf.
  destruct Hf as [Hf|(k & Hk & Hint & _ & Hlt)]; [done|]. unfold clock in Hlt. rewrite Hlast in Hlt. cbn in Hlt.
  unfold ROUND_US, REDUCE_DWELL_US, MAX_SAMPLE_GAP_US in Hlt.
  pose proof (Z.pow_le_mono_r 2 8 k ltac:(lia) ltac:(lia)). pose proof (bd_interval _ (iv_bounded _ If)) as Hbd.
  pose proof (conservative_bounds _ (bd_policy _ (iv_bounded _ If))) as (_ & _ & Hr). rewrite Pf, Hpol, P, Hp in *. lia.
Qed.

(** A controller at its start, blocked for three seconds. *)
Definition blocked_samples : list (Sample * ReceiverEvidence) :=
  map (fun i => (demo_sample Blocked (Z.of_nat i * 100000), Unobserved)) (seq 1 30).
Definition demo_fast : Policy := mk_policy 1000 200000.
Definition demo_fast_controller : Controller :=
  mk_controller demo_fast 2000 None None not_busy (no_dwell, no_dwell) no_dwell None None Active false None (replicate 16 None) 0.

Lemma blocked_sender_reaches_the_slowest_rate_witness :
  interval (snd (run ([] ++ Update (demo_sample Blocked 0) Unobserved :: updates blocked_samples) demo_fast_controller)) = 200000.
Proof.
  exact (blocked_sender_reaches_the_slowest_rate demo_fast demo_fast_controller [] (demo_sample Blocked 0) Unobserved blocked_samples
           eq_refl (Forall_nil_2 _) ltac:(vm_compute; discriminate) eq_refl ltac:(vm_compute; reflexivity)
           ltac:(vm_compute; discriminate) ltac:(vm_compute; reflexivity)).
Defined.

(** ** The history *)

(** The slots, oldest first, are the last sixteen of a list that began with sixteen
    empty slots. *)
Definition slots (L : list Report) : list (option Report) := replicate 16 None ++ (Some <$> L).
Definition ring_ok (L : list Report) (c : Controller) : Prop :=
  length (decisions c) = 16%nat /\ decision_next c = (length L mod 16)%nat
  /\ forall i, (i < 16)%nat -> decisions c !! ((length L + i) mod 16)%nat = slots L !! (length L + i)%nat.

Lemma slots_snoc L x : slots (L ++ [x]) = slots L ++ [Some x].
Proof. unfold slots. by rewrite fmap_app, app_assoc. Qed.
Lemma history_slots_length L : length (slots L) = (16 + length L)%nat.
Proof. unfold slots. by rewrite length_app, length_replicate, length_fmap. Qed.

Lemma mod16_step n i : (i < 15)%nat -> ((n + 1 + i) mod 16)%nat <> (n mod 16)%nat.
Proof.
  intros Hi E. pose proof (Nat.div_mod_eq (n + 1 + i) 16). pose proof (Nat.div_mod_eq n 16). lia.
Qed.

Lemma ring_push L x c d : ring_ok L c -> decisions d = <[decision_next c := Some x]> (decisions c) ->
  decision_next d = ((decision_next c + 1) mod length (decisions c))%nat -> ring_ok (L ++ [x]) d.
Proof.
  intros (Hlen & Hnext & Hs) Ed En. unfold ring_ok. rewrite Ed, En, Hlen, Hnext, length_insert, length_app. cbn [length]. split; [done|].
  split; [by rewrite Nat.Div0.add_mod_idemp_l|]. intros i Hi. rewrite slots_snoc. destruct (decide (i = 15)%nat) as [->|Hne].
  - replace ((length L + 1 + 15) mod 16)%nat with (length L mod 16)%nat 
      by (rewrite <- (Nat.Div0.mod_add (length L) 1 16); f_equal; lia).
    rewrite list_lookup_insert_eq by (rewrite Hlen; by apply Nat.mod_upper_bound).
    rewrite lookup_app_r; rewrite history_slots_length; [|lia]. by replace (length L + 1 + 15 - (16 + length L))%nat with 0%nat by lia.
  - rewrite list_lookup_insert_ne by (apply not_eq_sym, mod16_step; lia). rewrite lookup_app_l by (rewrite history_slots_length; lia).
    rewrite <- Nat.add_assoc. apply Hs. lia.
Qed.

Lemma omap_slots (n : nat) (E : list (option Report)) : length E = (n + 16)%nat ->
  omap (fun i => mjoin (E !! (n + i)%nat)) (seq 0 16) = omap id (drop n E).
Proof.
  intros Hlen. set (D := drop n E). assert (length D = 16%nat) as HD by (unfold D; rewrite length_drop; lia).
  assert (forall i, E !! (n + i)%nat = D !! i) as Hl by (intros i; unfold D; by rewrite lookup_drop).
  transitivity (omap (fun i => mjoin (D !! i)) (seq 0 (length D))).
  { rewrite HD. generalize (seq 0 16). induction l as [|i l IH]; [done|]. cbn. rewrite Hl. by rewrite <- IH. }
  clear. induction D as [|x D IH]; [done|]. cbn [length seq]. cbn. rewrite <- IH.
  assert (omap (fun i => mjoin ((x :: D) !! i)) (seq 1 (length D)) = omap (fun i => mjoin (D !! i)) (seq 0 (length D))) as ->.
  { rewrite <- seq_shift. generalize (seq 0 (length D)). induction l as [|i l IHl]; [done|].
    cbn [map]. unfold omap in *. cbn [list_omap]. rewrite IHl. done. }
  by destruct x.
Qed.

Lemma ring_history L c : ring_ok L c -> decision_history c = drop (length L - 16) L.
Proof.
  intros (Hlen & Hnext & Hs). unfold decision_history. rewrite Hlen, Hnext.
  transitivity (omap (fun i => mjoin (slots L !! (length L + i)%nat)) (seq 0 16)).
  { assert (forall i, i ∈ seq 0 16 -> (i < 16)%nat) as Hlt by (intros i Hi; apply elem_of_seq in Hi; lia).
    revert Hlt. generalize (seq 0 16). induction l as [|i l IH]; intros Hlt; [done|]. cbn -[Nat.modulo slots].
    rewrite Nat.Div0.add_mod_idemp_l, Hs by (apply Hlt; left). rewrite IH by (intros j Hj; apply Hlt; by right). done. }
  rewrite omap_slots by (rewrite history_slots_length; lia). unfold slots. rewrite drop_app, drop_replicate, length_replicate.
  rewrite omap_app. rewrite <- fmap_drop. generalize (16 - length L)%nat (drop (length L - 16) L). intros k M.
  induction k as [|k IH]; cbn; [|done]. induction M as [|x M IHM]; [done|]. cbn. f_equal. exact IHM.
Qed.

(** The decisions among the reports. *)
Definition decisive (r : Report) : Prop := reason r <> Hold.
#[export] Instance decisive_dec r : Decision (decisive r).
Proof. unfold decisive. apply _. Defined.

Lemma ring_frame L c d : decisions d = decisions c -> decision_next d = decision_next c -> ring_ok L c -> ring_ok L d.
Proof. unfold ring_ok. by intros -> ->. Qed.

Lemma inner_ring s r c : inv c -> 0 <= now_us s ->
  decisions (snd (update_inner s r c)) = decisions c /\ decision_next (snd (update_inner s r c)) = decision_next c.
Proof.
  intros Hi Hn. pose proof (update_inner_spec s r c Hi Hn) as Hs. destruct (update_inner s r c) as [[rep|e] c']; cbn [snd].
  - destruct Hs as (rs & ch & c1 & HP & _ & HD & _).
    by rewrite (dc_decisions _ _ _ _ _ _ _ HD), (dc_next _ _ _ _ _ _ _ HD), (pr_decisions _ _ _ _ HP), (pr_next _ _ _ _ HP).
  - destruct Hs as [->|(rs & HP)]; [done|]. by rewrite (pr_decisions _ _ _ _ HP), (pr_next _ _ _ _ HP).
Qed.

Lemma step_ring op L c : op_typed op -> inv c -> ring_ok L c -> ring_ok (L ++ filter decisive (fst (step op c))) (snd (step op c)).
Proof.
  intros Ht Hi Hr. destruct op as [s r| |]; cbn [step fst snd]; [|by rewrite app_nil_r..].
  destruct (inner_ring s r c Hi Ht) as [Ed En]. unfold update_with_receiver. destruct (closed c); [by rewrite app_nil_r|].
  destruct (update_inner s r c) as [[rep|e] c']; cbn [fst snd] in *; [|rewrite app_nil_r; by apply (ring_frame L c)].
  pose proof (ring_frame L c c' Ed En Hr) as Hr'. rewrite filter_cons, filter_nil. unfold remember, decisive at 1.
  case_bool_decide as Eh.
  - rewrite decide_False by naive_solver. rewrite app_nil_r. by apply (ring_frame L c').
  - rewrite decide_True by done. by eapply ring_push.
Qed.

Lemma run_ring ops : forall L log c, Forall op_typed ops -> inv c -> live_log log c -> ring_ok L c ->
  ring_ok (L ++ filter decisive (fst (run ops c))) (snd (run ops c)).
Proof.
  induction ops as [|op ops IH]; intros L log c Hty Hi Hl Hr; [by rewrite app_nil_r|].
  inversion_clear Hty as [|? ? Ht Hty']. destruct (step_logged op log c Ht Hi Hl) as (I & _ & L1 & _).
  pose proof (step_ring op L c Ht Hi Hr) as Hr1. cbn [run]. destruct (step op c) as [rs1 c1]. cbn [fst snd] in *.
  specialize (IH _ _ c1 Hty' I L1 Hr1). destruct (run ops c1) as [rs2 c2]. cbn [fst snd] in *. by rewrite filter_app, app_assoc.
Qed.

(** The sixteen slots and the wrapping index keep exactly the last sixteen
    decisions in the order they were made: whatever the calls, the history is the
    end of the list of all reports that are not a mere hold. *)
Theorem history_is_the_last_sixteen_decisions p c ops : new p = Ok c -> Forall op_typed ops ->
  let made := filter decisive (fst (run ops c)) in
  decision_history (snd (run ops c)) = drop (length made - 16) made.
Proof.
  intros Hnew Hty. destruct (pacing_new p c Hnew) as (Hi & _ & Hl). apply ring_history.
  apply (run_ring ops [] [] c Hty Hi Hl). unfold new in Hnew. destruct (validate p); [|done]. injection Hnew as <-.
  split; [done|]. split; [done|]. intros i Hi16. do 16 (destruct i as [|i]; [done|]). lia.
Qed.

(** Twenty decisions of a controller whose samples are all too far apart. *)
Definition gap_ops : list Op := map (fun i => Update (demo_sample Ready (Z.of_nat i * 200000)) Unobserved) (seq 0 21).

Lemma history_is_the_last_sixteen_decisions_witness :
  length (filter decisive (fst (run gap_ops demo_controller))) = 20%nat
  /\ length (decision_history (snd (run gap_ops demo_controller))) = 16%nat.
Proof.
  split; [vm_compute; reflexivity|].
  rewrite (history_is_the_last_sixteen_decisions demo_policy demo_controller gap_ops eq_refl).
  - vm_compute. reflexivity.
  - apply Forall_forall. intros op (i & -> & _)%list_elem_of_fmap. cbn -[Z.mul]. lia.
Defined.

End PacingLive.
