(* ===== verification/Bitrate.v ===== *)
(** * Encoder bitrate

    [fr-media/src/bitrate.rs]: the controller that proposes a rate to the encoder
    from the pacing reports, hands it over with a capture, and records a change only
    when that capture's output shows it. *)

From S2P Require Import Prelude.
From S2P Require Import WireMedia.
From S2P Require Import WireView.
From S2P Require Import Pacing.

Module Bitrate.
Import Media(div_ceil).
Import MetricsMsg(retained_pictures, work_us).
Import Pacing(Report, sample, interval_us, r_mode, headroom_us, receiver, now_us, source_work_us, send, capture_credit).
#[local] Existing Instances Pacing.Availability_eq_dec Pacing.Mode_eq_dec Pacing.Reason_eq_dec.

Definition PRESSURE_US : Z := 100000.
Definition CHANGE_DWELL_US : Z := 2000000.
Definition HEADROOM_US : Z := 4000000.
Definition EVIDENCE_GAP_US : Z := 100000.

Inductive Error :=
| InvalidBitrate | ClockRegression | Closed | CaptureInFlight | UnexpectedCapture | UnexpectedBitrate | MissingIdr
| SequenceExhausted.
Inductive Reason := SendPressure | Headroom | EvidenceReset.
#[export] Instance Reason_eq_dec : EqDecision Reason.
Proof. solve_decision. Defined.

Record Change := mk_change { id : Z; bitrate : Z; reason : Reason }.
Record Capture := mk_capture { sequence : Z; c_bitrate : Z; previous : Z }.
#[export] Instance Capture_eq_dec : EqDecision Capture.
Proof. solve_decision. Defined.

(** ** Measured headroom *)

Record HeadroomTimer := mk_headroom { last_positive : option Z; previous_positive : bool; measured_us : Z }.
#[export] Instance eta_headroom : Eta HeadroomTimer := fun h =>
  mk_headroom (last_positive h) (previous_positive h) (measured_us h).
Definition no_headroom : HeadroomTimer := mk_headroom None false 0.

Definition expired (now : Z) (h : HeadroomTimer) : bool :=
  is_some_and (fun last => EVIDENCE_GAP_US <? now - last) (last_positive h).

Definition observe_headroom (now : Z) (positive negative : bool) (h : HeadroomTimer) : Z * HeadroomTimer :=
  let h := if negative || expired now h then no_headroom else h in
  if positive then
    let m := match last_positive h with
             | Some last => if previous_positive h then saturating_add u64_max (measured_us h) (now - last) else measured_us h
             | None => measured_us h
             end in
    (m, mk_headroom (Some now) true m)
  else (0, h <| previous_positive := false |>).

(** ** The controller *)

Record Controller := mk_controller {
  ceiling : Z;
  floor : Z;
  applied : Z;
  pending : option Change;
  in_flight : option Capture;
  native_target : Z;
  next_change : Z;
  next_capture : Z;
  last_now : option Z;
  last_sample : option Z;
  changed_at : option Z;
  pressure_since : option Z;
  headroom : HeadroomTimer;
  closed : bool
}.
#[export] Instance eta_controller : Eta Controller := fun c =>
  mk_controller (ceiling c) (floor c) (applied c) (pending c) (in_flight c) (native_target c) (next_change c) (next_capture c)
    (last_now c) (last_sample c) (changed_at c) (pressure_since c) (headroom c) (closed c).

Abbreviation BM := (M Controller Error).
(** A method given by what it returns and leaves behind. *)
Definition method {A} (f : Controller -> Result Error A * Controller) : BM A := f.

Definition new (initial : Z) : Result Error Controller :=
  if negb ((10000 <=? initial) && (initial <=? 200000000)) then Err InvalidBitrate
  else Ok (mk_controller initial (Z.min (Z.max (initial / 8) 100000) initial) initial None None initial 1 1 None None None None
             no_headroom false).

Definition clear_measurements (c : Controller) : Controller := c <| pressure_since := None |> <| headroom := no_headroom |>.
Definition close (c : Controller) : Controller := clear_measurements (c <| closed := true |> <| pending := None |>).

Definition check_open : BM unit := refuse_if closed (fun _ => Closed).

Definition clock (now : Z) : BM unit :=
  _ ← check_open;
  method (fun c =>
    if is_some_and (fun last => now <? last) (last_now c) then (Err ClockRegression, close c)
    else (Ok tt, c <| last_now := Some now |>)).

(** [checked_add(1).ok_or_else(|| self.exhausted())?] *)
Definition propose (rate : Z) (r : Reason) : BM unit := method (fun c =>
  match checked_add u64_max (next_change c) 1 with
  | None => (Err SequenceExhausted, close c)
  | Some next => (Ok tt, c <| next_change := next |> <| pending := Some (mk_change (next_change c) rate r) |>)
  end).

Definition is_reason (r : Reason) (p : option Change) : bool := is_some_and (fun ch => bool_decide (reason ch = r)) p.

Definition reset_evidence : BM unit :=
  _ ← check_open;
  _ ← modify clear_measurements;
  method (fun c =>
    if is_reason EvidenceReset (pending c) then (Ok tt, c)
    else if native_target c =? applied c then (Ok tt, c <| pending := None |>)
    else propose (applied c) EvidenceReset c).

(** ** Evidence of a report *)

Definition headroom_negative (r : Report) : bool :=
  negb (bool_decide (r_mode r = Pacing.Active))
  || bool_decide (send (sample r) = Pacing.Blocked)
  || bool_decide (capture_credit (sample r) = Pacing.Blocked)
  || is_some_and (fun work => saturating_mul u64_max (interval_us r) 3 / 4 <? work) (source_work_us (sample r))
  || match receiver r with
     | Pacing.Measured l => (1 <? retained_pictures l) || is_some_and (fun work => interval_us r <=? work) (work_us l)
     | _ => false
     end.
Definition is_blocked (r : Report) : bool :=
  bool_decide (r_mode r = Pacing.Active) && bool_decide (send (sample r) = Pacing.Blocked).
Definition is_positive (r : Report) : bool := bool_decide (r_mode r = Pacing.Active) && (0 <? headroom_us r).

(** The time since the sender was first found blocked; the timer starts, goes on or
    is cleared. *)
Definition track_pressure (r : Report) (c : Controller) : Z * Controller :=
  let now := now_us (sample r) in
  if is_blocked r then
    let start := default now (pressure_since c) in (now - start, c <| pressure_since := Some start |>)
  else (0, c <| pressure_since := None |>).

(** Whether a rate is proposed after the timers were updated, and which. *)
Definition propose_for (r : Report) (pressure room : Z) : BM unit := method (fun c =>
  let now := now_us (sample r) in
  if is_some (pending c) || is_some_and (fun at_ => now - at_ <? CHANGE_DWELL_US) (changed_at c) then (Ok tt, c)
  else if is_blocked r && (PRESSURE_US <=? pressure) && (floor c <? applied c)
  then propose (Z.max (applied c / 2) (floor c)) SendPressure c
  else if (HEADROOM_US <=? room) && (applied c <? ceiling c)
  then propose (Z.min (saturating_add u32_max (applied c) (div_ceil (applied c) 16)) (ceiling c)) Headroom c
  else (Ok tt, c)).

Definition observe (r : Report) : BM unit :=
  let now := now_us (sample r) in
  _ ← clock now;
  gap ← gets (fun c => is_some_and (fun last => EVIDENCE_GAP_US <? now - last) (last_sample c));
  _ ← modify (fun c => c <| last_sample := Some now |>);
  let evidence_gap := gap || bool_decide (Pacing.reason r = Pacing.EvidenceGap) in
  _ ← method (fun c =>
    if is_reason Headroom (pending c) && (evidence_gap || headroom_negative r || expired now (headroom c))
    then reset_evidence c else (Ok tt, c));
  _ ← modify (fun c => if evidence_gap then clear_measurements c else c);
  pressure ← method (fun c => let (p, c) := track_pressure r c in (Ok p, c));
  room ← method (fun c =>
    let (m, h) := observe_headroom now (is_positive r) (headroom_negative r) (headroom c) in (Ok m, c <| headroom := h |>));
  propose_for r pressure room.

(** ** Captures *)

Definition begin_capture : BM Capture :=
  _ ← check_open;
  _ ← refuse_if (fun c => is_some (in_flight c)) (fun _ => CaptureInFlight);
  method (fun c =>
    match checked_add u64_max (next_capture c) 1 with
    | None => (Err SequenceExhausted, close c)
    | Some next =>
        let capture := mk_capture (next_capture c) (match pending c with Some ch => bitrate ch | None => applied c end) (applied c) in
        (Ok capture, c <| next_capture := next |> <| native_target := c_bitrate capture |> <| in_flight := Some capture |>)
    end).

(** The effects of a validated completion. *)
Definition settle (cap : Capture) (actual now : Z) (c : Controller) : Controller :=
  let c := c <| in_flight := None |> in
  let c := if actual =? applied c then c
           else clear_measurements (c <| applied := actual |> <| changed_at := Some now |>) in
  if is_some_and (fun ch => (bitrate ch =? actual) && (c_bitrate cap =? actual)) (pending c)
  then c <| pending := None |> else c.

Definition complete_capture (cap : Capture) (actual : Z) (is_idr : bool) (now : Z) : BM unit :=
  _ ← check_open;
  _ ← refuse_if (fun c => negb (bool_decide (in_flight c = Some cap)) || negb (applied c =? previous cap))
                (fun _ => UnexpectedCapture);
  _ ← refuse_if (fun _ => negb (actual =? previous cap) && negb (actual =? c_bitrate cap)) (fun _ => UnexpectedBitrate);
  _ ← refuse_if (fun c => negb (actual =? applied c) && negb is_idr) (fun _ => MissingIdr);
  _ ← clock now;
  modify (settle cap actual now).

(** ** Calls *)

Inductive Op :=
| Observe (r : Report)
| BeginCapture
| CompleteCapture (cap : Capture) (actual : Z) (is_idr : bool) (now : Z)
| ResetEvidence
| Close.

(** What a call shows: a report that was taken in, the rate of a capture that was
    begun, evidence withdrawn by the caller, and a change of the encoder's rate. *)
Inductive Event := Observed (r : Report) | Started (rate : Z) | Withdrew | Changed (at_ from to : Z).

Definition call (op : Op) (c : Controller) : list Event * Controller :=
  match op with
  | Observe r => let (x, c) := observe r c in (if is_ok x then [Observed r] else [], c)
  | BeginCapture =>
      let (x, c) := begin_capture c in (match x with Ok cap => [Started (c_bitrate cap)] | Err _ => [] end, c)
  | CompleteCapture cap actual idr now => ([], snd (complete_capture cap actual idr now c))
  | ResetEvidence => let (x, c) := reset_evidence c in (if is_ok x then [Withdrew] else [], c)
  | Close => ([], close c)
  end.

Definition step (op : Op) (c : Controller) : list Event * Controller :=
  let (es, c') := call op c in
  (es ++ (if applied c' =? applied c then [] else [Changed (default 0 (last_now c')) (applied c) (applied c')]), c').

Fixpoint run (ops : list Op) (c : Controller) : list Event * Controller :=
  match ops with
  | [] => ([], c)
  | op :: ops => let (es, c) := step op c in let (es', c) := run ops c in (es ++ es', c)
  end.

End Bitrate.
