(* ===== verification/BitrateClaims.v ===== *)
(** Encoder bitrate: the invariant of the controller and the claims over histories. *)

From S2P Require Import Prelude.
From S2P Require Import WireMedia.
From S2P Require Import WireView.
From S2P Require Import Pacing.
From S2P Require Import PacingClaims.
From S2P Require Import Bitrate.

(** * Encoder bitrate: why the rate changes

    The controller's pending decision, its capture in flight and the target the
    encoder holds, related to the reports observed and the changes made so far. *)

Module BitrateProps.
Import Media(div_ceil).
Import Pacing(Report, sample, interval_us, r_mode, headroom_us, receiver, now_us, source_work_us, send, capture_credit).
Import PacingProps(past, past_none, past_some, past_mono).
Import PacingClaims(time, near, in_order, follows, measured_by, credit_by, in_order_time, measured_by_nonneg, credit_by_nonneg,
  measured_by_cons, measured_by_credit).
Import Bitrate.
#[local] Existing Instances Pacing.Availability_eq_dec Pacing.Mode_eq_dec Pacing.Reason_eq_dec.

(** ** Evidence in the reports *)

Definition is_gap (r : Report) : bool := bool_decide (Pacing.reason r = Pacing.EvidenceGap).

(** How long the sender has been blocked, without a gap in the evidence. *)
Definition press_joins (r r0 : Report) : bool := is_blocked r && is_blocked r0 && near r r0 && negb (is_gap r).
Definition press_ends (r : Report) : bool := negb (is_blocked r) || is_gap r.
Definition blocked_for : list Report -> Z := measured_by press_joins press_ends.

(** How much time was measured between adjacent reports of headroom. *)
Definition room_joins (r r0 : Report) : bool :=
  is_positive r && is_positive r0 && near r r0 && negb (is_gap r) && negb (headroom_negative r).
Definition room_ends (r : Report) : bool := headroom_negative r || is_gap r.
Definition room_for : list Report -> Z := measured_by room_joins room_ends.

(** ** Events, newest first *)

Definition report_of (e : Event) : option Report := match e with Observed r => Some r | _ => None end.
Definition reports (es : list Event) : list Report := omap report_of es.

Definition no_change (es : list Event) : Prop := forall t a b, Changed t a b ∉ es.
(** Every change was two seconds before [T], or earlier. *)
Definition settled_by (T : Z) (es : list Event) : Prop := forall t a b, Changed t a b ∈ es -> t + CHANGE_DWELL_US <= T.

(** A rate decided on evidence: since the report that tipped the balance nothing
    changed, and before it nothing changed for two seconds. *)
Definition fresh (lo hi : Z) (log : list Event) (from to : Z) : Prop :=
  exists mid r pre, log = mid ++ Observed r :: pre /\ no_change mid /\ settled_by (time r) pre
    /\ (PRESSURE_US <= blocked_for (r :: reports pre) /\ to = Z.max (from / 2) lo
        \/ HEADROOM_US <= room_for (r :: reports pre) /\ to = Z.min (from + div_ceil from 16) hi).

(** What may happen while a capture is on its way to the encoder. *)
Definition on_way (e : Event) : Prop := match e with Observed _ | Withdrew => True | _ => False end.

(** A report that takes the ground from a raise: there is no evidence in it, or against
    it, or none came before it for a tenth of a second, or the newest report of
    headroom is older than that. *)
Definition discredits (r : Report) (earlier : list Report) : Prop :=
  is_gap r = true \/ headroom_negative r = true
  \/ match earlier with r0 :: _ => near r r0 = false | [] => False end
  \/ exists r1, r1 ∈ earlier /\ is_positive r1 = true /\ near r r1 = false
       /\ forall r2, r2 ∈ earlier -> is_positive r2 = true -> time r2 <= time r1.

(** The evidence for the change from [from] to [to] is withdrawn: by the caller, or, for
    a raise, by a report. *)
Definition withdraws (e : Event) (from to : Z) (earlier : list Event) : Prop :=
  e = Withdrew \/ from < to /\ exists r, e = Observed r /\ discredits r (reports earlier).

(** The capture with the rate [to] is on its way. *)
Definition carried (log : list Event) (to : Z) : Prop :=
  exists l1 l2, log = l1 ++ Started to :: l2 /\ Forall on_way l1.
(** The evidence for it was withdrawn on that way. *)
Definition withdrawn (log : list Event) (from to : Z) : Prop :=
  exists l1 e l2 l3, log = l1 ++ e :: l2 ++ Started to :: l3 /\ Forall on_way l1 /\ Forall on_way l2
    /\ withdraws e from to (l2 ++ Started to :: l3).

(** A rate that takes back the last change.  That change was not rushed itself, and its
    evidence was withdrawn after the capture that brought it had been begun. *)
Definition restores (log : list Event) (from to : Z) : Prop :=
  exists mid t pre, log = mid ++ Changed t to from :: pre /\ no_change mid /\ settled_by t pre /\ withdrawn pre to from.

Definition no_rate (e : Event) : Prop := match e with Changed _ _ _ => False | _ => True end.
Lemma on_way_no_rate e : on_way e -> no_rate e.
Proof. by destruct e. Qed.

Lemma no_change_cons e es : no_rate e -> no_change es -> no_change (e :: es).
Proof. intros He H t a b [<-|Hin]%elem_of_cons; [done|by apply (H t a b)]. Qed.
Lemma no_change_nil : no_change [].
Proof. intros t a b Hin. by apply not_elem_of_nil in Hin. Qed.
Lemma settled_mono T T' es : T <= T' -> settled_by T es -> settled_by T' es.
Proof. intros Hle H t a b Hin. specialize (H t a b Hin). lia. Qed.

Lemma fresh_cons lo hi e log from to : no_rate e -> fresh lo hi log from to -> fresh lo hi (e :: log) from to.
Proof. intros He (mid & r0 & pre & -> & Hn & H). exists (e :: mid), r0, pre. split; [done|]. split; [by apply no_change_cons|done]. Qed.
Lemma restores_cons e log from to : no_rate e -> restores log from to -> restores (e :: log) from to.
Proof. intros He (mid & t & pre & -> & Hn & H). exists (e :: mid), t, pre. split; [done|]. split; [by apply no_change_cons|done]. Qed.
Lemma carried_cons e log to : on_way e -> carried log to -> carried (e :: log) to.
Proof. intros He (l1 & l2 & -> & H). exists (e :: l1), l2. split; [done|by constructor]. Qed.
Lemma withdrawn_cons e log from to : on_way e -> withdrawn log from to -> withdrawn (e :: log) from to.
Proof. intros He (l1 & e0 & l2 & l3 & -> & H1 & H2). exists (e :: l1), e0, l2, l3. split; [done|]. split; [by constructor|done]. Qed.
Lemma withdrawn_now e log from to : withdraws e from to log -> carried log to -> withdrawn (e :: log) from to.
Proof. intros He (l2 & l3 & -> & H). exists [], e, l2, l3. by split_and!. Qed.

(** ** The invariant *)

Definition now_of (c : Controller) : Z := default 0 (last_now c).

Record core (log : list Event) (c : Controller) : Prop := {
  co_limits : 10000 <= ceiling c <= 200000000 /\ 0 < floor c <= ceiling c;
  co_applied : floor c <= applied c <= ceiling c;
  co_rates t a b : Changed t a b ∈ log -> floor c <= a <= ceiling c;
  co_clock : 0 <= now_of c;
  co_reports r : Observed r ∈ log -> time r <= now_of c;
  co_changed_at : past (now_of c) (changed_at c);
  co_changed t a b : Changed t a b ∈ log -> exists w, changed_at c = Some w /\ t <= w;
  co_native : pending c = None -> native_target c = applied c;
  co_flight A : in_flight c = Some A -> previous A = applied c /\ native_target c = c_bitrate A
    /\ carried log (c_bitrate A)
    /\ (c_bitrate A = applied c
        \/ fresh (floor c) (ceiling c) log (applied c) (c_bitrate A)
           /\ (exists P, pending c = Some P /\ (bitrate P = c_bitrate A
              \/ bitrate P = applied c /\ reason P = EvidenceReset /\ withdrawn log (applied c) (c_bitrate A)))
        \/ restores log (applied c) (c_bitrate A)
           /\ exists P, pending c = Some P /\ bitrate P = c_bitrate A /\ reason P = EvidenceReset);
  co_pending P : pending c = Some P ->
    if bool_decide (reason P = EvidenceReset) then bitrate P = applied c \/ restores log (applied c) (bitrate P)
    else fresh (floor c) (ceiling c) log (applied c) (bitrate P);
  co_rise P : pending c = Some P -> reason P = Headroom -> applied c < bitrate P
}.

(** The newest report of headroom is that of [l]. *)
Definition newest_positive (l : Z) (rs : list Report) : Prop :=
  exists r1, r1 ∈ rs /\ is_positive r1 = true /\ time r1 = l /\ forall r2, r2 ∈ rs -> is_positive r2 = true -> time r2 <= l.

Record gauges (log : list Event) (c : Controller) : Prop := {
  ga_order : in_order (reports log);
  ga_pressure start : pressure_since c = Some start ->
    match reports log with
    | r :: _ => is_blocked r = true /\ start <= time r /\ time r - start <= credit_by press_joins press_ends (reports log)
    | [] => False
    end;
  ga_measured : 0 <= measured_us (headroom c) <= credit_by room_joins room_ends (reports log);
  ga_positive : previous_positive (headroom c) = true ->
    match reports log with r :: _ => is_positive r = true /\ last_positive (headroom c) = Some (time r) | [] => False end;
  ga_last l : last_positive (headroom c) = Some l -> newest_positive l (reports log)
}.

Record timers (log : list Event) (c : Controller) : Prop := {
  ti_sample : last_sample c = time <$> head (reports log);
  ti_gauges : gauges log c
}.

Record inv (log : list Event) (c : Controller) : Prop := { iv_core : core log c; iv_timers : timers log c }.

(** A controller with its events; after an error of its own it takes no more. *)
Definition live (log : list Event) (c : Controller) : Prop := closed c = true \/ inv log c.

Lemma core_passes e log c : no_rate e -> (on_way e \/ in_flight c = None) -> (forall r, e = Observed r -> time r <= now_of c) ->
  core log c -> core (e :: log) c.
Proof.
  intros He Hw Hr [A B C C0 C1 C2 D E F G H]. split; try done.
  - intros t a b [<-|Hin]%elem_of_cons; [done|by apply (C t a b)].
  - intros r0 [<-|Hin]%elem_of_cons; [by apply Hr|by apply C1].
  - intros t a b [<-|Hin]%elem_of_cons; [done|by apply (D t a b)].
  - intros A0 HA. destruct Hw as [Hw|?]; [|congruence]. destruct (F A0 HA) as (? & ? & Hc & Hcase).
    split_and!; [done|done|by apply carried_cons|]. destruct Hcase as [?|[(Hf & P & EP & HP)|[? ?]]]; [by left|right; left|right; right].
    + split; [by apply fresh_cons|]. exists P. split; [done|]. destruct HP as [?|(? & ? & ?)]; [by left|right]. split_and!; [done..|].
      by apply withdrawn_cons.
    + split; [by apply restores_cons|done].
  - intros P HP. specialize (G P HP). case_bool_decide; [|by apply fresh_cons]. destruct G; [by left|right; by apply restores_cons].
Qed.

Lemma clear_gauges log c c' : headroom c' = no_headroom -> pressure_since c' = None -> gauges log c -> gauges log c'.
Proof.
  intros Eh Ep [A B C D E]. split; rewrite ?Eh, ?Ep; try done. cbn. pose proof (credit_by_nonneg room_joins room_ends _ A). lia.
Qed.

Lemma clear_timers log c c' : headroom c' = no_headroom -> pressure_since c' = None -> last_sample c' = last_sample c ->
  timers log c -> timers log c'.
Proof. intros Eh Ep Es [A B]. split; [congruence|by eapply clear_gauges]. Qed.

(** The timers depend on three fields. *)
Lemma same_gauges log c c' : headroom c' = headroom c -> pressure_since c' = pressure_since c -> gauges log c -> gauges log c'.
Proof. intros Eh Ep [A B C D E]. split; rewrite ?Eh, ?Ep; done. Qed.
Lemma same_timers log c c' : headroom c' = headroom c -> pressure_since c' = pressure_since c -> last_sample c' = last_sample c ->
  timers log c -> timers log c'.
Proof. intros Eh Ep Es [A B]. split; [congruence|by eapply same_gauges]. Qed.

(** ** Clocks and resets *)

Definition at_time (now : Z) (c : Controller) : Controller := c <| last_now := Some now |>.

Lemma bitrate_clock_spec now c : closed c = false ->
  wp (clock now) c (fun x c' => match x with
    | Ok _ => c' = at_time now c /\ past now (last_now c)
    | Err _ => closed c' = true /\ applied c' = applied c
    end).
Proof.
  intros Hc. unfold wp, clock, check_open, refuse_if, mbind, M_bind, method. rewrite Hc.
  destruct (is_some_and _ _) eqn:El; [done|]. split; [done|]. intros t E. rewrite E in El. by apply Z.ltb_ge.
Qed.

Lemma core_at_time now log c : 0 <= now -> past now (last_now c) -> core log c -> core log (at_time now c).
Proof.
  intros Hn Hp [A B C C0 C1 C2 D E F G H]. assert (now_of c <= now) as Hle.
  { unfold now_of. destruct (last_now c) as [t|]; [by apply Hp|done]. }
  split; try done.
  - intros r Hr. specialize (C1 r Hr). change (time r <= now). lia.
  - by eapply past_mono.
Qed.
Lemma timers_at_time now log c : timers log c -> timers log (at_time now c).
Proof. by apply same_timers. Qed.

(** A proposal, or the end of the numbers. *)
Lemma propose_spec rate r c : wp (propose rate r) c (fun x c' => match x with
    | Ok _ => exists n i, c' = c <| next_change := n |> <| pending := Some (mk_change i rate r) |>
    | Err _ => closed c' = true /\ applied c' = applied c
    end).
Proof. unfold wp, propose, method. destruct (checked_add _ _ _) as [n|]; [by exists n, (next_change c)|done]. Qed.

Lemma core_cleared log c : core log c -> core log (clear_measurements c).
Proof. by intros []. Qed.

Lemma core_reset e log c n i : on_way e -> (forall r, e = Observed r -> time r <= now_of c) -> core log c ->
  is_reason EvidenceReset (pending c) = false ->
  (forall A, in_flight c = Some A -> c_bitrate A <> applied c -> withdraws e (applied c) (c_bitrate A) log) ->
  core (e :: log) (c <| next_change := n |> <| pending := Some (mk_change i (applied c) EvidenceReset) |>).
Proof.
  intros He Hr Hco Hres Hw. pose proof (core_passes e log c (on_way_no_rate e He) (or_introl He) Hr Hco) as [A B C C0 C1 C2 D E F G H].
  split; try done.
  - intros A0 HA. destruct (F A0 HA) as (? & ? & Hc & [?|[[Hf _]|[_ (P & EP & _ & ER)]]]); (split; [done|]; split; [done|]; split; [done|]).
    + by left.
    + destruct (decide (c_bitrate A0 = applied c)); [by left|]. right; left. split; [done|]. eexists; split; [done|]. right.
      split; [done|]. split; [done|]. apply withdrawn_now; [by apply Hw|]. by destruct (co_flight _ _ Hco A0 HA) as (_ & _ & ? & _).
    + rewrite EP in Hres. cbn in Hres. rewrite bool_decide_eq_true_2 in Hres; done.
  - intros P [= <-]. by left.
  - by intros P [= <-].
Qed.

Lemma core_drop log c : core log c -> native_target c = applied c -> core log (c <| pending := None |>).
Proof.
  intros [A B C C0 C1 C2 D E F G H] Hn. split; try done. intros A0 HA. destruct (F A0 HA) as (? & HnA & ? & _).
  split_and!; [done|done|done|left; change (c_bitrate A0 = applied c); congruence].
Qed.

(** Why the event [e] withdraws what is pending, if anything. *)
Definition reset_by (e : Event) (log : list Event) (c : Controller) : Prop :=
  e = Withdrew \/ is_reason Headroom (pending c) = true /\ exists r, e = Observed r /\ time r <= now_of c /\ discredits r (reports log).

Lemma reset_by_withdraws e log c A : core log c -> reset_by e log c -> in_flight c = Some A -> c_bitrate A <> applied c ->
  withdraws e (applied c) (c_bitrate A) log.
Proof.
  intros Hco [->|(Hh & r & -> & _ & Hd)] HA Hne; [by left|]. right. split; [|by exists r].
  destruct (co_flight _ _ Hco A HA) as (_ & _ & _ & [?|[(_ & P & EP & HP)|(_ & P & EP & _ & ER)]]); [done|..];
    rewrite EP in Hh; cbn in Hh; apply bool_decide_eq_true in Hh.
  - destruct HP as [<-|(_ & ? & _)]; [|congruence]. by apply (co_rise _ _ Hco).
  - congruence.
Qed.

Lemma reset_evidence_spec e log c : closed c = false -> core log c -> gauges log c -> reset_by e log c ->
  wp reset_evidence c (fun x c' => applied c' = applied c /\ match x with
    | Ok _ => core (e :: log) c' /\ gauges log c' /\ closed c' = false /\ last_now c' = last_now c /\ last_sample c' = last_sample c
    | Err _ => closed c' = true
    end).
Proof.
  intros Hc Hco Hti Hre. unfold reset_evidence, check_open. apply wp_refuse. rewrite Hc. apply wp_modify. unfold wp, method.
  pose proof (core_cleared _ _ Hco) as Hco'. assert (gauges log (clear_measurements c)) as Hti' by (by apply (clear_gauges log c)).
  assert (on_way e /\ forall r, e = Observed r -> time r <= now_of c) as [He Hr]
    by (destruct Hre as [->|(_ & r & -> & ? & _)]; split; try done; by intros ? [= <-]).
  pose proof (core_passes e log (clear_measurements c) (on_way_no_rate e He) (or_introl He) Hr Hco') as Hco1.
  destruct (is_reason _ _) eqn:Er; [by split_and!|].
  destruct (Z.eqb_spec (native_target (clear_measurements c)) (applied (clear_measurements c))) as [En|En].
  - split; [done|]. split_and!; try done; [by apply core_drop|]. by apply (same_gauges log (clear_measurements c)).
  - pose proof (propose_spec (applied (clear_measurements c)) EvidenceReset (clear_measurements c)) as Hp. unfold wp in Hp.
    destruct (propose _ _ _) as [[[]|err] c']; cbn [fst snd] in *; [|by destruct Hp as [? ->]].
    destruct Hp as (n & i & ->). split; [done|]. split_and!; try done; [|by apply (same_gauges log (clear_measurements c))].
    apply (core_reset e log (clear_measurements c)); try done. intros A HA Hne. by apply (reset_by_withdraws e log c).
Qed.

(** ** Captures *)

Lemma timers_skip e log c : report_of e = None -> timers log c -> timers (e :: log) c.
Proof.
  intros He [A B]. assert (reports (e :: log) = reports log) as E by (unfold reports; cbn; by rewrite He).
  destruct B as [B1 B2 B3 B4 B5]. split; [by rewrite E|]. split; by rewrite E.
Qed.

Lemma begin_capture_spec log c : closed c = false -> inv log c ->
  wp begin_capture c (fun x c' => applied c' = applied c /\ match x with
    | Ok cap => inv (Started (c_bitrate cap) :: log) c'
    | Err _ => closed c' = true \/ c' = c
    end).
Proof.
  intros Hc [Hco Hti]. unfold begin_capture, check_open. apply wp_refuse. rewrite Hc. apply wp_refuse.
  destruct (is_some (in_flight c)) eqn:Ef; [auto|]. unfold wp, method. destruct (checked_add _ _ _) as [n|]; cbn [fst snd]; [|auto].
  split; [done|]. assert (in_flight c = None) as Hfl by (by destruct (in_flight c)).
  split; [|apply timers_skip; [done|by apply (same_timers log c)]].
  set (rate := match pending c with Some ch => bitrate ch | None => applied c end).
  change (c_bitrate (mk_capture (next_capture c) rate (applied c))) with rate.
  destruct (core_passes (Started rate) log c I (or_intror Hfl) ltac:(done) Hco) as [A B C C0 C1 C2 D E F G H]. split; try done.
  - intros Hp. change (pending c = None) in Hp. change (rate = applied c). unfold rate. by rewrite Hp.
  - intros A0 HA. injection HA as <-. split; [done|]. split; [done|]. split; [by exists [], log|]. cbn [c_bitrate].
    change (pending (_ <| in_flight := _ |>)) with (pending c). unfold rate in *.
    destruct (pending c) as [P|] eqn:EP; [|by left]. specialize (G P eq_refl).
    case_bool_decide as ER; [destruct G as [G|G]; [by left|]|].
    + right; right. split; [done|]. by exists P.
    + right; left. split; [done|]. exists P. auto.
Qed.

(** Why the capture in flight may change the rate. *)
Definition caused (c : Controller) (log : list Event) (to : Z) : Prop :=
  fresh (floor c) (ceiling c) log (applied c) to \/ restores log (applied c) to.

Lemma fresh_settled log c from to : core log c -> fresh (floor c) (ceiling c) log from to -> settled_by (now_of c) log.
Proof.
  intros Hco (mid & r & pre & -> & Hn & Hs & _) t a b [Hin|[?|Hin]%elem_of_cons]%elem_of_app; [by apply Hn in Hin|done|].
  specialize (Hs t a b Hin). assert (time r <= now_of c) by (apply Hco; set_solver). lia.
Qed.

Lemma fresh_rate c log to : core log c -> fresh (floor c) (ceiling c) log (applied c) to -> floor c <= to <= ceiling c.
Proof.
  intros Hco (mid & r & pre & _ & _ & _ & H). pose proof (co_limits _ _ Hco). pose proof (co_applied _ _ Hco).
  destruct H as [[_ ->]|[_ ->]].
  - pose proof (Z.div_le_upper_bound (applied c) 2 (applied c)). lia.
  - unfold div_ceil. pose proof (Z.div_pos (applied c) 16). destruct (0 <? _); lia.
Qed.

Lemma caused_rate c log to : core log c -> caused c log to -> floor c <= to <= ceiling c.
Proof.
  intros Hco [H|(mid & t & pre & E & _)]; [by eapply fresh_rate|].
  apply (co_rates _ _ Hco t to (applied c)). rewrite E. set_solver.
Qed.

Lemma settle_same A log c : core log c -> in_flight c = Some A -> core log (settle A (applied c) (now_of c) c).
Proof.
  intros [L B C C0 C1 C2 D E F G H] HA. destruct (F A HA) as (Hp & Hn & _ & Hcase). unfold settle.
  change (applied (c <| in_flight := None |>)) with (applied c). rewrite Z.eqb_refl.
  destruct (is_some_and _ _) eqn:Es; [|split; done]. split; try done. intros _.
  change (pending (c <| in_flight := None |>)) with (pending c) in Es. destruct (pending c) as [P|]; [|done]. cbn in Es.
  apply andb_true_iff in Es as [_ Es%Z.eqb_eq]. change (native_target c = applied c). congruence.
Qed.

Lemma settle_changed A log c : core log c -> in_flight c = Some A -> c_bitrate A <> applied c -> last_now c <> None ->
  core (Changed (now_of c) (applied c) (c_bitrate A) :: log) (settle A (c_bitrate A) (now_of c) c) /\ caused c log (c_bitrate A).
Proof.
  intros Hco HA Hne Hln. destruct (co_flight _ _ Hco A HA) as (Hp & Hn & _ & Hcase). destruct Hcase as [?|Hcase]; [done|].
  assert (caused c log (c_bitrate A)) as Hcause by (unfold caused; destruct Hcase as [[? _]|[? _]]; auto).
  split; [|done]. pose proof (caused_rate _ _ _ Hco Hcause) as Hrate.
  pose proof (co_applied _ _ Hco) as Happ. pose proof Hco as [L B C C0 C1 C2 D E F G H].
  unfold settle. change (applied (c <| in_flight := None |>)) with (applied c). rewrite (proj2 (Z.eqb_neq (c_bitrate A) (applied c)) ltac:(done)).
  set (c2 := clear_measurements _).
  assert (forall c3, ceiling c3 = ceiling c -> floor c3 = floor c -> applied c3 = c_bitrate A -> last_now c3 = last_now c ->
    changed_at c3 = Some (now_of c) -> in_flight c3 = None -> native_target c3 = native_target c ->
    (pending c3 = None \/ pending c3 = pending c /\ exists P, pending c = Some P /\ bitrate P = applied c /\ reason P = EvidenceReset
       /\ fresh (floor c) (ceiling c) log (applied c) (c_bitrate A) /\ withdrawn log (applied c) (c_bitrate A)) ->
    core (Changed (now_of c) (applied c) (c_bitrate A) :: log) c3) as Hgen.
  { intros c3 E1 E2 E3 E4 E5 E6 E7 E8. assert (now_of c3 = now_of c) as Enow by (unfold now_of; by rewrite E4).
    split; rewrite ?E1, ?E2, ?E3, ?E5, ?Enow; try done.
    - intros t a b [[= -> -> ->]|Hin]%elem_of_cons; [done|by apply (C t a b)].
    - intros r [?|Hin]%elem_of_cons; [done|by apply C1].
    - by apply past_some.
    - intros t a b [[= -> -> ->]|Hin]%elem_of_cons; [by exists (now_of c)|]. exists (now_of c). split; [done|].
      destruct (D t a b Hin) as (w & Ew & Hle). specialize (C2 w Ew). lia.
    - intros _. by rewrite E7.
    - intros A0. by rewrite E6.
    - intros P HP. destruct E8 as [E8|(E8 & P' & EP & Eb & Er & Hf & Hwd)]; [congruence|]. rewrite E8, EP in HP. injection HP as <-.
      rewrite Er. rewrite bool_decide_eq_true_2 by done. right. exists [], (now_of c), log. rewrite Eb. split; [done|].
      split; [apply no_change_nil|]. split; [by eapply fresh_settled|done].
    - intros P HP HR. destruct E8 as [E8|(E8 & P' & EP & _ & Er & _)]; congruence. }
  change (pending c2) with (pending c). destruct Hcase as [[Hf (P & EP & HP)]|[Hre (P & EP & Eb & Er)]]; rewrite EP; cbn [is_some_and].
  - destruct HP as [Eb|(Eb & Er & Hwd)]; rewrite Eb.
    + rewrite Z.eqb_refl. apply Hgen; try done. by left.
    + rewrite (proj2 (Z.eqb_neq (applied c) (c_bitrate A))) by congruence. apply Hgen; try done. right. split; [done|]. by exists P.
  - rewrite Eb, Z.eqb_refl. apply Hgen; try done. by left.
Qed.

Lemma settle_timers A x now log c : timers log c -> timers log (settle A x now c).
Proof.
  intros Ht. unfold settle. set (c1 := if x =? _ then _ else _). assert (timers log c1) as Ht1.
  { unfold c1. destruct (_ =? _); [by apply (same_timers log c)|]. by apply (clear_timers log c). }
  destruct (is_some_and _ _); [by apply (same_timers log c1)|done].
Qed.

Lemma complete_capture_spec A actual idr now log c : closed c = false -> inv log c -> 0 <= now ->
  wp (complete_capture A actual idr now) c (fun x c' => match x with
    | Ok _ => applied c' = applied c /\ inv log c'
              \/ applied c' <> applied c /\ inv (Changed (now_of c') (applied c) (applied c') :: log) c'
                 /\ caused c log (applied c') /\ idr = true /\ applied c' = c_bitrate A
    | Err _ => applied c' = applied c /\ (closed c' = true \/ c' = c)
    end).
Proof.
  intros Hc [Hco Hti] Hn. unfold complete_capture, check_open. apply wp_refuse. rewrite Hc.
  apply wp_refuse. destruct (_ || _) eqn:E1; [auto|]. apply orb_false_iff in E1 as [E1%negb_false_iff%bool_decide_eq_true E2%negb_false_iff%Z.eqb_eq].
  apply wp_refuse. destruct (_ && _) eqn:E3; [auto|]. apply wp_refuse. destruct (negb (actual =? applied c) && negb idr) eqn:E4; [auto|].
  apply wp_bind, (wp_mono _ _ _ _ (bitrate_clock_spec now c Hc)). intros [[]|e] c1; [|intros [? ?]; auto].
  intros [-> Hp]. unfold wp, modify. cbn [fst snd]. set (c1 := at_time now c).
  pose proof (core_at_time now log c Hn Hp Hco) as Hco1. fold c1 in Hco1.
  pose proof (timers_at_time now log c Hti) as Hti1. fold c1 in Hti1.
  destruct (Z.eqb_spec actual (applied c)) as [Ea|Ea].
  - left. rewrite Ea. pose proof (settle_same A log c1 Hco1 E1) as H1. pose proof (settle_timers A (applied c) now log c1 Hti1) as H2.
    split; [|by split]. unfold settle. rewrite Z.eqb_refl. by destruct (is_some_and _ _).
  - right. assert (idr = true) as -> by (by destruct idr). assert (actual = c_bitrate A) as ->.
    { apply andb_false_iff in E3 as [E3%negb_false_iff%Z.eqb_eq|E3%negb_false_iff%Z.eqb_eq]; congruence. }
    destruct (settle_changed A log c1 Hco1 E1 Ea ltac:(done)) as [H1 H3].
    pose proof (settle_timers A (c_bitrate A) now log c1 Hti1) as H2.
    assert (applied (settle A (c_bitrate A) now c1) = c_bitrate A /\ now_of (settle A (c_bitrate A) now c1) = now) as [-> ->].
    { unfold settle. change (applied (c1 <| in_flight := None |>)) with (applied c). rewrite (proj2 (Z.eqb_neq (c_bitrate A) (applied c)) ltac:(done)). by destruct (is_some_and _ _). }
    split_and!; try done. split; [done|]. by apply timers_skip.
Qed.

(** ** Observations *)

Section observation.
Context (r : Report) (log : list Event) (c : Controller).
Context (Ho : in_order (r :: reports log)) (Hg : gauges log c).
(** A gap in the evidence has cleared the timers. *)
Context (Hgap : is_gap r = true \/ match reports log with r0 :: _ => near r r0 = false | [] => False end ->
          pressure_since c = None /\ headroom c = no_headroom).

Lemma near_of r0 rest : reports log = r0 :: rest -> pressure_since c <> None \/ headroom c <> no_headroom ->
  near r r0 = true /\ is_gap r = false.
Proof using Hgap.
  intros E Hne. split.
  - destruct (near r r0) eqn:En; [done|]. rewrite E in Hgap. destruct Hgap as [E1 E2]; [by right|]. destruct Hne; congruence.
  - destruct (is_gap r) eqn:En; [|done]. destruct Hgap as [E1 E2]; [by left|]. destruct Hne; congruence.
Qed.

Lemma pressure_next : is_blocked r = true ->
  default (time r) (pressure_since c) <= time r
  /\ time r - default (time r) (pressure_since c) <= blocked_for (r :: reports log)
  /\ time r - default (time r) (pressure_since c) <= credit_by press_joins press_ends (r :: reports log).
Proof using Ho Hg Hgap.
  intros Hb. pose proof near_of as Hnear. pose proof (measured_by_nonneg press_joins press_ends _ Ho) as Hm. pose proof (credit_by_nonneg press_joins press_ends _ Ho) as Hc.
  unfold blocked_for. destruct (pressure_since c) as [start|] eqn:Ep; cbn [default]; unfold Datatypes.id; [|lia].
  pose proof (ga_pressure _ _ Hg start Ep) as Hp. destruct (reports log) as [|r0 rest] eqn:El; [done|]. destruct Hp as (Hb0 & Hle & Hcr).
  destruct (Hnear r0 rest eq_refl) as [Hn Hgp]; [by left|]. pose proof Ho as [Hf _]. cbn in Hf.
  assert (time r - start <= measured_by press_joins press_ends (r :: r0 :: rest)).
  { rewrite measured_by_cons. unfold press_joins at 1. rewrite Hb, Hb0, Hn, Hgp. cbn [andb negb]. lia. }
  split_and!; [lia|done|]. unfold credit_by, press_ends at 1. by rewrite Hb, Hgp.
Qed.

Lemma room_next :
  let mh := observe_headroom (time r) (is_positive r) (headroom_negative r) (headroom c) in
  fst mh <= room_for (r :: reports log)
  /\ 0 <= measured_us (snd mh) <= credit_by room_joins room_ends (r :: reports log)
  /\ (previous_positive (snd mh) = true -> is_positive r = true /\ last_positive (snd mh) = Some (time r)).
Proof using Ho Hg Hgap.
  pose proof near_of as Hnear. pose proof (measured_by_nonneg room_joins room_ends _ Ho) as Hm. pose proof (credit_by_nonneg room_joins room_ends _ Ho) as Hc.
  pose proof (measured_by_credit room_joins room_ends _ _ Ho) as Hmc. pose proof (ga_measured _ _ Hg) as Hme.
  unfold observe_headroom, room_for. set (h := if _ || _ then _ else _).
  assert (0 <= measured_us h /\ (room_ends r = true -> measured_us h = 0) /\ measured_us h <= credit_by room_joins room_ends (reports log)) as (Hh0 & Hhe & Hhc).
  { unfold h. destruct (headroom_negative r || _) eqn:En.
    - cbn. pose proof (credit_by_nonneg room_joins room_ends _ (ga_order _ _ Hg)). split_and!; [lia|done|lia].
    - split_and!; [lia| |lia]. apply orb_false_iff in En as [En _]. unfold room_ends. rewrite En. intros Eg. cbn in Eg.
      destruct (Hgap (or_introl Eg)) as [_ ->]. done. }
  assert (forall m, 0 <= m <= measured_by room_joins room_ends (r :: reports log) -> (room_ends r = true -> m = 0) ->
    0 <= m <= credit_by room_joins room_ends (r :: reports log)) as Hcredit.
  { intros m Hm0 Hz. split; [lia|]. unfold credit_by. destruct (room_ends r); [rewrite Hz by done; lia|lia]. }
  destruct (is_positive r) eqn:Epos; cbn [fst snd measured_us previous_positive last_positive]; 
    [|split; [done|]; split; [apply Hcredit; [change (0 <= measured_us h <= measured_by room_joins room_ends (r :: reports log)); lia|done]|done]].
  assert (forall m, 0 <= m <= measured_by room_joins room_ends (r :: reports log) /\ (room_ends r = true -> m = 0) ->
    m <= measured_by room_joins room_ends (r :: reports log) /\ 0 <= m <= credit_by room_joins room_ends (r :: reports log)
    /\ (true = true -> true = true /\ Some (time r) = Some (time r))) as Hdone.
  { intros m [Hm0 Hz]. split_and!; try lia; try done; by apply Hcredit. }
  apply Hdone. destruct (last_positive h) as [last|] eqn:El; [|split; [lia|done]].
  destruct (previous_positive h) eqn:Epp; [|split; [lia|done]].
  assert (h = headroom c /\ headroom_negative r = false /\ expired (time r) (headroom c) = false) as (Eh & Eneg & Eexp).
  { unfold h in El, Epp |- *. destruct (headroom_negative r || _) eqn:En; [done|]. apply orb_false_iff in En as [? ?]. done. }
  clearbody h. subst h. pose proof (ga_positive _ _ Hg Epp) as Hp. destruct (reports log) as [|r0 rest] eqn:Er; [done|].
  destruct Hp as [Hp0 Hl0]. rewrite Hl0 in El. injection El as <-.
  destruct (Hnear r0 rest eq_refl) as [Hn Hgp]; [right; intros E0; by rewrite E0 in Epp|]. pose proof Ho as [Hf _]. cbn in Hf.
  assert (room_ends r = false) as Hends by (unfold room_ends; by rewrite Eneg, Hgp).
  rewrite Hends. split; [|done]. rewrite measured_by_cons. unfold room_joins at 1. rewrite Epos, Hp0, Hn, Hgp, Eneg. cbn [andb negb].
  unfold saturating_add, u64_max. lia.
Qed.

Lemma last_next l :
  last_positive (snd (observe_headroom (time r) (is_positive r) (headroom_negative r) (headroom c))) = Some l ->
  newest_positive l (r :: reports log).
Proof using Ho Hg.
  unfold observe_headroom. destruct (is_positive r) eqn:Ep; cbn [snd last_positive].
  - intros [= <-]. exists r. split_and!; [left|done|done|]. intros r2 [->|Hin]%elem_of_cons _; [done|]. by apply (in_order_time r (reports log)).
  - change (last_positive (?h <| previous_positive := false |>)) with (last_positive h). destruct (_ || _); [done|].
    intros (r1 & Hin & Hp & <- & Hn)%(ga_last _ _ Hg). exists r1. split_and!; [by right|done|done|].
    intros r2 [->|Hin2]%elem_of_cons Hp2; [congruence|by apply Hn].
Qed.
End observation.

(** A new decision on fresh evidence, while nothing is pending. *)
Lemma core_propose log c n i rate rs : core log c -> pending c = None -> rs <> EvidenceReset ->
  fresh (floor c) (ceiling c) log (applied c) rate -> (rs = Headroom -> applied c < rate) ->
  core log (c <| next_change := n |> <| pending := Some (mk_change i rate rs) |>).
Proof.
  intros [A B C C0 C1 C2 D E F G H] Hp Hrs Hf Hrise. split; try done.
  - intros A0 HA. destruct (F A0 HA) as (? & HnA & ? & _). split_and!; [done|done|done|]. left. rewrite <- HnA. by apply E.
  - intros P [= <-]. cbn [reason bitrate]. by rewrite bool_decide_eq_false_2.
  - intros P [= <-]. exact Hrise.
Qed.

Lemma propose_for_spec r pressure room log c : core (Observed r :: log) c -> now_of c = time r -> closed c = false ->
  (is_blocked r = true -> pressure <= blocked_for (r :: reports log)) -> room <= room_for (r :: reports log) ->
  wp (propose_for r pressure room) c (fun x c' => applied c' = applied c /\ match x with
    | Ok _ => core (Observed r :: log) c' /\ headroom c' = headroom c /\ pressure_since c' = pressure_since c /\ last_sample c' = last_sample c
    | Err _ => closed c' = true
    end).
Proof.
  intros Hco Hnow Hc Hp Hr. unfold wp, propose_for, method. destruct (is_some (pending c) || _) eqn:Ew; [done|].
  apply orb_false_iff in Ew as [Epend Edwell].
  assert (pending c = None) as Hnone by (by destruct (pending c)).
  assert (settled_by (time r) log) as Hset.
  { intros t a b Hin. destruct (co_changed _ _ Hco t a b) as (w & Ew & Hle); [by right|]. rewrite Ew in Edwell. cbn in Edwell.
    apply Z.ltb_ge in Edwell. change (now_us (sample r)) with (time r) in Edwell. lia. }
  assert (forall rate rs, rs <> EvidenceReset -> fresh (floor c) (ceiling c) (Observed r :: log) (applied c) rate ->
    (rs = Headroom -> applied c < rate) ->
    wp (propose rate rs) c (fun x c' => applied c' = applied c /\ match x with
      | Ok _ => core (Observed r :: log) c' /\ headroom c' = headroom c /\ pressure_since c' = pressure_since c /\ last_sample c' = last_sample c
      | Err _ => closed c' = true
      end)) as Hprop.
  { intros rate rs Hrs Hf Hrise. apply (wp_mono _ _ _ _ (propose_spec rate rs c)). intros [[]|e] c'; [|by intros [? ?]].
    intros (n & i & ->). split; [done|]. split_and!; try done. by apply core_propose. }
  destruct (is_blocked r && (PRESSURE_US <=? pressure) && (floor c <? applied c)) eqn:Eb.
  - apply andb_true_iff in Eb as [[Eb Hle%Z.leb_le]%andb_true_iff _]. apply Hprop; [done| |done].
    exists [], r, log. split; [done|]. split; [apply no_change_nil|]. split; [done|]. left. specialize (Hp Eb). split; [lia|done].
  - destruct ((HEADROOM_US <=? room) && (applied c <? ceiling c)) eqn:Eh; [|done].
    apply andb_true_iff in Eh as [Hle%Z.leb_le Hlow%Z.ltb_lt]. pose proof (co_limits _ _ Hco). pose proof (co_applied _ _ Hco).
    assert (0 < div_ceil (applied c) 16) by (unfold div_ceil; pose proof (Z.div_mod (applied c) 16 ltac:(done)); pose proof (Z.div_pos (applied c) 16); destruct (Z.ltb_spec 0 (applied c mod 16)); lia).
    apply Hprop; [done| |intros _; unfold saturating_add, u32_max; lia].
    exists [], r, log. split; [done|]. split; [apply no_change_nil|]. split; [done|]. right. split; [lia|].
    unfold saturating_add, u32_max. lia.
Qed.

(** Once the timers are known to match the reports. *)
Lemma observed_tail r log c app : in_order (r :: reports log) -> core (Observed r :: log) c -> gauges log c -> closed c = false ->
  last_now c = Some (time r) -> last_sample c = Some (time r) -> applied c = app ->
  let mh := observe_headroom (time r) (is_positive r) (headroom_negative r) (headroom c) in
  fst mh <= room_for (r :: reports log) ->
  0 <= measured_us (snd mh) <= credit_by room_joins room_ends (r :: reports log) ->
  (previous_positive (snd mh) = true -> is_positive r = true /\ last_positive (snd mh) = Some (time r)) ->
  (forall l, last_positive (snd mh) = Some l -> newest_positive l (r :: reports log)) ->
  (is_blocked r = true ->
    default (time r) (pressure_since c) <= time r
    /\ time r - default (time r) (pressure_since c) <= blocked_for (r :: reports log)
    /\ time r - default (time r) (pressure_since c) <= credit_by press_joins press_ends (r :: reports log)) ->
  wp (pressure ← method (fun c => let (p, c) := track_pressure r c in (Ok p, c));
      room ← method (fun c => let (m, h) := observe_headroom (time r) (is_positive r) (headroom_negative r) (headroom c) in
                              (Ok m, c <| headroom := h |>));
      propose_for r pressure room) c (fun x c' => applied c' = app /\ match x with
    | Ok _ => inv (Observed r :: log) c'
    | Err _ => closed c' = true
    end).
Proof.
  intros Ho Hco Hti Hc Hl Hs Ea mh Hroom Hmeas Hprev Hlast Hpr. apply wp_bind. unfold wp at 1, method.
  destruct (track_pressure r c) as [p c5] eqn:Ep. cbn [fst snd]. apply wp_bind. unfold wp at 1.
  assert (core (Observed r :: log) c5 /\ headroom c5 = headroom c /\ closed c5 = false /\ last_now c5 = Some (time r) /\ last_sample c5 = Some (time r) /\ applied c5 = app
    /\ (is_blocked r = true -> p <= blocked_for (r :: reports log))
    /\ forall start, pressure_since c5 = Some start -> is_blocked r = true /\ start <= time r /\ time r - start <= credit_by press_joins press_ends (r :: reports log))
    as (Hco5 & Eh5 & Hc5 & Hl5 & Hs5 & Ea5 & Hp5 & Hst5).
  { unfold track_pressure in Ep. change (now_us (sample r)) with (time r) in Ep. destruct (is_blocked r); injection Ep as <- <-.
    - destruct (Hpr eq_refl) as (P1 & P2 & P3). split_and!; try done; [by destruct Hco|]. intros start E. injection E as <-. done.
    - split_and!; try done. by destruct Hco. }
  rewrite Eh5. fold mh. destruct mh as [m h] eqn:Emh. cbn [fst snd] in *. set (c6 := c5 <| headroom := h |>).
  assert (core (Observed r :: log) c6) as Hco6 by (by destruct Hco5).
  assert (now_of c6 = time r) as Hnow6 by (unfold now_of; change (last_now c6) with (last_now c5); by rewrite Hl5).
  apply (wp_mono _ _ _ _ (propose_for_spec r p m log c6 Hco6 Hnow6 Hc5 Hp5 Hroom)).
  intros [[]|e] c7; [|intros [E7 ?]; split; [rewrite E7; exact Ea5|done]]. intros (E7 & Hco7 & Eh7 & Ep7 & Es7).
  split; [rewrite E7; exact Ea5|]. split; [done|]. split; [rewrite Es7; exact Hs5|].
  split; rewrite ?Eh7, ?Ep7; try done.
Qed.

(** What the controller checks before it drops a raise is there in the reports. *)
Lemma discredited r log c : last_sample c = time <$> head (reports log) -> gauges log c ->
  is_some_and (fun last => EVIDENCE_GAP_US <? time r - last) (last_sample c) || is_gap r || headroom_negative r
    || expired (time r) (headroom c) = true -> discredits r (reports log).
Proof.
  intros Hs Hg H. unfold discredits. apply orb_true_iff in H as [[[H|H]%orb_true_iff|H]%orb_true_iff|H]; [|auto..|].
  - right; right; left. rewrite Hs in H. destruct (reports log) as [|r0 rest]; [done|]. cbn in H. apply Z.ltb_lt in H. apply Z.leb_gt. exact H.
  - right; right; right. unfold expired in H. destruct (last_positive (headroom c)) as [l|] eqn:El; [|done]. cbn in H.
    destruct (ga_last _ _ Hg l El) as (r1 & Hin & Hp & <- & Hn). exists r1. split_and!; try done. apply Z.ltb_lt in H. apply Z.leb_gt. exact H.
Qed.

Lemma bitrate_observe_spec r log c : closed c = false -> inv log c -> 0 <= time r ->
  wp (observe r) c (fun x c' => applied c' = applied c /\ match x with
    | Ok _ => inv (Observed r :: log) c'
    | Err _ => closed c' = true
    end).
Proof.
  intros Hc [Hco [Hsa Hti]] Hn. unfold observe. change (now_us (sample r)) with (time r).
  apply wp_bind, (wp_mono _ _ _ _ (bitrate_clock_spec (time r) c Hc)). intros [[]|e] c1; [|by intros [? ?]]. intros [-> Hp].
  pose proof (core_at_time (time r) log c Hn Hp Hco) as Hco1. set (c1 := at_time (time r) c) in *.
  apply wp_gets. change (last_sample c1) with (last_sample c). set (gap := is_some_and _ (last_sample c)).
  apply wp_modify. set (c2 := c1 <| last_sample := Some (time r) |>). fold (is_gap r). set (eg := gap || is_gap r).
  assert (in_order (r :: reports log)) as Ho.
  { split; [|by apply Hti]. destruct (reports log) as [|r0 rest] eqn:Er; [done|]. cbn.
    assert (Observed r0 ∈ log) as Hin.
    { assert (r0 ∈ reports log) as Hr0 by (rewrite Er; left). apply list_elem_of_omap in Hr0 as ([r1|rate| |t a b] & Hin & [= ->]). done. }
    pose proof (co_reports _ _ Hco r0 Hin) as Hle. unfold now_of in Hle. destruct (last_now c) as [t|]; cbn in *; [|lia].
    specialize (Hp t eq_refl). lia. }
  apply wp_bind.
  assert (wp (method (fun c => if is_reason Headroom (pending c) && (eg || headroom_negative r || expired (time r) (headroom c))
      then reset_evidence c else (Ok tt, c))) c2 (fun x c3 => applied c3 = applied c /\ match x with
    | Ok _ => core (Observed r :: log) c3 /\ gauges log c3 /\ closed c3 = false /\ last_now c3 = Some (time r) /\ last_sample c3 = Some (time r)
    | Err _ => closed c3 = true end)) as H3.
  { assert (core log c2) as Hco2 by (by destruct Hco1). assert (gauges log c2) as Hti2 by (by apply (same_gauges log c)).
    unfold wp, method. destruct (_ && _) eqn:Ere.
    2:{ split; [done|]. cbn [fst snd]. split_and!; try done. apply core_passes; try done; [by left|]. by intros r0 [= <-]. }
    apply (reset_evidence_spec (Observed r) log c2 Hc Hco2 Hti2). right. apply andb_true_iff in Ere as [Eh Ere]. split; [done|].
    exists r. split; [done|]. split; [done|]. apply (discredited r log c Hsa Hti). exact Ere. }
  apply (wp_mono _ _ _ _ H3). clear H3. intros [[]|e] c3; [|by intros [? ?]]. intros (Ea & Hco3 & Hti3 & Hc3 & Hl3 & Hs3).
  apply wp_modify. set (c4 := if eg then clear_measurements c3 else c3).
  assert (core (Observed r :: log) c4 /\ gauges log c4 /\ closed c4 = false /\ last_now c4 = Some (time r) /\ last_sample c4 = Some (time r) /\ applied c4 = applied c) as (Hco4 & Hti4 & Hc4 & Hl4 & Hs4 & Ea4).
  { unfold c4. destruct eg; [|done]. split_and!; try done; [by apply core_cleared|by apply (clear_gauges log c3)]. }
  assert (is_gap r = true \/ match reports log with r0 :: _ => near r r0 = false | [] => False end ->
    pressure_since c4 = None /\ headroom c4 = no_headroom) as Hgap.
  { intros Hor. unfold c4. assert (eg = true) as ->; [|done]. unfold eg. destruct Hor as [->|Hor]; [apply orb_true_r|].
    unfold gap. rewrite Hsa. destruct (reports log) as [|r0 rest]; [done|]. cbn. unfold near in Hor. apply Z.leb_gt in Hor.
    apply orb_true_iff. left. by apply Z.ltb_lt. }
  clearbody c4. pose proof (room_next r log c4 Ho Hti4 Hgap) as (Hroom & Hmeas & Hprev). pose proof (pressure_next r log c4 Ho Hti4 Hgap) as Hpr.
  pose proof (last_next r log c4 Ho Hti4) as Hlast.
  exact (observed_tail r log c4 _ Ho Hco4 Hti4 Hc4 Hl4 Hs4 Ea4 Hroom Hmeas Hprev Hlast Hpr).
Qed.

End BitrateProps.

(** * Encoder bitrate: claims

    Over every sequence of calls: each change of the encoder's rate has its cause in
    the reports, changes are rare, and the rate stays between its floor and the
    configured ceiling. *)

Module BitrateClaims.
Import PacingClaims(time).
Import Bitrate BitrateProps.

(** ** The limits never move *)

Section limits.
Context (hi lo : Z).
Definition limited (c : Controller) : Prop := ceiling c = hi /\ floor c = lo.

Lemma limited_method {A} (f : Controller -> Result Error A * Controller) :
  (forall c, limited c -> limited (snd (f c))) -> preserves limited (method f).
Proof using Type. done. Qed.

Lemma limited_propose rate r : preserves limited (propose rate r).
Proof using Type. apply limited_method. intros c Hc. by destruct (checked_add _ _ _). Qed.

Lemma limited_clock now : preserves limited (clock now).
Proof using Type. apply preserves_bind; [apply preserves_refuse_if|]. intros _ c Hc. unfold method. by destruct (is_some_and _ _). Qed.

Lemma limited_reset : preserves limited reset_evidence.
Proof using Type.
  apply preserves_bind; [apply preserves_refuse_if|]. intros _. apply preserves_bind; [by apply preserves_modify|]. intros _ c Hc.
  unfold method. destruct (is_reason _ _); [done|]. destruct (_ =? _); [done|]. by apply limited_propose.
Qed.

Lemma limited_observe r : preserves limited (observe r).
Proof using Type.
  unfold observe. apply preserves_bind; [apply limited_clock|]. intros _. apply preserves_bind; [apply preserves_gets|]. intros gap.
  apply preserves_bind; [by apply preserves_modify|]. intros _. apply preserves_bind.
  { intros c Hc. unfold method. destruct (_ && _); [by apply limited_reset|done]. }
  intros _. apply preserves_bind; [apply preserves_modify; intros c Hc; by destruct (_ || _)|]. intros _.
  apply preserves_bind; [intros c Hc; unfold method, track_pressure; by destruct (is_blocked r)|]. intros p.
  apply preserves_bind; [intros c Hc; unfold method; by destruct (observe_headroom _ _ _ _)|]. intros m c Hc.
  unfold propose_for, method. destruct (_ || _); [done|]. destruct (_ && _); [by apply limited_propose|].
  destruct (_ && _); [by apply limited_propose|done].
Qed.

Lemma limited_call op c : limited c -> limited (snd (call op c)).
Proof using Type.
  intros Hc. destruct op as [r| |cap actual idr now| |]; cbn [call].
  - pose proof (limited_observe r c Hc). by destruct (observe r c).
  - assert (limited (snd (begin_capture c))) as H; [|by destruct (begin_capture c)].
    unfold begin_capture, check_open, refuse_if, mbind, M_bind, method. destruct (closed c); [done|].
    destruct (is_some (in_flight c)); [done|]. by destruct (checked_add _ _ _).
  - assert (limited (snd (complete_capture cap actual idr now c))) as H; [|exact H].
    revert c Hc. apply preserves_bind; [apply preserves_refuse_if|]. intros _. apply preserves_bind; [apply preserves_refuse_if|]. intros _.
    apply preserves_bind; [apply preserves_refuse_if|]. intros _. apply preserves_bind; [apply preserves_refuse_if|]. intros _.
    apply preserves_bind; [apply limited_clock|]. intros _. apply preserves_modify. intros c Hc. unfold settle.
    destruct (actual =? _), (is_some_and _ _); done.
  - pose proof (limited_reset c Hc). by destruct (reset_evidence c).
  - done.
Qed.
End limits.

(** ** Calls *)

Definition op_typed (op : Op) : Prop :=
  match op with Observe r => 0 <= time r | CompleteCapture _ _ _ now => 0 <= now | _ => True end.

Lemma closed_call op c : closed c = true ->
  closed (snd (call op c)) = true /\ applied (snd (call op c)) = applied c /\ fst (call op c) = [].
Proof.
  intros Hc. destruct op as [r| |cap actual idr now| |]; cbn [call]; [| | | |done].
  - unfold observe, clock, check_open, refuse_if, mbind, M_bind. by rewrite Hc.
  - unfold begin_capture, check_open, refuse_if, mbind, M_bind. by rewrite Hc.
  - unfold complete_capture, check_open, refuse_if, mbind, M_bind. by rewrite Hc.
  - unfold reset_evidence, check_open, refuse_if, mbind, M_bind. by rewrite Hc.
Qed.

Definition caused_in (lo hi : Z) (log : list Event) (a b : Z) : Prop := fresh lo hi log a b \/ restores log a b.

(** What a call adds to the events. *)
Definition added (lo hi : Z) (log : list Event) (c : Controller) (es : list Event) : Prop :=
  match es with
  | [] | [Observed _] | [Started _] | [Withdrew] => True
  | [Changed t a b] => a = applied c /\ caused_in lo hi log a b /\ lo <= b <= hi
      /\ (forall r, Observed r ∈ log -> time r <= t) /\ (forall t' a' b', Changed t' a' b' ∈ log -> t' <= t)
  | _ => False
  end.

Lemma live_call op log c : op_typed op -> closed c = false -> inv log c ->
  let es := fst (call op c) in let c' := snd (call op c) in
  applied c' = applied c /\ (es = [] \/ exists e, es = [e] /\ no_rate e) /\ live (es ++ log) c'
  \/ applied c' <> applied c /\ es = [] /\ inv (Changed (now_of c') (applied c) (applied c') :: log) c' /\ caused c log (applied c').
Proof.
  intros Ht Hc Hi. destruct op as [r| |cap actual idr now| |]; cbn [call]; unfold live.
  - pose proof (bitrate_observe_spec r log c Hc Hi Ht) as Hs. unfold wp in Hs. destruct (observe r c) as [[[]|e] c']; cbn in *; left;
      destruct Hs as [? ?]; split_and!; auto. right. by exists (Observed r).
  - pose proof (begin_capture_spec log c Hc Hi) as Hs. unfold wp in Hs. destruct (begin_capture c) as [[cap|e] c']; cbn in *; left.
    + destruct Hs as [? ?]. split_and!; auto. right. by exists (Started (c_bitrate cap)).
    + destruct Hs as [? [?| ->]]; auto.
  - pose proof (complete_capture_spec cap actual idr now log c Hc Hi Ht) as Hs. unfold wp in Hs.
    destruct (complete_capture _ _ _ _ c) as [[[]|e] c']; cbn in *.
    + destruct Hs as [[? ?]|(? & ? & ? & _)]; [left|right]; auto.
    + left. destruct Hs as [? [?| ->]]; auto.
  - destruct Hi as [Hco [Hs Hg]]. pose proof (reset_evidence_spec Withdrew log c Hc Hco Hg (or_introl eq_refl)) as Hr. unfold wp in Hr.
    destruct (reset_evidence c) as [[[]|e] c']; cbn in *; left.
    + destruct Hr as (? & ? & ? & ? & _ & E). split; [done|]. split; [right; by exists Withdrew|]. right. split; [done|].
      apply timers_skip; [done|]. split; [congruence|done].
    + destruct Hr as [? ?]. auto.
  - left. split; [done|]. split; [by left|]. by left.
Qed.

Lemma step_live op lo hi log c : op_typed op -> limited hi lo c -> lo <= applied c <= hi -> live log c ->
  limited hi lo (snd (step op c)) /\ lo <= applied (snd (step op c)) <= hi /\ live (reverse (fst (step op c)) ++ log) (snd (step op c))
  /\ added lo hi log c (fst (step op c)).
Proof.
  intros Ht Hlim Happ Hl. unfold step. pose proof (limited_call hi lo op c Hlim) as Hlim'.
  assert (closed c = true \/ closed c = false /\ inv log c) as [Hc|[Hc Hi]] by (destruct (closed c) eqn:E, Hl; auto; congruence).
  - destruct (closed_call op c Hc) as (Hc' & Ha & Hop). destruct (call op c) as [es c']. cbn [fst snd] in *. subst es.
    rewrite Ha, Z.eqb_refl. cbn. split_and!; try done; [by apply Hlim'..|lia|lia|by left].
  - pose proof (live_call op log c Ht Hc Hi) as Hs. cbv zeta in Hs. destruct (call op c) as [es c']. cbn [fst snd] in *.
    destruct Hs as [(Ha & Hes & Hs)|(Hne & -> & Hi' & Hca)].
    + rewrite Ha, Z.eqb_refl, app_nil_r. split; [done|]. split; [done|].
      destruct Hes as [->|(e & -> & He)]; (split; [exact Hs|]); [done|by destruct e].
    + pose proof (co_rates _ _ (iv_core _ _ Hi')) as Hrates. pose proof (co_applied _ _ (iv_core _ _ Hi')) as Hb.
      destruct Hlim' as [E1 E2]. destruct Hlim as [F1 F2]. rewrite E1, E2 in *.
      rewrite (proj2 (Z.eqb_neq (applied c') (applied c)) Hne).
      cbn [app]. split; [done|]. split; [done|]. split; [by right|]. cbn. split; [done|]. split.
      { unfold caused in Hca. by rewrite F1, F2 in Hca. }
      split; [done|]. change (default 0 (last_now c')) with (now_of c'). split.
      * intros r Hr. apply (co_reports _ _ (iv_core _ _ Hi')). by right.
      * intros t' a' b' Hin. destruct (co_changed _ _ (iv_core _ _ Hi') t' a' b') as (w & Ew & Hle); [by right|].
        pose proof (co_changed_at _ _ (iv_core _ _ Hi') w Ew). lia.
Qed.

(** Every change of a run, with the events before it. *)
Lemma run_changes ops : forall lo hi log c, Forall op_typed ops -> limited hi lo c -> lo <= applied c <= hi -> live log c ->
  lo <= applied (snd (run ops c)) <= hi
  /\ forall older t a b newer, fst (run ops c) = older ++ Changed t a b :: newer ->
     caused_in lo hi (reverse older ++ log) a b /\ lo <= b <= hi
     /\ (forall r, Observed r ∈ reverse older ++ log -> time r <= t)
     /\ (forall t' a' b', Changed t' a' b' ∈ reverse older ++ log -> t' <= t).
Proof.
  induction ops as [|op ops IH]; intros lo hi log c Hty Hlim Hb Hl; [split; [done|]; intros older t a b newer E; by destruct older|].
  inversion_clear Hty as [|? ? Ht Hty']. destruct (step_live op lo hi log c Ht Hlim Hb Hl) as (Hlim1 & Hb1 & Hl1 & Hadd). cbn [run].
  destruct (step op c) as [es c1]. cbn [fst snd] in *. specialize (IH lo hi (reverse es ++ log) c1 Hty' Hlim1 Hb1 Hl1).
  destruct (run ops c1) as [es2 c2]. cbn [fst snd] in *. destruct IH as [Hb2 IH]. split; [done|]. intros older t a b newer E.
  destruct es as [|e [|e' es]]; [by apply (IH older t a b newer)| |by destruct e, es].
  destruct older as [|o older]; cbn in E.
  - injection E as -> _. cbn. by destruct Hadd as (_ & Hadd).
  - injection E as -> E. specialize (IH older t a b newer E). by rewrite reverse_cons, <- app_assoc.
Qed.

Lemma bitrate_new initial c : new initial = Ok c ->
  live [] c /\ limited (ceiling c) (floor c) c /\ floor c <= applied c <= ceiling c
  /\ ceiling c = initial /\ floor c = Z.min (Z.max (initial / 8) 100000) initial.
Proof.
  unfold new. destruct (negb _) eqn:E; [done|]. intros [= <-]. apply negb_false_iff, andb_true_iff in E as [?%Z.leb_le ?%Z.leb_le].
  assert (0 < Z.min (Z.max (initial / 8) 100000) initial <= initial) by lia.
  split; [|split_and!; try done; cbn; lia]. right. split.
  - split; try done; try (cbn; lia); intros; set_solver.
  - split; [done|]. split; done.
Qed.

(** ** Claims *)

(** C36. The encoder's rate changes for three reasons only.  A cut to half, not below
    the floor, after the sender was found blocked in adjacent reports for a tenth of
    a second.  A raise by a sixteenth, not above the ceiling, after four seconds of
    headroom measured between adjacent reports.  In both cases nothing changed
    between the report that tipped the balance and the change, and nothing had
    changed for two seconds before it.  Or the last change, which was not rushed
    itself, is taken back, and then its evidence was withdrawn while the capture that
    carried it was on its way: after that capture was begun and before the change
    showed, the caller withdrew the evidence or, if the change was a raise, a report
    was taken in that speaks against it, comes after a gap, or finds the newest report
    of headroom more than a tenth of a second old. *)
Theorem bitrate_changes_have_a_cause initial c ops older t a b newer : new initial = Ok c -> Forall op_typed ops ->
  fst (run ops c) = older ++ Changed t a b :: newer ->
  caused_in (Z.min (Z.max (initial / 8) 100000) initial) initial (reverse older) a b
  /\ (forall r, Observed r ∈ older -> time r <= t).
Proof.
  intros (Hl & Hlim & Hb & E1 & E2)%bitrate_new Hty E. destruct (run_changes ops _ _ [] c Hty Hlim Hb Hl) as [_ Hc].
  destruct (Hc _ _ _ _ _ E) as (Hca & _ & Hr & _). rewrite app_nil_r in *. rewrite <- E2, <- E1. split; [done|].
  intros r Hin. apply Hr. by apply elem_of_reverse.
Qed.

(** However the calls interleave, the rate stays at or above an eighth of the
    configured rate (or a hundred thousand, or the configured rate, whichever comes
    first) and never exceeds the configured rate; so does the target of every
    change. *)
Theorem bitrate_stays_in_range initial c ops : new initial = Ok c -> Forall op_typed ops ->
  let lo := Z.min (Z.max (initial / 8) 100000) initial in
  lo <= applied (snd (run ops c)) <= initial
  /\ forall t a b, Changed t a b ∈ fst (run ops c) -> lo <= b <= initial.
Proof.
  intros (Hl & Hlim & Hb & E1 & E2)%bitrate_new Hty. destruct (run_changes ops _ _ [] c Hty Hlim Hb Hl) as [Ha Hc].
  cbv zeta. rewrite <- E2, <- E1. split; [done|]. intros t a b (older & newer & E)%list_elem_of_split. by destruct (Hc _ _ _ _ _ E) as (_ & ? & _).
Qed.

(** An earlier change with another one after it lies before the change that is taken
    back. *)
Lemma restored_before xs t1 a1 b1 ys t2 a2 b2 zs (a b : Z) :
  restores (reverse (xs ++ Changed t1 a1 b1 :: ys ++ Changed t2 a2 b2 :: zs)) a b ->
  exists t' a' b', Changed t' a' b' ∈ reverse (xs ++ Changed t1 a1 b1 :: ys ++ Changed t2 a2 b2 :: zs) /\ t1 + CHANGE_DWELL_US <= t'.
Proof.
  intros (mid & t' & pre & E & Hn & Hs & _). exists t', b, a. split; [rewrite E; set_solver|]. apply (Hs t1 a1 b1).
  assert (reverse (xs ++ Changed t1 a1 b1 :: ys ++ Changed t2 a2 b2 :: zs)
          = reverse zs ++ Changed t2 a2 b2 :: (reverse ys ++ Changed t1 a1 b1 :: reverse xs)) as E'.
  { rewrite !reverse_app, !reverse_cons, !reverse_app, !reverse_cons, <- !app_assoc. done. }
  rewrite E' in E. apply app_eq_inv in E as [(k & Ez & Ek)|(k & Ez & Ek)].
  - assert (pre = reverse ys ++ Changed t1 a1 b1 :: reverse xs \/ exists k', pre = k' ++ Changed t2 a2 b2 :: reverse ys ++ Changed t1 a1 b1 :: reverse xs) as Hpre.
    { destruct k as [|e k]; injection Ek as _ Ek; [by left|right; by exists k]. }
    destruct Hpre as [->|(k' & ->)]; set_solver.
  - assert (k = [] /\ pre = reverse ys ++ Changed t1 a1 b1 :: reverse xs \/ Changed t2 a2 b2 ∈ mid) as [[_ ->]|Hin].
    { destruct k as [|e k]; injection Ek as Ee Ek; [by left|right]. rewrite Ez, Ee. set_solver. }
    + set_solver.
    + by apply Hn in Hin.
Qed.

(** The rate changes at most twice in two seconds: of any three changes, the last
    comes at least two seconds after the first. *)
Theorem bitrate_changes_are_rare initial c ops xs t1 a1 b1 ys t2 a2 b2 zs t3 a3 b3 ws :
  new initial = Ok c -> Forall op_typed ops ->
  fst (run ops c) = xs ++ Changed t1 a1 b1 :: ys ++ Changed t2 a2 b2 :: zs ++ Changed t3 a3 b3 :: ws ->
  t1 + CHANGE_DWELL_US <= t3.
Proof.
  intros (Hl & Hlim & Hb & _)%bitrate_new Hty E. destruct (run_changes ops _ _ [] c Hty Hlim Hb Hl) as [_ Hc].
  specialize (Hc (xs ++ Changed t1 a1 b1 :: ys ++ Changed t2 a2 b2 :: zs) t3 a3 b3 ws).
  destruct Hc as ([(mid & r & pre & Er & Hn & Hs & _)|Hre] & _ & Hr & Ht); [rewrite E; by rewrite <- !app_assoc, <- !app_comm_cons, <- !app_assoc|..].
  - rewrite app_nil_r in *. assert (Changed t1 a1 b1 ∈ mid ++ Observed r :: pre) as Hin by (rewrite <- Er; set_solver).
    apply elem_of_app in Hin as [Hin|[?|Hin]%elem_of_cons]; [by apply Hn in Hin|done|].
    specialize (Hs _ _ _ Hin). specialize (Hr r ltac:(rewrite Er; set_solver)). lia.
  - rewrite app_nil_r in *. destruct (restored_before _ _ _ _ _ _ _ _ _ _ _ Hre) as (t' & a' & b' & Hin & Hle). specialize (Ht _ _ _ Hin). lia.
Qed.

(** *** A blocked sender, and a cut taken back *)

Definition demo_reports (n : nat) : list Pacing.Report :=
  fst (Pacing.run (map (fun i => Pacing.Update (PacingClaims.demo_sample Pacing.Blocked (Z.of_nat i * 50000)) Pacing.Unobserved) (seq 0 n))
         PacingClaims.demo_controller).
Definition demo_bitrate : Controller := mk_controller 1000000 125000 1000000 None None 1000000 1 1 None None None None no_headroom false.
Definition demo_calls : list Op :=
  map Observe (take 3 (demo_reports 46))
  ++ [BeginCapture; CompleteCapture (mk_capture 1 500000 1000000) 500000 true 110000]
  ++ map Observe (drop 3 (demo_reports 46))
  ++ [BeginCapture; ResetEvidence; CompleteCapture (mk_capture 2 250000 500000) 250000 true 2260000;
      BeginCapture; CompleteCapture (mk_capture 3 500000 250000) 500000 true 2270000].
Definition demo_events : list Event := fst (run demo_calls demo_bitrate).

Lemma demo_calls_typed : Forall op_typed demo_calls.
Proof. vm_compute. repeat constructor; discriminate. Qed.

(** The first cut, and the second one taken back after a reset. *)
Lemma bitrate_changes_have_a_cause_witness :
  caused_in 125000 1000000 (reverse (take 4 demo_events)) 1000000 500000
  /\ demo_events !! 52%nat = Some (Changed 2270000 250000 500000)
  /\ caused_in 125000 1000000 (reverse (take 52 demo_events)) 250000 500000.
Proof.
  assert (fst (run demo_calls demo_bitrate) = take 4 demo_events ++ Changed 110000 1000000 500000 :: drop 5 demo_events) as E1
    by (vm_compute; reflexivity).
  assert (fst (run demo_calls demo_bitrate) = take 52 demo_events ++ Changed 2270000 250000 500000 :: []) as E2 by (vm_compute; reflexivity).
  destruct (bitrate_changes_have_a_cause 1000000 demo_bitrate demo_calls (take 4 demo_events) 110000 1000000 500000 (drop 5 demo_events)
              eq_refl demo_calls_typed E1) as [H1 _].
  destruct (bitrate_changes_have_a_cause 1000000 demo_bitrate demo_calls (take 52 demo_events) 2270000 250000 500000 []
              eq_refl demo_calls_typed E2) as [H2 _].
  split; [exact H1|]. split; [vm_compute; reflexivity|exact H2].
Defined.

Lemma bitrate_stays_in_range_witness :
  125000 <= applied (snd (run demo_calls demo_bitrate)) <= 1000000
  /\ forall t a b, Changed t a b ∈ fst (run demo_calls demo_bitrate) -> 125000 <= b <= 1000000.
Proof. exact (bitrate_stays_in_range 1000000 demo_bitrate demo_calls eq_refl demo_calls_typed). Defined.

Lemma bitrate_changes_are_rare_witness : 110000 + CHANGE_DWELL_US <= 2270000.
Proof.
  assert (fst (run demo_calls demo_bitrate) = take 4 demo_events ++ Changed 110000 1000000 500000 :: take 45 (drop 5 demo_events)
    ++ Changed 2260000 500000 250000 :: [Started 500000] ++ Changed 2270000 250000 500000 :: []) as E by (vm_compute; reflexivity).
  exact (bitrate_changes_are_rare 1000000 demo_bitrate demo_calls _ _ _ _ _ _ _ _ _ _ _ _ _ eq_refl demo_calls_typed E).
Defined.

End BitrateClaims.
