(* ===== verification/Feedback.v ===== *)
(** * Receiver metrics on request

    [fr-media/src/receiver_feedback.rs]: the host's requester, which asks for the
    receiver's load and believes an answer only for as long as it would have believed
    the question, and the viewer's responder, which holds at most one answer. *)

From S2P Require Import Prelude.
From S2P Require Import Bytes.
From S2P Require Import Limits.
From S2P Require Import WireRecord.
From S2P Require Import WireInput.
From S2P Require Import WireView.
From S2P Require Import Pacing.

Module Feedback.
Import MetricsMsg.

Definition QUERY_INTERVAL_US : Z := 50000.
Definition SAMPLE_LIFETIME_US : Z := 150000.
Definition REPLY_LIFETIME_US : Z := 100000.
Definition MIN_SAMPLE_INTERVAL_US : Z := 25000.

Inductive Error := EWire (e : WireError) | Clock | Sequence | Expired.
Inductive Admission := Accepted | Backpressure | AdmissionExpired.
#[export] Instance Admission_eq_dec : EqDecision Admission.
Proof. solve_decision. Defined.
Inductive SendError (E : Type) := Protocol (e : Error) | Transport (e : E).
Arguments Protocol {E}.
Arguments Transport {E}.

(** A record of [n] bytes for one message. *)
Definition encoded (m : Message) (b : ViewBinding.Binding) (l : Limits.ProtocolLimits) (n : Z) (direction : InputDirection)
  : Result Error bytes :=
  match encode m b l (zeros (Z.to_nat n)) direction Reliable with
  | (Ok _, out) => Ok out
  | (Err e, _) => Err (EWire e)
  end.

(** A method run as part of [transmit]. *)
Definition protocol {S E A : Type} (m : M S Error A) : M S (SendError E) A := fun s =>
  let (x, s) := m s in (map_err Protocol x, s).

(** ** The host's requester *)

Record Query := mk_query { q_bytes : bytes; q_sequence : Z; q_until : Z; q_sent : bool }.
#[export] Instance eta_query : Eta Query := fun q => mk_query (q_bytes q) (q_sequence q) (q_until q) (q_sent q).
Record Requester := mk_requester {
  binding : ViewBinding.Binding;
  limits : Limits.ProtocolLimits;
  sequence : Z;
  next : Z;
  last_now : Z;
  q_pending : option Query;
  q_sample : option (Load * Z)
}.
#[export] Instance eta_requester : Eta Requester := fun r =>
  mk_requester (binding r) (limits r) (sequence r) (next r) (last_now r) (q_pending r) (q_sample r).

Abbreviation QM := (M Requester Error).

Definition new_requester (b : ViewBinding.Binding) (l : Limits.ProtocolLimits) (now : Z) : Result Error Requester :=
  _ ← map_err EWire (ViewBinding.validate b);
  Ok (mk_requester b l 0 now now None None).

Definition q_tick (now : Z) : QM unit :=
  _ ← refuse_if (fun r => now <? last_now r) (fun _ => Clock);
  modify (fun r =>
    let r := r <| last_now := now |> in
    let r := if is_some_and (fun q => q_until q <=? now) (q_pending r) then r <| q_pending := None |> else r in
    if is_some_and (fun '(_, until) => until <=? now) (q_sample r) then r <| q_sample := None |> else r).

Definition prepare (now : Z) : QM unit :=
  _ ← q_tick now;
  r ← gets id;
  if negb (is_some (q_pending r)) && (next r <=? now) then
    s ← lift (ok_or (checked_add u64_max (sequence r) 1) Sequence);
    until ← lift (ok_or (checked_add u64_max now SAMPLE_LIFETIME_US) Clock);
    n ← lift (ok_or (checked_add u64_max now QUERY_INTERVAL_US) Clock);
    bs ← lift (encoded (MetricsMsg.Query s) (binding r) (limits r) QUERY_BYTES HostToViewer);
    modify (fun r => r <| sequence := s |> <| next := n |> <| q_pending := Some (mk_query bs s until false) |>)
  else mret tt.

Definition pending (now : Z) : QM (option (bytes * Z)) :=
  _ ← q_tick now;
  gets (fun r => match q_pending r with Some q => if q_sent q then None else Some (q_bytes q, q_until q) | None => None end).

Definition queued (now : Z) : QM unit :=
  _ ← q_tick now;
  q ← readr (fun r => ok_or (q_pending r) Expired);
  _ ← refuse_if (fun _ => q_sent q) (fun _ => Sequence);
  modify (fun r => r <| q_pending := Some (q <| q_sent := true |>) |>).

Definition transmit {E : Type} (now : Z) (send : bytes -> Z -> Result E Admission) : M Requester (SendError E) bool :=
  _ ← protocol (prepare now);
  offer ← protocol (pending now);
  match offer with
  | None => mret false
  | Some (bs, until) =>
      admitted ← lift (map_err Transport (send bs until));
      _ ← match admitted with
          | Accepted => protocol (queued now)
          | Backpressure => mret tt
          | AdmissionExpired => protocol (q_tick until)
          end;
      mret (bool_decide (admitted = Accepted))
  end.

Definition receive (bs : bytes) (now : Z) : QM bool :=
  _ ← q_tick now;
  m ← readr (fun r => map_err EWire (decode bs (binding r) (limits r) ViewerToHost Reliable));
  match m with
  | MetricsMsg.Query _ => fail Sequence
  | Reply s load =>
      _ ← refuse_if (fun r => sequence r <? s) (fun _ => Sequence);
      r ← gets id;
      match q_pending r with
      | None => mret false
      | Some q =>
          if negb (s =? q_sequence q) then mret false
          else
            _ ← refuse_if (fun _ => negb (q_sent q)) (fun _ => Sequence);
            _ ← modify (fun r => r <| q_sample := Some (load, q_until q) |> <| q_pending := None |>);
            mret true
      end
  end.

Definition sample (now : Z) : QM (option (Load * Z)) := _ ← q_tick now; gets q_sample.

Definition evidence (now : Z) : QM Pacing.ReceiverEvidence :=
  s ← sample now;
  mret (match s with Some (load, _) => Pacing.Measured load | None => Pacing.UnknownLoad end).

(** ** The viewer's responder *)

Record PendingReply := mk_reply { p_bytes : bytes; p_until : Z }.
Record Responder := mk_responder {
  r_binding : ViewBinding.Binding;
  r_limits : Limits.ProtocolLimits;
  r_sequence : Z;
  next_sample : Z;
  r_last_now : Z;
  r_pending : option PendingReply
}.
#[export] Instance eta_responder : Eta Responder := fun r =>
  mk_responder (r_binding r) (r_limits r) (r_sequence r) (next_sample r) (r_last_now r) (r_pending r).

Abbreviation RM := (M Responder Error).

Definition new_responder (b : ViewBinding.Binding) (l : Limits.ProtocolLimits) (now : Z) : Result Error Responder :=
  _ ← map_err EWire (ViewBinding.validate b);
  Ok (mk_responder b l 0 now now None).

Definition r_tick (now : Z) : RM unit :=
  _ ← refuse_if (fun r => now <? r_last_now r) (fun _ => Clock);
  modify (fun r =>
    let r := r <| r_last_now := now |> in
    if is_some_and (fun p => p_until p <=? now) (r_pending r) then r <| r_pending := None |> else r).

Definition r_receive (bs : bytes) (load : Load) (now : Z) : RM bool :=
  _ ← r_tick now;
  m ← readr (fun r => map_err EWire (decode bs (r_binding r) (r_limits r) HostToViewer Reliable));
  match m with
  | Reply _ _ => fail Sequence
  | MetricsMsg.Query s =>
      r ← gets id;
      if s <=? r_sequence r then mret false
      else
        _ ← modify (fun r => r <| r_sequence := s |>);
        if is_some (r_pending r) || (now <? next_sample r) then mret false
        else
          until ← lift (ok_or (checked_add u64_max now REPLY_LIFETIME_US) Clock);
          n ← lift (ok_or (checked_add u64_max now MIN_SAMPLE_INTERVAL_US) Clock);
          out ← lift (encoded (Reply s load) (r_binding r) (r_limits r) REPLY_BYTES ViewerToHost);
          _ ← modify (fun r => r <| r_pending := Some (mk_reply out until) |> <| next_sample := n |>);
          mret true
  end.

Definition r_offer (now : Z) : RM (option (bytes * Z)) :=
  _ ← r_tick now;
  gets (fun r => (fun p => (p_bytes p, p_until p)) <$> r_pending r).

Definition r_queued (now : Z) : RM unit :=
  _ ← r_tick now;
  _ ← readr (fun r => ok_or (r_pending r) Expired);
  modify (fun r => r <| r_pending := None |>).

Definition r_transmit {E : Type} (now : Z) (send : bytes -> Z -> Result E Admission) : M Responder (SendError E) bool :=
  offer ← protocol (r_offer now);
  match offer with
  | None => mret false
  | Some (bs, until) =>
      admitted ← lift (map_err Transport (send bs until));
      _ ← match admitted with
          | Accepted => protocol (r_queued now)
          | Backpressure => mret tt
          | AdmissionExpired => protocol (r_tick until)
          end;
      mret (bool_decide (admitted = Accepted))
  end.

End Feedback.
