(* ===== verification/FeedbackClaims.v ===== *)
(** Solicited metrics: both ends joined by the records between them, and the claims. *)

From S2P Require Import Prelude.
From S2P Require Import Limits.
From S2P Require Import Bytes.
From S2P Require Import WireRecord.
From S2P Require Import WireRecordProps.
From S2P Require Import WireInput.
From S2P Require Import WireInputProps.
From S2P Require Import WireControl.
From S2P Require Import WireView.
From S2P Require Import WireViewProps.
From S2P Require Import SenderHistory.
From S2P Require Import Pacing.
From S2P Require Import Feedback.

(** * Receiver metrics: both ends and the channel between them

    A host and a viewer exchange queries and replies over a channel that may delay,
    repeat and reorder records but carries only what was handed to it.  The two
    clocks are unrelated. *)

Module FeedbackProps.
Import MetricsMsg Feedback.
Import MetricsMsgProps(load_typed, message_typed, body, metrics_codec).
Import SenderHistory(spaced).

(** ** One record *)

(** A view both ends agreed on, in the limits they agreed on. *)
Record agreed (b : ViewBinding.Binding) (l : Limits.ProtocolLimits) : Prop := {
  ag_typed : ViewProps.view_typed b;
  ag_valid : ViewBinding.validate b = Ok tt;
  ag_fits : REPLY_BYTES <= control_bytes l
}.

Definition size_of (m : Message) : Z := match m with MetricsMsg.Query _ => QUERY_BYTES | Reply _ _ => REPLY_BYTES end.

Lemma metrics_length b m : Z.of_nat (length (body b m)) = size_of m - 24.
Proof.
  unfold body, MetricsMsgProps.message_bytes. rewrite !length_app, ViewProps.view_length, !be_length. destruct m as [s|s ld]; [done|].
  unfold MetricsMsgProps.load_bytes, RecoveryMsgProps.known_bytes, bool_bytes. rewrite !length_app, !be_length. done.
Qed.

Lemma metrics_read b l m direction out : agreed b l -> message_typed m ->
  encoded m b l (size_of m) direction = Ok out -> decode out b l direction Reliable = Ok m.
Proof.
  intros [Hv Hval Hf] Ht He. unfold encoded in He.
  destruct (encode m b l (zeros (Z.to_nat (size_of m))) direction Reliable) as [[n|e] o] eqn:Ee; [|done]. injection He as ->.
  assert (Hnz : cb_id (ViewBinding.parent b) <> 0).
  { unfold ViewBinding.validate in Hval. destruct (_ || _) eqn:E; [done|]. guards. lia. }
  pose proof (metrics_codec b l direction Reliable Hv Hnz) as Hc.
  assert (Hr : validate_message l direction Reliable m = Ok tt).
  { unfold encode in Ee. rewrite Hval in Ee. cbn [mbind Result_bind] in Ee. by destruct (validate_message _ _ _ _) as [[]|]. }
  pose proof (metrics_length b m) as Hlen.
  assert (Hfit : fits_record (body b) (control_bytes l) m).
  { unfold fits_record. destruct m; unfold size_of, REPLY_BYTES, QUERY_BYTES, ViewBinding.BINDING_BYTES in *; lia. }
  pose proof (codec_writes _ _ _ _ _ _ _ _ Hc m (zeros (Z.to_nat (size_of m))) Ht (conj Hval Hr) Hfit) as Hw.
  cbn beta in Hw. rewrite Hw in Ee.
  - assert (out = frame_of StageMetrics (cb_id (ViewBinding.parent b)) (body b m) []
                ++ drop (24 + length (body b m)) (zeros (Z.to_nat (size_of m)))) as -> by congruence.
    rewrite drop_ge by (unfold zeros; rewrite length_replicate; lia). rewrite app_nil_r. by apply (codec_reads _ _ _ _ _ _ _ _ Hc).
  - unfold zeros. rewrite length_replicate. lia.
  - unfold zeros. rewrite length_replicate. by destruct m.
Qed.

(** ** The exchange *)

(** What happened, newest first: a query was made on the host's clock, a load was
    sampled for one on the viewer's. *)
Inductive Event := Asked (s t : Z) | Sampled (s : Z) (load : Load) (t : Z).

Record World := mk_world {
  host : Requester;
  viewer : Responder;
  queries : list bytes;
  replies : list bytes;
  log : list Event
}.

Inductive Op :=
| HostPrepare (now : Z)
| HostPoll (now : Z)
| HostQueued (now : Z)
| HostTransmit (now : Z) (send : bytes -> Z -> Result unit Admission)
| HostReceive (i : nat) (now : Z)
| HostSample (now : Z)
| ViewerReceive (i : nat) (load : Load) (now : Z)
| ViewerPoll (now : Z)
| ViewerQueued (now : Z)
| ViewerTransmit (now : Z) (send : bytes -> Z -> Result unit Admission).

(** The record a transport accepts, if any. *)
Definition taken {S : Type} (offer : M S Error (option (bytes * Z))) (send : bytes -> Z -> Result unit Admission) (s : S) : list bytes :=
  match fst (offer s) with
  | Ok (Some (bs, until)) => match send bs until with Ok Accepted => [bs] | _ => [] end
  | _ => []
  end.
(** The record the owner says was queued. *)
Definition handed {S : Type} (offer : M S Error (option (bytes * Z))) (queue : M S Error unit) (s : S) : list bytes :=
  match fst (queue s), fst (offer s) with Ok _, Ok (Some (bs, _)) => [bs] | _, _ => [] end.

Definition host_step (w : World) (now : Z) (r : Requester) (qs : list bytes) : World :=
  mk_world r (viewer w) (queries w ++ qs) (replies w)
    ((if sequence r =? sequence (host w) then [] else [Asked (sequence r) now]) ++ log w).
Definition viewer_step (w : World) (r : Responder) (ps : list bytes) (es : list Event) : World :=
  mk_world (host w) r (queries w) (replies w ++ ps) (es ++ log w).

Definition sampled (bs : bytes) (load : Load) (now : Z) (r : Responder) : list Event :=
  match r_receive bs load now r with
  | (Ok true, r') => [Sampled (r_sequence r') load now]
  | _ => []
  end.

Definition step (op : Op) (w : World) : World :=
  match op with
  | HostPrepare now => host_step w now (snd (prepare now (host w))) []
  | HostPoll now => host_step w now (snd (pending now (host w))) []
  | HostQueued now => host_step w now (snd (queued now (host w))) (handed (pending now) (queued now) (host w))
  | HostTransmit now send =>
      host_step w now (snd (transmit now send (host w))) (taken (_ ← prepare now; pending now) send (host w))
  | HostReceive i now =>
      match replies w !! i with Some bs => host_step w now (snd (receive bs now (host w))) [] | None => w end
  | HostSample now => host_step w now (snd (sample now (host w))) []
  | ViewerReceive i load now =>
      match queries w !! i with
      | Some bs => viewer_step w (snd (r_receive bs load now (viewer w))) [] (sampled bs load now (viewer w))
      | None => w
      end
  | ViewerPoll now => viewer_step w (snd (r_offer now (viewer w))) [] []
  | ViewerQueued now => viewer_step w (snd (r_queued now (viewer w))) (handed (r_offer now) (r_queued now) (viewer w)) []
  | ViewerTransmit now send => viewer_step w (snd (r_transmit now send (viewer w))) (taken (r_offer now) send (viewer w)) []
  end.
Fixpoint run (ops : list Op) (w : World) : World := match ops with [] => w | op :: ops => run ops (step op w) end.

Definition op_ok (op : Op) : Prop := match op with ViewerReceive _ load _ => load_typed load | _ => True end.

(** ** What is true of the parts *)

(** The load was sampled for a query made before, at [t] on the host's clock. *)
Definition solicited (es : list Event) (s t : Z) (load : Load) : Prop :=
  exists l1 tv l2, es = l1 ++ Sampled s load tv :: l2 /\ Asked s t ∈ l2.

(** Events of a kind come at least [W] apart. *)
Definition apart (f : Event -> option Z) (W : Z) (es : list Event) : Prop :=
  forall l1 e l2 t e' t', es = l1 ++ e :: l2 -> f e = Some t -> e' ∈ l2 -> f e' = Some t' -> t' + W <= t.
Definition asked_at (e : Event) : option Z := match e with Asked _ t => Some t | Sampled _ _ _ => None end.
Definition sampled_at (e : Event) : option Z := match e with Sampled _ _ t => Some t | Asked _ _ => None end.

Lemma apart_cons f W e es : apart f W es -> (forall t e' t', f e = Some t -> e' ∈ es -> f e' = Some t' -> t' + W <= t) -> apart f W (e :: es).
Proof.
  intros Ha He l1 e1 l2 t e' t' E. destruct l1 as [|e0 l1]; cbn in E; injection E as -> ->; [by apply He|by apply (Ha l1)].
Qed.

Section ends.
Context (b : ViewBinding.Binding) (l : Limits.ProtocolLimits) (Hag : agreed b l).

Definition is_query (es : list Event) (bs : bytes) : Prop :=
  exists s t, decode bs b l HostToViewer Reliable = Ok (MetricsMsg.Query s) /\ fits u64_max s /\ Asked s t ∈ es.
Definition is_reply (es : list Event) (bs : bytes) : Prop :=
  exists s load t, decode bs b l ViewerToHost Reliable = Ok (Reply s load) /\ solicited es s t load.

Record asking (es : list Event) (r : Requester) : Prop := {
  as_binding : binding r = b;
  as_limits : limits r = l;
  as_sequence : 0 <= sequence r <= u64_max;
  as_asked s t : Asked s t ∈ es -> 1 <= s <= sequence r /\ t <= last_now r /\ t + QUERY_INTERVAL_US <= next r;
  as_apart : apart asked_at QUERY_INTERVAL_US es;
  as_unique s t t' : Asked s t ∈ es -> Asked s t' ∈ es -> t = t';
  as_pending q : q_pending r = Some q ->
    decode (q_bytes q) b l HostToViewer Reliable = Ok (MetricsMsg.Query (q_sequence q))
    /\ exists t, Asked (q_sequence q) t ∈ es /\ q_until q = t + SAMPLE_LIFETIME_US;
  as_sample load until : q_sample r = Some (load, until) -> exists s t, solicited es s t load /\ until = t + SAMPLE_LIFETIME_US
}.

Record answering (es : list Event) (r : Responder) : Prop := {
  an_binding : r_binding r = b;
  an_limits : r_limits r = l;
  an_sampled s load t : Sampled s load t ∈ es -> t <= r_last_now r /\ t + MIN_SAMPLE_INTERVAL_US <= next_sample r;
  an_apart : apart sampled_at MIN_SAMPLE_INTERVAL_US es;
  an_pending p : r_pending r = Some p -> is_reply es (p_bytes p)
}.

Lemma solicited_cons e es s t load : solicited es s t load -> solicited (e :: es) s t load.
Proof using Type. intros (l1 & tv & l2 & -> & Hin). by exists (e :: l1), tv, l2. Qed.
Lemma is_query_cons e es bs : is_query es bs -> is_query (e :: es) bs.
Proof using Type. intros (s & t & Hd & Hf & Hin). exists s, t. split_and!; [done|done|by right]. Qed.
Lemma is_reply_cons e es bs : is_reply es bs -> is_reply (e :: es) bs.
Proof using Type. intros (s & load & t & Hd & Hin). exists s, load, t. split; [done|by apply solicited_cons]. Qed.

(** ** The host *)

Definition host_ok (es : list Event) (now : Z) (r r' : Requester) : Prop :=
  asking ((if sequence r' =? sequence r then [] else [Asked (sequence r') now]) ++ es) r'
  /\ last_now r <= last_now r'.

Lemma host_same es now r r' : sequence r' = sequence r -> asking es r' -> last_now r <= last_now r' -> host_ok es now r r'.
Proof using Type. intros E Ha Hl. split; [|done]. by rewrite E, Z.eqb_refl. Qed.

Lemma asking_weaken es r r' : asking es r -> binding r' = binding r -> limits r' = limits r -> sequence r' = sequence r -> next r' = next r ->
  last_now r <= last_now r' -> q_pending r' = q_pending r \/ q_pending r' = None -> q_sample r' = q_sample r \/ q_sample r' = None -> asking es r'.
Proof using Type.
  intros [A B C D D' E F G] E1 E2 E3 E4 Hl Hp Hs. split; rewrite ?E1, ?E2, ?E3, ?E4; try done.
  - intros s t Hin. destruct (D s t Hin) as (? & ? & ?). split_and!; lia.
  - intros q Hq. destruct Hp as [Hp|Hp]; rewrite Hp in Hq; [by apply F|done].
  - intros ld u Hq. destruct Hs as [Hs|Hs]; rewrite Hs in Hq; [by apply G|done].
Qed.

Lemma query_tick_spec es now r : asking es r ->
  wp (q_tick now) r (fun x r' => asking es r' /\ last_now r <= last_now r' /\ sequence r' = sequence r /\ next r' = next r
    /\ match x with
       | Ok _ => last_now r' = now /\ (forall ld u, q_sample r' = Some (ld, u) -> now < u)
       | Err _ => r' = r
       end).
Proof using Type.
  intros Ha. unfold wp, q_tick, mbind, M_bind, refuse_if, modify. destruct (Z.ltb_spec now (last_now r)) as [Hlt|Hge]; cbn [fst snd].
  { split_and!; done || lia. }
  set (r1 := r <| last_now := now |>). set (r2 := if is_some_and _ (q_pending r1) then _ else _).
  assert (binding r2 = binding r /\ limits r2 = limits r /\ sequence r2 = sequence r /\ next r2 = next r /\ last_now r2 = now
    /\ q_sample r2 = q_sample r /\ (q_pending r2 = q_pending r \/ q_pending r2 = None)) as (E1 & E2 & E3 & E4 & E5 & E6 & E7).
  { unfold r2. destruct (is_some_and _ _); split_and!; auto. }
  clearbody r2. destruct (is_some_and _ (q_sample r2)) eqn:Es.
  - split; [apply (asking_weaken es r); try done; [by rewrite <- E5 in Hge|by right]|]. by rewrite <- E5 in Hge.
  - split; [apply (asking_weaken es r); try done; [by rewrite E5|by left]|]. split_and!; try done; [by rewrite E5|].
    intros ld u Hq. rewrite Hq in Es. by apply Z.leb_gt in Es.
Qed.

(** What follows a tick. *)
Lemma query_ticked {A} es now (m : QM A) r (Q : Result Error A -> Requester -> Prop) : asking es r ->
  (forall e, Q (Err e) r) ->
  (forall r', asking es r' -> last_now r <= last_now r' -> sequence r' = sequence r -> next r' = next r -> last_now r' = now ->
     (forall ld u, q_sample r' = Some (ld, u) -> now < u) -> wp m r' Q) ->
  wp (_ ← q_tick now; m) r Q.
Proof using Type.
  intros Ha He Hok. apply wp_bind, (wp_mono _ _ _ _ (query_tick_spec es now r Ha)).
  intros [[]|e] r' (Ha' & Hl & Es & En & H); [destruct H as [? ?]; by apply Hok|by rewrite H].
Qed.

Lemma query_prepare_spec es now r : asking es r -> wp (prepare now) r (fun _ r' => host_ok es now r r').
Proof using Hag.
  intros Ha. unfold prepare. apply (query_ticked es); [done|intros e; by apply host_same|]. intros r1 Ha1 Hl Es En Hn _. apply wp_gets. unfold id.
  destruct (negb _ && (next r1 <=? now)) eqn:Eg; [|unfold wp; by apply host_same].
  apply andb_true_iff in Eg as [_ Hnext%Z.leb_le].
  apply wp_lift. unfold ok_or. destruct (checked_add u64_max (sequence r1) 1) as [s|] eqn:Ec; [|by apply host_same].
  apply checked_add_Some in Ec as [-> Hs]. apply wp_lift. destruct (checked_add u64_max now SAMPLE_LIFETIME_US) as [u|] eqn:Eu; [|by apply host_same].
  apply checked_add_Some in Eu as [-> _]. apply wp_lift. destruct (checked_add u64_max now QUERY_INTERVAL_US) as [n|] eqn:Ei; [|by apply host_same].
  apply checked_add_Some in Ei as [-> _]. apply wp_lift. destruct (encoded _ _ _ _ _) as [bs|e] eqn:Ee; [|by apply host_same].
  unfold wp, modify. cbn [fst snd]. destruct Ha1 as [A B C D D' E F G]. rewrite A, B in Ee.
  pose proof (metrics_read b l (MetricsMsg.Query (sequence r1 + 1)) HostToViewer bs Hag) as Hread.
  unfold host_ok. change (sequence (upd _ _ _)) with (sequence r1 + 1). rewrite <- Es, (proj2 (Z.eqb_neq (sequence r1 + 1) (sequence r1))) by lia.
  split; [|exact Hl]. cbn [app].
  assert (forall s t, Asked s t ∈ es -> 1 <= s <= sequence r1) as Hold by (intros s t Hin; by apply (D s t)).
  split; try done; cbn [sequence next last_now q_pending q_sample upd setter].
  - lia.
  - intros s t [[= -> ->]|Hin]%elem_of_cons; [|destruct (D s t Hin) as (? & ? & ?)]; split_and!; lia.
  - apply apart_cons; [done|]. intros t [s0 t0|] t' [= <-] Hin [= <-]. destruct (D s0 t0 Hin) as (_ & _ & ?). lia.
  - intros s t t' [E1|H1]%elem_of_cons [E2|H2]%elem_of_cons; [congruence| | |by apply (E s)].
    + injection E1 as -> _. specialize (Hold _ _ H2). lia.
    + injection E2 as -> _. specialize (Hold _ _ H1). lia.
  - intros q [= <-]. cbn [q_bytes q_sequence q_until]. split; [apply Hread; [split; [|done]; split; cbn; lia|done]|].
    exists now. split; [by left|done].
  - intros ld u Hq. destruct (G ld u Hq) as (s & t & Hso & ->). exists s, t. split; [by apply solicited_cons|done].
Qed.

(** The events after a call of the host. *)
Definition asked_log (es : list Event) (now : Z) (r r' : Requester) : list Event :=
  (if sequence r' =? sequence r then [] else [Asked (sequence r') now]) ++ es.
(** Calls that make no query. *)
Record quiet (es : list Event) (r r' : Requester) : Prop := {
  qu_asking : asking es r';
  qu_sequence : sequence r' = sequence r;
  qu_now : last_now r <= last_now r'
}.

Lemma quiet_refl es r : asking es r -> quiet es r r.
Proof using Type. by split. Qed.

Lemma quiet_tick es now r : asking es r -> wp (q_tick now) r (fun _ r' => quiet es r r').
Proof using Type.
  intros Ha. apply (wp_mono _ _ _ _ (query_tick_spec es now r Ha)). intros x r' (? & ? & ? & _). by split.
Qed.

Lemma query_pending_spec es now r : asking es r ->
  wp (pending now) r (fun x r' => quiet es r r' /\ match x with Ok (Some (bs, _)) => is_query es bs | _ => True end).
Proof using Type.
  intros Ha. apply (query_ticked es); [done|intros e; split; [by apply quiet_refl|done]|]. intros r1 Ha1 Hl Es _ _ _.
  unfold wp, gets. cbn [fst snd]. split; [by split|]. destruct (q_pending r1) as [q|] eqn:Eq; [|done]. destruct (q_sent q); [done|].
  destruct (as_pending _ _ Ha1 q Eq) as (Hd & t & Hin & _). exists (q_sequence q), t. split_and!; [done| |done].
  destruct (as_asked _ _ Ha1 _ _ Hin) as (? & _ & _). pose proof (as_sequence _ _ Ha1). unfold fits. lia.
Qed.

Lemma query_queued_spec es now r : asking es r -> wp (queued now) r (fun _ r' => quiet es r r').
Proof using Type.
  intros Ha. apply (query_ticked es); [done|intros e; by apply quiet_refl|]. intros r1 Ha1 Hl Es _ _ _.
  apply wp_readr. unfold ok_or. destruct (q_pending r1) as [q|] eqn:Eq; [|by split]. apply wp_refuse. destruct (q_sent q); [by split|].
  unfold wp, modify. cbn [fst snd]. split; [|done|done]. destruct Ha1 as [A B C D D' E F G]. split; try done.
  intros q' E'. injection E' as <-. exact (F q Eq).
Qed.

Lemma sample_spec es now r : asking es r ->
  wp (sample now) r (fun x r' => quiet es r r' /\ match x with
    | Ok (Some (ld, _)) => exists s t, solicited es s t ld /\ t <= now < t + SAMPLE_LIFETIME_US
    | _ => True end).
Proof using Hag.
  intros Ha. apply (query_ticked es); [done|intros e; split; [by apply quiet_refl|done]|]. intros r1 Ha1 Hl Es _ Hn Hu.
  unfold wp, gets. cbn [fst snd]. split; [by split|]. destruct (q_sample r1) as [[ld u]|] eqn:Eq; [|done].
  destruct (as_sample _ _ Ha1 ld u Eq) as (s & t & Hso & ->). specialize (Hu _ _ eq_refl). exists s, t. split; [done|]. split; [|done].
  pose proof Hso as (l1 & tv & l2 & E & Hin). assert (Asked s t ∈ es) as Hin' by (rewrite E; set_solver).
  destruct (as_asked _ _ Ha1 s t Hin') as (_ & ? & _). lia.
Qed.

Lemma reply_receive_spec es now bs r : asking es r -> is_reply es bs -> wp (receive bs now) r (fun _ r' => quiet es r r').
Proof using Hag.
  intros Ha (s & load & t & Hd & Hso). apply (query_ticked es); [done|intros e; by apply quiet_refl|]. intros r1 Ha1 Hl Es _ _ _.
  assert (quiet es r r1) as Hq by (by split).
  apply wp_readr. rewrite (as_binding _ _ Ha1), (as_limits _ _ Ha1), Hd. cbn [map_err]. apply wp_refuse. destruct (_ <? _); [done|].
  apply wp_gets. unfold id. destruct (q_pending r1) as [q|] eqn:Eq; [|done]. destruct (Z.eqb_spec s (q_sequence q)) as [->|]; [|done].
  cbn [negb]. apply wp_refuse. destruct (negb _); [done|]. apply wp_modify. unfold wp. cbn [fst snd mret M_ret].
  split; [|done|done]. destruct Ha1 as [A B C D D' E F G]. destruct (F q Eq) as (_ & t' & Hin & Hu). split; try done.
  intros ld u E'. injection E' as <- <-. exists (q_sequence q), t'. split; [|done].
  destruct Hso as (l1 & tv & l2 & -> & Hin2). rewrite (E (q_sequence q) t' t) in * by (done || set_solver). by exists l1, tv, l2.
Qed.

Lemma wp_protocol {S A E : Type} (m : M S Error A) (s : S) (Q : Result (SendError E) A -> S -> Prop) :
  wp m s (fun x s' => Q (map_err Protocol x) s') -> wp (protocol m) s Q.
Proof using Type. unfold wp, protocol. by destruct (m s). Qed.

Definition transmit_rest (now : Z) (send : bytes -> Z -> Result unit Admission) : M Requester (SendError unit) bool :=
  offer ← protocol (pending now);
      match offer with
      | None => mret false
      | Some (bs, until) =>
          admitted ← lift (map_err Transport (send bs until));
          _ ← match admitted with
              | Accepted => protocol (queued now)
              | Backpressure => mret tt
              | AdmissionExpired => protocol (q_tick until)
              end;
          mret (bool_decide (admitted = Accepted))
      end.

(** After the query was prepared, the rest of a transmission makes none. *)
Lemma transmit_tail es now (send : bytes -> Z -> Result unit Admission) r : asking es r ->
  wp (transmit_rest now send) r (fun _ r' => quiet es r r').
Proof using Type.
  intros Ha. apply wp_bind, wp_protocol, (wp_mono _ _ _ _ (query_pending_spec es now r Ha)). intros x r1 [Hq _].
  destruct x as [[[bs until]|]|e]; cbn [map_err]; [|done|done]. apply wp_lift. destruct (send bs until) as [ad|e]; cbn [map_err]; [|done].
  destruct Hq as [Ha1 Es Hl]. apply wp_bind.
  assert (forall r2, quiet es r1 r2 -> quiet es r r2) as Htr by (intros r2 [? ? ?]; split; [done|congruence|lia]).
  destruct ad.
  - apply wp_protocol, (wp_mono _ _ _ _ (query_queued_spec es now r1 Ha1)). intros [[]|e] r2 Hq2; cbn; by apply Htr.
  - unfold wp. cbn. by apply Htr, quiet_refl.
  - apply wp_protocol, (wp_mono _ _ _ _ (quiet_tick es until r1 Ha1)). intros [[]|e] r2 Hq2; cbn; by apply Htr.
Qed.

Lemma quiet_log es now r r1 r2 : sequence r2 = sequence r1 -> asked_log es now r r2 = asked_log es now r r1.
Proof using Type. unfold asked_log. by intros ->. Qed.

Lemma transmit_unfold now send r : transmit now send r =
  match prepare now r with (Ok _, r1) => transmit_rest now send r1 | (Err e, r1) => (Err (Protocol e), r1) end.
Proof using Type.
  unfold transmit. unfold mbind at 1, M_bind at 1. unfold protocol at 1. by destruct (prepare now r) as [[[]|e] r1].
Qed.
Lemma offer_unfold now r : (_ ← prepare now; pending now) r =
  match prepare now r with (Ok _, r1) => pending now r1 | (Err e, r1) => (Err e, r1) end.
Proof using Type. unfold mbind, M_bind. by destruct (prepare now r) as [[[]|e] r1]. Qed.

Lemma transmit_spec es now (send : bytes -> Z -> Result unit Admission) r : asking es r ->
  let r' := snd (transmit now send r) in
  host_ok es now r r' /\ Forall (is_query (asked_log es now r r')) (taken (_ ← prepare now; pending now) send r).
Proof using Hag.
  intros Ha. pose proof (query_prepare_spec es now r Ha) as Hp. unfold wp in Hp.
  rewrite transmit_unfold. unfold taken. rewrite offer_unfold.
  destruct (prepare now r) as [[[]|e] r1]; cbn [fst snd] in *; [|split; [exact Hp|constructor]].
  destruct Hp as [Ha1 Hl1]. fold (asked_log es now r r1) in Ha1.
  destruct (transmit_tail _ now send r1 Ha1) as [Ha2 Es Hl2]. split.
  - split; [|by etrans]. change (asking (asked_log es now r (snd (transmit_rest now send r1))) (snd (transmit_rest now send r1))).
    by rewrite (quiet_log es now r r1).
  - change (Forall (is_query (asked_log es now r (snd (transmit_rest now send r1))))
      (match fst (pending now r1) with
       | Ok (Some (bs, until)) => match send bs until with Ok Accepted => [bs] | _ => [] end
       | _ => []
       end)).
    rewrite (quiet_log es now r r1) by done. pose proof (query_pending_spec _ now r1 Ha1) as [_ Hq].
    destruct (fst (pending now r1)) as [[[bs until]|]|e]; [|by constructor..]. destruct (send bs until) as [[]|]; by repeat constructor.
Qed.
(** Samples of the viewer leave the host as it is. *)
Lemma asking_sampled es s load t r : asking es r -> asking (Sampled s load t :: es) r.
Proof using Type.
  intros [A B C D D' E F G]. split; try done.
  - intros s0 t0 [?|Hin]%elem_of_cons; [done|by apply D].
  - by apply apart_cons.
  - intros s0 t1 t2 [?|H1]%elem_of_cons [?|H2]%elem_of_cons; try done. by apply (E s0).
  - intros q Hq. destruct (F q Hq) as (? & t0 & ? & ?). split; [done|]. exists t0. split; [by right|done].
  - intros ld u Hq. destruct (G ld u Hq) as (s0 & t0 & ? & ?). exists s0, t0. split; [by apply solicited_cons|done].
Qed.

(** ** The viewer *)

Lemma answering_asked es s t r : answering es r -> answering (Asked s t :: es) r.
Proof using Type.
  intros [A B C D E]. split; try done.
  - intros s0 ld t0 [?|Hin]%elem_of_cons; [done|by apply (C s0 ld)].
  - by apply apart_cons.
  - intros p Hp. by apply is_reply_cons, E.
Qed.

Lemma answering_weaken es r r' : answering es r -> r_binding r' = r_binding r -> r_limits r' = r_limits r -> next_sample r' = next_sample r ->
  r_last_now r <= r_last_now r' -> r_pending r' = r_pending r \/ r_pending r' = None -> answering es r'.
Proof using Type.
  intros [A B C D E] E1 E2 E3 Hl Hp. split; rewrite ?E1, ?E2, ?E3; try done.
  - intros s ld t Hin. destruct (C s ld t Hin). split; [lia|done].
  - intros p Hq. destruct Hp as [Hp|Hp]; rewrite Hp in Hq; [by apply E|done].
Qed.

Lemma r_ticked {A} es now (m : RM A) r (Q : Result Error A -> Responder -> Prop) : answering es r ->
  (forall e, Q (Err e) r) -> (forall r', answering es r' -> r_last_now r' = now -> wp m r' Q) -> wp (_ ← r_tick now; m) r Q.
Proof using Type.
  intros Ha He Hok. apply wp_bind. unfold r_tick, wp, mbind, M_bind, refuse_if, modify. destruct (Z.ltb_spec now (r_last_now r)); [apply He|].
  cbn [fst snd]. destruct (is_some_and _ _); (apply Hok; [|done]); apply (answering_weaken es r); auto.
Qed.

Lemma r_offer_spec es now r : answering es r ->
  wp (r_offer now) r (fun x r' => answering es r' /\ match x with Ok (Some (bs, _)) => is_reply es bs | _ => True end).
Proof using Type.
  intros Ha. apply (r_ticked es); [done|done|]. intros r1 Ha1 Hn. unfold wp, gets. cbn [fst snd]. split; [done|].
  destruct (r_pending r1) as [p|] eqn:Ep; [|done]. by apply (an_pending _ _ Ha1).
Qed.

Lemma r_queued_spec es now r : answering es r -> wp (r_queued now) r (fun _ r' => answering es r').
Proof using Type.
  intros Ha. apply (r_ticked es); [done|done|]. intros r1 Ha1 Hn. apply wp_readr. destruct (ok_or _ _); [|done].
  unfold wp, modify. apply (answering_weaken es r1); auto. cbn. lia.
Qed.

Lemma r_transmit_spec es now (send : bytes -> Z -> Result unit Admission) r : answering es r ->
  wp (r_transmit now send) r (fun _ r' => answering es r').
Proof using Type.
  intros Ha. apply wp_bind, wp_protocol, (wp_mono _ _ _ _ (r_offer_spec es now r Ha)). intros x r1 [Ha1 _].
  destruct x as [[[bs until]|]|e]; cbn [map_err]; [|done|done]. apply wp_lift. destruct (send bs until) as [ad|e]; cbn [map_err]; [|done].
  apply wp_bind. destruct ad.
  - apply wp_protocol, (wp_mono _ _ _ _ (r_queued_spec es now r1 Ha1)). by intros [[]|e] r2.
  - done.
  - apply wp_protocol. pose proof (r_ticked es until (mret tt) r1 (fun _ r' => answering es r') Ha1) as Ht.
    unfold wp, mbind, M_bind in *. destruct (r_tick until r1) as [[[]|e] r2]; cbn in *; apply Ht; done.
Qed.

Lemma r_receive_spec es now bs load r : answering es r -> is_query es bs -> load_typed load ->
  answering (sampled bs load now r ++ es) (snd (r_receive bs load now r))
  /\ forall e, e ∈ sampled bs load now r -> exists s, e = Sampled s load now.
Proof using Hag.
  intros Ha (s & t & Hd & Hfits & Hin) Hload. unfold sampled.
  assert (wp (r_receive bs load now) r (fun x r' => match x with
    | Ok true => answering (Sampled (r_sequence r') load now :: es) r'
    | _ => answering es r' end)) as Hs.
  { apply (r_ticked es); [done|done|]. intros r1 Ha1 Hn. apply wp_readr. rewrite (an_binding _ _ Ha1), (an_limits _ _ Ha1), Hd. cbn [map_err].
    apply wp_gets. unfold id. destruct (Z.leb_spec s (r_sequence r1)); [done|]. apply wp_modify.
    set (r2 := r1 <| r_sequence := s |>). assert (answering es r2) as Ha2 by (apply (answering_weaken es r1); auto; cbn; lia).
    destruct (is_some (r_pending r1) || (now <? next_sample r1)) eqn:Eg; [done|]. apply orb_false_iff in Eg as [_ Hnext%Z.ltb_ge].
    apply wp_lift. unfold ok_or. destruct (checked_add _ now REPLY_LIFETIME_US) as [u|]; [|done]. apply wp_lift.
    destruct (checked_add _ now MIN_SAMPLE_INTERVAL_US) as [n|] eqn:En; [|done]. apply checked_add_Some in En as [-> _].
    apply wp_lift. destruct (encoded _ _ _ _ _) as [out|e] eqn:Ee; [|done]. apply wp_modify. unfold wp. cbn [fst snd mret M_ret].
    rewrite (an_binding _ _ Ha1), (an_limits _ _ Ha1) in Ee.
    assert (decode out b l ViewerToHost Reliable = Ok (Reply s load)) as Hread.
    { apply (metrics_read b l (Reply s load) ViewerToHost out Hag); [|done]. by split. }
    change (answering (Sampled s load now :: es) (r2 <| r_pending := Some (mk_reply out u) |> <| next_sample := now + MIN_SAMPLE_INTERVAL_US |>)).
    assert (forall s0 ld t0, Sampled s0 ld t0 ∈ es -> t0 <= now /\ t0 + MIN_SAMPLE_INTERVAL_US <= now) as Hold.
    { intros s0 ld t0 H0. destruct (an_sampled _ _ Ha1 s0 ld t0 H0). split; lia. }
    destruct Ha2 as [A B C D E]. split; try done.
    - intros s0 ld t0 [[= -> -> ->]|H0]%elem_of_cons.
      + change (now <= r_last_now r1 /\ now + MIN_SAMPLE_INTERVAL_US <= now + MIN_SAMPLE_INTERVAL_US). lia.
      + destruct (Hold s0 ld t0 H0). change (t0 <= r_last_now r1 /\ t0 + MIN_SAMPLE_INTERVAL_US <= now + MIN_SAMPLE_INTERVAL_US). lia.
    - apply apart_cons; [done|]. intros t0 [|s0 ld t1] t' [= <-] H0 [= <-]. by apply (Hold s0 ld).
    - intros p E'. injection E' as <-. exists s, load, t. split; [done|]. by exists [], now, es. }
  unfold wp in Hs. destruct (r_receive bs load now r) as [[[]|e] r']; cbn [fst snd app] in *; (split; [done|]); set_solver.
Qed.
End ends.

End FeedbackProps.

(** * Receiver metrics: claims

    The load the pacing controller sees was sampled by the viewer, for a query of
    this host, recently; and neither end does more than its share. *)

Module FeedbackClaims.
Import MetricsMsg Feedback FeedbackProps.
Import MetricsMsgProps(load_typed).

Section world.
Context (b : ViewBinding.Binding) (l : Limits.ProtocolLimits) (Hag : agreed b l).

Record world_ok (w : World) : Prop := {
  wo_host : asking b l (log w) (host w);
  wo_viewer : answering b l (log w) (viewer w);
  wo_queries : Forall (is_query b l (log w)) (queries w);
  wo_replies : Forall (is_reply b l (log w)) (replies w)
}.

Lemma host_step_ok w now r qs : world_ok w -> host_ok b l (log w) now (host w) r ->
  Forall (is_query b l (asked_log (log w) now (host w) r)) qs -> world_ok (host_step w now r qs).
Proof using Type.
  intros [Wh Wv Wq Wr] [Ha _] Hqs. unfold asked_log in Hqs. unfold host_step.
  destruct (sequence r =? sequence (host w)); cbn [app] in *.
  - split; try done. cbn. by apply Forall_app.
  - split; cbn [host viewer queries replies log]; try done.
    + by apply answering_asked.
    + apply Forall_app. split; [|done]. eapply Forall_impl; [exact Wq|]. intros bs. by apply is_query_cons.
    + eapply Forall_impl; [exact Wr|]. intros bs. by apply is_reply_cons.
Qed.

Lemma quiet_ok es now r r' : quiet b l es r r' -> host_ok b l es now r r'.
Proof using Type. intros [? ? ?]. by apply host_same. Qed.

Lemma viewer_step_ok w r ps es : world_ok w -> answering b l (es ++ log w) r -> (es = [] \/ exists s load t, es = [Sampled s load t]) ->
  Forall (is_reply b l (log w)) ps -> world_ok (viewer_step w r ps es).
Proof using Type.
  intros [Wh Wv Wq Wr] Ha Hes Hps. unfold viewer_step. destruct Hes as [->|(s & load & t & ->)]; cbn [app] in *.
  - split; try done. cbn. by apply Forall_app.
  - split; cbn [host viewer queries replies log]; try done.
    + by apply asking_sampled.
    + eapply Forall_impl; [exact Wq|]. intros bs. by apply is_query_cons.
    + apply Forall_app. split; (eapply Forall_impl; [eassumption|]); intros bs; by apply is_reply_cons.
Qed.

Lemma sampled_one bs load now r : sampled bs load now r = [] \/ exists s ld t, sampled bs load now r = [Sampled s ld t].
Proof using Type. unfold sampled. destruct (r_receive _ _ _ _) as [[[]|] ?]; eauto. Qed.

Lemma taken_reply es now send r : answering b l es r -> Forall (is_reply b l es) (taken (r_offer now) send r).
Proof using Type.
  intros Ha. pose proof (r_offer_spec b l es now r Ha) as [_ Ho]. unfold taken. destruct (fst (r_offer now r)) as [[[bs u]|]|]; [|by constructor..].
  destruct (send bs u) as [[]|]; by repeat constructor.
Qed.

Lemma step_ok op w : op_ok op -> world_ok w -> world_ok (step op w).
Proof using Hag.
  intros Hop Hw. pose proof (wo_host _ Hw) as Hh. pose proof (wo_viewer _ Hw) as Hv.
  destruct op as [now|now|now|now send|i now|now|i load now|now|now|now send]; cbn [step].
  - apply host_step_ok; [done|by apply (query_prepare_spec b l Hag)|constructor].
  - apply host_step_ok; [done| |constructor]. apply quiet_ok. by apply (query_pending_spec b l (log w) now (host w) Hh).
  - pose proof (query_queued_spec b l (log w) now (host w) Hh) as Hq. apply host_step_ok; [done|by apply quiet_ok|].
    unfold asked_log. unfold wp in Hq. rewrite (qu_sequence _ _ _ _ _ Hq), Z.eqb_refl. cbn [app].
    pose proof (query_pending_spec b l (log w) now (host w) Hh) as [_ Hp]. unfold handed.
    destruct (fst (queued now (host w))), (fst (pending now (host w))) as [[[bs u]|]|]; by repeat constructor.
  - destruct (transmit_spec b l Hag (log w) now send (host w) Hh) as [? ?]. by apply host_step_ok.
  - destruct (replies w !! i) as [bs|] eqn:Ei; [|done]. apply host_step_ok; [done| |constructor]. apply quiet_ok.
    assert (is_reply b l (log w) bs) as Hbs by (eapply Forall_lookup_1; [apply (wo_replies _ Hw)|done]).
    exact (reply_receive_spec b l Hag (log w) now bs (host w) Hh Hbs).
  - apply host_step_ok; [done| |constructor]. apply quiet_ok. by apply (sample_spec b l Hag (log w) now (host w) Hh).
  - destruct (queries w !! i) as [bs|] eqn:Ei; [|done].
    assert (is_query b l (log w) bs) as Hbs by (eapply Forall_lookup_1; [apply (wo_queries _ Hw)|done]).
    destruct (r_receive_spec b l Hag (log w) now bs load (viewer w) Hv Hbs Hop) as [? _].
    apply viewer_step_ok; try done. apply sampled_one.
  - apply viewer_step_ok; [done| |by left|constructor]. by apply (r_offer_spec b l (log w) now (viewer w) Hv).
  - apply viewer_step_ok; [done| |by left|]; [by apply (r_queued_spec b l (log w) now (viewer w) Hv)|].
    pose proof (r_offer_spec b l (log w) now (viewer w) Hv) as [_ Ho]. unfold handed.
    destruct (fst (r_queued now (viewer w))), (fst (r_offer now (viewer w))) as [[[bs u]|]|]; by repeat constructor.
  - apply viewer_step_ok; [done| |by left|by apply taken_reply]. by apply (r_transmit_spec b l (log w) now send (viewer w) Hv).
Qed.

Lemma run_ok ops : forall w, Forall op_ok ops -> world_ok w -> world_ok (run ops w).
Proof using Hag.
  induction ops as [|op ops IH]; intros w Hops Hw; [done|]. inversion_clear Hops. apply IH; [done|]. by apply step_ok.
Qed.

Lemma start_ok t0 t1 h v : new_requester b l t0 = Ok h -> new_responder b l t1 = Ok v -> world_ok (mk_world h v [] [] []).
Proof using Hag.
  unfold new_requester, new_responder. destruct (ViewBinding.validate b) as [[]|]; [|done]. cbn. intros [= <-] [= <-].
  assert (forall f W, apart f W []) as Hap by (intros f W l1 e l2 t e' t' E; by destruct l1).
  split; [| |by constructor..]; (split; try done; try (intros; set_solver); apply Hap).
Qed.
End world.

(** When the host takes a receiver's load as measured, then that load was sampled
    by the viewer, after the host had made the query it answers, and less than 150
    milliseconds have passed on the host's clock since that query was made: however
    records are delayed, repeated, reordered or refused, and however the two clocks
    relate. *)
Theorem load_evidence_is_recent b l t0 t1 h v ops now load h' : agreed b l ->
  new_requester b l t0 = Ok h -> new_responder b l t1 = Ok v -> Forall op_ok ops ->
  let w := run ops (mk_world h v [] [] []) in
  evidence now (host w) = (Ok (Pacing.Measured load), h') ->
  exists s t, solicited (log w) s t load /\ t <= now < t + SAMPLE_LIFETIME_US.
Proof.
  intros Hag Hh Hv Hops w He. pose proof (run_ok b l Hag ops _ Hops (start_ok b l Hag t0 t1 h v Hh Hv)) as Hw. fold w in Hw.
  pose proof (sample_spec b l Hag (log w) now (host w) (wo_host _ _ _ Hw)) as [_ Hs]. unfold evidence, mbind, M_bind in He.
  destruct (sample now (host w)) as [[[[ld u]|]|e] r]; cbn in *; [|done..]. by injection He as -> _.
Qed.

(** Telemetry is rationed at both ends: of two queries of a host the later is made
    at least 50 milliseconds after the earlier, and of two samples of a viewer the
    later at least 25, each on its own clock. *)
Theorem telemetry_is_rationed b l t0 t1 h v ops : agreed b l ->
  new_requester b l t0 = Ok h -> new_responder b l t1 = Ok v -> Forall op_ok ops ->
  let w := run ops (mk_world h v [] [] []) in
  apart asked_at QUERY_INTERVAL_US (log w) /\ apart sampled_at MIN_SAMPLE_INTERVAL_US (log w).
Proof.
  intros Hag Hh Hv Hops w. pose proof (run_ok b l Hag ops _ Hops (start_ok b l Hag t0 t1 h v Hh Hv)) as [Ha Hb _ _].
  split; [apply Ha|apply Hb].
Qed.

(** *** One exchange *)

Definition demo_binding : ViewBinding.Binding := ViewBinding.mk_view (mk_control 9 1 2 3) 4 0 1 0 0.
Definition demo_load : Load := mk_load 1000 1 false (Some 4000).
Definition accept (bs : bytes) (until : Z) : Result unit Admission := Ok Accepted.
Definition demo_host : Requester := mk_requester demo_binding Limits.ABSOLUTE 0 1000 1000 None None.
Definition demo_viewer : Responder := mk_responder demo_binding Limits.ABSOLUTE 0 77 77 None.
Definition demo_exchange : list Op :=
  [HostTransmit 1000 accept; ViewerReceive 0 demo_load 100; ViewerTransmit 200 accept; HostReceive 0 60000; HostTransmit 61000 accept].
Definition demo_world : World := run demo_exchange (mk_world demo_host demo_viewer [] [] []).

Lemma feedback_agreed : agreed demo_binding Limits.ABSOLUTE.
Proof.
  split; [|done|by vm_compute]. unfold ViewProps.view_typed, ViewProps.generations, fits, u32_max, u64_max. cbn.
  split; [lia|]. repeat (apply Forall_cons_2; [lia|]). apply Forall_nil_2.
Qed.
Lemma feedback_exchange_ok : Forall op_ok demo_exchange.
Proof. repeat constructor; cbn; by vm_compute. Qed.

Lemma load_evidence_is_recent_witness :
  exists s t, solicited (log demo_world) s t demo_load /\ t <= 150999 < t + SAMPLE_LIFETIME_US.
Proof.
  exact (load_evidence_is_recent demo_binding Limits.ABSOLUTE 1000 77 demo_host demo_viewer demo_exchange 150999 demo_load _
           feedback_agreed eq_refl eq_refl feedback_exchange_ok ltac:(vm_compute; reflexivity)).
Defined.

Lemma telemetry_is_rationed_witness :
  length (log demo_world) = 3%nat
  /\ apart asked_at QUERY_INTERVAL_US (log demo_world) /\ apart sampled_at MIN_SAMPLE_INTERVAL_US (log demo_world).
Proof.
  split; [vm_compute; reflexivity|].
  exact (telemetry_is_rationed demo_binding Limits.ABSOLUTE 1000 77 demo_host demo_viewer demo_exchange
           feedback_agreed eq_refl eq_refl feedback_exchange_ok).
Defined.

End FeedbackClaims.
