(* ===== verification/Clipboard.v ===== *)
(** * The controller-owned text clipboard

    [fr-core/src/clipboard.rs] with [clipboard/receive.rs] and
    [clipboard/authority.rs]: the receiving owner of one text lane.  The authority
    behind a session is any instance of [Authority]; [Host] is the instance over the
    input boundary.  The two switches are atomics that other threads flip: a schedule
    says what they do before each load and between a load and its compare-exchange.
    The platform clipboard is any instance of [ClipboardSink].  A world also keeps a
    log of what happened, which no operation reads. *)

From S2P Require Import Prelude.
From S2P Require Import CoreTime.
From S2P Require Import Authority.
From S2P Require Import Limits.
From S2P Require Import Submission.
From S2P Require Import Bytes.
From S2P Require Import Utf8.

Module Clipboard.

Definition MAX_CHUNKS : Z := 1024.
Definition MAX_CHUNK_BYTES : Z := 16384.

Inductive Endpoint := HostEnd | ControllerEnd.
#[export] Instance Endpoint_eq_dec : EqDecision Endpoint.
Proof. solve_decision. Defined.
Definition opposite (e : Endpoint) : Endpoint := match e with HostEnd => ControllerEnd | ControllerEnd => HostEnd end.

Record Binding := mk_binding { session : Z; lease : Z }.
#[export] Instance Binding_eq_dec : EqDecision Binding.
Proof. solve_decision. Defined.
Definition valid_binding (b : Binding) : bool := negb (session b =? 0) && negb (lease b =? 0).

Record Stamp := mk_stamp { id : Z; source : Endpoint; sequence : Z }.
#[export] Instance Stamp_eq_dec : EqDecision Stamp.
Proof. solve_decision. Defined.
Definition valid_stamp (s : Stamp) : bool := negb (id s =? 0) && negb (sequence s =? 0).

Record Begin := mk_begin { b_binding : Binding; stamp : Stamp; total_bytes : Z; chunks : Z }.
#[export] Instance Begin_eq_dec : EqDecision Begin.
Proof. solve_decision. Defined.

Inductive PlatformError := PUnsupported | PPermission | PUnavailable | PLocalChanged.
#[export] Instance PlatformError_eq_dec : EqDecision PlatformError.
Proof. solve_decision. Defined.

Inductive Error :=
| Permission | Disabled | Suspended | Closed | EBinding | Source | Replay | Busy | Limit | Allocation
| UnknownTransfer | ChunkOrder | Incomplete | InvalidUtf8 | Expired | Clock | LocalChanged
| EAuthority (r : Refusal) | EPlatform (e : PlatformError).
#[export] Instance Error_eq_dec : EqDecision Error.
Proof. solve_decision. Defined.

Definition validate (b : Begin) (limits : Limits.ProtocolLimits) : Result Error unit :=
  if negb (valid_binding (b_binding b)) || negb (valid_stamp (stamp b)) then Err EBinding
  else if (Limits.max_clipboard_item_bytes limits <? total_bytes b)
          || (MAX_CHUNKS <? chunks b)
          || negb (Bool.eqb (total_bytes b =? 0) (chunks b =? 0))
          || (total_bytes b <? chunks b)
          || (chunks b * MAX_CHUNK_BYTES <? total_bytes b)
  then Err Limit else Ok tt.

Inductive Publication := SubmittedToOs | NotSubmitted (e : PlatformError) | UnknownEffect.
#[export] Instance Publication_eq_dec : EqDecision Publication.
Proof. solve_decision. Defined.
Record Receipt := mk_receipt { r_stamp : Stamp; publication : Publication }.
#[export] Instance Receipt_eq_dec : EqDecision Receipt.
Proof. solve_decision. Defined.

(** ** Interfaces *)

(** The [Authority] trait behind [Monitor].  Its methods take [&self] and reach state
    that other threads share, so they are methods on the authority's world. *)
Class Authority (A : Type) := {
  au_binding : A -> Binding;
  au_deadline : HostInstant -> M A Refusal HostInstant;
  au_item_deadline : HostInstant -> M A Refusal HostInstant;
  au_revoke : A -> A }.

(** [ClipboardSink]: a text is a valid UTF-8 string, given by its bytes. *)
Class ClipboardSink (Sk : Type) := {
  sink_prepare : bytes -> Stamp -> Sk -> Result PlatformError unit * Sk;
  sink_publish_until : bytes -> Stamp -> HostInstant -> Sk -> Publication * Sk;
  sink_cancel_prepared : Sk -> Sk }.

(** ** The session *)

Record Incoming := mk_incoming {
  begin_of : Begin;
  text : bytes;
  next_chunk : Z;
  deadline : HostInstant;
  at_revision : Z }.
#[export] Instance eta_incoming : Eta Incoming := fun i =>
  mk_incoming (begin_of i) (text i) (next_chunk i) (deadline i) (at_revision i).

Record ClipboardSession := mk_session {
  binding : Binding;
  local : Endpoint;
  limits : Limits.ProtocolLimits;
  switch_states : Z * Z;
  closed : bool;
  clock : HostInstant;
  incoming : option Incoming;
  received_floor : Z;
  local_revision : Z;
  published : option (Receipt * Z) }.
#[export] Instance eta_session : Eta ClipboardSession := fun s =>
  mk_session (binding s) (local s) (limits s) (switch_states s) (closed s) (clock s) (incoming s)
    (received_floor s) (local_revision s) (published s).

(** What the other threads do next: flips of the switches they hold clones of, in
    order, each the number of the switch and the wanted state; and whether a weak
    compare-exchange fails for no reason. *)
Record Step := mk_step { flips : list (bool * bool); spurious : bool }.

(** The log: an accepted Begin with its time and its deadline, a chunk appended to
    the item, a genuine local copy, a change of a switch, the start of a check, and a
    publication with the authority before and after its final check. *)
Record Publish (A : Type) := mk_publish {
  p_stamp : Stamp; p_text : bytes; p_at : HostInstant; p_until : HostInstant; p_result : Publication;
  p_before : A; p_authority : HostInstant; p_after : A }.
Arguments mk_publish {A}.
Arguments p_stamp {A}. Arguments p_text {A}. Arguments p_at {A}. Arguments p_until {A}.
Arguments p_result {A}. Arguments p_before {A}. Arguments p_authority {A}. Arguments p_after {A}.

Inductive Event (A : Type) :=
| Began (b : Begin) (at_ until : HostInstant)
| Appended (st : Stamp) (index offset : Z) (bs : bytes)
| Copied
| Switched
| Checked (now : HostInstant)
| Published (p : Publish A).
Arguments Began {A}. Arguments Appended {A}. Arguments Copied {A}. Arguments Switched {A}.
Arguments Checked {A}. Arguments Published {A}.

Record World (A Sk : Type) := mk_world {
  owner : ClipboardSession;
  monitor : A;
  switches : Z * Z;
  schedule : list Step;
  sink : Sk;
  log : list (Event A) }.
Arguments mk_world {A Sk}.
Arguments owner {A Sk}. Arguments monitor {A Sk}. Arguments switches {A Sk}.
Arguments schedule {A Sk}. Arguments sink {A Sk}. Arguments log {A Sk}.
#[export] Instance eta_world {A Sk} : Eta (World A Sk) := fun w =>
  mk_world (owner w) (monitor w) (switches w) (schedule w) (sink w) (log w).

(** ** Switches *)

(** Bit zero is the position; a switch at the end of its counter is off for good. *)
Definition enabled_state (state : Z) : bool := negb (state =? u64_max) && Z.odd state.
Definition settled (enabled : bool) (state : Z) : bool := (state =? u64_max) || Bool.eqb (Z.odd state) enabled.

Definition cell (which : bool) (c : Z * Z) : Z := if which then snd c else fst c.
Definition bump (which : bool) (c : Z * Z) : Z * Z := if which then (fst c, snd c + 1) else (fst c + 1, snd c).

Section operations.
Context {A Sk : Type} `{Authority A} `{ClipboardSink Sk}.

Abbreviation CM := (M (World A Sk) Error).

Definition method {B : Type} (f : World A Sk -> Result Error B * World A Sk) : CM B := f.
Definition note (e : Event A) (w : World A Sk) : World A Sk := w <| log := log w ++ [e] |>.
Definition on_owner (f : ClipboardSession -> ClipboardSession) (w : World A Sk) : World A Sk := w <| owner := f (owner w) |>.

Definition switch (which : bool) (w : World A Sk) : World A Sk := note Switched (w <| switches := bump which (switches w) |>).

(** [set_enabled] of another thread, taken as one step. *)
Definition flip (w : World A Sk) (f : bool * bool) : World A Sk :=
  let (which, enabled) := f in if settled enabled (cell which (switches w)) then w else switch which w.

Definition interfere (w : World A Sk) : World A Sk :=
  match schedule w with
  | [] => w
  | i :: rest => foldl flip (w <| schedule := rest |>) (flips i)
  end.

(** [ClipboardSwitch::state] and [is_enabled]. *)
Definition state (which : bool) : CM Z := _ ← modify interfere; gets (fun w => cell which (switches w)).
Definition is_enabled (which : bool) : CM bool := s ← state which; mret (enabled_state s).

(** The loop of [ClipboardSwitch::set_enabled].  A failed exchange returns the value
    it found, so every round starts with the value in the cell. *)
Fixpoint exchange_loop (which enabled : bool) (steps : list Step) (w : World A Sk) : World A Sk :=
  if settled enabled (cell which (switches w)) then w <| schedule := steps |>
  else match steps with
       | [] => switch which (w <| schedule := [] |>)
       | i :: rest =>
           let w' := foldl flip w (flips i) in
           if (cell which (switches w') =? cell which (switches w)) && negb (spurious i)
           then switch which (w' <| schedule := rest |>)
           else exchange_loop which enabled rest w'
       end.
Definition switch_set_enabled (which enabled : bool) (w : World A Sk) : World A Sk :=
  let w := interfere w in exchange_loop which enabled (schedule w) w.

(** ** The checks every operation makes *)

Definition close_session (s : ClipboardSession) : ClipboardSession :=
  s <| closed := true |> <| incoming := None |> <| published := None |>.
Definition close : CM unit := modify (on_owner close_session).

Definition authority_error {B : Type} (reason : Refusal) : CM B :=
  if bool_decide (reason = RAuthority ViewUnready) then fail Suspended
  else _ ← close; fail (EAuthority reason).

(** A call on the authority, its refusal translated by [authority_error]. *)
Definition ask (f : M A Refusal HostInstant) : CM HostInstant := method (fun w =>
  let (r, a) := f (monitor w) in
  let w := w <| monitor := a |> in
  match r with Ok d => (Ok d, w) | Err reason => authority_error reason w end).

(** The second half of [check]: the switches. *)
Definition check_switches : CM unit :=
  s0 ← state false; s1 ← state true;
  changed ← gets (fun w => negb (bool_decide ((s0, s1) = switch_states (owner w))));
  _ ← modify (on_owner (fun s => s <| switch_states := (s0, s1) |>));
  off ← (if (changed : bool) then mret true
         else e0 ← is_enabled false; if (e0 : bool) then e1 ← is_enabled true; mret (negb e1) else mret true);
  if (off : bool) then _ ← modify (on_owner (fun s => s <| incoming := None |>)); fail Disabled else mret tt.

(** [check] returns the deadline or the suspension only after the switches were
    looked at; any other refusal ends it at once. *)
Definition check (now : HostInstant) : CM HostInstant :=
  _ ← refuse_if (fun w => closed (owner w)) (fun _ => Closed);
  late ← gets (fun w => now <? clock (owner w));
  if (late : bool) then
    _ ← modify (fun w => w <| monitor := au_revoke (monitor w) |>);
    _ ← close;
    fail Clock
  else
    _ ← modify (on_owner (fun s => s <| clock := now |>));
    _ ← modify (note (Checked now));
    method (fun w =>
      match ask (au_deadline now) w with
      | (Err e, w) => if bool_decide (e = Suspended) then (_ ← check_switches; fail Suspended) w else (Err e, w)
      | (Ok d, w) => (_ ← check_switches; mret d) w
      end).

Definition maintain (now : HostInstant) : CM unit := method (fun w =>
  let (status, w) := check now w in
  let expired := is_some_and (fun v => deadline v <=? now) (incoming (owner w)) in
  let w := if expired then on_owner (fun s => s <| incoming := None |>) w else w in
  match status with
  | Err e => (Err e, w)
  | Ok _ => (if expired then Err Expired else Ok tt, w)
  end).

(** ** Receiving *)

Definition check_begin (b : Begin) (s : ClipboardSession) : Result Error unit :=
  _ ← validate b (limits s);
  if negb (bool_decide (b_binding b = binding s)) then Err EBinding
  else if negb (bool_decide (source (stamp b) = opposite (local s))) then Err Source
  else if sequence (stamp b) <=? received_floor s then Err Replay
  else if is_some (incoming s) then Err Busy
  else Ok tt.

(** [reserve] is the answer of the allocator to [try_reserve_exact]. *)
Definition begin_before (reserve : bool) (b : Begin) (now bound : HostInstant) : CM unit :=
  _ ← check now;
  authority_deadline ← ask (au_item_deadline now);
  _ ← readr (fun w => check_begin b (owner w));
  three ← lift (ok_or (HostTime.instant_add now 3000000) Clock);
  let deadline := Z.min (Z.min three authority_deadline) bound in
  _ ← modify (on_owner (fun s => s <| received_floor := sequence (stamp b) |>));
  _ ← refuse_if (fun _ => deadline <=? now) (fun _ => Expired);
  _ ← refuse_if (fun _ => negb reserve) (fun _ => Allocation);
  _ ← modify (on_owner (fun s => s <| incoming := Some (mk_incoming b [] 0 deadline (local_revision s)) |>));
  modify (note (Began b now deadline)).

Definition begin (reserve : bool) (b : Begin) (now : HostInstant) : CM unit := begin_before reserve b now u64_max.

Definition check_expiration (now : HostInstant) : CM unit := method (fun w =>
  match maintain now w with
  | (Err Expired, w) | (Err Suspended, w) => (Ok tt, w)
  | r => r
  end).

Definition expire_begin (b : Begin) (now : HostInstant) : CM unit :=
  _ ← check_expiration now;
  _ ← readr (fun w => check_begin b (owner w));
  modify (on_owner (fun s => s <| received_floor := sequence (stamp b) |>)).

Definition cancel (st : Stamp) : CM unit :=
  mine ← gets (fun w => is_some_and (fun v => bool_decide (stamp (begin_of v) = st)) (incoming (owner w)));
  if (mine : bool) then modify (on_owner (fun s => s <| incoming := None |>)) else fail UnknownTransfer.

Definition expire_transfer (st : Stamp) (now : HostInstant) : CM unit :=
  _ ← check_expiration now;
  _ ← refuse_if (fun _ => negb (valid_stamp st)) (fun _ => EBinding);
  _ ← refuse_if (fun w => negb (bool_decide (source st = opposite (local (owner w))))) (fun _ => Source);
  cancel st.

(** The conditions on a chunk of the item [v]. *)
Definition misplaced (index offset : Z) (bs : bytes) (v : Incoming) : bool :=
  let filled := Z.of_nat (length (text v)) in
  let len := Z.of_nat (length bs) in
  negb (index =? next_chunk v) || negb (offset =? filled) || (chunks (begin_of v) <=? index)
  || (len =? 0) || (MAX_CHUNK_BYTES <? len) || (total_bytes (begin_of v) <? filled + len).

Definition chunk (st : Stamp) (index offset : Z) (bs : bytes) (now : HostInstant) : CM unit :=
  _ ← maintain now;
  v ← readr (fun w => ok_or (incoming (owner w)) UnknownTransfer);
  _ ← refuse_if (fun _ => negb (bool_decide (stamp (begin_of v) = st))) (fun _ => UnknownTransfer);
  _ ← lift (ok_or (checked_add u64_max (Z.of_nat (length (text v))) (Z.of_nat (length bs))) Limit);
  if misplaced index offset bs v then
    _ ← modify (on_owner (fun s => s <| incoming := None |>));
    fail ChunkOrder
  else
    _ ← modify (on_owner (fun s => s <| incoming := Some (v <| text := text v ++ bs |> <| next_chunk := next_chunk v + 1 |>) |>));
    modify (note (Appended st index offset bs)).

(** ** Publishing *)

Definition cancel_prepared (w : World A Sk) : World A Sk := w <| sink := sink_cancel_prepared (sink w) |>.

(** From the preparation of the sink to the end of [commit]; the guard cancels what
    is prepared on every way out. *)
Definition publish (v : Incoming) (total : Z) (second : HostInstant) : CM Receipt := method (fun w =>
  let st := stamp (begin_of v) in
  let (r, w) :=
    (_ ← method (fun w => let (r, k) := sink_prepare (text v) st (sink w) in (map_err EPlatform r, w <| sink := k |>));
     before ← gets monitor;
     authority ← check second;
     _ ← refuse_if (fun _ => deadline v <=? second) (fun _ => Expired);
     method (fun w =>
       let until := Z.min (deadline v) authority in
       let (p, k) := sink_publish_until (text v) st until (sink w) in
       let w := note (Published (mk_publish st (text v) second until p before authority (monitor w))) (w <| sink := k |>) in
       let receipt := mk_receipt st p in
       (Ok receipt, on_owner (fun s => s <| published := Some (receipt, total) |>) w))) w in
  (r, cancel_prepared w)).

(** [commit] with the two readings of its clock. *)
Definition commit (st : Stamp) (total : Z) (first second : HostInstant) : CM Receipt :=
  _ ← maintain first;
  done_ ← gets (fun w => match published (owner w) with
                         | Some (r, t) => if bool_decide (r_stamp r = st) then Some (r, t) else None
                         | None => None
                         end);
  match done_ with
  | Some (receipt, t) => if negb (t =? total) then fail Incomplete else mret receipt
  | None =>
      v ← readr (fun w => ok_or (incoming (owner w)) UnknownTransfer);
      _ ← refuse_if (fun _ => negb (bool_decide (stamp (begin_of v) = st))) (fun _ => UnknownTransfer);
      _ ← modify (on_owner (fun s => s <| incoming := None |>));
      _ ← refuse_if (fun _ => negb (total =? total_bytes (begin_of v)) || negb (total =? Z.of_nat (length (text v)))
                              || negb (next_chunk v =? chunks (begin_of v))) (fun _ => Incomplete);
      _ ← refuse_if (fun w => negb (at_revision v =? local_revision (owner w))) (fun _ => LocalChanged);
      _ ← lift (ok_or (from_utf8 (text v)) InvalidUtf8);
      publish v total second
  end.

(** ** The local side *)

Definition is_not_submitted (p : Publication) : bool := match p with NotSubmitted _ => true | _ => false end.

(** The stamp is that of a publication that may have taken effect. *)
Definition own_echo (origin : option Stamp) (s : ClipboardSession) : bool :=
  is_some_and (fun st => is_some_and (fun '(r, _) => bool_decide (r_stamp r = st) && negb (is_not_submitted (publication r)))
                           (published s)) origin.

Definition local_change (origin : option Stamp) (now : HostInstant) : CM bool :=
  _ ← check now;
  echo ← gets (fun w => own_echo origin (owner w));
  if (echo : bool) then mret false
  else method (fun w =>
    match checked_add u64_max (local_revision (owner w)) 1 with
    | None => (_ ← close; fail Limit) w
    | Some n => (Ok true, note Copied (on_owner (fun s => s <| local_revision := n |>) w))
    end).

Definition set_enabled (l p : bool) : CM unit := modify (fun w =>
  let w := switch_set_enabled true p (switch_set_enabled false l w) in
  if negb l || negb p then on_owner (fun s => s <| incoming := None |>) w else w).

End operations.

(** [with_monitor]; the owner is kept when it is only suspended. *)
Definition fresh_session (b : Binding) (l : Endpoint) (lim : Limits.ProtocolLimits) (now : HostInstant) : ClipboardSession :=
  mk_session b l lim (1, 1) false now None 0 0 None.
Definition with_monitor {A Sk : Type} `{Authority A} `{ClipboardSink Sk} (a : A) (l : Endpoint) (lim : Limits.ProtocolLimits)
  (granted : bool) (now : HostInstant) (steps : list Step) (k : Sk) : Result Error unit * World A Sk :=
  let w := mk_world (fresh_session (au_binding a) l lim now) a (1, 1) steps k [] in
  if negb granted then (Err Permission, w)
  else if negb (valid_binding (au_binding a)) then (Err EBinding, w)
  else match check now w with
       | (Ok _, w) | (Err Suspended, w) => (Ok tt, w)
       | (Err e, w) => (Err e, w)
       end.

(** ** The host's authority *)

Module Host.
Section host.
Context {I : Type} `{InputSink I}.

(** The flag is read after the call: a terminal decision never passes for a
    suspension. *)
Definition unless_revoked (f : M (Submission.World I) Refusal HostInstant) : M (Submission.World I) Refusal HostInstant :=
  fun w => let (result, w) := f w in
           match is_revoked w with (Ok true, w) => (Err RRevoked, w) | (_, w) => (result, w) end.

Definition deadline (now : HostInstant) := unless_revoked (monitor_deadline now).
Definition item_deadline (now : HostInstant) := unless_revoked (authorization_deadline now).
Definition revoke (w : Submission.World I) : Submission.World I := w <| revoked := true |>.
Definition binding (w : Submission.World I) : Binding := mk_binding (is_session (own w)) (is_lease (own w)).

#[export] Instance host_authority : Authority (Submission.World I) := {|
  au_binding := binding; au_deadline := deadline; au_item_deadline := item_deadline; au_revoke := revoke |}.
End host.
End Host.

End Clipboard.
