(* ===== verification/WireClipboard.v ===== *)
(** * Clipboard records

    [fr-wire/src/clipboard.rs]: the four text records of a clipboard lane and their
    codec.  [clipboard/send.rs]: one outbound item, encoded lazily.
    [clipboard/receive.rs]: the bridge from a record to the receiving session. *)

From S2P Require Import Prelude.
From S2P Require Import CoreTime.
From S2P Require Import Limits.
From S2P Require Import Bytes.
From S2P Require Import WireRecord.
From S2P Require Import WireMedia.
From S2P Require Import WireInput.
From S2P Require Import Clipboard.

(** ** Messages *)

Module ClipboardMsg.
Import Clipboard(Endpoint, HostEnd, ControllerEnd, Binding, mk_binding, session, lease, valid_binding, Stamp, mk_stamp, id, source,
  sequence, valid_stamp, Begin, mk_begin, MAX_CHUNKS, MAX_CHUNK_BYTES).
#[local] Existing Instances Clipboard.Endpoint_eq_dec Clipboard.Binding_eq_dec.

Definition COMMON_BYTES : Z := 24 + 16 + 16 + 16 + 1 + 8.
Definition BEGIN_BYTES : Z := COMMON_BYTES + 8.
Definition CHUNK_OVERHEAD : Z := COMMON_BYTES + 12.
Definition COMMIT_BYTES : Z := COMMON_BYTES + 4.
Definition CANCEL_BYTES : Z := COMMON_BYTES + 2.

Inductive Role := RoleHost | RoleController | RoleObserver.
Inductive Lane := LaneClipboard | LaneOther.
Record Context := mk_context { scope : Binding; c_channel : Z; sender : Role; lane : Lane }.
#[export] Instance Role_eq_dec : EqDecision Role.
Proof. solve_decision. Defined.
#[export] Instance Lane_eq_dec : EqDecision Lane.
Proof. solve_decision. Defined.
#[export] Instance Context_eq_dec : EqDecision Context.
Proof. solve_decision. Defined.

Definition validate_context (c : Context) : Result WireError Endpoint :=
  if negb (bool_decide (lane c = LaneClipboard)) then Err WrongChannel
  else if (c_channel c =? 0) || negb (valid_binding (scope c)) then Err InvalidBinding
  else match sender c with
       | RoleHost => Ok HostEnd
       | RoleController => Ok ControllerEnd
       | RoleObserver => Err WrongRole
       end.

Inductive CancelReason := User | CDisabled | CExpired | Superseded | Failed.
Definition reason_code (r : CancelReason) : Z :=
  match r with User => 1 | CDisabled => 2 | CExpired => 3 | Superseded => 4 | Failed => 5 end.
Definition parse_reason (v : Z) : Result WireError CancelReason :=
  match v with
  | 1 => Ok User | 2 => Ok CDisabled | 3 => Ok CExpired | 4 => Ok Superseded | 5 => Ok Failed
  | _ => Err InvalidValue
  end.

Inductive Body :=
| MBegin (total_bytes chunks : Z)
| MChunk (index offset : Z) (bs : bytes)
| MCommit (total_bytes : Z)
| MCancel (r : CancelReason).
Record Message := mk_message { m_stamp : Stamp; body : Body }.

Definition kind (m : Message) : Kind :=
  match body m with
  | MBegin _ _ => ClipboardBegin
  | MChunk _ _ _ => ClipboardChunk
  | MCommit _ => ClipboardCommit
  | MCancel _ => ClipboardCancel
  end.

Definition size_of (m : Message) (c : Context) (limits : Limits.ProtocolLimits) : Result WireError Z :=
  match body m with
  | MBegin total n =>
      _ ← map_err (fun _ => ResourceLimit) (Clipboard.validate (mk_begin (scope c) (m_stamp m) total n) limits);
      Ok BEGIN_BYTES
  | MChunk index offset bs =>
      if (Z.of_nat (length bs) =? 0) || (MAX_CHUNK_BYTES <? Z.of_nat (length bs)) || (MAX_CHUNKS <=? index)
         || (Limits.max_clipboard_item_bytes limits <? offset + Z.of_nat (length bs))
      then Err ResourceLimit else Ok (CHUNK_OVERHEAD + Z.of_nat (length bs))
  | MCommit total => if Limits.max_clipboard_item_bytes limits <? total then Err ResourceLimit else Ok COMMIT_BYTES
  | MCancel _ => Ok CANCEL_BYTES
  end.

Definition validate (m : Message) (c : Context) (limits : Limits.ProtocolLimits) : Result WireError Z :=
  e ← validate_context c;
  if negb (bool_decide (source (m_stamp m) = e)) then Err WrongRole
  else if negb (valid_stamp (m_stamp m)) then Err InvalidValue
  else
    size ← size_of m c limits;
    if control_bytes limits <? size then Err ResourceLimit else Ok size.

(** [source as u8]. *)
Definition source_code (e : Endpoint) : Z := match e with HostEnd => 1 | ControllerEnd => 2 end.

Definition write_body (b : Body) : M Writer WireError unit :=
  match b with
  | MBegin total n => _ ← wu32 total; wu32 n
  | MChunk index offset bs => _ ← wu32 index; _ ← wu32 offset; wdata bs
  | MCommit total => wu32 total
  | MCancel r => wu16 (reason_code r)
  end.

Definition write_message (c : Context) (m : Message) : M Writer WireError unit :=
  _ ← wu128 (session (scope c)); _ ← wu128 (lease (scope c)); _ ← wu128 (id (m_stamp m));
  _ ← wu8 (source_code (source (m_stamp m))); _ ← wu64 (sequence (m_stamp m));
  write_body (body m).

Definition encode (m : Message) (c : Context) (limits : Limits.ProtocolLimits) (out : bytes) : Result WireError Z * bytes :=
  match validate m c limits with
  | Err e => (Err e, out)
  | Ok size => record_bounded out (control_bytes limits) (c_channel c) (kind m) (size - 24) (write_message c m)
  end.

Definition check_kind (k : Kind) : Result WireError unit :=
  match k with
  | ClipboardBegin | ClipboardChunk | ClipboardCommit | ClipboardCancel => Ok tt
  | _ => Err UnsupportedKind
  end.

Definition read_source : M Reader WireError Endpoint :=
  tag ← ru8;
  match tag with 1 => mret HostEnd | 2 => mret ControllerEnd | _ => fail InvalidValue end.

Definition read_reason : M Reader WireError CancelReason := v ← ru16; lift (parse_reason v).

Definition read_body (k : Kind) : M Reader WireError Body :=
  match k with
  | ClipboardBegin => total ← ru32; n ← ru32; mret (MBegin total n)
  | ClipboardChunk => index ← ru32; offset ← ru32; bs ← rdata; mret (MChunk index offset bs)
  | ClipboardCommit => total ← ru32; mret (MCommit total)
  | ClipboardCancel => r ← read_reason; mret (MCancel r)
  | _ => fail UnsupportedKind
  end.

Definition read_message (c : Context) (e : Endpoint) (k : Kind) : M Reader WireError Message :=
  s ← opaque; l ← opaque;
  _ ← refuse_if (fun _ => negb (bool_decide (mk_binding s l = scope c))) (fun _ => InvalidBinding);
  transfer ← opaque;
  src ← read_source;
  _ ← refuse_if (fun _ => negb (bool_decide (src = e))) (fun _ => WrongRole);
  n ← ru64;
  b ← read_body k;
  mret (mk_message (mk_stamp transfer src n) b).

Definition decode (bs : bytes) (c : Context) (limits : Limits.ProtocolLimits) : Result WireError Message :=
  e ← validate_context c;
  r ← decode_bounded bs (control_bytes limits) (c_channel c) None;
  _ ← check_kind (WireRecord.kind r);
  m ← reading r (WireRecord.kind r) (m ← read_message c e (WireRecord.kind r); _ ← rfinish; mret m);
  _ ← validate m c limits;
  Ok m.

End ClipboardMsg.

(** ** One outbound item *)

Module ClipboardSender.
Import ClipboardMsg.
Import Clipboard(Stamp, source, Begin, mk_begin, stamp, total_bytes, chunks, MAX_CHUNK_BYTES).
#[local] Existing Instances Clipboard.Endpoint_eq_dec.

Record Sender := mk_sender {
  begin : Begin;
  context : Context;
  limits : Limits.ProtocolLimits;
  text : bytes;
  chunk_bytes : Z;
  step : Z;
  finished : bool }.
#[export] Instance eta_sender : Eta Sender := fun s =>
  mk_sender (begin s) (context s) (limits s) (text s) (chunk_bytes s) (step s) (finished s).

(** [reserve] is the answer of the allocator. *)
Definition new (reserve : bool) (t : bytes) (st : Stamp) (c : Context) (l : Limits.ProtocolLimits) : Result WireError Sender :=
  e ← validate_context c;
  if negb (bool_decide (source st = e)) then Err WrongRole
  else
    room ← ok_or (match checked_sub (control_bytes l) CHUNK_OVERHEAD with
                  | Some n => if n =? 0 then None else Some n
                  | None => None
                  end) InvalidLimits;
    let stride := Z.min room MAX_CHUNK_BYTES in
    total ← u32_try_from ResourceLimit (Z.of_nat (length t));
    n ← u32_try_from ResourceLimit (Media.div_ceil (Z.of_nat (length t)) stride);
    let b := mk_begin (scope c) st total n in
    _ ← map_err (fun _ => ResourceLimit) (Clipboard.validate b l);
    if negb reserve then Err ResourceLimit
    else Ok (mk_sender b c l t stride 0 false).

Definition chunk_body (s : Sender) (index : Z) : Result WireError Body :=
  let offset := index * chunk_bytes s in
  let stop := Z.min (offset + chunk_bytes s) (Z.of_nat (length (text s))) in
  o ← u32_try_from ResourceLimit offset;
  Ok (MChunk index o (slice (Z.to_nat offset) (Z.to_nat stop) (text s))).

Definition next_body (s : Sender) : Result WireError Body :=
  if step s =? 0 then Ok (MBegin (total_bytes (begin s)) (chunks (begin s)))
  else if step s <=? chunks (begin s) then chunk_body s (step s - 1)
  else Ok (MCommit (total_bytes (begin s))).

Definition encode_next (s : Sender) (out : bytes) : Result WireError (option Z) * bytes :=
  if finished s then (Ok None, out)
  else match next_body s with
       | Err e => (Err e, out)
       | Ok b =>
           let (r, out) := encode (mk_message (stamp (begin s)) b) (context s) (limits s) out in
           (n ← r; Ok (Some n), out)
       end.

Definition clear (s : Sender) : Sender := s <| text := [] |> <| finished := true |>.
Definition accepted (s : Sender) : Sender :=
  if finished s then s
  else if chunks (begin s) <? step s then clear s else s <| step := step s + 1 |>.

End ClipboardSender.

(** ** From a record to the session *)

Module ClipboardReceive.
Import ClipboardMsg Clipboard.

#[export] Instance ProtocolLimits_eq_dec : EqDecision Limits.ProtocolLimits.
Proof. solve_decision. Defined.

Inductive ReceiveError := RWire (e : WireError) | RClipboard (e : Error).

Record ExpiredRecord := mk_expired {
  x_context : Context;
  x_limits : Limits.ProtocolLimits;
  x_stamp : Stamp;
  x_begin : option Begin }.

Definition decode_expired (bs : bytes) (c : Context) (l : Limits.ProtocolLimits) : Result WireError ExpiredRecord :=
  m ← decode bs c l;
  Ok (mk_expired c l (m_stamp m)
        (match body m with MBegin total n => Some (mk_begin (scope c) (m_stamp m) total n) | _ => None end)).

Section receive.
Context {A Sk : Type} `{Authority A} `{ClipboardSink Sk}.

Definition apply (x : ExpiredRecord) (c : Context) (l : Limits.ProtocolLimits) (now : HostInstant)
  : M (World A Sk) ReceiveError unit := fun w =>
  if negb (bool_decide (x_context x = c)) || negb (bool_decide (x_limits x = l))
     || negb (bool_decide (scope c = binding (owner w)))
  then (Err (RWire InvalidBinding), snd (close w))
  else let (r, w) := match x_begin x with
                     | Some b => expire_begin b now w
                     | None => expire_transfer (x_stamp x) now w
                     end in
       (map_err RClipboard r, w).

(** [receive_before], with the allocator's answer, the readings of the clock and the
    bound of the ingress. *)
Definition receive_before (reserve : bool) (bs : bytes) (c : Context) (l : Limits.ProtocolLimits)
  (first second bound : HostInstant) : M (World A Sk) ReceiveError (option Receipt) := fun w =>
  if negb (bool_decide (scope c = binding (owner w))) then (Err (RWire InvalidBinding), w)
  else match decode bs c l with
       | Err e => (Err (RWire e), snd (close w))
       | Ok m =>
           let (r, w) :=
             (match body m with
              | MBegin total n => _ ← begin_before reserve (mk_begin (scope c) (m_stamp m) total n) first bound; mret None
              | MChunk index offset data => _ ← chunk (m_stamp m) index offset data first; mret None
              | MCommit total => r ← commit (m_stamp m) total first second; mret (Some r)
              | MCancel _ => _ ← cancel (m_stamp m); mret None
              end : M (World A Sk) Error (option Receipt)) w in
           (map_err RClipboard r, w)
       end.

Definition receive (reserve : bool) (bs : bytes) (c : Context) (l : Limits.ProtocolLimits) (first second : HostInstant)
  : M (World A Sk) ReceiveError (option Receipt) :=
  receive_before reserve bs c l first second u64_max.

End receive.
End ClipboardReceive.
