(* ===== verification/ClipboardProps.v ===== *)
(** * Lemmas on the text clipboard

    Module [ClipboardMsgProps]: the exactness of the four records.  Module
    [ClipboardProps]: what each step of a session does to its item, its switches and
    its log, and the invariant all operations keep. *)

From stdpp Require Import sorting.
From S2P Require Import Prelude.
From S2P Require Import CoreTime.
From S2P Require Import Authority.
From S2P Require Import Limits.
From S2P Require Import Submission.
From S2P Require Import Bytes.
From S2P Require Import Utf8.
From S2P Require Import WireRecord.
From S2P Require Import WireRecordProps.
From S2P Require Import WireMedia.
From S2P Require Import WireMediaProps.
From S2P Require Import WireInput.
From S2P Require Import WireInputProps.
From S2P Require Import WireControl.
From S2P Require Import WireControlProps.
From S2P Require Import Clipboard.
From S2P Require Import WireClipboard.

(** ** Records *)

Module ClipboardMsgProps.
Import ClipboardMsg.
Import Clipboard(Endpoint, HostEnd, ControllerEnd, Binding, mk_binding, session, lease, Stamp, mk_stamp, id, source, sequence, valid_stamp, MAX_CHUNK_BYTES).

Definition context_typed (c : Context) : Prop :=
  fits u32_max (c_channel c) /\ fits u128_max (session (scope c)) /\ fits u128_max (lease (scope c)).
Definition body_typed (b : Body) : Prop :=
  match b with
  | MBegin total n => fits u32_max total /\ fits u32_max n
  | MChunk index offset bs => fits u32_max index /\ fits u32_max offset /\ data_ok bs
  | MCommit total => fits u32_max total
  | MCancel _ => True
  end.
Definition message_typed (m : Message) : Prop :=
  fits u128_max (id (m_stamp m)) /\ fits u64_max (sequence (m_stamp m)) /\ body_typed (body m).

Definition reason_bytes (r : CancelReason) : bytes := be 2 (reason_code r).
Definition source_bytes (e : Endpoint) : bytes := be 1 (source_code e).
Definition body_bytes (b : Body) : bytes :=
  match b with
  | MBegin total n => be 4 total ++ be 4 n
  | MChunk index offset bs => be 4 index ++ be 4 offset ++ data_bytes bs
  | MCommit total => be 4 total
  | MCancel r => reason_bytes r
  end.
Definition message_bytes (c : Context) (m : Message) : bytes :=
  be 16 (session (scope c)) ++ be 16 (lease (scope c)) ++ be 16 (id (m_stamp m))
  ++ source_bytes (source (m_stamp m)) ++ be 8 (sequence (m_stamp m)) ++ body_bytes (body m).

#[export] Instance source_codec : Codec (fun _ => True) source_bytes read_source.
Proof. unfold read_source, source_bytes. tag_codec. Qed.

#[export] Instance reason_codec : Codec (fun _ => True) reason_bytes read_reason.
Proof. apply (parsed_codec u16_max 2 ru16 reason_code parse_reason); [by intros []|parse_exact|by intros []]. Qed.

Lemma read_body_codec k : check_kind k = Ok tt ->
  Codec (fun b => kind (mk_message (mk_stamp 0 HostEnd 0) b) = k /\ body_typed b) body_bytes (read_body k).
Proof.
  intros Hk. split.
  - intros [total n|i o bs|total|rs] r [<- Ht]; cbn [kind body read_body body_bytes body_typed] in *; destruct_and?; by read_all.
  - intros r b r' Hr H. destruct k; try done; cbn [read_body] in H; read_inv; cbn [kind body body_bytes body_typed]; by rewrite <- ?app_assoc.
Qed.

Section codec.
Context (c : Context) (limits : Limits.ProtocolLimits) (Hc : context_typed c) (Hnz : c_channel c <> 0).

Definition sender_end : Endpoint := match validate_context c with Ok e => e | Err _ => HostEnd end.
Definition context_ok : Result WireError unit := _ ← validate_context c; Ok tt.
Definition checked_message (m : Message) : Result WireError unit := _ ← validate m c limits; Ok tt.

Lemma read_message_codec k : check_kind k = Ok tt ->
  Codec (fun m => kind m = k /\ message_typed m /\ source (m_stamp m) = sender_end) (message_bytes c) (read_message c sender_end k).
Proof using Hc.
  intros Hk. pose proof (read_body_codec k Hk) as Hb. destruct Hc as (_ & Hs & Hl). split.
  - intros [[i e n] b] r (Hkd & (Hi & Hn & Ht) & He). cbn [m_stamp source id sequence body] in *. unfold read_message, message_bytes.
    cbn [m_stamp source id sequence body]. do 2 read_step. unfold mbind at 1, M_bind at 1, refuse_if at 1.
    rewrite bool_decide_eq_true_2 by (by destruct (scope c)). cbn [negb].
    read_step. unfold mbind at 1, M_bind at 1. rewrite codec_read by done.
    unfold mbind at 1, M_bind at 1, refuse_if at 1. rewrite bool_decide_eq_true_2 by done. cbn [negb].
    read_step. unfold mbind, M_bind. by rewrite codec_read.
  - intros r m r' Hr H. unfold read_message in H. read_inv. guards. destruct Hok4 as [Hkb Hbt].
    match goal with E : _ = scope c |- _ => rename E into Esc end.
    split; [done|]. split; [|done]. unfold message_bytes. rewrite <- Esc. cbn [m_stamp source id sequence body session lease].
    by rewrite <- ?app_assoc.
Qed.

Lemma clip_body_length b : body_typed b -> Z.of_nat (length (body_bytes b)) =
  match b with MBegin _ _ => 8 | MChunk _ _ bs => 12 + Z.of_nat (length bs) | MCommit _ => 4 | MCancel _ => 2 end.
Proof using Type. destruct b; intros _; cbn [body_bytes]; unfold data_bytes, reason_bytes; rewrite ?length_app, ?be_length; lia. Qed.

Lemma message_length m : message_typed m ->
  Z.of_nat (length (message_bytes c m)) = 57 + Z.of_nat (length (body_bytes (body m))).
Proof using Type. intros _. unfold message_bytes, source_bytes. rewrite ?length_app, ?be_length. lia. Qed.

(** The size a valid message is given is that of its record. *)
Lemma validate_size m n : message_typed m -> validate m c limits = Ok n ->
  n = 24 + Z.of_nat (length (message_bytes c m)) /\ n <= control_bytes limits
  /\ validate_context c = Ok (source (m_stamp m)) /\ Z.of_nat (length (message_bytes c m)) <= u32_max.
Proof using Type.
  intros Ht H. unfold validate in H. apply Result_bind_Ok in H as (e & He & H).
  case_bool_decide as Es; [|done]. cbn [negb] in H. subst e. destruct (valid_stamp _); [|done]. cbn [negb] in H.
  apply Result_bind_Ok in H as (size & Hs & H). destruct (Z.ltb_spec (control_bytes limits) size); [done|]. injection H as <-.
  rewrite message_length, clip_body_length by (apply Ht || done). unfold size_of in Hs.
  unfold BEGIN_BYTES, CHUNK_OVERHEAD, COMMIT_BYTES, CANCEL_BYTES, COMMON_BYTES, u32_max in *.
  destruct (body m) as [total k|i o bs|total|r].
  - apply Result_bind_Ok in Hs as (? & ? & [= <-]). split_and!; [lia..|done|lia].
  - destruct (_ || _) eqn:E in Hs; [done|]. guards. injection Hs as <-. unfold MAX_CHUNK_BYTES in *. split_and!; [lia..|done|lia].
  - destruct (_ <? _); [done|]. injection Hs as <-. split_and!; [lia..|done|lia].
  - injection Hs as <-. split_and!; [lia..|done|lia].
Qed.

Lemma writes_clip_message m : message_typed m -> writes (write_message c m) (message_bytes c m).
Proof using Type.
  intros (_ & _ & Hb). unfold write_message, message_bytes. do 5 (apply writes_bind; [apply writes_put|]).
  destruct (body m); cbn [write_body body_bytes]; [solve_writes | | apply writes_put..].
  do 2 (apply writes_bind; [apply writes_put|]). apply writes_data. apply Hb.
Qed.

Lemma message_data m : message_typed m -> Forall is_byte (message_bytes c m).
Proof using Type.
  intros (_ & _ & Hb). unfold message_bytes, source_bytes. rewrite ?Forall_app. repeat split; auto using be_bytes.
  destruct (body m); cbn [body_bytes]; unfold data_bytes, reason_bytes; rewrite ?Forall_app; repeat split; auto using be_bytes. apply Hb.
Qed.

(** The four records are exact on a lane with a bound channel. *)
Lemma clipboard_codec :
  exact_codec message_typed (fun m => is_ok (validate m c limits) = true) kind (message_bytes c) (control_bytes limits) (c_channel c)
    (fun m out => encode m c limits out) (fun bs => decode bs c limits).
Proof using Hc Hnz.
  apply (exact_codec_iff message_typed (fun m => context_ok = Ok tt /\ source (m_stamp m) = sender_end
    /\ checked_message m = Ok tt /\ check_kind (kind m) = Ok tt)).
  { intros m. unfold checked_message, context_ok, sender_end. destruct (validate m c limits) as [n|e] eqn:E; cbn [is_ok]; [|naive_solver].
    split; [done|]. intros _. unfold validate in E. destruct (validate_context c) as [e|]; [|done]. cbn [mbind Result_bind] in E.
    case_bool_decide; [|done]. split_and!; [done..|]. unfold kind. by destruct (body m). }
  apply (framed_codec message_typed (fun m => source (m_stamp m) = sender_end) kind (message_bytes c) (control_bytes limits) (c_channel c) None
    context_ok check_kind checked_message (read_message c sender_end) (write_message c)); try done.
  - apply Hc.
  - intros m. unfold kind. by destruct (body m).
  - intros k Hk. by apply read_message_codec.
  - intros m Ht _ Hp. split; [by apply message_data|]. unfold checked_message in Hp. destruct (validate m c limits) as [n|] eqn:E; [|done].
    by apply (validate_size m n).
  - intros m Ht _. by apply writes_clip_message.
  - intros m out Ht _ _ Hp _. unfold checked_message in Hp. unfold encode. destruct (validate m c limits) as [n|] eqn:E; [|done].
    apply validate_size in E as (-> & _); [|done]. f_equal. lia.
  - intros m out Ht Hn. unfold encode. destruct (validate m c limits) as [n|e] eqn:E; [|by exists e]. destruct Hn.
    unfold context_ok, checked_message, sender_end. rewrite E. destruct (validate_size m n Ht E) as (_ & _ & -> & _).
    split_and!; try done. unfold kind. by destruct (body m).
  - intros b. unfold decode, context_ok, sender_end, checked_message. destruct (validate_context c); [|done]. cbn [mbind Result_bind].
    destruct (decode_bounded _ _ _ _); [|done]. cbn [mbind Result_bind]. destruct (check_kind _); [|done]. cbn [mbind Result_bind].
    destruct (reading _ _ _); [|done]. cbn [mbind Result_bind]. by destruct (validate _ _ _).
Qed.

End codec.
End ClipboardMsgProps.

(** ** Sessions *)

Module ClipboardProps.
Import Clipboard.

Section steps.
Context {A Sk : Type} `{Authority A} `{ClipboardSink Sk}.
Abbreviation W := (World A Sk).
Implicit Types (w : W).

(** *** The log, read *)

Definition part_of (e : Event A) : option (Z * Z * bytes) :=
  match e with Appended _ i o bs => Some (i, o, bs) | _ => None end.
Definition parts (l : list (Event A)) : list (Z * Z * bytes) := omap part_of l.
(** The text that accepted chunks make up. *)
Definition gathered (l : list (Event A)) : bytes := concat (snd <$> parts l).
Definition begun (l : list (Event A)) : list Z := omap (fun e => match e with Began b _ _ => Some (sequence (stamp b)) | _ => None end) l.

(** Chunks with consecutive indexes, each where the one before it ends. *)
Fixpoint tiled (i o : Z) (l : list (Z * Z * bytes)) : Prop :=
  match l with
  | [] => True
  | (i', o', bs) :: l => i' = i /\ o' = o /\ bs <> [] /\ tiled (i + 1) (o + Z.of_nat (length bs)) l
  end.

(** Between the Begin of an item and its end nothing begins and nothing is published,
    and the chunks are the item's. *)
Definition during (st : Stamp) (e : Event A) : Prop :=
  match e with Began _ _ _ | Published _ => False | Appended st' _ _ _ => st' = st | _ => True end.
Definition undisturbed (e : Event A) : Prop := match e with Copied | Switched => False | _ => True end.
Definition passive (e : Event A) : Prop := match e with Checked _ | Switched => True | _ => False end.

Lemma parts_app l l' : parts (l ++ l') = parts l ++ parts l'.
Proof using Type. apply omap_app. Qed.
Lemma gathered_app l l' : gathered (l ++ l') = gathered l ++ gathered l'.
Proof using Type. unfold gathered. by rewrite parts_app, fmap_app, concat_app. Qed.
Lemma begun_app l l' : begun (l ++ l') = begun l ++ begun l'.
Proof using Type. apply omap_app. Qed.
Lemma passive_parts l : Forall passive l -> parts l = [].
Proof using Type. induction 1 as [|[] l ? _ IH]; cbn in *; done. Qed.
Lemma passive_begun l : Forall passive l -> begun l = [].
Proof using Type. induction 1 as [|[] l ? _ IH]; cbn in *; done. Qed.
Lemma passive_during st l : Forall passive l -> Forall (during st) l.
Proof using Type. intros Hl. eapply Forall_impl; [exact Hl|]. by intros []. Qed.

Lemma tiled_app i o l l' :
  tiled i o (l ++ l') <-> tiled i o l /\ tiled (i + Z.of_nat (length l)) (o + Z.of_nat (length (concat (snd <$> l)))) l'.
Proof using Type.
  revert i o. induction l as [|[[i' o'] bs] l IH]; intros i o; cbn [app tiled length fmap list_fmap concat snd].
  - rewrite !Z.add_0_r. naive_solver.
  - rewrite IH, length_app.
    replace (i + 1 + Z.of_nat (length l)) with (i + Z.of_nat (S (length l))) by lia.
    replace (o + Z.of_nat (length bs) + Z.of_nat (length (concat (snd <$> l))))
      with (o + Z.of_nat (length bs + length (concat (snd <$> l)))) by lia. naive_solver.
Qed.

(** *** Other threads *)

Definition is_flip (e : Event A) : option unit := match e with Switched => Some tt | _ => None end.
Definition flips_in (l : list (Event A)) : Z := Z.of_nat (length (omap is_flip l)).
Definition total_of (c : Z * Z) : Z := fst c + snd c.
Definition below (c d : Z * Z) : Prop := fst c <= fst d /\ snd c <= snd d.

Lemma flips_app l l' : flips_in (l ++ l') = flips_in l + flips_in l'.
Proof using Type. unfold flips_in. rewrite omap_app, length_app. lia. Qed.
Lemma flips_nonneg l : 0 <= flips_in l.
Proof using Type. unfold flips_in. lia. Qed.
Lemma flips_elem l : Switched ∈ l -> 0 < flips_in l.
Proof using Type.
  intros (l1 & l2 & ->)%list_elem_of_split. rewrite flips_app. change (Switched :: l2) with ([Switched] ++ l2). rewrite flips_app.
  change (flips_in [Switched]) with 1. pose proof (flips_nonneg l1). pose proof (flips_nonneg l2). lia.
Qed.
Lemma below_refl c : below c c.
Proof using Type. done. Qed.
Lemma below_trans c d f : below c d -> below d f -> below c f.
Proof using Type. intros [] []. split; lia. Qed.

(** The states an authority may be in after questions to it and revocations. *)
Inductive reached (a : A) : A -> Prop :=
| reached_refl : reached a a
| reached_deadline b now : reached a b -> reached a (snd (au_deadline now b))
| reached_item b now : reached a b -> reached a (snd (au_item_deadline now b))
| reached_revoke b : reached a b -> reached a (au_revoke b).
Lemma reached_trans a b c : reached a b -> reached b c -> reached a c.
Proof using Type. intros Hab. induction 1; [done|by constructor..]. Qed.

(** What the passing of time alone may do: the other threads flip switches, checks are
    made, the session may close or lose its item; nothing else changes.  An item that
    is still there was kept by every check on the way. *)
Record calm w w' : Prop := {
  calm_binding : binding (owner w') = binding (owner w);
  calm_local : local (owner w') = local (owner w);
  calm_limits : limits (owner w') = limits (owner w);
  calm_floor : received_floor (owner w') = received_floor (owner w);
  calm_revision : local_revision (owner w') = local_revision (owner w);
  calm_closed : closed (owner w) = true -> closed (owner w') = true;
  calm_item : incoming (owner w') = None
    \/ incoming (owner w') = incoming (owner w) /\ switch_states (owner w') = switch_states (owner w);
  calm_published : published (owner w') = None \/ published (owner w') = published (owner w);
  calm_clock : clock (owner w) <= clock (owner w');
  calm_reached : reached (monitor w) (monitor w');
  calm_switches : below (switches w) (switches w');
  calm_states : below (switch_states (owner w)) (switches w) -> below (switch_states (owner w')) (switches w');
  calm_log : exists l, log w' = log w ++ l /\ Forall passive l /\ flips_in l = total_of (switches w') - total_of (switches w) }.

Lemma calm_refl w : calm w w.
Proof using Type. split; auto using below_refl, reached_refl; [lia|]. exists []. rewrite app_nil_r. split_and!; [done..|]. change (flips_in []) with 0. lia. Qed.

Lemma calm_trans w1 w2 w3 : calm w1 w2 -> calm w2 w3 -> calm w1 w3.
Proof using Type.
  intros C1 C2. destruct (calm_log _ _ C1) as (l1 & L1 & P1 & F1), (calm_log _ _ C2) as (l2 & L2 & P2 & F2). split.
  - by rewrite (calm_binding _ _ C2), (calm_binding _ _ C1).
  - by rewrite (calm_local _ _ C2), (calm_local _ _ C1).
  - by rewrite (calm_limits _ _ C2), (calm_limits _ _ C1).
  - by rewrite (calm_floor _ _ C2), (calm_floor _ _ C1).
  - by rewrite (calm_revision _ _ C2), (calm_revision _ _ C1).
  - intros Hc. by apply (calm_closed _ _ C2), (calm_closed _ _ C1).
  - destruct (calm_item _ _ C2) as [?|[-> ->]]; [by left|]. apply C1.
  - destruct (calm_published _ _ C2) as [?| ->]; [by left|]. apply C1.
  - pose proof (calm_clock _ _ C1). pose proof (calm_clock _ _ C2). lia.
  - eapply reached_trans; [apply C1|apply C2].
  - eapply below_trans; [apply C1|apply C2].
  - intros Hb. apply (calm_states _ _ C2), (calm_states _ _ C1), Hb.
  - exists (l1 ++ l2). rewrite L2, L1, app_assoc, flips_app, Forall_app. split_and!; [done..|lia].
Qed.

(** A change of the switches and the log only. *)
Definition drift w w' : Prop := calm w w' /\ owner w' = owner w /\ monitor w' = monitor w /\ sink w' = sink w
  /\ exists n, log w' = log w ++ replicate n Switched.

Lemma drift_refl w : drift w w.
Proof using Type. split; [apply calm_refl|]. split_and!; try done. exists 0%nat. by rewrite app_nil_r. Qed.
Lemma drift_trans w1 w2 w3 : drift w1 w2 -> drift w2 w3 -> drift w1 w3.
Proof using Type.
  intros (C1 & O1 & M1 & S1 & n1 & L1) (C2 & O2 & M2 & S2 & n2 & L2). split; [by eapply calm_trans|].
  split_and!; try congruence. exists (n1 + n2)%nat. by rewrite L2, L1, <- app_assoc, replicate_add.
Qed.

Lemma drift_switch which w : drift w (switch which w).
Proof using Type.
  assert (below (switches w) (switches (switch which w)) /\ total_of (switches (switch which w)) = total_of (switches w) + 1) as [Hb Ht].
  { unfold switch, note, bump, below, total_of. destruct which; cbn; lia. }
  split; [|split_and!; try done; by exists 1%nat].
  split; auto; try apply reached_refl; [done| |].
  - intros Hs. by eapply below_trans.
  - exists [Switched]. split_and!; [done|by repeat constructor|]. rewrite Ht. change (flips_in [Switched]) with 1. lia.
Qed.

Lemma drift_schedule s w : drift w (w <| schedule := s |>).
Proof using Type.
  split; [|split_and!; try done; exists 0%nat; by rewrite app_nil_r].
  split; auto; try apply reached_refl; [done|done|]. exists []. rewrite app_nil_r. split_and!; [done..|]. symmetry. apply Z.sub_diag.
Qed.

Lemma drift_flips l w : drift w (foldl flip w l).
Proof using Type.
  revert w. induction l as [|[which en] l IH]; intros w; [apply drift_refl|]. cbn [foldl]. eapply drift_trans; [|apply IH].
  unfold flip. destruct (settled _ _); [apply drift_refl|apply drift_switch].
Qed.

Lemma drift_interfere w : drift w (interfere w).
Proof using Type.
  unfold interfere. destruct (schedule w); [apply drift_refl|]. eapply drift_trans; [apply drift_schedule|apply drift_flips].
Qed.

Lemma drift_exchange which en steps w : drift w (exchange_loop which en steps w).
Proof using Type.
  revert w. induction steps as [|i rest IH]; intros w; cbn [exchange_loop]; destruct (settled _ _); try apply drift_schedule.
  - eapply drift_trans; [apply drift_schedule|apply drift_switch].
  - pose proof (drift_flips (flips i) w). destruct (_ && _); [|eapply drift_trans; [done|apply IH]].
    eapply drift_trans; [done|]. eapply drift_trans; [apply drift_schedule|apply drift_switch].
Qed.

Lemma drift_set_enabled which en w : drift w (switch_set_enabled which en w).
Proof using Type. unfold switch_set_enabled. eapply drift_trans; [apply drift_interfere|apply drift_exchange]. Qed.

(** *** The pieces of a check *)

Lemma calm_same w w' : owner w' = owner w -> switches w' = switches w -> log w' = log w -> reached (monitor w) (monitor w') -> calm w w'.
Proof using Type.
  intros E1 E2 E3 E4. split; rewrite ?E1, ?E2; auto; [done|done|]. exists []. rewrite E3, app_nil_r, Z.sub_diag. done.
Qed.
Lemma calm_monitor a w : reached (monitor w) a -> calm w (w <| monitor := a |>).
Proof using Type. intros Ha. by apply calm_same. Qed.
Lemma calm_close w : calm w (on_owner close_session w).
Proof using Type.
  split; auto; try apply reached_refl; [done|done|]. exists []. rewrite app_nil_r. split_and!; [done..|]. symmetry. apply Z.sub_diag.
Qed.
Lemma calm_drop w : calm w (on_owner (fun s => s <| incoming := None |>) w).
Proof using Type.
  split; auto; try apply reached_refl; [done|done|]. exists []. rewrite app_nil_r. split_and!; [done..|]. symmetry. apply Z.sub_diag.
Qed.
Lemma calm_clocked now w : clock (owner w) <= now -> calm w (on_owner (fun s => s <| clock := now |>) w).
Proof using Type.
  intros Hn. split; auto; try apply reached_refl; [done|]. exists []. rewrite app_nil_r. split_and!; [done..|]. symmetry. apply Z.sub_diag.
Qed.
Lemma calm_checked now w : calm w (note (Checked now) w).
Proof using Type.
  split; auto; try apply reached_refl; [done|done|]. exists [Checked now]. split_and!; [done|by repeat constructor|]. symmetry. apply Z.sub_diag.
Qed.
(** A check that found the switches as it had left them keeps the item; one that did
    not drops it. *)
Lemma calm_observed c w : below c (switches w) ->
  calm w (on_owner (fun s => s <| switch_states := c |> <| incoming := None |>) w).
Proof using Type.
  intros Hb. split; auto; try apply reached_refl; [done|done|]. exists []. rewrite app_nil_r. split_and!; [done..|]. symmetry. apply Z.sub_diag.
Qed.

Lemma close_closed w : close w = (Ok tt, on_owner close_session w).
Proof using Type. done. Qed.

Lemma authority_error_spec {B} reason w : exists e w', authority_error (B := B) reason w = (Err e, w') /\ calm w w' /\ sink w' = sink w.
Proof using Type.
  unfold authority_error. case_bool_decide; [exists Suspended, w; split_and!; [done|apply calm_refl|done]|].
  eexists _, _. split_and!; [done|apply calm_close|done].
Qed.

(** A question to the authority. *)
Lemma ask_spec f w : (forall a b, reached a b -> reached a (snd (f b))) -> wp (ask f) w (fun r w' => calm w w' /\ sink w' = sink w /\
  match r with Ok d => f (monitor w) = (Ok d, monitor w') /\ w' = w <| monitor := monitor w' |> | Err _ => True end).
Proof using Type.
  intros Hf. specialize (Hf _ _ (reached_refl (monitor w))).
  unfold wp, ask, method. destruct (f (monitor w)) as [[d|reason] a] eqn:E; cbn [fst snd] in *.
  - split_and!; [by apply calm_monitor|done..].
  - destruct (@authority_error_spec HostInstant reason (w <| monitor := a |>)) as (e & w' & -> & Hc & Hs). cbn [fst snd].
    split_and!; [|done..]. eapply calm_trans; [by apply calm_monitor|done].
Qed.

Lemma wp_state {B} which (k : Z -> M W Error B) w Q :
  (forall w', drift w w' -> wp (k (cell which (switches w'))) w' Q) -> wp (state which ≫= k) w Q.
Proof using Type. intros Hk. apply (Hk (interfere w)). apply drift_interfere. Qed.

Lemma wp_enabled {B} which (k : bool -> M W Error B) w Q :
  (forall b w', drift w w' -> wp (k b) w' Q) -> wp (is_enabled which ≫= k) w Q.
Proof using Type. intros Hk. apply (Hk _ (interfere w)). apply drift_interfere. Qed.

(** The two loads and the position of the switches: either everything stays but for
    the other threads, or the item is dropped. *)
Lemma check_switches_spec w : wp check_switches w (fun r w' => calm w w' /\ monitor w' = monitor w /\ sink w' = sink w /\
  match r with
  | Ok _ => drift w w' /\ below (switches w) (switch_states (owner w))
  | Err e => e = Disabled /\ incoming (owner w') = None
  end).
Proof using Type.
  unfold check_switches. apply wp_state. intros w1 D1. apply wp_state. intros w2 D2.
  pose proof (drift_trans _ _ _ D1 D2) as D12. pose proof D12 as (C12 & O12 & M12 & S12 & _).
  set (c := (cell false (switches w1), cell true (switches w2))).
  assert (below c (switches w2)) as Hc2 by (split; [apply (calm_switches _ _ (proj1 D2))|done]).
  assert (below (switches w) c) as Hwc.
  { split; [apply (calm_switches _ _ (proj1 D1))|apply (calm_switches _ _ C12)]. }
  apply wp_gets, wp_modify. case_bool_decide as Es; cbn [negb].
  2:{ apply (wp_modify _ _ _ _). split_and!; try done. eapply calm_trans; [exact C12|]. apply (calm_observed c w2 Hc2). }
  assert (on_owner (fun s => s <| switch_states := c |>) w2 = w2) as ->.
  { destruct w2 as [[] ? ? ? ? ?]. cbn in *. unfold on_owner. cbn. by subst. }
  assert (below (switches w) (switch_states (owner w))) as Hb by (by rewrite <- O12, <- Es).
  assert (forall w3, drift w2 w3 -> calm w w3 /\ monitor w3 = monitor w /\ sink w3 = sink w /\ drift w w3) as Hd.
  { intros w3 D3. pose proof (drift_trans _ _ _ D12 D3) as D. pose proof D as (? & _ & ? & ? & _). by split_and!. }
  assert (forall b w3, drift w2 w3 -> wp ((if (b : bool) then _ ← modify (on_owner (fun s => s <| incoming := None |>)); fail Disabled
     else mret tt) : M W Error unit) w3 (fun r w' => calm w w' /\ monitor w' = monitor w /\ sink w' = sink w /\
    match r with Ok _ => drift w w' /\ below (switches w) (switch_states (owner w)) | Err e => e = Disabled /\ incoming (owner w') = None end)) as Hend.
  { intros b w3 D3. destruct (Hd w3 D3) as (? & ? & ? & ?). destruct b; [|by split_and!].
    apply wp_modify. split_and!; try done. eapply calm_trans; [done|apply calm_drop]. }
  apply wp_bind, wp_enabled. intros [] w3 D3; [|by apply (Hend true)].
  apply wp_enabled. intros b w4 D4. apply (Hend (negb b)). by eapply drift_trans.
Qed.

(** A check that passed: the session was open, the clock did not go back, the
    authority answered, and no switch had moved since the last check. *)
Definition passed (now d : HostInstant) w w' : Prop :=
  closed (owner w) = false /\ clock (owner w) <= now /\ owner w' = (owner w) <| clock := now |>
  /\ au_deadline now (monitor w) = (Ok d, monitor w')
  /\ below (switches w) (switch_states (owner w))
  /\ exists n, log w' = log w ++ Checked now :: replicate n Switched.

Lemma clip_check_spec now w : wp (check now) w (fun r w' => calm w w' /\ sink w' = sink w
  /\ match r with Ok d => passed now d w w' | Err _ => True end).
Proof using Type.
  unfold check. apply wp_refuse. destruct (closed (owner w)) eqn:Ecl; [split_and!; [apply calm_refl|done..]|].
  apply wp_gets. destruct (Z.ltb_spec now (clock (owner w))) as [Hlt|Hle].
  { apply wp_modify, wp_modify. split_and!; [|done..]. eapply calm_trans; [apply calm_monitor, reached_revoke, reached_refl|apply calm_close]. }
  apply wp_modify, wp_modify. set (w1 := note (Checked now) (on_owner (fun s => s <| clock := now |>) w)).
  assert (calm w w1) as C1 by (eapply calm_trans; [by apply calm_clocked|apply calm_checked]).
  pose proof (ask_spec (au_deadline now) w1 (fun a b => reached_deadline a b now)) as Ha. unfold wp in Ha |- *. unfold method.
  destruct (ask (au_deadline now) w1) as [[d|e] w2]; cbn [fst snd] in Ha; destruct Ha as (C2 & S2 & Ha).
  - destruct Ha as [Ha Ew].
    apply (wp_bind check_switches (fun _ => mret d) w2 (fun r w' => calm w w' /\ sink w' = sink w
      /\ match r with Ok d => passed now d w w' | Err _ => True end)).
    eapply wp_mono; [apply check_switches_spec|]. intros r w3 (C3 & M3 & S3 & Hr).
    assert (calm w w3) as C by (eapply calm_trans; [|exact C3]; by eapply calm_trans).
    destruct r as [[]|e]; [|split_and!; [done|by rewrite S3, S2|done]]. destruct Hr as [(_ & O3 & _ & _ & n & L3) Hb]. split_and!; [done|cbn; by rewrite S3, S2|].
    assert (owner w2 = owner w1) as Eo by (by rewrite Ew). assert (switches w2 = switches w1) as Esw by (by rewrite Ew).
    assert (log w2 = log w1) as El by (by rewrite Ew).
    change (passed now d w w3). unfold passed. rewrite O3, Eo. split_and!; try done.
    + by rewrite M3.
    + rewrite Esw, Eo in Hb. exact Hb.
    + exists n. rewrite L3, El. change (log w1) with (log w ++ [Checked now]). by rewrite <- app_assoc.
  - case_bool_decide; cbn [fst snd]; [|split_and!; [by eapply calm_trans|done..]].
    apply (wp_bind check_switches (fun _ => fail Suspended) w2 (fun r w' => calm w w' /\ sink w' = sink w
      /\ match r with Ok d => passed now d w w' | Err _ => True end)).
    eapply wp_mono; [apply check_switches_spec|]. intros r w3 (C3 & M3 & S3 & Hr).
    assert (calm w w3) as C by (eapply calm_trans; [|exact C3]; by eapply calm_trans).
    assert (sink w3 = sink w) by (rewrite S3, S2; done).
    destruct r as [[]|]; by split_and!.
Qed.

Lemma maintain_spec now w : wp (maintain now) w (fun r w' => calm w w' /\ sink w' = sink w
  /\ match r with
     | Ok _ => (exists d, passed now d w w') /\ (forall v, incoming (owner w) = Some v -> now < deadline v)
     | Err _ => True
     end).
Proof using Type.
  pose proof (clip_check_spec now w) as Hc. unfold wp, maintain, method in *.
  destruct (check now w) as [r w1]. cbn [fst snd] in Hc. destruct Hc as (C & S & Hr).
  destruct (is_some_and _ _) eqn:Ex.
  - assert (calm w (on_owner (fun s => s <| incoming := None |>) w1)) by (eapply calm_trans; [done|apply calm_drop]).
    by destruct r.
  - destruct r as [d|e]; cbn [fst snd]; split_and!; try done; [by exists d|]. intros v Hv.
    destruct Hr as (_ & _ & Eo & _). rewrite Eo in Ex. change (is_some_and (fun v => deadline v <=? now) (incoming (owner w)) = false) in Ex.
    rewrite Hv in Ex. cbn in Ex. lia.
Qed.

(** *** The invariant *)

Section invariant.
Context (a0 : A) (loc : Endpoint) (lim : Limits.ProtocolLimits).

(** A Begin this session may accept. *)
Definition admissible (b : Begin) : Prop :=
  validate b lim = Ok tt /\ b_binding b = au_binding a0 /\ source (stamp b) = opposite loc.

(** The log tells of an accepted Begin at [t], until [dl], and of the chunks that
    followed it in order. *)
Definition gathering (l : list (Event A)) (b : Begin) (t dl : HostInstant) (mid : list (Event A)) : Prop :=
  (exists pre, l = pre ++ Began b t dl :: mid) /\ admissible b /\ t < dl <= t + 3000000
  /\ Forall (during (stamp b)) mid /\ tiled 0 0 (parts mid).

Definition item_ok w (v : Incoming) : Prop := exists t mid,
  gathering (log w) (begin_of v) t (deadline v) mid
  /\ text v = gathered mid /\ next_chunk v = Z.of_nat (length (parts mid))
  /\ Z.of_nat (length (text v)) <= total_bytes (begin_of v)
  /\ t <= clock (owner w)
  /\ at_revision v <= local_revision (owner w)
  /\ (Copied ∈ mid -> at_revision v < local_revision (owner w))
  /\ (Switched ∈ mid -> total_of (switch_states (owner w)) < total_of (switches w)).

(** What a publication stands for. *)
Definition justified (l : list (Event A)) (p : Publish A) : Prop := exists b t dl mid n l0,
  l = l0 ++ Checked (p_at p) :: replicate n Switched
  /\ gathering l0 b t dl mid /\ Forall undisturbed mid
  /\ stamp b = p_stamp p /\ p_text p = gathered mid
  /\ Z.of_nat (length (p_text p)) = total_bytes b /\ Z.of_nat (length (parts mid)) = chunks b
  /\ is_some (from_utf8 (p_text p)) = true
  /\ t <= p_at p < dl
  /\ p_until p = Z.min dl (p_authority p)
  /\ reached a0 (p_before p)
  /\ au_deadline (p_at p) (p_before p) = (Ok (p_authority p), p_after p).

Definition sound (l : list (Event A)) : Prop := forall l1 p l2, l = l1 ++ Published p :: l2 -> justified l1 p.

Record inv w : Prop := {
  inv_reached : reached a0 (monitor w);
  inv_binding : binding (owner w) = au_binding a0;
  inv_local : local (owner w) = loc;
  inv_limits : limits (owner w) = lim;
  inv_states : below (switch_states (owner w)) (switches w);
  inv_item v : incoming (owner w) = Some v -> item_ok w v;
  inv_sorted : StronglySorted Z.lt (begun (log w));
  inv_floor : Forall (fun n => n <= received_floor (owner w)) (begun (log w));
  inv_log : sound (log w) }.

Lemma gathering_more l b t dl mid l' : Forall (during (stamp b)) l' -> parts l' = [] ->
  gathering l b t dl mid -> gathering (l ++ l') b t dl (mid ++ l').
Proof using Type.
  intros Hd Hp ([pre ->] & Ha & [Ht1 Ht2] & Hm & Hti). split_and!; try done.
  - exists pre. by rewrite <- app_assoc.
  - by apply Forall_app.
  - by rewrite parts_app, Hp, app_nil_r.
Qed.

Lemma sound_more l l' : sound l -> Forall (fun e => match e with Published _ => False | _ => True end) l' -> sound (l ++ l').
Proof using Type.
  intros Hs. induction l' as [|e l' IH] using rev_ind; [by rewrite app_nil_r|]. rewrite Forall_app, Forall_singleton, app_assoc.
  intros [Hl' He] l1 p l2 E. destruct l2 as [|x l2 _] using rev_ind.
  - change (l1 ++ [Published p]) with (l1 ++ [Published p]) in E. apply app_inj_tail in E as [_ ->]. done.
  - rewrite app_comm_cons, app_assoc in E. apply app_inj_tail in E as [E _]. by apply (IH Hl' l1 p l2).
Qed.

Lemma sound_published l p : sound l -> justified l p -> sound (l ++ [Published p]).
Proof using Type.
  intros Hs Hj l1 q l2 E. destruct l2 as [|x l2 _] using rev_ind.
  - apply app_inj_tail in E as [-> [= ->]]. done.
  - rewrite app_comm_cons, app_assoc in E. apply app_inj_tail in E as [E _]. by apply (Hs l1 q l2).
Qed.

Lemma inv_calm w w' : inv w -> calm w w' -> inv w'.
Proof using Type.
  intros [I0 I1 I2 I3 I4 I5 I6 I7 I8] C. destruct (calm_log _ _ C) as (l & L & P & F). split.
  - eapply reached_trans; [done|apply C].
  - by rewrite (calm_binding _ _ C).
  - by rewrite (calm_local _ _ C).
  - by rewrite (calm_limits _ _ C).
  - by apply (calm_states _ _ C).
  - intros v Hv. destruct (calm_item _ _ C) as [E|[E1 E2]]; [congruence|]. rewrite E1 in Hv.
    destruct (I5 v Hv) as (t & mid & Hg & Htx & Hn & Hlen & Ht & Hr & Hc & Hsw). exists t, (mid ++ l).
    pose proof (calm_clock _ _ C). rewrite L, (calm_revision _ _ C), E2. split_and!; try done; [..|lia| |].
    + apply gathering_more; [by apply passive_during|by apply passive_parts|done].
    + unfold gathered. by rewrite parts_app, (passive_parts l P), app_nil_r.
    + by rewrite parts_app, (passive_parts l P), app_nil_r.
    + intros [Hi|Hi]%elem_of_app; [by apply Hc|]. by apply (proj1 (Forall_forall _ _) P) in Hi.
    + pose proof (calm_switches _ _ C) as [B1 B2]. destruct I4 as [B3 B4]. unfold total_of in *.
      intros [Hi|Hi]%elem_of_app; [specialize (Hsw Hi); lia|]. apply flips_elem in Hi. lia.
  - by rewrite L, begun_app, (passive_begun l P), app_nil_r.
  - by rewrite L, begun_app, (passive_begun l P), app_nil_r, (calm_floor _ _ C).
  - rewrite L. apply sound_more; [done|]. eapply Forall_impl; [exact P|]. by intros [].
Qed.

Lemma inv_raise w n : inv w -> received_floor (owner w) <= n -> inv (on_owner (fun s => s <| received_floor := n |>) w).
Proof using Type.
  intros [I0 I1 I2 I3 I4 I5 I6 I7 I8] Hn. split; try done.
  change (Forall (fun k => k <= n) (begun (log w))). eapply Forall_impl; [exact I7|]. cbn. lia.
Qed.

Lemma check_begin_Ok b (s : ClipboardSession) : check_begin b s = Ok tt ->
  validate b (limits s) = Ok tt /\ b_binding b = binding s /\ source (stamp b) = opposite (local s)
  /\ received_floor s < sequence (stamp b) /\ incoming s = None.
Proof using Type.
  unfold check_begin. destruct (validate b (limits s)) as [[]|]; [|done]. cbn [mbind Result_bind].
  case_bool_decide; [|done]. cbn [negb]. case_bool_decide; [|done]. cbn [negb].
  destruct (Z.leb_spec (sequence (stamp b)) (received_floor s)); [done|]. by destruct (incoming s).
Qed.

Lemma inv_begin w b t dl : inv w -> check_begin b (owner w) = Ok tt -> t < dl <= t + 3000000 -> t <= clock (owner w) ->
  inv (note (Began b t dl) (on_owner (fun s => s <| incoming := Some (mk_incoming b [] 0 dl (local_revision s)) |>)
         (on_owner (fun s => s <| received_floor := sequence (stamp b) |>) w))).
Proof using Type.
  intros [I0 I1 I2 I3 I4 I5 I6 I7 I8] Hb Ht Hc. apply check_begin_Ok in Hb as (Hv & Hbi & Hsrc & Hfl & Hin). split; try done.
  - intros v [= <-]. exists t, []. unfold gathering. cbn [begin_of deadline at_revision parts omap length gathered].
    split_and!; try done; try lia.
    + by exists (log w).
    + split_and!; congruence.
    + assert (0 <= total_bytes b); [|done]. unfold validate in Hv. destruct (_ || _); [done|]. destruct (_ || _) eqn:E in Hv; [done|].
      guards. unfold MAX_CHUNKS, MAX_CHUNK_BYTES in *. destruct (Z.eqb_spec (total_bytes b) 0); lia.
    + intros Hi. by apply elem_of_nil in Hi.
    + intros Hi. by apply elem_of_nil in Hi.
  - change (StronglySorted Z.lt (begun (log w ++ [Began b t dl]))). rewrite begun_app. apply StronglySorted_app_2; [|done|by repeat constructor].
    intros x y Hx Hy. apply list_elem_of_singleton in Hy as ->. apply (proj1 (Forall_forall _ _) I7) in Hx. cbn in Hx. lia.
  - change (Forall (fun n => n <= sequence (stamp b)) (begun (log w ++ [Began b t dl]))). rewrite begun_app. apply Forall_app.
    split; [eapply Forall_impl; [exact I7|]; cbn; lia|]. by repeat constructor.
  - apply (sound_more (log w) [Began b t dl]); [done|by repeat constructor].
Qed.

Lemma inv_chunk w v st index offset bs : inv w -> incoming (owner w) = Some v -> stamp (begin_of v) = st ->
  misplaced index offset bs v = false ->
  inv (note (Appended st index offset bs)
        (on_owner (fun s => s <| incoming := Some (v <| text := text v ++ bs |> <| next_chunk := next_chunk v + 1 |>) |>) w)).
Proof using Type.
  intros [I0 I1 I2 I3 I4 I5 I6 I7 I8] Hv Hst Hm. destruct (I5 v Hv) as (t & mid & Hg & Htx & Hn & Hlen & Ht & Hr & Hc & Hsw).
  destruct Hg as ([pre El] & Ha & Hd & Hdu & Hti). unfold misplaced in Hm. guards. split; try done.
  - intros v' [= <-]. exists t, (mid ++ [Appended (stamp (begin_of v)) (next_chunk v) (Z.of_nat (length (text v))) bs]).
    unfold gathering. cbn [begin_of deadline at_revision text next_chunk].
    change (log (note ?e ?x)) with (log x ++ [e]). rewrite parts_app, length_app, gathered_app.
    split_and!; try done; try lia.
    + exists pre. change (log (on_owner _ w)) with (log w). by rewrite El, <- app_assoc.
    + apply Forall_app. split; [done|by repeat constructor].
    + apply tiled_app. split; [done|]. cbn. split_and!; [lia|rewrite Htx; unfold gathered; lia|by intros ->|done].
    + cbn. by rewrite Htx, app_nil_r.
    + cbn. lia.
    + change (Z.of_nat (length (text v ++ bs)) <= total_bytes (begin_of v)). rewrite length_app. lia.
    + intros [Hi|Hi]%elem_of_app; [by apply Hc|]. by apply list_elem_of_singleton in Hi.
    + intros [Hi|Hi]%elem_of_app; [by apply Hsw|]. by apply list_elem_of_singleton in Hi.
  - change (StronglySorted Z.lt (begun (log w ++ [Appended (stamp (begin_of v)) (next_chunk v) (Z.of_nat (length (text v))) bs]))).
    by rewrite begun_app, app_nil_r.
  - change (Forall (fun n => n <= received_floor (owner w)) (begun (log w ++ [Appended (stamp (begin_of v)) (next_chunk v) (Z.of_nat (length (text v))) bs]))).
    by rewrite begun_app, app_nil_r.
  - apply (sound_more (log w)); [done|by repeat constructor].
Qed.

Lemma inv_copied w n : inv w -> n = local_revision (owner w) + 1 ->
  inv (note Copied (on_owner (fun s => s <| local_revision := n |>) w)).
Proof using Type.
  intros [I0 I1 I2 I3 I4 I5 I6 I7 I8] ->. split; try done.
  - intros v Hv. destruct (I5 v Hv) as (t & mid & Hg & Htx & Hn & Hlen & Ht & Hr & Hc & Hsw). exists t, (mid ++ [Copied]).
    change (local_revision (owner (note _ (on_owner _ w)))) with (local_revision (owner w) + 1).
    split_and!; try done; try lia.
    + apply (gathering_more (log w)); [by repeat constructor|done..].
    + by rewrite gathered_app, app_nil_r.
    + by rewrite parts_app, app_nil_r.
    + intros [Hi|Hi]%elem_of_app; [by apply Hsw|]. by apply list_elem_of_singleton in Hi.
  - change (StronglySorted Z.lt (begun (log w ++ [Copied]))). by rewrite begun_app, app_nil_r.
  - change (Forall (fun n => n <= received_floor (owner w)) (begun (log w ++ [Copied]))). by rewrite begun_app, app_nil_r.
  - apply (sound_more (log w)); [done|by repeat constructor].
Qed.

Lemma clip_inv_same w w' : inv w -> owner w' = owner w -> switches w' = switches w -> log w' = log w -> monitor w' = monitor w -> inv w'.
Proof using Type. intros Hi E1 E2 E3 E4. apply (inv_calm w); [done|]. apply calm_same; try done. rewrite E4. apply reached_refl. Qed.

Lemma inv_published w p r : inv w -> incoming (owner w) = None -> justified (log w) p ->
  inv (on_owner (fun s => s <| published := r |>) (note (Published p) w)).
Proof using Type.
  intros [I0 I1 I2 I3 I4 I5 I6 I7 I8] Hin Hj. split; try done.
  - intros v Hv. change (incoming (owner w) = Some v) in Hv. congruence.
  - change (StronglySorted Z.lt (begun (log w ++ [Published p]))). by rewrite begun_app, app_nil_r.
  - change (Forall (fun n => n <= received_floor (owner w)) (begun (log w ++ [Published p]))). by rewrite begun_app, app_nil_r.
  - by apply (sound_published (log w)).
Qed.

(** From the preparation to the publication of a complete, unchanged item. *)
Lemma publish_inv v total second w : inv w -> incoming (owner w) = Some v ->
  Z.of_nat (length (text v)) = total_bytes (begin_of v) -> next_chunk v = chunks (begin_of v) ->
  at_revision v = local_revision (owner w) -> is_some (from_utf8 (text v)) = true ->
  inv (snd (publish v total second (on_owner (fun s => s <| incoming := None |>) w))).
Proof using Type.
  intros Hi Hv Hlen Hch Hrev Hu. pose proof (inv_item _ Hi v Hv) as (t & mid & Hg & Htx & Hn & _ & Ht & _ & Hc & Hsw).
  set (w1 := on_owner (fun s => s <| incoming := None |>) w).
  assert (inv w1) as Hi1 by (by apply (inv_calm w), calm_drop).
  unfold publish, method. set (m := (_ ≫= _) : M W Error Receipt).
  assert (wp m w1 (fun _ w' => inv w')) as Hm.
  2:{ unfold wp in Hm. destruct (m w1) as [r w']. cbn [snd] in *. by eapply clip_inv_same. }
  unfold m. apply wp_bind. unfold wp at 1. destruct (sink_prepare _ _ _) as [[[]|pe] k]; cbn [fst snd map_err]; [|by eapply clip_inv_same].
  set (w2 := w1 <| sink := k |>). assert (inv w2) as Hi2 by (by eapply clip_inv_same).
  apply wp_gets, wp_bind. eapply wp_mono; [apply clip_check_spec|]. intros [d|e] w3 (C3 & S3 & Hp); [|by eapply inv_calm].
  assert (inv w3) as Hi3 by (by eapply inv_calm). apply wp_refuse. destruct (Z.leb_spec (deadline v) second) as [|Hlt]; [done|].
  destruct Hp as (_ & Hcl & Eo & Ha & Hb & n & L3). unfold wp. destruct (sink_publish_until _ _ _ _) as [pub k'] eqn:Ep. cbn [fst snd].
  apply (inv_published (w3 <| sink := k' |>)); [by eapply clip_inv_same|change (incoming (owner w3) = None); by rewrite Eo|].
  exists (begin_of v), t, (deadline v), mid, n, (log w). cbn [p_at p_stamp p_text p_until p_authority p_before p_after].
  change (log (w3 <| sink := k' |>)) with (log w3). change (monitor (w3 <| sink := k' |>)) with (monitor w3).
  change (clock (owner w) <= second) in Hcl.
  split_and!; try done; try lia; try congruence; [|exact (inv_reached _ Hi2)].
  apply Forall_forall. intros [] He; cbn; try done.
  - specialize (Hc He). lia.
  - specialize (Hsw He). destruct Hb as [Hb1 Hb2]. change (fst (switches w) <= fst (switch_states (owner w))) in Hb1.
    change (snd (switches w) <= snd (switch_states (owner w))) in Hb2. unfold total_of in Hsw. lia.
Qed.

(** *** Every operation keeps it *)

Lemma inv_maintained now w : inv w -> inv (snd (maintain now w)).
Proof using Type. intros Hi. eapply inv_calm; [done|]. apply (maintain_spec now w). Qed.

Lemma begin_inv reserve b now bound : preserves inv (begin_before reserve b now bound).
Proof using Type.
  intros w Hi. change (wp (begin_before reserve b now bound) w (fun _ => inv)). unfold begin_before.
  apply wp_bind. eapply wp_mono; [apply clip_check_spec|]. intros [d|e] w1 (C1 & _ & Hp); [|by eapply inv_calm].
  destruct Hp as (_ & _ & Eo & _). assert (inv w1) as Hi1 by (by eapply inv_calm).
  apply wp_bind. eapply wp_mono; [apply ask_spec; apply (fun a b => reached_item a b now)|]. intros [a|e] w2 (C2 & _ & Ha); [|by eapply inv_calm].
  destruct Ha as [_ Ew]. assert (inv w2) as Hi2 by (by eapply inv_calm).
  assert (clock (owner w2) = now) as Hclk by (rewrite Ew; change (clock (owner w1) = now); by rewrite Eo).
  apply wp_readr. destruct (check_begin b (owner w2)) as [[]|] eqn:Eb; [|done].
  apply wp_lift. destruct (HostTime.instant_add now 3000000) as [three|] eqn:E3; [|done]. cbn [ok_or].
  apply checked_add_Some in E3 as [-> _].
  pose proof (check_begin_Ok b _ Eb) as (_ & _ & _ & Hfl & _). apply wp_modify.
  assert (inv (on_owner (fun s => s <| received_floor := sequence (stamp b) |>) w2)) by (apply inv_raise; [done|lia]).
  apply wp_refuse. destruct (Z.leb_spec (Z.min (Z.min (now + 3000000) a) bound) now) as [|Hlt]; [done|].
  apply wp_refuse. destruct reserve; [|done]. apply wp_modify. apply (inv_begin w2); [done..|lia|lia].
Qed.

Lemma check_expiration_calm now w : calm w (snd (check_expiration now w)).
Proof using Type.
  pose proof (maintain_spec now w) as [C _]. unfold check_expiration, method. destruct (maintain now w) as [[|[]] w']; exact C.
Qed.

Lemma expire_begin_inv b now : preserves inv (expire_begin b now).
Proof using Type.
  intros w Hi. change (wp (expire_begin b now) w (fun _ => inv)). unfold expire_begin. apply wp_bind.
  pose proof (check_expiration_calm now w) as C. unfold wp at 1. destruct (check_expiration now w) as [[[]|e] w1]; cbn [fst snd] in *; [|by eapply inv_calm].
  assert (inv w1) by (by eapply inv_calm). apply wp_readr. destruct (check_begin b (owner w1)) as [[]|] eqn:Eb; [|done].
  apply inv_raise; [done|]. apply check_begin_Ok in Eb. lia.
Qed.

Lemma cancel_calm st w : calm w (snd (cancel st w)).
Proof using Type. change (wp (cancel st) w (fun _ w' => calm w w')). unfold cancel. apply wp_gets. case_match; [apply calm_drop|apply calm_refl]. Qed.

Lemma expire_transfer_calm st now w : calm w (snd (expire_transfer st now w)).
Proof using Type.
  change (wp (expire_transfer st now) w (fun _ w' => calm w w')). unfold expire_transfer. apply wp_bind.
  pose proof (check_expiration_calm now w) as C. unfold wp at 1. destruct (check_expiration now w) as [[[]|e] w1]; cbn [fst snd] in *; [|done].
  apply wp_refuse. case_match; [done|]. apply wp_refuse. case_match; [done|]. eapply calm_trans; [done|apply cancel_calm].
Qed.

Lemma chunk_inv st index offset bs now : preserves inv (chunk st index offset bs now).
Proof using Type.
  intros w Hi. change (wp (chunk st index offset bs now) w (fun _ => inv)). unfold chunk. apply wp_bind.
  eapply wp_mono; [apply maintain_spec|]. intros [[]|e] w1 (C1 & _); [|by eapply inv_calm].
  assert (inv w1) as Hi1 by (by eapply inv_calm). apply wp_readr. destruct (incoming (owner w1)) as [v|] eqn:Ev; [|done]. cbn [ok_or].
  apply wp_refuse. case_bool_decide as Es; [|done]. cbn [negb]. apply wp_lift. destruct (checked_add _ _ _); [|done]. cbn [ok_or].
  destruct (misplaced index offset bs v) eqn:Em.
  - apply wp_modify. apply (inv_calm w1); [done|apply calm_drop].
  - apply wp_modify. by apply inv_chunk.
Qed.

Lemma commit_inv st total first second : preserves inv (commit st total first second).
Proof using Type.
  intros w Hi. change (wp (commit st total first second) w (fun _ => inv)). unfold commit. apply wp_bind.
  eapply wp_mono; [apply maintain_spec|]. intros [[]|e] w1 (C1 & _); [|by eapply inv_calm].
  assert (inv w1) as Hi1 by (by eapply inv_calm). apply wp_gets. destruct (match published (owner w1) with Some _ => _ | None => _ end) as [[r t]|].
  { by destruct (negb (t =? total)). }
  apply wp_readr. destruct (incoming (owner w1)) as [v|] eqn:Ev; [|done]. cbn [ok_or].
  apply wp_refuse. case_bool_decide as Es; [|done]. cbn [negb]. apply wp_modify.
  assert (inv (on_owner (fun s => s <| incoming := None |>) w1)) by (by apply (inv_calm w1), calm_drop).
  apply wp_refuse. destruct (_ || _) eqn:E1; [done|]. guards.
  apply wp_refuse. destruct (negb (at_revision v =? _)) eqn:E2; [done|]. apply negb_false_iff, Z.eqb_eq in E2.
  apply wp_lift. destruct (from_utf8 (text v)) eqn:Eu; [|done]. cbn [ok_or].
  apply publish_inv; try done; try lia. by rewrite Eu.
Qed.

Lemma local_change_inv origin now : preserves inv (local_change origin now).
Proof using Type.
  intros w Hi. change (wp (local_change origin now) w (fun _ => inv)). unfold local_change. apply wp_bind.
  eapply wp_mono; [apply clip_check_spec|]. intros [d|e] w1 (C1 & _); [|by eapply inv_calm].
  assert (inv w1) as Hi1 by (by eapply inv_calm). apply wp_gets. destruct (own_echo origin (owner w1)); [done|].
  unfold wp, method. destruct (checked_add u64_max _ 1) as [n|] eqn:E; [|by apply (inv_calm w1), calm_close].
  apply checked_add_Some in E as [-> _]. by apply inv_copied.
Qed.

Lemma set_enabled_calm l p w : calm w (snd (set_enabled l p w)).
Proof using Type.
  unfold set_enabled, modify. cbn [snd].
  assert (calm w (switch_set_enabled true p (switch_set_enabled false l w))) as C.
  { eapply calm_trans; [apply drift_set_enabled|apply drift_set_enabled]. }
  destruct (_ || _); [|done]. eapply calm_trans; [exact C|apply calm_drop].
Qed.

End invariant.
End steps.
End ClipboardProps.

(** ** The sender *)

Module ClipboardSenderProps.
Import ClipboardMsg ClipboardSender.
Import Clipboard(Stamp, source, id, sequence, Begin, mk_begin, b_binding, stamp, total_bytes, chunks, MAX_CHUNK_BYTES, MAX_CHUNKS).

(** The sender after [j] accepted records. *)
Definition after (j : nat) (s : Sender) : Sender := Nat.iter j accepted s.

(** A record the sender wrote into a buffer that holds any control message. *)
Definition produced (s : Sender) (bs : bytes) : Prop := exists j out n out',
  control_bytes (limits s) <= Z.of_nat (length out) <= usize_max
  /\ encode_next (after j s) out = (Ok (Some n), out') /\ bs = take (Z.to_nat n) out'.

(** The chunk with a given index. *)
Definition piece (t : bytes) (stride index : Z) : bytes :=
  slice (Z.to_nat (index * stride)) (Z.to_nat (Z.min (index * stride + stride) (Z.of_nat (length t)))) t.

(** What a record of the item may say. *)
Definition says (t : bytes) (stride n : Z) (b : Body) : Prop :=
  match b with
  | MBegin total k => total = Z.of_nat (length t) /\ k = n
  | MChunk index offset bs => 0 <= index < n /\ offset = index * stride /\ bs = piece t stride index
  | MCommit total => total = Z.of_nat (length t)
  | MCancel _ => False
  end.

Lemma new_Ok reserve t st c l s : new reserve t st c l = Ok s ->
  exists stride n, 0 < stride <= MAX_CHUNK_BYTES /\ stride + CHUNK_OVERHEAD <= control_bytes l
  /\ n = Media.div_ceil (Z.of_nat (length t)) stride /\ validate_context c = Ok (source st)
  /\ Z.of_nat (length t) <= u32_max
  /\ Clipboard.validate (mk_begin (scope c) st (Z.of_nat (length t)) n) l = Ok tt
  /\ s = mk_sender (mk_begin (scope c) st (Z.of_nat (length t)) n) c l t stride 0 false.
Proof.
  unfold new. intros H. apply Result_bind_Ok in H as (e & He & H). case_bool_decide as Es; [|done]. cbn [negb] in H. subst e.
  apply Result_bind_Ok in H as (room & Hr & H). unfold checked_sub in Hr. destruct (Z.leb_spec CHUNK_OVERHEAD (control_bytes l)); [|done].
  destruct (Z.eqb_spec (control_bytes l - CHUNK_OVERHEAD) 0) as [|Hnz]; [done|]. injection Hr as <-.
  apply Result_bind_Ok in H as (total & Ht & H). unfold u32_try_from in Ht. destruct (Z.leb_spec (Z.of_nat (length t)) u32_max); [|done]. injection Ht as <-.
  apply Result_bind_Ok in H as (n & Hn & H). unfold u32_try_from in Hn. destruct (_ <=? _) in Hn; [|done]. injection Hn as <-.
  apply Result_bind_Ok in H as ([] & Hv & H). destruct reserve; [|done]. injection H as <-.
  exists (Z.min (control_bytes l - CHUNK_OVERHEAD) MAX_CHUNK_BYTES). eexists. unfold MAX_CHUNK_BYTES in *.
  split_and!; try done; try lia. by destruct (Clipboard.validate _ l) as [[]|].
Qed.

Section sender.
Context (t : bytes) (st : Stamp) (c : Context) (l : Limits.ProtocolLimits) (stride n : Z).
Context (Hbytes : Forall is_byte t) (Hst : fits u128_max (id st) /\ fits u64_max (sequence st)) (Hc : ClipboardMsgProps.context_typed c).
Context (Hstride : 0 < stride <= MAX_CHUNK_BYTES) (Hroom : stride + CHUNK_OVERHEAD <= control_bytes l)
  (Hn : n = Media.div_ceil (Z.of_nat (length t)) stride) (Hend : validate_context c = Ok (source st)) (Hlen : Z.of_nat (length t) <= u32_max)
  (Hv : Clipboard.validate (mk_begin (scope c) st (Z.of_nat (length t)) n) l = Ok tt).
Definition fresh : Sender := mk_sender (mk_begin (scope c) st (Z.of_nat (length t)) n) c l t stride 0 false.

Lemma piece_count_bounds : 0 <= n <= MAX_CHUNKS /\ Z.of_nat (length t) <= n * stride /\ (0 < n -> (n - 1) * stride < Z.of_nat (length t))
  /\ Z.of_nat (length t) <= Limits.max_clipboard_item_bytes l /\ (n = 0 <-> t = []) /\ Clipboard.valid_stamp st = true.
Proof using Hv Hn Hstride.
  clear Hbytes Hlen. assert (0 <= n /\ Z.of_nat (length t) <= n * stride /\ (0 < n -> (n - 1) * stride < Z.of_nat (length t)) /\ (n = 0 <-> t = [])) as (H1 & H2 & H3 & H4).
  { destruct t as [|x t']; [rewrite Hn; unfold Media.div_ceil; rewrite Zmod_0_l, Zdiv_0_l; cbn; split_and!; try lia; done|].
    pose proof (MediaProps.div_ceil_bounds (Z.of_nat (length (x :: t'))) stride) as Hb. rewrite <- Hn in Hb. cbn [length] in *.
    split_and!; [nia|nia|nia|]. split; [intros ->; nia|done]. }
  unfold Clipboard.validate in Hv. cbn [total_bytes chunks b_binding stamp] in Hv. destruct (_ || _) eqn:E1 in Hv; [done|].
  destruct (_ || _) eqn:E2 in Hv; [done|]. guards. by split_and!.
Qed.

Lemma after_step j : Z.of_nat j <= n + 1 -> after j fresh = fresh <| step := Z.of_nat j |>.
Proof using Hv Hn Hstride.
  pose proof piece_count_bounds as ([Hn0 _] & _). induction j as [|j IH]; intros Hj; [done|].
  change (after (S j) fresh) with (accepted (after j fresh)). rewrite IH by lia. unfold accepted, fresh. cbn.
  destruct (Z.ltb_spec n (Z.of_nat j)); [lia|]. f_equal. lia.
Qed.

Lemma after_end j : n + 1 < Z.of_nat j -> finished (after j fresh) = true.
Proof using Hv Hn Hstride.
  induction j as [|j IH]; intros Hj; [pose proof piece_count_bounds; lia|]. change (after (S j) fresh) with (accepted (after j fresh)).
  destruct (Z.ltb_spec (n + 1) (Z.of_nat j)) as [Hl|]; [unfold accepted; specialize (IH Hl); by rewrite IH|].
  rewrite after_step by lia. unfold accepted, fresh. cbn. destruct (Z.ltb_spec n (Z.of_nat j)); [done|lia].
Qed.

Lemma next_body_says j : Z.of_nat j <= n + 1 -> exists b, next_body (after j fresh) = Ok b /\ says t stride n b
  /\ b = (if (j =? 0)%nat then MBegin (Z.of_nat (length t)) n
           else if Z.of_nat j <=? n then MChunk (Z.of_nat j - 1) ((Z.of_nat j - 1) * stride) (piece t stride (Z.of_nat j - 1))
           else MCommit (Z.of_nat (length t))).
Proof using Hv Hn Hstride Hlen.
  intros Hj. pose proof piece_count_bounds as ([Hn0 Hn1] & _ & Hlast & _). rewrite after_step by done. unfold next_body, fresh. cbn [step begin chunks total_bytes upd setter].
  destruct j as [|j]; [by eexists|]. cbn [Nat.eqb]. destruct (Z.eqb_spec (Z.of_nat (S j)) 0) as [|_]; [lia|].
  destruct (Z.leb_spec (Z.of_nat (S j)) n) as [Hle|]; [|by eexists].
  unfold chunk_body. cbn [chunk_bytes text]. unfold u32_try_from.
  assert ((Z.of_nat (S j) - 1) * stride <= u32_max) as Ho by nia.
  rewrite (proj2 (Z.leb_le _ _) Ho).
  eexists. split; [reflexivity|]. split; [|done]. split_and!; [lia..|done|done].
Qed.

Lemma piece_length i : 0 <= i -> Z.of_nat (length (piece t stride i)) = Z.max 0 (Z.min stride (Z.of_nat (length t) - i * stride)).
Proof using Hstride. clear Hlen Hbytes Hn Hv. intros Hi. unfold piece, slice. rewrite length_take, length_drop. nia. Qed.

Lemma says_typed b : says t stride n b -> ClipboardMsgProps.message_typed (mk_message st b).
Proof using Hv Hn Hstride Hlen Hst Hbytes.
  intros Hb. pose proof piece_count_bounds as ([Hn0 Hn1] & _ & Hlast & _). unfold MAX_CHUNKS in *.
  split; [apply Hst|]. split; [apply Hst|]. destruct b as [total k|i o bs|total|r]; cbn in *; unfold fits, u32_max in *.
  - destruct Hb as [-> ->]. lia.
  - destruct Hb as (Hi & -> & ->). split; [lia|]. split; [nia|]. split.
    + unfold piece, slice. apply Forall_take, Forall_drop. done.
    + rewrite piece_length by lia. unfold u32_max, MAX_CHUNK_BYTES in *. lia.
  - lia.
  - done.
Qed.

Lemma says_valid b : says t stride n b -> exists size, validate (mk_message st b) c l = Ok size.
Proof using Hv Hn Hstride Hlen Hst Hbytes Hend Hroom.
  intros Hb. pose proof piece_count_bounds as ([Hn0 Hn1] & Hcov & Hlast & Hmax & Hz & Hvs). unfold MAX_CHUNKS in *.
  unfold validate. rewrite Hend. cbn [mbind Result_bind m_stamp]. rewrite bool_decide_eq_true_2 by done. cbn [negb]. rewrite Hvs. cbn [negb].
  assert (exists size, size_of (mk_message st b) c l = Ok size /\ size <= stride + CHUNK_OVERHEAD) as (size & -> & Hs).
  { unfold size_of. cbn [body m_stamp]. unfold BEGIN_BYTES, CHUNK_OVERHEAD, COMMIT_BYTES, COMMON_BYTES in *.
    destruct b as [total k|i o bs|total|r]; cbn in Hb.
    - destruct Hb as [-> ->]. rewrite Hv. cbn. eexists. split; [done|lia].
    - destruct Hb as (Hi & -> & ->). pose proof (piece_length i) as Hp.
      assert (0 < Z.of_nat (length (piece t stride i)) <= stride /\ i * stride + Z.of_nat (length (piece t stride i)) <= Z.of_nat (length t)) as [Hp1 Hp2] by nia.
      replace (Z.of_nat (length (piece t stride i)) =? 0) with false by lia.
      replace (MAX_CHUNK_BYTES <? Z.of_nat (length (piece t stride i))) with false by lia.
      replace (MAX_CHUNKS <=? i) with false by (unfold MAX_CHUNKS; lia).
      replace (Limits.max_clipboard_item_bytes l <? i * stride + Z.of_nat (length (piece t stride i))) with false by lia.
      cbn. eexists. split; [done|lia].
    - subst total. replace (Limits.max_clipboard_item_bytes l <? Z.of_nat (length t)) with false by lia. eexists. split; [done|lia].
    - done. }
  cbn [mbind Result_bind]. exists size. by replace (control_bytes l <? size) with false by lia.
Qed.

(** A record of the sender is read back as what it says. *)
Lemma encoded_decodes b out : says t stride n b -> control_bytes l <= Z.of_nat (length out) <= usize_max ->
  exists size out', encode (mk_message st b) c l out = (Ok size, out') /\ decode (take (Z.to_nat size) out') c l = Ok (mk_message st b).
Proof using Hv Hn Hstride Hlen Hst Hbytes Hend Hroom Hc.
  intros Hs Hout. pose proof (says_typed b Hs) as Ht. destruct (says_valid b Hs) as [size Hsz].
  assert (c_channel c <> 0) as Hnz.
  { unfold validate_context in Hend. case_bool_decide; [|done]. cbn [negb] in Hend. destruct (Z.eqb_spec (c_channel c) 0); [done|done]. }
  pose proof (ClipboardMsgProps.clipboard_codec c l Hc Hnz) as Hx.
  pose proof (ClipboardMsgProps.validate_size c l _ _ Ht Hsz) as (-> & Hfit & _).
  assert (is_ok (validate (mk_message st b) c l) = true) as Hok by (by rewrite Hsz).
  destruct (exact_codec_roundtrip _ _ _ _ _ _ _ _ (mk_message st b) out Hx Ht Hok) as (k & He & Hd); [unfold fits_record; lia|lia|lia|].
  destruct (encode (mk_message st b) c l out) as [r out']. cbn [fst snd] in *. exists k, out'. by rewrite He.
Qed.

Lemma produced_decodes bs : produced fresh bs -> exists b, decode bs c l = Ok (mk_message st b) /\ says t stride n b.
Proof using Hv Hn Hstride Hlen Hst Hbytes Hend Hroom Hc.
  intros (j & out & k & out' & Hout & He & ->). unfold encode_next in He.
  destruct (Z.leb_spec (Z.of_nat j) (n + 1)) as [Hj|Hj]; [|by rewrite after_end in He].
  destruct (next_body_says j Hj) as (b & Hb & Hs & _). rewrite Hb in He.
  rewrite after_step in He by done. cbn [finished fresh upd setter begin context limits stamp] in He.
  destruct (encoded_decodes b out Hs Hout) as (size & out'' & Ee & Ed). rewrite Ee in He. cbn in He. injection He as <- <-. by exists b.
Qed.

(** Consecutive pieces make up the text. *)
Lemma pieces_gather (p : list (Z * Z * bytes)) i o : 0 <= i -> i * stride <= Z.of_nat (length t) ->
  ClipboardProps.tiled i o p -> Forall (fun x => says t stride n (MChunk (fst (fst x)) (snd (fst x)) (snd x))) p ->
  concat (snd <$> p) = slice (Z.to_nat (i * stride)) (Z.to_nat (Z.min ((i + Z.of_nat (length p)) * stride) (Z.of_nat (length t)))) t.
Proof using Hv Hn Hstride Hlen.
  revert i o. induction p as [|[[i' o'] bs] p IH]; intros i o Hi Hle Ht Hs.
  - cbn. unfold slice. rewrite Z.add_0_r. by replace (Z.to_nat (Z.min (i * stride) (Z.of_nat (length t))) - Z.to_nat (i * stride))%nat with 0%nat by lia.
  - destruct Ht as (-> & -> & Hne & Ht). apply Forall_cons in Hs as [(Hr & Ho & Hb) Hs]. cbn [fst snd] in Ho, Hb, Hr.
    cbn [fmap list_fmap concat snd length]. pose proof piece_count_bounds as (_ & _ & Hlast & _).
    assert (Z.of_nat (length bs) = Z.min stride (Z.of_nat (length t) - i * stride)) as Hl.
    { rewrite Hb. unfold piece, slice. rewrite length_take, length_drop. nia. }
    destruct p as [|x p].
    + cbn. rewrite app_nil_r, Hb. unfold piece. f_equal. nia.
    + apply Forall_cons in Hs as Hs'. destruct Hs' as [Hx _]. destruct x as [[i2 o2] b2]. destruct Ht as (-> & Ht). destruct Hx as ((? & ?) & _). cbn [fst snd] in *.
      rewrite (IH (i + 1) (o + Z.of_nat (length bs))); [|lia|nia|done|done].
      rewrite Hb. unfold piece, slice. replace (Z.to_nat ((i + 1) * stride)) with (Z.to_nat (i * stride) + Z.to_nat stride)%nat by lia.
      rewrite <- drop_drop. set (d := drop (Z.to_nat (i * stride)) t).
      replace (Z.to_nat (Z.min (i * stride + stride) (Z.of_nat (length t))) - Z.to_nat (i * stride))%nat with (Z.to_nat stride) by nia.
      rewrite take_take_drop. f_equal. nia.
Qed.

End sender.
End ClipboardSenderProps.
