(* ===== verification/ClipboardClaims.v ===== *)
(** * The text clipboard: claims

    Over every sequence of calls, whatever other threads do to the switches and the
    authority: what is published is one complete item of the peer; items are published
    at most once and in order; on the host the publication is authorized; and a text
    that one end copies is the text the other end publishes. *)

From stdpp Require Import sorting.
From S2P Require Import Prelude.
From S2P Require Import CoreTime.
From S2P Require Import Authority.
From S2P Require Import AuthorityProps.
From S2P Require Import Limits.
From S2P Require Import Submission.
From S2P Require Import SubmissionBase.
From S2P Require Import SubmissionClaims.
From S2P Require Import Bytes.
From S2P Require Import Utf8.
From S2P Require Import WireRecord.
From S2P Require Import WireRecordProps.
From S2P Require Import WireMedia.
From S2P Require Import WireMediaProps.
From S2P Require Import WireInput.
From S2P Require Import Clipboard.
From S2P Require Import WireClipboard.
From S2P Require Import ClipboardProps.

Module ClipboardClaims.
Import Clipboard ClipboardMsg ClipboardReceive ClipboardProps.
#[local] Existing Instance Host.host_authority.

(** ** Histories *)

Inductive Op :=
| DoBegin (reserve : bool) (b : Begin) (now bound : HostInstant)
| DoExpireBegin (b : Begin) (now : HostInstant)
| DoExpireTransfer (st : Stamp) (now : HostInstant)
| DoChunk (st : Stamp) (index offset : Z) (bs : bytes) (now : HostInstant)
| DoCancel (st : Stamp)
| DoCommit (st : Stamp) (total : Z) (first second : HostInstant)
| DoLocalChange (origin : option Stamp) (now : HostInstant)
| DoSetEnabled (l p : bool)
| DoMaintain (now : HostInstant)
| DoClose
| DoReceive (reserve : bool) (bs : bytes) (c : Context) (l : Limits.ProtocolLimits) (first second bound : HostInstant)
| DoApply (x : ExpiredRecord) (c : Context) (l : Limits.ProtocolLimits) (now : HostInstant).

Section histories.
Context {A Sk : Type} `{Authority A} `{ClipboardSink Sk}.
Abbreviation W := (World A Sk).
Implicit Types (w : W).

Definition step (op : Op) (w : W) : W :=
  match op with
  | DoBegin reserve b now bound => snd (begin_before reserve b now bound w)
  | DoExpireBegin b now => snd (expire_begin b now w)
  | DoExpireTransfer st now => snd (expire_transfer st now w)
  | DoChunk st index offset bs now => snd (chunk st index offset bs now w)
  | DoCancel st => snd (cancel st w)
  | DoCommit st total first second => snd (commit st total first second w)
  | DoLocalChange origin now => snd (local_change origin now w)
  | DoSetEnabled l p => snd (set_enabled l p w)
  | DoMaintain now => snd (maintain now w)
  | DoClose => snd (close w)
  | DoReceive reserve bs c l first second bound => snd (receive_before reserve bs c l first second bound w)
  | DoApply x c l now => snd (apply x c l now w)
  end.
Definition run (ops : list Op) (w : W) : W := foldl (fun w op => step op w) w ops.

(** The operation of the session a received record stands for. *)
Definition operation (reserve : bool) (c : Context) (m : Message) (first second bound : HostInstant) : Op :=
  match body m with
  | MBegin total n => DoBegin reserve (mk_begin (scope c) (m_stamp m) total n) first bound
  | MChunk index offset data => DoChunk (m_stamp m) index offset data first
  | MCommit total => DoCommit (m_stamp m) total first second
  | MCancel _ => DoCancel (m_stamp m)
  end.

Lemma receive_operation reserve bs c l first second bound w :
  step (DoReceive reserve bs c l first second bound) w = w
  \/ step (DoReceive reserve bs c l first second bound) w = step DoClose w
  \/ exists m, decode bs c l = Ok m
     /\ step (DoReceive reserve bs c l first second bound) w = step (operation reserve c m first second bound) w.
Proof using Type.
  cbn [step]. unfold receive_before. case_bool_decide; cbn [negb]; [|by left]. destruct (decode bs c l) as [m|e]; [|by right; left].
  right; right. exists m. split; [done|]. unfold operation. destruct (body m); cbn [step]; unfold mbind, M_bind.
  - by destruct (begin_before _ _ _ _ _) as [[]].
  - by destruct (chunk _ _ _ _ _ _) as [[]].
  - by destruct (commit _ _ _ _ _) as [[]].
  - by destruct (cancel _ _) as [[]].
Qed.

Lemma apply_operation x c l now w :
  step (DoApply x c l now) w = step DoClose w
  \/ (exists b, x_begin x = Some b /\ step (DoApply x c l now) w = step (DoExpireBegin b now) w)
  \/ step (DoApply x c l now) w = step (DoExpireTransfer (x_stamp x) now) w.
Proof using Type.
  cbn [step]. unfold apply. destruct (_ || _); [by left|]. right. destruct (x_begin x) as [b|].
  - left. exists b. split; [done|]. by destruct (expire_begin _ _ _).
  - right. by destruct (expire_transfer _ _ _).
Qed.

Section from_invariant.
Context (a0 : A) (loc : Endpoint) (lim : Limits.ProtocolLimits).

Lemma clip_close_inv w : inv a0 loc lim w -> inv a0 loc lim (step DoClose w).
Proof using Type. intros Hi. apply (inv_calm _ _ _ w); [done|apply calm_close]. Qed.

Lemma session_inv op w : (match op with DoReceive _ _ _ _ _ _ _ | DoApply _ _ _ _ => False | _ => True end) ->
  inv a0 loc lim w -> inv a0 loc lim (step op w).
Proof using Type.
  intros Hop Hi. destruct op; try done; cbn [step].
  - by apply begin_inv.
  - by apply expire_begin_inv.
  - eapply inv_calm; [done|apply expire_transfer_calm].
  - by apply chunk_inv.
  - eapply inv_calm; [done|apply cancel_calm].
  - by apply commit_inv.
  - by apply local_change_inv.
  - eapply inv_calm; [done|apply set_enabled_calm].
  - by apply inv_maintained.
  - by apply clip_close_inv.
Qed.

Lemma clip_step_inv op w : inv a0 loc lim w -> inv a0 loc lim (step op w).
Proof using Type.
  intros Hi. destruct op; try (by apply session_inv).
  - destruct (receive_operation reserve bs c l first second bound w) as [->|[->|(m & _ & ->)]]; [done|by apply clip_close_inv|].
    apply session_inv; [|done]. unfold operation. by destruct (body m).
  - destruct (apply_operation x c l now w) as [->|[(b & _ & ->)| ->]]; by apply session_inv.
Qed.

Lemma clip_run_inv ops w : inv a0 loc lim w -> inv a0 loc lim (run ops w).
Proof using Type. revert w. induction ops as [|op ops IH]; intros w Hi; [done|]. by apply IH, clip_step_inv. Qed.
End from_invariant.

Lemma attached_inv a loc lim granted now steps (k : Sk) w :
  with_monitor a loc lim granted now steps k = (Ok tt, w) -> inv a loc lim w.
Proof using Type.
  unfold with_monitor. set (w0 := mk_world _ _ _ _ _ _). destruct granted; [|done]. destruct (valid_binding _); [|done]. cbn [negb].
  assert (inv a loc lim w0) as Hi.
  { split; try done; [apply reached_refl|apply SSorted_nil|]. by intros [] ? ?. }
  pose proof (clip_check_spec now w0) as [C _]. destruct (check now w0) as [[d|[]] w1]; cbn [snd] in C; intros [= <-]; by eapply inv_calm.
Qed.

(** ** One item, once *)

(** C21. What reaches the platform clipboard is one complete item of the peer.  Whenever a
    session published a text: the log shows the Begin it accepted, valid, bound to this
    session and sent by the other end; after it the chunks of that item only, with
    consecutive indexes and offsets, whose concatenation is the text, as long and in as
    many chunks as the Begin declared, and valid UTF-8; from the Begin on no genuine
    local copy was made and no switch was moved, by whatever thread, until the final
    check began; that check found the authority in force, at a time before the item's
    own deadline, which lies within three seconds of its Begin; and the deadline handed
    to the platform is the earlier of the item's and the authority's. *)
Theorem published_text_is_one_item a loc lim granted now steps (k : Sk) w ops l1 p l2 :
  with_monitor a loc lim granted now steps k = (Ok tt, w) -> log (run ops w) = l1 ++ Published p :: l2 ->
  justified a loc lim l1 p.
Proof using Type. intros Hw. apply (inv_log _ _ _ (run ops w)). apply clip_run_inv. by eapply attached_inv. Qed.

Lemma before_suffix {X} (l1 l2 u v : list X) x : l1 ++ x :: l2 = u ++ v -> x ∉ v -> exists k, u = l1 ++ x :: k.
Proof using Type.
  intros E Hx. apply app_eq_inv in E as [(k & -> & E)|(k & -> & E)].
  - destruct Hx. rewrite E. apply elem_of_app. right. by left.
  - destruct k as [|y k]; cbn in E; [|injection E as <- _; by exists k].
    destruct Hx. rewrite <- E. by left.
Qed.

Lemma begun_elem b t dl (l : list (Event A)) : Began b t dl ∈ l -> sequence (stamp b) ∈ begun l.
Proof using Type.
  intros (l1 & l2 & ->)%list_elem_of_split. rewrite begun_app. apply elem_of_app. right. by left.
Qed.

(** The Begin behind a publication comes after every earlier publication. *)
Lemma justified_after a0 loc lim l1 p l2 q : justified a0 loc lim (l1 ++ Published p :: l2) q ->
  exists b t dl k mid, stamp b = p_stamp q /\ l1 ++ Published p :: l2 = l1 ++ Published p :: k ++ Began b t dl :: mid.
Proof using Type.
  intros (b & t & dl & mid & n & l0 & E & ([pre ->] & _ & _ & Hd & _) & _ & Hst & _). exists b, t, dl.
  rewrite <- app_assoc in E. cbn in E. change (Began b t dl :: mid ++ Checked (p_at q) :: replicate n Switched)
    with ([Began b t dl] ++ (mid ++ Checked (p_at q) :: replicate n Switched)) in E. rewrite app_assoc in E.
  pose proof E as E'. apply before_suffix in E' as (k & Ek).
  2:{ intros [Hi|Hi]%elem_of_app; [by apply (proj1 (Forall_forall _ _) Hd) in Hi|].
      apply elem_of_cons in Hi as [?|Hi]; [done|]. by apply elem_of_replicate in Hi as [? _]. }
  destruct k as [|x k _] using rev_ind; [by apply app_inj_tail in Ek as [_ ?]|].
  rewrite app_comm_cons, app_assoc in Ek. apply app_inj_tail in Ek as [-> <-].
  exists k, (mid ++ Checked (p_at q) :: replicate n Switched). split; [done|]. rewrite E, <- !app_assoc. done.
Qed.

(** No item is published twice, and none after a later one: the sequences of the
    publications of a session ascend strictly, whatever is received, retried, cancelled
    or expired in between. *)
Theorem publications_ascend a loc lim granted now steps (k : Sk) w ops l1 p l2 q l3 :
  with_monitor a loc lim granted now steps k = (Ok tt, w) ->
  log (run ops w) = l1 ++ Published p :: l2 ++ Published q :: l3 ->
  sequence (p_stamp p) < sequence (p_stamp q).
Proof using Type.
  intros Hw E. pose proof (clip_run_inv _ _ _ ops w (attached_inv _ _ _ _ _ _ _ _ Hw)) as Hi.
  destruct (inv_log _ _ _ _ Hi l1 p _ E) as (b & t & dl & mid & n & l0 & El & ([pre ->] & _) & _ & Hst & _).
  assert (log (run ops w) = (l1 ++ Published p :: l2) ++ Published q :: l3) as E2 by (by rewrite <- app_assoc).
  destruct (justified_after _ _ _ _ _ _ _ (inv_log _ _ _ _ Hi _ q _ E2)) as (b' & t' & dl' & k' & mid' & Hst' & Ek).
  rewrite Ek in E2. pose proof (inv_sorted _ _ _ _ Hi) as Hs. rewrite E2 in Hs.
  rewrite begun_app, begun_app in Hs. apply StronglySorted_app_1_l in Hs.
  rewrite <- Hst, <- Hst'. eapply (StronglySorted_app_1_elem_of _ _ _ _ _ Hs).
  - apply (begun_elem b t dl). rewrite El. apply elem_of_app. left. apply elem_of_app. right. by left.
  - apply (begun_elem b' t' dl'). right. apply elem_of_app. right. by left.
Qed.

End histories.

(** ** Switches *)

Section switches.
Context {A Sk : Type}.
Implicit Types (w : World A Sk).

Lemma flip_schedule f steps w : flip (w <| schedule := steps |>) f = (flip w f) <| schedule := steps |>.
Proof using Type.
  destruct f as [which en]. unfold flip. change (switches (w <| schedule := steps |>)) with (switches w). by destruct (settled _ _).
Qed.

Lemma flip_settles which en w : fits u64_max (cell which (switches w)) -> settled en (cell which (switches (flip w (which, en)))) = true.
Proof using Type.
  intros Hf. unfold flip. destruct (settled en (cell which (switches w))) eqn:E; [done|].
  change (switches (switch which w)) with (bump which (switches w)).
  replace (cell which (bump which (switches w))) with (cell which (switches w) + 1) by (destruct which; done).
  unfold settled in *. apply orb_false_iff in E as [_ E]. apply orb_true_iff. right.
  rewrite Z.add_1_r, Z.odd_succ, <- Z.negb_odd. by destruct (Z.odd _), en.
Qed.

(** Setting a switch is atomic.  Whatever the other threads do between the load and the
    compare-exchanges of the loop, and however often a weak exchange fails for no
    reason, the switches end as if the others' changes had come first and this one
    after them in one step; no change is lost, none is made twice, and the switch is
    then where it was wanted or, at the end of its counter, off for good. *)
Theorem set_enabled_is_atomic which en w :
  exists others steps, switch_set_enabled which en w = (foldl flip w (others ++ [(which, en)])) <| schedule := steps |>
  /\ (fits u64_max (cell which (switches (foldl flip w others))) -> settled en (cell which (switches (switch_set_enabled which en w))) = true).
Proof using Type.
  assert (forall steps0 w0, exists others steps,
    exchange_loop which en steps0 w0 = (foldl flip w0 (others ++ [(which, en)])) <| schedule := steps |>) as Hloop.
  { induction steps0 as [|i rest IH]; intros w0; cbn [exchange_loop]; destruct (settled en (cell which (switches w0))) eqn:E.
    - exists [], []. cbn. by rewrite E.
    - exists [], []. cbn. by rewrite E.
    - exists [], (i :: rest). cbn. by rewrite E.
    - destruct (_ && _) eqn:Es.
      + apply andb_true_iff in Es as [Es _]. apply Z.eqb_eq in Es. exists (flips i), rest. rewrite foldl_app. cbn [foldl].
        assert (flip (foldl flip w0 (flips i)) (which, en) = switch which (foldl flip w0 (flips i))) as -> by (cbn [flip]; by rewrite Es, E). done.
      + destruct (IH (foldl flip w0 (flips i))) as (others & steps & ->). exists (flips i ++ others), steps. by rewrite <- app_assoc, !foldl_app. }
  assert (exists others steps, switch_set_enabled which en w = (foldl flip w (others ++ [(which, en)])) <| schedule := steps |>) as (others & steps & E).
  { unfold switch_set_enabled, interfere. destruct (schedule w) as [|i rest]; [apply Hloop|].
    match goal with |- context [exchange_loop _ _ ?s ?x] => destruct (Hloop s x) as (others & steps & ->) end.
    exists (flips i ++ others), steps. rewrite <- app_assoc, (foldl_app _ (flips i)).
    assert (forall fs (x : World A Sk), foldl flip (x <| schedule := rest |>) fs = (foldl flip x fs) <| schedule := rest |>) as Hf.
    { induction fs as [|f fs IH]; intros x; [done|]. cbn [foldl]. by rewrite flip_schedule, IH. }
    rewrite !Hf. by destruct (foldl flip (foldl flip w (flips i)) (others ++ [(which, en)])). }
  exists others, steps. split; [exact E|]. intros Hfit. rewrite E. change (switches (?x <| schedule := steps |>)) with (switches x).
  rewrite foldl_app. by apply flip_settles.
Qed.

End switches.

(** ** The host's authority *)

Section host.
Context {I Sk : Type} `{InputSink I} `{ClipboardSink Sk}.
Implicit Types (u : Submission.World I).

Lemma unless_revoked_quiet (f : M (Submission.World I) Refusal HostInstant) :
  (forall u, quiet u (snd (f u))) -> forall u, quiet u (snd (Host.unless_revoked f u)).
Proof using Type.
  intros Hf u. unfold Host.unless_revoked. specialize (Hf u). destruct (f u) as [r u1]. cbn [snd] in Hf.
  pose proof (is_revoked_quiet u1) as Hq. destruct (is_revoked u1) as [[[]|e] u2]; cbn [snd] in *; by etrans.
Qed.

Lemma monitor_status_quiet now u : quiet u (snd (monitor_status now u)).
Proof using Type.
  unfold monitor_status. pose proof (monitor_with_quiet (control_status now) u) as Hq.
  destruct (monitor_with (control_status now) u) as [[s|e] u1]; cbn [snd] in *; [done|]. etrans; [exact Hq|]. by apply quiet_world.
Qed.

Lemma deadline_quiet now u : quiet u (snd (Host.deadline now u)).
Proof using Type.
  apply unless_revoked_quiet. clear u. intros u. unfold monitor_deadline, mbind, M_bind. pose proof (monitor_status_quiet now u) as Hq.
  by destruct (monitor_status now u) as [[[]|] u1].
Qed.

Lemma item_deadline_quiet now u : quiet u (snd (Host.item_deadline now u)).
Proof using Type.
  apply unless_revoked_quiet. clear u. intros u. unfold authorization_deadline, mbind, M_bind. pose proof (monitor_status_quiet now u) as Hq.
  destruct (monitor_status now u) as [[[]|] u1]; cbn [snd] in *; [|done..]. etrans; [exact Hq|apply monitor_with_quiet].
Qed.

(** The monitor keeps watching the same owner. *)
Lemma reached_quiet u u' : reached u u' -> quiet u u'.
Proof using Type.
  induction 1 as [|u' now _ IH|u' now _ IH|u' _ IH]; [done|..]; (etrans; [exact IH|]).
  - apply deadline_quiet.
  - apply item_deadline_quiet.
  - by apply quiet_world.
Qed.

Lemma is_revoked_reads u (r : bool) u' : is_revoked u = (Ok r, u') -> revoked u' = r.
Proof using Type. by intros [= <- <-]. Qed.

(** The authority the monitor decides on once it holds the lock: what was shared, after
    whatever the other threads did to it before the flag was first read and before the
    lock was taken. *)
Definition authority_locked u : SessionAuthority :=
  foldl (fun a i => AuthoritySpec.run (others_calls i) a) (shared u) (take 2 (sched u)).

Lemma monitor_with_locked {A} (f : SessionAuthority -> Result AuthorityError A * SessionAuthority) u x u' :
  monitor_with f u = (Ok x, u') ->
  f (authority_locked u) = (Ok x, shared u') /\ lease_id (authority_locked u) = Some (is_lease (own u))
  /\ native_owner (authority_locked u) = Some (native_ident (own u)).
Proof using Type.
  unfold monitor_with, guard_revoked, is_revoked, Submission.interfere, interfere_locked, authority_locked.
  destruct u as [o a fl k ti l tr n un]. cbn [own shared sched].
  intros (? & u1 & H1 & (? & u2 & H2 & (? & u3 & H3 &
    (? & u4 & H4 & (? & u5 & H5 & H6)%method_bind_Ok)%method_bind_Ok)%method_bind_Ok)%method_bind_Ok)%method_bind_Ok.
  apply refuse_if_Ok in H4 as [_ ->]. apply refuse_if_Ok in H5 as [Hi ->].
  assert (own u3 = o /\ shared u3 = foldl (fun a i => AuthoritySpec.run (others_calls i) a) a (take 2 l)) as [Ho Hs].
  { injection H2 as <-. injection H3 as <-. revert H1. run_method.
    destruct l as [|i [|j [|m l]]]; cbn.
    1: by destruct fl; intros [=]; subst.
    all: by destruct (fl || others_revoke i); intros [=]; subst. }
  rewrite <- Hs. rewrite Ho in Hi. unfold Submission.method in H6. destruct (f (shared u3)) as [[y|e] b] eqn:Hf; cbn in H6; [|done].
  injection H6 as -> <-. cbn. apply orb_false_iff in Hi as [Hl Hn]. rewrite negb_false_iff in Hl, Hn.
  apply bool_decide_eq_true in Hl. unfold is_native_owner, is_some_and in Hn.
  destruct (native_owner _) as [w|]; [|done]. by apply Z.eqb_eq in Hn as ->.
Qed.

(** An answer of the host's authority. *)
Lemma host_deadline_Ok now u d u' : Host.deadline now u = (Ok d, u') ->
  revoked u' = false /\ fst (control_status now (authority_locked u)) = Ok (Live d)
  /\ lease_id (authority_locked u) = Some (is_lease (own u))
  /\ native_owner (authority_locked u) = Some (native_ident (own u)).
Proof using Type.
  unfold Host.deadline, Host.unless_revoked, monitor_deadline, monitor_status, mbind, M_bind.
  destruct (monitor_with (control_status now) u) as [[[v|v x]|e] u1] eqn:E; cbn [fst snd].
  - apply monitor_with_locked in E as (Hs & Hl & Hn). rewrite Hs.
    unfold mret, M_ret. destruct (is_revoked u1) as [[[]|e] u2] eqn:Er; [done| |done]. intros [= -> ->].
    split; [by apply is_revoked_reads in Er|done].
  - unfold fail. by destruct (is_revoked u1) as [[[]|] ?].
  - by destruct (is_revoked _) as [[[]|] ?].
Qed.

(** C22. On the host a text is published under live control only.  The final check of every
    publication was made by the monitor of the input session the clipboard is attached
    to, at a state that monitor had reached from the attachment.  The authority it found
    under the lock, after whatever other threads had done to it, was held by that
    session's own lease and native owner and answered that control is live; it was then
    viewing with a ready view, at a time before the lease, the observation and the view
    run out.  The revocation flag was still clear after the check, and the platform is
    told not to publish later than the deadline the authority gave. *)
Theorem host_publication_is_authorized u loc lim granted now steps (k : Sk) w ops l1 p l2 :
  with_monitor u loc lim granted now steps k = (Ok tt, w) -> log (run ops w) = l1 ++ Published p :: l2 ->
  reached u (p_before p) /\ Host.deadline (p_at p) (p_before p) = (Ok (p_authority p), p_after p) /\
  revoked (p_after p) = false /\ p_until p <= p_authority p /\
  let a := authority_locked (p_before p) in
  let b := snd (control_status (p_at p) a) in
  lease_id a = Some (is_lease (own u)) /\ native_owner a = Some (native_ident (own u))
  /\ fst (control_status (p_at p) a) = Ok (Live (p_authority p))
  /\ phase b = Viewing /\ readiness b = Authority.Ready
  /\ exists l o, Authority.lease b = Some l /\ observation_until b = Some o
     /\ p_at p < p_authority p /\ p_authority p <= authorized_until l /\ p_authority p <= o
     /\ (forall v, view_until b = Some v -> p_authority p <= v).
Proof using Type.
  intros Hw E. pose proof (clip_run_inv _ _ _ ops w (attached_inv _ _ _ _ _ _ _ _ Hw)) as Hi.
  destruct (inv_log _ _ _ _ Hi l1 p l2 E) as (b0 & t & dl & mid & n & l0 & _ & _ & _ & _ & _ & _ & _ & _ & _ & Hu & Hr & Hd).
  split; [exact Hr|]. split; [exact Hd|].
  apply host_deadline_Ok in Hd as (Hrev & Hs & Hl & Hn). apply reached_quiet in Hr. destruct (qu_steady _ _ Hr) as [[]].
  split; [done|]. split; [lia|]. cbv zeta. set (a := authority_locked (p_before p)) in *.
  destruct (control_status (p_at p) a) as [c b] eqn:Hlive. cbn [fst snd] in Hs |- *. subst c.
  apply control_status_Live in Hlive as (_ & Hp & Hrd & _ & l & o & Hle & Ho & Hlt & Hmin).
  split_and!; try done; try congruence. exists l, o.
  assert (p_at p <= serialized_time a (p_at p)) by (unfold serialized_time; destruct (last_checked a); lia).
  split_and!; try done; try lia; [destruct (view_until b); lia..|]. intros v Hv. rewrite Hv in Hmin. lia.
Qed.

End host.

(** ** From one end to the other *)

Section ends.
Context {A Sk : Type} `{Authority A} `{ClipboardSink Sk}.
Abbreviation W := (World A Sk).
Implicit Types (w : W).

(** The events of an item that an operation may add to the log. *)
Definition source_of (op : Op) (e : Event A) : Prop :=
  match e with
  | Began b _ _ => exists reserve now bound, op = DoBegin reserve b now bound
  | Appended st index offset bs => exists now, op = DoChunk st index offset bs now
  | _ => True
  end.
Definition grows (P : Event A -> Prop) w w' : Prop := exists l, log w' = log w ++ l /\ Forall P l.

Lemma grows_calm op w w' : calm w w' -> grows (source_of op) w w'.
Proof using Type.
  intros C. destruct (calm_log _ _ C) as (l & L & P & _). exists l. split; [done|]. eapply Forall_impl; [exact P|]. by intros [].
Qed.
Lemma grows_trans P w1 w2 w3 : grows P w1 w2 -> grows P w2 w3 -> grows P w1 w3.
Proof using Type.
  intros (l1 & E1 & H1) (l2 & E2 & H2). exists (l1 ++ l2). rewrite E2, E1, app_assoc. split; [done|]. by apply Forall_app.
Qed.
Lemma grows_note (P : Event A -> Prop) e w w' : P e -> log w' = log w ++ [e] -> grows P w w'.
Proof using Type. intros He E. exists [e]. split; [done|]. by constructor. Qed.
Lemma grows_same P w w' : log w' = log w -> grows P w w'.
Proof using Type. intros E. exists []. by rewrite app_nil_r. Qed.

Lemma begin_grows reserve b now bound w :
  grows (source_of (DoBegin reserve b now bound)) w (snd (begin_before reserve b now bound w)).
Proof using Type.
  change (wp (begin_before reserve b now bound) w (fun _ w' => grows (source_of (DoBegin reserve b now bound)) w w')). unfold begin_before.
  apply wp_bind. eapply wp_mono; [apply clip_check_spec|]. intros [d|e] w1 (C1 & _); [|by apply grows_calm].
  apply wp_bind. eapply wp_mono; [apply ask_spec; apply (fun a b => reached_item a b now)|]. intros [a|e] w2 (C2 & _); [|by eapply grows_trans; apply grows_calm].
  assert (grows (source_of (DoBegin reserve b now bound)) w w2) as G by (by eapply grows_trans; apply grows_calm).
  apply wp_readr. destruct (check_begin b (owner w2)) as [[]|]; [|done]. apply wp_lift. destruct (HostTime.instant_add now 3000000); [|done]. cbn [ok_or].
  apply wp_modify, wp_refuse. case_match; [eapply grows_trans; [exact G|by apply grows_same]|].
  apply wp_refuse. case_match; [eapply grows_trans; [exact G|by apply grows_same]|]. apply wp_modify.
  eapply grows_trans; [exact G|]. eapply grows_note; [|reflexivity]. by exists reserve, now, bound.
Qed.

Lemma chunk_grows st index offset bs now w :
  grows (source_of (DoChunk st index offset bs now)) w (snd (chunk st index offset bs now w)).
Proof using Type.
  change (wp (chunk st index offset bs now) w (fun _ w' => grows (source_of (DoChunk st index offset bs now)) w w')). unfold chunk.
  apply wp_bind. eapply wp_mono; [apply maintain_spec|]. intros [[]|e] w1 (C1 & _); [|by apply grows_calm].
  pose proof (grows_calm (DoChunk st index offset bs now) _ _ C1) as G. apply wp_readr. destruct (incoming (owner w1)); [|done]. cbn [ok_or].
  apply wp_refuse. case_match; [done|]. apply wp_lift. destruct (checked_add _ _ _); [|done]. cbn [ok_or]. destruct (misplaced _ _ _ _).
  - apply wp_modify. eapply grows_trans; [exact G|by apply grows_same].
  - apply wp_modify. eapply grows_trans; [exact G|]. eapply grows_note; [|reflexivity]. by exists now.
Qed.

Lemma publish_grows op v total second w : grows (source_of op) w (snd (publish v total second w)).
Proof using Type.
  unfold publish, method. set (m := (_ ≫= _) : M W Error Receipt).
  assert (wp m w (fun _ w' => grows (source_of op) w w')) as Hm.
  2:{ unfold wp in Hm. destruct (m w) as [r w']. cbn [snd] in *. eapply grows_trans; [exact Hm|by apply grows_same]. }
  unfold m. apply wp_bind. unfold wp at 1. destruct (sink_prepare _ _ _) as [[[]|pe] k]; cbn [fst snd map_err]; [|by apply grows_same].
  apply wp_gets, wp_bind. eapply wp_mono; [apply clip_check_spec|]. intros r w3 (C3 & _).
  assert (grows (source_of op) w w3) as G by (apply (grows_trans _ _ (w <| sink := k |>)); [by apply grows_same|by apply grows_calm]).
  destruct r as [d|e]; [|done]. apply wp_refuse. case_match; [done|]. unfold wp. destruct (sink_publish_until _ _ _ _) as [pub k'].
  eapply grows_trans; [exact G|]. eapply grows_note; [|reflexivity]; done.
Qed.

Lemma session_grows op w : (match op with DoReceive _ _ _ _ _ _ _ | DoApply _ _ _ _ => False | _ => True end) ->
  grows (source_of op) w (step op w).
Proof using Type.
  intros Hop. destruct op; try done; cbn [step].
  - apply begin_grows.
  - change (wp (expire_begin b now) w (fun _ w' => grows (source_of (DoExpireBegin b now)) w w')). unfold expire_begin. apply wp_bind.
    pose proof (check_expiration_calm now w) as C. unfold wp at 1. destruct (check_expiration now w) as [[[]|e] w1]; cbn [fst snd] in *; [|by apply grows_calm].
    apply wp_readr. destruct (check_begin b (owner w1)) as [[]|]; [|by apply grows_calm]. eapply grows_trans; [by apply grows_calm|by apply grows_same].
  - apply grows_calm, expire_transfer_calm.
  - apply chunk_grows.
  - apply grows_calm, cancel_calm.
  - change (wp (commit st total first second) w (fun _ w' => grows (source_of (DoCommit st total first second)) w w')). unfold commit. apply wp_bind.
    eapply wp_mono; [apply maintain_spec|]. intros [[]|e] w1 (C1 & _); [|by apply grows_calm].
    pose proof (grows_calm (DoCommit st total first second) _ _ C1) as G. apply wp_gets.
    destruct (match published (owner w1) with Some _ => _ | None => _ end) as [[r t]|]; [by destruct (negb (t =? total))|].
    apply wp_readr. destruct (incoming (owner w1)) as [v|]; [|done]. cbn [ok_or]. apply wp_refuse. case_match; [done|]. apply wp_modify.
    set (w2 := on_owner _ w1). assert (grows (source_of (DoCommit st total first second)) w w2) by (eapply grows_trans; [exact G|by apply grows_same]).
    apply wp_refuse. case_match; [done|]. apply wp_refuse. case_match; [done|]. apply wp_lift. destruct (from_utf8 _); [|done]. cbn [ok_or].
    unfold wp. eapply grows_trans; [done|apply publish_grows].
  - change (wp (local_change origin now) w (fun _ w' => grows (source_of (DoLocalChange origin now)) w w')). unfold local_change. apply wp_bind.
    eapply wp_mono; [apply clip_check_spec|]. intros [d|e] w1 (C1 & _); [|by apply grows_calm].
    pose proof (grows_calm (DoLocalChange origin now) _ _ C1) as G. apply wp_gets. destruct (own_echo _ _); [done|].
    unfold wp, method. destruct (checked_add u64_max _ 1); [|by eapply grows_trans; [exact G|by apply grows_same]].
    eapply grows_trans; [exact G|]. eapply grows_note; [|reflexivity]; done.
  - apply grows_calm, set_enabled_calm.
  - apply grows_calm. apply (maintain_spec now w).
  - by apply grows_same.
Qed.

(** Every record of the sender's item that reaches the session was written by the
    sender, but for cancellations; order, loss and repetition are not constrained, and
    neither is anything with another stamp. *)
Definition honest (s0 : ClipboardSender.Sender) (op : Op) : Prop :=
  let st := stamp (ClipboardSender.begin s0) in
  match op with
  | DoReceive _ bs c l _ _ _ => forall m, decode bs c l = Ok m -> m_stamp m = st ->
      (exists r, body m = MCancel r)
      \/ c = ClipboardSender.context s0 /\ l = ClipboardSender.limits s0 /\ ClipboardSenderProps.produced s0 bs
  | DoBegin _ b _ _ => stamp b <> st
  | DoChunk st' _ _ _ _ => st' <> st
  | _ => True
  end.

Section item.
Context (t : bytes) (st : Stamp) (stride n : Z).
(** The log tells of the item what its sender says. *)
Definition faithful (e : Event A) : Prop :=
  match e with
  | Began b _ _ => stamp b = st -> ClipboardSenderProps.says t stride n (MBegin (total_bytes b) (chunks b))
  | Appended st' index offset bs => st' = st -> ClipboardSenderProps.says t stride n (MChunk index offset bs)
  | _ => True
  end.

Lemma source_faithful op e : source_of op e ->
  (forall reserve b now bound, op = DoBegin reserve b now bound -> stamp b = st -> ClipboardSenderProps.says t stride n (MBegin (total_bytes b) (chunks b))) ->
  (forall index offset bs now, op = DoChunk st index offset bs now -> ClipboardSenderProps.says t stride n (MChunk index offset bs)) ->
  faithful e.
Proof using Type.
  intros He Hb Hc. destruct e; cbn in *; try done.
  - destruct He as (reserve & now & bound & ->). by apply (Hb reserve b now bound).
  - destruct He as (now & ->). intros ->. by apply (Hc index offset bs now).
Qed.
End item.

Lemma step_faithful t st c l stride n s0 op w : s0 = ClipboardSenderProps.fresh t st c l stride n ->
  (forall bs, ClipboardSenderProps.produced s0 bs -> exists b, decode bs c l = Ok (mk_message st b) /\ ClipboardSenderProps.says t stride n b) ->
  honest s0 op -> Forall (faithful t st stride n) (log w) -> Forall (faithful t st stride n) (log (step op w)).
Proof using Type.
  intros Es Hprod Hop Hw.
  assert (forall op', (match op' with DoReceive _ _ _ _ _ _ _ | DoApply _ _ _ _ => False | _ => True end) ->
    (forall reserve b now bound, op' = DoBegin reserve b now bound -> stamp b = st -> ClipboardSenderProps.says t stride n (MBegin (total_bytes b) (chunks b))) ->
    (forall index offset bs now, op' = DoChunk st index offset bs now -> ClipboardSenderProps.says t stride n (MChunk index offset bs)) ->
    Forall (faithful t st stride n) (log (step op' w))) as Hgen.
  { intros op' Hs Hb Hc. destruct (session_grows op' w Hs) as (l' & -> & Hl). apply Forall_app. split; [done|].
    eapply Forall_impl; [exact Hl|]. intros e He. by apply (source_faithful t st stride n op'). }
  destruct op; try (apply Hgen; [done|..]; naive_solver).
  - destruct (receive_operation reserve bs c0 l0 first second bound w) as [->|[->|(m & Hd & ->)]]; [done| |].
    { by apply Hgen. }
    assert (m_stamp m = st -> (exists r, body m = MCancel r) \/ ClipboardSenderProps.says t stride n (body m)) as Hm.
    { intros Hst. destruct (Hop m Hd) as [?|(-> & -> & Hp)]; [by rewrite Es|by left|]. right.
      destruct (Hprod bs Hp) as (b & Hb & Hs). rewrite Es in Hd. cbn in Hd. rewrite Hb in Hd. injection Hd as <-. done. }
    apply Hgen.
    + unfold operation. by destruct (body m).
    + intros r' b' now' bound' E Est. unfold operation in E. destruct (body m) as [total k|i o bs'|total|r] eqn:Eb; try done.
      injection E as <- <- <- <-. cbn in Est |- *. destruct (Hm Est) as [[? ?]|?]; done.
    + intros i o b' now' E. unfold operation in E. destruct (body m) as [total k|i' o' bs'|total|r] eqn:Eb; try done.
      injection E as Est <- <- <- <-. destruct (Hm Est) as [[? ?]|?]; done.
  - destruct (apply_operation x c0 l0 now w) as [->|[(b & _ & ->)| ->]]; by apply Hgen.
Qed.

(** C23. The text that one end copies is the text the other end publishes.  Let a sender be
    made for a text, and let the records of its stamp that reach a session be records
    that sender wrote, cancellations apart: in whatever order and however often they
    arrive, among whatever other records and calls, a publication under the stamp is of
    exactly that text. *)
Theorem copied_text_is_published_text reserve t st c l s0 a loc lim granted now steps (k : Sk) w ops l1 p l2 :
  Forall is_byte t -> fits u128_max (id st) -> fits u64_max (sequence st) -> ClipboardMsgProps.context_typed c ->
  ClipboardSender.new reserve t st c l = Ok s0 ->
  with_monitor a loc lim granted now steps k = (Ok tt, w) -> Forall (honest s0) ops ->
  log (run ops w) = l1 ++ Published p :: l2 -> p_stamp p = st -> p_text p = t.
Proof using Type.
  intros Ht Hid Hsq Hc Hnew Hw Hops E Hst.
  apply ClipboardSenderProps.new_Ok in Hnew as (stride & n & Hstride & Hroom & Hn & Hend & Hlen & Hv & Es).
  pose proof (ClipboardSenderProps.produced_decodes t st c l stride n Ht (conj Hid Hsq) Hc Hstride Hroom Hn Hend Hlen Hv) as Hprod.
  assert (Forall (faithful t st stride n) (log (run ops w))) as Hf.
  { assert (Forall (faithful t st stride n) (log w)) as H0'.
    { unfold with_monitor in Hw. destruct granted; [|done]. destruct (valid_binding _); [|done]. cbn [negb] in Hw.
      match type of Hw with context [check now ?w0] => pose proof (clip_check_spec now w0) as [C _]; destruct (check now w0) as [r w1] end.
      cbn [fst snd] in C. assert (w1 = w) as <- by (destruct r as [|[]]; by simplify_eq).
      destruct (calm_log _ _ C) as (l' & -> & P & _). eapply Forall_impl; [exact P|]. by intros []. }
    clear E Hw. revert w H0'. induction Hops as [|op ops Hop _ IH]; intros w H0'; [done|]. apply IH.
    apply (step_faithful t st c l stride n s0); [done|by rewrite Es|done|done]. }
  pose proof (clip_run_inv _ _ _ ops w (attached_inv _ _ _ _ _ _ _ _ Hw)) as Hi.
  destruct (inv_log _ _ _ _ Hi l1 p l2 E) as (b & tb & dl & mid & k0 & l0 & El & ([pre ->] & _ & _ & Hd & Hti) & _ & Hbs & Htx & Htot & _).
  rewrite E, El, <- !app_assoc in Hf. apply Forall_app in Hf as [_ Hf]. cbn in Hf. apply Forall_cons in Hf as [Hb Hf]. apply Forall_app in Hf as [Hm _].
  cbn in Hb. destruct Hb as [Hb _]; [congruence|]. rewrite Htx. unfold gathered.
  assert (Forall (fun x => ClipboardSenderProps.says t stride n (MChunk (fst (fst x)) (snd (fst x)) (snd x))) (parts mid)) as Hp.
  { clear - Hd Hm Hbs Hst. rewrite Hbs, Hst in Hd. induction mid as [|e mid IH]; [by constructor|]. apply Forall_cons in Hd as [He Hd], Hm as [Hx Hm].
    specialize (IH Hm Hd). destruct e; try done. cbn. constructor; [|done]. by apply Hx. }
  pose proof (ClipboardSenderProps.pieces_gather t st c l stride n Hstride Hn Hlen Hv (parts mid) 0 0 (Z.le_refl _) (Nat2Z.is_nonneg _) Hti Hp) as Hg.
  rewrite Htx in Htot. unfold gathered in Htot. rewrite Hg in Htot |- *. unfold slice in *. change (Z.to_nat (0 * stride)) with 0%nat in *.
  rewrite drop_0, Nat.sub_0_r in *. rewrite length_take in Htot. apply take_ge. lia.
Qed.

End ends.

(** ** A text that is sent arrives *)

(** One record of the sender, written, received at the given readings of the clock,
    and accepted by the transport. *)
Definition send_one {A Sk : Type} `{Authority A} `{ClipboardSink Sk}
  (x : ClipboardSender.Sender * World A Sk * list (Result ReceiveError (option Receipt))) (reading : HostInstant * HostInstant)
  : ClipboardSender.Sender * World A Sk * list (Result ReceiveError (option Receipt)) :=
  let '(s, w, results) := x in
  match ClipboardSender.encode_next s (zeros (Z.to_nat (control_bytes (ClipboardSender.limits s)))) with
  | (Ok (Some size), out) =>
      let (r, w) := receive true (take (Z.to_nat size) out) (ClipboardSender.context s) (ClipboardSender.limits s)
                      (fst reading) (snd reading) w in
      (ClipboardSender.accepted s, w, results ++ [r])
  | _ => x
  end.
Definition send_all {A Sk : Type} `{Authority A} `{ClipboardSink Sk} (readings : list (HostInstant * HostInstant))
  (s : ClipboardSender.Sender) (w : World A Sk) := foldl send_one (s, w, []) readings.

Section delivery.
Context {A Sk : Type} `{Authority A} `{ClipboardSink Sk}.
Abbreviation W := (World A Sk).
Implicit Types (w : W).
(** An authority that stands until [D]. *)
Context (a : A) (D : HostInstant).
Definition stands : Prop := forall now, now < D -> au_deadline now a = (Ok D, a) /\ au_item_deadline now a = (Ok D, a).
Context (Hstands : stands).

(** A session at rest: open, its switches on and untouched. *)
Record at_rest (now : HostInstant) w : Prop := {
  rest_open : closed (owner w) = false;
  rest_clock : clock (owner w) <= now;
  rest_monitor : monitor w = a;
  rest_schedule : schedule w = [];
  rest_states : switch_states (owner w) = switches w;
  rest_local : enabled_state (fst (switches w)) = true;
  rest_peer : enabled_state (snd (switches w)) = true }.

Lemma check_rest now w : at_rest now w -> now < D ->
  check now w = (Ok D, note (Checked now) (on_owner (fun s => s <| clock := now |>) w)).
Proof using Hstands.
  intros [R1 R2 R3 R4 R5 R6 R7] Hn. destruct (Hstands now Hn) as [Hd _]. destruct w as [[] mo [s0 s1] sc sk lg]. cbn in *. subst.
  unfold check, refuse_if, gets, modify, mbind, M_bind. cbn. replace (now <? _) with false by lia.
  unfold method, ask, method. cbn. rewrite Hd. cbn. unfold check_switches, state, is_enabled, state, interfere, modify, gets, mbind, M_bind. cbn.
  rewrite bool_decide_eq_true_2 by done. cbn. rewrite R6. cbn. rewrite R7. done.
Qed.

Definition checked (now : HostInstant) w : W := note (Checked now) (on_owner (fun s => s <| clock := now |>) w).

Lemma checked_rest now later w : at_rest now w -> now <= later -> at_rest later (checked now w).
Proof using Type. intros [R1 R2 R3 R4 R5 R6 R7] Hl. by split. Qed.

Lemma maintain_rest now w : at_rest now w -> now < D -> (forall v, incoming (owner w) = Some v -> now < deadline v) ->
  maintain now w = (Ok tt, checked now w).
Proof using Hstands.
  intros HR Hn Hv. unfold maintain, method. rewrite (check_rest now w HR Hn).
  change (incoming (owner (note (Checked now) (on_owner (fun s => s <| clock := now |>) w)))) with (incoming (owner w)).
  destruct (incoming (owner w)) as [v|]; cbn [is_some_and]; [|done]. specialize (Hv v eq_refl). by replace (deadline v <=? now) with false by lia.
Qed.

Lemma begin_rest b now w : at_rest now w -> now < D -> now + 3000000 <= u64_max -> check_begin b (owner w) = Ok tt ->
  begin true b now w =
    (Ok tt, let dl := Z.min (Z.min (now + 3000000) D) u64_max in
      note (Began b now dl) (on_owner (fun s => s <| incoming := Some (mk_incoming b [] 0 dl (local_revision s)) |>)
        (on_owner (fun s => s <| received_floor := sequence (stamp b) |>) (checked now w)))).
Proof using Hstands.
  intros HR Hn Hmax Hb. unfold begin, begin_before. unfold mbind at 1, M_bind at 1. rewrite (check_rest now w HR Hn).
  unfold mbind at 1, M_bind at 1. unfold ask, method. change (monitor (note _ (on_owner _ w))) with (monitor w). rewrite (rest_monitor _ _ HR).
  rewrite (proj2 (Hstands now Hn)).
  change (note (Checked now) (on_owner (fun s => s <| clock := now |>) w)) with (checked now w).
  assert ((checked now w) <| monitor := a |> = checked now w) as ->.
  { rewrite <- (rest_monitor _ _ HR). by destruct w. }
  unfold readr, lift, HostTime.instant_add, checked_add, modify, refuse_if, mbind, M_bind.
  change (check_begin b (owner (checked now w))) with (check_begin b (owner w)). rewrite Hb. cbn [fst snd].
  replace (now + 3000000 <=? u64_max) with true by lia. cbn [ok_or].
  destruct (Z.leb_spec (Z.min (Z.min (now + 3000000) D) u64_max) now); [lia|]. done.
Qed.

Lemma chunk_rest st index offset bs now w v : at_rest now w -> now < D -> incoming (owner w) = Some v -> now < deadline v ->
  stamp (begin_of v) = st -> Z.of_nat (length (text v)) + Z.of_nat (length bs) <= u64_max -> misplaced index offset bs v = false ->
  chunk st index offset bs now w =
    (Ok tt, note (Appended st index offset bs)
      (on_owner (fun s => s <| incoming := Some (v <| text := text v ++ bs |> <| next_chunk := next_chunk v + 1 |>) |>) (checked now w))).
Proof using Hstands.
  intros HR Hn Hv Hd Hst Hlen Hm. unfold chunk. unfold mbind at 1, M_bind at 1. rewrite maintain_rest; [|done|done|intros ? ?; congruence].
  unfold readr, lift, checked_add, modify, refuse_if, mbind, M_bind.
  change (incoming (owner (checked now w))) with (incoming (owner w)). rewrite Hv. cbn [ok_or]. rewrite bool_decide_eq_true_2 by done. cbn [negb].
  replace (_ <=? u64_max) with true by lia. cbn [ok_or]. by rewrite Hm.
Qed.

(** The last step, from the first reading of the clock to the receipt. *)
Lemma commit_rest st total first second w v : at_rest first w -> first <= second < D ->
  incoming (owner w) = Some v -> second < deadline v -> stamp (begin_of v) = st ->
  (forall r x, published (owner w) = Some (r, x) -> r_stamp r <> st) ->
  total = total_bytes (begin_of v) -> total = Z.of_nat (length (text v)) -> next_chunk v = chunks (begin_of v) ->
  at_revision v = local_revision (owner w) -> is_some (from_utf8 (text v)) = true ->
  fst (sink_prepare (text v) st (sink w)) = Ok tt ->
  exists w', commit st total first second w
      = (Ok (mk_receipt st (fst (sink_publish_until (text v) st (Z.min (deadline v) D) (snd (sink_prepare (text v) st (sink w)))))), w')
    /\ sink w' = sink_cancel_prepared (snd (sink_publish_until (text v) st (Z.min (deadline v) D) (snd (sink_prepare (text v) st (sink w))))).
Proof using Hstands.
  intros HR Hn Hv Hd Hst Hpub Ht1 Ht2 Hch Hrev Hu Hprep. unfold commit. unfold mbind at 1, M_bind at 1. rewrite maintain_rest; [|done|lia|intros ? ?; simplify_eq; lia].
  unfold gets at 1. unfold mbind at 1, M_bind at 1. change (published (owner (checked first w))) with (published (owner w)).
  assert (match published (owner w) with Some (r, t) => if bool_decide (r_stamp r = st) then Some (r, t) else None | None => None end = None) as ->.
  { destruct (published (owner w)) as [[r x]|]; [|done]. rewrite bool_decide_eq_false_2; [done|by apply (Hpub r x)]. }
  unfold readr, lift, modify, refuse_if. unfold mbind, M_bind. change (incoming (owner (checked first w))) with (incoming (owner w)). rewrite Hv. cbn [ok_or].
  rewrite bool_decide_eq_true_2 by done. cbn [negb]. replace (total =? total_bytes (begin_of v)) with true by lia.
  replace (total =? Z.of_nat (length (text v))) with true by lia. replace (next_chunk v =? chunks (begin_of v)) with true by lia. cbn [negb orb].
  change (local_revision (owner (on_owner _ (checked first w)))) with (local_revision (owner w)). replace (at_revision v =? local_revision (owner w)) with true by lia. cbn [negb].
  destruct (from_utf8 (text v)) as [sc|]; [|done]. cbn [ok_or]. unfold publish, method. unfold mbind at 1, M_bind at 1. rewrite Hst.
  change (sink (on_owner _ (checked first w))) with (sink w). destruct (sink_prepare (text v) st (sink w)) as [r k]. cbn [fst snd] in *. subst r. cbn [map_err].
  unfold gets. unfold mbind at 1, M_bind at 1. unfold mbind at 1, M_bind at 1. rewrite check_rest; [| |lia].
  2:{ destruct HR as [R1 R2 R3 R4 R5 R6 R7]. split; try done. change (first <= second). lia. }
  unfold refuse_if, mbind, M_bind. replace (deadline v <=? second) with false by lia.
  change (sink (note _ (on_owner _ ?x))) with (sink x). change (sink (?x <| sink := k |>)) with k.
  destruct (sink_publish_until (text v) st (Z.min (deadline v) D) k) as [pub k']. eexists. split; [reflexivity|]. done.
Qed.

(** Readings of the clock that do not go back and stay before a limit. *)
Fixpoint in_time (from limit : HostInstant) (readings : list (HostInstant * HostInstant)) : bool :=
  match readings with
  | [] => true
  | (first, second) :: rest => (from <=? first) && (first <=? second) && (second <? limit) && in_time first limit rest
  end.

Lemma at_rest_later now later w : at_rest now w -> now <= later -> at_rest later w.
Proof using Type. intros [R1 R2 R3 R4 R5 R6 R7] Hl. split; try done. lia. Qed.

Lemma in_time_cons from limit x rest : in_time from limit (x :: rest) = true ->
  from <= fst x /\ fst x <= snd x < limit /\ in_time (fst x) limit rest = true.
Proof using Type. destruct x as [t1 t2]. cbn. rewrite !andb_true_iff, !Z.leb_le, Z.ltb_lt. tauto. Qed.

Section item.
Context (t : bytes) (st : Stamp) (c : Context) (l : Limits.ProtocolLimits) (stride n : Z).
Context (Hbytes : Forall is_byte t) (Hst : fits u128_max (id st) /\ fits u64_max (sequence st)) (Hc : ClipboardMsgProps.context_typed c).
Context (Hstride : 0 < stride <= MAX_CHUNK_BYTES) (Hroom : stride + CHUNK_OVERHEAD <= control_bytes l)
  (Hn : n = Media.div_ceil (Z.of_nat (length t)) stride) (Hend : validate_context c = Ok (source st)) (Hlen : Z.of_nat (length t) <= u32_max)
  (Hv : Clipboard.validate (mk_begin (scope c) st (Z.of_nat (length t)) n) l = Ok tt) (Husize : control_bytes l <= usize_max).
Abbreviation s0 := (ClipboardSenderProps.fresh t st c l stride n).
Abbreviation bgn := (mk_begin (scope c) st (Z.of_nat (length t)) n).

(** The item after [k] chunks. *)
Definition collecting (k : Z) (dl : HostInstant) (sk : Sk) w : Prop :=
  binding (owner w) = scope c /\ sink w = sk /\ (forall r x, published (owner w) = Some (r, x) -> r_stamp r <> st)
  /\ incoming (owner w) = Some (mk_incoming bgn (take (Z.to_nat (Z.min (k * stride) (Z.of_nat (length t)))) t) k dl (local_revision (owner w))).

(** One round, by what the sender has to say. *)
Definition handle (b : Body) (t1 t2 : HostInstant) : M W Error (option Receipt) :=
  match b with
  | MBegin total k => _ ← begin_before true (mk_begin (scope c) st total k) t1 u64_max; mret None
  | MChunk index offset data => _ ← chunk st index offset data t1; mret None
  | MCommit total => r ← commit st total t1 t2; mret (Some r)
  | MCancel _ => _ ← cancel st; mret None
  end.

Lemma send_one_says j b w w' r results t1 t2 :
  Z.of_nat j <= n + 1 -> ClipboardSender.next_body (ClipboardSenderProps.after j s0) = Ok b -> ClipboardSenderProps.says t stride n b ->
  binding (owner w) = scope c -> handle b t1 t2 w = (r, w') ->
  send_one (ClipboardSenderProps.after j s0, w, results) (t1, t2) =
    (ClipboardSenderProps.after (S j) s0, w', results ++ [map_err RClipboard r]).
Proof using Hbytes Hst Hc Hstride Hroom Hn Hend Hlen Hv Husize.
  intros Hj Hb Hs Hbi Hh. change (ClipboardSenderProps.after (S j) s0) with (ClipboardSender.accepted (ClipboardSenderProps.after j s0)). unfold send_one, ClipboardSender.encode_next. rewrite Hb.
  pose proof (ClipboardSenderProps.after_step t st c l stride n Hstride Hn Hv j Hj) as Ea. rewrite Ea.
  cbn [ClipboardSender.finished ClipboardSender.begin ClipboardSender.context ClipboardSender.limits ClipboardSenderProps.fresh upd setter stamp].
  assert (0 <= control_bytes l) by (unfold CHUNK_OVERHEAD, COMMON_BYTES in *; lia).
  destruct (ClipboardSenderProps.encoded_decodes t st c l stride n Hbytes Hst Hc Hstride Hroom Hn Hend Hlen Hv b (zeros (Z.to_nat (control_bytes l))) Hs)
    as (size & out' & Ee & Ed); [unfold zeros; rewrite length_replicate; lia|].
  rewrite Ee. cbn. unfold receive, receive_before. rewrite bool_decide_eq_true_2 by done. cbn [negb]. rewrite Ed. cbn [body m_stamp].
  unfold handle in Hh. by rewrite Hh.
Qed.

Lemma prefix_length k : 0 <= k <= n -> Z.of_nat (length (take (Z.to_nat (Z.min (k * stride) (Z.of_nat (length t)))) t)) = Z.min (k * stride) (Z.of_nat (length t)).
Proof using Hstride Hlen. intros Hk. rewrite length_take. nia. Qed.

Lemma prefix_piece k : 0 <= k < n ->
  take (Z.to_nat (Z.min (k * stride) (Z.of_nat (length t)))) t ++ ClipboardSenderProps.piece t stride k
  = take (Z.to_nat (Z.min ((k + 1) * stride) (Z.of_nat (length t)))) t.
Proof using Hstride Hn Hv Hlen.
  intros Hk. pose proof (ClipboardSenderProps.piece_count_bounds t st c l stride n Hstride Hn Hv) as (_ & _ & Hlast & _).
  assert (k * stride < Z.of_nat (length t)) by nia. rewrite Z.min_l by lia. unfold ClipboardSenderProps.piece, slice.
  rewrite take_take_drop. f_equal. nia.
Qed.

Lemma collect_one k dl sk w t1 : at_rest t1 w -> t1 < D -> t1 < dl -> 0 <= k < n -> collecting k dl sk w ->
  exists w', handle (MChunk k (k * stride) (ClipboardSenderProps.piece t stride k)) t1 t1 w = (Ok None, w')
    /\ at_rest t1 w' /\ collecting (k + 1) dl sk w'.
Proof using Hstands Hstride Hn Hv Hlen.
  intros HR HD Hdl Hk (Hbi & Hsk & Hpub & Hin). pose proof (prefix_length k ltac:(lia)) as Hpl.
  pose proof (ClipboardSenderProps.piece_count_bounds t st c l stride n Hstride Hn Hv) as (_ & _ & Hlast & _).
  pose proof (ClipboardSenderProps.piece_length t stride Hstride k ltac:(lia)) as Hpc.
  assert (k * stride < Z.of_nat (length t)) as Hkl by nia.
  cbn [handle]. unfold mbind, M_bind. rewrite (chunk_rest st _ _ _ t1 w _ HR HD Hin Hdl); [|done|cbn [text]; unfold u32_max, u64_max in *; lia|].
  - eexists. split; [reflexivity|]. split; [by destruct HR as [R1 R2 R3 R4 R5 R6 R7]; split|]. unfold collecting. split_and!; try done.
    change (Some (mk_incoming bgn (take (Z.to_nat (Z.min (k * stride) (Z.of_nat (length t)))) t ++ ClipboardSenderProps.piece t stride k) (k + 1) dl (local_revision (owner w)))
      = Some (mk_incoming bgn (take (Z.to_nat (Z.min ((k + 1) * stride) (Z.of_nat (length t)))) t) (k + 1) dl (local_revision (owner w)))).
    by rewrite prefix_piece.
  - unfold misplaced. cbn [text next_chunk begin_of chunks total_bytes]. rewrite Hpl.
    destruct (Z.eqb_spec k k); [|done]. cbn [negb orb]. rewrite Z.min_l by lia. rewrite Z.eqb_refl. cbn [negb orb].
    destruct (Z.leb_spec n k); [lia|]. destruct (Z.eqb_spec (Z.of_nat (length (ClipboardSenderProps.piece t stride k))) 0); [lia|]. cbn [orb].
    destruct (Z.ltb_spec MAX_CHUNK_BYTES (Z.of_nat (length (ClipboardSenderProps.piece t stride k)))); [lia|]. cbn [orb]. lia.
Qed.

(** All the chunks. *)
Lemma collect_all rest dl sk k from w results :
  Z.of_nat (length rest) = n - k -> 0 <= k -> in_time from (Z.min dl D) rest = true -> at_rest from w -> collecting k dl sk w ->
  exists w' from', foldl send_one (ClipboardSenderProps.after (S (Z.to_nat k)) s0, w, results) rest
      = (ClipboardSenderProps.after (S (Z.to_nat n)) s0, w', results ++ replicate (length rest) (Ok None))
    /\ at_rest from' w' /\ collecting n dl sk w' /\ forall more, in_time from (Z.min dl D) (rest ++ more) = true -> in_time from' (Z.min dl D) more = true.
Proof using Hstands Hbytes Hst Hc Hstride Hroom Hn Hend Hlen Hv Husize.
  revert k from w results. induction rest as [|[t1 t2] rest IH]; intros k from w results Hl Hk Hin HR HC.
  - cbn [length] in Hl. replace k with n in * by lia. exists w, from. cbn. by rewrite app_nil_r.
  - apply in_time_cons in Hin as (H1 & H2 & Hin). cbn [fst snd length] in *.
    pose proof (at_rest_later _ t1 _ HR H1) as HR1.
    destruct (ClipboardSenderProps.next_body_says t st c l stride n Hstride Hn Hlen Hv (S (Z.to_nat k))) as (b & Hb & Hs & Eb); [lia|].
    cbn [Nat.eqb] in Eb. destruct (Z.leb_spec (Z.of_nat (S (Z.to_nat k))) n); [|lia].
    replace (Z.of_nat (S (Z.to_nat k)) - 1) with k in Eb by lia. subst b.
    destruct (collect_one k dl sk w t1) as (w1 & Eh & HR2 & HC2); [done|lia|lia|lia|done|].
    cbn [foldl]. rewrite (send_one_says (S (Z.to_nat k)) (MChunk k (k * stride) (ClipboardSenderProps.piece t stride k)) w w1 (Ok None) results t1 t2); [|lia|exact Hb|exact Hs|apply HC|exact Eh].
    replace (S (S (Z.to_nat k))) with (S (Z.to_nat (k + 1))) by lia.
    destruct (IH (k + 1) t1 w1 (results ++ [Ok None])) as (w2 & from' & E2 & HR3 & HC3 & Hm); [lia|lia|done|done|done|].
    exists w2, from'. cbn [map_err]. rewrite E2, <- app_assoc. split_and!; try done.
    intros more Hmore. apply Hm. cbn [app] in Hmore. by apply in_time_cons in Hmore as (_ & _ & ?).
Qed.

(** The session is ready for the item. *)
Definition awaits w : Prop :=
  binding (owner w) = scope c /\ limits (owner w) = l /\ source st = opposite (local (owner w))
  /\ received_floor (owner w) < sequence st /\ incoming (owner w) = None
  /\ (forall r x, published (owner w) = Some (r, x) -> r_stamp r <> st).

Lemma start_item w t0 u0 : awaits w -> at_rest t0 w -> t0 < D -> t0 + 3000000 <= u64_max ->
  exists w', send_one (s0, w, []) (t0, u0) = (ClipboardSenderProps.after 1 s0, w', [Ok None])
    /\ at_rest t0 w' /\ collecting 0 (Z.min (t0 + 3000000) D) (sink w) w'.
Proof using Hstands Hbytes Hst Hc Hstride Hroom Hn Hend Hlen Hv Husize.
  intros (Hbi & Hli & Hso & Hfl & Hin & Hpub) HR HD Hmax.
  pose proof (ClipboardSenderProps.piece_count_bounds t st c l stride n Hstride Hn Hv) as ([Hn0 _] & _).
  assert (check_begin bgn (owner w) = Ok tt) as Hb.
  { unfold check_begin. rewrite Hli, Hv. cbn [mbind Result_bind b_binding stamp]. rewrite bool_decide_eq_true_2 by done. cbn [negb].
    rewrite bool_decide_eq_true_2 by done. cbn [negb]. replace (sequence st <=? received_floor (owner w)) with false by lia. by rewrite Hin. }
  pose proof (begin_rest bgn t0 w HR HD Hmax Hb) as E. eexists. split.
  { apply (send_one_says 0 (MBegin (Z.of_nat (length t)) n) w _ (Ok None) [] t0 u0); [lia|done|done|done|].
    cbn [handle]. unfold begin in E. unfold mbind, M_bind. rewrite E. reflexivity. }
  cbv zeta. replace (Z.min (Z.min (t0 + 3000000) D) u64_max) with (Z.min (t0 + 3000000) D) by lia.
  split; [destruct HR as [R1 R2 R3 R4 R5 R6 R7]; split; done|].
  unfold collecting. split_and!; try done. by replace (Z.min (0 * stride) (Z.of_nat (length t))) with 0 by lia.
Qed.

Lemma finish_item w t1 t2 dl sk results : at_rest t1 w -> t1 <= t2 < Z.min dl D -> collecting n dl sk w ->
  is_some (from_utf8 t) = true -> fst (sink_prepare t st sk) = Ok tt ->
  let k := snd (sink_prepare t st sk) in let until := Z.min dl D in
  exists w', send_one (ClipboardSenderProps.after (S (Z.to_nat n)) s0, w, results) (t1, t2)
      = (ClipboardSenderProps.after (S (S (Z.to_nat n))) s0, w', results ++ [Ok (Some (mk_receipt st (fst (sink_publish_until t st until k))))])
    /\ sink w' = sink_cancel_prepared (snd (sink_publish_until t st until k)).
Proof using Hstands Hbytes Hst Hc Hstride Hroom Hn Hend Hlen Hv Husize.
  intros HR Ht (Hbi & Hsk & Hpub & Hin) Hu Hp k until.
  pose proof (ClipboardSenderProps.piece_count_bounds t st c l stride n Hstride Hn Hv) as ([Hn0 _] & Hcov & _).
  rewrite Z.min_r in Hin by lia. rewrite Nat2Z.id, take_ge in Hin by done.
  destruct (commit_rest st (Z.of_nat (length t)) t1 t2 w _ HR ltac:(lia) Hin) as (w' & Ec & Es); cbn [deadline begin_of text next_chunk at_revision stamp total_bytes chunks]; try done; try lia.
  { by rewrite Hsk. }
  cbn [deadline text] in Ec, Es. rewrite Hsk in Ec, Es.
  destruct (ClipboardSenderProps.next_body_says t st c l stride n Hstride Hn Hlen Hv (S (Z.to_nat n))) as (b & Hb & Hs & Eb); [lia|].
  cbn [Nat.eqb] in Eb. destruct (Z.leb_spec (Z.of_nat (S (Z.to_nat n))) n); [lia|]. subst b.
  exists w'. split; [|exact Es].
  rewrite (send_one_says (S (Z.to_nat n)) (MCommit (Z.of_nat (length t))) w w' (Ok (Some (mk_receipt st (fst (sink_publish_until t st until k))))) results t1 t2);
    [done|lia|exact Hb|exact Hs|exact Hbi|].
  cbn [handle]. unfold mbind, M_bind. by rewrite Ec.
Qed.

End item.

(** C24. A text that is sent arrives.  Let a sender be made for a UTF-8 text, and let the
    session at the other end be at rest under a standing authority, waiting for an item
    of this scope.  If every record the sender writes is delivered in turn, at times
    within three seconds of the first and before the authority ends, and the platform
    can prepare the text, then every record but the last is accepted silently, the last
    returns the receipt of exactly this text, published with the deadline that was
    fixed at the start, and the sender is finished. *)
Theorem sent_text_arrives reserve t st c l s w first rest :
  Forall is_byte t -> is_some (from_utf8 t) = true -> fits u128_max (id st) -> fits u64_max (sequence st) ->
  ClipboardMsgProps.context_typed c -> control_bytes l <= usize_max ->
  ClipboardSender.new reserve t st c l = Ok s -> awaits st c l w -> at_rest (fst first) w ->
  Z.of_nat (length rest) = chunks (ClipboardSender.begin s) + 1 ->
  in_time (fst first) (Z.min (fst first + 3000000) D) (first :: rest) = true -> fst first + 3000000 <= u64_max ->
  fst (sink_prepare t st (sink w)) = Ok tt ->
  let until := Z.min (fst first + 3000000) D in
  let published := sink_publish_until t st until (snd (sink_prepare t st (sink w))) in
  exists s' w', send_all (first :: rest) s w = (s', w', replicate (length rest) (Ok None) ++ [Ok (Some (mk_receipt st (fst published)))])
    /\ ClipboardSender.finished s' = true /\ sink w' = sink_cancel_prepared (snd published).
Proof using Hstands.
  intros Ht Hu Hid Hsq Hc Hus Hnew Haw HR Hlr Hin Hmax Hp until pub.
  apply ClipboardSenderProps.new_Ok in Hnew as (stride & n & Hstride & Hroom & Hn & Hend & Hlen & Hv & ->).
  change (chunks (ClipboardSender.begin _)) with n in Hlr. destruct first as [t0 u0]. cbn [fst] in *.
  apply in_time_cons in Hin as Hin'. destruct Hin' as (_ & H2 & Hrest). cbn [fst snd] in *.
  destruct (start_item t st c l stride n Ht (conj Hid Hsq) Hc Hstride Hroom Hn Hend Hlen Hv Hus w t0 u0 Haw HR ltac:(lia) Hmax) as (w1 & E1 & HR1 & HC1).
  pose proof (ClipboardSenderProps.piece_count_bounds t st c l stride n Hstride Hn Hv) as ([Hn0 _] & _).
  destruct rest as [|x rest _] using rev_ind; [cbn in Hlr; lia|]. rewrite length_app in Hlr. cbn [length] in Hlr.
  assert (in_time t0 (Z.min until D) (rest ++ [x]) = true) as Hrest' by (unfold until; by replace (Z.min (Z.min (t0 + 3000000) D) D) with (Z.min (t0 + 3000000) D) by lia).
  assert (in_time t0 (Z.min until D) rest = true) as Hrest1.
  { clear - Hrest'. revert Hrest'. generalize t0. induction rest as [|[t1 t2] rest IH]; intros from; [done|]. cbn. rewrite !andb_true_iff. intros [? Hr]. split; [done|]. by apply IH. }
  destruct (collect_all t st c l stride n Ht (conj Hid Hsq) Hc Hstride Hroom Hn Hend Hlen Hv Hus rest until (sink w) 0 t0 w1 [Ok None])
    as (w2 & from' & E2 & HR2 & HC2 & Hm); [lia|lia|done|done|done|].
  specialize (Hm [x] Hrest'). apply in_time_cons in Hm as (H3 & H4 & _). destruct x as [t1 t2]. cbn [fst snd] in *.
  destruct (finish_item t st c l stride n Ht (conj Hid Hsq) Hc Hstride Hroom Hn Hend Hlen Hv Hus w2 t1 t2 until (sink w) (Ok None :: replicate (length rest) (Ok None)))
    as (w3 & E3 & Hs3); [by eapply at_rest_later|lia|done|done|done|].
  replace (Z.min until D) with until in * by (unfold until; lia).
  exists (ClipboardSenderProps.after (S (S (Z.to_nat n))) (ClipboardSenderProps.fresh t st c l stride n)), w3.
  split_and!; [|by apply ClipboardSenderProps.after_end; [..|lia]|exact Hs3].
  unfold send_all. cbn [foldl]. fold (ClipboardSenderProps.fresh t st c l stride n). rewrite E1, foldl_app.
  change (ClipboardSenderProps.after 1) with (ClipboardSenderProps.after (S (Z.to_nat 0))). rewrite E2. cbn [foldl app].
  rewrite E3. rewrite length_app. cbn [length]. by rewrite Nat.add_1_r.
Qed.

End delivery.

(** ** Witnesses *)

(** An authority with a fixed end and a clipboard that keeps what it is given. *)
Inductive Fixed := fixed (until : HostInstant).
Definition fixed_deadline (now : HostInstant) (f : Fixed) : Result Refusal HostInstant * Fixed :=
  match f with fixed until => (if now <? until then Ok until else Err RRevoked, f) end.
#[local] Instance fixed_authority : Authority Fixed := {|
  au_binding := fun _ => mk_binding 7 9; au_deadline := fixed_deadline; au_item_deadline := fixed_deadline; au_revoke := fun _ => fixed 0 |}.
Inductive Board := board (items : list (Stamp * bytes)).
#[local] Instance board_sink : ClipboardSink Board := {|
  sink_prepare := fun _ _ k => (Ok tt, k);
  sink_publish_until := fun t st _ k => match k with board items => (SubmittedToOs, board (items ++ [(st, t)])) end;
  sink_cancel_prepared := fun k => k |}.

Definition demo_limits : Limits.ProtocolLimits := Limits.demo_limits.
Definition demo_context : Context := mk_context (mk_binding 7 9) 3 RoleController LaneClipboard.
Definition demo_stamp (n : Z) : Stamp := mk_stamp (40 + n) ControllerEnd n.
(** "copied" in UTF-8. *)
Definition demo_text : bytes := [99; 111; 112; 105; 101; 100].
Definition demo_start {Sk} `{ClipboardSink Sk} (k : Sk) : Result Error unit * World Fixed Sk :=
  with_monitor (fixed 5000000) HostEnd demo_limits true 1000 [] k.

Definition demo_item (n : Z) (at_ : HostInstant) : list Op :=
  [DoBegin true (mk_begin (mk_binding 7 9) (demo_stamp n) 6 2) at_ u64_max;
   DoChunk (demo_stamp n) 0 0 (take 4 demo_text) (at_ + 10);
   DoChunk (demo_stamp n) 1 4 (drop 4 demo_text) (at_ + 20);
   DoCommit (demo_stamp n) 6 (at_ + 30) (at_ + 40)].
Definition demo_log : list (Event Fixed) := Eval vm_compute in
  log (run (demo_item 1 2000 ++ demo_item 2 3000) (snd (demo_start (board [])))).

Definition demo_ops : list Op := demo_item 1 2000 ++ demo_item 2 3000.
Definition demo_session0 : World Fixed Board := snd (demo_start (board [])).

Lemma published_text_is_one_item_witness : exists l1 p l2,
  log (run demo_ops demo_session0) = l1 ++ Published p :: l2 /\ p_text p = demo_text /\ justified (fixed 5000000) HostEnd demo_limits l1 p.
Proof.
  exists (take 9 demo_log). eexists _, (drop 10 demo_log).
  match goal with |- ?P /\ _ => assert P as E by (vm_compute; reflexivity) end. split; [exact E|]. split; [reflexivity|].
  apply (published_text_is_one_item (fixed 5000000) HostEnd demo_limits true 1000 [] (board []) demo_session0 demo_ops _ _ (drop 10 demo_log)).
  - vm_compute. reflexivity.
  - exact E.
Defined.

Lemma publications_ascend_witness : exists l1 p l2 q,
  log (run demo_ops demo_session0) = l1 ++ Published p :: l2 ++ Published q :: [] /\ sequence (p_stamp p) < sequence (p_stamp q).
Proof.
  exists (take 9 demo_log). eexists _, (take 8 (drop 10 demo_log)), _.
  match goal with |- ?P /\ _ => assert P as E by (vm_compute; reflexivity) end. split; [exact E|].
  apply (publications_ascend (fixed 5000000) HostEnd demo_limits true 1000 [] (board []) demo_session0 demo_ops (take 9 demo_log) _ (take 8 (drop 10 demo_log)) _ []).
  - vm_compute. reflexivity.
  - exact E.
Defined.

(** The host's own authority: a controlling session that receives one item. *)
Definition host_item : list Op :=
  [DoBegin true (mk_begin (mk_binding 1 2) (demo_stamp 1) 6 1) 2000 u64_max; DoChunk (demo_stamp 1) 0 0 demo_text 2010;
   DoCommit (demo_stamp 1) 6 2020 2030].

Lemma host_publication_is_authorized_witness : exists u w, demo_world = Some u
  /\ with_monitor u HostEnd demo_limits true 1000 [] (board []) = (Ok tt, w)
  /\ exists p, log (run host_item w) !! 7%nat = Some (Published p)
     /\ revoked (p_after p) = false /\ p_until p <= p_authority p
     /\ lease_id (authority_locked (p_before p)) = Some (is_lease (own u))
     /\ native_owner (authority_locked (p_before p)) = Some (native_ident (own u))
     /\ fst (control_status (p_at p) (authority_locked (p_before p))) = Ok (Live (p_authority p))
     /\ p_at p < p_authority p.
Proof.
  eexists _, _. split; [vm_compute; reflexivity|].
  match goal with |- ?P /\ _ => assert P as E by (vm_compute; reflexivity) end. split; [exact E|].
  match goal with |- exists p, log ?x !! _ = _ /\ _ => set (l := log x) end.
  eexists. split; [vm_compute; reflexivity|].
  match goal with |- revoked (p_after ?p) = _ /\ _ =>
    destruct (host_publication_is_authorized _ _ _ _ _ _ _ _ host_item (take 7 l) p (drop 8 l) E)
      as (_ & _ & H1 & H2 & H3 & H4 & H5 & _ & _ & (? & ? & _ & _ & H6 & _))
  end; [vm_compute; reflexivity|].
  exact (conj H1 (conj H2 (conj H3 (conj H4 (conj H5 H6))))).
Defined.

(** A sender, and its three records received. *)
Definition demo_sender : Result WireError ClipboardSender.Sender := ClipboardSender.new true demo_text (demo_stamp 1) demo_context demo_limits.
Definition sender0 : ClipboardSender.Sender := match demo_sender with Ok s => s | Err _ => ClipboardSenderProps.fresh [] (demo_stamp 1) demo_context demo_limits 1 0 end.
Definition demo_record (j : nat) : bytes :=
  match ClipboardSender.encode_next (ClipboardSenderProps.after j sender0) (zeros 16384) with
  | (Ok (Some n), out) => take (Z.to_nat n) out
  | _ => []
  end.
Definition received_ops : list Op :=
  [DoReceive true (demo_record 0) demo_context demo_limits 2000 2000 u64_max;
   DoReceive true (demo_record 1) demo_context demo_limits 2010 2010 u64_max;
   DoReceive true (demo_record 2) demo_context demo_limits 2020 2030 u64_max].

Lemma demo_produced j : (exists n, fst (ClipboardSender.encode_next (ClipboardSenderProps.after j sender0) (zeros 16384)) = Ok (Some n)) ->
  ClipboardSenderProps.produced sender0 (demo_record j).
Proof.
  intros [n Hn]. unfold demo_record. destruct (ClipboardSender.encode_next _ _) as [r out] eqn:E. cbn [fst] in Hn. subst r.
  exists j, (zeros 16384), n, out. split; [vm_compute; split; discriminate|]. by split.
Qed.

Lemma received_honest : Forall (honest sender0) received_ops.
Proof.
  unfold received_ops. repeat (apply Forall_cons_2); [| | |apply Forall_nil_2];
    (intros m _ _; right; split; [reflexivity|]; split; [reflexivity|]; apply demo_produced; vm_compute; eexists; reflexivity).
Qed.

Lemma copied_text_is_published_text_witness : exists w p, demo_start (board []) = (Ok tt, w)
  /\ log (run received_ops w) !! 7%nat = Some (Published p) /\ p_text p = demo_text.
Proof.
  eexists. eexists. match goal with |- ?P /\ _ => assert P as E by (vm_compute; reflexivity) end. split; [exact E|].
  match goal with |- log ?x !! _ = _ /\ _ => set (l := log x) end. split; [vm_compute; reflexivity|].
  eapply (copied_text_is_published_text true demo_text (demo_stamp 1) demo_context demo_limits sender0 (fixed 5000000) HostEnd demo_limits true 1000 []
    (board []) _ received_ops (take 7 l) _ (drop 8 l)).
  - vm_compute. repeat constructor; discriminate.
  - vm_compute. split; discriminate.
  - vm_compute. split; discriminate.
  - vm_compute. repeat split; discriminate.
  - vm_compute. reflexivity.
  - exact E.
  - exact received_honest.
  - vm_compute. reflexivity.
  - reflexivity.
Defined.

Lemma demo_stands : stands (fixed 5000000) 5000000.
Proof. intros now Hn. cbn. replace (now <? 5000000) with true by lia. done. Qed.

Lemma sent_text_arrives_witness : exists w s' w', demo_start (board []) = (Ok tt, w)
  /\ send_all [(2000, 2000); (2010, 2010); (2020, 2030)] sender0 w
     = (s', w', [Ok None; Ok None; Ok (Some (mk_receipt (demo_stamp 1) SubmittedToOs))])
  /\ sink w' = board [(demo_stamp 1, demo_text)].
Proof.
  eexists. match goal with |- exists s' w', ?P /\ _ => assert P as E by (vm_compute; reflexivity) end.
  match type of E with _ = (_, ?w) =>
    destruct (sent_text_arrives (fixed 5000000) 5000000 demo_stands true demo_text (demo_stamp 1) demo_context demo_limits sender0 w
      (2000, 2000) [(2010, 2010); (2020, 2030)]) as (s' & w' & H1 & _ & H2)
  end; [vm_compute; repeat constructor; discriminate|reflexivity|vm_compute; split; discriminate|vm_compute; split; discriminate
       |vm_compute; repeat split; discriminate|vm_compute; discriminate|vm_compute; reflexivity
       |unfold awaits; vm_compute; split_and!; try reflexivity; discriminate|split; vm_compute; try reflexivity; discriminate|reflexivity
       |vm_compute; reflexivity|vm_compute; discriminate|reflexivity|].
  exists s', w'. split; [exact E|]. split; [exact H1|exact H2].
Defined.

End ClipboardClaims.
