(* ===== verification/Negotiation.v ===== *)
(** * Session negotiation

    [fr-wire/src/negotiation.rs]: the offers of the two endpoints, their intersection,
    the selection and its checks, and the codec of the six startup messages.
    [fr-wire/src/inspection.rs]: the terminal exchange that reads the capabilities of
    a host without opening a session.

    A [String] is its UTF-8 bytes.  [reserve] is the allocator's answer to each
    [try_reserve_exact]. *)

From S2P Require Import Prelude.
From S2P Require Import Limits.
From S2P Require Import Bytes.
From S2P Require Import Utf8.
From S2P Require Import WireRecord.
From S2P Require Import WireInput.
From S2P Require Import WireControl.
From S2P Require Import WireGrant.

Module Negotiation.

Definition MAX_RECORD : Z := 4096.
Definition MAX_CAPABILITIES : Z := 24.
Definition MAX_VERSIONS : Z := 8.
Definition MAX_NAME : Z := 64.
Definition LIMIT_BYTES : Z := 33.
Definition NATIVE_PROFILE : Z := 1.
Definition PROFILE_VERSION : Z := 0.

(** ** Data *)

Inductive Role := Observe | RequestControl.
#[export] Instance Role_eq_dec : EqDecision Role.
Proof. solve_decision. Defined.

Definition role_byte (r : Role) : Z := match r with Observe => 0 | RequestControl => 1 end.

Inductive Error :=
| Wire (e : WireError)
| RefusedBy (r : RefusalMsg.Refused)
| Invalid | LimitsError | Version | Profile | RequiredCapability | SelectionError | Allocation.

Record Capability := mk_cap { c_name : bytes; c_version : Z; c_required : bool }.
#[export] Instance Capability_eq_dec : EqDecision Capability.
Proof. solve_decision. Defined.

Record Offer := mk_offer {
  o_versions : list Z;
  o_profile : Z;
  o_profile_version : Z;
  o_role : Role;
  o_limits : Limits.ProtocolLimits;
  o_capabilities : list Capability }.

Record Selection := mk_selection {
  s_version : Z;
  s_profile : Z;
  s_profile_version : Z;
  s_role : Role;
  s_limits : Limits.ProtocolLimits;
  s_capabilities : list Capability }.

#[export] Instance ProtocolLimits_eq_dec : EqDecision Limits.ProtocolLimits.
Proof. solve_decision. Defined.
#[export] Instance Selection_eq_dec : EqDecision Selection.
Proof. solve_decision. Defined.

Inductive Message :=
| ClientHello (o : Offer)
| HostCapabilities (o : Offer)
| SelectedConfiguration (s : Selection)
| ApprovalRequired (request deadline_us : Z) (role : Role)
| SessionOpened (binding : ControlBinding) (selection : Selection) (observation_until_us : Z)
| BindingAccepted (binding : Z).

Definition kind (m : Message) : Kind :=
  match m with
  | ClientHello _ => WireRecord.ClientHello
  | HostCapabilities _ => WireRecord.HostCapabilities
  | SelectedConfiguration _ => WireRecord.SelectedConfiguration
  | ApprovalRequired _ _ _ => WireRecord.ApprovalRequired
  | SessionOpened _ _ _ => WireRecord.SessionOpened
  | BindingAccepted _ => WireRecord.BindingAccepted
  end.

Definition binding (m : Message) : Z := match m with BindingAccepted b => b | _ => 0 end.

(** The allocations a call may be refused. *)
Inductive Alloc := AVersions | ACapabilities | AIntersection | AMarker.

(** ** Validation *)

(** [a < b] on strings: byte-wise and lexicographic. *)
Fixpoint str_lt (a b : bytes) : bool :=
  match a, b with
  | _, [] => false
  | [], _ :: _ => true
  | x :: a, y :: b => (x <? y) || ((x =? y) && str_lt a b)
  end.

(** [is_ascii_lowercase], [is_ascii_digit], [b".-_"]. *)
Definition name_byte (b : Z) : bool :=
  ((97 <=? b) && (b <=? 122)) || ((48 <=? b) && (b <=? 57)) || (b =? 46) || (b =? 45) || (b =? 95).

Definition len (l : bytes) : Z := Z.of_nat (length l).

Definition bad_cap (previous : option bytes) (c : Capability) : bool :=
  (len (c_name c) =? 0) || (MAX_NAME <? len (c_name c)) || (c_version c =? 0)
  || negb (forallb name_byte (c_name c)) || is_some_and (fun p => negb (str_lt p (c_name c))) previous.

Fixpoint valid_caps_from (previous : option bytes) (caps : list Capability) : Result Error unit :=
  match caps with
  | [] => Ok tt
  | c :: caps => if bad_cap previous c then Err Invalid else valid_caps_from (Some (c_name c)) caps
  end.

Definition valid_caps (caps : list Capability) : Result Error unit :=
  if MAX_CAPABILITIES <? Z.of_nat (length caps) then Err Invalid else valid_caps_from None caps.

Definition valid_limits (l : Limits.ProtocolLimits) : Result Error unit :=
  if Limits.max_control_message_bytes l <? 128 then Err LimitsError else Ok tt.

(** [windows(2).any(|w| w[0] >= w[1])]. *)
Fixpoint descends (l : list Z) : bool :=
  match l with
  | a :: (b :: _) as l => (b <=? a) || descends l
  | _ => false
  end.

Definition validate_offer (o : Offer) : Result Error unit :=
  if (Z.of_nat (length (o_versions o)) =? 0) || (MAX_VERSIONS <? Z.of_nat (length (o_versions o)))
     || descends (o_versions o)
  then Err Version
  else if negb (o_profile o =? NATIVE_PROFILE) || negb (o_profile_version o =? PROFILE_VERSION) then Err Profile
  else _ ← valid_limits (o_limits o); valid_caps (o_capabilities o).

Definition validate_selection (s : Selection) : Result Error unit :=
  if negb (s_version s =? 0) then Err Version
  else if negb (s_profile s =? NATIVE_PROFILE) || negb (s_profile_version s =? PROFILE_VERSION) then Err Profile
  else _ ← valid_limits (s_limits s); valid_caps (s_capabilities s).

(** ** Intersection and selection *)

(** [versions.contains(&v)]. *)
Definition contains (v : Z) (l : list Z) : bool := existsb (fun x => x =? v) l.

(** [p.name == c.name && p.version == c.version]. *)
Definition same_cap (c p : Capability) : bool :=
  bool_decide (c_name p = c_name c) && (c_version p =? c_version c).

(** A capability that [a] requires and [b] lacks. *)
Definition lacks_required (a b : list Capability) : bool :=
  existsb (fun c => c_required c && negb (existsb (same_cap c) b)) a.

Definition common (self peer : list Capability) : list Capability :=
  omap (fun c => p ← find_first (same_cap c) peer;
                 Some (mk_cap (c_name c) (c_version c) (c_required c || c_required p))) self.

Definition intersect (reserve : Alloc -> bool) (self peer : Offer) : Result Error Offer :=
  _ ← validate_offer self;
  _ ← validate_offer peer;
  if negb (contains 0 (o_versions self)) || negb (contains 0 (o_versions peer)) then Err Version
  else if lacks_required (o_capabilities self) (o_capabilities peer)
          || lacks_required (o_capabilities peer) (o_capabilities self) then Err RequiredCapability
  else if negb (reserve AIntersection) then Err Allocation
  else Ok (mk_offer [0] (o_profile self) (o_profile_version self) (o_role peer)
             (Limits.negotiated (o_limits self) (o_limits peer)) (common (o_capabilities self) (o_capabilities peer))).

Definition select (o : Offer) : Result Error Selection :=
  _ ← validate_offer o;
  if negb (contains 0 (o_versions o)) then Err Version
  else Ok (mk_selection 0 (o_profile o) (o_profile_version o) (o_role o) (o_limits o) (o_capabilities o)).

Definition check_host (self host : Offer) : Result Error unit :=
  _ ← validate_offer self;
  _ ← validate_offer host;
  if negb (bool_decide (o_versions host = [0])) || negb (contains 0 (o_versions self))
     || negb (bool_decide (o_role host = o_role self))
     || negb (bool_decide (Limits.negotiated (o_limits host) (o_limits self) = o_limits host))
  then Err SelectionError
  else if existsb (fun c => negb (existsb (same_cap c) (o_capabilities self))) (o_capabilities host)
          || existsb (fun c => c_required c
                && negb (existsb (fun p => same_cap c p && c_required p) (o_capabilities host))) (o_capabilities self)
  then Err RequiredCapability
  else Ok tt.

Definition check_against (self : Selection) (offer : Offer) : Result Error unit :=
  _ ← validate_selection self;
  _ ← validate_offer offer;
  if negb (contains (s_version self) (o_versions offer)) || negb (bool_decide (s_role self = o_role offer))
     || negb (bool_decide (Limits.negotiated (s_limits self) (o_limits offer) = s_limits self))
  then Err SelectionError
  else if existsb (fun c => negb (existsb (fun p => bool_decide (p = c)) (o_capabilities offer))) (s_capabilities self)
          || existsb (fun c => c_required c && negb (existsb (fun p => bool_decide (p = c)) (s_capabilities self))) (o_capabilities offer)
  then Err RequiredCapability
  else Ok tt.

(** ** Reading *)

(** [?] on the result of a record-layer call. *)
Definition wire {S A} (m : M S WireError A) : M S Error A :=
  fun s => let '(r, s') := m s in (map_err Wire r, s').

Definition read_role : M Reader Error Role :=
  b ← wire ru8; match b with 0 => mret Observe | 1 => mret RequestControl | _ => fail Invalid end.

Definition read_cap : M Reader Error Capability :=
  bs ← wire rdata;
  _ ← refuse_if (fun _ => (len bs =? 0) || (MAX_NAME <? len bs)) (fun _ => Invalid);
  _ ← lift (ok_or (from_utf8 bs) Invalid);
  version ← wire ru16;
  tag ← wire ru8;
  match tag with
  | 0 => mret (mk_cap bs version false)
  | 1 => mret (mk_cap bs version true)
  | _ => fail Invalid
  end.

(** [for _ in 0..n]. *)
Fixpoint times {S A} (m : M S Error A) (n : nat) : M S Error (list A) :=
  match n with
  | O => mret []
  | S n => x ← m; l ← times m n; mret (x :: l)
  end.

Definition read_caps (reserve : Alloc -> bool) : M Reader Error (list Capability) :=
  n ← wire ru32;
  _ ← refuse_if (fun r => (MAX_CAPABILITIES <? n) || (len r / 8 <? n)) (fun _ => Invalid);
  _ ← refuse_if (fun _ => negb (reserve ACapabilities)) (fun _ => Allocation);
  result ← times read_cap (Z.to_nat n);
  _ ← lift (valid_caps result);
  mret result.

(** The overrides a peer may send; the other limits keep their default. *)
Definition wire_overrides (control clipboard unit dimension pixels window viewer : Z) : Overrides.LimitOverrides :=
  Overrides.mkOverrides (Some control) (Some clipboard) (Some unit) (Some dimension) (Some pixels) (Some window) (Some viewer)
    None None None None None None None None None None None None None None None None None None None None None None None.

Definition read_limits : M Reader Error Limits.ProtocolLimits :=
  control ← wire ru32; clipboard ← wire ru32; unit ← wire ru32; dimension ← wire ru32;
  pixels ← wire ru64; window ← wire ru8; viewer ← wire ru64;
  lift (map_err (fun _ => LimitsError)
          (Limits.with_overrides (wire_overrides control clipboard unit dimension pixels window viewer))).

Definition read_offer (reserve : Alloc -> bool) : M Reader Error Offer :=
  n ← wire ru32;
  _ ← refuse_if (fun r => (n =? 0) || (MAX_VERSIONS <? n) || (len r / 2 <? n)) (fun _ => Version);
  _ ← refuse_if (fun _ => negb (reserve AVersions)) (fun _ => Allocation);
  versions ← times (wire ru16) (Z.to_nat n);
  profile ← wire ru8; profile_version ← wire ru16; role ← read_role;
  limits ← read_limits; capabilities ← read_caps reserve;
  nonce ← wire ru8;
  _ ← refuse_if (fun _ => negb (nonce =? 0)) (fun _ => Profile);
  let offer := mk_offer versions profile profile_version role limits capabilities in
  _ ← lift (validate_offer offer);
  mret offer.

Definition read_selection (reserve : Alloc -> bool) : M Reader Error Selection :=
  version ← wire ru16; profile ← wire ru8; profile_version ← wire ru16; role ← read_role;
  limits ← read_limits; capabilities ← read_caps reserve;
  let s := mk_selection version profile profile_version role limits capabilities in
  _ ← lift (validate_selection s);
  mret s.

Definition read_message (reserve : Alloc -> bool) (expected_binding : Z) (k : Kind) : M Reader Error Message :=
  match k with
  | WireRecord.ClientHello => o ← read_offer reserve; mret (ClientHello o)
  | WireRecord.HostCapabilities => o ← read_offer reserve; mret (HostCapabilities o)
  | WireRecord.SelectedConfiguration => s ← read_selection reserve; mret (SelectedConfiguration s)
  | WireRecord.ApprovalRequired =>
      request ← wire opaque;
      deadline_us ← wire ru64;
      _ ← refuse_if (fun _ => deadline_us =? 0) (fun _ => Invalid);
      role ← read_role;
      mret (ApprovalRequired request deadline_us role)
  | WireRecord.SessionOpened =>
      host_boot ← wire opaque; os_session ← wire opaque; remote_session ← wire opaque;
      binding_id ← wire ru32;
      _ ← refuse_if (fun _ => binding_id =? 0) (fun _ => Invalid);
      absent ← wire (rtake 8);
      _ ← refuse_if (fun _ => negb (bool_decide (absent = [0; 0; 0; 0; 0; 0; 1; 0]))) (fun _ => Invalid);
      selection ← read_selection reserve;
      observation_until_us ← wire ru64;
      _ ← refuse_if (fun _ => observation_until_us =? 0) (fun _ => Invalid);
      mret (SessionOpened (mk_control binding_id host_boot os_session remote_session) selection observation_until_us)
  | WireRecord.BindingAccepted =>
      b ← wire ru32;
      _ ← refuse_if (fun _ => negb (b =? expected_binding)) (fun _ => Invalid);
      mret (BindingAccepted b)
  | _ => fail (Wire UnsupportedKind)
  end.

Definition decode (reserve : Alloc -> bool) (bs : bytes) (maximum expected_binding : Z) : Result Error Message :=
  r ← map_err Wire (decode_bounded bs (Z.min maximum MAX_RECORD) expected_binding None);
  let k := WireRecord.kind r in
  if bool_decide (k = WireRecord.Refused) then
    refused ← map_err Wire (RefusalMsg.decode bs expected_binding (Z.min maximum MAX_RECORD) Reliable);
    Err (RefusedBy refused)
  else if initial k && negb (expected_binding =? 0) then Err Invalid
  else fst ((m ← read_message reserve expected_binding k; _ ← wire rfinish; mret m) (payload r)).

(** ** Writing *)

Definition caps_bytes (caps : list Capability) : Z :=
  4 + foldr (fun c n => 7 + len (c_name c) + n) 0 caps.
Definition offer_bytes (o : Offer) : Z :=
  4 + Z.of_nat (length (o_versions o)) * 2 + 4 + LIMIT_BYTES + caps_bytes (o_capabilities o) + 1.
Definition selection_bytes (s : Selection) : Z := 6 + LIMIT_BYTES + caps_bytes (s_capabilities s).

(** [u32::try_from(v).map_err(|_| e)?]. *)
Definition u32_from (e : Error) (v : Z) : Result Error Z := if v <=? u32_max then Ok v else Err e.

Fixpoint each {A} (f : A -> M Writer Error unit) (l : list A) : M Writer Error unit :=
  match l with [] => mret tt | x :: l => _ ← f x; each f l end.

Definition write_cap (c : Capability) : M Writer Error unit :=
  _ ← wire (wdata (c_name c)); _ ← wire (wu16 (c_version c)); wire (wu8 (if c_required c then 1 else 0)).
Definition write_caps (caps : list Capability) : M Writer Error unit :=
  n ← lift (u32_from Invalid (Z.of_nat (length caps)));
  _ ← wire (wu32 n);
  each write_cap caps.

Definition write_limits (l : Limits.ProtocolLimits) : M Writer Error unit :=
  _ ← wire (wu32 (Limits.max_control_message_bytes l));
  _ ← wire (wu32 (Limits.max_clipboard_item_bytes l));
  _ ← wire (wu32 (Limits.max_encoded_access_unit_bytes l));
  _ ← wire (wu32 (Limits.max_dimension_pixels l));
  _ ← wire (wu64 (Limits.max_coded_pixels l));
  _ ← wire (wu8 (Limits.reassembly_window_pictures l));
  wire (wu64 (Limits.per_viewer_compressed_bytes l)).

Definition write_offer (o : Offer) : M Writer Error unit :=
  n ← lift (u32_from Version (Z.of_nat (length (o_versions o))));
  _ ← wire (wu32 n);
  _ ← each (fun v => wire (wu16 v)) (o_versions o);
  _ ← wire (wu8 (o_profile o)); _ ← wire (wu16 (o_profile_version o)); _ ← wire (wu8 (role_byte (o_role o)));
  _ ← write_limits (o_limits o);
  _ ← write_caps (o_capabilities o);
  wire (wu8 0).

Definition write_selection (s : Selection) : M Writer Error unit :=
  _ ← wire (wu16 (s_version s)); _ ← wire (wu8 (s_profile s)); _ ← wire (wu16 (s_profile_version s));
  _ ← wire (wu8 (role_byte (s_role s)));
  _ ← write_limits (s_limits s);
  write_caps (s_capabilities s).

Definition write_message (m : Message) : M Writer Error unit :=
  match m with
  | ClientHello o | HostCapabilities o => write_offer o
  | SelectedConfiguration s => write_selection s
  | ApprovalRequired request deadline_us role =>
      _ ← wire (wu128 request); _ ← wire (wu64 deadline_us); wire (wu8 (role_byte role))
  | SessionOpened b selection until =>
      _ ← wire (wu128 (host_boot b)); _ ← wire (wu128 (os_session b)); _ ← wire (wu128 (remote_session b));
      _ ← wire (wu32 (cb_id b)); _ ← wire (wput (zeros 6)); _ ← wire (wu8 1); _ ← wire (wu8 0);
      _ ← write_selection selection;
      wire (wu64 until)
  | BindingAccepted b => wire (wu32 b)
  end.

Definition size (m : Message) : Result Error Z :=
  match m with
  | ClientHello o | HostCapabilities o => _ ← validate_offer o; Ok (offer_bytes o)
  | SelectedConfiguration s => _ ← validate_selection s; Ok (selection_bytes s)
  | ApprovalRequired _ deadline_us _ => if deadline_us =? 0 then Err Invalid else Ok 25
  | SessionOpened b s until =>
      if (cb_id b =? 0) || (until =? 0) then Err Invalid else _ ← validate_selection s; Ok (68 + selection_bytes s)
  | BindingAccepted b => if b =? 0 then Err Invalid else Ok 4
  end.

(** [Writer::record_bounded] as in the record layer, around writes that fail with this
    module's error. *)
Definition framed (out : bytes) (maximum binding : Z) (k : Kind) (payload : Z) (body : M Writer Error unit)
  : Result Error Z * bytes :=
  match checked_add usize_max (Z.of_nat HEADER_BYTES) payload with
  | None => (Err (Wire ArithmeticOverflow), out)
  | Some total =>
      if (binding =? 0) && negb (initial k) then (Err (Wire InvalidBinding), out)
      else if maximum <? total then (Err (Wire ResourceLimit), out)
      else if len out <? total then (Err (Wire BufferTooSmall), out)
      else
        let '(r, w) := (_ ← wire (wheader binding k payload); _ ← body; wire wfinish)
                         (mk_writer (take (Z.to_nat total) out) 0) in
        (r, wbytes w ++ drop (Z.to_nat total) out)
  end.

Definition encode (m : Message) (maximum : Z) (out : bytes) : Result Error Z * bytes :=
  match size m with
  | Err e => (Err e, out)
  | Ok n => framed out (Z.min maximum MAX_RECORD) (binding m) (kind m) n (write_message m)
  end.

End Negotiation.

(** * Capability inspection *)

Module Inspection.
Import Negotiation.

(** ["native-capability-inspection"]. *)
Definition CAPABILITY : bytes :=
  [110; 97; 116; 105; 118; 101; 45; 99; 97; 112; 97; 98; 105; 108; 105; 116; 121; 45;
   105; 110; 115; 112; 101; 99; 116; 105; 111; 110].
Definition VERSION : Z := 1.
Definition MAX_DURATION_US : Z := 2000000.
Definition REQUEST_BYTES : Z := 24 + 19.
Definition CLOSED_BYTES : Z := 24 + 28.

Definition marker : Capability := mk_cap CAPABILITY VERSION true.
Definition named (c : Capability) : bool := bool_decide (c_name c = CAPABILITY).

(** [sort_by(|a, b| a.name.cmp(&b.name))], stable: the capability goes behind those
    that do not come after it. *)
Fixpoint insert_cap (c : Capability) (l : list Capability) : list Capability :=
  match l with
  | [] => [c]
  | x :: l => if str_lt (c_name c) (c_name x) then c :: x :: l else x :: insert_cap c l
  end.
Definition sort_caps (l : list Capability) : list Capability := foldl (fun acc c => insert_cap c acc) [] l.

Definition prepare_offer (reserve : Alloc -> bool) (o : Offer) : Result Error Offer :=
  _ ← validate_offer o;
  if negb (bool_decide (o_role o = Observe)) then Err Invalid
  else match find_first named (o_capabilities o) with
       | Some m => if (c_version m =? VERSION) && c_required m then Ok o else Err RequiredCapability
       | None =>
           if MAX_CAPABILITIES <=? Z.of_nat (length (o_capabilities o)) then Err Invalid
           else if negb (reserve AMarker) then Err Allocation
           else
             let o := mk_offer (o_versions o) (o_profile o) (o_profile_version o) (o_role o) (o_limits o)
                        (sort_caps (o_capabilities o ++ [marker])) in
             _ ← validate_offer o;
             Ok o
       end.

Definition requested (o : Offer) : bool :=
  bool_decide (o_role o = Observe)
  && existsb (fun c => named c && (c_version c =? VERSION) && c_required c) (o_capabilities o).

(** [capabilities.retain(|c| c.name != CAPABILITY)]. *)
Definition without_marker (o : Offer) : Offer :=
  mk_offer (o_versions o) (o_profile o) (o_profile_version o) (o_role o) (o_limits o)
    (List.filter (fun c => negb (named c)) (o_capabilities o)).

Definition intersect (reserve : Alloc -> bool) (host peer : Offer) : Result Error Offer :=
  _ ← validate_offer host;
  _ ← validate_offer peer;
  if negb (requested peer) then Err RequiredCapability
  else result ← Negotiation.intersect reserve host (without_marker peer); prepare_offer reserve result.

(** ** The two fixed records *)

Definition header (n : nat) (k : Kind) (payload : Z) : bytes :=
  put 15 [payload] (put 6 (be 2 (kind_code k)) (put 0 magic (zeros n))).

(** [closure::Reason::InspectionComplete], [ClosedReason::ClientRequested] and
    [Cleanup::Complete]. *)
Definition REQUEST : bytes := put 41 (be 2 4) (put 40 [1] (header 43 CloseRequest 19)).
Definition CLOSED : bytes := put 43 [1] (put 42 [2] (put 40 (be 2 1) (header 52 Closed 28))).

Definition encode (record : bytes) (maximum : Z) (out : bytes) : Result WireError Z * bytes :=
  if Z.min maximum MAX_RECORD <? len record then (Err ResourceLimit, out)
  else if len out <? len record then (Err BufferTooSmall, out)
  else (Ok (len record), put 0 record out).
Definition decode (bs : bytes) (maximum : Z) (expected : bytes) : Result WireError unit :=
  if Z.min maximum MAX_RECORD <? len bs then Err ResourceLimit
  else if negb (bool_decide (bs = expected)) then Err InvalidValue else Ok tt.

Definition encode_request : Z -> bytes -> Result WireError Z * bytes := encode REQUEST.
Definition decode_request (bs : bytes) (maximum : Z) : Result WireError unit := decode bs maximum REQUEST.
Definition encode_closed : Z -> bytes -> Result WireError Z * bytes := encode CLOSED.
Definition decode_closed (bs : bytes) (maximum : Z) : Result WireError unit := decode bs maximum CLOSED.

End Inspection.
