(* ===== verification/NegotiationProps.v ===== *)
(** * What negotiation guarantees

    The codec of the startup messages is exact; the intersection of two offers is the
    greatest both allow, the same computed from either end, and passes every check the
    peers make of it; what passes those checks stays within the offers. *)

From stdpp Require Import sorting.
From S2P Require Import Prelude.
From S2P Require Import Limits.
From S2P Require Import Bytes.
From S2P Require Import Utf8.
From S2P Require Import WireRecord.
From S2P Require Import WireRecordProps.
From S2P Require Import WireInput.
From S2P Require Import WireInputProps.
From S2P Require Import WireControl.
From S2P Require Import WireControlProps.
From S2P Require Import Negotiation.

Module NegotiationCodec.
Import Negotiation.

(** ** Calls of the record layer *)

#[export] Instance wire_codec {A} (ok : A -> Prop) enc (m : M Reader WireError A) `{!Codec ok enc m} : Codec ok enc (wire m).
Proof.
  split.
  - intros a r Ha. unfold wire. by rewrite codec_read.
  - intros r a r' Hr. unfold wire. destruct (m r) as [[x|e] s] eqn:E; cbn; [|done]. intros [= -> ->].
    by apply (codec_exact _ _ _ Hr) in E.
Qed.

Lemma writes_wire m e : writes m e -> writes (wire m) e.
Proof. intros H pre rest Hf Hm. unfold wire. by rewrite H. Qed.
#[local] Hint Resolve writes_wire : remote.

(** A list of known length, element by element. *)
Lemma times_codec {A} (ok : A -> Prop) enc (m : M Reader Error A) `{!Codec ok enc m} n :
  Codec (fun l => length l = n /\ Forall ok l) (fun l => concat (map enc l)) (times m n).
Proof.
  split.
  - induction n as [|n IH]; intros [|a l] r [Hl Ha]; cbn in Hl; try lia; [done|]. inversion Ha; subst. cbn [times map concat].
    rewrite <- app_assoc. unfold mbind, M_bind. rewrite codec_read by done. by rewrite IH by (split; [lia|done]).
  - induction n as [|n IH]; intros r l r' Hr H; cbn [times] in H.
    + injection H as <- <-. by split_and!.
    + apply method_bind_Ok in H as (a & s & H1 & H). apply (codec_exact _ _ _ Hr) in H1 as (Ha & -> & Hs).
      apply method_bind_Ok in H as (l' & s' & H2 & H). destruct (IH _ _ _ Hs H2) as ([Hl Hf] & -> & Hs'). injection H as <- <-.
      cbn [length map concat]. rewrite <- app_assoc. split_and!; [lia|by constructor|done|done].
Qed.

Lemma writes_each {A} (f : A -> M Writer Error unit) enc l :
  (forall a, a ∈ l -> writes (f a) (enc a)) -> writes (each f l) (concat (map enc l)).
Proof.
  induction l as [|a l IH]; intros H; cbn [each map concat]; [apply writes_ret|].
  apply writes_bind; [apply H; left|]. apply IH. intros b Hb. apply H. by right.
Qed.

(** ** Roles *)

Definition role_bytes (r : Role) : bytes := be 1 (role_byte r).
#[export] Instance role_codec : Codec (fun _ => True) role_bytes read_role.
Proof. unfold read_role, role_bytes. tag_codec. Qed.

(** ** Limits *)

(** The limits an offer carries. *)
Definition transmitted (f : LimitField) : bool :=
  match f with
  | ControlMessageBytes | ClipboardItemBytes | EncodedAccessUnitBytes | DimensionPixels | CodedPixels
  | ReassemblyWindowPictures | PerViewerCompressedBytes => true
  | _ => false
  end.

(** Limits a peer can have sent: valid, and the rest at its default. *)
Definition wire_form (l : Limits.ProtocolLimits) : Prop :=
  Limits.valid l /\ forall f, transmitted f = false -> Limits.lim l f = Limits.lim Limits.ABSOLUTE f.

Definition limits_bytes (l : Limits.ProtocolLimits) : bytes :=
  be 4 (Limits.max_control_message_bytes l) ++ be 4 (Limits.max_clipboard_item_bytes l)
  ++ be 4 (Limits.max_encoded_access_unit_bytes l) ++ be 4 (Limits.max_dimension_pixels l)
  ++ be 8 (Limits.max_coded_pixels l) ++ be 1 (Limits.reassembly_window_pictures l)
  ++ be 8 (Limits.per_viewer_compressed_bytes l).

(** The overrides that ask for these limits. *)
Definition sent_limits (l : Limits.ProtocolLimits) : Overrides.LimitOverrides :=
  wire_overrides (Limits.max_control_message_bytes l) (Limits.max_clipboard_item_bytes l)
    (Limits.max_encoded_access_unit_bytes l) (Limits.max_dimension_pixels l) (Limits.max_coded_pixels l)
    (Limits.reassembly_window_pictures l) (Limits.per_viewer_compressed_bytes l).

Lemma overrides_fit a b c d e f g :
  fits u32_max a -> fits u32_max b -> fits u32_max c -> fits u32_max d -> fits u64_max e -> fits u8_max f -> fits u64_max g ->
  Limits.overrides_ok (wire_overrides a b c d e f g).
Proof. intros; intros [] v; cbn; intros [= <-]; solve_fits. Qed.

(** Every limit fits its width on the wire. *)
Lemma valid_fits l : Limits.valid l ->
  fits u32_max (Limits.max_control_message_bytes l) /\ fits u32_max (Limits.max_clipboard_item_bytes l)
  /\ fits u32_max (Limits.max_encoded_access_unit_bytes l) /\ fits u32_max (Limits.max_dimension_pixels l)
  /\ fits u64_max (Limits.max_coded_pixels l) /\ fits u8_max (Limits.reassembly_window_pictures l)
  /\ fits u64_max (Limits.per_viewer_compressed_bytes l).
Proof.
  intros H. pose proof (H ControlMessageBytes). pose proof (H ClipboardItemBytes). pose proof (H EncodedAccessUnitBytes).
  pose proof (H DimensionPixels). pose proof (H CodedPixels). pose proof (H ReassemblyWindowPictures). pose proof (H PerViewerCompressedBytes).
  cbn in *. unfold Limits.REASSEMBLY_WINDOW_FLOOR, Limits.REASSEMBLY_WINDOW_CEILING in *. split_and!; solve_fits.
Qed.

#[export] Instance limits_codec : Codec wire_form limits_bytes read_limits.
Proof.
  unfold read_limits. split.
  - intros l r [Hv Hd]. pose proof (valid_fits l Hv) as (F1 & F2 & F3 & F4 & F5 & F6 & F7). unfold limits_bytes.
    rewrite <- !app_assoc. unfold mbind, M_bind. do 7 (rewrite codec_read by done). unfold lift.
    rewrite (Limits.with_overrides_complete _ l); [done| |intros f; specialize (Hd f); destruct f; cbn in *; auto|done].
    by apply overrides_fit.
  - intros r l r' Hr H. read_inv.
    match goal with H : map_err _ _ = Ok _ |- _ => rename H into Hw end.
    destruct (Limits.with_overrides _) as [p|] eqn:E in Hw; [|done]. injection Hw as ->.
    apply Limits.with_overrides_sound in E as [Hd Hv]; [|by apply overrides_fit].
    assert (forall f, Limits.lim l f = default (Limits.lim Limits.ABSOLUTE f)
              (Limits.ov (wire_overrides v v0 v1 v2 v3 v4 v5) f)) as Hl by done.
    split; [split; [done|]; intros f Hf; rewrite Hl; by destruct f|]. split; [|done].
    unfold limits_bytes. pose proof (Hl ControlMessageBytes) as E1. pose proof (Hl ClipboardItemBytes) as E2.
    pose proof (Hl EncodedAccessUnitBytes) as E3. pose proof (Hl DimensionPixels) as E4. pose proof (Hl CodedPixels) as E5.
    pose proof (Hl ReassemblyWindowPictures) as E6. pose proof (Hl PerViewerCompressedBytes) as E7.
    cbn in E1, E2, E3, E4, E5, E6, E7. rewrite E1, E2, E3, E4, E5, E6, E7. by rewrite <- !app_assoc.
Qed.

Lemma writes_limits l : writes (write_limits l) (limits_bytes l).
Proof. unfold write_limits, limits_bytes, wu32, wu64, wu8. repeat (apply writes_bind; [apply writes_wire, writes_put|]). apply writes_wire, writes_put. Qed.

(** ** Capabilities *)

Lemma ascii_utf8 l : forallb name_byte l = true -> Forall is_byte l /\ is_some (from_utf8 l) = true.
Proof.
  induction l as [|b l IH]; intros H; [by split|]. apply andb_true_iff in H as [Hb Hl]. destruct (IH Hl) as [Hf Hu].
  assert (0 <= b < 128) as Hr by (unfold name_byte in Hb; lia). cbn [from_utf8].
  replace (b <? 128) with true by lia. split; [constructor; [unfold is_byte; solve_fits|done]|]. by destruct (from_utf8 l).
Qed.

(** A capability whose name can be read. *)
Definition cap_ok (c : Capability) : Prop :=
  Forall is_byte (c_name c) /\ 1 <= len (c_name c) <= MAX_NAME /\ is_some (from_utf8 (c_name c)) = true /\ fits u16_max (c_version c).
Definition cap_body (c : Capability) : bytes :=
  data_bytes (c_name c) ++ be 2 (c_version c) ++ be 1 (if c_required c then 1 else 0).

#[export] Instance cap_codec : Codec cap_ok cap_body read_cap.
Proof.
  unfold read_cap. split.
  - intros [n v q] r (Hb & Hl & Hu & Hv). cbn [c_name c_version c_required] in *. unfold cap_body. cbn [c_name c_version c_required].
    assert (data_ok n) by (split; [done|]; unfold len, MAX_NAME in *; solve_fits). rewrite <- !app_assoc.
    unfold mbind, M_bind. rewrite codec_read by done. unfold refuse_if, lift.
    replace ((len n =? 0) || (MAX_NAME <? len n)) with false by lia.
    destruct (from_utf8 n); [|done]. cbn [ok_or]. rewrite codec_read by done. rewrite codec_read by (destruct q; solve_fits). by destruct q.
  - intros r c r' Hr H. read_inv. match goal with H : ok_or _ _ = Ok _ |- _ => rename H into Hu end.
    match goal with H : data_ok _ |- _ => destruct H end. guards.
    assert (c_name c = v /\ c_version c = v2 /\ v3 = (if c_required c then 1 else 0) /\ s3 = r') as (<- & <- & -> & ->)
      by (destruct v3 as [|[]|]; try done; by injection H as <- <-).
    unfold cap_ok, cap_body. rewrite <- !app_assoc. split_and!; try done; [unfold len in *; lia|]. by destruct (from_utf8 (c_name c)).
Qed.

Lemma writes_cap c : cap_ok c -> writes (write_cap c) (cap_body c).
Proof.
  intros (_ & Hl & _). unfold write_cap, cap_body, wu16, wu8. apply writes_bind; [|apply writes_bind].
  - apply writes_wire, writes_data. unfold len, MAX_NAME, u32_max in *. lia.
  - apply writes_wire, writes_put.
  - apply writes_wire, writes_put.
Qed.

Lemma valid_from p caps : valid_caps_from p caps = Ok tt ->
  forall c, c ∈ caps -> 1 <= len (c_name c) <= MAX_NAME /\ c_version c <> 0 /\ forallb name_byte (c_name c) = true.
Proof.
  revert p. induction caps as [|c caps IH]; intros p H x Hx; [by apply not_elem_of_nil in Hx|]. cbn [valid_caps_from] in H.
  destruct (bad_cap p c) eqn:E; [done|]. apply elem_of_cons in Hx as [->|Hx]; [|by eapply IH].
  unfold bad_cap in E. guards. split_and!; [unfold len in *; lia|done..].
Qed.

Definition versioned (caps : list Capability) : Prop := Forall (fun c => fits u16_max (c_version c)) caps.
Definition caps_ok (caps : list Capability) : Prop := valid_caps caps = Ok tt /\ versioned caps.
Definition caps_body (caps : list Capability) : bytes := be 4 (Z.of_nat (length caps)) ++ concat (map cap_body caps).

Lemma caps_ok_each caps : caps_ok caps -> Z.of_nat (length caps) <= MAX_CAPABILITIES /\ Forall cap_ok caps.
Proof.
  intros [H Hv]. unfold valid_caps in H. destruct (Z.ltb_spec MAX_CAPABILITIES (Z.of_nat (length caps))); [done|].
  split; [done|]. apply Forall_forall. intros c Hc. destruct (valid_from _ _ H c Hc) as (? & ? & Hn).
  unfold versioned in Hv. rewrite Forall_forall in Hv. apply ascii_utf8 in Hn as [? ?]. split_and!; auto; lia.
Qed.

Lemma cap_body_length c : len (cap_body c) = 7 + len (c_name c).
Proof. unfold cap_body, data_bytes, len. rewrite !length_app, !be_length. lia. Qed.

Lemma caps_body_length caps : len (caps_body caps) = caps_bytes caps.
Proof.
  unfold caps_body, caps_bytes. unfold len at 1. rewrite length_app, be_length. assert (Z.of_nat (length (concat (map cap_body caps))) =
    foldr (fun c n => 7 + len (c_name c) + n) 0 caps) as <-; [|lia].
  induction caps as [|c caps IH]; [done|]. cbn [map concat foldr]. rewrite length_app, <- IH. pose proof (cap_body_length c). unfold len in *. lia.
Qed.

Lemma caps_room caps r : Forall cap_ok caps -> Z.of_nat (length caps) <= len (concat (map cap_body caps) ++ r) / 8.
Proof.
  intros H. apply Z.div_le_lower_bound; [lia|]. unfold len. rewrite length_app.
  induction H as [|c l Hc _ IH]; [cbn; lia|]. cbn [map concat length]. rewrite length_app. pose proof (cap_body_length c).
  destruct Hc as (_ & Hl & _). unfold len in *. lia.
Qed.

Section reading.
Context (reserve : Alloc -> bool) (Hreserve : forall a, reserve a = true).

#[export] Instance caps_codec : Codec caps_ok caps_body (read_caps reserve).
Proof using Hreserve.
  unfold read_caps. split.
  - intros caps r H. pose proof (caps_ok_each caps H) as [Hl Hc]. unfold caps_body. rewrite <- app_assoc.
    unfold mbind, M_bind. rewrite codec_read by (unfold MAX_CAPABILITIES in Hl; solve_fits). unfold refuse_if, lift.
    pose proof (caps_room caps r Hc).
    replace ((MAX_CAPABILITIES <? Z.of_nat (length caps)) || (len (concat (map cap_body caps) ++ r) / 8 <? Z.of_nat (length caps)))
      with false by lia. rewrite Hreserve. cbn [negb].
    pose proof (times_codec cap_ok cap_body read_cap (Z.to_nat (Z.of_nat (length caps)))) as Ht.
    rewrite (codec_read (Codec := Ht)) by (split; [lia|done]). destruct H as [-> _]. done.
  - intros r caps r' Hr H. read_inv.
    pose proof (times_codec cap_ok cap_body read_cap (Z.to_nat v)) as Ht. read_inv.
    match goal with H : _ /\ Forall _ _ |- _ => destruct H as [Hn Hf] end.
    match goal with H : valid_caps _ = Ok _ |- _ => rename H into Hv end.
    split; [split; [destruct (valid_caps _) as [[]|]; done|]; eapply Forall_impl; [exact Hf|]; by intros c (_ & _ & _ & ?)|].
    unfold caps_body. rewrite Hn, <- app_assoc, Z2Nat.id by solve_fits. by split.
Qed.

End reading.

Lemma writes_caps caps : caps_ok caps -> writes (write_caps caps) (caps_body caps).
Proof.
  intros H. pose proof (caps_ok_each caps H) as [Hl Hc]. unfold write_caps, caps_body, u32_from.
  replace (Z.of_nat (length caps) <=? u32_max) with true by (unfold MAX_CAPABILITIES, u32_max in *; lia).
  apply writes_lift with (Z.of_nat (length caps)); [done|]. apply writes_bind; [apply writes_wire, writes_put|].
  apply writes_each. intros c Hc'. rewrite Forall_forall in Hc. by apply writes_cap, Hc.
Qed.

(** ** Offers and selections *)

Lemma validate_offer_Ok o : validate_offer o = Ok tt <->
  1 <= Z.of_nat (length (o_versions o)) <= MAX_VERSIONS /\ descends (o_versions o) = false
  /\ o_profile o = NATIVE_PROFILE /\ o_profile_version o = PROFILE_VERSION
  /\ 128 <= Limits.max_control_message_bytes (o_limits o) /\ valid_caps (o_capabilities o) = Ok tt.
Proof.
  unfold validate_offer, valid_limits. destruct (descends (o_versions o)); [rewrite orb_true_r; naive_solver|].
  repeat case_match; cbn; naive_solver lia.
Qed.

Lemma validate_selection_Ok s : validate_selection s = Ok tt <->
  s_version s = 0 /\ s_profile s = NATIVE_PROFILE /\ s_profile_version s = PROFILE_VERSION
  /\ 128 <= Limits.max_control_message_bytes (s_limits s) /\ valid_caps (s_capabilities s) = Ok tt.
Proof. unfold validate_selection, valid_limits. repeat case_match; cbn; naive_solver lia. Qed.

Definition offer_typed (o : Offer) : Prop :=
  Forall (fits u16_max) (o_versions o) /\ wire_form (o_limits o) /\ versioned (o_capabilities o).
Definition selection_typed (s : Selection) : Prop := wire_form (s_limits s) /\ versioned (s_capabilities s).

Definition offer_body (o : Offer) : bytes :=
  be 4 (Z.of_nat (length (o_versions o))) ++ concat (map (be 2) (o_versions o)) ++ be 1 (o_profile o)
  ++ be 2 (o_profile_version o) ++ role_bytes (o_role o) ++ limits_bytes (o_limits o)
  ++ caps_body (o_capabilities o) ++ be 1 0.
Definition selection_body (s : Selection) : bytes :=
  be 2 (s_version s) ++ be 1 (s_profile s) ++ be 2 (s_profile_version s) ++ role_bytes (s_role s)
  ++ limits_bytes (s_limits s) ++ caps_body (s_capabilities s).

Lemma limits_length l : length (limits_bytes l) = 33%nat.
Proof. done. Qed.

Lemma versions_length l : length (concat (map (be 2) l)) = (2 * length l)%nat.
Proof. induction l as [|v l IH]; [done|]. cbn [map concat length]. rewrite length_app, be_length, IH. lia. Qed.

Lemma offer_length o : len (offer_body o) = offer_bytes o.
Proof.
  pose proof (caps_body_length (o_capabilities o)). unfold offer_body, offer_bytes, role_bytes, len, LIMIT_BYTES in *.
  rewrite !length_app, !be_length, versions_length, limits_length. lia.
Qed.

Lemma selection_length s : len (selection_body s) = selection_bytes s.
Proof.
  pose proof (caps_body_length (s_capabilities s)). unfold selection_body, selection_bytes, role_bytes, len, LIMIT_BYTES in *.
  rewrite !length_app, !be_length, limits_length. lia.
Qed.

Section offers.
Context (reserve : Alloc -> bool) (Hreserve : forall a, reserve a = true).
Let the_caps := caps_codec reserve Hreserve.
#[local] Existing Instance the_caps.

#[export] Instance offer_codec : Codec (fun o => offer_typed o /\ validate_offer o = Ok tt) offer_body (read_offer reserve).
Proof using Hreserve.
  unfold read_offer. split.
  - intros o r [(Hvs & Hl & Hc) Hv]. pose proof (proj1 (validate_offer_Ok o) Hv) as (Hn & _ & Hp & Hpv & _ & Hcaps).
    unfold offer_body. rewrite <- !app_assoc. unfold mbind, M_bind. unfold MAX_VERSIONS in *. rewrite codec_read by solve_fits. unfold refuse_if.
    match goal with |- context [len ?rest / 2] => assert (Z.of_nat (length (o_versions o)) <= len rest / 2) end.
    { apply Z.div_le_lower_bound; [lia|]. unfold len. rewrite length_app, versions_length. lia. }
    replace (_ || _ || _) with false by lia. rewrite Hreserve. cbn [negb].
    pose proof (times_codec (fits u16_max) (be 2) (wire ru16) (Z.to_nat (Z.of_nat (length (o_versions o))))) as Ht.
    rewrite (codec_read (Codec := Ht)) by (split; [lia|done]). rewrite Hp, Hpv. unfold NATIVE_PROFILE, PROFILE_VERSION.
    do 2 (rewrite codec_read by solve_fits). rewrite codec_read by done. rewrite codec_read by done. rewrite codec_read by done.
    rewrite codec_read by solve_fits. unfold lift. cbn [negb Z.eqb].
    replace (mk_offer (o_versions o) 1 0 (o_role o) (o_limits o) (o_capabilities o)) with o
      by (destruct o; cbn in *; unfold NATIVE_PROFILE, PROFILE_VERSION in *; by subst). by rewrite Hv.
  - intros r o r' Hr H. read_inv.
    pose proof (times_codec (fits u16_max) (be 2) (wire ru16) (Z.to_nat v)) as Ht. read_inv. guards.
    repeat match goal with H : _ /\ _ |- _ => destruct H end. cbn [o_versions o_limits o_capabilities] in *.
    match goal with H : validate_offer _ = Ok ?u |- _ => destruct u end.
    match goal with H : caps_ok _ |- _ => destruct H end. split; [split; [by split_and!|done]|]. split; [|done].
    unfold offer_body. cbn [o_versions o_profile o_profile_version o_role o_limits o_capabilities].
    match goal with H : length _ = _ |- _ => rewrite H end. rewrite Z2Nat.id by solve_fits. by rewrite <- !app_assoc.
Qed.

#[export] Instance selection_codec :
  Codec (fun s => selection_typed s /\ validate_selection s = Ok tt) selection_body (read_selection reserve).
Proof using Hreserve.
  unfold read_selection. split.
  - intros s r [(Hl & Hc) Hv]. pose proof (proj1 (validate_selection_Ok s) Hv) as (Hn & Hp & Hpv & _ & Hcaps).
    unfold selection_body. rewrite <- !app_assoc. unfold mbind, M_bind. rewrite Hn, Hp, Hpv. unfold NATIVE_PROFILE, PROFILE_VERSION.
    do 3 (rewrite codec_read by solve_fits). rewrite codec_read by done. rewrite codec_read by done. rewrite codec_read by done.
    unfold lift. replace (mk_selection 0 1 0 (s_role s) (s_limits s) (s_capabilities s)) with s
      by (destruct s; cbn in *; unfold NATIVE_PROFILE, PROFILE_VERSION in *; by subst). by rewrite Hv.
  - intros r s r' Hr H. read_inv. repeat match goal with H : _ /\ _ |- _ => destruct H end.
    match goal with H : validate_selection _ = Ok ?u |- _ => destruct u end.
    match goal with H : caps_ok _ |- _ => destruct H end. split; [by split; [split|]|]. split; [|done]. unfold selection_body. cbn. by rewrite <- !app_assoc.
Qed.

End offers.

Lemma writes_offer o : offer_typed o -> validate_offer o = Ok tt -> writes (write_offer o) (offer_body o).
Proof.
  intros (_ & _ & Hc) Hv. pose proof (proj1 (validate_offer_Ok o) Hv) as (Hn & _ & _ & _ & _ & Hcaps).
  unfold write_offer, offer_body, u32_from. replace (Z.of_nat (length (o_versions o)) <=? u32_max) with true by (unfold MAX_VERSIONS, u32_max in *; lia).
  apply writes_lift with (Z.of_nat (length (o_versions o))); [done|].
  apply writes_bind; [apply writes_wire, writes_put|]. apply writes_bind; [apply writes_each; intros; apply writes_wire, writes_put|].
  do 3 (apply writes_bind; [apply writes_wire, writes_put|]). apply writes_bind; [apply writes_limits|].
  apply writes_bind; [by apply writes_caps|]. apply writes_wire, writes_put.
Qed.

Lemma writes_selection s : selection_typed s -> validate_selection s = Ok tt -> writes (write_selection s) (selection_body s).
Proof.
  intros (_ & Hc) Hv. pose proof (proj1 (validate_selection_Ok s) Hv) as (_ & _ & _ & _ & Hcaps). unfold write_selection, selection_body.
  do 4 (apply writes_bind; [apply writes_wire, writes_put|]). apply writes_bind; [apply writes_limits|]. by apply writes_caps.
Qed.

(** ** Messages *)

Definition widths (m : Message) : Prop :=
  match m with
  | ClientHello o | HostCapabilities o => offer_typed o
  | SelectedConfiguration s => selection_typed s
  | ApprovalRequired q d _ => fits u128_max q /\ fits u64_max d
  | SessionOpened b s until =>
      (fits u32_max (cb_id b) /\ fits u128_max (host_boot b) /\ fits u128_max (os_session b) /\ fits u128_max (remote_session b))
      /\ selection_typed s /\ fits u64_max until
  | BindingAccepted b => fits u32_max b
  end.
(** A message of its type's width on a channel of this binding. *)
Definition message_typed (expected : Z) (m : Message) : Prop := widths m /\ binding m = expected.
(** What both ends check. *)
Definition message_ok (m : Message) : Prop := is_ok (size m) = true.

Definition body (m : Message) : bytes :=
  match m with
  | ClientHello o | HostCapabilities o => offer_body o
  | SelectedConfiguration s => selection_body s
  | ApprovalRequired q d r => be 16 q ++ be 8 d ++ role_bytes r
  | SessionOpened b s until =>
      be 16 (host_boot b) ++ be 16 (os_session b) ++ be 16 (remote_session b) ++ be 4 (cb_id b)
      ++ [0; 0; 0; 0; 0; 0; 1; 0] ++ selection_body s ++ be 8 until
  | BindingAccepted b => be 4 b
  end.

Lemma size_body m n : size m = Ok n -> n = len (body m).
Proof.
  destruct m as [o|o|s|q d r|b s u|b]; cbn [size body].
  1,2: intros ([] & _ & [= <-])%Result_bind_Ok; by rewrite offer_length.
  - intros ([] & _ & [= <-])%Result_bind_Ok. by rewrite selection_length.
  - case_match; [done|]. by intros [= <-].
  - case_match; [done|]. intros ([] & _ & [= <-])%Result_bind_Ok. rewrite <- selection_length. unfold len.
    rewrite !length_app, !be_length. cbn [length]. lia.
  - case_match; [done|]. by intros [= <-].
Qed.

Lemma message_ok_size m : message_ok m -> size m = Ok (len (body m)).
Proof. unfold message_ok. destruct (size m) as [n|] eqn:E; [|done]. intros _. by rewrite (size_body m n E). Qed.

(** The check of a message, case by case. *)
Lemma message_ok_iff m : message_ok m <->
  match m with
  | ClientHello o | HostCapabilities o => validate_offer o = Ok tt
  | SelectedConfiguration s => validate_selection s = Ok tt
  | ApprovalRequired _ d _ => d <> 0
  | SessionOpened b s u => cb_id b <> 0 /\ u <> 0 /\ validate_selection s = Ok tt
  | BindingAccepted b => b <> 0
  end.
Proof.
  unfold message_ok. destruct m as [o|o|s|q d r|b s u|b]; cbn [size].
  1,2: destruct (validate_offer o) as [[]|]; cbn; naive_solver.
  - destruct (validate_selection s) as [[]|]; cbn; naive_solver.
  - destruct (Z.eqb_spec d 0); cbn; naive_solver.
  - destruct (Z.eqb_spec (cb_id b) 0), (Z.eqb_spec u 0); cbn; try naive_solver. destruct (validate_selection s) as [[]|]; cbn; naive_solver.
  - destruct (Z.eqb_spec b 0); cbn; naive_solver.
Qed.

Section messages.
Context (reserve : Alloc -> bool) (Hreserve : forall a, reserve a = true) (expected : Z).
Let the_offers := offer_codec reserve Hreserve.
Let the_selections := selection_codec reserve Hreserve.
#[local] Existing Instances the_offers the_selections.

(** What [read_message] returns for a kind. *)
Definition readable (k : Kind) (m : Message) : Prop := kind m = k /\ message_typed expected m /\ message_ok m.

Lemma message_read m r : message_typed expected m -> message_ok m -> read_message reserve expected (kind m) (body m ++ r) = (Ok m, r).
Proof using Hreserve.
  intros [Hw Hb] Hok. apply message_ok_iff in Hok.
  destruct m as [o|o|s|q d ro|[i h1 h2 h3] s u|b]; cbn [kind read_message body widths cb_id host_boot os_session remote_session] in *;
    rewrite <- ?app_assoc; unfold mbind, M_bind.
  - by rewrite codec_read.
  - by rewrite codec_read.
  - by rewrite codec_read.
  - destruct Hw. do 2 (rewrite codec_read by done). unfold refuse_if. destruct (Z.eqb_spec d 0); [done|]. by rewrite codec_read.
  - destruct Hw as ((? & ? & ? & ?) & ? & ?), Hok as (? & ? & ?). do 4 (rewrite codec_read by done). unfold refuse_if, wire at 1.
    destruct (Z.eqb_spec i 0); [done|]. rewrite rtake_app by done. cbn [map_err]. rewrite bool_decide_true by done. cbn [negb].
    do 2 (rewrite codec_read by done). by destruct (Z.eqb_spec u 0).
  - rewrite codec_read by done. cbn in Hb. subst. unfold refuse_if. by rewrite Z.eqb_refl.
Qed.

Lemma message_read_exact k r m r' : (initial k = true -> expected = 0) -> (k = WireRecord.BindingAccepted -> expected <> 0) ->
  Forall is_byte r -> read_message reserve expected k r = (Ok m, r') ->
  readable k m /\ r = body m ++ r' /\ Forall is_byte r'.
Proof using Hreserve.
  intros Hi Hz Hr H. unfold readable, message_typed. rewrite message_ok_iff.
  destruct k; cbn [read_message] in H; try (by injection H); cbn in Hi; try specialize (Hi eq_refl).
  - read_inv. cbn. naive_solver.
  - read_inv. cbn. naive_solver.
  - read_inv. cbn. naive_solver.
  - read_inv. guards. cbn. rewrite <- !app_assoc. naive_solver.
  - read_inv. guards. cbn [kind widths binding body cb_id host_boot os_session remote_session].
    match goal with H : wire (rtake 8) ?s = (Ok ?v, ?s') |- _ => unfold wire in H; destruct (rtake 8 s) as [[x|] y] eqn:E8; [|done];
      cbn in H; injection H as -> ->; apply rtake_exact in E8 as [-> _]; [|done] end.
    match goal with H : Forall is_byte (_ ++ ?s) |- _ => apply Forall_app in H as [_ H] end. read_inv. guards.
    rewrite <- !app_assoc. naive_solver.
  - read_inv. guards. cbn. naive_solver.
Qed.

End messages.

Lemma writes_startup_message m expected : message_typed expected m -> message_ok m -> writes (write_message m) (body m).
Proof.
  intros [Hw _] Hok. apply message_ok_iff in Hok. destruct m as [o|o|s|q d r|b s u|b]; cbn [write_message body widths] in *.
  - by apply writes_offer.
  - by apply writes_offer.
  - by apply writes_selection.
  - do 2 (apply writes_bind; [apply writes_wire, writes_put|]). apply writes_wire, writes_put.
  - destruct Hw as (_ & ? & _), Hok as (_ & _ & ?).
    do 4 (apply writes_bind; [apply writes_wire, writes_put|]).
    change ([0; 0; 0; 0; 0; 0; 1; 0] ++ selection_body s ++ be 8 u) with (zeros 6 ++ be 1 1 ++ be 1 0 ++ selection_body s ++ be 8 u).
    do 3 (apply writes_bind; [apply writes_wire, writes_put|]). apply writes_bind; [by apply writes_selection|]. apply writes_wire, writes_put.
  - apply writes_wire, writes_put.
Qed.

Lemma caps_bytes_le caps : caps_ok caps -> 4 <= caps_bytes caps <= 4 + 24 * 71.
Proof.
  intros H. pose proof (caps_ok_each caps H) as [Hl Hc]. clear H. unfold caps_bytes, MAX_CAPABILITIES in *.
  assert (0 <= foldr (fun c n => 7 + len (c_name c) + n) 0 caps <= 71 * Z.of_nat (length caps)); [|lia].
  clear Hl. induction Hc as [|c l (_ & Hn & _) _ IH]; [done|]. cbn [foldr length]. unfold MAX_NAME in *. lia.
Qed.

(** Every message is far below the ceiling of a startup record. *)
Lemma body_small m expected : message_typed expected m -> message_ok m -> len (body m) <= 1815.
Proof.
  intros [Hw _] Hok. pose proof (message_ok_size m Hok) as Hs. apply message_ok_iff in Hok.
  destruct m as [o|o|s|q d r|b s u|b]; cbn [body widths] in *.
  1,2: rewrite offer_length; apply validate_offer_Ok in Hok as (? & _ & _ & _ & _ & ?); destruct Hw as (_ & _ & ?);
    pose proof (caps_bytes_le (o_capabilities o) (conj H0 H1)); unfold offer_bytes, LIMIT_BYTES, MAX_VERSIONS in *; lia.
  - rewrite selection_length. apply validate_selection_Ok in Hok as (_ & _ & _ & _ & ?). destruct Hw as (_ & ?).
    pose proof (caps_bytes_le (s_capabilities s) (conj H H0)). unfold selection_bytes, LIMIT_BYTES in *. lia.
  - done.
  - destruct Hok as (_ & _ & Hok). apply validate_selection_Ok in Hok as (_ & _ & _ & _ & ?). destruct Hw as (_ & (_ & ?) & _).
    pose proof (caps_bytes_le (s_capabilities s) (conj H H0)). unfold len. rewrite !length_app, !be_length.
    pose proof (selection_length s). unfold len, selection_bytes, LIMIT_BYTES in *. cbn [length]. lia.
  - done.
Qed.

Lemma body_bytes m expected : message_typed expected m -> message_ok m -> Forall is_byte (body m).
Proof.
  intros [Hw _] Hok. apply message_ok_iff in Hok.
  assert (forall caps, caps_ok caps -> Forall is_byte (caps_body caps)) as Hcaps.
  { intros caps H. apply caps_ok_each in H as [_ H]. unfold caps_body. apply Forall_app. split; [apply be_bytes|].
    induction H as [|c l (Hb & _) _ IH]; [constructor|]. cbn [map concat]. unfold cap_body, data_bytes. rewrite !Forall_app. by repeat split; auto using be_bytes. }
  assert (forall l, Forall is_byte (limits_bytes l)) as Hlim by (intros; unfold limits_bytes; rewrite !Forall_app; repeat split; apply be_bytes).
  assert (forall s, selection_typed s -> validate_selection s = Ok tt -> Forall is_byte (selection_body s)) as Hsel.
  { intros s [_ ?] (_ & _ & _ & _ & ?)%validate_selection_Ok. unfold selection_body, role_bytes. rewrite !Forall_app.
    repeat split; auto using be_bytes. by apply Hcaps. }
  assert (forall o, offer_typed o -> validate_offer o = Ok tt -> Forall is_byte (offer_body o)) as Hoff.
  { intros o (_ & _ & ?) (_ & _ & _ & _ & _ & ?)%validate_offer_Ok. unfold offer_body, role_bytes. rewrite !Forall_app.
    repeat split; auto using be_bytes; [|by apply Hcaps]. generalize (o_versions o). clear.
    induction l as [|v l IH]; [constructor|]. cbn [map concat]. apply Forall_app. split; [apply be_bytes|done]. }
  destruct m as [o|o|s|q d r|b s u|b]; cbn [body widths] in *; rewrite ?Forall_app; unfold role_bytes;
    destruct_and?; repeat split; auto using be_bytes. by repeat constructor.
Qed.

(** One frame at the start of the buffer, as [record_written] says of the record layer. *)
Lemma framed_written out maximum binding k (w : M Writer Error unit) p :
  writes w p -> len p <= u32_max -> (binding = 0 -> initial k = true) -> 24 + len p <= maximum -> 24 + len p <= len out ->
  len out <= usize_max ->
  framed out maximum binding k (len p) w = (Ok (24 + len p), frame_of k binding p [] ++ drop (24 + length p) out).
Proof.
  intros Hw Hp Hinit Hmax Hout Husize. unfold framed, HEADER_BYTES, checked_add.
  destruct (Z.leb_spec (Z.of_nat 24 + len p) usize_max); [|lia].
  replace ((binding =? 0) && negb (initial k)) with false by (destruct (Z.eqb_spec binding 0); [by rewrite Hinit|done]).
  destruct (Z.ltb_spec maximum (Z.of_nat 24 + len p)); [lia|]. destruct (Z.ltb_spec (len out) (Z.of_nat 24 + len p)); [lia|].
  unfold len in *. replace (Z.to_nat (Z.of_nat 24 + Z.of_nat (length p))) with (24 + length p)%nat by lia.
  set (space := take (24 + length p) out).
  assert (length space = 24 + length p)%nat as Hspace by (unfold space; rewrite length_take; lia).
  pose proof (writes_bind _ _ _ _ (writes_wire _ _ (writes_header binding k _ Hp)) Hw) as Hb.
  rewrite header_frame in Hb. apply (writes_all _ _ space) in Hb; [|rewrite frame_length; cbn [extension_area map concat length]; lia..].
  unfold mbind, M_bind in *.
  destruct (wire (wheader binding k (Z.of_nat (length p))) (mk_writer space 0)) as [[[]|e] st]; [|done].
  rewrite Hb. unfold wire, wfinish. cbn [WireRecord.position wbytes]. rewrite Z.eqb_refl, frame_length.
  cbn [extension_area map concat length map_err]. do 2 f_equal. lia.
Qed.

(** ** The order of names *)

Lemma str_lt_irrefl a : str_lt a a = false.
Proof. induction a as [|x a IH]; [done|]. cbn. rewrite IH. lia. Qed.

Lemma str_lt_trans a b c : str_lt a b = true -> str_lt b c = true -> str_lt a c = true.
Proof.
  revert b c. induction a as [|x a IH]; intros [|y b] [|z c]; cbn; try done.
  rewrite !orb_true_iff, !andb_true_iff, !Z.ltb_lt, !Z.eqb_eq. intros [?|[-> ?]] [?|[-> ?]]; [left; lia..|]. right. split; [done|]. by eapply IH.
Qed.

Definition before (a b : Capability) : Prop := str_lt (c_name a) (c_name b) = true.
#[export] Instance before_trans : Transitive before.
Proof. intros a b c. apply str_lt_trans. Qed.
#[export] Instance before_antisymm : AntiSymm (=) before.
Proof. intros a b H1 H2. pose proof (str_lt_trans _ _ _ H1 H2) as H. by rewrite str_lt_irrefl in H. Qed.

Definition shape (c : Capability) : Prop := 1 <= len (c_name c) <= MAX_NAME /\ c_version c <> 0 /\ forallb name_byte (c_name c) = true.

Lemma bad_cap_false p c : bad_cap p c = false <-> shape c /\ forall n, p = Some n -> str_lt n (c_name c) = true.
Proof.
  unfold bad_cap, shape. rewrite !orb_false_iff, negb_false_iff, Z.eqb_neq, Z.ltb_ge, Z.eqb_neq. unfold len.
  destruct p as [n|]; cbn [is_some_and]; rewrite ?negb_false_iff; naive_solver lia.
Qed.

Lemma valid_from_iff p caps : valid_caps_from p caps = Ok tt <->
  Forall shape caps /\ StronglySorted before caps /\ forall n c, p = Some n -> c ∈ caps -> str_lt n (c_name c) = true.
Proof.
  revert p. induction caps as [|c caps IH]; intros p; cbn [valid_caps_from].
  { split; [|done]. intros _. split_and!; [constructor..|]. intros n c _ H. by apply not_elem_of_nil in H. }
  destruct (bad_cap p c) eqn:E.
  - split; [done|]. intros (Hs & Hso & Hp). inversion Hs; subst. enough (bad_cap p c = false) by congruence. apply bad_cap_false.
    split; [done|]. intros n ->. apply Hp; [done|left].
  - rewrite IH. apply bad_cap_false in E as [Hc Hp]. split.
    + intros (Hs & Hso & Hn). split_and!; [by constructor| |].
      * constructor; [done|]. apply Forall_forall. intros x Hx. by apply Hn.
      * intros n x -> [->|Hx]%elem_of_cons; [by apply Hp|]. eapply str_lt_trans; [by apply Hp|by apply Hn].
    + intros (Hs & Hso & Hn). inversion Hs; inversion Hso; subst. split_and!; [done..|]. intros n x [= <-] Hx.
      match goal with H : Forall (before c) _ |- _ => rewrite Forall_forall in H; by apply H end.
Qed.

Lemma valid_caps_iff caps : valid_caps caps = Ok tt <->
  Z.of_nat (length caps) <= MAX_CAPABILITIES /\ Forall shape caps /\ StronglySorted before caps.
Proof.
  unfold valid_caps. destruct (Z.ltb_spec MAX_CAPABILITIES (Z.of_nat (length caps))); [naive_solver lia|].
  rewrite valid_from_iff. naive_solver.
Qed.

(** ** What the protocol document asks of a message

    [PROTOCOL_NEGOTIATION.md], written out: ordering is lexicographic on the bytes of a
    name, and the bounds are its numbers.  The one number the code does not share, the
    count of capabilities, is kept apart in [few]. *)

Definition name_letter (b : Z) : Prop := 97 <= b <= 122 \/ 48 <= b <= 57 \/ b = 46 \/ b = 45 \/ b = 95.
Definition lexical (a b : bytes) : Prop := exists common,
  (exists y b', a = common /\ b = common ++ y :: b') \/ (exists x y a' b', a = common ++ x :: a' /\ b = common ++ y :: b' /\ x < y).

Record well_formed_caps (caps : list Capability) : Prop := {
  wc_names c : c ∈ caps -> 1 <= len (c_name c) <= 64 /\ Forall name_letter (c_name c);
  wc_versions c : c ∈ caps -> c_version c <> 0;
  wc_order : StronglySorted (fun a b => lexical (c_name a) (c_name b)) caps }.
Record well_formed_offer (o : Offer) : Prop := {
  wo_count : (1 <= length (o_versions o) <= 8)%nat;
  wo_order : StronglySorted Z.lt (o_versions o);
  wo_profile : o_profile o = 1 /\ o_profile_version o = 0;
  wo_limits : 128 <= Limits.max_control_message_bytes (o_limits o);
  wo_caps : well_formed_caps (o_capabilities o) }.
Record well_formed_selection (s : Selection) : Prop := {
  ws_version : s_version s = 0;
  ws_profile : s_profile s = 1 /\ s_profile_version s = 0;
  ws_limits : 128 <= Limits.max_control_message_bytes (s_limits s);
  ws_caps : well_formed_caps (s_capabilities s) }.
Definition well_formed (m : Message) : Prop :=
  match m with
  | ClientHello o | HostCapabilities o => well_formed_offer o
  | SelectedConfiguration s => well_formed_selection s
  | ApprovalRequired _ deadline _ => deadline <> 0
  | SessionOpened b s until => cb_id b <> 0 /\ until <> 0 /\ well_formed_selection s
  | BindingAccepted b => b <> 0
  end.

Definition listed (m : Message) : list Capability :=
  match m with
  | ClientHello o | HostCapabilities o => o_capabilities o
  | SelectedConfiguration s | SessionOpened _ s _ => s_capabilities s
  | _ => []
  end.
Definition few (m : Message) : Prop := (length (listed m) <= 16)%nat.

Lemma str_lt_lexical a b : str_lt a b = true <-> lexical a b.
Proof.
  split.
  - revert b. induction a as [|x a IH]; intros [|y b] H; cbn in H; try done; [exists []; left; by exists y, b|].
    apply orb_true_iff in H as [H%Z.ltb_lt|[->%Z.eqb_eq (q & H)%IH]%andb_true_iff]; [exists []; right; by exists x, y, a, b|].
    exists (y :: q). destruct H as [(z & b' & -> & ->)|(z & z' & a' & b' & -> & -> & ?)]; [left; by exists z, b'|right].
    by exists z, z', a', b'.
  - intros (q & H). assert (forall z a' b', str_lt (z :: a') (z :: b') = str_lt a' b') as Hz by (intros; cbn; rewrite Z.ltb_irrefl, Z.eqb_refl; done).
    destruct H as [(y & b' & -> & ->)|(x & y & a' & b' & -> & -> & Hxy)].
    + induction q as [|z q IH]; [done|]. cbn [app]. by rewrite Hz.
    + induction q as [|z q IH]; [cbn; destruct (Z.ltb_spec x y); [done|lia]|]. cbn [app]. by rewrite Hz.
Qed.

Lemma name_letters n : forallb name_byte n = true <-> Forall name_letter n.
Proof.
  rewrite forallb_forall, Forall_forall. setoid_rewrite list_elem_of_In. apply forall_proper. intros b.
  apply imp_iff_compat_l. unfold name_byte, name_letter. rewrite !orb_true_iff, !andb_true_iff, !Z.leb_le, !Z.eqb_eq. tauto.
Qed.

Lemma well_formed_caps_iff caps : well_formed_caps caps <-> Forall shape caps /\ StronglySorted before caps.
Proof.
  assert (StronglySorted (fun a b => lexical (c_name a) (c_name b)) caps <-> StronglySorted before caps) as Hs.
  { split; (induction 1 as [|c l _ IH Hf]; constructor; [exact IH|]; eapply Forall_impl; [exact Hf|]; intros x; apply str_lt_lexical). }
  rewrite Forall_forall. unfold shape, MAX_NAME. setoid_rewrite name_letters. split.
  - intros [H1 H2 H3]. split; [|by apply Hs]. intros c Hc. destruct (H1 c Hc). split_and!; try done; [lia|lia|]. by apply H2.
  - intros [H1 H2]. split; [| |by apply Hs]; intros c Hc; by destruct (H1 c Hc) as (? & ? & ?).
Qed.

Lemma descends_iff l : descends l = false <-> StronglySorted Z.lt l.
Proof.
  split.
  - intros H. apply Sorted_StronglySorted; [intros x y z; lia|]. induction l as [|a [|b l] IH]; [constructor|by repeat constructor|].
    cbn [descends] in H. apply orb_false_iff in H as [Ha H]. constructor; [by apply IH|]. constructor. lia.
  - intros H%StronglySorted_Sorted. induction H as [|a l Hl IH Hr]; [done|]. destruct l as [|b l]; [done|]. cbn [descends]. inversion Hr; subst.
    rewrite orb_false_iff. split; [lia|done].
Qed.

(** The code's checks are the document's, but for the count of capabilities. *)
Lemma message_ok_well_formed m : message_ok m <-> well_formed m /\ Z.of_nat (length (listed m)) <= MAX_CAPABILITIES.
Proof.
  rewrite message_ok_iff.
  assert (forall s, validate_selection s = Ok tt <-> well_formed_selection s /\ Z.of_nat (length (s_capabilities s)) <= MAX_CAPABILITIES) as Hsel.
  { intros s. rewrite validate_selection_Ok, valid_caps_iff. unfold NATIVE_PROFILE, PROFILE_VERSION. split.
    - intros (? & ? & ? & ? & ? & ? & ?). split; [|done]. split; try done. by apply well_formed_caps_iff.
    - intros [[? [? ?] ? (? & ?)%well_formed_caps_iff] ?]. done. }
  assert (forall o, validate_offer o = Ok tt <-> well_formed_offer o /\ Z.of_nat (length (o_capabilities o)) <= MAX_CAPABILITIES) as Hoff.
  { intros o. rewrite validate_offer_Ok, valid_caps_iff, descends_iff. unfold NATIVE_PROFILE, PROFILE_VERSION, MAX_VERSIONS. split.
    - intros (? & ? & ? & ? & ? & ? & ? & ?). split; [|done]. split; try done; [lia|]. by apply well_formed_caps_iff.
    - intros [[? ? [? ?] ? (? & ?)%well_formed_caps_iff] ?]. split_and!; try done; lia. }
  destruct m as [o|o|s|q d r|b s u|b]; cbn [well_formed listed length]; rewrite ?Hsel, ?Hoff; unfold MAX_CAPABILITIES; naive_solver lia.
Qed.

Lemma few_bytes caps : Forall shape caps -> (length caps <= 16)%nat -> caps_bytes caps <= 4 + 16 * 71.
Proof.
  intros Hs Hl. unfold caps_bytes. assert (foldr (fun c n => 7 + len (c_name c) + n) 0 caps <= 71 * Z.of_nat (length caps)); [|lia].
  clear Hl. induction Hs as [|c l (Hn & _) _ IH]; [done|]. cbn [foldr length]. unfold MAX_NAME in *. lia.
Qed.

(** A message within the document's bounds is a short record. *)
Lemma documented_small m : well_formed m -> few m -> 24 + len (body m) <= 1271.
Proof.
  unfold few. intros Hw Hf.
  assert (forall s, well_formed_selection s -> (length (s_capabilities s) <= 16)%nat -> len (selection_body s) <= 1179) as Hsel.
  { intros s [_ _ _ [Hc _]%well_formed_caps_iff] Hl. rewrite selection_length. pose proof (few_bytes _ Hc Hl).
    unfold selection_bytes, LIMIT_BYTES. lia. }
  assert (forall o, well_formed_offer o -> (length (o_capabilities o) <= 16)%nat -> len (offer_body o) <= 1198) as Hoff.
  { intros o [? _ _ _ [Hc _]%well_formed_caps_iff] Hl. rewrite offer_length. pose proof (few_bytes _ Hc Hl).
    unfold offer_bytes, LIMIT_BYTES. lia. }
  destruct m as [o|o|s|q d r|b s u|b]; cbn [body well_formed listed] in *.
  1,2: specialize (Hoff o Hw Hf); lia.
  - specialize (Hsel s Hw Hf). lia.
  - unfold len, role_bytes. rewrite !length_app, !be_length. lia.
  - destruct Hw as (_ & _ & Hw). specialize (Hsel s Hw Hf). unfold len in *. rewrite !length_app, !be_length. cbn [length]. lia.
  - unfold len. rewrite be_length. lia.
Qed.

Section codec.
Context (reserve : Alloc -> bool) (Hreserve : forall a, reserve a = true) (maximum expected : Z).

(** The decoder and the record layer agree on which frames are startup messages. *)
Lemma decode_iff bs m : fits u32_max expected -> Forall is_byte bs ->
  decode reserve bs maximum expected = Ok m <->
  message_typed expected m /\ message_ok m
  /\ decode_bounded bs (Z.min maximum MAX_RECORD) expected None = Ok (mk_record (kind m) expected (body m)).
Proof using Hreserve.
  intros He Hbytes. unfold decode. split.
  - intros (r & Hr & H)%Result_bind_Ok.
    destruct (decode_bounded bs (Z.min maximum MAX_RECORD) expected None) as [r'|] eqn:Ed; [|done]. injection Hr as ->.
    pose proof Ed as (exts & Hok & Hb & _ & Hf & _)%decode_only_frames; [|done..]. destruct r as [k bi p]. cbn [WireRecord.kind payload rbinding] in *.
    subst bi. destruct Hok as (_ & Hinit & _). case_bool_decide; [by apply Result_bind_Ok in H as (? & _ & ?)|].
    destruct (initial k && negb (expected =? 0)) eqn:Ei; [done|]. run_reader H.
    assert (Forall is_byte p) as Hp by (rewrite Hf in Hbytes; unfold frame_of in Hbytes; rewrite !Forall_app in Hbytes; tauto).
    apply method_bind_Ok in H as (x & s & Hx & H). apply (message_read_exact reserve Hreserve) in Hx as ((<- & Ht & Hv) & -> & Hs); [| | |done].
    + apply method_bind_Ok in H as (? & ? & Hfin & [= -> ->]). unfold wire in Hfin. destruct (rfinish s) as [[]] eqn:Es; [|done].
      apply rfinish_Ok in Es as ->. by rewrite app_nil_r.
    + intros Hi. rewrite Hi in Ei. cbn in Ei. destruct (Z.eqb_spec expected 0); [done|]. done.
    + intros -> Hz. by specialize (Hinit Hz).
  - intros (Ht & Hv & ->). cbn [map_err mbind Result_bind WireRecord.kind payload].
    rewrite bool_decide_false by (by destruct m). replace (initial (kind m) && negb (expected =? 0)) with false.
    + rewrite <- (app_nil_r (body m)). unfold mbind, M_bind. by rewrite (message_read reserve Hreserve).
    + destruct Ht as [_ Hb]. destruct m; cbn in *; subst; done.
Qed.

Lemma startup_codec : fits u32_max expected ->
  exact_codec (message_typed expected) message_ok kind body (Z.min maximum MAX_RECORD) expected
    (fun m out => encode m maximum out) (fun bs => decode reserve bs maximum expected).
Proof using Hreserve.
  intros He.
  assert (forall m, message_typed expected m -> message_ok m -> expected = 0 -> initial (kind m) = true) as Hinit.
  { intros m [_ Hb] Hok Hz. apply message_ok_iff in Hok. destruct m; cbn in *; try done. by subst. }
  assert (forall m, message_typed expected m -> message_ok m -> data_ok (body m)) as Hdata.
  { intros m Ht Hv. split; [by eapply body_bytes|]. pose proof (body_small m expected Ht Hv). unfold len, u32_max in *. lia. }
  split.
  - intros m out Ht Hv Hf Ho Hu. unfold encode, fits_record in *. rewrite (message_ok_size m Hv). pose proof Ht as [_ ->].
    destruct (Hdata m Ht Hv) as [_ Hl]. rewrite framed_written; unfold len in *; try lia.
    + f_equal. f_equal. lia.
    + by eapply writes_startup_message.
    + by apply Hinit.
  - intros m out Ht Hv. unfold encode. unfold message_ok in Hv. destruct (size m) as [n|e]; [done|by exists e].
  - intros m Ht Hv Hf. destruct (Hdata m Ht Hv) as [Hb Hl]. apply decode_iff; [done|by apply frame_bytes|].
    split_and!; [done..|]. replace None with (channel (kind m)) by (by destruct m). apply decode_frame.
    + split; [done|]. split; [by apply Hinit|]. split; [by repeat constructor|]. cbn. by rewrite Nat.add_0_r.
    + rewrite frame_length. cbn. unfold fits_record in Hf. lia.
  - intros b m Hb Hd. apply decode_iff in Hd as (Ht & Hv & Hr); [|done..].
    apply decode_only_frames in Hr as (exts & Hok & _ & _ & Hf & Hmax); [|done..]. cbn in *. by eauto 10.
Qed.

(** C40.  The codec of the six startup messages keeps to the protocol document.  A
    message within the document's bounds, of at most sixteen capabilities, is a record
    of at most 1271 bytes; where the channel and the buffer have room for it, it is
    written as its one frame, the rest of the buffer untouched, and that frame is read
    back as the message.  Whatever is read is well formed in the document's sense, the
    number of its capabilities aside, and came as exactly its frame, up to optional
    extensions, within the ceiling of a startup record.  A message that is not well
    formed, by a version, profile, name, order, limit, deadline or binding, is refused
    with the buffer untouched. *)
Theorem startup_messages_are_exact :
  fits u32_max expected ->
  (forall m out, message_typed expected m -> well_formed m -> few m ->
     let n := 24 + len (body m) in
     let frame := frame_of (kind m) expected (body m) [] in
     n <= 1271 /\
     (n <= Z.min maximum 4096 -> n <= len out <= usize_max ->
      encode m maximum out = (Ok n, frame ++ drop (Z.to_nat n) out) /\ decode reserve frame maximum expected = Ok m)) /\
  (forall bs m, Forall is_byte bs -> decode reserve bs maximum expected = Ok m ->
     message_typed expected m /\ well_formed m /\ len bs <= Z.min maximum 4096 /\
     exists exts, frame_ok (kind m) expected (body m) exts /\ bs = frame_of (kind m) expected (body m) exts) /\
  (forall m out, message_typed expected m -> ~ well_formed m -> exists e, encode m maximum out = (Err e, out)).
Proof using Hreserve.
  intros He. pose proof (startup_codec He) as Hx. split_and!.
  - intros m out Ht Hw Hf n frame. split; [by apply documented_small|]. intros Hn Ho. unfold n, frame, len in *.
    assert (message_ok m) as Hv by (apply message_ok_well_formed; unfold few, MAX_CAPABILITIES in *; split; [done|lia]).
    assert (fits_record body (Z.min maximum MAX_RECORD) m) as Hr by (unfold fits_record, MAX_RECORD; lia).
    rewrite (codec_writes _ _ _ _ _ _ _ _ Hx m out Ht Hv Hr) by lia. rewrite (codec_reads _ _ _ _ _ _ _ _ Hx m Ht Hv Hr).
    split; [|done]. f_equal; [f_equal; lia|]. do 2 f_equal. lia.
  - intros bs m Hb Hd. destruct (codec_accepts _ _ _ _ _ _ _ _ Hx bs m Hb Hd) as (Ht & Hv & Hl & Hf).
    apply message_ok_well_formed in Hv as [Hv _]. done.
  - intros m out Ht Hn. apply (codec_refuses _ _ _ _ _ _ _ _ Hx); [done|]. intros Hv. by apply message_ok_well_formed in Hv as [Hv _].
Qed.

End codec.

(** A hello with two capabilities and its session's opening are written on the initial
    channel and read back; a hello that lists its capabilities in the wrong order is
    refused. *)
Definition hello_caps : list Capability := [mk_cap [97; 46; 98] 1 true; mk_cap [97; 99] 2 false].
Definition hello_offer (caps : list Capability) : Offer := mk_offer [0; 3] 1 0 RequestControl Limits.ABSOLUTE caps.
Definition hello_opened : Message :=
  SessionOpened (mk_control 7 11 12 13) (mk_selection 0 1 0 Observe Limits.ABSOLUTE hello_caps) 5000000.

Lemma hello_typed m : m ∈ [ClientHello (hello_offer hello_caps); ClientHello (hello_offer (rev hello_caps)); hello_opened] -> message_typed 0 m.
Proof.
  assert (wire_form Limits.ABSOLUTE) as Ha by (split; [apply Limits.absolute_valid|done]).
  intros H. repeat (apply elem_of_cons in H as [->|H]); [..|by apply not_elem_of_nil in H]; (split; [|done]);
    cbn; unfold offer_typed, selection_typed, versioned; cbn; split_and!; try exact Ha; repeat constructor; vm_compute; congruence.
Qed.

Lemma startup_messages_are_exact_witness :
  let written m := exists n rest, encode m 4096 (zeros 256) = (Ok n, frame_of (kind m) 0 (body m) [] ++ rest)
    /\ n <= 1271 /\ decode (fun _ => true) (frame_of (kind m) 0 (body m) []) 4096 0 = Ok m in
  written (ClientHello (hello_offer hello_caps)) /\ written hello_opened /\
  exists e, encode (ClientHello (hello_offer (rev hello_caps))) 4096 (zeros 256) = (Err e, zeros 256).
Proof.
  destruct (startup_messages_are_exact (fun _ => true) ltac:(done) 4096 0) as (Hw & _ & Hr); [vm_compute; split; congruence|].
  assert (forall m, message_ok m -> well_formed m) as Hok by (intros m Hm; by apply message_ok_well_formed in Hm as [? _]).
  cbv zeta in *. split; [|split].
  - destruct (Hw (ClientHello (hello_offer hello_caps)) (zeros 256)) as [Hn Hd]; [apply hello_typed; set_solver|by apply Hok|vm_compute; lia|].
    destruct Hd as [He Hd]; [vm_compute; congruence|vm_compute; split; congruence|]. eexists _, _. split; [exact He|]. by split.
  - destruct (Hw hello_opened (zeros 256)) as [Hn Hd]; [apply hello_typed; set_solver|by apply Hok|vm_compute; lia|].
    destruct Hd as [He Hd]; [vm_compute; congruence|vm_compute; split; congruence|]. eexists _, _. split; [exact He|]. by split.
  - apply Hr; [apply hello_typed; set_solver|]. intros H.
    assert (message_ok (ClientHello (hello_offer (rev hello_caps)))) as Hno by (apply message_ok_well_formed; split; [exact H|vm_compute; congruence]).
    vm_compute in Hno. discriminate Hno.
Defined.

End NegotiationCodec.

(** * Intersections *)

Module NegotiationProps.
Import Negotiation.
Import NegotiationCodec(validate_offer_Ok, validate_selection_Ok, str_lt_irrefl, str_lt_trans, before, before_trans, before_antisymm,
  shape, valid_caps_iff).
#[local] Existing Instances before_trans before_antisymm.

(** In a sorted list a name occurs once. *)
Lemma name_unique caps x y : StronglySorted before caps -> x ∈ caps -> y ∈ caps -> c_name x = c_name y -> x = y.
Proof.
  induction 1 as [|c l Hs IH Hf]; intros Hx Hy Hn; [by apply not_elem_of_nil in Hx|]. rewrite Forall_forall in Hf. unfold before in Hf.
  apply elem_of_cons in Hx as [->|Hx]; apply elem_of_cons in Hy as [->|Hy]; [done| | |by apply IH].
  - specialize (Hf y Hy). rewrite Hn, str_lt_irrefl in Hf. done.
  - specialize (Hf x Hx). rewrite Hn, str_lt_irrefl in Hf. done.
Qed.

Lemma sorted_NoDup caps : StronglySorted before caps -> NoDup caps.
Proof.
  induction 1 as [|c l Hs IH Hf]; constructor; [|done]. intros Hc. rewrite Forall_forall in Hf. specialize (Hf c Hc).
  unfold before in Hf. by rewrite str_lt_irrefl in Hf.
Qed.

(** ** Common capabilities *)

Lemma same_cap_iff c p : same_cap c p = true <-> c_name p = c_name c /\ c_version p = c_version c.
Proof. unfold same_cap. rewrite andb_true_iff, bool_decide_eq_true, Z.eqb_eq. done. Qed.

(** The capability two ends share. *)
Definition joined (x y : Capability) : Capability := mk_cap (c_name x) (c_version x) (c_required x || c_required y).
Definition shared (a b : list Capability) (c : Capability) : Prop :=
  exists x y, x ∈ a /\ y ∈ b /\ c_name y = c_name x /\ c_version y = c_version x /\ c = joined x y.

Lemma elem_of_common a b c : StronglySorted before b -> c ∈ common a b <-> shared a b c.
Proof.
  intros Hb. unfold common. rewrite list_elem_of_omap. split.
  - intros (x & Hx & Hf). destruct (find_first (same_cap x) b) as [y|] eqn:E; [|done]. injection Hf as <-.
    apply find_first_Some in E as [Hy [? ?]%same_cap_iff]. by exists x, y.
  - intros (x & y & Hx & Hy & Hn & Hv & ->). exists x. split; [done|].
    destruct (find_first (same_cap x) b) as [z|] eqn:E.
    + apply find_first_Some in E as [Hz [Hzn _]%same_cap_iff]. cbn. rewrite (name_unique b z y); [done..|congruence].
    + rewrite find_first_None in E. specialize (E y Hy). rewrite (proj2 (same_cap_iff x y)) in E by done. done.
Qed.

Lemma common_sorted a b : Forall shape a -> StronglySorted before a ->
  Forall shape (common a b) /\ StronglySorted before (common a b) /\ (length (common a b) <= length a)%nat
  /\ (forall n, Forall (fun c => str_lt n (c_name c) = true) a -> Forall (fun c => str_lt n (c_name c) = true) (common a b)).
Proof.
  intros Hs H. induction H as [|x l Hso IH Hf]; [by split_and!; try constructor|]. inversion Hs as [|? ? Hx Hl]; subst.
  destruct (IH Hl) as (IH1 & IH2 & IH3 & IH4). unfold common in *. cbn [omap list_omap].
  destruct (find_first (same_cap x) b) as [y|]; cbn [mbind option_bind].
  - split_and!; [by constructor| |cbn; lia|].
    + constructor; [done|]. apply (IH4 (c_name x)). exact Hf.
    + intros n Hn. inversion Hn; subst. constructor; [done|]. by apply IH4.
  - split_and!; [done|done|cbn; lia|]. intros n Hn. inversion Hn; subst. by apply IH4.
Qed.

Lemma common_valid a b : valid_caps a = Ok tt -> valid_caps (common a b) = Ok tt.
Proof. rewrite !valid_caps_iff. intros (Hl & Hs & Hso). destruct (common_sorted a b Hs Hso) as (? & ? & ? & _). split_and!; [lia|done..]. Qed.

Lemma shared_comm a b c : shared a b c <-> shared b a c.
Proof.
  assert (forall a b, shared a b c -> shared b a c) as H; [|split; apply H].
  intros a' b' (x & y & Hx & Hy & Hn & Hv & ->). exists y, x. split_and!; [done..|congruence|congruence|].
  unfold joined. rewrite Hn, Hv. f_equal. apply orb_comm.
Qed.

(** Both ends compute the same list. *)
Lemma common_comm a b : valid_caps a = Ok tt -> valid_caps b = Ok tt -> common a b = common b a.
Proof.
  rewrite !valid_caps_iff. intros (_ & Ha & Hsa) (_ & Hb & Hsb).
  destruct (common_sorted a b Ha Hsa) as (_ & S1 & _), (common_sorted b a Hb Hsb) as (_ & S2 & _).
  apply (StronglySorted_unique before); [done..|]. apply NoDup_Permutation; [by apply sorted_NoDup..|].
  intros c. rewrite !elem_of_common by done. apply shared_comm.
Qed.

(** ** Terms *)

(** What a selection owes an offer. *)
Record honours (role : Role) (limits : Limits.ProtocolLimits) (caps : list Capability) (o : Offer) : Prop := {
  h_limits : Limits.tighter limits (o_limits o);
  h_known c : c ∈ caps -> exists x, x ∈ o_capabilities o /\ c_name x = c_name c /\ c_version x = c_version c;
  h_required x : x ∈ o_capabilities o -> c_required x = true ->
    exists c, c ∈ caps /\ c_name c = c_name x /\ c_version c = c_version x /\ c_required c = true }.

Lemma negotiated_tighter p q : Limits.negotiated p q = p <-> Limits.tighter p q.
Proof.
  split.
  - intros H f. rewrite <- H, Limits.lim_negotiated. lia.
  - intros H. apply Limits.limits_ext. intros f. rewrite Limits.lim_negotiated. specialize (H f). lia.
Qed.

Lemma existsb_iff {A} (f : A -> bool) l : existsb f l = true <-> exists x, x ∈ l /\ f x = true.
Proof. rewrite existsb_exists. by setoid_rewrite list_elem_of_In. Qed.
Lemma existsb_false {A} (f : A -> bool) l : existsb f l = false <-> forall x, x ∈ l -> f x = false.
Proof.
  split.
  - intros H x Hx. destruct (f x) eqn:E; [|done]. enough (existsb f l = true) by congruence. apply existsb_iff. by exists x.
  - intros H. destruct (existsb f l) eqn:E; [|done]. apply existsb_iff in E as (x & Hx & Hf). by rewrite H in Hf.
Qed.

Lemma contains_iff v l : contains v l = true <-> v ∈ l.
Proof. unfold contains. rewrite existsb_iff. split; [by intros (x & Hx & ->%Z.eqb_eq)|]. intros H. exists v. split; [done|apply Z.eqb_refl]. Qed.

Lemma lacks_required_false a b : lacks_required a b = false <->
  forall x, x ∈ a -> c_required x = true -> exists y, y ∈ b /\ c_name y = c_name x /\ c_version y = c_version x.
Proof.
  unfold lacks_required. rewrite existsb_false. apply forall_proper. intros x. split.
  - intros H Hx Hr. specialize (H Hx). rewrite Hr in H. cbn in H. apply negb_false_iff, existsb_iff in H as (y & Hy & [? ?]%same_cap_iff). by exists y.
  - intros H Hx. destruct (c_required x) eqn:E; [|done]. destruct (H Hx eq_refl) as (y & Hy & ? & ?). cbn. apply negb_false_iff, existsb_iff.
    exists y. split; [done|]. by apply same_cap_iff.
Qed.

(** What [intersect] returns, and when. *)
Lemma intersect_Ok reserve self peer r : intersect reserve self peer = Ok r <->
  validate_offer self = Ok tt /\ validate_offer peer = Ok tt /\ 0 ∈ o_versions self /\ 0 ∈ o_versions peer
  /\ lacks_required (o_capabilities self) (o_capabilities peer) = false
  /\ lacks_required (o_capabilities peer) (o_capabilities self) = false /\ reserve AIntersection = true
  /\ r = mk_offer [0] NATIVE_PROFILE PROFILE_VERSION (o_role peer) (Limits.negotiated (o_limits self) (o_limits peer))
           (common (o_capabilities self) (o_capabilities peer)).
Proof.
  unfold intersect. rewrite <- !contains_iff.
  destruct (validate_offer self) as [[]|] eqn:E1; cbn [mbind Result_bind]; [|naive_solver].
  destruct (validate_offer peer) as [[]|] eqn:E2; cbn [mbind Result_bind]; [|naive_solver].
  apply validate_offer_Ok in E1 as (_ & _ & -> & -> & _).
  destruct (contains 0 (o_versions self)), (contains 0 (o_versions peer)); cbn; try naive_solver.
  destruct (lacks_required _ _); cbn; [naive_solver|]. destruct (lacks_required _ _); cbn; [naive_solver|].
  destruct (reserve AIntersection); cbn; naive_solver.
Qed.

(** The intersection is a valid offer itself. *)
Lemma intersect_valid reserve self peer r : intersect reserve self peer = Ok r -> validate_offer r = Ok tt.
Proof.
  intros (Hs & Hp & _ & _ & _ & _ & _ & ->)%intersect_Ok. apply validate_offer_Ok in Hs as (_ & _ & _ & _ & Hl & Hc), Hp as (_ & _ & _ & _ & Hl' & _).
  apply validate_offer_Ok. cbn. split_and!; try done; [lia|by apply common_valid].
Qed.

(** It honours both offers. *)
Lemma intersect_honours reserve self peer r : intersect reserve self peer = Ok r ->
  honours (o_role r) (o_limits r) (o_capabilities r) self /\ honours (o_role r) (o_limits r) (o_capabilities r) peer.
Proof.
  intros (Hs & Hp & _ & _ & Hl1 & Hl2 & _ & ->)%intersect_Ok. cbn [o_role o_limits o_capabilities].
  apply validate_offer_Ok in Hs as (_ & _ & _ & _ & _ & Ha), Hp as (_ & _ & _ & _ & _ & Hb).
  pose proof (proj1 (valid_caps_iff _) Ha) as (_ & _ & Sa). pose proof (proj1 (valid_caps_iff _) Hb) as (_ & _ & Sb).
  rewrite lacks_required_false in Hl1, Hl2. split; split.
  - intros f. rewrite Limits.lim_negotiated. lia.
  - intros c (x & y & Hx & Hy & Hn & Hv & ->)%elem_of_common; [|done]. exists x. by split_and!.
  - intros x Hx Hr. destruct (Hl1 x Hx Hr) as (y & Hy & Hn & Hv). exists (joined x y). cbn. rewrite Hr. split_and!; [|done..].
    apply elem_of_common; [done|]. by exists x, y.
  - intros f. rewrite Limits.lim_negotiated. lia.
  - intros c (x & y & Hx & Hy & Hn & Hv & ->)%elem_of_common; [|done]. exists y. by split_and!.
  - intros y Hy Hr. destruct (Hl2 y Hy Hr) as (x & Hx & Hn & Hv). exists (joined x y). cbn. rewrite Hr, orb_true_r. split_and!; [|done..].
    apply elem_of_common; [done|]. by exists x, y.
Qed.

(** ** The viewer's check *)

Lemma check_host_Ok self host : check_host self host = Ok tt <->
  validate_offer self = Ok tt /\ validate_offer host = Ok tt /\ o_versions host = [0] /\ 0 ∈ o_versions self
  /\ o_role host = o_role self /\ honours (o_role host) (o_limits host) (o_capabilities host) self.
Proof.
  unfold check_host. destruct (validate_offer self) as [[]|]; cbn [mbind Result_bind]; [|naive_solver].
  destruct (validate_offer host) as [[]|]; cbn [mbind Result_bind]; [|naive_solver]. rewrite <- contains_iff.
  case_bool_decide as H1; cbn [negb orb]; [|naive_solver]. destruct (contains 0 (o_versions self)); cbn [negb orb]; [|naive_solver].
  case_bool_decide as H2; cbn [negb orb]; [|naive_solver].
  case_bool_decide as H3; cbn [negb orb]; rewrite negotiated_tighter in H3; [|split; [done|]; intros (_ & _ & _ & _ & _ & [? _ _]); done].
  destruct (existsb _ (o_capabilities host)) eqn:E1; cbn [orb].
  { split; [done|]. intros (_ & _ & _ & _ & _ & [_ Hk _]). apply existsb_iff in E1 as (c & Hc & E1%negb_true_iff).
    destruct (Hk c Hc) as (x & Hx & Hn). rewrite existsb_false in E1. specialize (E1 x Hx). by rewrite (proj2 (same_cap_iff c x) Hn) in E1. }
  destruct (existsb _ (o_capabilities self)) eqn:E2.
  { split; [done|]. intros (_ & _ & _ & _ & _ & [_ _ Hq]). apply existsb_iff in E2 as (x & Hx & [Hr E2%negb_true_iff]%andb_true_iff).
    destruct (Hq x Hx Hr) as (c & Hc & Hn & Hv & Hcr). rewrite existsb_false in E2. specialize (E2 c Hc).
    by rewrite (proj2 (same_cap_iff x c)), Hcr in E2. }
  split; [|done]. intros _. split_and!; [done..|]. rewrite existsb_false in E1, E2. split; [done| |].
  - intros c Hc. specialize (E1 c Hc). apply negb_false_iff, existsb_iff in E1 as (x & Hx & Hs%same_cap_iff). by exists x.
  - intros x Hx Hr. specialize (E2 x Hx). rewrite Hr in E2. apply negb_false_iff, existsb_iff in E2 as (c & Hc & [[? ?]%same_cap_iff ?]%andb_true_iff).
    by exists c.
Qed.

Lemma select_Ok o s : select o = Ok s <-> validate_offer o = Ok tt /\ 0 ∈ o_versions o
  /\ s = mk_selection 0 NATIVE_PROFILE PROFILE_VERSION (o_role o) (o_limits o) (o_capabilities o).
Proof.
  unfold select. rewrite <- contains_iff. destruct (validate_offer o) as [[]|] eqn:E; cbn [mbind Result_bind]; [|naive_solver].
  apply validate_offer_Ok in E as (_ & _ & -> & -> & _). destruct (contains 0 (o_versions o)); cbn; naive_solver.
Qed.

(** ** The host's check *)

Lemma check_against_Ok s o : check_against s o = Ok tt <->
  validate_selection s = Ok tt /\ validate_offer o = Ok tt /\ s_version s ∈ o_versions o /\ s_role s = o_role o
  /\ Limits.tighter (s_limits s) (o_limits o) /\ (forall c, c ∈ s_capabilities s -> c ∈ o_capabilities o)
  /\ (forall c, c ∈ o_capabilities o -> c_required c = true -> c ∈ s_capabilities s).
Proof.
  unfold check_against. destruct (validate_selection s) as [[]|]; cbn [mbind Result_bind]; [|naive_solver].
  destruct (validate_offer o) as [[]|]; cbn [mbind Result_bind]; [|naive_solver]. rewrite <- contains_iff.
  destruct (contains _ _); cbn [negb orb]; [|naive_solver]. case_bool_decide; cbn [negb orb]; [|naive_solver].
  case_bool_decide as H3; cbn [negb orb]; rewrite negotiated_tighter in H3; [|naive_solver].
  assert (forall (c : Capability) l, existsb (fun p => bool_decide (p = c)) l = true <-> c ∈ l) as Hin.
  { intros c l. rewrite existsb_iff. split; [by intros (x & Hx & ->%bool_decide_eq_true)|]. intros Hc. exists c. by rewrite bool_decide_eq_true. }
  destruct (existsb _ (s_capabilities s)) eqn:E1; cbn [orb].
  { split; [done|]. intros (_ & _ & _ & _ & _ & Hk & _). apply existsb_iff in E1 as (c & Hc & E1%negb_true_iff). apply Hk, Hin in Hc. congruence. }
  destruct (existsb _ (o_capabilities o)) eqn:E2.
  { split; [done|]. intros (_ & _ & _ & _ & _ & _ & Hq). apply existsb_iff in E2 as (c & Hc & [Hr E2%negb_true_iff]%andb_true_iff).
    specialize (Hq c Hc Hr). apply Hin in Hq. congruence. }
  split; [|done]. intros _. split_and!; [done..| |]; rewrite existsb_false in E1, E2.
  - intros c Hc. specialize (E1 c Hc). by apply negb_false_iff, Hin in E1.
  - intros c Hc Hr. specialize (E2 c Hc). rewrite Hr in E2. by apply negb_false_iff, Hin in E2.
Qed.

(** A selection the host accepts honours whatever its intersection honoured. *)
Lemma check_against_honours s o p : check_against s o = Ok tt -> honours (o_role o) (o_limits o) (o_capabilities o) p ->
  honours (s_role s) (s_limits s) (s_capabilities s) p.
Proof.
  intros (_ & _ & _ & _ & Ht & Hk & Hq)%check_against_Ok [H1 H2 H3]. split.
  - intros f. specialize (Ht f). specialize (H1 f). lia.
  - intros c Hc. by apply H2, Hk.
  - intros x Hx Hr. destruct (H3 x Hx Hr) as (c & Hc & ? & ? & ?). exists c. split_and!; try done. by apply Hq.
Qed.

(** ** The whole exchange *)

(** What the host offers passes the viewer's check; what the viewer selects is all of
    it and passes the host's. *)
Lemma exchange_agrees reserve self peer r : intersect reserve self peer = Ok r ->
  check_host peer r = Ok tt /\
  select r = Ok (mk_selection 0 NATIVE_PROFILE PROFILE_VERSION (o_role peer) (o_limits r) (o_capabilities r)) /\
  check_against (mk_selection 0 NATIVE_PROFILE PROFILE_VERSION (o_role peer) (o_limits r) (o_capabilities r)) r = Ok tt.
Proof.
  intros H. pose proof (intersect_valid _ _ _ _ H) as Hv. pose proof (intersect_honours _ _ _ _ H) as [_ Hh].
  apply intersect_Ok in H as (Hs & Hp & H0 & H0' & _ & _ & _ & Er). subst r. cbn [o_role o_limits o_capabilities o_versions] in *. split_and!.
  - apply check_host_Ok. by split_and!.
  - apply select_Ok. split_and!; [done|by apply list_elem_of_singleton|done].
  - apply check_against_Ok. cbn [s_version s_role s_limits s_capabilities o_versions o_role o_limits o_capabilities].
    apply validate_offer_Ok in Hv as Hv'. destruct Hv' as (_ & _ & _ & _ & Hl & Hc).
    split_and!; [by apply validate_selection_Ok|done|by apply list_elem_of_singleton|done|intros f; lia|done|done].
Qed.

(** C19.  Negotiation is fair and complete.  Of two valid offers that both know version
    zero, the intersection is refused exactly when one side requires a capability the
    other lacks.  Otherwise it contains the capabilities the two share by name and
    version and no other, required as soon as one side requires them, with the
    field-wise least limits and the role the peer asked for; the peer's check of it
    passes, so does the host's check of what the peer selects from it, and the two
    ends computing it from their own side get the same capabilities and limits. *)
Theorem negotiation_is_fair reserve self peer :
  (forall a, reserve a = true) -> validate_offer self = Ok tt -> validate_offer peer = Ok tt ->
  0 ∈ o_versions self -> 0 ∈ o_versions peer ->
  let lacking a b := exists x, x ∈ o_capabilities a /\ c_required x = true /\
    forall y, y ∈ o_capabilities b -> ~ (c_name y = c_name x /\ c_version y = c_version x) in
  (intersect reserve self peer = Err RequiredCapability /\ (lacking self peer \/ lacking peer self))
  \/ (~ lacking self peer /\ ~ lacking peer self /\ exists r s,
      intersect reserve self peer = Ok r /\ check_host peer r = Ok tt /\ select r = Ok s /\ check_against s r = Ok tt
      /\ s_role s = o_role peer /\ s_limits s = Limits.negotiated (o_limits self) (o_limits peer)
      /\ (forall c, c ∈ s_capabilities s <-> shared (o_capabilities self) (o_capabilities peer) c)
      /\ exists r', intersect reserve peer self = Ok r' /\ o_capabilities r' = o_capabilities r /\ o_limits r' = o_limits r).
Proof.
  intros Hres Hs Hp H0 H0' lacking.
  assert (forall a b, lacks_required (o_capabilities a) (o_capabilities b) = true <-> lacking a b) as Hl.
  { intros a b. unfold lacks_required, lacking. rewrite existsb_iff. apply exist_proper. intros x.
    rewrite andb_true_iff, negb_true_iff, existsb_false. split.
    - intros (Hx & Hr & H). split_and!; [done..|]. intros y Hy E. specialize (H y Hy). by rewrite (proj2 (same_cap_iff x y) E) in H.
    - intros (Hx & Hr & H). split_and!; [done..|]. intros y Hy. destruct (same_cap x y) eqn:E; [|done]. apply same_cap_iff in E. by destruct (H y Hy). }
  pose proof Hs as (_ & _ & _ & _ & _ & Ha)%validate_offer_Ok. pose proof Hp as (_ & _ & _ & _ & _ & Hb)%validate_offer_Ok.
  destruct (lacks_required (o_capabilities self) (o_capabilities peer)) eqn:E1; [|destruct (lacks_required (o_capabilities peer) (o_capabilities self)) eqn:E2].
  3:{ right. split; [rewrite <- Hl; congruence|]. split; [rewrite <- Hl; congruence|].
    set (r := mk_offer [0] NATIVE_PROFILE PROFILE_VERSION (o_role peer) (Limits.negotiated (o_limits self) (o_limits peer))
                (common (o_capabilities self) (o_capabilities peer))).
    assert (intersect reserve self peer = Ok r) as Hr by (apply intersect_Ok; by split_and!).
    destruct (exchange_agrees _ _ _ _ Hr) as (Hc & Hsel & Hag). eexists r, _. split_and!; [done|exact Hc|exact Hsel|exact Hag|done|done| |].
    - intros c. cbn. apply elem_of_common. by apply valid_caps_iff.
    - eexists. split; [apply intersect_Ok; by split_and!|]. cbn. split; [by apply common_comm|].
      apply Limits.limits_ext. intros f. rewrite !Limits.lim_negotiated. apply Z.min_comm. }
  all: left; split; [|rewrite <- !Hl; auto].
  all: unfold intersect; rewrite Hs, Hp; cbn [mbind Result_bind]; rewrite (proj2 (contains_iff 0 _) H0), (proj2 (contains_iff 0 _) H0'); cbn [negb orb]; by rewrite ?E1, ?E2.
Qed.

Definition demo_cap (name version : Z) (required : bool) : Capability := mk_cap [name] version required.
Definition demo_viewer : Offer :=
  mk_offer [0; 3] 1 0 RequestControl Limits.ABSOLUTE [demo_cap 97 1 true; demo_cap 98 2 false; demo_cap 102 1 false].
Definition demo_host : Offer :=
  mk_offer [0] 1 0 Observe Limits.ABSOLUTE [demo_cap 97 1 false; demo_cap 98 3 false; demo_cap 102 1 true].

Lemma negotiation_is_fair_witness :
  intersect (fun _ => true) demo_host demo_viewer = Err RequiredCapability \/
  exists r s, intersect (fun _ => true) demo_host demo_viewer = Ok r /\ select r = Ok s /\ check_against s r = Ok tt.
Proof.
  destruct (negotiation_is_fair (fun _ => true) demo_host demo_viewer) as [[H _]|(_ & _ & r & s & H & _ & Hs & Hc & _)];
    [done|reflexivity|reflexivity|apply elem_of_cons; by left|apply elem_of_cons; by left|by left|].
  right. by exists r, s.
Defined.

End NegotiationProps.
