(* ===== verification/Startup.v ===== *)
(** * Session startup

    [fr-client/src/startup.rs]: the viewer's half of the startup protocol.
    [frd/src/session_startup.rs]: the host's half, from the first record to the
    transfer of the observation authority, with the local consent that stands in
    between.

    The host reads its clock, its peer's admission lease and its transport many times
    in one call, while the consent dialogue runs on another thread.  What it finds is
    a list of [Moment]s, one per reading of the clock: the decisions the dialogue takes
    before it, the time, and the answers of lease and transport then.  The answers of
    the transport to a send, a rebind and a receive are arguments of a step. *)

From S2P Require Import Prelude.
From S2P Require Import CoreTime.
From S2P Require Import Authority.
From S2P Require Import Limits.
From S2P Require Import Bytes.
From S2P Require Import WireRecord.
From S2P Require Import WireControl.
From S2P Require Import Negotiation.

(** [(limits.max_control_message_bytes() as usize).min(negotiation::MAX_RECORD)]. *)
Definition record_limit (l : Limits.ProtocolLimits) : Z := Z.min (Limits.max_control_message_bytes l) Negotiation.MAX_RECORD.
(** [[0; negotiation::MAX_RECORD]]. *)
Definition blank : bytes := zeros 4096.
#[global] Arguments blank : simpl never.

(** ** The viewer *)

Module Client.
Import Negotiation.

Definition MAX_TIMEOUT_US : Z := 60000000.

Inductive Error := Protocol (e : Negotiation.Error) | Order | Clock | Expired | ApprovalUnanswered | Closed.

Inductive Phase :=
| Hello | Capabilities | SelectionPhase | Open | Bind | Ack | Complete
| InspectionClose | InspectionClosed | Inspected | ClosedPhase.
#[export] Instance Phase_eq_dec : EqDecision Phase.
Proof. solve_decision. Defined.

Record Opened := mk_opened { op_binding : ControlBinding; op_selection : Selection; op_until : Z }.
Record ApprovalNotice := mk_notice { request : Z; host_deadline_us : Z }.

Record Startup := mk_startup {
  offer : Offer;
  selection : option Selection;
  opened : option Opened;
  approval : option ApprovalNotice;
  inspection : bool;
  inspected : option Offer;
  created_us : Z;
  phase : Phase;
  buffer : bytes;
  pending_len : Z;
  maximum : Z;
  last_us : Z;
  until_us : Z }.
#[export] Instance eta_startup : Eta Startup := fun r =>
  mk_startup (offer r) (selection r) (opened r) (approval r) (inspection r) (inspected r) (created_us r) (phase r)
    (buffer r) (pending_len r) (maximum r) (last_us r) (until_us r).

Abbreviation CM := (M Startup Error).

Definition close (s : Startup) : Startup :=
  s <| phase := ClosedPhase |> <| pending_len := 0 |> <| opened := None |> <| selection := None |>
    <| approval := None |> <| inspected := None |> <| buffer := blank |>.

(** [self.len = encode(.., self.maximum, &mut self.bytes)?]. *)
Definition stage (enc : Z -> bytes -> Result Negotiation.Error Z * bytes) : CM unit := fun s =>
  let '(r, b) := enc (maximum s) (buffer s) in
  match r with
  | Ok n => (Ok tt, s <| buffer := b |> <| pending_len := n |>)
  | Err e => (Err (Protocol e), s <| buffer := b |>)
  end.

Definition new (o : Offer) (now_us timeout_us : Z) : Result Error Startup :=
  _ ← map_err Protocol (validate_offer o);
  if (timeout_us =? 0) || (MAX_TIMEOUT_US <? timeout_us) then Err Clock
  else
    until_us ← ok_or (checked_add u64_max now_us timeout_us) Clock;
    let this := mk_startup o None None None false None now_us Hello blank 0 (record_limit (o_limits o)) now_us until_us in
    match stage (encode (ClientHello o)) this with
    | (Ok _, s) => Ok s
    | (Err e, _) => Err e
    end.

Definition tick (now_us : Z) : CM unit := fun s =>
  let error :=
    if bool_decide (phase s = ClosedPhase) then Some Closed
    else if now_us <? last_us s then Some Clock
    else if until_us s <=? now_us then Some (if is_some (approval s) then ApprovalUnanswered else Expired)
    else None in
  match error with
  | Some e => (Err e, close s)
  | None => (Ok tt, s <| last_us := now_us |>)
  end.

(** [if result.is_err() { self.close(); }]. *)
Definition or_close {A} (m : CM A) : CM A := fun s =>
  match m s with
  | (Err e, s') => (Err e, close s')
  | r => r
  end.

(** [self.close(); return Err(e)]. *)
Definition close_with {A} (e : Error) : CM A := fun s => (Err e, close s).

Definition begin_inspection (now_us : Z) : CM unit :=
  _ ← tick now_us;
  refused ← gets (fun s => negb (bool_decide (phase s = Hello)) || inspection s || negb (Inspection.requested (offer s)));
  if refused : bool then close_with Order
  else
    _ ← modify (fun s => s <| inspection := true |>
          <| until_us := Z.min (until_us s) (saturating_add u64_max (created_us s) Inspection.MAX_DURATION_US) |>);
    tick now_us.

Definition pending (now_us : Z) : CM (option bytes) :=
  _ ← tick now_us;
  gets (fun s => if negb (pending_len s =? 0) then Some (take (Z.to_nat (pending_len s)) (buffer s)) else None).

Definition sent (now_us : Z) : CM unit :=
  _ ← tick now_us;
  next ← gets (fun s => if pending_len s =? 0 then None else
                 match phase s with
                 | Hello => Some Capabilities
                 | SelectionPhase => Some Open
                 | Ack => Some Complete
                 | InspectionClose => Some InspectionClosed
                 | _ => None
                 end);
  match next with
  | None => close_with Order
  | Some p => modify (fun s => s <| phase := p |> <| pending_len := 0 |>)
  end.

(** [map_err(negotiation::Error::from)?]. *)
Definition wired (enc : Z -> bytes -> Result WireError Z * bytes) (maximum : Z) (out : bytes) : Result Negotiation.Error Z * bytes :=
  let '(r, b) := enc maximum out in (map_err Wire r, b).

Definition receive_host (reserve : Alloc -> bool) (host : Offer) : CM unit :=
  o ← gets offer;
  _ ← lift (map_err Protocol (check_host o host));
  inspecting ← gets inspection;
  if inspecting : bool then
    _ ← refuse_if (fun _ => negb (Inspection.requested host)) (fun _ => Protocol RequiredCapability);
    _ ← modify (fun s => s <| maximum := record_limit (o_limits host) |>);
    _ ← stage (wired Inspection.encode_request);
    modify (fun s => s <| inspected := Some host |> <| phase := InspectionClose |>)
  else
    sel ← lift (map_err Protocol (select host));
    _ ← modify (fun s => s <| maximum := record_limit (s_limits sel) |>);
    _ ← stage (encode (SelectedConfiguration sel));
    modify (fun s => s <| selection := Some sel |> <| phase := SelectionPhase |>).

Definition receive_approval (req deadline_us : Z) (r : Role) : CM unit :=
  _ ← refuse_if (fun s => is_some (approval s) || negb (bool_decide (r = o_role (offer s))) || (deadline_us =? 0)) (fun _ => Order);
  modify (fun s => s <| approval := Some (mk_notice req deadline_us) |>).

Definition receive_opened (b : ControlBinding) (sel : Selection) (until : Z) : CM unit :=
  _ ← refuse_if (fun s => negb (bool_decide (selection s = Some sel)) || (until =? 0)
                          || is_some_and (fun a => negb (request a =? remote_session b)) (approval s)) (fun _ => Order);
  modify (fun s => s <| opened := Some (mk_opened b sel until) |> <| phase := Bind |>).

Definition receive_inner (reserve : Alloc -> bool) (bs : bytes) : CM unit :=
  _ ← refuse_if (fun s => negb (pending_len s =? 0)) (fun _ => Order);
  p ← gets phase;
  max ← gets maximum;
  if bool_decide (p = InspectionClosed) then
    _ ← lift (map_err (fun e => Protocol (Wire e)) (Inspection.decode_closed bs max));
    modify (fun s => s <| phase := Inspected |>)
  else
    m ← lift (map_err Protocol (decode reserve bs max 0));
    match p, m with
    | Capabilities, HostCapabilities host => receive_host reserve host
    | Open, ApprovalRequired req deadline_us r => receive_approval req deadline_us r
    | Open, SessionOpened b sel until => receive_opened b sel until
    | _, _ => fail Order
    end.

Definition receive (reserve : Alloc -> bool) (bs : bytes) (now_us : Z) : CM unit :=
  _ ← tick now_us;
  or_close (receive_inner reserve bs).

Definition binding_to_install (now_us : Z) : CM (option (ControlBinding * Z)) :=
  _ ← tick now_us;
  p ← gets phase;
  if bool_decide (p = Bind) then
    o ← readr (fun s => ok_or (opened s) Order);
    max ← gets maximum;
    mret (Some (op_binding o, max))
  else mret None.

Definition bound (b : Z) (now_us : Z) : CM unit :=
  _ ← tick now_us;
  refused ← gets (fun s => negb (bool_decide (phase s = Bind)) || is_none_or (fun o => negb (cb_id (op_binding o) =? b)) (opened s));
  if refused : bool then close_with Order
  else
    _ ← or_close (stage (encode (BindingAccepted b)));
    modify (fun s => s <| phase := Ack |>).

Definition finish (now_us : Z) (s : Startup) : Result Error Opened :=
  let '(r, s) := tick now_us s in
  _ ← r;
  if negb (bool_decide (phase s = Complete)) then Err Order else ok_or (opened s) Order.

Definition finish_inspection (now_us : Z) (s : Startup) : Result Error Offer :=
  let '(r, s) := tick now_us s in
  _ ← r;
  if negb (bool_decide (phase s = Inspected)) then Err Order else ok_or (inspected s) Order.

End Client.

(** ** The host *)

Module Host.
Import Negotiation.

(** The values of the consent atomic, which starts at zero. *)
Definition WAITING : Z := 1.
Definition ALLOWED : Z := 2.
Definition DENIED : Z := 3.
Definition RETIRED : Z := 4.
Definition CONSUMED : Z := 5.

Inductive Error :=
| InvalidConfiguration | Admission | Protocol (e : Negotiation.Error) | Transport | SharedPublication
| AuthorityRefused | Order | Denied | Expired | Clock | Cancelled | InspectionComplete | Closed.

Inductive Phase := Hello | SelectionPhase | Approval | Bind | Ack | Complete | ClosedPhase | Detached.
#[export] Instance Phase_eq_dec : EqDecision Phase.
Proof. solve_decision. Defined.

Record Configuration := mk_configuration {
  cfg_offer : Offer;
  cfg_binding : ControlBinding;
  cfg_require_approval : bool;
  cfg_startup_timeout : Z;
  cfg_authority : AuthorityPolicy;
  cfg_record_lifetime : Z }.

(** One call of [Approval::decide] by the dialogue, with its own reading of the clock. *)
Record Decision := mk_decision { allow : bool; decided_at : option Z }.

(** What one reading of the clock finds; [None] is a cancelled context or a lease
    that refuses. *)
Record Moment := mk_moment {
  decisions : list Decision;
  time : option Z;
  observe_lease : option Z;
  control_lease : option Z;
  source_open : bool;
  addresses : Result Error unit;
  ended : Result Error bool }.

Record Host := mk_host {
  config : Configuration;
  intersection : option Offer;
  inspection : bool;
  created : Z;
  selected : option Selection;
  authority : SessionAuthority;
  phase : Phase;
  role : Role;
  consent : Z;
  buffer : bytes;
  pending_len : Z;
  maximum : Z;
  last : Z;
  until : Z;
  send_by : Z;
  observation_until : option Z;
  observation_only : bool;
  shared_source : bool;
  (** [routes.inbound.binding]. *)
  inbound : Z;
  (** What is still to happen, the decisions the dialogue has taken and the records
      the transport has accepted. *)
  moments : list Moment;
  taken : list bool;
  outbox : list bytes }.
#[export] Instance eta_host : Eta Host := fun r =>
  mk_host (config r) (intersection r) (inspection r) (created r) (selected r) (authority r) (phase r) (role r) (consent r)
    (buffer r) (pending_len r) (maximum r) (last r) (until r) (send_by r) (observation_until r) (observation_only r)
    (shared_source r) (inbound r) (moments r) (taken r) (outbox r).

Abbreviation HM := (M Host Error).

Definition validate (c : Configuration) : Result Error Z :=
  _ ← map_err Protocol (validate_offer (cfg_offer c));
  timeout ← ok_or (if cfg_startup_timeout c <=? u64_max then Some (cfg_startup_timeout c) else None) InvalidConfiguration;
  let life := authorization_lifetime (cfg_authority c) in
  let ticket := ticket_lifetime (cfg_authority c) in
  let b := cfg_binding c in
  if (timeout =? 0) || (60000000 <? timeout) || (cb_id b =? 0) || (host_boot b =? 0) || (os_session b =? 0)
     || (remote_session b =? 0) || (life =? 0) || (3000000 <? life) || (ticket =? 0) || (life <? ticket)
  then Err InvalidConfiguration else Ok timeout.

(** *** Consent

    [Approval::pending_state] and [Approval::decide], on the thread of the dialogue. *)
Definition decide (d : Decision) (h : Host) : Result Error unit * Host :=
  match decided_at d with
  | None => (Err Cancelled, h)
  | Some t =>
      if until h <=? t then (Err Expired, h)
      else if negb (consent h =? WAITING) then (Err Order, h)
      else (Ok tt, h <| consent := if allow d then ALLOWED else DENIED |> <| taken := taken h ++ [allow d] |>)
  end.

(** *** The environment *)

Definition now : HM (Z * Moment) := fun h =>
  match moments h with
  | [] => (Err Cancelled, h)
  | m :: rest =>
      let h := foldl (fun h d => snd (decide d h)) (h <| moments := rest |>) (decisions m) in
      (match time m with Some t => Ok (t, m) | None => Err Cancelled end, h)
  end.

(** [Peer::check]. *)
Definition peer_check (r : Role) : HM (Z * Moment) :=
  '(current, m) ← now;
  deadline ← lift (ok_or (match r with RequestControl => control_lease m | Observe => observe_lease m end) Admission);
  _ ← refuse_if (fun _ => deadline <=? current) (fun _ => Expired);
  mret (deadline, m).

Definition check : HM Z :=
  _ ← refuse_if (fun h => match phase h with ClosedPhase | Detached => true | _ => false end) (fun _ => Closed);
  '(current, m) ← now;
  _ ← refuse_if (fun h => current <? last h) (fun _ => Clock);
  _ ← refuse_if (fun h => (until h <=? current) || is_some_and (fun d => d <=? current) (observation_until h)) (fun _ => Expired);
  _ ← modify (fun h => h <| last := current |>);
  _ ← refuse_if (fun h => shared_source h && negb (source_open m)) (fun _ => SharedPublication);
  _ ← refuse_if (fun h => (consent h =? DENIED) || (consent h =? RETIRED)) (fun _ => Denied);
  r ← gets role;
  '(_, m) ← peer_check r;
  _ ← lift (addresses m);
  over ← lift (ended m);
  _ ← refuse_if (fun _ => over) (fun _ => Closed);
  mret current.

(** A call of the authority, any refusal of it reported alike. *)
Definition with_authority {A} (op : AuthM A) : HM A := fun h =>
  let '(r, a) := op (authority h) in (map_err (fun _ => AuthorityRefused) r, h <| authority := a |>).

(** *** One pending record *)

(** [self.len = negotiation::encode(message, self.maximum, &mut self.bytes)?]. *)
Definition encode_pending (m : Message) : HM unit := fun h =>
  let '(r, b) := encode m (maximum h) (buffer h) in
  match r with
  | Ok n => (Ok tt, h <| buffer := b |> <| pending_len := n |>)
  | Err e => (Err (Protocol e), h <| buffer := b |>)
  end.

Definition stage (m : Message) : HM unit :=
  _ ← refuse_if (fun h => negb (pending_len h =? 0)) (fun _ => Order);
  current ← check;
  r ← gets role;
  '(peer_until, _) ← peer_check r;
  lifetime ← gets (fun h => cfg_record_lifetime (config h));
  record_until ← lift (ok_or (checked_add u64_max current lifetime) Clock);
  _ ← modify (fun h => h <| send_by := Z.min (Z.min (until h) peer_until) record_until |>);
  _ ← modify (fun h => match observation_until h with Some d => h <| send_by := Z.min (send_by h) d |> | None => h end);
  encode_pending m.

(** [compare_exchange(ALLOWED, CONSUMED)]. *)
Definition consume_consent : HM unit :=
  _ ← refuse_if (fun h => negb (consent h =? ALLOWED)) (fun _ => Denied);
  modify (fun h => h <| consent := CONSUMED |>).

Definition open_observation : HM unit :=
  current ← check;
  needed ← gets (fun h => cfg_require_approval (config h));
  _ ← (if needed : bool then consume_consent else mret tt);
  _ ← with_authority (authorize_observation current);
  deadline ← with_authority (observation_deadline current);
  _ ← modify (fun h => h <| observation_until := Some deadline |>);
  b ← gets (fun h => cfg_binding (config h));
  sel ← readr (fun h => ok_or (selected h) Order);
  _ ← stage (SessionOpened b sel deadline);
  modify (fun h => h <| phase := Bind |>).

(** *** Received records *)

Definition receive_hello (reserve : Alloc -> bool) (o : Offer) : HM unit :=
  _ ← modify (fun h => h <| inspection := Inspection.requested o |>);
  inspecting ← gets inspection;
  _ ← (if inspecting : bool then
         _ ← modify (fun h => h <| until := Z.min (until h) (saturating_add u64_max (created h) Inspection.MAX_DURATION_US) |>);
         _ ← check; mret tt
       else mret tt);
  _ ← refuse_if (fun h => observation_only h && negb (bool_decide (o_role o = Observe))) (fun _ => Denied);
  _ ← peer_check (o_role o);
  own ← gets (fun h => cfg_offer (config h));
  common ← lift (map_err Protocol (if inspecting : bool then Inspection.intersect reserve own o
                                   else Negotiation.intersect reserve own o));
  _ ← modify (fun h => h <| maximum := record_limit (o_limits common) |> <| role := o_role o |>);
  _ ← stage (HostCapabilities common);
  modify (fun h => h <| intersection := Some common |> <| phase := SelectionPhase |>).

Definition receive_selection (sel : Selection) : HM unit :=
  offered ← readr (fun h => ok_or (intersection h) Order);
  _ ← lift (map_err Protocol (check_against sel offered));
  _ ← modify (fun h => h <| maximum := record_limit (s_limits sel) |> <| selected := Some sel |>);
  _ ← with_authority mark_capabilities_checked;
  needed ← gets (fun h => cfg_require_approval (config h));
  if needed : bool then
    _ ← with_authority require_approval;
    b ← gets (fun h => cfg_binding (config h));
    deadline ← gets until;
    r ← gets role;
    _ ← stage (ApprovalRequired (remote_session b) deadline r);
    modify (fun h => h <| consent := WAITING |> <| phase := Approval |>)
  else open_observation.

Definition receive_accepted : HM unit :=
  '(current, _) ← now;
  _ ← with_authority (authorize_observation_delivery current);
  modify (fun h => h <| phase := Complete |>).

Definition consume (reserve : Alloc -> bool) (bs : bytes) : HM unit :=
  _ ← check;
  p ← gets phase;
  inspecting ← gets inspection;
  max ← gets maximum;
  if bool_decide (p = SelectionPhase) && inspecting then
    _ ← refuse_if (fun h => negb (is_some_and Inspection.requested (intersection h))) (fun _ => Order);
    _ ← lift (map_err (fun e => Protocol (Wire e)) (Inspection.decode_request bs max));
    fail InspectionComplete
  else
    expected ← gets inbound;
    m ← lift (map_err Protocol (decode reserve bs max expected));
    own ← gets (fun h => cb_id (cfg_binding (config h)));
    match p, m with
    | Hello, ClientHello o => receive_hello reserve o
    | SelectionPhase, SelectedConfiguration sel => receive_selection sel
    | Ack, BindingAccepted b => if b =? own then receive_accepted else fail Order
    | _, _ => fail Order
    end.

(** *** Steps *)

(** What the transport answers in one step: [Some false] is back-pressure, [None] an
    error of its own; an arrival names whether it came on the control stream. *)
Record Answers := mk_answers {
  a_send : option bool;
  a_bind : option bool;
  a_receive : option (option (bool * bytes)) }.

(** The exchange with the transport: [Ok None] when nothing is to be consumed. *)
Definition exchange (a : Answers) : HM (option bytes) :=
  waiting ← gets (fun h => negb (pending_len h =? 0));
  sent ← (if waiting : bool then
            ok ← lift (ok_or (a_send a) Transport);
            _ ← modify (fun h => if ok : bool then h <| outbox := outbox h ++ [take (Z.to_nat (pending_len h)) (buffer h)] |> <| pending_len := 0 |> else h);
            mret ok
          else mret true);
  if negb sent then mret None
  else
    p ← gets phase;
    bound ← (if bool_decide (p = Bind) then
               ok ← lift (ok_or (a_bind a) Transport);
               _ ← modify (fun h => if ok : bool then h <| inbound := cb_id (cfg_binding (config h)) |> <| phase := Ack |> else h);
               mret ok
             else mret true);
    if negb bound then mret None
    else
      arrival ← lift (ok_or (a_receive a) Transport);
      match arrival with
      | None => mret None
      | Some (on_control, bs) =>
          _ ← refuse_if (fun h => negb on_control || (maximum h <? len bs)) (fun _ => Transport);
          mret (Some bs)
      end.

Definition step (reserve : Alloc -> bool) (a : Answers) : HM unit :=
  _ ← check;
  p ← gets phase;
  if bool_decide (p = Complete) then mret tt
  else
    ready ← gets (fun h => bool_decide (phase h = Approval) && (pending_len h =? 0) && (consent h =? ALLOWED));
    _ ← (if ready : bool then open_observation else mret tt);
    arrived ← exchange a;
    _ ← match arrived with Some bs => consume reserve bs | None => mret tt end;
    _ ← check;
    mret tt.

Definition close (h : Host) : Host :=
  if bool_decide (phase h = Detached) then h
  else h <| phase := ClosedPhase |> <| consent := RETIRED |> <| authority := Authority.close (authority h) |>
         <| buffer := blank |> <| pending_len := 0 |>.

Definition tick (reserve : Alloc -> bool) (a : Answers) : HM unit := fun h =>
  match step reserve a h with
  | (Err e, h') => (Err e, close h')
  | r => r
  end.

(** [restrict_shared_observer] and [bind_shared_source], before the first record. *)
Definition shared_open_context : HM unit :=
  _ ← refuse_if (fun h => negb (bool_decide (phase h = Hello)) || negb (pending_len h =? 0) || shared_source h) (fun _ => Order);
  _ ← check; mret tt.
Definition restrict_shared_observer : HM unit :=
  _ ← shared_open_context; modify (fun h => h <| observation_only := true |>).
Definition bind_shared_source (open : bool) : HM unit :=
  _ ← restrict_shared_observer;
  _ ← refuse_if (fun _ => negb open) (fun _ => SharedPublication);
  modify (fun h => h <| shared_source := true |>).

(** The host right after its transport was bootstrapped. *)
Definition fresh (c : Configuration) (current deadline : Z) (ms : list Moment) : Host :=
  mk_host c None false current None (Authority.new (remote_session (cfg_binding c)) (cfg_authority c)) Hello Observe 0
    blank 0 (record_limit (o_limits (cfg_offer c))) current deadline deadline None false false 0 ms [] [].

(** [Host::start] on the given moments; the bootstrap of the transport and its
    addresses are the transport's answer. *)
Definition start (c : Configuration) (ms : list Moment) (bootstrapped : Result Error unit) : Result Error Host :=
  timeout ← validate c;
  match now (fresh c 0 0 ms) with
  | (Err e, _) => Err e
  | (Ok (current, _), h) =>
      match peer_check Observe h with
      | (Err e, _) => Err e
      | (Ok _, h) =>
          deadline ← ok_or (checked_add u64_max current timeout) Clock;
          _ ← bootstrapped;
          Ok (fresh c current deadline (moments h))
      end
  end.

(** What [finish] transfers: the authority with the binding and the selection. *)
Record OpenedSession := mk_session {
  os_authority : SessionAuthority;
  os_binding : ControlBinding;
  os_selected : Selection }.

(** [ObservationControl::new] and [ObservationControl::check], each under the lease of
    [new_admitted]. *)
Definition observe_admitted : HM unit :=
  '(current, m) ← now;
  _ ← lift (ok_or (observe_lease m) Admission);
  with_authority (authorize_observation_delivery current).

(** [Peer::observation], any refusal of it reported alike. *)
Definition observation : HM unit := fun h =>
  let '(r, h) := (_ ← observe_admitted; observe_admitted) h in (map_err (fun _ => AuthorityRefused) r, h).

Definition transfer : HM OpenedSession :=
  _ ← check;
  _ ← refuse_if (fun h => negb (bool_decide (phase h = Complete))) (fun _ => Order);
  _ ← observation;
  sel ← readr (fun h => ok_or (selected h) Order);
  s ← gets (fun h => mk_session (authority h) (cfg_binding (config h)) sel);
  _ ← modify (fun h => h <| phase := Detached |> <| consent := RETIRED |>);
  mret s.

(** A startup that cannot be transferred is dropped, which closes it.  The registration
    of closure reports, when one is configured, is left out. *)
Definition finish : HM OpenedSession := fun h =>
  match transfer h with
  | (Err e, h') => (Err e, close h')
  | r => r
  end.

End Host.
