(* ===== verification/StartupClaims.v ===== *)
(** * What session startup guarantees

    Against an arbitrary peer, an end opens a session only on terms it offered; the
    host opens observation only after the local consent its configuration requires;
    two honest ends with compatible offers open one session on the same terms. *)

From S2P Require Import Prelude.
From S2P Require Import CoreTime.
From S2P Require Import Authority.
From S2P Require Import AuthorityInv.
From S2P Require Import Limits.
From S2P Require Import Bytes.
From S2P Require Import WireRecord.
From S2P Require Import WireRecordProps.
From S2P Require Import WireControl.
From S2P Require Import Negotiation.
From S2P Require Import Startup.
From S2P Require Import NegotiationProps.

(** ** The viewer *)

Module ClientClaims.
Import Negotiation Client NegotiationProps.

(** The calls a transport adapter makes. *)
Inductive Op :=
| Tick (now_us : Z)
| BeginInspection (now_us : Z)
| Pending (now_us : Z)
| Sent (now_us : Z)
| Receive (reserve : Alloc -> bool) (bs : bytes) (now_us : Z)
| Install (now_us : Z)
| Bound (b now_us : Z)
| Close.

Definition apply (s : Startup) (op : Op) : Startup :=
  match op with
  | Tick t => snd (tick t s)
  | BeginInspection t => snd (begin_inspection t s)
  | Pending t => snd (pending t s)
  | Sent t => snd (sent t s)
  | Receive reserve bs t => snd (receive reserve bs t s)
  | Install t => snd (binding_to_install t s)
  | Bound b t => snd (bound b t s)
  | Close => close s
  end.
Definition run (ops : list Op) (s : Startup) : Startup := foldl apply s ops.

(** A selection this end may act on. *)
Definition acceptable (o : Offer) (sel : Selection) : Prop :=
  s_role sel = o_role o /\ honours (s_role sel) (s_limits sel) (s_capabilities sel) o.

Record inv (o : Offer) (s : Startup) : Prop := {
  i_offer : offer s = o;
  i_selection sel : selection s = Some sel -> acceptable o sel /\ inspection s = false;
  i_opened op : opened s = Some op -> selection s = Some (op_selection op);
  i_early : phase s = Hello \/ phase s = Capabilities -> selection s = None }.

Lemma early_unopened o s : inv o s -> phase s = Hello \/ phase s = Capabilities -> opened s = None.
Proof. intros Hi Hp. destruct (opened s) as [op|] eqn:E; [|done]. apply (i_opened _ _ Hi) in E. by rewrite (i_early _ _ Hi Hp) in E. Qed.

Lemma client_inv_close o s : inv o s -> inv o (close s).
Proof. intros [H1 H2 H3 H4]. by split. Qed.

(** Nothing the invariant speaks of changes. *)
Lemma inv_frame o s s' : inv o s -> offer s' = offer s -> selection s' = selection s -> opened s' = opened s ->
  inspection s' = inspection s ->
  (phase s' = Hello \/ phase s' = Capabilities -> phase s = Hello \/ phase s = Capabilities) -> inv o s'.
Proof.
  intros [H1 H2 H3 H4] E1 E2 E3 E4 E5. split.
  - congruence.
  - intros sel. rewrite E2, E4. apply H2.
  - intros op. rewrite E2, E3. apply H3.
  - intros Hp. rewrite E2. auto.
Qed.

Ltac keep := try (unfold wp; cbn [modify fst snd]); match goal with H : inv _ _ |- inv _ _ => solve [apply (inv_frame _ _ _ H); try done; cbn; intuition congruence] end.

(** Everything that follows a tick starts from a state like the one before. *)
Lemma client_wp_tick {A} o t (k : unit -> CM A) s (Q : Result Error A -> Startup -> Prop) :
  inv o s -> (forall r s', inv o s' -> Q (Err r) s') ->
  (forall s', inv o s' -> offer s' = offer s -> phase s' = phase s -> selection s' = selection s -> opened s' = opened s ->
     approval s' = approval s -> inspection s' = inspection s -> wp (k tt) s' Q) ->
  wp (tick t ≫= k) s Q.
Proof.
  intros Hi He Hk. apply wp_bind. unfold wp, tick.
  match goal with |- context [match ?e with Some _ => _ | None => _ end] => destruct e as [x|] end; cbn [fst snd].
  - by apply He, client_inv_close.
  - apply Hk; try done. keep.
Qed.

Lemma tick_inv o t s : inv o s -> inv o (snd (tick t s)).
Proof. intros Hi. unfold tick. case_match; cbn [snd]; [by apply client_inv_close|]. keep. Qed.

Lemma stage_inv o enc s : inv o s -> inv o (snd (stage enc s)).
Proof. intros Hi. unfold stage. destruct (enc _ _) as [[n|e] b]; cbn [snd]; keep. Qed.

(** Staging changes the pending record only. *)
Lemma client_wp_stage {A} o enc (k : unit -> CM A) s (Q : Result Error A -> Startup -> Prop) :
  inv o s -> (forall r s', inv o s' -> Q (Err r) s') ->
  (forall s', inv o s' -> offer s' = offer s -> opened s' = opened s -> inspection s' = inspection s -> wp (k tt) s' Q) ->
  wp (stage enc ≫= k) s Q.
Proof.
  intros Hi He Hk. apply wp_bind. unfold wp, stage. destruct (enc _ _) as [[n|e] b]; cbn [fst snd].
  - apply Hk; try done. keep.
  - apply He. keep.
Qed.

Lemma receive_host_inv o reserve host s : inv o s -> phase s = Capabilities -> wp (receive_host reserve host) s (fun _ s' => inv o s').
Proof.
  intros Hi Hp. assert (opened s = None) as Ho by (eapply early_unopened; eauto). unfold receive_host. apply wp_gets, wp_lift. destruct (check_host (offer s) host) as [[]|] eqn:Ec; [|done].
  cbn [map_err]. apply wp_gets. destruct (inspection s) eqn:Ei.
  - apply wp_refuse. case_match; [done|]. apply wp_modify. eapply client_wp_stage; [keep|done|].
    intros s' Hi' _ _ _. keep.
  - apply wp_lift. destruct (select host) as [sel|] eqn:Es; [|done]. cbn [map_err]. apply wp_modify.
    eapply client_wp_stage; [keep|done|]. intros s' [H1 H2 H3 H4] Eo Eop Ei'. cbn [upd setter opened inspection offer] in *.
    unfold wp. cbn [modify snd]. split; [done| |intros op; cbn; congruence|cbn; intuition congruence].
    intros sel' [= <-]. split; [|cbn; congruence]. pose proof (i_offer _ _ Hi) as Eof.
    apply check_host_Ok in Ec as (_ & _ & _ & _ & Hr & Hh). apply select_Ok in Es as (_ & _ & ->). rewrite <- Eof. by split.
Qed.

Lemma receive_inner_inv o reserve bs s : inv o s ->
  wp (receive_inner reserve bs) s (fun _ s' => inv o s').
Proof.
  intros Hi. unfold receive_inner. apply wp_refuse. case_match; [done|]. apply wp_gets, wp_gets. case_bool_decide.
  - apply wp_lift. destruct (Inspection.decode_closed _ _); [|done]. cbn [map_err]. keep.
  - apply wp_lift. destruct (decode reserve bs (maximum s) 0) as [m|]; [|done]. cbn [map_err].
    destruct (phase s) eqn:Ep; try done; destruct m; try done.
    + by apply receive_host_inv.
    + apply wp_refuse. case_match; [done|]. keep.
    + apply wp_refuse. case_match eqn:E; [done|]. apply orb_false_iff in E as [[E _]%orb_false_iff _].
      apply negb_false_iff, bool_decide_eq_true in E. destruct Hi as [H1 H2 H3 H4]. split; cbn; [done|done| |intuition congruence]. by intros op [= <-].
Qed.

Lemma or_close_inv {A} o (m : CM A) s : wp m s (fun _ s' => inv o s') -> wp (or_close m) s (fun _ s' => inv o s').
Proof. unfold wp, or_close. destruct (m s) as [[a|e] s']; cbn; [done|]. by apply client_inv_close. Qed.

Lemma client_apply_inv o s op : inv o s -> inv o (apply s op).
Proof.
  intros Hi. destruct op as [t|t|t|t|reserve bs t|t|b t|]; cbn [apply].
  - by apply tick_inv.
  - change (wp (begin_inspection t) s (fun _ s' => inv o s')). eapply client_wp_tick; [done..|]. intros s' Hi' _ Ep Es Eo _ _.
    apply wp_gets. case_match eqn:E; [by apply client_inv_close|]. apply orb_false_iff in E as [[E _]%orb_false_iff _].
    apply negb_false_iff, bool_decide_eq_true in E. apply wp_modify. apply tick_inv.
    assert (selection s' = None) as Hs by (apply (i_early _ _ Hi'); by left). destruct Hi' as [H1 H2 H3 H4].
    split; cbn; [done| |done|done]. intros sel. by rewrite Hs.
  - change (wp (pending t) s (fun _ s' => inv o s')). by eapply client_wp_tick.
  - change (wp (sent t) s (fun _ s' => inv o s')). eapply client_wp_tick; [done..|]. intros s' Hi' _ _ _ _ _ _. apply wp_gets.
    repeat case_match; try (by apply client_inv_close); simplify_eq; keep.
  - change (wp (receive reserve bs t) s (fun _ s' => inv o s')). eapply client_wp_tick; [done..|]. intros s' Hi' _ _ _ _ _ _.
    apply or_close_inv. by apply receive_inner_inv.
  - change (wp (binding_to_install t) s (fun _ s' => inv o s')). eapply client_wp_tick; [done..|]. intros s' Hi' _ _ _ _ _ _. apply wp_gets.
    case_bool_decide; [|done]. apply wp_readr. by destruct (opened s').
  - change (wp (bound b t) s (fun _ s' => inv o s')). eapply client_wp_tick; [done..|]. intros s' Hi' _ _ _ _ _ _. apply wp_gets.
    case_match; [by apply client_inv_close|]. apply wp_bind. eapply wp_mono; [apply or_close_inv; exact (stage_inv o _ s' Hi')|].
    intros [[]|e] s'' Hi''; [|done]. keep.
  - by apply client_inv_close.
Qed.

Lemma run_client_inv o ops s : inv o s -> inv o (run ops s).
Proof. revert s. induction ops as [|op ops IH]; intros s Hi; [done|]. by apply IH, client_apply_inv. Qed.

Lemma startup_new_inv o now_us timeout_us s : new o now_us timeout_us = Ok s -> inv o s /\ inspection s = false /\ phase s = Hello.
Proof.
  unfold new. destruct (validate_offer o) as [[]|]; [|done]. cbn. case_match; [done|].
  destruct (checked_add _ _ _) as [u|]; [|done]. cbn. unfold stage. cbn. destruct (encode _ _ _) as [[n|e] b]; [|done].
  intros [= <-]. split; [|done]. by split.
Qed.

(** ** Inspections *)

(** Whoever has asked for an inspection is inspecting, or is closed. *)
Definition asked (s : Startup) : Prop := inspection s = true \/ phase s = ClosedPhase.

Lemma preserves_tick t : preserves (fun s => inspection s = true) (tick t).
Proof. intros s Hs. unfold tick. by case_match. Qed.
Lemma preserves_close_with {A} e : preserves (fun s => inspection s = true) (close_with (A:=A) e).
Proof. by intros s. Qed.
Lemma preserves_stage enc : preserves (fun s => inspection s = true) (stage enc).
Proof. intros s Hs. unfold stage. by destruct (enc _ _) as [[n|e] b]. Qed.
Lemma preserves_or_close {A} (m : CM A) : preserves (fun s => inspection s = true) m -> preserves (fun s => inspection s = true) (or_close m).
Proof. intros Hm s Hs. specialize (Hm s Hs). unfold or_close. by destruct (m s) as [[a|e] s']. Qed.

Create HintDb inspecting.
#[local] Hint Resolve preserves_tick preserves_close_with preserves_stage preserves_or_close preserves_gets preserves_refuse_if
  preserves_lift preserves_readr preserves_ret preserves_fail : inspecting.
Ltac inspect := repeat (intros; first
  [ apply preserves_bind | solve [eauto 2 with inspecting] | solve [by apply preserves_modify]
  | match goal with |- preserves _ (match ?x with _ => _ end) => destruct x end ]).

Lemma preserves_receive_host reserve host : preserves (fun s => inspection s = true) (receive_host reserve host).
Proof. unfold receive_host. inspect. Qed.
Lemma preserves_receive_inner reserve bs : preserves (fun s => inspection s = true) (receive_inner reserve bs).
Proof.
  unfold receive_inner, receive_approval, receive_opened. pose proof (preserves_receive_host reserve) as Hh. inspect; apply Hh.
Qed.
#[local] Hint Resolve preserves_receive_inner : inspecting.

Lemma apply_inspecting s op : inspection s = true -> inspection (apply s op) = true.
Proof.
  revert s. destruct op as [t|t|t|t|reserve bs t|t|b t|]; cbn [apply]; [..|done].
  - apply preserves_tick.
  - unfold begin_inspection. inspect.
  - unfold pending. inspect.
  - unfold sent. inspect.
  - unfold receive. inspect.
  - unfold binding_to_install. inspect.
  - unfold bound. inspect.
Qed.

(** A closed startup stays closed. *)
Lemma closed_tick {A} t (k : unit -> CM A) s : phase s = ClosedPhase -> phase (snd ((tick t ≫= k) s)) = ClosedPhase.
Proof. intros Hp. unfold mbind, M_bind, tick. by rewrite Hp. Qed.
Lemma apply_closed s op : phase s = ClosedPhase -> phase (apply s op) = ClosedPhase.
Proof.
  intros Hp. destruct op as [t|t|t|t|reserve bs t|t|b t|]; cbn [apply]; [|by apply closed_tick..|done].
  unfold tick. by rewrite Hp.
Qed.

Lemma apply_asked s op : asked s -> asked (apply s op).
Proof. intros [Hi|Hp]; [left; by apply apply_inspecting|right; by apply apply_closed]. Qed.

Lemma begin_asked s t : asked (apply s (BeginInspection t)).
Proof.
  cbn [apply]. unfold begin_inspection, mbind, M_bind, gets. destruct (tick t s) as [[[]|e] s'] eqn:Et.
  - destruct (_ || _); [by right|]. unfold modify. left. by apply preserves_tick.
  - unfold tick in Et. case_match; [|done]. injection Et as _ <-. by right.
Qed.

Lemma run_asked ops s t : asked s \/ BeginInspection t ∈ ops -> asked (run ops s).
Proof.
  revert s. induction ops as [|op ops IH]; intros s [Ha|Hin]; [done|by apply not_elem_of_nil in Hin|apply IH; left; by apply apply_asked|].
  apply elem_of_cons in Hin as [<-|Hin]; apply IH; [left; apply begin_asked|by right].
Qed.

(** C12.  Whatever the host answers, and in whatever order its records and the calls of
    the transport arrive, a viewer that finishes its startup holds a session on terms
    it offered: the role it asked for, no limit above its own, no capability it did not
    list, every capability it requires; and no startup on which an inspection was
    asked for, at whatever moment and with whatever answer, ever ends in a session. *)
Theorem viewer_opens_on_its_own_terms o now_us timeout_us s ops t op :
  new o now_us timeout_us = Ok s -> finish t (run ops s) = Ok op ->
  acceptable o (op_selection op) /\ forall t', BeginInspection t' ∉ ops.
Proof.
  intros Hn Hf. apply startup_new_inv in Hn as (Hi & _). apply (run_client_inv _ ops) in Hi. unfold finish in Hf.
  pose proof (tick_inv _ t _ Hi) as Hi'. assert (asked (run ops s) -> asked (snd (tick t (run ops s)))) as Et
    by exact (apply_asked _ (Tick t)).
  destruct (tick t (run ops s)) as [r s']. cbn [snd] in *. apply Result_bind_Ok in Hf as ([] & _ & Hf).
  case_bool_decide as Hp; [|done]. cbn [negb] in Hf. destruct (opened s') as [op'|] eqn:Eo; [|done]. injection Hf as ->.
  apply (i_opened _ _ Hi') in Eo. apply (i_selection _ _ Hi') in Eo as [? ?]. split; [done|]. intros t' Hin.
  destruct Et as [Ha|Ha]; [by eapply run_asked; right|congruence..].
Qed.

End ClientClaims.

(** ** The host *)

Module HostClaims.
Import Negotiation Host NegotiationProps.

(** The calls the owner of a startup and the consent dialogue make. *)
Inductive Op :=
| DoTick (reserve : Alloc -> bool) (a : Answers)
| DoDecide (d : Decision)
| DoRestrict
| DoShare (open : bool)
| DoClose.

Definition apply (h : Host) (op : Op) : Host :=
  match op with
  | DoTick reserve a => snd (tick reserve a h)
  | DoDecide d => snd (decide d h)
  | DoRestrict => snd (restrict_shared_observer h)
  | DoShare open => snd (bind_shared_source open h)
  | DoClose => close h
  end.
Definition run (ops : list Op) (h : Host) : Host := foldl apply h ops.

(** ** What time and the dialogue change *)

(** The dialogue takes at most one decision, and only while it is asked. *)
Definition agreed (consent : Z) (taken : list bool) : Prop :=
  ((consent = 0 \/ consent = WAITING) /\ taken = []) \/ ((consent = ALLOWED \/ consent = CONSUMED) /\ taken = [true])
  \/ (consent = DENIED /\ taken = [false]) \/ (consent = RETIRED /\ (length taken <= 1)%nat).

(** Nothing but the clock, the pending record and perhaps the consent has moved. *)
Record calm (h h' : Host) : Prop := {
  c_config : config h' = config h;
  c_intersection : intersection h' = intersection h;
  c_selected : selected h' = selected h;
  c_inspection : inspection h' = inspection h;
  c_phase : phase h' = phase h;
  c_authority : authority h' = authority h;
  c_consent : (consent h' = consent h /\ taken h' = taken h)
    \/ (consent h = WAITING /\ exists b : bool, consent h' = (if b then ALLOWED else DENIED) /\ taken h' = taken h ++ [b]) }.

#[export] Instance calm_preorder : PreOrder calm.
Proof.
  split.
  - intros h. split; try done. by left.
  - intros h1 h2 h3 [? ? ? ? ? ? H1] [? ? ? ? ? ? H2]. split; try congruence.
    destruct H1 as [[E1 T1]|(W1 & b & E1 & T1)], H2 as [[E2 T2]|(W2 & b2 & E2 & T2)].
    + left. split; congruence.
    + right. split; [congruence|]. exists b2. split; congruence.
    + right. split; [done|]. exists b. split; congruence.
    + rewrite E1 in W2. by destruct b.
Qed.

Lemma calm_decide d h : calm h (snd (decide d h)).
Proof.
  unfold decide. destruct (decided_at d); [|done]. case_match; [done|]. case_match eqn:E; [done|].
  apply negb_false_iff, Z.eqb_eq in E. split; try done. right. split; [done|]. exists (allow d). done.
Qed.

Lemma calm_now h : calm h (snd (now h)).
Proof.
  unfold now. destruct (moments h) as [|m ms]; [done|]. cbn [snd].
  assert (forall ds h0, calm h h0 -> calm h (foldl (fun h d => snd (decide d h)) h0 ds)) as H.
  { intros ds. induction ds as [|d ds IH]; intros h0 H0; [done|]. cbn. apply IH. etrans; [exact H0|apply calm_decide]. }
  apply H. split; try done. by left.
Qed.

(** [m] keeps to the clock and the pending record. *)
Definition calms {A} (m : HM A) : Prop := forall h, calm h (snd (m h)).

Lemma calms_bind {A B} (m : HM A) (k : A -> HM B) : calms m -> (forall a, calms (k a)) -> calms (m ≫= k).
Proof.
  intros Hm Hk h. unfold mbind, M_bind. specialize (Hm h). destruct (m h) as [[a|e] h']; cbn [snd] in *; [|done].
  etrans; [exact Hm|apply Hk].
Qed.
Lemma calms_ret {A} (a : A) : calms (mret a).
Proof. intros h. done. Qed.
Lemma calms_fail {A} e : calms (A:=A) (fail e).
Proof. intros h. done. Qed.
Lemma calms_refuse c e : calms (refuse_if c e).
Proof. intros h. unfold refuse_if. by destruct (c h). Qed.
Lemma calms_lift {A} (r : Result Error A) : calms (lift r).
Proof. intros h. done. Qed.
Lemma calms_gets {A} (f : Host -> A) : calms (gets f).
Proof. intros h. done. Qed.
Create HintDb calm.
#[local] Hint Resolve calms_bind calms_ret calms_fail calms_refuse calms_lift calms_gets : calm.

Lemma calms_now : calms now.
Proof. exact calm_now. Qed.
#[local] Hint Resolve calms_now : calm.

Lemma calms_peer r : calms (peer_check r).
Proof. unfold peer_check. apply calms_bind; [auto with calm|]. intros [t m]. auto with calm. Qed.
#[local] Hint Resolve calms_peer : calm.

Lemma calms_check : calms check.
Proof.
  unfold check. apply calms_bind; [auto with calm|intros _]. apply calms_bind; [auto with calm|intros [t m]].
  do 2 (apply calms_bind; [auto with calm|intros _]). apply calms_bind; [intros h; split; try done; by left|intros _].
  do 2 (apply calms_bind; [auto with calm|intros _]). apply calms_bind; [auto with calm|intros r].
  apply calms_bind; [auto with calm|intros [d m']]. auto with calm.
Qed.
#[local] Hint Resolve calms_check : calm.

Lemma calms_stage m : calms (stage m).
Proof.
  unfold stage. apply calms_bind; [auto with calm|intros _]. apply calms_bind; [auto with calm|intros t]. apply calms_bind; [auto with calm|intros r].
  apply calms_bind; [auto with calm|intros [u m']]. do 2 (apply calms_bind; [auto with calm|intros ?]).
  apply calms_bind; [intros h; split; try done; by left|intros _]. apply calms_bind.
  - intros h. unfold modify. cbn. destruct (observation_until h); split; try done; by left.
  - intros _ h. unfold encode_pending. destruct (encode _ _ _) as [[n|e] b]; cbn [snd]; split; try done; by left.
Qed.

Lemma wp_calm {A} (m : HM A) h (Q : Result Error A -> Host -> Prop) : calms m -> (forall r h', calm h h' -> Q r h') -> wp m h Q.
Proof. intros Hm HQ. apply HQ, Hm. Qed.
Lemma wp_calm_bind {A B} (m : HM A) (k : A -> HM B) h (Q : Result Error B -> Host -> Prop) : calms m ->
  (forall e h', calm h h' -> Q (Err e) h') -> (forall a h', calm h h' -> wp (k a) h' Q) -> wp (m ≫= k) h Q.
Proof. intros Hm He Hk. apply wp_bind, wp_calm; [done|]. intros [a|e] h' C; auto. Qed.

(** ** The invariant *)

(** What arrives in a step was sent by the peer. *)
Definition hears (heard : bytes -> Prop) (a : Answers) : Prop := forall on bs, a_receive a = Some (Some (on, bs)) -> heard bs.
(** The records that arrive in a run. *)
Definition arrived (ops : list Op) (bs : bytes) : Prop :=
  exists reserve a on, DoTick reserve a ∈ ops /\ a_receive a = Some (Some (on, bs)).

Lemma hears_arrived ops reserve a : DoTick reserve a ∈ ops -> hears (arrived ops) a.
Proof. intros Hin on bs E. by exists reserve, a, on. Qed.

Section invariant.
(** The records that may arrive from the peer. *)
Context (c : Configuration) (heard : bytes -> Prop).

Definition offered (o : Offer) : Prop :=
  exists reserve bs max expected, heard bs /\ decode reserve bs max expected = Ok (ClientHello o).

Record inv (h : Host) : Prop := {
  j_config : config h = c;
  j_consent : agreed (consent h) (taken h);
  j_observing : cfg_require_approval c = true -> observing (Authority.phase (authority h)) = true -> taken h = [true];
  j_hello : phase h = Hello -> intersection h = None /\ selected h = None;
  j_asked : phase h = Hello \/ phase h = SelectionPhase -> consent h = 0;
  j_common common : intersection h = Some common -> inspection h = false ->
    exists reserve o, offered o /\ intersect reserve (cfg_offer c) o = Ok common;
  j_selected sel : selected h = Some sel ->
    inspection h = false /\ exists common, intersection h = Some common /\ check_against sel common = Ok tt }.

Lemma agreed_calm h h' : calm h h' -> agreed (consent h) (taken h) -> agreed (consent h') (taken h').
Proof.
  intros C H. destruct (c_consent _ _ C) as [[-> ->]|(W & b & -> & ->)]; [done|]. rewrite W in H. unfold agreed in *.
  unfold WAITING, ALLOWED, DENIED, RETIRED, CONSUMED in *. destruct H as [[_ ->]|[[[]]|[[]|[]]]]; try done. destruct b; cbn; naive_solver.
Qed.

Lemma taken_calm h h' : calm h h' -> agreed (consent h) (taken h) -> taken h = [true] -> taken h' = [true].
Proof.
  intros C H Ht. destruct (c_consent _ _ C) as [[_ ->]|(W & b & _ & ->)]; [done|]. rewrite W, Ht in H. unfold agreed in H.
  unfold WAITING, ALLOWED, DENIED, RETIRED, CONSUMED in *. naive_solver.
Qed.

Lemma host_inv_calm h h' : inv h -> calm h h' -> inv h'.
Proof.
  intros [H1 H2 H3 H4 H5 H6 H7] C. pose proof C as [E1 E2 E3 E4 E5 E6 E7]. split.
  - congruence.
  - by eapply agreed_calm.
  - rewrite E6. intros Hn Ho. eapply taken_calm; eauto.
  - rewrite E2, E3, E5. done.
  - rewrite E5. intros Hp. specialize (H5 Hp). destruct E7 as [[-> _]|[W _]]; [done|]. by rewrite H5 in W.
  - rewrite E2, E4. done.
  - rewrite E2, E3, E4. done.
Qed.

(** ** Calls of the authority *)

(** [op] does not begin an observation. *)
Definition tame {A} (op : AuthM A) : Prop :=
  forall a, observing (Authority.phase (snd (op a))) = true -> observing (Authority.phase a) = true.

Lemma tame_mark : tame mark_capabilities_checked.
Proof. intros a. unfold mark_capabilities_checked. run_method. by destruct (negb _). Qed.
Lemma tame_require : tame Authority.require_approval.
Proof. intros a. unfold Authority.require_approval. run_method. by destruct (negb _). Qed.
Lemma tame_delivery t : tame (authorize_observation_delivery t).
Proof.
  intros a. unfold authorize_observation_delivery, check_live, check_time. run_method. destruct (_ || _); cbn [fst snd]; [done|].
  destruct (lapse_if_due_frame t (a <| last_checked := Some t |>)) as (_ & _ & -> & _). done.
Qed.
Lemma tame_deadline t : tame (observation_deadline t).
Proof.
  intros a. unfold observation_deadline. run_method. pose proof (tame_delivery t a) as H.
  by destruct (authorize_observation_delivery t a) as [[[]|] a'].
Qed.

Lemma inv_authority h a : inv h ->
  (cfg_require_approval c = true -> observing (Authority.phase a) = true -> taken h = [true]) -> inv (h <| authority := a |>).
Proof. intros [H1 H2 H3 H4 H5 H6 H7] Ho. by split. Qed.

Lemma wp_authority {A B} (op : AuthM A) (k : A -> HM B) h (Q : Result Error B -> Host -> Prop) :
  (forall r a, op (authority h) = (r, a) ->
     match r with Ok x => wp (k x) (h <| authority := a |>) Q | Err _ => Q (Err AuthorityRefused) (h <| authority := a |>) end) ->
  wp (with_authority op ≫= k) h Q.
Proof.
  intros H. apply wp_bind. unfold wp at 1, with_authority. destruct (op (authority h)) as [r a]. specialize (H r a eq_refl). by destruct r.
Qed.

(** Like [wp_calm_bind], for a tame call of the authority. *)
Lemma wp_tame {A B} (op : AuthM A) (k : A -> HM B) h (Q : Result Error B -> Host -> Prop) :
  inv h -> tame op -> (forall e h', inv h' -> Q (Err e) h') ->
  (forall r a, inv (h <| authority := a |>) -> wp (k r) (h <| authority := a |>) Q) -> wp (with_authority op ≫= k) h Q.
Proof.
  intros Hi Ht He Hk. apply wp_authority. intros r a E. specialize (Ht (authority h)). rewrite E in Ht. cbn [snd] in Ht.
  assert (inv (h <| authority := a |>)) as Hi' by (apply inv_authority; [done|]; intros; apply (j_observing _ Hi); auto).
  destruct r; auto.
Qed.

(** ** The handlers *)

Abbreviation keeps m h := (wp m h (fun _ h' => inv h')).

Lemma wp_check {A} (k : Z -> HM A) h : inv h -> (forall t h', inv h' -> calm h h' -> keeps (k t) h') -> keeps (check ≫= k) h.
Proof.
  intros Hi Hk. apply wp_calm_bind; [apply calms_check|intros e h' C; by eapply host_inv_calm|].
  intros t h' C. apply Hk; [by eapply host_inv_calm|done].
Qed.

Lemma host_wp_stage {A} m (k : unit -> HM A) h : inv h -> (forall h', inv h' -> calm h h' -> keeps (k tt) h') -> keeps (stage m ≫= k) h.
Proof.
  intros Hi Hk. apply wp_calm_bind; [apply calms_stage|intros e h' C; by eapply host_inv_calm|].
  intros [] h' C. apply Hk; [by eapply host_inv_calm|done].
Qed.

(** Changes the invariant does not speak of. *)
Lemma host_inv_same h h' : inv h -> config h' = config h -> intersection h' = intersection h -> selected h' = selected h ->
  inspection h' = inspection h -> authority h' = authority h -> consent h' = consent h -> taken h' = taken h ->
  (phase h' = phase h \/ match phase h' with Hello | SelectionPhase => False | _ => True end) -> inv h'.
Proof.
  intros [H1 H2 H3 H4 H5 H6 H7] E1 E2 E3 E4 E5 E6 E7 E8. split; rewrite ?E1, ?E2, ?E3, ?E4, ?E5, ?E6, ?E7; try done.
  - destruct E8 as [->|E8]; [done|]. intros Hp. by rewrite Hp in E8.
  - destruct E8 as [->|E8]; [done|]. intros [Hp|Hp]; by rewrite Hp in E8.
Qed.

Ltac same := match goal with H : inv ?h |- inv ?h' => solve [apply (host_inv_same h h' H); try done; first [by left | by right]] end.

Lemma host_inv_close h : inv h -> inv (close h).
Proof.
  intros [H1 H2 H3 H4 H5 H6 H7]. unfold close. case_bool_decide; [by split|]. split; cbn; try done.
  - unfold agreed in *. do 3 right. split; [done|]. destruct H2 as [[_ ->]|[[_ ->]|[[_ ->]|[_ ?]]]]; cbn; lia.
  - intuition congruence.
Qed.

Lemma open_observation_inv h : inv h -> phase h = Approval \/ phase h = SelectionPhase ->
  (cfg_require_approval c = true -> phase h = Approval) -> keeps open_observation h.
Proof.
  intros Hi Hp Hn. unfold open_observation. apply wp_check; [done|]. intros t h1 Hi1 C1. apply wp_gets. rewrite (j_config _ Hi1).
  assert (forall h2, inv h2 -> (cfg_require_approval c = true -> taken h2 = [true]) ->
    keeps (_ ← with_authority (authorize_observation t); deadline ← with_authority (observation_deadline t);
      _ ← modify (fun h => h <| observation_until := Some deadline |>); b ← gets (fun h => cfg_binding (config h));
      sel ← readr (fun h => ok_or (selected h) Order); _ ← stage (SessionOpened b sel deadline); modify (fun h => h <| phase := Bind |>)) h2) as Hrest.
  { intros h2 Hi2 Ht. apply wp_authority. intros r a _.
    assert (inv (h2 <| authority := a |>)) as Hi3 by (apply inv_authority; auto). destruct r as [[]|]; [|done].
    apply wp_tame; [done|apply tame_deadline|done|]. intros d a' Hi4. apply wp_modify, wp_gets, wp_readr. destruct (selected _); cbn [ok_or]; [|same].
    apply host_wp_stage; [same|]. intros h5 Hi5 _. unfold wp. cbn [modify fst snd]. same. }
  destruct (cfg_require_approval c) eqn:En; [|by apply Hrest].
  unfold consume_consent. apply wp_bind. unfold wp at 1, refuse_if. run_method. destruct (negb (consent h1 =? ALLOWED)) eqn:Ea; cbn [fst snd]; [done|].
  apply negb_false_iff, Z.eqb_eq in Ea.
  assert (taken h1 = [true]) as Ht.
  { pose proof (j_consent _ Hi1) as Hc. rewrite Ea in Hc. unfold agreed, WAITING, ALLOWED, DENIED, RETIRED, CONSUMED in Hc. naive_solver. }
  apply Hrest; [|done]. specialize (Hn eq_refl). destruct Hi1 as [H1 H2 H3 H4 H5 H6 H7]. split; cbn; try done.
  - unfold agreed. right. left. split; [by right|done].
  - rewrite (c_phase _ _ C1), Hn. intuition congruence.
Qed.

Lemma receive_hello_inv reserve o h : offered o -> inv h -> phase h = Hello -> keeps (receive_hello reserve o) h.
Proof.
  intros Ho Hi Hp. unfold receive_hello. apply wp_modify, wp_gets. pose proof (j_hello _ Hi Hp) as [Hin Hsel].
  set (h0 := h <| inspection := _ |>). assert (inv h0) as Hi0.
  { destruct Hi as [H1 H2 H3 H4 H5 H6 H7]. split; cbn; try done; [by rewrite Hin|by rewrite Hsel]. }
  assert (phase h0 = Hello) as Hp0 by done. clearbody h0. clear Hi Hp Hin Hsel. apply wp_bind.
  eapply (wp_mono _ _ (fun _ h' => inv h' /\ phase h' = Hello /\ inspection h' = inspection h0)).
  { case_match; [|done]. apply wp_modify. set (h1 := h0 <| until := _ |>). assert (inv h1) as Hi1 by same.
    assert (forall h', calm h1 h' -> inv h' /\ phase h' = Hello /\ inspection h' = true) as Hc.
    { intros h' C. split; [by eapply host_inv_calm|]. by rewrite (c_phase _ _ C), (c_inspection _ _ C). }
    apply wp_calm_bind; [apply calms_check|auto|]. intros t h' C. by apply Hc. }
  intros [[]|e] h1 (Hi1 & Hp1 & Ei1); [|done]. apply wp_refuse. case_match; [done|].
  apply wp_calm_bind; [apply calms_peer|intros e h' C; by eapply host_inv_calm|]. intros _ h2 C2. pose proof (host_inv_calm _ _ Hi1 C2) as Hi2.
  apply wp_gets, wp_lift. rewrite (j_config _ Hi2). destruct (map_err Protocol _) as [common|] eqn:Ec; [|done].
  apply wp_modify. apply host_wp_stage; [same|]. intros h3 Hi3 C3. unfold wp. cbn [modify fst snd].
  pose proof C2 as [_ _ _ Ei2 Ep2 _ _]. pose proof C3 as [_ _ _ Ei3 Ep3 _ _]. cbn in Ei3, Ep3.
  destruct Hi3 as [H1 H2 H3 H4 H5 H6 H7]. destruct (H4 ltac:(congruence)) as [Hin Hsel].
  split; cbn; try done.
  - intros _. apply H5. left. congruence.
  - intros common' [= <-] Hins. assert (inspection h0 = false) as Hf by congruence. rewrite Hf in Ec.
    destruct (intersect reserve (cfg_offer c) o) as [x|] eqn:E; [|done]. injection Ec as ->. by exists reserve, o.
  - by rewrite Hsel.
Qed.

Lemma receive_selection_inv sel h : inv h -> phase h = SelectionPhase -> inspection h = false -> keeps (receive_selection sel) h.
Proof.
  intros Hi Hp Hins. unfold receive_selection. apply wp_readr. destruct (intersection h) as [common|] eqn:Ein; [|done]. cbn [ok_or].
  apply wp_lift. destruct (check_against sel common) as [[]|] eqn:Ec; [|done]. cbn [map_err]. apply wp_modify.
  set (h0 := _ <| selected := _ |>). assert (inv h0) as Hi0.
  { destruct Hi as [H1 H2 H3 H4 H5 H6 H7]. split; cbn; try done; [by rewrite Hp|]. intros s' [= <-]. split; [done|]. by exists common. }
  assert (phase h0 = SelectionPhase) as Hp0 by done. clearbody h0. apply wp_tame; [done|apply tame_mark|done|].
  intros _ a Hi1. apply wp_gets. set (h1 := h0 <| authority := a |>) in *. rewrite (j_config _ Hi1).
  destruct (cfg_require_approval c) eqn:En; [|by apply open_observation_inv; [done|right|congruence]].
  apply wp_tame; [done|apply tame_require|done|]. intros _ a' Hi2. apply wp_gets, wp_gets, wp_gets, host_wp_stage; [done|].
  intros h3 Hi3 C3. unfold wp. cbn [modify fst snd]. pose proof (c_phase _ _ C3) as Ep. cbn in Ep. rewrite Hp0 in Ep.
  destruct Hi3 as [H1 H2 H3 H4 H5 H6 H7]. specialize (H5 (or_intror Ep)). rewrite H5 in H2.
  assert (taken h3 = []) as Ht by (unfold agreed, WAITING, ALLOWED, DENIED, RETIRED, CONSUMED in H2; naive_solver).
  split; cbn; try done.
  - left. split; [by right|done].
  - intuition congruence.
Qed.

Lemma receive_accepted_inv h : inv h -> keeps receive_accepted h.
Proof.
  intros Hi. unfold receive_accepted. apply wp_calm_bind; [apply calms_now|intros e h' C; by eapply host_inv_calm|].
  intros [t m] h' C. pose proof (host_inv_calm _ _ Hi C) as Hi'. apply wp_tame; [done|apply tame_delivery|done|].
  intros _ a Hi2. unfold wp. cbn [modify fst snd]. same.
Qed.

Lemma consume_inv reserve bs h : heard bs -> inv h -> keeps (consume reserve bs) h.
Proof.
  intros Hb Hi. unfold consume. apply wp_check; [done|]. intros _ h1 Hi1 _. apply wp_gets, wp_gets, wp_gets.
  destruct (bool_decide (phase h1 = SelectionPhase) && inspection h1) eqn:Eb.
  - apply wp_refuse. case_match; [done|]. apply wp_lift. by destruct (map_err _ (Inspection.decode_request _ _)).
  - apply wp_gets, wp_lift. destruct (decode reserve bs (maximum h1) (inbound h1)) as [m|] eqn:Ed; [|done]. apply wp_gets.
    destruct (phase h1) eqn:Ep; try done; destruct m; try done.
    + apply receive_hello_inv; [by exists reserve, bs, (maximum h1), (inbound h1)|done..].
    + apply receive_selection_inv; [done..|]. cbn in Eb. done.
    + case_match; [by apply receive_accepted_inv|done].
Qed.

Lemma exchange_inv a h : hears heard a -> inv h ->
  wp (exchange a) h (fun r h' => inv h' /\ forall bs, r = Ok (Some bs) -> heard bs).
Proof.
  intros Ha Hi. unfold exchange. apply wp_gets. apply wp_bind.
  eapply (wp_mono _ _ (fun _ h' => inv h')).
  { case_match; [|done]. apply wp_lift. destruct (ok_or (a_send a) Transport) as [ok|]; [|done]. apply wp_modify. unfold wp. cbn.
    destruct ok; [same|done]. }
  intros [sent|e] h1 Hi1; [|done]. destruct (negb sent); [done|]. apply wp_gets, wp_bind.
  eapply (wp_mono _ _ (fun _ h' => inv h')).
  { case_bool_decide; [|done]. apply wp_lift. destruct (ok_or (a_bind a) Transport) as [ok|]; [|done]. apply wp_modify. unfold wp. cbn.
    destruct ok; [same|done]. }
  intros [bound|e] h2 Hi2; [|done]. destruct (negb bound); [done|]. apply wp_lift. destruct (a_receive a) as [[[on bs]|]|] eqn:Er; try done.
  apply wp_refuse. case_match; [done|]. split; [done|]. intros bs' [= <-]. by apply (Ha on).
Qed.

Lemma step_host_inv reserve a h : hears heard a -> inv h -> keeps (step reserve a) h.
Proof.
  intros Ha Hi. unfold step. apply wp_check; [done|]. intros _ h1 Hi1 _. apply wp_gets. case_bool_decide; [done|]. apply wp_gets, wp_bind.
  eapply (wp_mono _ _ (fun _ h' => inv h')).
  { case_match eqn:E; [|done]. apply andb_true_iff in E as [[E _]%andb_true_iff _]. apply bool_decide_eq_true in E.
    by apply open_observation_inv; [done|left|]. }
  intros [[]|e] h2 Hi2; [|done]. apply wp_bind. eapply wp_mono; [by apply exchange_inv|]. intros [arrived|e] h3 [Hi3 Hb]; [|done]. apply wp_bind.
  eapply (wp_mono _ _ (fun _ h' => inv h')).
  { destruct arrived; [apply consume_inv; auto|done]. }
  intros [[]|e] h4 Hi4; [|done]. apply wp_check; [done|]. done.
Qed.

Lemma observe_admitted_inv h : inv h -> keeps observe_admitted h.
Proof.
  intros Hi. unfold observe_admitted. apply wp_calm_bind; [apply calms_now|intros e h' C; by eapply host_inv_calm|].
  intros [t m] h' C. pose proof (host_inv_calm _ _ Hi C) as Hi'. apply wp_lift. destruct (observe_lease m); [|done]. cbn [ok_or].
  unfold wp, with_authority. pose proof (tame_delivery t (authority h')) as T. destruct (authorize_observation_delivery t _) as [r a]. cbn [fst snd] in *.
  apply inv_authority; [done|]. intros Hn Ho. apply (j_observing _ Hi' Hn), T, Ho.
Qed.

Lemma observation_inv h : inv h -> keeps observation h.
Proof.
  intros Hi. unfold observation. assert (keeps (_ ← observe_admitted; observe_admitted) h) as H.
  { apply wp_bind. eapply wp_mono; [by apply observe_admitted_inv|]. intros [[]|e] h' Hi'; [by apply observe_admitted_inv|done]. }
  unfold wp in *. by destruct ((_ ← observe_admitted; observe_admitted) h) as [r h'].
Qed.

Lemma restrict_inv h : inv h -> keeps restrict_shared_observer h.
Proof.
  intros Hi. unfold restrict_shared_observer, shared_open_context. apply wp_bind. eapply (wp_mono _ _ (fun _ h' => inv h')).
  - apply wp_refuse. case_match; [done|]. by apply wp_check.
  - intros [[]|e] h' Hi'; [|done]. unfold wp. cbn [modify fst snd]. same.
Qed.

Lemma host_apply_inv h op : match op with DoTick _ a => hears heard a | _ => True end -> inv h -> inv (apply h op).
Proof.
  intros Ha Hi. destruct op as [reserve a|d| |open|]; cbn [apply].
  - pose proof (step_host_inv reserve a h Ha Hi) as H. unfold tick. unfold wp in H. destruct (step reserve a h) as [[[]|e] h']; cbn [snd] in *; [done|by apply host_inv_close].
  - eapply host_inv_calm; [done|apply calm_decide].
  - by apply restrict_inv.
  - change (keeps (bind_shared_source open) h). unfold bind_shared_source. apply wp_bind. eapply wp_mono; [by apply restrict_inv|].
    intros [[]|e] h' Hi'; [|done]. apply wp_refuse. case_match; [done|]. unfold wp. cbn [modify fst snd]. same.
  - by apply host_inv_close.
Qed.

Lemma run_host_inv ops h : (forall reserve a, DoTick reserve a ∈ ops -> hears heard a) -> inv h -> inv (run ops h).
Proof.
  revert h. induction ops as [|op ops IH]; intros h Ha Hi; [done|]. apply IH; [intros r a Hin; apply (Ha r), list_elem_of_further, Hin|].
  apply host_apply_inv; [|done]. destruct op; try done. eapply Ha, list_elem_of_here.
Qed.

Lemma start_inv ms b h : start c ms b = Ok h -> inv h.
Proof.
  unfold start. intros (t & _ & H)%Result_bind_Ok. destruct (now _) as [[[cur m]|e] h1]; [|done].
  destruct (peer_check _ h1) as [[[d m']|e] h2]; [|done]. apply Result_bind_Ok in H as (u & _ & H). apply Result_bind_Ok in H as ([] & _ & [= <-]).
  split; cbn; try done. left. split; [by left|done].
Qed.

End invariant.

(** C5.  Observation needs local consent: on a host configured to ask, the session's
    authority observes in no state of any startup, whatever the peer sends, whatever
    the transport answers and however the dialogue, the clock and the admission lease
    interleave, unless the dialogue took its one decision and took it for the session. *)
Theorem observation_needs_consent c ms bootstrapped h ops :
  start c ms bootstrapped = Ok h -> cfg_require_approval c = true ->
  observing (Authority.phase (authority (run ops h))) = true -> taken (run ops h) = [true].
Proof. intros Hs Hn. apply (j_observing c (arrived ops)); [|done]. by apply run_host_inv, (start_inv c _ ms bootstrapped); [apply hears_arrived|]. Qed.

(** C13.  Whatever the peer sends, the session a host transfers is on its own terms and
    its peer's: it carries the binding of the configuration and a selection that was
    checked against the intersection of the configured offer with an offer the peer
    made in a hello that arrived during the startup, hence no limit above either offer, no capability either did not list and
    every capability either requires, in the role the peer asked for. *)
Theorem host_opens_on_agreed_terms c ms bootstrapped h ops s h' :
  start c ms bootstrapped = Ok h -> finish (run ops h) = (Ok s, h') ->
  os_binding s = cfg_binding c /\
  exists o, offered (arrived ops) o /\ s_role (os_selected s) = o_role o
    /\ honours (s_role (os_selected s)) (s_limits (os_selected s)) (s_capabilities (os_selected s)) (cfg_offer c)
    /\ honours (s_role (os_selected s)) (s_limits (os_selected s)) (s_capabilities (os_selected s)) o.
Proof.
  intros Hs Hf. apply (start_inv _ (arrived ops)), (run_host_inv _ _ ops) in Hs; [|apply hears_arrived]. unfold finish in Hf.
  destruct (transfer (run ops h)) as [[s'|e] h0] eqn:Et; [|done]. injection Hf as -> ->. rename Et into Hf. unfold transfer in Hf.
  apply method_bind_Ok in Hf as (t & h1 & Hc & Hf). pose proof (calms_check (run ops h)) as C. rewrite Hc in C. cbn [snd] in C.
  pose proof (host_inv_calm c _ _ _ Hs C) as Hi0. apply method_bind_Ok in Hf as ([] & h2 & Hr & Hf). apply refuse_if_Ok in Hr as [_ ->].
  apply method_bind_Ok in Hf as ([] & h2 & Ho & Hf). pose proof (observation_inv c _ _ Hi0) as Hi. unfold wp in Hi. rewrite Ho in Hi. cbn [snd] in Hi.
  apply method_bind_Ok in Hf as (sel & h3 & Hsel & Hf). unfold readr in Hsel. injection Hsel as Hsel <-.
  destruct (selected h2) as [sel'|] eqn:Es; [|done]. injection Hsel as ->.
  apply method_bind_Ok in Hf as (s' & h3 & Hg & Hf). unfold gets in Hg. injection Hg as <- <-.
  apply method_bind_Ok in Hf as ([] & h4 & _ & Hf). injection Hf as <- _. cbn [os_binding os_selected].
  split; [by rewrite (j_config _ _ _ Hi)|]. destruct (j_selected _ _ _ Hi sel Es) as (Hins & common & Hin & Hag).
  destruct (j_common _ _ _ Hi common Hin Hins) as (reserve & o & Hoff & Hx). exists o.
  destruct (intersect_honours _ _ _ _ Hx) as [Hh1 Hh2]. split_and!; [done| |by eapply check_against_honours..].
  apply check_against_Ok in Hag as (_ & _ & _ & -> & _). apply intersect_Ok in Hx as (_ & _ & _ & _ & _ & _ & _ & ->). done.
Qed.

End HostClaims.

(** ** The two ends together *)

Module Session.
Import Negotiation.
#[local] Existing Instances Client.eta_startup Host.eta_host.

Definition yes (_ : Alloc) : bool := true.

(** The transport accepts everything; in a step a record may arrive. *)
Definition idle : Host.Answers := Host.mk_answers (Some true) (Some true) (Some None).
Definition arrives (bs : bytes) : Host.Answers := Host.mk_answers (Some true) (Some true) (Some (Some (true, bs))).

(** The record the viewer hands to its transport. *)
Definition record_of (s : Client.Startup) : bytes := take (Z.to_nat (Client.pending_len s)) (Client.buffer s).
(** The [i]-th record the host's transport accepted. *)
Definition sent_by (h : Host.Host) (i : nat) : bytes := default [] (Host.outbox h !! i).

Section handshake.
Context (reserve : Alloc -> bool).
(** The viewer's clock, and when the dialogue answers. *)
Context (t asked : Z).

Definition hello (h : Host.Host) (c : Client.Startup) : Host.Host :=
  HostClaims.run [HostClaims.DoTick reserve (arrives (record_of c)); HostClaims.DoTick reserve idle] h.
Definition choose (h : Host.Host) (c : Client.Startup) : Client.Startup :=
  ClientClaims.run [ClientClaims.Sent t; ClientClaims.Receive reserve (sent_by h 0) t] c.
Definition notice (h : Host.Host) (c : Client.Startup) : Client.Startup :=
  ClientClaims.run [ClientClaims.Sent t; ClientClaims.Receive reserve (sent_by h 1) t] c.
Definition permit (h : Host.Host) : Host.Host :=
  HostClaims.run [HostClaims.DoDecide (Host.mk_decision true (Some asked)); HostClaims.DoTick reserve idle] h.
Definition attach (b : Z) (h : Host.Host) (c : Client.Startup) : Client.Startup :=
  ClientClaims.run [ClientClaims.Receive reserve (sent_by h 2) t; ClientClaims.Bound b t] c.
Definition complete (h : Host.Host) (c : Client.Startup) : Host.Host :=
  HostClaims.run [HostClaims.DoTick reserve (arrives (record_of c))] h.

(** A startup with consent, record by record. *)
Definition handshake (h : Host.Host) (c : Client.Startup) : Host.Host * Client.Startup :=
  let h1 := hello h c in
  let c1 := choose h1 c in
  let h2 := hello h1 c1 in
  let c2 := notice h2 c1 in
  let h3 := permit h2 in
  let c3 := attach (cb_id (Host.cfg_binding (Host.config h))) h3 c2 in
  (complete h3 c3, ClientClaims.run [ClientClaims.Sent t] c3).

End handshake.

(** *** Frames *)

Import NegotiationCodec(message_typed, message_ok, message_ok_iff, body, startup_codec, body_small, offer_typed, selection_typed,
  wire_form, versioned, validate_offer_Ok, validate_selection_Ok).
Import NegotiationProps.

Definition frame (m : Message) : bytes := frame_of (kind m) (binding m) (body m) [].

(** A message both ends can exchange at startup. *)
Definition sendable (m : Message) : Prop := message_typed (binding m) m /\ message_ok m /\ fits u32_max (binding m).

Lemma frame_small m : sendable m -> 24 <= len (frame m) <= 1839.
Proof.
  intros (Ht & Hv & _). unfold frame, len. rewrite frame_length. cbn. pose proof (body_small m _ Ht Hv). unfold len in *. lia.
Qed.

Lemma encode_frame m max buf : sendable m -> 1839 <= max -> length buf = 4096%nat ->
  exists n buf', encode m max buf = (Ok n, buf') /\ take (Z.to_nat n) buf' = frame m /\ length buf' = 4096%nat /\ n <> 0.
Proof.
  intros Hm Hmax Hb. pose proof (frame_small m Hm) as Hl. destruct Hm as (Ht & Hv & Hf). unfold frame, len in *. rewrite frame_length in Hl. cbn in Hl.
  pose proof (startup_codec yes ltac:(done) max (binding m) Hf) as Hx.
  rewrite (codec_writes _ _ _ _ _ _ _ _ Hx m buf Ht Hv); [|unfold fits_record, MAX_RECORD; lia|lia|rewrite Hb; vm_compute; congruence].
  eexists _, _. split; [done|]. rewrite Nat2Z.id.
  assert (length (frame_of (kind m) (binding m) (body m) []) = (24 + length (body m))%nat) as El by (rewrite frame_length; cbn; lia).
  split_and!; [by rewrite take_app_length'|rewrite length_app, length_drop, El; lia|lia].
Qed.

Lemma decode_frame_at reserve m max : (forall a, reserve a = true) -> sendable m -> 1839 <= max -> decode reserve (frame m) max (binding m) = Ok m.
Proof.
  intros Hres Hm Hmax. pose proof (frame_small m Hm) as Hl. destruct Hm as (Ht & Hv & Hf).
  apply (codec_reads _ _ _ _ _ _ _ _ (startup_codec reserve Hres max (binding m) Hf) m Ht Hv).
  unfold frame, len in *. rewrite frame_length in Hl. cbn in Hl. unfold fits_record, MAX_RECORD. lia.
Qed.

(** *** The viewer's half *)

Section viewer.
Context (reserve : Alloc -> bool) (Hres : forall a, reserve a = true) (o : Offer) (t : Z).

(** A viewer in a phase, with the record it has pending. *)
Record viewing (ph : Client.Phase) (sel : option Selection) (op : option Client.Opened) (ap : option Client.ApprovalNotice)
  (out : option Message) (s : Client.Startup) : Prop := {
  v_offer : Client.offer s = o;
  v_phase : Client.phase s = ph;
  v_selection : Client.selection s = sel;
  v_opened : Client.opened s = op;
  v_approval : Client.approval s = ap;
  v_plain : Client.inspection s = false;
  v_maximum : 1839 <= Client.maximum s;
  v_time : Client.last_us s <= t < Client.until_us s;
  v_buffer : length (Client.buffer s) = 4096%nat;
  v_pending : match out with
              | Some m => Client.pending_len s <> 0 /\ record_of s = frame m
              | None => Client.pending_len s = 0
              end }.

Lemma tick_ok ph sel op ap out s : viewing ph sel op ap out s -> ph <> Client.ClosedPhase ->
  Client.tick t s = (Ok tt, s <| Client.last_us := t |>) /\ viewing ph sel op ap out (s <| Client.last_us := t |>).
Proof.
  intros [H1 H2 H3 H4 H5 H6 H7 H8 H9 H10] Hp. unfold Client.tick. rewrite bool_decide_false by congruence.
  destruct (Z.ltb_spec t (Client.last_us s)); [lia|]. destruct (Z.leb_spec (Client.until_us s) t); [lia|].
  split; [done|]. split; cbn; solve [done | lia].
Qed.

(** What follows a tick. *)
Lemma startup_after_tick {A} ph sel op ap out (k : unit -> M Client.Startup Client.Error A) s (P : Client.Startup -> Prop) :
  viewing ph sel op ap out s -> ph <> Client.ClosedPhase ->
  (forall s', viewing ph sel op ap out s' -> P (snd (k tt s'))) -> P (snd ((Client.tick t ≫= k) s)).
Proof. intros Hv Hp Hk. destruct (tick_ok _ _ _ _ _ _ Hv Hp) as [E Hv']. unfold mbind, M_bind. rewrite E. by apply Hk. Qed.

Lemma stage_ok ph sel op ap m s : viewing ph sel op ap None s -> sendable m ->
  exists s', Client.stage (encode m) s = (Ok tt, s') /\ viewing ph sel op ap (Some m) s'.
Proof.
  intros [H1 H2 H3 H4 H5 H6 H7 H8 H9 H10] Hm. unfold Client.stage.
  destruct (encode_frame m (Client.maximum s) (Client.buffer s) Hm H7 H9) as (n & b & -> & Hr & Hl & Hn).
  eexists. split; [done|]. by split.
Qed.

Lemma sent_ok sel op ap m ph next s : viewing ph sel op ap (Some m) s ->
  match ph with Client.Hello => Some Client.Capabilities | Client.SelectionPhase => Some Client.Open | Client.Ack => Some Client.Complete | _ => None end = Some next ->
  viewing next sel op ap None (ClientClaims.apply s (ClientClaims.Sent t)).
Proof.
  intros Hv Hn. unfold ClientClaims.apply, Client.sent. apply (startup_after_tick ph sel op ap (Some m)); [done|by intros ->|]. intros s' [H1 H2 H3 H4 H5 H6 H7 H8 H9 [H10 H11]].
  unfold mbind, M_bind, gets. destruct (Z.eqb_spec (Client.pending_len s') 0); [done|]. rewrite H2.
  destruct ph; try done; injection Hn as <-; by split.
Qed.

(** The part of a receive all records share. *)
Lemma receive_ok ph sel op ap s m (P : Client.Startup -> Prop) : viewing ph sel op ap None s -> ph <> Client.ClosedPhase -> ph <> Client.InspectionClosed ->
  sendable m -> binding m = 0 ->
  (forall s', viewing ph sel op ap None s' ->
     exists s'', match ph, m with
       | Client.Capabilities, HostCapabilities host => Client.receive_host reserve host
       | Client.Open, ApprovalRequired req deadline_us r => Client.receive_approval req deadline_us r
       | Client.Open, SessionOpened b sel until => Client.receive_opened b sel until
       | _, _ => fail Client.Order
       end s' = (Ok tt, s'') /\ P s'') ->
  P (ClientClaims.apply s (ClientClaims.Receive reserve (frame m) t)).
Proof using Hres.
  intros Hv Hc Hi Hm Hb Hk. unfold ClientClaims.apply, Client.receive. apply (startup_after_tick ph sel op ap None); [done..|]. intros s' Hv'. destruct (Hk s' Hv') as (s'' & E & HP).
  unfold Client.or_close, Client.receive_inner. destruct Hv' as [H1 H2 H3 H4 H5 H6 H7 H8 H9 H10]. unfold mbind, M_bind, refuse_if, gets.
  rewrite H10. cbn [Z.eqb negb]. rewrite H2, bool_decide_false by done. unfold lift. rewrite <- Hb, (decode_frame_at reserve m) by done. cbn [map_err].
  rewrite E. done.
Qed.

Lemma choose_ok h s common sel : viewing Client.Hello None None None (Some (ClientHello o)) s ->
  check_host o common = Ok tt -> select common = Ok sel -> 1839 <= record_limit (s_limits sel) ->
  sendable (HostCapabilities common) -> sendable (SelectedConfiguration sel) -> sent_by h 0 = frame (HostCapabilities common) ->
  viewing Client.SelectionPhase (Some sel) None None (Some (SelectedConfiguration sel)) (choose reserve t h s).
Proof using Hres.
  intros Hv Hc Hs Hmax Hm1 Hm2 Hf. unfold choose. rewrite Hf. cbn [ClientClaims.run foldl].
  apply (sent_ok _ _ _ _ _ Client.Capabilities) in Hv; [|done].
  apply (receive_ok Client.Capabilities None None None); [done..|]. intros s' Hv'. pose proof Hv' as [H1 H2 H3 H4 H5 H6 H7 H8 H9 H10].
  unfold Client.receive_host, mbind, M_bind, gets, lift. rewrite H1, Hc, H6. cbn [map_err]. rewrite Hs. cbn [map_err modify].
  destruct (stage_ok Client.Capabilities None None None (SelectedConfiguration sel) (s' <| Client.maximum := record_limit (s_limits sel) |>))
    as (s'' & -> & [G1 G2 G3 G4 G5 G6 G7 G8 G9 G10]); [by split|done|].
  eexists. split; [done|]. by split.
Qed.

Lemma notice_ok h s sel q d : viewing Client.SelectionPhase (Some sel) None None (Some (SelectedConfiguration sel)) s ->
  sendable (ApprovalRequired q d (o_role o)) -> sent_by h 1 = frame (ApprovalRequired q d (o_role o)) ->
  viewing Client.Open (Some sel) None (Some (Client.mk_notice q d)) None (notice reserve t h s).
Proof using Hres.
  intros Hv Hm Hf. unfold notice. rewrite Hf. cbn [ClientClaims.run foldl]. apply (sent_ok _ _ _ _ _ Client.Open) in Hv; [|done].
  apply (receive_ok Client.Open (Some sel) None None); [done..|]. intros s' [H1 H2 H3 H4 H5 H6 H7 H8 H9 H10].
  unfold Client.receive_approval, mbind, M_bind, refuse_if. rewrite H1, H5, bool_decide_true by done. destruct Hm as (_ & Hd%message_ok_iff & _).
  destruct (Z.eqb_spec d 0); [done|]. eexists. split; [done|]. by split.
Qed.

Lemma attach_ok h s sel b d u : viewing Client.Open (Some sel) None (Some (Client.mk_notice (remote_session b) d)) None s ->
  sendable (SessionOpened b sel u) -> sendable (BindingAccepted (cb_id b)) -> sent_by h 2 = frame (SessionOpened b sel u) ->
  exists ap, viewing Client.Ack (Some sel) (Some (Client.mk_opened b sel u)) ap (Some (BindingAccepted (cb_id b)))
    (attach reserve t (cb_id b) h s).
Proof using Hres.
  intros Hv Hm Hm2 Hf. unfold attach. rewrite Hf. cbn [ClientClaims.run foldl]. eexists.
  assert (viewing Client.Bind (Some sel) (Some (Client.mk_opened b sel u)) (Some (Client.mk_notice (remote_session b) d)) None
    (ClientClaims.apply s (ClientClaims.Receive reserve (frame (SessionOpened b sel u)) t))) as Hv1.
  { apply (receive_ok Client.Open (Some sel) None (Some (Client.mk_notice (remote_session b) d))); [done..|]. intros s' [H1 H2 H3 H4 H5 H6 H7 H8 H9 H10].
    unfold Client.receive_opened, mbind, M_bind, refuse_if. rewrite H3, H5, bool_decide_true by done. cbn [negb orb is_some_and Client.request].
    destruct Hm as (_ & Hd%message_ok_iff & _). destruct Hd as (_ & Hu & _). destruct (Z.eqb_spec u 0); [done|]. rewrite Z.eqb_refl.
    eexists. split; [done|]. by split. }
  unfold ClientClaims.apply at 1, Client.bound.
  apply (startup_after_tick Client.Bind (Some sel) (Some (Client.mk_opened b sel u)) (Some (Client.mk_notice (remote_session b) d)) None); [done..|].
  intros s' Hv'. pose proof Hv' as [H1 H2 H3 H4 H5 H6 H7 H8 H9 H10]. unfold mbind, M_bind, gets. rewrite H2, H4, bool_decide_true by done.
  cbn [negb orb is_none_or Client.op_binding]. rewrite Z.eqb_refl. cbn [negb].
  destruct (stage_ok _ _ _ _ _ _ Hv' Hm2) as (s'' & E & [G1 G2 G3 G4 G5 G6 G7 G8 G9 G10]). unfold Client.or_close. rewrite E.
  cbn [modify snd]. by split.
Qed.

Lemma finish_ok s sel op ap : viewing Client.Complete (Some sel) (Some op) ap None s -> Client.finish t s = Ok op.
Proof.
  intros Hv. unfold Client.finish. destruct (tick_ok _ _ _ _ _ _ Hv) as [-> [H1 H2 H3 H4 H5 H6 H7 H8 H9 H10]]; [done|].
  cbn [mbind Result_bind]. rewrite H2, bool_decide_true by done. cbn [negb]. by rewrite H4.
Qed.

Lemma new_ok s now_us timeout_us : Client.new o now_us timeout_us = Ok s -> offer_typed o -> 1839 <= record_limit (o_limits o) ->
  now_us <= t < now_us + timeout_us -> viewing Client.Hello None None None (Some (ClientHello o)) s.
Proof.
  unfold Client.new. intros H Ho Hmax Ht. destruct (validate_offer o) as [[]|] eqn:Ev; [|done]. cbn [map_err mbind Result_bind] in H.
  case_match; [done|]. destruct (checked_add u64_max now_us timeout_us) as [u|] eqn:Eu; [|done]. apply checked_add_Some in Eu as [-> Hu].
  cbn [ok_or mbind Result_bind] in H. set (this := Client.mk_startup _ _ _ _ _ _ _ _ _ _ _ _ _) in H.
  destruct (stage_ok Client.Hello None None None (ClientHello o) this) as (s' & E & Hv).
  - by split.
  - split; [by split|]. split; [by apply message_ok_iff|]. vm_compute; split; congruence.
  - rewrite E in H. by injection H as <-.
Qed.

End viewer.

(** *** The host's half *)

(** A call that succeeds, with what it returns and leaves behind. *)
Definition does {S E A} (m : M S E A) (s : S) (Q : A -> S -> Prop) : Prop := exists a s', m s = (Ok a, s') /\ Q a s'.

Section does.
Context {S E : Type}.
Lemma does_bind {A B} (m : M S E A) (k : A -> M S E B) s Q : does m s (fun a s' => does (k a) s' Q) -> does (m ≫= k) s Q.
Proof. intros (a & s' & Em & b & s'' & Ek & HQ). exists b, s''. split; [|done]. unfold mbind, M_bind. by rewrite Em. Qed.
Lemma does_mono {A} (m : M S E A) s (P Q : A -> S -> Prop) : does m s P -> (forall a s', P a s' -> Q a s') -> does m s Q.
Proof. intros (a & s' & Em & HP) H. exists a, s'. auto. Qed.
Lemma does_ret {A} (a : A) s (Q : A -> S -> Prop) : Q a s -> does (E:=E) (mret a) s Q.
Proof. intros H. by exists a, s. Qed.
Lemma does_refuse {B} (c : S -> bool) (e : S -> E) (k : unit -> M S E B) s Q : c s = false -> does (k tt) s Q -> does (refuse_if c e ≫= k) s Q.
Proof. intros Hc Hk. apply does_bind. exists tt, s. split; [|done]. unfold refuse_if. by rewrite Hc. Qed.
Lemma does_lift {A B} (a : A) (r : Result E A) (k : A -> M S E B) s Q : r = Ok a -> does (k a) s Q -> does (lift r ≫= k) s Q.
Proof. intros -> Hk. apply does_bind. by exists a, s. Qed.
End does.

(** Nothing disturbs the host until [hi]: the clock ascends, the lease outlasts it, the
    connection stands and the dialogue stays silent. *)
Fixpoint peace (from hi : Z) (ms : list Host.Moment) : Prop :=
  match ms with
  | [] => True
  | m :: ms =>
      exists now, Host.time m = Some now /\ from <= now <= hi /\ Host.decisions m = []
        /\ (exists d, Host.observe_lease m = Some d /\ hi < d) /\ (exists d, Host.control_lease m = Some d /\ hi < d)
        /\ Host.source_open m = true /\ Host.addresses m = Ok tt /\ Host.ended m = Ok false /\ peace now hi ms
  end.

Lemma peace_weaken from from' hi ms : from' <= from -> peace from hi ms -> peace from' hi ms.
Proof. intros Hle. destruct ms as [|m ms]; [done|]. cbn. intros (now & H1 & H2 & H). exists now. split; [done|]. split; [lia|done]. Qed.

Section host.
Context (reserve : Alloc -> bool) (Hres : forall a, reserve a = true) (c : Host.Configuration).
Context (lo hi deadline : Z) (Hlo : 0 <= lo) (Hdeadline : hi < deadline <= u64_max).
Context (Hlife : hi < lo + authorization_lifetime (Host.cfg_authority c)) (Hlife_fits : hi + authorization_lifetime (Host.cfg_authority c) <= u64_max).
Context (Hrecord : 0 <= Host.cfg_record_lifetime c) (Hrecord_fits : hi + Host.cfg_record_lifetime c <= u64_max).
Context (Hask : Host.cfg_require_approval c = true).

(** An authority in a phase, with its observation deadline. *)
Record standing (ph : Authority.Phase) (obs : option Z) (last : Z) (a : SessionAuthority) : Prop := {
  st_phase : Authority.phase a = ph;
  st_observation : Authority.observation_until a = obs;
  st_clock : clock_faulted a = false;
  st_view : view_until a = None;
  st_policy : policy a = Host.cfg_authority c;
  st_checked l : last_checked a = Some l -> l <= last }.

(** A host in a phase, with the moments it can still count on and the record it has
    pending. *)
Record hosting (n : nat) (ph : Host.Phase) (cs : Z) (ap : Authority.Phase) (obs : option Z) (r : Role) (com : option Offer)
  (sel : option Selection) (inb : Z) (box : list bytes) (out : option Message) (h : Host.Host) : Prop := {
  g_config : Host.config h = c;
  g_phase : Host.phase h = ph;
  g_consent : Host.consent h = cs;
  g_agreeable : cs <> Host.DENIED /\ cs <> Host.RETIRED;
  g_authority : exists l, standing ap obs l (Host.authority h) /\ peace l hi (Host.moments h);
  g_observation : Host.observation_until h = obs /\ forall d, obs = Some d -> hi < d;
  g_role : Host.role h = r;
  g_plain : Host.inspection h = false;
  g_common : Host.intersection h = com;
  g_selected : Host.selected h = sel;
  g_inbound : Host.inbound h = inb;
  g_outbox : Host.outbox h = box;
  g_maximum : 1839 <= Host.maximum h;
  g_until : Host.until h = deadline;
  g_open : Host.observation_only h = false /\ Host.shared_source h = false;
  g_time : lo <= Host.last h <= hi;
  g_moments : peace (Host.last h) hi (Host.moments h) /\ (n <= length (Host.moments h))%nat;
  g_buffer : length (Host.buffer h) = 4096%nat;
  g_pending : match out with
              | Some m => Host.pending_len h <> 0 /\ take (Z.to_nat (Host.pending_len h)) (Host.buffer h) = frame m
              | None => Host.pending_len h = 0
              end }.

Lemma standing_later l l' ph obs a : l <= l' -> standing ph obs l a -> standing ph obs l' a.
Proof. intros Hl [S1 S2 S3 S4 S5 S6]. split; try done. intros x Hx. specialize (S6 x Hx). lia. Qed.

Lemma now_ok n ph cs ap obs r com sel inb box out h : hosting (S n) ph cs ap obs r com sel inb box out h ->
  does Host.now h (fun '(t, m) h' => Host.last h <= t <= hi /\ Host.time m = Some t
    /\ (exists d, Host.observe_lease m = Some d /\ hi < d) /\ (exists d, Host.control_lease m = Some d /\ hi < d)
    /\ Host.source_open m = true /\ Host.addresses m = Ok tt /\ Host.ended m = Ok false
    /\ (Host.last h' = Host.last h /\ Host.authority h' = Host.authority h) /\ standing ap obs t (Host.authority h')
    /\ forall l, Host.last h <= l <= t -> hosting n ph cs ap obs r com sel inb box out (h' <| Host.last := l |>)).
Proof.
  intros Hg. pose proof Hg as [H1 H2 H3 H4 H5 H6 H7 H8 H9 H10 H11 H12 H13 H14 H15 H16 [Hp Hn] H17 H18].
  unfold does, Host.now. destruct (Host.moments h) as [|m ms] eqn:E; [cbn in Hn; lia|]. cbn in Hp.
  destruct Hp as (t & Ht & Hr & Hd & Ho & Hc & Hs & Ha & He & Hp). rewrite Hd, Ht. cbn [foldl].
  destruct H5 as (l0 & Hst & t' & Ht' & Hr' & _). rewrite Ht in Ht'. injection Ht' as <-.
  assert (standing ap obs t (Host.authority h)) as Hst' by (apply (standing_later l0); [lia|done]).
  eexists _, _. split; [done|]. cbn beta iota. split_and!; try done; [lia..|]. intros l Hl. split; cbn; try done.
  - by exists t.
  - lia.
  - cbn in Hn. split; [eapply peace_weaken; [|exact Hp]; lia|lia].
Qed.

Lemma keep_last h : h <| Host.last := Host.last h |> = h.
Proof. by destruct h. Qed.

Lemma peer_check_ok q n ph cs ap obs r com sel inb box out h : hosting (S n) ph cs ap obs r com sel inb box out h ->
  does (Host.peer_check q) h (fun '(d, m) h' => hi < d /\ Host.addresses m = Ok tt /\ Host.ended m = Ok false
    /\ (Host.last h' = Host.last h /\ Host.authority h' = Host.authority h) /\ hosting n ph cs ap obs r com sel inb box out h').
Proof.
  intros Hg. unfold Host.peer_check. apply does_bind. eapply does_mono; [by eapply now_ok|].
  intros [t m] h' (Ht & Htm & (d1 & Ho & Hd1) & (d2 & Hc & Hd2) & Hs & Ha & He & [Hl Hau] & Hp & Hk). cbn beta iota.
  assert (hosting n ph cs ap obs r com sel inb box out h') as Hg' by (rewrite <- (keep_last h'), Hl; apply Hk; lia).
  apply (does_lift (match q with RequestControl => d2 | Observe => d1 end)); [by destruct q; rewrite ?Ho, ?Hc|].
  apply does_refuse; [destruct q; lia|]. apply does_ret. cbn. split_and!; try done. destruct q; lia.
Qed.

Lemma check_ok n ph cs ap obs r com sel inb box out h : hosting (2 + n) ph cs ap obs r com sel inb box out h ->
  match ph with Host.ClosedPhase | Host.Detached => False | _ => True end ->
  does Host.check h (fun t h' => (Host.last h' = t /\ standing ap obs t (Host.authority h')) /\ hosting n ph cs ap obs r com sel inb box out h').
Proof using Hdeadline.
  intros Hg Hph. unfold Host.check. apply does_refuse; [rewrite (g_phase _ _ _ _ _ _ _ _ _ _ _ _ Hg); by destruct ph|].
  apply does_bind. eapply does_mono; [by eapply now_ok|].
  intros [t m] h1 (Ht & Htm & _ & _ & Hs & _ & _ & [Hl _] & Hp & Hk). cbn beta iota.
  assert (hosting (S n) ph cs ap obs r com sel inb box out (h1 <| Host.last := t |>)) as Hg1 by (apply Hk; lia).
  pose proof (Hk (Host.last h) ltac:(lia)) as [_ _ _ _ _ [Go Gd] _ _ _ _ _ _ _ Gu [_ Gs] _ _ _ _]. cbn in Go, Gu, Gs.
  apply does_refuse; [lia|]. apply does_refuse.
  { rewrite Gu, Go. apply orb_false_iff. split; [lia|]. destruct obs as [d|]; [|done]. cbn. specialize (Gd d eq_refl). lia. }
  apply does_bind. eexists _, _. split; [done|]. apply does_refuse; [cbn; by rewrite Gs|].
  apply does_refuse. { rewrite (g_consent _ _ _ _ _ _ _ _ _ _ _ _ Hg1). pose proof (g_agreeable _ _ _ _ _ _ _ _ _ _ _ _ Hg1) as [? ?]. lia. }
  apply does_bind. eexists _, _. split; [done|]. apply does_bind. eapply does_mono; [by eapply peer_check_ok|].
  intros [d m'] h2 (_ & Ha & He & [Hl2 Hau] & Hg2). cbn beta iota. apply (does_lift tt); [done|]. apply (does_lift false); [done|].
  apply does_refuse; [done|]. apply does_ret. split; [|done]. rewrite Hau. by split.
Qed.

Lemma stage_host_ok m n ph cs ap obs r com sel inb box h : hosting (3 + n) ph cs ap obs r com sel inb box None h ->
  match ph with Host.ClosedPhase | Host.Detached => False | _ => True end -> sendable m ->
  does (Host.stage m) h (fun _ h' => hosting n ph cs ap obs r com sel inb box (Some m) h').
Proof using Hdeadline Hrecord Hrecord_fits.
  intros Hg Hph Hm. unfold Host.stage. apply does_refuse; [rewrite (g_pending _ _ _ _ _ _ _ _ _ _ _ _ Hg); done|].
  apply does_bind. eapply does_mono; [by apply (check_ok (1 + n))|]. intros t h1 [[Hl _] Hg1]. cbn beta.
  apply does_bind. eexists _, _. split; [done|]. apply does_bind. eapply does_mono; [by eapply peer_check_ok|].
  intros [d m'] h2 (_ & _ & _ & [Hl2 _] & Hg2). cbn beta iota. apply does_bind. eexists _, _. split; [done|].
  rewrite (g_config _ _ _ _ _ _ _ _ _ _ _ _ Hg2). pose proof (g_time _ _ _ _ _ _ _ _ _ _ _ _ Hg1).
  apply (does_lift (t + Host.cfg_record_lifetime c)). { unfold checked_add. by replace (_ <=? _) with true by lia. }
  apply does_bind. eexists _, _. split; [done|]. set (h3 := h2 <| Host.send_by := _ |>).
  apply does_bind. eexists _, _. split; [done|]. cbn beta.
  set (h4 := match Host.observation_until h3 with Some _ => _ | None => _ end).
  assert (hosting n ph cs ap obs r com sel inb box None h4) as Hg4.
  { assert (hosting n ph cs ap obs r com sel inb box None h3) as Hg3 by (destruct Hg2; by split). clearbody h3. unfold h4.
    destruct (Host.observation_until h3); [destruct Hg3; by split|done]. }
  clearbody h4. destruct Hg4 as [G1 G2 G3 G4 G5 G6 G7 G8 G9 G10 G11 G12 G13 G14 G15 G16 G17 G18 G19].
  unfold does, Host.encode_pending. destruct (encode_frame m (Host.maximum h4) (Host.buffer h4) Hm G13 G18) as (k & b & -> & Hr & Hb & Hk).
  eexists _, _. split; [done|]. by split.
Qed.

(** The authority's calls. *)
Lemma mark_ok l a : standing Identified None l a -> does mark_capabilities_checked a (fun _ a' => standing CapabilitiesChecked None l a').
Proof. intros [S1 S2 S3 S4 S5 S6]. unfold mark_capabilities_checked. apply does_refuse; [by rewrite S1|]. eexists _, _. split; [done|]. by split. Qed.
Lemma require_ok l a : standing CapabilitiesChecked None l a -> does Authority.require_approval a (fun _ a' => standing WaitingApproval None l a').
Proof. intros [S1 S2 S3 S4 S5 S6]. unfold Authority.require_approval. apply does_refuse; [by rewrite S1|]. eexists _, _. split; [done|]. by split. Qed.

Lemma check_time_ok ph obs l t a : standing ph obs l a -> l <= t ->
  does (check_time t) a (fun _ a' => a' = a <| last_checked := Some t |> /\ standing ph obs t a').
Proof.
  intros [S1 S2 S3 S4 S5 S6] Ht. unfold does, check_time. rewrite S3. cbn [orb].
  replace (is_some_and _ (last_checked a)) with false by (destruct (last_checked a) as [x|]; [cbn; specialize (S6 x eq_refl); lia|done]).
  unfold lapse_if_due. cbn [view_until upd setter]. rewrite S4. eexists _, _. split; [done|]. split; [done|]. split; cbn; try done. intros x [= <-]. lia.
Qed.

Lemma authorize_ok l t a : standing WaitingApproval None l a -> l <= t -> lo <= t <= hi ->
  does (authorize_observation t) a (fun _ a' => standing ViewOpening (Some (t + authorization_lifetime (Host.cfg_authority c))) t a').
Proof using Hlo Hlife Hlife_fits.
  intros Hs Hl Ht. unfold authorize_observation. apply does_bind. eapply does_mono; [by eapply check_time_ok|].
  intros [] a' (_ & [S1 S2 S3 S4 S5 S6]). apply does_refuse; [by rewrite S1|]. apply does_bind.
  eexists (t + authorization_lifetime (Host.cfg_authority c)), _. unfold readr, deadline_from, future_deadline, HostTime.instant_add.
  rewrite S5. unfold checked_add. replace (_ <=? u64_max) with true by lia. replace (t <? _) with true by lia. split; [done|].
  eexists _, _. split; [done|]. split; cbn; try done.
Qed.

Lemma delivery_ok d l t a : standing ViewOpening (Some d) l a -> l <= t < d ->
  does (authorize_observation_delivery t) a (fun _ a' => standing ViewOpening (Some d) t a').
Proof.
  intros Hs Ht. unfold authorize_observation_delivery, check_live. apply does_bind. eapply does_mono; [eapply check_time_ok; [done|lia]|].
  intros [] a' (_ & Hs'). pose proof Hs' as [S1 S2 S3 S4 S5 S6]. exists tt, a'. split; [|done]. unfold readr, check_observation_live. rewrite S1, S2. cbn.
  by replace (t <? d) with true by lia.
Qed.

Lemma deadline_ok d l t a : standing ViewOpening (Some d) l a -> l <= t < d ->
  does (observation_deadline t) a (fun d' a' => d' = d /\ standing ViewOpening (Some d) t a').
Proof.
  intros Hs Ht. unfold observation_deadline. apply does_bind. eapply does_mono; [by eapply delivery_ok|].
  intros [] a' Hs'. exists d, a'. split; [|done]. unfold readr. by rewrite (st_observation _ _ _ _ Hs').
Qed.

Lemma does_authority {A B} (op : AuthM A) (k : A -> M Host.Host Host.Error B) h (P : A -> SessionAuthority -> Prop) Q :
  does op (Host.authority h) P -> (forall x a, P x a -> does (k x) (h <| Host.authority := a |>) Q) ->
  does (Host.with_authority op ≫= k) h Q.
Proof.
  intros (x & a & E & HP) Hk. apply does_bind. exists x, (h <| Host.authority := a |>). split; [|by apply Hk]. unfold Host.with_authority. by rewrite E.
Qed.

(** *** Handlers *)

Context (b : ControlBinding) (Hb : Host.cfg_binding c = b).

Lemma open_ok n r com sel inb box h : hosting (5 + n) Host.Approval Host.ALLOWED WaitingApproval None r com (Some sel) inb box None h ->
  (forall d, hi < d <= u64_max -> sendable (SessionOpened b sel d)) ->
  does Host.open_observation h (fun _ h' => exists d, hi < d <= u64_max
    /\ hosting n Host.Bind Host.CONSUMED ViewOpening (Some d) r com (Some sel) inb box (Some (SessionOpened b sel d)) h').
Proof using Hlo Hdeadline Hlife Hlife_fits Hrecord Hrecord_fits Hask Hb.
  intros Hg Hsend. unfold Host.open_observation. apply does_bind. eapply does_mono; [by apply (check_ok (3 + n))|].
  intros t h1 [[Hl Hst] Hg1]. cbn beta. apply does_bind. eexists _, _. split; [done|]. rewrite (g_config _ _ _ _ _ _ _ _ _ _ _ _ Hg1), Hask.
  pose proof Hg1 as [G1 G2 G3 G4 G5 G6 G7 G8 G9 G10 G11 G12 G13 G14 G15 G16 G17 G18 G19].
  apply does_bind. unfold Host.consume_consent. apply does_refuse; [rewrite G3; done|]. eexists _, _. split; [done|].
  set (h2 := h1 <| Host.consent := _ |>). set (d := t + authorization_lifetime (Host.cfg_authority c)).
  eapply does_authority; [apply (authorize_ok t t); [exact Hst|lia|lia]|]. intros [] a Ha. cbn beta.
  eapply does_authority; [apply (deadline_ok d t t); [exact Ha|unfold d; lia]|]. intros d' a' [-> Ha']. cbn beta.
  apply does_bind. eexists _, _. split; [done|]. apply does_bind. eexists _, _. split; [done|].
  apply does_bind. eexists sel, _. split; [unfold readr; cbn; by rewrite G10|].
  match goal with |- does (Host.stage ?m ≫= _) ?h0 _ => assert (hosting (3 + n) Host.Approval Host.CONSUMED ViewOpening (Some d) r com (Some sel) inb box None h0) as Hg2 end.
  { split; cbn; try done; [exists t; split; [done|rewrite <- Hl; apply G17]|]. split; [done|]. intros x [= <-]. unfold d. lia. }
  match goal with |- does (Host.stage (SessionOpened ?x _ _) ≫= _) _ _ => replace x with b by (cbn; by rewrite G1, Hb) end. apply does_bind.
  eapply does_mono; [apply (stage_host_ok (SessionOpened b sel d) n); [exact Hg2|done|apply Hsend; unfold d; lia]|].
  intros [] h3 Hg3. eexists _, _. split; [done|]. exists d. split; [unfold d; lia|]. destruct Hg3. by split.
Qed.

Lemma exchange_idle n ph cs ap obs r com sel inb box out h : hosting n ph cs ap obs r com sel inb box out h -> ph <> Host.Bind ->
  does (Host.exchange idle) h (fun x h' => x = None
    /\ hosting n ph cs ap obs r com sel inb (box ++ match out with Some m => [frame m] | None => [] end) None h').
Proof.
  intros Hg Hp. pose proof Hg as [G1 G2 G3 G4 G5 G6 G7 G8 G9 G10 G11 G12 G13 G14 G15 G16 G17 G18 G19].
  unfold does, Host.exchange, idle, mbind, M_bind, gets. destruct out as [m|].
  - destruct G19 as [G19 G20]. destruct (Z.eqb_spec (Host.pending_len h) 0); [done|]. cbn [negb lift ok_or Host.a_send modify mret M_ret].
    cbn [Host.phase upd setter]. rewrite G2, bool_decide_false by done. cbn. eexists _, _. split; [done|]. split; [done|].
    split; try done. cbn. by rewrite G12, G20.
  - rewrite G19. cbn. rewrite G2, bool_decide_false by done. cbn. eexists _, _. split; [done|]. split; [done|]. by rewrite app_nil_r.
Qed.

Lemma exchange_bind n cs ap obs r com sel inb box m h : hosting n Host.Bind cs ap obs r com sel inb box (Some m) h ->
  does (Host.exchange idle) h (fun x h' => x = None /\ hosting n Host.Ack cs ap obs r com sel (cb_id b) (box ++ [frame m]) None h').
Proof using Hb.
  intros [G1 G2 G3 G4 G5 G6 G7 G8 G9 G10 G11 G12 G13 G14 G15 G16 G17 G18 [G19 G20]].
  unfold does, Host.exchange, idle, mbind, M_bind, gets. destruct (Z.eqb_spec (Host.pending_len h) 0); [done|].
  cbn [negb lift ok_or Host.a_send modify mret M_ret]. cbn [Host.phase upd setter]. rewrite G2, bool_decide_true by done. cbn.
  eexists _, _. split; [done|]. split; [done|]. split; try done; cbn; [by rewrite G1, Hb|by rewrite G12, G20].
Qed.

Lemma exchange_arrives m n ph cs ap obs r com sel inb box h : hosting n ph cs ap obs r com sel inb box None h -> ph <> Host.Bind -> sendable m ->
  does (Host.exchange (arrives (frame m))) h (fun x h' => x = Some (frame m) /\ hosting n ph cs ap obs r com sel inb box None h').
Proof.
  intros Hg Hp Hm. pose proof Hg as [G1 G2 G3 G4 G5 G6 G7 G8 G9 G10 G11 G12 G13 G14 G15 G16 G17 G18 G19].
  pose proof (frame_small m Hm) as Hl. revert Hl. generalize (frame m). intros bs Hl.
  unfold does, Host.exchange, arrives, mbind, M_bind, gets. rewrite G19. cbn. rewrite G2, bool_decide_false by done. cbn. unfold refuse_if. cbn.
  replace (Host.maximum h <? len bs) with false by lia. eexists _, _. split; [done|]. by split.
Qed.

(** Any record but the last of an inspection, up to its handler. *)
Lemma consume_ok m n ph cs ap obs r com sel inb box h Q : hosting (2 + n) ph cs ap obs r com sel inb box None h ->
  match ph with Host.ClosedPhase | Host.Detached => False | _ => True end -> sendable m -> binding m = inb ->
  (forall h1, hosting n ph cs ap obs r com sel inb box None h1 ->
     does match ph, m with
          | Host.Hello, ClientHello o => Host.receive_hello reserve o
          | Host.SelectionPhase, SelectedConfiguration sel => Host.receive_selection sel
          | Host.Ack, BindingAccepted x => if x =? cb_id b then Host.receive_accepted else fail Host.Order
          | _, _ => fail Host.Order
          end h1 Q) ->
  does (Host.consume reserve (frame m)) h Q.
Proof using Hres Hdeadline Hb.
  intros Hg Hp Hm Hbm Hk. unfold Host.consume. apply does_bind. eapply does_mono; [by eapply check_ok|]. intros t h1 [_ Hg1]. cbn beta.
  specialize (Hk h1 Hg1). destruct Hg1 as [G1 G2 G3 G4 G5 G6 G7 G8 G9 G10 G11 G12 G13 G14 G15 G16 G17 G18 G19].
  do 3 (apply does_bind; eexists _, _; split; [done|]). rewrite G8, andb_false_r. apply does_bind. eexists _, _. split; [done|].
  apply (does_lift m); [rewrite G11, <- Hbm, (decode_frame_at reserve m) by done; done|]. apply does_bind. eexists _, _. split; [done|].
  rewrite G2, G1, Hb. done.
Qed.

Lemma hello_ok o common n box h : hosting (4 + n) Host.Hello 0 Identified None Observe None None 0 box None h ->
  Inspection.requested o = false -> intersect reserve (Host.cfg_offer c) o = Ok common -> 1839 <= record_limit (o_limits common) ->
  sendable (HostCapabilities common) ->
  does (Host.receive_hello reserve o) h (fun _ h' =>
    hosting n Host.SelectionPhase 0 Identified None (o_role o) (Some common) None 0 box (Some (HostCapabilities common)) h').
Proof using Hdeadline Hrecord Hrecord_fits.
  intros Hg Hq Hi Hmax Hm. unfold Host.receive_hello. rewrite Hq. apply does_bind. eexists _, _. split; [done|].
  set (h0 := h <| Host.inspection := false |>). assert (hosting (4 + n) Host.Hello 0 Identified None Observe None None 0 box None h0) as Hg0 by (destruct Hg; by split).
  clearbody h0. apply does_bind. eexists _, _. split; [done|]. rewrite (g_plain _ _ _ _ _ _ _ _ _ _ _ _ Hg0).
  apply does_bind, does_ret. apply does_refuse; [by rewrite (proj1 (g_open _ _ _ _ _ _ _ _ _ _ _ _ Hg0))|].
  apply does_bind. eapply does_mono; [by eapply peer_check_ok|]. intros [d m'] h1 (_ & _ & _ & _ & Hg1).
  apply does_bind. eexists _, _. split; [done|]. rewrite (g_config _ _ _ _ _ _ _ _ _ _ _ _ Hg1).
  apply (does_lift common); [by rewrite Hi|]. apply does_bind. eexists _, _. split; [done|].
  set (h2 := _ <| Host.role := _ |>). assert (hosting (3 + n) Host.Hello 0 Identified None (o_role o) None None 0 box None h2) as Hg2 by (destruct Hg1; by split).
  clearbody h2. apply does_bind. eapply does_mono; [by eapply (stage_host_ok (HostCapabilities common))|].
  intros [] h3 Hg3. eexists _, _. split; [done|]. destruct Hg3. by split.
Qed.

Lemma selection_ok common sel n r box h : hosting (3 + n) Host.SelectionPhase 0 Identified None r (Some common) None 0 box None h ->
  check_against sel common = Ok tt -> 1839 <= record_limit (s_limits sel) -> sendable (ApprovalRequired (remote_session b) deadline r) ->
  does (Host.receive_selection sel) h (fun _ h' =>
    hosting n Host.Approval Host.WAITING WaitingApproval None r (Some common) (Some sel) 0 box (Some (ApprovalRequired (remote_session b) deadline r)) h').
Proof using Hdeadline Hrecord Hrecord_fits Hask Hb.
  intros Hg Hc Hmax Hm. pose proof Hg as [G1 G2 G3 G4 G5 G6 G7 G8 G9 G10 G11 G12 G13 G14 G15 G16 G17 G18 G19].
  unfold Host.receive_selection. apply does_bind. eexists common, _. split; [unfold readr; by rewrite G9|].
  apply (does_lift tt); [by rewrite Hc|]. apply does_bind. eexists _, _. split; [done|].
  destruct G5 as (l & Hst & Hpl). eapply does_authority; [by apply mark_ok|]. intros [] a Ha. set (h1 := _ <| Host.authority := a |>).
  assert (hosting (3 + n) Host.SelectionPhase 0 CapabilitiesChecked None r (Some common) (Some sel) 0 box None h1) as Hg1 by (split; try done; by exists l).
  clearbody h1. clear Ha a l Hst Hpl G1 G2 G3 G4 G6 G7 G8 G9 G10 G11 G12 G13 G14 G15 G16 G17 G18 G19.
  destruct Hg1 as [G1 G2 G3 G4 G5 G6 G7 G8 G9 G10 G11 G12 G13 G14 G15 G16 G17 G18 G19].
  apply does_bind. eexists _, _. split; [done|]. rewrite G1, Hask. destruct G5 as (l & Hst & Hpl). eapply does_authority; [by apply require_ok|].
  intros [] a Ha. set (h2 := _ <| Host.authority := a |>).
  assert (hosting (3 + n) Host.SelectionPhase 0 WaitingApproval None r (Some common) (Some sel) 0 box None h2) as Hg2 by (split; try done; by exists l).
  clearbody h2. do 3 (apply does_bind; eexists _, _; split; [done|]).
  rewrite (g_config _ _ _ _ _ _ _ _ _ _ _ _ Hg2), (g_until _ _ _ _ _ _ _ _ _ _ _ _ Hg2), (g_role _ _ _ _ _ _ _ _ _ _ _ _ Hg2), Hb.
  apply does_bind. eapply does_mono; [by eapply (stage_host_ok (ApprovalRequired (remote_session b) deadline r))|].
  intros [] h3 Hg3. eexists _, _. split; [done|]. destruct Hg3. by split.
Qed.

Lemma accepted_ok d n r com sel inb box h : hosting (S n) Host.Ack Host.CONSUMED ViewOpening (Some d) r com sel inb box None h ->
  does Host.receive_accepted h (fun _ h' => hosting n Host.Complete Host.CONSUMED ViewOpening (Some d) r com sel inb box None h').
Proof.
  intros Hg. unfold Host.receive_accepted. apply does_bind. eapply does_mono; [by eapply now_ok|].
  intros [t m] h1 (Ht & _ & _ & _ & _ & _ & _ & [Hl _] & Hst & Hk). cbn beta iota.
  pose proof (g_observation _ _ _ _ _ _ _ _ _ _ _ _ Hg) as [_ Hd]. specialize (Hd d eq_refl). pose proof (Hk t ltac:(lia)) as Hg1.
  eapply does_authority; [apply (delivery_ok d t t); [exact Hst|lia]|]. intros [] a Ha. cbn beta. eexists _, _. split; [done|].
  specialize (Hk (Host.last h) ltac:(lia)). rewrite <- Hl, keep_last in Hk. destruct Hk as [G1 G2 G3 G4 G5 G6 G7 G8 G9 G10 G11 G12 G13 G14 G15 G16 G17 G18 G19].
  split; try done. exists t. split; [done|]. apply (g_moments _ _ _ _ _ _ _ _ _ _ _ _ Hg1).
Qed.

(** *** Steps *)

Lemma tick_does a h (P : Host.Host -> Prop) : does (Host.step reserve a) h (fun _ h' => P h') -> P (HostClaims.apply h (HostClaims.DoTick reserve a)).
Proof. intros (x & h' & E & HP). cbn [HostClaims.apply]. unfold Host.tick. by rewrite E. Qed.

(** Phases in which a step waits for a record. *)
Definition listening (ph : Host.Phase) : Prop := match ph with Host.Hello | Host.SelectionPhase | Host.Ack => True | _ => False end.

Lemma step_record m k n ph cs ap obs r com sel inb box ph' cs' ap' obs' r' com' sel' inb' box' out' h :
  hosting (2 + k) ph cs ap obs r com sel inb box None h -> listening ph -> sendable m ->
  match ph' with Host.ClosedPhase | Host.Detached => False | _ => True end ->
  (forall h1, hosting k ph cs ap obs r com sel inb box None h1 ->
     does (Host.consume reserve (frame m)) h1 (fun _ h' => hosting (2 + n) ph' cs' ap' obs' r' com' sel' inb' box' out' h')) ->
  hosting n ph' cs' ap' obs' r' com' sel' inb' box' out' (HostClaims.apply h (HostClaims.DoTick reserve (arrives (frame m)))).
Proof using Hdeadline.
  intros Hg Hp Hm Hp' Hk. apply tick_does. unfold Host.step. apply does_bind. eapply does_mono; [eapply check_ok; [exact Hg|by destruct ph]|].
  intros t h1 [_ Hg1]. cbn beta. apply does_bind. eexists _, _. split; [done|].
  rewrite (g_phase _ _ _ _ _ _ _ _ _ _ _ _ Hg1), bool_decide_false by (by intros ->). apply does_bind. eexists _, _. split; [done|].
  rewrite (g_phase _ _ _ _ _ _ _ _ _ _ _ _ Hg1), (bool_decide_false (ph = Host.Approval)) by (by intros ->). cbn [andb].
  apply does_bind, does_ret, does_bind. eapply does_mono; [eapply (exchange_arrives m); [exact Hg1|by intros ->|done]|].
  intros x h2 [-> Hg2]. apply does_bind. eapply does_mono; [by apply Hk|]. intros [] h3 Hg3.
  apply does_bind. eapply does_mono; [by eapply check_ok|]. intros t' h4 [_ Hg4]. by apply does_ret.
Qed.

Lemma step_idle n ph cs ap obs r com sel inb box m h : hosting (4 + n) ph cs ap obs r com sel inb box (Some m) h ->
  ph = Host.SelectionPhase \/ ph = Host.Approval ->
  hosting n ph cs ap obs r com sel inb (box ++ [frame m]) None (HostClaims.apply h (HostClaims.DoTick reserve idle)).
Proof using Hdeadline.
  intros Hg Hp. apply tick_does. unfold Host.step. apply does_bind. eapply does_mono; [eapply (check_ok (2 + n)); [exact Hg|by destruct Hp as [->| ->]]|].
  intros t h1 [_ Hg1]. cbn beta. apply does_bind. eexists _, _. split; [done|].
  rewrite (g_phase _ _ _ _ _ _ _ _ _ _ _ _ Hg1), bool_decide_false by (by destruct Hp as [->| ->]). apply does_bind. eexists _, _. split; [done|].
  pose proof (g_pending _ _ _ _ _ _ _ _ _ _ _ _ Hg1) as [Hn _]. destruct (Z.eqb_spec (Host.pending_len h1) 0); [done|]. rewrite andb_false_r.
  apply does_bind, does_ret, does_bind. eapply does_mono; [eapply exchange_idle; [exact Hg1|by destruct Hp as [->| ->]]|].
  intros x h2 [-> Hg2]. apply does_bind, does_ret, does_bind. eapply does_mono; [eapply check_ok; [exact Hg2|by destruct Hp as [->| ->]]|].
  intros t' h4 [_ Hg4]. by apply does_ret.
Qed.

Lemma permit_ok asked n r com sel box h : hosting (9 + n) Host.Approval Host.WAITING WaitingApproval None r com (Some sel) 0 box None h ->
  asked < deadline -> (forall d, hi < d <= u64_max -> sendable (SessionOpened b sel d)) ->
  exists d, hi < d <= u64_max /\
    hosting n Host.Ack Host.CONSUMED ViewOpening (Some d) r com (Some sel) (cb_id b) (box ++ [frame (SessionOpened b sel d)]) None (permit reserve asked h).
Proof using Hlo Hdeadline Hlife Hlife_fits Hrecord Hrecord_fits Hask Hb.
  intros Hg Ha Hs. unfold permit. cbn [HostClaims.run foldl].
  assert (hosting (9 + n) Host.Approval Host.ALLOWED WaitingApproval None r com (Some sel) 0 box None
    (HostClaims.apply h (HostClaims.DoDecide (Host.mk_decision true (Some asked))))) as Hg0.
  { destruct Hg as [G1 G2 G3 G4 G5 G6 G7 G8 G9 G10 G11 G12 G13 G14 G15 G16 G17 G18 G19]. cbn [HostClaims.apply]. unfold Host.decide.
    cbn [Host.decided_at Host.allow]. rewrite G14, G3. destruct (Z.leb_spec deadline asked); [lia|]. cbn. by split. }
  apply tick_does. unfold Host.step. apply does_bind. eapply does_mono; [by apply (check_ok (7 + n)) in Hg0|].
  intros t h1 [_ Hg1]. cbn beta. apply does_bind. eexists _, _. split; [done|]. rewrite (g_phase _ _ _ _ _ _ _ _ _ _ _ _ Hg1), bool_decide_false by done.
  apply does_bind. eexists _, _. split; [done|].
  rewrite (g_phase _ _ _ _ _ _ _ _ _ _ _ _ Hg1), (g_pending _ _ _ _ _ _ _ _ _ _ _ _ Hg1), (g_consent _ _ _ _ _ _ _ _ _ _ _ _ Hg1), bool_decide_true by done.
  cbn [andb Z.eqb]. apply does_bind. eapply does_mono; [by apply (open_ok (2 + n)) in Hg1|]. intros [] h2 (d & Hd & Hg2).
  apply does_bind. eapply does_mono; [by eapply exchange_bind|]. intros x h3 [-> Hg3]. apply does_bind, does_ret, does_bind.
  eapply does_mono; [by apply (check_ok n) in Hg3|]. intros t' h4 [_ Hg4]. apply does_ret. by exists d.
Qed.

Lemma hosted o common n h s : hosting (14 + n) Host.Hello 0 Identified None Observe None None 0 [] None h ->
  record_of s = frame (ClientHello o) -> sendable (ClientHello o) -> Inspection.requested o = false ->
  intersect reserve (Host.cfg_offer c) o = Ok common -> 1839 <= record_limit (o_limits common) -> sendable (HostCapabilities common) ->
  hosting n Host.SelectionPhase 0 Identified None (o_role o) (Some common) None 0 [frame (HostCapabilities common)] None (hello reserve h s).
Proof using Hres Hdeadline Hrecord Hrecord_fits Hb.
  intros Hg Hf Hm Hq Hi Hmax Hm2. unfold hello. rewrite Hf. cbn [HostClaims.run foldl]. apply (step_idle n _ _ _ _ _ _ _ _ []); [|by left].
  eapply (step_record (ClientHello o) (12 + n) (4 + n)); [exact Hg|done|done|done|]. intros h1 Hg1.
  eapply (consume_ok _ (10 + n)); [exact Hg1|done|done|done|]. intros h2 Hg2. by eapply (hello_ok _ _ (6 + n)).
Qed.

Lemma selected_ok common sel n r box h s : hosting (13 + n) Host.SelectionPhase 0 Identified None r (Some common) None 0 box None h ->
  record_of s = frame (SelectedConfiguration sel) -> sendable (SelectedConfiguration sel) -> check_against sel common = Ok tt ->
  1839 <= record_limit (s_limits sel) -> sendable (ApprovalRequired (remote_session b) deadline r) ->
  hosting n Host.Approval Host.WAITING WaitingApproval None r (Some common) (Some sel) 0 (box ++ [frame (ApprovalRequired (remote_session b) deadline r)]) None
    (hello reserve h s).
Proof using Hres Hdeadline Hrecord Hrecord_fits Hask Hb.
  intros Hg Hf Hm Hc Hmax Hm2. unfold hello. rewrite Hf. cbn [HostClaims.run foldl]. apply step_idle; [|by right].
  eapply (step_record (SelectedConfiguration sel) (11 + n) (4 + n)); [exact Hg|done|done|done|]. intros h1 Hg1.
  eapply (consume_ok _ (9 + n)); [exact Hg1|done|done|done|]. intros h2 Hg2. by eapply (selection_ok common sel (6 + n)).
Qed.

Lemma completed d n r com sel box h s : hosting (7 + n) Host.Ack Host.CONSUMED ViewOpening (Some d) r com sel (cb_id b) box None h ->
  record_of s = frame (BindingAccepted (cb_id b)) -> sendable (BindingAccepted (cb_id b)) ->
  hosting n Host.Complete Host.CONSUMED ViewOpening (Some d) r com sel (cb_id b) box None (complete reserve h s).
Proof using Hres Hdeadline Hb.
  intros Hg Hf Hm. unfold complete. rewrite Hf. cbn [HostClaims.run foldl].
  eapply (step_record (BindingAccepted (cb_id b)) (5 + n) n); [exact Hg|done|done|done|]. intros h1 Hg1.
  eapply (consume_ok _ (3 + n)); [exact Hg1|done|done|done|]. intros h2 Hg2. cbn beta iota. rewrite Z.eqb_refl. by eapply (accepted_ok d (2 + n)).
Qed.

Lemma observe_ok d n ph cs r com sel inb box out h : hosting (S n) ph cs ViewOpening (Some d) r com sel inb box out h ->
  does Host.observe_admitted h (fun _ h' => hosting n ph cs ViewOpening (Some d) r com sel inb box out h').
Proof.
  intros Hg. unfold Host.observe_admitted. apply does_bind. eapply does_mono; [by eapply now_ok|].
  intros [t m] h1 (Ht & _ & (l & Hlease & _) & _ & _ & _ & _ & [Hl _] & Hst & Hk). cbn beta iota.
  pose proof (g_observation _ _ _ _ _ _ _ _ _ _ _ _ Hg) as [_ Hd]. specialize (Hd d eq_refl). pose proof (Hk t ltac:(lia)) as Hg1.
  apply (does_lift l); [by rewrite Hlease|]. destruct (delivery_ok d t t _ Hst ltac:(lia)) as ([] & a & E & Ha).
  eexists tt, _. split; [unfold Host.with_authority; by rewrite E|].
  specialize (Hk (Host.last h) ltac:(lia)). rewrite <- Hl, keep_last in Hk. destruct Hk as [G1 G2 G3 G4 G5 G6 G7 G8 G9 G10 G11 G12 G13 G14 G15 G16 G17 G18 G19].
  split; try done. exists t. split; [done|]. apply (g_moments _ _ _ _ _ _ _ _ _ _ _ _ Hg1).
Qed.

Lemma observation_ok d n ph cs r com sel inb box out h : hosting (2 + n) ph cs ViewOpening (Some d) r com sel inb box out h ->
  does Host.observation h (fun _ h' => hosting n ph cs ViewOpening (Some d) r com sel inb box out h').
Proof.
  intros Hg. assert (does (_ ← Host.observe_admitted; Host.observe_admitted) h (fun _ h' => hosting n ph cs ViewOpening (Some d) r com sel inb box out h'))
    as ([] & h' & E & Hg').
  { apply does_bind. eapply does_mono; [by eapply (observe_ok d (S n))|]. intros [] h' Hg'. by eapply observe_ok. }
  exists tt, h'. split; [|done]. unfold Host.observation. by rewrite E.
Qed.

Lemma finished d r com sel box h : hosting 4 Host.Complete Host.CONSUMED ViewOpening (Some d) r com (Some sel) (cb_id b) box None h ->
  does Host.finish h (fun x _ => Host.os_binding x = b /\ Host.os_selected x = sel /\ observing (Authority.phase (Host.os_authority x)) = true).
Proof using Hdeadline Hb.
  intros Hg. match goal with |- does _ _ ?Q => assert (does Host.transfer h Q) as (x & h' & E & HQ) end;
    [|exists x, h'; split; [unfold Host.finish; by rewrite E|done]].
  unfold Host.transfer. apply does_bind. eapply does_mono; [by apply (check_ok 2) in Hg|]. intros t h1 [_ Hg1]. cbn beta.
  apply does_refuse; [by rewrite (g_phase _ _ _ _ _ _ _ _ _ _ _ _ Hg1)|]. apply does_bind.
  eapply does_mono; [by eapply (observation_ok d 0)|]. intros [] h2 [G1 G2 G3 G4 (l & G5 & _) G6 G7 G8 G9 G10 G11 G12 G13 G14 G15 G16 G17 G18 G19].
  apply does_bind. eexists sel, _. split; [unfold readr; by rewrite G10|].
  apply does_bind. eexists _, _. split; [done|]. apply does_bind. eexists _, _. split; [done|]. apply does_ret. cbn.
  rewrite G1, (st_phase _ _ _ _ G5). by rewrite Hb.
Qed.

End host.

(** *** One session *)

Lemma wire_form_negotiated p q : wire_form p -> wire_form q -> wire_form (Limits.negotiated p q).
Proof.
  intros [Vp Dp] [Vq Dq]. split; [by apply Limits.negotiated_valid|]. intros f Hf. rewrite Limits.lim_negotiated, Dp, Dq by done. lia.
Qed.

Lemma versioned_common a b : versioned a -> versioned (common a b).
Proof.
  intros Ha. unfold versioned in *. rewrite Forall_forall in *. intros x Hx. unfold common in Hx. apply list_elem_of_omap in Hx as (y & Hy & E).
  destruct (find_first _ b); [|done]. injection E as <-. cbn. auto.
Qed.

Lemma common_typed reserve own o r : offer_typed own -> offer_typed o -> intersect reserve own o = Ok r -> offer_typed r.
Proof.
  intros (_ & L1 & V1) (_ & L2 & _) (_ & _ & _ & _ & _ & _ & _ & ->)%intersect_Ok. split_and!; cbn.
  - by repeat constructor.
  - by apply wire_form_negotiated.
  - by apply versioned_common.
Qed.

(** The host just started. *)
Lemma start_hosting c ms h hi : Host.start c ms (Ok tt) = Ok h -> 1839 <= record_limit (o_limits (Host.cfg_offer c)) ->
  peace (Host.last h) hi (Host.moments h) -> (47 <= length (Host.moments h))%nat ->
  hosting c (Host.last h) hi (Host.until h) 47 Host.Hello 0 Identified None Observe None None 0 [] None h
  /\ cb_id (Host.cfg_binding c) <> 0 /\ validate_offer (Host.cfg_offer c) = Ok tt /\ Host.until h <= u64_max.
Proof.
  unfold Host.start. intros (timeout & Hv & H)%Result_bind_Ok Hmax Hp Hn. destruct (Host.now _) as [[[cur m]|e] h1]; [|done].
  destruct (Host.peer_check _ h1) as [[[d m']|e] h2]; [|done]. apply Result_bind_Ok in H as (u & Hu & H). apply Result_bind_Ok in H as ([] & _ & [= <-]).
  destruct (checked_add u64_max cur timeout) as [x|] eqn:E; [|done]. injection Hu as ->. apply checked_add_Some in E as [-> ?].
  cbn [Host.last Host.moments Host.until Host.fresh] in *. split.
  - destruct (Host.moments h2) as [|m2 ms2] eqn:E2; [cbn in Hn; lia|]. pose proof Hp as (t & _ & Ht & _). split; try done; cbn; try lia. eexists. by split.
  - unfold Host.validate in Hv. destruct (validate_offer (Host.cfg_offer c)) as [[]|]; [|done]. cbn in Hv. apply Result_bind_Ok in Hv as (x & _ & Hv).
    case_match eqn:Eg; [done|]. repeat (apply orb_false_iff in Eg as [Eg ?]). split_and!; [lia|done|done].
Qed.

(** The six records of the handshake. *)
Lemma records_sendable c o r sel hi deadline : offer_typed o -> validate_offer o = Ok tt -> offer_typed r -> validate_offer r = Ok tt ->
  selection_typed sel -> validate_selection sel = Ok tt -> cb_id (Host.cfg_binding c) <> 0 ->
  fits u32_max (cb_id (Host.cfg_binding c)) -> fits u128_max (host_boot (Host.cfg_binding c)) ->
  fits u128_max (os_session (Host.cfg_binding c)) -> fits u128_max (remote_session (Host.cfg_binding c)) -> 0 <= hi < deadline /\ deadline <= u64_max ->
  sendable (ClientHello o) /\ sendable (HostCapabilities r) /\ sendable (SelectedConfiguration sel)
  /\ sendable (ApprovalRequired (remote_session (Host.cfg_binding c)) deadline (o_role o))
  /\ (forall d, hi < d <= u64_max -> sendable (SessionOpened (Host.cfg_binding c) sel d))
  /\ sendable (BindingAccepted (cb_id (Host.cfg_binding c))).
Proof.
  intros To Vo Tr Vr Ts Vs Hid B1 B2 B3 B4 Hd. assert (fits u32_max 0) as F0 by (vm_compute; split; congruence). split_and!.
  - split; [by split|]. split; [by apply message_ok_iff|done].
  - split; [by split|]. split; [by apply message_ok_iff|done].
  - split; [by split|]. split; [by apply message_ok_iff|done].
  - split; [split; [split; [done|unfold fits; lia]|done]|]. split; [apply message_ok_iff; lia|done].
  - intros d Hd'. split; [split; [|done]; split; [by split_and!|split; [done|unfold fits; lia]]|].
    split; [apply message_ok_iff; split_and!; [done|lia|done]|done].
  - split; [by split|]. split; [by apply message_ok_iff|done].
Qed.

(** C7.  Two honest ends open one session.  If the two offers intersect, both ends accept
    records of 1839 bytes, the host's environment stays at peace for 47 readings of its
    clock, no longer than the startup and the first authorization last, and the local
    user consents in time, then the six records of the handshake lead both ends to
    their end: the viewer and the host hold a session with the same selection, the
    whole intersection in the role the viewer asked for, under the binding of the
    host's configuration, and the host's authority observes. *)
Theorem honest_startup_opens_one_session reserve c o r ms h s t0 timeout t asked hi :
  (forall a, reserve a = true) -> Host.start c ms (Ok tt) = Ok h -> Client.new o t0 timeout = Ok s ->
  Host.cfg_require_approval c = true -> Inspection.requested o = false ->
  offer_typed (Host.cfg_offer c) -> offer_typed o -> intersect reserve (Host.cfg_offer c) o = Ok r ->
  1839 <= Limits.max_control_message_bytes (o_limits r) ->
  fits u32_max (cb_id (Host.cfg_binding c)) -> fits u128_max (host_boot (Host.cfg_binding c)) ->
  fits u128_max (os_session (Host.cfg_binding c)) -> fits u128_max (remote_session (Host.cfg_binding c)) ->
  t0 <= t < t0 + timeout ->
  peace (Host.last h) hi (Host.moments h) -> (47 <= length (Host.moments h))%nat -> 0 <= Host.last h ->
  hi < Host.until h -> 0 <= asked < Host.until h ->
  hi < Host.last h + authorization_lifetime (Host.cfg_authority c) <= u64_max -> hi + authorization_lifetime (Host.cfg_authority c) <= u64_max ->
  0 <= Host.cfg_record_lifetime c -> hi + Host.cfg_record_lifetime c <= u64_max ->
  exists op x h', Client.finish t (snd (handshake reserve t asked h s)) = Ok op
    /\ Host.finish (fst (handshake reserve t asked h s)) = (Ok x, h')
    /\ Host.os_selected x = mk_selection 0 NATIVE_PROFILE PROFILE_VERSION (o_role o) (o_limits r) (o_capabilities r)
    /\ Client.op_selection op = Host.os_selected x
    /\ Client.op_binding op = Host.cfg_binding c /\ Host.os_binding x = Host.cfg_binding c
    /\ observing (Authority.phase (Host.os_authority x)) = true.
Proof.
  intros Hres Hstart Hnew Hask Hq Town To Hi Hmax B1 B2 B3 B4 Ht Hp Hn H0 Hhi Hasked Hlife Hlife2 Hrec Hrec2.
  destruct (exchange_agrees _ _ _ _ Hi) as (Hch & Hsel & Hag). set (sel := mk_selection _ _ _ _ _ _) in *.
  assert (forall l, Limits.tighter (o_limits r) l -> 1839 <= record_limit l) as Hrl.
  { intros l Hl. specialize (Hl ControlMessageBytes). cbn in Hl. unfold record_limit, MAX_RECORD. lia. }
  destruct (intersect_honours _ _ _ _ Hi) as [[L1 _ _] [L2 _ _]].
  assert (1839 <= record_limit (o_limits r)) as Hrr by (apply Hrl; intros f; lia).
  destruct (start_hosting _ _ _ _ Hstart (Hrl _ L1) Hp Hn) as (Hg & Hid & Vown & Hu64).
  pose proof (new_ok o t s t0 timeout Hnew To (Hrl _ L2) Ht) as Hv.
  pose proof (intersect_valid _ _ _ _ Hi) as Vr. pose proof (common_typed _ _ _ _ Town To Hi) as Tr.
  pose proof (g_time _ _ _ _ _ _ _ _ _ _ _ _ _ _ _ _ Hg) as Hlt.
  assert (validate_offer o = Ok tt) as Vo by (by apply intersect_Ok in Hi as (_ & ? & _)).
  assert (selection_typed sel) as Ts by (by destruct Tr as (_ & ? & ?); split).
  assert (validate_selection sel = Ok tt) as Vs by (by apply check_against_Ok in Hag as (? & _)).
  destruct (records_sendable c o r sel hi (Host.until h)) as (M1 & M2 & M3 & M4 & M5 & M6); [done..|lia|].
  unfold handshake. rewrite (g_config _ _ _ _ _ _ _ _ _ _ _ _ _ _ _ _ Hg). cbn [fst snd].
  pose proof (proj2 (v_pending _ _ _ _ _ _ _ _ Hv)) as Hf1. cbn beta iota in Hf1.
  apply (hosted reserve Hres c (Host.last h) hi (Host.until h) (conj Hhi Hu64) Hrec Hrec2 _ eq_refl o r 33 h s) in Hg as Hg1; [|done..].
  set (h1 := hello reserve h s) in *.
  assert (sent_by h1 0 = frame (HostCapabilities r)) as Hs0 by (unfold sent_by; by rewrite (g_outbox _ _ _ _ _ _ _ _ _ _ _ _ _ _ _ _ Hg1)).
  pose proof (choose_ok reserve Hres o t h1 s r sel Hv Hch Hsel Hrr M2 M3 Hs0) as Hv1. set (s1 := choose reserve t h1 s) in *.
  pose proof (proj2 (v_pending _ _ _ _ _ _ _ _ Hv1)) as Hf3. cbn beta iota in Hf3.
  pose proof (selected_ok reserve Hres c (Host.last h) hi (Host.until h) (conj Hhi Hu64) Hrec Hrec2 Hask _ eq_refl r sel 20 (o_role o) _ h1 s1
    Hg1 Hf3 M3 Hag Hrr M4) as Hg2. set (h2 := hello reserve h1 s1) in *.
  assert (sent_by h2 1 = frame (ApprovalRequired (remote_session (Host.cfg_binding c)) (Host.until h) (o_role o))) as Hs1
    by (unfold sent_by; by rewrite (g_outbox _ _ _ _ _ _ _ _ _ _ _ _ _ _ _ _ Hg2)).
  pose proof (notice_ok reserve Hres o t h2 s1 sel _ _ Hv1 M4 Hs1) as Hv2. set (s2 := notice reserve t h2 s1) in *.
  destruct (permit_ok reserve c (Host.last h) hi (Host.until h) H0 (conj Hhi Hu64) ltac:(lia) Hlife2 Hrec Hrec2 Hask _ eq_refl
    asked 11 (o_role o) _ sel _ h2 Hg2 ltac:(lia) M5) as (d & Hd & Hg3). set (h3 := permit reserve asked h2) in *.
  assert (sent_by h3 2 = frame (SessionOpened (Host.cfg_binding c) sel d)) as Hs2
    by (unfold sent_by; by rewrite (g_outbox _ _ _ _ _ _ _ _ _ _ _ _ _ _ _ _ Hg3)).
  destruct (attach_ok reserve Hres o t h3 s2 sel (Host.cfg_binding c) (Host.until h) d Hv2 (M5 d Hd) M6 Hs2) as (ap & Hv3).
  set (s3 := attach reserve t (cb_id (Host.cfg_binding c)) h3 s2) in *.
  pose proof (proj2 (v_pending _ _ _ _ _ _ _ _ Hv3)) as Hf6. cbn beta iota in Hf6.
  pose proof (completed reserve Hres c (Host.last h) hi (Host.until h) (conj Hhi Hu64) _ eq_refl d 4 _ _ _ _ h3 s3 Hg3 Hf6 M6) as Hg4.
  destruct (finished c (Host.last h) hi (Host.until h) (conj Hhi Hu64) _ eq_refl d _ _ _ _ _ Hg4) as (x & h' & Hfin & Hb1 & Hb2 & Hb3).
  apply (sent_ok o t _ _ _ _ _ Client.Complete) in Hv3 as Hv4; [|done]. apply finish_ok in Hv4.
  exists (Client.mk_opened (Host.cfg_binding c) sel d), x, h'. cbn [ClientClaims.run Client.op_selection Client.op_binding].
  split_and!; [exact Hv4|exact Hfin|exact Hb2|by symmetry|reflexivity|exact Hb1|exact Hb3].
Qed.

Definition demo_moment (time : Z) : Host.Moment :=
  Host.mk_moment [] (Some time) (Some 90000000) (Some 90000000) true (Ok tt) (Ok false).
Definition demo_configuration : Host.Configuration :=
  Host.mk_configuration NegotiationProps.demo_host (mk_control 7 11 12 13) true 2000000 plan_defaults 500000.
Definition demo_client : Client.Startup :=
  match Client.new NegotiationProps.demo_viewer 100 5000000 with Ok s => s | Err _ => Client.mk_startup NegotiationProps.demo_viewer None None None false None 0 Client.ClosedPhase [] 0 0 0 0 end.
Definition demo_start : Host.Host :=
  match Host.start demo_configuration (replicate 64 (demo_moment 1000)) (Ok tt) with Ok h => h | Err _ => Host.fresh demo_configuration 0 0 [] end.
Definition demo_terms : Offer :=
  match intersect yes NegotiationProps.demo_host NegotiationProps.demo_viewer with Ok r => r | Err _ => NegotiationProps.demo_host end.

Lemma demo_host_started : Host.start demo_configuration (replicate 64 (demo_moment 1000)) (Ok tt) = Ok demo_start.
Proof. vm_compute. reflexivity. Qed.
Lemma demo_viewing : Client.new NegotiationProps.demo_viewer 100 5000000 = Ok demo_client.
Proof. vm_compute. reflexivity. Qed.

Lemma demo_peace n : peace 1000 1000 (replicate n (demo_moment 1000)).
Proof.
  induction n as [|n IH]; [done|]. exists 1000. split_and!; try done; by exists 90000000.
Qed.

Lemma demo_moments : Host.last demo_start = 1000 /\ Host.moments demo_start = replicate 62 (demo_moment 1000).
Proof. vm_compute. split; reflexivity. Qed.

Lemma demo_offer_typed caps versions role : Forall (fits u16_max) versions -> versioned caps ->
  offer_typed (mk_offer versions 1 0 role Limits.ABSOLUTE caps).
Proof. intros Hv Hc. split; [done|]. split; [|done]. split; [|done]. intros f. destruct f; vm_compute; split; congruence. Qed.

Lemma honest_startup_opens_one_session_witness :
  exists op x h', Client.finish 101 (snd (handshake yes 101 1000 demo_start demo_client)) = Ok op
    /\ Host.finish (fst (handshake yes 101 1000 demo_start demo_client)) = (Ok x, h')
    /\ Client.op_selection op = Host.os_selected x /\ Client.op_binding op = mk_control 7 11 12 13.
Proof.
  destruct (honest_startup_opens_one_session yes demo_configuration NegotiationProps.demo_viewer demo_terms
    (replicate 64 (demo_moment 1000)) demo_start demo_client 100 5000000 101 1000 1000) as (op & x & h' & H1 & H2 & _ & H3 & H4 & _).
  - done.
  - exact demo_host_started.
  - exact demo_viewing.
  - done.
  - done.
  - apply demo_offer_typed; repeat constructor; vm_compute; congruence.
  - apply demo_offer_typed; repeat constructor; vm_compute; congruence.
  - vm_compute. reflexivity.
  - vm_compute. congruence.
  - vm_compute. split; congruence.
  - vm_compute. split; congruence.
  - vm_compute. split; congruence.
  - vm_compute. split; congruence.
  - lia.
  - rewrite (proj1 demo_moments), (proj2 demo_moments). apply demo_peace.
  - vm_compute. lia.
  - vm_compute. congruence.
  - vm_compute. congruence.
  - vm_compute. split; congruence.
  - vm_compute. split; congruence.
  - vm_compute. congruence.
  - vm_compute. congruence.
  - vm_compute. congruence.
  - exists op, x, h'. exact (conj H1 (conj H2 (conj H3 H4))).
Defined.

(** The same startup, as the calls each end sees. *)
Definition demo_h1 : Host.Host := hello yes demo_start demo_client.
Definition demo_c1 : Client.Startup := choose yes 101 demo_h1 demo_client.
Definition demo_h2 : Host.Host := hello yes demo_h1 demo_c1.
Definition demo_c2 : Client.Startup := notice yes 101 demo_h2 demo_c1.
Definition demo_h3 : Host.Host := permit yes 1000 demo_h2.
Definition demo_c3 : Client.Startup := attach yes 101 7 demo_h3 demo_c2.

Definition demo_client_ops : list ClientClaims.Op :=
  [ClientClaims.Sent 101; ClientClaims.Receive yes (sent_by demo_h1 0) 101; ClientClaims.Sent 101;
   ClientClaims.Receive yes (sent_by demo_h2 1) 101; ClientClaims.Receive yes (sent_by demo_h3 2) 101;
   ClientClaims.Bound 7 101; ClientClaims.Sent 101].
Definition demo_host_ops : list HostClaims.Op :=
  [HostClaims.DoTick yes (arrives (record_of demo_client)); HostClaims.DoTick yes idle;
   HostClaims.DoTick yes (arrives (record_of demo_c1)); HostClaims.DoTick yes idle;
   HostClaims.DoDecide (Host.mk_decision true (Some 1000)); HostClaims.DoTick yes idle;
   HostClaims.DoTick yes (arrives (record_of demo_c3))].

Lemma viewer_opens_on_its_own_terms_witness :
  match Client.finish 102 (ClientClaims.run demo_client_ops demo_client) with
  | Ok op => ClientClaims.acceptable NegotiationProps.demo_viewer (Client.op_selection op)
  | Err _ => False
  end.
Proof.
  destruct (Client.finish 102 (ClientClaims.run demo_client_ops demo_client)) as [op|e] eqn:E.
  - exact (proj1 (ClientClaims.viewer_opens_on_its_own_terms _ 100 5000000 demo_client demo_client_ops 102 op demo_viewing E)).
  - vm_compute in E. discriminate.
Defined.

Lemma observation_needs_consent_witness :
  observing (Authority.phase (Host.authority (HostClaims.run demo_host_ops demo_start))) = true
  /\ Host.taken (HostClaims.run demo_host_ops demo_start) = [true].
Proof.
  assert (observing (Authority.phase (Host.authority (HostClaims.run demo_host_ops demo_start))) = true) as H by (vm_compute; reflexivity).
  split; [exact H|]. exact (HostClaims.observation_needs_consent demo_configuration _ (Ok tt) demo_start demo_host_ops demo_host_started eq_refl H).
Defined.

Lemma host_opens_on_agreed_terms_witness :
  match Host.finish (HostClaims.run demo_host_ops demo_start) with
  | (Ok s, _) => Host.os_binding s = mk_control 7 11 12 13
  | _ => False
  end.
Proof.
  destruct (Host.finish (HostClaims.run demo_host_ops demo_start)) as [[s|e] h'] eqn:E.
  - exact (proj1 (HostClaims.host_opens_on_agreed_terms demo_configuration _ (Ok tt) demo_start demo_host_ops s h' demo_host_started E)).
  - vm_compute in E. discriminate.
Defined.

End Session.
